(* ===== verification/_CoqProject ===== *)
-Q . S2P
Prelude.v
RpcBreaker.v
GoStrings.v
Codec.v
StoreErrors.v
StoreTypes.v
StoreBreaker.v
GoTime.v
Cursor.v
GoSort.v
Keyset.v
GoJson.v
RpcTypes.v
Retry.v
GoFloat.v
GoJsonValue.v
Backpressure.v
ReorgTracker.v
SqliteStore.v
StoreReorg.v
IngesterCore.v
ReorgCoord.v
Ingester.v
IngesterCycle.v
IngesterRun.v
IngesterDry.v
IngesterPersist.v
SqliteWorld.v
IngesterSweep.v
IngesterFrontier.v
IngesterProgress.v
SimRpc.v
Failover.v
FailoverState.v
FailoverProps.v
FailoverSim.v
Pruner.v
PrunerSim.v
Horizon.v
Backfill.v
BackfillPlan.v
BackfillProps.v
BackfillRanged.v
BackfillSim.v
Scope.v
Broadcast.v
BroadcastSim.v
IdemStore.v
IdemApi.v
IdemLedger.v
IdemProps.v
IdemSim.v
IdemProgress.v
RateLimit.v
RateLimitProps.v
ApiKey.v
ActionAudit.v
ActionAuditStore.v
ActionAuditLaws.v
ActionAuditProps.v
AuditActions.v
AuditActionsProps.v
Counting.v
Auditor.v
AuditorProps.v
AuditorSim.v
PoolBudget.v
PoolBudgetProps.v
Replay.v
Webhook.v
EventQuery.v
Export.v
ApiQuery.v
ContractsList.v
TenantStore.v
TenantWatch.v
AuthCache.v
AuthCacheProps.v
FieldEncryption.v
SubscriptionStore.v
