(* ===== verification/Prelude.v ===== *)
(** * SoroTrail verification library

    SoroTrail indexes the contract events of Soroban (Stellar) networks. An
    ingester polls a JSON-RPC endpoint for pages of events, decodes them, writes
    them to a store, keeps the frontier it has reached, and repairs the store when
    the chain reorganises; HTTP handlers page through the stored rows with opaque
    cursors, subscribers receive new events as they are stored, and a pruner
    deletes the rows past retention. A backfill fills in older history from a
    Horizon server, a replay decodes stored XDR again, an auditor compares what is
    stored with the chain, and webhooks carry new events to subscribers' servers.
    The API serves several tenants: it caches their credentials, keeps their watch
    lists within caps, replays repeated writes, limits the rate of its clients,
    encrypts webhook secrets and keeps a hash chain of administrative actions. This
    library models these parts of the Go sources
    under src/ and proves what makes them correct. This file holds the shared
    definitions.

    ** Parts, files and sources

    - Machine arithmetic and Go's library: Prelude (wrap-around integers, results,
      durations, chunking), GoStrings (strings, strconv, byte order), Codec
      (SHA-256, HMAC, base64), GoSort, GoJson (compaction), GoFloat (IEEE
      doubles), GoJsonValue (decoded JSON and its deep equality), GoTime (the
      calendar, the time layout of the SQLite store), Counting, Keyset (pages
      of an ordered table that changes between them). All are executable.
    - Circuit breakers: RpcBreaker (internal/rpc/circuit_breaker.go and its
      client), StoreBreaker (internal/store/breaker.go). The state is a record,
      every method a function of the clock reading; histories are lists of
      operations, or interleaved steps for the store breaker.
    - Retries: RpcTypes and Retry (internal/rpc/types.go, client.go, retry.go,
      transient.go). Errors are trees that errors.Is and errors.As walk.
    - Failover: Failover (internal/rpc/failover.go: several endpoints behind one
      client, with their states, ledger ranges, observed events and cursor
      stream), FailoverState (what the updates of the state keep, divergence),
      FailoverProps (the calls, over every history), FailoverSim (scripted
      endpoints). The endpoints and their rate limiters are the class
      [Providers]; what the theorems on returned pages need of them is
      [ProviderLaws].
    - Retention: Pruner (internal/pruner/pruner.go, the whole sweep and its loop
      over the class [PruneEnv], and the theorems, with the laws [PruneLaws] of the
      store), PrunerSim (the SQLite tables discharge them).
    - Backfill: Horizon (internal/horizon/: the page request and the extraction of
      rows from transaction meta, with their identifiers), Backfill
      (internal/backfill/backfill.go and internal/store/backfill_state.go over
      the class [BackfillEnv]), BackfillPlan (partition, watermark, pacing),
      BackfillProps and BackfillRanged (completeness of the two kinds of run,
      with the laws [BackfillLaws]), BackfillSim (a scripted Horizon, and the runs
      that lose events). The Stellar SDK's XDR codec is the class [XdrSdk].
    - Live delivery: Scope (internal/store/scope.go, what a key may read),
      Broadcast (internal/broadcast/broadcast.go and the two event matchers, the
      second in internal/api/broker.go), BroadcastSim (publishers, closers and
      subscribers as interleaved steps, and the theorems).
    - Repeated writes: IdemStore (internal/store/idempotency.go, the three ledgers),
      IdemApi (internal/api/idempotency.go, the middleware as a machine of
      interleaved requests on several replicas), IdemLedger (the laws [IdemLaws] and
      the stores that keep them), IdemProps, IdemSim, IdemProgress.
    - Rate limits: RateLimit (internal/api/ratelimit.go), RateLimitProps. The token
      bucket of golang.org/x/time is an argument.
    - API keys: ApiKey (internal/apikey/apikey.go, the key format of
      internal/api/auth.go).
    - Administrative actions: ActionAudit and ActionAuditStore
      (internal/store/action_audit.go: normalisation, hashing, the memory and SQL
      logs), ActionAuditLaws (the class [AuditLaws] and its instances),
      ActionAuditProps, AuditActions (internal/audit/actions.go and the recorder of
      internal/api/action_audit.go), AuditActionsProps.
    - The auditor: Auditor (internal/audit/audit.go over the classes [AuditStore],
      [Reingester] and [AuditEnv]), AuditorProps (the laws [AuditorLaws] and the
      theorem), AuditorSim (the census and the findings table of SQLite, an
      endpoint that keeps the laws, and passes that go wrong where the laws do not
      hold).
    - Connection pool: PoolBudget (internal/store/pool_budget.go, Acquire and
      release as interleaved threads), PoolBudgetProps.
    - Replay: Replay (internal/replay/replay.go and internal/store/replay_postgres.go
      over the class [ReplayStore], the Postgres tables and the theorem).
    - Webhooks: Webhook (internal/webhook/webhook.go over the class [WebhookEnv],
      and SQLite's statements on subscriptions).
    - Listings: EventQuery (QueryEvents of both SQL stores, and the interface
      [Lister] their pages implement), Export (internal/api/export.go and
      export_stream.go over the class [ExportEnv], proved against [Lister]),
      ApiQuery (the filters of requests, internal/api/handlers.go and
      internal/api/queries/), ContractsList (the listing of contracts).
    - Tenants: TenantStore (internal/store/tenant.go and tenant_postgres.go),
      TenantWatch (concurrent additions to the watch lists, statement by
      statement), AuthCache and AuthCacheProps (internal/api/auth_cache.go,
      stats_cache.go, internal/store/invalidation.go: cached credentials and the
      channel that invalidates them).
    - Secrets and subscriptions: FieldEncryption (internal/store/encryption.go: the
      keyring and its envelopes, over an executable AES-256-GCM), SubscriptionStore
      (the Postgres statements of internal/store/subscription_postgres.go, the
      rotation of keys, the check at startup, and the handlers of
      internal/api/handlers_subscription.go).
    - Cursors: Cursor (internal/store/cursor.go), every encoder and decoder of the
      signed envelope and the TOID identifiers.
    - Lag: Backpressure (internal/ingester/backpressure.go), the coordinator that
      slows background work down while ingestion lags.
    - Store: StoreErrors, StoreTypes, SqliteStore (internal/store/sqlite.go, the
      tables of the pipeline as finite maps and sets keyed as the schema keys
      them), StoreReorg (internal/store/reorg.go, the whole reconciliation
      transaction).
    - Reorganisations: ReorgTracker (fingerprint window) and ReorgCoord (the
      coordination of concurrent HandleReorgRange calls), both
      internal/ingester/reorg.go.
    - Ingester: IngesterCore (options, pure helpers, the interfaces and the
      state-and-error monad), Ingester (persistence and reorg handling of one
      cycle), IngesterCycle (positions, pages, window sweeps, runOnce),
      IngesterRun (the Run loop and the lag alarm), all internal/ingester/.
      The RPC client, the store, the decoder, the dead-letter sink and the clock
      are Go interfaces; here they are the classes [RpcClient], [Store] and
      [Services] over a world, so the theorems hold for every implementation.
    - Theorems about the ingester: IngesterPersist (nothing is dropped),
      IngesterSweep (windows are complete, paging terminates), IngesterFrontier
      (the frontier never passes unstored data), IngesterProgress (a healthy
      environment lets a sweep finish), IngesterDry (dry runs only read). What
      they rely on of the environment is stated as classes of laws
      ([StoreLaws], [RpcLaws], [FrontierLaws], [Healthy], [ReadLaws]); SqliteWorld and SimRpc
      discharge them for the SQLite tables with scripted failures and for an
      endpoint that serves a log in short pages, and run the theorems there.

    ** How the parts interact

    Run repeats runOnce. runOnce asks the store for the watch list and the
    position, requests pages (through the retry client and the breaker), converts
    the events, writes them in chunks, sends undecodable or unstorable ones to
    dead_letters, records a fingerprint per ledger, and finally saves the
    frontier. A regressed chain head or a diverging fingerprint goes to
    HandleReorgRange, which fetches the canonical events of the range and calls
    the store's reconciliation. checkLag feeds the coordinator, which the pruner
    asks before a sweep. With several endpoints the RPC client is the failover
    client, whose re-anchor error makes the ingester drop its cursor, and whose
    retention gap counts as a ledger out of range. The pruner reads the frontier
    the ingester saves and deletes below it. Stored events are published to the
    broadcaster, which filters them by the scope and the filter of each
    subscriber. The auditor reads the ingested frontier, fetches and counts a range
    of ledgers, and has the ingester fetch it again where the counts differ. A
    write of the API passes the rate limiter, then the idempotency middleware,
    which claims its key in the ledger of the store; the recorder attributes the
    administrative ones to an action and appends them to the log. Before that the
    credential of a request is resolved through the cache, which every replica
    keeps current over the invalidation channel; its scope limits what listings,
    exports and streams return. Every call of the store takes a permit of the pool
    budget. The notifier matches stored events with the enabled subscriptions,
    whose secrets the store decrypts with the keyring, and signs each delivery.

    ** What the theorems show

    - No loss: a persisted page leaves every event stored or dead-lettered; a
      finished window holds every matching event of the log; the frontier moves
      forward only over such windows, whatever the confirmation window for
      reorganisations, and back only for a regressed head or lost retention;
      without failures, a regressed head or an event budget a sweep does reach the
      end of its window.
    - Failover: an accepted page comes from a provider that is not behind the
      cursor, retains the requested ledger, is on the expected network, agrees
      with what was seen before, and issued the cursor; a call returns
      after at most one turn per provider; outages back off within bounds and
      a recovered provider is used again.
    - Backfill: a run that was not resumed and whose ranges were not retried has
      stored every row of its span when it reports completion, and it ends; the
      partition is exact, the watermark has no gap, requests are spaced. The
      excluded cases do lose rows, as BackfillSim shows.
    - Retention: a sweep deletes only rows below the frontier it has read, whose
      ids match its policy, after its own archive call has succeeded; where ids are
      unique its batches amount to one deletion; and it ends. A row of another
      network with the same id goes too, as PrunerSim shows.
    - Live delivery: over all interleavings no send hits a closed channel,
      buffers stay bounded, every delivered event was allowed and matched; a
      revoked scope takes effect at once; for events with a contract the two
      matchers agree on contracts, types, ledgers and times. A webhook is
      delivered in at most five signed attempts with the documented pauses.
    - Repeated writes: over all interleavings of requests, replicas, sweeps and
      failures, a key is served at most once while its record lasts, a replayed
      response is then the one an execution of the same request gave, the SQLite
      ledger refines the memory one (sweeps included), and every request can finish.
    - Rate limits: with a rate set, a client gets at most its quota per window, and
      at most twice the quota in any hour or day, whatever is evicted.
    - Administrative actions: what any sequence of records and prunes leaves
      verifies, and a query returns its newest records; no key is recorded; over
      every store and its wrappers a tenant reads its own records only;
      a retention sweep ends with nothing left to prune; every route is attributed
      to its action. Minted keys are parsed and redacted as they should be.
    - The auditor: as long as the endpoint retains the ledgers and its short pages
      are last ones, the mark never moves back and only covers ledgers whose stored
      events are as many as the chain's.
    - The pool: every semaphore and counter is the number of its holders in all
      interleavings; the ingester finds a slot below its floor once the releases
      under way have run.
    - Replay: a run ends, touches no raw column, can be resumed, and when it
      completes every row of its range is decoded by its decoder.
    - Listings: following the cursors of an export or of the contracts lists every
      row exactly once and in order, while rows of other keys come and go; the
      cases the hypotheses leave out (ids shared by networks, scopes that SQLite
      ignores) have concrete counterexamples.
    - Tenants: the tables stay consistent under every operation; concurrent
      additions never pass the caps and can always finish; cached credentials are
      never older than their lifetime, and announced changes evict them; whatever a
      tenant asks of its subscriptions, it neither sees nor changes another's.
    - Secrets: what a keyring encrypts, every keyring with that key reads back; a
      rotation ends, is invisible to readers and never overwrites a secret changed
      beside it, and when it completes the old keys can go.
    - Reorganisations: a reconciliation replaces exactly the range, removes what
      was derived from retracted events, never moves a frontier forward;
      concurrent callers are serialised and each is covered by a pass that began
      after its call; divergence is detected exactly within the window.
    - Loops: paging and retrying terminate; Run keeps its backoff in bounds and
      ends only with its context; the lag alarm alternates.
    - Breakers and backpressure: invariants over all interleavings, bounded calls
      during an outage, single probes, bounded deferral.
    - Cursors: round trips, rejection of foreign and tampered cursors, order and
      recovery of ledger numbers, one sentinel for the failures of the store's
      decoders.

    ** Bounds and fuel

    Integers are [Z] with the wrap-around of their Go type written where the code
    can leave it ([u32], [u64], [i32], [i64]). The paging loops take fuel because
    the endpoint decides their length and fail with [IFuel] when it runs out;
    fuel above the number of events of the log is proved enough. The failover
    loops exclude one provider per turn, and the number of providers plus one is
    proved enough; the batches of a prune sweep need the number of rows plus one,
    the pages of a backfill one more than the transactions of the log. An audit
    fetch takes fuel for its pages and fails without it; the repair loop takes one
    turn more than the attempts left, which is proved enough; the turns of a
    retention sweep of the action log are an argument, and one more than the number
    of batches is proved enough. A replay needs one turn more than there are rows, an
    export one page more than there are matching rows, a walk over contracts one
    more than there are contracts, a rotation one batch more than the ids the table
    has or gets; each is proved enough. The chunk loop
    takes the number of events, and each chunk has at least one. The chunking of
    lists, the integer printers and the JSON scanner take the length or size of
    their input. Run is bounded by a number of turns that the theorems quantify
    over. Times are nanoseconds since the epoch; a clock reading is an argument.

    ** What is not modelled

    The batches of a window sweep run one after the other (SweepConcurrency 1).
    Logging other than the lag alarm, metrics and tracing are left out. The XDR
    decoder and the address extractor are arguments (Stellar SDK). The calls of
    the failover client run one after the other, its state counters and mutexes
    being atomic steps of one call; the iteration order of Go maps and the
    archiver of the pruner are arguments. The workers of a ranged backfill take
    their ranges one after the other. Of the API's broker only the matcher is
    modelled. The token bucket, bcrypt, the random source of keys and nonces and the
    text of JSON numbers are arguments, and so are the collation of Postgres, the
    text jsonb gives back and the JSON operators of the engines; an error the engine
    raises inside a statement is a failure of the call. Of the Postgres store the
    statements on tenants, subscriptions, idempotency keys, action records, replays
    and the listings are modelled, of the SQLite store those of the pipeline, the
    audit, the pruner, the listings and the webhooks. The LISTEN connection, the
    single-tenant key check, the caches of specs, the rest of both stores and the
    ClickHouse store, migrations, backups, GraphQL, the remaining handlers, archive
    files, configuration and commands are not: SQL run by a server, network and
    file I/O, and process wiring.

    ** Plan

    Next: address extraction over decoded JSON, concurrent window sweeps, the page
    resolution of the GraphQL layer, the archiver and its manifest. *)

From Stdlib Require Export ZArith Lia.
From stdpp Require Export base tactics option list gmap strings numbers.

Local Open Scope Z_scope.

(** ** Machine integers *)

(** Go integers are kept as [Z]; the arithmetic that can leave the width of
    the Go type is written with an explicit wrap-around. *)
Definition wrapu (w x : Z) : Z := x `mod` 2 ^ w.
Definition wraps (w x : Z) : Z := (x + 2 ^ (w - 1)) `mod` 2 ^ w - 2 ^ (w - 1).

Definition u32 (x : Z) : Z := wrapu 32 x.
Definition u64 (x : Z) : Z := wrapu 64 x.
Definition i32 (x : Z) : Z := wraps 32 x.
Definition i64 (x : Z) : Z := wraps 64 x.

Definition maxUint32 : Z := 4294967295.
Definition maxInt64 : Z := 9223372036854775807.
Definition minInt64 : Z := -9223372036854775808.

Definition in_u32 (x : Z) : Prop := 0 <= x <= maxUint32.
Definition in_i64 (x : Z) : Prop := minInt64 <= x <= maxInt64.

Lemma u32_id x : in_u32 x -> u32 x = x.
Proof. unfold in_u32, maxUint32, u32, wrapu. intros. apply Z.mod_small. lia. Qed.

Lemma u32_range x : in_u32 (u32 x).
Proof.
  unfold in_u32, maxUint32, u32, wrapu.
  pose proof (Z.mod_pos_bound x (2 ^ 32) ltac:(lia)). lia.
Qed.

Lemma i64_id x : in_i64 x -> i64 x = x.
Proof.
  unfold in_i64, minInt64, maxInt64, i64, wraps. intros.
  rewrite Z.mod_small by lia. lia.
Qed.

Lemma i64_range x : in_i64 (i64 x).
Proof.
  unfold in_i64, minInt64, maxInt64, i64, wraps.
  pose proof (Z.mod_pos_bound (x + 2 ^ (64 - 1)) (2 ^ 64) ltac:(lia)). lia.
Qed.

(** Go's integer division truncates toward zero. *)
Definition goquot (a b : Z) : Z := a `quot` b.

(** ** time.Time and time.Duration *)

(** A [time.Time] is the number of nanoseconds since the Unix epoch, a
    [time.Duration] a number of nanoseconds. *)
Definition Microsecond : Z := 1000.
Definition Millisecond : Z := 1000000.
Definition Second : Z := 1000000000.
Definition Minute : Z := 60 * Second.

(** The zero [time.Time], January 1 of year 1. *)
Definition time_zero : Z := -62135596800 * Second.
Definition time_IsZero (t : Z) : bool := t =? time_zero.

(** [Time.Sub] saturates at the bounds of [time.Duration]. *)
Definition time_Sub (a b : Z) : Z := Z.max minInt64 (Z.min maxInt64 (a - b)).

(** ** Results and errors *)

(** The pair (value, error) of a fallible Go function. *)
Inductive result (E A : Type) : Type :=
  | Ok (a : A)
  | Err (e : E).
Arguments Ok {E A} a.
Arguments Err {E A} e.

Definition is_ok {E A} (r : result E A) : bool :=
  match r with Ok _ => true | Err _ => false end.

Definition rbind {E A B} (r : result E A) (k : A -> result E B) : result E B :=
  match r with Ok a => k a | Err e => Err e end.

Declare Scope go_scope.
Delimit Scope go_scope with go.

Notation "'let?' x := r 'in' k" := (rbind r (fun x => k))
  (at level 10, x pattern, r at level 100, k at level 200) : go_scope.

(** Error values: a sentinel ([errors.New] compared by identity), or
    [fmt.Errorf] with the wrapped causes of its [%w] verbs. *)
Inductive gerror (S : Type) : Type :=
  | Sentinel (s : S)
  | Errorf (fmt : string) (causes : list (gerror S)).
Arguments Sentinel {S} s.
Arguments Errorf {S} fmt causes.

(** [errors.Is err target] walks the tree of wrapped causes. *)
Fixpoint errors_Is {S} `{EqDecision S} (e : gerror S) (target : S) : bool :=
  match e with
  | Sentinel s => bool_decide (s = target)
  | Errorf _ causes => existsb (fun c => errors_Is c target) causes
  end.

(** [errors.As err target]: the first value of the tree that [f] accepts. *)
Fixpoint errors_As {S A} (f : S -> option A) (e : gerror S) : option A :=
  match e with
  | Sentinel s => f s
  | Errorf _ causes =>
      (fix first (l : list (gerror S)) : option A :=
         match l with
         | [] => None
         | c :: l' => match errors_As f c with Some a => Some a | None => first l' end
         end) causes
  end.

(** ** Slices *)

(** [s[0:n], s[n:2n], ...]: the consecutive chunks of at most [n] elements. *)
Fixpoint chunks_fuel {A} (fuel n : nat) (l : list A) : list (list A) :=
  match fuel with
  | O => []
  | S f => match l with [] => [] | _ => take n l :: chunks_fuel f n (drop n l) end
  end.
Definition chunks {A} (n : nat) (l : list A) : list (list A) := chunks_fuel (length l) n l.

Lemma chunks_fuel_concat {A} (n : nat) : (0 < n)%nat -> forall fuel (l : list A),
  (length l <= fuel)%nat -> mjoin (chunks_fuel fuel n l) = l.
Proof.
  intros Hn. induction fuel as [|f IH]; intros l Hl; [by destruct l; cbn in *; [|lia]|].
  destruct l as [|x l]; [done|]. cbn [chunks_fuel mjoin list_join].
  change (take n (x :: l) ++ mjoin (chunks_fuel f n (drop n (x :: l))) = x :: l).
  rewrite IH; [apply take_drop|]. rewrite length_drop. cbn in *. lia.
Qed.

(** The chunks of a slice, in order, are the slice. *)
Lemma chunks_concat {A} (n : nat) (l : list A) : (0 < n)%nat -> mjoin (chunks n l) = l.
Proof. intros. by apply chunks_fuel_concat. Qed.

Lemma chunks_fuel_length {A} (n : nat) : (0 < n)%nat -> forall fuel (l : list A),
  Forall (fun c => c <> [] /\ (length c <= n)%nat) (chunks_fuel fuel n l).
Proof.
  intros Hn. induction fuel as [|f IH]; intros l; [constructor|].
  destruct l as [|x l]; [constructor|]. cbn [chunks_fuel]. constructor; [|apply IH].
  split; [by destruct n; [lia|]|]. rewrite length_take. lia.
Qed.

(** No chunk is empty or longer than [n]. *)
Lemma chunks_length {A} (n : nat) (l : list A) : (0 < n)%nat ->
  Forall (fun c => c <> [] /\ (length c <= n)%nat) (chunks n l).
Proof. intros. by apply chunks_fuel_length. Qed.

(** ** Automation *)

Create HintDb sorotrail.
Create Rewrite HintDb sorotrail.
#[export] Hint Resolve u32_range i64_range : sorotrail.
#[export] Hint Rewrite u32_id i64_id using (unfold in_u32, in_i64, maxUint32, maxInt64, minInt64; lia) : sorotrail.

(** Turn the boolean tests of the code into propositions. *)
Ltac to_prop :=
  repeat match goal with
  | H : (_ && _)%bool = true |- _ => apply andb_true_iff in H as [? ?]
  | H : (_ || _)%bool = false |- _ => apply orb_false_iff in H as [? ?]
  | H : negb _ = true |- _ => apply negb_true_iff in H
  | H : negb _ = false |- _ => apply negb_false_iff in H
  | H : bool_decide _ = true |- _ => apply bool_decide_eq_true in H
  | H : bool_decide _ = false |- _ => apply bool_decide_eq_false in H
  | H : (_ <? _) = true |- _ => apply Z.ltb_lt in H
  | H : (_ <? _) = false |- _ => apply Z.ltb_ge in H
  | H : (_ <=? _) = true |- _ => apply Z.leb_le in H
  | H : (_ <=? _) = false |- _ => apply Z.leb_gt in H
  | H : (_ =? _) = true |- _ => apply Z.eqb_eq in H
  | H : (_ =? _) = false |- _ => apply Z.eqb_neq in H
  end.

(** Split on the outermost conditional of the goal or of a hypothesis. *)
Ltac split_if :=
  match goal with
  | |- context [if ?b then _ else _] => let E := fresh "E" in destruct b eqn:E
  | H : context [if ?b then _ else _] |- _ => let E := fresh "E" in destruct b eqn:E
  end.

(** Case analysis on every conditional, closing the arithmetic leaves. *)
Ltac crush_ifs := repeat split_if; to_prop; simplify_eq/=; try lia; auto.
