(* ===== verification/RpcBreaker.v ===== *)
(** * The RPC circuit breaker (internal/rpc/circuit_breaker.go and
    circuit_breaker_client.go)

    [CircuitBreaker] is the mutex-protected struct, its state gauge included;
    every method is one atomic step. A nil receiver is [None]. *)

From S2P Require Import Prelude.
Local Open Scope Z_scope.

Inductive BreakerState : Type := BreakerClosed | BreakerOpen | BreakerHalfOpen.

#[export] Instance BreakerState_eq_dec : EqDecision BreakerState.
Proof. solve_decision. Defined.

Definition BreakerState_String (s : BreakerState) : string :=
  match s with
  | BreakerClosed => "closed"
  | BreakerOpen => "open"
  | BreakerHalfOpen => "half-open"
  end.

Record CircuitBreakerConfig : Type := mkConfig {
  FailureThreshold : Z;
  ProbeTimeout : Z }.

(** [gauge] is the metric vector RPCCircuitBreakerState, keyed by label. *)
Record CircuitBreaker : Type := mkCB {
  config : CircuitBreakerConfig;
  state : BreakerState;
  consecutiveFail : Z;
  lastOpenTime : Z;
  gauge : gmap string Z }.

Definition NewCircuitBreaker (c : CircuitBreakerConfig) (gauge0 : gmap string Z) : CircuitBreaker :=
  let th := if FailureThreshold c <=? 0 then 5 else FailureThreshold c in
  let pt := if ProbeTimeout c <=? 0 then 30 * Second else ProbeTimeout c in
  {| config := {| FailureThreshold := th; ProbeTimeout := pt |};
     state := BreakerClosed;
     consecutiveFail := 0;
     lastOpenTime := time_zero;
     gauge := <[BreakerState_String BreakerClosed := 1]> gauge0 |}.

Definition setState (now : Z) (s : BreakerState) (cb : CircuitBreaker) : CircuitBreaker :=
  if bool_decide (state cb = s) then cb
  else
    {| config := config cb;
       state := s;
       consecutiveFail := consecutiveFail cb;
       lastOpenTime := if bool_decide (s = BreakerOpen) then now else lastOpenTime cb;
       gauge := <[BreakerState_String s := 1]>
                  (<[BreakerState_String (state cb) := 0]> (gauge cb)) |}.

Definition Allow (now : Z) (ocb : option CircuitBreaker) : bool * option CircuitBreaker :=
  match ocb with
  | None => (true, None)
  | Some cb =>
      match state cb with
      | BreakerClosed => (true, Some cb)
      | BreakerOpen =>
          if ProbeTimeout (config cb) <=? time_Sub now (lastOpenTime cb)
          then (true, Some (setState now BreakerHalfOpen cb))
          else (false, Some cb)
      | BreakerHalfOpen => (false, Some cb)
      end
  end.

Definition with_fail (f : Z) (cb : CircuitBreaker) : CircuitBreaker :=
  {| config := config cb; state := state cb; consecutiveFail := f;
     lastOpenTime := lastOpenTime cb; gauge := gauge cb |}.

Definition RecordSuccess (now : Z) (ocb : option CircuitBreaker) : option CircuitBreaker :=
  match ocb with
  | None => None
  | Some cb => Some (setState now BreakerClosed (with_fail 0 cb))
  end.

Definition RecordFailure (now : Z) (ocb : option CircuitBreaker) : option CircuitBreaker :=
  match ocb with
  | None => None
  | Some cb =>
      let cb := with_fail (consecutiveFail cb + 1) cb in
      if bool_decide (state cb = BreakerHalfOpen) then Some (setState now BreakerOpen cb)
      else if FailureThreshold (config cb) <=? consecutiveFail cb
      then Some (setState now BreakerOpen cb)
      else Some cb
  end.

Definition State (ocb : option CircuitBreaker) : BreakerState :=
  match ocb with None => BreakerClosed | Some cb => state cb end.

Definition ConsecutiveFailures (ocb : option CircuitBreaker) : Z :=
  match ocb with None => 0 | Some cb => consecutiveFail cb end.

Record BreakerStats : Type := mkStats {
  st_State : BreakerState;
  st_ConsecutiveFailures : Z;
  st_FailureThreshold : Z;
  st_ProbeTimeout : Z }.

Definition Stats (ocb : option CircuitBreaker) : BreakerStats :=
  match ocb with
  | None => mkStats BreakerClosed 0 0 0
  | Some cb => mkStats (state cb) (consecutiveFail cb)
                 (FailureThreshold (config cb)) (ProbeTimeout (config cb))
  end.

(** ** The guarded client *)

Inductive ClientError (E : Type) : Type :=
  | ErrCircuitOpen
  | InnerError (e : E).
Arguments ErrCircuitOpen {E}.
Arguments InnerError {E} e.

(** The four methods of CircuitBreakerClient have one body: ask the breaker,
    call [inner], record the outcome. [W] is the state of the wrapped client;
    [now1] and [now2] are the clock readings of Allow and of the recording. *)
Definition guarded_call {W E A : Type} (inner : W -> result E A * W) (now1 now2 : Z)
    (ocb : option CircuitBreaker) (w : W)
    : result (ClientError E) A * (option CircuitBreaker * W) :=
  let '(allowed, ocb1) := Allow now1 ocb in
  if negb allowed then (Err ErrCircuitOpen, (ocb1, w))
  else
    let '(r, w') := inner w in
    match r with
    | Ok a => (Ok a, (RecordSuccess now2 ocb1, w'))
    | Err e => (Err (InnerError e), (RecordFailure now2 ocb1, w'))
    end.

(** ** Runs of the breaker *)

(** The methods that change state, as the steps of an interleaving: any
    goroutine may issue any of them at any point. *)
Inductive cb_op : Type :=
  | OpAllow (now : Z)
  | OpSuccess (now : Z)
  | OpFailure (now : Z).

Definition cb_step (op : cb_op) (ocb : option CircuitBreaker) : option CircuitBreaker :=
  match op with
  | OpAllow now => (Allow now ocb).2
  | OpSuccess now => RecordSuccess now ocb
  | OpFailure now => RecordFailure now ocb
  end.

Definition cb_run (ops : list cb_op) (ocb : option CircuitBreaker) : option CircuitBreaker :=
  foldl (fun c op => cb_step op c) ocb ops.

Definition gauge_value (cb : CircuitBreaker) (s : BreakerState) : Z :=
  default 0 (gauge cb !! BreakerState_String s).

(** The closed state is exactly "fewer consecutive failures than the
    threshold", and the published gauge is one-hot on the live state. *)
Record cb_inv (cb : CircuitBreaker) : Prop := {
  inv_threshold : 0 < FailureThreshold (config cb);
  inv_timeout : 0 < ProbeTimeout (config cb);
  inv_fail : 0 <= consecutiveFail cb;
  inv_closed : state cb = BreakerClosed <-> consecutiveFail cb < FailureThreshold (config cb);
  inv_gauge s : gauge_value cb s = if bool_decide (s = state cb) then 1 else 0 }.

Lemma State_String_inj s t : BreakerState_String s = BreakerState_String t -> s = t.
Proof. by destruct s, t. Qed.

Lemma setState_state now s cb : state (setState now s cb) = s.
Proof. unfold setState. by case_bool_decide. Qed.

Lemma setState_config now s cb : config (setState now s cb) = config cb.
Proof. unfold setState. by case_bool_decide. Qed.

Lemma setState_fail now s cb : consecutiveFail (setState now s cb) = consecutiveFail cb.
Proof. unfold setState. by case_bool_decide. Qed.

Lemma setState_gauge now s cb :
  (forall t, gauge_value cb t = if bool_decide (t = state cb) then 1 else 0) ->
  forall t, gauge_value (setState now s cb) t = if bool_decide (t = s) then 1 else 0.
Proof.
  intros Hg t. unfold setState. case_bool_decide as Hs; [subst; apply Hg|].
  unfold gauge_value; simpl.
  destruct (decide (t = s)) as [->|Hts].
  { rewrite lookup_insert_eq, bool_decide_eq_true_2; done. }
  rewrite (bool_decide_eq_false_2 (t = s)) by done.
  rewrite lookup_insert_ne by (intros H; apply State_String_inj in H; congruence).
  destruct (decide (t = state cb)) as [->|Hne]; [by rewrite lookup_insert_eq|].
  rewrite lookup_insert_ne by (intros H; apply State_String_inj in H; congruence).
  specialize (Hg t). rewrite bool_decide_eq_false_2 in Hg by done. exact Hg.
Qed.

#[export] Hint Rewrite setState_state setState_config setState_fail : sorotrail.

Lemma NewCircuitBreaker_inv c : cb_inv (NewCircuitBreaker c ∅).
Proof.
  constructor; simpl; try lia.
  - crush_ifs.
  - unfold Second. crush_ifs.
  - split; [|done]. crush_ifs.
  - intros s. unfold gauge_value; simpl. case_bool_decide as Hs; subst; [done|].
    rewrite lookup_insert_ne; [done|]. intros H. by apply (State_String_inj BreakerClosed) in H.
Qed.

Lemma setState_inv now s cb :
  0 < FailureThreshold (config cb) -> 0 < ProbeTimeout (config cb) ->
  0 <= consecutiveFail cb ->
  (forall t, gauge_value cb t = if bool_decide (t = state cb) then 1 else 0) ->
  (s = BreakerClosed <-> consecutiveFail cb < FailureThreshold (config cb)) ->
  cb_inv (setState now s cb).
Proof.
  intros. constructor; autorewrite with sorotrail; auto using setState_gauge.
Qed.

Lemma cb_step_inv op cb :
  cb_inv cb -> exists cb', cb_step op (Some cb) = Some cb' /\ cb_inv cb'.
Proof.
  intros Hinv. pose proof Hinv as [H1 H2 H3 H4 H5]. destruct op as [now|now|now]; simpl.
  - destruct (state cb) eqn:Hs; simpl; [by eauto| |by eauto].
    destruct (_ <=? _); simpl; (eexists; split; [done|]); [|done].
    apply setState_inv; rewrite ?Hs; auto. split; [done|]. intros HP%H4. congruence.
  - eexists; split; [done|]. apply setState_inv; simpl; auto; [lia|]. by split.
  - case_bool_decide as Hh; [|destruct (_ <=? _) eqn:Ht; to_prop];
      (eexists; split; [done|]).
    + apply setState_inv; simpl; auto; [lia|]. split; [done|].
      intros HP. assert (state cb = BreakerClosed) by (apply H4; simpl in HP; lia). congruence.
    + apply setState_inv; simpl in *; auto; [lia|]. split; [done|lia].
    + simpl in *. constructor; simpl; auto; [lia|].
      split; [done|]. intros _. apply H4. lia.
Qed.

Lemma cb_run_inv ops cb :
  cb_inv cb -> exists cb', cb_run ops (Some cb) = Some cb' /\ cb_inv cb'.
Proof.
  revert cb. induction ops as [|op ops IH]; intros cb Hinv; [by eexists|].
  destruct (cb_step_inv op cb Hinv) as (cb1 & Hs & Hi). unfold cb_run in *; simpl.
  rewrite Hs. by apply IH.
Qed.

(** After any interleaving of Allow, RecordSuccess and RecordFailure on a
    freshly constructed breaker, the breaker is closed exactly when fewer than
    FailureThreshold consecutive failures are on record, the effective
    threshold and probe timeout are positive whatever the configuration, and
    the published gauge is 1 on the live state and 0 on the two others. *)
Theorem rpc_breaker_invariant c ops :
  exists cb, cb_run ops (Some (NewCircuitBreaker c ∅)) = Some cb /\ cb_inv cb.
Proof. apply cb_run_inv, NewCircuitBreaker_inv. Qed.

(** ** Requests that reach the endpoint during an outage *)

(** A caller that keeps retrying: one guarded call per clock pair. *)
Fixpoint guarded_calls {W E A : Type} (inner : W -> result E A * W)
    (clock : list (Z * Z)) (ocb : option CircuitBreaker) (w : W) : option CircuitBreaker * W :=
  match clock with
  | [] => (ocb, w)
  | (now1, now2) :: clock' =>
      let '(_, (ocb', w')) := guarded_call inner now1 now2 ocb w in
      guarded_calls inner clock' ocb' w'
  end.

Section Outage.
Context {E A : Type} (inner : nat -> result E A * nat).
Hypothesis always_fails : forall n, exists e, inner n = (Err e, S n).

(** The state of a breaker that has seen [n] failures of the outage. *)
Definition outage_state (t0 : Z) (cb : CircuitBreaker) : Prop :=
  cb_inv cb /\
  (state cb = BreakerClosed \/
   (state cb = BreakerOpen /\ t0 <= lastOpenTime cb < t0 + ProbeTimeout (config cb))).

Lemma outage_call t0 cb n now1 now2 :
  outage_state t0 cb ->
  ProbeTimeout (config cb) <= maxInt64 ->
  t0 <= now1 < t0 + ProbeTimeout (config cb) ->
  t0 <= now2 < t0 + ProbeTimeout (config cb) ->
  exists cb' n',
    (guarded_call inner now1 now2 (Some cb) n).2 = (Some cb', n') /\
    outage_state t0 cb' /\ config cb' = config cb /\
    Z.of_nat n' - Z.min (consecutiveFail cb') (FailureThreshold (config cb))
    = Z.of_nat n - Z.min (consecutiveFail cb) (FailureThreshold (config cb)).
Proof.
  intros [Hinv Hst] Hmax Hn1 Hn2. pose proof Hinv as [H1 H2 H3 H4 H5].
  unfold guarded_call, Allow. destruct Hst as [Hs|[Hs Hopen]]; rewrite Hs; simpl.
  - destruct (always_fails n) as [e ->]; simpl.
    destruct (cb_step_inv (OpFailure now2) cb Hinv) as (cb' & Hstep & Hinv').
    simpl in Hstep. destruct H4 as [H4 _]. specialize (H4 Hs).
    rewrite Hs in *. simpl in *.
    destruct (_ <=? _) eqn:Ht; to_prop; simplify_eq; eexists _, _; split_and!;
      try done; autorewrite with sorotrail; try done; try (split; auto); simpl; try lia.
    + right. autorewrite with sorotrail. split; [done|].
      unfold setState; simpl. rewrite bool_decide_eq_false_2 by congruence. done.
  - destruct (_ <=? _) eqn:Ht; to_prop; simpl.
    + unfold time_Sub in Ht. unfold maxInt64, minInt64 in *. lia.
    + eexists _, _. split; [done|]. split; [|done]. split; auto.
Qed.

Lemma outage_calls t0 clock : forall cb n,
  outage_state t0 cb ->
  ProbeTimeout (config cb) <= maxInt64 ->
  Forall (fun p => t0 <= p.1 < t0 + ProbeTimeout (config cb) /\
                   t0 <= p.2 < t0 + ProbeTimeout (config cb)) clock ->
  exists cb' n',
    guarded_calls inner clock (Some cb) n = (Some cb', n') /\
    0 <= consecutiveFail cb' /\
    Z.of_nat n' - Z.min (consecutiveFail cb') (FailureThreshold (config cb))
    = Z.of_nat n - Z.min (consecutiveFail cb) (FailureThreshold (config cb)).
Proof.
  induction clock as [|[n1 n2] clock IH]; intros cb n Hst Hmax Hall.
  - eexists _, _; split_and!; try done. by destruct Hst as [[] _].
  - apply Forall_cons_iff in Hall as [[Hn1 Hn2] Hall]; simpl in *.
    destruct (outage_call t0 cb n n1 n2 Hst Hmax Hn1 Hn2) as (cb1 & m1 & Hc & Hst1 & Hcfg & Hcnt).
    destruct (guarded_call inner n1 n2 (Some cb) n) as [r [oc w]]. simpl in Hc. simplify_eq.
    destruct (IH cb1 m1 Hst1) as (cb2 & m2 & Hr & Hf & Heq); rewrite ?Hcfg; auto.
    eexists _, _; split_and!; eauto. rewrite Hcfg in Heq. lia.
Qed.
End Outage.

(** During an outage the wrapped client is called at most
    FailureThreshold times within one probe window, however often the caller
    retries: all other calls are rejected with ErrCircuitOpen without touching
    the endpoint. *)
Theorem breaker_bounds_outage_calls {E A} (inner : nat -> result E A * nat) c t0 clock
    (Hfail : forall n, exists e, inner n = (Err e, S n))
    (Hmax : ProbeTimeout (config (NewCircuitBreaker c ∅)) <= maxInt64)
    (Hclock : Forall (fun p =>
       t0 <= p.1 < t0 + ProbeTimeout (config (NewCircuitBreaker c ∅)) /\
       t0 <= p.2 < t0 + ProbeTimeout (config (NewCircuitBreaker c ∅))) clock) :
  Z.of_nat (guarded_calls inner clock (Some (NewCircuitBreaker c ∅)) 0%nat).2
  <= FailureThreshold (config (NewCircuitBreaker c ∅)).
Proof.
  destruct (outage_calls inner Hfail t0 clock (NewCircuitBreaker c ∅) 0%nat)
    as (cb & n & -> & Hf & Heq); auto.
  - split; [apply NewCircuitBreaker_inv|by left].
  - simpl (consecutiveFail (NewCircuitBreaker _ _)) in Heq.
    pose proof (inv_threshold _ (NewCircuitBreaker_inv c)). simpl snd. lia.
Qed.

Lemma breaker_bounds_outage_calls_witness :
  Z.of_nat (guarded_calls (fun n => (@Err string unit "refused", S n))
     [(10, 11); (20, 21); (30, 31); (40, 41)]
     (Some (NewCircuitBreaker (mkConfig 2 100) ∅)) 0%nat).2 <= 2.
Proof.
  apply (breaker_bounds_outage_calls (fun n => (@Err string unit "refused", S n))
           (mkConfig 2 100) 5 [(10, 11); (20, 21); (30, 31); (40, 41)]).
  - intros n. by eexists.
  - vm_compute. discriminate.
  - repeat constructor; simpl; lia.
Defined.

(** ** Probes *)

(** The answers of a sequence of Allow calls issued before any outcome is
    recorded. *)
Fixpoint allow_results (nows : list Z) (ocb : option CircuitBreaker) : list bool :=
  match nows with
  | [] => []
  | now :: nows' => let '(b, ocb') := Allow now ocb in b :: allow_results nows' ocb'
  end.

Lemma half_open_rejects nows cb :
  state cb = BreakerHalfOpen -> Forall (fun b => b = false) (allow_results nows (Some cb)).
Proof.
  intros Hs. induction nows as [|now nows IH]; simpl; [constructor|].
  rewrite Hs. simpl. by constructor.
Qed.

Lemma count_true_Forall_false l :
  Forall (fun b => b = false) l -> count_occ Bool.bool_dec l true = 0%nat.
Proof. induction 1 as [|b l -> _ IH]; simpl; auto. Qed.

(** once the breaker has left the closed state, at most one caller is let
    through before an outcome is recorded: whatever the clock readings of the
    callers, their Allow calls return true at most once, and never before the
    probe timeout has elapsed. *)
Theorem half_open_single_probe cb nows (Hopen : state cb <> BreakerClosed) :
  (count_occ Bool.bool_dec (allow_results nows (Some cb)) true <= 1)%nat /\
  (Forall (fun now => time_Sub now (lastOpenTime cb) < ProbeTimeout (config cb)) nows ->
   count_occ Bool.bool_dec (allow_results nows (Some cb)) true = 0%nat).
Proof.
  induction nows as [|now nows [IH1 IH2]]; simpl; [auto|].
  destruct (state cb) eqn:Hs; [done| |].
  - destruct (_ <=? _) eqn:Ht; simpl.
    + rewrite count_true_Forall_false by (apply half_open_rejects, setState_state).
      split; [done|]. intros HF%Forall_cons_iff. to_prop. lia.
    + split; [done|]. intros [_ HF]%Forall_cons_iff. auto.
  - split; [done|]. intros [_ HF]%Forall_cons_iff. auto.
Qed.

Lemma half_open_single_probe_witness :
  let cb := default (NewCircuitBreaker (mkConfig 1 100) ∅)
              (RecordFailure 0 (Some (NewCircuitBreaker (mkConfig 1 100) ∅))) in
  allow_results [50; 150; 151; 400]%Z (Some cb) = [false; true; false; false] /\
  (count_occ Bool.bool_dec (allow_results [50; 150; 151; 400]%Z (Some cb)) true <= 1)%nat.
Proof.
  split; [reflexivity|].
  apply (half_open_single_probe
    (default (NewCircuitBreaker (mkConfig 1 100) ∅)
       (RecordFailure 0 (Some (NewCircuitBreaker (mkConfig 1 100) ∅))))
    [50; 150; 151; 400]%Z).
  vm_compute. discriminate.
Defined.
