(* ===== verification/GoStrings.v ===== *)
(** * The parts of strings, strconv, fmt and unicode/utf8 the program uses

    A Go string is a byte sequence: [string] with 8-bit characters. *)

From S2P Require Import Prelude.
From Stdlib Require Import Ascii String.
Local Open Scope Z_scope.

#[global] Arguments String.append : simpl nomatch.

(** ** Bytes *)

Definition byte_val (c : ascii) : Z := Z.of_N (N_of_ascii c).
Definition byte_of (z : Z) : ascii := ascii_of_N (Z.to_N z).

Lemma byte_val_range c : 0 <= byte_val c < 256.
Proof. unfold byte_val. pose proof (N_ascii_bounded c). lia. Qed.

Lemma byte_val_of z : 0 <= z < 256 -> byte_val (byte_of z) = z.
Proof.
  intros. unfold byte_val, byte_of. rewrite N_ascii_embedding by lia. lia.
Qed.

Lemma byte_of_val c : byte_of (byte_val c) = c.
Proof. unfold byte_val, byte_of. rewrite N2Z.id. apply ascii_N_embedding. Qed.

Lemma byte_val_inj c d : byte_val c = byte_val d -> c = d.
Proof. intros H. rewrite <- (byte_of_val c), <- (byte_of_val d). by f_equal. Qed.

(** ** Package strings *)

Definition str_len (s : string) : Z := Z.of_nat (String.length s).

Fixpoint str_all (p : ascii -> bool) (s : string) : bool :=
  match s with
  | EmptyString => true
  | String c s' => p c && str_all p s'
  end.

(** [strings.Contains(s, sep)] for a one-byte separator. *)
Fixpoint str_contains (sep : ascii) (s : string) : bool :=
  match s with
  | EmptyString => false
  | String c s' => Ascii.eqb c sep || str_contains sep s'
  end.

(** [strings.Split(s, sep)] for a one-byte separator. *)
Fixpoint str_split (sep : ascii) (s : string) : list string :=
  match s with
  | EmptyString => [EmptyString]
  | String c s' =>
      if Ascii.eqb c sep then EmptyString :: str_split sep s'
      else match str_split sep s' with
           | [] => [String c EmptyString]
           | h :: t => String c h :: t
           end
  end.

(** [i := strings.IndexByte(s, sep)] with s[:i] and s[i+1:]; [None] when
    the separator does not occur. *)
Fixpoint cut_first (sep : ascii) (s : string) : option (string * string) :=
  match s with
  | EmptyString => None
  | String c s' =>
      if Ascii.eqb c sep then Some (EmptyString, s')
      else match cut_first sep s' with
           | Some (a, b) => Some (String c a, b)
           | None => None
           end
  end.

(** [i := strings.LastIndex(s, sep)] with s[:i] and s[i+1:]. *)
Fixpoint cut_last (sep : ascii) (s : string) : option (string * string) :=
  match s with
  | EmptyString => None
  | String c s' =>
      match cut_last sep s' with
      | Some (a, b) => Some (String c a, b)
      | None => if Ascii.eqb c sep then Some (EmptyString, s') else None
      end
  end.

(** [strings.HasPrefix] and the remainder of the string. *)
Fixpoint strip_prefix (p s : string) : option string :=
  match p, s with
  | EmptyString, _ => Some s
  | String a p', String b s' => if Ascii.eqb a b then strip_prefix p' s' else None
  | String _ _, EmptyString => None
  end.

Fixpoint str_rev_app (s acc : string) : string :=
  match s with
  | EmptyString => acc
  | String c s' => str_rev_app s' (String c acc)
  end.
Definition str_rev (s : string) : string := str_rev_app s EmptyString.

Definition bytes_str (l : list Z) : string :=
  fold_right (fun z s => String (byte_of z) s) EmptyString l.

(** UTF-8 encodings of the runes with the White_Space property, the set of
    [unicode.IsSpace]. *)
Definition space_encodings : list string :=
  bytes_str <$> [[9]; [10]; [11]; [12]; [13]; [32]].
Definition wide_space_encodings : list string :=
  bytes_str <$>
    ([[194; 133]; [194; 160]; [225; 154; 128]] ++
     ((fun z => [226; 128; z]) <$> [128; 129; 130; 131; 132; 133; 134; 135; 136; 137; 138; 168; 169; 175]) ++
     [[226; 129; 159]; [227; 128; 128]]).

Fixpoint strip_any (ps : list string) (s : string) : option string :=
  match ps with
  | [] => None
  | p :: ps' => match strip_prefix p s with Some s' => Some s' | None => strip_any ps' s end
  end.

Fixpoint trim_loop (fuel : nat) (ps : list string) (s : string) : string :=
  match fuel with
  | O => s
  | S f => match strip_any ps s with Some s' => trim_loop f ps s' | None => s end
  end.

Definition trim_left (s : string) : string :=
  trim_loop (String.length s) (space_encodings ++ wide_space_encodings) s.
Definition trim_right (s : string) : string :=
  str_rev (trim_loop (String.length s)
             (str_rev <$> (space_encodings ++ wide_space_encodings)) (str_rev s)).
Definition TrimSpace (s : string) : string := trim_right (trim_left s).

(** [strings.ToLower] as far as a comparison with an ASCII literal can see:
    the ASCII capitals and the two non-ASCII runes whose lower case is ASCII
    (KELVIN SIGN and LATIN CAPITAL LETTER I WITH DOT ABOVE); every other rune
    is left as it is, and is not ASCII before or after. *)
Definition ascii_lower (c : ascii) : ascii :=
  let z := byte_val c in
  if (65 <=? z) && (z <=? 90) then byte_of (z + 32) else c.

Fixpoint ToLower (s : string) : string :=
  match s with
  | String a (String b s2 as s1) =>
      if (byte_val a =? 196) && (byte_val b =? 176) then String "i" (ToLower s2)
      else match s2 with
           | String c s3 =>
               if (byte_val a =? 226) && (byte_val b =? 132) && (byte_val c =? 170)
               then String "k" (ToLower s3)
               else String (ascii_lower a) (ToLower s1)
           | EmptyString => String (ascii_lower a) (ToLower s1)
           end
  | String a EmptyString => String (ascii_lower a) EmptyString
  | EmptyString => EmptyString
  end.

(** ** Decimal numbers (strconv, fmt) *)

Definition is_digit (c : ascii) : bool := (48 <=? byte_val c) && (byte_val c <=? 57).
Definition digit_val (c : ascii) : Z := byte_val c - 48.
Definition digit_char (d : Z) : ascii := byte_of (48 + d).

(** The [w] low-order decimal digits of [n], most significant first. *)
Fixpoint fixed_digits (w : nat) (n : Z) : string :=
  match w with
  | O => EmptyString
  | S w' => String.append (fixed_digits w' (n / 10)) (String (digit_char (n mod 10)) EmptyString)
  end.

(** Number of decimal digits of [n], at least 1. *)
Fixpoint ndigits_fuel (fuel : nat) (n : Z) : nat :=
  match fuel with
  | O => 1%nat
  | S f => if n <? 10 then 1%nat else S (ndigits_fuel f (n / 10))
  end.
Definition ndigits (n : Z) : nat := ndigits_fuel (Z.to_nat (Z.log2 n)) n.

(** [strconv.FormatInt(n, 10)], also [fmt.Sprint] of an integer. *)
Definition FormatInt (n : Z) : string :=
  if n <? 0 then String "-" (fixed_digits (ndigits (- n)) (- n))
  else fixed_digits (ndigits n) n.

(** [fmt.Sprintf("%0<w>d", n)]: zero-padded to width [w], the sign included. *)
Definition pad_digits (w : nat) (n : Z) : string :=
  if n <? 0 then String "-" (fixed_digits (Nat.max (w - 1) (ndigits (- n))) (- n))
  else fixed_digits (Nat.max w (ndigits n)) n.

Fixpoint parse_digits (acc : Z) (s : string) : option Z :=
  match s with
  | EmptyString => Some acc
  | String c s' => if is_digit c then parse_digits (acc * 10 + digit_val c) s' else None
  end.

(** [strconv.ParseUint(s, 10, bits)] up to the error value. *)
Definition ParseUint (bits : Z) (s : string) : option Z :=
  match s with
  | EmptyString => None
  | _ => match parse_digits 0 s with
         | Some n => if n <? 2 ^ bits then Some n else None
         | None => None
         end
  end.

(** [strconv.ParseInt(s, 10, 64)] up to the error value. *)
Definition ParseInt (s : string) : option Z :=
  match s with
  | EmptyString => None
  | String c s' =>
      let neg := Ascii.eqb c "-" in
      let body := if (neg || Ascii.eqb c "+")%bool then s' else s in
      match ParseUint 64 body with
      | None => None
      | Some n =>
          if neg then (if n <=? 2 ^ 63 then Some (- n) else None)
          else (if n <? 2 ^ 63 then Some n else None)
      end
  end.

(** ** UTF-8 validity ([utf8.ValidString]) *)

Definition in_range (lo hi z : Z) : bool := (lo <=? z) && (z <=? hi).

Fixpoint utf8_valid_fuel (fuel : nat) (s : string) : bool :=
  match fuel with
  | O => match s with EmptyString => true | _ => false end
  | S f =>
      match s with
      | EmptyString => true
      | String a s1 =>
          let x := byte_val a in
          if x <? 128 then utf8_valid_fuel f s1
          else
            let cont := in_range 128 191 in
            match s1 with
            | EmptyString => false
            | String b s2 =>
                let y := byte_val b in
                if in_range 194 223 x then cont y && utf8_valid_fuel f s2
                else match s2 with
                | EmptyString => false
                | String c s3 =>
                    let z := byte_val c in
                    if in_range 224 239 x then
                      (if x =? 224 then in_range 160 191 y
                       else if x =? 237 then in_range 128 159 y else cont y)
                      && cont z && utf8_valid_fuel f s3
                    else match s3 with
                    | EmptyString => false
                    | String d s4 =>
                        in_range 240 244 x &&
                        (if x =? 240 then in_range 144 191 y
                         else if x =? 244 then in_range 128 143 y else cont y)
                        && cont z && cont (byte_val d) && utf8_valid_fuel f s4
                    end
                end
            end
      end
  end.
Definition ValidString (s : string) : bool := utf8_valid_fuel (String.length s) s.

(** ** Lemmas *)

Infix "+++" := String.append (at level 60, right associativity) : go_scope.
Local Open Scope go_scope.

Lemma append_assoc (a b c : string) : (a +++ b) +++ c = a +++ (b +++ c).
Proof. induction a as [|x a IH]; simpl; congruence. Qed.

Lemma append_empty_r (a : string) : a +++ "" = a.
Proof. induction a as [|x a IH]; simpl; congruence. Qed.

Lemma length_append (a b : string) :
  String.length (a +++ b) = (String.length a + String.length b)%nat.
Proof. induction a; simpl; congruence. Qed.

Lemma str_contains_app sep a b :
  str_contains sep (a +++ b) = str_contains sep a || str_contains sep b.
Proof. induction a as [|x a IH]; simpl; [done|]. by rewrite IH, orb_assoc. Qed.

Lemma str_all_app p a b : str_all p (a +++ b) = str_all p a && str_all p b.
Proof. induction a as [|x a IH]; simpl; [done|]. by rewrite IH, andb_assoc. Qed.

Lemma str_all_contains p sep s : str_all p s = true -> p sep = false -> str_contains sep s = false.
Proof.
  intros Hall Hp. induction s as [|c s IH]; simpl in *; [done|].
  apply andb_true_iff in Hall as [Hc Hall]. rewrite IH by done.
  destruct (Ascii.eqb_spec c sep); subst; [congruence|done].
Qed.

Lemma str_all_impl (p q : ascii -> bool) s :
  (forall c, p c = true -> q c = true) -> str_all p s = true -> str_all q s = true.
Proof.
  intros Hpq. induction s as [|c s IH]; simpl; [done|].
  intros [Hc Hs]%andb_true_iff. by rewrite Hpq, IH.
Qed.

Lemma str_split_nosep sep a : str_contains sep a = false -> str_split sep a = [a].
Proof.
  induction a as [|c a IH]; simpl; [done|]. intros [Hc Ha]%orb_false_iff.
  by rewrite Hc, IH.
Qed.

Lemma str_split_app sep a b :
  str_contains sep a = false -> str_split sep (a +++ String sep b) = a :: str_split sep b.
Proof.
  induction a as [|c a IH]; simpl.
  - intros _. by rewrite Ascii.eqb_refl.
  - intros [Hc Ha]%orb_false_iff. by rewrite Hc, IH.
Qed.

Lemma cut_first_app sep a b :
  str_contains sep a = false -> cut_first sep (a +++ String sep b) = Some (a, b).
Proof.
  induction a as [|c a IH]; simpl.
  - intros _. by rewrite Ascii.eqb_refl.
  - intros [Hc Ha]%orb_false_iff. by rewrite Hc, IH.
Qed.

Lemma cut_last_none sep s : str_contains sep s = false -> cut_last sep s = None.
Proof.
  induction s as [|c s IH]; simpl; [done|]. intros [Hc Hs]%orb_false_iff.
  by rewrite IH, Hc.
Qed.

Lemma cut_last_app sep a b :
  str_contains sep b = false -> cut_last sep (a +++ String sep b) = Some (a, b).
Proof.
  intros Hb. induction a as [|c a IH]; simpl.
  - by rewrite cut_last_none, Ascii.eqb_refl.
  - by rewrite IH.
Qed.

(** *** Decimal digits *)

Lemma digit_char_is_digit d : 0 <= d < 10 -> is_digit (digit_char d) = true.
Proof.
  intros. unfold is_digit, digit_char. rewrite byte_val_of by lia.
  apply andb_true_iff. split; apply Z.leb_le; lia.
Qed.

Lemma digit_val_char d : 0 <= d < 10 -> digit_val (digit_char d) = d.
Proof. intros. unfold digit_val, digit_char. rewrite byte_val_of by lia. lia. Qed.

Lemma length_fixed_digits w n : String.length (fixed_digits w n) = w.
Proof.
  revert n. induction w as [|w IH]; intros n; simpl; [done|].
  rewrite length_append, IH. simpl. lia.
Qed.

Lemma fixed_digits_all_digits w n : str_all is_digit (fixed_digits w n) = true.
Proof.
  revert n. induction w as [|w IH]; intros n; simpl; [done|].
  rewrite str_all_app, IH. simpl.
  by rewrite digit_char_is_digit by (apply Z.mod_pos_bound; lia).
Qed.

Lemma parse_digits_app acc a b :
  str_all is_digit a = true ->
  parse_digits acc (a +++ b) =
  match parse_digits acc a with Some m => parse_digits m b | None => None end.
Proof.
  revert acc. induction a as [|c a IH]; intros acc; simpl; [done|].
  intros [Hc Ha]%andb_true_iff. rewrite Hc. by apply IH.
Qed.

Lemma parse_fixed_digits w n acc :
  0 <= n ->
  parse_digits acc (fixed_digits w n) = Some (acc * 10 ^ Z.of_nat w + n mod 10 ^ Z.of_nat w).
Proof.
  revert n acc. induction w as [|w IH]; intros n acc Hn.
  - simpl. rewrite Z.mod_1_r. f_equal. lia.
  - assert (Hm : 0 <= n mod 10 < 10) by (apply Z.mod_pos_bound; lia).
    simpl fixed_digits. rewrite parse_digits_app by apply fixed_digits_all_digits.
    rewrite IH by (apply Z.div_pos; lia). simpl.
    rewrite digit_char_is_digit, digit_val_char by done. f_equal.
    rewrite Nat2Z.inj_succ, Z.pow_succ_r by lia.
    pose proof (Z.pow_pos_nonneg 10 (Z.of_nat w) ltac:(lia) ltac:(lia)).
    rewrite Z.rem_mul_r by lia. lia.
Qed.

Lemma ndigits_fuel_spec fuel n :
  0 <= n < 10 * 2 ^ Z.of_nat fuel -> n < 10 ^ Z.of_nat (ndigits_fuel fuel n).
Proof.
  revert n. induction fuel as [|f IH]; intros n Hn; simpl ndigits_fuel; [simpl in Hn; lia|].
  destruct (n <? 10) eqn:E; to_prop; [lia|].
  rewrite Nat2Z.inj_succ, Z.pow_succ_r in * by lia.
  pose proof (Z.div_mod n 10 ltac:(lia)). pose proof (Z.mod_pos_bound n 10 ltac:(lia)).
  assert (Hb : 0 <= n / 10 < 10 * 2 ^ Z.of_nat f) by (split; [apply Z.div_pos; lia|lia]).
  specialize (IH (n / 10) Hb). lia.
Qed.

Lemma ndigits_spec n : 0 <= n -> n < 10 ^ Z.of_nat (ndigits n).
Proof.
  intros Hn. unfold ndigits. apply ndigits_fuel_spec. split; [done|].
  rewrite Z2Nat.id by apply Z.log2_nonneg.
  destruct (decide (n = 0)) as [->|Hne]; [simpl; lia|].
  pose proof (Z.log2_spec n ltac:(lia)) as [_ Hlt]. rewrite Z.pow_succ_r in Hlt by apply Z.log2_nonneg. lia.
Qed.

Lemma ndigits_pos n : (0 < ndigits n)%nat.
Proof.
  unfold ndigits. generalize (Z.to_nat (Z.log2 n)). intros f.
  destruct f; simpl; [lia|]. destruct (_ <? _); lia.
Qed.

Lemma fixed_digits_cons w n : exists c s,
  fixed_digits (S w) n = String c s /\ is_digit c = true.
Proof.
  pose proof (fixed_digits_all_digits (S w) n) as Hall.
  pose proof (length_fixed_digits (S w) n) as Hlen.
  destruct (fixed_digits (S w) n) as [|c s]; simpl in *; [done|].
  apply andb_true_iff in Hall as [Hc _]. eauto.
Qed.

Lemma digit_not_sign c : is_digit c = true -> Ascii.eqb c "-" = false /\ Ascii.eqb c "+" = false.
Proof.
  intros Hc. split; [destruct (Ascii.eqb_spec c "-")|destruct (Ascii.eqb_spec c "+")]; by subst.
Qed.

Lemma ParseUint_fixed_digits bits w n :
  (0 < w)%nat -> 0 <= n < 10 ^ Z.of_nat w -> n < 2 ^ bits ->
  ParseUint bits (fixed_digits w n) = Some n.
Proof.
  intros Hw Hn Hb. destruct w as [|w]; [lia|].
  destruct (fixed_digits_cons w n) as (c & s & Heq & _).
  unfold ParseUint. rewrite Heq. rewrite <- Heq, parse_fixed_digits by lia.
  rewrite Z.mod_small by lia. rewrite Z.mul_0_l, Z.add_0_l.
  destruct (Z.ltb_spec n (2 ^ bits)); [done|lia].
Qed.

Lemma ParseInt_fixed_digits w n :
  (0 < w)%nat -> 0 <= n < 10 ^ Z.of_nat w -> n < 2 ^ 63 ->
  ParseInt (fixed_digits w n) = Some n.
Proof.
  intros Hw Hn Hb. pose proof (ParseUint_fixed_digits 64 w n Hw Hn ltac:(lia)) as HP.
  destruct w as [|w]; [lia|].
  destruct (fixed_digits_cons w n) as (c & s & Heq & Hc).
  unfold ParseInt. rewrite Heq in *.
  destruct (digit_not_sign c Hc) as [-> ->]. cbn [orb]. rewrite HP.
  destruct (Z.ltb_spec n (2 ^ 63)); [done|lia].
Qed.

Lemma ParseInt_FormatInt n : in_i64 n -> ParseInt (FormatInt n) = Some n.
Proof.
  unfold in_i64, minInt64, maxInt64. intros Hn. unfold FormatInt.
  destruct (Z.ltb_spec n 0).
  - unfold ParseInt. simpl. pose proof (ndigits_spec (- n) ltac:(lia)).
    rewrite ParseUint_fixed_digits by (try apply ndigits_pos; lia).
    destruct (Z.leb_spec (- n) (2 ^ 63)); [|lia]. f_equal. lia.
  - apply ParseInt_fixed_digits; [apply ndigits_pos| |lia].
    pose proof (ndigits_spec n). lia.
Qed.

(** *** Trimming *)

Lemma str_rev_app_all p s : forall acc,
  str_all p (str_rev_app s acc) = (str_all p s && str_all p acc)%bool.
Proof.
  induction s as [|c s IH]; intros acc; cbn [str_rev_app str_all]; [done|].
  rewrite IH. cbn [str_all]. destruct (p c), (str_all p s), (str_all p acc); done.
Qed.

Lemma str_rev_app_involutive s : forall acc acc',
  str_rev_app (str_rev_app s acc) acc' = str_rev_app acc (s +++ acc').
Proof.
  induction s as [|c s IH]; intros acc acc'; cbn [str_rev_app]; [done|].
  rewrite IH. done.
Qed.

Lemma str_rev_involutive s : str_rev (str_rev s) = s.
Proof. unfold str_rev. rewrite str_rev_app_involutive. apply append_empty_r. Qed.

(** The visible ASCII characters: no white-space encoding starts or ends with one. *)
Definition is_graph (c : ascii) : bool := (33 <=? byte_val c) && (byte_val c <=? 126).

Definition head_not_graph (p : string) : bool :=
  match p with EmptyString => false | String a _ => negb (is_graph a) end.

Lemma strip_any_graph ps c s :
  forallb head_not_graph ps = true -> is_graph c = true -> strip_any ps (String c s) = None.
Proof.
  intros Hps Hc. induction ps as [|p ps IH]; cbn [strip_any]; [done|].
  cbn [forallb] in Hps. apply andb_true_iff in Hps as [Hp Hps].
  destruct p as [|a p]; [done|]. cbn [strip_prefix head_not_graph] in *.
  destruct (Ascii.eqb_spec a c); [subst; by rewrite Hc in Hp|]. by apply IH.
Qed.

Lemma trim_loop_graph fuel ps s :
  forallb head_not_graph ps = true -> str_all is_graph s = true -> trim_loop fuel ps s = s.
Proof.
  intros Hps Hs. destruct fuel as [|f]; [done|]. cbn [trim_loop]. destruct s as [|c s].
  - enough (strip_any ps EmptyString = None) as -> by done. clear Hs.
    induction ps as [|p ps IH]; [done|]. cbn [forallb strip_any] in *.
    apply andb_true_iff in Hps as [Hp Hps]. destruct p; [done|]. by apply IH.
  - cbn [str_all] in Hs. apply andb_true_iff in Hs as [Hc _]. by rewrite strip_any_graph.
Qed.

Lemma TrimSpace_graph s : str_all is_graph s = true -> TrimSpace s = s.
Proof.
  intros Hs. unfold TrimSpace, trim_right, trim_left.
  rewrite (trim_loop_graph _ _ s) by (done || (vm_compute; done)).
  rewrite (trim_loop_graph _ _ (str_rev s)); [apply str_rev_involutive|vm_compute; done|].
  unfold str_rev. rewrite str_rev_app_all, Hs. done.
Qed.

Lemma TrimSpace_digits s : str_all is_digit s = true -> TrimSpace s = s.
Proof.
  intros Hs. apply TrimSpace_graph. revert Hs. apply str_all_impl.
  intros c. unfold is_digit, is_graph. rewrite !andb_true_iff, !Z.leb_le. lia.
Qed.

Lemma FormatInt_digits n : 0 <= n -> str_all is_digit (FormatInt n) = true /\ FormatInt n <> "".
Proof.
  intros Hn. unfold FormatInt. destruct (Z.ltb_spec n 0); [lia|].
  split; [apply fixed_digits_all_digits|].
  intros He. pose proof (length_fixed_digits (ndigits n) n) as Hl. rewrite He in Hl.
  pose proof (ndigits_pos n). cbn in Hl. lia.
Qed.

(** *** Lexicographic order of equal-width digit strings *)

Lemma compare_append_same a b c d :
  String.length a = String.length b ->
  String.compare (a +++ c) (b +++ d) =
  match String.compare a b with Eq => String.compare c d | r => r end.
Proof.
  revert b. induction a as [|x a IH]; intros [|y b] Hlen; simpl in *; try done.
  destruct (Ascii.compare x y); [|done|done]. apply IH. lia.
Qed.

Lemma compare_digit_char a b :
  0 <= a < 10 -> 0 <= b < 10 ->
  String.compare (String (digit_char a) "") (String (digit_char b) "") = Z.compare a b.
Proof.
  intros Ha Hb. simpl. unfold Ascii.compare.
  assert (Hv : forall d, 0 <= d < 10 -> N_of_ascii (digit_char d) = Z.to_N (48 + d)).
  { intros d Hd. unfold digit_char, byte_of. apply N_ascii_embedding. lia. }
  rewrite !Hv by done.
  destruct (N.compare_spec (Z.to_N (48 + a)) (Z.to_N (48 + b)));
    destruct (Z.compare_spec a b); (done || lia).
Qed.

Lemma compare_fixed_digits w a b :
  0 <= a < 10 ^ Z.of_nat w -> 0 <= b < 10 ^ Z.of_nat w ->
  String.compare (fixed_digits w a) (fixed_digits w b) = Z.compare a b.
Proof.
  revert a b. induction w as [|w IH]; intros a b Ha Hb.
  - simpl in *. replace a with b by lia. by rewrite Z.compare_refl.
  - rewrite Nat2Z.inj_succ, Z.pow_succ_r in * by lia. simpl fixed_digits.
    rewrite compare_append_same by (by rewrite !length_fixed_digits).
    pose proof (Z.div_mod a 10 ltac:(lia)). pose proof (Z.mod_pos_bound a 10 ltac:(lia)).
    pose proof (Z.div_mod b 10 ltac:(lia)). pose proof (Z.mod_pos_bound b 10 ltac:(lia)).
    rewrite IH by (split; [apply Z.div_pos|]; lia).
    rewrite compare_digit_char by done.
    destruct (Z.compare_spec (a / 10) (b / 10)); destruct (Z.compare_spec (a mod 10) (b mod 10));
      destruct (Z.compare_spec a b); (done || lia).
Qed.

Lemma ndigits_fuel_le fuel : forall w n, (0 < w)%nat -> n < 10 ^ Z.of_nat w -> (ndigits_fuel fuel n <= w)%nat.
Proof.
  induction fuel as [|f IH]; intros w n Hw Hn; simpl; [lia|].
  destruct (n <? 10) eqn:E; to_prop; [lia|].
  destruct w as [|[|w]]; [lia|simpl in Hn; lia|].
  apply le_n_S, IH; [lia|].
  rewrite (Nat2Z.inj_succ (S w)), Z.pow_succ_r in Hn by lia.
  apply Z.div_lt_upper_bound; lia.
Qed.

Lemma pad_digits_fixed w n :
  (0 < w)%nat -> 0 <= n < 10 ^ Z.of_nat w -> pad_digits w n = fixed_digits w n.
Proof.
  intros Hw Hn. unfold pad_digits. destruct (Z.ltb_spec n 0); [lia|].
  f_equal. pose proof (ndigits_fuel_le (Z.to_nat (Z.log2 n)) w n Hw ltac:(lia)).
  unfold ndigits. lia.
Qed.

#[global] Arguments fixed_digits : simpl never.
