(* ===== verification/Codec.v ===== *)
(** * base64.RawURLEncoding, SHA-256 and HMAC-SHA256

    The standard-library encoders behind the pagination cursors, as executable
    functions: the cursor theorems need the round trip of the encoding and the
    alphabet of its output; the digest makes cursor values computable. *)

From S2P Require Import Prelude GoStrings.
From Stdlib Require Import Ascii String.
Local Open Scope Z_scope.
Local Open Scope go_scope.

(** ** base64.RawURLEncoding *)

Definition b64_char (v : Z) : ascii :=
  if v <? 26 then byte_of (65 + v)
  else if v <? 52 then byte_of (97 + (v - 26))
  else if v <? 62 then byte_of (48 + (v - 52))
  else if v =? 62 then "-"%char else "_"%char.

Definition b64_val (c : ascii) : option Z :=
  let z := byte_val c in
  if in_range 65 90 z then Some (z - 65)
  else if in_range 97 122 z then Some (z - 97 + 26)
  else if in_range 48 57 z then Some (z - 48 + 52)
  else if z =? 45 then Some 62
  else if z =? 95 then Some 63
  else None.

Definition chr4 (n : Z) (s : string) : string :=
  String (b64_char (n / 262144 mod 64)) (String (b64_char (n / 4096 mod 64))
    (String (b64_char (n / 64 mod 64)) (String (b64_char (n mod 64)) s))).

Fixpoint b64_encode (s : string) : string :=
  match s with
  | String a (String b (String c s')) =>
      chr4 (byte_val a * 65536 + byte_val b * 256 + byte_val c) (b64_encode s')
  | String a (String b EmptyString) =>
      let n := byte_val a * 65536 + byte_val b * 256 in
      String (b64_char (n / 262144 mod 64)) (String (b64_char (n / 4096 mod 64))
        (String (b64_char (n / 64 mod 64)) EmptyString))
  | String a EmptyString =>
      let n := byte_val a * 65536 in
      String (b64_char (n / 262144 mod 64)) (String (b64_char (n / 4096 mod 64)) EmptyString)
  | EmptyString => EmptyString
  end.

(** The decoder skips carriage returns and line feeds, and the trailing bits
    of a partial group are not checked (the encoding is not Strict). *)
Fixpoint b64_strip_crlf (s : string) : string :=
  match s with
  | EmptyString => EmptyString
  | String c s' =>
      if (byte_val c =? 10) || (byte_val c =? 13) then b64_strip_crlf s'
      else String c (b64_strip_crlf s')
  end.

Fixpoint b64_groups (s : string) : option string :=
  match s with
  | EmptyString => Some EmptyString
  | String a (String b (String c (String d s'))) =>
      match b64_val a, b64_val b, b64_val c, b64_val d, b64_groups s' with
      | Some va, Some vb, Some vc, Some vd, Some r =>
          let n := va * 262144 + vb * 4096 + vc * 64 + vd in
          Some (String (byte_of (n / 65536 mod 256)) (String (byte_of (n / 256 mod 256))
                  (String (byte_of (n mod 256)) r)))
      | _, _, _, _, _ => None
      end
  | String a (String b (String c EmptyString)) =>
      match b64_val a, b64_val b, b64_val c with
      | Some va, Some vb, Some vc =>
          let n := va * 262144 + vb * 4096 + vc * 64 in
          Some (String (byte_of (n / 65536 mod 256)) (String (byte_of (n / 256 mod 256)) EmptyString))
      | _, _, _ => None
      end
  | String a (String b EmptyString) =>
      match b64_val a, b64_val b with
      | Some va, Some vb =>
          let n := va * 262144 + vb * 4096 in
          Some (String (byte_of (n / 65536 mod 256)) EmptyString)
      | _, _ => None
      end
  | String _ EmptyString => None
  end.

Definition b64_decode (s : string) : option string := b64_groups (b64_strip_crlf s).

(** ** SHA-256 *)

Definition sha_k : list Z := [
    1116352408; 1899447441; 3049323471; 3921009573; 961987163; 1508970993; 2453635748;
    2870763221; 3624381080; 310598401; 607225278; 1426881987; 1925078388; 2162078206;
    2614888103; 3248222580; 3835390401; 4022224774; 264347078; 604807628; 770255983; 1249150122;
    1555081692; 1996064986; 2554220882; 2821834349; 2952996808; 3210313671; 3336571891;
    3584528711; 113926993; 338241895; 666307205; 773529912; 1294757372; 1396182291; 1695183700;
    1986661051; 2177026350; 2456956037; 2730485921; 2820302411; 3259730800; 3345764771;
    3516065817; 3600352804; 4094571909; 275423344; 430227734; 506948616; 659060556; 883997877;
    958139571; 1322822218; 1537002063; 1747873779; 1955562222; 2024104815; 2227730452;
    2361852424; 2428436474; 2756734187; 3204031479; 3329325298].

Definition sha_h0 : list Z := [
    1779033703; 3144134277; 1013904242; 2773480762; 1359893119; 2600822924; 528734635;
    1541459225].

Definition rotr (n x : Z) : Z := Z.lor (Z.shiftr x n) (u32 (Z.shiftl x (32 - n))).

Definition sha_s0 (x : Z) : Z := Z.lxor (Z.lxor (rotr 7 x) (rotr 18 x)) (Z.shiftr x 3).
Definition sha_s1 (x : Z) : Z := Z.lxor (Z.lxor (rotr 17 x) (rotr 19 x)) (Z.shiftr x 10).
Definition sha_S0 (x : Z) : Z := Z.lxor (Z.lxor (rotr 2 x) (rotr 13 x)) (rotr 22 x).
Definition sha_S1 (x : Z) : Z := Z.lxor (Z.lxor (rotr 6 x) (rotr 11 x)) (rotr 25 x).
Definition sha_ch (x y z : Z) : Z := Z.lxor (Z.land x y) (Z.land (4294967295 - x) z).
Definition sha_maj (x y z : Z) : Z := Z.lxor (Z.lxor (Z.land x y) (Z.land x z)) (Z.land y z).

(** The message schedule, newest word first. *)
Fixpoint sha_schedule (n : nat) (rw : list Z) : list Z :=
  match n with
  | O => rw
  | S n' =>
      let at_ i := nth i rw 0 in
      sha_schedule n' (u32 (sha_s1 (at_ 1%nat) + at_ 6%nat + sha_s0 (at_ 14%nat) + at_ 15%nat) :: rw)
  end.

Definition sha_round (st : list Z) (kw : Z * Z) : list Z :=
  match st with
  | [a; b; c; d; e; f; g; h] =>
      let t1 := u32 (h + sha_S1 e + sha_ch e f g + kw.1 + kw.2) in
      let t2 := u32 (sha_S0 a + sha_maj a b c) in
      [u32 (t1 + t2); a; b; c; u32 (d + t1); e; f; g]
  | _ => st
  end.

Fixpoint be_words (l : list Z) : list Z :=
  match l with
  | a :: b :: c :: d :: l' => (a * 16777216 + b * 65536 + c * 256 + d) :: be_words l'
  | _ => []
  end.

Definition sha_block (h : list Z) (block : list Z) : list Z :=
  let w := rev (sha_schedule 48 (rev (be_words block))) in
  let h' := foldl sha_round h (zip sha_k w) in
  (fun p => u32 (p.1 + p.2)) <$> zip h h'.

Fixpoint sha_blocks (fuel : nat) (h : list Z) (l : list Z) : list Z :=
  match fuel with
  | O => h
  | S f => match l with [] => h | _ => sha_blocks f (sha_block h (take 64 l)) (drop 64 l) end
  end.

Definition be_bytes (n : nat) (x : Z) : list Z :=
  (fun i => Z.shiftr x (8 * Z.of_nat i) `mod` 256) <$> rev (seq 0 n).

Definition sha_pad (l : list Z) : list Z :=
  let n := List.length l in
  let zeros := Z.to_nat ((55 - Z.of_nat n) `mod` 64) in
  l ++ [128] ++ replicate zeros 0 ++ be_bytes 8 (8 * Z.of_nat n).

Definition sha256 (l : list Z) : list Z :=
  let p := sha_pad l in
  mjoin (be_bytes 4 <$> sha_blocks (List.length p) sha_h0 p).

Definition str_bytes (s : string) : list Z := byte_val <$> list_ascii_of_string s.

(** [hmac.New(sha256.New, key)] over [msg]; a key longer than a block is
    hashed first. *)
Definition hmac_sha256 (key msg : list Z) : list Z :=
  let k := if decide (64 < List.length key)%nat then sha256 key else key in
  let k := k ++ replicate (64 - List.length k) 0 in
  sha256 ((Z.lxor 92 <$> k) ++ sha256 ((Z.lxor 54 <$> k) ++ msg)).

(** The digests of the FIPS 180-4 example and of RFC 4231 test case 2. *)
Example sha256_abc :
  take 4 (sha256 (str_bytes "abc")) = [186; 120; 22; 191].
Proof. vm_compute. reflexivity. Qed.

Example hmac_rfc4231_2 :
  take 4 (hmac_sha256 (str_bytes "Jefe") (str_bytes "what do ya want for nothing?"))
  = [91; 220; 193; 70].
Proof. vm_compute. reflexivity. Qed.


(** ** Lemmas on base64 *)

(** A boolean property of the 64 symbols, decided by enumeration. *)
Lemma forall_symbols (p : Z -> bool) :
  forallb p (seqZ 0 64) = true -> forall v, 0 <= v < 64 -> p v = true.
Proof.
  intros Hall v Hv. rewrite forallb_forall in Hall. apply Hall.
  apply list_elem_of_In, elem_of_seqZ. lia.
Qed.

Lemma b64_val_char v : 0 <= v < 64 -> b64_val (b64_char v) = Some v.
Proof.
  intros Hv. apply (bool_decide_eq_true (b64_val (b64_char v) = Some v)).
  revert v Hv. apply (forall_symbols (fun v => bool_decide (b64_val (b64_char v) = Some v))).
  vm_compute. reflexivity.
Qed.

(** The characters of an encoding: neither the envelope separator nor a
    character the decoder skips. *)
Definition b64_plain (c : ascii) : bool :=
  negb (Ascii.eqb c ".") && negb ((byte_val c =? 10) || (byte_val c =? 13)).

Lemma b64_char_plain v : 0 <= v < 64 -> b64_plain (b64_char v) = true.
Proof. apply (forall_symbols (fun v => b64_plain (b64_char v))). vm_compute. reflexivity. Qed.

Lemma mod64_range n : 0 <= n mod 64 < 64.
Proof. apply Z.mod_pos_bound. lia. Qed.

#[export] Hint Resolve b64_char_plain mod64_range byte_val_range : sorotrail.
#[export] Hint Rewrite b64_val_char using (apply mod64_range) : sorotrail.

(** Induction in steps of three bytes. *)
Lemma string3_ind (P : string -> Prop) :
  P "" -> (forall a, P (String a "")) -> (forall a b, P (String a (String b ""))) ->
  (forall a b c s, P s -> P (String a (String b (String c s)))) ->
  forall s, P s.
Proof.
  intros H0 H1 H2 H3.
  fix IH 1. intros [|a [|b [|c s]]]; [apply H0|apply H1|apply H2|apply H3, IH].
Qed.

Lemma b64_encode_cons3 a b c s :
  b64_encode (String a (String b (String c s))) =
  chr4 (byte_val a * 65536 + byte_val b * 256 + byte_val c) (b64_encode s).
Proof. reflexivity. Qed.

Lemma chr4_plain n s : str_all b64_plain (chr4 n s) = str_all b64_plain s.
Proof. unfold chr4; simpl. by rewrite !b64_char_plain by apply mod64_range. Qed.

Lemma b64_groups_chr4 n s r :
  0 <= n < 16777216 -> b64_groups s = Some r ->
  b64_groups (chr4 n s) = Some (String (byte_of (n / 65536 mod 256))
    (String (byte_of (n / 256 mod 256)) (String (byte_of (n mod 256)) r))).
Proof.
  intros Hn Hs. unfold chr4. cbn -[Z.div Z.modulo Z.mul Z.add b64_val b64_char].
  rewrite !b64_val_char by apply mod64_range. rewrite Hs. cbv zeta.
  replace (n / 262144 mod 64 * 262144 + n / 4096 mod 64 * 4096 + n / 64 mod 64 * 64 + n mod 64)
    with n by (Z.to_euclidean_division_equations; lia).
  reflexivity.
Qed.

Lemma b64_encode_plain s : str_all b64_plain (b64_encode s) = true.
Proof.
  induction s using string3_ind; rewrite ?b64_encode_cons3, ?chr4_plain; [done| | |done];
    cbn -[Z.div Z.modulo Z.mul Z.add b64_char b64_plain];
    by rewrite !b64_char_plain by apply mod64_range.
Qed.

Lemma b64_encode_nodot s : str_contains "." (b64_encode s) = false.
Proof. apply (str_all_contains b64_plain); [apply b64_encode_plain|reflexivity]. Qed.

Lemma b64_strip_plain s : str_all b64_plain s = true -> b64_strip_crlf s = s.
Proof.
  induction s as [|c s IH]; simpl; [done|]. unfold b64_plain at 1.
  intros [[_ Hc]%andb_true_iff Hs]%andb_true_iff. apply negb_true_iff in Hc.
  by rewrite Hc, IH.
Qed.

Lemma byte_val_eq c z : 0 <= z < 256 -> byte_val c = z -> byte_of z = c.
Proof. intros _ <-. apply byte_of_val. Qed.

(** Recombination of the four symbols of a group. *)
Lemma group_recombine n :
  0 <= n < 16777216 ->
  n / 262144 mod 64 * 262144 + n / 4096 mod 64 * 4096 + n / 64 mod 64 * 64 + n mod 64 = n.
Proof. intros. Z.to_euclidean_division_equations. lia. Qed.

Lemma group_bytes a b c :
  0 <= a < 256 -> 0 <= b < 256 -> 0 <= c < 256 ->
  let n := a * 65536 + b * 256 + c in
  n / 65536 mod 256 = a /\ n / 256 mod 256 = b /\ n mod 256 = c.
Proof. intros. subst n. Z.to_euclidean_division_equations. lia. Qed.

Lemma b64_groups_encode s : b64_groups (b64_encode s) = Some s.
Proof.
  induction s as [|a|a b|a b c s IH] using string3_ind; [reflexivity| | |].
  - cbn -[Z.div Z.modulo Z.mul Z.add b64_val b64_char].
    rewrite !b64_val_char by apply mod64_range. cbv zeta.
    pose proof (byte_val_range a).
    set (n := byte_val a * 65536).
    assert (Hn : n / 262144 mod 64 * 262144 + n / 4096 mod 64 * 4096 = n)
      by (pose proof (group_recombine n ltac:(lia)); subst n; Z.to_euclidean_division_equations; lia).
    rewrite Hn. pose proof (group_bytes (byte_val a) 0 0 ltac:(lia) ltac:(lia) ltac:(lia)) as (Ha & _).
    rewrite !Z.mul_0_l, !Z.add_0_r in Ha. subst n. by rewrite Ha, byte_of_val.
  - cbn -[Z.div Z.modulo Z.mul Z.add b64_val b64_char].
    rewrite !b64_val_char by apply mod64_range. cbv zeta.
    pose proof (byte_val_range a). pose proof (byte_val_range b).
    set (n := byte_val a * 65536 + byte_val b * 256).
    assert (Hn : n / 262144 mod 64 * 262144 + n / 4096 mod 64 * 4096 + n / 64 mod 64 * 64 = n)
      by (pose proof (group_recombine n ltac:(lia)); subst n; Z.to_euclidean_division_equations; lia).
    rewrite Hn.
    pose proof (group_bytes (byte_val a) (byte_val b) 0 ltac:(lia) ltac:(lia) ltac:(lia)) as (Ha & Hb & _).
    rewrite !Z.add_0_r in *. subst n. by rewrite Ha, Hb, !byte_of_val.
  - rewrite b64_encode_cons3.
    pose proof (byte_val_range a). pose proof (byte_val_range b). pose proof (byte_val_range c).
    rewrite (b64_groups_chr4 _ _ s) by (auto; lia).
    pose proof (group_bytes (byte_val a) (byte_val b) (byte_val c) ltac:(lia) ltac:(lia) ltac:(lia))
      as (Ha & Hb & Hc).
    by rewrite Ha, Hb, Hc, !byte_of_val.
Qed.

Lemma b64_decode_encode s : b64_decode (b64_encode s) = Some s.
Proof.
  unfold b64_decode. rewrite b64_strip_plain by apply b64_encode_plain.
  apply b64_groups_encode.
Qed.

Lemma b64_encode_nonempty s : s <> "" -> b64_encode s <> "".
Proof. by destruct s as [|a [|b [|c s]]]. Qed.

(** ** Length of a digest *)

Lemma sha_round_length st kw : List.length st = 8%nat -> List.length (sha_round st kw) = 8%nat.
Proof. intros H. do 9 (destruct st as [|? st]; try done). Qed.

Lemma sha_rounds_length kws st :
  List.length st = 8%nat -> List.length (foldl sha_round st kws) = 8%nat.
Proof. revert st. induction kws; simpl; auto using sha_round_length. Qed.

Lemma sha_blocks_length fuel h l :
  List.length h = 8%nat -> List.length (sha_blocks fuel h l) = 8%nat.
Proof.
  revert h l. induction fuel as [|f IH]; intros h [|x l] Hh; simpl; auto.
  apply IH. unfold sha_block. rewrite length_fmap, length_zip_with.
  rewrite sha_rounds_length; lia.
Qed.

Lemma sha256_nonempty l : exists x y, sha256 l = x :: y.
Proof.
  unfold sha256. pose proof (sha_blocks_length (List.length (sha_pad l)) sha_h0 (sha_pad l) eq_refl) as H.
  destruct (sha_blocks _ _ _) as [|w ws]; [done|]. simpl. eauto.
Qed.

Lemma hmac_nonempty key msg : exists x y, hmac_sha256 key msg = x :: y.
Proof. apply sha256_nonempty. Qed.
