(* ===== verification/StoreErrors.v ===== *)
(** * Sentinel errors of the store package

    The sentinels that internal/store compares with [errors.Is], together with
    the context sentinels of the standard library. [ForeignErr] stands for any
    other error value (a driver error), identified by its message. *)

From S2P Require Import Prelude.

Inductive sentinel : Type :=
  | ErrNotFound
  | ErrInvalidCursor
  | ErrInvalidContractsCursor
  | ErrStaleCursor
  | ErrCrossBackendCursor
  | ErrTamperedCursor
  | ErrSparseFilterRangeTooWide
  | ErrStoreUnavailable
  | ErrPermanentEventFailure
  | ErrUnsupported
  | ErrPoolBudgetExhausted
  | ErrDuplicate
  | ErrQuotaExceeded
  | ErrIdempotencyKeyMismatch
  | ErrIdempotencyInFlight
  | ErrActionAuditChainBroken
  | ErrTenantScopeRequired
  | ErrInvalidEncryptionKeyConfig
  | ErrEncryptionKeyRequired
  | ErrUnknownEncryptionKeyVersion
  | ErrEncryptionAuthFailed
  | ErrPlaintextNotAllowed
  | NetError
  | PgError (code : string)
  | ContextCanceled
  | ContextDeadlineExceeded
  | ForeignErr (msg : string).

#[export] Instance sentinel_eq_dec : EqDecision sentinel.
Proof. solve_decision. Defined.

Abbreviation error := (gerror sentinel).
