(* ===== verification/StoreTypes.v ===== *)
(** * Data types of internal/store/store.go

    json.RawMessage and base64 XDR values are byte strings; a *time.Time is an
    [option Z] of nanoseconds. *)

From S2P Require Import Prelude.
Local Open Scope Z_scope.

Record Event : Type := mkEvent {
  ID : string;
  ContractID : string;
  Ledger : Z;
  Type_ : string;
  TxHash : string;
  TxIndex : Z;
  OpIndex : Z;
  InSuccessfulCall : bool;
  Topics : string;
  Value : string;
  CreatedAt : Z;
  Network : string;
  RawTopicXDR : list string;
  RawValueXDR : string }.

#[export] Instance Event_eq_dec : EqDecision Event.
Proof. solve_decision. Defined.

(** The fields of EventFilter that the cursor layer reads. *)
Record EventFilter : Type := mkEventFilter {
  f_Topic : string;
  f_TopicContains : string;
  f_Topic0 : string;
  f_Topic1 : string;
  f_Topic2 : string;
  f_Topic3 : string;
  f_FromLedger : Z;
  f_ToLedger : Z }.

Definition OrderByID : string := "id".
Definition OrderByLedger : string := "ledger".
Definition OrderByCreatedAt : string := "created_at".

Definition ValidOrderBy (s : string) : bool :=
  bool_decide (s ∈ [""; OrderByID; OrderByLedger; OrderByCreatedAt]).

Record IngestionState : Type := mkIngestionState {
  is_Network : string;
  LastIngestedLedger : Z;
  LastCursor : string;
  LastSuccessfulPoll : option Z }.

Definition defaultNetwork (network : string) : string :=
  if bool_decide (network = "") then "default" else network.

Record ContractCursor : Type := mkContractCursor {
  cc_ContractID : string;
  cc_LastIngestedLedger : Z;
  cc_LastCursor : string }.

Record WatchedContract : Type := mkWatched {
  wc_ContractID : string;
  wc_Network : string }.

Record DeadLetterInput : Type := mkDeadLetter {
  dl_EventID : string;
  dl_ContractID : string;
  dl_Ledger : Z;
  dl_Type : string;
  dl_TxHash : string;
  dl_TopicXDR : list string;
  dl_ValueXDR : string }.

Record AddressRef : Type := mkAddressRef {
  ar_Address : string;
  ar_EventID : string;
  ar_Role : string }.

#[export] Instance IngestionState_eq_dec : EqDecision IngestionState.
Proof. solve_decision. Defined.
#[export] Instance ContractCursor_eq_dec : EqDecision ContractCursor.
Proof. solve_decision. Defined.
