(* ===== verification/StoreBreaker.v ===== *)
(** * The store circuit breaker (internal/store/breaker.go)

    [StoreBreaker] with its observable effects: the state gauge, the rejection
    counter and the OnStateChange notifications. The clock reading and the
    random source of a call are arguments. *)

From S2P Require Import Prelude StoreErrors.
Local Open Scope Z_scope.

Inductive BreakerState : Type := BreakerClosed | BreakerOpen | BreakerHalfOpen.

#[export] Instance BreakerState_eq_dec : EqDecision BreakerState.
Proof. solve_decision. Defined.

Definition all_states : list BreakerState := [BreakerClosed; BreakerOpen; BreakerHalfOpen].

Record BreakerOptions : Type := mkOptions {
  FailureThreshold : Z;
  BaseCooldown : Z;
  MaxCooldown : Z;
  OnStateChange : bool (* whether a callback is installed *) }.

Record StoreBreaker : Type := mkSB {
  state : BreakerState;
  consecutiveFails : Z;
  openAttempts : Z;
  nextProbeAt : Z;
  currentCooldown : Z;
  lastErr : option error;
  probeInFlight : bool;
  opts : BreakerOptions;
  gauge : BreakerState -> Z;                         (* DBCircuitBreakerState *)
  rejections : Z;                                    (* DBDegradedRejectionsTotal *)
  notified : list (BreakerState * BreakerState) (* OnStateChange calls *) }.

Definition publishStateMetricLocked (b : StoreBreaker) : StoreBreaker :=
  mkSB (state b) (consecutiveFails b) (openAttempts b) (nextProbeAt b) (currentCooldown b)
    (lastErr b) (probeInFlight b) (opts b)
    (foldl (fun g s t => if bool_decide (t = s) then (if bool_decide (state b = s) then 1 else 0) else g t)
       (gauge b) all_states)
    (rejections b) (notified b).

Definition NewStoreBreaker (o : BreakerOptions) : StoreBreaker :=
  let th := if FailureThreshold o <? 1 then 3 else FailureThreshold o in
  let base := if BaseCooldown o <=? 0 then 2 * Second else BaseCooldown o in
  let mx := if MaxCooldown o <=? 0 then 30 * Second else MaxCooldown o in
  let mx := if mx <? base then base else mx in
  publishStateMetricLocked
    (mkSB BreakerClosed 0 0 time_zero 0 None false (mkOptions th base mx (OnStateChange o))
       (fun _ => 0) 0 []).

Definition set_state (to : BreakerState) (b : StoreBreaker) : StoreBreaker :=
  mkSB to (consecutiveFails b) (openAttempts b) (nextProbeAt b) (currentCooldown b)
    (lastErr b) (probeInFlight b) (opts b) (gauge b) (rejections b) (notified b).

Definition set_probe (p : bool) (b : StoreBreaker) : StoreBreaker :=
  mkSB (state b) (consecutiveFails b) (openAttempts b) (nextProbeAt b) (currentCooldown b)
    (lastErr b) p (opts b) (gauge b) (rejections b) (notified b).

Definition add_rejection (b : StoreBreaker) : StoreBreaker :=
  mkSB (state b) (consecutiveFails b) (openAttempts b) (nextProbeAt b) (currentCooldown b)
    (lastErr b) (probeInFlight b) (opts b) (gauge b) (rejections b + 1) (notified b).

Definition transitionLocked (to : BreakerState) (b : StoreBreaker) : StoreBreaker :=
  let from := state b in
  let b := publishStateMetricLocked (set_state to b) in
  if (OnStateChange (opts b) && negb (bool_decide (from = to)))%bool
  then mkSB (state b) (consecutiveFails b) (openAttempts b) (nextProbeAt b) (currentCooldown b)
         (lastErr b) (probeInFlight b) (opts b) (gauge b) (rejections b)
         (notified b ++ [(from, to)])
  else b.

Definition jitteredRetryAfterLocked (jitter : Z -> Z) (now : Z) (b : StoreBreaker) : Z :=
  let rem := time_Sub (nextProbeAt b) now in
  let rem := if rem <=? 0 then BaseCooldown (opts b) else rem in
  let j := goquot rem 2 in
  let rem := if 0 <? j then i64 (rem + jitter j) else rem in
  if rem <? Second then Second else rem.

(** The *StoreUnavailableError value. *)
Record StoreUnavailableError : Type := mkUnavailable {
  RetryAfter : Z;
  Cause : option error }.

Definition Allow (jitter : Z -> Z) (now : Z) (b : StoreBreaker)
    : result StoreUnavailableError bool * StoreBreaker :=
  match state b with
  | BreakerClosed => (Ok false, b)
  | BreakerOpen =>
      if (negb (now <? nextProbeAt b) && negb (probeInFlight b))%bool
      then (Ok true, set_probe true (transitionLocked BreakerHalfOpen b))
      else (Err (mkUnavailable (jitteredRetryAfterLocked jitter now b) (lastErr b)), add_rejection b)
  | BreakerHalfOpen =>
      if negb (probeInFlight b) then (Ok true, set_probe true b)
      else (Err (mkUnavailable (jitteredRetryAfterLocked jitter now b) (lastErr b)), add_rejection b)
  end.

Definition isBenignStoreError (err : option error) : bool :=
  match err with
  | None => true
  | Some e => errors_Is e ErrNotFound || errors_Is e ErrInvalidCursor || errors_Is e ContextCanceled
  end.

(** The loop [for i := 1; i < openAttempts && cooldown < max; i++], [n]
    being the iterations left. *)
Fixpoint cooldown_loop (n : nat) (max cooldown : Z) : Z :=
  match n with
  | O => cooldown
  | S n' =>
      if cooldown <? max then
        let c := i64 (cooldown * 2) in
        let c := if max <? c then max else c in
        cooldown_loop n' max c
      else cooldown
  end.

(** The cooldown chosen when the breaker opens for the [attempts]-th time. *)
Definition open_cooldown (jitter : Z -> Z) (o : BreakerOptions) (attempts : Z) : Z :=
  let cooldown := cooldown_loop (Z.to_nat (attempts - 1)) (MaxCooldown o) (BaseCooldown o) in
  let jitterWindow := goquot cooldown 2 in
  let cooldown := if 0 <? jitterWindow then i64 (goquot cooldown 2 + jitter jitterWindow) else cooldown in
  if cooldown <? Millisecond then Millisecond else cooldown.

Definition Record_ (jitter : Z -> Z) (now : Z) (probe : bool) (err : option error)
    (b : StoreBreaker) : StoreBreaker :=
  let err := if isBenignStoreError err then None else err in
  let b := if probe then set_probe false b else b in
  match err with
  | None =>
      let b := mkSB (state b) 0 0 (nextProbeAt b) 0 None (probeInFlight b) (opts b)
                 (gauge b) (rejections b) (notified b) in
      if bool_decide (state b = BreakerClosed) then b else transitionLocked BreakerClosed b
  | Some e =>
      let b := mkSB (state b) (consecutiveFails b + 1) (openAttempts b) (nextProbeAt b)
                 (currentCooldown b) (Some e) (probeInFlight b) (opts b)
                 (gauge b) (rejections b) (notified b) in
      if (bool_decide (state b = BreakerHalfOpen) ||
          (FailureThreshold (opts b) <=? consecutiveFails b))%bool
      then
        let attempts := openAttempts b + 1 in
        let cooldown := open_cooldown jitter (opts b) attempts in
        let b := mkSB (state b) (consecutiveFails b) attempts (now + cooldown) cooldown
                   (lastErr b) (probeInFlight b) (opts b) (gauge b) (rejections b) (notified b) in
        if bool_decide (state b = BreakerOpen) then b else transitionLocked BreakerOpen b
      else b
  end.

(** ** Interleavings

    Callers of a guarded store first ask [Allow] and later report through
    [Record]. The ghost counter is the number of probes that have been
    granted and have not reported yet. *)
Inductive sb_step : StoreBreaker * nat -> StoreBreaker * nat -> Prop :=
  | step_allow_plain jitter now b n r b' :
      Allow jitter now b = (r, b') -> r <> Ok true ->
      sb_step (b, n) (b', n)
  | step_allow_probe jitter now b n b' :
      Allow jitter now b = (Ok true, b') ->
      sb_step (b, n) (b', S n)
  | step_record_probe jitter now err b n :
      sb_step (b, S n) (Record_ jitter now true err b, n)
  | step_record_plain jitter now err b n :
      sb_step (b, n) (Record_ jitter now false err b, n).

(** The moves of the state machine: a breaker opens, lets one probe through, and
    closes or opens again after it; a success reported late by a caller that was
    let through before it opened closes it at once. It is never half open without
    having been open. *)
Definition breaker_edge (a b : BreakerState) : Prop :=
  match a, b with
  | BreakerClosed, BreakerOpen | BreakerOpen, BreakerHalfOpen | BreakerHalfOpen, BreakerOpen
  | BreakerHalfOpen, BreakerClosed | BreakerOpen, BreakerClosed => True
  | _, _ => False
  end.

(** The notifications form a path of the state machine from [s] to [t]. *)
Fixpoint transition_path (s t : BreakerState) (log : list (BreakerState * BreakerState)) : Prop :=
  match log with
  | [] => s = t
  | (a, b) :: log' => a = s /\ breaker_edge a b /\ transition_path b t log'
  end.

Record sb_inv (b : StoreBreaker) (n : nat) : Prop := {
  sbi_threshold : 0 < FailureThreshold (opts b);
  sbi_base : 0 < BaseCooldown (opts b) <= MaxCooldown (opts b);
  sbi_probes : n = if probeInFlight b then 1%nat else 0%nat;
  sbi_half : state b = BreakerHalfOpen -> probeInFlight b = true;
  sbi_fails : 0 <= consecutiveFails b;
  sbi_closed : state b = BreakerClosed <-> consecutiveFails b < FailureThreshold (opts b);
  sbi_gauge s : gauge b s = if bool_decide (s = state b) then 1 else 0;
  sbi_log : if OnStateChange (opts b) then transition_path BreakerClosed (state b) (notified b)
            else notified b = [] }.

Lemma transition_path_snoc s t u log :
  transition_path s t log -> breaker_edge t u -> transition_path s u (log ++ [(t, u)]).
Proof.
  revert s. induction log as [|[a b] log IH]; intros s; simpl; [by intros ->|].
  intros (-> & Hne & Hp) Htu. auto.
Qed.

Lemma publish_gauge b s :
  gauge (publishStateMetricLocked b) s = if bool_decide (s = state b) then 1 else 0.
Proof. destruct s; simpl; destruct (state b); reflexivity. Qed.

(** [transitionLocked] moves to [to], keeps the counters, publishes the gauge
    and notifies only on a change. *)
Lemma transition_inv to b n :
  0 < FailureThreshold (opts b) -> 0 < BaseCooldown (opts b) <= MaxCooldown (opts b) ->
  n = (if probeInFlight b then 1%nat else 0%nat) ->
  (to = BreakerHalfOpen -> probeInFlight b = true) ->
  (state b <> to -> breaker_edge (state b) to) ->
  0 <= consecutiveFails b ->
  (to = BreakerClosed <-> consecutiveFails b < FailureThreshold (opts b)) ->
  (if OnStateChange (opts b) then transition_path BreakerClosed (state b) (notified b)
   else notified b = []) ->
  sb_inv (transitionLocked to b) n.
Proof.
  intros. unfold transitionLocked; simpl.
  destruct (OnStateChange (opts b)) eqn:Hon; simpl.
  - case_bool_decide as Heq; simpl; constructor; simpl; rewrite ?Hon; auto;
      try (intros s; apply (publish_gauge (set_state to b))).
    + by rewrite <- Heq.
    + apply transition_path_snoc; auto.
  - constructor; simpl; rewrite ?Hon; auto; intros s; apply (publish_gauge (set_state to b)).
Qed.

Lemma NewStoreBreaker_inv o : sb_inv (NewStoreBreaker o) 0.
Proof.
  constructor; simpl; try done.
  - crush_ifs.
  - unfold Second. repeat split_if; to_prop; lia.
  - split; [|done]. crush_ifs.
  - by intros [].
  - by destruct (OnStateChange o).
Qed.

Lemma Allow_inv jitter now b n r b' :
  sb_inv b n -> Allow jitter now b = (r, b') ->
  sb_inv b' (match r with Ok true => S n | _ => n end).
Proof.
  intros [H1 H2 H3 H4 H5 H6 H7 H8]. unfold Allow.
  destruct (state b) eqn:Hs; intros HA.
  - simplify_eq. constructor; rewrite ?Hs; auto.
  - assert (Hge : ~ consecutiveFails b < FailureThreshold (opts b))
      by (intros HP%H6; congruence).
    destruct (probeInFlight b) eqn:Hpf; simpl in HA.
    { rewrite andb_false_r in HA. injection HA as <- <-.
      constructor; simpl; rewrite ?Hs, ?Hpf; auto. }
    destruct (negb (now <? nextProbeAt b)); simpl in HA; injection HA as <- <-.
    + assert (Hp : set_probe true (transitionLocked BreakerHalfOpen b)
                   = transitionLocked BreakerHalfOpen (set_probe true b)).
      { unfold transitionLocked; simpl. by destruct (_ && _)%bool. }
      rewrite Hp. apply transition_inv; simpl; rewrite ?Hs; auto; [done|].
      split; [done|]. intros HP. by apply Hge in HP.
    + constructor; simpl; rewrite ?Hs, ?Hpf; auto.
  - rewrite H4 in HA by done. simpl in HA. simplify_eq. constructor; simpl; rewrite ?Hs; auto.
Qed.

Lemma Record_inv jitter now (probe : bool) err b n n' :
  sb_inv b n ->
  (if probe then n = S n' else n' = n) ->
  sb_inv (Record_ jitter now probe err b) n'.
Proof.
  intros [H1 H2 H3 H4 H5 H6 H7 H8] Hn. unfold Record_.
  set (err' := if isBenignStoreError err then None else err). clearbody err'.
  set (b1 := if probe then set_probe false b else b).
  assert (Hb1 : opts b1 = opts b /\ state b1 = state b /\ consecutiveFails b1 = consecutiveFails b
                /\ notified b1 = notified b /\ gauge b1 = gauge b /\ openAttempts b1 = openAttempts b)
    by (subst b1; by destruct probe).
  destruct Hb1 as (Ho & Hs & Hf & Hl & Hg & Ha).
  assert (Hp : n' = if probeInFlight b1 then 1%nat else 0%nat).
  { subst b1. destruct probe; subst; simpl; [|done]. destruct (probeInFlight b); lia. }
  assert (Hhalf : probe = false -> state b = BreakerHalfOpen -> probeInFlight b1 = true).
  { intros ->. subst b1. auto. }
  clearbody b1. destruct err' as [e|]; simpl.
  - rewrite Ho, Hs, Hf. destruct (_ || _)%bool eqn:Hopen.
    + assert (Hge : FailureThreshold (opts b) <= consecutiveFails b + 1).
      { apply orb_true_iff in Hopen as [Hh|Hh]; to_prop; [|done].
        destruct (decide (consecutiveFails b < FailureThreshold (opts b))) as [HP%H6|]; [congruence|lia]. }
      clear Hopen. case_bool_decide as Hst; simpl.
      * constructor; simpl; rewrite ?Hg, ?Hl; auto; [by rewrite Hst|lia|].
        rewrite Hst. split; [done|lia].
      * apply transition_inv; simpl; rewrite ?Hl; auto; try done; [by rewrite ?Hs; destruct (state b)|lia|]. split; [done|lia].
    + apply orb_false_iff in Hopen as [Hnh Hlt]; to_prop.
      constructor; simpl; rewrite ?Hg, ?Hl; auto; [lia|].
      split; [lia|]. intros _. apply H6. lia.
  - rewrite Ho, Hs. case_bool_decide as Hst; simpl.
    + constructor; simpl; rewrite ?Hg, ?Hl; auto; try lia; try congruence.
      rewrite Hst. by split.
    + apply transition_inv; simpl; rewrite ?Hl; auto; try done. by rewrite ?Hs; destruct (state b).
Qed.

Lemma sb_step_inv x y : sb_step x y -> sb_inv x.1 x.2 -> sb_inv y.1 y.2.
Proof.
  destruct 1 as [jitter now b n r b' HA Hr|jitter now b n b' HA|jitter now err b n|jitter now err b n];
    simpl; intros Hi.
  - apply (Allow_inv _ _ _ _ _ _ Hi) in HA. by destruct r as [[]|].
  - by apply (Allow_inv _ _ _ _ _ _ Hi) in HA.
  - by eapply Record_inv.
  - by eapply Record_inv.
Qed.

(** C36: in every state reachable from a fresh store breaker through any
    interleaving of Allow and Record calls, at most one granted probe is
    outstanding and probeInFlight says so exactly; a half-open breaker always
    has its probe outstanding; the breaker is closed exactly when fewer than
    FailureThreshold consecutive failures are on record; the gauge is one-hot
    on the state; and the OnStateChange notifications spell a path of the
    state machine from closed to the current state, over the moves closed to open,
    open to half-open, half-open to open or closed, and open to closed. *)
Theorem store_breaker_reachable_invariant o b n
    (Hreach : rtc sb_step (NewStoreBreaker o, 0%nat) (b, n)) : sb_inv b n.
Proof.
  change (sb_inv (b, n).1 (b, n).2). revert Hreach.
  generalize (NewStoreBreaker_inv o). change (NewStoreBreaker o) with (NewStoreBreaker o, 0%nat).1 at 1.
  change 0%nat with (NewStoreBreaker o, 0%nat).2 at 2.
  intros H0 Hr. induction Hr; eauto using sb_step_inv.
Qed.

Lemma store_breaker_reachable_invariant_witness :
  let o := mkOptions 1 (2 * Second) (30 * Second) true in
  let b1 := Record_ (fun _ => 0) 100 false (Some (Sentinel (ForeignErr "refused"))) (NewStoreBreaker o) in
  let b2 := (Allow (fun _ => 0) (10 * Second) b1).2 in
  sb_inv b2 1 /\ notified b2 = [(BreakerClosed, BreakerOpen); (BreakerOpen, BreakerHalfOpen)].
Proof.
  split; [|reflexivity].
  eapply (store_breaker_reachable_invariant (mkOptions 1 (2 * Second) (30 * Second) true)).
  eapply rtc_l; [eapply (step_record_plain (fun _ => 0) 100 (Some (Sentinel (ForeignErr "refused"))))|].
  eapply rtc_l; [|apply rtc_refl].
  eapply (step_allow_probe (fun _ => 0) (10 * Second)). vm_compute. reflexivity.
Defined.

(** ** Recovery backoff *)

Lemma cooldown_loop_spec n base max :
  0 < base <= max -> max <= 2 ^ 62 ->
  cooldown_loop n max base = Z.min (base * 2 ^ Z.of_nat n) max.
Proof.
  revert base. induction n as [|n IH]; intros base Hb Hm; simpl cooldown_loop.
  - rewrite Z.mul_1_r. lia.
  - rewrite Nat2Z.inj_succ, Z.pow_succ_r by lia.
    assert (1 <= 2 ^ Z.of_nat n) by (apply (Z.pow_le_mono_r 2 0); lia).
    destruct (base <? max) eqn:Hlt; to_prop; [|nia].
    rewrite i64_id by (unfold in_i64, minInt64, maxInt64; lia).
    destruct (max <? base * 2) eqn:Hov; to_prop; rewrite IH by lia; nia.
Qed.

(** the cooldown chosen at the k-th consecutive opening is drawn from the
    upper half of the capped exponential c = min(BaseCooldown * 2^(k-1),
    MaxCooldown): it is at least c/2 and below c, but never under one
    millisecond, so the probe delay grows exponentially, never exceeds
    MaxCooldown (or 1ms) and does not overflow. *)
Theorem open_cooldown_bounds jitter o k
    (Hk : 1 <= k) (Hbase : 0 < BaseCooldown o <= MaxCooldown o) (Hmax : MaxCooldown o <= 2 ^ 62)
    (Hjit : forall m, 0 < m -> 0 <= jitter m < m) :
  let c := Z.min (BaseCooldown o * 2 ^ (k - 1)) (MaxCooldown o) in
  Z.max Millisecond (c / 2) <= open_cooldown jitter o k <= Z.max Millisecond c.
Proof.
  cbv zeta. unfold open_cooldown, goquot.
  rewrite cooldown_loop_spec by lia. rewrite Z2Nat.id by lia.
  set (c := Z.min _ _). assert (Hc : 0 < c <= 2 ^ 62).
  { subst c. assert (0 < 2 ^ (k - 1)) by (apply Z.pow_pos_nonneg; lia). nia. }
  clearbody c. rewrite Z.quot_div_nonneg by lia.
  pose proof (Z.div_le_upper_bound c 2 c ltac:(lia) ltac:(lia)).
  pose proof (Z.div_pos c 2 ltac:(lia) ltac:(lia)).
  pose proof (Z.mul_div_le c 2 ltac:(lia)).
  destruct (0 <? c / 2) eqn:Hj; to_prop.
  - pose proof (Hjit (c / 2) Hj).
    rewrite i64_id by (unfold in_i64, minInt64, maxInt64; lia).
    destruct (_ <? Millisecond) eqn:Hms; to_prop; lia.
  - destruct (_ <? Millisecond) eqn:Hms; to_prop; lia.
Qed.

Lemma open_cooldown_bounds_witness :
  let o := mkOptions 3 (2 * Second) (30 * Second) false in
  8 * Second / 2 <= open_cooldown (fun m => m - 1) o 3 <= 8 * Second.
Proof.
  pose proof (open_cooldown_bounds (fun m => m - 1) (mkOptions 3 (2 * Second) (30 * Second) false) 3
    ltac:(lia) ltac:(vm_compute; split; congruence) ltac:(vm_compute; congruence) ltac:(lia)) as H.
  exact H.
Defined.

(** The circuit always recovers: in any reachable state in which no probe
    is outstanding and the probe time has come, Allow lets the caller through
    without a rejection, and reporting that call as a success closes the
    circuit and clears the failure count and the backoff. *)
Theorem store_breaker_recovers o b jitter now
    (Hreach : rtc sb_step (NewStoreBreaker o, 0%nat) (b, 0%nat)) (Hdue : nextProbeAt b <= now) :
  exists probe b',
    Allow jitter now b = (Ok probe, b') /\ rejections b' = rejections b /\
    forall jitter' now', let b'' := Record_ jitter' now' probe None b' in
      state b'' = BreakerClosed /\ consecutiveFails b'' = 0 /\ openAttempts b'' = 0 /\
      probeInFlight b'' = false.
Proof.
  assert (Hinv : sb_inv b 0).
  { revert Hreach. generalize (NewStoreBreaker_inv o). generalize (NewStoreBreaker o). intros b0 H0 Hr.
    change (sb_inv (b, 0%nat).1 (b, 0%nat).2). change (sb_inv (b0, 0%nat).1 (b0, 0%nat).2) in H0.
    induction Hr; eauto using sb_step_inv. }
  destruct Hinv as [_ _ Hp Hh _ _ _ _].
  destruct (probeInFlight b) eqn:Hpf; [done|].
  unfold Allow. rewrite Hpf. destruct (state b) eqn:Hs; simpl.
  - eexists _, _; split_and!; try done. intros. unfold Record_; simpl. by rewrite Hs.
  - assert (now <? nextProbeAt b = false) as -> by (apply Z.ltb_ge; lia). simpl.
    eexists _, _; split_and!; try done.
    + unfold transitionLocked; simpl. by destruct (_ && _)%bool.
    + intros. unfold Record_, transitionLocked; simpl.
      destruct (OnStateChange (opts b)) eqn:Ho; simpl; rewrite ?Hs; simpl; rewrite ?Ho; done.
  - by specialize (Hh eq_refl).
Qed.

Lemma store_breaker_recovers_witness :
  let o := mkOptions 1 (2 * Second) (30 * Second) true in
  let b1 := Record_ (fun _ => 0) 0 false (Some (Sentinel (ForeignErr "refused"))) (NewStoreBreaker o) in
  exists probe b', Allow (fun _ => 0) (3 * Second) b1 = (Ok probe, b') /\ rejections b' = rejections b1.
Proof.
  pose proof (store_breaker_recovers (mkOptions 1 (2 * Second) (30 * Second) true)
    (Record_ (fun _ => 0) 0 false (Some (Sentinel (ForeignErr "refused")))
       (NewStoreBreaker (mkOptions 1 (2 * Second) (30 * Second) true)))
    (fun _ => 0) (3 * Second)) as H.
  destruct H as (p & b' & HA & Hr & _).
  - eapply rtc_once, step_record_plain.
  - vm_compute. congruence.
  - exists p, b'. split; [exact HA|exact Hr].
Defined.
