(* ===== verification/GoTime.v ===== *)
(** * Calendar times and their SQLite text form (internal/store/sqlite.go)

    The proleptic Gregorian calendar of Go's time package on nanoseconds since
    the epoch, [formatTime] with the fixed-width layout the SQLite store writes,
    and [parseTime], which reads it back. SQLite compares the stored strings byte
    by byte, so the store relies on the order and the round trip proved here. *)

From S2P Require Import Prelude GoStrings.
From Stdlib Require Import Ascii String.
Local Open Scope Z_scope.
Local Open Scope go_scope.

(** ** Civil dates *)

Record civil : Type := mkCivil { cv_year : Z; cv_month : Z; cv_day : Z }.

(** Days before the first of March of year [y] and month [mp] of the year that
    starts in March, counted from the epoch. *)
Definition year_days (y : Z) : Z := 365 * y + y / 4 - y / 100 + y / 400.
Definition days_from_civil (c : civil) : Z :=
  let y := if cv_month c <=? 2 then cv_year c - 1 else cv_year c in
  let mp := if cv_month c <=? 2 then cv_month c + 9 else cv_month c - 3 in
  year_days y + (153 * mp + 2) / 5 + cv_day c - 1 - 719468.

(** The date of a day: cycles of 400, 100, 4 and 1 years are cut off in turn. *)
Definition civil_of_days (days : Z) : civil :=
  let z := days + 719468 in
  let n400 := z / 146097 in let d := z mod 146097 in
  let n100 := Z.min 3 (d / 36524) in let d := d - 36524 * n100 in
  let n4 := d / 1461 in let d := d mod 1461 in
  let n1 := Z.min 3 (d / 365) in let d := d - 365 * n1 in
  let y := 400 * n400 + 100 * n100 + 4 * n4 + n1 in
  let mp := (5 * d + 2) / 153 in
  let day := d - (153 * mp + 2) / 5 + 1 in
  if mp <? 10 then mkCivil y (mp + 3) day else mkCivil (y + 1) (mp - 9) day.

(** The days of a month, time.daysIn. *)
Definition is_leap (y : Z) : bool := (y mod 4 =? 0) && (negb (y mod 100 =? 0) || (y mod 400 =? 0)).
Definition days_in (m y : Z) : Z :=
  if m =? 2 then (if is_leap y then 29 else 28)
  else if (m =? 4) || (m =? 6) || (m =? 9) || (m =? 11) then 30 else 31.

Definition civil_ok (c : civil) : Prop :=
  1 <= cv_month c <= 12 /\ 1 <= cv_day c <= days_in (cv_month c) (cv_year c).

(** ** Formatting *)

Definition day_ns : Z := 86400 * Second.

(** time.Time.Format with "2006-01-02T15:04:05.000000000Z07:00", in UTC. *)
Definition format_layout (t : Z) : string :=
  let c := civil_of_days (t / day_ns) in
  let ns := t mod day_ns in let sod := ns / Second in
  pad_digits 4 (cv_year c) +++ "-" +++ pad_digits 2 (cv_month c) +++ "-" +++ pad_digits 2 (cv_day c) +++ "T" +++
  pad_digits 2 (sod / 3600) +++ ":" +++ pad_digits 2 (sod / 60 mod 60) +++ ":" +++ pad_digits 2 (sod mod 60) +++
  "." +++ pad_digits 9 (ns mod Second) +++ "Z".

Definition formatTime (t : Z) : string := if time_IsZero t then "" else format_layout t.

Fixpoint trim_zeros (s : string) : string :=
  match s with
  | EmptyString => ""
  | String c s' => match trim_zeros s' with
                   | EmptyString => if Ascii.eqb c "0" then "" else String c ""
                   | r => String c r
                   end
  end.

(** Format(time.RFC3339Nano) in UTC: the fraction without its trailing zeros. *)
Definition format_RFC3339Nano (t : Z) : string :=
  let c := civil_of_days (t / day_ns) in
  let ns := t mod day_ns in let sod := ns / Second in
  let frac := trim_zeros (pad_digits 9 (ns mod Second)) in
  pad_digits 4 (cv_year c) +++ "-" +++ pad_digits 2 (cv_month c) +++ "-" +++ pad_digits 2 (cv_day c) +++ "T" +++
  pad_digits 2 (sod / 3600) +++ ":" +++ pad_digits 2 (sod / 60 mod 60) +++ ":" +++ pad_digits 2 (sod mod 60) +++
  (if bool_decide (frac = "") then "" else "." +++ frac) +++ "Z".

(** ** Parsing *)

(** The number of [w] digits [s] starts with, within bounds, and the rest
    (parseUint of time.parseRFC3339). *)
Definition take_num (w : nat) (lo hi : Z) (s : string) : option (Z * string) :=
  match parse_digits 0 (substring 0 w s) with
  | Some n => if (String.length s <? w)%nat || (n <? lo) || (hi <? n) then None
              else Some (n, substring w (String.length s - w) s)
  | None => None
  end.

Definition take_chr (c : ascii) (s : string) : option string :=
  match s with String d r => if Ascii.eqb c d then Some r else None | EmptyString => None end.

(** The leading digits of a string and the rest. *)
Fixpoint span_digits (s : string) : string * string :=
  match s with
  | String c r => if is_digit c then let '(a, b) := span_digits r in (String c a, b) else ("", s)
  | EmptyString => ("", "")
  end.

(** A fraction of a second: digits past the ninth are dropped, missing ones are zero. *)
Definition frac_ns (ds : string) : option Z :=
  let d := substring 0 9 ds in
  (fun n => n * 10 ^ (9 - Z.of_nat (String.length d))) <$> parse_digits 0 d.

Definition take_frac (s : string) : option (Z * string) :=
  match s with
  | String "." (String c r) =>
      if is_digit c then
        let '(ds, rest) := span_digits (String c r) in (fun n => (n, rest)) <$> frac_ns ds
      else Some (0, s)
  | _ => Some (0, s)
  end.

(** The zone: Z, or a signed offset of hours and minutes, in seconds. *)
Definition take_zone (s : string) : option Z :=
  if bool_decide (s = "Z") then Some 0
  else match s with
       | String c r =>
           if (Ascii.eqb c "+" || Ascii.eqb c "-")%bool && (String.length s =? 6)%nat then
             '(hr, r) ← take_num 2 0 24 r; r ← take_chr ":" r; '(mm, _) ← take_num 2 0 60 r;
             Some ((if Ascii.eqb c "-" then -1 else 1) * ((hr * 60 + mm) * 60))
           else None
       | EmptyString => None
       end.

(** time.parseRFC3339, the strict parser time.Parse tries first for the layouts
    RFC3339 and RFC3339Nano. *)
Definition parseRFC3339 (s : string) : option Z :=
  '(y, s) ← take_num 4 0 9999 s; s ← take_chr "-" s;
  '(mo, s) ← take_num 2 1 12 s; s ← take_chr "-" s;
  '(d, s) ← take_num 2 1 (days_in mo y) s; s ← take_chr "T" s;
  '(hh, s) ← take_num 2 0 23 s; s ← take_chr ":" s;
  '(mm, s) ← take_num 2 0 59 s; s ← take_chr ":" s;
  '(ss, s) ← take_num 2 0 59 s;
  '(ns, s) ← take_frac s;
  off ← take_zone s;
  Some (days_from_civil (mkCivil y mo d) * day_ns + (hh * 3600 + mm * 60 + ss - off) * Second + ns).

(** [general] is time.Parse's lenient reading of the same layout and of the two
    other layouts the function tries, None when all three fail. *)
Definition parseTime (general : string -> option Z) (s : string) : Z :=
  if bool_decide (s = "") then time_zero
  else match parseRFC3339 s with
       | Some t => t
       | None => default time_zero (general s)
       end.

Example format_epoch : formatTime 0 = "1970-01-01T00:00:00.000000000Z".
Proof. reflexivity. Qed.
Example format_some : formatTime 1709210096500000000 = "2024-02-29T12:34:56.500000000Z".
Proof. reflexivity. Qed.
Example parse_some : parseRFC3339 "2024-02-29T12:34:56.5+01:00" = Some 1709206496500000000.
Proof. reflexivity. Qed.

(** ** The calendar *)

(** Linear arithmetic with divisions by constants. *)
Ltac div_lia := Z.to_euclidean_division_equations; lia.

Lemma year_days_split n400 n100 n4 n1 :
  0 <= n100 <= 3 -> 0 <= n4 <= 24 -> 0 <= n1 <= 3 ->
  year_days (400 * n400 + 100 * n100 + 4 * n4 + n1) = 146097 * n400 + 36524 * n100 + 1461 * n4 + 365 * n1.
Proof.
  intros H1 H2 H3. unfold year_days.
  rewrite <- (Z.div_unique (400 * n400 + 100 * n100 + 4 * n4 + n1) 4 (100 * n400 + 25 * n100 + n4) n1) by lia.
  rewrite <- (Z.div_unique (400 * n400 + 100 * n100 + 4 * n4 + n1) 100 (4 * n400 + n100) (4 * n4 + n1)) by lia.
  rewrite <- (Z.div_unique (400 * n400 + 100 * n100 + 4 * n4 + n1) 400 n400 (100 * n100 + 4 * n4 + n1)) by lia. lia.
Qed.

(** The nested cycles of a day, with the day of the year that starts in March. *)
Lemma cycles_of_days z :
  let n400 := z / 146097 in let d := z mod 146097 in
  let n100 := Z.min 3 (d / 36524) in let d1 := d - 36524 * n100 in
  let n4 := d1 / 1461 in let d2 := d1 mod 1461 in
  let n1 := Z.min 3 (d2 / 365) in let d3 := d2 - 365 * n1 in
  z = 146097 * n400 + 36524 * n100 + 1461 * n4 + 365 * n1 + d3 /\
  0 <= n100 <= 3 /\ 0 <= n4 <= 24 /\ 0 <= n1 <= 3 /\ 0 <= d3 <= 365 /\
  (d3 = 365 -> n1 = 3 /\ (n4 = 24 -> n100 = 3)).
Proof.
  intros. unfold d3, n1, d2, n4, d1, n100, d, n400.
  pose proof (Z.div_mod z 146097 ltac:(lia)). pose proof (Z.mod_pos_bound z 146097 ltac:(lia)).
  set (q := z / 146097) in *. set (r := z mod 146097) in *. clearbody q r.
  set (a := Z.min 3 (r / 36524)). assert (Ha : 0 <= a <= 3 /\ 0 <= r - 36524 * a <= 36524 /\ (r - 36524 * a = 36524 -> a = 3)) by (unfold a; div_lia).
  clearbody a. set (r1 := r - 36524 * a) in *. assert (r = 36524 * a + r1) by lia. clearbody r1.
  pose proof (Z.div_mod r1 1461 ltac:(lia)). pose proof (Z.mod_pos_bound r1 1461 ltac:(lia)).
  set (b := r1 / 1461) in *. set (r2 := r1 mod 1461) in *. clearbody b r2.
  set (e := Z.min 3 (r2 / 365)). assert (He : 0 <= e <= 3 /\ 0 <= r2 - 365 * e <= 365 /\ (r2 - 365 * e = 365 -> e = 3)) by (unfold e; div_lia).
  clearbody e. lia.
Qed.

(** Day numbers and dates correspond. *)
Lemma days_civil z : days_from_civil (civil_of_days z) = z.
Proof.
  unfold civil_of_days. pose proof (cycles_of_days (z + 719468)) as Hc. cbv zeta in *.
  destruct Hc as (Hz & Ha & Hb & He & Hd & _).
  set (n400 := (z + 719468) / 146097) in *.
  set (n100 := Z.min 3 ((z + 719468) mod 146097 / 36524)) in *.
  set (d1 := (z + 719468) mod 146097 - 36524 * n100) in *.
  set (n4 := d1 / 1461) in *. set (n1 := Z.min 3 (d1 mod 1461 / 365)) in *.
  set (d := d1 mod 1461 - 365 * n1) in *. clearbody d n1 n4. clear d1. clearbody n100 n400.
  pose proof (year_days_split n400 n100 n4 n1 Ha Hb He) as Hy.
  set (y := 400 * n400 + 100 * n100 + 4 * n4 + n1) in *. clearbody y.
  set (mp := (5 * d + 2) / 153). assert (0 <= mp <= 11) by (unfold mp; div_lia). clearbody mp.
  destruct (Z.ltb_spec mp 10); unfold days_from_civil; cbn [cv_year cv_month cv_day].
  - destruct (Z.leb_spec (mp + 3) 2); [lia|]. replace (mp + 3 - 3) with mp by lia. lia.
  - destruct (Z.leb_spec (mp - 9) 2); [|lia].
    replace (mp - 9 + 9) with mp by lia. replace (y + 1 - 1) with y by lia. lia.
Qed.

Lemma div_step y k : 0 < k -> (y + 1) / k - y / k = if (y + 1) mod k =? 0 then 1 else 0.
Proof.
  intros Hk. pose proof (Z.div_mod y k ltac:(lia)) as E. pose proof (Z.mod_pos_bound y k Hk) as B.
  set (q := y / k) in *. set (r := y mod k) in *. clearbody q r. subst y.
  destruct (Z.eq_dec (r + 1) k) as [Hr|Hr].
  - replace (k * q + r + 1) with ((q + 1) * k) by lia.
    rewrite Z.div_mul, Z.mod_mul, Z.eqb_refl by lia. lia.
  - replace (k * q + r + 1) with (r + 1 + q * k) by lia.
    rewrite Z.div_add, Z.mod_add, Z.div_small, Z.mod_small by lia.
    destruct (Z.eqb_spec (r + 1) 0); lia.
Qed.

Lemma mod_of_multiple y a b : 0 < a -> 0 < b -> y mod (a * b) = 0 -> y mod a = 0.
Proof.
  intros Ha Hb H. apply Z.mod_divide in H; [|lia]. apply Z.mod_divide; [lia|].
  destruct H as [k ->]. exists (k * b). lia.
Qed.

(** A year that starts in March ends with February of the next. *)
Lemma year_step y : year_days (y + 1) - year_days y = if is_leap (y + 1) then 366 else 365.
Proof.
  unfold year_days, is_leap.
  pose proof (div_step y 4 ltac:(lia)). pose proof (div_step y 100 ltac:(lia)). pose proof (div_step y 400 ltac:(lia)).
  pose proof (mod_of_multiple (y + 1) 4 25 ltac:(lia) ltac:(lia)) as H4.
  pose proof (mod_of_multiple (y + 1) 100 4 ltac:(lia) ltac:(lia)) as H100. cbn [Z.mul Pos.mul Pos.add] in *.
  destruct (Z.eqb_spec ((y + 1) mod 4) 0), (Z.eqb_spec ((y + 1) mod 100) 0), (Z.eqb_spec ((y + 1) mod 400) 0);
    cbn [andb orb negb]; first [lia | exfalso; tauto].
Qed.

Lemma year_days_mono y n : 0 <= n -> year_days y <= year_days (y + n).
Proof.
  intros Hn. pattern n. apply natlike_ind; [by rewrite Z.add_0_r| |done].
  intros k Hk IH. replace (y + Z.succ k) with (y + k + 1) by lia.
  pose proof (year_step (y + k)). destruct (is_leap _); lia.
Qed.

Lemma days_in_bounds m y : 28 <= days_in m y <= 31.
Proof. unfold days_in. repeat split_if; lia. Qed.

(** The year and month counted from March, and the day of that year. *)
Definition march_year (c : civil) : Z := if cv_month c <=? 2 then cv_year c - 1 else cv_year c.
Definition march_month (c : civil) : Z := if cv_month c <=? 2 then cv_month c + 9 else cv_month c - 3.
Definition march_doy (c : civil) : Z := (153 * march_month c + 2) / 5 + cv_day c - 1.

Lemma march_doy_bounds c : civil_ok c ->
  0 <= march_month c <= 11 /\ 0 <= march_doy c < year_days (march_year c + 1) - year_days (march_year c) /\
  (march_month c < 11 -> march_doy c < (153 * (march_month c + 1) + 2) / 5).
Proof.
  intros [Hm Hd]. rewrite year_step. unfold march_doy, march_month, march_year, days_in in *.
  assert (Hcase : cv_month c = 1 \/ cv_month c = 2 \/ cv_month c = 3 \/ cv_month c = 4 \/ cv_month c = 5 \/ cv_month c = 6 \/
    cv_month c = 7 \/ cv_month c = 8 \/ cv_month c = 9 \/ cv_month c = 10 \/ cv_month c = 11 \/ cv_month c = 12) by lia.
  repeat destruct Hcase as [Hcase|Hcase]; rewrite Hcase in *; cbn in Hd |- *;
    replace (cv_year c - 1 + 1) with (cv_year c) by lia;
    destruct (is_leap (cv_year c)), (is_leap (cv_year c + 1)); div_lia.
Qed.

(** Dates in calendar order. *)
Definition civil_lt (a b : civil) : Prop :=
  cv_year a < cv_year b \/ cv_year a = cv_year b /\
  (cv_month a < cv_month b \/ cv_month a = cv_month b /\ cv_day a < cv_day b).

Lemma days_from_civil_lt a b : civil_ok a -> civil_ok b -> civil_lt a b -> days_from_civil a < days_from_civil b.
Proof.
  intros Ha Hb Hlt. pose proof (march_doy_bounds a Ha) as (Ma & Da & Ea). pose proof (march_doy_bounds b Hb) as (Mb & Db & Eb).
  destruct Ha as [Ha _], Hb as [Hb Hbd].
  assert (Hm : march_year a < march_year b \/ march_year a = march_year b /\
    (march_month a < march_month b \/ march_month a = march_month b /\ cv_day a < cv_day b)).
  { clear -Hlt Ha Hb. unfold civil_lt, march_year, march_month in *.
    destruct (Z.leb_spec (cv_month a) 2), (Z.leb_spec (cv_month b) 2); lia. }
  change (days_from_civil a) with (year_days (march_year a) + (153 * march_month a + 2) / 5 + cv_day a - 1 - 719468).
  change (days_from_civil b) with (year_days (march_year b) + (153 * march_month b + 2) / 5 + cv_day b - 1 - 719468).
  destruct Hm as [Hy|[Hy [Hm|[Hm Hd]]]].
  - pose proof (year_days_mono (march_year a + 1) (march_year b - (march_year a + 1)) ltac:(lia)) as Hmono.
    replace (march_year a + 1 + (march_year b - (march_year a + 1))) with (march_year b) in Hmono by lia.
    unfold march_doy in *. lia.
  - rewrite Hy in *. specialize (Ea ltac:(lia)). unfold march_doy in *.
    pose proof (Z.div_le_mono (153 * (march_month a + 1) + 2) (153 * march_month b + 2) 5 ltac:(lia) ltac:(lia)).
    lia.
  - rewrite Hy, Hm. lia.
Qed.

(** The last day of a year that starts in March is February 29 of a leap year. *)
Lemma leap_of_cycles n400 n100 n4 :
  0 <= n100 <= 3 -> 0 <= n4 <= 24 -> (n4 = 24 -> n100 = 3) ->
  is_leap (400 * n400 + 100 * n100 + 4 * n4 + 3 + 1) = true.
Proof.
  intros Ha Hb Hc. unfold is_leap.
  replace (400 * n400 + 100 * n100 + 4 * n4 + 3 + 1) with ((100 * n400 + 25 * n100 + (n4 + 1)) * 4) by lia.
  rewrite Z.mod_mul by lia. cbn [Z.eqb andb].
  destruct (Z.eq_dec n4 24) as [->|Hn].
  - rewrite (Hc eq_refl). replace ((100 * n400 + 25 * 3 + (24 + 1)) * 4) with ((n400 + 1) * 400) by lia.
    rewrite (Z.mod_mul _ 400) by lia. by rewrite orb_true_r.
  - replace ((100 * n400 + 25 * n100 + (n4 + 1)) * 4) with (4 * (n4 + 1) + (4 * n400 + n100) * 100) by lia.
    rewrite Z.mod_add, Z.mod_small by lia. by destruct (Z.eqb_spec (4 * (n4 + 1)) 0); [lia|].
Qed.

Lemma month_of_doy d : 0 <= d <= 365 ->
  let mp := (5 * d + 2) / 153 in let day := d - (153 * mp + 2) / 5 + 1 in
  0 <= mp <= 11 /\ 1 <= day <= 31 /\ (day = 31 -> mp <> 1 /\ mp <> 3 /\ mp <> 6 /\ mp <> 8) /\
  (mp = 11 -> day <= 29 /\ (day = 29 -> d = 365)).
Proof. intros Hd. cbv zeta. div_lia. Qed.

Lemma civil_of_days_ok z : civil_ok (civil_of_days z).
Proof.
  unfold civil_of_days. pose proof (cycles_of_days (z + 719468)) as Hc. cbv zeta in *.
  destruct Hc as (_ & Ha & Hb & He & Hd & Hleap).
  set (n400 := (z + 719468) / 146097) in *.
  set (n100 := Z.min 3 ((z + 719468) mod 146097 / 36524)) in *.
  set (d1 := (z + 719468) mod 146097 - 36524 * n100) in *.
  set (n4 := d1 / 1461) in *. set (n1 := Z.min 3 (d1 mod 1461 / 365)) in *.
  set (d := d1 mod 1461 - 365 * n1) in *. clearbody d n1 n4. clear d1. clearbody n100 n400.
  pose proof (month_of_doy d Hd) as Hm. cbv zeta in Hm. destruct Hm as (Hmp & Hday & H31 & Hfeb).
  set (mp := (5 * d + 2) / 153) in *. set (day := d - (153 * mp + 2) / 5 + 1) in *. clearbody day mp.
  assert (Hl : mp = 11 -> day = 29 -> is_leap (400 * n400 + 100 * n100 + 4 * n4 + n1 + 1) = true).
  { intros -> ->. destruct (Hleap ltac:(lia)) as [-> H24]. by apply leap_of_cycles. }
  set (y := 400 * n400 + 100 * n100 + 4 * n4 + n1) in *. clearbody y. clear -Hmp Hday H31 Hfeb Hl.
  unfold civil_ok, days_in. destruct (Z.ltb_spec mp 10); cbn [cv_year cv_month cv_day].
  - split; [lia|]. destruct (Z.eqb_spec (mp + 3) 2); [lia|].
    destruct (Z.eqb_spec (mp + 3) 4), (Z.eqb_spec (mp + 3) 6), (Z.eqb_spec (mp + 3) 9), (Z.eqb_spec (mp + 3) 11);
      cbn [orb]; lia.
  - split; [lia|]. destruct (Z.eqb_spec (mp - 9) 2) as [E|E].
    + destruct (is_leap (y + 1)); [lia|]. assert (day <> 29) by (intros ->; naive_solver lia). lia.
    + destruct (Z.eqb_spec (mp - 9) 4), (Z.eqb_spec (mp - 9) 6), (Z.eqb_spec (mp - 9) 9), (Z.eqb_spec (mp - 9) 11);
        cbn [orb]; lia.
Qed.

(** Later days have later dates. *)
Lemma civil_of_days_lt a b : a < b -> civil_lt (civil_of_days a) (civil_of_days b).
Proof.
  intros Hab. pose proof (civil_of_days_ok a) as Ha. pose proof (civil_of_days_ok b) as Hb.
  pose proof (days_civil a) as Ea. pose proof (days_civil b) as Eb.
  set (ca := civil_of_days a) in *. set (cb := civil_of_days b) in *. clearbody ca cb.
  destruct (Z.lt_trichotomy (cv_year ca) (cv_year cb)) as [?|[Hy|?]]; [by left| |].
  - destruct (Z.lt_trichotomy (cv_month ca) (cv_month cb)) as [?|[Hm|?]]; [right; by auto| |].
    + destruct (Z.lt_trichotomy (cv_day ca) (cv_day cb)) as [?|[Hd|?]]; [right; by auto| |].
      * assert (ca = cb) by (destruct ca, cb; cbn in *; congruence). subst. lia.
      * pose proof (days_from_civil_lt cb ca Hb Ha ltac:(right; auto)). lia.
    + pose proof (days_from_civil_lt cb ca Hb Ha ltac:(right; auto)). lia.
  - pose proof (days_from_civil_lt cb ca Hb Ha ltac:(by left)). lia.
Qed.

(** The times whose year has four digits, from the zero time on. *)
Definition time_hi : Z := 253402300800 * Second.
Definition time_ok (t : Z) : Prop := time_zero <= t < time_hi.

Lemma year_of_time t : time_ok t -> 1 <= cv_year (civil_of_days (t / day_ns)) <= 9999.
Proof.
  intros [Hlo Hhi]. unfold time_zero, time_hi in *.
  pose proof (Z.div_le_mono (-62135596800 * Second) t day_ns eq_refl Hlo) as Hlo'.
  pose proof (Z.div_lt_upper_bound t day_ns 2932897 eq_refl ltac:(exact Hhi)) as Hhi'.
  change (-62135596800 * Second / day_ns) with (-719162) in Hlo'.
  assert (Hl : civil_of_days (-719162) = mkCivil 1 1 1) by reflexivity.
  assert (Hh : civil_of_days 2932896 = mkCivil 9999 12 31) by reflexivity.
  split.
  - destruct (Z.eq_dec (-719162) (t / day_ns)) as [<-|]; [by rewrite Hl|].
    pose proof (civil_of_days_lt (-719162) (t / day_ns) ltac:(lia)) as H. rewrite Hl in H. unfold civil_lt in H. cbn in H. lia.
  - destruct (Z.eq_dec (t / day_ns) 2932896) as [->|]; [by rewrite Hh|].
    pose proof (civil_of_days_lt (t / day_ns) 2932896 ltac:(lia)) as H. rewrite Hh in H. unfold civil_lt in H. cbn in H. lia.
Qed.

(** ** Order of the text form *)

Lemma compare_str_refl s : String.compare s s = Eq.
Proof. induction s as [|c s IH]; [done|]. cbn. unfold Ascii.compare. by rewrite N.compare_refl. Qed.

Lemma compare_field w sep a b c d :
  0 <= a < 10 ^ Z.of_nat w -> 0 <= b < 10 ^ Z.of_nat w ->
  String.compare (fixed_digits w a +++ String sep c) (fixed_digits w b +++ String sep d) =
  match a ?= b with Eq => String.compare c d | r => r end.
Proof.
  intros Ha Hb. rewrite compare_append_same by (by rewrite !length_fixed_digits).
  rewrite compare_fixed_digits by done. destruct (a ?= b); [|done|done].
  cbn [String.compare]. unfold Ascii.compare. by rewrite N.compare_refl.
Qed.

(** The fields of a time, each within its width. *)
Lemma time_fields t : time_ok t ->
  let c := civil_of_days (t / day_ns) in let ns := t mod day_ns in let sod := ns / Second in
  1 <= cv_year c <= 9999 /\ 1 <= cv_month c <= 12 /\ 1 <= cv_day c <= 31 /\
  0 <= sod / 3600 <= 23 /\ 0 <= sod / 60 mod 60 <= 59 /\ 0 <= sod mod 60 <= 59 /\ 0 <= ns mod Second < Second /\
  t = t / day_ns * day_ns + (sod / 3600 * 3600 + sod / 60 mod 60 * 60 + sod mod 60) * Second + ns mod Second.
Proof.
  intros Ht. cbv zeta. pose proof (year_of_time t Ht). destruct (civil_of_days_ok (t / day_ns)) as [Hm Hd].
  pose proof (days_in_bounds (cv_month (civil_of_days (t / day_ns))) (cv_year (civil_of_days (t / day_ns)))).
  do 2 (split; [lia|]). split; [lia|].
  pose proof (Z.div_mod t day_ns ltac:(done)). pose proof (Z.mod_pos_bound t day_ns eq_refl) as Hns.
  set (ns := t mod day_ns) in *. unfold day_ns, Second in *.
  pose proof (Z.div_mod ns 1000000000 ltac:(done)). pose proof (Z.mod_pos_bound ns 1000000000 eq_refl).
  set (sod := ns / 1000000000) in *. assert (0 <= sod < 86400) by lia. clearbody sod.
  div_lia.
Qed.

Lemma format_layout_eq t : time_ok t ->
  let c := civil_of_days (t / day_ns) in let ns := t mod day_ns in let sod := ns / Second in
  format_layout t =
  fixed_digits 4 (cv_year c) +++ String "-" (fixed_digits 2 (cv_month c) +++ String "-" (fixed_digits 2 (cv_day c) +++ String "T"
  (fixed_digits 2 (sod / 3600) +++ String ":" (fixed_digits 2 (sod / 60 mod 60) +++ String ":" (fixed_digits 2 (sod mod 60) +++ String "."
  (fixed_digits 9 (ns mod Second) +++ "Z"))))))%char.
Proof.
  intros Ht. cbv zeta. pose proof (time_fields t Ht) as Hf. cbv zeta in Hf. unfold Second in Hf.
  destruct Hf as (?&?&?&?&?&?&?&?). unfold format_layout. cbv zeta. unfold Second in *.
  rewrite !pad_digits_fixed by (try lia; cbn [Z.of_nat Pos.of_succ_nat Pos.succ Z.pow Z.pow_pos Pos.iter Z.mul Pos.mul Pos.add]; lia).
  reflexivity.
Qed.

Lemma format_layout_lt a b : time_ok a -> time_ok b -> a < b -> String.compare (format_layout a) (format_layout b) = Lt.
Proof.
  intros Ha Hb Hab. rewrite (format_layout_eq a Ha), (format_layout_eq b Hb).
  pose proof (time_fields a Ha) as Fa. pose proof (time_fields b Hb) as Fb. cbv zeta in Fa, Fb.
  pose proof (Z.div_le_mono a b day_ns eq_refl ltac:(lia)) as Hdays.
  assert (Hlex : a / day_ns < b / day_ns -> civil_lt (civil_of_days (a / day_ns)) (civil_of_days (b / day_ns)))
    by apply civil_of_days_lt.
  assert (Heq : a / day_ns = b / day_ns -> civil_of_days (a / day_ns) = civil_of_days (b / day_ns)) by congruence.
  set (ca := civil_of_days (a / day_ns)) in *. set (cb := civil_of_days (b / day_ns)) in *. clearbody ca cb.
  set (nsa := a mod day_ns) in *. set (nsb := b mod day_ns) in *.
  set (ha := nsa / Second / 3600) in *. set (ma := nsa / Second / 60 mod 60) in *. set (sa := nsa / Second mod 60) in *.
  set (hb := nsb / Second / 3600) in *. set (mb := nsb / Second / 60 mod 60) in *. set (sb := nsb / Second mod 60) in *.
  set (fa := nsa mod Second) in *. set (fb := nsb mod Second) in *. clearbody ha ma sa hb mb sb fa fb.
  unfold Second in *. set (da := a / day_ns) in *. set (db := b / day_ns) in *. clearbody da db. unfold day_ns, Second in *.
  rewrite !compare_field by (cbn [Z.of_nat Pos.of_succ_nat Pos.succ Z.pow Z.pow_pos Pos.iter Z.mul Pos.mul Pos.add]; lia).
  unfold civil_lt in Hlex.
  repeat match goal with |- context [?x ?= ?y] => destruct (Z.compare_spec x y) end; try done; exfalso;
    (destruct (Z.eq_dec da db) as [E|E]; [rewrite (Heq E) in *; lia|specialize (Hlex ltac:(lia)); lia]).
Qed.

Lemma format_order a b : time_ok a -> time_ok b -> String.compare (formatTime a) (formatTime b) = (a ?= b).
Proof.
  intros Ha Hb. unfold formatTime, time_IsZero.
  assert (Hne : forall t, time_ok t -> exists c s, format_layout t = String c s).
  { intros t Ht. rewrite (format_layout_eq t Ht). cbv zeta.
    destruct (fixed_digits_cons 3 (cv_year (civil_of_days (t / day_ns)))) as (c & s & E & _). rewrite E. cbn. eauto. }
  destruct (Z.eqb_spec a time_zero) as [->|Na], (Z.eqb_spec b time_zero) as [->|Nb].
  - by rewrite Z.compare_refl.
  - destruct (Hne b Hb) as (c & s & ->). destruct Hb. symmetry. apply Z.compare_lt_iff. lia.
  - destruct (Hne a Ha) as (c & s & ->). destruct Ha. symmetry. apply Z.compare_gt_iff. lia.
  - destruct (Z.compare_spec a b) as [->|Hlt|Hlt].
    + apply compare_str_refl.
    + by apply format_layout_lt.
    + rewrite String.compare_antisym, (format_layout_lt b a) by done. done.
Qed.

(** SQLite compares the stored times as strings; for every pair of times with
    a four-digit year the string order is the chronological order, the zero time
    (stored as the empty string) coming first. *)
Theorem formatTime_order (a b : Z) : time_ok a -> time_ok b ->
  String.compare (formatTime a) (formatTime b) = (a ?= b).
Proof. apply format_order. Qed.

Lemma formatTime_order_witness :
  String.compare (formatTime (5 * Second)) (formatTime (5 * Second + 500000000)) = Lt.
Proof.
  refine (formatTime_order (5 * Second) (5 * Second + 500000000) _ _); split; vm_compute; congruence.
Defined.

(** ** Round trip *)

Lemma substring_app_l a b : substring 0 (String.length a) (a +++ b) = a.
Proof. induction a as [|c a IH]; [by destruct b|]. cbn. by rewrite IH. Qed.

Lemma substring_all b : substring 0 (String.length b) b = b.
Proof. induction b as [|c b IH]; [done|]. cbn. by rewrite IH. Qed.

Lemma substring_app_r a b : substring (String.length a) (String.length b) (a +++ b) = b.
Proof. induction a as [|c a IH]; [apply substring_all|]. cbn. by rewrite IH. Qed.

Lemma take_num_fixed w lo hi n rest : 0 <= n < 10 ^ Z.of_nat w -> lo <= n <= hi ->
  take_num w lo hi (fixed_digits w n +++ rest) = Some (n, rest).
Proof.
  intros Hn Hb. unfold take_num. pose proof (length_fixed_digits w n) as Hl.
  pose proof (substring_app_l (fixed_digits w n) rest) as Hf. rewrite Hl in Hf.
  rewrite Hf, parse_fixed_digits, Z.mod_small, length_append, Hl by lia.
  rewrite (proj2 (Nat.ltb_ge (w + String.length rest) w)) by lia.
  destruct (Z.ltb_spec (0 * 10 ^ Z.of_nat w + n) lo); [lia|]. destruct (Z.ltb_spec hi (0 * 10 ^ Z.of_nat w + n)); [lia|].
  cbn [orb]. replace (w + String.length rest - w)%nat with (String.length rest) by lia.
  pose proof (substring_app_r (fixed_digits w n) rest) as Hs. rewrite Hl in Hs. by rewrite Hs.
Qed.

Lemma span_digits_app a b : str_all is_digit a = true ->
  match b with String c _ => is_digit c = false | EmptyString => True end -> span_digits (a +++ b) = (a, b).
Proof.
  induction a as [|c a IH]; cbn; intros Ha Hb.
  - destruct b as [|c b]; [done|]. cbn. by rewrite Hb.
  - apply andb_true_iff in Ha as [-> Ha]. by rewrite (IH Ha Hb).
Qed.

Lemma take_frac_fixed n rest : 0 <= n < Second -> match rest with String c _ => is_digit c = false | EmptyString => True end ->
  take_frac (String "." (fixed_digits 9 n +++ rest)) = Some (n, rest).
Proof.
  intros Hn Hr. unfold take_frac. destruct (fixed_digits_cons 8 n) as (c & s & E & Hc).
  pose proof (span_digits_app (fixed_digits 9 n) rest (fixed_digits_all_digits 9 n) Hr) as Hs.
  pose proof (length_fixed_digits 9 n) as Hl. pose proof (parse_fixed_digits 9 n 0 ltac:(lia)) as Hp.
  rewrite Z.mod_small in Hp by (unfold Second in Hn; cbn; lia).
  rewrite E in *. cbn [String.append] in *. rewrite Hc, Hs. unfold frac_ns.
  pose proof (substring_all (String c s)) as Ha. rewrite Hl in Ha. rewrite Ha, Hp, Hl. cbn [fmap option_fmap option_map Z.of_nat Pos.of_succ_nat Pos.succ].
  f_equal. f_equal. lia.
Qed.

Lemma parseTime_back (general : string -> option Z) (t : Z) : time_ok t -> parseTime general (formatTime t) = t.
Proof.
  intros Ht. unfold formatTime, time_IsZero, parseTime. destruct (Z.eqb_spec t time_zero) as [->|Hz]; [done|].
  pose proof (format_layout_eq t Ht) as E. pose proof (time_fields t Ht) as F. cbv zeta in E, F.
  destruct F as (?&?&?&?&?&?&?&Et). pose proof (civil_of_days_ok (t / day_ns)) as [_ Hday].
  rewrite bool_decide_eq_false_2.
  2:{ rewrite E. destruct (fixed_digits_cons 3 (cv_year (civil_of_days (t / day_ns)))) as (c & s & Ec & _). by rewrite Ec. }
  rewrite E. unfold parseRFC3339.
  repeat (rewrite take_num_fixed by (try done; cbn [Z.of_nat Pos.of_succ_nat Pos.succ Z.pow Z.pow_pos Pos.iter Z.mul Pos.mul Pos.add]; lia);
          cbn [mbind option_bind take_chr Ascii.eqb Bool.eqb]).
  rewrite take_frac_fixed by done. cbn [mbind option_bind].
  change (take_zone "Z") with (Some 0). cbn [mbind option_bind].
  assert (Hc : forall c, mkCivil (cv_year c) (cv_month c) (cv_day c) = c) by (by intros []).
  rewrite Hc, days_civil. lia.
Qed.

(** A time written by formatTime is read back unchanged by parseTime,
    whatever the lenient layouts would do, for every time with a four-digit year. *)
Theorem parseTime_formatTime (general : string -> option Z) (t : Z) :
  time_ok t -> parseTime general (formatTime t) = t.
Proof. apply parseTime_back. Qed.

Lemma parseTime_formatTime_witness :
  parseTime (fun _ => None) (formatTime 1709210096500000000) = 1709210096500000000.
Proof. apply (parseTime_formatTime (fun _ => None)). split; vm_compute; congruence. Defined.

(** ** The round trip of RFC3339Nano *)

Lemma trim_zeros_digits s : str_all is_digit s = true -> str_all is_digit (trim_zeros s) = true.
Proof.
  induction s as [|c s IH]; [done|]. cbn. intros [Hc Hs]%andb_true_iff. specialize (IH Hs).
  destruct (trim_zeros s) as [|d r]; [destruct (Ascii.eqb c "0"); [done|]; cbn; by rewrite Hc|].
  cbn in *. by rewrite Hc.
Qed.

Lemma length_trim_zeros s : (String.length (trim_zeros s) <= String.length s)%nat.
Proof.
  induction s as [|c s IH]; cbn; [lia|]. destruct (trim_zeros s); [destruct (Ascii.eqb c "0"); cbn; lia|cbn in *; lia].
Qed.

(** Trailing zeros are a power of ten. *)
Lemma parse_trim_zeros s : forall acc, str_all is_digit s = true ->
  exists v, parse_digits acc (trim_zeros s) = Some v /\
    parse_digits acc s = Some (v * 10 ^ (Z.of_nat (String.length s) - Z.of_nat (String.length (trim_zeros s)))).
Proof.
  induction s as [|c s IH]; cbn; intros acc Hd; [exists acc; split; [done|]; f_equal; lia|].
  apply andb_true_iff in Hd as [Hc Hs]. destruct (IH (acc * 10 + digit_val c) Hs) as (v & Hv & Hp). rewrite Hc, Hp.
  pose proof (length_trim_zeros s) as Hl. destruct (trim_zeros s) as [|d r].
  - cbn in Hv. injection Hv as <-. destruct (Ascii.eqb_spec c "0") as [->|Hne]; cbn; rewrite ?Hc; eexists; (split; [done|]); f_equal.
    + change (digit_val "0") with 0. change (Z.of_nat (String.length "")) with 0. rewrite !Z.sub_0_r.
      replace (Z.of_nat (S (String.length s))) with (Z.succ (Z.of_nat (String.length s))) by lia.
      rewrite Z.pow_succ_r by lia. ring.
    + f_equal. f_equal. lia.
  - exists v. cbn in *. rewrite Hc. split; [done|]. f_equal. f_equal. f_equal. lia.
Qed.

Lemma take_frac_trim n rest : 0 <= n < Second -> rest = "Z" ->
  take_frac ((if bool_decide (trim_zeros (fixed_digits 9 n) = "") then "" else "." +++ trim_zeros (fixed_digits 9 n)) +++ rest) = Some (n, rest).
Proof.
  intros Hn ->. pose proof (fixed_digits_all_digits 9 n) as Hd. pose proof (trim_zeros_digits _ Hd) as Ht.
  pose proof (length_trim_zeros (fixed_digits 9 n)) as Hl. rewrite length_fixed_digits in Hl.
  destruct (parse_trim_zeros _ 0 Hd) as (v & Hv & Hp). rewrite (parse_fixed_digits 9 n 0), Z.mod_small, length_fixed_digits in Hp
    by (unfold Second in Hn; cbn; lia). apply (inj Some) in Hp. change (10 ^ Z.of_nat 9) with 1000000000 in Hp.
  clear Hd. revert Hl Ht Hv Hp. generalize (trim_zeros (fixed_digits 9 n)). intros f Hl Ht Hv Hp.
  destruct f as [|c r]; [cbn in *; injection Hv as <-; by replace n with 0 by lia|].
  pose proof (span_digits_app _ "Z" Ht eq_refl) as Hs. rewrite bool_decide_eq_false_2 by done.
  unfold take_frac. cbn [String.append] in *. cbn in Ht. apply andb_true_iff in Ht as [-> _]. rewrite Hs. unfold frac_ns.
  assert (Hsub : substring 0 9 (String c r) = String c r).
  { clear -Hl. revert Hl. generalize (String c r) 9%nat. intros s. induction s as [|d s IH]; intros [|k] H; cbn in *; [done..|lia|].
    by rewrite IH by lia. }
  rewrite Hsub, Hv. cbn [fmap option_fmap option_map]. do 2 f_equal. change (Z.of_nat 9) with 9 in Hp. lia.
Qed.

Lemma parse_RFC3339Nano (t : Z) : time_ok t -> parseRFC3339 (format_RFC3339Nano t) = Some t.
Proof.
  intros Ht. pose proof (time_fields t Ht) as F. cbv zeta in F. unfold format_RFC3339Nano, parseRFC3339.
  destruct F as (?&?&?&?&?&?&?&Et). pose proof (civil_of_days_ok (t / day_ns)) as [_ Hday].
  rewrite !pad_digits_fixed by (unfold Second in *; try lia; cbn [Z.of_nat Pos.of_succ_nat Pos.succ Z.pow Z.pow_pos Pos.iter Z.mul Pos.mul Pos.add]; lia).
  cbn [String.append].
  repeat (rewrite take_num_fixed by (try done; cbn [Z.of_nat Pos.of_succ_nat Pos.succ Z.pow Z.pow_pos Pos.iter Z.mul Pos.mul Pos.add]; lia);
          cbn [mbind option_bind take_chr Ascii.eqb Bool.eqb String.append]).
  rewrite take_frac_trim by done. cbn [mbind option_bind]. change (take_zone "Z") with (Some 0). cbn [mbind option_bind].
  assert (Hc : forall c, mkCivil (cv_year c) (cv_month c) (cv_day c) = c) by (by intros []).
  rewrite Hc, days_civil. f_equal. lia.
Qed.
