(* ===== verification/Cursor.v ===== *)
(** * Pagination cursors (internal/store/cursor.go)

    The versioned, backend-tagged, checksummed cursor envelope with its
    encoders and decoders, the TOID event identifiers, and the sparse-filter
    range guard. *)

From S2P Require Import Prelude GoStrings Codec StoreErrors StoreTypes GoTime.
From Stdlib Require Import Ascii String.
Local Open Scope Z_scope.
Local Open Scope go_scope.

Definition CursorVersionV1 : string := "v1".
Definition CursorVersionCurrent : string := "v2".
Definition CursorBackendPostgres : string := "pg".
Definition CursorBackendSQLite : string := "sq".
Definition CursorBackendClickHouse : string := "ch".
Definition CursorBackendAny : string := "an".
Definition cursorHMACKey : string := "sorotrail-cursor-stability-contract-v2".

Definition normalizeCursorBackend (backend : string) : string :=
  let b := ToLower (TrimSpace backend) in
  if bool_decide (b ∈ ["pg"; "postgres"; "postgresql"]) then CursorBackendPostgres
  else if bool_decide (b ∈ ["sq"; "sqlite"; "sqlite3"]) then CursorBackendSQLite
  else if bool_decide (b ∈ ["ch"; "clickhouse"]) then CursorBackendClickHouse
  else if bool_decide (b ∈ [""; "an"; "any"]) then CursorBackendAny
  else "".

Definition cursorMAC (version backend encodedPayload : string) : string :=
  let msg := version +++ "." +++ backend +++ "." +++ encodedPayload in
  let sum := hmac_sha256 (str_bytes cursorHMACKey) (str_bytes msg) in
  b64_encode (bytes_str (take 3 sum)).

Definition validCursorMAC (version rawBackend normBackend encodedPayload gotMAC : string) : bool :=
  if bool_decide (gotMAC = "") then false
  else if bool_decide (gotMAC = cursorMAC version normBackend encodedPayload) then true
  else if (negb (bool_decide (rawBackend = normBackend)) &&
           bool_decide (gotMAC = cursorMAC version rawBackend encodedPayload))%bool then true
  else false.

Definition wrapCursorEnvelope (version backend payload : string) : string :=
  let normBackend := normalizeCursorBackend backend in
  let normBackend := if bool_decide (normBackend = "") then CursorBackendAny else normBackend in
  let version := if bool_decide (version = "") then CursorVersionCurrent else version in
  let enc := b64_encode payload in
  let sig := cursorMAC version normBackend enc in
  version +++ "." +++ normBackend +++ "." +++ enc +++ "." +++ sig.

Definition isDigits (s : string) : bool :=
  if bool_decide (s = "") then false else str_all is_digit s.

Definition hasCursorEnvelopePrefix (cursor : string) : bool :=
  match cut_first "." cursor with
  | None => false
  | Some (before, _) =>
      match before with
      | String c digits => Ascii.eqb c "v" && negb (bool_decide (digits = "")) && isDigits digits
      | EmptyString => false
      end
  end.

Definition invalid (fmt : string) (why : list sentinel) : error :=
  Errorf fmt (Sentinel ErrInvalidCursor :: (Sentinel <$> why)).

Definition checkCursorBackend (envBackend expectedBackend : string) : option error :=
  let normExpected := normalizeCursorBackend expectedBackend in
  if (bool_decide (normExpected = "") || bool_decide (normExpected = CursorBackendAny) ||
      bool_decide (envBackend = CursorBackendAny))%bool then None
  else if negb (bool_decide (envBackend = normExpected)) then
    Some (invalid "%w: %w: %w: cursor backend %q cannot be replayed on %q"
            [ErrStaleCursor; ErrCrossBackendCursor])
  else None.

(** The well-formed version prefix "v<digits>" of an envelope. *)
Definition valid_version (ver : string) : bool :=
  match ver with
  | String c digits => Ascii.eqb c "v" && isDigits digits
  | EmptyString => false
  end.

(** The last step shared by the three envelope shapes. *)
Definition decode_payload (payload ver backend : string) : result error (string * string * string) :=
  match b64_decode payload with
  | Some raw =>
      if bool_decide (raw = "") then Err (invalid "%w: %w: not valid base64url" [ErrTamperedCursor])
      else Ok (raw, ver, backend)
  | None => Err (invalid "%w: %w: not valid base64url" [ErrTamperedCursor])
  end.

Definition unwrapCursorEnvelope (cursor expectedBackend : string)
    : result error (string * string * string) :=
  if bool_decide (cursor = "") then Err (invalid "%w: %w: empty cursor" [ErrTamperedCursor])
  else if str_contains "." cursor then
    let parts := str_split "." cursor in
    let ver := hd "" parts in
    if negb (valid_version ver) then
      Err (invalid "%w: %w: malformed cursor envelope prefix" [ErrTamperedCursor])
    else if (negb (bool_decide (ver = CursorVersionCurrent)) &&
             negb (bool_decide (ver = CursorVersionV1)))%bool then
      Err (invalid "%w: %w: unsupported cursor version %q" [ErrStaleCursor])
    else
      match parts with
      | [_; rawBackend; payload; mac] =>
          let normBackend := normalizeCursorBackend rawBackend in
          if bool_decide (normBackend = "") then
            Err (invalid "%w: %w: unknown cursor backend %q" [ErrTamperedCursor])
          else if negb (validCursorMAC ver rawBackend normBackend payload mac) then
            Err (invalid "%w: %w: cursor integrity check failed" [ErrTamperedCursor])
          else match checkCursorBackend normBackend expectedBackend with
               | Some err => Err err
               | None => decode_payload payload ver normBackend
               end
      | [_; rawBackend; payload] =>
          if bool_decide (ver = CursorVersionV1) then
            let normBackend := normalizeCursorBackend rawBackend in
            if bool_decide (normBackend = "") then
              Err (invalid "%w: %w: unknown cursor backend %q" [ErrTamperedCursor])
            else match checkCursorBackend normBackend expectedBackend with
                 | Some err => Err err
                 | None => decode_payload payload ver normBackend
                 end
          else Err (invalid "%w: %w: malformed %s cursor envelope" [ErrTamperedCursor])
      | [_; payload] =>
          if bool_decide (ver = CursorVersionV1) then decode_payload payload ver CursorBackendAny
          else Err (invalid "%w: %w: malformed %s cursor envelope" [ErrTamperedCursor])
      | _ => Err (invalid "%w: %w: malformed %s cursor envelope" [ErrTamperedCursor])
      end
  else
    match b64_decode cursor with
    | None => Err (invalid "%w: %w: not valid base64url" [ErrTamperedCursor])
    | Some raw => Ok (raw, CursorVersionV1, CursorBackendAny)
    end.

(** ** Event cursors *)

Definition encodeCompositeCursorForBackend (backend sortValue id : string) : string :=
  wrapCursorEnvelope CursorVersionCurrent backend (sortValue +++ "|" +++ id).

Definition encodeCompositeCursor (sortValue id : string) : string :=
  encodeCompositeCursorForBackend CursorBackendAny sortValue id.

Definition EncodeCursorForBackend (backend orderBy : string) (e : Event) : string :=
  if bool_decide (orderBy = OrderByLedger) then
    encodeCompositeCursorForBackend backend (FormatInt (Ledger e)) (ID e)
  else if bool_decide (orderBy = OrderByCreatedAt) then
    encodeCompositeCursorForBackend backend (format_RFC3339Nano (CreatedAt e)) (ID e)
  else ID e.

Definition EncodeCursor (orderBy : string) (e : Event) : string :=
  EncodeCursorForBackend CursorBackendAny orderBy e.

Definition EncodeVersionedEventCursor (backend orderBy : string) (e : Event) : string :=
  if (bool_decide (orderBy = OrderByLedger) || bool_decide (orderBy = OrderByCreatedAt))%bool
  then EncodeCursorForBackend backend orderBy e
  else wrapCursorEnvelope CursorVersionCurrent backend (ID e).

Definition EncodeCursorV1 (backend orderBy : string) (e : Event) : string :=
  if bool_decide (orderBy = OrderByLedger) then
    wrapCursorEnvelope CursorVersionV1 backend (FormatInt (Ledger e) +++ "|" +++ ID e)
  else if bool_decide (orderBy = OrderByCreatedAt) then
    wrapCursorEnvelope CursorVersionV1 backend (format_RFC3339Nano (CreatedAt e) +++ "|" +++ ID e)
  else wrapCursorEnvelope CursorVersionV1 backend (ID e).

(** [parses_rfc3339] is whether [time.Parse(time.RFC3339Nano, s)] succeeds. *)
Definition DecodeEventIDCursorForBackend (parses_rfc3339 : string -> bool)
    (expectedBackend cursor : string) : result error string :=
  if bool_decide (cursor = "") then Err (invalid "%w: %w: empty cursor" [ErrTamperedCursor])
  else if (hasCursorEnvelopePrefix cursor || str_contains "." cursor)%bool then
    let? (raw, _, _) := unwrapCursorEnvelope cursor expectedBackend in
    if str_contains "|" raw then
      Err (invalid "%w: %w: composite cursor cannot be replayed with order_by=id" [ErrStaleCursor])
    else if (bool_decide (raw = "") || negb (ValidString raw))%bool then
      Err (invalid "%w: %w: invalid event id in cursor" [ErrTamperedCursor])
    else Ok raw
  else
    match b64_decode cursor with
    | Some raw =>
        match cut_last "|" raw with
        | Some (sv, rest) =>
            if (negb (bool_decide (sv = "")) && negb (bool_decide (rest = "")))%bool then
              match ParseInt sv with
              | Some _ => Err (invalid "%w: %w: ledger cursor cannot be replayed with order_by=id" [ErrStaleCursor])
              | None =>
                  if parses_rfc3339 sv
                  then Err (invalid "%w: %w: created_at cursor cannot be replayed with order_by=id" [ErrStaleCursor])
                  else Ok cursor
              end
            else Ok cursor
        | None => Ok cursor
        end
    | None => Ok cursor
    end.

Definition DecodeEventIDCursor (parses_rfc3339 : string -> bool) (cursor : string)
    : result error string :=
  DecodeEventIDCursorForBackend parses_rfc3339 CursorBackendAny cursor.

Definition decodeCompositeCursorForBackend (expectedBackend cursor : string)
    : result error (string * string) :=
  let? (raw, _, _) := unwrapCursorEnvelope cursor expectedBackend in
  match cut_last "|" raw with
  | None => Err (invalid "%w: %w: missing separator" [ErrTamperedCursor])
  | Some (sortValue, id) =>
      if (bool_decide (sortValue = "") || bool_decide (id = ""))%bool
      then Err (invalid "%w: %w: empty component" [ErrTamperedCursor])
      else Ok (sortValue, id)
  end.

Definition decodeCompositeCursor (cursor : string) : result error (string * string) :=
  decodeCompositeCursorForBackend CursorBackendAny cursor.

(** ** Contracts, spec-override and dead-letter cursors *)

Definition EncodeContractsCursorForBackend (backend sortAs sortValue contractID : string) : string :=
  encodeCompositeCursorForBackend backend sortValue contractID.

Definition EncodeContractsCursor (sortAs sortValue contractID : string) : string :=
  EncodeContractsCursorForBackend CursorBackendAny sortAs sortValue contractID.

Definition DecodeContractsCursorForBackend (expectedBackend cursor : string)
    : result error (string * string) :=
  match decodeCompositeCursorForBackend expectedBackend cursor with
  | Ok r => Ok r
  | Err err => Err (Errorf "%w: %w: contracts cursor" [Sentinel ErrInvalidContractsCursor; err])
  end.

Definition DecodeContractsCursor (cursor : string) : result error (string * string) :=
  DecodeContractsCursorForBackend CursorBackendAny cursor.

Definition EncodeSpecOverrideHistoryCursorForBackend (backend : string) (id : Z) : string :=
  wrapCursorEnvelope CursorVersionCurrent backend (FormatInt id).

Definition DecodeSpecOverrideHistoryCursorForBackend (expectedBackend cursor : string)
    : result error Z :=
  match unwrapCursorEnvelope cursor expectedBackend with
  | Err err => Err (Errorf "%w: spec override history cursor: %w" [Sentinel ErrInvalidCursor; err])
  | Ok (raw, _, _) =>
      match ParseInt raw with
      | Some id =>
          if id <=? 0
          then Err (invalid "%w: %w: spec override history cursor is not a version id" [ErrTamperedCursor])
          else Ok id
      | None => Err (invalid "%w: %w: spec override history cursor is not a version id" [ErrTamperedCursor])
      end
  end.

Definition EncodeDeadLetterCursorForBackend (backend : string) (id : Z) : string :=
  wrapCursorEnvelope CursorVersionCurrent backend (FormatInt id).

Definition DecodeDeadLetterCursorForBackend (expectedBackend cursor : string) : result error Z :=
  let notid := Errorf "%w: %w: %w: dead letter cursor is not a positive id"
                 [Sentinel ErrInvalidContractsCursor; Sentinel ErrInvalidCursor; Sentinel ErrTamperedCursor] in
  match unwrapCursorEnvelope cursor expectedBackend with
  | Err err => Err (Errorf "%w: %w: dead letter cursor" [Sentinel ErrInvalidContractsCursor; err])
  | Ok (raw, _, _) =>
      match ParseInt raw with
      | Some id => if id <=? 0 then Err notid else Ok id
      | None => Err notid
      end
  end.

(** ** TOID event identifiers *)

(** All operands are Go integers of their declared width: [ledger] an int64,
    the indexes int32. *)
Definition FormatTOIDCursor (ledger txIndex opIndex eventIndex : Z) : string :=
  let ledger := if ledger <? 0 then 0 else ledger in
  let toid := Z.lor (Z.lor (i64 (Z.shiftl ledger 32)) (Z.shiftl (Z.land txIndex 1048575) 12))
                (Z.land opIndex 4095) in
  let eventIndex := if eventIndex <? 0 then 0 else eventIndex in
  pad_digits 20 toid +++ "-" +++ pad_digits 10 eventIndex.

Definition CursorLedger (cursor : string) : option Z :=
  match cut_first "-" cursor with
  | None => None
  | Some (prefix, suffix) =>
      if (bool_decide (prefix = "") || bool_decide (suffix = ""))%bool then None
      else if negb (str_all is_digit prefix) then None
      else if negb (str_all is_digit suffix) then None
      else match ParseInt prefix with
           | None => None
           | Some toid =>
               if toid <? Z.shiftl 1 32 then None
               else let ledger := Z.shiftr toid 32 in
                    if ledger <=? 0 then None else Some ledger
           end
  end.

(** ** The sparse-filter range guard *)

Definition HasSparseTopicFilter (f : EventFilter) : bool :=
  (0 <? str_len (f_Topic f)) || (0 <? str_len (f_TopicContains f)) ||
  (0 <? str_len (f_Topic0 f)) || (0 <? str_len (f_Topic1 f)) ||
  (0 <? str_len (f_Topic2 f)) || (0 <? str_len (f_Topic3 f)).

(** [globalMax] is the package-wide atomic set by SetMaxSparseFilterLedgerSpan. *)
Definition ValidateSparseFilterRange (globalMax : Z) (f : EventFilter) (maxSpan : Z) : option error :=
  let effectiveMax := if maxSpan <=? 0 then globalMax else maxSpan in
  if ((effectiveMax <=? 0) || negb (HasSparseTopicFilter f))%bool then None
  else if ((f_FromLedger f <=? 0) || (f_ToLedger f <=? 0))%bool then
    Some (Errorf "ledger range [%d,%d] for sparse topic filter requires both from_ledger and to_ledger within %d ledgers (or use /events.csv or /contracts/{id}/export): %w"
            [Sentinel ErrSparseFilterRangeTooWide])
  else
    let span := i64 (f_ToLedger f - f_FromLedger f) in
    if effectiveMax <? span then
      Some (Errorf "ledger range [%d,%d] spans %d ledgers, exceeding max sparse filter span (%d); narrow from_ledger/to_ledger or use /events.csv or /contracts/{id}/export: %w"
              [Sentinel ErrSparseFilterRangeTooWide])
    else None.

(** ** The envelope round trip *)

(** The backend tag stamped into an envelope. *)
Definition env_backend (backend : string) : string :=
  let n := normalizeCursorBackend backend in
  if bool_decide (n = "") then CursorBackendAny else n.

Definition known_backend (b : string) : Prop :=
  b = CursorBackendPostgres \/ b = CursorBackendSQLite \/ b = CursorBackendClickHouse \/ b = CursorBackendAny.

Lemma env_backend_known backend : known_backend (env_backend backend).
Proof.
  unfold env_backend, normalizeCursorBackend, known_backend. cbv zeta.
  generalize (ToLower (TrimSpace backend)) as b. intros b.
  destruct (bool_decide (b ∈ ["pg"; _; _])); [by left|].
  destruct (bool_decide (b ∈ ["sq"; _; _])); [by right; left|].
  destruct (bool_decide (b ∈ ["ch"; _])); [by right; right; left|].
  destruct (bool_decide (b ∈ [""; _; _])); by right; right; right.
Qed.

Lemma known_backend_facts b :
  known_backend b ->
  normalizeCursorBackend b = b /\ bool_decide (b = "") = false /\ str_contains "." b = false.
Proof. intros [-> | [-> | [-> | ->]]]; vm_compute; auto. Qed.

(** Two backends agree when either side is backend-agnostic, or they are the
    same family. *)
Definition backends_agree (minted expected : string) : bool :=
  let e := normalizeCursorBackend expected in
  bool_decide (e = "") || bool_decide (e = CursorBackendAny) ||
  bool_decide (env_backend minted = CursorBackendAny) || bool_decide (env_backend minted = e).

Lemma checkCursorBackend_agree minted expected :
  checkCursorBackend (env_backend minted) expected =
  if backends_agree minted expected then None
  else Some (invalid "%w: %w: %w: cursor backend %q cannot be replayed on %q"
               [ErrStaleCursor; ErrCrossBackendCursor]).
Proof.
  unfold checkCursorBackend, backends_agree. cbv zeta.
  destruct (bool_decide (normalizeCursorBackend expected = "")); simpl; [done|].
  destruct (bool_decide (normalizeCursorBackend expected = CursorBackendAny)); simpl; [done|].
  destruct (bool_decide (env_backend minted = CursorBackendAny)); simpl; [done|].
  by destruct (bool_decide (env_backend minted = normalizeCursorBackend expected)).
Qed.

Lemma cursorMAC_nonempty v b p : cursorMAC v b p <> "".
Proof.
  unfold cursorMAC. destruct (hmac_nonempty (str_bytes cursorHMACKey)
    (str_bytes (v +++ "." +++ b +++ "." +++ p))) as (x & y & ->).
  by apply b64_encode_nonempty.
Qed.

Lemma validCursorMAC_own v b p : validCursorMAC v b b p (cursorMAC v b p) = true.
Proof.
  unfold validCursorMAC. rewrite bool_decide_eq_false_2 by apply cursorMAC_nonempty.
  by rewrite bool_decide_eq_true_2.
Qed.

(** Concatenation with a one-character literal is [String]. *)
Ltac norm_sep :=
  repeat match goal with
  | |- context [String.append (String ?c EmptyString) ?x] =>
      change (String.append (String c EmptyString) x) with (String c x)
  end.

(** An envelope of four dot-free parts splits back into them. *)
Lemma split_envelope v b p m :
  str_contains "." v = false -> str_contains "." b = false ->
  str_contains "." p = false -> str_contains "." m = false ->
  str_split "." (v +++ "." +++ b +++ "." +++ p +++ "." +++ m) = [v; b; p; m].
Proof.
  intros. norm_sep. rewrite (str_split_app "." v), (str_split_app "." b), (str_split_app "." p) by done.
  by rewrite str_split_nosep.
Qed.

Lemma contains_sep sep a b : str_contains sep (a +++ String sep b) = true.
Proof. rewrite str_contains_app. simpl. rewrite Ascii.eqb_refl. by rewrite orb_true_r. Qed.

Definition supported_version (v : string) : Prop := v = CursorVersionV1 \/ v = CursorVersionCurrent.

Lemma supported_version_facts v :
  supported_version v ->
  valid_version v = true /\ str_contains "." v = false /\ v <> "" /\
  (negb (bool_decide (v = CursorVersionCurrent)) && negb (bool_decide (v = CursorVersionV1)))%bool = false.
Proof. intros [-> | ->]; split_and!; vm_compute; (done || discriminate). Qed.

(** What the decoder makes of four well-formed parts: the checksum decides
    first, then the backend tag. *)
Lemma unwrap_four_parts v minted payload m expected :
  supported_version v -> payload <> "" -> str_contains "." m = false ->
  unwrapCursorEnvelope
    (v +++ "." +++ env_backend minted +++ "." +++ b64_encode payload +++ "." +++ m) expected =
  if negb (bool_decide (m = cursorMAC v (env_backend minted) (b64_encode payload)))
  then Err (invalid "%w: %w: cursor integrity check failed" [ErrTamperedCursor])
  else if backends_agree minted expected then Ok (payload, v, env_backend minted)
  else Err (invalid "%w: %w: %w: cursor backend %q cannot be replayed on %q"
              [ErrStaleCursor; ErrCrossBackendCursor]).
Proof.
  intros Hv Hp Hm. destruct (supported_version_facts v Hv) as (Hval & Hdot & Hne & Hsup).
  destruct (known_backend_facts _ (env_backend_known minted)) as (Hnorm & Hbne & Hbdot).
  pose proof (checkCursorBackend_agree minted expected) as Hchk.
  unfold unwrapCursorEnvelope.
  rewrite split_envelope by (auto using b64_encode_nodot).
  norm_sep. rewrite contains_sep, bool_decide_eq_false_2 by (by destruct v). simpl hd.
  rewrite Hval, Hsup. simpl negb. cbv iota. rewrite Hnorm, Hbne.
  destruct (decide (m = cursorMAC v (env_backend minted) (b64_encode payload))) as [Heq|Hbad].
  - rewrite (bool_decide_eq_true_2 (m = _)) by done. rewrite Heq, validCursorMAC_own. simpl.
    rewrite Hchk. destruct (backends_agree minted expected); [|done].
    unfold decode_payload. rewrite b64_decode_encode. by rewrite bool_decide_eq_false_2.
  - rewrite (bool_decide_eq_false_2 (m = _)) by done. unfold validCursorMAC.
    destruct (bool_decide (m = "")); [done|].
    rewrite !(bool_decide_eq_false_2 (m = _)) by done. rewrite bool_decide_eq_true_2 by done. done.
Qed.

Lemma unwrap_wrap v minted payload expected :
  supported_version v -> payload <> "" ->
  unwrapCursorEnvelope (wrapCursorEnvelope v minted payload) expected =
  if backends_agree minted expected then Ok (payload, v, env_backend minted)
  else Err (invalid "%w: %w: %w: cursor backend %q cannot be replayed on %q"
              [ErrStaleCursor; ErrCrossBackendCursor]).
Proof.
  intros Hv Hp. unfold wrapCursorEnvelope. fold (env_backend minted).
  destruct (supported_version_facts v Hv) as (_ & _ & Hne & _).
  rewrite (bool_decide_eq_false_2 (v = "")) by done.
  rewrite unwrap_four_parts by (auto; apply b64_encode_nodot).
  by rewrite bool_decide_eq_true_2.
Qed.

Lemma current_supported : supported_version CursorVersionCurrent.
Proof. by right. Qed.

#[export] Hint Resolve current_supported : sorotrail.

Lemma composite_nonempty sv id : sv +++ "|" +++ id <> "".
Proof. by destruct sv. Qed.

Lemma composite_back minted expected sv id :
  sv <> "" -> id <> "" -> str_contains "|" id = false -> backends_agree minted expected = true ->
  decodeCompositeCursorForBackend expected (encodeCompositeCursorForBackend minted sv id) = Ok (sv, id).
Proof.
  intros Hsv Hid Hsep Hagree. unfold decodeCompositeCursorForBackend, encodeCompositeCursorForBackend.
  rewrite unwrap_wrap, Hagree by (auto using composite_nonempty with sorotrail). simpl.
  norm_sep. rewrite cut_last_app by done.
  by rewrite !bool_decide_eq_false_2.
Qed.

(** C37: a composite cursor decodes back to the sort value and id it was minted
    from, on every backend that agrees with the minting one, provided both
    halves are non-empty and the id has no separator (the sort value may). *)
Theorem composite_cursor_roundtrip minted expected sv id
    (Hsv : sv <> "") (Hid : id <> "") (Hsep : str_contains "|" id = false)
    (Hagree : backends_agree minted expected = true) :
  decodeCompositeCursorForBackend expected (encodeCompositeCursorForBackend minted sv id) = Ok (sv, id).
Proof. by apply composite_back. Qed.

Lemma composite_cursor_roundtrip_witness :
  let c := encodeCompositeCursorForBackend "Postgres " "12345" "00000053021371281409-0000000007" in
  c = "v2.pg.MTIzNDV8MDAwMDAwNTMwMjEzNzEyODE0MDktMDAwMDAwMDAwNw.wqMb" /\
  decodeCompositeCursorForBackend "pg" c = Ok ("12345", "00000053021371281409-0000000007").
Proof.
  split; [vm_compute; reflexivity|].
  apply (composite_cursor_roundtrip "Postgres " "pg" "12345" "00000053021371281409-0000000007");
    vm_compute; (reflexivity || discriminate).
Defined.

(** a cursor minted by one storage backend is never accepted by a
    different one: the error wraps ErrInvalidCursor, ErrStaleCursor and
    ErrCrossBackendCursor, whatever the payload and for both envelope versions. *)
Theorem cross_backend_cursor_rejected v minted expected payload
    (Hv : supported_version v) (Hp : payload <> "")
    (Hdis : backends_agree minted expected = false) :
  exists e, unwrapCursorEnvelope (wrapCursorEnvelope v minted payload) expected = Err e /\
    errors_Is e ErrInvalidCursor = true /\ errors_Is e ErrStaleCursor = true /\
    errors_Is e ErrCrossBackendCursor = true.
Proof. rewrite unwrap_wrap, Hdis by done. eexists; split; [done|]. vm_compute. auto. Qed.

Lemma cross_backend_cursor_rejected_witness :
  exists e, unwrapCursorEnvelope (wrapCursorEnvelope "v2" "sqlite" "7|x") "postgres" = Err e /\
    errors_Is e ErrCrossBackendCursor = true.
Proof.
  destruct (cross_backend_cursor_rejected "v2" "sqlite" "postgres" "7|x") as (e & He & _ & _ & Hc).
  - by right.
  - discriminate.
  - vm_compute. reflexivity.
  - exists e. split; [exact He|exact Hc].
Defined.

(** Any other checksum than the minted one makes the envelope invalid:
    the decoder reports ErrTamperedCursor before it looks at the payload or
    the backend. *)
Theorem tampered_checksum_rejected v minted payload expected mac
    (Hv : supported_version v) (Hp : payload <> "") (Hdot : str_contains "." mac = false)
    (Hmac : mac <> cursorMAC v (env_backend minted) (b64_encode payload)) :
  exists e,
    unwrapCursorEnvelope
      (v +++ "." +++ env_backend minted +++ "." +++ b64_encode payload +++ "." +++ mac) expected = Err e /\
    errors_Is e ErrInvalidCursor = true /\ errors_Is e ErrTamperedCursor = true.
Proof.
  rewrite unwrap_four_parts by done. rewrite bool_decide_eq_false_2 by done.
  eexists; split; [done|]. vm_compute. auto.
Qed.

Lemma tampered_checksum_rejected_witness :
  exists e, unwrapCursorEnvelope "v2.pg.MTIz.AAAA" "pg" = Err e /\ errors_Is e ErrTamperedCursor = true.
Proof.
  destruct (tampered_checksum_rejected "v2" "pg" "123" "pg" "AAAA") as (e & He & _ & Ht).
  - by right.
  - discriminate.
  - reflexivity.
  - vm_compute. discriminate.
  - exists e. split; [exact He|exact Ht].
Defined.

(** ** Every decode failure is a client error *)

Lemma invalid_is fmt why : errors_Is (invalid fmt why) ErrInvalidCursor = true.
Proof. reflexivity. Qed.

Lemma decode_payload_err p v b e : decode_payload p v b = Err e -> errors_Is e ErrInvalidCursor = true.
Proof.
  unfold decode_payload. destruct (b64_decode p); [destruct (bool_decide _)|]; intros; by simplify_eq.
Qed.

Lemma checkCursorBackend_err b x e : checkCursorBackend b x = Some e -> errors_Is e ErrInvalidCursor = true.
Proof.
  unfold checkCursorBackend. destruct (_ || _)%bool; [done|]. destruct (negb _); [|done].
  intros. by simplify_eq.
Qed.

Lemma unwrap_err cursor expected e :
  unwrapCursorEnvelope cursor expected = Err e -> errors_Is e ErrInvalidCursor = true.
Proof.
  unfold unwrapCursorEnvelope. intros H.
  repeat (case_match; simplify_eq; try apply invalid_is);
    eauto using decode_payload_err, checkCursorBackend_err.
Qed.

Lemma decodeComposite_err expected cursor e :
  decodeCompositeCursorForBackend expected cursor = Err e -> errors_Is e ErrInvalidCursor = true.
Proof.
  unfold decodeCompositeCursorForBackend.
  destruct (unwrapCursorEnvelope cursor expected) as [[[raw ?] ?]|e'] eqn:Hu; simpl.
  - intros H. repeat (case_match; simplify_eq; try apply invalid_is).
  - intros [= <-]. by eapply unwrap_err.
Qed.

Lemma decodeEventID_err parses expected cursor e :
  DecodeEventIDCursorForBackend parses expected cursor = Err e -> errors_Is e ErrInvalidCursor = true.
Proof.
  unfold DecodeEventIDCursorForBackend. case_bool_decide; [by intros [= <-]|]. destruct (_ || _)%bool.
  - destruct (unwrapCursorEnvelope cursor expected) as [[[raw ?] ?]|e'] eqn:Hu; simpl.
    + intros H'. repeat (case_match; simplify_eq; try apply invalid_is).
    + intros [= <-]. by eapply unwrap_err.
  - intros H'. repeat (case_match; simplify_eq; try apply invalid_is).
Qed.

(** Every failure of the store's cursor decoders, on any input and backend,
    wraps ErrInvalidCursor, and for the contracts and dead-letter cursors
    ErrInvalidContractsCursor as well. *)
Theorem cursor_failures_are_client_errors parses expected cursor :
  (forall e, decodeCompositeCursorForBackend expected cursor = Err e ->
     errors_Is e ErrInvalidCursor = true) /\
  (forall e, DecodeEventIDCursorForBackend parses expected cursor = Err e ->
     errors_Is e ErrInvalidCursor = true) /\
  (forall e, DecodeSpecOverrideHistoryCursorForBackend expected cursor = Err e ->
     errors_Is e ErrInvalidCursor = true) /\
  (forall e, DecodeContractsCursorForBackend expected cursor = Err e ->
     errors_Is e ErrInvalidCursor = true /\ errors_Is e ErrInvalidContractsCursor = true) /\
  (forall e, DecodeDeadLetterCursorForBackend expected cursor = Err e ->
     errors_Is e ErrInvalidCursor = true /\ errors_Is e ErrInvalidContractsCursor = true).
Proof.
  split_and!; intros e.
  - apply decodeComposite_err.
  - apply decodeEventID_err.
  - unfold DecodeSpecOverrideHistoryCursorForBackend.
    destruct (unwrapCursorEnvelope cursor expected) as [[[raw ?] ?]|e']; [|by intros [= <-]].
    intros H'. repeat (case_match; simplify_eq; try apply invalid_is).
  - unfold DecodeContractsCursorForBackend.
    destruct (decodeCompositeCursorForBackend expected cursor) as [|e'] eqn:Hd; [done|].
    intros [= <-]. apply decodeComposite_err in Hd. simpl. by rewrite Hd.
  - unfold DecodeDeadLetterCursorForBackend.
    destruct (unwrapCursorEnvelope cursor expected) as [[[raw ?] ?]|e'] eqn:Hu.
    + intros H'. repeat (case_match; simplify_eq); done.
    + intros [= <-]. apply unwrap_err in Hu. simpl. by rewrite Hu.
Qed.

(** ** Identifier cursors *)

Lemma FormatInt_nonempty n : FormatInt n <> "".
Proof.
  unfold FormatInt. destruct (n <? 0); [done|]. intros H.
  pose proof (length_fixed_digits (ndigits n) n). pose proof (ndigits_pos n).
  rewrite H in *. simpl in *. lia.
Qed.

(** row-id cursors (spec-override history and dead letters) round trip
    for every positive int64 on every agreeing backend. *)
Theorem row_id_cursor_roundtrip minted expected id
    (Hid : 0 < id <= maxInt64) (Hagree : backends_agree minted expected = true) :
  DecodeSpecOverrideHistoryCursorForBackend expected
    (EncodeSpecOverrideHistoryCursorForBackend minted id) = Ok id /\
  DecodeDeadLetterCursorForBackend expected (EncodeDeadLetterCursorForBackend minted id) = Ok id.
Proof.
  unfold DecodeSpecOverrideHistoryCursorForBackend, EncodeSpecOverrideHistoryCursorForBackend,
    DecodeDeadLetterCursorForBackend, EncodeDeadLetterCursorForBackend.
  rewrite unwrap_wrap, Hagree by (auto using FormatInt_nonempty with sorotrail).
  rewrite ParseInt_FormatInt by (unfold in_i64, minInt64; lia).
  destruct (Z.leb_spec id 0); [lia|done].
Qed.

Lemma row_id_cursor_roundtrip_witness :
  DecodeDeadLetterCursorForBackend "sqlite3" (EncodeDeadLetterCursorForBackend "sq" 42) = Ok 42.
Proof.
  apply (row_id_cursor_roundtrip "sq" "sqlite3" 42); [unfold maxInt64; lia|vm_compute; reflexivity].
Defined.

(** ** TOID identifiers *)

Lemma land_shifted a b k : 0 <= k -> 0 <= b < 2 ^ k -> Z.land (a * 2 ^ k) b = 0.
Proof.
  intros Hk Hb. apply Z.bits_inj'. intros i Hi. rewrite Z.land_spec, Z.bits_0.
  destruct (Z.lt_ge_cases i k).
  - rewrite Z.mul_pow2_bits_low by lia. done.
  - rewrite <- (Z.mod_small b (2 ^ k)) by lia.
    rewrite Z.mod_pow2_bits_high by lia. apply andb_false_r.
Qed.

Lemma lor_shifted a b k : 0 <= k -> 0 <= b < 2 ^ k -> Z.lor (a * 2 ^ k) b = a * 2 ^ k + b.
Proof.
  intros Hk Hb. pose proof (land_shifted a b k Hk Hb) as Hl.
  rewrite Z.add_nocarry_lxor, Z.lxor_lor by done. done.
Qed.

(** The ranges SEP-35 gives the four components. *)
Definition toid_range (ledger tx op ev : Z) : Prop :=
  0 <= ledger < 2 ^ 31 /\ 0 <= tx < 2 ^ 20 /\ 0 <= op < 2 ^ 12 /\ 0 <= ev < 2 ^ 31.

Definition toid_value (ledger tx op : Z) : Z := ledger * 2 ^ 32 + tx * 2 ^ 12 + op.

Lemma FormatTOID_digits ledger tx op ev :
  toid_range ledger tx op ev ->
  FormatTOIDCursor ledger tx op ev =
  fixed_digits 20 (toid_value ledger tx op) +++ String "-" (fixed_digits 10 ev).
Proof.
  intros (Hl & Ht & Ho & He). unfold FormatTOIDCursor, toid_value. cbv zeta.
  destruct (Z.ltb_spec ledger 0); [lia|]. destruct (Z.ltb_spec ev 0); [lia|].
  rewrite !Z.shiftl_mul_pow2 by lia.
  rewrite i64_id by (unfold in_i64, minInt64, maxInt64; lia).
  change 1048575 with (Z.ones 20). change 4095 with (Z.ones 12).
  rewrite !Z.land_ones by lia. rewrite (Z.mod_small tx), (Z.mod_small op) by lia.
  rewrite (lor_shifted ledger (tx * 2 ^ 12) 32) by lia.
  replace (ledger * 2 ^ 32 + tx * 2 ^ 12) with ((ledger * 2 ^ 20 + tx) * 2 ^ 12) by lia.
  rewrite lor_shifted by lia.
  rewrite !pad_digits_fixed by lia. norm_sep. done.
Qed.

Lemma digits_no_dash s : str_all is_digit s = true -> str_contains "-" s = false.
Proof. intros H. by apply (str_all_contains is_digit). Qed.

(** Lexicographic comparison of (ledger, tx, op, event). *)
Definition lex4 (a b : Z * Z * Z * Z) : comparison :=
  let '(l1, t1, o1, e1) := a in
  let '(l2, t2, o2, e2) := b in
  match Z.compare l1 l2 with
  | Eq => match Z.compare t1 t2 with
          | Eq => match Z.compare o1 o2 with
                  | Eq => Z.compare e1 e2
                  | r => r
                  end
          | r => r
          end
  | r => r
  end.

(** the byte order of TOID identifiers is the chronological order of
    (ledger, transaction, operation, event), so ORDER BY id pages through
    events in chain order. *)
Theorem toid_order_is_chronological l1 t1 o1 e1 l2 t2 o2 e2
    (H1 : toid_range l1 t1 o1 e1) (H2 : toid_range l2 t2 o2 e2) :
  String.compare (FormatTOIDCursor l1 t1 o1 e1) (FormatTOIDCursor l2 t2 o2 e2)
  = lex4 (l1, t1, o1, e1) (l2, t2, o2, e2).
Proof.
  rewrite !FormatTOID_digits by done.
  rewrite compare_append_same by (by rewrite !length_fixed_digits).
  destruct H1 as (Hl1 & Ht1 & Ho1 & He1), H2 as (Hl2 & Ht2 & Ho2 & He2).
  unfold toid_value, lex4. rewrite compare_fixed_digits by lia.
  change (String.compare (String "-" (fixed_digits 10 e1)) (String "-" (fixed_digits 10 e2)))
    with (String.compare (fixed_digits 10 e1) (fixed_digits 10 e2)).
  rewrite compare_fixed_digits by lia.
  destruct (Z.compare_spec l1 l2), (Z.compare_spec t1 t2), (Z.compare_spec o1 o2),
    (Z.compare_spec (l1 * 2 ^ 32 + t1 * 2 ^ 12 + o1) (l2 * 2 ^ 32 + t2 * 2 ^ 12 + o2));
    (done || lia).
Qed.

Lemma toid_order_is_chronological_witness :
  String.compare (FormatTOIDCursor 100 2 1 9) (FormatTOIDCursor 100 10 0 0) = Lt.
Proof.
  rewrite (toid_order_is_chronological 100 2 1 9 100 10 0 0); [reflexivity| |];
    unfold toid_range; lia.
Defined.

(** the ledger is recovered exactly from every canonical event id of a
    ledger in 1 .. 2^31 - 1, which is what partition pruning relies on. *)
Theorem cursor_ledger_of_toid ledger tx op ev
    (Hr : toid_range ledger tx op ev) (Hpos : 1 <= ledger) :
  CursorLedger (FormatTOIDCursor ledger tx op ev) = Some ledger.
Proof.
  rewrite FormatTOID_digits by done. destruct Hr as (Hl & Ht & Ho & He).
  unfold CursorLedger. rewrite cut_first_app by apply digits_no_dash, fixed_digits_all_digits.
  rewrite !fixed_digits_all_digits.
  rewrite !bool_decide_eq_false_2 by (intros H; apply (f_equal String.length) in H;
    rewrite length_fixed_digits in H; done).
  cbn [orb negb]. rewrite ParseInt_fixed_digits by (unfold toid_value; lia).
  change (Z.shiftl 1 32) with (2 ^ 32). rewrite Z.shiftr_div_pow2 by lia.
  assert (Hq : toid_value ledger tx op / 2 ^ 32 = ledger).
  { unfold toid_value. symmetry. apply (Z.div_unique_pos _ _ _ (tx * 2 ^ 12 + op)); lia. }
  rewrite Hq. unfold toid_value.
  destruct (Z.ltb_spec (ledger * 2 ^ 32 + tx * 2 ^ 12 + op) (2 ^ 32)); [lia|].
  destruct (Z.leb_spec ledger 0); [lia|done].
Qed.

Lemma cursor_ledger_of_toid_witness :
  CursorLedger (FormatTOIDCursor 53000000 3 1 7) = Some 53000000.
Proof. apply (cursor_ledger_of_toid 53000000 3 1 7); [unfold toid_range; lia|lia]. Defined.

(** The bound is tight: from ledger 2^31 the shift leaves int64, the
    identifier turns negative and no ledger is recovered. *)
Example cursor_ledger_overflow : CursorLedger (FormatTOIDCursor (2 ^ 31) 0 0 0) = None.
Proof. vm_compute. reflexivity. Qed.

(** ** Bare event ids *)

Lemma b64_val_digit c : is_digit c = true -> exists v, b64_val c = Some v /\ 52 <= v < 62.
Proof.
  unfold is_digit, b64_val. intros H. to_prop. cbv zeta. unfold in_range.
  destruct (Z.leb_spec 65 (byte_val c)); [lia|]. destruct (Z.leb_spec 97 (byte_val c)); [lia|].
  destruct (Z.leb_spec 48 (byte_val c)); [|lia]. destruct (Z.leb_spec (byte_val c) 57); [|lia].
  simpl. eexists; split; [done|lia].
Qed.

(** A base64 text that starts with a digit decodes to bytes whose first one
    is not ASCII. *)
Lemma b64_groups_digit_head c s raw :
  is_digit c = true -> b64_groups (String c s) = Some raw ->
  exists d raw', raw = String d raw' /\ 208 <= byte_val d.
Proof.
  intros (v & Hv & Hr)%b64_val_digit.
  assert (Hd : forall n, 208 * 65536 <= n < 256 * 65536 -> 208 <= byte_val (byte_of (n / 65536 mod 256))).
  { intros n Hn. rewrite byte_val_of by (apply Z.mod_pos_bound; lia).
    Z.to_euclidean_division_equations; lia. }
  assert (Hb : forall x v', b64_val x = Some v' -> 0 <= v' < 64).
  { intros x v'. unfold b64_val, in_range. pose proof (byte_val_range x).
    intros Hx. repeat (case_match; to_prop; simplify_eq; try lia). }
  destruct s as [|c1 [|c2 [|c3 s]]]; cbn -[Z.div Z.modulo Z.mul Z.add b64_val]; rewrite ?Hv; [done|..];
    intros HG; repeat (case_match; simplify_eq);
    repeat match goal with H : b64_val _ = Some _ |- _ => apply Hb in H end;
    eexists _, _; (split; [done|]); apply Hd; lia.
Qed.

Lemma cut_last_prefix sep s a b : cut_last sep s = Some (a, b) -> s = a +++ String sep b.
Proof.
  revert a b. induction s as [|c s IH]; intros a b; simpl; [done|].
  destruct (cut_last sep s) as [[a' b']|] eqn:Hc.
  - intros [= <- <-]. simpl. f_equal. by apply IH.
  - destruct (Ascii.eqb_spec c sep); [|done]. intros [= <- <-]. by subst.
Qed.

Lemma ParseInt_nonascii d s : 208 <= byte_val d -> ParseInt (String d s) = None.
Proof.
  intros Hd. unfold ParseInt.
  destruct (Ascii.eqb_spec d "-"); [subst; exfalso; revert Hd; vm_compute; done|].
  destruct (Ascii.eqb_spec d "+"); [subst; exfalso; revert Hd; vm_compute; done|].
  simpl. unfold is_digit. destruct (Z.leb_spec (byte_val d) 57); [lia|].
  by rewrite andb_false_r.
Qed.

Definition id_char (c : ascii) : bool := is_digit c || Ascii.eqb c "-".

Lemma id_char_plain c : id_char c = true -> b64_plain c = true.
Proof.
  unfold id_char, b64_plain, is_digit. intros [Hx|Hx]%orb_true_iff.
  - to_prop. apply andb_true_iff. split; apply negb_true_iff.
    + destruct (Ascii.eqb_spec c "."); [subst; revert H; vm_compute; done|done].
    + apply orb_false_iff. split; apply Z.eqb_neq; lia.
  - apply Ascii.eqb_eq in Hx. by subst.
Qed.

Lemma digits_no_prefix c s : is_digit c = true -> hasCursorEnvelopePrefix (String c s) = false.
Proof.
  intros Hc. unfold hasCursorEnvelopePrefix.
  destruct (cut_first "." (String c s)) as [[a b]|] eqn:Hcf; [|done].
  simpl in Hcf. repeat (case_match; simplify_eq); [done|].
  destruct (Ascii.eqb_spec c "v"); [subst; done|done].
Qed.

(** A dashed digit string is never mistaken for an envelope or for a legacy
    composite cursor. *)
Lemma digit_id_accepted parses expected c s :
  (forall d s, 128 <= byte_val d -> parses (String d s) = false) ->
  is_digit c = true -> str_all id_char (String c s) = true ->
  DecodeEventIDCursorForBackend parses expected (String c s) = Ok (String c s).
Proof.
  intros Hparse Hc Hall. unfold DecodeEventIDCursorForBackend.
  rewrite bool_decide_eq_false_2 by done.
  rewrite digits_no_prefix, (str_all_contains id_char "." _ Hall) by done. cbn [orb].
  destruct (b64_decode (String c s)) as [raw|] eqn:Hb; [|done].
  unfold b64_decode in Hb.
  rewrite b64_strip_plain in Hb by (eapply str_all_impl; [apply id_char_plain|exact Hall]).
  apply (b64_groups_digit_head c s raw Hc) in Hb as (d & raw' & -> & Hd).
  destruct (cut_last "|" (String d raw')) as [[sv rest]|] eqn:Hcl; [|done].
  apply cut_last_prefix in Hcl. destruct sv as [|x sv]; [done|].
  simpl in Hcl. injection Hcl as <- _.
  destruct (_ && _)%bool; [|done].
  by rewrite ParseInt_nonascii, Hparse by lia.
Qed.

(** a bare canonical event id is accepted unchanged as an order_by=id
    cursor by every backend, although its text is itself valid base64url: it
    is never mistaken for a legacy composite cursor. The hypothesis says that
    an RFC 3339 timestamp starts with an ASCII byte. *)
Theorem bare_event_id_accepted parses expected ledger tx op ev
    (Hparse : forall d s, 128 <= byte_val d -> parses (String d s) = false)
    (Hr : toid_range ledger tx op ev) :
  DecodeEventIDCursorForBackend parses expected (FormatTOIDCursor ledger tx op ev)
  = Ok (FormatTOIDCursor ledger tx op ev).
Proof.
  rewrite FormatTOID_digits by done.
  destruct (fixed_digits_cons 19 (toid_value ledger tx op)) as (c & s & Hc & Hdig).
  pose proof (fixed_digits_all_digits 20 (toid_value ledger tx op)) as Hall.
  rewrite Hc in *. apply digit_id_accepted; [done..|].
  change (str_all id_char (String c s +++ String "-" (fixed_digits 10 ev)) = true).
  rewrite str_all_app. apply andb_true_iff. split.
  - eapply str_all_impl; [|exact Hall]. intros x Hx. unfold id_char. by rewrite Hx.
  - cbn [str_all]. apply andb_true_iff. split; [done|].
    eapply str_all_impl; [|apply fixed_digits_all_digits]. intros x Hx. unfold id_char. by rewrite Hx.
Qed.

Lemma bare_event_id_accepted_witness :
  DecodeEventIDCursorForBackend (fun s => match s with String c _ => is_digit c | _ => false end)
    "pg" (FormatTOIDCursor 53000000 3 1 7) = Ok "00227633266688012289-0000000007".
Proof.
  rewrite (bare_event_id_accepted (fun s => match s with String c _ => is_digit c | _ => false end)
             "pg" 53000000 3 1 7).
  - vm_compute. reflexivity.
  - intros d s Hd. unfold is_digit. destruct (Z.leb_spec (byte_val d) 57); [lia|]. apply andb_false_r.
  - unfold toid_range. lia.
Defined.
