(* ===== verification/GoSort.v ===== *)
(** * Sorting by byte order (sort.Strings, sort.Slice on a string key)

    Go compares strings byte by byte. The sorts are executable merge sorts;
    [sort_by] leaves the relative order of equal keys unspecified in Go, and the
    lemmas only conclude something when keys are distinct. *)

From S2P Require Import Prelude.
From stdpp Require Import sorting.
From Stdlib Require Import Ascii String.
Local Open Scope Z_scope.

Definition str_le (a b : string) : Prop := String.leb a b = true.

#[export] Instance str_le_dec : RelDecision str_le.
Proof. intros a b. unfold str_le. apply _. Defined.

Lemma str_compare_trans a : forall b c,
  String.compare a b <> Gt -> String.compare b c <> Gt -> String.compare a c <> Gt.
Proof.
  induction a as [|x a IH]; intros [|y b] [|z c]; cbn; try done.
  unfold Ascii.compare. intros H1 H2.
  destruct (N.compare_spec (N_of_ascii x) (N_of_ascii y)) as [E1|L1|L1]; [| |done];
  destruct (N.compare_spec (N_of_ascii y) (N_of_ascii z)) as [E2|L2|L2]; try done;
  destruct (N.compare_spec (N_of_ascii x) (N_of_ascii z)) as [E3|L3|L3]; try done; try lia.
  by eapply IH.
Qed.

Lemma str_le_compare a b : str_le a b <-> String.compare a b <> Gt.
Proof. unfold str_le, String.leb. destruct (String.compare a b); split; (done || congruence). Qed.

#[export] Instance str_le_trans : Transitive str_le.
Proof. intros a b c. rewrite !str_le_compare. apply str_compare_trans. Qed.

#[export] Instance str_le_total : Total str_le.
Proof. intros a b. apply String.leb_total. Qed.

#[export] Instance str_le_antisym : AntiSymm (=) str_le.
Proof. intros a b. apply String.leb_antisym. Qed.

Lemma ltb_leb a b : String.ltb a b = negb (String.leb b a).
Proof. unfold String.ltb, String.leb. rewrite (String.compare_antisym b a). by destruct (String.compare a b). Qed.

(** sort.Strings. *)
Definition sort_Strings (l : list string) : list string := merge_sort str_le l.

Section SortBy.
Context {A : Type} (key : A -> string).

Definition key_le (a b : A) : Prop := str_le (key a) (key b).

#[export] Instance key_le_dec : RelDecision key_le.
Proof. intros a b. unfold key_le. apply _. Defined.
#[export] Instance key_le_trans : Transitive key_le.
Proof. intros a b c. unfold key_le. apply str_le_trans. Qed.
#[export] Instance key_le_total : Total key_le.
Proof. intros a b. apply str_le_total. Qed.

(** sort.Slice with [key a < key b]. *)
Definition sort_by (l : list A) : list A := merge_sort key_le l.

Lemma sort_by_Permutation l : sort_by l ≡ₚ l.
Proof. apply merge_sort_Permutation. Qed.

(** The result only depends on the multiset of the elements when the keys are
    distinct. *)
Lemma sort_by_unique l1 l2 : NoDup (key <$> l1) -> l1 ≡ₚ l2 -> sort_by l1 = sort_by l2.
Proof.
  intros Hnd Hp. apply (StronglySorted_unique_strong key_le);
    [|apply StronglySorted_merge_sort; apply _..|by rewrite !sort_by_Permutation].
  intros a b Ha Hb H1 H2.
  rewrite sort_by_Permutation in Ha. rewrite sort_by_Permutation, <- Hp in Hb.
  assert (Hk : key a = key b) by (apply (anti_symm str_le); done).
  apply list_elem_of_lookup in Ha as [i Hi]. apply list_elem_of_lookup in Hb as [j Hj].
  assert (i = j).
  { eapply (NoDup_lookup _ i j (key a) Hnd); [by rewrite list_lookup_fmap, Hi|].
    by rewrite list_lookup_fmap, Hj, Hk. }
  subst. congruence.
Qed.
End SortBy.

Lemma sort_Strings_Permutation l : sort_Strings l ≡ₚ l.
Proof. apply merge_sort_Permutation. Qed.

Lemma sort_Strings_Sorted l : StronglySorted str_le (sort_Strings l).
Proof. apply StronglySorted_merge_sort; apply _. Qed.

Lemma sort_Strings_unique l1 l2 : l1 ≡ₚ l2 -> sort_Strings l1 = sort_Strings l2.
Proof.
  intros Hp. apply (StronglySorted_unique str_le); [apply sort_Strings_Sorted..|].
  by rewrite !sort_Strings_Permutation.
Qed.

#[export] Instance sort_Strings_proper : Proper ((≡ₚ) ==> (=)) sort_Strings.
Proof. intros l1 l2. apply sort_Strings_unique. Qed.

(** Insertion order of distinct numbers, ascending (sort.Slice on uint32). *)
Definition sort_Z (l : list Z) : list Z := merge_sort Z.le l.

Lemma sort_Z_Permutation l : sort_Z l ≡ₚ l.
Proof. apply merge_sort_Permutation. Qed.
