(* ===== verification/Keyset.v ===== *)
(** * Keyset pagination

    ORDER BY, LIMIT and the predicate "after the cursor" over rows with a strict
    total order on their keys, and what a walk from page to page lists while the
    table may change between two pages. The listings of the stores are instances. *)

From S2P Require Import Prelude.
From stdpp Require Import sorting.
Local Open Scope Z_scope.
Local Notation length := List.length.

(** A strict total order as a boolean function. *)
Class StrictTotal {K : Type} (lt : K -> K -> bool) : Prop := {
  st_irrefl : forall k, lt k k = false;
  st_trans : forall a b c, lt a b = true -> lt b c = true -> lt a c = true;
  st_total : forall a b, lt a b = false -> lt b a = false -> a = b }.

(** The reverse order, and the lexicographic order on pairs. *)
Definition flip_lt {K} (desc : bool) (lt : K -> K -> bool) (a b : K) : bool := if desc then lt b a else lt a b.
Definition lex_lt {K L} `{EqDecision K} (ltk : K -> K -> bool) (ltl : L -> L -> bool) (a b : K * L) : bool :=
  ltk a.1 b.1 || (bool_decide (a.1 = b.1) && ltl a.2 b.2).

#[export] Instance flip_lt_strict {K} (lt : K -> K -> bool) desc : StrictTotal lt -> StrictTotal (flip_lt desc lt).
Proof.
  intros [I T E]. destruct desc; split; unfold flip_lt; [apply I|intros a b c H1 H2; by eapply T|intros a b H1 H2; by apply E|apply I|apply T|apply E].
Qed.

#[export] Instance lex_lt_strict {K L} `{EqDecision K} (ltk : K -> K -> bool) (ltl : L -> L -> bool) :
  StrictTotal ltk -> StrictTotal ltl -> StrictTotal (lex_lt ltk ltl).
Proof.
  intros [I T E] [I' T' E']. split; unfold lex_lt.
  - intros [a x]. cbn. by rewrite I, I', andb_false_r.
  - intros [a x] [b y] [c z]. cbn. rewrite !orb_true_iff, !andb_true_iff, !bool_decide_eq_true.
    intros [H1|[-> H1]] [H2|[-> H2]]; [left; by eapply T|by left|by left|right; split; [done|by eapply T']].
  - intros [a x] [b y]. cbn. rewrite !orb_false_iff. intros [H1 H1'] [H2 H2']. pose proof (E _ _ H1 H2) as ->.
    rewrite bool_decide_eq_true_2 in * by done. cbn in *. f_equal. by apply E'.
Qed.

#[export] Instance Zltb_strict : StrictTotal Z.ltb.
Proof. split; intros; lia. Qed.

Section Keyset.
Context {A K : Type} (key : A -> K) (lt : K -> K -> bool).

Definition row_le (a b : A) : Prop := lt (key b) (key a) = false.
#[export] Instance row_le_dec : RelDecision row_le.
Proof. intros a b. unfold row_le. apply _. Defined.

(** ORDER BY the key. *)
Definition order_rows (rows : list A) : list A := merge_sort row_le rows.

(** WHERE key > cursor. *)
Definition after (c : option K) (rows : list A) : list A :=
  match c with None => rows | Some k => List.filter (fun r => lt k (key r)) rows end.

(** Fetching one row more than the page to know whether there is a next one: the
    page and the row the next cursor is made of. *)
Definition cut_page (limit : nat) (fetched : list A) : list A * option A :=
  if (limit <? length fetched)%nat then (take limit fetched, list.last (take limit fetched)) else (fetched, None).

Definition page (limit : nat) (c : option K) (rows : list A) : list A * option A :=
  cut_page limit (take (S limit) (order_rows (after c rows))).

(** Pages from a cursor on, each over the table of its moment: the rows listed,
    and whether the last page had no next one. *)
Fixpoint walk (limit : nat) (c : option K) (tables : list (list A)) : list A * bool :=
  match tables with
  | [] => ([], false)
  | rows :: rest =>
      let '(p, next) := page limit c rows in
      match next with
      | None => (p, true)
      | Some r => let '(more, fin) := walk limit (Some (key r)) rest in (p ++ more, fin)
      end
  end.

Context {Hst : StrictTotal lt}.

Lemma row_le_total : Total row_le.
Proof.
  intros a b. unfold row_le. destruct (lt (key b) (key a)) eqn:E; [right|by left].
  destruct (lt (key a) (key b)) eqn:E2; [|done]. pose proof (st_trans _ _ _ E E2). by rewrite st_irrefl in *.
Qed.
Lemma row_le_trans : Transitive row_le.
Proof.
  intros a b c. unfold row_le. intros H1 H2. destruct (lt (key c) (key a)) eqn:E; [|done].
  destruct (lt (key a) (key b)) eqn:E1; [pose proof (st_trans _ _ _ E E1); congruence|].
  pose proof (st_total _ _ H1 E1) as Hk. rewrite Hk in H2. congruence.
Qed.
Local Existing Instances row_le_total row_le_trans.

Lemma order_rows_Permutation rows : order_rows rows ≡ₚ rows.
Proof. apply merge_sort_Permutation. Qed.

Definition key_lt (a b : A) : Prop := lt (key a) (key b) = true.

(** With distinct keys the order is strict. *)
Lemma order_rows_strict rows : NoDup (key <$> rows) -> StronglySorted key_lt (order_rows rows).
Proof.
  intros Hnd. pose proof (StronglySorted_merge_sort row_le rows) as Hs. fold (order_rows rows) in Hs.
  rewrite <- (order_rows_Permutation rows) in Hnd. revert Hnd. induction Hs as [|a l Hs IH Hf]; [constructor|].
  rewrite fmap_cons, list.NoDup_cons. intros [Hn Hnd]. constructor; [by apply IH|].
  rewrite list.Forall_forall in *. intros b Hb. specialize (Hf b Hb). unfold row_le in Hf. unfold key_lt.
  destruct (lt (key a) (key b)) eqn:E; [done|]. pose proof (st_total _ _ E Hf) as Hk.
  destruct Hn. rewrite Hk. by apply list_elem_of_fmap_2.
Qed.

Lemma elem_of_after c rows r : r ∈ after c rows <-> r ∈ rows /\ match c with None => True | Some k => lt k (key r) = true end.
Proof. destruct c; cbn; [rewrite !list_elem_of_In, List.filter_In; done|naive_solver]. Qed.

Lemma after_NoDup c rows : NoDup (key <$> rows) -> NoDup (key <$> after c rows).
Proof.
  destruct c as [k|]; cbn; [|done]. intros H. eapply sublist_NoDup; [exact H|]. apply fmap_sublist.
  induction rows as [|r rows IH]; cbn; [constructor|]. inversion H; subst. specialize (IH ltac:(done)).
  destruct (lt k (key r)); by constructor.
Qed.

Lemma last_key_max l r : StronglySorted key_lt l -> list.last l = Some r -> forall x, x ∈ l -> x = r \/ key_lt x r.
Proof.
  intros Hs Hl x Hx. apply last_Some in Hl as [l' ->]. apply elem_of_app in Hx as [Hx|Hx]; [right|left; set_solver].
  eapply (StronglySorted_app_1_elem_of key_lt l' [r]); [done|done|set_solver].
Qed.

(** One page: in order, of the table and after the cursor; what it leaves out is
    after the row the next cursor is made of. *)
Lemma page_spec limit c rows p next : (0 < limit)%nat -> NoDup (key <$> rows) -> page limit c rows = (p, next) ->
  StronglySorted key_lt p /\ (length p <= limit)%nat /\ (forall x, x ∈ p -> x ∈ after c rows) /\
  match next with
  | None => forall x, x ∈ after c rows -> x ∈ p
  | Some r => list.last p = Some r /\ r ∈ p /\ (forall x, x ∈ p -> x = r \/ key_lt x r) /\
              forall x, x ∈ after c rows -> x ∈ p \/ key_lt r x
  end.
Proof.
  intros Hl Hnd. pose proof (order_rows_strict _ (after_NoDup c rows Hnd)) as Hs. unfold page, cut_page.
  pose proof (order_rows_Permutation (after c rows)) as Hp. set (l := order_rows (after c rows)) in *. clearbody l.
  rewrite length_take, take_take. replace (limit `min` S limit)%nat with limit by lia.
  assert (Hst' : StronglySorted key_lt (take limit l)) by (rewrite <- (take_drop limit l) in Hs; by apply StronglySorted_app_1_l in Hs).
  assert (Hin : forall x, x ∈ take limit l -> x ∈ after c rows).
  { intros x Hx. rewrite <- Hp. by apply elem_of_take in Hx as (i & Hi & _); apply list_elem_of_lookup_2 in Hi. }
  destruct (Nat.ltb_spec limit (S limit `min` length l)) as [Hlt|Hge]; intros [= <- <-].
  - split_and!; [done|rewrite length_take; lia|done|].
    destruct (list.last (take limit l)) as [r|] eqn:Er.
    2:{ apply last_None in Er. apply (f_equal length) in Er. rewrite length_take in Er. cbn in Er. lia. }
    split_and!; [done|by apply last_Some_elem_of|by apply last_key_max|].
    intros x Hx. rewrite <- Hp in Hx. rewrite <- (take_drop limit l) in Hx. apply elem_of_app in Hx as [Hx|Hx]; [by left|right].
    rewrite <- (take_drop limit l) in Hs. eapply (StronglySorted_app_1_elem_of key_lt); [exact Hs|by apply last_Some_elem_of|done].
  - assert (Ht : take (S limit) l = l) by (apply take_ge; lia). rewrite Ht. split_and!; [done|lia|..]; intros x; by rewrite Hp.
Qed.

(** ** Walks *)

(** The rows a walk lists are strictly in order, each is of the table of its page
    and after the start; a walk that ends lists every row after the start that all
    the tables had. *)
Lemma walk_spec limit : forall tables c out fin, (0 < limit)%nat -> Forall (fun rows => NoDup (key <$> rows)) tables ->
  walk limit c tables = (out, fin) ->
  StronglySorted key_lt out /\
  (forall x, x ∈ out -> (exists rows, rows ∈ tables /\ x ∈ rows) /\ match c with None => True | Some k => lt k (key x) = true end) /\
  (fin = true -> forall x, (forall rows, rows ∈ tables -> x ∈ rows) -> match c with None => True | Some k => lt k (key x) = true end -> x ∈ out).
Proof.
  induction tables as [|rows tables IH]; intros c out fin Hl Hnd; cbn [walk]; [by intros [= <- <-]; split_and!; [constructor|set_solver|]|].
  apply Forall_cons in Hnd as [Hr Hnd]. destruct (page limit c rows) as [p next] eqn:Ep.
  destruct (page_spec limit c rows p next Hl Hr Ep) as (Hs & _ & Hin & Hnext).
  destruct next as [r|].
  - destruct (walk limit (Some (key r)) tables) as [more fin'] eqn:Ew. intros [= <- <-].
    destruct (IH _ _ _ Hl Hnd Ew) as (Hs' & Hin' & Hall). destruct Hnext as (_ & Hrp & Hmax & Hrest).
    split_and!.
    + apply StronglySorted_app_2; [|done|done]. intros x y Hx Hy. apply Hin' in Hy as [_ Hy].
      destruct (Hmax x Hx) as [->|Hxr]; [done|]. by eapply st_trans.
    + intros x [Hx|Hx]%elem_of_app.
      * apply Hin, elem_of_after in Hx as [Hx Hc]. split; [exists rows; set_solver|done].
      * apply Hin' in Hx as [(rows' & H1 & H2) Hx]. split; [exists rows'; set_solver|].
        destruct c as [k|]; [|done]. apply Hin, elem_of_after in Hrp as [_ Hk]. by eapply st_trans.
    + intros Hf x Hx Hc. apply elem_of_app. assert (Ha : x ∈ after c rows) by (apply elem_of_after; split; [apply Hx; set_solver|done]).
      destruct (Hrest x Ha) as [Hp|Hk]; [by left|right]. apply Hall; [done| |done]. intros rows' Hr'. apply Hx. set_solver.
  - intros [= <- <-]. split_and!; [done| |].
    + intros x Hx. apply Hin, elem_of_after in Hx as [Hx Hc]. split; [exists rows; set_solver|done].
    + intros _ x Hx Hc. apply Hnext, elem_of_after. split; [apply Hx; set_solver|done].
Qed.

(** Rows after a cursor that are left. *)
Lemma after_shrinks c rows r : r ∈ after c rows -> match c with None => True | Some k => lt k (key r) = true end ->
  (length (after (Some (key r)) rows) < length (after c rows))%nat.
Proof.
  intros Hr Hk. cbn. destruct c as [k|]; cbn in *.
  - revert Hr. induction rows as [|x rows IH]; cbn; [set_solver|]. destruct (lt (key r) (key x)) eqn:E.
    + rewrite (st_trans _ _ _ Hk E). cbn. intros [->|H]%elem_of_cons; [by rewrite st_irrefl in E|]. specialize (IH H). lia.
    + assert (Hle : (length (List.filter (fun r0 => lt (key r) (key r0)) rows) <= length (List.filter (fun r0 => lt k (key r0)) rows))%nat).
      { clear IH. induction rows as [|y rows IH]; cbn; [lia|]. destruct (lt (key r) (key y)) eqn:E2; [rewrite (st_trans _ _ _ Hk E2); cbn; lia|].
        destruct (lt k (key y)); cbn; lia. }
      destruct (lt k (key x)); cbn; [intros _; lia|]. intros H. by specialize (IH H).
  - revert Hr. induction rows as [|x rows IH]; cbn; [set_solver|]. intros [->|H]%elem_of_cons.
    + rewrite st_irrefl. pose proof (List.filter_length_le (fun r0 => lt (key x) (key r0)) rows). lia.
    + specialize (IH H). destruct (lt (key r) (key x)); cbn; lia.
Qed.

(** Over a table that does not change the walk ends within one page more than it
    has rows after the start. *)
Lemma walk_ends limit rows : forall n c, (0 < limit)%nat -> NoDup (key <$> rows) -> (length (after c rows) < n)%nat ->
  (walk limit c (replicate n rows)).2 = true.
Proof.
  induction n as [|n IH]; intros c Hl Hnd Hn; [lia|]. cbn [replicate walk].
  destruct (page limit c rows) as [p next] eqn:Ep. destruct (page_spec limit c rows p next Hl Hnd Ep) as (_ & _ & Hin & Hnext).
  destruct next as [r|]; [|done]. destruct Hnext as (_ & Hr & _). apply Hin in Hr. pose proof Hr as Hr'. apply elem_of_after in Hr' as [_ Hk].
  pose proof (after_shrinks c rows r Hr Hk). specialize (IH (Some (key r)) Hl Hnd ltac:(lia)).
  by destruct (walk limit (Some (key r)) (replicate n rows)).
Qed.

(** It then lists exactly the table, in order. *)
Lemma walk_lists limit rows : (0 < limit)%nat -> NoDup (key <$> rows) ->
  walk limit None (replicate (S (length rows)) rows) = (order_rows rows, true).
Proof.
  intros Hl Hnd. destruct (walk limit None (replicate (S (length rows)) rows)) as [out fin] eqn:Ew.
  pose proof (walk_ends limit rows (S (length rows)) None Hl Hnd ltac:(cbn; lia)) as Hf. rewrite Ew in Hf. cbn in Hf. subst fin.
  destruct (walk_spec limit _ _ _ _ Hl ltac:(by apply Forall_replicate) Ew) as (Hs & Hin & Hall). f_equal.
  assert (Hperm : out ≡ₚ rows).
  { apply NoDup_Permutation.
    - clear -Hs Hst. induction Hs as [|a l Hs IH Hf]; constructor; [|done]. intros Ha. rewrite list.Forall_forall in Hf.
      specialize (Hf a Ha). unfold key_lt in Hf. by rewrite st_irrefl in Hf.
    - by apply NoDup_fmap_1 in Hnd.
    - intros x. split.
      + intros Hx. apply Hin in Hx as [(r & Hr & Hx) _]. apply elem_of_replicate_inv in Hr. by subst.
      + intros Hx. apply Hall; [done| |done]. intros r Hr. apply elem_of_replicate_inv in Hr. by subst. }
  apply (StronglySorted_unique_strong row_le); [| |apply StronglySorted_merge_sort; apply _|by rewrite Hperm, order_rows_Permutation].
  - intros a b Ha Hb H1 H2. rewrite Hperm in Ha. rewrite order_rows_Permutation in Hb. unfold row_le in *.
    pose proof (st_total _ _ H2 H1) as Hk. clear -Hk Ha Hb Hnd. apply list_elem_of_lookup in Ha as [i Hi]. apply list_elem_of_lookup in Hb as [j Hj].
    assert (i = j); [|by simplify_eq]. eapply (NoDup_lookup _ i j (key a) Hnd); [by rewrite list_lookup_fmap, Hi|by rewrite list_lookup_fmap, Hj, Hk].
  - clear -Hs Hst. induction Hs as [|a l Hs IH Hf]; constructor; [done|]. rewrite list.Forall_forall in *. intros b Hb. unfold row_le.
    specialize (Hf b Hb). unfold key_lt in Hf. destruct (lt (key b) (key a)) eqn:E; [|done].
    pose proof (st_trans _ _ _ Hf E). by rewrite st_irrefl in *.
Qed.
End Keyset.
