(* ===== verification/GoJson.v ===== *)
(** * encoding/json: scanning and compaction

    json.Compact validates its input with the package's scanner and copies it
    without the white space between tokens. The scanner is a recursive descent
    over the bytes; every recursive call consumes input, so the length of the
    input is enough fuel. *)

From S2P Require Import Prelude GoStrings.
From Stdlib Require Import Ascii String.
Local Open Scope Z_scope.
Local Open Scope go_scope.

Definition json_ws (c : ascii) : bool :=
  let b := byte_val c in (b =? 32) || (b =? 9) || (b =? 13) || (b =? 10).

Fixpoint skip_ws (s : string) : string :=
  match s with
  | String c s' => if json_ws c then skip_ws s' else s
  | EmptyString => s
  end.

Definition is_hex (c : ascii) : bool :=
  let b := byte_val c in
  in_range 48 57 b || in_range 97 102 b || in_range 65 70 b.

(** The rest of a string token after its opening quote: the token's remaining
    bytes, closing quote included, and the input after it. *)
Fixpoint json_string (s : string) : option (string * string) :=
  match s with
  | EmptyString => None
  | String c s' =>
      let b := byte_val c in
      if b =? 34 then Some (String c "", s')
      else if b =? 92 then
        match s' with
        | String e s'' =>
            let eb := byte_val e in
            if bool_decide (eb ∈ [98; 102; 110; 114; 116; 92; 47; 34]) then
              match json_string s'' with
              | Some (t, r) => Some (String c (String e t), r)
              | None => None
              end
            else if eb =? 117 then
              match s'' with
              | String h1 (String h2 (String h3 (String h4 r0))) =>
                  if is_hex h1 && is_hex h2 && is_hex h3 && is_hex h4 then
                    match json_string r0 with
                    | Some (t, r) =>
                        Some (String c (String e (String h1 (String h2 (String h3 (String h4 t))))), r)
                    | None => None
                    end
                  else None
              | _ => None
              end
            else None
        | EmptyString => None
        end
      else if b <? 32 then None
      else match json_string s' with
           | Some (t, r) => Some (String c t, r)
           | None => None
           end
  end.

(** The longest run of digits and the rest. *)
Fixpoint json_digits (s : string) : string * string :=
  match s with
  | String c s' =>
      if is_digit c then let '(d, r) := json_digits s' in (String c d, r) else ("", s)
  | EmptyString => ("", "")
  end.

Definition is_chr (z : Z) (c : ascii) : bool := byte_val c =? z.

Definition json_exp (s : string) : option (string * string) :=
  match s with
  | String e r =>
      if is_chr 101 e || is_chr 69 e then
        let '(sign, r) := match r with
                          | String g r' => if is_chr 43 g || is_chr 45 g then (String g "", r') else ("", r)
                          | EmptyString => ("", r)
                          end in
        let '(d, r) := json_digits r in
        if bool_decide (d = "") then None else Some (String e sign +++ d, r)
      else Some ("", s)
  | EmptyString => Some ("", s)
  end.

Definition json_frac (s : string) : option (string * string) :=
  match s with
  | String p r =>
      if is_chr 46 p then
        let '(d, r) := json_digits r in
        if bool_decide (d = "") then None else Some (String p d, r)
      else Some ("", s)
  | EmptyString => Some ("", s)
  end.

(** An unsigned number: 0 or a digit sequence without leading zero. *)
Definition json_unsigned (s : string) : option (string * string) :=
  let '(d, r) :=
    match s with
    | String c s' => if is_chr 48 c then (String c "", s') else json_digits s
    | EmptyString => ("", s)
    end in
  if bool_decide (d = "") then None
  else match json_frac r with
       | Some (f, r) =>
           match json_exp r with
           | Some (e, r) => Some (d +++ f +++ e, r)
           | None => None
           end
       | None => None
       end.

Definition json_number (s : string) : option (string * string) :=
  match s with
  | String c s' =>
      if is_chr 45 c then
        match json_unsigned s' with Some (t, r) => Some (String c t, r) | None => None end
      else json_unsigned s
  | EmptyString => None
  end.

Definition json_literal (lit s : string) : option (string * string) :=
  match strip_prefix lit s with Some r => Some (lit, r) | None => None end.

Definition maxNestingDepth : Z := 10000.

(** A value starting at the first byte of [s]: its compact form and the rest. *)
Fixpoint json_value (fuel : nat) (depth : Z) (s : string) {struct fuel} : option (string * string) :=
  match fuel with
  | O => None
  | S f =>
      match skip_ws s with
      | EmptyString => None
      | String c s' as s0 =>
          if is_chr 123 c then
            if maxNestingDepth <=? depth then None
            else match skip_ws s' with
                 | String d r => if is_chr 125 d then Some ("{}", r)
                                 else match json_members f (depth + 1) s' with
                                      | Some (t, r) => Some ("{" +++ t, r)
                                      | None => None
                                      end
                 | EmptyString => None
                 end
          else if is_chr 91 c then
            if maxNestingDepth <=? depth then None
            else match skip_ws s' with
                 | String d r => if is_chr 93 d then Some ("[]", r)
                                 else match json_elements f (depth + 1) s' with
                                      | Some (t, r) => Some ("[" +++ t, r)
                                      | None => None
                                      end
                 | EmptyString => None
                 end
          else if is_chr 34 c then
            match json_string s' with Some (t, r) => Some (String c t, r) | None => None end
          else if is_chr 116 c then json_literal "true" s0
          else if is_chr 102 c then json_literal "false" s0
          else if is_chr 110 c then json_literal "null" s0
          else json_number s0
      end
  end
with json_members (fuel : nat) (depth : Z) (s : string) {struct fuel} : option (string * string) :=
  match fuel with
  | O => None
  | S f =>
      match skip_ws s with
      | String q s' =>
          if is_chr 34 q then
            match json_string s' with
            | Some (k, r) =>
                match skip_ws r with
                | String col r =>
                    if is_chr 58 col then
                      match json_value f depth r with
                      | Some (v, r) =>
                          match skip_ws r with
                          | String d r =>
                              if is_chr 125 d then Some (String q k +++ ":" +++ v +++ "}", r)
                              else if is_chr 44 d then
                                match json_members f depth r with
                                | Some (t, r) => Some (String q k +++ ":" +++ v +++ "," +++ t, r)
                                | None => None
                                end
                              else None
                          | EmptyString => None
                          end
                      | None => None
                      end
                    else None
                | EmptyString => None
                end
            | None => None
            end
          else None
      | EmptyString => None
      end
  end
with json_elements (fuel : nat) (depth : Z) (s : string) {struct fuel} : option (string * string) :=
  match fuel with
  | O => None
  | S f =>
      match json_value f depth s with
      | Some (v, r) =>
          match skip_ws r with
          | String d r =>
              if is_chr 93 d then Some (v +++ "]", r)
              else if is_chr 44 d then
                match json_elements f depth r with
                | Some (t, r) => Some (v +++ "," +++ t, r)
                | None => None
                end
              else None
          | EmptyString => None
          end
      | None => None
      end
  end.

(** json.Compact: [None] is the syntax error. *)
Definition json_Compact (s : string) : option string :=
  match json_value (2 * String.length s + 2) 0 s with
  | Some (t, r) => if bool_decide (skip_ws r = "") then Some t else None
  | None => None
  end.

Example json_compact_example :
  json_Compact "  [ 1 , -2.5e+3 , { } , [ true , null ] ] " = Some "[1,-2.5e+3,{},[true,null]]" /\
  json_Compact "[1,]" = None /\ json_Compact "01" = None.
Proof. vm_compute. auto. Qed.
