(* ===== verification/RpcTypes.v ===== *)
(** * Data types and errors of internal/rpc (types.go, client.go)

    An error value is a tree: the concrete type of the value, its message and
    the causes its Unwrap methods expose. [errors.Is] and [errors.As] walk the
    tree in pre-order. *)

From S2P Require Import Prelude GoStrings.
From Stdlib Require Import Ascii String.
Local Open Scope Z_scope.
Local Open Scope go_scope.

Record EventFilter : Type := mkFilter {
  ef_Type : string;
  ef_ContractIDs : list string }.

Definition MaxFiltersPerRequest : nat := 5.
Definition MaxContractIDsPerFilter : nat := 5.

(** getEvents parameters; the pagination object is always present. *)
Record GetEventsRequest : Type := mkRequest {
  req_StartLedger : Z;
  req_EndLedger : Z;
  req_Filters : list EventFilter;
  req_Cursor : string;
  req_Limit : Z }.

Record Event : Type := mkRpcEvent {
  re_ID : string;
  re_PagingToken : string;
  re_Type : string;
  re_Ledger : Z;
  re_LedgerClosedAt : string;
  re_ContractID : string;
  re_TxHash : string;
  re_TransactionIndex : Z;
  re_OperationIndex : Z;
  re_InSuccessfulContractCall : bool;
  re_Topic : list string;
  re_Value : string;
  re_TopicJSON : list string;
  re_ValueJSON : string }.

#[export] Instance Event_eq_dec : EqDecision Event.
Proof. solve_decision. Defined.

Definition CursorValue (e : Event) : string :=
  if bool_decide (re_PagingToken e = "") then re_ID e else re_PagingToken e.

Record GetEventsResponse : Type := mkResponse {
  resp_Events : list Event;
  resp_LatestLedger : Z;
  resp_OldestLedger : Z;
  resp_Cursor : string }.

Record LatestLedger : Type := mkLatest { ll_Sequence : Z }.

Record Health : Type := mkHealth {
  h_LatestLedger : Z;
  h_OldestLedger : Z }.

(** ** Errors *)

Inductive errno : Type := ECONNREFUSED | ECONNRESET | ETIMEDOUT | ErrnoOther.

#[export] Instance errno_eq_dec : EqDecision errno.
Proof. solve_decision. Defined.

(** The concrete types the program tests for. [KNetError] is any other value
    implementing net.Error (a *url.Error, the HTTP client's timeout), with
    the answer of its Timeout method. *)
Inductive rkind : Type :=
  | KPlain
  | KCanceled
  | KDeadlineExceeded
  | KRateLimited (retryAfter : Z)
  | KRpc (code : Z) (message data : string)
  | KDNS
  | KOp
  | KNetError (timeout : bool)
  | KErrno (n : errno)
  | KEOF
  | KUnexpectedEOF
  | KFailoverReanchor
  | KAllProvidersDown
  | KProviderBehindCursor
  | KProviderRetentionGap
  | KNetworkPassphraseMismatch
  | KProviderDivergence
  | KHorizonRateLimited
  | KHorizonNotFound
  | KStoreNotFound.

#[export] Instance rkind_eq_dec : EqDecision rkind.
Proof. solve_decision. Defined.

Inductive rerror : Type :=
  | RErr (kind : rkind) (msg : string) (causes : list rerror).

Definition rmsg (e : rerror) : string := let 'RErr _ m _ := e in m.

(** [errors.As]: the first value of the tree that [f] accepts. *)
Fixpoint rerrors_As {A} (f : rkind -> option A) (e : rerror) : option A :=
  let 'RErr k _ causes := e in
  match f k with
  | Some a => Some a
  | None =>
      (fix first (l : list rerror) : option A :=
         match l with
         | [] => None
         | c :: l' => match rerrors_As f c with Some a => Some a | None => first l' end
         end) causes
  end.

(** [errors.Is] against a sentinel. *)
Definition rerrors_Is (k : rkind) (e : rerror) : bool :=
  match rerrors_As (fun k' => if bool_decide (k' = k) then Some tt else None) e with
  | Some _ => true
  | None => false
  end.

Definition as_rpc (k : rkind) : option (Z * string * string) :=
  match k with KRpc c m d => Some (c, m, d) | _ => None end.

Definition as_rate_limited (k : rkind) : option Z :=
  match k with KRateLimited d => Some d | _ => None end.

(** [strings.Contains(s, sub)]. *)
Fixpoint str_has (sub s : string) : bool :=
  match strip_prefix sub s with
  | Some _ => true
  | None => match s with EmptyString => false | String _ s' => str_has sub s' end
  end.

Definition IsLedgerOutOfRange (err : option rerror) : bool :=
  match err with
  | None => false
  | Some e =>
      match rerrors_As as_rpc e with
      | None => false
      | Some (_, message, data) =>
          let msg := ToLower (message +++ " " +++ data) in
          str_has "ledger range" msg || str_has "outside of retention window" msg ||
          str_has "must be within" msg
      end
  end.

Definition IsFailoverReanchor (err : option rerror) : bool :=
  match err with None => false | Some e => rerrors_Is KFailoverReanchor e end.

(** The server does not know the xdrFormat parameter. *)
Definition isXDRFormatRejected (e : rerror) : bool :=
  match rerrors_As as_rpc e with
  | None => false
  | Some (_, message, data) => str_has "xdrformat" (ToLower (message +++ " " +++ data))
  end.
