(* ===== verification/Retry.v ===== *)
(** * Retry with backoff (internal/rpc/retry.go, transient.go)

    The classification of errors and the retry loop of RetryClient. The
    context, the clock and the random source belong to the environment: their
    state is part of [W] and their operations are arguments of the loop. *)

From S2P Require Import Prelude GoStrings RpcTypes.
From Stdlib Require Import Ascii String.
Local Open Scope Z_scope.
Local Notation length := List.length.

(** ** Classification *)

(** The values that implement net.Error, with their Timeout method: besides
    the net package's own types, a syscall.Errno and the context deadline do. *)
Definition as_net_error (k : rkind) : option bool :=
  match k with
  | KNetError t => Some t
  | KErrno n => Some (bool_decide (n = ETIMEDOUT))
  | KDeadlineExceeded => Some true
  | KDNS | KOp => Some true
  | _ => None
  end.

Definition transient_fragments : list string :=
  ["connection reset"; "connection refused"; "EOF"; "timeout"; "temporary failure"; "no such host"].

Definition is_some {A} (o : option A) : bool := match o with Some _ => true | None => false end.

Definition IsTransientHTTP (err : option rerror) : bool :=
  match err with
  | None => false
  | Some e =>
      if rerrors_Is KCanceled e then false
      else if rerrors_Is KDeadlineExceeded e then true
      else if rerrors_Is KDNS e then true
      else if rerrors_Is KOp e then true
      else match rerrors_As as_net_error e with
           | Some timeout => timeout
           | None =>
               if (rerrors_Is (KErrno ECONNREFUSED) e || rerrors_Is (KErrno ECONNRESET) e)%bool then true
               else if (rerrors_Is KEOF e || rerrors_Is KUnexpectedEOF e)%bool then true
               else existsb (fun frag => str_has frag (rmsg e)) transient_fragments
           end
  end.

Definition isContextErr (e : rerror) : bool :=
  rerrors_Is KCanceled e || rerrors_Is KDeadlineExceeded e.

Definition isRetryable (err : option rerror) : bool :=
  match err with
  | None => false
  | Some e =>
      if isContextErr e then false
      else if is_some (rerrors_As as_rate_limited e) then true
      else match rerrors_As as_rpc e with
           | Some (code, _, _) =>
               if ((code =? -32600) || (code =? -32601))%bool then false
               else if code <=? -32000 then true
               else code =? 0
           | None => IsTransientHTTP err
           end
  end.

(** ** The loop *)

Record RetryConfig : Type := mkRetryConfig {
  MaxAttempts : Z;
  BaseBackoff : Z;
  MaxBackoff : Z;
  Jitter : bool }.

Definition maxRetryAfterWait : Z := 60 * Second.

Definition NewRetryClient (cfg : RetryConfig) : RetryConfig :=
  {| MaxAttempts := if MaxAttempts cfg <? 1 then 3 else MaxAttempts cfg;
     BaseBackoff := if BaseBackoff cfg <=? 0 then 500 * Millisecond else BaseBackoff cfg;
     MaxBackoff := if MaxBackoff cfg <=? 0 then 30 * Second else MaxBackoff cfg;
     Jitter := Jitter cfg |}.

Inductive wait_source : Type := src_retry_after | src_backoff.

#[export] Instance wait_source_eq_dec : EqDecision wait_source.
Proof. solve_decision. Defined.

(** How a call ends: it returns (nil or an error), or the random source
    panics because it was asked for a number below a non-positive bound. *)
Inductive outcome : Type :=
  | Returned (err : option rerror)
  | Panicked.

Section RetryLoop.
Context {W : Type}.
Context (ctx_Err : W -> option rerror).
Context (sleepCtx : Z -> W -> bool * W).
Context (rand_N : Z -> W -> Z * W).
Context (fn : W -> option rerror * W).
Context (cfg : RetryConfig).

(** [None] when rand.N panics. *)
Definition retryWait (err : rerror) (backoff : Z) (w : W) : option (Z * wait_source) * W :=
  match rerrors_As as_rate_limited err with
  | Some ra =>
      if 0 <? ra then
        (Some (if maxRetryAfterWait <? ra then maxRetryAfterWait else ra, src_retry_after), w)
      else if Jitter cfg then
        if backoff <=? 0 then (None, w)
        else let '(r, w') := rand_N backoff w in (Some (i64 (goquot backoff 2 + r), src_backoff), w')
      else (Some (backoff, src_backoff), w)
  | None =>
      if Jitter cfg then
        if backoff <=? 0 then (None, w)
        else let '(r, w') := rand_N backoff w in (Some (i64 (goquot backoff 2 + r), src_backoff), w')
      else (Some (backoff, src_backoff), w)
  end.

Definition exhausted (lastErr : option rerror) : rerror :=
  RErr KPlain "exhausted %d retries: %w" (option_list lastErr).

(** One iteration per remaining attempt; [waits] accumulates the sleeps that
    were scheduled, as the retry metrics see them. *)
Fixpoint retry_loop (n : nat) (attempt backoff : Z) (lastErr : option rerror)
    (waits : list (Z * wait_source)) (w : W) : outcome * list (Z * wait_source) * W :=
  match n with
  | O => (Returned (Some (exhausted lastErr)), waits, w)
  | S n' =>
      match ctx_Err w with
      | Some e => (Returned (Some e), waits, w)
      | None =>
          let '(r, w1) := fn w in
          match r with
          | None => (Returned None, waits, w1)
          | Some err =>
              if negb (isRetryable (Some err)) then (Returned (Some err), waits, w1)
              else if attempt <? MaxAttempts cfg then
                match retryWait err backoff w1 with
                | (None, w2) => (Panicked, waits, w2)
                | (Some wait, w2) =>
                    let waits := waits ++ [wait] in
                    let '(slept, w3) := sleepCtx wait.1 w2 in
                    if negb slept then (Returned (ctx_Err w3), waits, w3)
                    else
                      let b := i64 (backoff * 2) in
                      let b := if MaxBackoff cfg <? b then MaxBackoff cfg else b in
                      retry_loop n' (attempt + 1) b (Some err) waits w3
                end
              else retry_loop n' (attempt + 1) backoff (Some err) waits w1
          end
      end
  end.

Definition doWithRetry (w : W) : outcome * list (Z * wait_source) * W :=
  retry_loop (Z.to_nat (MaxAttempts cfg)) 1 (BaseBackoff cfg) None [] w.

End RetryLoop.

(** The Client methods of RetryClient (GetEvents, GetLatestLedger, GetHealth,
    SimulateTransaction, GetLedgerEntries): the response variable lives beside
    the world and keeps the value of the last attempt. *)
Definition retry_call {W A : Type} (ctx_Err : W -> option rerror) (sleepCtx : Z -> W -> bool * W)
    (rand_N : Z -> W -> Z * W) (cfg : RetryConfig) (zero : A)
    (inner : W -> (A * option rerror) * W) (w : W) : (A * outcome) * W :=
  let '(out, _, (w', resp)) :=
    doWithRetry (W := W * A) (fun s => ctx_Err s.1)
      (fun d s => let '(b, w1) := sleepCtx d s.1 in (b, (w1, s.2)))
      (fun n s => let '(r, w1) := rand_N n s.1 in (r, (w1, s.2)))
      (fun s => let '((resp, innerErr), w1) := inner s.1 in (innerErr, (w1, resp)))
      cfg (w, zero) in
  ((resp, out), w').

(** parseRetryAfter with http.ParseTime and the wall clock as arguments. *)
Definition parseRetryAfter (http_ParseTime : string -> option Z) (now : Z) (header : string) : Z :=
  let header := TrimSpace header in
  if bool_decide (header = "") then 0
  else match ParseInt header with
       | Some secs => if secs <=? 0 then 0 else i64 (secs * Second)
       | None =>
           match http_ParseTime header with
           | Some t => let d := time_Sub t now in if d <=? 0 then 0 else d
           | None => 0
           end
       end.

(** ** Properties of the loop *)

(** The backoff before the [i]-th retry: doubled each time, capped. *)
Definition nominal_backoff (cfg : RetryConfig) (i : nat) : Z :=
  Z.min (BaseBackoff cfg * 2 ^ Z.of_nat i) (MaxBackoff cfg).

Definition good_wait (cfg : RetryConfig) (i : nat) (wt : Z * wait_source) : Prop :=
  match wt.2 with
  | src_retry_after => 0 < wt.1 <= maxRetryAfterWait
  | src_backoff =>
      let b := nominal_backoff cfg i in
      if Jitter cfg then b / 2 <= wt.1 < b / 2 + b else wt.1 = b
  end.

Definition good_waits (cfg : RetryConfig) (waits : list (Z * wait_source)) : Prop :=
  forall i wt, waits !! i = Some wt -> good_wait cfg i wt.

Lemma good_waits_snoc cfg (waits : list (Z * wait_source)) wt :
  good_waits cfg waits -> good_wait cfg (length waits) wt -> good_waits cfg (waits ++ [wt])%list.
Proof.
  intros H1 H2 i x Hi. apply lookup_app_Some in Hi as [Hi | [Hl Hi]]; [by apply H1|].
  apply list_lookup_singleton_Some in Hi as [Hz <-].
  by replace i with (length waits) by lia.
Qed.

Section RetryTheorems.
Context {W : Type}.
Context (ctx_Err : W -> option rerror).
Context (sleepCtx : Z -> W -> bool * W).
Context (rand_N : Z -> W -> Z * W).
Context (fn : W -> option rerror * W).
Context (cfg : RetryConfig).

Definition config_ok : Prop :=
  1 <= MaxAttempts cfg /\ 0 < BaseBackoff cfg <= MaxBackoff cfg /\ MaxBackoff cfg < 2 ^ 62.

Definition rand_in_range : Prop :=
  forall n w, 0 < n -> 0 <= (rand_N n w).1 < n.

Hypothesis Hcfg : config_ok.
Hypothesis Hrand : rand_in_range.

Lemma nominal_backoff_range i : 0 < nominal_backoff cfg i <= MaxBackoff cfg.
Proof.
  destruct Hcfg as (_ & Hb & _). unfold nominal_backoff.
  pose proof (Z.pow_pos_nonneg 2 (Z.of_nat i)). nia.
Qed.

Lemma nominal_backoff_S i :
  (let b := i64 (nominal_backoff cfg i * 2) in if MaxBackoff cfg <? b then MaxBackoff cfg else b)
  = nominal_backoff cfg (S i).
Proof.
  pose proof (nominal_backoff_range i) as Hr.
  destruct Hcfg as (_ & Hb & Hm). cbv zeta.
  rewrite i64_id by (unfold in_i64, minInt64, maxInt64; lia).
  unfold nominal_backoff in *. rewrite Nat2Z.inj_succ, Z.pow_succ_r by lia.
  pose proof (Z.pow_pos_nonneg 2 (Z.of_nat i)).
  split_if; to_prop; lia.
Qed.

Lemma retryWait_good err i w :
  exists wt, (retryWait rand_N cfg err (nominal_backoff cfg i) w).1 = Some wt /\ good_wait cfg i wt.
Proof.
  pose proof (nominal_backoff_range i) as Hr. destruct Hcfg as (_ & _ & Hm).
  set (b := nominal_backoff cfg i) in *.
  assert (Hback : exists wt, (if Jitter cfg then
      if b <=? 0 then (None, w)
      else let '(r, w') := rand_N b w in (Some (i64 (goquot b 2 + r), src_backoff), w')
      else (Some (b, src_backoff), w)).1 = Some wt /\ good_wait cfg i wt).
  { destruct (Jitter cfg) eqn:Ej.
    - destruct (b <=? 0) eqn:Eb; [to_prop; lia|].
      pose proof (Hrand b w ltac:(lia)) as Hrw.
      destruct (rand_N b w) as [r w'] eqn:Er. cbn [fst] in *. eexists; split; [done|].
      unfold good_wait. cbn [fst snd]. rewrite Ej. fold b. cbv zeta.
      unfold goquot. rewrite Z.quot_div_nonneg by lia.
      rewrite i64_id; [lia|]. unfold in_i64, minInt64, maxInt64.
      pose proof (Z.div_pos b 2). pose proof (Z.div_le_upper_bound b 2 b). lia.
    - eexists; split; [done|]. unfold good_wait. cbn. by rewrite Ej. }
  unfold retryWait. fold b. destruct (rerrors_As as_rate_limited err) as [ra|]; [|done].
  destruct (0 <? ra) eqn:E; [|done]. to_prop.
  eexists; split; [done|]. unfold good_wait. cbn.
  unfold maxRetryAfterWait, Second. split_if; to_prop; lia.
Qed.

(** The loop started at attempt [attempt] after [i] waits keeps every wait
    within its bound, and neither panics nor waits after the last attempt. *)
Lemma retry_loop_waits n : forall attempt waits lastErr w,
  attempt = MaxAttempts cfg - Z.of_nat n + 1 ->
  good_waits cfg waits ->
  let '(out, waits', _) := retry_loop ctx_Err sleepCtx rand_N fn cfg n attempt
      (nominal_backoff cfg (length waits)) lastErr waits w in
  out <> Panicked /\ good_waits cfg waits' /\
  Z.of_nat (length waits') <= Z.of_nat (length waits) + Z.max 0 (Z.of_nat n - 1).
Proof.
  induction n as [|n IH]; intros attempt waits lastErr w Hat Hg; cbn [retry_loop].
  { split; [done|]. split; [done|]. lia. }
  destruct (ctx_Err w); [split; [done|]; split; [done|]; lia|].
  destruct (fn w) as [[err|] w1]; [|split; [done|]; split; [done|]; lia].
  destruct (negb _); [split; [done|]; split; [done|]; lia|].
  destruct (attempt <? MaxAttempts cfg) eqn:Ea; to_prop; last first.
  { assert (n = O) by lia. subst n. cbn. split; [done|]. split; [done|]. lia. }
  destruct (retryWait_good err (length waits) w1) as (wt & Hw & Hgw).
  destruct (retryWait _ _ _ _ _) as [ow w2]. cbn [fst] in Hw. subst ow.
  pose proof (good_waits_snoc _ _ _ Hg Hgw) as Hg'.
  destruct (sleepCtx wt.1 w2) as [slept w3].
  destruct (negb slept).
  { split; [done|]. split; [done|]. rewrite length_app. cbn. lia. }
  cbv zeta. pose proof (nominal_backoff_S (length waits)) as HS. cbv zeta in HS. rewrite HS.
  specialize (IH (attempt + 1) (waits ++ [wt])%list (Some err) w3 ltac:(lia) Hg').
  rewrite length_app in IH. cbn [length] in IH. rewrite Nat.add_1_r in IH.
  destruct (retry_loop _ _ _ _ _ _ _ _ _ _ _) as [[out waits'] w4].
  destruct IH as (? & ? & ?). split; [done|]. split; [done|]. lia.
Qed.

Lemma doWithRetry_waits w :
  let '(out, waits, _) := doWithRetry ctx_Err sleepCtx rand_N fn cfg w in
  out <> Panicked /\ Z.of_nat (length waits) <= MaxAttempts cfg - 1 /\ good_waits cfg waits.
Proof.
  pose proof (retry_loop_waits (Z.to_nat (MaxAttempts cfg)) 1 [] None w) as H.
  destruct Hcfg as (Hm & Hbb & Hmm).
  assert (Hn0 : nominal_backoff cfg (length (@nil (Z * wait_source))) = BaseBackoff cfg).
  { unfold nominal_backoff. cbn [length]. change (2 ^ Z.of_nat 0) with 1. lia. }
  rewrite Hn0 in H. unfold doWithRetry.
  destruct (retry_loop _ _ _ _ _ _ _ _ _ _ _) as [[out waits] w'].
  destruct H as (? & ? & Hl); [lia|by intros ? ?|]. cbn [length] in Hl.
  split; [done|]. split; [lia|done].
Qed.

End RetryTheorems.

Lemma NewRetryClient_ok cfg0 (cfg := NewRetryClient cfg0) :
  BaseBackoff cfg <= MaxBackoff cfg < 2 ^ 62 -> config_ok cfg.
Proof.
  intros Hb. split; [|split; [split|]]; [| |lia|lia]; subst cfg; cbn; split_if; to_prop; unfold Millisecond; lia.
Qed.

(** With any configuration NewRetryClient accepts whose base backoff is
    within a representable cap, and whatever the context, the endpoint and the
    clock do, a retried call never panics in the jitter computation, waits at
    most MaxAttempts-1 times, honours a Retry-After hint up to 60 seconds, and
    every other wait is the exponential backoff min(Base*2^i, Max), or lies in
    [b/2, b/2+b) of it when jitter is on. *)
Theorem retry_waits_bounded {W} (ctx_Err : W -> option rerror) (sleepCtx : Z -> W -> bool * W)
    (rand_N : Z -> W -> Z * W) (fn : W -> option rerror * W) (cfg0 : RetryConfig) (w : W)
    (cfg := NewRetryClient cfg0)
    (Hb : BaseBackoff cfg <= MaxBackoff cfg < 2 ^ 62)
    (Hrand : rand_in_range rand_N) :
  let '(out, waits, _) := doWithRetry ctx_Err sleepCtx rand_N fn cfg w in
  out <> Panicked /\ Z.of_nat (length waits) <= MaxAttempts cfg - 1 /\ good_waits cfg waits.
Proof.
  apply (doWithRetry_waits ctx_Err sleepCtx rand_N fn cfg); [|done].
  by apply NewRetryClient_ok.
Qed.

(** A three-attempt client against an endpoint that always answers 429; the
    world counts the calls. *)
Definition demo_cfg : RetryConfig := mkRetryConfig 3 (500 * Millisecond) (30 * Second) true.
Definition demo_429 : rerror := RErr (KRateLimited (90 * Second)) "429" [].

Lemma retry_waits_bounded_witness :
  (doWithRetry (fun _ => None) (fun _ w => (true, w)) (fun _ w => (0, w))
     (fun w => (Some demo_429, w + 1)) (NewRetryClient demo_cfg) 0)
  = (Returned (Some (exhausted (Some demo_429))),
     [(maxRetryAfterWait, src_retry_after); (maxRetryAfterWait, src_retry_after)], 3) /\
  good_waits demo_cfg [(maxRetryAfterWait, src_retry_after); (maxRetryAfterWait, src_retry_after)].
Proof.
  split; [vm_compute; reflexivity|].
  assert (Hr : rand_in_range (fun (_ : Z) (w : Z) => (0, w))) by (intros n w Hn; cbn; lia).
  pose proof (retry_waits_bounded (fun _ : Z => None) (fun _ w => (true, w)) (fun _ w => (0, w))
    (fun w => (Some demo_429, w + 1)) demo_cfg 0 ltac:(vm_compute; split; [discriminate|reflexivity]) Hr) as H.
  destruct H as (_ & _ & H). exact H.
Defined.

(** The outcome of attempt [i] when the context stays alive: the first
    attempt that is not retryable decides, and running out of attempts wraps
    the last error. *)
Fixpoint decisive (script : nat -> option rerror) (i n : nat) (lastErr : option rerror) : option rerror :=
  match n with
  | O => Some (exhausted lastErr)
  | S n' => if isRetryable (script i) then decisive script (S i) n' (script i) else script i
  end.

Section Decisive.
Context {W : Type} (sleepCtx : Z -> W -> bool * W) (rand_N : Z -> W -> Z * W)
  (fn : W -> option rerror * W) (cfg : RetryConfig).
Context (script : nat -> option rerror) (calls : W -> nat).

(** The endpoint answers the [i]-th call with [script i]; sleeping and drawing
    random numbers do not call it, and sleeps are not interrupted. *)
Record scripted : Prop := {
  scripted_fn : forall w, (fn w).1 = script (calls w) /\ calls (fn w).2 = S (calls w);
  scripted_rand : forall n w, calls (rand_N n w).2 = calls w;
  scripted_sleep : forall d w, (sleepCtx d w).1 = true /\ calls (sleepCtx d w).2 = calls w }.

Hypothesis Hs : scripted.

Lemma retryWait_calls err b w : calls (retryWait rand_N cfg err b w).2 = calls w.
Proof.
  pose proof (scripted_rand Hs b w) as Hr. unfold retryWait.
  destruct (rand_N b w) as [r w']. repeat case_match; simplify_eq/=; done.
Qed.

Lemma retry_loop_decisive n : forall attempt b lastErr waits w,
  (retry_loop (fun _ => None) sleepCtx rand_N fn cfg n attempt b lastErr waits w).1.1 <> Panicked ->
  (retry_loop (fun _ => None) sleepCtx rand_N fn cfg n attempt b lastErr waits w).1.1
  = Returned (decisive script (calls w) n lastErr).
Proof.
  induction n as [|n IH]; intros attempt b lastErr waits w; cbn [retry_loop decisive]; [done|].
  destruct (scripted_fn Hs w) as [Hf Hc]. destruct (fn w) as [r w1]. cbn [fst snd] in Hf, Hc. subst r.
  destruct (script (calls w)) as [err|] eqn:Es; [|done].
  destruct (isRetryable (Some err)); cbn [negb]; [|done].
  rewrite <- Hc. destruct (attempt <? MaxAttempts cfg); [|by apply IH].
  pose proof (retryWait_calls err b w1) as Hw.
  destruct (retryWait rand_N cfg err b w1) as [[wt|] w2]; [|done]. cbn [snd] in Hw.
  destruct (scripted_sleep Hs wt.1 w2) as [Hsl Hcl].
  destruct (sleepCtx wt.1 w2) as [sl w3]. cbn [fst snd] in Hsl, Hcl. subst sl. cbn [negb]. cbv zeta.
  rewrite <- Hw, <- Hcl. apply IH.
Qed.
End Decisive.

(** While the context is alive a retried call returns the result of the
    first attempt that succeeds or fails with a non-retryable error, among the
    first MaxAttempts; when all of them fail retryably it returns the
    exhaustion error wrapping the last failure. *)
Theorem retry_returns_first_decisive {W} (sleepCtx : Z -> W -> bool * W)
    (rand_N : Z -> W -> Z * W) (fn : W -> option rerror * W) (cfg0 : RetryConfig) (w : W)
    (script : nat -> option rerror) (calls : W -> nat) (cfg := NewRetryClient cfg0)
    (Hb : BaseBackoff cfg <= MaxBackoff cfg < 2 ^ 62)
    (Hrand : rand_in_range rand_N)
    (Hs : scripted sleepCtx rand_N fn script calls) (H0 : calls w = 0%nat) :
  (doWithRetry (fun _ => None) sleepCtx rand_N fn cfg w).1.1
  = Returned (decisive script 0 (Z.to_nat (MaxAttempts cfg)) None).
Proof.
  rewrite <- H0. apply (retry_loop_decisive _ _ _ _ _ _ Hs).
  assert (Hcfg : config_ok cfg) by (by apply NewRetryClient_ok).
  pose proof (doWithRetry_waits (fun _ => None) sleepCtx rand_N fn cfg Hcfg Hrand w) as H.
  unfold doWithRetry in H. destruct (retry_loop _ _ _ _ _ _ _ _ _ _ _) as [[out ?] ?].
  apply H.
Qed.

Lemma retry_returns_first_decisive_witness :
  (doWithRetry (fun _ => None) (fun _ w => (true, w)) (fun _ w => (0, w))
     (fun w => (if (w <? 2)%nat then Some demo_429 else None, S w)) (NewRetryClient demo_cfg) 0%nat).1.1
  = Returned None.
Proof.
  apply (retry_returns_first_decisive (fun _ w => (true, w)) (fun _ w => (0, w))
    (fun w => (if (w <? 2)%nat then Some demo_429 else None, S w)) demo_cfg 0%nat
    (fun i => if (i <? 2)%nat then Some demo_429 else None) (fun w => w)).
  - vm_compute. split; [discriminate | reflexivity].
  - intros n w Hn. cbn. lia.
  - split; intros; done.
  - reflexivity.
Defined.

(** a JSON-RPC error is retried exactly when its code is 0 or at most
    -32000, invalid-request and method-not-found excepted; a cancelled context
    is never retried and a 429 always is. *)
Theorem isRetryable_classification (code : Z) (message data msg : string) (ra : Z) :
  isRetryable (Some (RErr (KRpc code message data) msg []))
    = ((code =? 0) || (code <=? -32000) && negb (code =? -32600) && negb (code =? -32601))%bool /\
  isRetryable (Some (RErr KPlain msg [RErr (KRateLimited ra) msg []])) = true /\
  isRetryable (Some (RErr KOp msg [RErr KCanceled msg []])) = false /\
  isRetryable (Some (RErr KOp msg [RErr KDeadlineExceeded msg []])) = false /\
  isRetryable (Some (RErr (KNetError false) msg [RErr KOp msg []])) = true.
Proof.
  split; [|done]. cbn. unfold isRetryable. cbn.
  destruct (Z.eqb_spec code (-32600)); [by subst|].
  destruct (Z.eqb_spec code (-32601)); [by subst|]. cbn.
  destruct (Z.leb_spec code (-32000)); destruct (Z.eqb_spec code 0); cbn; try done; lia.
Qed.

(** A connection-refused errno that reaches the classifier without a
    *net.OpError around it is not transient: the errno implements net.Error, so
    the Timeout answer of the interface branch is returned first. *)
Theorem bare_errno_not_transient (n : errno) (msg : string) (Hn : n <> ETIMEDOUT) :
  IsTransientHTTP (Some (RErr (KErrno n) msg [])) = false.
Proof. by destruct n. Qed.

(** A Retry-After header of delta seconds is honoured exactly up to the
    range of time.Duration; beyond it the product wraps, and a hint of five
    centuries is read as a third of a second. *)
Theorem parseRetryAfter_seconds (http_ParseTime : string -> option Z) (now secs : Z)
    (Hs : 0 < secs <= 9223372036) :
  parseRetryAfter http_ParseTime now (FormatInt secs) = secs * Second /\
  parseRetryAfter http_ParseTime now "18446744074" = 290448384.
Proof.
  split; [|vm_compute; reflexivity]. unfold parseRetryAfter.
  destruct (FormatInt_digits secs ltac:(lia)) as [Hd Hne].
  rewrite TrimSpace_digits, bool_decide_false, ParseInt_FormatInt by
    (done || (unfold in_i64, minInt64, maxInt64; lia)).
  cbv zeta. destruct (Z.leb_spec secs 0); [lia|].
  apply i64_id. unfold in_i64, minInt64, maxInt64, Second. lia.
Qed.

