(* ===== verification/GoFloat.v ===== *)
(** * IEEE 754 double precision (float64)

    Go's float64 arithmetic through the Standard Library's bit-exact,
    computable specification of binary floating point (precision 53, exponent
    bound 1024, round to nearest even). *)

From S2P Require Import Prelude.
From Stdlib Require Import SpecFloat.
Local Open Scope Z_scope.

Definition float64 : Type := spec_float.

(** float64(n) for an integer n. *)
Definition f64_of_Z (n : Z) : float64 := binary_normalize 53 1024 n 0 false.

Definition f64_add : float64 -> float64 -> float64 := SFadd 53 1024.
Definition f64_sub : float64 -> float64 -> float64 := SFsub 53 1024.
Definition f64_mul : float64 -> float64 -> float64 := SFmul 53 1024.
Definition f64_div : float64 -> float64 -> float64 := SFdiv 53 1024.
Definition f64_ltb (x y : float64) : bool := SFltb x y.
Definition f64_leb (x y : float64) : bool := SFleb x y.

Definition f64_0 : float64 := S754_zero false.

(** The constants 0.5 and 1.25. *)
Definition f64_half : float64 := f64_div (f64_of_Z 1) (f64_of_Z 2).
Definition f64_1_25 : float64 := f64_div (f64_of_Z 5) (f64_of_Z 4).

(** Conversion to an integer type discards the fraction; the source only
    converts values in the range of the target type. *)
Definition f64_trunc (x : float64) : Z :=
  match x with
  | S754_finite s m e =>
      let a := if 0 <=? e then Z.pos m * 2 ^ e else Z.pos m / 2 ^ (- e) in
      if s then - a else a
  | _ => 0
  end.

(** [Duration.Seconds]: whole seconds plus the fraction. *)
Definition Duration_Seconds (d : Z) : float64 :=
  f64_add (f64_of_Z (goquot d Second)) (f64_div (f64_of_Z (Z.rem d Second)) (f64_of_Z 1000000000)).
