(* ===== verification/GoJsonValue.v ===== *)
(** * encoding/json: decoding into any, and reflect.DeepEqual

    json.Unmarshal into an interface value: null, booleans, float64 numbers,
    unquoted strings, slices and maps. A map is the list of its entries in key
    order. The decoder runs on the compact form of a validated input; every call
    consumes input, so its length is enough fuel. *)

From S2P Require Import Prelude GoStrings GoJson GoFloat.
From Stdlib Require Import Ascii String SpecFloat.
Local Open Scope Z_scope.
Local Open Scope go_scope.

Inductive jvalue : Type :=
  | JNull
  | JBool (b : bool)
  | JNum (x : float64)
  | JStr (s : string)
  | JArr (l : list jvalue)
  | JObj (m : list (string * jvalue)).

(** ** Numbers: strconv.ParseFloat on a JSON number *)

(** The exponent's digits; further ones are ignored from 10000 on. *)
Fixpoint exp_digits (acc : Z) (s : string) : Z :=
  match s with
  | EmptyString => acc
  | String c s' => exp_digits (if acc <? 10000 then 10 * acc + digit_val c else acc) s'
  end.

(** Sign, mantissa and decimal exponent of a number token. *)
Definition number_parts (tok : string) : bool * Z * Z :=
  let '(neg, s) := match tok with String c s => if is_chr 45 c then (true, s) else (false, tok) | EmptyString => (false, tok) end in
  let '(whole, s) := json_digits s in
  let '(frac, s) := match s with String p r => if is_chr 46 p then json_digits r else ("", s) | EmptyString => ("", s) end in
  let exp := match s with
             | String _ (String g r) =>
                 if is_chr 45 g then - exp_digits 0 r
                 else if is_chr 43 g then exp_digits 0 r else exp_digits 0 (String g r)
             | _ => 0
             end in
  (neg, default 0 (parse_digits 0 (whole +++ frac)), exp - str_len frac).

(** The double nearest to m * 10^e, ties to even. *)
Definition f64_decimal (neg : bool) (m e : Z) : float64 :=
  match m with
  | Z.pos p =>
      if 0 <=? e then binary_normalize 53 1024 ((if neg then -1 else 1) * m * 10 ^ e) 0 neg
      else SFdiv 53 1024 (S754_finite neg p 0) (S754_finite false (Z.to_pos (10 ^ (- e))) 0)
  | _ => S754_zero neg
  end.

(** [None] is the range error of a value that rounds to infinity. *)
Definition ParseFloat_number (tok : string) : option float64 :=
  let '(neg, m, e) := number_parts tok in
  match f64_decimal neg m e with
  | S754_infinity _ => None
  | x => Some x
  end.

(** ** Strings: unquoting *)

Definition hex_val (c : ascii) : Z :=
  let b := byte_val c in if b <=? 57 then b - 48 else if b <=? 70 then b - 55 else b - 87.
Definition hex4 (a b c d : ascii) : Z := ((hex_val a * 16 + hex_val b) * 16 + hex_val c) * 16 + hex_val d.

(** A backslash-u escape at the start of the input. *)
Definition getu4 (s : string) : option (Z * string) :=
  match s with
  | String b (String u (String h1 (String h2 (String h3 (String h4 r))))) =>
      if is_chr 92 b && is_chr 117 u && is_hex h1 && is_hex h2 && is_hex h3 && is_hex h4
      then Some (hex4 h1 h2 h3 h4, r) else None
  | _ => None
  end.

Definition utf8_encode (r : Z) : string :=
  if r <? 128 then bytes_str [r]
  else if r <? 2048 then bytes_str [192 + r / 64; 128 + r `mod` 64]
  else if r <? 65536 then bytes_str [224 + r / 4096; 128 + (r / 64) `mod` 64; 128 + r `mod` 64]
  else bytes_str [240 + r / 262144; 128 + (r / 4096) `mod` 64; 128 + (r / 64) `mod` 64; 128 + r `mod` 64].

Definition replacement : string := utf8_encode 65533.

(** One escaped code unit, paired with the next when the two form a surrogate
    pair; a lone surrogate becomes the replacement character. *)
Definition decode_unit (u : Z) (rest : string) : string * string :=
  if in_range 55296 57343 u then
    match getu4 rest with
    | Some (v, rest') =>
        if in_range 55296 56319 u && in_range 56320 57343 v
        then (utf8_encode (65536 + (u - 55296) * 1024 + (v - 56320)), rest')
        else (replacement, rest)
    | None => (replacement, rest)
    end
  else (utf8_encode u, rest).

Definition escape_char (e : ascii) : string :=
  let b := byte_val e in
  if b =? 98 then bytes_str [8] else if b =? 102 then bytes_str [12]
  else if b =? 110 then bytes_str [10] else if b =? 114 then bytes_str [13]
  else if b =? 116 then bytes_str [9] else String e "".

(** The bytes of the first rune; a byte that starts none is invalid. *)
Definition rune_size (s : string) : option nat :=
  List.find (fun k => (k <=? String.length s)%nat && ValidString (substring 0 k s)) [1; 2; 3; 4]%nat.

(** The contents of a string token, closing quote included. *)
Fixpoint unquote (fuel : nat) (s : string) : string :=
  match fuel with
  | O => ""
  | S f =>
      match s with
      | EmptyString => ""
      | String c s' =>
          if is_chr 34 c then ""
          else if is_chr 92 c then
            match getu4 s with
            | Some (u, r) => let '(out, r) := decode_unit u r in out +++ unquote f r
            | None => match s' with
                      | String e r => escape_char e +++ unquote f r
                      | EmptyString => ""
                      end
            end
          else match rune_size s with
               | Some k => substring 0 k s +++ unquote f (substring k (String.length s - k) s)
               | None => replacement +++ unquote f s'
               end
      end
  end.
Definition unquote_token (t : string) : string := unquote (String.length t) t.

(** ** Values *)

(** m[k] = v on entries in key order. *)
Fixpoint obj_set (k : string) (v : jvalue) (m : list (string * jvalue)) : list (string * jvalue) :=
  match m with
  | [] => [(k, v)]
  | (k', v') :: r =>
      match String.compare k k' with
      | Eq => (k, v) :: r
      | Lt => (k, v) :: m
      | Gt => (k', v') :: obj_set k v r
      end
  end.

Fixpoint dec_value (fuel : nat) (s : string) {struct fuel} : option (jvalue * string) :=
  match fuel with
  | O => None
  | S f =>
      match s with
      | EmptyString => None
      | String c r =>
          if is_chr 123 c then
            match r with
            | String d r' => if is_chr 125 d then Some (JObj [], r')
                             else match dec_members f [] r with Some (m, r) => Some (JObj m, r) | None => None end
            | EmptyString => None
            end
          else if is_chr 91 c then
            match r with
            | String d r' => if is_chr 93 d then Some (JArr [], r')
                             else match dec_elements f r with Some (l, r) => Some (JArr l, r) | None => None end
            | EmptyString => None
            end
          else if is_chr 34 c then
            match json_string r with Some (t, r) => Some (JStr (unquote_token t), r) | None => None end
          else if is_chr 116 c then (fun r => (JBool true, r)) <$> strip_prefix "true" s
          else if is_chr 102 c then (fun r => (JBool false, r)) <$> strip_prefix "false" s
          else if is_chr 110 c then (fun r => (JNull, r)) <$> strip_prefix "null" s
          else match json_number s with
               | Some (tok, r) => (fun x => (JNum x, r)) <$> ParseFloat_number tok
               | None => None
               end
      end
  end
with dec_members (fuel : nat) (m : list (string * jvalue)) (s : string) {struct fuel}
    : option (list (string * jvalue) * string) :=
  match fuel with
  | O => None
  | S f =>
      match s with
      | String _ r =>
          match json_string r with
          | Some (k, String _ r) =>
              match dec_value f r with
              | Some (v, String d r) =>
                  let m := obj_set (unquote_token k) v m in
                  if is_chr 125 d then Some (m, r) else dec_members f m r
              | _ => None
              end
          | _ => None
          end
      | EmptyString => None
      end
  end
with dec_elements (fuel : nat) (s : string) {struct fuel} : option (list jvalue * string) :=
  match fuel with
  | O => None
  | S f =>
      match dec_value f s with
      | Some (v, String d r) =>
          if is_chr 93 d then Some ([v], r)
          else match dec_elements f r with Some (l, r) => Some (v :: l, r) | None => None end
      | _ => None
      end
  end.

(** json.Unmarshal(data, &v) with v of type any. *)
Definition Unmarshal_any (s : string) : option jvalue :=
  match json_Compact s with
  | None => None
  | Some c => fst <$> dec_value (2 * String.length c + 2) c
  end.

(** reflect.DeepEqual on decoded values: numbers by ==. *)
Fixpoint DeepEqual (a b : jvalue) {struct a} : bool :=
  match a, b with
  | JNull, JNull => true
  | JBool x, JBool y => Bool.eqb x y
  | JNum x, JNum y => SFeqb x y
  | JStr x, JStr y => String.eqb x y
  | JArr x, JArr y =>
      (fix go x y := match x, y with
                     | [], [] => true
                     | a :: x, b :: y => DeepEqual a b && go x y
                     | _, _ => false
                     end) x y
  | JObj x, JObj y =>
      (fix go x y := match x, y with
                     | [], [] => true
                     | (k, a) :: x, (l, b) :: y => String.eqb k l && DeepEqual a b && go x y
                     | _, _ => false
                     end) x y
  | _, _ => false
  end.

(** Spellings of the same value: number formats, escapes, key order, repeated
    keys (the last one counts), white space. *)
Example decoded_values :
  let q := bytes_str [34] in let bs := bytes_str [92] in
  let same a b := match Unmarshal_any a, Unmarshal_any b with Some x, Some y => DeepEqual x y | _, _ => false end in
  same "[100, 0.1, -0]" "[1e2,1E-1,0]" = true /\ same "9007199254740993" "9007199254740992.0" = true /\
  same "1e23" "9.999999999999999e22" = true /\ same "1e23" "1.0000000000000001e23" = false /\
  same (q +++ "A" +++ q) (q +++ bs +++ "u0041" +++ q) = true /\
  same (q +++ bytes_str [240; 159; 152; 128] +++ q) (q +++ bs +++ "ud83d" +++ bs +++ "uDE00" +++ q) = true /\
  same (q +++ bytes_str [255] +++ q) (q +++ bs +++ "udc00" +++ q) = true /\
  same ("{" +++ q +++ "a" +++ q +++ ":1," +++ q +++ "b" +++ q +++ ":2}")
       ("{" +++ q +++ "b" +++ q +++ ":2," +++ q +++ "a" +++ q +++ ":7, " +++ q +++ "a" +++ q +++ ":1}") = true /\
  same "1" "true" = false /\ Unmarshal_any "1e309" = None /\ same "5e-324" "4e-324" = true /\ same "1e-400" "0" = true.
Proof. vm_compute. repeat split; reflexivity. Qed.
