(* ===== verification/Backpressure.v ===== *)
(** * Lag backpressure (internal/ingester/backpressure.go)

    The LagCoordinator: hysteresis on the ingestion lag, the catch-up sweep
    multiplier and the bounded deferral of background jobs. The clock reading
    is an argument of every method that calls opts.Now; the calls made to the
    downstream sink are recorded in [sent], the latest first. Every public
    method takes a possibly nil receiver. *)

From S2P Require Import Prelude GoFloat.
From Stdlib Require Import String.
Local Open Scope Z_scope.

Definition DefaultMaxLagDeferral : Z := 15 * Minute.
Definition DefaultCatchUpSweepMultiplier : Z := 2.
Definition MaxCatchUpSweepMultiplier : Z := 4.

Record LagBackpressureOptions : Type := mkLagOptions {
  o_Enabled : bool;
  o_EnterLagLedgers : Z;
  o_RecoverLagLedgers : Z;
  o_MaxDeferral : Z;
  o_CatchUpSweepMultiplier : Z;
  o_Downstream : bool }.

Definition applyDefaults (o : LagBackpressureOptions) : LagBackpressureOptions :=
  let recover :=
    if ((0 <? o_EnterLagLedgers o) && (o_RecoverLagLedgers o =? 0))%bool
    then u32 (o_EnterLagLedgers o * 3) / 4 else o_RecoverLagLedgers o in
  let recover := if o_EnterLagLedgers o <? recover then o_EnterLagLedgers o else recover in
  let mult :=
    if o_CatchUpSweepMultiplier o <=? 0
    then if o_Enabled o then DefaultCatchUpSweepMultiplier else 1
    else o_CatchUpSweepMultiplier o in
  {| o_Enabled := o_Enabled o;
     o_EnterLagLedgers := o_EnterLagLedgers o;
     o_RecoverLagLedgers := recover;
     o_MaxDeferral := if o_MaxDeferral o <=? 0 then DefaultMaxLagDeferral else o_MaxDeferral o;
     o_CatchUpSweepMultiplier :=
       if MaxCatchUpSweepMultiplier <? mult then MaxCatchUpSweepMultiplier else mult;
     o_Downstream := o_Downstream o |}.

Record LagCoordinator : Type := mkLag {
  opts : LagBackpressureOptions;
  lagging : bool;
  laggingSince : Z;
  currentLag : Z;
  prevLag : Z;
  prevSampleAt : Z;
  closingRate : float64;
  deferredSince : gmap string Z;
  yieldsByJob : gmap string Z;
  overrideByJob : gmap string Z;
  transitionsToLagging : Z;
  transitionsToRecovered : Z;
  totalYields : Z;
  maxDeferralOverrides : Z;
  sent : list bool }.

Definition NewLagCoordinator (o : LagBackpressureOptions) : LagCoordinator :=
  {| opts := applyDefaults o; lagging := false; laggingSince := time_zero;
     currentLag := 0; prevLag := 0; prevSampleAt := time_zero; closingRate := f64_0;
     deferredSince := ∅; yieldsByJob := ∅; overrideByJob := ∅;
     transitionsToLagging := 0; transitionsToRecovered := 0;
     totalYields := 0; maxDeferralOverrides := 0; sent := [] |}.

(** ** Field updates *)

Definition set_enabled (b : bool) (c : LagCoordinator) : LagCoordinator :=
  let o := opts c in
  {| opts := {| o_Enabled := b; o_EnterLagLedgers := o_EnterLagLedgers o;
                o_RecoverLagLedgers := o_RecoverLagLedgers o; o_MaxDeferral := o_MaxDeferral o;
                o_CatchUpSweepMultiplier := o_CatchUpSweepMultiplier o;
                o_Downstream := o_Downstream o |};
     lagging := lagging c; laggingSince := laggingSince c; currentLag := currentLag c;
     prevLag := prevLag c; prevSampleAt := prevSampleAt c; closingRate := closingRate c;
     deferredSince := deferredSince c; yieldsByJob := yieldsByJob c;
     overrideByJob := overrideByJob c; transitionsToLagging := transitionsToLagging c;
     transitionsToRecovered := transitionsToRecovered c; totalYields := totalYields c;
     maxDeferralOverrides := maxDeferralOverrides c; sent := sent c |}.

Definition set_deferred (d : gmap string Z) (c : LagCoordinator) : LagCoordinator :=
  {| opts := opts c; lagging := lagging c; laggingSince := laggingSince c;
     currentLag := currentLag c; prevLag := prevLag c; prevSampleAt := prevSampleAt c;
     closingRate := closingRate c; deferredSince := d; yieldsByJob := yieldsByJob c;
     overrideByJob := overrideByJob c; transitionsToLagging := transitionsToLagging c;
     transitionsToRecovered := transitionsToRecovered c; totalYields := totalYields c;
     maxDeferralOverrides := maxDeferralOverrides c; sent := sent c |}.

Definition set_sample (cur prev at_ : Z) (rate : float64) (c : LagCoordinator) : LagCoordinator :=
  {| opts := opts c; lagging := lagging c; laggingSince := laggingSince c;
     currentLag := cur; prevLag := prev; prevSampleAt := at_; closingRate := rate;
     deferredSince := deferredSince c; yieldsByJob := yieldsByJob c;
     overrideByJob := overrideByJob c; transitionsToLagging := transitionsToLagging c;
     transitionsToRecovered := transitionsToRecovered c; totalYields := totalYields c;
     maxDeferralOverrides := maxDeferralOverrides c; sent := sent c |}.

Definition set_sent (l : list bool) (c : LagCoordinator) : LagCoordinator :=
  {| opts := opts c; lagging := lagging c; laggingSince := laggingSince c;
     currentLag := currentLag c; prevLag := prevLag c; prevSampleAt := prevSampleAt c;
     closingRate := closingRate c; deferredSince := deferredSince c;
     yieldsByJob := yieldsByJob c; overrideByJob := overrideByJob c;
     transitionsToLagging := transitionsToLagging c;
     transitionsToRecovered := transitionsToRecovered c; totalYields := totalYields c;
     maxDeferralOverrides := maxDeferralOverrides c; sent := l |}.

Definition notify (b : bool) (c : LagCoordinator) : LagCoordinator :=
  if o_Downstream (opts c) then set_sent (b :: sent c) c else c.

(** A method on a possibly nil receiver. *)
Definition recv {A} (c : option LagCoordinator) (nil_result : A)
    (f : LagCoordinator -> A * LagCoordinator) : A * option LagCoordinator :=
  match c with
  | None => (nil_result, None)
  | Some c => let '(a, c') := f c in (a, Some c')
  end.

(** ** Operations *)

Definition SetEnabled (enabled : bool) (c : option LagCoordinator) : unit * option LagCoordinator :=
  recv c tt (fun c =>
    let c := set_enabled enabled c in
    (tt, if negb enabled then set_deferred ∅ c else c)).

Definition Enabled (c : option LagCoordinator) : bool :=
  (recv c false (fun c => (o_Enabled (opts c), c))).1.

Definition applyStateLocked (lag : bool) (now : Z) (c : LagCoordinator) : LagCoordinator :=
  if (lag && negb (lagging c))%bool then
    {| opts := opts c; lagging := true; laggingSince := now;
       currentLag := currentLag c; prevLag := prevLag c; prevSampleAt := prevSampleAt c;
       closingRate := closingRate c; deferredSince := deferredSince c;
       yieldsByJob := yieldsByJob c; overrideByJob := overrideByJob c;
       transitionsToLagging := u64 (transitionsToLagging c + 1);
       transitionsToRecovered := transitionsToRecovered c; totalYields := totalYields c;
       maxDeferralOverrides := maxDeferralOverrides c; sent := sent c |}
  else if (negb lag && lagging c)%bool then
    {| opts := opts c; lagging := false; laggingSince := time_zero;
       currentLag := currentLag c; prevLag := prevLag c; prevSampleAt := prevSampleAt c;
       closingRate := f64_0; deferredSince := ∅;
       yieldsByJob := yieldsByJob c; overrideByJob := overrideByJob c;
       transitionsToLagging := transitionsToLagging c;
       transitionsToRecovered := u64 (transitionsToRecovered c + 1); totalYields := totalYields c;
       maxDeferralOverrides := maxDeferralOverrides c; sent := sent c |}
  else c.

Definition SetLagging (lag : bool) (now : Z) (c : option LagCoordinator) : unit * option LagCoordinator :=
  recv c tt (fun c => (tt, notify lag (applyStateLocked lag now c))).

Definition effectiveSweepMultiplierLocked (c : LagCoordinator) : Z :=
  if (negb (o_Enabled (opts c)) || negb (lagging c) || (o_CatchUpSweepMultiplier (opts c) <=? 1))%bool
  then 1 else o_CatchUpSweepMultiplier (opts c).

Definition EffectiveSweepMultiplier (c : option LagCoordinator) : Z :=
  (recv c 1 (fun c => (effectiveSweepMultiplierLocked c, c))).1.

Definition IsLagging (c : option LagCoordinator) : bool :=
  (recv c false (fun c => (lagging c, c))).1.

(** The hysteresis decision on a non-negative lag. *)
Definition next_lagging (c : LagCoordinator) (rawLag : Z) : bool :=
  if 0 <? o_EnterLagLedgers (opts c) then
    if (negb (lagging c) && (o_EnterLagLedgers (opts c) <? rawLag))%bool then true
    else if (lagging c && (rawLag <=? o_RecoverLagLedgers (opts c)))%bool then false
    else lagging c
  else lagging c.

Definition observe (latestLedger lastIngestedLedger now : Z) (c : LagCoordinator) : bool * LagCoordinator :=
  if lastIngestedLedger <=? 0 then
    let c := set_sample 0 (prevLag c) time_zero f64_0 c in
    (false, notify false (applyStateLocked false now c))
  else
    let rawLag := i64 (latestLedger - lastIngestedLedger) in
    if rawLag <? 0 then (lagging c, notify (lagging c) c)
    else
      let rate :=
        if negb (time_IsZero (prevSampleAt c)) then
          let dt := Duration_Seconds (time_Sub now (prevSampleAt c)) in
          if f64_ltb f64_0 dt
          then f64_div (f64_of_Z (i64 (prevLag c - rawLag))) dt else closingRate c
        else closingRate c in
      let c := set_sample rawLag rawLag now rate c in
      let lag := next_lagging c rawLag in
      (lag, notify lag (applyStateLocked lag now c)).

Definition ObserveLag (latestLedger lastIngestedLedger now : Z) (c : option LagCoordinator)
    : bool * option LagCoordinator :=
  recv c false (observe latestLedger lastIngestedLedger now).

Definition count_job (job : string) (m : gmap string Z) : gmap string Z :=
  <[job := u64 (default 0 (m !! job) + 1)]> m.

Definition should_yield (job : string) (now : Z) (c : LagCoordinator) : (bool * string) * LagCoordinator :=
  if (negb (o_Enabled (opts c)) || negb (lagging c))%bool then
    ((false, ""%string), set_deferred (delete job (deferredSince c)) c)
  else
    let since := default now (deferredSince c !! job) in
    let c := match deferredSince c !! job with
             | Some _ => c
             | None => set_deferred (<[job := now]> (deferredSince c)) c
             end in
    let deferredFor := time_Sub now since in
    let maxDeferral := o_MaxDeferral (opts c) in
    if ((0 <? maxDeferral) && (maxDeferral <=? deferredFor))%bool then
      ((false, "max_deferral_reached"%string),
       {| opts := opts c; lagging := lagging c; laggingSince := laggingSince c;
          currentLag := currentLag c; prevLag := prevLag c; prevSampleAt := prevSampleAt c;
          closingRate := closingRate c; deferredSince := <[job := now]> (deferredSince c);
          yieldsByJob := yieldsByJob c; overrideByJob := count_job job (overrideByJob c);
          transitionsToLagging := transitionsToLagging c;
          transitionsToRecovered := transitionsToRecovered c; totalYields := totalYields c;
          maxDeferralOverrides := u64 (maxDeferralOverrides c + 1); sent := sent c |})
    else
      ((true, "ingest_lagging"%string),
       {| opts := opts c; lagging := lagging c; laggingSince := laggingSince c;
          currentLag := currentLag c; prevLag := prevLag c; prevSampleAt := prevSampleAt c;
          closingRate := closingRate c; deferredSince := deferredSince c;
          yieldsByJob := count_job job (yieldsByJob c); overrideByJob := overrideByJob c;
          transitionsToLagging := transitionsToLagging c;
          transitionsToRecovered := transitionsToRecovered c; totalYields := u64 (totalYields c + 1);
          maxDeferralOverrides := maxDeferralOverrides c; sent := sent c |}).

Definition job_key (job : string) : string :=
  if bool_decide (job = ""%string) then "background"%string else job.

Definition ShouldYield (job : string) (now : Z) (c : option LagCoordinator)
    : (bool * string) * option LagCoordinator :=
  recv c (false, ""%string)
    (should_yield (job_key job) now).

Record LagBackpressureStats : Type := mkLagStats {
  ls_Enabled : bool;
  ls_Lagging : bool;
  ls_CurrentLagLedgers : Z;
  ls_ClosingRate : float64;
  ls_EffectiveSweepMultiplier : Z;
  ls_TransitionsToLagging : Z;
  ls_TransitionsToRecovered : Z;
  ls_TotalYields : Z;
  ls_MaxDeferralOverrides : Z;
  ls_YieldsByJob : gmap string Z;
  ls_OverridesByJob : gmap string Z }.

Definition LagStats (c : option LagCoordinator) : LagBackpressureStats :=
  (recv c (mkLagStats false false 0 f64_0 0 0 0 0 0 ∅ ∅) (fun c =>
    (mkLagStats (o_Enabled (opts c)) (lagging c) (currentLag c) (closingRate c)
       (effectiveSweepMultiplierLocked c) (transitionsToLagging c) (transitionsToRecovered c)
       (totalYields c) (maxDeferralOverrides c) (yieldsByJob c) (overrideByJob c), c))).1.

(** ** The coordinator as a state machine *)

Inductive lag_op : Type :=
  | OpSetEnabled (b : bool)
  | OpSetLagging (b : bool) (now : Z)
  | OpObserve (latest last now : Z)
  | OpYield (job : string) (now : Z).

Definition lag_step (op : lag_op) (c : option LagCoordinator) : option LagCoordinator :=
  match op with
  | OpSetEnabled b => (SetEnabled b c).2
  | OpSetLagging b now => (SetLagging b now c).2
  | OpObserve latest last now => (ObserveLag latest last now c).2
  | OpYield job now => (ShouldYield job now c).2
  end.

Definition lag_run (ops : list lag_op) (c : option LagCoordinator) : option LagCoordinator :=
  fold_left (fun c op => lag_step op c) ops c.

(** Sum of a per-job counter map. *)
Definition job_sum (m : gmap string Z) : Z := map_fold (fun _ v acc => v + acc) 0 m.

Lemma job_sum_insert j v m : m !! j = None -> job_sum (<[j := v]> m) = v + job_sum m.
Proof. intros. unfold job_sum. apply map_fold_insert_L; [intros; lia|done]. Qed.

Lemma job_sum_count j m : u64 (job_sum (count_job j m)) = u64 (job_sum m + 1).
Proof.
  unfold count_job, u64, wrapu. destruct (m !! j) as [v|] eqn:E; cbn [default from_option id].
  - replace m with (<[j := v]> (delete j m)) at 2
      by (rewrite insert_delete_eq; by apply insert_id).
    rewrite <- insert_delete_eq, !job_sum_insert by apply lookup_delete_eq.
    rewrite <- Zplus_mod_idemp_l, Z.mod_mod, Zplus_mod_idemp_l by lia. f_equal. lia.
  - rewrite job_sum_insert by done.
    rewrite <- Zplus_mod_idemp_l, Z.mod_mod, Zplus_mod_idemp_l by lia. f_equal. lia.
Qed.

Record lag_inv (c : LagCoordinator) : Prop := {
  li_band : 0 <= o_RecoverLagLedgers (opts c) <= o_EnterLagLedgers (opts c);
  li_deferral : 0 < o_MaxDeferral (opts c);
  li_mult : 1 <= o_CatchUpSweepMultiplier (opts c) <= MaxCatchUpSweepMultiplier;
  li_deferred : (o_Enabled (opts c) && lagging c)%bool = false -> deferredSince c = ∅;
  li_transitions : transitionsToLagging c = u64 (transitionsToRecovered c + Z.b2z (lagging c));
  li_yields : totalYields c = u64 (job_sum (yieldsByJob c));
  li_overrides : maxDeferralOverrides c = u64 (job_sum (overrideByJob c));
  li_sent : sent c = [] /\ lagging c = false \/ o_Downstream (opts c) = false \/ head (sent c) = Some (lagging c) }.

Lemma applyDefaults_band o : in_u32 (o_EnterLagLedgers o) -> in_u32 (o_RecoverLagLedgers o) ->
  0 <= o_RecoverLagLedgers (applyDefaults o) <= o_EnterLagLedgers o.
Proof.
  unfold in_u32, maxUint32. intros H1 H2. cbn.
  pose proof (u32_range (o_EnterLagLedgers o * 3)) as Hr. unfold in_u32, maxUint32 in Hr.
  pose proof (Z.div_pos (u32 (o_EnterLagLedgers o * 3)) 4).
  repeat split_if; to_prop; lia.
Qed.

Lemma new_lag_inv o : in_u32 (o_EnterLagLedgers o) -> in_u32 (o_RecoverLagLedgers o) ->
  lag_inv (NewLagCoordinator o).
Proof.
  intros H1 H2. split; cbn; try done.
  - by apply applyDefaults_band.
  - unfold DefaultMaxLagDeferral, Minute, Second. split_if; to_prop; lia.
  - unfold MaxCatchUpSweepMultiplier, DefaultCatchUpSweepMultiplier. repeat split_if; to_prop; lia.
  - by left.
Qed.

Lemma u64_succ_l a b : a = u64 b -> u64 (a + 1) = u64 (b + 1).
Proof. intros ->. unfold u64, wrapu. by rewrite Zplus_mod_idemp_l. Qed.

(** Updating the samples keeps the invariant. *)
Lemma set_sample_inv cur prev t r c : lag_inv c -> lag_inv (set_sample cur prev t r c).
Proof. intros []. by split. Qed.

(** A state change followed by its notification keeps the invariant. *)
Lemma apply_notify_inv b now c : lag_inv c -> lag_inv (notify b (applyStateLocked b now c)).
Proof.
  intros [H1 H2 H3 H4 H5 H6 H7 H8]. unfold notify, applyStateLocked.
  destruct b, (lagging c) eqn:El; cbn [andb negb];
    destruct (o_Downstream (opts c)) eqn:Ed; cbn; rewrite ?Ed; split; cbn; rewrite ?El; auto.
  1,3: intros He; apply H4; by rewrite andb_false_r.
  1,2: apply u64_succ_l; rewrite H5; cbn [Z.b2z]; by rewrite Z.add_0_r.
  all: rewrite H5, Z.add_0_r; cbn [Z.b2z]; unfold u64, wrapu; by rewrite Z.mod_mod.
Qed.

Lemma notify_same_inv c : lag_inv c -> lag_inv (notify (lagging c) c).
Proof. intros []. unfold notify. destruct (o_Downstream (opts c)) eqn:E; split; cbn; rewrite ?E; auto. Qed.

Lemma observe_inv latest last now c : lag_inv c -> lag_inv (observe latest last now c).2.
Proof.
  intros H. unfold observe. destruct (last <=? 0); cbn [snd].
  - by apply apply_notify_inv, set_sample_inv.
  - destruct (_ <? 0); cbn [snd]; [by apply notify_same_inv|].
    by apply apply_notify_inv, set_sample_inv.
Qed.

Lemma set_enabled_inv b c :
  lag_inv c -> lag_inv (if negb b then set_deferred ∅ (set_enabled b c) else set_enabled b c).
Proof.
  intros [H1 H2 H3 H4 H5 H6 H7 H8]. destruct b; cbn [negb]; split; cbn; auto.
  intros Hl. apply H4. by rewrite Hl, andb_false_r.
Qed.

Lemma should_yield_inv job now c : lag_inv c -> lag_inv (should_yield job now c).2.
Proof.
  intros [H1 H2 H3 H4 H5 H6 H7 H8]. unfold should_yield.
  destruct (o_Enabled (opts c)) eqn:Ee, (lagging c) eqn:El; cbn [negb orb andb] in *;
    try (split; cbn; rewrite ?Ee, ?El; auto; intros _; rewrite H4 by done; apply delete_empty).
  destruct (deferredSince c !! job) eqn:Ed; cbn [opts set_deferred snd];
    destruct (_ && _)%bool; cbn; split; cbn; rewrite ?Ee, ?El; auto; try (intros ?; discriminate);
    rewrite ?job_sum_count; by apply u64_succ_l.
Qed.

Lemma lag_step_inv op c : lag_inv c -> exists c', lag_step op (Some c) = Some c' /\ lag_inv c'.
Proof.
  intros H. destruct op as [b|b now|la li now|job now]; cbn.
  - eexists; split; [done|]. by apply set_enabled_inv.
  - eexists; split; [done|]. by apply apply_notify_inv.
  - pose proof (observe_inv la li now c H) as Ho.
    destruct (observe la li now c) as [r c']. cbn in *. eauto.
  - pose proof (should_yield_inv (job_key job) now c H) as Ho.
    destruct (should_yield _ now c) as [r c']. cbn in *. eauto.
Qed.

Lemma lag_run_inv ops : forall c, lag_inv c -> exists c', lag_run ops (Some c) = Some c' /\ lag_inv c'.
Proof.
  induction ops as [|op ops IH]; intros c H; cbn; [eauto|].
  destruct (lag_step_inv op c H) as (c1 & -> & H1). by apply IH.
Qed.

(** In every state the coordinator can reach, by any interleaving of its
    operations at any times, the recover threshold does not exceed the enter
    threshold, the effective sweep multiplier stays in [1, 4], no deferral
    timer is running unless backpressure is enabled and the ingester lags, the
    transition counters differ by the current state, the totals are the sums of
    the per-job counters (modulo the counter width), and the downstream sink was
    last told the current state. *)
Theorem lag_coordinator_invariant (o : LagBackpressureOptions) (ops : list lag_op)
    (He : in_u32 (o_EnterLagLedgers o)) (Hr : in_u32 (o_RecoverLagLedgers o)) :
  exists c, lag_run ops (Some (NewLagCoordinator o)) = Some c /\ lag_inv c /\
    1 <= EffectiveSweepMultiplier (Some c) <= MaxCatchUpSweepMultiplier.
Proof.
  destruct (lag_run_inv ops _ (new_lag_inv o He Hr)) as (c & Hc & Hi).
  exists c. split; [done|]. split; [done|]. destruct Hi as [_ _ Hm _ _ _ _ _].
  unfold EffectiveSweepMultiplier. cbn. unfold effectiveSweepMultiplierLocked.
  unfold MaxCatchUpSweepMultiplier in *. split_if; lia.
Qed.

Definition demo_lag_opts : LagBackpressureOptions := mkLagOptions true 100 0 0 9 true.

Lemma lag_coordinator_invariant_witness :
  exists c, lag_run [OpObserve 1000 500 1; OpYield "pruner" 2; OpObserve 1000 920 3; OpObserve 1000 990 4]
    (Some (NewLagCoordinator demo_lag_opts)) = Some c /\ lag_inv c /\
    1 <= EffectiveSweepMultiplier (Some c) <= MaxCatchUpSweepMultiplier.
Proof.
  apply (lag_coordinator_invariant demo_lag_opts); unfold in_u32, maxUint32; cbn; lia.
Defined.

(** ** Hysteresis *)

(** The lag reported by a sample. *)
Definition sample_lag (s : Z * Z * Z) : Z := s.1.1 - s.1.2.

Definition observe_all (samples : list (Z * Z * Z)) (c : option LagCoordinator) : option LagCoordinator :=
  fold_left (fun c s => (ObserveLag s.1.1 s.1.2 s.2 c).2) samples c.

Lemma applyStateLocked_same now c : applyStateLocked (lagging c) now c = c.
Proof. unfold applyStateLocked. by destruct (lagging c). Qed.

Lemma observe_in_band latest last now c :
  0 < last -> in_i64 (latest - last) ->
  o_RecoverLagLedgers (opts c) < latest - last <= o_EnterLagLedgers (opts c) ->
  (observe latest last now c).1 = lagging c /\
  lagging (observe latest last now c).2 = lagging c /\
  opts (observe latest last now c).2 = opts c /\
  transitionsToLagging (observe latest last now c).2 = transitionsToLagging c /\
  transitionsToRecovered (observe latest last now c).2 = transitionsToRecovered c /\
  deferredSince (observe latest last now c).2 = deferredSince c.
Proof.
  intros Hl Hi Hb. unfold observe. rewrite i64_id by done.
  destruct (Z.leb_spec last 0); [lia|].
  destruct (Z.ltb_spec (latest - last) 0).
  { cbn [fst snd]. unfold notify. by destruct (o_Downstream _). }
  cbv zeta.
  match goal with |- context [set_sample ?a ?b ?d ?r c] => set (c1 := set_sample a b d r c) end.
  assert (Hn : next_lagging c1 (latest - last) = lagging c1).
  { unfold next_lagging. cbn [opts lagging c1 set_sample]. destruct (0 <? _); [|done].
    destruct (Z.ltb_spec (o_EnterLagLedgers (opts c)) (latest - last)); [lia|].
    destruct (Z.leb_spec (latest - last) (o_RecoverLagLedgers (opts c))); [lia|].
    by rewrite andb_false_r, andb_false_r. }
  rewrite Hn, applyStateLocked_same. unfold notify.
  by destruct (o_Downstream (opts c1)).
Qed.

(** lag samples inside the hysteresis band never flip the state: however
    many are observed, at whatever times, the lagging flag, the transition
    counters and the deferral timers are those of before the first one. *)
Theorem hysteresis_band_stable (samples : list (Z * Z * Z)) : forall (c : LagCoordinator)
    (Hs : Forall (fun s => 0 < s.1.2 /\ in_i64 (sample_lag s) /\
      o_RecoverLagLedgers (opts c) < sample_lag s <= o_EnterLagLedgers (opts c)) samples),
  exists c', observe_all samples (Some c) = Some c' /\ lagging c' = lagging c /\
    transitionsToLagging c' = transitionsToLagging c /\
    transitionsToRecovered c' = transitionsToRecovered c /\
    deferredSince c' = deferredSince c.
Proof.
  induction samples as [|[[la li] now] samples IH]; intros c Hs.
  { by exists c. }
  apply Forall_cons_iff in Hs as [(H1 & H2 & H3) Hs]. cbn in H1, H2, H3.
  destruct (observe_in_band la li now c H1 H2 H3) as (_ & Hl & Ho & Ht1 & Ht2 & Hd).
  cbn [observe_all fold_left]. unfold ObserveLag at 2. cbn [fst snd recv].
  destruct (observe la li now c) as [r c1]. cbn [snd] in *.
  destruct (IH c1) as (c' & Hr & Hc); [by rewrite Ho|].
  exists c'. split; [exact Hr|]. by rewrite <- Hl, <- Ht1, <- Ht2, <- Hd.
Qed.

Lemma hysteresis_band_stable_witness :
  exists c', observe_all [(1100, 1000, 5); (1080, 1000, 6); (1076, 1000, 7)]
    (Some (NewLagCoordinator demo_lag_opts)) = Some c' /\ lagging c' = false.
Proof.
  destruct (hysteresis_band_stable [(1100, 1000, 5); (1080, 1000, 6); (1076, 1000, 7)]
    (NewLagCoordinator demo_lag_opts)) as (c' & H1 & H2 & _).
  - repeat (apply Forall_cons_2; [repeat split; vm_compute; congruence|]). apply Forall_nil_2.
  - exists c'. by split.
Defined.

(** ** Bounded deferral *)

(** The polls of the job with key [k] in a run, with the answer each one got. *)
Fixpoint polls (k : string) (ops : list lag_op) (c : option LagCoordinator) : list (Z * bool) :=
  match ops with
  | [] => []
  | op :: ops' =>
      let rest := polls k ops' (lag_step op c) in
      match op with
      | OpYield j now => if bool_decide (job_key j = k) then (now, (ShouldYield j now c).1.1) :: rest else rest
      | _ => rest
      end
  end.

Definition engaged (c : option LagCoordinator) : bool := Enabled c && IsLagging c.

(** Backpressure stays engaged in every state of the run. *)
Fixpoint always_engaged (ops : list lag_op) (c : option LagCoordinator) : bool :=
  engaged c && match ops with [] => true | op :: ops' => always_engaged ops' (lag_step op c) end.

(** The job has a running timer that started no later than [t0]. *)
Definition timer_by (k : string) (t0 : Z) (c : LagCoordinator) : Prop :=
  exists s, deferredSince c !! k = Some s /\ s <= t0.

Lemma notify_fields b c : opts (notify b c) = opts c /\ lagging (notify b c) = lagging c /\
  deferredSince (notify b c) = deferredSince c.
Proof. unfold notify. by destruct (o_Downstream _). Qed.

Lemma apply_notify_engaged b now c : lagging c = true ->
  lagging (notify b (applyStateLocked b now c)) = true ->
  opts (notify b (applyStateLocked b now c)) = opts c /\
  deferredSince (notify b (applyStateLocked b now c)) = deferredSince c.
Proof.
  intros Hl. destruct (notify_fields b (applyStateLocked b now c)) as (-> & -> & ->).
  unfold applyStateLocked. rewrite Hl. by destruct b.
Qed.

Lemma observe_engaged la li now c : lagging c = true -> lagging (observe la li now c).2 = true ->
  opts (observe la li now c).2 = opts c /\ deferredSince (observe la li now c).2 = deferredSince c.
Proof.
  intros Hl. unfold observe. cbv zeta.
  destruct (li <=? 0); [|destruct (_ <? 0)]; cbn [snd]; intros H.
  - by apply apply_notify_engaged in H as [-> ->].
  - by destruct (notify_fields (lagging c) c) as (-> & _ & ->).
  - by apply apply_notify_engaged in H as [-> ->].
Qed.

(** A poll of an engaged coordinator: the timer of the polled job starts now
    unless it runs; the answer is to yield until it reaches the bound. *)
Lemma should_yield_engaged k now c :
  o_Enabled (opts c) = true -> lagging c = true -> 0 < o_MaxDeferral (opts c) <= maxInt64 ->
  let since := default now (deferredSince c !! k) in
  let '((y, _), c') := should_yield k now c in
  opts c' = opts c /\ y = (now - since <? o_MaxDeferral (opts c)) /\
  deferredSince c' = <[k := if y then since else now]> (deferredSince c).
Proof.
  intros He Hl Hm. unfold should_yield. rewrite He, Hl. cbn [negb orb].
  destruct (deferredSince c !! k) as [s|] eqn:Ed; cbn [default from_option id opts set_deferred];
  (destruct (Z.ltb_spec 0 (o_MaxDeferral (opts c))); [|lia]); cbn [andb].
  - destruct (Z.ltb_spec (now - s) (o_MaxDeferral (opts c)));
    destruct (Z.leb_spec (o_MaxDeferral (opts c)) (time_Sub now s)); cbn;
      unfold time_Sub, minInt64, maxInt64 in *; try lia; repeat split.
    by rewrite insert_id.
  - destruct (Z.ltb_spec (now - now) (o_MaxDeferral (opts c)));
    destruct (Z.leb_spec (o_MaxDeferral (opts c)) (time_Sub now now)); cbn;
      unfold time_Sub, minInt64, maxInt64 in *; try lia; repeat split.
Qed.

Lemma engaged_Some c : engaged (Some c) = true -> o_Enabled (opts c) = true /\ lagging c = true.
Proof. unfold engaged. cbn. intros H. by apply andb_true_iff in H. Qed.

(** While backpressure stays engaged, a running timer is only moved by an
    answer that lets the job through. *)
Lemma engaged_step_timer op c k t0 :
  0 < o_MaxDeferral (opts c) <= maxInt64 ->
  engaged (Some c) = true -> engaged (lag_step op (Some c)) = true -> timer_by k t0 c ->
  (forall j now, op = OpYield j now -> job_key j = k -> (ShouldYield j now (Some c)).1.1 = true) ->
  exists c', lag_step op (Some c) = Some c' /\ o_MaxDeferral (opts c') = o_MaxDeferral (opts c) /\
    timer_by k t0 c'.
Proof.
  intros Hm He He' (s & Hs & Hst) Hy. apply engaged_Some in He as [Hen Hl].
  destruct op as [b|b now|la li now|j now]; cbn in He' |- *.
  - apply engaged_Some in He' as [Hb _]. destruct b; cbn in *; [|done].
    eexists; split; [done|]. split; [done|]. by exists s.
  - apply engaged_Some in He' as [_ Hl']. apply apply_notify_engaged in Hl' as [Ho Hd]; [|done].
    eexists; split; [done|]. rewrite Ho. split; [done|]. exists s. by rewrite Hd.
  - pose proof (observe_engaged la li now c Hl) as H. destruct (observe la li now c) as [r c'].
    cbn [snd] in *. apply engaged_Some in He' as [_ Hl']. destruct (H Hl') as [Ho Hd].
    eexists; split; [done|]. rewrite Ho. split; [done|]. exists s. by rewrite Hd.
  - specialize (Hy j now eq_refl). cbn in Hy.
    pose proof (should_yield_engaged (job_key j) now c Hen Hl Hm) as H.
    destruct (should_yield (job_key j) now c) as [[y rs] c']. cbn in *. destruct H as (Ho & _ & Hd).
    eexists; split; [done|]. rewrite Ho. split; [done|]. unfold timer_by. rewrite Hd.
    destruct (decide (job_key j = k)) as [Hk|Hk]; [|exists s; by rewrite lookup_insert_ne].
    rewrite (Hy Hk). rewrite Hk, Hs. cbn. exists s. by rewrite lookup_insert_eq.
Qed.

Lemma deferral_bounded_aux k t0 ops : forall c,
  0 < o_MaxDeferral (opts c) <= maxInt64 -> timer_by k t0 c ->
  always_engaged ops (Some c) = true ->
  Forall (fun p => p.2 = true) (polls k ops (Some c)) ->
  Forall (fun p => p.1 - t0 < o_MaxDeferral (opts c)) (polls k ops (Some c)).
Proof.
  induction ops as [|op ops IH]; intros c Hm Ht He Hall; [done|].
  cbn [always_engaged] in He. apply andb_true_iff in He as [He He2].
  assert (He1 : engaged (lag_step op (Some c)) = true)
    by (destruct ops; cbn [always_engaged] in He2; by apply andb_true_iff in He2 as [? _]).
  assert (Hy : forall j now, op = OpYield j now -> job_key j = k -> (ShouldYield j now (Some c)).1.1 = true).
  { intros j now -> Hk. cbn [polls] in Hall. rewrite bool_decide_true in Hall by done.
    by apply Forall_cons_iff in Hall as [? _]. }
  destruct (engaged_step_timer op c k t0 Hm He He1 Ht Hy) as (c' & Hc' & Ho & Ht').
  assert (Hrest : Forall (fun p => p.2 = true) (polls k ops (Some c'))).
  { rewrite <- Hc'. destruct op; cbn [polls] in Hall; try done.
    destruct (bool_decide _); [by apply Forall_cons_iff in Hall as [_ ?]|done]. }
  rewrite Hc' in He2. pose proof (IH c' ltac:(by rewrite Ho) Ht' He2 Hrest) as Hr. rewrite Ho in Hr.
  cbn [polls]. rewrite Hc'. destruct op as [| | |j now]; try done.
  case_bool_decide as Hk; [|done]. apply Forall_cons_iff. split; [|done]. cbn [fst].
  specialize (Hy j now eq_refl Hk). apply engaged_Some in He as [Hen Hl].
  pose proof (should_yield_engaged (job_key j) now c Hen Hl Hm) as H. cbn in Hy.
  destruct (should_yield (job_key j) now c) as [[y rs] c2]. cbn in *. destruct H as (_ & Hyv & _).
  destruct Ht as (s & Hs & Hst). subst y. rewrite Hk, Hs in Hyv. cbn in Hyv. symmetry in Hyv. apply Z.ltb_lt in Hyv. lia.
Qed.

(** Background jobs are never starved. While backpressure stays engaged,
    whatever other operations run in between, a job first deferred at [t0] that
    has only been told to yield was last polled less than MaxDeferral after
    [t0]: the first poll at or after that bound lets it through. *)
Theorem deferral_bounded (job : string) (t0 : Z) (ops : list lag_op) (c : LagCoordinator)
    (Hm : 0 < o_MaxDeferral (opts c) <= maxInt64)
    (Hfirst : deferredSince c !! job_key job = None)
    (He : always_engaged (OpYield job t0 :: ops) (Some c) = true)
    (Hall : Forall (fun p => p.2 = true) (polls (job_key job) (OpYield job t0 :: ops) (Some c))) :
  Forall (fun p => p.1 - t0 < o_MaxDeferral (opts c)) (polls (job_key job) (OpYield job t0 :: ops) (Some c)).
Proof.
  cbn [polls always_engaged] in *. rewrite bool_decide_true in * by done.
  apply Forall_cons_iff in Hall as [Hy Hall]. apply andb_true_iff in He as [He He2].
  apply Forall_cons_iff. split; [cbn; lia|]. apply engaged_Some in He as [Hen Hl].
  pose proof (should_yield_engaged (job_key job) t0 c Hen Hl Hm) as H.
  cbn in *. destruct (should_yield (job_key job) t0 c) as [[y rs] c'] eqn:Es. cbn in *.
  destruct H as (Ho & _ & Hd). subst y. rewrite <- Ho.
  apply deferral_bounded_aux; [by rewrite Ho| |done|done].
  exists t0. by rewrite Hd, Hfirst, lookup_insert_eq.
Qed.

Lemma deferral_bounded_witness :
  let c := default (NewLagCoordinator demo_lag_opts)
             (lag_run [OpObserve 1000 500 1] (Some (NewLagCoordinator demo_lag_opts))) in
  let ops := [OpYield "archiver" 50; OpObserve 1000 550 60; OpYield "pruner" (10 * Minute)] in
  Forall (fun p => p.1 - 5 < 15 * Minute) (polls "pruner" (OpYield "pruner" 5 :: ops) (Some c)) /\
  polls "pruner" (OpYield "pruner" 5 :: ops ++ [OpYield "pruner" (15 * Minute + 5)]) (Some c)
  = [(5, true); (10 * Minute, true); (15 * Minute + 5, false)].
Proof.
  intros c ops. split; [|vm_compute; reflexivity].
  apply (deferral_bounded "pruner" 5 ops c).
  - vm_compute. split; congruence.
  - vm_compute. reflexivity.
  - vm_compute. reflexivity.
  - vm_compute. repeat constructor.
Defined.

(** The default recover threshold is 75% of the enter threshold as long as the
    uint32 product does not wrap; above a third of the range it wraps. *)
Theorem recover_default_75_percent (o : LagBackpressureOptions)
    (He : 0 < o_EnterLagLedgers o <= 1431655765) (Hr : o_RecoverLagLedgers o = 0) :
  o_RecoverLagLedgers (applyDefaults o) = o_EnterLagLedgers o * 3 / 4 /\
  o_RecoverLagLedgers (applyDefaults (mkLagOptions true 1431655766 0 0 0 false)) = 0.
Proof.
  split; [|vm_compute; reflexivity]. cbn. rewrite Hr.
  destruct (Z.ltb_spec 0 (o_EnterLagLedgers o)); [|lia]. cbn [andb Z.eqb].
  rewrite u32_id by (unfold in_u32, maxUint32; lia).
  destruct (Z.ltb_spec (o_EnterLagLedgers o) (o_EnterLagLedgers o * 3 / 4)); [|done].
  pose proof (Z.div_le_upper_bound (o_EnterLagLedgers o * 3) 4 (o_EnterLagLedgers o)). lia.
Qed.
