(* ===== verification/ReorgTracker.v ===== *)
(** * Reorg tracker (internal/ingester/reorg.go)

    The sliding window of ledger fingerprints: tip regressions, divergence of
    a re-ingested ledger, and the depth of a reorganisation. Metrics are not
    modelled, apart from the utilisation ratio that is also a result. *)

From S2P Require Import Prelude GoStrings GoSort GoFloat Codec StoreTypes.
From stdpp Require Import sorting.
From Stdlib Require Import Ascii String.
Local Open Scope Z_scope.
Local Open Scope go_scope.
Local Notation length := List.length.

Definition DefaultReorgConfirmationWindow : Z := 64.

Record ReorgTracker : Type := mkTracker {
  window : Z;
  highestLedger : Z;
  hashes : gmap Z string }.

Definition NewReorgTracker (w : Z) : ReorgTracker :=
  {| window := w; highestLedger := 0; hashes := ∅ |}.

(** The methods accept a nil receiver. *)
Definition Window (rt : option ReorgTracker) : Z :=
  match rt with None => 0 | Some rt => window rt end.

Definition HighestLedger (rt : option ReorgTracker) : Z :=
  match rt with None => 0 | Some rt => highestLedger rt end.

Definition CheckTipRegression (latestLedger : Z) (rt : option ReorgTracker) : bool * Z * Z :=
  match rt with
  | None => (false, 0, 0)
  | Some rt =>
      if latestLedger =? 0 then (false, 0, 0)
      else if latestLedger <? highestLedger rt
           then (true, u32 (latestLedger + 1), highestLedger rt)
           else (false, 0, 0)
  end.

Definition pruneLocked (rt : ReorgTracker) : ReorgTracker :=
  if ((window rt =? 0) || (highestLedger rt <=? window rt))%bool then rt
  else
    let minKeep := highestLedger rt - window rt in
    {| window := window rt; highestLedger := highestLedger rt;
       hashes := filter (fun kv => minKeep <= kv.1) (hashes rt) |}.

Definition RecordLedgerHash (ledger : Z) (hash : string) (rt : option ReorgTracker)
    : (bool * string) * option ReorgTracker :=
  match rt with
  | None => ((false, ""), None)
  | Some t =>
      if ((ledger =? 0) || bool_decide (hash = ""))%bool then ((false, ""), rt)
      else
        let answer :=
          match hashes t !! ledger with
          | Some prev => if bool_decide (prev = hash) then (false, "") else (true, prev)
          | None => (false, "")
          end in
        let t := {| window := window t;
                    highestLedger := if highestLedger t <? ledger then ledger else highestLedger t;
                    hashes := <[ledger := hash]> (hashes t) |} in
        (answer, Some (pruneLocked t))
  end.

Definition LookupLedgerHash (ledger : Z) (rt : option ReorgTracker) : option string :=
  match rt with None => None | Some rt => hashes rt !! ledger end.

Definition ResetAbove (maxLedger : Z) (rt : option ReorgTracker) : option ReorgTracker :=
  match rt with
  | None => None
  | Some rt =>
      Some {| window := window rt;
              highestLedger := if maxLedger <? highestLedger rt then maxLedger else highestLedger rt;
              hashes := filter (fun kv => kv.1 <= maxLedger) (hashes rt) |}
  end.

(** The depth grown to reach [front] when it lies beyond the range. *)
Definition deepen (front fromLedger toLedger depth : Z) : Z :=
  if ((u32 (toLedger + 1) <? front) && (fromLedger <? front))%bool
  then let d := u32 (front - fromLedger) in if depth <? d then d else depth
  else depth.

Definition EvaluateDepth (fromLedger toLedger frontierLedger : Z) (rt : option ReorgTracker)
    : Z * float64 * bool :=
  let depth := if fromLedger <=? toLedger then u32 (toLedger - fromLedger + 1) else 1 in
  let depth := deepen frontierLedger fromLedger toLedger depth in
  let depth := match rt with
               | Some rt => deepen (highestLedger rt) fromLedger toLedger depth
               | None => depth
               end in
  let w := Window rt in
  if 0 <? w then (depth, f64_div (f64_of_Z depth) (f64_of_Z w), w <? depth)
  else (depth, f64_0, false).

(** ** Fingerprints *)

Definition hex_digit (d : Z) : ascii := byte_of (if d <? 10 then 48 + d else 87 + d).

(** hex.EncodeToString *)
Definition hex_encode (l : list Z) : string :=
  fold_right (fun b s => String (hex_digit (b / 16)) (String (hex_digit (b mod 16)) s)) "" l.

Definition format_bool (b : bool) : string := if b then "true" else "false".

Definition fingerprint_event (ev : Event) : string :=
  "id:" +++ ID ev +++ "|c:" +++ ContractID ev +++ "|tx:" +++ TxHash ev +++
  "|txi:" +++ FormatInt (TxIndex ev) +++ "|opi:" +++ FormatInt (OpIndex ev) +++
  "|t:" +++ Type_ ev +++ "|ok:" +++ format_bool (InSuccessfulCall ev) +++
  "|top:" +++ Topics ev +++ "|val:" +++ Value ev +++ ";".

Definition fingerprint_preimage (ledger : Z) (events : list Event) : string :=
  let matching := filter (fun ev => u32 (Ledger ev) = ledger) events in
  let matching := sort_by ID matching in
  "ledger:" +++ FormatInt ledger +++ ";count:" +++ FormatInt (Z.of_nat (length matching)) +++ ";" +++
  fold_right (fun ev s => fingerprint_event ev +++ s) "" matching.

Definition ComputeLedgerFingerprint (ledger : Z) (events : list Event) : string :=
  hex_encode (sha256 (str_bytes (fingerprint_preimage ledger events))).

(** ** Properties of the tracker *)

Inductive tracker_op : Type :=
  | OpRecord (ledger : Z) (hash : string)
  | OpResetAbove (maxLedger : Z).

Definition tracker_step (rt : option ReorgTracker) (op : tracker_op) : option ReorgTracker :=
  match op with
  | OpRecord l h => (RecordLedgerHash l h rt).2
  | OpResetAbove m => ResetAbove m rt
  end.

Definition tracker_run (ops : list tracker_op) (rt : option ReorgTracker) : option ReorgTracker :=
  fold_left tracker_step ops rt.

(** Arguments are uint32. *)
Definition op_in_range (op : tracker_op) : Prop :=
  match op with OpRecord l _ => in_u32 l | OpResetAbove m => in_u32 m end.

(** Every retained ledger is a real ledger of the window ending at the highest
    one, with a non-empty fingerprint. *)
Definition tracker_inv (w : Z) (rt : ReorgTracker) : Prop :=
  window rt = w /\ in_u32 (highestLedger rt) /\
  forall l h, hashes rt !! l = Some h ->
    0 < l <= highestLedger rt /\ h <> "" /\ (0 < w -> highestLedger rt - w <= l).

Lemma pruneLocked_inv w rt : 0 <= w ->
  window rt = w -> in_u32 (highestLedger rt) ->
  (forall l h, hashes rt !! l = Some h -> 0 < l <= highestLedger rt /\ h <> "") ->
  tracker_inv w (pruneLocked rt).
Proof.
  intros Hw Hw' Hh Hall. unfold pruneLocked. subst w.
  destruct (_ || _)%bool eqn:E.
  - split; [done|]. split; [done|]. intros l h Hl. destruct (Hall l h Hl) as [H1 H2].
    split; [done|]. split; [done|]. intros Hpos.
    apply orb_true_iff in E as [E | E]; to_prop; lia.
  - split; [done|]. split; [done|]. cbn. intros l h Hl.
    apply map_lookup_filter_Some in Hl as [Hl Hk]. cbn in Hk.
    destruct (Hall l h Hl) as [H1 H2]. done.
Qed.

Lemma record_inv w l h rt : 0 <= w -> in_u32 l -> tracker_inv w rt ->
  exists rt', (RecordLedgerHash l h (Some rt)).2 = Some rt' /\ tracker_inv w rt'.
Proof.
  intros Hw Hl (H1 & H2 & H3). unfold RecordLedgerHash.
  destruct (_ || _)%bool eqn:E; [by exists rt|]. apply orb_false_iff in E as [E1 E2]. to_prop.
  eexists; split; [done|]. apply pruneLocked_inv; cbn; [done|done| |].
  - split_if; done.
  - unfold in_u32 in *. intros k v Hk.
    apply lookup_insert_Some in Hk as [[-> <-] | [_ Hk]].
    + split; [split_if; to_prop; lia|done].
    + destruct (H3 k v Hk) as (? & ? & _). split; [split_if; to_prop; lia|done].
Qed.

Lemma reset_inv w m rt : in_u32 m -> tracker_inv w rt ->
  exists rt', ResetAbove m (Some rt) = Some rt' /\ tracker_inv w rt'.
Proof.
  intros Hm (H1 & H2 & H3). eexists; split; [done|]. split; [done|]. cbn.
  split; [split_if; done|]. intros l h Hl.
  apply map_lookup_filter_Some in Hl as [Hl Hk]. cbn in Hk.
  destruct (H3 l h Hl) as (? & ? & Hlow).
  split; [split_if; to_prop; lia|]. split; [done|]. intros Hpos. specialize (Hlow Hpos).
  split_if; to_prop; lia.
Qed.

Lemma tracker_run_inv w ops : 0 <= w -> Forall op_in_range ops -> forall rt, tracker_inv w rt ->
  exists rt', tracker_run ops (Some rt) = Some rt' /\ tracker_inv w rt'.
Proof.
  intros Hw. induction ops as [|op ops IH]; intros Hops rt Hrt; [by exists rt|].
  apply Forall_cons_iff in Hops as [Hop Hops]. cbn.
  assert (exists rt', tracker_step (Some rt) op = Some rt' /\ tracker_inv w rt') as (rt1 & -> & H1).
  { destruct op; [by apply record_inv|by apply reset_inv]. }
  by apply IH.
Qed.

Lemma tracker_size w rt : 0 < w -> tracker_inv w rt -> Z.of_nat (size (hashes rt)) <= w + 1.
Proof.
  intros Hw (_ & _ & H).
  assert (Hsub : dom (hashes rt) ⊆ list_to_set (C := gset Z) (seqZ (highestLedger rt - w) (w + 1))).
  { intros l Hl. apply elem_of_dom in Hl as [h Hl]. apply elem_of_list_to_set, elem_of_seqZ.
    destruct (H l h Hl) as (? & _ & ?). lia. }
  apply subseteq_size in Hsub. rewrite size_dom in Hsub.
  rewrite size_list_to_set in Hsub by apply NoDup_seqZ. rewrite length_seqZ in Hsub. lia.
Qed.

(** the tracker's memory is bounded. After any sequence of recordings and
    rollbacks it holds fingerprints only for ledgers in
    [highest - window, highest], none of them empty, hence at most window + 1
    entries, and after a rollback to [m] it reports no regression at [m]. *)
Theorem tracker_window_bounded (w : Z) (ops : list tracker_op)
    (Hw : 0 < w <= maxUint32) (Hops : Forall op_in_range ops) :
  exists rt, tracker_run ops (Some (NewReorgTracker w)) = Some rt /\ tracker_inv w rt /\
    Z.of_nat (size (hashes rt)) <= w + 1 /\
    forall m, (CheckTipRegression m (ResetAbove m (Some rt))).1.1 = false.
Proof.
  destruct (tracker_run_inv w ops ltac:(lia) Hops (NewReorgTracker w)) as (rt & Hr & Hi).
  { split; [done|]. split; [unfold in_u32, maxUint32; cbn; lia|]. cbn. intros l h Hl. by rewrite lookup_empty in Hl. }
  exists rt. split; [done|]. split; [done|]. split; [apply (tracker_size w); [lia|done]|].
  intros m. cbn [ResetAbove CheckTipRegression highestLedger]. destruct (m =? 0); [done|].
  destruct (m <? highestLedger rt) eqn:E; [by rewrite Z.ltb_irrefl|by rewrite E].
Qed.

Lemma tracker_window_bounded_witness :
  exists rt, tracker_run [OpRecord 5 "a"; OpRecord 9 "b"; OpRecord 7 "c"; OpResetAbove 8]
    (Some (NewReorgTracker 2)) = Some rt /\ Z.of_nat (size (hashes rt)) <= 3.
Proof.
  destruct (tracker_window_bounded 2 [OpRecord 5 "a"; OpRecord 9 "b"; OpRecord 7 "c"; OpResetAbove 8])
    as (rt & H1 & _ & H2 & _).
  - unfold maxUint32. lia.
  - repeat (apply Forall_cons_2; [vm_compute; split; congruence|]). apply Forall_nil_2.
  - exists rt. by split.
Defined.

(** A disabled window never prunes: every recorded ledger is kept for ever. *)
Theorem disabled_window_keeps_everything (l h : _) (rt : ReorgTracker) (Hw : window rt = 0) :
  forall k v, hashes rt !! k = Some v ->
  exists rt', (RecordLedgerHash l h (Some rt)).2 = Some rt' /\ is_Some (hashes rt' !! k).
Proof.
  intros k v Hk. unfold RecordLedgerHash. destruct (_ || _)%bool; [by exists rt|].
  eexists; split; [done|]. unfold pruneLocked. cbn. rewrite Hw. cbn.
  destruct (decide (k = l)) as [-> | Hne]; [by rewrite lookup_insert_eq|].
  rewrite lookup_insert_ne by done. by exists v.
Qed.

(** A re-ingested ledger is reported as diverged exactly when a different
    fingerprint of it is still retained, and the answer carries that previous
    fingerprint; afterwards the tracker holds the new one if the ledger is
    within the window. *)
Theorem record_detects_divergence (w l : Z) (h : string) (rt : ReorgTracker)
    (Hi : tracker_inv w rt) (Hl : 0 < l) (Hh : h <> "") :
  let '((mismatch, prev), rt') := RecordLedgerHash l h (Some rt) in
  (mismatch = true <-> exists p, LookupLedgerHash l (Some rt) = Some p /\ p <> h /\ prev = p) /\
  (0 <= w -> highestLedger rt - w <= l -> LookupLedgerHash l rt' = Some h).
Proof.
  destruct Hi as (Hw & Hu & Hall). unfold RecordLedgerHash.
  destruct (Z.eqb_spec l 0); [lia|]. rewrite bool_decide_false by done. cbn [orb].
  match goal with |- match ?a with _ => _ end => destruct a as [mm prev] eqn:Ea end. split.
  - unfold LookupLedgerHash. destruct (hashes rt !! l) as [p|] eqn:Ep.
    + case_bool_decide; simplify_eq.
      * split; [done|]. intros (q & [= <-] & Hq & _). done.
      * split; [|done]. intros _. eauto.
    + simplify_eq. split; [done|]. intros (q & [=] & _).
  - intros Hw0 Hr. unfold pruneLocked. cbn.
    destruct (_ || _)%bool; cbn; [by rewrite lookup_insert_eq|].
    apply map_lookup_filter_Some. split; [by rewrite lookup_insert_eq|]. cbn.
    split_if; to_prop; lia.
Qed.

Lemma record_detects_divergence_witness :
  let rt := mkTracker 64 10 (<[9 := "old"]> ∅) in
  (RecordLedgerHash 9 "new" (Some rt)).1 = (true, "old") /\
  exists p, LookupLedgerHash 9 (Some rt) = Some p /\ p <> "new".
Proof.
  cbv zeta. set (rt := mkTracker 64 10 (<[9 := "old"]> ∅)).
  assert (E1 : (RecordLedgerHash 9 "new" (Some rt)).1 = (true, "old")) by (vm_compute; reflexivity).
  split; [exact E1|].
  assert (Hi : tracker_inv 64 rt).
  { split; [done|]. split; [unfold in_u32, maxUint32; cbn; lia|]. cbn. intros l h Hl.
    apply lookup_insert_Some in Hl as [[<- <-] | [_ Hl]]; [split; [lia|]; split; [discriminate|lia]|].
    by rewrite lookup_empty in Hl. }
  pose proof (record_detects_divergence 64 9 "new" rt Hi ltac:(lia) ltac:(discriminate)) as H.
  destruct (RecordLedgerHash 9 "new" (Some rt)) as [[m q] rt']. cbn in E1. simplify_eq.
  destruct H as [[H _] _]. destruct (H eq_refl) as (p & H1 & H2 & _). by exists p.
Defined.

(** the depth of a reorganisation [from, to] covers the whole range and
    everything already ingested above it, without uint32 wrap-around, and the
    window is exceeded exactly when that depth is larger than it. *)
Theorem reorg_depth_exact (from to frontier : Z) (rt : ReorgTracker)
    (Hr : 0 < from <= to) (Ht : to < maxUint32) (Hf : in_u32 frontier)
    (Hh : in_u32 (highestLedger rt)) (Hw : 0 < window rt) :
  let '(depth, _, exceeded) := EvaluateDepth from to frontier (Some rt) in
  depth = Z.max (to - from + 1)
            (Z.max (if to + 1 <? frontier then frontier - from else 0)
                   (if to + 1 <? highestLedger rt then highestLedger rt - from else 0)) /\
  exceeded = (window rt <? depth).
Proof.
  unfold in_u32, maxUint32 in *. unfold EvaluateDepth, deepen. cbn [Window].
  destruct (Z.ltb_spec 0 (window rt)); [|lia].
  rewrite (u32_id (to + 1)) by (unfold in_u32, maxUint32; lia).
  rewrite (u32_id (to - from + 1)) by (unfold in_u32, maxUint32; lia).
  destruct (Z.leb_spec from to); [|lia].
  assert (Hu : forall x, from < x -> 0 <= x <= 4294967295 -> u32 (x - from) = x - from)
    by (intros; apply u32_id; unfold in_u32, maxUint32; lia).
  split; [|done].
  destruct (Z.ltb_spec (to + 1) frontier); destruct (Z.ltb_spec from frontier); try lia;
  destruct (Z.ltb_spec (to + 1) (highestLedger rt)); destruct (Z.ltb_spec from (highestLedger rt));
    try lia; cbn [andb]; rewrite ?Hu by lia; repeat split_if; to_prop; lia.
Qed.

Lemma reorg_depth_exact_witness :
  (EvaluateDepth 100 110 105 (Some (mkTracker 64 180 ∅))).1.1 = 80 /\
  (EvaluateDepth 100 110 105 (Some (mkTracker 64 180 ∅))).2 = true.
Proof.
  pose proof (reorg_depth_exact 100 110 105 (mkTracker 64 180 ∅)) as H.
  destruct (EvaluateDepth 100 110 105 (Some (mkTracker 64 180 ∅))) as [[d u] e].
  destruct H as [-> ->]; unfold in_u32, maxUint32; cbn; try lia. by split.
Defined.

(** The fingerprint of a ledger depends only on the set of its events:
    events of other ledgers and the order in which pages or filter batches
    delivered them do not matter. *)
Theorem fingerprint_order_independent (ledger : Z) (evs evs' : list Event)
    (Hnd : NoDup (ID <$> filter (fun ev => u32 (Ledger ev) = ledger) evs))
    (Hp : filter (fun ev => u32 (Ledger ev) = ledger) evs
          ≡ₚ filter (fun ev => u32 (Ledger ev) = ledger) evs') :
  ComputeLedgerFingerprint ledger evs = ComputeLedgerFingerprint ledger evs'.
Proof.
  unfold ComputeLedgerFingerprint, fingerprint_preimage.
  by rewrite (sort_by_unique ID _ _ Hnd Hp).
Qed.

Definition demo_event (id : string) (ledger : Z) : Event :=
  mkEvent id "C" ledger "contract" "tx" 1 0 true "[]" "null" 0 "" [] "".

Lemma fingerprint_order_independent_witness :
  ComputeLedgerFingerprint 7 [demo_event "b" 7; demo_event "x" 8; demo_event "a" 7]
  = ComputeLedgerFingerprint 7 [demo_event "a" 7; demo_event "b" 7].
Proof.
  apply (fingerprint_order_independent 7 [demo_event "b" 7; demo_event "x" 8; demo_event "a" 7]).
  - apply (bool_decide_unpack _). vm_compute. exact I.
  - change (filter (fun ev => u32 (Ledger ev) = 7) [demo_event "b" 7; demo_event "x" 8; demo_event "a" 7])
      with [demo_event "b" 7; demo_event "a" 7].
    change (filter (fun ev => u32 (Ledger ev) = 7) [demo_event "a" 7; demo_event "b" 7])
      with [demo_event "a" 7; demo_event "b" 7].
    apply Permutation_swap.
Defined.
