(* ===== verification/SqliteStore.v ===== *)
(** * The SQLite store (internal/store/sqlite.go)

    The tables the ingestion pipeline writes, and the statements sqlite.go runs
    on them: each definition is the meaning of the SQL text of the method it is
    named after, in a successful execution. Statement failures (a full disk, a
    lock timeout) are added at the interface, where a failed transaction leaves
    the tables as they were. updated_at columns are not modelled; the columns
    topics_xdr and value_xdr are NULL exactly when the Go value is empty
    (nullableXDRTopics, nullableText). No SQLite migration creates event_addresses
    and dead_letters; they are here as the Postgres schema declares them. *)

From S2P Require Import Prelude GoStrings GoSort StoreErrors StoreTypes.
From Stdlib Require Import Ascii String.
Local Open Scope Z_scope.
Local Notation length := List.length.

Record DeadLetter : Type := mkDeadLetterRow {
  dr_EventID : string;
  dr_ContractID : string;
  dr_Ledger : Z;
  dr_Type : string;
  dr_TxHash : string;
  dr_TopicXDR : list string;
  dr_ValueXDR : string;
  dr_Error : string;
  dr_Attempts : Z }.

(** Primary keys: events (network, id); event_addresses (address, event_id,
    role); dead_letters event_id; watched_contracts (network, contract_id). *)
Record DB : Type := mkDB {
  t_events : gmap (string * string) Event;
  t_addresses : gset (string * string * string);
  t_dead : gmap string DeadLetter;
  t_cursors : gmap string ContractCursor;
  t_state : gmap string IngestionState;
  t_audit : gmap string Z;
  t_watched : gset (string * string) }.

Definition db_empty : DB := mkDB ∅ ∅ ∅ ∅ ∅ ∅ ∅.

Definition with_events (m : gmap (string * string) Event) (d : DB) : DB :=
  mkDB m (t_addresses d) (t_dead d) (t_cursors d) (t_state d) (t_audit d) (t_watched d).
Definition with_addresses (x : gset (string * string * string)) (d : DB) : DB :=
  mkDB (t_events d) x (t_dead d) (t_cursors d) (t_state d) (t_audit d) (t_watched d).
Definition with_dead (m : gmap string DeadLetter) (d : DB) : DB :=
  mkDB (t_events d) (t_addresses d) m (t_cursors d) (t_state d) (t_audit d) (t_watched d).
Definition with_cursors (m : gmap string ContractCursor) (d : DB) : DB :=
  mkDB (t_events d) (t_addresses d) (t_dead d) m (t_state d) (t_audit d) (t_watched d).
Definition with_state (m : gmap string IngestionState) (d : DB) : DB :=
  mkDB (t_events d) (t_addresses d) (t_dead d) (t_cursors d) m (t_audit d) (t_watched d).
Definition with_audit (m : gmap string Z) (d : DB) : DB :=
  mkDB (t_events d) (t_addresses d) (t_dead d) (t_cursors d) (t_state d) m (t_watched d).
Definition with_watched (x : gset (string * string)) (d : DB) : DB :=
  mkDB (t_events d) (t_addresses d) (t_dead d) (t_cursors d) (t_state d) (t_audit d) x.

Definition set_network (n : string) (e : Event) : Event :=
  mkEvent (ID e) (ContractID e) (Ledger e) (Type_ e) (TxHash e) (TxIndex e) (OpIndex e)
    (InSuccessfulCall e) (Topics e) (Value e) (CreatedAt e) n (RawTopicXDR e) (RawValueXDR e).

Definition set_xdr (topics : list string) (value : string) (e : Event) : Event :=
  mkEvent (ID e) (ContractID e) (Ledger e) (Type_ e) (TxHash e) (TxIndex e) (OpIndex e)
    (InSuccessfulCall e) (Topics e) (Value e) (CreatedAt e) (Network e) topics value.

(** ** Events *)

(** INSERT ... ON CONFLICT (network, id) DO NOTHING: the rows affected. *)
Definition insert_or_ignore (e : Event) (m : gmap (string * string) Event)
    : Z * gmap (string * string) Event :=
  match m !! (Network e, ID e) with
  | Some _ => (0, m)
  | None => (1, <[(Network e, ID e) := e]> m)
  end.

(** The update branch keeps the stored XDR where the new one is NULL. *)
Definition coalesce_xdr (new old : Event) : Event :=
  set_xdr (if bool_decide (RawTopicXDR new = []) then RawTopicXDR old else RawTopicXDR new)
          (if bool_decide (RawValueXDR new = ""%string) then RawValueXDR old else RawValueXDR new) new.

(** INSERT ... ON CONFLICT (network, id) DO UPDATE. *)
Definition insert_or_update (e : Event) (m : gmap (string * string) Event)
    : Z * gmap (string * string) Event :=
  match m !! (Network e, ID e) with
  | Some old => (1, <[(Network e, ID e) := coalesce_xdr e old]> m)
  | None => (1, <[(Network e, ID e) := e]> m)
  end.

(** One prepared statement executed for each event; the rows affected add up. *)
Definition exec_events (ins : Event -> gmap (string * string) Event -> Z * gmap (string * string) Event)
    (events : list Event) (m : gmap (string * string) Event) : Z * gmap (string * string) Event :=
  fold_left (fun acc e => let '(n, m') := ins e acc.2 in (acc.1 + n, m')) events (0, m).

Definition upsertEvents (events : list Event) (onUpdate : bool) (d : DB) : Z * DB :=
  let '(n, m) := exec_events (if onUpdate then insert_or_update else insert_or_ignore) events (t_events d) in
  (n, with_events m d).

Definition UpsertEvents (events : list Event) (d : DB) : Z * DB :=
  if bool_decide (events = []) then (0, d) else upsertEvents events false d.

(** Unlike UpsertEvents, the transactional variant stores the default network
    for an empty one. *)
Definition upsertEventsTx (events : list Event) (onUpdate : bool) (d : DB) : Z * DB :=
  upsertEvents ((fun e => set_network (defaultNetwork (Network e)) e) <$> events) onUpdate d.

Definition UpsertAddressRefs (refs : list AddressRef) (d : DB) : DB :=
  with_addresses
    (list_to_set ((fun r => (ar_Address r, ar_EventID r, ar_Role r)) <$> refs) ∪ t_addresses d) d.

Record rawXDR : Type := mkRawXDR { rx_topics : list string; rx_value : string }.

Definition has_xdr (e : Event) : bool :=
  negb (bool_decide (RawTopicXDR e = []) && bool_decide (RawValueXDR e = ""%string)).

Definition in_ledgers (from to : Z) (e : Event) : bool := (from <=? Ledger e) && (Ledger e <=? to).

(** The raw XDR of the range by event id; the row scanned last wins when two
    networks hold the same id. *)
Definition rawXDRInRangeSQLite (from to : Z) (d : DB) : gmap string rawXDR :=
  fold_left (fun kept kv =>
      if in_ledgers from to kv.2 && has_xdr kv.2
      then <[ID kv.2 := mkRawXDR (RawTopicXDR kv.2) (RawValueXDR kv.2)]> kept else kept)
    (map_to_list (t_events d)) ∅.

Definition restoreRawXDR (events : list Event) (kept : gmap string rawXDR) : list Event :=
  if (size kept =? 0)%nat then events
  else (fun e =>
      match kept !! ID e with
      | None => e
      | Some prev =>
          set_xdr (if bool_decide (RawTopicXDR e = []) then rx_topics prev else RawTopicXDR e)
                  (if bool_decide (RawValueXDR e = ""%string) then rx_value prev else RawValueXDR e) e
      end) <$> events.

(** DELETE FROM events WHERE ... *)
Definition delete_events (p : Event -> bool) (d : DB) : DB :=
  with_events (filter (fun kv => p kv.2 = false) (t_events d)) d.

Definition ReplaceEventsInRange (events : list Event) (from to : Z) (d : DB) : DB :=
  let kept := rawXDRInRangeSQLite from to d in
  let d := delete_events (in_ledgers from to) d in
  if bool_decide (events = []) then d
  else (upsertEventsTx (restoreRawXDR events kept) true d).2.

Definition DeleteEventsBeforeLedger (before : Z) (d : DB) : Z * DB :=
  let p e := Ledger e <? before in
  (Z.of_nat (size (filter (fun kv => p kv.2 = true) (t_events d))), delete_events p d).

(** ** Dead letters *)

Definition DeadLetterEvent (input : DeadLetterInput) (errStr : string) (d : DB) : DeadLetter * DB :=
  let row :=
    match t_dead d !! dl_EventID input with
    | Some old =>
        {| dr_EventID := dr_EventID old; dr_ContractID := dr_ContractID old;
           dr_Ledger := dr_Ledger old; dr_Type := dr_Type old; dr_TxHash := dr_TxHash old;
           dr_TopicXDR := dl_TopicXDR input; dr_ValueXDR := dl_ValueXDR input;
           dr_Error := errStr; dr_Attempts := dr_Attempts old + 1 |}
    | None =>
        {| dr_EventID := dl_EventID input; dr_ContractID := dl_ContractID input;
           dr_Ledger := dl_Ledger input; dr_Type := dl_Type input; dr_TxHash := dl_TxHash input;
           dr_TopicXDR := dl_TopicXDR input; dr_ValueXDR := dl_ValueXDR input;
           dr_Error := errStr; dr_Attempts := 1 |}
    end in
  (row, with_dead (<[dl_EventID input := row]> (t_dead d)) d).

(** ** Ingestion state, per-contract cursors, audit state, watch list *)

Definition GetIngestionStateForNetwork (network : string) (d : DB) : result error IngestionState :=
  match t_state d !! defaultNetwork network with
  | Some st => Ok st
  | None => Err (Sentinel ErrNotFound)
  end.

Definition GetIngestionState (d : DB) : result error IngestionState :=
  GetIngestionStateForNetwork "default" d.

Definition SaveIngestionState (st : IngestionState) (d : DB) : DB :=
  let n := defaultNetwork (is_Network st) in
  with_state (<[n := mkIngestionState n (LastIngestedLedger st) (LastCursor st) (LastSuccessfulPoll st)]>
                (t_state d)) d.

Definition GetContractCursor (contractID : string) (d : DB) : result error ContractCursor :=
  match t_cursors d !! contractID with
  | Some c => Ok c
  | None => Err (Sentinel ErrNotFound)
  end.

Definition SaveContractCursor (c : ContractCursor) (d : DB) : DB :=
  with_cursors (<[cc_ContractID c := c]> (t_cursors d)) d.

Definition DeleteContractCursor (contractID : string) (d : DB) : result error unit * DB :=
  match t_cursors d !! contractID with
  | Some _ => (Ok tt, with_cursors (delete contractID (t_cursors d)) d)
  | None => (Err (Sentinel ErrNotFound), d)
  end.

Definition ListContractCursors (d : DB) : list ContractCursor :=
  sort_by cc_ContractID ((map_to_list (t_cursors d)).*2).

Definition GetAuditState (network : string) (d : DB) : result error (string * Z) :=
  match t_audit d !! defaultNetwork network with
  | Some v => Ok (defaultNetwork network, v)
  | None => Err (Sentinel ErrNotFound)
  end.

Definition SaveAuditState (network : string) (verified : Z) (d : DB) : DB :=
  with_audit (<[defaultNetwork network := verified]> (t_audit d)) d.

(** The plain INSERT fails on the primary key when the row exists; then the
    UPDATE applies only to a smaller stored value. *)
Definition SaveAuditStateIfGreater (network : string) (ledger : Z) (d : DB)
    : result error (string * Z) * DB :=
  let n := defaultNetwork network in
  match t_audit d !! n with
  | None => (Ok (n, ledger), with_audit (<[n := ledger]> (t_audit d)) d)
  | Some v =>
      let d := if v <? ledger then with_audit (<[n := ledger]> (t_audit d)) d else d in
      (GetAuditState n d, d)
  end.

(** ORDER BY network, contract_id is the order of the primary key. *)
Definition ListWatchedContracts (d : DB) : list WatchedContract :=
  let rows := elements (t_watched d) in
  let networks := sort_Strings (remove_dups rows.*1) in
  networks ≫= (fun n =>
    (fun cid => mkWatched cid n) <$>
      sort_Strings (snd <$> filter (fun r => r.1 = n) rows)).

Definition AddWatchedContract (w : WatchedContract) (d : DB) : DB :=
  with_watched ({[ (defaultNetwork (wc_Network w), wc_ContractID w) ]} ∪ t_watched d) d.

Definition RemoveWatchedContract (w : WatchedContract) (d : DB) : result error unit * DB :=
  let key := (defaultNetwork (wc_Network w), wc_ContractID w) in
  if bool_decide (key ∈ t_watched d) then (Ok tt, with_watched (t_watched d ∖ {[ key ]}) d)
  else (Err (Sentinel ErrNotFound), d).

(** ** Properties of the event statements *)

Definition event_key (e : Event) : string * string := (Network e, ID e).

(** Every stored row sits under its own key. *)
Definition keys_ok (m : gmap (string * string) Event) : Prop :=
  forall k e, m !! k = Some e -> event_key e = k.

(** The insertions of a list, as a function of the table. *)
Fixpoint ignore_all (events : list Event) (m : gmap (string * string) Event) : gmap (string * string) Event :=
  match events with
  | [] => m
  | e :: es => ignore_all es (insert_or_ignore e m).2
  end.

Lemma exec_events_snd (ins : Event -> gmap (string * string) Event -> Z * gmap (string * string) Event) events :
  forall n m,
  (fold_left (fun acc e => let '(k, m') := ins e acc.2 in (acc.1 + k, m')) events (n, m)).2
  = fold_left (fun m e => (ins e m).2) events m.
Proof.
  induction events as [|e es IH]; intros n m; cbn; [done|].
  destruct (ins e m) as [k m']. apply IH.
Qed.

Lemma exec_ignore events m : (exec_events insert_or_ignore events m).2 = ignore_all events m.
Proof.
  unfold exec_events. rewrite exec_events_snd. revert m.
  induction events as [|e es IH]; intros m; cbn; [done|]. apply IH.
Qed.

Lemma insert_or_ignore_spec e m :
  (insert_or_ignore e m).2 = match m !! event_key e with Some _ => m | None => <[event_key e := e]> m end.
Proof. unfold insert_or_ignore, event_key. by destruct (m !! _). Qed.

Lemma insert_or_ignore_mono e m k x : m !! k = Some x -> (insert_or_ignore e m).2 !! k = Some x.
Proof.
  intros H. rewrite insert_or_ignore_spec. destruct (m !! event_key e) eqn:E; [done|].
  rewrite lookup_insert_ne; [done|]. intros Hk. rewrite Hk in E. congruence.
Qed.

Lemma ignore_all_mono events : forall m k x, m !! k = Some x -> ignore_all events m !! k = Some x.
Proof.
  induction events as [|e es IH]; intros m k x H; cbn; [done|]. by apply IH, insert_or_ignore_mono.
Qed.

Lemma ignore_all_present events : forall m e, e ∈ events -> is_Some (ignore_all events m !! event_key e).
Proof.
  induction events as [|e es IH]; intros m x Hx; [by apply not_elem_of_nil in Hx|].
  apply elem_of_cons in Hx as [-> | Hx]; cbn; [|by apply IH].
  assert (is_Some ((insert_or_ignore e m).2 !! event_key e)) as [y Hy].
  { rewrite insert_or_ignore_spec. destruct (m !! event_key e) eqn:E; [by rewrite E|].
    by rewrite lookup_insert_eq. }
  exists y. by apply ignore_all_mono.
Qed.

(** A stored row is an old one or one of the inserted events. *)
Lemma ignore_all_origin events : forall m k x, ignore_all events m !! k = Some x ->
  m !! k = Some x \/ (m !! k = None /\ x ∈ events /\ event_key x = k).
Proof.
  induction events as [|e es IH]; intros m k x H; cbn in H; [by left|].
  apply IH in H as [H | (H1 & H2 & H3)].
  - rewrite insert_or_ignore_spec in H. destruct (m !! event_key e) eqn:E; [by left|].
    apply lookup_insert_Some in H as [[<- <-] | [_ H]]; [|by left].
    right. split; [done|]. split; [by left|done].
  - right. split; [|split; [by right|done]]. rewrite insert_or_ignore_spec in H1.
    destruct (m !! event_key e) eqn:E; [done|]. by apply lookup_insert_None in H1 as [? _].
Qed.

Lemma exec_ignore_fixed events : forall n m,
  Forall (fun e => is_Some (m !! event_key e)) events ->
  fold_left (fun acc e => let '(k, m') := insert_or_ignore e acc.2 in (acc.1 + k, m')) events (n, m) = (n, m).
Proof.
  induction events as [|e es IH]; intros n m H; [done|].
  apply Forall_cons_iff in H as [[y Hy] H]. cbn. unfold insert_or_ignore.
  unfold event_key in Hy. rewrite Hy. rewrite Z.add_0_r. by apply IH.
Qed.

Lemma exec_ignore_affected events : forall n m,
  (fold_left (fun acc e => let '(k, m') := insert_or_ignore e acc.2 in (acc.1 + k, m')) events (n, m)).1
  = n + (Z.of_nat (size (ignore_all events m)) - Z.of_nat (size m)).
Proof.
  induction events as [|e es IH]; intros n m; cbn [fold_left ignore_all fst snd]; [lia|].
  destruct (insert_or_ignore e m) as [k m'] eqn:Ei. cbn [snd]. rewrite IH.
  unfold insert_or_ignore in Ei. destruct (m !! (Network e, ID e)) eqn:E; simplify_eq; [lia|].
  rewrite map_size_insert_None by done. lia.
Qed.

(** UpsertEvents is an idempotent insert. Rows already stored are never
    modified, every event of the batch is stored afterwards, nothing else
    appears, the reported count is the number of new rows, and repeating the
    call inserts nothing and leaves the store as it is. *)
Theorem UpsertEvents_idempotent_insert (events : list Event) (d : DB) :
  let '(n, d') := UpsertEvents events d in
  n = Z.of_nat (size (t_events d')) - Z.of_nat (size (t_events d)) /\
  (forall k x, t_events d !! k = Some x -> t_events d' !! k = Some x) /\
  (forall e, e ∈ events -> is_Some (t_events d' !! (Network e, ID e))) /\
  (forall k x, t_events d' !! k = Some x -> t_events d !! k = Some x \/ x ∈ events) /\
  UpsertEvents events d' = (0, d').
Proof.
  unfold UpsertEvents. case_bool_decide as Hnil.
  { subst. split; [lia|]. split; [done|]. split; [by intros e ?%not_elem_of_nil|]. split; [by left|done]. }
  unfold upsertEvents.
  pose proof (exec_ignore events (t_events d)) as H2.
  pose proof (exec_ignore_affected events 0 (t_events d)) as H1.
  fold (exec_events insert_or_ignore events (t_events d)) in H1.
  destruct (exec_events insert_or_ignore events (t_events d)) as [n m] eqn:E.
  cbn [fst snd] in H1, H2. subst m. cbn [t_events with_events].
  split; [lia|]. split; [intros; by apply ignore_all_mono|].
  split; [intros; by apply ignore_all_present|].
  split; [intros k x Hk; apply ignore_all_origin in Hk; naive_solver|].
  unfold exec_events. rewrite exec_ignore_fixed; [by destruct d|].
  apply Forall_forall. intros e He. apply ignore_all_present; first [exact He | by apply list_elem_of_In].
Qed.
