(* ===== verification/StoreReorg.v ===== *)
(** * Reorg reconciliation in the store (internal/store/reorg.go)

    ReconcileReorgRange on the SQLite backend: one transaction that retracts
    the events of the reorganised range and everything derived from them,
    inserts the canonical replacement, and moves frontiers back. The steps of
    ReconcileReorgTx are separate definitions, composed in the order of the
    code. *)

From S2P Require Import Prelude GoStrings GoSort GoJson StoreErrors StoreTypes SqliteStore.
From Stdlib Require Import Ascii String.
Local Open Scope Z_scope.
Local Open Scope go_scope.
Local Notation length := List.length.

Record ReorgReconcileOptions : Type := mkReorgOptions {
  ro_Network : string;
  ro_FromLedger : Z;
  ro_ToLedger : Z;
  ro_CanonicalEvents : list Event;
  ro_CanonicalAddressRefs : list AddressRef;
  ro_NewHeadLedger : Z;
  ro_RewindCursorsToFromLedger : bool }.

Record ReorgReconcileResult : Type := mkReorgResult {
  rr_FromLedger : Z;
  rr_ToLedger : Z;
  rr_PreviousEventIDs : list string;
  rr_RetractedEventIDs : list string;
  rr_InsertedEventIDs : list string;
  rr_RetractedAddressRefs : Z;
  rr_InsertedAddressRefs : Z;
  rr_RetractedDeadLetters : Z;
  rr_RewoundContractCursors : Z;
  rr_RewoundIngestionLedger : Z;
  rr_RewoundAuditLedger : Z }.

Definition reorg_result_zero : ReorgReconcileResult := mkReorgResult 0 0 [] [] [] 0 0 0 0 0 0.

(** ** Comparing contents *)

Definition canonicalJSONEqual (a b : string) : bool :=
  if bool_decide (a = b) then true
  else match json_Compact a, json_Compact b with
       | Some ca, Some cb => bool_decide (ca = cb)
       | _, _ => bool_decide (TrimSpace a = TrimSpace b)
       end.

Definition sameCanonicalEventContent (a b : Event) : bool :=
  bool_decide (ID a = ID b) && bool_decide (ContractID a = ContractID b) &&
  (Ledger a =? Ledger b) && bool_decide (Type_ a = Type_ b) &&
  bool_decide (TxHash a = TxHash b) && (TxIndex a =? TxIndex b) && (OpIndex a =? OpIndex b) &&
  bool_decide (InSuccessfulCall a = InSuccessfulCall b) &&
  canonicalJSONEqual (Topics a) (Topics b) && canonicalJSONEqual (Value a) (Value b).

(** ** The canonical set *)

(** One iteration of the deduplication loop: out-of-range events and repeated
    ids are skipped, the network is filled in. *)
Definition canonical_step (o : ReorgReconcileOptions)
    (acc : list Event * gmap string Event) (ev : Event) : list Event * gmap string Event :=
  if ((Ledger ev <? ro_FromLedger o) || (ro_ToLedger o <? Ledger ev))%bool then acc
  else
    let ev := if (bool_decide (Network ev = "") && negb (bool_decide (ro_Network o = "")))%bool
              then set_network (ro_Network o) ev else ev in
    match acc.2 !! ID ev with
    | Some _ => acc
    | None => ((acc.1 ++ [ev])%list, <[ID ev := ev]> acc.2)
    end.

Definition canonical_set (o : ReorgReconcileOptions) : list Event * gmap string Event :=
  fold_left (canonical_step o) (ro_CanonicalEvents o) ([], ∅).

Definition dedup_ref_step (allowed : gmap string Event)
    (acc : list AddressRef * gset (string * string * string)) (r : AddressRef)
    : list AddressRef * gset (string * string * string) :=
  match allowed !! ar_EventID r with
  | None => acc
  | Some _ =>
      let k := (ar_Address r, ar_EventID r, ar_Role r) in
      if bool_decide (k ∈ acc.2) then acc else ((acc.1 ++ [r])%list, {[ k ]} ∪ acc.2)
  end.

Definition deduplicateAddressRefs (refs : list AddressRef) (allowed : gmap string Event) : list AddressRef :=
  (fold_left (dedup_ref_step allowed) refs ([], ∅)).1.

(** The snapshot by id: a later row replaces an earlier one. *)
Definition snapshot_by_id (existing : list Event) : gmap string Event :=
  fold_left (fun m ev => <[ID ev := ev]> m) existing ∅.

Definition kept_xdr (existing : list Event) : gmap string rawXDR :=
  fold_left (fun m ev => if has_xdr ev then <[ID ev := mkRawXDR (RawTopicXDR ev) (RawValueXDR ev)]> m else m)
    existing ∅.

(** A canonical event keeps the stored XDR of an unchanged predecessor. *)
Definition merge_xdr (existingByID : gmap string Event) (kept : gmap string rawXDR) (ev : Event) : Event :=
  match kept !! ID ev, existingByID !! ID ev with
  | Some old, Some oldEv =>
      if sameCanonicalEventContent oldEv ev then
        set_xdr (if (bool_decide (RawTopicXDR ev = []) && negb (bool_decide (rx_topics old = [])))%bool
                 then rx_topics old else RawTopicXDR ev)
                (if (bool_decide (RawValueXDR ev = "") && negb (bool_decide (rx_value old = "")))%bool
                 then rx_value old else RawValueXDR ev) ev
      else ev
  | _, _ => ev
  end.

(** The row is gone from the canonical chain, or its content changed. *)
Definition retracted (canonicalByID : gmap string Event) (kv : string * Event) : bool :=
  match canonicalByID !! kv.1 with
  | None => true
  | Some newEv => negb (sameCanonicalEventContent kv.2 newEv)
  end.

Definition reconcileSnapshotWithCanonical (existing canonical : list Event)
    (canonicalByID : gmap string Event) : list string * list string * list Event :=
  let existingByID := snapshot_by_id existing in
  let previousIDs := sort_Strings (ID <$> existing) in
  let retractedIDs :=
    sort_Strings (filter (fun kv => retracted canonicalByID kv = true) (map_to_list existingByID)).*1 in
  (previousIDs, retractedIDs, merge_xdr existingByID (kept_xdr existing) <$> canonical).

(** ** The transaction *)

(** network = ? OR (? = 'default' AND network = '') *)
Definition net_match (network n : string) : bool :=
  bool_decide (n = network) || (bool_decide (network = "default") && bool_decide (n = "")).

Definition in_reorg (o : ReorgReconcileOptions) (network : string) (e : Event) : bool :=
  net_match network (Network e) && in_ledgers (ro_FromLedger o) (ro_ToLedger o) e.

(** Step 0: SELECT ... ORDER BY id ASC. *)
Definition reorg_snapshot (o : ReorgReconcileOptions) (network : string) (d : DB) : list Event :=
  sort_by ID (filter (fun e => in_reorg o network e = true) (map_to_list (t_events d)).*2).

(** Step 1: delete the address rows of the previous events, except of ids that
    still exist on a different network. *)
Definition on_other_network (network id : string) (d : DB) : bool :=
  existsb (fun e => bool_decide (ID e = id) && negb (net_match network (Network e)))
    (map_to_list (t_events d)).*2.

Definition stale_ref (network : string) (previousIDs : list string) (d : DB)
    (r : string * string * string) : bool :=
  bool_decide (r.1.2 ∈ previousIDs) && negb (on_other_network network r.1.2 d).

Definition retract_refs (network : string) (previousIDs : list string) (d : DB) : Z * DB :=
  let gone := filter (fun r => stale_ref network previousIDs d r = true) (t_addresses d) in
  (Z.of_nat (size gone), with_addresses (t_addresses d ∖ gone) d).

(** Step 2: delete the range and upsert the canonical events. *)
Definition replace_range (o : ReorgReconcileOptions) (network : string) (canonical : list Event) (d : DB) : DB :=
  (upsertEvents canonical true (delete_events (in_reorg o network) d)).2.

(** The contract is watched on some other network and not on this one. *)
Definition foreign_only (network cid : string) (d : DB) : bool :=
  existsb (fun w => bool_decide (w.2 = cid) && negb (net_match network w.1)) (elements (t_watched d)) &&
  negb (existsb (fun w => bool_decide (w.2 = cid) && net_match network w.1) (elements (t_watched d))).

(** Step 3: delete the dead letters of the range. *)
Definition orphan_letter (o : ReorgReconcileOptions) (network : string) (d : DB) (l : DeadLetter) : bool :=
  (ro_FromLedger o <=? dr_Ledger l) && (dr_Ledger l <=? ro_ToLedger o) &&
  negb (foreign_only network (dr_ContractID l) d).

Definition retract_dead (o : ReorgReconcileOptions) (network : string) (d : DB) : Z * DB :=
  (Z.of_nat (size (filter (fun kv => orphan_letter o network d kv.2 = true) (t_dead d))),
   with_dead (filter (fun kv => orphan_letter o network d kv.2 = false) (t_dead d)) d).

(** The ledger a frontier at [l] is moved to. *)
Definition rewind_target (o : ReorgReconcileOptions) (l : Z) : Z :=
  if ro_RewindCursorsToFromLedger o then ro_FromLedger o - 1
  else if ((0 <? ro_NewHeadLedger o) && (ro_NewHeadLedger o <? l))%bool then ro_NewHeadLedger o
  else l.

(** Step 5: per-contract cursors at or above the range. *)
Definition rewind_cursor (o : ReorgReconcileOptions) (network : string) (d : DB) (cc : ContractCursor)
    : option ContractCursor :=
  if ((cc_LastIngestedLedger cc <? ro_FromLedger o) || foreign_only network (cc_ContractID cc) d)%bool
  then None
  else
    let target := rewind_target o (cc_LastIngestedLedger cc) in
    if (negb (target =? cc_LastIngestedLedger cc) || negb (bool_decide (cc_LastCursor cc = "")))%bool
    then Some (mkContractCursor (cc_ContractID cc) target "") else None.

Definition rewind_cursors (o : ReorgReconcileOptions) (network : string) (d : DB) : Z * DB :=
  let changed := omap (rewind_cursor o network d) (ListContractCursors d) in
  (Z.of_nat (length changed),
   fold_left (fun d cc => SaveContractCursor cc d) changed d).

(** Step 6: the ingestion frontier of the network. *)
Definition rewind_state (o : ReorgReconcileOptions) (network : string) (d : DB) : Z * DB :=
  match t_state d !! network with
  | None => (0, d)
  | Some st =>
      if LastIngestedLedger st <? ro_FromLedger o then (0, d)
      else
        let target := rewind_target o (LastIngestedLedger st) in
        let clearCursor := negb (bool_decide (LastCursor st = "")) &&
          ((LastIngestedLedger st <=? ro_ToLedger o) || negb (target =? LastIngestedLedger st)) in
        if (negb (target =? LastIngestedLedger st) || clearCursor)%bool then
          (target,
           with_state (<[network := mkIngestionState (is_Network st) target
                           (if clearCursor then "" else LastCursor st) (LastSuccessfulPoll st)]> (t_state d)) d)
        else (0, d)
  end.

(** Step 7: the audit frontier. *)
Definition rewind_audit (o : ReorgReconcileOptions) (network : string) (d : DB) : Z * DB :=
  match t_audit d !! network with
  | None => (0, d)
  | Some v =>
      if v <? ro_FromLedger o then (0, d)
      else let clamped := Z.max (ro_FromLedger o - 1) 0 in
           (clamped, with_audit (<[network := clamped]> (t_audit d)) d)
  end.

Definition ReconcileReorgTx (o : ReorgReconcileOptions) (canonical : list Event)
    (canonicalByID : gmap string Event) (dedupRefs : list AddressRef) (insertedIDs : list string)
    (d : DB) : ReorgReconcileResult * DB :=
  let network := defaultNetwork (ro_Network o) in
  let existing := reorg_snapshot o network d in
  let '(previousIDs, retractedIDs, canonical) := reconcileSnapshotWithCanonical existing canonical canonicalByID in
  let '(nrefs, d) := if (0 <? Z.of_nat (length previousIDs)) then retract_refs network previousIDs d else (0, d) in
  let d := replace_range o network canonical d in
  let '(ndead, d) := retract_dead o network d in
  let d := UpsertAddressRefs dedupRefs d in
  let '(ncur, d) := rewind_cursors o network d in
  let '(ing, d) := rewind_state o network d in
  let '(aud, d) := rewind_audit o network d in
  (mkReorgResult (ro_FromLedger o) (ro_ToLedger o) previousIDs retractedIDs insertedIDs
     nrefs (Z.of_nat (length dedupRefs)) ndead ncur ing aud, d).

Definition ReconcileReorgRange (o : ReorgReconcileOptions) (d : DB)
    : result error ReorgReconcileResult * DB :=
  if ((ro_FromLedger o <=? 0) || (ro_ToLedger o <=? 0) || (ro_ToLedger o <? ro_FromLedger o))%bool then
    (Err (Errorf "invalid reorg ledger range [%d,%d]" []), d)
  else
    let '(canonical, byID) := canonical_set o in
    let insertedIDs := sort_Strings (ID <$> canonical) in
    let dedupRefs := if (0 <? Z.of_nat (length (ro_CanonicalAddressRefs o)))
                     then deduplicateAddressRefs (ro_CanonicalAddressRefs o) byID else [] in
    let '(res, d) := ReconcileReorgTx o canonical byID dedupRefs insertedIDs d in
    (Ok res, d).

(** ** The canonical set is well formed *)

Definition erase_xdr (e : Event) : Event := set_xdr [] "" e.

Record canonical_ok (o : ReorgReconcileOptions) (acc : list Event * gmap string Event) : Prop := {
  co_range : Forall (fun e => in_ledgers (ro_FromLedger o) (ro_ToLedger o) e = true) acc.1;
  co_nodup : NoDup (ID <$> acc.1);
  co_index : forall id, is_Some (acc.2 !! id) <-> id ∈ ID <$> acc.1 }.

Lemma canonical_step_ok o acc ev : canonical_ok o acc -> canonical_ok o (canonical_step o acc ev).
Proof.
  intros [H1 H2 H3]. unfold canonical_step.
  destruct (_ || _)%bool eqn:Er; [by split|]. apply orb_false_iff in Er as [Er1 Er2]. to_prop.
  set (ev' := if (_ && _)%bool then set_network _ ev else ev).
  assert (Hid : ID ev' = ID ev /\ Ledger ev' = Ledger ev) by (subst ev'; by destruct (_ && _)%bool).
  destruct Hid as [Hid Hl]. destruct (acc.2 !! ID ev') eqn:E; [by split|].
  split; cbn.
  - apply Forall_app. split; [done|]. apply Forall_singleton. unfold in_ledgers. rewrite Hl.
    apply andb_true_iff. split; apply Z.leb_le; lia.
  - rewrite fmap_app. apply list.NoDup_app. split; [done|]. split; [|apply NoDup_singleton].
    intros x Hx Hx'. apply list_elem_of_singleton in Hx'. subst x. apply H3 in Hx. rewrite E in Hx. by destruct Hx.
  - intros id. rewrite fmap_app, elem_of_app, <- H3. cbn. rewrite list_elem_of_singleton.
    destruct (decide (ID ev' = id)) as [<- | Hne].
    + rewrite lookup_insert_eq. split; [by right|done].
    + rewrite lookup_insert_ne by done. split; [by left|]. intros [H | H]; [done|]. by subst.
Qed.

Lemma canonical_set_ok o : canonical_ok o (canonical_set o).
Proof.
  unfold canonical_set.
  assert (H : canonical_ok o ([], ∅)).
  { split; cbn; [done|constructor|]. intros id. rewrite lookup_empty. split; [by intros [? [=]]|by intros ?%not_elem_of_nil]. }
  revert H. generalize (@nil Event, (∅ : gmap string Event)).
  induction (ro_CanonicalEvents o) as [|ev evs IH]; intros acc H; cbn; [done|].
  by apply IH, canonical_step_ok.
Qed.

(** Every canonical event comes from the options and belongs to the network
    when the supplied events do. *)
Definition network_ok (o : ReorgReconcileOptions) : Prop :=
  Forall (fun e => Network e = "" \/ Network e = ro_Network o) (ro_CanonicalEvents o).

Lemma canonical_set_network o : network_ok o ->
  Forall (fun e => Network e = ro_Network o) (canonical_set o).1.
Proof.
  unfold network_ok, canonical_set. intros H.
  assert (G : forall l acc, Forall (fun e => Network e = "" \/ Network e = ro_Network o) l ->
    Forall (fun e => Network e = ro_Network o) acc.1 ->
    Forall (fun e => Network e = ro_Network o) (fold_left (canonical_step o) l acc).1).
  { clear H. induction l as [|ev evs IH]; intros acc H Hacc; cbn; [done|].
    apply Forall_cons_iff in H as [Hev Hevs]. apply IH; [done|].
    unfold canonical_step. destruct (_ || _)%bool; [done|].
    set (ev' := if (_ && _)%bool then set_network _ ev else ev).
    destruct (acc.2 !! ID ev'); [done|]. cbn. apply Forall_app. split; [done|]. apply Forall_singleton.
    subst ev'. destruct Hev as [Hev | Hev]; repeat case_bool_decide; cbn; congruence. }
  apply G; [done|constructor].
Qed.

Lemma net_match_default o : net_match (defaultNetwork (ro_Network o)) (ro_Network o) = true.
Proof.
  unfold net_match, defaultNetwork. destruct (decide (ro_Network o = "")) as [-> | Hne]; [done|].
  rewrite (bool_decide_false (ro_Network o = "")) by done.
  by rewrite (bool_decide_true (ro_Network o = ro_Network o)).
Qed.

(** ** The update statement *)

Lemma erase_coalesce e old : erase_xdr (coalesce_xdr e old) = erase_xdr e.
Proof. done. Qed.

Definition update_all (events : list Event) (m : gmap (string * string) Event) : gmap (string * string) Event :=
  fold_left (fun m e => (insert_or_update e m).2) events m.

Lemma update_all_other events : forall m k, (forall e, e ∈ events -> event_key e <> k) ->
  update_all events m !! k = m !! k.
Proof.
  induction events as [|e es IH]; intros m k H; [done|]. cbn.
  rewrite IH by (intros x Hx; apply H; by right).
  assert (Hne : event_key e <> k) by (apply H; by left). unfold event_key in Hne.
  unfold insert_or_update. by destruct (m !! _); cbn; rewrite lookup_insert_ne.
Qed.

Lemma update_all_present events : forall m e, NoDup (event_key <$> events) -> e ∈ events ->
  exists e', update_all events m !! event_key e = Some e' /\ erase_xdr e' = erase_xdr e.
Proof.
  induction events as [|x es IH]; intros m e Hnd He; [by apply not_elem_of_nil in He|].
  apply list.NoDup_cons in Hnd as [Hx Hnd]. apply elem_of_cons in He as [-> | He]; cbn; [|by apply IH].
  change (fold_left (fun m e => (insert_or_update e m).2) es (insert_or_update x m).2)
    with (update_all es (insert_or_update x m).2).
  rewrite update_all_other.
  - unfold insert_or_update, event_key. destruct (m !! _) as [old|]; cbn; rewrite lookup_insert_eq;
      eexists; split; done.
  - intros y Hy Hk. apply Hx. apply list_elem_of_fmap. by exists y.
Qed.

(** ** Which step writes which table *)

Lemma replace_range_events o n canonical d :
  t_events (replace_range o n canonical d)
  = update_all canonical (filter (fun kv => in_reorg o n kv.2 = false) (t_events d)).
Proof.
  unfold replace_range, upsertEvents, delete_events. cbn [t_events with_events].
  pose proof (exec_events_snd insert_or_update canonical 0
    (filter (fun kv => in_reorg o n kv.2 = false) (t_events d))) as H.
  unfold exec_events. destruct (fold_left _ canonical _) as [k m]. cbn in *. by rewrite H.
Qed.

Lemma replace_range_frame o n canonical d :
  t_addresses (replace_range o n canonical d) = t_addresses d /\
  t_dead (replace_range o n canonical d) = t_dead d /\
  t_cursors (replace_range o n canonical d) = t_cursors d /\
  t_state (replace_range o n canonical d) = t_state d /\
  t_audit (replace_range o n canonical d) = t_audit d /\
  t_watched (replace_range o n canonical d) = t_watched d.
Proof.
  unfold replace_range, upsertEvents. by destruct (exec_events _ _ _).
Qed.

Lemma rewind_cursors_frame o n d :
  t_events (rewind_cursors o n d).2 = t_events d /\ t_addresses (rewind_cursors o n d).2 = t_addresses d /\
  t_dead (rewind_cursors o n d).2 = t_dead d /\ t_state (rewind_cursors o n d).2 = t_state d /\
  t_audit (rewind_cursors o n d).2 = t_audit d /\ t_watched (rewind_cursors o n d).2 = t_watched d.
Proof.
  unfold rewind_cursors. cbn [snd]. generalize (omap (rewind_cursor o n d) (ListContractCursors d)).
  intros l. revert d. induction l as [|cc l IH]; intros d; cbn; [done|].
  destruct (IH (SaveContractCursor cc d)) as (-> & -> & -> & -> & -> & ->). done.
Qed.

Lemma rewind_state_frame o n d :
  t_events (rewind_state o n d).2 = t_events d /\ t_addresses (rewind_state o n d).2 = t_addresses d /\
  t_dead (rewind_state o n d).2 = t_dead d /\ t_cursors (rewind_state o n d).2 = t_cursors d /\
  t_audit (rewind_state o n d).2 = t_audit d /\ t_watched (rewind_state o n d).2 = t_watched d.
Proof. unfold rewind_state. repeat case_match; done. Qed.

Lemma rewind_audit_frame o n d :
  t_events (rewind_audit o n d).2 = t_events d /\ t_addresses (rewind_audit o n d).2 = t_addresses d /\
  t_dead (rewind_audit o n d).2 = t_dead d /\ t_cursors (rewind_audit o n d).2 = t_cursors d /\
  t_state (rewind_audit o n d).2 = t_state d /\ t_watched (rewind_audit o n d).2 = t_watched d.
Proof. unfold rewind_audit. repeat case_match; done. Qed.

(** Each rewind reads only the table it writes and the watch list. *)
Lemma save_cursors_fold l : forall d,
  t_cursors (fold_left (fun d cc => SaveContractCursor cc d) l d)
  = fold_left (fun m cc => <[cc_ContractID cc := cc]> m) l (t_cursors d).
Proof. induction l as [|cc l IH]; intros d; cbn; [done|]. by rewrite IH. Qed.

Lemma rewind_cursor_ext o n d1 d2 cc : t_watched d1 = t_watched d2 ->
  rewind_cursor o n d1 cc = rewind_cursor o n d2 cc.
Proof. intros H. unfold rewind_cursor, foreign_only. by rewrite H. Qed.

Lemma rewind_cursors_ext o n d1 d2 : t_cursors d1 = t_cursors d2 -> t_watched d1 = t_watched d2 ->
  t_cursors (rewind_cursors o n d1).2 = t_cursors (rewind_cursors o n d2).2.
Proof.
  intros Hc Hw. unfold rewind_cursors, ListContractCursors. cbn [snd]. rewrite !save_cursors_fold, Hc.
  f_equal. generalize (sort_by cc_ContractID (map_to_list (t_cursors d2)).*2) as l.
  induction l as [|cc l IH]; cbn; [done|].
  rewrite (rewind_cursor_ext o n d1 d2 cc Hw), IH. done.
Qed.

Lemma rewind_state_ext o n d1 d2 : t_state d1 = t_state d2 ->
  t_state (rewind_state o n d1).2 = t_state (rewind_state o n d2).2.
Proof. intros H. unfold rewind_state. rewrite H. repeat case_match; cbn; by rewrite ?H. Qed.

Lemma rewind_audit_ext o n d1 d2 : t_audit d1 = t_audit d2 ->
  t_audit (rewind_audit o n d1).2 = t_audit (rewind_audit o n d2).2.
Proof. intros H. unfold rewind_audit. rewrite H. repeat case_match; cbn; by rewrite ?H. Qed.

(** The tables after the transaction, in terms of the tables before it. *)
Lemma ReconcileReorgTx_tables o canonical byID refs ids d
    (n := defaultNetwork (ro_Network o))
    (merged := (reconcileSnapshotWithCanonical (reorg_snapshot o n d) canonical byID).2)
    (d' := (ReconcileReorgTx o canonical byID refs ids d).2) :
  t_events d' = update_all merged (filter (fun kv => in_reorg o n kv.2 = false) (t_events d)) /\
  t_addresses d' = list_to_set ((fun r => (ar_Address r, ar_EventID r, ar_Role r)) <$> refs) ∪
    filter (fun r => stale_ref n (sort_Strings (ID <$> reorg_snapshot o n d)) d r = false) (t_addresses d) /\
  t_dead d' = filter (fun kv => orphan_letter o n d kv.2 = false) (t_dead d) /\
  t_cursors d' = t_cursors (rewind_cursors o n d).2 /\
  t_state d' = t_state (rewind_state o n d).2 /\
  t_audit d' = t_audit (rewind_audit o n d).2.
Proof.
  subst d'. unfold ReconcileReorgTx. fold n. unfold reconcileSnapshotWithCanonical in *. cbn [snd] in merged.
  fold merged. set (prev := sort_Strings (ID <$> reorg_snapshot o n d)).
  (* step 1 *)
  set (s1 := if 0 <? Z.of_nat (length prev) then retract_refs n prev d else (0, d)).
  assert (H1 : t_addresses s1.2 = filter (fun r => stale_ref n prev d r = false) (t_addresses d) /\
    t_events s1.2 = t_events d /\ t_dead s1.2 = t_dead d /\ t_cursors s1.2 = t_cursors d /\
    t_state s1.2 = t_state d /\ t_audit s1.2 = t_audit d /\ t_watched s1.2 = t_watched d).
  { subst s1. destruct (Z.ltb_spec 0 (Z.of_nat (length prev))) as [Hl|Hl]; cbn.
    - split; [|done]. apply set_eq. intros r. rewrite elem_of_difference, !elem_of_filter.
      destruct (stale_ref n prev d r); naive_solver.
    - split; [|done]. assert (prev = []) as -> by (destruct prev; [done|cbn in Hl; lia]).
      symmetry. apply set_eq. intros r. rewrite elem_of_filter. unfold stale_ref.
      rewrite bool_decide_false by apply not_elem_of_nil. cbn. naive_solver. }
  destruct s1 as [nrefs d1]. cbn [snd] in H1. destruct H1 as (Ha1 & He1 & Hd1 & Hc1 & Hs1 & Hau1 & Hw1).
  (* step 2 *)
  pose proof (replace_range_events o n merged d1) as He2.
  destruct (replace_range_frame o n merged d1) as (Ha2 & Hd2 & Hc2 & Hs2 & Hau2 & Hw2).
  set (d2 := replace_range o n merged d1) in *. clearbody d2.
  cbn [retract_dead].
  unfold retract_dead. set (d4 := UpsertAddressRefs refs _).
  destruct (rewind_cursors_frame o n d4) as (Re & Ra & Rd & Rs & Rau & Rw).
  destruct (rewind_cursors o n d4) as [ncur d5] eqn:E5. cbn [snd] in *.
  destruct (rewind_state_frame o n d5) as (Se & Sa & Sd & Sc & Sau & Sw).
  destruct (rewind_state o n d5) as [ing d6] eqn:E6. cbn [snd] in *.
  destruct (rewind_audit_frame o n d6) as (Ae & Aa & Ad & Ac & As & Aw).
  destruct (rewind_audit o n d6) as [aud d7] eqn:E7. cbn [snd] in *.
  split; [by rewrite Ae, Se, Re; cbn; rewrite He2, He1|].
  split; [by rewrite Aa, Sa, Ra; cbn; rewrite Ha2, Ha1|].
  split.
  { rewrite Ad, Sd, Rd. cbn. rewrite Hd2, Hd1. apply map_filter_ext. intros i x _.
    unfold orphan_letter, foreign_only. cbn. by rewrite Hw2, Hw1. }
  split; [rewrite Ac, Sc; change d5 with ((ncur, d5).2); rewrite <- E5; apply rewind_cursors_ext; cbn;
          [by rewrite Hc2|by rewrite Hw2]|].
  split; [rewrite As; change d6 with ((ing, d6).2); rewrite <- E6; apply rewind_state_ext;
          rewrite Rs; cbn; by rewrite Hs2|].
  change d7 with ((aud, d7).2). rewrite <- E7. apply rewind_audit_ext.
  rewrite Sau, Rau. cbn. by rewrite Hau2.
Qed.

Lemma merge_xdr_erase ex kept e : erase_xdr (merge_xdr ex kept e) = erase_xdr e.
Proof. unfold merge_xdr. repeat case_match; done. Qed.

Lemma erase_key e e' : erase_xdr e = erase_xdr e' ->
  event_key e = event_key e' /\ ID e = ID e' /\ Ledger e = Ledger e' /\ Network e = Network e'.
Proof.
  intros H. unfold event_key.
  assert (ID e = ID e') by exact (f_equal ID H). assert (Ledger e = Ledger e') by exact (f_equal Ledger H).
  assert (Network e = Network e') by exact (f_equal Network H). split; [congruence|done].
Qed.

Lemma merged_spec ex kept (l : list Event) :
  event_key <$> (merge_xdr ex kept <$> l) = event_key <$> l /\
  ID <$> (merge_xdr ex kept <$> l) = ID <$> l.
Proof.
  induction l as [|e l [IH1 IH2]]; [done|]. cbn.
  destruct (erase_key _ _ (merge_xdr_erase ex kept e)) as (-> & -> & _). by rewrite IH1, IH2.
Qed.

Lemma NoDup_event_key (l : list Event) : NoDup (ID <$> l) -> NoDup (event_key <$> l).
Proof.
  intros H. apply (NoDup_fmap_1 snd). rewrite <- list_fmap_compose. exact H.
Qed.

Lemma ReconcileReorgRange_ok o d : 0 < ro_FromLedger o <= ro_ToLedger o ->
  exists res, ReconcileReorgRange o d =
    (Ok res, (ReconcileReorgTx o (canonical_set o).1 (canonical_set o).2
      (if 0 <? Z.of_nat (length (ro_CanonicalAddressRefs o))
       then deduplicateAddressRefs (ro_CanonicalAddressRefs o) (canonical_set o).2 else [])
      (sort_Strings (ID <$> (canonical_set o).1)) d).2) /\
    rr_PreviousEventIDs res = sort_Strings (ID <$> reorg_snapshot o (defaultNetwork (ro_Network o)) d).
Proof.
  intros Hr. unfold ReconcileReorgRange.
  destruct (Z.leb_spec (ro_FromLedger o) 0); [lia|]. destruct (Z.leb_spec (ro_ToLedger o) 0); [lia|].
  destruct (Z.ltb_spec (ro_ToLedger o) (ro_FromLedger o)); [lia|]. cbn [orb].
  destruct (canonical_set o) as [canonical byID]. cbn [fst snd].
  set (refs := if 0 <? _ then _ else _). set (ids := sort_Strings (ID <$> canonical)).
  destruct (ReconcileReorgTx o canonical byID refs ids d) as [res d'] eqn:E. cbn [snd].
  exists res. split; [done|]. revert E. unfold ReconcileReorgTx, reconcileSnapshotWithCanonical.
  repeat (match goal with |- context [let '(_, _) := ?x in _] => destruct x end).
  intros [= <- _]. done.
Qed.

Lemma canonical_in_reorg o e : network_ok o -> e ∈ (canonical_set o).1 ->
  in_reorg o (defaultNetwork (ro_Network o)) e = true.
Proof.
  intros Hn He. unfold in_reorg. apply andb_true_iff.
  pose proof (canonical_set_network o Hn) as H1. destruct (canonical_set_ok o) as [H2 _ _].
  rewrite list.Forall_forall in H1, H2. rewrite (H1 e He). split; [apply net_match_default|by apply H2].
Qed.

(** The event table after the reconciliation. *)
Lemma reorg_events_spec o d (n := defaultNetwork (ro_Network o)) :
  0 < ro_FromLedger o <= ro_ToLedger o ->
  exists res d', ReconcileReorgRange o d = (Ok res, d') /\
  (forall e, e ∈ (canonical_set o).1 ->
     exists e', t_events d' !! (Network e, ID e) = Some e' /\ erase_xdr e' = erase_xdr e) /\
  (forall k, k ∉ event_key <$> (canonical_set o).1 ->
     t_events d' !! k = match t_events d !! k with
                        | Some e => if in_reorg o n e then None else Some e
                        | None => None
                        end).
Proof.
  intros Hr. destruct (ReconcileReorgRange_ok o d Hr) as (res & Hres & _). eexists res, _. split; [exact Hres|].
  match type of Hres with context [ReconcileReorgTx o ?a ?b ?c ?e d] =>
    destruct (ReconcileReorgTx_tables o a b c e d) as (Hev & _) end.
  rewrite Hev. clear Hev Hres. fold n. unfold reconcileSnapshotWithCanonical. cbn [snd].
  set (base := filter _ (t_events d)). set (ex := snapshot_by_id _). set (kp := kept_xdr _).
  destruct (canonical_set_ok o) as [_ Hnd _].
  set (canonical := (canonical_set o).1) in *.
  destruct (merged_spec ex kp canonical) as [Hkeys Hids]. split.
  - intros e He. destruct (update_all_present (merge_xdr ex kp <$> canonical) base (merge_xdr ex kp e))
      as (e' & H1 & H2); [apply NoDup_event_key; by rewrite Hids|apply list_elem_of_fmap; by exists e|].
    rewrite merge_xdr_erase in H2. exists e'.
    destruct (erase_key _ _ (merge_xdr_erase ex kp e)) as (Hk & _). unfold event_key in Hk, H1. by rewrite <- Hk.
  - intros k Hk. rewrite update_all_other.
    + subst base. rewrite map_lookup_filter. cbn.
      destruct (t_events d !! k) as [e|]; cbn; [|done].
      destruct (in_reorg o n e) eqn:E; [by rewrite option_guard_False|by rewrite option_guard_True].
    + intros e He Hek. apply Hk. rewrite <- Hkeys. apply list_elem_of_fmap. by exists e.
Qed.

(** C8: after a successful reorg reconciliation of [from, to] the events of
    the network in that range are exactly the canonical ones (each stored
    with all its fields; only the kept raw XDR may be filled in), and every row
    of other networks or other ledgers is untouched. *)
Theorem reorg_replaces_exactly_the_range (o : ReorgReconcileOptions) (d : DB)
    (n := defaultNetwork (ro_Network o))
    (Hr : 0 < ro_FromLedger o <= ro_ToLedger o) (Hn : network_ok o) :
  exists res d', ReconcileReorgRange o d = (Ok res, d') /\
  (forall e, e ∈ (canonical_set o).1 -> in_reorg o n e = true /\
     exists e', t_events d' !! (Network e, ID e) = Some e' /\ erase_xdr e' = erase_xdr e) /\
  (forall k e', t_events d' !! k = Some e' -> in_reorg o n e' = true ->
     exists e, e ∈ (canonical_set o).1 /\ erase_xdr e' = erase_xdr e) /\
  (forall k, k ∉ event_key <$> (canonical_set o).1 ->
     t_events d' !! k = match t_events d !! k with
                        | Some e => if in_reorg o n e then None else Some e
                        | None => None
                        end).
Proof.
  destruct (reorg_events_spec o d Hr) as (res & d' & Hres & Hpres & Hother).
  exists res, d'. split; [exact Hres|].
  split; [intros e He; split; [by apply canonical_in_reorg|by apply Hpres]|]. split; [|exact Hother].
  intros k e' Hk Hin. destruct (decide (k ∈ event_key <$> (canonical_set o).1)) as [Hc|Hc].
  - apply list_elem_of_fmap in Hc as (e & -> & He). destruct (Hpres e He) as (e2 & H1 & H2).
    exists e. split; [done|]. unfold event_key in Hk. congruence.
  - rewrite Hother in Hk by done. fold n in Hk. destruct (t_events d !! k) as [e|]; [|done].
    destruct (in_reorg o n e) eqn:E; [done|]. congruence.
Qed.

(** Rows the live path stores without a network label are not retracted by a
    reorganisation of a named network: they stay beside the canonical ones. *)
Theorem reorg_misses_unlabelled_rows (o : ReorgReconcileOptions) (d : DB) (id : string) (e : Event)
    (Hr : 0 < ro_FromLedger o <= ro_ToLedger o) (Hn : network_ok o)
    (Hname : ro_Network o <> "" /\ ro_Network o <> "default")
    (He : t_events d !! ("", id) = Some e) (Hnet : Network e = "") :
  exists res d', ReconcileReorgRange o d = (Ok res, d') /\ t_events d' !! ("", id) = Some e.
Proof.
  destruct (reorg_events_spec o d Hr) as (res & d' & Hres & _ & Hother).
  exists res, d'. split; [done|]. rewrite Hother, He.
  - unfold in_reorg, net_match, defaultNetwork. rewrite Hnet.
    rewrite (bool_decide_false (ro_Network o = "")), (bool_decide_false ("" = ro_Network o)),
      (bool_decide_false (ro_Network o = "default")) by (destruct Hname; congruence). done.
  - intros Hin. apply list_elem_of_fmap in Hin as (x & Hk & Hx).
    pose proof (canonical_set_network o Hn) as H1. rewrite list.Forall_forall in H1.
    unfold event_key in Hk. specialize (H1 x Hx). destruct Hname. simplify_eq. congruence.
Qed.

Definition demo_canon (id : string) (ledger : Z) : Event :=
  mkEvent id "C" ledger "contract" "tx" 1 0 true "[]" "null" 0 "" [] "".

Definition demo_db : DB :=
  SaveIngestionState (mkIngestionState "" 12 "cur" None)
    (SaveContractCursor (mkContractCursor "C" 12 "x")
      (SaveAuditState "" 11
        (UpsertAddressRefs [mkAddressRef "G" "e10" "topic"; mkAddressRef "G" "e5" "topic"]
          (UpsertEvents [demo_canon "e5" 5; demo_canon "e10" 10; demo_canon "e12" 12] db_empty).2))).

Definition demo_reorg : ReorgReconcileOptions :=
  mkReorgOptions "" 10 12 [demo_canon "e10b" 10] [mkAddressRef "G2" "e10b" "topic"] 11 false.

Lemma demo_network_ok : network_ok demo_reorg.
Proof. apply Forall_singleton. by left. Qed.

Lemma reorg_replaces_exactly_the_range_witness :
  (map_to_list (t_events (ReconcileReorgRange demo_reorg demo_db).2)).*1.*2 = ["e5"; "e10b"] /\
  exists res d', ReconcileReorgRange demo_reorg demo_db = (Ok res, d') /\
    exists e', t_events d' !! ("", "e10b") = Some e'.
Proof.
  split; [vm_compute; reflexivity|].
  destruct (reorg_replaces_exactly_the_range demo_reorg demo_db ltac:(cbn; lia) demo_network_ok)
    as (res & d' & H1 & H2 & _).
  exists res, d'. split; [done|].
  destruct (H2 (demo_canon "e10b" 10)) as [_ (e' & He' & _)].
  - apply (bool_decide_unpack _). vm_compute. exact I.
  - by exists e'.
Defined.

(** ** Derived rows *)

Lemma dedup_refs_subset allowed refs : forall acc,
  (forall r, r ∈ acc.1 -> is_Some (allowed !! ar_EventID r)) ->
  forall r, r ∈ (fold_left (dedup_ref_step allowed) refs acc).1 -> is_Some (allowed !! ar_EventID r).
Proof.
  induction refs as [|x refs IH]; intros acc Hacc r Hr; cbn in Hr; [by apply Hacc|].
  eapply IH; [|done]. unfold dedup_ref_step. destruct (allowed !! ar_EventID x) eqn:E; [|done].
  case_bool_decide; [done|]. cbn. intros y Hy. apply elem_of_app in Hy as [Hy | Hy]; [by apply Hacc|].
  apply list_elem_of_singleton in Hy. subst. by rewrite E.
Qed.

(** No derived row of a retracted event survives. After a reconciliation
    an address reference to an event that was stored in the range either
    belongs to a canonical event, or its event also exists on another network;
    references to other events are kept; and no dead letter of the range remains
    for a contract of this network. *)
Theorem reorg_retracts_derived_rows (o : ReorgReconcileOptions) (d : DB)
    (n := defaultNetwork (ro_Network o)) (Hr : 0 < ro_FromLedger o <= ro_ToLedger o) :
  exists res d', ReconcileReorgRange o d = (Ok res, d') /\
  (forall a id role, (a, id, role) ∈ t_addresses d' -> id ∈ rr_PreviousEventIDs res ->
     id ∈ ID <$> (canonical_set o).1 \/ on_other_network n id d = true) /\
  (forall a id role, (a, id, role) ∈ t_addresses d -> id ∉ rr_PreviousEventIDs res ->
     (a, id, role) ∈ t_addresses d') /\
  (forall id l, t_dead d' !! id = Some l -> ro_FromLedger o <= dr_Ledger l <= ro_ToLedger o ->
     foreign_only n (dr_ContractID l) d = true).
Proof.
  destruct (ReconcileReorgRange_ok o d Hr) as (res & Hres & Hprev). eexists res, _. split; [exact Hres|].
  match type of Hres with context [ReconcileReorgTx o ?a ?b ?c ?e d] =>
    destruct (ReconcileReorgTx_tables o a b c e d) as (_ & Ha & Hd & _) end.
  rewrite Ha, Hd, Hprev. clear Ha Hd Hres Hprev. fold n.
  split; [|split].
  - intros a id role Hin Hp. apply elem_of_union in Hin as [Hin | Hin].
    + left. apply elem_of_list_to_set, list_elem_of_fmap in Hin as (r & [= -> -> ->] & Hin).
      destruct (canonical_set_ok o) as [_ _ Hidx]. apply Hidx.
      destruct (0 <? _); [|by apply not_elem_of_nil in Hin].
      eapply dedup_refs_subset; [|exact Hin]. cbn. by intros x ?%not_elem_of_nil.
    + right. apply elem_of_filter in Hin as [Hs _]. unfold stale_ref in Hs. cbn in Hs.
      rewrite bool_decide_true in Hs by done. by apply negb_false_iff in Hs.
  - intros a id role Hin Hp. apply elem_of_union_r, elem_of_filter. split; [|done].
    unfold stale_ref. cbn. by rewrite bool_decide_false.
  - intros id l Hl Hrng. apply map_lookup_filter_Some in Hl as [_ Hl]. cbn in Hl.
    unfold orphan_letter in Hl. destruct (Z.leb_spec (ro_FromLedger o) (dr_Ledger l)); [|lia].
    destruct (Z.leb_spec (dr_Ledger l) (ro_ToLedger o)); [|lia]. cbn in Hl. by apply negb_false_iff in Hl.
Qed.

Lemma reorg_retracts_derived_rows_witness :
  exists res d', ReconcileReorgRange demo_reorg demo_db = (Ok res, d') /\
    (("G", "e5", "topic") ∈ t_addresses demo_db -> "e5" ∉ rr_PreviousEventIDs res ->
     ("G", "e5", "topic") ∈ t_addresses d') /\
  elements (t_addresses (ReconcileReorgRange demo_reorg demo_db).2) = [("G", "e5", "topic"); ("G2", "e10b", "topic")].
Proof.
  destruct (reorg_retracts_derived_rows demo_reorg demo_db ltac:(cbn; lia)) as (res & d' & H1 & _ & H3 & _).
  exists res, d'. split; [exact H1|]. split; [apply H3|]. vm_compute. reflexivity.
Defined.

(** ** Frontiers *)

Definition cursors_ok (d : DB) : Prop :=
  forall id cc, t_cursors d !! id = Some cc -> cc_ContractID cc = id.

Lemma save_fold_absent l : forall (m : gmap string ContractCursor) k,
  k ∉ cc_ContractID <$> l -> fold_left (fun m cc => <[cc_ContractID cc := cc]> m) l m !! k = m !! k.
Proof.
  induction l as [|x l IH]; intros m k H; cbn; [done|].
  cbn in H. apply not_elem_of_cons in H as [H1 H2]. rewrite IH by done. by rewrite lookup_insert_ne.
Qed.

Lemma save_fold_present l : forall (m : gmap string ContractCursor) cc,
  NoDup (cc_ContractID <$> l) -> cc ∈ l ->
  fold_left (fun m cc => <[cc_ContractID cc := cc]> m) l m !! cc_ContractID cc = Some cc.
Proof.
  induction l as [|x l IH]; intros m cc Hnd Hcc; [by apply not_elem_of_nil in Hcc|].
  cbn in Hnd. apply list.NoDup_cons in Hnd as [Hx Hnd]. cbn.
  apply elem_of_cons in Hcc as [-> | Hcc]; [|by apply IH].
  rewrite save_fold_absent by done. by rewrite lookup_insert_eq.
Qed.

Lemma rewind_cursor_id o n d cc cc' : rewind_cursor o n d cc = Some cc' -> cc_ContractID cc' = cc_ContractID cc.
Proof. unfold rewind_cursor. repeat case_match; intros; simplify_eq; done. Qed.

Lemma list_cursors_elem d cc : cc ∈ ListContractCursors d <-> exists id, t_cursors d !! id = Some cc.
Proof.
  unfold ListContractCursors. rewrite sort_by_Permutation, list_elem_of_fmap. split.
  - intros ([id c] & -> & H). apply elem_of_map_to_list in H. by exists id.
  - intros [id H]. exists (id, cc). split; [done|]. by apply elem_of_map_to_list.
Qed.

Lemma list_cursors_NoDup d : cursors_ok d -> NoDup (cc_ContractID <$> ListContractCursors d).
Proof.
  intros Hok. unfold ListContractCursors. rewrite sort_by_Permutation.
  replace (cc_ContractID <$> (map_to_list (t_cursors d)).*2) with ((map_to_list (t_cursors d)).*1);
    [apply NoDup_fst_map_to_list|].
  rewrite <- list_fmap_compose. apply list_fmap_ext. intros i [id cc] Hi. cbn.
  symmetry. apply Hok. apply elem_of_map_to_list. by eapply list_elem_of_lookup_2.
Qed.

Lemma NoDup_omap_id o n d l : NoDup (cc_ContractID <$> l) ->
  NoDup (cc_ContractID <$> omap (rewind_cursor o n d) l).
Proof.
  induction l as [|x l IH]; cbn; intros Hnd; [constructor|].
  apply list.NoDup_cons in Hnd as [Hx Hnd]. destruct (rewind_cursor o n d x) as [y|] eqn:E; [|by apply IH].
  cbn. apply list.NoDup_cons. split; [|by apply IH]. rewrite (rewind_cursor_id _ _ _ _ _ E).
  intros Hin. apply Hx. apply list_elem_of_fmap in Hin as (z & Hz & Hin).
  apply list_elem_of_omap in Hin as (w & Hw & Hwz). rewrite Hz, (rewind_cursor_id _ _ _ _ _ Hwz).
  apply list_elem_of_fmap. by exists w.
Qed.

(** The cursor table after the rewind, row by row. *)
Lemma rewind_cursors_lookup o n d id : cursors_ok d ->
  t_cursors (rewind_cursors o n d).2 !! id =
  match t_cursors d !! id with
  | Some cc => Some (default cc (rewind_cursor o n d cc))
  | None => None
  end.
Proof.
  intros Hok. unfold rewind_cursors. cbn [snd]. rewrite save_cursors_fold.
  set (l := omap _ _). assert (Hl : forall cc', cc' ∈ l <-> exists cc, cc ∈ ListContractCursors d /\ rewind_cursor o n d cc = Some cc')
    by (intros; apply list_elem_of_omap).
  assert (Hnd : NoDup (cc_ContractID <$> l)) by (by apply NoDup_omap_id, list_cursors_NoDup).
  clearbody l.
  destruct (t_cursors d !! id) as [cc|] eqn:E.
  - destruct (rewind_cursor o n d cc) as [cc'|] eqn:Er; cbn.
    + replace id with (cc_ContractID cc') by (rewrite (rewind_cursor_id _ _ _ _ _ Er); by apply Hok).
      apply save_fold_present; [done|]. apply Hl. exists cc. split; [apply list_cursors_elem; by exists id|done].
    + rewrite save_fold_absent; [done|]. intros Hin. apply list_elem_of_fmap in Hin as (x & -> & Hx).
      apply Hl in Hx as (y & Hy & Hyx). apply list_cursors_elem in Hy as [id' Hy].
      rewrite (rewind_cursor_id _ _ _ _ _ Hyx) in E. rewrite (Hok _ _ Hy) in E. congruence.
  - rewrite save_fold_absent; [done|]. intros Hin. apply list_elem_of_fmap in Hin as (x & -> & Hx).
    apply Hl in Hx as (y & Hy & Hyx). apply list_cursors_elem in Hy as [id' Hy].
    rewrite (rewind_cursor_id _ _ _ _ _ Hyx) in E. rewrite (Hok _ _ Hy) in E. congruence.
Qed.

Lemma rewind_target_le o l : ro_FromLedger o <= l -> rewind_target o l <= l.
Proof.
  intros Hl. unfold rewind_target. destruct (ro_RewindCursorsToFromLedger o); [lia|].
  destruct (0 <? ro_NewHeadLedger o); cbn [andb]; [split_if; to_prop; lia|lia].
Qed.

(** Whatever its arguments, a reconciliation creates no ingestion state and moves
    none forward. *)
Lemma reconcile_state_back o d n : t_state (ReconcileReorgRange o d).2 !! n = t_state d !! n \/
  exists st st', t_state d !! n = Some st /\ t_state (ReconcileReorgRange o d).2 !! n = Some st' /\ LastIngestedLedger st' <= LastIngestedLedger st.
Proof.
  destruct (decide (0 < ro_FromLedger o <= ro_ToLedger o)) as [Hr|Hr].
  - destruct (ReconcileReorgRange_ok o d Hr) as (res & Hres & _). rewrite Hres. cbn [snd].
    match type of Hres with context [ReconcileReorgTx o ?a ?b ?c ?e d] =>
      destruct (ReconcileReorgTx_tables o a b c e d) as (_ & _ & _ & _ & Hst & _) end. rewrite Hst. clear Hst Hres.
    unfold rewind_state. set (m := defaultNetwork (ro_Network o)). destruct (t_state d !! m) as [st|] eqn:E; [|by left].
    destruct (Z.ltb_spec (LastIngestedLedger st) (ro_FromLedger o)); [by left|]. split_if; [|by left]. cbn.
    destruct (decide (m = n)) as [<-|]; [|left; by rewrite lookup_insert_ne]. right. exists st. rewrite lookup_insert_eq. eexists.
    split_and!; [done|done|]. cbn. by apply rewind_target_le.
  - left. unfold ReconcileReorgRange. destruct (Z.leb_spec (ro_FromLedger o) 0); [done|]. destruct (Z.leb_spec (ro_ToLedger o) 0); [done|].
    destruct (Z.ltb_spec (ro_ToLedger o) (ro_FromLedger o)); [done|lia].
Qed.

(** A reconciliation never moves a frontier forward, and after a rollback
    to a new head no frontier of the network stays beyond it: per-contract
    cursors and the ingestion state that had reached the range are clamped to
    the head, and the audit frontier is behind the range. *)
Theorem reorg_rewinds_frontiers (o : ReorgReconcileOptions) (d : DB)
    (n := defaultNetwork (ro_Network o))
    (Hr : 0 < ro_FromLedger o <= ro_ToLedger o) (Hc : cursors_ok d)
    (Hh : 0 < ro_NewHeadLedger o) :
  exists res d', ReconcileReorgRange o d = (Ok res, d') /\
  (forall id cc', t_cursors d' !! id = Some cc' -> exists cc, t_cursors d !! id = Some cc /\
     cc_LastIngestedLedger cc' <= cc_LastIngestedLedger cc /\
     (foreign_only n id d = false ->
      cc_LastIngestedLedger cc' <= Z.max (ro_FromLedger o - 1) (ro_NewHeadLedger o))) /\
  (forall st', t_state d' !! n = Some st' -> exists st, t_state d !! n = Some st /\
     LastIngestedLedger st' <= LastIngestedLedger st /\
     LastIngestedLedger st' <= Z.max (ro_FromLedger o - 1) (ro_NewHeadLedger o)) /\
  (forall v', t_audit d' !! n = Some v' -> exists v, t_audit d !! n = Some v /\
     v' <= v /\ v' <= ro_FromLedger o - 1).
Proof.
  destruct (ReconcileReorgRange_ok o d Hr) as (res & Hres & _). eexists res, _. split; [exact Hres|].
  match type of Hres with context [ReconcileReorgTx o ?a ?b ?c ?e d] =>
    destruct (ReconcileReorgTx_tables o a b c e d) as (_ & _ & _ & Hcur & Hst & Hau) end.
  rewrite Hcur, Hst, Hau. clear Hcur Hst Hau Hres. fold n.
  assert (Ht : forall l, ro_FromLedger o <= l -> rewind_target o l <= l /\
            rewind_target o l <= Z.max (ro_FromLedger o - 1) (ro_NewHeadLedger o)).
  { intros l Hl. unfold rewind_target. destruct (ro_RewindCursorsToFromLedger o); [lia|].
    destruct (Z.ltb_spec 0 (ro_NewHeadLedger o)); [|lia]. cbn [andb]. split_if; to_prop; lia. }
  split; [|split].
  - intros id cc' H. rewrite rewind_cursors_lookup in H by done.
    destruct (t_cursors d !! id) as [cc|] eqn:E; [|done]. exists cc. split; [done|].
    pose proof (Hc _ _ E) as Hid. simplify_eq. unfold rewind_cursor.
    destruct (Z.ltb_spec (cc_LastIngestedLedger cc) (ro_FromLedger o)); cbn [orb].
    { cbn. split; [lia|]. lia. }
    destruct (Ht (cc_LastIngestedLedger cc)) as [Ht1 Ht2]; [lia|].
    destruct (foreign_only n (cc_ContractID cc) d) eqn:Ef; cbn; [split; [lia|done]|].
    destruct (Z.eqb_spec (rewind_target o (cc_LastIngestedLedger cc)) (cc_LastIngestedLedger cc));
      [destruct (bool_decide _)|]; cbn; lia.
  - intros st' H. unfold rewind_state in H. destruct (t_state d !! n) as [st|] eqn:E; cbn in H; [|congruence].
    exists st. split; [done|]. destruct (Z.ltb_spec (LastIngestedLedger st) (ro_FromLedger o)); cbn in H.
    { rewrite E in H. simplify_eq. lia. }
    destruct (Ht (LastIngestedLedger st)) as [Ht1 Ht2]; [lia|].
    destruct (Z.eqb_spec (rewind_target o (LastIngestedLedger st)) (LastIngestedLedger st)) as [He|He]; cbn in H.
    + split_if; cbn in H; [rewrite lookup_insert_eq in H|rewrite E in H]; simplify_eq; cbn; lia.
    + rewrite lookup_insert_eq in H. simplify_eq. cbn. lia.
  - intros v' H. unfold rewind_audit in H. destruct (t_audit d !! n) as [v|] eqn:E; cbn in H; [|congruence].
    exists v. split; [done|]. destruct (Z.ltb_spec v (ro_FromLedger o)); cbn in H.
    + rewrite E in H. simplify_eq. lia.
    + rewrite lookup_insert_eq in H. simplify_eq. lia.
Qed.

Lemma reorg_rewinds_frontiers_witness :
  exists res d', ReconcileReorgRange demo_reorg demo_db = (Ok res, d') /\
    (forall st', t_state d' !! "default" = Some st' -> LastIngestedLedger st' <= 11) /\
    t_audit (ReconcileReorgRange demo_reorg demo_db).2 !! "default" = Some 9.
Proof.
  destruct (reorg_rewinds_frontiers demo_reorg demo_db) as (res & d' & H1 & _ & H3 & _).
  - cbn. lia.
  - intros id cc H. change (t_cursors demo_db) with ({["C" := mkContractCursor "C" 12 "x"]} : gmap string ContractCursor) in H.
    apply lookup_singleton_Some in H as [<- <-]. reflexivity.
  - cbn. lia.
  - exists res, d'. split; [exact H1|]. split; [|vm_compute; reflexivity].
    intros st' Hs. destruct (H3 st' Hs) as (_ & _ & _ & H). cbn in H. lia.
Defined.
