(* ===== verification/IngesterCore.v ===== *)
(** * Ingester: options, pure helpers and the interfaces it depends on
    (internal/ingester/ingester.go)

    The RPC client, the store, the dead-letter sink, the decoder and the clock
    are interfaces of the Go code; here they are type classes over a world
    [W], so that the ingester's theorems hold for every implementation. *)

From S2P Require Import Prelude GoStrings GoFloat GoSort StoreErrors StoreTypes RpcTypes Backpressure.
From S2P Require Import ReorgTracker StoreReorg.
From Stdlib Require Import Ascii String.
Local Open Scope Z_scope.
Local Open Scope go_scope.
Local Notation length := List.length.

(** ** Options *)

Definition DefaultRetentionLedgers : Z := 17280.

(** The clock, the jitter source, the lag sink and the shared coordinator of the
    Go struct are arguments elsewhere. *)
Record Options : Type := mkOptions {
  op_PollInterval : Z;
  op_PollIntervalMin : Z;
  op_PollIntervalMax : Z;
  op_StartLedger : Z;
  op_StartLedgerRaw : string;
  op_RetentionLedgers : Z;
  op_PageLimit : Z;
  op_WriteBatchSize : Z;
  op_MaxEventsPerCycle : Z;
  op_BatchSize : Z;
  op_BatchTargetLatency : Z;
  op_BatchMaxBackoff : Z;
  op_MinBackoff : Z;
  op_MaxBackoff : Z;
  op_JitterMin : Z;
  op_JitterMax : Z;
  op_SweepWindow : Z;
  op_SweepConcurrency : Z;
  op_ReorgConfirmationWindow : Z;
  op_ReorgRescanInterval : Z;
  op_SkipContracts : list string;
  op_Network : string;
  op_DryRun : bool;
  op_MaxRetries : Z;
  op_LagWarnLedgers : Z;
  op_LagRecoverLedgers : Z;
  op_LagBackpressureEnabled : bool;
  op_LagMaxDeferral : Z;
  op_LagCatchUpSweepMultiplier : Z }.

Definition Options_applyDefaults (o : Options) : Options :=
  let pi := if op_PollInterval o <=? 0 then 5 * Second else op_PollInterval o in
  let pmin := if op_PollIntervalMin o <=? 0 then pi else op_PollIntervalMin o in
  let pmax := if op_PollIntervalMax o <=? 0 then pi else op_PollIntervalMax o in
  let pmax := if pmax <? pmin then pmin else pmax in
  let pi := if pi <? pmin then pmin else pi in
  let pi := if pmax <? pi then pmax else pi in
  let maxb := if op_MaxBackoff o <=? 0 then Minute else op_MaxBackoff o in
  let minb := if op_MinBackoff o <=? 0 then Second else op_MinBackoff o in
  let minb := if maxb <? minb then maxb else minb in
  let jmin := if op_JitterMin o <? 0 then 0 else op_JitterMin o in
  let jmax := if op_JitterMax o <? 0 then 0 else op_JitterMax o in
  let jmin := if ((0 <? jmax) && (jmax <? jmin))%bool then jmax else jmin in
  {| op_PollInterval := pi; op_PollIntervalMin := pmin; op_PollIntervalMax := pmax;
     op_StartLedger := op_StartLedger o; op_StartLedgerRaw := op_StartLedgerRaw o;
     op_RetentionLedgers := if op_RetentionLedgers o =? 0 then DefaultRetentionLedgers else op_RetentionLedgers o;
     op_PageLimit := if op_PageLimit o =? 0 then 1000 else op_PageLimit o;
     op_WriteBatchSize := if op_WriteBatchSize o =? 0 then 1000 else op_WriteBatchSize o;
     op_MaxEventsPerCycle := op_MaxEventsPerCycle o;
     op_BatchSize := op_BatchSize o; op_BatchTargetLatency := op_BatchTargetLatency o;
     op_BatchMaxBackoff := if op_BatchMaxBackoff o <=? 0 then Second else op_BatchMaxBackoff o;
     op_MinBackoff := minb; op_MaxBackoff := maxb; op_JitterMin := jmin; op_JitterMax := jmax;
     op_SweepWindow := if op_SweepWindow o =? 0 then 1000 else op_SweepWindow o;
     op_SweepConcurrency := if op_SweepConcurrency o <? 1 then 1 else op_SweepConcurrency o;
     op_ReorgConfirmationWindow := op_ReorgConfirmationWindow o;
     op_ReorgRescanInterval :=
       if ((0 <? op_ReorgConfirmationWindow o) && (op_ReorgRescanInterval o <=? 0))%bool
       then Minute else op_ReorgRescanInterval o;
     op_SkipContracts := op_SkipContracts o; op_Network := op_Network o; op_DryRun := op_DryRun o;
     op_MaxRetries := op_MaxRetries o; op_LagWarnLedgers := op_LagWarnLedgers o;
     op_LagRecoverLedgers := op_LagRecoverLedgers o; op_LagBackpressureEnabled := op_LagBackpressureEnabled o;
     op_LagMaxDeferral := op_LagMaxDeferral o; op_LagCatchUpSweepMultiplier := op_LagCatchUpSweepMultiplier o |}.

(** ** Pure helpers *)

Definition effectivePageLimit (o : Options) : Z :=
  if ((0 <? op_MaxEventsPerCycle o) && (op_MaxEventsPerCycle o <? op_PageLimit o))%bool
  then op_MaxEventsPerCycle o else op_PageLimit o.

Definition newCycleBudget (o : Options) : option Z :=
  if ((op_MaxEventsPerCycle o =? 0) || op_DryRun o)%bool then None else Some (i64 (op_MaxEventsPerCycle o)).

(** The jitter source is an argument: [jitter n] is a number below [n]. *)
Definition backoffSleep (o : Options) (jitter : Z -> Z) (backoff : Z) : Z :=
  let jitterMax := if op_JitterMax o =? 0 then goquot backoff 2 else op_JitterMax o in
  if jitterMax <=? op_JitterMin o then goquot backoff 2 + op_JitterMin o
  else goquot backoff 2 + op_JitterMin o + jitter (jitterMax - op_JitterMin o).

Definition clampDuration (d lo hi : Z) : Z := if d <? lo then lo else if hi <? d then hi else d.

Definition adjustPollInterval (o : Options) (lagc : option LagCoordinator) (current : Z) (caughtUp : bool) : Z :=
  let caughtUp := if (Enabled lagc && IsLagging lagc)%bool then false else caughtUp in
  let next := if caughtUp then f64_trunc (f64_mul (f64_of_Z current) f64_1_25)
              else f64_trunc (f64_mul (f64_of_Z current) f64_half) in
  clampDuration next (op_PollIntervalMin o) (op_PollIntervalMax o).

(** The persisted state derived from one page; [now] is the poll time. *)
Definition nextState (now : Z) (resp : GetEventsResponse) (pageLimit : Z) : IngestionState * bool :=
  let caughtUp := Z.of_nat (length (resp_Events resp)) <? pageLimit in
  match list.last (resp_Events resp) with
  | Some l =>
      let cursor := if bool_decide (resp_Cursor resp = "") then CursorValue l else resp_Cursor resp in
      (mkIngestionState "" (re_Ledger l) cursor (Some now), caughtUp)
  | None => (mkIngestionState "" (resp_LatestLedger resp - 1) "" (Some now), true)
  end.

Definition effectiveSweepWindow (o : Options) (lagc : option LagCoordinator) : Z :=
  let mult := match lagc with
              | None => 1
              | Some _ => let m := EffectiveSweepMultiplier lagc in if 1 <? m then u32 m else 1
              end in
  u32 (op_SweepWindow o * mult).

(** First occurrence of each id. *)
Fixpoint remove_dup_loop (seen : gset string) (events : list StoreTypes.Event) : list StoreTypes.Event :=
  match events with
  | [] => []
  | ev :: evs =>
      if bool_decide (StoreTypes.ID ev ∈ seen) then remove_dup_loop seen evs
      else ev :: remove_dup_loop ({[ StoreTypes.ID ev ]} ∪ seen) evs
  end.

Definition removeDuplicateEvents (events : list StoreTypes.Event) : list StoreTypes.Event :=
  if (length events <=? 1)%nat then events else remove_dup_loop ∅ events.

(** The watch list of one network as filter batches. *)
Definition own_network (o : Options) (w : WatchedContract) : bool :=
  bool_decide (defaultNetwork (wc_Network w) = defaultNetwork (op_Network o)).

Definition filter_batches (o : Options) (watched : list WatchedContract) : list (list EventFilter) :=
  let kept := filter (fun w => own_network o w = true) watched in
  match kept with
  | [] => [[mkFilter "contract" []]]
  | _ =>
      let ids := wc_ContractID <$> kept in
      let filters := (fun c => mkFilter "contract" c) <$> chunks MaxContractIDsPerFilter ids in
      chunks MaxFiltersPerRequest filters
  end.

Definition contractIDsFromFilters (filters : list EventFilter) : list string :=
  (fold_left (fun acc f =>
     if bool_decide (ef_Type f = "contract") then
       fold_left (fun acc id =>
         if bool_decide (id ∈ acc.2) then acc else ((acc.1 ++ [id])%list, {[ id ]} ∪ acc.2))
         (ef_ContractIDs f) acc
     else acc) filters ([], (∅ : gset string))).1.

Definition resolveStartLedgerRaw (raw : string) (h : Health) : option Z :=
  let raw := TrimSpace raw in
  match ParseUint 32 raw with
  | Some n => Some n
  | None =>
      match strip_prefix "latest-" (ToLower raw) with
      | None => None
      | Some _ =>
          match ParseUint 32 (String.substring 7 (String.length raw - 7) raw) with
          | None => None
          | Some offset =>
              if offset =? 0 then None
              else let start := h_LatestLedger h - offset in
                   Some (u32 (if start <? 2 then 2 else start))
          end
      end
  end.

(** ** The adaptive batch controller *)

Record batchController : Type := mkBC {
  bc_max : Z;
  bc_cur : Z;
  bc_maxBk : Z;
  bc_adaptive : bool;
  bc_targetPerEvent : Z;
  bc_ewma : Z }.

Definition newBatchController (o : Options) : batchController :=
  let n := i64 (op_BatchSize o) in
  if 0 <? op_BatchTargetLatency o then
    let t := goquot (op_BatchTargetLatency o) n in
    let t := if t <=? 0 then Microsecond else t in
    mkBC n n (op_BatchMaxBackoff o) true t t
  else mkBC n n (op_BatchMaxBackoff o) false 0 0.

Definition recordAndBackoff (rows latency : Z) (bc : batchController) : Z * batchController :=
  if (negb (bc_adaptive bc) || (rows <=? 0) || (bc_cur bc <=? 0))%bool then (0, bc)
  else
    let perEvent := goquot latency rows in
    let ewma :=
      if bc_ewma bc <=? 0 then perEvent
      else f64_trunc (f64_add (f64_mul (f64_of_Z perEvent) f64_half) (f64_mul (f64_of_Z (bc_ewma bc)) f64_half)) in
    let set cur := mkBC (bc_max bc) cur (bc_maxBk bc) (bc_adaptive bc) (bc_targetPerEvent bc) ewma in
    let overBudget := bc_targetPerEvent bc <? ewma in
    let comfortablyUnder := ewma <? goquot (bc_targetPerEvent bc) 2 in
    if (overBudget && (1 <? bc_cur bc))%bool then (bc_maxBk bc, set (goquot (bc_cur bc) 2))
    else if (comfortablyUnder && (bc_cur bc <? bc_max bc))%bool then
      let c := i64 (bc_cur bc * 2) in (0, set (if bc_max bc <? c then bc_max bc else c))
    else if overBudget then (bc_maxBk bc, set (bc_cur bc))
    else (0, set (bc_cur bc)).

(** ** Properties of the pure helpers *)

Lemma default_pos x d : 0 < d -> 0 < (if x <=? 0 then d else x).
Proof. intros. split_if; to_prop; lia. Qed.

Lemma clampDuration_bounds d lo hi : lo <= hi -> lo <= clampDuration d lo hi <= hi.
Proof. intros. unfold clampDuration. repeat split_if; to_prop; lia. Qed.

(** the options the ingester runs with are well formed whatever the
    caller supplied: the poll interval lies between its bounds, backoffs are
    positive and ordered, page, write-batch and sweep sizes are non-zero, and
    every adaptive adjustment of the poll interval stays within its bounds. *)
Theorem options_defaults_wellformed (o : Options)
    (H1 : 0 <= op_PageLimit o) (H2 : 0 <= op_WriteBatchSize o) (H3 : 0 <= op_SweepWindow o) :
  let d := Options_applyDefaults o in
  0 < op_PollIntervalMin d <= op_PollInterval d /\ op_PollInterval d <= op_PollIntervalMax d /\
  0 < op_MinBackoff d <= op_MaxBackoff d /\ 0 <= op_JitterMin d /\
  (0 < op_JitterMax d -> op_JitterMin d <= op_JitterMax d) /\
  0 < op_PageLimit d /\ 0 < op_WriteBatchSize d /\ 0 < op_SweepWindow d /\
  1 <= op_SweepConcurrency d /\ 0 < op_BatchMaxBackoff d /\ 0 < effectivePageLimit d /\
  (forall lagc current caughtUp,
     op_PollIntervalMin d <= adjustPollInterval d lagc current caughtUp <= op_PollIntervalMax d).
Proof.
  cbv zeta.
  pose proof (default_pos (op_PollInterval o) (5 * Second) ltac:(unfold Second; lia)) as Hpi.
  pose proof (default_pos (op_MaxBackoff o) Minute ltac:(unfold Minute, Second; lia)) as Hmaxb.
  pose proof (default_pos (op_MinBackoff o) Second ltac:(unfold Second; lia)) as Hminb.
  pose proof (default_pos (op_BatchMaxBackoff o) Second ltac:(unfold Second; lia)) as Hbmb.
  unfold effectivePageLimit, adjustPollInterval, Options_applyDefaults.
  cbn [op_PollInterval op_PollIntervalMin op_PollIntervalMax op_MinBackoff op_MaxBackoff op_JitterMin
    op_JitterMax op_PageLimit op_WriteBatchSize op_SweepWindow op_SweepConcurrency op_BatchMaxBackoff
    op_MaxEventsPerCycle].
  set (pi := if op_PollInterval o <=? 0 then _ else _) in *. clearbody pi.
  set (maxb := if op_MaxBackoff o <=? 0 then _ else _) in *. clearbody maxb.
  set (minb := if op_MinBackoff o <=? 0 then _ else _) in *. clearbody minb.
  pose proof (default_pos (op_PollIntervalMin o) pi Hpi) as Hpmin.
  pose proof (default_pos (op_PollIntervalMax o) pi Hpi) as Hpmax.
  set (pmin := if op_PollIntervalMin o <=? 0 then _ else _) in *. clearbody pmin.
  set (pmax0 := if op_PollIntervalMax o <=? 0 then _ else _) in *. clearbody pmax0.
  set (pmax := if pmax0 <? pmin then pmin else pmax0).
  assert (Hmm : pmin <= pmax) by (subst pmax; split_if; to_prop; lia). clearbody pmax.
  split; [repeat split_if; to_prop; lia|]. split; [repeat split_if; to_prop; lia|].
  split; [split_if; to_prop; lia|]. split; [repeat split_if; to_prop; lia|].
  split; [repeat split_if; to_prop; lia|]. split; [split_if; to_prop; lia|].
  split; [split_if; to_prop; lia|]. split; [split_if; to_prop; lia|].
  split; [split_if; to_prop; lia|]. split; [done|].
  split; [repeat split_if; to_prop; lia|].
  intros lagc current caughtUp. by apply clampDuration_bounds.
Qed.

Lemma options_defaults_wellformed_witness :
  let d := Options_applyDefaults (mkOptions 0 0 0 0 "" 0 0 0 0 0 0 0 (90 * Second) 0 (-5) 0 0 0 64 0 [] "" false 0 0 0 false 0 0) in
  op_MinBackoff d = Minute /\ 0 < effectivePageLimit d.
Proof.
  split; [vm_compute; reflexivity|].
  apply (options_defaults_wellformed
    (mkOptions 0 0 0 0 "" 0 0 0 0 0 0 0 (90 * Second) 0 (-5) 0 0 0 64 0 [] "" false 0 0 0 false 0 0)); cbn; lia.
Defined.

(** the filter batches sent to the RPC cover exactly the contracts watched
    on the ingester's own network, in order, and respect the provider's caps:
    at most five contracts per filter and five filters per request. With no
    watched contract there is one request for all contract events. *)
Theorem filter_batches_cover_watchlist (o : Options) (watched : list WatchedContract) :
  let batches := filter_batches o watched in
  let own := wc_ContractID <$> filter (fun w => own_network o w = true) watched in
  Forall (fun b => b <> [] /\ (length b <= MaxFiltersPerRequest)%nat /\
    Forall (fun f => ef_Type f = "contract" /\ (length (ef_ContractIDs f) <= MaxContractIDsPerFilter)%nat) b) batches /\
  mjoin (ef_ContractIDs <$> mjoin batches) = own /\
  (own = [] -> batches = [[mkFilter "contract" []]]) /\
  (own <> [] -> Forall (Forall (fun f => ef_ContractIDs f <> [])) batches).
Proof.
  cbv zeta. unfold filter_batches.
  destruct (filter (fun w => own_network o w = true) watched) as [|w kept]; cbv beta iota zeta.
  { split; [|done]. apply Forall_singleton. unfold MaxFiltersPerRequest, MaxContractIDsPerFilter.
    split; [done|]. split; [cbn; lia|]. apply Forall_singleton. cbn. split; [done|lia]. }
  set (ids := wc_ContractID <$> (w :: kept)).
  pose proof (chunks_concat MaxContractIDsPerFilter ids ltac:(unfold MaxContractIDsPerFilter; lia)) as Hids.
  pose proof (chunks_length MaxContractIDsPerFilter ids ltac:(unfold MaxContractIDsPerFilter; lia)) as Hlen.
  set (cs := chunks MaxContractIDsPerFilter ids) in *.
  set (filters := (fun c => mkFilter "contract" c) <$> cs).
  pose proof (chunks_concat MaxFiltersPerRequest filters ltac:(unfold MaxFiltersPerRequest; lia)) as Hf.
  pose proof (chunks_length MaxFiltersPerRequest filters ltac:(unfold MaxFiltersPerRequest; lia)) as Hfl.
  assert (Hall : Forall (fun f => ef_Type f = "contract" /\
    (length (ef_ContractIDs f) <= MaxContractIDsPerFilter)%nat /\ ef_ContractIDs f <> []) filters).
  { subst filters. apply Forall_fmap. eapply list.Forall_impl; [exact Hlen|]. cbn. by intros c [? ?]. }
  assert (Hin : forall b, b ∈ chunks MaxFiltersPerRequest filters -> forall f, f ∈ b -> f ∈ filters).
  { intros b Hb f Hfb. rewrite <- Hf. apply list_elem_of_join. by exists b. }
  rewrite list.Forall_forall in Hall. rewrite list.Forall_forall in Hfl. rewrite Hf.
  split; [|split; [|split; [done|]]].
  - apply list.Forall_forall. intros b Hb. destruct (Hfl b Hb) as [Hne Hl]. split; [done|]. split; [done|].
    apply list.Forall_forall. intros f Hfb. destruct (Hall f) as (? & ? & _); [by eapply Hin|]. done.
  - subst filters. rewrite <- list_fmap_compose. rewrite list_fmap_id. exact Hids.
  - intros _. apply list.Forall_forall. intros b Hb. apply list.Forall_forall. intros f Hfb.
    apply Hall. by eapply Hin.
Qed.

(** ** The batch controller *)

Definition bc_inv (bc : batchController) : Prop := 1 <= bc_cur bc <= bc_max bc /\ bc_max bc < 2 ^ 62.

Lemma recordAndBackoff_inv rows latency bc : bc_inv bc ->
  bc_inv (recordAndBackoff rows latency bc).2 /\
  bc_max (recordAndBackoff rows latency bc).2 = bc_max bc /\
  bc_maxBk (recordAndBackoff rows latency bc).2 = bc_maxBk bc /\
  ((recordAndBackoff rows latency bc).1 = 0 \/ (recordAndBackoff rows latency bc).1 = bc_maxBk bc).
Proof.
  intros [H1 H2]. unfold recordAndBackoff.
  destruct (negb _ || _ || _)%bool; [split; [by split|]; split; [done|]; split; [done|]; by left|].
  set (ewma := if bc_ewma bc <=? 0 then _ else _). clearbody ewma.
  destruct (bc_targetPerEvent bc <? ewma) eqn:Eo, (1 <? bc_cur bc) eqn:E1; cbn [andb];
    to_prop.
  1: { cbn. split; [|split; [done|]; split; [done|]; by right]. unfold bc_inv; cbn. unfold goquot.
       rewrite Z.quot_div_nonneg by lia.
       pose proof (Z.div_le_lower_bound (bc_cur bc) 2 1). pose proof (Z.div_le_upper_bound (bc_cur bc) 2 (bc_cur bc)). lia. }
  all: destruct (ewma <? goquot (bc_targetPerEvent bc) 2); destruct (bc_cur bc <? bc_max bc) eqn:E2; cbn [andb];
    to_prop; cbn; (split; [|split; [done|]; split; [done|]; (by left) || (by right)]);
    unfold bc_inv in *; cbn; try lia.
  all: rewrite i64_id by (unfold in_i64, minInt64, maxInt64; lia); split_if; to_prop; lia.
Qed.

(** ** Duplicate removal *)

Lemma remove_dup_loop_spec events : forall seen,
  NoDup (StoreTypes.ID <$> remove_dup_loop seen events) /\
  (forall e, e ∈ remove_dup_loop seen events -> e ∈ events /\ StoreTypes.ID e ∉ seen) /\
  (forall e, e ∈ events -> StoreTypes.ID e ∈ seen \/
     exists e', e' ∈ remove_dup_loop seen events /\ StoreTypes.ID e' = StoreTypes.ID e).
Proof.
  induction events as [|ev evs IH]; intros seen; cbn [remove_dup_loop].
  { split; [constructor|]. split; by intros e ?%not_elem_of_nil. }
  case_bool_decide as Hs.
  - destruct (IH seen) as (H1 & H2 & H3). split; [done|]. split.
    + intros e He. destruct (H2 e He). split; [by right|done].
    + intros e He. apply elem_of_cons in He as [-> | He]; [by left|by apply H3].
  - destruct (IH ({[ StoreTypes.ID ev ]} ∪ seen)) as (H1 & H2 & H3). split; [|split].
    + cbn. apply list.NoDup_cons. split; [|done]. intros Hin.
      apply list_elem_of_fmap in Hin as (e & He & Hin). destruct (H2 e Hin) as [_ Hn]. set_solver.
    + intros e He. apply elem_of_cons in He as [-> | He]; [split; [by left|done]|].
      destruct (H2 e He) as [? ?]. split; [by right|set_solver].
    + intros e He. apply elem_of_cons in He as [-> | He]; [right; exists ev; split; [by left|done]|].
      destruct (H3 e He) as [Hin | (e' & He' & Hid)].
      * apply elem_of_union in Hin as [Hin | Hin]; [|by left].
        right. exists ev. split; [by left|]. by apply elem_of_singleton in Hin.
      * right. exists e'. split; [by right|done].
Qed.

Lemma removeDuplicateEvents_spec events :
  NoDup (StoreTypes.ID <$> removeDuplicateEvents events) /\
  (forall e, e ∈ removeDuplicateEvents events -> e ∈ events) /\
  (forall e, e ∈ events -> exists e', e' ∈ removeDuplicateEvents events /\ StoreTypes.ID e' = StoreTypes.ID e).
Proof.
  unfold removeDuplicateEvents. destruct (Nat.leb_spec (length events) 1).
  - split; [|split; [done|by intros e He; exists e]].
    destruct events as [|x [|y l]]; cbn in *; [constructor|apply NoDup_singleton|lia].
  - destruct (remove_dup_loop_spec events ∅) as (H1 & H2 & H3). split; [done|]. split.
    + intros e He. by apply H2.
    + intros e He. destruct (H3 e He) as [Hin | Hin]; [set_solver|done].
Qed.

(** ** Errors, world and monad *)

Inductive ierror : Type :=
  | IRpc (e : rerror)
  | IStore (e : error)
  | IDecode (msg : string)
  | ICtx
  | IMsg (msg : string)
  | IReorgDepthExceeded
  | IReorgTouchesArchived
  | IFuel
  | IWrap (fmt : string) (cause : ierror).

(** The RPC error an error value carries, as errors.As finds it. *)
Fixpoint ierror_rpc (e : ierror) : option rerror :=
  match e with
  | IRpc e => Some e
  | IWrap _ c => ierror_rpc c
  | _ => None
  end.

Definition ierror_out_of_range (e : ierror) : bool := IsLedgerOutOfRange (ierror_rpc e).

(** net.Error values of the store drivers and PostgreSQL error codes. *)
Definition as_net (s : sentinel) : option unit :=
  match s with NetError | ContextDeadlineExceeded => Some tt | _ => None end.
Definition as_pg (s : sentinel) : option string :=
  match s with PgError c => Some c | _ => None end.

Definition IsPermanentEventError (e : error) : bool :=
  if (errors_Is e ContextCanceled || errors_Is e ContextDeadlineExceeded)%bool then false
  else match errors_As as_net e with
       | Some _ => false
       | None =>
           if errors_Is e ErrPermanentEventFailure then true
           else match errors_As as_pg e with
                | Some code =>
                    match strip_prefix "22" code, strip_prefix "23" code with
                    | None, None => false
                    | _, _ => true
                    end
                | None => false
                end
       end.

(** *** Interfaces *)

Class RpcClient (W : Type) : Type := {
  rpc_GetEvents : GetEventsRequest -> W -> result rerror GetEventsResponse * W;
  rpc_GetHealth : W -> result rerror Health * W;
  rpc_GetLatestLedger : W -> result rerror LatestLedger * W }.

Class Store (W : Type) : Type := {
  st_UpsertEvents : list StoreTypes.Event -> W -> result error Z * W;
  st_UpsertAddressRefs : list AddressRef -> W -> result error unit * W;
  st_GetIngestionState : string -> W -> result error IngestionState * W;
  st_SaveIngestionState : IngestionState -> W -> result error unit * W;
  st_ListWatchedContracts : W -> result error (list WatchedContract) * W;
  st_GetContractCursor : string -> W -> result error ContractCursor * W;
  st_SaveContractCursor : ContractCursor -> W -> result error unit * W;
  st_ReplaceEventsInRange : list StoreTypes.Event -> Z -> Z -> W -> result error unit * W;
  st_ReconcileReorgRange : ReorgReconcileOptions -> W -> result error ReorgReconcileResult * W }.

(** The optional dead-letter sink, the subscribers, the decoder, the address
    extractor, the clock, the jitter and the archive boundary. *)
Class Services (W : Type) : Type := {
  sv_deadLetter : option (DeadLetterInput -> ierror -> W -> result error unit * W);
  sv_publish : list StoreTypes.Event -> W -> W;
  sv_notifyReorg : Z -> Z -> Z -> list string -> list StoreTypes.Event -> W -> W;
  sv_decode : RpcTypes.Event -> result string (string * string);
  sv_parseTime : string -> Z;
  sv_addresses : StoreTypes.Event -> list (string * string);
  sv_now : W -> Z;
  sv_jitter : W -> Z -> Z;
  sv_sleep : Z -> W -> bool * W;
  sv_ctxErr : W -> bool;
  sv_archivedThrough : W -> result ierror Z }.

(** *** The ingester's own state *)

(** [ing_lagShared] says that the caller supplied the coordinator. The alarm
    lines of checkLag (true for exceeded) and the values it sends to the lag sink
    itself are recorded, the latest first. *)
Record Ingester : Type := mkIng {
  ing_opts : Options;
  ing_startOverrideApplied : bool;
  ing_lag : option LagCoordinator;
  ing_dryRunPosition : option (string * Z);
  ing_tracker : option ReorgTracker;
  ing_fetched : Z;
  ing_written : Z;
  ing_skipped : Z;
  ing_lagShared : bool;
  ing_lagging : bool;
  ing_pollInterval : Z;
  ing_lagLog : list bool;
  ing_lagSent : list bool }.

Definition set_startOverride (b : bool) (i : Ingester) : Ingester :=
  mkIng (ing_opts i) b (ing_lag i) (ing_dryRunPosition i) (ing_tracker i) (ing_fetched i) (ing_written i) (ing_skipped i)
    (ing_lagShared i) (ing_lagging i) (ing_pollInterval i) (ing_lagLog i) (ing_lagSent i).
Definition set_dryRun (p : option (string * Z)) (i : Ingester) : Ingester :=
  mkIng (ing_opts i) (ing_startOverrideApplied i) (ing_lag i) p (ing_tracker i) (ing_fetched i) (ing_written i) (ing_skipped i)
    (ing_lagShared i) (ing_lagging i) (ing_pollInterval i) (ing_lagLog i) (ing_lagSent i).
Definition set_tracker (t : option ReorgTracker) (i : Ingester) : Ingester :=
  mkIng (ing_opts i) (ing_startOverrideApplied i) (ing_lag i) (ing_dryRunPosition i) t (ing_fetched i) (ing_written i) (ing_skipped i)
    (ing_lagShared i) (ing_lagging i) (ing_pollInterval i) (ing_lagLog i) (ing_lagSent i).
Definition set_counters (f w s : Z) (i : Ingester) : Ingester :=
  mkIng (ing_opts i) (ing_startOverrideApplied i) (ing_lag i) (ing_dryRunPosition i) (ing_tracker i) f w s
    (ing_lagShared i) (ing_lagging i) (ing_pollInterval i) (ing_lagLog i) (ing_lagSent i).
Definition set_pollInterval (d : Z) (i : Ingester) : Ingester :=
  mkIng (ing_opts i) (ing_startOverrideApplied i) (ing_lag i) (ing_dryRunPosition i) (ing_tracker i) (ing_fetched i)
    (ing_written i) (ing_skipped i) (ing_lagShared i) (ing_lagging i) d (ing_lagLog i) (ing_lagSent i).
(** The coordinator, the alarm flag, the alarm lines and the values sent. *)
Definition set_lag (c : option LagCoordinator) (b : bool) (lines sent : list bool) (i : Ingester) : Ingester :=
  mkIng (ing_opts i) (ing_startOverrideApplied i) c (ing_dryRunPosition i) (ing_tracker i) (ing_fetched i)
    (ing_written i) (ing_skipped i) (ing_lagShared i) b (ing_pollInterval i) lines sent.

(** The coordinator New builds when the caller supplies none. *)
Definition own_coordinator (o : Options) : LagCoordinator :=
  let recover := if ((op_LagRecoverLedgers o =? 0) && negb (op_LagBackpressureEnabled o))%bool
                 then op_LagWarnLedgers o else op_LagRecoverLedgers o in
  NewLagCoordinator (mkLagOptions (op_LagBackpressureEnabled o) (op_LagWarnLedgers o) recover
    (op_LagMaxDeferral o) (op_LagCatchUpSweepMultiplier o) true).

Definition NewIngester (o : Options) (shared : option LagCoordinator) : Ingester :=
  let o := Options_applyDefaults o in
  mkIng o false (Some (default (own_coordinator o) shared)) None
    (Some (NewReorgTracker (op_ReorgConfirmationWindow o))) 0 0 0
    (match shared with Some _ => true | None => false end) false (op_PollInterval o) [] [].

(** A state and error monad over the ingester and the world. *)
Definition M (W A : Type) : Type := Ingester -> W -> result ierror A * Ingester * W.

Definition mret {W A} (a : A) : M W A := fun i w => (Ok a, i, w).
Definition mfail {W A} (e : ierror) : M W A := fun i w => (Err e, i, w).
Definition mbind_ {W A B} (m : M W A) (k : A -> M W B) : M W B :=
  fun i w => match m i w with
             | (Ok a, i', w') => k a i' w'
             | (Err e, i', w') => (Err e, i', w')
             end.
(** The result of a computation as a value, errors included. *)
Definition mtry {W A} (m : M W A) : M W (result ierror A) :=
  fun i w => let '(r, i', w') := m i w in (Ok r, i', w').
Definition mget {W} : M W Ingester := fun i w => (Ok i, i, w).
Definition mmodify {W} (f : Ingester -> Ingester) : M W unit := fun i w => (Ok tt, f i, w).
Definition mworld {W} : M W W := fun i w => (Ok w, i, w).
Definition mrpc {W A} (f : W -> result rerror A * W) : M W A :=
  fun i w => let '(r, w') := f w in
             (match r with Ok a => Ok a | Err e => Err (IRpc e) end, i, w').
Definition mstore {W A} (f : W -> result error A * W) : M W A :=
  fun i w => let '(r, w') := f w in
             (match r with Ok a => Ok a | Err e => Err (IStore e) end, i, w').
Definition meffect {W} (f : W -> W) : M W unit := fun i w => (Ok tt, i, f w).
(** fmt.Errorf("...: %w", err) around a failing computation. *)
Definition mwrap {W A} (fmt : string) (m : M W A) : M W A :=
  fun i w => match m i w with
             | (Err e, i', w') => (Err (IWrap fmt e), i', w')
             | r => r
             end.

Notation "'let!' x := m 'in' k" := (mbind_ m (fun x => k))
  (at level 10, x pattern, m at level 100, k at level 200) : go_scope.
Notation "m ;; k" := (mbind_ m (fun _ => k)) (at level 100, right associativity) : go_scope.
