(* ===== verification/ReorgCoord.v ===== *)
(** * Concurrent reorganisations (internal/ingester/reorg.go, HandleReorgRange)

    Callers of HandleReorgRange share a coordinator guarded by a mutex: one of
    them runs reconciliation passes, the others leave their range in the
    coordinator and wait for an answer on a channel. Every critical section is
    one step of a transition system; passes, deliveries and cancellations
    interleave freely, and the outcome of a pass is arbitrary. *)

From S2P Require Import Prelude GoStrings GoSort StoreErrors StoreTypes RpcTypes.
From S2P Require Import ReorgTracker SqliteStore StoreReorg IngesterCore.
From Stdlib Require Import Ascii String.
Local Open Scope Z_scope.
Local Open Scope go_scope.
Local Notation length := List.length.

Definition mergeReorgResults (a b : ReorgReconcileResult) : ReorgReconcileResult :=
  if rr_FromLedger a =? 0 then b
  else
    mkReorgResult
      (if rr_FromLedger a <? rr_FromLedger b then rr_FromLedger a else rr_FromLedger b)
      (if rr_ToLedger b <? rr_ToLedger a then rr_ToLedger a else rr_ToLedger b)
      (rr_PreviousEventIDs b)
      (sort_Strings (elements (list_to_set (rr_RetractedEventIDs a) ∪ list_to_set (rr_RetractedEventIDs b) : gset string)))
      (rr_InsertedEventIDs b)
      (rr_RetractedAddressRefs a + rr_RetractedAddressRefs b)
      (rr_InsertedAddressRefs b)
      (rr_RetractedDeadLetters a + rr_RetractedDeadLetters b)
      (rr_RewoundContractCursors a + rr_RewoundContractCursors b)
      (rr_RewoundIngestionLedger b)
      (rr_RewoundAuditLedger b).

Record reorgWaitResult : Type := mkWaitResult {
  wr_res : ReorgReconcileResult;
  wr_err : option ierror }.

(** The waiters are the channels of the callers, named by caller. *)
Record reorgCoordinator : Type := mkCoord {
  rc_running : bool;
  rc_pending : bool;
  rc_pendingFrom : Z;
  rc_pendingTo : Z;
  rc_pendingHead : Z;
  rc_waiters : list nat;
  rc_lastResult : ReorgReconcileResult }.

(** The first critical section: start running (true) or join the pending
    range. *)
Definition coord_enter (g : nat) (from to head : Z) (c : reorgCoordinator) : bool * reorgCoordinator :=
  if rc_running c then
    (false,
     if negb (rc_pending c) then
       mkCoord true true from to head (rc_waiters c ++ [g]) (rc_lastResult c)
     else
       mkCoord true true
         (if from <? rc_pendingFrom c then from else rc_pendingFrom c)
         (if rc_pendingTo c <? to then to else rc_pendingTo c)
         (if 0 <? head then head else rc_pendingHead c)
         (rc_waiters c ++ [g]) (rc_lastResult c))
  else
    (true, mkCoord true (rc_pending c) (rc_pendingFrom c) (rc_pendingTo c) (rc_pendingHead c)
             (rc_waiters c) (rc_lastResult c)).

(** The critical section after a pass: leave with the channels to answer, or
    take the pending range for another pass. *)
Inductive after_pass : Type :=
  | Leave (answer : list nat)
  | Again (from to head : Z).

Definition coord_after (head : Z) (combined : ReorgReconcileResult) (failed : bool) (c : reorgCoordinator)
    : after_pass * reorgCoordinator :=
  if (failed || negb (rc_pending c))%bool then
    (Leave (rc_waiters c),
     mkCoord false false (rc_pendingFrom c) (rc_pendingTo c) (rc_pendingHead c) [] combined)
  else
    (Again (rc_pendingFrom c) (rc_pendingTo c) (if 0 <? rc_pendingHead c then rc_pendingHead c else head),
     mkCoord true false (rc_pendingFrom c) (rc_pendingTo c) (rc_pendingHead c) (rc_waiters c) (rc_lastResult c)).

(** ** The transition system *)

(** Where a caller is: inside executeReorgPass, in the select, or back. *)
Inductive caller : Type :=
  | Executing (from to head : Z) (combined : ReorgReconcileResult)
  | Waiting (mailbox : option reorgWaitResult)
  | Returned (r : reorgWaitResult).

(** What a caller asked for and the number of the first pass that started
    after it asked. *)
Record request : Type := mkReq { rq_from : Z; rq_to : Z; rq_stamp : nat }.

(** A completed pass: its range and whether it succeeded. *)
Record pass : Type := mkPass { p_from : Z; p_to : Z; p_ok : bool }.

Record sys : Type := mkSys {
  s_coord : reorgCoordinator;
  s_callers : gmap nat caller;
  s_requests : gmap nat request;
  s_history : list pass }.

Definition sys_init : sys := mkSys (mkCoord false false 0 0 0 [] reorg_result_zero) ∅ ∅ [].

Inductive label : Type :=
  | Arrive (g : nat) (from to head : Z)
  | PassDone (g : nat) (r : result ierror ReorgReconcileResult)
  | Receive (g : nat)
  | Cancel (g : nat).

(** Sending on the buffered channels: a waiter that has already returned
    never reads its answer. *)
Definition deliver (m : reorgWaitResult) (g : nat) (callers : gmap nat caller) : gmap nat caller :=
  match callers !! g with
  | Some (Waiting _) => <[g := Waiting (Some m)]> callers
  | _ => callers
  end.

Definition sys_step (s : sys) (l : label) : option sys :=
  match l with
  | Arrive g from to head =>
      match s_callers s !! g with
      | Some _ => None
      | None =>
          let '(runs, c) := coord_enter g from to head (s_coord s) in
          let stamp := if runs then length (s_history s) else S (length (s_history s)) in
          Some (mkSys c (<[g := if runs then Executing from to head reorg_result_zero else Waiting None]> (s_callers s))
                  (<[g := mkReq from to stamp]> (s_requests s)) (s_history s))
      end
  | PassDone g r =>
      match s_callers s !! g with
      | Some (Executing from to head combined) =>
          let '(combined, failed, err) :=
            match r with
            | Ok res => (mergeReorgResults combined res, false, None)
            | Err e => (combined, true, Some e)
            end in
          let hist := (s_history s ++ [mkPass from to (negb failed)])%list in
          let '(next, c) := coord_after head combined failed (s_coord s) in
          match next with
          | Leave answer =>
              let m := mkWaitResult combined err in
              Some (mkSys c (<[g := Returned m]> (foldr (deliver m) (s_callers s) answer)) (s_requests s) hist)
          | Again from' to' head' =>
              Some (mkSys c (<[g := Executing from' to' head' combined]> (s_callers s)) (s_requests s) hist)
          end
      | _ => None
      end
  | Receive g =>
      match s_callers s !! g with
      | Some (Waiting (Some m)) => Some (mkSys (s_coord s) (<[g := Returned m]> (s_callers s)) (s_requests s) (s_history s))
      | _ => None
      end
  | Cancel g =>
      match s_callers s !! g with
      | Some (Waiting _) =>
          Some (mkSys (s_coord s) (<[g := Returned (mkWaitResult reorg_result_zero (Some ICtx))]> (s_callers s))
                  (s_requests s) (s_history s))
      | _ => None
      end
  end.

Inductive reachable : sys -> Prop :=
  | reach_init : reachable sys_init
  | reach_step s l s' : reachable s -> sys_step s l = Some s' -> reachable s'.

(** ** The invariant *)

Definition covers (from to : Z) (rq : request) : Prop := from <= rq_from rq /\ rq_to rq <= to.

(** A pass that began after the request and succeeded covers it. *)
Definition done_after (hist : list pass) (rq : request) : Prop :=
  exists k p, hist !! k = Some p /\ (rq_stamp rq <= k)%nat /\ p_ok p = true /\ covers (p_from p) (p_to p) rq.

Definition promised (c : reorgCoordinator) (cur : option (nat * Z * Z)) (hist : list pass) (rq : request) : Prop :=
  (rc_pending c = true /\ (rq_stamp rq <= S (length hist))%nat /\ covers (rc_pendingFrom c) (rc_pendingTo c) rq) \/
  (exists g f t, cur = Some (g, f, t) /\ (rq_stamp rq <= length hist)%nat /\ covers f t rq) \/
  done_after hist rq.

(** [cur] is the caller inside a pass and the range of that pass. *)
Record coord_inv (s : sys) (cur : option (nat * Z * Z)) : Prop := {
  inv_running : rc_running (s_coord s) = bool_decide (is_Some cur);
  inv_cur : forall g f t, cur = Some (g, f, t) <-> exists h cb, s_callers s !! g = Some (Executing f t h cb);
  inv_idle : cur = None -> rc_waiters (s_coord s) = [] /\ rc_pending (s_coord s) = false;
  inv_nodup : NoDup (rc_waiters (s_coord s));
  inv_waiting : forall g, s_callers s !! g = Some (Waiting None) -> g ∈ rc_waiters (s_coord s);
  inv_queue : forall g, g ∈ rc_waiters (s_coord s) ->
    s_callers s !! g = Some (Waiting None) \/ exists m, s_callers s !! g = Some (Returned m) /\ wr_err m <> None;
  inv_promise : forall g, g ∈ rc_waiters (s_coord s) \/ (exists f t, cur = Some (g, f, t)) ->
    exists rq, s_requests s !! g = Some rq /\ promised (s_coord s) cur (s_history s) rq;
  inv_answer : forall g m,
    s_callers s !! g = Some (Waiting (Some m)) \/ s_callers s !! g = Some (Returned m) -> wr_err m = None ->
    exists rq, s_requests s !! g = Some rq /\ done_after (s_history s) rq }.

Lemma done_after_app hist p rq : done_after hist rq -> done_after (hist ++ [p]) rq.
Proof.
  intros (k & q & Hk & Hs & Hok & Hc). exists k, q. split; [|done].
  apply lookup_app_l_Some. exact Hk.
Qed.

Lemma done_after_last hist f t rq : (rq_stamp rq <= length hist)%nat -> covers f t rq ->
  done_after (hist ++ [mkPass f t true]) rq.
Proof.
  intros Hs Hc. exists (length hist), (mkPass f t true). split; [|done].
  rewrite lookup_app_r, Nat.sub_diag by done. done.
Qed.

(** Entering keeps every promise already made. *)
Lemma promised_enter g from to head c cur hist rq :
  (rc_running c = false -> rc_pending c = false) -> rc_running c = bool_decide (is_Some cur) ->
  promised c cur hist rq ->
  promised (coord_enter g from to head c).2 (if rc_running c then cur else Some (g, from, to)) hist rq.
Proof.
  intros Hidle Hrun [(Hp & Hs & Hc) | [(g' & f & t & Hcur & Hs & Hc) | Hd]]; unfold coord_enter.
  - destruct (rc_running c); [|rewrite Hidle in Hp by done; done]. left. rewrite Hp. cbn.
    split; [done|]. split; [done|]. destruct Hc. split.
    + destruct (Z.ltb_spec from (rc_pendingFrom c)); lia.
    + destruct (Z.ltb_spec (rc_pendingTo c) to); lia.
  - right. left. exists g', f, t. subst cur. rewrite Hrun. done.
  - right. by right.
Qed.

(** The caller that enters is promised its own range. *)
Lemma promised_own g from to head c hist cur :
  let runs := negb (rc_running c) in
  promised (coord_enter g from to head c).2 (if rc_running c then cur else Some (g, from, to)) hist
    (mkReq from to (if runs then length hist else S (length hist))).
Proof.
  cbn. unfold coord_enter. destruct (rc_running c); cbn.
  - left. destruct (rc_pending c); cbn; (split; [done|]); (split; [done|]); split; cbn; try lia.
    + destruct (Z.ltb_spec from (rc_pendingFrom c)); lia.
    + destruct (Z.ltb_spec (rc_pendingTo c) to); lia.
  - right. left. exists g, from, to. done.
Qed.

Lemma deliver_lookup m l callers g :
  foldr (deliver m) callers l !! g =
  match callers !! g with
  | Some (Waiting b) => Some (Waiting (if bool_decide (g ∈ l) then Some m else b))
  | x => x
  end.
Proof.
  induction l as [|x l IH]; cbn [foldr].
  { destruct (callers !! g) as [[]|]; done. }
  unfold deliver at 1. destruct (decide (x = g)) as [-> | Hne].
  - rewrite IH. destruct (callers !! g) as [[| b |]|]; cbn; rewrite ?IH; try done.
    rewrite lookup_insert_eq. by rewrite (bool_decide_true (g ∈ g :: l)) by (by left).
  - assert (Hiff : bool_decide (g ∈ x :: l) = bool_decide (g ∈ l)).
    { apply bool_decide_ext. rewrite elem_of_cons. naive_solver. }
    rewrite Hiff. destruct (foldr (deliver m) callers l !! x) as [[| |]|]; rewrite ?lookup_insert_ne by done; exact IH.
Qed.

Lemma init_inv : coord_inv sys_init None.
Proof.
  split; cbn [sys_init s_coord s_callers s_requests s_history rc_running rc_pending rc_waiters]; try done.
  - intros g f t. split; [done|]. intros (h & cb & H). by rewrite lookup_empty in H.
  - constructor.
  - by intros g ?%not_elem_of_nil.
  - intros g [?%not_elem_of_nil | (f & t & [=])]. done.
  - intros g m [H | H]; by rewrite lookup_empty in H.
Qed.

Lemma fresh_caller s cur g : coord_inv s cur -> s_callers s !! g = None ->
  g ∉ rc_waiters (s_coord s) /\ forall f t, cur <> Some (g, f, t).
Proof.
  intros I Eg. split.
  - intros Hin. destruct (inv_queue _ _ I g Hin) as [H | (m & H & _)]; by rewrite Eg in H.
  - intros f t H. apply (inv_cur _ _ I) in H as (h & cb & H). by rewrite Eg in H.
Qed.

Lemma inv_idle_running s cur : coord_inv s cur -> rc_running (s_coord s) = false -> cur = None.
Proof.
  intros I Hr. rewrite (inv_running _ _ I) in Hr. apply bool_decide_eq_false in Hr.
  destruct cur; [|done]. exfalso. apply Hr. by eexists.
Qed.

Lemma inv_keep s cur g from to head rq : coord_inv s cur -> promised (s_coord s) cur (s_history s) rq ->
  promised (coord_enter g from to head (s_coord s)).2 (if rc_running (s_coord s) then cur else Some (g, from, to))
    (s_history s) rq.
Proof.
  intros I. apply promised_enter; [|apply I]. intros Hr. apply I. by eapply inv_idle_running.
Qed.

Lemma enter_joins g from to head c : rc_running c = true ->
  let c' := (coord_enter g from to head c).2 in
  (coord_enter g from to head c).1 = false /\ rc_running c' = true /\ rc_waiters c' = (rc_waiters c ++ [g])%list.
Proof. intros Hr. unfold coord_enter. rewrite Hr. by destruct (negb _). Qed.

(** Answers of other callers are untouched by a new caller. *)
Lemma answer_insert s cur g x rq0 : coord_inv s cur -> (forall m, x <> Returned m /\ x <> Waiting (Some m)) ->
  forall g' m,
  <[g := x]> (s_callers s) !! g' = Some (Waiting (Some m)) \/ <[g := x]> (s_callers s) !! g' = Some (Returned m) ->
  wr_err m = None -> exists rq, <[g := rq0]> (s_requests s) !! g' = Some rq /\ done_after (s_history s) rq.
Proof.
  intros I Hx g' m H Hm. destruct (decide (g' = g)) as [-> | Hne].
  { rewrite lookup_insert_eq in H. destruct (Hx m). destruct H as [[=] | [=]]; done. }
  rewrite lookup_insert_ne in H by done. rewrite lookup_insert_ne by done. by eapply (inv_answer _ _ I).
Qed.

Lemma join_inv s cur g from to head : coord_inv s cur -> s_callers s !! g = None ->
  rc_running (s_coord s) = true ->
  coord_inv (mkSys (coord_enter g from to head (s_coord s)).2 (<[g := Waiting None]> (s_callers s))
    (<[g := mkReq from to (S (length (s_history s)))]> (s_requests s)) (s_history s)) cur.
Proof.
  intros I Eg Er. destruct (fresh_caller _ _ _ I Eg) as [Hnin Hnc].
  pose proof (promised_own g from to head (s_coord s) (s_history s) cur) as Hown. cbn in Hown.
  pose proof (fun rq => inv_keep s cur g from to head rq I) as Hkeep.
  destruct (enter_joins g from to head (s_coord s) Er) as (_ & Hc & Hw). rewrite Er in Hown, Hkeep.
  set (c := (coord_enter g from to head (s_coord s)).2) in *.
  split; cbn [s_coord s_callers s_requests s_history]; rewrite ?Hw.
  - rewrite Hc, <- Er. apply I.
  - intros g' f t. rewrite (inv_cur _ _ I). destruct (decide (g' = g)) as [-> | Hne].
    + rewrite lookup_insert_eq, Eg. naive_solver.
    + by rewrite lookup_insert_ne by done.
  - intros ->. pose proof (inv_running _ _ I) as H. by rewrite Er in H.
  - apply list.NoDup_app. split; [apply I|]. split; [|apply NoDup_singleton].
    intros x Hx Hx2. apply list_elem_of_singleton in Hx2 as ->. done.
  - intros g' H. apply elem_of_app. destruct (decide (g' = g)) as [-> | Hne]; [right; by left|].
    rewrite lookup_insert_ne in H by done. left. by apply I.
  - intros g' H. destruct (decide (g' = g)) as [-> | Hne]; [left; by rewrite lookup_insert_eq|].
    rewrite lookup_insert_ne by done. apply I. apply elem_of_app in H as [H | H]; [done|].
    by apply list_elem_of_singleton in H.
  - intros g' H. destruct (decide (g' = g)) as [-> | Hne].
    { eexists. rewrite lookup_insert_eq. split; [done|]. exact Hown. }
    rewrite lookup_insert_ne by done. destruct (inv_promise _ _ I g') as (rq & ? & ?).
    { destruct H as [H | H]; [|by right]. left. apply elem_of_app in H as [H | H]; [done|].
      by apply list_elem_of_singleton in H. }
    exists rq. split; [done|by apply Hkeep].
  - by apply (answer_insert s cur g).
Qed.

Lemma run_inv s cur g from to head : coord_inv s cur -> s_callers s !! g = None ->
  rc_running (s_coord s) = false ->
  coord_inv (mkSys (coord_enter g from to head (s_coord s)).2
    (<[g := Executing from to head reorg_result_zero]> (s_callers s))
    (<[g := mkReq from to (length (s_history s))]> (s_requests s)) (s_history s)) (Some (g, from, to)).
Proof.
  intros I Eg Er. pose proof (inv_idle_running _ _ I Er) as ->. destruct (inv_idle _ _ I eq_refl) as [Hw0 Hp0].
  pose proof (promised_own g from to head (s_coord s) (s_history s) None) as Hown. cbn in Hown. rewrite Er in Hown.
  assert (Hw : rc_waiters (coord_enter g from to head (s_coord s)).2 = []) by (unfold coord_enter; by rewrite Er).
  split; cbn [s_coord s_callers s_requests s_history]; rewrite ?Hw; try done.
  - unfold coord_enter. by rewrite Er.
  - intros g' f t. destruct (decide (g' = g)) as [-> | Hne].
    + rewrite lookup_insert_eq. naive_solver.
    + rewrite lookup_insert_ne by done. rewrite <- (inv_cur _ _ I). naive_solver.
  - constructor.
  - intros g' H. destruct (decide (g' = g)) as [-> | Hne]; [by rewrite lookup_insert_eq in H|].
    rewrite lookup_insert_ne in H by done. rewrite <- Hw0. by apply I.
  - by intros g' ?%not_elem_of_nil.
  - intros g' [?%not_elem_of_nil | (f & t & [= <- <- <-])]; [done|].
    eexists. rewrite lookup_insert_eq. split; [done|]. exact Hown.
  - by apply (answer_insert s None g).
Qed.

Lemma arrive_inv s cur g from to head s' :
  coord_inv s cur -> sys_step s (Arrive g from to head) = Some s' -> exists cur', coord_inv s' cur'.
Proof.
  intros I Hstep. cbn in Hstep. destruct (s_callers s !! g) eqn:Eg; [done|].
  destruct (rc_running (s_coord s)) eqn:Er.
  - exists cur. pose proof (join_inv s cur g from to head I Eg Er) as H.
    destruct (enter_joins g from to head (s_coord s) Er) as (H1 & _).
    destruct (coord_enter g from to head (s_coord s)) as [runs c]. cbn in *. by simplify_eq.
  - exists (Some (g, from, to)). pose proof (run_inv s cur g from to head I Eg Er) as H.
    unfold coord_enter in *. rewrite Er in *. cbn in *. by simplify_eq.
Qed.

(** After a successful pass a promise is kept or still pending. *)
Lemma promised_after c g f t hist rq : promised c (Some (g, f, t)) hist rq ->
  let hist' := (hist ++ [mkPass f t true])%list in
  (rc_pending c = true /\ (rq_stamp rq <= length hist')%nat /\ covers (rc_pendingFrom c) (rc_pendingTo c) rq) \/
  done_after hist' rq.
Proof.
  cbv zeta. rewrite length_app. cbn. intros [(Hp & Hs & Hc) | [(g' & f' & t' & [= <- <- <-] & Hs & Hc) | Hd]].
  - left. split; [done|]. split; [lia|done].
  - right. by apply done_after_last.
  - right. by apply done_after_app.
Qed.

Lemma again_inv s g f t h cb cb' h' : coord_inv s (Some (g, f, t)) ->
  s_callers s !! g = Some (Executing f t h cb) -> rc_pending (s_coord s) = true ->
  let c := s_coord s in
  coord_inv (mkSys (mkCoord true false (rc_pendingFrom c) (rc_pendingTo c) (rc_pendingHead c) (rc_waiters c) (rc_lastResult c))
    (<[g := Executing (rc_pendingFrom c) (rc_pendingTo c) h' cb']> (s_callers s)) (s_requests s)
    (s_history s ++ [mkPass f t true])) (Some (g, rc_pendingFrom c, rc_pendingTo c)).
Proof.
  intros I Eg Hp. cbv zeta. split; cbn [s_coord s_callers s_requests s_history rc_running rc_pending rc_waiters];
    try done.
  - intros g' f' t'. destruct (decide (g' = g)) as [-> | Hne].
    + rewrite lookup_insert_eq. naive_solver.
    + rewrite lookup_insert_ne by done. pose proof (inv_cur _ _ I g' f' t') as H. naive_solver.
  - apply I.
  - intros g' H. apply I. destruct (decide (g' = g)) as [-> | Hne]; [by rewrite lookup_insert_eq in H|].
    by rewrite lookup_insert_ne in H.
  - intros g' H. destruct (decide (g' = g)) as [-> | Hne].
    + exfalso. destruct (inv_queue _ _ I g H) as [Hq | (m & Hq & _)]; by rewrite Eg in Hq.
    + rewrite lookup_insert_ne by done. by apply I.
  - intros g' H. destruct (inv_promise _ _ I g') as (rq & Hrq & Hpr).
    { destruct H as [H | (f' & t' & [= <- <- <-])]; [by left|right; by eexists _, _]. }
    exists rq. split; [done|]. right. destruct (promised_after _ _ _ _ _ _ Hpr) as [(_ & Hs & Hc) | Hd]; [left|by right].
    by exists g, (rc_pendingFrom (s_coord s)), (rc_pendingTo (s_coord s)).
  - intros g' m H Hm. destruct (decide (g' = g)) as [-> | Hne].
    { rewrite lookup_insert_eq in H. by destruct H. }
    rewrite lookup_insert_ne in H by done. destruct (inv_answer _ _ I g' m H Hm) as (rq & ? & ?).
    exists rq. split; [done|by apply done_after_app].
Qed.

(** A caller's place after the answers went out. *)
Lemma leave_lookup m l callers g g' x : <[g := Returned m]> (foldr (deliver m) callers l) !! g' = Some x ->
  (g' = g /\ x = Returned m) \/
  (g' <> g /\ ((g' ∈ l /\ x = Waiting (Some m)) \/
               (callers !! g' = Some x /\ forall b, x = Waiting b -> g' ∉ l))).
Proof.
  destruct (decide (g' = g)) as [-> | Hne]; [rewrite lookup_insert_eq; intros [= <-]; by left|].
  rewrite lookup_insert_ne, deliver_lookup by done. intros H. right. split; [done|].
  destruct (callers !! g') as [[| b |]|]; try (right; naive_solver).
  case_bool_decide; [left|right]; naive_solver.
Qed.

Lemma leave_inv s g f t h cb m ok : coord_inv s (Some (g, f, t)) ->
  s_callers s !! g = Some (Executing f t h cb) ->
  (wr_err m = None -> ok = true /\ rc_pending (s_coord s) = false) ->
  let c := s_coord s in
  coord_inv (mkSys (mkCoord false false (rc_pendingFrom c) (rc_pendingTo c) (rc_pendingHead c) [] (wr_res m))
    (<[g := Returned m]> (foldr (deliver m) (s_callers s) (rc_waiters c))) (s_requests s)
    (s_history s ++ [mkPass f t ok])) None.
Proof.
  intros I Eg Hm. cbv zeta.
  assert (Hdone : forall g', g' ∈ rc_waiters (s_coord s) \/ g' = g -> wr_err m = None ->
    exists rq, s_requests s !! g' = Some rq /\ done_after (s_history s ++ [mkPass f t ok]) rq).
  { intros g' Hg' Herr. destruct (Hm Herr) as [-> Hp]. destruct (inv_promise _ _ I g') as (rq & Hrq & Hpr).
    { destruct Hg' as [H | ->]; [by left|right; by eexists _, _]. }
    exists rq. split; [done|]. destruct (promised_after _ _ _ _ _ _ Hpr) as [(Hp' & _) | Hd]; [congruence|done]. }
  split; cbn [s_coord s_callers s_requests s_history rc_running rc_pending rc_waiters]; try done.
  - intros g' f' t'. split; [done|]. intros (h' & cb' & H).
    apply leave_lookup in H as [[_ [=]] | (Hne & [[_ [=]] | [H _]])].
    assert (Some (g, f, t) = Some (g', f', t')) by (apply (inv_cur _ _ I); by eexists _, _). by simplify_eq.
  - constructor.
  - intros g' H. apply leave_lookup in H as [[_ [=]] | (Hne & [[_ [=]] | [H Hn]])].
    exfalso. apply (Hn None eq_refl). by apply I.
  - by intros g' ?%not_elem_of_nil.
  - intros g' [?%not_elem_of_nil | (f' & t' & [=])]. done.
  - intros g' m' H Herr. destruct H as [H | H];
      apply leave_lookup in H as [[-> Hx] | (Hne & [[Hin Hx] | [H _]])]; simplify_eq; try (apply Hdone; auto; fail).
    + destruct (inv_answer _ _ I g' m') as (rq & ? & ?); [by left|done|]. exists rq. split; [done|by apply done_after_app].
    + destruct (inv_answer _ _ I g' m') as (rq & ? & ?); [by right|done|]. exists rq. split; [done|by apply done_after_app].
Qed.

Lemma pass_inv s cur g r s' :
  coord_inv s cur -> sys_step s (PassDone g r) = Some s' -> exists cur', coord_inv s' cur'.
Proof.
  intros I Hstep. cbn in Hstep. destruct (s_callers s !! g) as [[f t h cb| |]|] eqn:Eg; try done.
  assert (cur = Some (g, f, t)) as -> by (apply (inv_cur _ _ I); by eexists _, _).
  destruct r as [res|e]; unfold coord_after in Hstep; cbn in Hstep.
  - destruct (rc_pending (s_coord s)) eqn:Ep; cbn in Hstep; simplify_eq.
    + eexists. by eapply again_inv.
    + exists None. by apply (leave_inv s g f t h cb (mkWaitResult (mergeReorgResults cb res) None) true).
  - simplify_eq. exists None. by apply (leave_inv s g f t h cb (mkWaitResult cb (Some e)) false).
Qed.

(** Leaving the select. *)
Lemma return_inv s cur g b m : coord_inv s cur -> s_callers s !! g = Some (Waiting b) ->
  b = Some m \/ wr_err m <> None ->
  coord_inv (mkSys (s_coord s) (<[g := Returned m]> (s_callers s)) (s_requests s) (s_history s)) cur.
Proof.
  intros I Eg Hb. split; cbn [s_coord s_callers s_requests s_history]; try apply I.
  - intros g' f t. rewrite (inv_cur _ _ I). destruct (decide (g' = g)) as [-> | Hne].
    + rewrite lookup_insert_eq, Eg. naive_solver.
    + by rewrite lookup_insert_ne by done.
  - intros g' H. destruct (decide (g' = g)) as [-> | Hne]; [by rewrite lookup_insert_eq in H|].
    rewrite lookup_insert_ne in H by done. by apply I.
  - intros g' H. destruct (decide (g' = g)) as [-> | Hne]; [|rewrite lookup_insert_ne by done; by apply I].
    right. exists m. rewrite lookup_insert_eq. split; [done|].
    destruct (inv_queue _ _ I g H) as [Hq | (m' & Hq & _)]; rewrite Eg in Hq; simplify_eq. by destruct Hb.
  - intros g' m' H Hm. destruct (decide (g' = g)) as [-> | Hne].
    + rewrite lookup_insert_eq in H. destruct H as [[=] | [= ->]]. destruct Hb as [-> | ?]; [|done].
      apply (inv_answer _ _ I g m'); [by left|done].
    + rewrite lookup_insert_ne in H by done. by eapply (inv_answer _ _ I).
Qed.

Lemma reachable_inv s : reachable s -> exists cur, coord_inv s cur.
Proof.
  induction 1 as [|s l s' _ [cur I] Hstep]; [exists None; apply init_inv|].
  destruct l as [g from to head|g r|g|g].
  - by eapply arrive_inv.
  - by eapply pass_inv.
  - cbn in Hstep. destruct (s_callers s !! g) as [[|[m|]|]|] eqn:Eg; simplify_eq. exists cur.
    eapply return_inv; [done|done|by left].
  - cbn in Hstep. destruct (s_callers s !! g) as [[|b|]|] eqn:Eg; simplify_eq. exists cur.
    eapply return_inv; [done|done|by right].
Qed.

(** C31: reorganisation passes never race and nobody is stranded. In every
    reachable state at most one caller is inside a pass and the running flag
    says whether there is one; a caller still waiting without an answer is queued
    and some caller is running, so an answer will be sent; and no channel is
    queued twice, so a send on its one-place buffer never blocks. *)
Theorem reorg_passes_serialised (s : sys) (Hr : reachable s) :
  (forall g1 g2 f1 t1 h1 c1 f2 t2 h2 c2,
     s_callers s !! g1 = Some (Executing f1 t1 h1 c1) -> s_callers s !! g2 = Some (Executing f2 t2 h2 c2) -> g1 = g2) /\
  (rc_running (s_coord s) = true <-> exists g f t h c, s_callers s !! g = Some (Executing f t h c)) /\
  (forall g, s_callers s !! g = Some (Waiting None) ->
     rc_running (s_coord s) = true /\ g ∈ rc_waiters (s_coord s)) /\
  NoDup (rc_waiters (s_coord s)) /\
  (forall g m, s_callers s !! g = Some (Waiting (Some m)) -> g ∉ rc_waiters (s_coord s)).
Proof.
  destruct (reachable_inv s Hr) as [cur I].
  assert (Hrun : rc_running (s_coord s) = true <-> is_Some cur) by (rewrite (inv_running _ _ I); apply bool_decide_eq_true).
  split; [|split; [|split; [|split]]].
  - intros g1 g2 f1 t1 h1 c1 f2 t2 h2 c2 H1 H2.
    assert (cur = Some (g1, f1, t1)) by (apply (inv_cur _ _ I); by eexists _, _).
    assert (cur = Some (g2, f2, t2)) by (apply (inv_cur _ _ I); by eexists _, _). by simplify_eq.
  - rewrite Hrun. split.
    + intros [[[g f] t] ->]. destruct (proj1 (inv_cur _ _ I g f t) eq_refl) as (h & c & H). by exists g, f, t, h, c.
    + intros (g & f & t & h & c & H). exists (g, f, t). apply (inv_cur _ _ I). by exists h, c.
  - intros g Hg. pose proof (inv_waiting _ _ I g Hg) as Hw. split; [|done]. apply Hrun.
    destruct cur; [by eexists|]. destruct (inv_idle _ _ I eq_refl) as [H _]. rewrite H in Hw.
    by apply not_elem_of_nil in Hw.
  - apply I.
  - intros g m Hg Hin. destruct (inv_queue _ _ I g Hin) as [H | (m' & H & _)]; by rewrite Hg in H.
Qed.

(** C30: coalescing loses no request. A caller of HandleReorgRange that returns
    without an error had its whole range inside a pass that started after the
    call and succeeded, whichever caller ran that pass. *)
Theorem reorg_caller_covered (s : sys) (g : nat) (m : reorgWaitResult) (Hr : reachable s)
    (Hret : s_callers s !! g = Some (Returned m)) (Herr : wr_err m = None) :
  exists rq k p, s_requests s !! g = Some rq /\ s_history s !! k = Some p /\ (rq_stamp rq <= k)%nat /\
    p_ok p = true /\ p_from p <= rq_from rq /\ rq_to rq <= p_to p.
Proof.
  destruct (reachable_inv s Hr) as [cur I].
  destruct (inv_answer _ _ I g m) as (rq & Hrq & k & p & Hk & Hs & Hok & Hc); [by right|done|].
  by exists rq, k, p.
Qed.

(** ** Three callers *)

Fixpoint sys_run (s : sys) (ls : list label) : option sys :=
  match ls with
  | [] => Some s
  | l :: ls' => match sys_step s l with Some s' => sys_run s' ls' | None => None end
  end.

Lemma reachable_run ls : forall s s', reachable s -> sys_run s ls = Some s' -> reachable s'.
Proof.
  induction ls as [|l ls IH]; intros s s' Hr; cbn; [by intros [= <-]|].
  destruct (sys_step s l) as [s1|] eqn:E; [|done]. apply IH. by eapply reach_step.
Qed.

Definition demo_pass (from to : Z) (ids : list string) : result ierror ReorgReconcileResult :=
  Ok (mkReorgResult from to ids ids [] 1 0 0 0 0 0).

(** Caller 1 repairs [10,12] while 2 and 3 join; 2 gives up waiting. *)
Definition demo_labels : list label :=
  [Arrive 1 10 12 20; Arrive 2 8 11 0; Arrive 3 11 15 21; Cancel 2; PassDone 1 (demo_pass 10 12 ["b"; "a"]);
   PassDone 1 (demo_pass 8 15 ["c"; "a"]); Receive 3].

Definition demo_sys (n : nat) : sys := default sys_init (sys_run sys_init (take n demo_labels)).

Lemma demo_reachable n : reachable (demo_sys n).
Proof.
  unfold demo_sys. destruct (sys_run sys_init (take n demo_labels)) as [s|] eqn:E; [|constructor].
  eapply reachable_run; [constructor|exact E].
Qed.

Lemma reorg_passes_serialised_witness :
  s_callers (demo_sys 5) !! 1%nat = Some (Executing 8 15 21 (mkReorgResult 10 12 ["b"; "a"] ["b"; "a"] [] 1 0 0 0 0 0)) /\
  s_callers (demo_sys 5) !! 3%nat = Some (Waiting None) /\
  NoDup (rc_waiters (s_coord (demo_sys 5))).
Proof.
  split; [vm_compute; reflexivity|]. split; [vm_compute; reflexivity|].
  exact (proj1 (proj2 (proj2 (proj2 (reorg_passes_serialised (demo_sys 5) (demo_reachable 5)))))).
Defined.

Lemma reorg_caller_covered_witness :
  rr_RetractedEventIDs (wr_res (match s_callers (demo_sys 7) !! 3%nat with
    | Some (Returned m) => m | _ => mkWaitResult reorg_result_zero None end)) = ["a"; "b"; "c"] /\
  exists rq k p, s_requests (demo_sys 7) !! 3%nat = Some rq /\ s_history (demo_sys 7) !! k = Some p /\
    (rq_stamp rq <= k)%nat /\ p_ok p = true /\ p_from p <= rq_from rq /\ rq_to rq <= p_to p.
Proof.
  split; [vm_compute; reflexivity|].
  refine (reorg_caller_covered (demo_sys 7) 3
    (mkWaitResult (mkReorgResult 8 15 ["c"; "a"] ["a"; "b"; "c"] [] 2 0 0 0 0 0) None) (demo_reachable 7) _ _).
  - vm_compute. reflexivity.
  - reflexivity.
Defined.
