(* ===== verification/Ingester.v ===== *)
(** * Ingester: one ingestion cycle (internal/ingester/ingester.go, reorg.go)

    Every operation of a cycle as a computation over the ingester's state and
    the world of its interfaces. The two paging loops, whose length the remote
    endpoint decides, take fuel and fail with [IFuel] when it runs out. Batches
    of a sweep run one after the other (SweepConcurrency = 1); a batch after a
    failed one sees a cancelled context and does nothing. Metrics, spans and log
    lines are not modelled. *)

From S2P Require Import Prelude GoStrings GoSort StoreErrors StoreTypes RpcTypes Backpressure ReorgTracker.
From S2P Require Import SqliteStore StoreReorg IngesterCore.
From Stdlib Require Import Ascii String.
Local Open Scope Z_scope.
Local Open Scope go_scope.
Local Notation length := List.length.
Local Abbreviation SEvent := StoreTypes.Event.
Local Abbreviation REvent := RpcTypes.Event.

Section Cycle.
Context {W : Type} `{!RpcClient W} `{!Store W} `{!Services W}.
(** Pages one paging loop may fetch. *)
Context (page_fuel : nat).

Definition dryRun : M W bool := let! i := mget in mret (op_DryRun (ing_opts i)).

Definition addFetched (n : Z) : M W unit :=
  mmodify (fun i => set_counters (ing_fetched i + n) (ing_written i) (ing_skipped i) i).
Definition addWritten (n : Z) : M W unit :=
  mmodify (fun i => set_counters (ing_fetched i) (ing_written i + n) (ing_skipped i) i).
Definition addSkipped (n : Z) : M W unit :=
  mmodify (fun i => set_counters (ing_fetched i) (ing_written i) (ing_skipped i + n) i).
Definition cycle_reset : M W unit := mmodify (set_counters 0 0 0).

Definition setDryRunPosition (cursor : string) (ledger : Z) : M W unit :=
  mmodify (fun i => if op_DryRun (ing_opts i) then set_dryRun (Some (cursor, ledger)) i else i).

Definition getIngestionState : M W IngestionState :=
  let! i := mget in mstore (st_GetIngestionState (op_Network (ing_opts i))).

(** ** Decoding *)

Definition toStoreEvent (re : REvent) : result ierror SEvent :=
  match sv_decode re with
  | Err msg => Err (IWrap "decoding event %s: %w" (IDecode msg))
  | Ok (topics, value) =>
      Ok (mkEvent (re_ID re) (re_ContractID re) (re_Ledger re) (re_Type re) (re_TxHash re)
            (re_TransactionIndex re) (re_OperationIndex re) (re_InSuccessfulContractCall re)
            topics value
            (if bool_decide (re_LedgerClosedAt re = "") then time_zero else sv_parseTime (re_LedgerClosedAt re))
            "" (re_Topic re) (re_Value re))
  end.

(** ** Persistence *)

Definition address_refs (events : list SEvent) : list AddressRef :=
  events ≫= (fun ev => (fun ar => mkAddressRef ar.1 (ID ev) ar.2) <$> sv_addresses ev).

Definition indexEventAddresses (events : list SEvent) : M W unit :=
  let! dry := dryRun in
  if (dry || bool_decide (events = []))%bool then mret tt
  else let refs := address_refs events in
       if bool_decide (length refs = 0%nat) then mret tt else mstore (st_UpsertAddressRefs refs).

Definition dead_letter_of_rpc (re : REvent) : DeadLetterInput :=
  mkDeadLetter (re_ID re) (re_ContractID re) (re_Ledger re) (re_Type re) (re_TxHash re) (re_Topic re) (re_Value re).
Definition dead_letter_of_event (ev : SEvent) : DeadLetterInput :=
  mkDeadLetter (ID ev) (ContractID ev) (Ledger ev) (Type_ ev) (TxHash ev) (RawTopicXDR ev) (RawValueXDR ev).

Definition has_sink : bool := match sv_deadLetter with Some _ => true | None => false end.

Definition recordDeadLetter (input : DeadLetterInput) (cause : ierror) : M W unit :=
  match sv_deadLetter with
  | Some sink => mstore (sink input cause)
  | None => mret tt
  end.

Definition permanent (e : ierror) : bool :=
  match e with IStore e => IsPermanentEventError e | _ => false end.

(** Each event of a poisoned chunk on its own. *)
Fixpoint isolate (chunk : list SEvent) (total : Z) : M W Z :=
  match chunk with
  | [] => mret total
  | ev :: rest =>
      let! r := mtry (mstore (st_UpsertEvents [ev])) in
      match r with
      | Ok n => isolate rest (total + n)
      | Err e =>
          if permanent e then
            recordDeadLetter (dead_letter_of_event ev) e ;;
            addSkipped 1 ;;
            isolate rest total
          else mfail e
      end
  end.

Definition upsertChunkWithIsolation (chunk : list SEvent) : M W Z :=
  let! r := mtry (mstore (st_UpsertEvents chunk)) in
  match r with
  | Ok n => mret n
  | Err e => if (negb has_sink || negb (permanent e))%bool then mfail e else isolate chunk 0
  end.

(** The chunks of one page under the adaptive controller; every chunk is at
    least one event, so the number of events is enough fuel. *)
Fixpoint write_chunks (fuel : nat) (bc : batchController) (events : list SEvent) (inserted : Z) : M W Z :=
  match fuel with
  | O => mret inserted
  | S f =>
      match events with
      | [] => mret inserted
      | _ =>
          let n := Z.to_nat (bc_cur bc) in
          let chunk := take n events in
          let rest := drop n events in
          let! w0 := mworld in
          let! got := upsertChunkWithIsolation chunk in
          let! w1 := mworld in
          let latency := time_Sub (sv_now w1) (sv_now w0) in
          let '(backoff, bc) := recordAndBackoff (Z.of_nat (length chunk)) latency bc in
          if ((0 <? backoff) && negb (bool_decide (rest = [])))%bool then
            let! slept := (fun i w => let '(b, w') := sv_sleep backoff w in (Ok b, i, w')) in
            if negb (slept : bool) then mfail ICtx else write_chunks f bc rest (inserted + got)
          else write_chunks f bc rest (inserted + got)
      end
  end.

Definition writeEventsPersist (events : list SEvent) : M W Z :=
  let! i := mget in
  if (bool_decide (events = []) || op_DryRun (ing_opts i))%bool then mret 0
  else if op_BatchSize (ing_opts i) =? 0 then upsertChunkWithIsolation events
  else write_chunks (length events) (newBatchController (ing_opts i)) events 0.

Definition persistEventBatch (events : list SEvent) : M W unit :=
  let! dry := dryRun in
  if (dry : bool) then mret tt
  else
    writeEventsPersist events ;;
    addWritten (Z.of_nat (length events)) ;;
    mtry (indexEventAddresses events) ;;
    meffect (sv_publish events).

Fixpoint mapM_ {A} (f : A -> M W unit) (l : list A) : M W unit :=
  match l with
  | [] => mret tt
  | x :: l' => f x ;; mapM_ f l'
  end.

(** The conversion loop: skipped contracts are dropped, undecodable events go
    to the dead-letter sink or abort the page. *)
Fixpoint convert (rpcEvents : list REvent) : M W (list SEvent) :=
  match rpcEvents with
  | [] => mret []
  | re :: rest =>
      let! i := mget in
      if bool_decide (re_ContractID re ∈ op_SkipContracts (ing_opts i)) then
        addSkipped 1 ;; convert rest
      else match toStoreEvent re with
           | Ok ev => let! evs := convert rest in mret (ev :: evs)
           | Err e =>
               if op_DryRun (ing_opts i) then convert rest
               else if negb has_sink then mfail e
               else
                 mwrap "dead-lettering decode failure for event %s: %w" (recordDeadLetter (dead_letter_of_rpc re) e) ;;
                 addSkipped 1 ;; convert rest
           end
  end.

(** ** Reorganisations *)

Definition buildFilterBatches : M W (list (list EventFilter)) :=
  let! watched := mstore st_ListWatchedContracts in
  let! i := mget in
  mret (filter_batches (ing_opts i) watched).

(** Pages of one batch over [from, to]; [None] when the range left the
    provider's retention window and the caller allows it. *)
Fixpoint collect_pages (fuel : nat) (from to : Z) (batch : list EventFilter) (allowOutOfRange : bool)
    (cursor : string) (acc : list REvent) : M W (option (list REvent)) :=
  match fuel with
  | O => mfail IFuel
  | S f =>
      let! i := mget in
      let limit := op_PageLimit (ing_opts i) in
      let! r := mtry (mrpc (rpc_GetEvents (mkRequest from (u32 (to + 1)) batch cursor limit))) in
      match r with
      | Err e =>
          if ierror_out_of_range e then
            if allowOutOfRange then mret None
            else mfail (IWrap "HandleReorgRange getEvents [%d,%d]: %w" e)
          else mfail (IWrap "ReingestRange getEvents [%d,%d]: %w" e)
      | Ok resp =>
          let acc := (acc ++ filter (fun e => re_Ledger e <= to) (resp_Events resp))%list in
          match list.last (resp_Events resp) with
          | None => mret (Some acc)
          | Some l =>
              if ((Z.of_nat (length (resp_Events resp)) <? limit) && bool_decide (resp_Cursor resp = ""))%bool
              then mret (Some acc)
              else if to <? re_Ledger l then mret (Some acc)
              else
                let next := if bool_decide (resp_Cursor resp = "") then CursorValue l else resp_Cursor resp in
                if bool_decide (next = cursor) then mret (Some acc)
                else collect_pages f from to batch allowOutOfRange next acc
          end
      end
  end.

(** Decode failures abort the range; the network is filled in. *)
Fixpoint convert_range (o : Options) (events : list REvent) : result ierror (list SEvent) :=
  match events with
  | [] => Ok []
  | re :: rest =>
      if bool_decide (re_ContractID re ∈ op_SkipContracts o) then convert_range o rest
      else match toStoreEvent re with
           | Err e => Err e
           | Ok ev =>
               match convert_range o rest with
               | Err e => Err e
               | Ok evs => Ok (set_network (op_Network o) ev :: evs)
               end
           end
  end.

Definition mresult {A} (r : result ierror A) : M W A :=
  match r with Ok a => mret a | Err e => mfail e end.

Definition collectBatchEventsInRange (from to : Z) (batch : list EventFilter) (allowOutOfRange : bool)
    : M W (option (list SEvent)) :=
  let! pages := collect_pages page_fuel from to batch allowOutOfRange "" [] in
  let! i := mget in
  match pages with
  | None => mret None
  | Some events => let! evs := mresult (convert_range (ing_opts i) events) in mret (Some evs)
  end.

(** All batches in order; [None] as soon as one is out of range. *)
Fixpoint collect_batches (from to : Z) (batches : list (list EventFilter)) (allowOutOfRange : bool)
    : M W (option (list SEvent)) :=
  match batches with
  | [] => mret (Some [])
  | b :: rest =>
      let! one := collectBatchEventsInRange from to b allowOutOfRange in
      match one with
      | None => mret None
      | Some evs =>
          let! more := collect_batches from to rest allowOutOfRange in
          mret (match more with None => None | Some evs' => Some (evs ++ evs')%list end)
      end
  end.

Definition by_ledger (l : Z) (events : list SEvent) : list SEvent :=
  filter (fun ev => 0 < Ledger ev /\ u32 (Ledger ev) = l) events.

Definition record_fingerprint (l : Z) (events : list SEvent) : M W bool :=
  fun i w =>
    let '((mismatch, _), t) := RecordLedgerHash l (ComputeLedgerFingerprint l (by_ledger l events)) (ing_tracker i) in
    (Ok mismatch, set_tracker t i, w).

Definition executeReorgPass (from to newHead : Z) : M W ReorgReconcileResult :=
  let! batches := buildFilterBatches in
  let! collected := collect_batches from to batches false in
  let all := removeDuplicateEvents (default [] collected) in
  let shortened := ((0 <? newHead) && (newHead <? to))%bool in
  let all := if shortened then filter (fun ev => u32 (Ledger ev) <= newHead) all else all in
  let! i := mget in
  if op_DryRun (ing_opts i) then
    mret (mkReorgResult from to [] [] (ID <$> all) 0 0 0 0 0 0)
  else
    let! res := mwrap "ReplaceEventsInRange [%d,%d]: %w"
      (mstore (st_ReconcileReorgRange
        (mkReorgOptions (op_Network (ing_opts i)) from to all (address_refs all) newHead false))) in
    mmodify (fun i => match ing_tracker i with
                      | None => i
                      | Some _ => if shortened then set_tracker (ResetAbove newHead (ing_tracker i)) i else i
                      end) ;;
    let maxTrack := if shortened then newHead else to in
    match ing_tracker i with
    | None => mret tt
    | Some _ => mapM_ (fun l => record_fingerprint l all ;; mret tt) (seqZ from (maxTrack - from + 1))
    end ;;
    (if bool_decide (rr_RetractedEventIDs res = []) then mret tt
     else meffect (sv_notifyReorg from to newHead (rr_RetractedEventIDs res) all)) ;;
    mret res.

(** One reorganisation when no other is being processed. *)
Definition HandleReorgRange (from to newHead : Z) : M W ReorgReconcileResult :=
  if ((from =? 0) || (to =? 0) || (to <? from))%bool then
    mfail (IMsg "HandleReorgRange: invalid range [%d,%d]")
  else
    let! w := mworld in
    let! archivedThrough := mresult (sv_archivedThrough w) in
    if ((0 <? archivedThrough) && (from <=? archivedThrough))%bool then mfail IReorgTouchesArchived
    else
      let! st := mtry getIngestionState in
      let frontier := match st with
                      | Ok st => if 0 <? LastIngestedLedger st then u32 (LastIngestedLedger st) else 0
                      | Err _ => 0
                      end in
      let frontier := if frontier <? to then to else frontier in
      let! i := mget in
      let '(_, _, exceeded) := EvaluateDepth from to frontier (ing_tracker i) in
      if (exceeded : bool) then mfail IReorgDepthExceeded
      else executeReorgPass from to newHead.

Definition maybeHandleTipRegression (latestLedger : Z) : M W bool :=
  let! i := mget in
  if (op_DryRun (ing_opts i) || (op_ReorgConfirmationWindow (ing_opts i) =? 0) || (latestLedger =? 0))%bool
  then mret false
  else
    let '(regressed, from, to) := CheckTipRegression latestLedger (ing_tracker i) in
    let! st := mtry getIngestionState in
    let '(regressed, from, to) :=
      match st with
      | Ok st =>
          if latestLedger <? LastIngestedLedger st then
            let head := u32 (LastIngestedLedger st) in
            if negb regressed then (true, u32 (latestLedger + 1), head)
            else (true, from, if to <? head then head else to)
          else (regressed, from, to)
      | Err _ => (regressed, from, to)
      end in
    if negb regressed then mret false
    else HandleReorgRange from to latestLedger ;; mret true.

Definition seen_ledgers (events : list SEvent) : list Z :=
  sort_Z (remove_dups ((fun ev => u32 (Ledger ev)) <$> filter (fun ev => 0 < Ledger ev) events)).

Fixpoint record_ledgers (ledgers : list Z) (events : list SEvent) (from to : Z) : M W (Z * Z) :=
  match ledgers with
  | [] => mret (from, to)
  | l :: rest =>
      let! mismatch := record_fingerprint l events in
      if (mismatch : bool) then
        record_ledgers rest events
          (if ((from =? 0) || (l <? from))%bool then l else from) (if to <? l then l else to)
      else record_ledgers rest events from to
  end.

Definition recordIngestedLedgerFingerprints (events : list SEvent) (latestLedger : Z) (checkDivergence : bool)
    : M W unit :=
  let! i := mget in
  match ing_tracker i with
  | None => mret tt
  | Some _ =>
      if bool_decide (events = []) then mret tt
      else
        let! range := record_ledgers (seen_ledgers events) events 0 0 in
        let from := range.1 in
        let to := range.2 in
        let! i := mget in
        if (checkDivergence && (0 <? from) && (0 <? op_ReorgConfirmationWindow (ing_opts i)) &&
            negb (op_DryRun (ing_opts i)))%bool then
          let highest := HighestLedger (ing_tracker i) in
          HandleReorgRange from (if to <? highest then highest else to) latestLedger ;; mret tt
        else mret tt
  end.

Definition persistEventsWithReorgCheck (rpcEvents : list REvent) (latestLedger : Z) (checkDivergence : bool)
    : M W unit :=
  if bool_decide (length rpcEvents = 0%nat) then mret tt
  else
    let! events := convert rpcEvents in
    let events := removeDuplicateEvents events in
    let! i := mget in
    mapM_ persistEventBatch (chunks (Z.to_nat (op_WriteBatchSize (ing_opts i))) events) ;;
    if negb (op_DryRun (ing_opts i))
    then recordIngestedLedgerFingerprints events latestLedger checkDivergence
    else mret tt.

Definition persistEvents (rpcEvents : list REvent) (latestLedger : Z) : M W unit :=
  persistEventsWithReorgCheck rpcEvents latestLedger false.
End Cycle.
