(* ===== verification/IngesterCycle.v ===== *)
(** * Ingester: positions, pages and window sweeps (internal/ingester/ingester.go)

    Where a cycle resumes, the single-page and window-sweep forms of a cycle,
    and runOnce, which chooses between them. *)

From S2P Require Import Prelude GoStrings GoSort StoreErrors StoreTypes RpcTypes Backpressure ReorgTracker.
From S2P Require Import SqliteStore StoreReorg IngesterCore Ingester.
From Stdlib Require Import Ascii String.
Local Open Scope Z_scope.
Local Open Scope go_scope.
Local Notation length := List.length.
Local Abbreviation SEvent := StoreTypes.Event.
Local Abbreviation REvent := RpcTypes.Event.

Section Positions.
Context {W : Type} `{!RpcClient W} `{!Store W} `{!Services W}.
Context (page_fuel : nat).

Definition not_found (e : ierror) : bool :=
  match e with IStore e => errors_Is e ErrNotFound | _ => false end.

Definition gap_error : ierror :=
  IMsg "START_LEDGER %d is below the RPC's oldest retained ledger %d; events in the gap are unrecoverable".

(** The cold start: retention window, absolute or relative override. *)
Definition cold_start : M W (Z * string) :=
  let! i := mget in
  let o := ing_opts i in
  let! health := mwrap "getHealth for cold start: %w" (mrpc rpc_GetHealth) in
  let! resolved :=
    if 0 <? op_StartLedger o then mret (op_StartLedger o)
    else if negb (bool_decide (op_StartLedgerRaw o = "")) then
      match resolveStartLedgerRaw (op_StartLedgerRaw o) health with
      | Some n => mret n
      | None => mfail (IMsg "START_LEDGER %q")
      end
    else
      let start := h_LatestLedger health - op_RetentionLedgers o in
      let start := if start <? h_OldestLedger health then h_OldestLedger health else start in
      let start := if start <? 2 then 2 else start in
      mret (u32 start) in
  if (((0 <? op_StartLedger o) || negb (bool_decide (op_StartLedgerRaw o = ""))) &&
      (0 <? h_OldestLedger health) && (resolved <? h_OldestLedger health))%bool
  then mfail gap_error
  else
    let resolved := if resolved <? 2 then 2 else resolved in
    setDryRunPosition "" (resolved - 1) ;;
    mret (resolved, "").

Definition resolvePosition : M W (Z * string) :=
  let! i := mget in
  let o := ing_opts i in
  match (if op_DryRun o then ing_dryRunPosition i else None) with
  | Some (cursor, ledger) =>
      if bool_decide (cursor = "") then mret (u32 (u32 ledger + 1), "") else mret (0, cursor)
  | None =>
      if (negb (ing_startOverrideApplied i) && (0 <? op_StartLedger o))%bool then
        mmodify (set_startOverride true) ;;
        let! health := mwrap "getHealth for override: %w" (mrpc rpc_GetHealth) in
        if ((0 <? h_OldestLedger health) && (op_StartLedger o <? h_OldestLedger health))%bool
        then mfail gap_error else mret (op_StartLedger o, "")
      else
        let! r := mtry getIngestionState in
        match r with
        | Err e => if not_found e then cold_start else mfail e
        | Ok st =>
            if negb (bool_decide (LastCursor st = "")) then
              setDryRunPosition (LastCursor st) (LastIngestedLedger st) ;; mret (0, LastCursor st)
            else if 0 <? LastIngestedLedger st then
              setDryRunPosition "" (LastIngestedLedger st) ;;
              mret (u32 (u32 (LastIngestedLedger st) + 1), "")
            else cold_start
        end
  end.

Definition coldStartPosition : M W Z := let! p := resolvePosition in mret p.1.

Definition resolveContractPosition (contractID : string) : M W Z :=
  let! r := mtry (mstore (st_GetContractCursor contractID)) in
  match r with
  | Err e => if not_found e then coldStartPosition
             else mfail (IWrap "loading contract cursor for %s: %w" e)
  | Ok cc => if 0 <? cc_LastIngestedLedger cc
             then mret (u32 (u32 (cc_LastIngestedLedger cc) + 1)) else coldStartPosition
  end.

Fixpoint earliest_of (ids : list string) (earliest : Z) : M W Z :=
  match ids with
  | [] => mret earliest
  | id :: rest =>
      let! start := resolveContractPosition id in
      earliest_of rest (if ((earliest =? 0) || (start <? earliest))%bool then start else earliest)
  end.

Definition resolveBatchStart (contractIDs : list string) : M W (Z * string) :=
  let! e := earliest_of contractIDs 0 in mret (e, "").

Definition earliestStartLedger : M W Z :=
  let! watched := mstore st_ListWatchedContracts in
  let! e := earliest_of (wc_ContractID <$> watched) 0 in
  if e =? 0 then coldStartPosition else mret e.

Definition reclampToOldest (contractIDs : list string) : M W unit :=
  let! health := mwrap "getHealth while re-clamping: %w" (mrpc rpc_GetHealth) in
  let clamped := h_OldestLedger health - 1 in
  let! i := mget in
  if negb (bool_decide (contractIDs = [])) then
    if op_DryRun (ing_opts i) then mret tt
    else mapM_ (fun id => mwrap "clamping cursor for %s: %w"
           (mstore (st_SaveContractCursor (mkContractCursor id clamped "")))) contractIDs
  else if op_DryRun (ing_opts i) then setDryRunPosition "" clamped
  else mstore (st_SaveIngestionState (mkIngestionState (op_Network (ing_opts i)) clamped "" None)).

Definition discardCursor : M W unit :=
  let! i := mget in
  if op_DryRun (ing_opts i) then
    match ing_dryRunPosition i with
    | Some (cursor, ledger) => if bool_decide (cursor = "") then mret tt else setDryRunPosition "" ledger
    | None => mret tt
    end
  else
    let! r := mtry getIngestionState in
    match r with
    | Err _ => mret tt
    | Ok st =>
        if bool_decide (LastCursor st = "") then mret tt
        else mtry (mstore (st_SaveIngestionState
               (mkIngestionState (op_Network (ing_opts i)) (LastIngestedLedger st) "" None))) ;; mret tt
    end.

(** ** Sweeping a window *)

Definition is_reanchor (e : ierror) : bool := IsFailoverReanchor (ierror_rpc e).

(** Pages of one batch; the result is the remaining budget and whether it ran
    out. *)
Fixpoint sweep_pages (fuel : nat) (start end_ : Z) (filters : list EventFilter) (cursor : string)
    (remaining : option Z) : M W (option Z * bool) :=
  match fuel with
  | O => mfail IFuel
  | S f =>
      let! i := mget in
      let pageLimit := op_PageLimit (ing_opts i) in
      if match remaining with Some r => r <=? 0 | None => false end then mret (remaining, true)
      else
        let limit := match remaining with Some r => Z.min pageLimit r | None => pageLimit end in
        let! r := mtry (mrpc (rpc_GetEvents (mkRequest start (u32 (end_ + 1)) filters cursor limit))) in
        match r with
        | Err e =>
            if ierror_out_of_range e then mfail e
            else if is_reanchor e then discardCursor ;; mfail e
            else mfail (IWrap "getEvents sweep [%d,%d]: %w" e)
        | Ok resp =>
            let n := Z.of_nat (length (resp_Events resp)) in
            addFetched n ;;
            persistEvents page_fuel (resp_Events resp) (resp_LatestLedger resp) ;;
            let remaining := (fun r => r - n) <$> remaining in
            match list.last (resp_Events resp) with
            | None => mret (remaining, false)
            | Some l =>
                if end_ <? re_Ledger l then mret (remaining, false)
                else
                  let next := if bool_decide (resp_Cursor resp = "") then CursorValue l else resp_Cursor resp in
                  if ((n <? limit) && bool_decide (resp_Cursor resp = ""))%bool then mret (remaining, false)
                  else if bool_decide (next = cursor) then mret (remaining, false)
                  else
                    let! w := mworld in
                    if sv_ctxErr w then mfail ICtx
                    else sweep_pages f start end_ filters next remaining
            end
        end
  end.

Definition sweepBatch (start end_ : Z) (filters : list EventFilter) (remaining : option Z)
    : M W (option Z * bool) :=
  sweep_pages page_fuel start end_ filters "" remaining.

(** The batches share the budget; the flag says whether any of them ran out. *)
Fixpoint sweep_batches (start end_ : Z) (batches : list (list EventFilter)) (remaining : option Z)
    (capHit : bool) : M W bool :=
  match batches with
  | [] => mret capHit
  | b :: rest =>
      let! r := sweepBatch start end_ b remaining in
      sweep_batches start end_ rest r.1 (capHit || r.2)
  end.

Definition sweep_end (i : Ingester) (start latest : Z) : Z :=
  Z.min (u32 (u32 (start + effectiveSweepWindow (ing_opts i) (ing_lag i)) - 1)) latest.

Definition windowSweep (start : Z) (batches : list (list EventFilter)) : M W bool :=
  let! health := mwrap "getHealth for sweep window: %w" (mrpc rpc_GetHealth) in
  let latest := h_LatestLedger health in
  let! regressed := maybeHandleTipRegression page_fuel latest in
  if (regressed : bool) then mret true
  else if latest <? start then mret true
  else
    let! i := mget in
    let end_ := sweep_end i start latest in
    let! r := mtry (sweep_batches start end_ batches (newCycleBudget (ing_opts i)) false) in
    match r with
    | Err e => if ierror_out_of_range e then reclampToOldest [] ;; mret false else mfail e
    | Ok capHit =>
        if (capHit : bool) then mret false
        else
          let lastIngested := if latest <=? end_ then end_ - 1 else end_ in
          let! w := mworld in
          (if op_DryRun (ing_opts i) then setDryRunPosition "" lastIngested
           else mstore (st_SaveIngestionState
                  (mkIngestionState (op_Network (ing_opts i)) lastIngested "" (Some (sv_now w))))) ;;
          mret (latest <=? end_)
    end.

Definition windowSweepWatched (batches : list (list EventFilter)) : M W bool :=
  let! health := mwrap "getHealth for sweep window: %w" (mrpc rpc_GetHealth) in
  let latest := h_LatestLedger health in
  let! regressed := maybeHandleTipRegression page_fuel latest in
  if (regressed : bool) then mret true
  else
    let! start := earliestStartLedger in
    if latest <? start then mret true
    else
      let! i := mget in
      let end_ := sweep_end i start latest in
      let! r := mtry (sweep_batches start end_ batches (newCycleBudget (ing_opts i)) false) in
      match r with
      | Err e =>
          if ierror_out_of_range e then
            let! watched := mstore st_ListWatchedContracts in
            reclampToOldest (wc_ContractID <$> watched) ;;
            mstore (st_SaveIngestionState
              (mkIngestionState (op_Network (ing_opts i)) (h_OldestLedger health - 1) "" None)) ;;
            mret false
          else mfail e
      | Ok capHit =>
          if (capHit : bool) then mret false
          else
            let lastIngested := if latest <=? end_ then end_ - 1 else end_ in
            let! watched := mstore st_ListWatchedContracts in
            mapM_ (fun wc => mwrap "saving cursor for contract %s: %w"
              (mstore (st_SaveContractCursor (mkContractCursor (wc_ContractID wc) lastIngested "")))) watched ;;
            let! w := mworld in
            (if op_DryRun (ing_opts i) then setDryRunPosition "" lastIngested
             else mstore (st_SaveIngestionState
                    (mkIngestionState (op_Network (ing_opts i)) lastIngested "" (Some (sv_now w))))) ;;
            mret (latest <=? end_)
      end.

(** ** Single pages *)

Definition singlePage (startLedger : Z) (cursor : string) (filters : list EventFilter) : M W bool :=
  let! i := mget in
  let limit := effectivePageLimit (ing_opts i) in
  let! r := mtry (mrpc (rpc_GetEvents (mkRequest startLedger 0 filters cursor limit))) in
  match r with
  | Err e =>
      if is_reanchor e then discardCursor ;; mfail e
      else if ierror_out_of_range e then reclampToOldest [] ;; mret false
      else mfail (IWrap "getEvents from ledger %d: %w" e)
  | Ok resp =>
      let! regressed := maybeHandleTipRegression page_fuel (resp_LatestLedger resp) in
      if (regressed : bool) then mret true
      else
        addFetched (Z.of_nat (length (resp_Events resp))) ;;
        let! w := mworld in
        let '(state, caughtUp) := nextState (sv_now w) resp limit in
        persistEventsWithReorgCheck page_fuel (resp_Events resp) (resp_LatestLedger resp)
          (caughtUp && bool_decide (cursor = "")) ;;
        let ledger := if (bool_decide (LastCursor state = "") && (LastIngestedLedger state <=? 0))%bool
                      then startLedger - 1 else LastIngestedLedger state in
        let state := mkIngestionState (op_Network (ing_opts i)) ledger (LastCursor state) (LastSuccessfulPoll state) in
        (if op_DryRun (ing_opts i) then setDryRunPosition (LastCursor state) (LastIngestedLedger state)
         else mstore (st_SaveIngestionState state)) ;;
        mret caughtUp
  end.

(** The latest event of each contract on a page, in the order the contracts
    first appear. *)
Definition latest_step (m : gmap string (Z * string)) (e : REvent) : gmap string (Z * string) :=
  let cur := default (0, "") (m !! re_ContractID e) in
  if ((cur.1 <? re_Ledger e) ||
      ((re_Ledger e =? cur.1) && bool_decide (str_le cur.2 (CursorValue e) /\ cur.2 <> CursorValue e)))%bool
  then <[re_ContractID e := (re_Ledger e, CursorValue e)]> m else m.

Definition latestByContract (events : list REvent) : gmap string (Z * string) :=
  fold_left latest_step events ∅.

(** Go ranges over the map in an unspecified order; each contract has its own
    row, so the order only shows when a write fails in between. *)
Definition advanceContractCursors (events : list REvent) : M W unit :=
  if bool_decide (length events = 0%nat) then mret tt
  else mapM_ (fun kv => mwrap "saving cursor for contract %s: %w"
         (mstore (st_SaveContractCursor (mkContractCursor kv.1 kv.2.1 kv.2.2))))
         (map_to_list (latestByContract events)).

Definition singlePageWatched (filters : list EventFilter) : M W bool :=
  let contractIDs := contractIDsFromFilters filters in
  let! pos := resolveBatchStart contractIDs in
  let! i := mget in
  let limit := effectivePageLimit (ing_opts i) in
  let! r := mtry (mrpc (rpc_GetEvents (mkRequest pos.1 0 filters pos.2 limit))) in
  match r with
  | Err e =>
      if is_reanchor e then discardCursor ;; mfail e
      else if ierror_out_of_range e then reclampToOldest contractIDs ;; mret false
      else mfail (IWrap "getEvents from ledger %d: %w" e)
  | Ok resp =>
      let! regressed := maybeHandleTipRegression page_fuel (resp_LatestLedger resp) in
      if (regressed : bool) then mret true
      else
        addFetched (Z.of_nat (length (resp_Events resp))) ;;
        let caughtUp := Z.of_nat (length (resp_Events resp)) <? limit in
        persistEventsWithReorgCheck page_fuel (resp_Events resp) (resp_LatestLedger resp)
          (caughtUp && bool_decide (pos.2 = "")) ;;
        advanceContractCursors (resp_Events resp) ;;
        mret caughtUp
  end.

(** ** One cycle *)

Definition runOnceUnwatched : M W bool :=
  let! pos := resolvePosition in
  let! batches := buildFilterBatches in
  match batches with
  | [b] => singlePage pos.1 pos.2 b
  | _ => windowSweep pos.1 batches
  end.

Definition runOnceWatched : M W bool :=
  let! batches := buildFilterBatches in
  match batches with
  | [b] => singlePageWatched b
  | _ => windowSweepWatched batches
  end.

Definition runOnce : M W bool :=
  cycle_reset ;;
  let! watched := mstore st_ListWatchedContracts in
  if bool_decide (length watched = 0%nat) then runOnceUnwatched else runOnceWatched.

(** ** Reingestion *)

Definition ReingestRange (from to : Z) : M W Z :=
  if to <? from then mfail (IMsg "ReingestRange: from %d > %d")
  else
    let! w := mworld in
    let! archivedThrough := mresult (sv_archivedThrough w) in
    if ((0 <? archivedThrough) && (from <=? archivedThrough))%bool then mfail IReorgTouchesArchived
    else
      let! batches := buildFilterBatches in
      let! collected := collect_batches page_fuel from to batches true in
      match collected with
      | None => mret 0
      | Some evs =>
          let all := removeDuplicateEvents evs in
          let n := Z.of_nat (length all) in
          let! i := mget in
          if op_DryRun (ing_opts i) then mret n
          else
            mwrap "ReplaceEventsInRange [%d,%d]: %w" (mstore (st_ReplaceEventsInRange all from to)) ;;
            mtry (indexEventAddresses all) ;;
            mret n
      end.

Definition rescanForReorg : M W unit :=
  let! i := mget in
  if op_DryRun (ing_opts i) then mret tt
  else
    let! r := mtry getIngestionState in
    match r with
    | Err e => if not_found e then mret tt
               else mfail (IWrap "loading ingestion state for reorg rescan: %w" e)
    | Ok st =>
        if LastIngestedLedger st <=? 0 then mret tt
        else
          let frontier := u32 (LastIngestedLedger st) in
          if frontier <=? op_ReorgConfirmationWindow (ing_opts i) then mret tt
          else
            let to := u32 (frontier - 1) in
            let from := u32 (u32 (to - op_ReorgConfirmationWindow (ing_opts i)) + 1) in
            mwrap "ReingestRange [%d,%d]: %w" (ReingestRange from to) ;; mret tt
    end.

End Positions.
