(* ===== verification/IngesterRun.v ===== *)
(** * The polling loop and the lag alarm (internal/ingester/ingester.go)

    Run repeats runOnce with jittered exponential backoff on errors, checks the
    ingestion lag after every cycle and rescans the confirmation window on a
    cadence. One turn of the loop is [run_iter]; the loop itself is bounded by a
    number of turns, so the theorems quantify over every number. *)

From S2P Require Import Prelude GoStrings GoSort StoreErrors StoreTypes RpcTypes Backpressure.
From S2P Require Import ReorgTracker SqliteStore StoreReorg IngesterCore Ingester IngesterCycle.
From Stdlib Require Import Ascii String.
Local Open Scope Z_scope.
Local Open Scope go_scope.
Local Notation length := List.length.

(** ** The lag alarm *)

Definition effectiveLagRecoverLedgers (o : Options) (shared : bool) : Z :=
  if 0 <? op_LagRecoverLedgers o then
    if op_LagWarnLedgers o <? op_LagRecoverLedgers o then op_LagWarnLedgers o else op_LagRecoverLedgers o
  else if (op_LagBackpressureEnabled o || shared)%bool then u32 (op_LagWarnLedgers o * 3) / 4
  else op_LagWarnLedgers o.

(** opts.LagMetrics.SetLagging called by the ingester itself. *)
Definition send_lagging (b : bool) (i : Ingester) : Ingester :=
  set_lag (ing_lag i) (ing_lagging i) (ing_lagLog i) (b :: ing_lagSent i) i.

Definition publishLagging (now : Z) (b : bool) (i : Ingester) : Ingester :=
  let i := if ing_lagShared i
           then set_lag (SetLagging b now (ing_lag i)).2 (ing_lagging i) (ing_lagLog i) (ing_lagSent i) i else i in
  send_lagging b i.

Definition observe_lag (now latest last : Z) (i : Ingester) : Ingester :=
  set_lag (ObserveLag latest last now (ing_lag i)).2 (ing_lagging i) (ing_lagLog i) (ing_lagSent i) i.

Definition has_coordinator (i : Ingester) : bool := match ing_lag i with Some _ => true | None => false end.

(** The decision of checkLag once the chain head and the state row (if there
    is one) are known. *)
Definition lag_decision (now latest : Z) (state : option IngestionState) (i : Ingester) : Ingester :=
  let o := ing_opts i in
  let own := (has_coordinator i && negb (ing_lagShared i))%bool in
  match state with
  | None => if own then observe_lag now latest 0 i else publishLagging now false i
  | Some st =>
      let last := LastIngestedLedger st in
      let rawLag := i64 (latest - last) in
      if ((0 <? last) && (rawLag <? 0))%bool then
        if own then observe_lag now latest last i else publishLagging now (ing_lagging i) i
      else
        let lagging :=
          if 0 <? last then
            if negb (ing_lagging i) then op_LagWarnLedgers o <? rawLag
            else effectiveLagRecoverLedgers o (ing_lagShared i) <? rawLag
          else false in
        let i := if has_coordinator i then
                   let i := observe_lag now latest last i in
                   if ing_lagShared i then send_lagging lagging i else i
                 else send_lagging lagging i in
        if Bool.eqb lagging (ing_lagging i) then i
        else set_lag (ing_lag i) lagging (lagging :: ing_lagLog i) (ing_lagSent i) i
  end.

Section Run.
Context {W : Type} `{!RpcClient W} `{!Store W} `{!Services W} (page_fuel : nat).

Definition checkLag : M W unit :=
  let! i := mget in
  if (op_DryRun (ing_opts i) || (op_LagWarnLedgers (ing_opts i) =? 0))%bool then mret tt
  else
    let! latest := mtry (mrpc rpc_GetLatestLedger) in
    match latest with
    | Err _ => mret tt
    | Ok latest =>
        let! st := mtry getIngestionState in
        let! w := mworld in
        match st with
        | Ok st => mmodify (lag_decision (sv_now w) (ll_Sequence latest) (Some st))
        | Err e =>
            if not_found e then mmodify (lag_decision (sv_now w) (ll_Sequence latest) None) else mret tt
        end
    end.

Definition SetPollInterval (d : Z) : M W unit :=
  if d <=? 0 then mfail (IMsg "poll interval must be positive, got %s") else mmodify (set_pollInterval d).

(** ** Run *)

Record RunState : Type := mkRun {
  rs_backoff : Z;
  rs_retries : Z;
  rs_lastReorgRescanAt : Z }.

Definition clock_sleep (d : Z) : M W bool := fun i w => let '(b, w') := sv_sleep d w in (Ok b, i, w').

(** A failed cycle: the state for the next turn, or [None] when the context
    ended during the sleep. *)
Definition after_error (rs : RunState) : M W (option RunState) :=
  let! i := mget in
  let o := ing_opts i in
  let reset := ((0 <? op_MaxRetries o) && (op_MaxRetries o <=? rs_retries rs))%bool in
  let retries := (if reset then 0 else rs_retries rs) + 1 in
  let backoff := if reset then op_MinBackoff o else rs_backoff rs in
  checkLag ;;
  let! w := mworld in
  let! slept := clock_sleep (backoffSleep o (sv_jitter w) backoff) in
  if negb (slept : bool) then mret None
  else
    let doubled := i64 (backoff * 2) in
    mret (Some (mkRun (if op_MaxBackoff o <? doubled then op_MaxBackoff o else doubled) retries
                  (rs_lastReorgRescanAt rs))).

(** A cycle that succeeded. *)
Definition after_success (caughtUp : bool) (rs : RunState) : M W (option RunState) :=
  let! i := mget in
  let o := ing_opts i in
  checkLag ;;
  let! i2 := mget in
  let! slept := (if caughtUp then clock_sleep (ing_pollInterval i2) else mret true) in
  if negb (slept : bool) then mret None
  else
    let! w := mworld in
    if ((0 <? op_ReorgConfirmationWindow o) &&
        (op_ReorgRescanInterval o <=? time_Sub (sv_now w) (rs_lastReorgRescanAt rs)))%bool then
      mtry (rescanForReorg page_fuel) ;;
      mret (Some (mkRun (op_MinBackoff o) 0 (sv_now w)))
    else mret (Some (mkRun (op_MinBackoff o) 0 (rs_lastReorgRescanAt rs))).

(** One turn; [None] means Run returned ctx.Err(). *)
Definition run_iter (rs : RunState) : M W (option RunState) :=
  let! r := mtry (runOnce page_fuel) in
  let! w := mworld in
  if sv_ctxErr w then mret None
  else match r with
       | Err _ => after_error rs
       | Ok caughtUp => after_success caughtUp rs
       end.

Fixpoint run_turns (n : nat) (rs : RunState) : M W (option RunState) :=
  match n with
  | O => mret (Some rs)
  | S n' => let! next := run_iter rs in
            match next with
            | None => mret None
            | Some rs' => run_turns n' rs'
            end
  end.

Definition Run (n : nat) : M W (option RunState) :=
  let! i := mget in run_turns n (mkRun (op_MinBackoff (ing_opts i)) 0 time_zero).

Fixpoint dry_turns (fuel : nat) : M W unit :=
  match fuel with
  | O => mfail IFuel
  | S f =>
      let! r := mtry (runOnce page_fuel) in
      let! w := mworld in
      if sv_ctxErr w then mfail ICtx
      else match r with
           | Err e => mfail e
           | Ok caughtUp => if (caughtUp : bool) then mret tt else dry_turns f
           end
  end.

Definition RunDryRun (fuel : nat) : M W unit :=
  let! i := mget in
  if negb (op_DryRun (ing_opts i)) then mfail (IMsg "RunDryRun requires Options.DryRun")
  else
    let! w := mworld in
    if sv_ctxErr w then mfail ICtx else dry_turns fuel.
End Run.

(** ** What a cycle leaves alone *)

(** The part of the ingester only checkLag and SetPollInterval change. *)
Definition fixed_part (i : Ingester) : Options * option LagCoordinator * bool * bool * Z * list bool * list bool :=
  (ing_opts i, ing_lag i, ing_lagShared i, ing_lagging i, ing_pollInterval i, ing_lagLog i, ing_lagSent i).

Definition keeps {W A} (m : M W A) : Prop := forall i w, fixed_part (m i w).1.2 = fixed_part i.

Lemma keeps_ret {W A} (a : A) : keeps (W := W) (mret a).
Proof. by intros i w. Qed.
Lemma keeps_fail {W A} e : keeps (W := W) (mfail (A := A) e).
Proof. by intros i w. Qed.
Lemma keeps_get {W} : keeps (W := W) mget.
Proof. by intros i w. Qed.
Lemma keeps_world {W} : keeps (W := W) mworld.
Proof. by intros i w. Qed.
Lemma keeps_effect {W} f : keeps (W := W) (meffect f).
Proof. by intros i w. Qed.
Lemma keeps_rpc {W A} (f : W -> result rerror A * W) : keeps (mrpc f).
Proof. intros i w. unfold mrpc. by destruct (f w). Qed.
Lemma keeps_store {W A} (f : W -> result error A * W) : keeps (mstore f).
Proof. intros i w. unfold mstore. by destruct (f w). Qed.
Lemma keeps_modify {W} f : (forall i, fixed_part (f i) = fixed_part i) -> keeps (W := W) (mmodify f).
Proof. intros Hf i w. apply Hf. Qed.
Lemma keeps_try {W A} (m : M W A) : keeps m -> keeps (mtry m).
Proof. intros Hm i w. unfold mtry. specialize (Hm i w). by destruct (m i w) as [[r i'] w']. Qed.
Lemma keeps_wrap {W A} f (m : M W A) : keeps m -> keeps (mwrap f m).
Proof. intros Hm i w. unfold mwrap. specialize (Hm i w). by destruct (m i w) as [[[a|e] i'] w']. Qed.
Lemma keeps_bind {W A B} (m : M W A) (k : A -> M W B) : keeps m -> (forall a, keeps (k a)) -> keeps (mbind_ m k).
Proof.
  intros Hm Hk i w. unfold mbind_. specialize (Hm i w). destruct (m i w) as [[[a|e] i'] w']; cbn in *; [|done].
  rewrite Hk. exact Hm.
Qed.

Create HintDb keeps.
#[export] Hint Resolve keeps_ret keeps_fail keeps_get keeps_world keeps_effect keeps_rpc keeps_store keeps_try
  keeps_wrap : keeps.
#[export] Hint Extern 1 (keeps (mmodify _)) => apply keeps_modify; intros; repeat case_match; reflexivity : keeps.

Ltac keeps_walk :=
  repeat first
    [ progress intros
    | match goal with
      | |- keeps (mbind_ _ _) => apply keeps_bind
      | |- keeps (mtry _) => apply keeps_try
      | |- keeps (mwrap _ _) => apply keeps_wrap
      end
    | solve [eauto with keeps]
    | match goal with |- keeps (if ?b then _ else _) => destruct b end
    | match goal with |- keeps (match ?x with _ => _ end) => destruct x end
    | match goal with |- keeps (let '(_, _) := ?x in _) => destruct x end ].

Section Keeps.
Context {W : Type} `{!RpcClient W} `{!Store W} `{!Services W} (page_fuel : nat).

Lemma keeps_sleep d : keeps (W := W) (fun i w => let '(b, w') := sv_sleep d w in (Ok b, i, w')).
Proof. intros i w. by destruct (sv_sleep d w). Qed.
Lemma keeps_mapM {A} (f : A -> M W unit) l : (forall x, keeps (f x)) -> keeps (mapM_ f l).
Proof. intros Hf. induction l as [|x l IH]; cbn [mapM_]; keeps_walk; auto. Qed.
Lemma keeps_result {A} (r : result ierror A) : keeps (W := W) (mresult r).
Proof. by destruct r. Qed.
Lemma keeps_sink input e : keeps (W := W) (recordDeadLetter input e).
Proof. unfold recordDeadLetter. keeps_walk. Qed.
Hint Resolve keeps_sleep keeps_result keeps_sink : keeps.

Lemma keeps_isolate chunk : forall total, keeps (W := W) (isolate chunk total).
Proof. induction chunk as [|ev rest IH]; intros total; cbn [isolate]; unfold addSkipped; keeps_walk; apply IH. Qed.
Hint Resolve keeps_isolate : keeps.
Lemma keeps_write_chunks f : forall bc events inserted, keeps (W := W) (write_chunks f bc events inserted).
Proof.
  induction f as [|f IH]; intros bc events inserted; [apply keeps_ret|].
  cbn [write_chunks]. unfold upsertChunkWithIsolation. destruct events as [|ev evs]; [apply keeps_ret|].
  cbv zeta. keeps_walk; apply IH.
Qed.
Hint Resolve keeps_write_chunks : keeps.
Lemma keeps_index events : keeps (W := W) (indexEventAddresses events).
Proof. unfold indexEventAddresses, dryRun. cbv zeta. keeps_walk. Qed.
Hint Resolve keeps_index : keeps.
Lemma keeps_persistEventBatch events : keeps (W := W) (persistEventBatch events).
Proof. unfold persistEventBatch, dryRun, writeEventsPersist, upsertChunkWithIsolation, addWritten. keeps_walk. Qed.
Lemma keeps_convert l : keeps (W := W) (convert l).
Proof. induction l as [|re l IH]; cbn [convert]; unfold addSkipped; keeps_walk; auto. Qed.
Hint Resolve keeps_persistEventBatch keeps_convert : keeps.

Lemma keeps_record_fingerprint l events : keeps (W := W) (record_fingerprint l events).
Proof.
  intros i w. unfold record_fingerprint. by destruct (RecordLedgerHash l _ (ing_tracker i)) as [[? ?] ?].
Qed.
Hint Resolve keeps_record_fingerprint : keeps.
Lemma keeps_record_ledgers ledgers events : forall from to, keeps (W := W) (record_ledgers ledgers events from to).
Proof. induction ledgers as [|l rest IH]; intros from to; cbn [record_ledgers]; keeps_walk; apply IH. Qed.
Lemma keeps_filters : keeps (W := W) buildFilterBatches.
Proof. unfold buildFilterBatches. keeps_walk. Qed.
Hint Resolve keeps_record_ledgers keeps_filters : keeps.

Lemma keeps_collect_pages from to batch allow f : forall c acc,
  keeps (W := W) (collect_pages f from to batch allow c acc).
Proof. induction f as [|f IH]; intros c acc; cbn [collect_pages]; cbv zeta; keeps_walk; apply IH. Qed.
Hint Resolve keeps_collect_pages : keeps.
Lemma keeps_collect_batches from to batches allow : keeps (W := W) (collect_batches page_fuel from to batches allow).
Proof.
  induction batches as [|b rest IH]; cbn [collect_batches]; unfold collectBatchEventsInRange; keeps_walk; auto.
Qed.
Hint Resolve keeps_collect_batches : keeps.
Lemma keeps_executeReorgPass from to head : keeps (W := W) (executeReorgPass page_fuel from to head).
Proof. unfold executeReorgPass. cbv zeta. keeps_walk. apply keeps_mapM. keeps_walk. Qed.
Hint Resolve keeps_executeReorgPass : keeps.
Lemma keeps_getIngestionState : keeps (W := W) getIngestionState.
Proof. unfold getIngestionState. keeps_walk. Qed.
Hint Resolve keeps_getIngestionState : keeps.
Lemma keeps_HandleReorgRange from to head : keeps (W := W) (HandleReorgRange page_fuel from to head).
Proof. unfold HandleReorgRange. cbv zeta. keeps_walk. Qed.
Hint Resolve keeps_HandleReorgRange : keeps.
Lemma keeps_tip latest : keeps (W := W) (maybeHandleTipRegression page_fuel latest).
Proof. unfold maybeHandleTipRegression. cbv zeta. keeps_walk. Qed.
Lemma keeps_fingerprints events latest check : keeps (W := W) (recordIngestedLedgerFingerprints page_fuel events latest check).
Proof. unfold recordIngestedLedgerFingerprints. cbv zeta. keeps_walk. Qed.
Hint Resolve keeps_tip keeps_fingerprints : keeps.
Lemma keeps_persistCheck evs latest check : keeps (W := W) (persistEventsWithReorgCheck page_fuel evs latest check).
Proof. unfold persistEventsWithReorgCheck. cbv zeta. keeps_walk. apply keeps_mapM. keeps_walk. Qed.
Hint Resolve keeps_persistCheck : keeps.
Lemma keeps_setDryRun c l : keeps (W := W) (setDryRunPosition c l).
Proof. apply keeps_modify. intros i. by destruct (op_DryRun _). Qed.
Hint Resolve keeps_setDryRun : keeps.

Lemma keeps_resolvePosition : keeps (W := W) resolvePosition.
Proof. unfold resolvePosition, cold_start. cbv zeta. keeps_walk. Qed.
Hint Resolve keeps_resolvePosition : keeps.
Lemma keeps_earliest_of ids : forall e, keeps (W := W) (earliest_of ids e).
Proof.
  induction ids as [|id ids IH]; intros e; cbn [earliest_of]; unfold resolveContractPosition, coldStartPosition;
    keeps_walk; apply IH.
Qed.
Hint Resolve keeps_earliest_of : keeps.
Lemma keeps_earliestStart : keeps (W := W) earliestStartLedger.
Proof. unfold earliestStartLedger, coldStartPosition. keeps_walk. Qed.
Lemma keeps_reclamp ids : keeps (W := W) (reclampToOldest ids).
Proof. unfold reclampToOldest. cbv zeta. keeps_walk. apply keeps_mapM. keeps_walk. Qed.
Lemma keeps_discardCursor : keeps (W := W) discardCursor.
Proof. unfold discardCursor. keeps_walk. Qed.
Hint Resolve keeps_earliestStart keeps_reclamp keeps_discardCursor : keeps.

Lemma keeps_sweep_pages start end_ filters f : forall c remaining,
  keeps (W := W) (sweep_pages page_fuel f start end_ filters c remaining).
Proof.
  induction f as [|f IH]; intros c remaining; cbn [sweep_pages]; unfold addFetched, persistEvents; cbv zeta;
    keeps_walk; apply IH.
Qed.
Hint Resolve keeps_sweep_pages : keeps.
Lemma keeps_sweep_batches start end_ batches : forall remaining hit,
  keeps (W := W) (sweep_batches page_fuel start end_ batches remaining hit).
Proof.
  induction batches as [|b rest IH]; intros remaining hit; cbn [sweep_batches]; unfold sweepBatch; keeps_walk; apply IH.
Qed.
Hint Resolve keeps_sweep_batches : keeps.
Lemma keeps_windowSweep start batches : keeps (W := W) (windowSweep page_fuel start batches).
Proof. unfold windowSweep. cbv zeta. keeps_walk. Qed.
Lemma keeps_windowSweepWatched batches : keeps (W := W) (windowSweepWatched page_fuel batches).
Proof. unfold windowSweepWatched. cbv zeta. keeps_walk. apply keeps_mapM. keeps_walk. Qed.
Lemma keeps_singlePage start c filters : keeps (W := W) (singlePage page_fuel start c filters).
Proof. unfold singlePage, addFetched. cbv zeta. keeps_walk. Qed.
Lemma keeps_singlePageWatched filters : keeps (W := W) (singlePageWatched page_fuel filters).
Proof.
  unfold singlePageWatched, addFetched, resolveBatchStart, advanceContractCursors. cbv zeta. keeps_walk.
  apply keeps_mapM. keeps_walk.
Qed.
Hint Resolve keeps_windowSweep keeps_windowSweepWatched keeps_singlePage keeps_singlePageWatched : keeps.

Lemma keeps_runOnce : keeps (W := W) (runOnce page_fuel).
Proof. unfold runOnce, cycle_reset, runOnceUnwatched, runOnceWatched. keeps_walk. Qed.
Lemma keeps_rescan : keeps (W := W) (rescanForReorg page_fuel).
Proof. unfold rescanForReorg, ReingestRange. cbv zeta. keeps_walk. Qed.
End Keeps.

(** ** The alarm *)

(** The alarm lines, the latest first: each differs from the one before, and
    the first ever is an alarm. *)
Fixpoint alternates (l : list bool) : Prop :=
  match l with
  | [] => True
  | b :: l' => b = negb (hd false l') /\ alternates l'
  end.

(** The coordinator's state after a sample. *)
Lemma observe_lagging latest last now c :
  opts (observe latest last now c).2 = opts c /\
  lagging (observe latest last now c).2 =
    if last <=? 0 then false
    else if i64 (latest - last) <? 0 then lagging c
    else next_lagging c (i64 (latest - last)).
Proof.
  unfold observe. cbv zeta. destruct (last <=? 0); [|destruct (_ <? 0)]; cbn [snd].
  - unfold notify, applyStateLocked. cbn. destruct (lagging c) eqn:El; cbn; destruct (o_Downstream _); cbn; by rewrite ?El.
  - by destruct (notify_fields (lagging c) c) as (-> & -> & _).
  - match goal with |- context [notify ?b (applyStateLocked ?b now ?c1)] =>
      destruct (notify_fields b (applyStateLocked b now c1)) as (-> & -> & _);
      change (next_lagging c1 (i64 (latest - last))) with (next_lagging c (i64 (latest - last)));
      set (b' := next_lagging c (i64 (latest - last))) end.
    unfold applyStateLocked. cbn. destruct b', (lagging c) eqn:El; cbn; by rewrite ?El.
Qed.

Lemma effective_recover_le o shared : 0 <= op_LagWarnLedgers o ->
  effectiveLagRecoverLedgers o shared <= op_LagWarnLedgers o.
Proof.
  intros Hw. unfold effectiveLagRecoverLedgers. repeat split_if; to_prop; try lia.
  unfold u32, wrapu. pose proof (Z.mod_le (op_LagWarnLedgers o * 3) (2 ^ 32) ltac:(lia) ltac:(lia)).
  apply Z.div_le_upper_bound; lia.
Qed.

(** The coordinator New builds uses the thresholds of the alarm. *)
Lemma own_coordinator_thresholds o : 0 < op_LagWarnLedgers o -> 0 <= op_LagRecoverLedgers o ->
  o_EnterLagLedgers (opts (own_coordinator o)) = op_LagWarnLedgers o /\
  o_RecoverLagLedgers (opts (own_coordinator o)) = effectiveLagRecoverLedgers o false.
Proof.
  intros Hw Hr. split; [done|]. cbn. unfold effectiveLagRecoverLedgers.
  pose proof (effective_recover_le o true ltac:(lia)) as Hle. unfold effectiveLagRecoverLedgers in Hle.
  rewrite orb_true_r in Hle. rewrite orb_false_r.
  destruct (Z.ltb_spec 0 (op_LagWarnLedgers o)); [|lia].
  destruct (Z.ltb_spec 0 (op_LagRecoverLedgers o)).
  - destruct (Z.eqb_spec (op_LagRecoverLedgers o) 0); [lia|]. cbn [andb negb].
    destruct (Z.eqb_spec (op_LagRecoverLedgers o) 0); [lia|]. done.
  - destruct (Z.eqb_spec (op_LagRecoverLedgers o) 0) as [E|]; [|lia]. rewrite E.
    destruct (op_LagBackpressureEnabled o); cbn [andb negb].
    + cbn. destruct (Z.ltb_spec (op_LagWarnLedgers o) (u32 (op_LagWarnLedgers o * 3) / 4)); [lia|done].
    + destruct (Z.eqb_spec (op_LagWarnLedgers o) 0); [lia|]. by rewrite Z.ltb_irrefl.
Qed.

(** The alarm of an ingester with its own coordinator. *)
Record alarm_inv (i : Ingester) : Prop := {
  al_own : ing_lagShared i = false;
  al_log : alternates (ing_lagLog i) /\ ing_lagging i = hd false (ing_lagLog i);
  al_coord : exists c, ing_lag i = Some c /\ o_EnterLagLedgers (opts c) = op_LagWarnLedgers (ing_opts i) /\
    o_RecoverLagLedgers (opts c) = effectiveLagRecoverLedgers (ing_opts i) false /\
    (lagging c = true -> ing_lagging i = true) }.

Lemma next_lagging_alarm c o raw flag :
  0 < op_LagWarnLedgers o -> o_EnterLagLedgers (opts c) = op_LagWarnLedgers o ->
  o_RecoverLagLedgers (opts c) = effectiveLagRecoverLedgers o false ->
  (lagging c = true -> flag = true) -> next_lagging c raw = true ->
  (if negb flag then op_LagWarnLedgers o <? raw else effectiveLagRecoverLedgers o false <? raw) = true.
Proof.
  intros Hw He Hr Hf. unfold next_lagging. rewrite He, Hr.
  pose proof (effective_recover_le o false ltac:(lia)) as Hle.
  destruct (Z.ltb_spec 0 (op_LagWarnLedgers o)); [|lia].
  destruct (lagging c) eqn:El.
  - rewrite (Hf eq_refl). cbn [negb andb]. destruct (Z.leb_spec raw (effectiveLagRecoverLedgers o false)); [done|].
    intros _. apply Z.ltb_lt. lia.
  - cbn [negb andb]. destruct (Z.ltb_spec (op_LagWarnLedgers o) raw); [|done]. intros _.
    destruct flag; cbn [negb]; [apply Z.ltb_lt; lia|done].
Qed.

(** Observing a sample moves only the coordinator. *)
Lemma observe_lag_inv now latest last i flag : alarm_inv i -> 0 < op_LagWarnLedgers (ing_opts i) ->
  (0 < last -> 0 <= i64 (latest - last) ->
     flag = (if negb (ing_lagging i) then op_LagWarnLedgers (ing_opts i) <? i64 (latest - last)
             else effectiveLagRecoverLedgers (ing_opts i) false <? i64 (latest - last))) ->
  (0 < last -> i64 (latest - last) < 0 -> flag = ing_lagging i) ->
  exists c, (ObserveLag latest last now (ing_lag i)).2 = Some c /\
    o_EnterLagLedgers (opts c) = op_LagWarnLedgers (ing_opts i) /\
    o_RecoverLagLedgers (opts c) = effectiveLagRecoverLedgers (ing_opts i) false /\
    (lagging c = true -> flag = true).
Proof.
  intros [Hown [Halt Hflag] (c & Hc & He & Hr & Himp)] Hw H1 H2. rewrite Hc.
  destruct (observe_lagging latest last now c) as [Ho Hl]. unfold ObserveLag, recv.
  destruct (observe latest last now c) as [b c'] eqn:Eo. cbn [snd] in *. exists c'.
  split; [done|]. rewrite Ho. split; [done|]. split; [done|]. rewrite Hl.
  destruct (Z.leb_spec last 0); [done|]. destruct (Z.ltb_spec (i64 (latest - last)) 0).
  - intros Hlag. rewrite H2 by done. by apply Himp.
  - intros Hnext. rewrite H1 by done. by eapply next_lagging_alarm.
Qed.

Lemma lag_decision_inv now latest st i : alarm_inv i -> 0 < op_LagWarnLedgers (ing_opts i) ->
  alarm_inv (lag_decision now latest st i) /\ ing_opts (lag_decision now latest st i) = ing_opts i.
Proof.
  intros I Hw. pose proof I as [Hown [Halt Hflag] (c & Hc & He & Hr & Himp)].
  unfold lag_decision, has_coordinator. rewrite Hc, Hown. cbn [andb negb].
  destruct st as [st|]; [destruct ((0 <? LastIngestedLedger st) && _)%bool eqn:Eneg|].
  - apply andb_true_iff in Eneg as [E1 E2]. apply Z.ltb_lt in E1, E2. split; [|done].
    destruct (observe_lag_inv now latest (LastIngestedLedger st) i (ing_lagging i) I Hw) as (c' & H1 & H2 & H3 & H4);
      [lia|done|]. split; cbn; [done|done|]. by exists c'.
  - set (flag := if 0 <? LastIngestedLedger st then _ else false).
    destruct (observe_lag_inv now latest (LastIngestedLedger st) i flag I Hw) as (c' & H1 & H2 & H3 & H4).
    { intros Hp _. subst flag. destruct (Z.ltb_spec 0 (LastIngestedLedger st)); [done|lia]. }
    { intros Hp Hn. apply Z.ltb_lt in Hp, Hn. by rewrite Hp, Hn in Eneg. }
    set (i1 := observe_lag now latest (LastIngestedLedger st) i). change (ing_lagShared i1) with (ing_lagShared i).
    rewrite Hown. change (ing_lagging i1) with (ing_lagging i).
    destruct (Bool.eqb flag (ing_lagging i)) eqn:Eq.
    + apply Bool.eqb_prop in Eq. split; [|done]. split; cbn; [done|done|]. exists c'. by rewrite <- Eq.
    + apply Bool.eqb_false_iff in Eq. split; [|done]. split; cbn; [done| |by exists c'].
      split; [|done]. split; [|done]. rewrite <- Hflag. destruct flag, (ing_lagging i); done.
  - destruct (observe_lag_inv now latest 0 i false I Hw) as (c' & H1 & H2 & H3 & H4); [lia|lia|].
    split; [|done]. split; cbn; [done|done|]. exists c'. naive_solver.
Qed.

(** A computation that keeps the alarm in order. *)
Definition alarm_ok {W A} (m : M W A) : Prop := forall i w,
  0 < op_LagWarnLedgers (ing_opts i) -> alarm_inv i ->
  alarm_inv (m i w).1.2 /\ ing_opts (m i w).1.2 = ing_opts i.

Lemma keeps_alarm {W A} (m : M W A) : keeps m -> alarm_ok m.
Proof.
  intros Hk i w Hw I. specialize (Hk i w). unfold fixed_part in Hk. injection Hk as H1 H2 H3 H4 H5 H6 H7.
  split; [|done]. destruct I as [Hown Hlog Hc]. split; rewrite ?H1, ?H2, ?H3, ?H4, ?H6; done.
Qed.

Lemma alarm_bind {W A B} (m : M W A) (k : A -> M W B) : alarm_ok m -> (forall a, alarm_ok (k a)) -> alarm_ok (mbind_ m k).
Proof.
  intros Hm Hk i w Hw I. unfold mbind_. destruct (Hm i w Hw I) as [H1 H2].
  destruct (m i w) as [[[a|e] i'] w']; cbn in *; [|done].
  destruct (Hk a i' w') as [H3 H4]; [by rewrite H2|done|]. split; [done|congruence].
Qed.

Section Alarm.
Context {W : Type} `{!RpcClient W} `{!Store W} `{!Services W} (page_fuel : nat).

Lemma alarm_decision now latest st : alarm_ok (W := W) (mmodify (lag_decision now latest st)).
Proof. intros i w Hw I. by apply lag_decision_inv. Qed.

Lemma alarm_checkLag : alarm_ok (W := W) checkLag.
Proof.
  unfold checkLag. apply alarm_bind; [apply keeps_alarm, keeps_get|]. intros i.
  destruct (_ || _)%bool; [apply keeps_alarm, keeps_ret|].
  apply alarm_bind; [apply keeps_alarm, keeps_try, keeps_rpc|]. intros [latest|e]; [|apply keeps_alarm, keeps_ret].
  apply alarm_bind; [apply keeps_alarm, keeps_try, keeps_getIngestionState|]. intros st.
  apply alarm_bind; [apply keeps_alarm, keeps_world|]. intros w.
  destruct st as [st|e]; [apply alarm_decision|]. destruct (not_found e); [apply alarm_decision|apply keeps_alarm, keeps_ret].
Qed.

Lemma alarm_run_iter rs : alarm_ok (W := W) (run_iter page_fuel rs).
Proof.
  unfold run_iter. apply alarm_bind; [apply keeps_alarm, keeps_try, keeps_runOnce|]. intros r.
  apply alarm_bind; [apply keeps_alarm, keeps_world|]. intros w.
  destruct (sv_ctxErr w); [apply keeps_alarm, keeps_ret|]. destruct r as [caughtUp|e].
  - unfold after_success. apply alarm_bind; [apply keeps_alarm, keeps_get|]. intros i. cbv zeta.
    apply alarm_bind; [apply alarm_checkLag|]. intros _. apply keeps_alarm. keeps_walk; try apply keeps_sleep.
    apply keeps_rescan.
  - unfold after_error. apply alarm_bind; [apply keeps_alarm, keeps_get|]. intros i. cbv zeta.
    apply alarm_bind; [apply alarm_checkLag|]. intros _. apply keeps_alarm. keeps_walk. apply keeps_sleep.
Qed.

Lemma alarm_run_turns n : forall rs, alarm_ok (W := W) (run_turns page_fuel n rs).
Proof.
  induction n as [|n IH]; intros rs; cbn [run_turns]; [apply keeps_alarm, keeps_ret|].
  apply alarm_bind; [apply alarm_run_iter|]. intros [rs'|]; [apply IH|apply keeps_alarm, keeps_ret].
Qed.
End Alarm.

(** the lag alarm of a running ingester with its own coordinator. After any
    number of turns of Run, against any endpoint and store, the alarm lines
    alternate between exceeded and recovered starting with exceeded, the alarm
    flag is the last line printed, and the coordinator engages backpressure only
    while the alarm is raised. *)
Theorem lag_alarm_alternates {W : Type} `{!RpcClient W} `{!Store W} `{!Services W}
    (page_fuel n : nat) (o : Options) (w : W)
    (Hwarn : 0 < op_LagWarnLedgers o) (Hrec : 0 <= op_LagRecoverLedgers o) :
  let i := (Run page_fuel n (NewIngester o None) w).1.2 in
  alternates (ing_lagLog i) /\ ing_lagging i = hd false (ing_lagLog i) /\
  (IsLagging (ing_lag i) = true -> ing_lagging i = true).
Proof.
  assert (I0 : alarm_inv (NewIngester o None)).
  { split; [done|done|]. exists (own_coordinator (Options_applyDefaults o)). split; [done|].
    destruct (own_coordinator_thresholds (Options_applyDefaults o)) as [H1 H2]; [done|done|]. done. }
  cbv zeta. unfold Run, mbind_. cbn [mget].
  destruct (alarm_run_turns page_fuel n (mkRun (op_MinBackoff (ing_opts (NewIngester o None))) 0 time_zero)
    (NewIngester o None) w Hwarn I0) as [[_ [Halt Hflag] (c & Hc & _ & _ & Himp)] _].
  split; [exact Halt|]. split; [exact Hflag|]. rewrite Hc. exact Himp.
Qed.

(** ** Backoff *)

Definition keeps_opts {W A} (m : M W A) : Prop := forall i w, ing_opts (m i w).1.2 = ing_opts i.

Lemma keeps_keeps_opts {W A} (m : M W A) : keeps m -> keeps_opts m.
Proof. intros H i w. specialize (H i w). unfold fixed_part in H. by injection H. Qed.

Lemma lag_decision_opts now latest st i : ing_opts (lag_decision now latest st i) = ing_opts i.
Proof. unfold lag_decision, publishLagging, send_lagging, observe_lag. repeat case_match; done. Qed.

(** A computation that never fails and keeps the options. *)
Definition total {W A} (m : M W A) (P : Options -> A -> Prop) : Prop := forall i w,
  match m i w with
  | (Ok a, i', _) => P (ing_opts i) a /\ ing_opts i' = ing_opts i
  | (Err _, _, _) => False
  end.

Lemma total_bind {W A B} (m : M W A) (k : A -> M W B) P Q :
  total m P -> (forall a, total (k a) (fun o b => P o a -> Q o b)) -> total (mbind_ m k) Q.
Proof.
  intros Hm Hk i w. unfold mbind_. specialize (Hm i w). destruct (m i w) as [[[a|e] i'] w']; [|done].
  destruct Hm as [HP Ho]. specialize (Hk a i' w'). destruct (k a i' w') as [[[b|e] i2] w2]; [|done].
  destruct Hk as [HQ Ho2]. rewrite Ho in *. split; [by apply HQ|done].
Qed.

Lemma total_weaken {W A} (m : M W A) (P Q : Options -> A -> Prop) : total m P -> (forall o a, P o a -> Q o a) -> total m Q.
Proof. intros Hm HPQ i w. specialize (Hm i w). destruct (m i w) as [[[a|e] i'] w']; [|done]. naive_solver. Qed.

Lemma total_ret {W A} (a : A) (P : Options -> A -> Prop) : (forall o, P o a) -> total (W := W) (mret a) P.
Proof. intros HP i w. cbn. done. Qed.
Lemma total_get {W} : total (W := W) mget (fun o i => ing_opts i = o).
Proof. by intros i w. Qed.
Lemma total_world {W} : total (W := W) mworld (fun _ _ => True).
Proof. by intros i w. Qed.
Lemma total_try {W A} (m : M W A) : keeps_opts m -> total (mtry m) (fun _ _ => True).
Proof. intros Hm i w. specialize (Hm i w). unfold mtry. by destruct (m i w) as [[r i'] w']. Qed.

Section Backoff.
Context {W : Type} `{!RpcClient W} `{!Store W} `{!Services W} (page_fuel : nat).

Lemma total_decision now latest st : total (W := W) (mmodify (lag_decision now latest st)) (fun _ _ => True).
Proof. intros i w. cbn. split; [done|apply lag_decision_opts]. Qed.

Lemma total_sleep d : total (W := W) (clock_sleep d) (fun _ _ => True).
Proof. intros i w. unfold clock_sleep. by destruct (sv_sleep d w). Qed.

Lemma total_checkLag : total (W := W) checkLag (fun _ _ => True).
Proof.
  unfold checkLag. eapply total_bind; [apply total_get|]. intros i.
  destruct (_ || _)%bool; [by apply total_ret|].
  eapply total_bind; [apply total_try, keeps_keeps_opts, keeps_rpc|]. intros [latest|e]; [|by apply total_ret].
  eapply total_bind; [apply total_try, keeps_keeps_opts, keeps_getIngestionState|]. intros st.
  eapply total_bind; [apply total_world|]. intros w.
  destruct st as [st|e]; [|destruct (not_found e); [|by apply total_ret]];
    (eapply total_weaken; [apply total_decision|done]).
Qed.

(** The options after defaults, as far as the loop relies on them. *)
Definition backoff_opts (o : Options) : Prop := 0 < op_MinBackoff o <= op_MaxBackoff o /\ op_MaxBackoff o < 2 ^ 62.

Definition run_ok (o : Options) (rs : RunState) : Prop :=
  op_MinBackoff o <= rs_backoff rs <= op_MaxBackoff o /\ 0 <= rs_retries rs /\
  (0 < op_MaxRetries o -> rs_retries rs <= op_MaxRetries o).

(** Every turn ends in a good state or in the end of the context. *)
Definition turn_ok (o : Options) (next : option RunState) : Prop :=
  match next with Some rs => run_ok o rs | None => True end.

Lemma total_after_error rs : total (W := W) (after_error rs)
  (fun o next => backoff_opts o -> run_ok o rs -> turn_ok o next).
Proof.
  unfold after_error. eapply total_bind; [apply total_get|]. intros i. cbv zeta.
  eapply total_bind; [apply total_checkLag|]. intros [].
  eapply total_bind; [apply total_world|]. intros w.
  eapply total_bind; [apply total_sleep|]. intros slept.
  destruct (negb slept); apply total_ret; intros o; [done|].
  intros _ _ _ Hi [[Hm1 Hm2] Hm3] (Hb & Hr & Hx). subst o. unfold turn_ok, run_ok. cbn.
  set (reset := (_ && _)%bool). set (b := if reset then _ else rs_backoff rs).
  assert (Hbb : op_MinBackoff (ing_opts i) <= b <= op_MaxBackoff (ing_opts i)) by (subst b; destruct reset; lia).
  rewrite i64_id by (unfold in_i64, minInt64, maxInt64; lia).
  split; [destruct (Z.ltb_spec (op_MaxBackoff (ing_opts i)) (b * 2)); lia|].
  subst reset. destruct (Z.ltb_spec 0 (op_MaxRetries (ing_opts i))); cbn [andb]; [|lia].
  destruct (Z.leb_spec (op_MaxRetries (ing_opts i)) (rs_retries rs)); lia.
Qed.

Lemma total_after_success caughtUp rs : total (W := W) (after_success page_fuel caughtUp rs)
  (fun o next => backoff_opts o -> turn_ok o next).
Proof.
  unfold after_success. eapply total_bind; [apply total_get|]. intros i. cbv zeta.
  eapply total_bind; [apply total_checkLag|]. intros [].
  eapply total_bind; [apply total_get|]. intros i2.
  eapply (total_bind _ _ (fun _ _ => True)); [destruct caughtUp; [apply total_sleep|by apply total_ret]|]. intros slept.
  destruct (negb slept); [by apply total_ret|].
  eapply total_bind; [apply total_world|]. intros w.
  assert (Hgood : forall o t, ing_opts i = o -> backoff_opts o -> run_ok o (mkRun (op_MinBackoff (ing_opts i)) 0 t)).
  { intros o t <- [[H1 H2] H3]. unfold run_ok. cbn. lia. }
  destruct (_ && _)%bool.
  - eapply total_bind; [apply total_try, keeps_keeps_opts, keeps_rescan|]. intros r. apply total_ret.
    intros o _ _ _ _ _ Hi Hb. by apply Hgood.
  - apply total_ret. intros o _ _ _ _ Hi Hb. by apply Hgood.
Qed.

Lemma total_run_iter rs : total (W := W) (run_iter page_fuel rs) (fun o next => backoff_opts o -> run_ok o rs -> turn_ok o next).
Proof.
  unfold run_iter. eapply total_bind; [apply total_try, keeps_keeps_opts, keeps_runOnce|]. intros r.
  eapply total_bind; [apply total_world|]. intros w. destruct (sv_ctxErr w); [by apply total_ret|].
  destruct r as [caughtUp|e].
  - eapply total_weaken; [apply total_after_success|]. naive_solver.
  - eapply total_weaken; [apply total_after_error|]. naive_solver.
Qed.

Lemma total_run_turns n : forall rs, total (W := W) (run_turns page_fuel n rs)
  (fun o next => backoff_opts o -> run_ok o rs -> turn_ok o next).
Proof.
  induction n as [|n IH]; intros rs; cbn [run_turns]; [by apply total_ret|].
  eapply total_bind; [apply total_run_iter|]. intros [rs'|].
  - eapply total_weaken; [apply IH|]. cbn. naive_solver.
  - by apply total_ret.
Qed.
End Backoff.

Lemma backoffSleep_bounds o jitter b : 0 <= b -> 0 <= op_JitterMin o ->
  (forall m, 0 < m -> 0 <= jitter m < m) ->
  let span := if op_JitterMax o =? 0 then b / 2 else op_JitterMax o in
  b / 2 + op_JitterMin o <= backoffSleep o jitter b <= b / 2 + Z.max (op_JitterMin o) span.
Proof.
  intros Hb Hj Hjit. unfold backoffSleep, goquot. rewrite Z.quot_div_nonneg by lia. cbv zeta.
  set (span := if op_JitterMax o =? 0 then _ else _). destruct (Z.leb_spec span (op_JitterMin o)); [lia|].
  specialize (Hjit (span - op_JitterMin o) ltac:(lia)). lia.
Qed.

Lemma defaults_backoff o : op_MaxBackoff o < 2 ^ 62 -> backoff_opts (Options_applyDefaults o) /\
  0 <= op_JitterMin (Options_applyDefaults o).
Proof.
  intros H. unfold backoff_opts, Options_applyDefaults.
  cbn [op_MinBackoff op_MaxBackoff op_JitterMin]. unfold Minute, Second.
  repeat split_if; to_prop; lia.
Qed.

(** Run never fails and its backoff stays in bounds. For every number of
    turns, against any endpoint and store, Run either is still running with a
    backoff between MinBackoff and MaxBackoff (no overflow in the doubling) and
    at most MaxRetries consecutive failures counted, or it returned because the
    context ended. The sleep before the next retry is at least half the backoff
    plus JitterMin and at most half the backoff plus the jitter span. *)
Theorem run_backoff_bounded {W : Type} `{!RpcClient W} `{!Store W} `{!Services W}
    (page_fuel n : nat) (o : Options) (shared : option LagCoordinator) (w : W)
    (Hmax : op_MaxBackoff o < 2 ^ 62) :
  let d := Options_applyDefaults o in
  match Run page_fuel n (NewIngester o shared) w with
  | (Err _, _, _) => False
  | (Ok None, _, _) => True
  | (Ok (Some rs), _, _) =>
      op_MinBackoff d <= rs_backoff rs <= op_MaxBackoff d /\ 0 <= rs_retries rs /\
      (0 < op_MaxRetries d -> rs_retries rs <= op_MaxRetries d) /\
      forall jitter, (forall m, 0 < m -> 0 <= jitter m < m) ->
        let span := if op_JitterMax d =? 0 then rs_backoff rs / 2 else op_JitterMax d in
        rs_backoff rs / 2 + op_JitterMin d <= backoffSleep d jitter (rs_backoff rs) <=
          rs_backoff rs / 2 + Z.max (op_JitterMin d) span
  end.
Proof.
  cbv zeta. destruct (defaults_backoff o Hmax) as [Hb Hj]. unfold Run, mbind_. cbn [mget].
  set (rs0 := mkRun _ 0 time_zero). pose proof (total_run_turns page_fuel n rs0 (NewIngester o shared) w) as H.
  change (ing_opts (NewIngester o shared)) with (Options_applyDefaults o) in *.
  set (d := Options_applyDefaults o) in *. clearbody d.
  destruct (run_turns page_fuel n rs0 _ w) as [[[[rs|]|e] i'] w']; [|done|done].
  destruct H as [H _]. destruct (H Hb) as (H1 & H2 & H3).
  { unfold run_ok, rs0. destruct Hb as [[? ?] ?]. cbn. lia. }
  split; [done|]. split; [done|]. split; [done|]. intros jitter Hjit.
  apply backoffSleep_bounds; [destruct Hb; lia|done|done].
Qed.
