(* ===== verification/IngesterDry.v ===== *)
(** * Dry runs write nothing (internal/ingester/ingester.go, RunDryRun)

    A dry run walks the endpoint with its position in memory. With an empty
    watch list it never writes to the store: the world only moves by reads. *)

From S2P Require Import Prelude GoStrings GoSort StoreErrors StoreTypes RpcTypes Backpressure.
From S2P Require Import ReorgTracker SqliteStore StoreReorg IngesterCore Ingester IngesterCycle IngesterRun.
From Stdlib Require Import Ascii String.
Local Open Scope Z_scope.
Local Open Scope go_scope.
Local Notation length := List.length.

(** Worlds that store the same rows; reads and requests stay inside it. *)
Class ReadView (W : Type) : Type := { same_rows : W -> W -> Prop }.

Class ReadLaws (W : Type) `{!RpcClient W} `{!Store W} `{!ReadView W} : Prop := {
  rows_preorder :: PreOrder (same_rows (W := W));
  rd_events : forall req w, same_rows w (rpc_GetEvents req w).2;
  rd_health : forall w, same_rows w (rpc_GetHealth w).2;
  rd_state : forall n w, same_rows w (st_GetIngestionState n w).2;
  rd_watched : forall w, same_rows w (st_ListWatchedContracts w).2 }.

Section Reads.
Context {W : Type} `{!RpcClient W} `{!Store W} `{!Services W} `{!ReadView W} `{!ReadLaws W} (page_fuel : nat).

(** In a dry run the computation only reads. *)
Definition reads {A} (m : M W A) : Prop := forall i w, op_DryRun (ing_opts i) = true ->
  same_rows w (m i w).2 /\ op_DryRun (ing_opts (m i w).1.2) = true.

Lemma reads_ret {A} (a : A) : reads (mret a).
Proof. by intros i w. Qed.
Lemma reads_fail {A} e : reads (mfail (A := A) e).
Proof. by intros i w. Qed.
Lemma reads_get : reads mget.
Proof. by intros i w. Qed.
Lemma reads_world : reads mworld.
Proof. by intros i w. Qed.
Lemma reads_modify f : (forall i, ing_opts (f i) = ing_opts i) -> reads (mmodify f).
Proof. intros Hf i w Hd. cbn. by rewrite Hf. Qed.
Lemma reads_rpc {A} (f : W -> result rerror A * W) : (forall w, same_rows w (f w).2) -> reads (mrpc f).
Proof. intros Hf i w Hd. unfold mrpc. specialize (Hf w). by destruct (f w). Qed.
Lemma reads_store {A} (f : W -> result error A * W) : (forall w, same_rows w (f w).2) -> reads (mstore f).
Proof. intros Hf i w Hd. unfold mstore. specialize (Hf w). by destruct (f w). Qed.
Lemma reads_try {A} (m : M W A) : reads m -> reads (mtry m).
Proof. intros Hm i w Hd. unfold mtry. specialize (Hm i w Hd). by destruct (m i w) as [[r i'] w']. Qed.
Lemma reads_wrap {A} f (m : M W A) : reads m -> reads (mwrap f m).
Proof. intros Hm i w Hd. unfold mwrap. specialize (Hm i w Hd). by destruct (m i w) as [[[a|e] i'] w']. Qed.
Lemma reads_bind {A B} (m : M W A) (k : A -> M W B) : reads m -> (forall a, reads (k a)) -> reads (mbind_ m k).
Proof.
  intros Hm Hk i w Hd. unfold mbind_. destruct (Hm i w Hd) as [H1 H2].
  destruct (m i w) as [[[a|e] i'] w']; cbn in *; [|done]. destruct (Hk a i' w' H2). split; [by etrans|done].
Qed.
(** After reading its own state the computation knows it is a dry run. *)
Lemma reads_get_bind {B} (k : Ingester -> M W B) :
  (forall i, op_DryRun (ing_opts i) = true -> reads (k i)) -> reads (mbind_ mget k).
Proof. intros Hk i w Hd. cbn. by apply Hk. Qed.
End Reads.

Create HintDb reads.
#[export] Hint Resolve reads_ret reads_fail reads_get reads_world reads_try reads_wrap : reads.
#[export] Hint Extern 1 (reads (mmodify _)) => apply reads_modify; intros; repeat case_match; reflexivity : reads.

Ltac reads_walk :=
  repeat first
    [ progress intros
    | match goal with
      | |- reads (mbind_ mget _) => apply reads_get_bind
      | |- reads (mbind_ _ _) => apply reads_bind
      | |- reads (mtry _) => apply reads_try
      | |- reads (mwrap _ _) => apply reads_wrap
      | H : op_DryRun (ing_opts ?i) = true |- context [op_DryRun (ing_opts ?i)] =>
          rewrite H; cbn [negb orb andb]
      end
    | solve [eauto with reads]
    | match goal with |- reads (if ?b then _ else _) => destruct b end
    | match goal with |- reads (match ?x with _ => _ end) => destruct x end ].

Section Dry.
Context {W : Type} `{!RpcClient W} `{!Store W} `{!Services W} `{!ReadView W} `{!ReadLaws W} (page_fuel : nat).

Lemma reads_events req : reads (W := W) (mrpc (rpc_GetEvents req)).
Proof. apply reads_rpc, rd_events. Qed.
Lemma reads_health : reads (W := W) (mrpc rpc_GetHealth).
Proof. apply reads_rpc, rd_health. Qed.
Lemma reads_state n : reads (W := W) (mstore (st_GetIngestionState n)).
Proof. apply reads_store, rd_state. Qed.
Lemma reads_watched : reads (W := W) (mstore st_ListWatchedContracts).
Proof. apply reads_store, rd_watched. Qed.
Hint Resolve reads_events reads_health reads_state reads_watched : reads.

Lemma reads_setDryRun c l : reads (W := W) (setDryRunPosition c l).
Proof. apply reads_modify. intros i. by destruct (op_DryRun _). Qed.
Hint Resolve reads_setDryRun : reads.
Lemma reads_getIngestionState : reads (W := W) getIngestionState.
Proof. unfold getIngestionState. reads_walk. Qed.
Hint Resolve reads_getIngestionState : reads.

Lemma reads_persistEventBatch events : reads (W := W) (persistEventBatch events).
Proof. intros i w Hd. unfold persistEventBatch, dryRun, mbind_. cbn. by rewrite Hd. Qed.
Lemma reads_mapM {A} (f : A -> M W unit) l : (forall x, reads (f x)) -> reads (mapM_ f l).
Proof. intros Hf. induction l as [|x l IH]; cbn [mapM_]; reads_walk; auto. Qed.
Lemma reads_convert l : reads (W := W) (convert l).
Proof. induction l as [|re l IH]; cbn [convert]; unfold addSkipped; reads_walk; auto. Qed.
Hint Resolve reads_convert : reads.
Lemma reads_persist evs latest check : reads (W := W) (persistEventsWithReorgCheck page_fuel evs latest check).
Proof.
  unfold persistEventsWithReorgCheck. cbv zeta. reads_walk. apply reads_mapM, reads_persistEventBatch.
Qed.
Hint Resolve reads_persist : reads.

Lemma reads_tip latest : reads (W := W) (maybeHandleTipRegression page_fuel latest).
Proof. unfold maybeHandleTipRegression. reads_walk. Qed.
Lemma reads_reclamp : reads (W := W) (reclampToOldest []).
Proof. unfold reclampToOldest. cbv zeta. reads_walk. Qed.
Lemma reads_discard : reads (W := W) discardCursor.
Proof. unfold discardCursor. reads_walk. Qed.
Hint Resolve reads_tip reads_reclamp reads_discard : reads.

Lemma reads_resolvePosition : reads (W := W) resolvePosition.
Proof. unfold resolvePosition, cold_start. cbv zeta. reads_walk. Qed.
Lemma reads_filters : reads (W := W) buildFilterBatches.
Proof. unfold buildFilterBatches. reads_walk. Qed.
Hint Resolve reads_resolvePosition reads_filters : reads.

Lemma reads_sweep_pages start end_ filters f : forall c remaining,
  reads (W := W) (sweep_pages page_fuel f start end_ filters c remaining).
Proof.
  induction f as [|f IH]; intros c remaining; cbn [sweep_pages]; unfold addFetched, persistEvents; cbv zeta;
    reads_walk; apply IH.
Qed.
Hint Resolve reads_sweep_pages : reads.
Lemma reads_sweep_batches start end_ batches : forall remaining hit,
  reads (W := W) (sweep_batches page_fuel start end_ batches remaining hit).
Proof.
  induction batches as [|b rest IH]; intros remaining hit; cbn [sweep_batches]; unfold sweepBatch; reads_walk; apply IH.
Qed.
Hint Resolve reads_sweep_batches : reads.
Lemma reads_windowSweep start batches : reads (W := W) (windowSweep page_fuel start batches).
Proof. unfold windowSweep. cbv zeta. reads_walk. Qed.
Lemma reads_singlePage start c filters : reads (W := W) (singlePage page_fuel start c filters).
Proof. unfold singlePage, addFetched. cbv zeta. reads_walk. Qed.
Hint Resolve reads_windowSweep reads_singlePage : reads.
Lemma reads_runOnceUnwatched : reads (W := W) (runOnceUnwatched page_fuel).
Proof. unfold runOnceUnwatched. reads_walk. Qed.
End Dry.

Section DryRun.
Context {W : Type} `{!RpcClient W} `{!Store W} `{!Services W} `{!ReadView W} `{!ReadLaws W} (page_fuel : nat).
(** Nothing is watched in any world with the rows of [w0]. *)
Context (w0 : W) (Hnone : forall w l w', same_rows w0 w -> st_ListWatchedContracts w = (Ok l, w') -> l = []).

Lemma dry_runOnce i w : op_DryRun (ing_opts i) = true -> same_rows w0 w ->
  same_rows w0 (runOnce page_fuel i w).2 /\ op_DryRun (ing_opts (runOnce page_fuel i w).1.2) = true.
Proof.
  intros Hd Hw. set (i1 := set_counters 0 0 0 i). assert (Hd1 : op_DryRun (ing_opts i1) = true) by exact Hd.
  pose proof (rd_watched w) as Hr.
  assert (Heq : runOnce page_fuel i w =
    match st_ListWatchedContracts w with
    | (Ok l, w1) => (if bool_decide (length l = 0%nat) then runOnceUnwatched page_fuel else runOnceWatched page_fuel) i1 w1
    | (Err e, w1) => (Err (IStore e), i1, w1)
    end).
  { unfold runOnce, cycle_reset, mbind_, mmodify, mstore. fold i1. by destruct (st_ListWatchedContracts w) as [[l|e] w1]. }
  rewrite Heq. clearbody i1.
  destruct (st_ListWatchedContracts w) as [[l|e] w1] eqn:El; cbn [fst snd] in *; [|split; [by etrans|done]].
  rewrite (Hnone w l w1 Hw El). rewrite bool_decide_true by done.
  destruct (reads_runOnceUnwatched page_fuel i1 w1 Hd1) as [H1 H2]. split; [|done]. etrans; [exact Hw|]. by etrans.
Qed.

Lemma dry_turns_read fuel : forall i w, op_DryRun (ing_opts i) = true -> same_rows w0 w ->
  same_rows w0 (dry_turns page_fuel fuel i w).2.
Proof.
  induction fuel as [|f IH]; intros i w Hd Hw; cbn [dry_turns]; [done|].
  unfold mbind_ at 1, mtry. destruct (dry_runOnce i w Hd Hw) as [H1 H2].
  destruct (runOnce page_fuel i w) as [[r i1] w1]. cbn [fst snd] in *. cbn.
  destruct (sv_ctxErr w1); [done|]. destruct r as [[]|e]; [done|by apply IH|done].
Qed.
End DryRun.

(** C35: a dry run writes nothing. When no contract is watched, RunDryRun only
    reads: whatever the endpoint returns, and whether the preview completes,
    fails or is cancelled, the rows of the store are those it started with. *)
Theorem dry_run_writes_nothing {W : Type} `{!RpcClient W} `{!Store W} `{!Services W} `{!ReadView W} `{!ReadLaws W}
    (page_fuel fuel : nat) (i : Ingester) (w : W)
    (Hnone : forall w1 l w2, same_rows w w1 -> st_ListWatchedContracts w1 = (Ok l, w2) -> l = []) :
  same_rows w (RunDryRun page_fuel fuel i w).2.
Proof.
  unfold RunDryRun, mbind_ at 1. cbn [mget]. destruct (op_DryRun (ing_opts i)) eqn:Ed; cbn [negb]; [|done].
  unfold mbind_. cbn [mworld]. destruct (sv_ctxErr w); [done|]. by apply dry_turns_read.
Qed.
