(* ===== verification/IngesterPersist.v ===== *)
(** * No event is lost (internal/ingester/ingester.go, persistence path)

    What the ingester relies on of its store, sink and subscribers, as the laws
    of a type class, and the theorem that a page that was persisted without an
    error left every event of it in the events table or in dead_letters. *)

From S2P Require Import Prelude GoStrings GoSort StoreErrors StoreTypes RpcTypes Backpressure ReorgTracker.
From S2P Require Import SqliteStore StoreReorg IngesterCore Ingester.
From Stdlib Require Import Ascii String.
Local Open Scope Z_scope.
Local Open Scope go_scope.
Local Notation length := List.length.
Local Abbreviation SEvent := StoreTypes.Event.
Local Abbreviation REvent := RpcTypes.Event.

(** What a world stores: the keys of the events table and the ids of the
    dead-letter table. *)
Class StoreView (W : Type) : Type := {
  v_events : W -> gset (string * string);
  v_dead : W -> gset string }.

Definition grows `{StoreView W} (w w' : W) : Prop :=
  v_events w ⊆ v_events w' /\ v_dead w ⊆ v_dead w'.

#[export] Instance grows_preorder `{StoreView W} : PreOrder (grows (W := W)).
Proof. split; [by split|]. intros a b c [H1 H2] [H3 H4]. split; set_solver. Qed.

(** The write path of the store never removes a row; a successful write has
    written. *)
Class StoreLaws (W : Type) `{!Store W} `{!Services W} `{!StoreView W} : Prop := {
  upsert_grows : forall evs w r w', st_UpsertEvents evs w = (r, w') -> grows w w';
  upsert_ok : forall evs w n w', st_UpsertEvents evs w = (Ok n, w') ->
    forall e, e ∈ evs -> (Network e, ID e) ∈ v_events w';
  refs_grows : forall refs w r w', st_UpsertAddressRefs refs w = (r, w') -> grows w w';
  sink_grows : forall f input e w r w', sv_deadLetter = Some f -> f input e w = (r, w') -> grows w w';
  sink_ok : forall f input e w w', sv_deadLetter = Some f -> f input e w = (Ok tt, w') ->
    dl_EventID input ∈ v_dead w';
  publish_grows : forall evs w, grows w (sv_publish evs w);
  sleep_grows : forall d w, grows w (sv_sleep d w).2 }.

Section NoLoss.
Context {W : Type} `{!RpcClient W} `{!Store W} `{!Services W} `{!StoreView W} `{!StoreLaws W}.

(** The event reached durable storage in world [w]. *)
Definition stored (w : W) (e : SEvent) : Prop := (Network e, ID e) ∈ v_events w \/ ID e ∈ v_dead w.

Lemma stored_grows w w' e : grows w w' -> stored w e -> stored w' e.
Proof. intros [H1 H2] [H | H]; [left|right]; set_solver. Qed.

(** A computation that never changes the options and only adds rows. *)
Definition safe {A} (m : M W A) : Prop := forall i w,
  let '(_, i', w') := m i w in grows w w' /\ ing_opts i' = ing_opts i.

Lemma safe_ret {A} (a : A) : safe (mret a).
Proof. by intros i w. Qed.
Lemma safe_fail {A} e : safe (mfail (A := A) e).
Proof. by intros i w. Qed.
Lemma safe_get : safe mget.
Proof. by intros i w. Qed.
Lemma safe_world : safe mworld.
Proof. by intros i w. Qed.
Lemma safe_modify f : (forall i, ing_opts (f i) = ing_opts i) -> safe (mmodify f).
Proof. intros Hf i w. cbn. by split. Qed.
Lemma safe_bind {A B} (m : M W A) (k : A -> M W B) : safe m -> (forall a, safe (k a)) -> safe (mbind_ m k).
Proof.
  intros Hm Hk i w. unfold mbind_. specialize (Hm i w). destruct (m i w) as [[[a|e] i1] w1]; [|done].
  specialize (Hk a i1 w1). destruct (k a i1 w1) as [[r i2] w2]. destruct Hm, Hk. split; [|congruence].
  by etrans.
Qed.
Lemma safe_try {A} (m : M W A) : safe m -> safe (mtry m).
Proof. intros Hm i w. unfold mtry. specialize (Hm i w). by destruct (m i w) as [[r i1] w1]. Qed.
Lemma safe_wrap {A} f (m : M W A) : safe m -> safe (mwrap f m).
Proof. intros Hm i w. unfold mwrap. specialize (Hm i w). by destruct (m i w) as [[[a|e] i1] w1]. Qed.
Lemma safe_store {A} (f : W -> result error A * W) : (forall w r w', f w = (r, w') -> grows w w') -> safe (mstore f).
Proof. intros Hf i w. unfold mstore. destruct (f w) as [r w'] eqn:E. split; [by eapply Hf|done]. Qed.
Lemma safe_effect f : (forall w, grows w (f w)) -> safe (meffect f).
Proof. intros Hf i w. cbn. by split. Qed.
End NoLoss.

Create HintDb safe.
#[export] Hint Resolve safe_ret safe_fail safe_get safe_world safe_try safe_wrap : safe.

(** Walk through a computation, leaving only the goals about single steps. *)
Ltac safe_walk :=
  repeat first
    [ progress intros
    | apply safe_bind
    | solve [eauto with safe]
    | match goal with |- safe (if ?b then _ else _) => destruct b end
    | match goal with |- safe (match ?x with _ => _ end) => destruct x end ].

Section Steps.
Context {W : Type} `{!RpcClient W} `{!Store W} `{!Services W} `{!StoreView W} `{!StoreLaws W}.

Lemma safe_addSkipped n : safe (W := W) (addSkipped n).
Proof. by apply safe_modify. Qed.
Lemma safe_addWritten n : safe (W := W) (addWritten n).
Proof. by apply safe_modify. Qed.
Lemma safe_upsert evs : safe (W := W) (mstore (st_UpsertEvents evs)).
Proof. apply safe_store. intros w r w'. apply upsert_grows. Qed.
Lemma safe_sink input e : safe (W := W) (recordDeadLetter input e).
Proof.
  unfold recordDeadLetter. destruct sv_deadLetter as [f|] eqn:E; [|apply safe_ret].
  apply safe_store. intros w r w'. by eapply sink_grows.
Qed.
Hint Resolve safe_addSkipped safe_addWritten safe_upsert safe_sink : safe.

Lemma safe_index evs : safe (W := W) (indexEventAddresses evs).
Proof.
  unfold indexEventAddresses, dryRun. safe_walk.
  apply safe_store. intros w r w'. apply refs_grows.
Qed.
Lemma safe_isolate chunk : forall total, safe (W := W) (isolate chunk total).
Proof. induction chunk as [|ev rest IH]; intros total; cbn [isolate]; safe_walk; apply IH. Qed.
Hint Resolve safe_index safe_isolate : safe.

Lemma safe_chunk chunk : safe (W := W) (upsertChunkWithIsolation chunk).
Proof. unfold upsertChunkWithIsolation. safe_walk. Qed.
Hint Resolve safe_chunk : safe.

(** *** What a successful write left behind *)

(** [m] started in [w] either fails or ends in a world satisfying [Q]. *)
Definition ensures {A} (m : M W A) (i : Ingester) (w : W) (Q : A -> W -> Prop) : Prop :=
  match m i w with
  | (Ok a, _, w') => Q a w'
  | (Err _, _, _) => True
  end.

Lemma isolate_stores chunk : forall total i w,
  has_sink (W := W) = true ->
  ensures (isolate chunk total) i w (fun _ w' => forall e, e ∈ chunk -> stored w' e).
Proof.
  induction chunk as [|ev rest IH]; intros total i w Hs; unfold ensures; cbn [isolate].
  { cbn. by intros e ?%not_elem_of_nil. }
  unfold mbind_ at 1, mtry, mstore.
  destruct (st_UpsertEvents [ev] w) as [[n|e] w1] eqn:Eu; cbn.
  - specialize (IH (total + n) i w1 Hs). unfold ensures in IH.
    pose proof (safe_isolate rest (total + n) i w1) as Hg.
    destruct (isolate rest (total + n) i w1) as [[[a|er] i2] w2]; [|done].
    intros x Hx. apply elem_of_cons in Hx as [-> | Hx]; [|by apply IH].
    eapply stored_grows; [apply Hg|]. left. eapply upsert_ok; [exact Eu|]. by left.
  - destruct (IsPermanentEventError e); [|done].
    unfold recordDeadLetter, mbind_, has_sink in *. destruct sv_deadLetter as [f|] eqn:Ef; [|done].
    unfold mstore. destruct (f (dead_letter_of_event ev) (IStore e) w1) as [[[]|er] w2] eqn:Esk; [|done].
    cbn. set (i2 := set_counters _ _ _ i).
    specialize (IH total i2 w2 eq_refl). unfold ensures in IH.
    pose proof (safe_isolate rest total i2 w2) as Hg.
    destruct (isolate rest total i2 w2) as [[[a|er] i3] w3]; [|done].
    intros x Hx. apply elem_of_cons in Hx as [-> | Hx]; [|by apply IH].
    eapply stored_grows; [apply Hg|]. right. exact (sink_ok f _ _ _ _ Ef Esk).
Qed.

Lemma chunk_stores chunk i w :
  ensures (upsertChunkWithIsolation chunk) i w (fun _ w' => forall e, e ∈ chunk -> stored w' e).
Proof.
  unfold ensures, upsertChunkWithIsolation, mbind_ at 1, mtry, mstore.
  destruct (st_UpsertEvents chunk w) as [[n|e] w1] eqn:Eu; cbn.
  - intros x Hx. left. by eapply upsert_ok.
  - destruct (has_sink) eqn:Hs; cbn; [|done]. destruct (IsPermanentEventError e); cbn; [|done].
    exact (isolate_stores chunk 0 i w1 Hs).
Qed.

Lemma ensures_bind {A B} (m : M W A) (k : A -> M W B) i w (Q : B -> W -> Prop) :
  (match m i w with
   | (Ok a, i', w') => ensures (k a) i' w' Q
   | (Err _, _, _) => True
   end) -> ensures (mbind_ m k) i w Q.
Proof. unfold ensures, mbind_. by destruct (m i w) as [[[a|e] i'] w']. Qed.

Lemma ensures_weaken {A} (m : M W A) i w (Q Q' : A -> W -> Prop) :
  ensures m i w Q -> (forall a w', Q a w' -> Q' a w') -> ensures m i w Q'.
Proof. unfold ensures. intros H HQ. destruct (m i w) as [[[a|e] i'] w']; auto. Qed.

(** Facts that hold before and survive growth hold after. *)
Lemma ensures_and_grows {A} (m : M W A) i w (Q : A -> W -> Prop) (P : W -> Prop) :
  safe m -> (forall w1 w2, grows w1 w2 -> P w1 -> P w2) -> P w -> ensures m i w Q ->
  ensures m i w (fun a w' => Q a w' /\ P w').
Proof.
  intros Hs Hmono HP HQ. unfold ensures in *. specialize (Hs i w).
  destruct (m i w) as [[[a|e] i'] w']; [|done]. split; [done|]. eapply Hmono; [|exact HP]. apply Hs.
Qed.

Definition all_stored (l : list SEvent) (w : W) : Prop := forall e, e ∈ l -> stored w e.

Lemma all_stored_grows l w w' : grows w w' -> all_stored l w -> all_stored l w'.
Proof. intros Hg H e He. eapply stored_grows; [exact Hg|by apply H]. Qed.

Lemma write_chunks_S f bc events inserted : events <> [] ->
  write_chunks (W := W) (S f) bc events inserted =
  (let n := Z.to_nat (bc_cur bc) in
   let! w0 := mworld in
   let! got := upsertChunkWithIsolation (take n events) in
   let! w1 := mworld in
   let '(backoff, bc) := recordAndBackoff (Z.of_nat (length (take n events))) (time_Sub (sv_now w1) (sv_now w0)) bc in
   if ((0 <? backoff) && negb (bool_decide (drop n events = [])))%bool then
     let! slept := (fun i w => let '(b, w') := sv_sleep backoff w in (Ok b, i, w')) in
     if negb (slept : bool) then mfail ICtx else write_chunks f bc (drop n events) (inserted + got)
   else write_chunks f bc (drop n events) (inserted + got)).
Proof. destruct events; [done|reflexivity]. Qed.

Lemma safe_sleep d : safe (W := W) (fun i w => let '(b, w') := sv_sleep d w in (Ok b, i, w')).
Proof.
  intros i w. pose proof (sleep_grows d w) as H. destruct (sv_sleep d w) as [b w']. by split.
Qed.
Hint Resolve safe_sleep : safe.

Lemma safe_write_chunks f : forall bc events inserted, safe (W := W) (write_chunks f bc events inserted).
Proof.
  induction f as [|f IH]; intros bc events inserted; [apply safe_ret|].
  destruct (decide (events = [])) as [-> | Hne]; [apply safe_ret|].
  rewrite write_chunks_S by done. cbv zeta. safe_walk; apply IH.
Qed.
Hint Resolve safe_write_chunks : safe.

Lemma write_chunks_stores f : forall bc events inserted i w,
  bc_inv bc -> (length events <= f)%nat ->
  ensures (write_chunks f bc events inserted) i w (fun _ w' => all_stored events w').
Proof.
  induction f as [|f IH]; intros bc events inserted i w Hbc Hlen.
  { destruct events; [|cbn in Hlen; lia]. cbn. by intros e ?%not_elem_of_nil. }
  destruct (decide (events = [])) as [-> | Hne]; [cbn; by intros e ?%not_elem_of_nil|].
  rewrite write_chunks_S by done. cbv zeta. set (n := Z.to_nat (bc_cur bc)).
  assert (Hn : (0 < n)%nat) by (destruct Hbc; subst n; lia).
  apply ensures_bind. cbn. apply ensures_bind.
  pose proof (chunk_stores (take n events) i w) as Hc. unfold ensures in Hc.
  destruct (upsertChunkWithIsolation (take n events) i w) as [[[got|e] i1] w1]; [|done].
  apply ensures_bind. cbn.
  set (lat := time_Sub (sv_now w1) (sv_now w)).
  destruct (recordAndBackoff_inv (Z.of_nat (length (take n events))) lat bc Hbc) as (Hbc' & _).
  destruct (recordAndBackoff _ lat bc) as [backoff bc']. cbn [snd] in Hbc'.
  assert (Hd : (length (drop n events) <= f)%nat).
  { rewrite length_drop. assert (length events <> 0%nat) by (by destruct events). lia. }
  assert (Hrest : forall i2 w2, grows w1 w2 ->
    ensures (write_chunks f bc' (drop n events) (inserted + got)) i2 w2 (fun _ w' => all_stored events w')).
  { intros i2 w2 Hg. eapply ensures_weaken.
    - eapply (ensures_and_grows _ _ _ _ (all_stored (take n events))); [apply safe_write_chunks| | |by apply IH].
      + intros ? ?. apply all_stored_grows.
      + by eapply all_stored_grows.
    - cbn. intros _ w' [H1 H2] e He. rewrite <- (take_drop n events) in He.
      apply elem_of_app in He as [He | He]; [by apply H2|by apply H1]. }
  destruct (_ && _)%bool; [|by apply Hrest].
  apply ensures_bind. pose proof (sleep_grows backoff w1) as Hsl.
  destruct (sv_sleep backoff w1) as [b w2]. destruct b; cbn; [by apply Hrest|done].
Qed.

(** The options under which the write path makes progress. *)
Definition opts_ok (o : Options) : Prop :=
  op_DryRun o = false /\ 0 < op_WriteBatchSize o /\ 0 <= op_BatchSize o < 2 ^ 62.

Lemma newBatchController_inv o : 0 < op_BatchSize o < 2 ^ 62 -> bc_inv (newBatchController o).
Proof.
  intros H. unfold newBatchController. rewrite i64_id by (unfold in_i64, minInt64, maxInt64; lia).
  destruct (0 <? _); unfold bc_inv; cbn; lia.
Qed.

Lemma writeEventsPersist_stores events i w : opts_ok (ing_opts i) ->
  ensures (writeEventsPersist events) i w (fun _ w' => all_stored events w').
Proof.
  intros (Hd & _ & Hb). unfold writeEventsPersist. apply ensures_bind. cbn. rewrite Hd, orb_false_r.
  case_bool_decide as He; [subst; cbn; by intros e ?%not_elem_of_nil|].
  destruct (Z.eqb_spec (op_BatchSize (ing_opts i)) 0); [apply chunk_stores|].
  apply write_chunks_stores; [apply newBatchController_inv; lia|done].
Qed.

Lemma safe_writeEventsPersist events : safe (W := W) (writeEventsPersist events).
Proof. unfold writeEventsPersist. safe_walk. Qed.
Hint Resolve safe_writeEventsPersist : safe.

Lemma safe_persistEventBatch events : safe (W := W) (persistEventBatch events).
Proof.
  unfold persistEventBatch, dryRun. safe_walk. apply safe_effect. intros. apply publish_grows.
Qed.
Hint Resolve safe_persistEventBatch : safe.

Lemma persistEventBatch_stores events i w : opts_ok (ing_opts i) ->
  ensures (persistEventBatch events) i w (fun _ w' => all_stored events w').
Proof.
  intros Ho. unfold persistEventBatch. apply ensures_bind. cbn. destruct (Ho) as (-> & _). cbn.
  apply ensures_bind. pose proof (writeEventsPersist_stores events i w Ho) as Hw. unfold ensures in Hw.
  destruct (writeEventsPersist events i w) as [[[n|e] i1] w1]; [|done].
  assert (Hs : safe (W := W) (addWritten (Z.of_nat (length events)) ;; mtry (indexEventAddresses events) ;;
    meffect (sv_publish events))).
  { safe_walk. apply safe_effect. intros. apply publish_grows. }
  specialize (Hs i1 w1). unfold ensures.
  destruct (mbind_ _ _ i1 w1) as [[[a|e] i2] w2]; [|done].
  eapply all_stored_grows; [apply Hs|done].
Qed.

Lemma safe_mapM {A} (f : A -> M W unit) l : (forall x, safe (f x)) -> safe (mapM_ f l).
Proof. intros Hf. induction l as [|x l IH]; cbn [mapM_]; safe_walk; auto. Qed.

Lemma persist_batches_store (l : list (list SEvent)) : forall i w, opts_ok (ing_opts i) ->
  ensures (mapM_ persistEventBatch l) i w (fun _ w' => all_stored (mjoin l) w').
Proof.
  induction l as [|b l IH]; intros i w Ho; cbn [mapM_]; [cbn; by intros e ?%not_elem_of_nil|].
  apply ensures_bind. pose proof (persistEventBatch_stores b i w Ho) as Hb. unfold ensures in Hb.
  pose proof (safe_persistEventBatch b i w) as Hs.
  destruct (persistEventBatch b i w) as [[[[]|e] i1] w1]; [|done]. destruct Hs as [_ Hopt].
  eapply ensures_weaken.
  - eapply (ensures_and_grows _ _ _ _ (all_stored b)); [|intros ? ?; apply all_stored_grows|exact Hb|].
    + apply safe_mapM. intros x. apply safe_persistEventBatch.
    + apply IH. by rewrite Hopt.
  - cbn. intros _ w' [H1 H2] e He. apply elem_of_app in He as [He | He]; auto.
Qed.

(** *** Conversion *)

Lemma toStoreEvent_spec re ev : toStoreEvent (W := W) re = Ok ev ->
  ID ev = re_ID re /\ Network ev = "" /\ Ledger ev = re_Ledger re.
Proof. unfold toStoreEvent. destruct (sv_decode re) as [[t v]|m]; intros; simplify_eq; done. Qed.

Lemma safe_convert l : safe (W := W) (convert l).
Proof. induction l as [|re l IH]; cbn [convert]; safe_walk; auto. Qed.

(** Every event that is not skipped is converted or dead-lettered. *)
Lemma convert_covers l : forall i w, op_DryRun (ing_opts i) = false ->
  ensures (convert l) i w (fun evs w' => forall re, re ∈ l ->
    re_ContractID re ∉ op_SkipContracts (ing_opts i) ->
    (exists ev, ev ∈ evs /\ ID ev = re_ID re /\ Network ev = "") \/ re_ID re ∈ v_dead w').
Proof.
  induction l as [|re l IH]; intros i w Hd; cbn [convert].
  { cbn. by intros x ?%not_elem_of_nil. }
  apply ensures_bind. cbn. case_bool_decide as Hskip.
  - apply ensures_bind. cbn. set (i2 := set_counters _ _ _ i).
    eapply ensures_weaken; [apply (IH i2 w); done|]. cbn. intros evs w' H x Hx Hns.
    apply elem_of_cons in Hx as [-> | Hx]; [done|by apply H].
  - destruct (toStoreEvent re) as [ev|e] eqn:Et.
    + apply ensures_bind. pose proof (IH i w Hd) as H. unfold ensures in H.
      destruct (convert l i w) as [[[evs|e] i1] w1]; [|done]. cbn.
      intros x Hx Hns. apply elem_of_cons in Hx as [-> | Hx].
      * left. exists ev. destruct (toStoreEvent_spec _ _ Et) as (? & ? & _). split; [by left|done].
      * destruct (H x Hx Hns) as [(y & Hy & ?) | ?]; [left; exists y; split; [by right|done]|by right].
    + rewrite Hd. unfold has_sink. destruct sv_deadLetter as [f|] eqn:Ef; cbn; [|done].
      apply ensures_bind. unfold mwrap, recordDeadLetter. rewrite Ef. unfold mstore.
      destruct (f (dead_letter_of_rpc re) e w) as [[[]|er] w1] eqn:Esk; [|done]. cbn.
      apply ensures_bind. cbn. set (i2 := set_counters _ _ _ i).
      eapply ensures_weaken.
      * eapply (ensures_and_grows _ _ _ _ (fun w => re_ID re ∈ v_dead w)); [apply safe_convert| | |apply (IH i2 w1); done].
        -- intros w2 w3 [_ Hg]. set_solver.
        -- exact (sink_ok f _ _ _ _ Ef Esk).
      * cbn. intros evs w' [H1 H2] x Hx Hns. apply elem_of_cons in Hx as [-> | Hx]; [by right|by apply H1].
Qed.

(** The live path stores events without a network label. *)
Lemma convert_network l : forall i (w : W),
  ensures (convert l) i w (fun evs _ => forall ev, ev ∈ evs -> Network ev = "").
Proof.
  induction l as [|re l IH]; intros i w; cbn [convert]; [cbn; by intros ev ?%not_elem_of_nil|].
  apply ensures_bind. cbn. case_bool_decide.
  { apply ensures_bind. cbn. apply IH. }
  destruct (toStoreEvent re) as [ev|e] eqn:Et.
  - apply ensures_bind. pose proof (IH i w) as H1. unfold ensures in H1.
    destruct (convert l i w) as [[[evs|e] i1] w1]; [|done]. cbn. intros x Hx.
    apply elem_of_cons in Hx as [-> | Hx]; [by apply (toStoreEvent_spec _ _ Et)|by apply H1].
  - destruct (op_DryRun _); [apply IH|]. destruct (negb _); [done|].
    apply ensures_bind. destruct (mwrap _ _ i w) as [[[[]|er] i1] w1]; [|done].
    apply ensures_bind. cbn. apply IH.
Qed.

(** *** Fingerprints *)

(** Recording fingerprints touches only the tracker. *)
Lemma record_ledgers_pure ledgers events : forall from to i (w : W),
  exists r t, record_ledgers ledgers events from to i w = (Ok r, set_tracker t i, w).
Proof.
  induction ledgers as [|l rest IH]; intros from to i w; cbn [record_ledgers].
  { exists (from, to), (ing_tracker i). by destruct i. }
  unfold mbind_, record_fingerprint.
  destruct (RecordLedgerHash l _ (ing_tracker i)) as [[mm prev] t]. destruct mm.
  - destruct (IH (if ((from =? 0) || (l <? from))%bool then l else from) (if to <? l then l else to) (set_tracker t i) w)
      as (r & t' & ->). by exists r, t'.
  - destruct (IH from to (set_tracker t i) w) as (r & t' & ->). by exists r, t'.
Qed.

Lemma fingerprints_no_divergence fuel events latest i (w : W) :
  exists t, recordIngestedLedgerFingerprints fuel events latest false i w = (Ok tt, set_tracker t i, w).
Proof.
  unfold recordIngestedLedgerFingerprints, mbind_ at 1. cbn.
  destruct (ing_tracker i) as [t0|] eqn:Et; [|exists None; rewrite <- Et; by destruct i].
  case_bool_decide; [exists (Some t0); rewrite <- Et; by destruct i|].
  unfold mbind_ at 1. destruct (record_ledgers_pure (seen_ledgers events) events 0 0 i w) as (r & t & ->).
  exists t. cbn. by unfold mbind_; cbn.
Qed.

Lemma persistEvents_stores fuel rpcEvents latest i w : opts_ok (ing_opts i) ->
  ensures (persistEvents fuel rpcEvents latest) i w (fun _ w' => forall re, re ∈ rpcEvents ->
    re_ContractID re ∉ op_SkipContracts (ing_opts i) ->
    ("", re_ID re) ∈ v_events w' \/ re_ID re ∈ v_dead w').
Proof.
  intros Ho. unfold persistEvents, persistEventsWithReorgCheck. case_bool_decide as Hnil.
  { cbn. intros re Hre. destruct rpcEvents; [by apply not_elem_of_nil in Hre|done]. }
  apply ensures_bind. destruct (Ho) as (Hd & Hwb & _).
  pose proof (convert_covers rpcEvents i w Hd) as Hcov. unfold ensures in Hcov.
  pose proof (convert_network rpcEvents i w) as Hnets. unfold ensures in Hnets.
  pose proof (safe_convert rpcEvents i w) as Hsafe.
  destruct (convert rpcEvents i w) as [[[evs|e] i1] w1]; [|done]. destruct Hsafe as [_ Hopt].
  apply ensures_bind. cbn [mget]. rewrite Hopt, Hd. cbn [negb].
  set (n := Z.to_nat (op_WriteBatchSize (ing_opts i))).
  apply ensures_bind.
  pose proof (persist_batches_store (chunks n (removeDuplicateEvents evs)) i1 w1 ltac:(by rewrite Hopt)) as Hb.
  unfold ensures in Hb. rewrite chunks_concat in Hb by (subst n; lia).
  pose proof (safe_mapM persistEventBatch (chunks n (removeDuplicateEvents evs)) safe_persistEventBatch i1 w1) as Hs.
  destruct (mapM_ persistEventBatch _ i1 w1) as [[[[]|e] i2] w2]; [|done]. destruct Hs as [Hg _].
  unfold ensures. destruct (fingerprints_no_divergence fuel (removeDuplicateEvents evs) latest i2 w2) as (t & ->).
  destruct (removeDuplicateEvents_spec evs) as (_ & Hsub & Hdup).
  intros re Hre Hns. destruct (Hcov re Hre Hns) as [(ev & Hev & Hid & Hnet) | Hdead].
  - destruct (Hdup ev Hev) as (ev' & Hev' & Hid').
    destruct (Hb ev' Hev') as [H | H]; [left|right; by rewrite <- Hid, <- Hid'].
    rewrite <- Hid, <- Hid', <- (Hnets ev' (Hsub ev' Hev')). exact H.
  - right. eapply elem_of_weaken; [exact Hdead|]. apply Hg.
Qed.
End Steps.

(** C1: no event is silently dropped. If a page is persisted without error,
    then every event of the page that is not of a skipped contract is in the
    events table or in dead_letters, for every store that keeps the laws of its
    write path, with batching, adaptive chunking, per-event isolation and
    decode failures included. *)
Theorem no_event_dropped {W : Type} `{!RpcClient W} `{!Store W} `{!Services W} `{!StoreView W}
    `{!StoreLaws W} (fuel : nat) (page : list REvent) (latest : Z) (i i' : Ingester) (w w' : W)
    (Ho : opts_ok (ing_opts i))
    (Hrun : persistEvents fuel page latest i w = (Ok tt, i', w')) :
  forall re, re ∈ page -> re_ContractID re ∉ op_SkipContracts (ing_opts i) ->
  ("", re_ID re) ∈ v_events w' \/ re_ID re ∈ v_dead w'.
Proof.
  pose proof (persistEvents_stores fuel page latest i w Ho) as H.
  unfold ensures in H. by rewrite Hrun in H.
Qed.
