(* ===== verification/SqliteWorld.v ===== *)
(** * The SQLite store behind the ingester's interfaces

    A world made of the SQLite tables, a script of statement failures, an
    event log served by the RPC endpoint and a clock. Its instances show that
    the store of SqliteStore.v keeps the promises the ingester relies on, with
    failing statements included: a failed transaction leaves the tables as they
    were, and the one write that is not transactional (UpsertAddressRefs) may
    leave a prefix of its rows. *)

From S2P Require Import Prelude GoStrings GoSort StoreErrors StoreTypes RpcTypes Backpressure ReorgTracker.
From S2P Require Import SqliteStore StoreReorg IngesterCore Ingester IngesterPersist.
From Stdlib Require Import Ascii String.
Local Open Scope Z_scope.
Local Open Scope go_scope.
Local Notation length := List.length.
Local Abbreviation SEvent := StoreTypes.Event.
Local Abbreviation REvent := RpcTypes.Event.

(** A scripted failure: how many rows a non-transactional statement had
    written, and the error. *)
Definition fault : Type := option (nat * error).

Record World : Type := mkWorld {
  w_db : DB;
  w_faults : list fault;
  w_published : list SEvent;
  w_clock : Z }.

Definition set_db (d : DB) (w : World) : World := mkWorld d (w_faults w) (w_published w) (w_clock w).

(** The failure of the next statement; no script means no failure. *)
Definition next_fault (w : World) : fault * World :=
  match w_faults w with
  | [] => (None, w)
  | f :: fs => (f, mkWorld (w_db w) fs (w_published w) (w_clock w))
  end.

Lemma next_fault_db w : w_db (next_fault w).2 = w_db w.
Proof. unfold next_fault. by destruct (w_faults w). Qed.

(** A transaction: all or nothing. *)
Definition transact {A} (f : DB -> result error A * DB) (w : World) : result error A * World :=
  let '(flt, w) := next_fault w in
  match flt with
  | Some (_, e) => (Err e, w)
  | None => let '(r, d) := f (w_db w) in (r, set_db d w)
  end.

Lemma transact_cases {A} (f : DB -> result error A * DB) w r w' : transact f w = (r, w') ->
  (exists e, r = Err e /\ w_db w' = w_db w) \/ (exists d, f (w_db w) = (r, d) /\ w_db w' = d).
Proof.
  unfold transact. pose proof (next_fault_db w) as Hdb. destruct (next_fault w) as [[[k e]|] w1]; cbn in Hdb.
  - intros [= <- <-]. left. by exists e.
  - rewrite <- Hdb. destruct (f (w_db w1)) as [r1 d1]. intros [= <- <-]. right. by exists d1.
Qed.

#[export] Instance sqlite_store : Store World := {|
  st_UpsertEvents evs := transact (fun d => let '(n, d') := UpsertEvents evs d in (Ok n, d'));
  st_UpsertAddressRefs refs w :=
    let '(flt, w) := next_fault w in
    match flt with
    | Some (k, e) => (Err e, set_db (UpsertAddressRefs (take k refs) (w_db w)) w)
    | None => (Ok tt, set_db (UpsertAddressRefs refs (w_db w)) w)
    end;
  st_GetIngestionState n := transact (fun d => (GetIngestionStateForNetwork n d, d));
  st_SaveIngestionState st := transact (fun d => (Ok tt, SaveIngestionState st d));
  st_ListWatchedContracts := transact (fun d => (Ok (ListWatchedContracts d), d));
  st_GetContractCursor id := transact (fun d => (GetContractCursor id d, d));
  st_SaveContractCursor cc := transact (fun d => (Ok tt, SaveContractCursor cc d));
  st_ReplaceEventsInRange evs from to := transact (fun d => (Ok tt, ReplaceEventsInRange evs from to d));
  st_ReconcileReorgRange o := transact (ReconcileReorgRange o) |}.

#[export] Instance sqlite_view : StoreView World := {|
  v_events w := dom (t_events (w_db w));
  v_dead w := dom (t_dead (w_db w)) |}.

(** The services around the store: a decoder that rejects one marked value,
    a sink writing dead_letters, a clock that ticks while sleeping. *)
Definition sim_decode (re : REvent) : result string (string * string) :=
  if bool_decide (re_Value re = "poison") then Err "poison" else Ok ("[]", re_Value re).

#[export] Instance sim_services : Services World := {|
  sv_deadLetter := Some (fun input _ => transact (fun d => (Ok tt, (DeadLetterEvent input "error" d).2)));
  sv_publish evs w := mkWorld (w_db w) (w_faults w) (w_published w ++ evs)%list (w_clock w);
  sv_notifyReorg _ _ _ _ evs w := w;
  sv_decode := sim_decode;
  sv_parseTime _ := 0;
  sv_addresses ev := [];
  sv_now := w_clock;
  sv_jitter _ m := m - 1;
  sv_sleep d w := (true, mkWorld (w_db w) (w_faults w) (w_published w) (w_clock w + d));
  sv_ctxErr _ := false;
  sv_archivedThrough _ := Ok 0 |}.

Lemma grows_db (w w' : World) : w_db w' = w_db w -> grows w w'.
Proof. intros H. unfold grows. cbn. by rewrite H. Qed.

Lemma UpsertEvents_events evs d :
  t_events (UpsertEvents evs d).2 = ignore_all evs (t_events d) /\ t_dead (UpsertEvents evs d).2 = t_dead d.
Proof.
  unfold UpsertEvents. case_bool_decide; [subst; done|]. unfold upsertEvents.
  pose proof (exec_ignore evs (t_events d)) as H2.
  destruct (exec_events insert_or_ignore evs (t_events d)) as [n m]. cbn in *. by subst.
Qed.

Lemma ignore_all_dom evs m : dom m ⊆ dom (ignore_all evs m).
Proof.
  intros k Hk. apply elem_of_dom in Hk as [x Hx]. apply elem_of_dom. exists x. by apply ignore_all_mono.
Qed.

(** The SQLite store keeps the promises of the write path. *)
#[export] Instance sqlite_store_laws : StoreLaws World.
Proof.
  split.
  - intros evs w r w' H. apply transact_cases in H as [(e & -> & H) | (d & H & Hd)]; [by apply grows_db|].
    destruct (UpsertEvents_events evs (w_db w)) as [H1 H2].
    destruct (UpsertEvents evs (w_db w)) as [n d1]. cbn in *. simplify_eq.
    split; cbn; [rewrite H1; apply ignore_all_dom|by rewrite H2].
  - intros evs w n w' H. apply transact_cases in H as [(e & [=] & _) | (d & H & Hd)].
    destruct (UpsertEvents_events evs (w_db w)) as [H1 H2].
    destruct (UpsertEvents evs (w_db w)) as [m d1]. cbn in *. simplify_eq.
    intros e He. rewrite H1. apply elem_of_dom. by apply (ignore_all_present evs _ e).
  - intros refs w r w'. cbn. pose proof (next_fault_db w) as Hdb.
    destruct (next_fault w) as [[[k e]|] w1]; cbn in Hdb; intros [= <- <-]; split; cbn; by rewrite Hdb.
  - intros f input e w r w' [= <-] H. apply transact_cases in H as [(er & -> & H) | (d & [= <- <-] & Hd)];
      [by apply grows_db|]. split; cbn; rewrite Hd; cbn; set_solver.
  - intros f input e w w' [= <-] H. apply transact_cases in H as [(er & [=] & _) | (d & [= <-] & Hd)].
    cbn. rewrite Hd. cbn. set_solver.
  - intros evs w. by apply grows_db.
  - intros d w. by apply grows_db.
Qed.

(** ** A page with a poison value on a store that rejects one batch *)

Definition demo_rpc_event (id contract value : string) (ledger : Z) : REvent :=
  mkRpcEvent id "" "contract" ledger "" contract "tx" 0 0 true [] value [] "".

Definition demo_options : Options :=
  Options_applyDefaults (mkOptions 0 0 0 0 "" 0 2 0 0 0 0 0 0 0 0 0 0 0 64 0 ["SKIP"] "" false 0 100 0 true 0 0).

Definition demo_world : World :=
  mkWorld db_empty [None; Some (0%nat, Sentinel ErrPermanentEventFailure); None; None] [] 0.

Definition demo_page : list REvent :=
  [demo_rpc_event "a" "C" "1" 5; demo_rpc_event "b" "C" "poison" 5; demo_rpc_event "c" "C" "2" 6;
   demo_rpc_event "s" "SKIP" "3" 6].

Definition no_rpc : RpcClient World :=
  {| rpc_GetEvents _ w := (Err (RErr KPlain "down" []), w); rpc_GetHealth w := (Err (RErr KPlain "down" []), w);
     rpc_GetLatestLedger w := (Err (RErr KPlain "down" []), w) |}.

Definition demo_persist : result ierror unit * Ingester * World :=
  persistEvents (RpcClient0 := no_rpc) 0 demo_page 9 (NewIngester demo_options None) demo_world.

Lemma no_event_dropped_witness :
  demo_persist.1.1 = Ok tt /\
  (("", "a") ∈ v_events demo_persist.2 \/ "a" ∈ v_dead demo_persist.2) /\
  (("", "b") ∈ v_events demo_persist.2 \/ "b" ∈ v_dead demo_persist.2).
Proof.
  assert (Hok : demo_persist.1.1 = Ok tt) by (vm_compute; reflexivity).
  assert (Ho : opts_ok (ing_opts (NewIngester demo_options None))) by (vm_compute; intuition congruence).
  assert (Hrun : persistEvents (RpcClient0 := no_rpc) 0 demo_page 9 (NewIngester demo_options None) demo_world
    = (Ok tt, demo_persist.1.2, demo_persist.2)).
  { unfold demo_persist in *. by destruct (persistEvents _ _ _ _ _) as [[r i'] w']; cbn in *; subst. }
  assert (Ha : demo_rpc_event "a" "C" "1" 5 ∈ demo_page) by (by left).
  assert (Hb : demo_rpc_event "b" "C" "poison" 5 ∈ demo_page) by (right; by left).
  assert (Hskip : "C" ∉ op_SkipContracts (ing_opts (NewIngester demo_options None)))
    by (apply (bool_decide_unpack _); vm_compute; exact I).
  split; [exact Hok|]. clear Hok. revert Hrun. generalize demo_persist as res. intros res Hrun. split.
  - exact (no_event_dropped (RpcClient0 := no_rpc) 0 demo_page 9 _ _ _ _ Ho Hrun _ Ha Hskip).
  - exact (no_event_dropped (RpcClient0 := no_rpc) 0 demo_page 9 _ _ _ _ Ho Hrun _ Hb Hskip).
Defined.
