(* ===== verification/IngesterSweep.v ===== *)
(** * Window sweeps are complete (internal/ingester/ingester.go)

    What the ingester relies on of a getEvents endpoint, as the laws of a type
    class, and the theorems about the paging loops against any endpoint that
    keeps them: a batch that finishes has stored every event of its window, and
    the loop terminates. *)

From stdpp Require Import sorting.
From S2P Require Import Prelude GoStrings GoSort StoreErrors StoreTypes RpcTypes Backpressure ReorgTracker.
From S2P Require Import SqliteStore StoreReorg IngesterCore Ingester IngesterCycle IngesterPersist.
From Stdlib Require Import Ascii String.
Local Open Scope Z_scope.
Local Open Scope go_scope.
Local Notation length := List.length.
Local Abbreviation SEvent := StoreTypes.Event.
Local Abbreviation REvent := RpcTypes.Event.

(** The events after the one with cursor [c]. *)
Fixpoint after_cursor (c : string) (l : list REvent) : list REvent :=
  match l with
  | [] => []
  | e :: l' => if bool_decide (CursorValue e = c) then l' else after_cursor c l'
  end.

(** The endpoint's event log, in ledger order with distinct cursors. *)
Class EventLog : Type := {
  rpc_log : list REvent;
  rpc_match : list EventFilter -> REvent -> bool;
  log_sorted : StronglySorted (fun a b => re_Ledger a <= re_Ledger b) rpc_log;
  log_cursors : NoDup (CursorValue <$> rpc_log);
  log_cursor_nonempty : forall e, e ∈ rpc_log -> CursorValue e <> "" }.

(** What a request still has to deliver: the ledger range bounds only a
    request without a cursor, and no end ledger (0) means no upper bound. *)
Definition todo `{EventLog} (c : string) : list REvent :=
  if bool_decide (c = "") then rpc_log else after_cursor c rpc_log.

Definition wanted `{EventLog} (req : GetEventsRequest) (e : REvent) : bool :=
  rpc_match (req_Filters req) e &&
  (negb (bool_decide (req_Cursor req = "")) ||
   (req_StartLedger req <=? re_Ledger e) &&
     ((req_EndLedger req =? 0) || (re_Ledger e <? req_EndLedger req))).

Definition outstanding `{EventLog} (req : GetEventsRequest) : list REvent :=
  filter (fun e => wanted req e = true) (todo (req_Cursor req)).

(** A successful page is a prefix of what is outstanding; an empty page means
    nothing is outstanding; a short page without a cursor is the last one; and a
    cursor points at the last event of its page. *)
Record page_ok `{EventLog} (req : GetEventsRequest) (resp : GetEventsResponse) : Prop := {
  page_prefix : resp_Events resp `prefix_of` outstanding req;
  page_empty : resp_Events resp = [] -> outstanding req = [];
  page_short : resp_Cursor resp = "" -> Z.of_nat (length (resp_Events resp)) < req_Limit req ->
    resp_Events resp = outstanding req;
  page_cursor : forall l, list.last (resp_Events resp) = Some l -> resp_Cursor resp <> "" ->
    resp_Cursor resp = CursorValue l }.

Class RpcLaws (W : Type) `{!RpcClient W} `{!StoreView W} `{!EventLog} : Prop := {
  getEvents_grows : forall req w r w', rpc_GetEvents req w = (r, w') -> grows w w';
  getEvents_page : forall req w resp w', rpc_GetEvents req w = (Ok resp, w') -> 0 < req_Limit req ->
    page_ok req resp }.

(** ** Cursors and suffixes of the log *)

Section Log.
Context `{Log : EventLog}.

Lemma after_cursor_split a e b : NoDup (CursorValue <$> (a ++ e :: b)%list) ->
  after_cursor (CursorValue e) (a ++ e :: b)%list = b.
Proof.
  induction a as [|x a IH]; cbn; intros Hnd.
  - by rewrite bool_decide_true.
  - apply list.NoDup_cons in Hnd as [Hx Hnd]. rewrite bool_decide_false; [by apply IH|].
    intros Heq. apply Hx. rewrite Heq, fmap_app. apply elem_of_app. right. by left.
Qed.

Lemma after_cursor_suffix c l : exists p, l = (p ++ after_cursor c l)%list.
Proof.
  induction l as [|e l [p IH]]; cbn; [by exists []|].
  case_bool_decide; [by exists [e]|]. exists (e :: p). cbn. by rewrite <- IH.
Qed.

Lemma todo_suffix c : exists p, rpc_log = (p ++ todo c)%list.
Proof. unfold todo. case_bool_decide; [by exists []|apply after_cursor_suffix]. Qed.

(** The suffix after an event of the suffix. *)
Lemma todo_after c s1 e s2 : todo c = (s1 ++ e :: s2)%list -> todo (CursorValue e) = s2.
Proof.
  intros H. destruct (todo_suffix c) as [p Hp]. rewrite H in Hp.
  assert (He : e ∈ rpc_log) by (rewrite Hp, !elem_of_app; right; right; by left).
  unfold todo. rewrite bool_decide_false by (by apply log_cursor_nonempty).
  pose proof log_cursors as Hnd. rewrite Hp in *. rewrite app_assoc in *. by apply after_cursor_split.
Qed.

Lemma todo_sorted c : StronglySorted (fun a b => re_Ledger a <= re_Ledger b) (todo c).
Proof.
  pose proof log_sorted as H. destruct (todo_suffix c) as [p Hp]. rewrite Hp in H.
  clear Hp. induction p as [|x p IH]; [done|]. apply IH. by inversion H.
Qed.

(** The cursor of an outstanding event is not the one we resumed from. *)
Lemma cursor_advances c e : e ∈ todo c -> CursorValue e <> c.
Proof.
  intros He Hc. unfold todo in He. case_bool_decide as Hn.
  - subst c. by apply (log_cursor_nonempty e).
  - pose proof log_cursors as Hnd. revert He Hnd. generalize rpc_log as l.
    induction l as [|x l IH]; cbn; intros He Hnd; [by apply not_elem_of_nil in He|].
    apply list.NoDup_cons in Hnd as [Hx Hnd]. case_bool_decide as Hxc; [|by apply IH].
    apply Hx. apply list_elem_of_fmap. exists e. by rewrite Hc, Hxc.
Qed.
End Log.

(** An element of a filtered list splits the list it was filtered from. *)
Lemma filter_split {A} (P : A -> Prop) `{forall x, Decision (P x)} (l a b : list A) e :
  filter P l = (a ++ e :: b)%list ->
  exists s1 s2, l = (s1 ++ e :: s2)%list /\ filter P s2 = b.
Proof.
  revert a. induction l as [|x l IH]; intros a Hf; [rewrite filter_nil in Hf; by destruct a|].
  destruct (decide (P x)).
  - rewrite filter_cons_True in Hf by done. destruct a as [|y a]; cbn in Hf; simplify_eq.
    + by exists [], l.
    + destruct (IH a) as (s1 & s2 & -> & <-); [done|]. by exists (y :: s1), s2.
  - rewrite filter_cons_False in Hf by done. destruct (IH a Hf) as (s1 & s2 & -> & <-). by exists (x :: s1), s2.
Qed.

Lemma StronglySorted_app_last {A} (R : A -> A -> Prop) (a b : list A) l x :
  StronglySorted R (a ++ b)%list -> list.last a = Some l -> x ∈ b -> R l x.
Proof.
  intros Hs Hl Hx. apply last_Some in Hl as [a' ->]. rewrite <- app_assoc in Hs. cbn in Hs.
  induction a' as [|y a' IH]; cbn in Hs; inversion Hs as [|? ? Hs' Hall]; subst; [|by apply IH].
  rewrite list.Forall_forall in Hall. by apply Hall.
Qed.

Lemma StronglySorted_filter {A} (R : A -> A -> Prop) (P : A -> Prop) `{forall x, Decision (P x)} (l : list A) :
  StronglySorted R l -> StronglySorted R (filter P l).
Proof.
  induction 1 as [|x l Hs IH Hall]; [constructor|].
  destruct (decide (P x)); [rewrite filter_cons_True by done|by rewrite filter_cons_False].
  constructor; [done|]. rewrite list.Forall_forall in *. intros y Hy.
  apply list_elem_of_filter in Hy as [_ Hy]. by apply Hall.
Qed.

(** ** The paging loop of one batch *)

Section Sweep.
Context {W : Type} `{!RpcClient W} `{!Store W} `{!Services W} `{!StoreView W} `{!StoreLaws W}.
Context `{Log : EventLog} `{!RpcLaws W}.
Context (page_fuel : nat) (start end_ : Z) (filters : list EventFilter).

Lemma safe_persistEvents evs latest : safe (W := W) (persistEvents page_fuel evs latest).
Proof.
  unfold persistEvents, persistEventsWithReorgCheck. destruct (bool_decide _); [apply safe_ret|].
  apply safe_bind; [apply safe_convert|]. intros events. apply safe_bind; [apply safe_get|]. intros i.
  apply safe_bind; [apply safe_mapM, safe_persistEventBatch|]. intros _.
  destruct (negb _); [|apply safe_ret]. intros i2 w2.
  by destruct (fingerprints_no_divergence page_fuel (removeDuplicateEvents events) latest i2 w2) as (t & ->).
Qed.

(** The events of the window this batch is responsible for. *)
Definition relevant (o : Options) (e : REvent) : Prop :=
  rpc_match filters e = true /\ start <= re_Ledger e <= end_ /\ re_ContractID e ∉ op_SkipContracts o.

Definition durable (w : W) (re : REvent) : Prop := ("", re_ID re) ∈ v_events w \/ re_ID re ∈ v_dead w.

Lemma durable_grows w w' re : grows w w' -> durable w re -> durable w' re.
Proof. intros [H1 H2] [H | H]; [left|right]; set_solver. Qed.

Definition request (c : string) (limit : Z) : GetEventsRequest :=
  mkRequest start (u32 (end_ + 1)) filters c limit.

(** A relevant event not yet behind the cursor is outstanding. *)
Lemma relevant_outstanding o c limit e : 0 <= end_ < maxUint32 ->
  relevant o e -> e ∈ todo c -> e ∈ outstanding (request c limit).
Proof.
  intros Hend (Hm & Hr & _) He. unfold outstanding. apply list_elem_of_filter. split; [|done].
  unfold wanted. cbn. rewrite Hm. cbn. rewrite u32_id by (unfold in_u32, maxUint32 in *; lia).
  destruct (Z.leb_spec start (re_Ledger e)); [|lia]. destruct (Z.ltb_spec (re_Ledger e) (end_ + 1)); [|lia].
  rewrite orb_true_r. by destruct (bool_decide _).
Qed.

(** Everything relevant is durable once the page is. *)
Definition done_before (o : Options) (c : string) (w : W) : Prop :=
  forall e, e ∈ rpc_log -> relevant o e -> e ∉ todo c -> durable w e.

Definition page_durable (o : Options) (evs : list REvent) (w : W) : Prop :=
  forall e, e ∈ evs -> re_ContractID e ∉ op_SkipContracts o -> durable w e.

(** The three ways a batch ends leave nothing outstanding in the window. *)
Lemma page_terminal o c limit resp w : 0 <= end_ < maxUint32 ->
  page_ok (request c limit) resp -> done_before o c w -> page_durable o (resp_Events resp) w ->
  (resp_Events resp = outstanding (request c limit) \/
   exists l, list.last (resp_Events resp) = Some l /\ end_ < re_Ledger l) ->
  forall e, e ∈ rpc_log -> relevant o e -> durable w e.
Proof.
  intros Hend [[tl Htl] _ _ _] Hb Hp Hterm e He Hrel.
  destruct (decide (e ∈ todo c)) as [Hin|Hin]; [|by apply Hb].
  pose proof (relevant_outstanding o c limit e Hend Hrel Hin) as Hout.
  destruct Hrel as (Hm & Hr & Hskip).
  destruct Hterm as [Heq | (l & Hl & Hlt)]; [apply Hp; [by rewrite Heq|done]|].
  rewrite Htl in Hout. apply elem_of_app in Hout as [Hout | Hout]; [by apply Hp|].
  exfalso. assert (Hs : StronglySorted (fun a b => re_Ledger a <= re_Ledger b) (resp_Events resp ++ tl)%list).
  { rewrite <- Htl. apply StronglySorted_filter, todo_sorted. }
  pose proof (StronglySorted_app_last _ _ _ _ _ Hs Hl Hout). cbn in *. lia.
Qed.

(** What is left after the last event of the page is strictly shorter. *)
Lemma page_shortens c limit resp l :
  page_ok (request c limit) resp -> list.last (resp_Events resp) = Some l ->
  (length (todo (CursorValue l)) < length (todo c))%nat.
Proof.
  intros [[tl Htl] _ _ _] Hl.
  apply last_Some in Hl as [evs' Hevs]. rewrite Hevs, <- app_assoc in Htl. cbn in Htl.
  unfold outstanding in Htl. apply filter_split in Htl as (s1 & s2 & Hsplit & _). cbn in Hsplit.
  rewrite (todo_after _ _ _ _ Hsplit), Hsplit, length_app. cbn. lia.
Qed.

(** Continuing at the last event of the page keeps the invariant. *)
Lemma page_continue o c limit resp l w : 0 <= end_ < maxUint32 ->
  page_ok (request c limit) resp -> done_before o c w -> page_durable o (resp_Events resp) w ->
  list.last (resp_Events resp) = Some l ->
  done_before o (CursorValue l) w /\ l ∈ todo c.
Proof.
  intros Hend [[tl Htl] _ _ _] Hb Hp Hl.
  apply last_Some in Hl as [evs' Hevs]. rewrite Hevs, <- app_assoc in Htl. cbn in Htl.
  pose proof Htl as Hall. unfold outstanding in Htl. apply filter_split in Htl as (s1 & s2 & Hsplit & Hs2).
  cbn in Hsplit. assert (Htodo : todo (CursorValue l) = s2) by (by eapply todo_after).
  split; [|rewrite Hsplit; apply elem_of_app; right; by left].
  intros e He Hrel Hnin. destruct (decide (e ∈ todo c)) as [Hin|Hin]; [|by apply Hb].
  pose proof (relevant_outstanding o c limit e Hend Hrel Hin) as Hout.
  rewrite Hall in Hout. apply elem_of_app in Hout as [Hout | Hout].
  - apply Hp; [rewrite Hevs; apply elem_of_app; by left|by apply Hrel].
  - apply elem_of_cons in Hout as [-> | Hout].
    + apply Hp; [rewrite Hevs; apply elem_of_app; right; by left|by apply Hrel].
    + exfalso. apply Hnin. rewrite Htodo. rewrite <- Hs2 in Hout. by apply list_elem_of_filter in Hout as [_ ?].
Qed.

Lemma sweep_pages_complete fuel : forall c remaining i w,
  opts_ok (ing_opts i) -> 0 < op_PageLimit (ing_opts i) -> 0 <= end_ < maxUint32 ->
  done_before (ing_opts i) c w ->
  ensures (sweep_pages page_fuel fuel start end_ filters c remaining) i w
    (fun r w' => r.2 = false -> forall e, e ∈ rpc_log -> relevant (ing_opts i) e -> durable w' e).
Proof.
  induction fuel as [|f IH]; intros c remaining i w Ho Hpl Hend Hb; cbn [sweep_pages]; [done|].
  apply ensures_bind. cbn. destruct (match remaining with Some r => _ | None => _ end) eqn:Ecap; [done|].
  set (limit := match remaining with Some r => Z.min _ r | None => _ end).
  assert (Hlim : 0 < limit).
  { subst limit. destruct remaining as [r|]; [|done]. to_prop. lia. }
  apply ensures_bind. unfold mtry, mrpc. fold (request c limit).
  destruct (rpc_GetEvents (request c limit) w) as [[resp|e] w1] eqn:Er.
  2: { destruct (ierror_out_of_range _); [done|]. destruct (is_reanchor _); [|done].
       apply ensures_bind. by destruct (discardCursor i w1) as [[[]] ?]. }
  pose proof (getEvents_grows _ _ _ _ Er) as Hg1.
  pose proof (getEvents_page _ _ _ _ Er Hlim) as Hpage.
  apply ensures_bind. cbn. set (i1 := set_counters _ _ _ i).
  apply ensures_bind.
  pose proof (persistEvents_stores page_fuel (resp_Events resp) (resp_LatestLedger resp) i1 w1 Ho) as Hp.
  pose proof (safe_persistEvents (resp_Events resp) (resp_LatestLedger resp) i1 w1) as Hs. unfold ensures in Hp.
  destruct (persistEvents page_fuel _ _ i1 w1) as [[[[]|e] i2] w2]; [|done]. destruct Hs as [Hg2 Hopt].
  change (page_durable (ing_opts i) (resp_Events resp) w2) in Hp.
  assert (Hb2 : done_before (ing_opts i) c w2).
  { intros e He Hrel Hn. eapply durable_grows; [exact Hg2|]. eapply durable_grows; [exact Hg1|]. by apply Hb. }
  pose proof (page_terminal (ing_opts i) c limit resp w2 Hend Hpage Hb2 Hp) as Hterm.
  destruct (list.last (resp_Events resp)) as [l|] eqn:El.
  2: { cbn. intros _. apply Hterm. left. apply last_None in El. rewrite El. symmetry. by apply Hpage. }
  destruct (Z.ltb_spec end_ (re_Ledger l)); [cbn; intros _; apply Hterm; right; by exists l|].
  set (next := if bool_decide (resp_Cursor resp = "") then CursorValue l else resp_Cursor resp).
  assert (Hnext : next = CursorValue l).
  { subst next. case_bool_decide; [done|]. by apply (page_cursor _ _ Hpage). }
  destruct (_ && _)%bool eqn:Eshort.
  { apply andb_true_iff in Eshort as [E1 E2]. to_prop. cbn. intros _. apply Hterm. left. by apply Hpage. }
  destruct (page_continue (ing_opts i) c limit resp l w2 Hend Hpage Hb2 Hp El) as (Hb3 & Hin).
  rewrite bool_decide_false by (rewrite Hnext; by apply cursor_advances).
  apply ensures_bind. cbn. destruct (sv_ctxErr w2); [done|].
  rewrite Hnext.
  pose proof (IH (CursorValue l) ((fun r => r - Z.of_nat (length (resp_Events resp))) <$> remaining) i2 w2) as HIH.
  rewrite Hopt in HIH. by apply HIH.
Qed.
End Sweep.

(** C5: a window sweep never skips an event. Against any endpoint that serves
    an ordered log page by page (short pages included), if a batch finishes
    without exhausting the event budget, then every event of the log in
    [start, end] that matches its filters and is not of a skipped contract is in
    the events table or in dead_letters. *)
Theorem sweepBatch_complete {W : Type} `{!RpcClient W} `{!Store W} `{!Services W} `{!StoreView W}
    `{!StoreLaws W} `{Log : EventLog} `{!RpcLaws W}
    (page_fuel : nat) (start end_ : Z) (filters : list EventFilter) (remaining budget : option Z)
    (i i' : Ingester) (w w' : W)
    (Ho : opts_ok (ing_opts i)) (Hpl : 0 < op_PageLimit (ing_opts i)) (Hend : 0 <= end_ < maxUint32)
    (Hrun : sweepBatch page_fuel start end_ filters remaining i w = (Ok (budget, false), i', w')) :
  forall e, e ∈ rpc_log -> rpc_match filters e = true -> start <= re_Ledger e <= end_ ->
  re_ContractID e ∉ op_SkipContracts (ing_opts i) ->
  ("", re_ID e) ∈ v_events w' \/ re_ID e ∈ v_dead w'.
Proof.
  pose proof (sweep_pages_complete page_fuel start end_ filters page_fuel "" remaining i w Ho Hpl Hend) as H.
  unfold ensures, sweepBatch in *. rewrite Hrun in H. intros e He Hm Hr Hs.
  apply H; [|done|done|done].
  intros x Hx _ Hn. exfalso. apply Hn. unfold todo. by rewrite bool_decide_true.
Qed.

(** ** Termination *)

(** The computation never runs out of fuel. *)
Definition nofuel {W A} (m : M W A) : Prop := forall i w, (m i w).1.1 <> Err IFuel.

Lemma nofuel_ret {W A} (a : A) : nofuel (W := W) (mret a).
Proof. by intros i w. Qed.
Lemma nofuel_fail {W A} e : e <> IFuel -> nofuel (W := W) (mfail (A := A) e).
Proof. intros H i w. cbn. congruence. Qed.
Lemma nofuel_get {W} : nofuel (W := W) mget.
Proof. by intros i w. Qed.
Lemma nofuel_world {W} : nofuel (W := W) mworld.
Proof. by intros i w. Qed.
Lemma nofuel_modify {W} f : nofuel (W := W) (mmodify f).
Proof. by intros i w. Qed.
Lemma nofuel_effect {W} f : nofuel (W := W) (meffect f).
Proof. by intros i w. Qed.
Lemma nofuel_try {W A} (m : M W A) : nofuel (mtry m).
Proof. intros i w. unfold mtry. by destruct (m i w) as [[r i'] w']. Qed.
Lemma nofuel_wrap {W A} f (m : M W A) : nofuel (mwrap f m).
Proof. intros i w. unfold mwrap. by destruct (m i w) as [[[a|e] i'] w']. Qed.
Lemma nofuel_store {W A} (f : W -> result error A * W) : nofuel (mstore f).
Proof. intros i w. unfold mstore. by destruct (f w) as [[a|e] w']. Qed.
Lemma nofuel_bind {W A B} (m : M W A) (k : A -> M W B) : nofuel m -> (forall a, nofuel (k a)) -> nofuel (mbind_ m k).
Proof.
  intros Hm Hk i w. unfold mbind_. specialize (Hm i w). destruct (m i w) as [[[a|e] i'] w']; [apply Hk|cbn in *; congruence].
Qed.
(** The error of an attempted computation is the computation's. *)
Lemma nofuel_try_bind {W A B} (m : M W A) (k : result ierror A -> M W B) : nofuel m ->
  (forall a, nofuel (k (Ok a))) -> (forall e, e <> IFuel -> nofuel (k (Err e))) -> nofuel (mbind_ (mtry m) k).
Proof.
  intros Hm H1 H2 i w. unfold mbind_, mtry. specialize (Hm i w).
  destruct (m i w) as [[[a|e] i'] w']; cbn in *; [apply H1|apply H2; congruence].
Qed.

Create HintDb nofuel.
#[export] Hint Resolve nofuel_ret nofuel_get nofuel_world nofuel_modify nofuel_effect nofuel_try nofuel_wrap
  nofuel_store : nofuel.
#[export] Hint Extern 1 (nofuel (mfail _)) => apply nofuel_fail; congruence : nofuel.

Ltac fuel_walk :=
  repeat first
    [ progress intros
    | match goal with
      | |- nofuel (mbind_ (mtry _) _) => apply nofuel_try_bind
      | |- nofuel (mbind_ _ _) => apply nofuel_bind
      end
    | solve [eauto with nofuel]
    | match goal with |- nofuel (if ?b then _ else _) => destruct b end
    | match goal with |- nofuel (match ?x with _ => _ end) => destruct x eqn:? end ].

Section Terminates.
Context {W : Type} `{!RpcClient W} `{!Store W} `{!Services W} `{!StoreView W} `{!StoreLaws W}.

Lemma nofuel_sink input e : nofuel (W := W) (recordDeadLetter input e).
Proof. unfold recordDeadLetter. fuel_walk. Qed.
Hint Resolve nofuel_sink : nofuel.

Lemma nofuel_isolate chunk : forall total, nofuel (W := W) (isolate chunk total).
Proof. induction chunk as [|ev rest IH]; intros total; cbn [isolate]; unfold addSkipped; fuel_walk; apply IH. Qed.
Hint Resolve nofuel_isolate : nofuel.

Lemma nofuel_chunk chunk : nofuel (W := W) (upsertChunkWithIsolation chunk).
Proof. unfold upsertChunkWithIsolation. fuel_walk. Qed.
Hint Resolve nofuel_chunk : nofuel.

Lemma nofuel_sleep d : nofuel (W := W) (fun i w => let '(b, w') := sv_sleep d w in (Ok b, i, w')).
Proof. intros i w. by destruct (sv_sleep d w). Qed.
Hint Resolve nofuel_sleep : nofuel.

Lemma nofuel_write_chunks f : forall bc events inserted, nofuel (W := W) (write_chunks f bc events inserted).
Proof.
  induction f as [|f IH]; intros bc events inserted; [apply nofuel_ret|].
  destruct (decide (events = [])) as [-> | Hne]; [apply nofuel_ret|].
  rewrite write_chunks_S by done. cbv zeta. fuel_walk; apply IH.
Qed.
Hint Resolve nofuel_write_chunks : nofuel.

Lemma nofuel_index events : nofuel (W := W) (indexEventAddresses events).
Proof. unfold indexEventAddresses, dryRun. cbv zeta. fuel_walk. Qed.
Hint Resolve nofuel_index : nofuel.

Lemma nofuel_persistEventBatch events : nofuel (W := W) (persistEventBatch events).
Proof. unfold persistEventBatch, dryRun, writeEventsPersist, addWritten. fuel_walk. Qed.

Lemma nofuel_mapM {A} (f : A -> M W unit) l : (forall x, nofuel (f x)) -> nofuel (mapM_ f l).
Proof. intros Hf. induction l as [|x l IH]; cbn [mapM_]; fuel_walk; auto. Qed.

Lemma nofuel_convert l : nofuel (W := W) (convert l).
Proof.
  induction l as [|re l IH]; cbn [convert]; unfold addSkipped; fuel_walk; auto.
  apply nofuel_fail. unfold toStoreEvent in *. repeat case_match; simplify_eq; done.
Qed.

Lemma nofuel_persistEvents fuel evs latest : nofuel (W := W) (persistEvents fuel evs latest).
Proof.
  unfold persistEvents, persistEventsWithReorgCheck. destruct (bool_decide _); [apply nofuel_ret|].
  apply nofuel_bind; [apply nofuel_convert|]. intros events. apply nofuel_bind; [apply nofuel_get|]. intros i.
  apply nofuel_bind; [apply nofuel_mapM, nofuel_persistEventBatch|]. intros _.
  destruct (negb _); [|apply nofuel_ret]. intros i2 w2.
  by destruct (fingerprints_no_divergence fuel (removeDuplicateEvents events) latest i2 w2) as (t & ->).
Qed.

Lemma nofuel_discardCursor : nofuel (W := W) discardCursor.
Proof. unfold discardCursor, setDryRunPosition, getIngestionState. fuel_walk. Qed.

Context `{Log : EventLog} `{!RpcLaws W}.

Lemma sweep_pages_nofuel page_fuel start end_ filters fuel : forall c remaining i w,
  0 < op_PageLimit (ing_opts i) -> 0 <= end_ < maxUint32 -> (length (todo c) < fuel)%nat ->
  (sweep_pages (W := W) page_fuel fuel start end_ filters c remaining i w).1.1 <> Err IFuel.
Proof.
  induction fuel as [|f IH]; intros c remaining i w Hpl Hend Hlen; [lia|]. cbn [sweep_pages].
  unfold mbind_ at 1. cbn. destruct (match remaining with Some r => _ | None => _ end) eqn:Ecap; [done|].
  set (limit := match remaining with Some r => Z.min _ r | None => _ end).
  assert (Hlim : 0 < limit).
  { subst limit. destruct remaining as [r|]; [|done]. to_prop. lia. }
  unfold mbind_ at 1, mtry, mrpc. fold (request start end_ filters c limit).
  destruct (rpc_GetEvents (request start end_ filters c limit) w) as [[resp|e] w1] eqn:Er.
  2: { destruct (ierror_out_of_range _); [done|]. destruct (is_reanchor _); [|done].
       unfold mbind_. pose proof (nofuel_discardCursor i w1) as Hdc.
       destruct (discardCursor i w1) as [[[u|er] ?] ?]; [done|cbn in *; congruence]. }
  pose proof (getEvents_page _ _ _ _ Er Hlim) as Hpage.
  unfold mbind_ at 1. cbn. set (i1 := set_counters _ _ _ i).
  unfold mbind_ at 1.
  pose proof (safe_persistEvents page_fuel (resp_Events resp) (resp_LatestLedger resp) i1 w1) as Hs.
  pose proof (nofuel_persistEvents page_fuel (resp_Events resp) (resp_LatestLedger resp) i1 w1) as Hnf.
  destruct (persistEvents page_fuel _ _ i1 w1) as [[[[]|e] i2] w2]; [|cbn in *; congruence].
  destruct Hs as [_ Hopt]. destruct (list.last (resp_Events resp)) as [l|] eqn:El; [|done].
  destruct (end_ <? re_Ledger l); [done|].
  set (next := if bool_decide (resp_Cursor resp = "") then CursorValue l else resp_Cursor resp).
  assert (Hnext : next = CursorValue l).
  { subst next. case_bool_decide; [done|]. by apply (page_cursor _ _ Hpage). }
  destruct (_ && _)%bool; [done|]. destruct (bool_decide (next = c)); [done|].
  unfold mbind_ at 1. cbn. destruct (sv_ctxErr w2); [done|]. rewrite Hnext.
  apply IH; [by rewrite Hopt|done|]. pose proof (page_shortens start end_ filters c limit resp l Hpage El). lia.
Qed.
End Terminates.

(** C29: the paging loop terminates: with fuel for one page more than the log
    has events the sweep of a batch never runs out of it, whatever page sizes the
    endpoint chooses. *)
Theorem sweepBatch_terminates {W : Type} `{!RpcClient W} `{!Store W} `{!Services W} `{!StoreView W}
    `{!StoreLaws W} `{Log : EventLog} `{!RpcLaws W}
    (page_fuel : nat) (start end_ : Z) (filters : list EventFilter) (remaining : option Z)
    (i : Ingester) (w : W)
    (Hpl : 0 < op_PageLimit (ing_opts i)) (Hend : 0 <= end_ < maxUint32)
    (Hfuel : (length rpc_log < page_fuel)%nat) :
  (sweepBatch page_fuel start end_ filters remaining i w).1.1 <> Err IFuel.
Proof.
  unfold sweepBatch. apply sweep_pages_nofuel; [done|done|].
  unfold todo. by rewrite bool_decide_true.
Qed.
