(* ===== verification/IngesterFrontier.v ===== *)
(** * The frontier never passes unstored data (internal/ingester/ingester.go)

    windowSweep moves the persisted frontier of its network only over ledgers
    whose events are stored, or to the provider's oldest ledger when the start
    fell out of the retention window. *)

From S2P Require Import Prelude GoStrings GoSort StoreErrors StoreTypes RpcTypes Backpressure ReorgTracker.
From S2P Require Import SqliteStore StoreReorg IngesterCore Ingester IngesterCycle IngesterPersist.
From S2P Require Import IngesterSweep.
From Stdlib Require Import Ascii String.
Local Open Scope Z_scope.
Local Open Scope go_scope.
Local Notation length := List.length.
Local Abbreviation SEvent := StoreTypes.Event.
Local Abbreviation REvent := RpcTypes.Event.

(** The persisted frontier of each network. *)
Class FrontierView (W : Type) : Type := { v_frontier : W -> string -> option Z }.

Definition same_frontier `{FrontierView W} (w w' : W) : Prop := forall n, v_frontier w' n = v_frontier w n.

(** A frontier that stayed or moved back. *)
Definition fback (a b : option Z) : Prop := a = b \/ exists f f', a = Some f /\ b = Some f' /\ f' <= f.

Lemma fback_trans a b c : fback a b -> fback b c -> fback a c.
Proof. intros [->|(f & f' & -> & -> & H)] [<-|(g & g' & Hg & -> & H')]; [by left|right; eauto|right; eauto|]. simplify_eq. right. exists f, g'. split_and!; [done..|lia]. Qed.

(** Only SaveIngestionState moves the frontier forward, and it keeps the events; the
    reconciliation of a reorganisation moves it back at most. *)
Class FrontierLaws (W : Type) `{!RpcClient W} `{!Store W} `{!Services W} `{!StoreView W} `{!FrontierView W} : Prop := {
  fr_upsert : forall evs w, same_frontier w (st_UpsertEvents evs w).2;
  fr_refs : forall refs w, same_frontier w (st_UpsertAddressRefs refs w).2;
  fr_sink : forall f input e w, sv_deadLetter = Some f -> same_frontier w (f input e w).2;
  fr_publish : forall evs w, same_frontier w (sv_publish evs w);
  fr_sleep : forall d w, same_frontier w (sv_sleep d w).2;
  fr_events : forall req w, same_frontier w (rpc_GetEvents req w).2;
  fr_health : forall w, same_frontier w (rpc_GetHealth w).2;
  fr_health_grows : forall w, grows w (rpc_GetHealth w).2;
  fr_health_range : forall w h w', rpc_GetHealth w = (Ok h, w') -> 0 <= h_LatestLedger h < maxUint32;
  fr_get : forall n w, same_frontier w (st_GetIngestionState n w).2;
  fr_get_ok : forall n w st w', st_GetIngestionState n w = (Ok st, w') ->
    v_frontier w n = Some (LastIngestedLedger st);
  fr_get_grows : forall n w, grows w (st_GetIngestionState n w).2;
  fr_save_ok : forall st w w', st_SaveIngestionState st w = (Ok tt, w') ->
    v_frontier w' (is_Network st) = Some (LastIngestedLedger st);
  fr_save_err : forall st w e w', st_SaveIngestionState st w = (Err e, w') -> same_frontier w w';
  fr_save_grows : forall st w, grows w (st_SaveIngestionState st w).2;
  fr_watched : forall w, same_frontier w (st_ListWatchedContracts w).2;
  fr_reconcile : forall o w n, fback (v_frontier w n) (v_frontier (st_ReconcileReorgRange o w).2 n);
  fr_notify : forall from to newHead ids evs w, same_frontier w (sv_notifyReorg from to newHead ids evs w) }.

Section Frontier.
Context {W : Type} `{!RpcClient W} `{!Store W} `{!Services W} `{!StoreView W} `{!StoreLaws W}.
Context `{!FrontierView W} `{!FrontierLaws W}.

(** A computation that leaves the frontier of network [n] alone. *)
Definition still {A} (n : string) (m : M W A) : Prop := forall i w,
  op_Network (ing_opts i) = n -> v_frontier (m i w).2 n = v_frontier w n /\ op_Network (ing_opts (m i w).1.2) = n.

Lemma still_ret {A} n (a : A) : still n (mret a).
Proof. by intros i w. Qed.
Lemma still_fail {A} n e : still n (mfail (A := A) e).
Proof. by intros i w. Qed.
Lemma still_get n : still n mget.
Proof. by intros i w. Qed.
Lemma still_world n : still n mworld.
Proof. by intros i w. Qed.
Lemma still_modify n f : (forall i, ing_opts (f i) = ing_opts i) -> still n (mmodify f).
Proof. intros Hf i w Hn. cbn. by rewrite Hf. Qed.
Lemma still_effect n f : (forall w, same_frontier w (f w)) -> still n (meffect f).
Proof. intros Hf i w Hn. cbn. split; [apply Hf|done]. Qed.
Lemma still_bind {A B} n (m : M W A) (k : A -> M W B) : still n m -> (forall a, still n (k a)) -> still n (mbind_ m k).
Proof.
  intros Hm Hk i w Hn. unfold mbind_. destruct (Hm i w Hn) as [H1 H2].
  destruct (m i w) as [[[a|e] i'] w']; cbn in *; [|done].
  destruct (Hk a i' w' H2) as [H3 H4]. split; [congruence|done].
Qed.
Lemma still_try {A} n (m : M W A) : still n m -> still n (mtry m).
Proof. intros Hm i w Hn. unfold mtry. destruct (Hm i w Hn). by destruct (m i w) as [[r i'] w']. Qed.
Lemma still_wrap {A} n f (m : M W A) : still n m -> still n (mwrap f m).
Proof. intros Hm i w Hn. unfold mwrap. destruct (Hm i w Hn). by destruct (m i w) as [[[a|e] i'] w']. Qed.
Lemma still_store {A} n (f : W -> result error A * W) : (forall w, same_frontier w (f w).2) -> still n (mstore f).
Proof. intros Hf i w Hn. unfold mstore. specialize (Hf w). destruct (f w) as [r w']. split; [apply Hf|done]. Qed.
Lemma still_rpc {A} n (f : W -> result rerror A * W) : (forall w, same_frontier w (f w).2) -> still n (mrpc f).
Proof. intros Hf i w Hn. unfold mrpc. specialize (Hf w). destruct (f w) as [r w']. split; [apply Hf|done]. Qed.
End Frontier.

Create HintDb still.
#[export] Hint Resolve still_ret still_fail still_get still_world still_try still_wrap : still.
#[export] Hint Extern 1 (still _ (mmodify _)) => apply still_modify; reflexivity : still.

Ltac still_walk :=
  repeat first
    [ progress intros
    | match goal with |- still _ (mbind_ _ _) => apply still_bind end
    | solve [eauto with still]
    | match goal with |- still _ (if ?b then _ else _) => destruct b end
    | match goal with |- still _ (match ?x with _ => _ end) => destruct x end ].

Section Steps.
Context {W : Type} `{!RpcClient W} `{!Store W} `{!Services W} `{!StoreView W} `{!StoreLaws W}.
Context `{!FrontierView W} `{!FrontierLaws W} (n : string).

Lemma still_sink input e : still (W := W) n (recordDeadLetter input e).
Proof.
  unfold recordDeadLetter. destruct sv_deadLetter as [f|] eqn:E; [|apply still_ret].
  apply still_store. intros w. by apply fr_sink.
Qed.
Lemma still_upsert evs : still (W := W) n (mstore (st_UpsertEvents evs)).
Proof. apply still_store, fr_upsert. Qed.
Lemma still_sleep d : still (W := W) n (fun i w => let '(b, w') := sv_sleep d w in (Ok b, i, w')).
Proof. intros i w Hn. pose proof (fr_sleep d w) as H. destruct (sv_sleep d w) as [b w']. split; [apply H|done]. Qed.
Hint Resolve still_sink still_upsert still_sleep : still.

Lemma still_isolate chunk : forall total, still (W := W) n (isolate chunk total).
Proof. induction chunk as [|ev rest IH]; intros total; cbn [isolate]; unfold addSkipped; still_walk; apply IH. Qed.
Hint Resolve still_isolate : still.
Lemma still_chunk chunk : still (W := W) n (upsertChunkWithIsolation chunk).
Proof. unfold upsertChunkWithIsolation. still_walk. Qed.
Hint Resolve still_chunk : still.
Lemma still_write_chunks f : forall bc events inserted, still (W := W) n (write_chunks f bc events inserted).
Proof.
  induction f as [|f IH]; intros bc events inserted; [apply still_ret|].
  destruct (decide (events = [])) as [-> | Hne]; [apply still_ret|].
  rewrite write_chunks_S by done. cbv zeta. still_walk; apply IH.
Qed.
Hint Resolve still_write_chunks : still.
Lemma still_index events : still (W := W) n (indexEventAddresses events).
Proof. unfold indexEventAddresses, dryRun. cbv zeta. still_walk. apply still_store, fr_refs. Qed.
Hint Resolve still_index : still.
Lemma still_persistEventBatch events : still (W := W) n (persistEventBatch events).
Proof.
  unfold persistEventBatch, dryRun, writeEventsPersist, addWritten. still_walk.
  apply still_effect, fr_publish.
Qed.
Lemma still_mapM {A} (f : A -> M W unit) l : (forall x, still n (f x)) -> still n (mapM_ f l).
Proof. intros Hf. induction l as [|x l IH]; cbn [mapM_]; still_walk; auto. Qed.
Lemma still_convert l : still (W := W) n (convert l).
Proof. induction l as [|re l IH]; cbn [convert]; unfold addSkipped; still_walk; auto. Qed.

Lemma still_persistEvents fuel evs latest : still (W := W) n (persistEvents fuel evs latest).
Proof.
  unfold persistEvents, persistEventsWithReorgCheck. destruct (bool_decide _); [apply still_ret|].
  apply still_bind; [apply still_convert|]. intros events. apply still_bind; [apply still_get|]. intros i.
  apply still_bind; [apply still_mapM, still_persistEventBatch|]. intros _.
  destruct (negb _); [|apply still_ret]. intros i2 w2 Hn.
  by destruct (fingerprints_no_divergence fuel (removeDuplicateEvents events) latest i2 w2) as (t & ->).
Qed.
Hint Resolve still_persistEvents : still.

(** Discarding the cursor re-saves the same ledger. *)
Lemma still_discardCursor : still (W := W) n discardCursor.
Proof.
  intros i w Hn. unfold discardCursor, setDryRunPosition, getIngestionState, mbind_, mtry, mstore, mget, mret, mmodify.
  destruct (op_DryRun (ing_opts i)) eqn:Ed.
  { destruct (ing_dryRunPosition i) as [[c l]|]; [|done]. destruct (bool_decide _); [done|]. by rewrite Ed. }
  rewrite Hn. pose proof (fr_get n w n) as Hf. pose proof (fr_get_ok n w) as Hok.
  destruct (st_GetIngestionState n w) as [[st|e] w1]; [|by split]. cbn [snd] in Hf.
  destruct (bool_decide _); [by split|].
  destruct (st_SaveIngestionState _ w1) as [[[]|e] w2] eqn:Es; (split; [|done]); cbn [snd].
  - pose proof (fr_save_ok _ _ _ Es) as Hs. cbn in Hs. rewrite Hs. by rewrite (Hok st w1 eq_refl).
  - rewrite (fr_save_err _ _ _ _ Es n). done.
Qed.
Hint Resolve still_discardCursor : still.

Lemma still_getEvents req : still (W := W) n (mrpc (rpc_GetEvents req)).
Proof. apply still_rpc, fr_events. Qed.
Hint Resolve still_getEvents : still.

Lemma still_sweep_pages page_fuel start end_ filters fuel : forall c remaining,
  still (W := W) n (sweep_pages page_fuel fuel start end_ filters c remaining).
Proof.
  induction fuel as [|f IH]; intros c remaining; [apply still_fail|]. cbn [sweep_pages].
  unfold addFetched. cbv zeta. still_walk; apply IH.
Qed.

Lemma still_sweep_batches page_fuel start end_ batches : forall remaining capHit,
  still (W := W) n (sweep_batches page_fuel start end_ batches remaining capHit).
Proof.
  induction batches as [|b rest IH]; intros remaining capHit; cbn [sweep_batches]; [apply still_ret|].
  apply still_bind; [apply still_sweep_pages|]. intros. apply IH.
Qed.

(** A computation that leaves the frontier of network [n] or moves it back. *)
Definition backs {A} (m : M W A) : Prop := forall i w, op_Network (ing_opts i) = n ->
  fback (v_frontier w n) (v_frontier (m i w).2 n) /\ op_Network (ing_opts (m i w).1.2) = n.

Lemma still_backs {A} (m : M W A) : still n m -> backs m.
Proof. intros H i w Hn. destruct (H i w Hn) as [H1 H2]. split; [left; congruence|done]. Qed.
Lemma backs_bind {A B} (m : M W A) (k : A -> M W B) : backs m -> (forall a, backs (k a)) -> backs (mbind_ m k).
Proof.
  intros Hm Hk i w Hn. unfold mbind_. destruct (Hm i w Hn) as [H1 H2].
  destruct (m i w) as [[[a|e] i'] w']; cbn in *; [|done]. destruct (Hk a i' w' H2) as [H3 H4]. split; [by eapply fback_trans|done].
Qed.
Lemma backs_wrap {A} f (m : M W A) : backs m -> backs (mwrap f m).
Proof. intros Hm i w Hn. unfold mwrap. destruct (Hm i w Hn). by destruct (m i w) as [[[a|e] i'] w']. Qed.
Lemma backs_reconcile o : backs (mstore (st_ReconcileReorgRange o)).
Proof. intros i w Hn. unfold mstore. pose proof (fr_reconcile o w n) as H. destruct (st_ReconcileReorgRange o w) as [r w']. by split. Qed.

Lemma still_batches : still (W := W) n buildFilterBatches.
Proof. unfold buildFilterBatches. apply still_bind; [apply still_store, fr_watched|]. intros. still_walk. Qed.
Hint Resolve still_batches : still.
Lemma still_collect_pages fuel from to batch allow : forall cursor acc, still (W := W) n (collect_pages fuel from to batch allow cursor acc).
Proof. induction fuel as [|f IH]; intros cursor acc; [apply still_fail|]. cbn [collect_pages]. cbv zeta. still_walk; apply IH. Qed.
Hint Resolve still_collect_pages : still.
Lemma still_mresult {A} (r : result ierror A) : still (W := W) n (mresult r).
Proof. unfold mresult. still_walk. Qed.
Hint Resolve still_mresult : still.
Lemma still_collect_batches fuel from to batches allow : still (W := W) n (collect_batches fuel from to batches allow).
Proof. induction batches as [|b rest IH]; cbn [collect_batches]; unfold collectBatchEventsInRange; still_walk. Qed.
Lemma still_record l events : still (W := W) n (record_fingerprint l events).
Proof. intros i w Hn. unfold record_fingerprint. by destruct (RecordLedgerHash _ _ _) as [[mismatch r] t]. Qed.
Hint Resolve still_collect_batches still_record : still.

Lemma backs_executeReorgPass fuel from to newHead : backs (executeReorgPass fuel from to newHead).
Proof.
  unfold executeReorgPass. apply backs_bind; [apply still_backs; still_walk|]. intros batches. apply backs_bind; [apply still_backs; still_walk|]. intros collected.
  cbv zeta. apply backs_bind; [apply still_backs; still_walk|]. intros i0. destruct (op_DryRun (ing_opts i0)); [apply still_backs; still_walk|].
  apply backs_bind; [apply backs_wrap, backs_reconcile|]. intros res. apply still_backs. apply still_bind.
  { apply still_modify. intros i. destruct (ing_tracker i); [|done]. by destruct (_ && _)%bool. }
  intros _. apply still_bind; [destruct (ing_tracker i0); [|apply still_ret]; apply still_mapM; intros; still_walk|].
  intros _. apply still_bind; [destruct (bool_decide _); [apply still_ret|apply still_effect; intros; apply fr_notify]|]. intros _. apply still_ret.
Qed.

Lemma still_getState : still (W := W) n getIngestionState.
Proof. unfold getIngestionState. apply still_bind; [apply still_get|]. intros i. apply still_store, fr_get. Qed.
Hint Resolve still_getState : still.

Lemma backs_HandleReorgRange fuel from to newHead : backs (HandleReorgRange fuel from to newHead).
Proof.
  unfold HandleReorgRange. destruct (_ || _)%bool; [apply still_backs; still_walk|]. apply backs_bind; [apply still_backs; still_walk|]. intros w0.
  apply backs_bind; [apply still_backs; still_walk|]. intros archived. destruct (_ && _)%bool; [apply still_backs; still_walk|].
  apply backs_bind; [apply still_backs; still_walk|]. intros st. cbv zeta. apply backs_bind; [apply still_backs; still_walk|]. intros i0.
  destruct (EvaluateDepth _ _ _ _) as [[d s] exceeded]. destruct exceeded; [apply still_backs; still_walk|apply backs_executeReorgPass].
Qed.

(** The check for a regressed head either finds nothing, having read the state at
    most, or handles a reorganisation, which moves the frontier back at most. *)
Lemma tip_regression_cases fuel latest i w r i' w' : op_Network (ing_opts i) = n -> maybeHandleTipRegression (W := W) fuel latest i w = (r, i', w') ->
  (r = Ok false /\ i' = i /\ (w' = w \/ w' = (st_GetIngestionState n w).2)) \/
  (op_ReorgConfirmationWindow (ing_opts i) <> 0 /\ r <> Ok false /\ fback (v_frontier w n) (v_frontier w' n)).
Proof.
  intros Hn H. unfold maybeHandleTipRegression in H. unfold mbind_ at 1 in H. cbn [mget] in H.
  destruct (_ || _)%bool eqn:Eoff in H; [unfold mret in H; injection H as <- <- <-; left; split_and!; [done|done|by left]|]. apply orb_false_iff in Eoff as [[_ Hw]%orb_false_iff _]. apply Z.eqb_neq in Hw.
  destruct (CheckTipRegression latest (ing_tracker i)) as [[reg from] to]. unfold mbind_ at 1, mtry, getIngestionState, mbind_ at 1 in H. cbn [mget] in H.
  unfold mstore in H. rewrite Hn in H. pose proof (fr_get n w n) as Hf. destruct (st_GetIngestionState n w) as [rs w1] eqn:Eg. cbn [snd] in Hf.
  assert (Hgo : forall reg from to, (if negb reg then mret false else HandleReorgRange fuel from to latest ;; mret true) i w1 = (r, i', w') ->
    (r = Ok false /\ i' = i /\ w' = w1) \/ (r <> Ok false /\ fback (v_frontier w n) (v_frontier w' n))).
  { intros reg' from' to' H'. destruct reg'; cbn [negb] in H'; [|unfold mret in H'; injection H' as <- <- <-; left; auto]. right.
    destruct (backs_HandleReorgRange fuel from' to' latest i w1 Hn) as [Hb _]. unfold mbind_ in H'.
    rewrite Hf in Hb. destruct (HandleReorgRange fuel from' to' latest i w1) as [[[res|e] i2] w2]; [unfold mret in H'|]; injection H' as <- <- <-; by split. }
  match type of H with (let '(_, _) := ?x in _) _ _ = _ => destruct x as [[reg' from'] to'] end.
  apply Hgo in H as [(-> & -> & ->)|[H1 H2]]; [left; auto|right; auto].
Qed.
End Steps.

Section Window.
Context {W : Type} `{!RpcClient W} `{!Store W} `{!Services W} `{!StoreView W} `{!StoreLaws W}.
Context `{!FrontierView W} `{!FrontierLaws W} `{Log : EventLog} `{!RpcLaws W}.

Lemma safe_rpc {A} (f : W -> result rerror A * W) : (forall w, grows w (f w).2) -> safe (mrpc f).
Proof. intros Hf i w. unfold mrpc. specialize (Hf w). destruct (f w) as [r w']. by split. Qed.

Lemma safe_getEvents req : safe (W := W) (mrpc (rpc_GetEvents req)).
Proof.
  apply safe_rpc. intros w. destruct (rpc_GetEvents req w) as [r w'] eqn:E. by eapply getEvents_grows.
Qed.
Lemma safe_save st : safe (W := W) (mstore (st_SaveIngestionState st)).
Proof. apply safe_store. intros w r w' H. pose proof (fr_save_grows st w) as Hg. by rewrite H in Hg. Qed.
Lemma safe_getState n : safe (W := W) (mstore (st_GetIngestionState n)).
Proof. apply safe_store. intros w r w' H. pose proof (fr_get_grows n w) as Hg. by rewrite H in Hg. Qed.
Hint Resolve safe_getEvents safe_save safe_getState safe_persistEvents : safe.

Lemma safe_setDryRun c l : safe (W := W) (setDryRunPosition c l).
Proof. apply safe_modify. intros i. by destruct (op_DryRun _). Qed.
Hint Resolve safe_setDryRun : safe.

Lemma safe_getIngestionState : safe (W := W) getIngestionState.
Proof. unfold getIngestionState. safe_walk. Qed.
Hint Resolve safe_getIngestionState : safe.

Lemma safe_discardCursor : safe (W := W) discardCursor.
Proof. unfold discardCursor. safe_walk. Qed.
Hint Resolve safe_discardCursor : safe.

Lemma safe_sweep_pages page_fuel start end_ filters fuel : forall c remaining,
  safe (W := W) (sweep_pages page_fuel fuel start end_ filters c remaining).
Proof.
  induction fuel as [|f IH]; intros c remaining; [apply safe_fail|]. cbn [sweep_pages].
  apply safe_bind; [apply safe_get|]. intros i.
  destruct (match remaining with Some r => _ | None => _ end); [apply safe_ret|].
  apply safe_bind; [apply safe_try, safe_getEvents|]. intros [resp|e].
  - apply safe_bind; [by apply safe_modify|]. intros _. apply safe_bind; [apply safe_persistEvents|]. intros _.
    safe_walk; apply IH.
  - safe_walk.
Qed.

Lemma safe_sweep_batches page_fuel start end_ batches : forall remaining capHit,
  safe (W := W) (sweep_batches page_fuel start end_ batches remaining capHit).
Proof.
  induction batches as [|b rest IH]; intros remaining capHit; cbn [sweep_batches]; [apply safe_ret|].
  apply safe_bind; [apply safe_sweep_pages|]. intros. apply IH.
Qed.

(** Re-clamping leaves the frontier alone or puts it before the oldest ledger. *)
Lemma reclamp_frontier i (w : W) n : op_Network (ing_opts i) = n -> op_DryRun (ing_opts i) = false ->
  v_frontier (reclampToOldest [] i w).2 n = v_frontier w n \/
  exists h w1, rpc_GetHealth w = (Ok h, w1) /\
    v_frontier (reclampToOldest [] i w).2 n = Some (h_OldestLedger h - 1).
Proof.
  intros Hn Hd. unfold reclampToOldest, mbind_, mwrap, mrpc, mget.
  pose proof (fr_health w n) as Hf. destruct (rpc_GetHealth w) as [[h|e] w1] eqn:Eh; [|by left].
  cbn [snd] in Hf. rewrite bool_decide_true, Hd by done. cbn [negb]. unfold mstore. rewrite Hn.
  destruct (st_SaveIngestionState _ w1) as [[[]|e] w2] eqn:Es; cbn [snd].
  - right. exists h, w1. split; [done|]. exact (fr_save_ok _ _ _ Es).
  - left. rewrite (fr_save_err _ _ _ _ Es n). exact Hf.
Qed.

Definition window_stored (o : Options) (start end_ : Z) (batches : list (list EventFilter)) (w : W) : Prop :=
  forall b e, b ∈ batches -> e ∈ rpc_log -> relevant start end_ b o e -> durable w e.

Lemma sweep_batches_complete page_fuel start end_ batches : forall remaining capHit i w,
  opts_ok (ing_opts i) -> 0 < op_PageLimit (ing_opts i) -> 0 <= end_ < maxUint32 ->
  ensures (sweep_batches page_fuel start end_ batches remaining capHit) i w
    (fun hit w' => hit = false -> capHit = false /\ window_stored (ing_opts i) start end_ batches w').
Proof.
  induction batches as [|b rest IH]; intros remaining capHit i w Ho Hpl Hend; cbn [sweep_batches].
  { cbn. intros ->. split; [done|]. intros b e Hb. by apply not_elem_of_nil in Hb. }
  apply ensures_bind. unfold sweepBatch.
  pose proof (sweep_pages_complete page_fuel start end_ b page_fuel "" remaining i w Ho Hpl Hend) as Hc.
  pose proof (safe_sweep_pages page_fuel start end_ b page_fuel "" remaining i w) as Hs.
  unfold ensures in Hc. destruct (sweep_pages page_fuel page_fuel start end_ b "" remaining i w) as [[[[rem hit]|e] i1] w1];
    [|done]. destruct Hs as [_ Hopt]. cbn [fst snd] in *.
  assert (Hb0 : done_before start end_ b (ing_opts i) "" w).
  { intros x Hx _ Hn. exfalso. apply Hn. unfold todo. by rewrite bool_decide_true. }
  specialize (Hc Hb0).
  pose proof (IH rem (capHit || hit)%bool i1 w1) as HIH. rewrite Hopt in HIH. specialize (HIH Ho Hpl Hend).
  pose proof (safe_sweep_batches page_fuel start end_ rest rem (capHit || hit)%bool i1 w1) as Hs2.
  unfold ensures in *. destruct (sweep_batches page_fuel start end_ rest rem _ i1 w1) as [[[h|e] i2] w2]; [|done].
  intros Hh. destruct (HIH Hh) as [Hor Hrest]. apply orb_false_iff in Hor as [-> ->]. split; [done|].
  intros x e Hx He Hrel. apply elem_of_cons in Hx as [-> | Hx]; [|by eapply Hrest].
  eapply durable_grows; [apply Hs2|]. by apply Hc.
Qed.
(** What windowSweep does once the head has not regressed. *)
Definition window_body (page_fuel : nat) (start : Z) (batches : list (list EventFilter)) (latest : Z) (i : Ingester) (w : W) : result ierror bool * Ingester * W :=
  let end_ := sweep_end i start latest in
  let L := if latest <=? end_ then end_ - 1 else end_ in
  if latest <? start then (Ok true, i, w)
  else match sweep_batches page_fuel start end_ batches (newCycleBudget (ing_opts i)) false i w with
       | (Err e, i2, w2) => if ierror_out_of_range e then (reclampToOldest [] ;; mret false) i2 w2 else (Err e, i2, w2)
       | (Ok true, i2, w2) => (Ok false, i2, w2)
       | (Ok false, i2, w2) =>
           match st_SaveIngestionState (mkIngestionState (op_Network (ing_opts i)) L "" (Some (sv_now w2))) w2 with
           | (Ok _, w3) => (Ok (latest <=? end_), i2, w3)
           | (Err e, w3) => (Err (IStore e), i2, w3)
           end
       end.

(** windowSweep of a live ingester, as a case tree. *)
Lemma windowSweep_cases page_fuel start batches i w : op_DryRun (ing_opts i) = false ->
  windowSweep page_fuel start batches i w =
  match rpc_GetHealth w with
  | (Err e, w1) => (Err (IWrap "getHealth for sweep window: %w" (IRpc e)), i, w1)
  | (Ok h, w1) =>
      match maybeHandleTipRegression page_fuel (h_LatestLedger h) i w1 with
      | (Err e, i1, w1) => (Err e, i1, w1)
      | (Ok true, i1, w1) => (Ok true, i1, w1)
      | (Ok false, i1, w1) => window_body page_fuel start batches (h_LatestLedger h) i w1
      end
  end.
Proof.
  intros Hd. unfold windowSweep, mbind_ at 1, mwrap, mrpc. destruct (rpc_GetHealth w) as [[h|e] w1]; [|done]. unfold mbind_ at 1.
  destruct (maybeHandleTipRegression page_fuel (h_LatestLedger h) i w1) as [[[reg|e] i1] w1'] eqn:Et; [|done]. destruct reg; [done|].
  destruct (tip_regression_cases (op_Network (ing_opts i)) _ _ _ _ _ _ _ eq_refl Et) as [(_ & -> & _)|(_ & [] & _)]; [|done].
  unfold window_body. cbv zeta. destruct (h_LatestLedger h <? start); [done|].
  unfold mbind_ at 1. cbn [mget]. unfold mbind_ at 1, mtry.
  destruct (sweep_batches page_fuel start _ batches _ false i w1') as [[[hit|e] i2] w2].
  - destruct hit; [done|]. rewrite Hd. unfold mbind_, mworld, mstore.
    by destruct (st_SaveIngestionState _ w2) as [[u|e] w3].
  - by destruct (ierror_out_of_range e).
Qed.

Lemma sweep_end_range i start latest : 0 <= latest < maxUint32 -> 0 <= sweep_end i start latest <= latest.
Proof.
  intros Hl. unfold sweep_end.
  pose proof (u32_range (u32 (start + effectiveSweepWindow (ing_opts i) (ing_lag i)) - 1)) as Hu. unfold in_u32 in Hu. lia.
Qed.

(** What a clean sweep and the save after it leave behind. *)
Lemma saved_window o start end_ L batches w2 w3 : window_stored o start end_ batches w2 -> grows w2 w3 -> L <= end_ ->
  forall b e, b ∈ batches -> e ∈ rpc_log -> rpc_match b e = true -> start <= re_Ledger e <= L ->
  re_ContractID e ∉ op_SkipContracts o -> ("", re_ID e) ∈ v_events w3 \/ re_ID e ∈ v_dead w3.
Proof.
  intros Hwin Hg HL b e Hb He Hm Hr Hs. eapply durable_grows; [exact Hg|]. apply (Hwin b e Hb He).
  split; [done|]. split; [lia|done].
Qed.

(** The frontier after the sweep of a window, and what a caught-up sweep has stored. *)
Definition stored_to (i : Ingester) (batches : list (list EventFilter)) (start L : Z) (w : W) : Prop :=
  forall b e, b ∈ batches -> e ∈ rpc_log -> rpc_match b e = true -> start <= re_Ledger e <= L ->
  re_ContractID e ∉ op_SkipContracts (ing_opts i) -> ("", re_ID e) ∈ v_events w \/ re_ID e ∈ v_dead w.

(** The batches of a window ended because the provider no longer has a ledger of
    it, and [h] is what its health reports next. *)
Definition range_lost (page_fuel : nat) (start : Z) (batches : list (list EventFilter)) (latest : Z) (i : Ingester) (w : W) (h : Health) : Prop :=
  exists e i1 w1 w2, sweep_batches page_fuel start (sweep_end i start latest) batches (newCycleBudget (ing_opts i)) false i w = (Err e, i1, w1) /\
    ierror_out_of_range e = true /\ rpc_GetHealth w1 = (Ok h, w2).

Lemma window_body_safe page_fuel start batches latest i w : opts_ok (ing_opts i) -> 0 < op_PageLimit (ing_opts i) -> 0 <= latest < maxUint32 ->
  let n := op_Network (ing_opts i) in
  let '(r, _, w') := window_body page_fuel start batches latest i w in
  (v_frontier w' n = v_frontier w n \/
   (exists h, range_lost page_fuel start batches latest i w h /\ v_frontier w' n = Some (h_OldestLedger h - 1)) \/
   (exists L, v_frontier w' n = Some L /\ stored_to i batches start L w')) /\
  (r = Ok true -> latest < start \/ (v_frontier w' n = Some (latest - 1) /\ stored_to i batches start latest w')).
Proof.
  intros Ho Hpl Hlat. cbv zeta. pose proof Ho as (Hd & _). set (n := op_Network (ing_opts i)). unfold window_body. cbv zeta.
  destruct (Z.ltb_spec latest start); [split; [by left|by left]|].
  set (end_ := sweep_end i start latest). pose proof (sweep_end_range i start latest Hlat) as Hend. fold end_ in Hend.
  pose proof (sweep_batches_complete page_fuel start end_ batches (newCycleBudget (ing_opts i)) false i w Ho Hpl ltac:(lia)) as Hc.
  pose proof (still_sweep_batches n page_fuel start end_ batches (newCycleBudget (ing_opts i)) false i w eq_refl) as [Hst Hnet].
  pose proof (safe_sweep_batches page_fuel start end_ batches (newCycleBudget (ing_opts i)) false i w) as Hsafe.
  unfold ensures in Hc.
  destruct (sweep_batches page_fuel start end_ batches _ false i w) as [[[[]|e] i2] w2] eqn:Esb;
    cbn [fst snd] in Hst, Hnet; destruct Hsafe as [_ Hopt].
  - split; [left; congruence|done].
  - destruct (Hc eq_refl) as [_ Hwin]. set (L := if latest <=? end_ then end_ - 1 else end_).
    assert (HL : L <= end_) by (subst L; destruct (_ <=? _); lia). set (st := mkIngestionState _ L _ _).
    pose proof (fr_save_grows st w2) as Hsg. destruct (st_SaveIngestionState st w2) as [[[]|er] w3] eqn:Es; cbn [snd] in Hsg.
    + pose proof (fr_save_ok _ _ _ Es : v_frontier w3 n = Some L) as Hf3.
      pose proof (fun L' HL' => saved_window (ing_opts i) start end_ L' batches w2 w3 Hwin Hsg HL') as Hstored.
      split; [right; right; exists L; split; [exact Hf3|exact (Hstored L HL)]|].
      intros [= Hcu]. right. subst L. rewrite Hcu in Hf3. apply Z.leb_le in Hcu.
      assert (Heq : end_ = latest) by lia. rewrite Heq in Hf3. split; [exact Hf3|exact (Hstored latest ltac:(lia))].
    + split; [left; rewrite (fr_save_err _ _ _ _ Es n); congruence|done].
  - destruct (ierror_out_of_range e) eqn:Eoor; [|split; [left; congruence|done]].
    pose proof (reclamp_frontier i2 w2 n Hnet ltac:(by rewrite Hopt)) as Hr. unfold mbind_.
    destruct (reclampToOldest [] i2 w2) as [[[[]|er] i3] w3]; cbn [fst snd mret] in *;
      (split; [destruct Hr as [Hr | (h & w4 & Hh & Hr)]; [left; congruence|right; left; exists h; split; [by exists e, i2, w2, w4|exact Hr]]|done]).
Qed.
End Window.

(** C2: the frontier never passes unstored data, whatever the confirmation
    window for reorganisations. When windowSweep changes the persisted frontier of
    its network, it moves it back while it handles a head that regressed, or, after
    a batch of this sweep was refused as out of range, to the ledger before the
    oldest one the provider then reports, or to a ledger
    [L] such that every event of the log in [start, L] that matches one of the
    batches and is not of a skipped contract is in the events table or in
    dead_letters. And when it reports to be caught up, the head had regressed, or
    the window starts beyond the chain head, or the frontier is the ledger before the
    head and every matching event up to and including the head is stored. *)
Theorem windowSweep_frontier_safe {W : Type} `{!RpcClient W} `{!Store W} `{!Services W} `{!StoreView W}
    `{!StoreLaws W} `{!FrontierView W} `{!FrontierLaws W} `{Log : EventLog} `{!RpcLaws W}
    (page_fuel : nat) (start : Z) (batches : list (list EventFilter)) (i : Ingester) (w : W)
    (Ho : opts_ok (ing_opts i)) (Hpl : 0 < op_PageLimit (ing_opts i)) :
  let n := op_Network (ing_opts i) in
  let stored_to L w' := forall b e, b ∈ batches -> e ∈ rpc_log -> rpc_match b e = true ->
     start <= re_Ledger e <= L -> re_ContractID e ∉ op_SkipContracts (ing_opts i) ->
     ("", re_ID e) ∈ v_events w' \/ re_ID e ∈ v_dead w' in
  let regressed h w1 := op_ReorgConfirmationWindow (ing_opts i) <> 0 /\ (maybeHandleTipRegression page_fuel (h_LatestLedger h) i w1).1.1 <> Ok false in
  let '(r, _, w') := windowSweep page_fuel start batches i w in
  (v_frontier w' n = v_frontier w n \/
   (exists h w1 f f', rpc_GetHealth w = (Ok h, w1) /\ regressed h w1 /\ v_frontier w n = Some f /\ v_frontier w' n = Some f' /\ f' <= f) \/
   (exists h w1 i1 w2 h', rpc_GetHealth w = (Ok h, w1) /\ maybeHandleTipRegression page_fuel (h_LatestLedger h) i w1 = (Ok false, i1, w2) /\
      range_lost page_fuel start batches (h_LatestLedger h) i w2 h' /\ v_frontier w' n = Some (h_OldestLedger h' - 1)) \/
   (exists L, v_frontier w' n = Some L /\ stored_to L w')) /\
  (r = Ok true -> exists h w1, rpc_GetHealth w = (Ok h, w1) /\
     (regressed h w1 \/ h_LatestLedger h < start \/
      (v_frontier w' n = Some (h_LatestLedger h - 1) /\ stored_to (h_LatestLedger h) w'))).
Proof.
  cbv zeta. pose proof Ho as (Hd & _). rewrite windowSweep_cases by done. set (n := op_Network (ing_opts i)).
  pose proof (fr_health w n) as Hf1. destruct (rpc_GetHealth w) as [[h|e] w1] eqn:Eh; cbn [snd] in Hf1; [|by split; [left|]].
  pose proof (fr_health_range _ _ _ Eh) as Hlat. destruct (maybeHandleTipRegression page_fuel (h_LatestLedger h) i w1) as [[r1 i1] w2] eqn:Et.
  destruct (tip_regression_cases n _ _ _ _ _ _ _ eq_refl Et) as [(-> & -> & Hw2)|(Hwin & Hr1 & Hback)].
  - assert (Hf2 : v_frontier w2 n = v_frontier w n) by (destruct Hw2 as [->| ->]; [done|]; rewrite (fr_get n w1 n); done).
    pose proof (window_body_safe page_fuel start batches (h_LatestLedger h) i w2 Ho Hpl Hlat) as Hb. cbv zeta in Hb.
    destruct (window_body page_fuel start batches (h_LatestLedger h) i w2) as [[r i'] w']. destruct Hb as [Hb1 Hb2]. split.
    + destruct Hb1 as [Hb1|[(h' & Hl & Hb1)|Hb1]]; [left; unfold n in *; congruence| |right; right; right; exact Hb1].
      right; right; left. by exists h, w1, i, w2, h'.
    + intros Hr. exists h, w1. split; [done|]. destruct (Hb2 Hr) as [|Hb]; [right; by left|right; right; exact Hb].
  - assert (Hreg : op_ReorgConfirmationWindow (ing_opts i) <> 0 /\ (maybeHandleTipRegression page_fuel (h_LatestLedger h) i w1).1.1 <> Ok false) by (by rewrite Et).
    assert (Hmoved : v_frontier w2 n = v_frontier w n \/ exists f f', v_frontier w n = Some f /\ v_frontier w2 n = Some f' /\ f' <= f).
    { destruct Hback as [Hb|(f & f' & H1 & H2 & H3)]; [left; congruence|right; exists f, f'; split_and!; [congruence|done|done]]. }
    destruct r1 as [[]|e]; [|done|]; (split; [|intros Hr; first [discriminate Hr|exists h, w1; split; [done|left; exact Hreg]]]).
    all: destruct Hmoved as [Hm|(f & f' & H1 & H2 & H3)]; [by left|right; left; exists h, w1, f, f'; split_and!; try done; apply Hreg].
Qed.
