(* ===== verification/IngesterProgress.v ===== *)
(** * A healthy environment makes progress (internal/ingester/ingester.go)

    The safety theorems say what a cycle that succeeded left behind. Here the
    environment does not fail (the endpoint answers, the store and the sink
    accept writes, the context lives), and the window sweep is proved to succeed
    and to advance the frontier. *)

From S2P Require Import Prelude GoStrings GoSort StoreErrors StoreTypes RpcTypes Backpressure.
From S2P Require Import ReorgTracker SqliteStore StoreReorg IngesterCore Ingester IngesterCycle.
From S2P Require Import IngesterPersist IngesterSweep IngesterFrontier.
From Stdlib Require Import Ascii String.
Local Open Scope Z_scope.
Local Open Scope go_scope.
Local Notation length := List.length.
Local Abbreviation SEvent := StoreTypes.Event.
Local Abbreviation REvent := RpcTypes.Event.

(** Healthy worlds: every call succeeds and stays healthy. *)
Class Healthy (W : Type) `{!RpcClient W} `{!Store W} `{!Services W} : Type := {
  hl_ok : W -> Prop;
  hl_events : forall req w, hl_ok w -> exists resp w', rpc_GetEvents req w = (Ok resp, w') /\ hl_ok w';
  hl_health : forall w, hl_ok w -> exists h w', rpc_GetHealth w = (Ok h, w') /\ hl_ok w';
  hl_upsert : forall evs w, hl_ok w -> exists n w', st_UpsertEvents evs w = (Ok n, w') /\ hl_ok w';
  hl_refs : forall refs w, hl_ok w -> hl_ok (st_UpsertAddressRefs refs w).2;
  hl_getState : forall n w, hl_ok w -> hl_ok (st_GetIngestionState n w).2;
  hl_save : forall st w, hl_ok w -> exists w', st_SaveIngestionState st w = (Ok tt, w') /\ hl_ok w';
  hl_sink : exists f, sv_deadLetter = Some f /\
    forall input e w, hl_ok w -> exists w', f input e w = (Ok tt, w') /\ hl_ok w';
  hl_publish : forall evs w, hl_ok w -> hl_ok (sv_publish evs w);
  hl_sleep : forall d w, hl_ok w -> exists w', sv_sleep d w = (true, w') /\ hl_ok w';
  hl_ctx : forall w, hl_ok w -> sv_ctxErr w = false }.

Section Progress.
Context {W : Type} `{!RpcClient W} `{!Store W} `{!Services W} `{!Healthy W}.

(** The computation succeeds from every healthy world. *)
Definition succeeds {A} (m : M W A) : Prop := forall i w, hl_ok w ->
  exists a i' w', m i w = (Ok a, i', w') /\ hl_ok w' /\ ing_opts i' = ing_opts i.

(** It may fail, but keeps the world healthy. *)
Definition calm {A} (m : M W A) : Prop := forall i w, hl_ok w ->
  hl_ok (m i w).2 /\ ing_opts (m i w).1.2 = ing_opts i.

Lemma succeeds_ret {A} (a : A) : succeeds (mret a).
Proof. intros i w H. by exists a, i, w. Qed.
Lemma succeeds_get : succeeds mget.
Proof. intros i w H. by exists i, i, w. Qed.
Lemma succeeds_world : succeeds mworld.
Proof. intros i w H. by exists w, i, w. Qed.
Lemma succeeds_modify f : (forall i, ing_opts (f i) = ing_opts i) -> succeeds (mmodify f).
Proof. intros Hf i w H. by exists tt, (f i), w. Qed.
Lemma succeeds_effect f : (forall w, hl_ok w -> hl_ok (f w)) -> succeeds (meffect f).
Proof. intros Hf i w H. exists tt, i, (f w). cbn. auto. Qed.
Lemma succeeds_bind {A B} (m : M W A) (k : A -> M W B) : succeeds m -> (forall a, succeeds (k a)) -> succeeds (mbind_ m k).
Proof.
  intros Hm Hk i w H. destruct (Hm i w H) as (a & i1 & w1 & E & H1 & Ho).
  destruct (Hk a i1 w1 H1) as (b & i2 & w2 & E2 & H2 & Ho2).
  exists b, i2, w2. unfold mbind_. rewrite E. by rewrite <- Ho.
Qed.
Lemma succeeds_try {A} (m : M W A) : calm m -> succeeds (mtry m).
Proof.
  intros Hm i w H. destruct (Hm i w H) as [H1 H2]. unfold mtry. destruct (m i w) as [[r i1] w1].
  by exists r, i1, w1.
Qed.
Lemma succeeds_wrap {A} f (m : M W A) : succeeds m -> succeeds (mwrap f m).
Proof. intros Hm i w H. destruct (Hm i w H) as (a & i1 & w1 & E & ?). exists a, i1, w1. unfold mwrap. by rewrite E. Qed.
Lemma calm_succeeds {A} (m : M W A) : succeeds m -> calm m.
Proof. intros Hm i w H. destruct (Hm i w H) as (a & i1 & w1 & E & ?). by rewrite E. Qed.

Lemma succeeds_sink input e : succeeds (recordDeadLetter input e).
Proof.
  intros i w H. destruct hl_sink as (f & Hf & Hok). unfold recordDeadLetter. rewrite Hf.
  destruct (Hok input e w H) as (w' & E & H'). exists tt, i, w'. unfold mstore. by rewrite E.
Qed.
Lemma has_sink_true : has_sink (W := W) = true.
Proof. unfold has_sink. by destruct hl_sink as (f & -> & _). Qed.

(** A chunk goes through in one write. *)
Lemma succeeds_chunk chunk : succeeds (upsertChunkWithIsolation chunk).
Proof.
  intros i w H. destruct (hl_upsert chunk w H) as (n & w' & E & H'). exists n, i, w'.
  unfold upsertChunkWithIsolation, mbind_, mtry, mstore. by rewrite E.
Qed.
End Progress.

Create HintDb succeeds.
#[export] Hint Resolve succeeds_ret succeeds_get succeeds_world succeeds_wrap succeeds_sink succeeds_chunk : succeeds.
#[export] Hint Extern 1 (succeeds (mmodify _)) => apply succeeds_modify; reflexivity : succeeds.

Ltac succeeds_walk :=
  repeat first
    [ progress intros
    | match goal with |- succeeds (mbind_ _ _) => apply succeeds_bind end
    | solve [eauto with succeeds]
    | match goal with |- succeeds (if ?b then _ else _) => destruct b end
    | match goal with |- succeeds (match ?x with _ => _ end) => destruct x end ].

Section Healthy.
Context {W : Type} `{!RpcClient W} `{!Store W} `{!Services W} `{!Healthy W}.

(** A sleep is never cut short. *)
Lemma succeeds_sleep_bind {A} d (m : M W A) : succeeds m ->
  succeeds (let! slept := (fun i w => let '(b, w') := sv_sleep d w in (Ok b, i, w')) in
            if negb (slept : bool) then mfail ICtx else m).
Proof. intros Hm i w H. destruct (hl_sleep d w H) as (w' & E & H'). unfold mbind_. rewrite E. by apply Hm. Qed.

Lemma succeeds_write_chunks f : forall bc events inserted, succeeds (W := W) (write_chunks f bc events inserted).
Proof.
  induction f as [|f IH]; intros bc events inserted; [apply succeeds_ret|].
  destruct (decide (events = [])) as [-> | Hne]; [apply succeeds_ret|].
  rewrite write_chunks_S by done. cbv zeta.
  apply succeeds_bind; [apply succeeds_world|]. intros w0. apply succeeds_bind; [apply succeeds_chunk|]. intros got.
  apply succeeds_bind; [apply succeeds_world|]. intros w1. destruct (recordAndBackoff _ _ bc) as [backoff bc'].
  destruct (_ && _)%bool; [apply succeeds_sleep_bind|]; apply IH.
Qed.
Hint Resolve succeeds_write_chunks : succeeds.

Lemma calm_index events : calm (W := W) (indexEventAddresses events).
Proof.
  intros i w H. unfold indexEventAddresses, dryRun, mbind_. cbn.
  destruct (_ || _)%bool; [done|]. destruct (bool_decide _); [done|].
  unfold mstore. pose proof (hl_refs (address_refs events) w H) as Hr.
  by destruct (st_UpsertAddressRefs _ w) as [r w'].
Qed.

Lemma succeeds_persistEventBatch events : succeeds (W := W) (persistEventBatch events).
Proof.
  unfold persistEventBatch, dryRun, writeEventsPersist, addWritten. succeeds_walk.
  - apply succeeds_try, calm_index.
  - apply succeeds_effect, hl_publish.
Qed.
Lemma succeeds_mapM {A} (f : A -> M W unit) l : (forall x, succeeds (f x)) -> succeeds (mapM_ f l).
Proof. intros Hf. induction l as [|x l IH]; cbn [mapM_]; succeeds_walk; auto. Qed.
Lemma succeeds_convert l : succeeds (W := W) (convert l).
Proof.
  induction l as [|re l IH]; cbn [convert]; unfold addSkipped; rewrite ?has_sink_true; cbn [negb];
    succeeds_walk; auto.
Qed.

Lemma succeeds_persistEvents fuel evs latest : succeeds (W := W) (persistEvents fuel evs latest).
Proof.
  unfold persistEvents, persistEventsWithReorgCheck. destruct (bool_decide _); [apply succeeds_ret|].
  apply succeeds_bind; [apply succeeds_convert|]. intros events. apply succeeds_bind; [apply succeeds_get|]. intros i.
  apply succeeds_bind; [apply succeeds_mapM, succeeds_persistEventBatch|]. intros _.
  destruct (negb _); [|apply succeeds_ret]. intros i2 w2 H.
  destruct (fingerprints_no_divergence fuel (removeDuplicateEvents events) latest i2 w2) as (t & E).
  by exists tt, (set_tracker t i2), w2.
Qed.
End Healthy.

(** ** The window sweep *)

Section Window.
Context {W : Type} `{!RpcClient W} `{!Store W} `{!Services W} `{!StoreView W} `{!StoreLaws W} `{!Healthy W}.
Context `{!FrontierView W} `{!FrontierLaws W} `{Log : EventLog} `{!RpcLaws W} (page_fuel : nat).

(** Without a budget a batch finishes, with one request more than events left. *)
Lemma sweep_pages_succeeds start end_ filters fuel : forall c i w, hl_ok w ->
  0 < op_PageLimit (ing_opts i) -> (length (todo c) < fuel)%nat ->
  exists i' w', sweep_pages (W := W) page_fuel fuel start end_ filters c None i w = (Ok (None, false), i', w') /\
    hl_ok w' /\ ing_opts i' = ing_opts i.
Proof.
  induction fuel as [|f IH]; intros c i w H Hpl Hlen; [lia|]. cbn [sweep_pages]. unfold mbind_ at 1. cbn [mget].
  set (limit := op_PageLimit (ing_opts i)) in *. fold (request start end_ filters c limit).
  unfold mbind_ at 1, mtry, mrpc.
  destruct (hl_events (request start end_ filters c limit) w H) as (resp & w1 & Er & H1). rewrite Er.
  pose proof (getEvents_page _ _ _ _ Er Hpl) as Hpage. cbv zeta. unfold mbind_ at 1. cbn [addFetched mmodify].
  set (i1 := set_counters _ _ _ i). unfold mbind_ at 1.
  destruct (succeeds_persistEvents page_fuel (resp_Events resp) (resp_LatestLedger resp) i1 w1 H1)
    as ([] & i2 & w2 & Ep & H2 & Ho). rewrite Ep. change (ing_opts i1) with (ing_opts i) in Ho.
  assert (Hdone : exists i' w', (Ok (E := ierror) (None (A := Z), false), i2, w2) = (Ok (None, false), i', w') /\ hl_ok w' /\ ing_opts i' = ing_opts i)
    by (by exists i2, w2).
  destruct (list.last (resp_Events resp)) as [l|] eqn:El; [|exact Hdone].
  destruct (end_ <? re_Ledger l); [exact Hdone|].
  set (next := if bool_decide (resp_Cursor resp = "") then CursorValue l else resp_Cursor resp).
  assert (Hnext : next = CursorValue l).
  { subst next. case_bool_decide; [done|]. by apply (page_cursor _ _ Hpage). }
  destruct (_ && _)%bool; [exact Hdone|]. destruct (bool_decide (next = c)); [exact Hdone|].
  unfold mbind_. cbn [mworld]. rewrite (hl_ctx w2 H2), Hnext. cbn [fmap option_fmap option_map].
  pose proof (page_shortens start end_ filters c limit resp l Hpage El).
  destruct (IH (CursorValue l) i2 w2 H2 ltac:(by rewrite Ho) ltac:(lia)) as (i3 & w3 & E3 & H3 & Ho3).
  exists i3, w3. split; [exact E3|]. split; [done|congruence].
Qed.

Lemma sweep_batches_succeeds start end_ batches : forall i w, hl_ok w ->
  0 < op_PageLimit (ing_opts i) -> (length rpc_log < page_fuel)%nat ->
  exists i' w', sweep_batches (W := W) page_fuel start end_ batches None false i w = (Ok false, i', w') /\
    hl_ok w' /\ ing_opts i' = ing_opts i.
Proof.
  induction batches as [|b rest IH]; intros i w H Hpl Hf; cbn [sweep_batches]; [by exists i, w|].
  unfold mbind_, sweepBatch.
  destruct (sweep_pages_succeeds start end_ b page_fuel "" i w H Hpl) as (i1 & w1 & E & H1 & Ho).
  { unfold todo. by rewrite bool_decide_true. }
  rewrite E. cbn [fst snd orb]. destruct (IH i1 w1 H1 ltac:(by rewrite Ho) Hf) as (i2 & w2 & E2 & H2 & Ho2).
  exists i2, w2. split; [exact E2|]. split; [done|congruence].
Qed.

(** The head of the chain has not regressed, as far as the ingester can tell: no
    recorded ledger and no ingested one is beyond it. *)
Definition head_stands (latest : Z) (i : Ingester) (w : W) : Prop :=
  (CheckTipRegression latest (ing_tracker i)).1.1 = false /\ forall f, v_frontier w (op_Network (ing_opts i)) = Some f -> f <= latest.

Lemma tip_stands latest i w : hl_ok w -> op_ReorgConfirmationWindow (ing_opts i) = 0 \/ head_stands latest i w ->
  exists w', maybeHandleTipRegression (W := W) page_fuel latest i w = (Ok false, i, w') /\ hl_ok w'.
Proof.
  intros H Hs. unfold maybeHandleTipRegression. unfold mbind_ at 1. cbn [mget]. destruct (_ || _)%bool eqn:Eoff; [by exists w|].
  apply orb_false_iff in Eoff as [[_ Hw]%orb_false_iff _]. apply Z.eqb_neq in Hw. destruct Hs as [|[Hc Hf]]; [done|].
  destruct (CheckTipRegression latest (ing_tracker i)) as [[reg from] to]. cbn in Hc. subst reg.
  unfold mbind_ at 1, mtry, getIngestionState, mbind_ at 1. cbn [mget]. unfold mstore. set (n := op_Network (ing_opts i)) in *.
  pose proof (hl_getState n w H) as H1. pose proof (fr_get_ok n w) as Hok. destruct (st_GetIngestionState n w) as [[st|e] w1]; [|by exists w1].
  specialize (Hf _ (Hok st w1 eq_refl)). destruct (Z.ltb_spec latest (LastIngestedLedger st)); [lia|]. by exists w1.
Qed.
End Window.

(** C26: a healthy environment makes progress. When the endpoint answers, the
    store and the sink accept writes, the context lives and the head has not
    regressed (or reorganisations are not handled), a window sweep
    without an event budget always succeeds, whatever the page sizes and however
    many events fail to decode: it saves the end of its window as the frontier
    (one ledger less at the chain head, which is reported as caught up), so that
    a sweep below the head moves past its start. *)
Theorem windowSweep_progress {W : Type} `{!RpcClient W} `{!Store W} `{!Services W} `{!StoreView W} `{!StoreLaws W}
    `{!Healthy W} `{!FrontierView W} `{!FrontierLaws W} `{Log : EventLog} `{!RpcLaws W}
    (page_fuel : nat) (start : Z) (batches : list (list EventFilter)) (i : Ingester) (w w1 : W) (h : Health)
    (Hw : hl_ok w) (Hh : rpc_GetHealth w = (Ok h, w1))
    (Hd : op_DryRun (ing_opts i) = false) (Hnr : op_ReorgConfirmationWindow (ing_opts i) = 0 \/ head_stands (h_LatestLedger h) i w1)
    (Hnb : op_MaxEventsPerCycle (ing_opts i) = 0) (Hpl : 0 < op_PageLimit (ing_opts i))
    (Hfuel : (length rpc_log < page_fuel)%nat) (Hstart : 0 <= start <= h_LatestLedger h)
    (Hwin : 0 < effectiveSweepWindow (ing_opts i) (ing_lag i))
    (Hsum : start + effectiveSweepWindow (ing_opts i) (ing_lag i) <= maxUint32) :
  let end_ := Z.min (start + effectiveSweepWindow (ing_opts i) (ing_lag i) - 1) (h_LatestLedger h) in
  let caughtUp := h_LatestLedger h <=? end_ in
  let L := if caughtUp then end_ - 1 else end_ in
  exists i' w', windowSweep page_fuel start batches i w = (Ok caughtUp, i', w') /\
    v_frontier w' (op_Network (ing_opts i)) = Some L /\ hl_ok w' /\
    start - 1 <= L /\ (caughtUp = false -> start <= L).
Proof.
  cbv zeta. rewrite windowSweep_cases by done. rewrite Hh.
  assert (H0 : hl_ok w1) by (destruct (hl_health w Hw) as (h' & w' & E & ?); congruence).
  destruct (tip_stands page_fuel (h_LatestLedger h) i w1 H0 Hnr) as (w1' & Et & H1). rewrite Et. unfold window_body. cbv zeta.
  assert (Hend : sweep_end i start (h_LatestLedger h) =
    Z.min (start + effectiveSweepWindow (ing_opts i) (ing_lag i) - 1) (h_LatestLedger h)).
  { unfold sweep_end. rewrite !u32_id by (unfold in_u32; rewrite ?u32_id by (unfold in_u32; lia); lia). done. }
  rewrite Hend. set (end_ := Z.min _ _). destruct (Z.ltb_spec (h_LatestLedger h) start); [lia|].
  assert (Hb : newCycleBudget (ing_opts i) = None) by (unfold newCycleBudget; by rewrite Hnb).
  rewrite Hb. destruct (sweep_batches_succeeds page_fuel start end_ batches i w1' H1 Hpl Hfuel) as (i2 & w2 & E2 & H2 & Ho2).
  rewrite E2. set (st := mkIngestionState _ _ _ _). destruct (hl_save st w2 H2) as (w3 & E3 & H3). rewrite E3.
  exists i2, w3. split; [done|]. split; [exact (fr_save_ok _ _ _ E3)|]. split; [done|].
  destruct (Z.leb_spec (h_LatestLedger h) end_); subst end_; lia.
Qed.
