(* ===== verification/SimRpc.v ===== *)
(** * A paging endpoint over a concrete log

    An endpoint that serves a fixed event log in pages shorter than the limit,
    with a cursor on every non-empty page. It keeps the laws the sweep theorems
    ask of an endpoint, next to the SQLite world, and the theorems are run on it. *)

From stdpp Require Import sorting.
From S2P Require Import Prelude GoStrings GoSort StoreErrors StoreTypes RpcTypes Backpressure ReorgTracker.
From S2P Require Import SqliteStore StoreReorg IngesterCore Ingester IngesterCycle IngesterPersist.
From S2P Require Import SqliteWorld IngesterSweep IngesterFrontier IngesterRun IngesterDry IngesterProgress.
From Stdlib Require Import Ascii String.
Local Open Scope Z_scope.
Local Open Scope go_scope.
Local Notation length := List.length.
Local Abbreviation SEvent := StoreTypes.Event.
Local Abbreviation REvent := RpcTypes.Event.

Definition sim_events : list REvent :=
  [demo_rpc_event "e1" "C" "1" 4; demo_rpc_event "e2" "D" "2" 5; demo_rpc_event "e3" "C" "poison" 5;
   demo_rpc_event "e4" "SKIP" "3" 6; demo_rpc_event "e5" "C" "4" 6; demo_rpc_event "e6" "C" "5" 9].

(** A filter without contracts matches every event. *)
Definition sim_match (filters : list EventFilter) (e : REvent) : bool :=
  existsb (fun f => match ef_ContractIDs f with [] => true | ids => bool_decide (re_ContractID e ∈ ids) end) filters.

#[export] Instance sim_log : EventLog.
Proof.
  refine {| rpc_log := sim_events; rpc_match := sim_match |}.
  - repeat constructor; cbn; lia.
  - apply (bool_decide_unpack _). vm_compute. exact I.
  - apply list.Forall_forall. repeat constructor; cbn; discriminate.
Defined.

(** Pages of at most two events. *)
Definition sim_page (req : GetEventsRequest) : GetEventsResponse :=
  let evs := take (Z.to_nat (Z.min (req_Limit req) 2)) (outstanding req) in
  mkResponse evs 10 2 (match list.last evs with Some l => CursorValue l | None => "" end).

#[export] Instance sim_rpc : RpcClient World := {|
  rpc_GetEvents req w := (Ok (sim_page req), w);
  rpc_GetHealth w := (Ok (mkHealth 10 2), w);
  rpc_GetLatestLedger w := (Ok (mkLatest 10), w) |}.

Lemma outstanding_in_log req e : e ∈ outstanding req -> e ∈ rpc_log.
Proof.
  intros H. apply list_elem_of_filter in H as [_ H]. destruct (todo_suffix (req_Cursor req)) as [p ->].
  apply elem_of_app. by right.
Qed.

#[export] Instance sim_rpc_laws : RpcLaws World.
Proof.
  split; [by intros req w r w' [= <- <-]|]. intros req w resp w' [= <- <-] Hlim.
  assert (Hempty : resp_Events (sim_page req) = [] -> outstanding req = []).
  { cbn. intros H. destruct (outstanding req) as [|x l]; [done|].
    destruct (Z.to_nat (Z.min (req_Limit req) 2)) eqn:E; [lia|done]. }
  split; [cbn; apply prefix_take|exact Hempty| |].
  - cbn. intros Hc _. destruct (list.last _) as [l|] eqn:El.
    + apply last_Some in El as [p Hp]. exfalso. apply (log_cursor_nonempty l); [|done].
      apply (outstanding_in_log req). rewrite <- (take_drop (Z.to_nat (Z.min (req_Limit req) 2)) (outstanding req)), Hp.
      apply elem_of_app. left. apply elem_of_app. right. by left.
    + apply last_None in El. rewrite El. symmetry. by apply Hempty.
  - cbn. intros l -> _. done.
Qed.

#[export] Instance sqlite_frontier : FrontierView World := {|
  v_frontier w n := LastIngestedLedger <$> t_state (w_db w) !! defaultNetwork n |}.

Lemma frontier_db (w w' : World) : t_state (w_db w') = t_state (w_db w) -> same_frontier w w'.
Proof. intros H n. cbn. by rewrite H. Qed.

(** A transaction that keeps the state table keeps the frontier. *)
Lemma transact_frontier {A} (f : DB -> result error A * DB) w :
  (forall d, t_state (f d).2 = t_state d) -> same_frontier w (transact f w).2.
Proof.
  intros Hf. destruct (transact f w) as [r w'] eqn:E. apply frontier_db.
  cbn [snd]. apply transact_cases in E as [(e & _ & H) | (d & Hd & H)]; rewrite H; [done|].
  rewrite <- (Hf (w_db w)). by rewrite Hd.
Qed.

Lemma transact_grows {A} (f : DB -> result error A * DB) w :
  (forall d, t_events (f d).2 = t_events d /\ t_dead (f d).2 = t_dead d) -> grows w (transact f w).2.
Proof.
  intros Hf. destruct (transact f w) as [r w'] eqn:E. cbn [snd].
  apply transact_cases in E as [(e & _ & H) | (d & Hd & H)]; [by apply grows_db|].
  specialize (Hf (w_db w)). rewrite Hd in Hf. destruct Hf as [H1 H2]. split; cbn; rewrite H; cbn in *; congruence.
Qed.

#[export] Instance sqlite_frontier_laws : FrontierLaws World.
Proof.
  split.
  - intros evs w. apply transact_frontier. intros d. unfold UpsertEvents, upsertEvents.
    destruct (bool_decide _); [done|]. by destruct (exec_events _ _ _).
  - intros refs w. cbn. pose proof (next_fault_db w) as Hdb.
    destruct (next_fault w) as [[[k e]|] w1]; cbn in Hdb |- *; apply frontier_db; cbn; by rewrite Hdb.
  - intros f input e w [= <-]. by apply transact_frontier.
  - intros evs w. by apply frontier_db.
  - intros d w. by apply frontier_db.
  - intros req w. done.
  - intros w. done.
  - intros w. cbn. done.
  - intros w h w' [= <- <-]. cbn. unfold maxUint32. lia.
  - intros n w. by apply transact_frontier.
  - intros n w st w' H. apply transact_cases in H as [(e & [=] & _) | (d & H & _)]. cbn.
    injection H as H _. unfold GetIngestionStateForNetwork in H. by destruct (t_state _ !! _); simplify_eq.
  - intros n w. by apply transact_grows.
  - intros st w w' H. apply transact_cases in H as [(e & [=] & _) | (d & [= <-] & H)]. cbn. rewrite H. cbn.
    by rewrite lookup_insert_eq.
  - intros st w e w' H. apply transact_cases in H as [(e' & _ & H) | (d & [=] & _)]. by apply frontier_db; rewrite H.
  - intros st w. by apply transact_grows.
  - intros w. by apply transact_frontier.
  - intros o w n. cbn. destruct (transact (ReconcileReorgRange o) w) as [r w'] eqn:E. cbn [snd].
    apply transact_cases in E as [(e & _ & H) | (d & Hd & H)]; rewrite H; [by left|].
    destruct (reconcile_state_back o (w_db w) (defaultNetwork n)) as [Hs|(st & st' & H1 & H2 & H3)]; rewrite Hd in *; cbn [snd] in *; [left; by rewrite Hs|].
    right. rewrite H1, H2. eauto.
  - intros from to newHead ids evs w. by apply frontier_db.
Qed.

(** ** The theorems on the endpoint *)

Definition sim_world : World := mkWorld db_empty [] [] 0.
Definition sim_filters : list EventFilter := [mkFilter "contract" ["C"; "D"]; mkFilter "contract" ["SKIP"]].
Definition sim_ingester : Ingester := NewIngester demo_options None.

Lemma sim_opts_ok : opts_ok (ing_opts sim_ingester).
Proof. vm_compute. intuition congruence. Qed.

Definition sim_sweep : result ierror (option Z * bool) * Ingester * World :=
  sweepBatch 7 4 6 sim_filters None sim_ingester sim_world.

Definition e5 : REvent := demo_rpc_event "e5" "C" "4" 6.

Lemma e5_in_log : e5 ∈ rpc_log.
Proof. apply (bool_decide_unpack _). vm_compute. exact I. Qed.
Lemma e5_not_skipped : re_ContractID e5 ∉ op_SkipContracts (ing_opts sim_ingester).
Proof. apply (bool_decide_unpack _). vm_compute. exact I. Qed.

(** The log takes three pages; e5 is on the third. *)
Lemma sweepBatch_complete_witness :
  sim_sweep.1.1 = Ok (None, false) /\
  (("", "e5") ∈ v_events sim_sweep.2 \/ "e5" ∈ v_dead sim_sweep.2).
Proof.
  assert (Hok : sim_sweep.1.1 = Ok (None, false)) by (vm_compute; reflexivity).
  split; [exact Hok|].
  assert (Hrun : sweepBatch 7 4 6 sim_filters None sim_ingester sim_world = (Ok (None, false), sim_sweep.1.2, sim_sweep.2)).
  { change (sweepBatch 7 4 6 sim_filters None sim_ingester sim_world) with sim_sweep.
    destruct sim_sweep as [[r i'] w']. cbn in *. by rewrite Hok. }
  clear Hok. revert Hrun. generalize sim_sweep as res. intros res Hrun.
  refine (sweepBatch_complete 7 4 6 sim_filters None None sim_ingester res.1.2 sim_world res.2
    sim_opts_ok _ _ Hrun e5 e5_in_log _ _ e5_not_skipped).
  - vm_compute. reflexivity.
  - vm_compute. by split.
  - vm_compute. reflexivity.
  - vm_compute. by split.
Defined.

Lemma sweepBatch_terminates_witness :
  (sweepBatch 7 4 6 sim_filters (Some 3) sim_ingester sim_world).1.1 <> Err IFuel.
Proof.
  apply (sweepBatch_terminates 7 4 6 sim_filters (Some 3) sim_ingester sim_world).
  - vm_compute. reflexivity.
  - vm_compute. by split.
  - vm_compute. lia.
Defined.

Definition quiet_options : Options :=
  Options_applyDefaults (mkOptions 0 0 0 0 "" 0 2 0 0 0 0 0 0 0 0 0 4 0 64 0 ["SKIP"] "" false 0 100 0 true 0 0).
Definition quiet_ingester : Ingester := NewIngester quiet_options None.

Definition sim_batches : list (list EventFilter) := [sim_filters; [mkFilter "contract" ["D"]]].

Definition sim_window : result ierror bool * Ingester * World :=
  windowSweep 7 7 sim_batches quiet_ingester sim_world.

(** With a confirmation window of 64 ledgers, the window from ledger 7 reaches the
    head at ledger 10. *)
Lemma windowSweep_frontier_safe_witness :
  sim_window.1.1 = Ok true /\ op_ReorgConfirmationWindow (ing_opts quiet_ingester) = 64 /\
  v_frontier sim_window.2 "" = Some 9 /\
  forall b e, b ∈ sim_batches -> e ∈ rpc_log -> rpc_match b e = true -> 7 <= re_Ledger e <= 10 ->
    re_ContractID e ∉ op_SkipContracts (ing_opts quiet_ingester) ->
    ("", re_ID e) ∈ v_events sim_window.2 \/ re_ID e ∈ v_dead sim_window.2.
Proof.
  assert (Hok : sim_window.1.1 = Ok true) by (vm_compute; reflexivity). split; [exact Hok|]. split; [vm_compute; reflexivity|].
  assert (Ho : opts_ok (ing_opts quiet_ingester)) by (vm_compute; intuition congruence).
  assert (Hpl : 0 < op_PageLimit (ing_opts quiet_ingester)) by (vm_compute; reflexivity).
  assert (Hreg : (maybeHandleTipRegression 7 10 quiet_ingester sim_world).1.1 = Ok false) by (vm_compute; reflexivity).
  pose proof (windowSweep_frontier_safe 7 7 sim_batches quiet_ingester sim_world Ho Hpl) as H.
  cbv zeta in H. fold sim_window in H. destruct sim_window as [[r i'] w'].
  destruct (proj2 H Hok) as (h & w1 & Hh & [[_ Hr]|[Hlt|Hcaught]]); injection Hh as <- <-; [contradiction|vm_compute in Hlt; discriminate|exact Hcaught].
Defined.

(** ** Runs of the loop *)

Definition run_options : Options :=
  mkOptions 0 0 0 0 "" 0 2 0 0 0 0 0 0 0 0 0 4 0 0 0 ["SKIP"] "" false 0 2 1 true 0 0.

(** Four pages to catch up: the alarm is raised once and recovers once. *)
Lemma lag_alarm_alternates_witness :
  let i := (Run 7 4 (NewIngester run_options None) sim_world).1.2 in
  ing_lagLog i = [false; true] /\
  (alternates (ing_lagLog i) /\ ing_lagging i = hd false (ing_lagLog i) /\
   (IsLagging (ing_lag i) = true -> ing_lagging i = true)).
Proof.
  cbv zeta. split; [vm_compute; reflexivity|].
  apply (lag_alarm_alternates 7 4 run_options sim_world); vm_compute; congruence.
Defined.

Definition failing_world : World :=
  mkWorld db_empty [Some (0%nat, Sentinel NetError); None; Some (0%nat, Sentinel NetError); None] [] 0.

Definition backoff_of (r : result ierror (option RunState) * Ingester * World) : Z :=
  match r with (Ok (Some rs), _, _) => rs_backoff rs | _ => 0 end.

(** Two failed cycles double the backoff twice. *)
Lemma run_backoff_bounded_witness :
  let d := Options_applyDefaults run_options in
  let r := Run 7 2 (NewIngester run_options None) failing_world in
  backoff_of r = 4 * Second /\ op_MinBackoff d <= backoff_of r <= op_MaxBackoff d.
Proof.
  cbv zeta. pose proof (run_backoff_bounded 7 2 run_options None failing_world ltac:(vm_compute; reflexivity)) as H.
  cbv zeta in H.
  assert (Hr : backoff_of (Run 7 2 (NewIngester run_options None) failing_world) = 4 * Second) by (vm_compute; reflexivity).
  split; [exact Hr|]. revert H Hr. generalize (Run 7 2 (NewIngester run_options None) failing_world).
  intros [[[[rs|]|e] i] w] H Hr; [exact (proj1 H)|vm_compute in Hr; congruence|destruct H].
Defined.

(** ** Dry runs *)

#[export] Instance sqlite_rows : ReadView World := {| same_rows w w' := w_db w' = w_db w |}.

Lemma transact_rows {A} (f : DB -> result error A * DB) w : (forall d, (f d).2 = d) -> same_rows w (transact f w).2.
Proof.
  intros Hf. destruct (transact f w) as [r w'] eqn:E. cbn.
  apply transact_cases in E as [(e & _ & H) | (d & Hd & H)]; [done|].
  specialize (Hf (w_db w)). rewrite Hd in Hf. cbn in Hf. congruence.
Qed.

#[export] Instance sqlite_read_laws : ReadLaws World.
Proof.
  split.
  - split; [done|]. intros a b c H1 H2. cbn in *. congruence.
  - done.
  - done.
  - intros n w. by apply transact_rows.
  - intros w. by apply transact_rows.
Qed.

Definition dry_options : Options :=
  mkOptions 0 0 0 0 "" 0 2 0 0 0 0 0 0 0 0 0 4 0 64 0 ["SKIP"] "" true 0 2 1 true 0 0.
Definition dry_ingester : Ingester := NewIngester dry_options None.

(** A preview of the whole log. *)
Lemma dry_run_writes_nothing_witness :
  (RunDryRun 7 7 dry_ingester sim_world).1.1 = Ok tt /\
  w_db (RunDryRun 7 7 dry_ingester sim_world).2 = db_empty.
Proof.
  split; [vm_compute; reflexivity|].
  change (same_rows sim_world (RunDryRun 7 7 dry_ingester sim_world).2).
  apply (dry_run_writes_nothing 7 7 dry_ingester sim_world).
  intros w1 l w2 Hrows H. cbn in Hrows.
  apply transact_cases in H as [(e & H & _) | (d & H & _)]; [congruence|]. rewrite Hrows in H.
  vm_compute in H. congruence.
Defined.

(** With a watched contract a dry run of the window sweep does write: the
    contract's cursor is saved. *)
Lemma dry_run_saves_cursors :
  let w := mkWorld (AddWatchedContract (mkWatched "C" "") db_empty) [] [] 0 in
  let w' := (windowSweepWatched 7 [sim_filters; [mkFilter "contract" ["D"]]] dry_ingester w).2 in
  t_cursors (w_db w') !! "C" = Some (mkContractCursor "C" 5 "").
Proof. vm_compute. reflexivity. Qed.

(** ** Progress *)

(** Without scripted failures every transaction goes through. *)
Lemma transact_calm {A} (f : DB -> A * DB) w : w_faults w = [] ->
  exists a w', transact (fun d => let '(a, d') := f d in (Ok a, d')) w = (Ok a, w') /\ w_faults w' = [].
Proof.
  intros H. unfold transact, next_fault. rewrite H. destruct (f (w_db w)) as [a d]. by eexists _, _.
Qed.

#[export] Instance sim_healthy : Healthy World.
Proof.
  refine {| hl_ok w := w_faults w = [] |}.
  - intros req w H. by exists (sim_page req), w.
  - intros w H. by eexists _, _.
  - intros evs w H. by apply (transact_calm (UpsertEvents evs)).
  - intros refs w H. cbn. unfold next_fault. by rewrite H.
  - intros n w H. cbn. unfold transact, next_fault. by rewrite H.
  - intros st w H. destruct (transact_calm (fun d => (tt, SaveIngestionState st d)) w H) as ([] & w' & E & ?).
    exists w'. by split.
  - eexists. split; [reflexivity|]. intros input e w H.
    destruct (transact_calm (fun d => (tt, (DeadLetterEvent input "error" d).2)) w H) as ([] & w' & E & ?). by exists w'.
  - done.
  - intros d w H. by eexists.
  - done.
Defined.

(** Two windows of four ledgers: from 2 to 5, below the head. *)
Lemma windowSweep_progress_witness :
  exists i' w', windowSweep 7 2 sim_batches quiet_ingester sim_world = (Ok false, i', w') /\
    v_frontier w' "" = Some 5 /\ w_faults w' = [] /\ 2 - 1 <= 5 /\ (false = false -> 2 <= 5).
Proof.
  assert (Hwin : effectiveSweepWindow (ing_opts quiet_ingester) (ing_lag quiet_ingester) = 4) by (vm_compute; reflexivity).
  pose proof (windowSweep_progress 7 2 sim_batches quiet_ingester sim_world sim_world (mkHealth 10 2)) as H.
  rewrite Hwin in H. apply H; try (vm_compute; (reflexivity || lia || (by split) || congruence)).
  right. split; [vm_compute; reflexivity|]. intros f Hf. vm_compute in Hf. discriminate.
Defined.
