(* ===== verification/Failover.v ===== *)
(** * Endpoint failover (internal/rpc/failover.go)

    [FailoverClient] routes each call to the highest-priority healthy provider.
    The atomics and maps of the Go struct are the fields of one record; a call
    is a computation in a state monad over that record and the world in which
    the providers, the rate limiters, the clock, the random source and the
    runtime's map iteration live ([Providers]). Calls run one after the other.
    Log lines are left out; the demotion counters are kept as a list. *)

From S2P Require Import Prelude GoStrings Codec GoJson RpcTypes Retry ReorgTracker.
From Stdlib Require Import Ascii String.
Local Open Scope Z_scope.
Local Open Scope go_scope.
Local Notation length := List.length.

(** ** Sentinels and messages *)

Definition ErrAllProvidersDown : rerror := RErr KAllProvidersDown "rpc: all providers down, backing off" [].
Definition ErrFailoverReanchor : rerror :=
  RErr KFailoverReanchor "rpc: failover occurred, discard cursor and re-anchor from ledger position" [].
Definition ErrProviderBehindCursor : rerror :=
  RErr KProviderBehindCursor "rpc: provider latest ledger is behind cursor" [].
Definition ErrProviderRetentionGap : rerror :=
  RErr KProviderRetentionGap "rpc: provider retention window does not cover requested ledger" [].
Definition ErrNetworkPassphraseMismatch : rerror :=
  RErr KNetworkPassphraseMismatch "rpc: provider network passphrase mismatch" [].
Definition ErrProviderDivergence : rerror :=
  RErr KProviderDivergence "rpc: provider returned divergent event data" [].

(** fmt.Errorf with the wrapped error first: "%w" followed by the text. *)
Definition wrap_with (e : rerror) (text : string) : rerror := RErr KPlain (rmsg e +++ text) [e].

(** The %q verb (strconv.Quote); bytes above 127 are taken as printable. *)
Definition quote_byte (c : ascii) : string :=
  let esc (l : string) : string := String (byte_of 92) l in
  match byte_val c with
  | 7 => esc "a" | 8 => esc "b" | 9 => esc "t" | 10 => esc "n" | 11 => esc "v" | 12 => esc "f" | 13 => esc "r"
  | 34 => esc (String (byte_of 34) EmptyString)
  | 92 => esc (String (byte_of 92) EmptyString)
  | v => if ((v <? 32) || (v =? 127))%bool then esc ("x" +++ hex_encode [v]) else String c EmptyString
  end.
Fixpoint quote_bytes (s : string) : string :=
  match s with EmptyString => "" | String c s' => quote_byte c +++ quote_bytes s' end.
Definition Quote (s : string) : string :=
  let q := String (byte_of 34) EmptyString in q +++ quote_bytes s +++ q.

Inductive DemoteReason : Type :=
  | DemoteReasonConsecutiveErrors
  | DemoteReasonBehindCursor
  | DemoteReasonRetentionGap
  | DemoteReasonNetworkMismatch
  | DemoteReasonDivergence.

(** *RetentionGapError, with the two values its Unwrap returns. *)
Definition RetentionGapError (url : string) (requested oldest : Z) : rerror :=
  RErr KPlain
    ("rpc: provider " +++ url +++ " retention window starts at ledger " +++ FormatInt oldest +++
     ", outside of retention window for requested ledger " +++ FormatInt requested)
    [ErrProviderRetentionGap;
     let message := "startLedger " +++ FormatInt requested +++
       " is outside of retention window (must be within [" +++ FormatInt oldest +++ ", ...])" in
     RErr (KRpc (-32602) message "") ("rpc error -32602: " +++ message) []].

Record ProviderDivergence : Type := mkDivergence {
  dv_ProviderURL : string;
  dv_Ledger : Z;
  dv_EventID : string;
  dv_Description : string }.

(** ** State *)

Inductive ProviderState : Type := StateActive | StateDegraded | StateDown.

#[export] Instance ProviderState_eq_dec : EqDecision ProviderState.
Proof. solve_decision. Defined.

(** The client, the label and the limiter of a provider belong to the world. *)
Record provider : Type := mkProvider {
  p_url : string;
  p_state : ProviderState;
  p_errCount : Z;
  p_okCount : Z;
  p_latestLedger : Z;
  p_oldestLedger : Z;
  p_networkVerified : bool;
  p_networkInvalid : bool;
  p_xdrJSONUnsupported : bool }.

#[export] Instance provider_inhabited : Inhabited provider :=
  populate (mkProvider "" StateActive 0 0 0 0 false false false).

Record observedEvent : Type := mkObserved {
  ob_providerIdx : nat;
  ob_id : string;
  ob_ledger : Z;
  ob_contractID : string;
  ob_eventType : string;
  ob_txHash : string;
  ob_topicDigest : string;
  ob_value : string;
  ob_topicJSON : string;
  ob_valueJSON : string }.

Record observedLedgerPrefix : Type := mkPrefix {
  op_providerIdx : nat;
  op_eventIDs : list string }.

Record FailoverConfig : Type := mkFailoverConfig {
  maxConsecutiveErrors : Z;
  probationSuccesses : Z;
  headSkewTolerance : Z;
  expectedPassphrase : string }.

Definition defaultFailoverConfig : FailoverConfig := mkFailoverConfig 3 2 3 "".

(** [fc_lastActive] is [None] for -1; [fc_demotions] lists what the demotion
    counters count, the latest first. *)
Record FailoverClient : Type := mkFailover {
  fc_config : FailoverConfig;
  fc_providers : list provider;
  fc_lastActive : option nat;
  fc_cursorLedger : Z;
  fc_maxObservedHead : Z;
  fc_reanchorLedger : Z;
  fc_allDownCount : Z;
  fc_allDownUntil : Z;
  fc_observedByID : gmap string observedEvent;
  fc_observedByLgr : gmap Z observedLedgerPrefix;
  fc_divergences : list ProviderDivergence;
  fc_demotions : list (nat * DemoteReason) }.

(** *** Stores to single fields *)

Definition set_state (s : ProviderState) (p : provider) : provider :=
  mkProvider (p_url p) s (p_errCount p) (p_okCount p) (p_latestLedger p) (p_oldestLedger p)
    (p_networkVerified p) (p_networkInvalid p) (p_xdrJSONUnsupported p).
Definition set_errCount (n : Z) (p : provider) : provider :=
  mkProvider (p_url p) (p_state p) n (p_okCount p) (p_latestLedger p) (p_oldestLedger p)
    (p_networkVerified p) (p_networkInvalid p) (p_xdrJSONUnsupported p).
Definition set_okCount (n : Z) (p : provider) : provider :=
  mkProvider (p_url p) (p_state p) (p_errCount p) n (p_latestLedger p) (p_oldestLedger p)
    (p_networkVerified p) (p_networkInvalid p) (p_xdrJSONUnsupported p).
Definition set_latest (l : Z) (p : provider) : provider :=
  mkProvider (p_url p) (p_state p) (p_errCount p) (p_okCount p) l (p_oldestLedger p)
    (p_networkVerified p) (p_networkInvalid p) (p_xdrJSONUnsupported p).
Definition set_oldest (l : Z) (p : provider) : provider :=
  mkProvider (p_url p) (p_state p) (p_errCount p) (p_okCount p) (p_latestLedger p) l
    (p_networkVerified p) (p_networkInvalid p) (p_xdrJSONUnsupported p).
Definition set_verified (p : provider) : provider :=
  mkProvider (p_url p) (p_state p) (p_errCount p) (p_okCount p) (p_latestLedger p) (p_oldestLedger p)
    true (p_networkInvalid p) (p_xdrJSONUnsupported p).
Definition set_invalid (p : provider) : provider :=
  mkProvider (p_url p) (p_state p) (p_errCount p) (p_okCount p) (p_latestLedger p) (p_oldestLedger p)
    (p_networkVerified p) true (p_xdrJSONUnsupported p).
Definition set_unsupported (p : provider) : provider :=
  mkProvider (p_url p) (p_state p) (p_errCount p) (p_okCount p) (p_latestLedger p) (p_oldestLedger p)
    (p_networkVerified p) (p_networkInvalid p) true.

Definition with_providers (ps : list provider) (fc : FailoverClient) : FailoverClient :=
  mkFailover (fc_config fc) ps (fc_lastActive fc) (fc_cursorLedger fc) (fc_maxObservedHead fc)
    (fc_reanchorLedger fc) (fc_allDownCount fc) (fc_allDownUntil fc) (fc_observedByID fc)
    (fc_observedByLgr fc) (fc_divergences fc) (fc_demotions fc).
Definition with_lastActive (i : nat) (fc : FailoverClient) : FailoverClient :=
  mkFailover (fc_config fc) (fc_providers fc) (Some i) (fc_cursorLedger fc) (fc_maxObservedHead fc)
    (fc_reanchorLedger fc) (fc_allDownCount fc) (fc_allDownUntil fc) (fc_observedByID fc)
    (fc_observedByLgr fc) (fc_divergences fc) (fc_demotions fc).
Definition with_cursorLedger (l : Z) (fc : FailoverClient) : FailoverClient :=
  mkFailover (fc_config fc) (fc_providers fc) (fc_lastActive fc) l (fc_maxObservedHead fc)
    (fc_reanchorLedger fc) (fc_allDownCount fc) (fc_allDownUntil fc) (fc_observedByID fc)
    (fc_observedByLgr fc) (fc_divergences fc) (fc_demotions fc).
Definition with_maxHead (l : Z) (fc : FailoverClient) : FailoverClient :=
  mkFailover (fc_config fc) (fc_providers fc) (fc_lastActive fc) (fc_cursorLedger fc) l
    (fc_reanchorLedger fc) (fc_allDownCount fc) (fc_allDownUntil fc) (fc_observedByID fc)
    (fc_observedByLgr fc) (fc_divergences fc) (fc_demotions fc).
Definition with_reanchor (l : Z) (fc : FailoverClient) : FailoverClient :=
  mkFailover (fc_config fc) (fc_providers fc) (fc_lastActive fc) (fc_cursorLedger fc) (fc_maxObservedHead fc)
    l (fc_allDownCount fc) (fc_allDownUntil fc) (fc_observedByID fc)
    (fc_observedByLgr fc) (fc_divergences fc) (fc_demotions fc).
Definition with_allDown (count until : Z) (fc : FailoverClient) : FailoverClient :=
  mkFailover (fc_config fc) (fc_providers fc) (fc_lastActive fc) (fc_cursorLedger fc) (fc_maxObservedHead fc)
    (fc_reanchorLedger fc) count until (fc_observedByID fc)
    (fc_observedByLgr fc) (fc_divergences fc) (fc_demotions fc).
Definition with_observed (byID : gmap string observedEvent) (byLgr : gmap Z observedLedgerPrefix)
    (fc : FailoverClient) : FailoverClient :=
  mkFailover (fc_config fc) (fc_providers fc) (fc_lastActive fc) (fc_cursorLedger fc) (fc_maxObservedHead fc)
    (fc_reanchorLedger fc) (fc_allDownCount fc) (fc_allDownUntil fc) byID byLgr
    (fc_divergences fc) (fc_demotions fc).
Definition add_divergence (d : ProviderDivergence) (fc : FailoverClient) : FailoverClient :=
  mkFailover (fc_config fc) (fc_providers fc) (fc_lastActive fc) (fc_cursorLedger fc) (fc_maxObservedHead fc)
    (fc_reanchorLedger fc) (fc_allDownCount fc) (fc_allDownUntil fc) (fc_observedByID fc)
    (fc_observedByLgr fc) (fc_divergences fc ++ [d]) (fc_demotions fc).
Definition count_demotion (i : nat) (r : DemoteReason) (fc : FailoverClient) : FailoverClient :=
  mkFailover (fc_config fc) (fc_providers fc) (fc_lastActive fc) (fc_cursorLedger fc) (fc_maxObservedHead fc)
    (fc_reanchorLedger fc) (fc_allDownCount fc) (fc_allDownUntil fc) (fc_observedByID fc)
    (fc_observedByLgr fc) (fc_divergences fc) ((i, r) :: fc_demotions fc).

Definition prov (fc : FailoverClient) (i : nat) : provider := fc_providers fc !!! i.
Definition on_provider (i : nat) (f : provider -> provider) (fc : FailoverClient) : FailoverClient :=
  with_providers (alter f i (fc_providers fc)) fc.

(** ** State transitions of a provider *)

Definition setProviderState (i : nat) (s : ProviderState) (fc : FailoverClient) : FailoverClient :=
  on_provider i (set_state s) fc.

Definition demoteProvider (i : nat) (target : ProviderState) (reason : DemoteReason)
    (fc : FailoverClient) : FailoverClient :=
  let fc := on_provider i (set_okCount 0) fc in
  let prev := p_state (prov fc i) in
  let target := if bool_decide (prev = target /\ target = StateDegraded) then StateDown else target in
  count_demotion i reason (setProviderState i target fc).

Definition promoteProvider (i : nat) (fc : FailoverClient) : FailoverClient :=
  setProviderState i StateActive (on_provider i (set_errCount 0) (on_provider i (set_okCount 0) fc)).

Definition SetCursorLedger (ledger : Z) (fc : FailoverClient) : FailoverClient :=
  if ledger <=? fc_cursorLedger fc then fc else with_cursorLedger ledger fc.

Definition updateProviderRange (i : nat) (oldest latest : Z) (fc : FailoverClient) : FailoverClient :=
  let fc := if 0 <? oldest then on_provider i (set_oldest oldest) fc else fc in
  if 0 <? latest then
    let fc := on_provider i (set_latest latest) fc in
    if latest <=? fc_maxObservedHead fc then fc else with_maxHead latest fc
  else fc.

Definition SetProviderLedgerRange (idx oldest latest : Z) (fc : FailoverClient) : FailoverClient :=
  if ((idx <? 0) || (Z.of_nat (length (fc_providers fc)) <=? idx))%bool then fc
  else updateProviderRange (Z.to_nat idx) oldest latest fc.

(** The first provider from index [i] that is usable in state [s]. *)
Fixpoint first_in (s : ProviderState) (excluded : gset nat) (i : nat) (ps : list provider) : option nat :=
  match ps with
  | [] => None
  | p :: ps' =>
      if bool_decide (i ∈ excluded) then first_in s excluded (S i) ps'
      else if p_networkInvalid p then first_in s excluded (S i) ps'
      else if bool_decide (p_state p = s) then Some i
      else first_in s excluded (S i) ps'
  end.

Definition getActiveExcluding (excluded : gset nat) (fc : FailoverClient) : option nat :=
  match first_in StateActive excluded 0 (fc_providers fc) with
  | Some i => Some i
  | None => first_in StateDegraded excluded 0 (fc_providers fc)
  end.

(** ** Outcomes *)

Definition isNetworkError (e : rerror) : bool :=
  match rerrors_As as_net_error e with
  | Some _ => true
  | None =>
      existsb (fun frag => str_has frag (rmsg e))
        ["connection refused"; "no such host"; "i/o timeout"; "deadline exceeded"; "EOF";
         "connection reset"; "TLS handshake timeout"; "connect: connection refused"]
  end.

Definition isDemotableError (e : rerror) : bool :=
  isNetworkError e || str_has "HTTP 5" (rmsg e) || str_has "rpc error -320" (rmsg e) ||
  str_has "rpc error -32603" (rmsg e).

Definition recordSuccess (i : nat) (fc : FailoverClient) : FailoverClient :=
  if p_networkInvalid (prov fc i) then fc
  else
    let fc := on_provider i (set_errCount 0) fc in
    let fc := with_lastActive i (with_allDown 0 0 fc) in
    let s := p_state (prov fc i) in
    if bool_decide (s = StateDegraded \/ s = StateDown) then
      let ok := i32 (p_okCount (prov fc i) + 1) in
      let fc := on_provider i (set_okCount ok) fc in
      if i32 (probationSuccesses (fc_config fc)) <=? ok then promoteProvider i fc else fc
    else fc.

Definition recordError (i : nat) (err : rerror) (fc : FailoverClient) : FailoverClient :=
  if IsLedgerOutOfRange (Some err) then fc
  else if negb (isDemotableError err) then fc
  else
    let fc := on_provider i (set_okCount 0) fc in
    let c := i32 (p_errCount (prov fc i) + 1) in
    let fc := on_provider i (set_errCount c) fc in
    let oldState := p_state (prov fc i) in
    let max := maxConsecutiveErrors (fc_config fc) in
    if (bool_decide (oldState = StateActive) && (i32 max <=? c))%bool then
      demoteProvider i StateDegraded DemoteReasonConsecutiveErrors fc
    else if (bool_decide (oldState = StateDegraded) && (i32 (i64 (max * 2)) <=? c))%bool then
      demoteProvider i StateDown DemoteReasonConsecutiveErrors fc
    else fc.

(** ** Requests *)

Definition parseLedgerFromCursor (cursor : string) : Z :=
  if bool_decide (cursor = "") then 0
  else match cut_first "-" cursor with
       | None => 0
       | Some (before, _) =>
           if bool_decide (before = "") then 0
           else match ParseUint 32 before with Some n => n | None => 0 end
       end.

Definition hasCursor (req : GetEventsRequest) : bool := negb (bool_decide (req_Cursor req = "")).

Definition requiredLedgerForRequest (req : GetEventsRequest) (fc : FailoverClient) : Z :=
  let r := fc_cursorLedger fc in
  let r := if r <? req_StartLedger req then req_StartLedger req else r in
  if hasCursor req then
    let c := parseLedgerFromCursor (req_Cursor req) in if r <? c then c else r
  else r.

Fixpoint candidate_from (excluded : gset nat) (selfIdx : nat) (minHead : Z) (i : nat) (ps : list provider) : bool :=
  match ps with
  | [] => false
  | p :: ps' =>
      if (bool_decide (i = selfIdx) || bool_decide (i ∈ excluded) || p_networkInvalid p)%bool
      then candidate_from excluded selfIdx minHead (S i) ps'
      else if bool_decide (p_state p = StateDown) then candidate_from excluded selfIdx minHead (S i) ps'
      else if ((p_latestLedger p =? 0) || (minHead <=? p_latestLedger p))%bool then true
      else candidate_from excluded selfIdx minHead (S i) ps'
  end.

Definition hasCandidateWithHeadAtLeast (excluded : gset nat) (selfIdx : nat) (minHead : Z)
    (fc : FailoverClient) : bool :=
  candidate_from excluded selfIdx minHead 0 (fc_providers fc).

(** The start ledger is moved back to an interrupted ledger. *)
Definition reanchored (req : GetEventsRequest) (fc : FailoverClient) : GetEventsRequest :=
  if negb (hasCursor req) then
    let r := fc_reanchorLedger fc in
    if ((0 <? r) && (req_StartLedger req =? u32 (r + 1)))%bool
    then mkRequest r (req_EndLedger req) (req_Filters req) (req_Cursor req) (req_Limit req)
    else req
  else req.

(** ** Divergence between providers *)

(** json.Marshal escapes HTML characters and the two JavaScript separators. *)
Fixpoint json_html_escape (s : string) : string :=
  let u (h : string) : string := String (byte_of 92) ("u" +++ h) in
  match s with
  | EmptyString => ""
  | String a s1 =>
      match s1 with
      | String b (String c s3) =>
          if ((byte_val a =? 226) && (byte_val b =? 128) && ((byte_val c =? 168) || (byte_val c =? 169)))%bool
          then u (if byte_val c =? 168 then "2028" else "2029") +++ json_html_escape s3
          else if byte_val a =? 60 then u "003c" +++ json_html_escape s1
          else if byte_val a =? 62 then u "003e" +++ json_html_escape s1
          else if byte_val a =? 38 then u "0026" +++ json_html_escape s1
          else String a (json_html_escape s1)
      | _ =>
          if byte_val a =? 60 then u "003c" +++ json_html_escape s1
          else if byte_val a =? 62 then u "003e" +++ json_html_escape s1
          else if byte_val a =? 38 then u "0026" +++ json_html_escape s1
          else String a (json_html_escape s1)
      end
  end.

(** json.Marshal of raw messages: a nil message is null; a syntax error gives
    no bytes at all. *)
Definition marshal_raw (m : string) : option string :=
  if bool_decide (m = "") then Some "null" else json_html_escape <$> json_Compact m.
Fixpoint join_comma (l : list string) : string :=
  match l with
  | [] => ""
  | [x] => x
  | x :: l' => x +++ "," +++ join_comma l'
  end.
Definition marshal_raws (l : list string) : string :=
  match mapM marshal_raw l with Some ms => "[" +++ join_comma ms +++ "]" | None => "" end.

Definition topic_digest (topics : list string) : string :=
  match topics with
  | [] => ""
  | _ => hex_encode (sha256 (str_bytes (fold_right (fun t s => t +++ "|" +++ s) "" topics)))
  end.

Definition buildObservedEvent (i : nat) (ev : Event) : observedEvent :=
  mkObserved i (re_ID ev) (re_Ledger ev) (re_ContractID ev) (re_Type ev) (re_TxHash ev)
    (topic_digest (re_Topic ev)) (re_Value ev)
    (match re_TopicJSON ev with [] => "" | l => marshal_raws l end) (re_ValueJSON ev).

Definition both_set_differ (a b : string) : bool :=
  negb (bool_decide (a = "")) && negb (bool_decide (b = "")) && negb (bool_decide (a = b)).

(** The empty string is agreement. *)
Definition compareObservedEvents (prev cur : observedEvent) : string :=
  let head := "event " +++ ob_id cur in
  let gotq (a b : string) := ": got " +++ Quote a +++ ", want " +++ Quote b in
  if negb (ob_ledger prev =? ob_ledger cur) then
    head +++ " ledger mismatch: got " +++ FormatInt (ob_ledger cur) +++ ", want " +++ FormatInt (ob_ledger prev)
  else if negb (bool_decide (ob_contractID prev = ob_contractID cur)) then
    head +++ " contractId mismatch" +++ gotq (ob_contractID cur) (ob_contractID prev)
  else if negb (bool_decide (ob_eventType prev = ob_eventType cur)) then
    head +++ " type mismatch" +++ gotq (ob_eventType cur) (ob_eventType prev)
  else if negb (bool_decide (ob_txHash prev = ob_txHash cur)) then
    head +++ " txHash mismatch" +++ gotq (ob_txHash cur) (ob_txHash prev)
  else if both_set_differ (ob_value prev) (ob_value cur) then
    head +++ " value XDR mismatch" +++ gotq (ob_value cur) (ob_value prev)
  else if both_set_differ (ob_topicDigest prev) (ob_topicDigest cur) then
    head +++ " topic XDR mismatch"
  else if both_set_differ (ob_valueJSON prev) (ob_valueJSON cur) then
    head +++ " valueJson mismatch: got " +++ ob_valueJSON cur +++ ", want " +++ ob_valueJSON prev
  else if both_set_differ (ob_topicJSON prev) (ob_topicJSON cur) then
    head +++ " topicJson mismatch: got " +++ ob_topicJSON cur +++ ", want " +++ ob_topicJSON prev
  else "".

(** First pass: an event already seen from another provider must agree. *)
Fixpoint check_contents (i : nat) (fc : FailoverClient) (evs : list Event) : option ProviderDivergence :=
  match evs with
  | [] => None
  | ev :: evs' =>
      match fc_observedByID fc !! re_ID ev with
      | Some prev =>
          if negb (bool_decide (ob_providerIdx prev = i)) then
            let reason := compareObservedEvents prev (buildObservedEvent i ev) in
            if negb (bool_decide (reason = ""))
            then Some (mkDivergence (p_url (prov fc i)) (re_Ledger ev) (re_ID ev) reason)
            else check_contents i fc evs'
          else check_contents i fc evs'
      | None => check_contents i fc evs'
      end
  end.

(** The map byLedger of a page: its keys, and the identifiers under a key. *)
Fixpoint ledgers_of (evs : list Event) : list Z :=
  match evs with
  | [] => []
  | ev :: evs' => re_Ledger ev :: filter (fun l => l <> re_Ledger ev) (ledgers_of evs')
  end.
Definition ids_at (ledger : Z) (evs : list Event) : list string :=
  re_ID <$> filter (fun ev => re_Ledger ev = ledger) evs.

(** The first index at which the two lists differ, with both entries. *)
Fixpoint first_mismatch (k : Z) (got want : list string) : option (Z * string * string) :=
  match got, want with
  | g :: got', w :: want' =>
      if negb (bool_decide (g = w)) then Some (k, g, w) else first_mismatch (k + 1) got' want'
  | _, _ => None
  end.

(** Second pass, for one ledger of a page without a cursor. *)
Definition check_ledger (i : nat) (fc : FailoverClient) (startLedger maxLedgerInPage : Z)
    (resp : GetEventsResponse) (ledger : Z) : option ProviderDivergence :=
  let gotIDs := ids_at ledger (resp_Events resp) in
  let url := p_url (prov fc i) in
  if ((0 <? startLedger) && (ledger <? startLedger))%bool then None
  else match fc_observedByLgr fc !! ledger with
  | None => None
  | Some prev =>
      if (bool_decide (op_providerIdx prev = i) || bool_decide (op_eventIDs prev = []))%bool then None
      else match first_mismatch 0 gotIDs (op_eventIDs prev) with
      | Some (k, got, want) =>
          Some (mkDivergence url ledger got
            ("ledger " +++ FormatInt ledger +++ " event index " +++ FormatInt k +++ " ID mismatch: got " +++
             Quote got +++ ", want " +++ Quote want))
      | None =>
          if ((Z.of_nat (length gotIDs) <? Z.of_nat (length (op_eventIDs prev))) &&
              ((ledger <? maxLedgerInPage) || bool_decide (resp_Cursor resp = "")))%bool
          then
            let missingID := op_eventIDs prev !!! length gotIDs in
            Some (mkDivergence url ledger missingID
              ("ledger " +++ FormatInt ledger +++ " missing previously observed event " +++ Quote missingID +++
               " (got " +++ FormatInt (Z.of_nat (length gotIDs)) +++ " events, want >= " +++
               FormatInt (Z.of_nat (length (op_eventIDs prev))) +++ ")"))
          else None
      end
  end.

Fixpoint first_some {A B} (f : A -> option B) (l : list A) : option B :=
  match l with [] => None | a :: l' => match f a with Some b => Some b | None => first_some f l' end end.

(** The identifiers not seen yet are appended. *)
Fixpoint append_unseen (seen : list string) (ids : list string) : list string :=
  match ids with
  | [] => seen
  | id :: ids' => if bool_decide (id ∈ seen) then append_unseen seen ids' else append_unseen (seen ++ [id]) ids'
  end.

Definition record_ledger (i : nat) (evs : list Event) (m : gmap Z observedLedgerPrefix) (ledger : Z)
    : gmap Z observedLedgerPrefix :=
  let ids := ids_at ledger evs in
  match m !! ledger with
  | None => <[ledger := mkPrefix i ids]> m
  | Some existing => <[ledger := mkPrefix (op_providerIdx existing) (append_unseen (op_eventIDs existing) ids)]> m
  end.

Definition record_events (i : nat) (evs : list Event) (fc : FailoverClient) : FailoverClient :=
  with_observed
    (fold_left (fun m ev => <[re_ID ev := buildObservedEvent i ev]> m) evs (fc_observedByID fc))
    (fold_left (record_ledger i evs) (ledgers_of evs) (fc_observedByLgr fc)) fc.

(** [order] is the order in which the runtime iterates over the map byLedger of
    the second pass. *)
Definition checkAndRecordEvents (order : list Z -> list Z) (i : nat) (startLedger : Z) (cursor : bool)
    (resp : GetEventsResponse) (fc : FailoverClient) : option ProviderDivergence * FailoverClient :=
  match list.last (resp_Events resp) with
  | None => (None, fc)
  | Some final =>
      let found :=
        match check_contents i fc (resp_Events resp) with
        | Some d => Some d
        | None =>
            if negb cursor then
              first_some (check_ledger i fc startLedger (re_Ledger final) resp) (order (ledgers_of (resp_Events resp)))
            else None
        end in
      match found with
      | Some d => (Some d, add_divergence d fc)
      | None => (None, record_events i (resp_Events resp) fc)
      end
  end.

(** ** The environment *)

Record NetworkInfo : Type := mkNetworkInfo {
  ni_FriendbotURL : string;
  ni_Passphrase : string;
  ni_ProtocolVersion : Z }.

(** The concrete clients by index. [pv_GetNetwork] is [None] for a client that
    is not a NetworkInspector, [pv_SupportsXDRJSON] for one that is not an
    *HTTPClient. The second argument of [pv_GetEvents] is the request's
    xdrFormat. *)
Class Providers (W : Type) : Type := {
  pv_GetEvents : nat -> GetEventsRequest -> string -> W -> result rerror GetEventsResponse * W;
  pv_GetLatestLedger : nat -> W -> result rerror LatestLedger * W;
  pv_GetHealth : nat -> W -> result rerror Health * W;
  pv_GetNetwork : nat -> option (W -> result rerror NetworkInfo * W);
  pv_SupportsXDRJSON : nat -> W -> option bool;
  pv_limiter : nat -> W -> option rerror * W;
  pv_now : W -> Z;
  pv_rand : Z -> W -> Z * W;
  pv_range : list Z -> W -> list Z }.

(** What the documentation of math/rand and of range over a map promises. *)
Class ProviderLaws (W : Type) `{!Providers W} : Prop := {
  pv_rand_range : forall n w, 0 < n -> 0 <= (pv_rand n w).1 < n;
  pv_range_perm : forall l w, pv_range l w ≡ₚ l }.

Definition F (W A : Type) : Type := FailoverClient -> W -> A * FailoverClient * W.

#[export] Instance F_ret (W : Type) : MRet (F W) := fun A a fc w => (a, fc, w).
#[export] Instance F_bind (W : Type) : MBind (F W) := fun A B k m fc w =>
  let '(a, fc', w') := m fc w in k a fc' w'.

Section Client.
Context {W : Type} `{!Providers W}.

Definition fget : F W FailoverClient := fun fc w => (fc, fc, w).
Definition fmod (f : FailoverClient -> FailoverClient) : F W unit := fun fc w => (tt, f fc, w).
Definition fenv {A} (f : W -> A * W) : F W A := fun fc w => let '(a, w') := f w in (a, fc, w').

Definition waitLimiter (i : nat) : F W (option rerror) := fenv (pv_limiter i).

(** ** Selection *)

Definition mismatch_error (url actual expected : string) : rerror :=
  wrap_with ErrNetworkPassphraseMismatch
    (": provider " +++ url +++ " reported " +++ Quote actual +++ ", want " +++ Quote expected).

Definition verifyProviderNetwork (i : nat) : F W (option rerror) :=
  fc ← fget;
  let p := prov fc i in
  if p_networkInvalid p then mret (Some ErrNetworkPassphraseMismatch)
  else if (bool_decide (expectedPassphrase (fc_config fc) = "") || p_networkVerified p)%bool then mret None
  else match pv_GetNetwork i with
  | None => fmod (on_provider i set_verified);; mret None
  | Some getNetwork =>
      werr ← waitLimiter i;
      match werr with
      | Some e => mret (Some e)
      | None =>
          r ← fenv getNetwork;
          match r with
          | Err e => fmod (recordError i e);; mret (Some e)
          | Ok info =>
              let actual := TrimSpace (ni_Passphrase info) in
              if negb (bool_decide (actual = expectedPassphrase (fc_config fc))) then
                fmod (on_provider i set_invalid);;
                fmod (demoteProvider i StateDown DemoteReasonNetworkMismatch);;
                mret (Some (mismatch_error (p_url p) actual (expectedPassphrase (fc_config fc))))
              else fmod (on_provider i set_verified);; mret None
          end
      end
  end.

Fixpoint backoff_doubling (n : nat) (base : Z) : Z :=
  match n with
  | O => base
  | S n' => if 30 * Second <? base * 2 then 30 * Second else backoff_doubling n' (base * 2)
  end.

Definition allDownBackoff : F W Z :=
  fc ← fget;
  let base := backoff_doubling (Z.to_nat (fc_allDownCount fc)) Second in
  jitter ← fenv (pv_rand (goquot base 4));
  mret (base - goquot base 4 + jitter).

(** The selection loop: every turn either ends it or excludes one more
    provider. [None] is a lack of fuel. *)
Fixpoint pick_loop (fuel : nat) (excluded : gset nat) (lastMismatch : option rerror)
    : F W (option (result rerror (option nat) * gset nat * option rerror)) :=
  match fuel with
  | O => mret None
  | S fuel' =>
      fc ← fget;
      match getActiveExcluding excluded fc with
      | None => mret (Some (Ok None, excluded, lastMismatch))
      | Some i =>
          verr ← verifyProviderNetwork i;
          match verr with
          | Some e =>
              if rerrors_Is KNetworkPassphraseMismatch e
              then pick_loop fuel' ({[i]} ∪ excluded) (Some e)
              else mret (Some (Err e, excluded, lastMismatch))
          | None => mret (Some (Ok (Some i), excluded, lastMismatch))
          end
      end
  end.

(** The second component is the caller's exclusion map after the call, which
    the Go function updates in place. *)
Definition pickProviderExcluding (excluded : gset nat) : F W (option (result rerror nat * gset nat)) :=
  fc ← fget;
  now ← fenv (fun w => (pv_now w, w));
  if (negb (fc_allDownUntil fc =? 0) && (now <? fc_allDownUntil fc))%bool
  then mret (Some (Err ErrAllProvidersDown, excluded))
  else
    fmod (fun fc => with_allDown (fc_allDownCount fc) 0 fc);;
    r ← pick_loop (S (length (fc_providers fc))) excluded None;
    match r with
    | None => mret None
    | Some (Err e, ex, _) => mret (Some (Err e, ex))
    | Some (Ok (Some i), ex, _) => mret (Some (Ok i, ex))
    | Some (Ok None, ex, lastMismatch) =>
        fc ← fget;
        if (negb (bool_decide (ex = ∅)) && is_some (getActiveExcluding ∅ fc))%bool then
          mret (Some (Err (default ErrAllProvidersDown lastMismatch), ex))
        else
          fmod (fun fc => with_allDown (i32 (fc_allDownCount fc + 1)) (fc_allDownUntil fc) fc);;
          now ← fenv (fun w => (pv_now w, w));
          backoff ← allDownBackoff;
          fmod (fun fc => with_allDown (fc_allDownCount fc) (i64 (now + backoff)) fc);;
          logged ← allDownBackoff;
          let text (e : rerror) :=
            RErr KPlain (rmsg ErrAllProvidersDown +++ " (" +++ rmsg e +++ ")") [ErrAllProvidersDown; e] in
          mret (Some (Err (match lastMismatch with Some e => text e | None => ErrAllProvidersDown end), ex))
    end.

Definition pickProvider : F W (option (result rerror nat)) :=
  r ← pickProviderExcluding ∅; mret (fst <$> r).

(** ** GetEvents *)

Definition XDRFormatJSON : string := "json".

Definition callProviderGetEvents (i : nat) (req : GetEventsRequest) (xdrFormat : string)
    : F W (result rerror GetEventsResponse) :=
  fc ← fget;
  let format :=
    if p_xdrJSONUnsupported (prov fc i) then ""
    else if bool_decide (xdrFormat = "") then XDRFormatJSON else xdrFormat in
  r1 ← fenv (pv_GetEvents i req format);
  r ← (match r1 with
       | Err e =>
           if isXDRFormatRejected e then
             fmod (on_provider i set_unsupported);; fenv (pv_GetEvents i req "")
           else mret r1
       | Ok _ => mret r1
       end);
  supported ← fenv (fun w => (pv_SupportsXDRJSON i w, w));
  (match supported with
   | Some false => fmod (on_provider i set_unsupported)
   | _ => mret tt
   end);;
  mret r.

(** The errors remembered while providers are passed over. *)
Record Passed : Type := mkPassed {
  ps_excluded : gset nat;
  ps_behind : option rerror;
  ps_gap : option rerror;
  ps_divergence : option rerror }.

Definition exclude (i : nat) (ps : Passed) : Passed :=
  mkPassed ({[i]} ∪ ps_excluded ps) (ps_behind ps) (ps_gap ps) (ps_divergence ps).
Definition pass_behind (i : nat) (e : rerror) (ps : Passed) : Passed :=
  exclude i (mkPassed (ps_excluded ps) (Some e) (ps_gap ps) (ps_divergence ps)).
Definition pass_gap (i : nat) (e : rerror) (ps : Passed) : Passed :=
  exclude i (mkPassed (ps_excluded ps) (ps_behind ps) (Some e) (ps_divergence ps)).
Definition pass_divergence (i : nat) (e : rerror) (ps : Passed) : Passed :=
  exclude i (mkPassed (ps_excluded ps) (ps_behind ps) (ps_gap ps) (Some e)).

Definition no_provider_error (ps : Passed) (e : rerror) : rerror :=
  match ps_gap ps with
  | Some g => g
  | None => match ps_behind ps with
            | Some b => b
            | None => default e (ps_divergence ps)
            end
  end.

(** One turn of the loop either returns or goes on with one more provider
    excluded. *)
Inductive turn : Type :=
  | Return (r : result rerror GetEventsResponse)
  | Continue (ps : Passed).

Definition behind_error (url : string) (latest : Z) (rel : string) (ledger : Z) : rerror :=
  wrap_with ErrProviderBehindCursor
    (": provider " +++ url +++ " latestLedger " +++ FormatInt latest +++ rel +++ FormatInt ledger).

(** Selection-path checks, before the provider is asked. *)
Definition select_check (i : nat) (req : GetEventsRequest) (required : Z) (ps : Passed) (fc : FailoverClient)
    : option (DemoteReason * Passed) :=
  let p := prov fc i in
  let latest := p_latestLedger p in
  let maxHead := fc_maxObservedHead fc in
  let skew := headSkewTolerance (fc_config fc) in
  if ((0 <? required) && (0 <? latest) && (latest <? required))%bool then
    Some (DemoteReasonBehindCursor, pass_behind i (behind_error (p_url p) latest " < cursor " required) ps)
  else if ((0 <? maxHead) && (0 <? latest) && (u32 (latest + skew) <? maxHead) &&
           hasCandidateWithHeadAtLeast (ps_excluded ps) i (u32 (maxHead - skew)) fc)%bool then
    Some (DemoteReasonBehindCursor, pass_behind i (behind_error (p_url p) latest " lags head " maxHead) ps)
  else if (negb (hasCursor req) && (0 <? req_StartLedger req) && (req_StartLedger req <? p_oldestLedger p))%bool then
    Some (DemoteReasonRetentionGap,
          pass_gap i (RetentionGapError (p_url p) (req_StartLedger req) (p_oldestLedger p)) ps)
  else None.

(** Response-path checks 1 and 2. *)
Definition response_check (i : nat) (req : GetEventsRequest) (required : Z) (resp : GetEventsResponse)
    (ps : Passed) (fc : FailoverClient) : option (DemoteReason * Passed) :=
  let url := p_url (prov fc i) in
  let latest := resp_LatestLedger resp in
  if ((0 <? required) && (0 <? latest) && (latest <? required))%bool then
    Some (DemoteReasonBehindCursor, pass_behind i (behind_error url latest " < cursor " required) ps)
  else if (negb (hasCursor req) && (0 <? req_StartLedger req) && (req_StartLedger req <? resp_OldestLedger resp))%bool then
    Some (DemoteReasonRetentionGap,
          pass_gap i (RetentionGapError url (req_StartLedger req) (resp_OldestLedger resp)) ps)
  else None.

Definition max_ledger (evs : list Event) : Z :=
  fold_left (fun m ev => if m <? re_Ledger ev then re_Ledger ev else m) evs 0.

(** The cursor stream after an accepted page. *)
Definition advance_cursor (req : GetEventsRequest) (resp : GetEventsResponse) (fc : FailoverClient) : FailoverClient :=
  let m := max_ledger (resp_Events resp) in
  let m := if ((m =? 0) && negb (bool_decide (resp_Cursor resp = "")))%bool
           then parseLedgerFromCursor (resp_Cursor resp) else m in
  let fc := if 0 <? m then SetCursorLedger m fc else fc in
  if hasCursor req then fc else with_reanchor 0 fc.

Definition accept_page (i : nat) (req : GetEventsRequest) (required : Z) (resp : GetEventsResponse) (ps : Passed)
    : F W turn :=
  fmod (updateProviderRange i (resp_OldestLedger resp) (resp_LatestLedger resp));;
  fc ← fget;
  match response_check i req required resp ps fc with
  | Some (reason, ps') => fmod (demoteProvider i StateDegraded reason);; mret (Continue ps')
  | None =>
      order ← fenv (fun w => (fun l => pv_range l w, w));
      let '(d, fc') := checkAndRecordEvents order i (req_StartLedger req) (hasCursor req) resp fc in
      fmod (fun _ => fc');;
      match d with
      | Some d =>
          fmod (demoteProvider i StateDown DemoteReasonDivergence);;
          mret (Continue (pass_divergence i (wrap_with ErrProviderDivergence (": " +++ dv_Description d)) ps))
      | None => fmod (advance_cursor req resp);; fmod (recordSuccess i);; mret (Return (Ok resp))
      end
  end.

Definition ask_provider (i : nat) (req : GetEventsRequest) (xdrFormat : string) (required : Z) (ps : Passed)
    : F W turn :=
  werr ← waitLimiter i;
  match werr with
  | Some e => mret (Return (Err e))
  | None =>
      r ← callProviderGetEvents i req xdrFormat;
      match r with
      | Err e =>
          fc ← fget;
          if (IsLedgerOutOfRange (Some e) && negb (bool_decide (length (fc_providers fc) = 1%nat)))%bool then
            fmod (demoteProvider i StateDegraded DemoteReasonRetentionGap);; mret (Continue (pass_gap i e ps))
          else fmod (recordError i e);; mret (Return (Err e))
      | Ok resp => accept_page i req required resp ps
      end
  end.

(** A cursor belongs to the provider that served the last page. *)
Definition foreign_cursor (i : nat) (req : GetEventsRequest) (fc : FailoverClient) : bool :=
  hasCursor req && match fc_lastActive fc with None => false | Some j => negb (bool_decide (j = i)) end.

Definition getEvents_turn (req : GetEventsRequest) (xdrFormat : string) (required : Z) (ps : Passed)
    : F W (option turn) :=
  picked ← pickProviderExcluding (ps_excluded ps);
  match picked with
  | None => mret None
  | Some (Err e, _) => mret (Some (Return (Err (no_provider_error ps e))))
  | Some (Ok i, ex) =>
      let ps := mkPassed ex (ps_behind ps) (ps_gap ps) (ps_divergence ps) in
      fc ← fget;
      match select_check i req required ps fc with
      | Some (reason, ps') => fmod (demoteProvider i StateDegraded reason);; mret (Some (Continue ps'))
      | None =>
          if foreign_cursor i req fc then
            (if 0 <? fc_cursorLedger fc then fmod (with_reanchor (fc_cursorLedger fc)) else mret tt);;
            mret (Some (Return (Err ErrFailoverReanchor)))
          else t ← ask_provider i req xdrFormat required ps; mret (Some t)
      end
  end.

Fixpoint getEvents_loop (fuel : nat) (req : GetEventsRequest) (xdrFormat : string) (required : Z) (ps : Passed)
    : F W (option (result rerror GetEventsResponse)) :=
  match fuel with
  | O => mret None
  | S fuel' =>
      t ← getEvents_turn req xdrFormat required ps;
      match t with
      | None => mret None
      | Some (Return r) => mret (Some r)
      | Some (Continue ps') => getEvents_loop fuel' req xdrFormat required ps'
      end
  end.

Definition GetEvents (req : GetEventsRequest) (xdrFormat : string) : F W (option (result rerror GetEventsResponse)) :=
  fc ← fget;
  let req := reanchored req fc in
  getEvents_loop (S (length (fc_providers fc))) req xdrFormat (requiredLedgerForRequest req fc)
    (mkPassed ∅ None None None).

(** ** The other methods *)

(** The common body: pick, wait, call, record. [learn] is what the method
    stores from an answer. *)
Definition delegate {A} (call : nat -> W -> result rerror A * W) (learn : nat -> A -> FailoverClient -> FailoverClient)
    : F W (option (result rerror A)) :=
  picked ← pickProvider;
  match picked with
  | None => mret None
  | Some (Err e) => mret (Some (Err e))
  | Some (Ok i) =>
      werr ← waitLimiter i;
      match werr with
      | Some e => mret (Some (Err e))
      | None =>
          r ← fenv (call i);
          match r with
          | Err e => fmod (recordError i e);; mret (Some (Err e))
          | Ok a => fmod (learn i a);; fmod (recordSuccess i);; mret (Some (Ok a))
          end
      end
  end.

Definition GetLatestLedger : F W (option (result rerror LatestLedger)) :=
  delegate pv_GetLatestLedger (fun i a => updateProviderRange i 0 (ll_Sequence a)).

Definition GetHealth : F W (option (result rerror Health)) :=
  delegate pv_GetHealth (fun i a => updateProviderRange i (h_OldestLedger a) (h_LatestLedger a)).

(** GetLedgerEntries and SimulateTransaction, for any client method. *)
Definition GetPlain {A} (call : nat -> W -> result rerror A * W) : F W (option (result rerror A)) :=
  delegate call (fun _ _ fc => fc).

Definition GetNetwork : F W (option (result rerror NetworkInfo)) :=
  picked ← pickProvider;
  match picked with
  | None => mret None
  | Some (Err e) => mret (Some (Err e))
  | Some (Ok i) =>
      match pv_GetNetwork i with
      | None => fc ← fget; mret (Some (Ok (mkNetworkInfo "" (expectedPassphrase (fc_config fc)) 0)))
      | Some getNetwork =>
          werr ← waitLimiter i;
          match werr with
          | Some e => mret (Some (Err e))
          | None =>
              r ← fenv getNetwork;
              match r with
              | Err e => fmod (recordError i e);; mret (Some (Err e))
              | Ok a => fmod (recordSuccess i);; mret (Some (Ok a))
              end
          end
      end
  end.

Definition ProviderSupportsXDRJSON (idx : Z) : F W bool :=
  fc ← fget;
  if ((idx <? 0) || (Z.of_nat (length (fc_providers fc)) <=? idx))%bool then mret false
  else if p_xdrJSONUnsupported (prov fc (Z.to_nat idx)) then mret false
  else fenv (fun w => (default true (pv_SupportsXDRJSON (Z.to_nat idx) w), w)).

(** ** Background probes *)

Definition probe_one (i : nat) : F W unit :=
  fc ← fget;
  if negb (bool_decide (p_state (prov fc i) = StateDown)) then mret tt
  else if p_networkInvalid (prov fc i) then mret tt
  else
    verr ← verifyProviderNetwork i;
    match verr with
    | Some _ => mret tt
    | None =>
        werr ← waitLimiter i;
        match werr with
        | Some _ => mret tt
        | None =>
            r ← fenv (pv_GetHealth i);
            match r with
            | Err _ => mret tt
            | Ok health =>
                fmod (updateProviderRange i (h_OldestLedger health) (h_LatestLedger health));;
                fc ← fget;
                if ((0 <? fc_cursorLedger fc) && (0 <? h_LatestLedger health) &&
                    (h_LatestLedger health <? fc_cursorLedger fc))%bool then mret tt
                else
                  let ok := i32 (p_okCount (prov fc i) + 1) in
                  fmod (on_provider i (set_okCount ok));;
                  if i32 (probationSuccesses (fc_config fc)) <=? ok then fmod (promoteProvider i) else mret tt
            end
        end
    end.

Fixpoint probe_all (idxs : list nat) : F W unit :=
  match idxs with [] => mret tt | i :: idxs' => probe_one i;; probe_all idxs' end.

Definition probeDownProviders : F W unit :=
  fc ← fget; probe_all (seq 0 (length (fc_providers fc))).

End Client.

(** ** Construction *)

Definition resolveExpectedPassphrase (network : string) : string :=
  let trimmed := TrimSpace network in
  let name := ToLower trimmed in
  if bool_decide (name ∈ ["mainnet"; "pubnet"; "public"]) then "Public Global Stellar Network ; September 2015"
  else if bool_decide (name ∈ ["testnet"; "test"]) then "Test SDF Network ; September 2015"
  else if bool_decide (name = "futurenet") then "Test SDF Future Network ; October 2022"
  else trimmed.

(** The functional options have been applied to [defaultFailoverConfig]. *)
Definition NewFailoverClient (urls : list string) (config : FailoverConfig) : FailoverClient :=
  mkFailover config ((fun u => mkProvider u StateActive 0 0 0 0 false false false) <$> urls)
    None 0 0 0 0 0 ∅ ∅ [] [].
