(* ===== verification/FailoverState.v ===== *)
(** * The state of the failover client: walks, frames, well-formedness

    How computations of FailoverClient are decomposed, what each store leaves
    alone, the invariant of the state, the order of selection and the exactness
    of divergence detection. *)

From S2P Require Import Prelude GoStrings RpcTypes Retry Failover.
From Stdlib Require Import Ascii String.
Local Open Scope Z_scope.
Local Open Scope go_scope.
Local Notation length := List.length.

(** ** Reasoning about computations *)

Section Walk.
Context {W : Type} `{!Providers W}.

Lemma fbind_inv {A B} (m : F W A) (k : A -> F W B) fc w r : mbind k m fc w = r ->
  exists a fc1 w1, m fc w = (a, fc1, w1) /\ k a fc1 w1 = r.
Proof. unfold mbind, F_bind. destruct (m fc w) as [[a fc1] w1]. eauto. Qed.

(** From a client satisfying [P], the computation ends with [Q]. *)
Definition triple {A} (P : FailoverClient -> Prop) (m : F W A) (Q : A -> FailoverClient -> Prop) : Prop :=
  forall fc w, P fc -> Q (m fc w).1.1 (m fc w).1.2.

Lemma triple_ret {A} (P : FailoverClient -> Prop) (a : A) (Q : A -> FailoverClient -> Prop) :
  (forall fc, P fc -> Q a fc) -> triple P (mret a) Q.
Proof. intros H fc w Hp. by apply H. Qed.
Lemma triple_bind {A B} P (m : F W A) (R : A -> FailoverClient -> Prop) (k : A -> F W B) Q :
  triple P m R -> (forall a, triple (R a) (k a) Q) -> triple P (mbind k m) Q.
Proof.
  intros Hm Hk fc w Hp. unfold mbind, F_bind. specialize (Hm fc w Hp).
  destruct (m fc w) as [[a fc1] w1]. by apply Hk.
Qed.
Lemma triple_get_bind {B} P (k : FailoverClient -> F W B) Q :
  (forall fc0, triple (fun fc => fc = fc0 /\ P fc) (k fc0) Q) -> triple P (mbind k fget) Q.
Proof. intros H fc w Hp. by apply (H fc fc w). Qed.
Lemma triple_env {A} (P : FailoverClient -> Prop) (f : W -> A * W) : triple P (fenv f) (fun _ => P).
Proof. intros fc w Hp. unfold fenv. by destruct (f w). Qed.
Lemma triple_mod (P : FailoverClient -> Prop) f (Q : unit -> FailoverClient -> Prop) :
  (forall fc, P fc -> Q tt (f fc)) -> triple P (fmod f) Q.
Proof. intros H fc w Hp. by apply H. Qed.
Lemma triple_conseq {A} (P P' : FailoverClient -> Prop) (m : F W A) (Q Q' : A -> FailoverClient -> Prop) :
  (forall fc, P fc -> P' fc) -> (forall a fc, Q' a fc -> Q a fc) -> triple P' m Q' -> triple P m Q.
Proof. intros HP HQ H fc w Hp. by apply HQ, H, HP. Qed.

(** A relation that every run of the computation respects. *)
Definition respects {A} (R : FailoverClient -> FailoverClient -> Prop) (m : F W A) : Prop :=
  forall fc w, R fc (m fc w).1.2.

Lemma respects_ret {A} R `{!PreOrder R} (a : A) : respects R (mret a).
Proof. by intros fc w. Qed.
Lemma respects_bind {A B} R `{!PreOrder R} (m : F W A) (k : A -> F W B) :
  respects R m -> (forall a, respects R (k a)) -> respects R (mbind k m).
Proof.
  intros Hm Hk fc w. unfold mbind, F_bind. specialize (Hm fc w). destruct (m fc w) as [[a fc1] w1].
  etransitivity; [exact Hm|apply Hk].
Qed.
Lemma respects_get R `{!PreOrder R} : respects R fget.
Proof. by intros fc w. Qed.
Lemma respects_env {A} R `{!PreOrder R} (f : W -> A * W) : respects R (fenv f).
Proof. intros fc w. unfold fenv. by destruct (f w). Qed.
Lemma respects_mod R f : (forall fc, R fc (f fc)) -> respects R (fmod f).
Proof. intros H fc w. apply H. Qed.

End Walk.

(** Decompose a computation down to its stores. *)
Ltac respects_walk :=
  repeat first
    [ progress cbv zeta
    | match goal with
      | |- respects _ (mret _) => apply respects_ret; exact _
      | |- respects _ fget => apply respects_get; exact _
      | |- respects _ (fenv _) => apply respects_env; exact _
      | |- respects _ (mbind _ _) => apply respects_bind; [exact _| |intros ?]
      | |- respects _ (if ?b then _ else _) => destruct b eqn:?
      | |- respects _ (match ?x with _ => _ end) => destruct x eqn:?
      | |- respects _ (let '(_, _) := ?x in _) => destruct x eqn:?
      end ].

(** ** Frames *)

(** The part of the client that only an accepted page or a re-anchoring moves,
    and what never goes back. *)
Record frame (fc fc' : FailoverClient) : Prop := {
  fr_config : fc_config fc' = fc_config fc;
  fr_urls : p_url <$> fc_providers fc' = p_url <$> fc_providers fc;
  fr_last : fc_lastActive fc' = fc_lastActive fc;
  fr_cursor : fc_cursorLedger fc' = fc_cursorLedger fc;
  fr_reanchor : fc_reanchorLedger fc' = fc_reanchorLedger fc;
  fr_byID : fc_observedByID fc' = fc_observedByID fc;
  fr_byLgr : fc_observedByLgr fc' = fc_observedByLgr fc;
  fr_head : fc_maxObservedHead fc <= fc_maxObservedHead fc';
  fr_invalid : forall i, p_networkInvalid (prov fc i) = true -> p_networkInvalid (prov fc' i) = true }.

#[export] Instance frame_preorder : PreOrder frame.
Proof.
  split; [by intros fc; split|]. intros a b c [] []. split; try congruence; [lia|eauto].
Qed.

Lemma frame_length fc fc' : frame fc fc' -> length (fc_providers fc') = length (fc_providers fc).
Proof. intros H. pose proof (f_equal length (fr_urls _ _ H)) as E. by rewrite !length_fmap in E. Qed.

Lemma prov_alter fc i f j : (i < length (fc_providers fc))%nat ->
  prov (on_provider i f fc) j = if bool_decide (i = j) then f (prov fc j) else prov fc j.
Proof.
  intros Hi. unfold prov, on_provider. cbn. case_bool_decide as E.
  - subst j. destruct (lookup_lt_is_Some_2 _ _ Hi) as [p Hp].
    rewrite (list_lookup_total_correct _ _ _ Hp). apply list_lookup_total_correct.
    by rewrite list_lookup_alter_eq, Hp.
  - rewrite !list_lookup_total_alt. by rewrite list_lookup_alter_ne.
Qed.

Lemma prov_alter_eq fc i f : (i < length (fc_providers fc))%nat -> prov (on_provider i f fc) i = f (prov fc i).
Proof. intros H. rewrite prov_alter by done. by rewrite bool_decide_true. Qed.

Lemma prov_alter_ge fc i f j : ~ (i < length (fc_providers fc))%nat -> prov (on_provider i f fc) j = prov fc j.
Proof.
  intros Hi. unfold prov, on_provider. cbn. rewrite !list_lookup_total_alt.
  destruct (decide (i = j)) as [<-|Hne]; [|by rewrite list_lookup_alter_ne].
  rewrite list_lookup_alter_eq. by rewrite (lookup_ge_None_2 (fc_providers fc) i) by lia.
Qed.

(** A store to one provider that keeps its URL and its rejection. *)
Lemma frame_on_provider i f fc :
  (forall p, p_url (f p) = p_url p) -> (forall p, p_networkInvalid p = true -> p_networkInvalid (f p) = true) ->
  frame fc (on_provider i f fc).
Proof.
  intros Hurl Hinv. split; try done.
  - cbn. apply list_eq. intros j. rewrite !list_lookup_fmap. destruct (decide (i = j)) as [<-|Hne].
    + rewrite list_lookup_alter_eq. destruct (fc_providers fc !! i) eqn:E; cbn; [by rewrite Hurl|done].
    + by rewrite list_lookup_alter_ne.
  - intros j Hj. destruct (decide (i < length (fc_providers fc))%nat) as [Hi|Hi].
    + rewrite prov_alter by done. case_bool_decide; auto.
    + by rewrite prov_alter_ge.
Qed.

(** The stores used by the code. *)
Ltac solve_frame := first
  [ reflexivity
  | apply frame_on_provider; [by intros []|by intros []]
  | split; done ].

Lemma frame_setProviderState i s fc : frame fc (setProviderState i s fc).
Proof. solve_frame. Qed.

Lemma frame_demote i t r fc : frame fc (demoteProvider i t r fc).
Proof.
  unfold demoteProvider. set (fc1 := on_provider i (set_okCount 0) fc).
  transitivity fc1; [solve_frame|]. cbv zeta.
  match goal with |- frame _ (count_demotion _ _ ?x) => transitivity x; [apply frame_setProviderState|split; done] end.
Qed.

Lemma frame_promote i fc : frame fc (promoteProvider i fc).
Proof.
  unfold promoteProvider. etransitivity; [|apply frame_setProviderState].
  transitivity (on_provider i (set_okCount 0) fc); solve_frame.
Qed.

Lemma frame_range i o l fc : frame fc (updateProviderRange i o l fc).
Proof.
  unfold updateProviderRange. transitivity (if 0 <? o then on_provider i (set_oldest o) fc else fc).
  { destruct (0 <? o); solve_frame. }
  cbv zeta. generalize (if 0 <? o then on_provider i (set_oldest o) fc else fc). intros fc1.
  destruct (0 <? l); [|done]. transitivity (on_provider i (set_latest l) fc1); [solve_frame|].
  destruct (_ <=? _) eqn:E; [done|]. split; try done. cbn in *. to_prop. lia.
Qed.

Lemma frame_recordError i e fc : frame fc (recordError i e fc).
Proof.
  unfold recordError. destruct (IsLedgerOutOfRange _); [done|]. destruct (negb _); [done|]. cbv zeta.
  match goal with |- frame _ (if _ then demoteProvider _ _ _ ?x else _) => transitivity x end.
  { transitivity (on_provider i (set_okCount 0) fc); solve_frame. }
  destruct (_ && _)%bool; [apply frame_demote|]. destruct (_ && _)%bool; [apply frame_demote|done].
Qed.

(** ** Well-formed clients *)

(** A rejected provider is down and never verified; recorded heads are below the
    highest observed head; probation counts stay below the threshold and are
    zero for an active provider. *)
Record pwf (cfg : FailoverConfig) (head : Z) (p : provider) : Prop := {
  pw_invalid : p_networkInvalid p = true -> p_state p = StateDown;
  pw_verified : p_networkVerified p = true -> p_networkInvalid p = false;
  pw_latest : 0 <= p_latestLedger p <= head;
  pw_ok : 0 <= p_okCount p /\ (p_okCount p = 0 \/ p_okCount p < i32 (probationSuccesses cfg));
  pw_active : p_state p = StateActive -> p_okCount p = 0 }.

Record fc_wf (fc : FailoverClient) : Prop := {
  wf_providers : Forall (pwf (fc_config fc) (fc_maxObservedHead fc)) (fc_providers fc);
  wf_last : forall i, fc_lastActive fc = Some i -> (i < length (fc_providers fc))%nat;
  wf_reanchor : 0 <= fc_reanchorLedger fc <= fc_cursorLedger fc }.

(** Provider [i] exists and is not rejected. *)
Definition ready (i : nat) (fc : FailoverClient) : Prop :=
  fc_wf fc /\ (i < length (fc_providers fc))%nat /\ p_networkInvalid (prov fc i) = false.

Lemma wf_prov fc i : fc_wf fc -> (i < length (fc_providers fc))%nat ->
  pwf (fc_config fc) (fc_maxObservedHead fc) (prov fc i).
Proof.
  intros H Hi. destruct (lookup_lt_is_Some_2 _ _ Hi) as [p Hp]. unfold prov.
  rewrite (list_lookup_total_correct _ _ _ Hp). eapply Forall_lookup_1; [apply H|exact Hp].
Qed.

Lemma wf_on_provider i f fc : fc_wf fc ->
  ((i < length (fc_providers fc))%nat -> pwf (fc_config fc) (fc_maxObservedHead fc) (f (prov fc i))) ->
  fc_wf (on_provider i f fc).
Proof.
  intros Hwf Hf. split; cbn.
  - apply Forall_lookup. intros j p Hj. destruct (decide (i = j)) as [<-|Hne].
    + rewrite list_lookup_alter_eq in Hj. destruct (fc_providers fc !! i) as [q|] eqn:E; [|done].
      cbn in Hj. injection Hj as <-. rewrite <- (list_lookup_total_correct _ _ _ E).
      apply Hf. by eapply lookup_lt_Some.
    + rewrite list_lookup_alter_ne in Hj by done. by eapply Forall_lookup_1; [apply Hwf|].
  - intros j Hj. rewrite length_alter. by apply Hwf.
  - apply Hwf.
Qed.

Lemma ready_on_provider i f fc : ready i fc ->
  p_networkInvalid (f (prov fc i)) = false -> pwf (fc_config fc) (fc_maxObservedHead fc) (f (prov fc i)) ->
  ready i (on_provider i f fc).
Proof.
  intros (Hwf & Hi & Hinv) Hf Hp. split; [by apply wf_on_provider|]. split; [by cbn; rewrite length_alter|].
  by rewrite prov_alter_eq.
Qed.

Lemma pwf_ok0 cfg h p : pwf cfg h p -> pwf cfg h (set_okCount 0 p).
Proof. intros []. split; cbn; auto. lia. Qed.
Lemma pwf_err cfg h p n : pwf cfg h p -> pwf cfg h (set_errCount n p).
Proof. intros []. split; cbn; auto. Qed.
Lemma pwf_oldest cfg h p n : pwf cfg h p -> pwf cfg h (set_oldest n p).
Proof. intros []. split; cbn; auto. Qed.
Lemma pwf_unsupported cfg h p : pwf cfg h p -> pwf cfg h (set_unsupported p).
Proof. intros []. split; cbn; auto. Qed.
Lemma pwf_down cfg h p : pwf cfg h p -> pwf cfg h (set_state StateDown p).
Proof. intros []. split; cbn; auto. done. Qed.
Lemma pwf_state0 cfg h p s : pwf cfg h p -> p_networkInvalid p = false -> p_okCount p = 0 -> pwf cfg h (set_state s p).
Proof. intros [] H H0. split; cbn; auto. congruence. Qed.

#[export] Hint Resolve pwf_ok0 pwf_err pwf_oldest pwf_unsupported pwf_down wf_prov : sorotrail.

Lemma wf_count i r fc : fc_wf fc -> fc_wf (count_demotion i r fc).
Proof. intros []. by split. Qed.

(** Setting the state to a target that is allowed for the provider. *)
Lemma wf_demote i t r fc : fc_wf fc -> p_networkInvalid (prov fc i) = false \/ t = StateDown ->
  fc_wf (demoteProvider i t r fc).
Proof.
  intros Hwf Ht. unfold demoteProvider. cbv zeta. apply wf_count.
  assert (H1 : fc_wf (on_provider i (set_okCount 0) fc)) by (apply wf_on_provider; auto with sorotrail).
  apply wf_on_provider; [done|]. intros Hi. cbn in Hi. rewrite length_alter in Hi.
  rewrite !prov_alter_eq by done.
  cbn [fc_config fc_maxObservedHead on_provider with_providers].
  destruct Ht as [Ht| ->].
  - apply pwf_state0; [apply pwf_ok0; by apply wf_prov|done|done].
  - rewrite bool_decide_false by (intros [_ ?]; done). apply pwf_down, pwf_ok0. by apply wf_prov.
Qed.

Lemma ready_promote i fc : ready i fc -> fc_wf (promoteProvider i fc).
Proof.
  intros Hr. unfold promoteProvider, setProviderState.
  assert (H1 : ready i (on_provider i (set_okCount 0) fc)).
  { destruct Hr as (Hwf & Hi & Hinv). apply ready_on_provider; [done|done|auto with sorotrail]. }
  assert (Hok : p_okCount (prov (on_provider i (set_okCount 0) fc) i) = 0).
  { by rewrite prov_alter_eq by apply Hr. }
  destruct H1 as (Hwf & Hi & Hinv). apply wf_on_provider.
  - apply wf_on_provider; auto with sorotrail.
  - intros _. rewrite prov_alter_eq by done.
    apply pwf_state0; [|done|done]. apply pwf_err. by apply (wf_prov (on_provider i (set_okCount 0) fc)).
Qed.

Lemma pwf_head cfg h h' p : h <= h' -> pwf cfg h p -> pwf cfg h' p.
Proof. intros Hh []. split; auto. lia. Qed.

(** Learning a ledger range touches nothing else of the provider. *)
Lemma range_state i o l fc : (i < length (fc_providers fc))%nat ->
  let p := prov (updateProviderRange i o l fc) i in
  p_state p = p_state (prov fc i) /\ p_okCount p = p_okCount (prov fc i) /\
  p_networkVerified p = p_networkVerified (prov fc i) /\ p_networkInvalid p = p_networkInvalid (prov fc i).
Proof.
  intros Hi. unfold updateProviderRange. cbv zeta.
  set (fc1 := if 0 <? o then on_provider i (set_oldest o) fc else fc).
  assert (H1 : (i < length (fc_providers fc1))%nat /\ p_state (prov fc1 i) = p_state (prov fc i) /\
    p_okCount (prov fc1 i) = p_okCount (prov fc i) /\ p_networkVerified (prov fc1 i) = p_networkVerified (prov fc i) /\
    p_networkInvalid (prov fc1 i) = p_networkInvalid (prov fc i)).
  { unfold fc1. destruct (0 <? o); [|done]. rewrite prov_alter_eq by done. cbn. by rewrite length_alter. }
  destruct H1 as (Hi1 & <- & <- & <- & <-). destruct (0 <? l); [|done].
  match goal with |- context [prov (if ?b then ?x else with_maxHead l ?x) i] =>
    replace (prov (if b then x else with_maxHead l x) i) with (prov x i) by (by destruct b) end.
  by rewrite prov_alter_eq.
Qed.

Lemma wf_maxHead h fc : fc_wf fc -> fc_maxObservedHead fc <= h -> fc_wf (with_maxHead h fc).
Proof. intros [] Hh. split; cbn; try done. eapply list.Forall_impl; [done|]. intros p. by apply pwf_head. Qed.

Lemma wf_range i o l fc : fc_wf fc -> (i < length (fc_providers fc))%nat -> fc_wf (updateProviderRange i o l fc).
Proof.
  intros Hwf Hi. unfold updateProviderRange. cbv zeta.
  assert (H1 : fc_wf (if 0 <? o then on_provider i (set_oldest o) fc else fc)).
  { destruct (0 <? o); [|done]. apply wf_on_provider; auto with sorotrail. }
  revert H1. generalize (if 0 <? o then on_provider i (set_oldest o) fc else fc). clear fc Hwf Hi. intros fc Hwf.
  destruct (0 <? l) eqn:El; [|done]. to_prop. cbn.
  (** the head is raised before the provider's entry here, with the same result *)
  replace (if l <=? fc_maxObservedHead fc then _ else _)
    with (on_provider i (set_latest l) (if l <=? fc_maxObservedHead fc then fc else with_maxHead l fc))
    by (by destruct (l <=? _)).
  set (fc1 := if l <=? fc_maxObservedHead fc then fc else with_maxHead l fc).
  assert (H1 : fc_wf fc1 /\ l <= fc_maxObservedHead fc1).
  { unfold fc1. destruct (l <=? _) eqn:E; to_prop; [done|]. split; [apply wf_maxHead; [done|lia]|cbn; lia]. }
  destruct H1 as [Hwf1 Hl1]. apply wf_on_provider; [done|]. intros Hi.
  destruct (wf_prov fc1 i Hwf1 Hi). split; cbn; auto. lia.
Qed.

Lemma ready_range i o l fc : ready i fc -> ready i (updateProviderRange i o l fc).
Proof.
  intros (Hwf & Hi & Hinv). split; [by apply wf_range|]. split.
  - by rewrite (frame_length _ _ (frame_range i o l fc)).
  - destruct (range_state i o l fc Hi) as (_ & _ & _ & ->). done.
Qed.

Lemma promote_absorb i n fc : promoteProvider i (on_provider i (set_okCount n) fc) = promoteProvider i fc.
Proof.
  unfold promoteProvider, setProviderState, on_provider, with_providers. cbn. f_equal.
  rewrite !list_alter_alter_eq. by apply list_alter_ext.
Qed.

(** One more success of a provider in probation. *)
Lemma wf_probation i fc : ready i fc -> p_state (prov fc i) <> StateActive ->
  let ok := i32 (p_okCount (prov fc i) + 1) in
  let fc' := on_provider i (set_okCount ok) fc in
  fc_wf (if i32 (probationSuccesses (fc_config fc')) <=? ok then promoteProvider i fc' else fc').
Proof.
  intros (Hwf & Hi & Hinv) Hs. cbn. destruct (_ <=? _) eqn:E; to_prop.
  - rewrite promote_absorb. by apply ready_promote.
  - apply wf_on_provider; [done|]. intros _. destruct (wf_prov fc i Hwf Hi). split; cbn; auto; [|done].
    assert (i32 (p_okCount (prov fc i) + 1) = p_okCount (prov fc i) + 1) as Hid.
    { unfold i32, wraps in *. rewrite Z.mod_small; [lia|].
      pose proof (Z.mod_pos_bound (probationSuccesses (fc_config fc) + 2 ^ (32 - 1)) (2 ^ 32) ltac:(lia)). lia. }
    rewrite Hid in *. lia.
Qed.

Lemma wf_lastActive i fc : ready i fc -> ready i (with_lastActive i (with_allDown 0 0 fc)).
Proof. intros (Hwf & Hi & Hinv). split; [|done]. destruct Hwf. split; [done| |done]. cbn. intros j [= <-]. done. Qed.

Lemma wf_recordSuccess i fc : ready i fc -> fc_wf (recordSuccess i fc).
Proof.
  intros Hr. unfold recordSuccess. replace (p_networkInvalid _) with false by (symmetry; apply Hr). cbv zeta.
  assert (H1 : ready i (with_lastActive i (with_allDown 0 0 (on_provider i (set_errCount 0) fc)))).
  { apply wf_lastActive. destruct Hr as (? & ? & ?). apply ready_on_provider; [done|done|auto with sorotrail]. }
  revert H1. generalize (with_lastActive i (with_allDown 0 0 (on_provider i (set_errCount 0) fc))).
  clear fc Hr. intros fc Hr. case_bool_decide as E; [|by apply Hr].
  apply wf_probation; [done|]. by destruct E as [-> | ->].
Qed.

Lemma wf_recordError i e fc : fc_wf fc -> fc_wf (recordError i e fc).
Proof.
  intros Hwf. unfold recordError. destruct (IsLedgerOutOfRange _); [done|]. destruct (negb _); [done|]. cbv zeta.
  match goal with |- fc_wf (if _ then demoteProvider _ _ _ ?x else _) => assert (H1 : fc_wf x) end.
  { apply wf_on_provider; [|intros; apply pwf_err; apply wf_prov; [|done]];
      apply wf_on_provider; auto with sorotrail. }
  revert H1. match goal with |- fc_wf ?x -> _ => generalize x end. intros fc1 Hwf1.
  destruct (_ && _)%bool eqn:E1; to_prop.
  - apply wf_demote; [done|]. left. destruct (decide (i < length (fc_providers fc1))%nat) as [Hi|Hi].
    + pose proof (pw_invalid _ _ _ (wf_prov fc1 i Hwf1 Hi)) as Hd.
      destruct (p_networkInvalid (prov fc1 i)); [|done]. specialize (Hd eq_refl). congruence.
    + unfold prov. rewrite list_lookup_total_alt, lookup_ge_None_2 by lia. done.
  - clear E1. destruct (_ && _)%bool; [|done]. apply wf_demote; auto.
Qed.

(** *** Selection *)

(** [first_in] finds the first provider that is not excluded, not rejected and
    in the given state. *)
Lemma first_in_Some s ex ps : forall k i, first_in s ex k ps = Some i ->
  (k <= i < k + length ps)%nat /\ i ∉ ex /\ p_networkInvalid (ps !!! (i - k)%nat) = false /\
  p_state (ps !!! (i - k)%nat) = s /\
  forall j, (k <= j < i)%nat -> j ∈ ex \/ p_networkInvalid (ps !!! (j - k)%nat) = true \/ p_state (ps !!! (j - k)%nat) <> s.
Proof.
  induction ps as [|p ps IH]; intros k i H; [done|]. cbn [first_in length] in *.
  assert (Hskip : (k ∈ ex \/ p_networkInvalid p = true \/ p_state p <> s) -> first_in s ex (S k) ps = Some i ->
    (k <= i < k + S (length ps))%nat /\ i ∉ ex /\ p_networkInvalid ((p :: ps) !!! (i - k)%nat) = false /\
    p_state ((p :: ps) !!! (i - k)%nat) = s /\
    forall j, (k <= j < i)%nat ->
      j ∈ ex \/ p_networkInvalid ((p :: ps) !!! (j - k)%nat) = true \/ p_state ((p :: ps) !!! (j - k)%nat) <> s).
  { intros Hp Hf. apply IH in Hf as (Hr & Hex & Hinv & Hs & Hj).
    replace (i - k)%nat with (S (i - S k)) by lia. split; [lia|]. split; [done|]. split; [done|]. split; [done|].
    intros j Hjr. destruct (decide (j = k)) as [->|Hne]; [by rewrite Nat.sub_diag|].
    replace (j - k)%nat with (S (j - S k)) by lia. apply Hj. lia. }
  case_bool_decide; [auto|]. destruct (p_networkInvalid p) eqn:Ei; [auto|].
  case_bool_decide; [|auto]. injection H as <-. rewrite Nat.sub_diag. repeat split; try done; try lia.
Qed.

Lemma first_in_None s ex ps : forall k, first_in s ex k ps = None ->
  forall j, (k <= j < k + length ps)%nat ->
    j ∈ ex \/ p_networkInvalid (ps !!! (j - k)%nat) = true \/ p_state (ps !!! (j - k)%nat) <> s.
Proof.
  induction ps as [|p ps IH]; intros k H j Hj; [cbn in *; lia|]. cbn [first_in length] in *.
  destruct (decide (j = k)) as [->|Hne].
  - rewrite Nat.sub_diag. cbn. case_bool_decide; [auto|]. destruct (p_networkInvalid p); [auto|].
    case_bool_decide; [done|auto].
  - replace (j - k)%nat with (S (j - S k)) by lia. apply IH; [|lia].
    case_bool_decide; [done|]. destruct (p_networkInvalid p); [done|]. by case_bool_decide.
Qed.

Lemma getActive_Some ex fc i : getActiveExcluding ex fc = Some i ->
  (i < length (fc_providers fc))%nat /\ i ∉ ex /\ p_networkInvalid (prov fc i) = false /\ p_state (prov fc i) <> StateDown.
Proof.
  unfold getActiveExcluding, prov. destruct (first_in StateActive _ _ _) eqn:E; intros H; simplify_eq.
  - apply first_in_Some in E as (? & ? & Hi & Hs & _). rewrite Nat.sub_0_r in *. rewrite Hs. repeat split; done || lia.
  - apply first_in_Some in H as (? & ? & Hi & Hs & _). rewrite Nat.sub_0_r in *. rewrite Hs. repeat split; done || lia.
Qed.

Lemma verified_after i s fc : ready i fc -> p_state (prov fc i) = s ->
  ready i (on_provider i set_verified fc) /\
  (expectedPassphrase (fc_config (on_provider i set_verified fc)) = "" \/
   p_networkVerified (prov (on_provider i set_verified fc) i) = true) /\
  p_state (prov (on_provider i set_verified fc) i) = s.
Proof.
  intros (Hwf & Hi & Hinv) Hs. split; [|by rewrite prov_alter_eq; auto].
  apply ready_on_provider; [done|done|]. destruct (wf_prov fc i Hwf Hi). by split.
Qed.

(** A rejection marks the provider and takes it down in one go. *)
Lemma rejected_after i r fc : ready i fc -> p_networkVerified (prov fc i) = false ->
  fc_wf (demoteProvider i StateDown r (on_provider i set_invalid fc)).
Proof.
  intros (Hwf & Hi & Hinv) Hv. unfold demoteProvider. cbv zeta. rewrite bool_decide_false by (intros [_ ?]; done).
  apply wf_count. unfold setProviderState.
  replace (on_provider i _ (on_provider i _ (on_provider i _ fc)))
    with (on_provider i (set_state StateDown ∘ set_okCount 0 ∘ set_invalid) fc).
  - apply wf_on_provider; [done|]. intros _. destruct (wf_prov fc i Hwf Hi). split; cbn; auto; try congruence. lia.
  - unfold on_provider, with_providers. cbn. f_equal. by rewrite !list_alter_alter_eq.
Qed.

(** A provider that may be selected: it exists, and it is neither excluded nor
    rejected. *)
Definition usable (ex : gset nat) (fc : FailoverClient) (i : nat) : Prop :=
  (i < length (fc_providers fc))%nat /\ i ∉ ex /\ p_networkInvalid (prov fc i) = false.

(** The provider selected is usable, active when any usable provider
    is active and degraded otherwise, and the first of its state in priority
    order; none is selected only when every usable provider is down. *)
Theorem selection_priority ex fc :
  match getActiveExcluding ex fc with
  | Some i => usable ex fc i /\ p_state (prov fc i) <> StateDown /\
      (forall j, usable ex fc j -> p_state (prov fc j) = StateActive -> p_state (prov fc i) = StateActive /\ (i <= j)%nat) /\
      (forall j, usable ex fc j -> p_state (prov fc j) = StateDegraded -> p_state (prov fc i) = StateActive \/ (i <= j)%nat)
  | None => forall j, usable ex fc j -> p_state (prov fc j) = StateDown
  end.
Proof.
  unfold getActiveExcluding, usable, prov. destruct (first_in StateActive _ _ _) as [i|] eqn:Ea.
  - apply first_in_Some in Ea as (Hr & Hex & Hinv & Hs & Hmin). rewrite Nat.sub_0_r in *.
    split; [split; [lia|done]|]. split; [by rewrite Hs|]. split; [|auto]. intros j (Hj & Hjex & Hjinv) Hjs. split; [done|].
    destruct (decide (j < i)%nat) as [Hlt|]; [|lia]. specialize (Hmin j ltac:(lia)). rewrite Nat.sub_0_r in Hmin.
    exfalso. by destruct Hmin as [?|[?|?]]; congruence || contradiction.
  - pose proof (first_in_None _ _ _ _ Ea) as Hna. destruct (first_in StateDegraded _ _ _) as [i|] eqn:Ed.
    + apply first_in_Some in Ed as (Hr & Hex & Hinv & Hs & Hmin). rewrite Nat.sub_0_r in *.
      split; [split; [lia|done]|]. split; [by rewrite Hs|]. split; intros j (Hj & Hjex & Hjinv) Hjs.
      * specialize (Hna j ltac:(lia)). rewrite Nat.sub_0_r in Hna.
        exfalso. by destruct Hna as [?|[?|?]]; congruence || contradiction.
      * right. destruct (decide (j < i)%nat) as [Hlt|]; [|lia]. specialize (Hmin j ltac:(lia)). rewrite Nat.sub_0_r in Hmin.
        exfalso. by destruct Hmin as [?|[?|?]]; congruence || contradiction.
    + intros j (Hj & Hjex & Hjinv). specialize (Hna j ltac:(lia)). pose proof (first_in_None _ _ _ _ Ed j ltac:(lia)) as Hnd.
      rewrite Nat.sub_0_r in Hna, Hnd. destruct Hna as [?|[?|?]]; try (congruence || contradiction).
      destruct Hnd as [?|[?|?]]; try (congruence || contradiction). by destruct (p_state (fc_providers fc !!! j)).
Qed.

(** ** Divergence detection *)

(** What two observations of one event must share: the fields that a response
    always has, and the payload in every format both responses carry. *)
Definition agree_if_set (a b : string) : Prop := a = "" \/ b = "" \/ a = b.

Record same_event (prev cur : observedEvent) : Prop := {
  se_ledger : ob_ledger prev = ob_ledger cur;
  se_contract : ob_contractID prev = ob_contractID cur;
  se_type : ob_eventType prev = ob_eventType cur;
  se_tx : ob_txHash prev = ob_txHash cur;
  se_value : agree_if_set (ob_value prev) (ob_value cur);
  se_topic : agree_if_set (ob_topicDigest prev) (ob_topicDigest cur);
  se_valueJSON : agree_if_set (ob_valueJSON prev) (ob_valueJSON cur);
  se_topicJSON : agree_if_set (ob_topicJSON prev) (ob_topicJSON cur) }.

Lemma both_set_differ_spec a b : both_set_differ a b = false <-> agree_if_set a b.
Proof.
  unfold both_set_differ, agree_if_set. repeat case_bool_decide; cbn; naive_solver.
Qed.

Lemma compareObservedEvents_spec prev cur : compareObservedEvents prev cur = "" <-> same_event prev cur.
Proof.
  unfold compareObservedEvents. split.
  - destruct (ob_ledger prev =? ob_ledger cur) eqn:E1; [|discriminate]. cbn [negb].
    case_bool_decide as E2; [|discriminate]. case_bool_decide as E3; [|discriminate].
    case_bool_decide as E4; [|discriminate]. cbn [negb].
    destruct (both_set_differ (ob_value prev) _) eqn:E5; [discriminate|].
    destruct (both_set_differ (ob_topicDigest prev) _) eqn:E6; [discriminate|].
    destruct (both_set_differ (ob_valueJSON prev) _) eqn:E7; [discriminate|].
    destruct (both_set_differ (ob_topicJSON prev) _) eqn:E8; [discriminate|].
    intros _. to_prop. split; try done; by apply both_set_differ_spec.
  - intros []. rewrite (proj2 (Z.eqb_eq _ _)) by done. rewrite !bool_decide_true by done. cbn [negb].
    by rewrite !(proj2 (both_set_differ_spec _ _)) by done.
Qed.

Lemma first_mismatch_None k got want : first_mismatch k got want = None <->
  got `prefix_of` want \/ want `prefix_of` got.
Proof.
  revert k want. induction got as [|g got IH]; intros k [|w want]; cbn.
  - split; [by left|done].
  - split; [intros _; left; apply prefix_nil|done].
  - split; [intros _; right; apply prefix_nil|done].
  - case_bool_decide as E; cbn.
    + subst w. rewrite IH. split; (intros [H|H]; [left|right]); try by apply prefix_cons.
      * by apply prefix_cons_inv_2 in H.
      * by apply prefix_cons_inv_2 in H.
    + split; [done|]. intros [H|H]; apply prefix_cons_inv_1 in H; congruence.
Qed.

Lemma first_some_None {A B} (f : A -> option B) l : first_some f l = None <-> forall a, a ∈ l -> f a = None.
Proof.
  induction l as [|a l IH]; cbn; [split; [intros _ a Ha; by apply not_elem_of_nil in Ha|done]|].
  destruct (f a) eqn:E.
  - split; [done|]. intros H. specialize (H a (list_elem_of_here _ _)). congruence.
  - rewrite IH. split; intros H b Hb; [|apply H; by right]. apply elem_of_cons in Hb as [->|Hb]; auto.
Qed.

Lemma elem_of_ledgers l evs : l ∈ ledgers_of evs <-> l ∈ re_Ledger <$> evs.
Proof.
  induction evs as [|ev evs IH]; cbn; [done|]. rewrite !elem_of_cons, list_elem_of_filter, IH.
  destruct (decide (l = re_Ledger ev)); naive_solver.
Qed.

(** A page is consistent with what other providers have served before: known
    events agree, and in a page without a cursor the events of a known ledger
    come in the known order, with none missing unless the page ends there. *)
Record consistent (i : nat) (start : Z) (cursor : bool) (resp : GetEventsResponse) (fc : FailoverClient) : Prop := {
  cs_events : forall ev prev, ev ∈ resp_Events resp -> fc_observedByID fc !! re_ID ev = Some prev ->
    ob_providerIdx prev <> i -> same_event prev (buildObservedEvent i ev);
  cs_ledgers : cursor = false -> forall l prev, l ∈ re_Ledger <$> resp_Events resp -> start <= 0 \/ start <= l ->
    fc_observedByLgr fc !! l = Some prev -> op_providerIdx prev <> i ->
    op_eventIDs prev `prefix_of` ids_at l (resp_Events resp) \/
    (ids_at l (resp_Events resp) `prefix_of` op_eventIDs prev /\ resp_Cursor resp <> "" /\
     forall final, list.last (resp_Events resp) = Some final -> re_Ledger final <= l) }.

Lemma check_contents_None i fc evs : check_contents i fc evs = None <->
  forall ev prev, ev ∈ evs -> fc_observedByID fc !! re_ID ev = Some prev -> ob_providerIdx prev <> i ->
    same_event prev (buildObservedEvent i ev).
Proof.
  induction evs as [|ev evs IH]; cbn [check_contents].
  { split; [|done]. intros _ ev prev Hev. by apply not_elem_of_nil in Hev. }
  assert (Hcons : (forall prev, fc_observedByID fc !! re_ID ev = Some prev -> ob_providerIdx prev <> i ->
      same_event prev (buildObservedEvent i ev)) ->
    (check_contents i fc evs = None <->
     forall ev' prev, ev' ∈ ev :: evs -> fc_observedByID fc !! re_ID ev' = Some prev -> ob_providerIdx prev <> i ->
       same_event prev (buildObservedEvent i ev'))).
  { intros Hh. rewrite IH. split; intros H ev' prev Hev; [|apply H; by right].
    apply elem_of_cons in Hev as [->|Hev]; [apply Hh|by apply H]. }
  destruct (fc_observedByID fc !! re_ID ev) as [prev|] eqn:E; [|by apply Hcons].
  case_bool_decide as Ei; cbn [negb]; [apply Hcons; naive_solver|].
  case_bool_decide as Er; cbn [negb].
  - apply Hcons. intros prev' [= <-] _. by apply compareObservedEvents_spec.
  - split; [done|]. intros H. exfalso. apply Er, compareObservedEvents_spec. apply (H ev prev); auto. by left.
Qed.

Lemma check_ledger_None i fc start final resp l :
  check_ledger i fc start (re_Ledger final) resp l = None <->
  (start <= 0 \/ start <= l -> forall prev, fc_observedByLgr fc !! l = Some prev -> op_providerIdx prev <> i ->
    op_eventIDs prev `prefix_of` ids_at l (resp_Events resp) \/
    (ids_at l (resp_Events resp) `prefix_of` op_eventIDs prev /\ resp_Cursor resp <> "" /\ re_Ledger final <= l)).
Proof.
  unfold check_ledger. set (got := ids_at l (resp_Events resp)).
  destruct ((0 <? start) && (l <? start))%bool eqn:Es; [to_prop; split; [lia|done]|].
  assert (Hs : start <= 0 \/ start <= l) by (apply andb_false_iff in Es as [?|?]; to_prop; lia). clear Es.
  destruct (fc_observedByLgr fc !! l) as [prev|]; [|split; [naive_solver|done]].
  destruct (bool_decide (op_providerIdx prev = i) || bool_decide (op_eventIDs prev = []))%bool eqn:Ei.
  { split; [|done]. intros _ _ prev' [= <-] Hne. apply orb_true_iff in Ei as [Ei|Ei]; to_prop; [done|].
    left. rewrite Ei. apply prefix_nil. }
  apply orb_false_iff in Ei as [Ei _]. to_prop.
  destruct (first_mismatch 0 got (op_eventIDs prev)) as [[[k g] w]|] eqn:Em.
  - split; [done|]. intros H. destruct (H Hs prev eq_refl Ei) as [Hp|[Hp _]];
      assert (first_mismatch 0 got (op_eventIDs prev) = None) by (apply first_mismatch_None; auto); congruence.
  - apply first_mismatch_None in Em.
    destruct (Z.of_nat (length got) <? Z.of_nat (length (op_eventIDs prev))) eqn:El; cbn [andb]; to_prop.
    + assert (Hpre : ~ op_eventIDs prev `prefix_of` got) by (intros Hp; apply prefix_length in Hp; lia).
      destruct Em as [Em|Em]; [|done].
      destruct (re_Ledger final >? l) eqn:E1; rewrite Z.gtb_ltb in E1; rewrite E1; to_prop; cbn [orb].
      * split; [done|]. intros H. destruct (H Hs prev eq_refl Ei) as [?|(_ & _ & ?)]; [done|lia].
      * case_bool_decide as Ec; split; try done.
        -- intros H. destruct (H Hs prev eq_refl Ei) as [?|(_ & ? & _)]; done.
        -- intros _ _ prev' [= <-] _. right. repeat split; [done|done|lia].
    + split; [|done]. intros _ _ prev' [= <-] _. left. destruct Em as [Em|Em]; [|done].
      pose proof (prefix_length _ _ Em). assert (got = op_eventIDs prev) as ->; [|done].
      apply prefix_length_eq; [done|lia].
Qed.

(** The verdict, whatever the order in which the map is traversed. *)
Lemma checkAndRecord_consistent order i start cursor resp fc : (forall l, order l ≡ₚ l) ->
  ((checkAndRecordEvents order i start cursor resp fc).1 = None <-> consistent i start cursor resp fc).
Proof.
  intros Ho. unfold checkAndRecordEvents. destruct (list.last (resp_Events resp)) as [final|] eqn:El.
  2:{ apply last_None in El. split; [intros _|done]. split; rewrite El; [intros ev prev H|intros _ l prev H];
      by apply not_elem_of_nil in H. }
  set (found := match check_contents i fc (resp_Events resp) with Some d => Some d | None => _ end).
  transitivity (found = None); [by destruct found|]. unfold found.
  destruct (check_contents i fc (resp_Events resp)) as [d|] eqn:Ec.
  { split; [done|]. intros [H _]. apply check_contents_None in H. congruence. }
  pose proof (proj1 (check_contents_None i fc _) Ec) as He. destruct cursor; cbn [negb]; [by split|].
  rewrite first_some_None. split.
  - intros H. split; [exact He|]. intros _ l prev Hl Hs Hp Hne.
    assert (Hin : l ∈ order (ledgers_of (resp_Events resp))) by (rewrite (Ho _); by apply elem_of_ledgers).
    destruct (proj1 (check_ledger_None i fc start final resp l) (H l Hin) Hs prev Hp Hne) as [?|(? & ? & ?)]; [by left|].
    right. repeat split; try done. intros f' Hf'. rewrite El in Hf'. by injection Hf' as <-.
  - intros [_ H] l Hl. rewrite (Ho _) in Hl. apply elem_of_ledgers in Hl. apply check_ledger_None.
    intros Hs prev Hp Hne. destruct (H eq_refl l prev Hl Hs Hp Hne) as [?|(? & ? & Hf)]; [by left|].
    right. repeat split; try done. by apply Hf.
Qed.

(** A page is accepted and recorded exactly when it is consistent with
    what other providers served before; a divergent page leaves the record as it
    is and adds one divergence. The verdict does not depend on the order in which
    the runtime traverses the map of ledgers. *)
Theorem divergence_exact order i start cursor resp fc : (forall l, order l ≡ₚ l) ->
  let r := checkAndRecordEvents order i start cursor resp fc in
  (consistent i start cursor resp fc -> r = (None, if bool_decide (resp_Events resp = []) then fc
                                                   else record_events i (resp_Events resp) fc)) /\
  (~ consistent i start cursor resp fc -> exists d, r = (Some d, add_divergence d fc)).
Proof.
  intros Ho r. subst r. pose proof (checkAndRecord_consistent order i start cursor resp fc Ho) as H. revert H.
  unfold checkAndRecordEvents. destruct (list.last (resp_Events resp)) as [final|] eqn:El.
  - match goal with |- context [match ?x with Some d => (Some d, add_divergence d fc) | None => _ end] => destruct x as [d|] end; cbn.
    + intros H. split; [intros Hc; apply H in Hc; congruence|]. intros _. by exists d.
    + intros H. split; [|naive_solver]. intros _. rewrite bool_decide_false; [done|]. intros Hn. by rewrite Hn in El.
  - apply last_None in El. rewrite El. cbn. intros H. split; [by intros _|]. intros Hn. exfalso. apply Hn, H. done.
Qed.
