(* ===== verification/FailoverProps.v ===== *)
(** * Theorems about endpoint failover

    What the correctness gates of FailoverClient guarantee of a returned page,
    the invariant of its state over every history of calls, termination of the
    selection loops, the all-down backoff and recovery through probes. *)

From S2P Require Import Prelude GoStrings RpcTypes Retry Failover FailoverState.
From Stdlib Require Import Ascii String.
Local Open Scope Z_scope.
Local Open Scope go_scope.
Local Notation length := List.length.

(** ** Calls *)

(** Run the monad's operations. *)
Ltac run := unfold mbind, F_bind, mret, F_ret, fget, fmod, fenv; cbn.

Section Client.
Context {W : Type} `{!Providers W}.

#[local] Hint Resolve frame_demote frame_promote frame_range frame_recordError frame_setProviderState : frames.

Ltac frames :=
  respects_walk; try (apply respects_mod; intros fcx; first [solve_frame | by auto with frames]).

Lemma frame_verify i : respects frame (verifyProviderNetwork (W := W) i).
Proof. unfold verifyProviderNetwork, waitLimiter. frames. Qed.

Lemma frame_pick_loop fuel : forall ex lm, respects frame (pick_loop (W := W) fuel ex lm).
Proof.
  induction fuel as [|f IH]; intros ex lm; cbn [pick_loop]; frames; first [apply frame_verify | apply IH].
Qed.

Lemma frame_pick ex : respects frame (pickProviderExcluding (W := W) ex).
Proof. unfold pickProviderExcluding, allDownBackoff. frames. apply frame_pick_loop. Qed.

Lemma frame_call i req fmt : respects frame (callProviderGetEvents (W := W) i req fmt).
Proof. unfold callProviderGetEvents. frames. Qed.

(** The provider may receive traffic: it exists, it is not rejected, and its
    network has been checked when the configuration asks for it. *)
Definition eligible (i : nat) (fc : FailoverClient) : Prop :=
  ready i fc /\ (expectedPassphrase (fc_config fc) = "" \/ p_networkVerified (prov fc i) = true) /\
  p_state (prov fc i) <> StateDown.

Lemma verify_spec i s : triple (fun fc => ready i fc /\ p_state (prov fc i) = s) (verifyProviderNetwork (W := W) i)
  (fun r fc => match r with
               | None => ready i fc /\ (expectedPassphrase (fc_config fc) = "" \/ p_networkVerified (prov fc i) = true) /\
                         p_state (prov fc i) = s
               | Some _ => fc_wf fc
               end).
Proof.
  intros fc w [Hr Hs]. unfold verifyProviderNetwork, waitLimiter. run.
  replace (p_networkInvalid (prov fc i)) with false by (symmetry; apply Hr).
  destruct (_ || _)%bool eqn:Ev; cbn.
  { split; [done|]. split; [|done]. apply orb_true_iff in Ev as [Ev|Ev]; to_prop; auto. }
  apply orb_false_iff in Ev as [_ Ev].
  destruct (pv_GetNetwork i) as [getNetwork|]; cbn; [|by apply verified_after].
  destruct (pv_limiter i w) as [[e|] w1]; cbn; [apply Hr|].
  destruct (getNetwork w1) as [[info|e] w2]; cbn; [|apply wf_recordError, Hr].
  destruct (negb _); cbn; [|by apply verified_after]. by apply rejected_after.
Qed.

Lemma pick_loop_spec fuel : forall ex lm, triple fc_wf (pick_loop (W := W) fuel ex lm) (fun r fc =>
  fc_wf fc /\ match r with
              | Some (Ok (Some i), ex', _) => eligible i fc /\ i ∉ ex' /\ ex ⊆ ex'
              | Some (_, ex', _) => ex ⊆ ex'
              | None => True
              end).
Proof.
  induction fuel as [|f IH]; intros ex lm fc w Hwf; cbn [pick_loop]; run; [done|].
  destruct (getActiveExcluding ex fc) as [i|] eqn:Ea; cbn; [|done].
  apply getActive_Some in Ea as (Hi & Hex & Hinv & Hs).
  assert (Hr : ready i fc) by done.
  pose proof (verify_spec i (p_state (prov fc i)) fc w (conj Hr eq_refl)) as Hv.
  destruct (verifyProviderNetwork i fc w) as [[[e|] fc1] w1]; cbn in Hv |- *.
  - destruct (rerrors_Is _ _); [|split; [done|set_solver]]. specialize (IH ({[i]} ∪ ex) (Some e) fc1 w1 Hv).
    destruct (pick_loop f _ _ fc1 w1) as [[[[[[[j|]|e']ex']lm']|] fc2] w2]; cbn in *; set_solver.
  - destruct Hv as (Hr1 & He & Hs1). split; [apply Hr1|]. split; [|set_solver]. split; [done|]. by rewrite Hs1.
Qed.

(** Indices that are not excluded yet. *)
Definition remaining (n : nat) (ex : gset nat) : nat := size (list_to_set (seq 0 n) ∖ ex : gset nat).

Lemma remaining_le n ex : (remaining n ex <= n)%nat.
Proof.
  unfold remaining. etransitivity; [apply subseteq_size; apply subseteq_difference_l; reflexivity|].
  rewrite size_list_to_set by apply NoDup_seq. by rewrite length_seq.
Qed.

Lemma remaining_lt n ex ex' i : (i < n)%nat -> i ∉ ex -> ex ⊆ ex' -> i ∈ ex' ->
  (remaining n ex' < remaining n ex)%nat.
Proof.
  intros Hi Hex Hsub Hin. apply subset_size. split; [set_solver|]. intros Hs.
  assert (Hx : i ∈ (list_to_set (seq 0 n) ∖ ex : gset nat)).
  { apply elem_of_difference. split; [|done]. apply elem_of_list_to_set. apply elem_of_seq. lia. }
  apply Hs in Hx. set_solver.
Qed.

Lemma pick_loop_total fuel : forall ex lm fc w, (remaining (length (fc_providers fc)) ex < fuel)%nat ->
  (pick_loop fuel ex lm fc w).1.1 <> None.
Proof.
  induction fuel as [|f IH]; intros ex lm fc w Hf; [lia|]. cbn [pick_loop]. run.
  destruct (getActiveExcluding ex fc) as [i|] eqn:Ea; cbn; [|done].
  apply getActive_Some in Ea as (Hi & Hex & _).
  pose proof (frame_length _ _ (frame_verify i fc w)) as Hlen.
  destruct (verifyProviderNetwork i fc w) as [[[e|] fc1] w1]; cbn in Hlen |- *; [|done].
  destruct (rerrors_Is _ _); [|done]. apply IH. rewrite Hlen.
  pose proof (remaining_lt (length (fc_providers fc)) ex ({[i]} ∪ ex) i Hi Hex ltac:(set_solver) ltac:(set_solver)). lia.
Qed.

Lemma pick_loop_none n ex lm fc w : getActiveExcluding ex fc = None ->
  pick_loop (S n) ex lm fc w = (Some (Ok None, ex, lm), fc, w).
Proof. intros H. cbn [pick_loop]. run. by rewrite H. Qed.

#[local] Arguments pick_loop : simpl never.

Lemma wf_allDown c u fc : fc_wf fc -> fc_wf (with_allDown c u fc).
Proof. intros []. by split. Qed.

Lemma pick_spec ex : triple fc_wf (pickProviderExcluding (W := W) ex) (fun r fc =>
  fc_wf fc /\ match r with
              | Some (Ok i, ex') => eligible i fc /\ i ∉ ex' /\ ex ⊆ ex'
              | _ => True
              end).
Proof.
  intros fc w Hwf. unfold pickProviderExcluding, allDownBackoff. run.
  destruct (_ && _)%bool; cbn; [done|].
  pose proof (pick_loop_spec (S (length (fc_providers fc))) ex None _ w (wf_allDown (fc_allDownCount fc) 0 fc Hwf)) as H.
  destruct (pick_loop _ _ _ _ _) as [[[[[[[i|]|e] ex'] lm]|] fc1] w1]; cbn in H |- *; try done; [|by destruct H].
  destruct H as [H1 _]. destruct (_ && _)%bool; cbn; [done|].
  destruct (pv_rand _ w1) as [j1 w2]. cbn. destruct (pv_rand _ w2) as [j2 w3]. cbn. split; [|done]. by repeat apply wf_allDown.
Qed.

Lemma pick_total ex fc w : (pickProviderExcluding (W := W) ex fc w).1.1 <> None.
Proof.
  unfold pickProviderExcluding, allDownBackoff. run. destruct (_ && _)%bool; cbn; [done|].
  pose proof (pick_loop_total (S (length (fc_providers fc))) ex None (with_allDown (fc_allDownCount fc) 0 fc) w) as H.
  specialize (H ltac:(cbn; pose proof (remaining_le (length (fc_providers fc)) ex); lia)).
  destruct (pick_loop _ _ _ _ _) as [[[[[[[i|]|e] ex'] lm]|] fc1] w1]; cbn in H |- *; try done.
  destruct (_ && _)%bool; cbn; [done|].
  destruct (pv_rand _ w1) as [j1 w2]. cbn. by destruct (pv_rand _ w2) as [j2 w3].
Qed.

(** *** The answer of a provider *)

Lemma eligible_alter i f fc : eligible i fc -> (forall p, p_networkInvalid (f p) = p_networkInvalid p) ->
  (forall p, p_networkVerified (f p) = p_networkVerified p) -> (forall p, p_state (f p) = p_state p) ->
  pwf (fc_config fc) (fc_maxObservedHead fc) (f (prov fc i)) -> eligible i (on_provider i f fc).
Proof.
  intros ((Hwf & Hi & Hinv) & Hv & Hs) H1 H2 H3 Hp. split; [apply ready_on_provider; try done; by rewrite H1|].
  cbn. rewrite prov_alter_eq by done. by rewrite H2, H3.
Qed.

Lemma call_spec i req fmt fc w r fc' w' : eligible i fc -> callProviderGetEvents i req fmt fc w = (r, fc', w') ->
  eligible i fc' /\ exists fmt' w0 w1, pv_GetEvents i req fmt' w0 = (r, w1).
Proof.
  intros He. unfold callProviderGetEvents. run.
  assert (Hset : forall fc0, eligible i fc0 -> eligible i (on_provider i set_unsupported fc0)).
  { intros fc0 H0. apply eligible_alter; try done. apply pwf_unsupported, wf_prov; apply H0. }
  assert (Hend : forall (r0 : result rerror GetEventsResponse) fc0 w0, eligible i fc0 ->
    (let '(_, fc'0, w'0) := match pv_SupportsXDRJSON i w0 with
       | Some false => fun fc w => (tt, on_provider i set_unsupported fc, w)
       | _ => fun fc w => (tt, fc, w) end fc0 w0 in (r0, fc'0, w'0)) = (r, fc', w') -> r0 = r /\ eligible i fc').
  { intros r0 fc0 w0 H0. destruct (pv_SupportsXDRJSON i w0) as [[|]|]; intros [= <- <- <-]; auto. }
  destruct (pv_GetEvents i req _ w) as [[resp|e] w1] eqn:E1.
  - intros H. apply Hend in H as [<- H]; [|done]. split; [done|]. by eexists _, w, w1.
  - destruct (isXDRFormatRejected e).
    + destruct (pv_GetEvents i req "" w1) as [r2 w2] eqn:E2. intros H. apply Hend in H as [<- H]; [|auto].
      split; [done|]. by eexists _, w1, w2.
    + intros H. apply Hend in H as [<- H]; [|done]. split; [done|]. by eexists _, w, w1.
Qed.

Lemma max_ledger_spec evs ev : ev ∈ evs -> re_Ledger ev <= max_ledger evs.
Proof.
  unfold max_ledger.
  assert (Hmono : forall l m, m <= fold_left (fun m ev => if m <? re_Ledger ev then re_Ledger ev else m) l m).
  { induction l as [|x l IH]; intros m; cbn; [lia|].
    etransitivity; [|apply IH]. destruct (m <? re_Ledger x) eqn:E; to_prop; lia. }
  generalize 0. induction evs as [|x evs IH]; intros m Hin; [by apply not_elem_of_nil in Hin|].
  apply elem_of_cons in Hin as [<-|Hin]; cbn; [|by apply IH].
  etransitivity; [|apply Hmono]. destruct (m <? re_Ledger ev) eqn:E; to_prop; lia.
Qed.

Lemma advance_cursor_spec req resp fc : fc_wf fc ->
  let fc' := advance_cursor req resp fc in
  fc_wf fc' /\ fc_cursorLedger fc <= fc_cursorLedger fc' /\
  (forall ev, ev ∈ resp_Events resp -> 0 < re_Ledger ev -> re_Ledger ev <= fc_cursorLedger fc').
Proof.
  intros Hwf. unfold advance_cursor. cbv zeta.
  match goal with |- context [if 0 <? ?x then _ else _] => set (m := x) end.
  set (fc1 := if 0 <? m then SetCursorLedger m fc else fc).
  assert (Hm : forall ev, ev ∈ resp_Events resp -> 0 < re_Ledger ev -> re_Ledger ev <= m).
  { intros ev Hev Hpos. pose proof (max_ledger_spec _ _ Hev). unfold m.
    destruct (max_ledger (resp_Events resp) =? 0) eqn:E; to_prop; [lia|]. done. }
  assert (H1 : fc_wf fc1 /\ fc_cursorLedger fc <= fc_cursorLedger fc1 /\ (0 < m -> m <= fc_cursorLedger fc1)).
  { unfold fc1, SetCursorLedger. destruct (0 <? m) eqn:E; to_prop; [|done || (split; [done|]; lia)].
    destruct (m <=? fc_cursorLedger fc) eqn:E'; to_prop; [split; [done|lia]|].
    split; [|cbn; lia]. destruct Hwf. split; cbn in *; try done. lia. }
  destruct H1 as (Hwf1 & Hc & Hmax).
  assert (H2 : fc_wf (if hasCursor req then fc1 else with_reanchor 0 fc1)).
  { destruct (hasCursor req); [done|]. destruct Hwf1. split; cbn in *; try done. lia. }
  assert (H3 : fc_cursorLedger (if hasCursor req then fc1 else with_reanchor 0 fc1) = fc_cursorLedger fc1)
    by (by destruct (hasCursor req)).
  rewrite H3. split; [done|]. split; [done|]. intros ev Hev Hpos. specialize (Hm ev Hev Hpos). lia.
Qed.

Lemma recordSuccess_frame i fc : p_networkInvalid (prov fc i) = false ->
  frame (with_lastActive i (with_allDown 0 0 fc)) (recordSuccess i fc).
Proof.
  intros H. unfold recordSuccess. rewrite H. cbv zeta.
  set (fc1 := with_lastActive i (with_allDown 0 0 (on_provider i (set_errCount 0) fc))).
  transitivity fc1; [change fc1 with (on_provider i (set_errCount 0) (with_lastActive i (with_allDown 0 0 fc))); solve_frame|].
  case_bool_decide; [|done].
  match goal with |- frame _ (if _ then promoteProvider _ ?x else _) => transitivity x; [solve_frame|] end.
  destruct (_ <=? _); [apply frame_promote|done].
Qed.

Lemma record_events_byID i evs ev (m : gmap string observedEvent) : ev ∈ evs ->
  exists ev', ev' ∈ evs /\ re_ID ev' = re_ID ev /\
    fold_left (fun m ev => <[re_ID ev := buildObservedEvent i ev]> m) evs m !! re_ID ev = Some (buildObservedEvent i ev').
Proof.
  revert m. induction evs as [|x evs IH] using rev_ind; intros m Hin; [by apply not_elem_of_nil in Hin|].
  rewrite fold_left_app. cbn. destruct (decide (re_ID x = re_ID ev)) as [E|E].
  - exists x. split; [apply elem_of_app; right; by left|]. split; [done|]. rewrite E. apply lookup_insert_eq.
  - apply elem_of_app in Hin as [Hin|Hin]; [|by apply list_elem_of_singleton in Hin as ->].
    destruct (IH m Hin) as (ev' & H1 & H2 & H3). exists ev'. split; [apply elem_of_app; by left|]. split; [done|].
    by rewrite lookup_insert_ne.
Qed.

(** The gates a page of provider [i] has passed, and the client after it. *)
Record accepted (fc fc' : FailoverClient) (i : nat) (req : GetEventsRequest) (required : Z)
    (resp : GetEventsResponse) : Prop := {
  ac_head : 0 < required -> 0 < resp_LatestLedger resp -> required <= resp_LatestLedger resp;
  ac_oldest : hasCursor req = false -> 0 < req_StartLedger req -> resp_OldestLedger resp <= req_StartLedger req;
  ac_consistent : consistent i (req_StartLedger req) (hasCursor req) resp fc;
  ac_last : fc_lastActive fc' = Some i;
  ac_cursor : fc_cursorLedger fc <= fc_cursorLedger fc';
  ac_events : forall ev, ev ∈ resp_Events resp -> 0 < re_Ledger ev -> re_Ledger ev <= fc_cursorLedger fc';
  ac_recorded : forall ev, ev ∈ resp_Events resp -> exists ev', ev' ∈ resp_Events resp /\ re_ID ev' = re_ID ev /\
    fc_observedByID fc' !! re_ID ev = Some (buildObservedEvent i ev') }.

Lemma response_check_None i req required resp ps fc : response_check i req required resp ps fc = None ->
  (0 < required -> 0 < resp_LatestLedger resp -> required <= resp_LatestLedger resp) /\
  (hasCursor req = false -> 0 < req_StartLedger req -> resp_OldestLedger resp <= req_StartLedger req).
Proof.
  unfold response_check. intros H. cbv zeta in H. split_if; [done|]. rename E into E1. split_if; [done|]. rename E into E2.
  clear H. split.
  - intros H1 H2. apply andb_false_iff in E1 as [E1|E1]; to_prop; [|lia]. apply andb_false_iff in E1 as [?|?]; to_prop; lia.
  - intros H1 H2. rewrite H1 in E2. cbn in E2. apply andb_false_iff in E2 as [?|?]; to_prop; lia.
Qed.

Lemma response_check_Some i req required resp ps fc reason ps' :
  response_check i req required resp ps fc = Some (reason, ps') -> ps_excluded ps' = {[i]} ∪ ps_excluded ps.
Proof. unfold response_check. intros H. by repeat (split_if; simplify_eq). Qed.

Lemma select_check_Some i req required ps fc reason ps' :
  select_check i req required ps fc = Some (reason, ps') -> ps_excluded ps' = {[i]} ∪ ps_excluded ps.
Proof. unfold select_check. cbv zeta. intros H. by repeat (split_if; simplify_eq). Qed.

Lemma frame_checkAndRecord order i start cursor resp fc d fc' :
  checkAndRecordEvents order i start cursor resp fc = (Some d, fc') -> frame fc fc'.
Proof.
  unfold checkAndRecordEvents. destruct (list.last _); [|done].
  match goal with |- context [match ?x with Some d => (Some d, add_divergence d fc) | None => _ end] => destruct x end;
    intros [= <- <-]. by split.
Qed.

Lemma ready_observed i a b fc : ready i fc -> ready i (with_observed a b fc).
Proof. intros ([] & ? & ?). by split. Qed.

(** An accepted page is recorded. *)
Lemma checkAndRecord_ready order i start cursor resp fc r fc' : ready i fc ->
  checkAndRecordEvents order i start cursor resp fc = (r, fc') -> ready i fc' /\
  (r = None -> fc_cursorLedger fc' = fc_cursorLedger fc /\ fc_config fc' = fc_config fc /\
    forall ev, ev ∈ resp_Events resp -> exists ev', ev' ∈ resp_Events resp /\ re_ID ev' = re_ID ev /\
      fc_observedByID fc' !! re_ID ev = Some (buildObservedEvent i ev')).
Proof.
  intros Hr. unfold checkAndRecordEvents. destruct (list.last _) eqn:El.
  - match goal with |- context [match ?x with Some d => (Some d, add_divergence d fc) | None => _ end] => destruct x end;
      intros [= <- <-].
    + split; [|done]. destruct Hr as ([] & ? & ?). by split.
    + split; [by apply ready_observed|]. intros _. repeat split. intros ev Hev. cbn. by apply record_events_byID.
  - apply last_None in El. intros [= <- <-]. split; [done|]. intros _. repeat split. intros ev Hev.
    rewrite El in Hev. by apply not_elem_of_nil in Hev.
Qed.

Context `{!ProviderLaws W}.

Lemma consistent_frame i start cursor resp fc fc' : frame fc fc' ->
  consistent i start cursor resp fc' -> consistent i start cursor resp fc.
Proof.
  intros Hf [H1 H2]. split.
  - intros ev prev Hev Hp. apply H1; [done|]. by rewrite (fr_byID _ _ Hf).
  - intros Hc l prev Hl Hs Hp. apply H2; [done|done|done|]. by rewrite (fr_byLgr _ _ Hf).
Qed.

Lemma accepted_frame fc fc1 fc' i req required resp : frame fc fc1 ->
  accepted fc1 fc' i req required resp -> accepted fc fc' i req required resp.
Proof.
  intros Hf []. split; try done; [by eapply consistent_frame|]. by rewrite <- (fr_cursor _ _ Hf).
Qed.

(** What one turn leaves behind. [fc0] is the client when the provider is
    asked. *)
Definition turn_post (fc : FailoverClient) (req : GetEventsRequest) (required : Z) (ps : Passed)
    (t : turn) (fc' : FailoverClient) : Prop :=
  fc_wf fc' /\
  match t with
  | Continue ps' => frame fc fc' /\ exists i, (i < length (fc_providers fc))%nat /\ i ∉ ps_excluded ps /\
      ps_excluded ps ⊆ ps_excluded ps' /\ i ∈ ps_excluded ps'
  | Return (Ok resp) => exists i fc0 fmt w0 w1, frame fc fc0 /\ eligible i fc0 /\
      pv_GetEvents (W := W) i req fmt w0 = (Ok resp, w1) /\
      (hasCursor req = true -> fc_lastActive fc = None \/ fc_lastActive fc = Some i) /\
      accepted fc fc' i req required resp
  | Return (Err _) => True
  end.

Lemma accept_spec i req required resp ps fc w t fc' w' : ready i fc ->
  accept_page i req required resp ps fc w = (t, fc', w') ->
  fc_wf fc' /\ match t with
               | Continue ps' => frame fc fc' /\ ps_excluded ps' = {[i]} ∪ ps_excluded ps
               | Return (Ok resp') => resp' = resp /\ accepted fc fc' i req required resp
               | Return (Err _) => True
               end.
Proof.
  intros Hr. unfold accept_page. run.
  pose proof (ready_range i (resp_OldestLedger resp) (resp_LatestLedger resp) fc Hr) as Hr1.
  pose proof (frame_range i (resp_OldestLedger resp) (resp_LatestLedger resp) fc) as Hf1.
  revert Hr1 Hf1. generalize (updateProviderRange i (resp_OldestLedger resp) (resp_LatestLedger resp) fc).
  intros fc1 Hr1 Hf1.
  destruct (response_check i req required resp ps fc1) as [[reason ps']|] eqn:Erc.
  { intros [= <- <- <-]. split; [apply wf_demote; [apply Hr1|left; apply Hr1]|].
    split; [etransitivity; [exact Hf1|apply frame_demote]|by eapply response_check_Some]. }
  apply response_check_None in Erc as [Hhead Hold].
  destruct (checkAndRecordEvents _ i _ _ resp fc1) as [d fc2] eqn:Ecr.
  pose proof (checkAndRecord_ready _ _ _ _ _ _ _ _ Hr1 Ecr) as [Hr2 Hrec].
  destruct d as [d|]; intros [= <- <- <-].
  { split; [apply wf_demote; [apply Hr2|by right]|]. split; [|done].
    etransitivity; [exact Hf1|]. etransitivity; [by eapply frame_checkAndRecord|apply frame_demote]. }
  destruct (Hrec eq_refl) as (Hcur & _ & Hev).
  destruct (advance_cursor_spec req resp fc2 (proj1 Hr2)) as (Hwf3 & Hc3 & He3).
  set (fc3 := advance_cursor req resp fc2) in *.
  assert (Hsame : fc_providers fc3 = fc_providers fc2 /\ fc_observedByID fc3 = fc_observedByID fc2).
  { unfold fc3, advance_cursor, SetCursorLedger. cbv zeta. repeat case_match; done. }
  assert (Hr3 : ready i fc3).
  { split; [done|]. unfold prov. rewrite (proj1 Hsame). apply Hr2. }
  pose proof (recordSuccess_frame i fc3 (proj2 (proj2 Hr3))) as Hf4.
  split; [by apply wf_recordSuccess|]. split; [done|]. split; try done.
  - eapply consistent_frame; [exact Hf1|]. eapply checkAndRecord_consistent; [|by rewrite Ecr]. intros l. apply pv_range_perm.
  - rewrite (fr_last _ _ Hf4). done.
  - rewrite (fr_cursor _ _ Hf4). cbn. rewrite <- (fr_cursor _ _ Hf1), <- Hcur. done.
  - intros ev H1 H2. rewrite (fr_cursor _ _ Hf4). cbn. by apply He3.
  - intros ev H1. rewrite (fr_byID _ _ Hf4). cbn. rewrite (proj2 Hsame). by apply Hev.
Qed.

Lemma ask_spec i req fmt required ps fc w t fc' w' : eligible i fc ->
  ask_provider i req fmt required ps fc w = (t, fc', w') ->
  fc_wf fc' /\ match t with
               | Continue ps' => frame fc fc' /\ ps_excluded ps' = {[i]} ∪ ps_excluded ps
               | Return (Ok resp) => accepted fc fc' i req required resp /\
                   exists fmt' w0 w1, pv_GetEvents i req fmt' w0 = (Ok resp, w1)
               | Return (Err _) => True
               end.
Proof.
  intros He. unfold ask_provider, waitLimiter. run.
  destruct (pv_limiter i w) as [[e|] w2]; cbn; [intros [= <- <- <-]; split; [apply He|done]|].
  destruct (callProviderGetEvents i req fmt fc w2) as [[r fc2] w3] eqn:Ecall.
  pose proof (frame_call i req fmt fc w2) as Hf2. rewrite Ecall in Hf2. cbn in Hf2.
  destruct (call_spec _ _ _ _ _ _ _ _ He Ecall) as [He2 Hget].
  destruct r as [resp|e].
  - intros H. destruct (accept_spec _ _ _ _ _ _ _ _ _ _ (proj1 He2) H) as [Hwf Hpost]. split; [done|].
    destruct t as [[resp'|e]|ps']; [|done|].
    + destruct Hpost as [-> Hacc]. split; [by eapply accepted_frame|done].
    + destruct Hpost as [Hf3 Hex3]. split; [by etransitivity|done].
  - destruct (_ && _)%bool; intros [= <- <- <-].
    + split; [apply wf_demote; [apply He2|left; apply He2]|]. split; [etransitivity; [exact Hf2|apply frame_demote]|done].
    + split; [|done]. apply wf_recordError, He2.
Qed.

Lemma turn_spec req fmt required ps fc w t fc' w' : fc_wf fc ->
  getEvents_turn req fmt required ps fc w = (t, fc', w') ->
  exists t', t = Some t' /\ turn_post fc req required ps t' fc'.
Proof.
  intros Hwf. unfold getEvents_turn. run.
  pose proof (pick_spec (ps_excluded ps) fc w Hwf) as Hp. pose proof (pick_total (ps_excluded ps) fc w) as Ht.
  pose proof (frame_pick (ps_excluded ps) fc w) as Hf.
  destruct (pickProviderExcluding (ps_excluded ps) fc w) as [[[[[i|e] ex]|] fc1] w1]; cbn in Hp, Ht, Hf |- *; [| |done].
  2:{ intros [= <- <- <-]. eexists. split; [reflexivity|]. split; [apply Hp|done]. }
  clear Ht. destruct Hp as (Hwf1 & He & Hex & Hsub).
  pose proof (frame_length _ _ Hf) as Hlen.
  pose proof He as Hel. destruct He as [(_ & Hi & Hinv) _].
  assert (Hcont : forall ps' fc2, fc_wf fc2 -> frame fc1 fc2 -> ps_excluded ps' = {[i]} ∪ ex ->
    turn_post fc req required ps (Continue ps') fc2).
  { intros ps' fc2 H1 H2 H3. split; [done|]. split; [by etransitivity|]. exists i. rewrite H3. rewrite <- Hlen. set_solver. }
  set (ps1 := mkPassed ex (ps_behind ps) (ps_gap ps) (ps_divergence ps)).
  destruct (select_check i req required ps1 fc1) as [[reason ps']|] eqn:Es.
  { intros [= <- <- <-]. eexists. split; [reflexivity|]. apply Hcont; [apply wf_demote; auto|apply frame_demote|].
    by apply select_check_Some in Es. }
  destruct (foreign_cursor i req fc1) eqn:Efc.
  { intros H. assert (Hres : t = Some (Return (Err ErrFailoverReanchor)) /\ fc_wf fc').
    { destruct (0 <? fc_cursorLedger fc1) eqn:Ec; simplify_eq/=; [|done]. split; [done|]. destruct Hwf1. split; cbn; try done.
      to_prop. lia. }
    destruct Hres as [-> Hw]. eexists. split; [reflexivity|]. by split. }
  assert (Hcur : hasCursor req = true -> fc_lastActive fc = None \/ fc_lastActive fc = Some i).
  { intros Hc. rewrite <- (fr_last _ _ Hf). unfold foreign_cursor in Efc. rewrite Hc in Efc. cbn in Efc.
    destruct (fc_lastActive fc1) as [j|]; [|by left]. right. to_prop. congruence. }
  destruct (ask_provider i req fmt required ps1 fc1 w1) as [[t' fc2] w2] eqn:Ea. intros [= <- <- <-].
  destruct (ask_spec _ _ _ _ _ _ _ _ _ _ Hel Ea) as [Hwf2 Hpost]. exists t'. split; [done|].
  destruct t' as [[resp|e]|ps'].
  - destruct Hpost as [Hacc (fmt' & wa & wb & Hget)]. split; [done|]. exists i, fc1, fmt', wa, wb.
    repeat (split; [done|]). by eapply accepted_frame.
  - by split.
  - apply Hcont; naive_solver.
Qed.

(** ** The loop *)

Lemma loop_spec fuel : forall req fmt required ps fc w, fc_wf fc ->
  (remaining (length (fc_providers fc)) (ps_excluded ps) < fuel)%nat ->
  exists r fc' w', getEvents_loop fuel req fmt required ps fc w = (Some r, fc', w') /\
    turn_post fc req required ps (Return r) fc'.
Proof.
  induction fuel as [|f IH]; intros req fmt required ps fc w Hwf Hf; [lia|]. cbn [getEvents_loop].
  unfold mbind at 1, F_bind at 1.
  destruct (getEvents_turn req fmt required ps fc w) as [[t fc1] w1] eqn:Et.
  destruct (turn_spec _ _ _ _ _ _ _ _ _ Hwf Et) as (t' & -> & Hwf1 & Hpost).
  destruct t' as [r|ps']; [by exists r, fc1, w1|].
  destruct Hpost as [Hframe (i & Hi & Hex & Hsub & Hin)].
  destruct (IH req fmt required ps' fc1 w1 Hwf1) as (r & fc' & w' & Hrun & Hwf' & Hp).
  { rewrite (frame_length _ _ Hframe).
    pose proof (remaining_lt (length (fc_providers fc)) _ _ i Hi Hex Hsub Hin). lia. }
  exists r, fc', w'. split; [done|]. split; [done|]. destruct r as [resp|e]; [|done].
  destruct Hp as (j & fc0 & fmt' & wa & wb & H1 & H2 & H3 & H4 & H5). exists j, fc0, fmt', wa, wb.
  split; [by etransitivity|]. split; [done|]. split; [done|]. split.
  - intros Hc. rewrite <- (fr_last _ _ Hframe). by apply H4.
  - by eapply accepted_frame.
Qed.

Lemma GetEvents_spec req fmt fc w : fc_wf fc ->
  exists r fc' w', GetEvents req fmt fc w = (Some r, fc', w') /\
    turn_post fc (reanchored req fc) (requiredLedgerForRequest (reanchored req fc) fc) (mkPassed ∅ None None None) (Return r) fc'.
Proof.
  intros Hwf. unfold GetEvents. unfold mbind, F_bind, fget. apply loop_spec; [done|].
  pose proof (remaining_le (length (fc_providers fc)) ∅). cbn [ps_excluded]. lia.
Qed.


(** C34: GetEvents always returns, with a page or an error: every turn of
    its loop excludes one more provider, so it ends within the number of
    providers. *)
Theorem failover_GetEvents_returns req fmt fc w : fc_wf fc ->
  exists r fc' w', GetEvents req fmt fc w = (Some r, fc', w') /\ fc_wf fc'.
Proof. intros Hwf. destruct (GetEvents_spec req fmt fc w Hwf) as (r & fc' & w' & E & Hwf' & _). by exists r, fc', w'. Qed.

(** ** Histories *)

(** What no call ever takes back. *)
Record advances (fc fc' : FailoverClient) : Prop := {
  av_config : fc_config fc' = fc_config fc;
  av_urls : p_url <$> fc_providers fc' = p_url <$> fc_providers fc;
  av_cursor : fc_cursorLedger fc <= fc_cursorLedger fc';
  av_head : fc_maxObservedHead fc <= fc_maxObservedHead fc';
  av_invalid : forall i, p_networkInvalid (prov fc i) = true -> p_networkInvalid (prov fc' i) = true }.

#[local] Instance advances_preorder : PreOrder advances.
Proof. split; [by intros fc; split|]. intros a b c [] []. split; try congruence; eauto; lia. Qed.

Lemma frame_advances fc fc' : frame fc fc' -> advances fc fc'.
Proof. intros []. split; auto. lia. Qed.

Lemma respects_frame_advances {A} (m : F W A) : respects frame m -> respects advances m.
Proof. intros H fc w. apply frame_advances, H. Qed.

Lemma advances_recordSuccess i fc : advances fc (recordSuccess i fc).
Proof.
  destruct (p_networkInvalid (prov fc i)) eqn:E; [by unfold recordSuccess; rewrite E|].
  etransitivity; [|apply frame_advances, (recordSuccess_frame i fc E)]. by split.
Qed.

Lemma advances_setCursor l fc : advances fc (SetCursorLedger l fc).
Proof. unfold SetCursorLedger. destruct (l <=? _) eqn:E; [done|]. to_prop. split; try done. cbn. lia. Qed.

Lemma advances_cursor req resp fc : advances fc (advance_cursor req resp fc).
Proof.
  unfold advance_cursor. cbv zeta. match goal with |- context [if 0 <? ?m then _ else _] => generalize m end.
  intros m. assert (H : advances fc (if 0 <? m then SetCursorLedger m fc else fc)).
  { destruct (0 <? m); [apply advances_setCursor|done]. }
  destruct (hasCursor req); [done|]. etransitivity; [exact H|]. by split.
Qed.

Lemma advances_check order i start cursor resp fc : advances fc (checkAndRecordEvents order i start cursor resp fc).2.
Proof. unfold checkAndRecordEvents. repeat case_match; by split. Qed.

Lemma advances_accept i req required resp ps : respects advances (accept_page (W := W) i req required resp ps).
Proof.
  apply respects_bind; [exact _|apply respects_mod; intros fc; apply frame_advances, frame_range|].
  intros _ fc w. run. destruct (response_check _ _ _ _ _ _) as [[reason ps']|]; cbn; [apply frame_advances, frame_demote|].
  pose proof (advances_check (fun l => pv_range l w) i (req_StartLedger req) (hasCursor req) resp fc) as H.
  destruct (checkAndRecordEvents _ _ _ _ _ _) as [[d|] fc2]; cbn in H |- *; (etransitivity; [exact H|]).
  - apply frame_advances, frame_demote.
  - etransitivity; [apply advances_cursor|apply advances_recordSuccess].
Qed.

#[local] Hint Resolve frame_advances advances_recordSuccess advances_setCursor : frames.

Ltac adv := respects_walk; try (apply respects_mod; intros fcx; first
  [ solve [eauto with frames] | by split | apply frame_advances; solve_frame ]).

Lemma advances_GetEvents req fmt : respects advances (GetEvents (W := W) req fmt).
Proof.
  unfold GetEvents. adv. generalize (S (length (fc_providers a))). intros fuel.
  generalize (mkPassed ∅ None None None). induction fuel as [|f IH]; intros ps; cbn [getEvents_loop]; adv; [|apply IH].
  unfold getEvents_turn, ask_provider, waitLimiter.
  adv; first [apply respects_frame_advances, frame_pick | apply respects_frame_advances, frame_call | apply advances_accept].
Qed.

Lemma advances_delegate {A} (call : nat -> W -> result rerror A * W) learn :
  (forall i a fc, frame fc (learn i a fc)) -> respects advances (delegate call learn).
Proof.
  intros Hl. unfold delegate, pickProvider, waitLimiter. adv. apply respects_frame_advances, frame_pick.
Qed.

Lemma advances_GetNetwork : respects advances (GetNetwork (W := W)).
Proof. unfold GetNetwork, pickProvider, waitLimiter. adv. apply respects_frame_advances, frame_pick. Qed.

Lemma advances_probe : respects advances (probeDownProviders (W := W)).
Proof.
  unfold probeDownProviders. adv. generalize (seq 0 (length (fc_providers a))). intros l.
  induction l as [|i l IH]; cbn [probe_all]; adv; [|apply IH].
  unfold probe_one, waitLimiter. adv. apply respects_frame_advances, frame_verify.
Qed.

Lemma delegate_wf {A} (call : nat -> W -> result rerror A * W) learn :
  (forall i a fc, ready i fc -> ready i (learn i a fc)) -> triple fc_wf (delegate call learn) (fun _ => fc_wf).
Proof.
  intros Hl fc w Hwf. unfold delegate, pickProvider, waitLimiter. run.
  pose proof (pick_spec ∅ fc w Hwf) as Hp.
  destruct (pickProviderExcluding ∅ fc w) as [[[[[i|e] ex]|] fc1] w1]; cbn in Hp |- *; [|apply Hp|apply Hp].
  destruct Hp as (Hwf1 & (Hr & _) & _). destruct (pv_limiter i w1) as [[e|] w2]; cbn; [done|].
  destruct (call i w2) as [[a|e] w3]; cbn; [apply wf_recordSuccess; auto|by apply wf_recordError].
Qed.

Lemma GetNetwork_wf : triple fc_wf (GetNetwork (W := W)) (fun _ => fc_wf).
Proof.
  intros fc w Hwf. unfold GetNetwork, pickProvider, waitLimiter. run.
  pose proof (pick_spec ∅ fc w Hwf) as Hp.
  destruct (pickProviderExcluding ∅ fc w) as [[[[[i|e] ex]|] fc1] w1]; cbn in Hp |- *; [|apply Hp|apply Hp].
  destruct Hp as (Hwf1 & (Hr & _) & _). destruct (pv_GetNetwork i) as [call|]; cbn; [|done].
  destruct (pv_limiter i w1) as [[e|] w2]; cbn; [done|].
  destruct (call w2) as [[a|e] w3]; cbn; [by apply wf_recordSuccess|by apply wf_recordError].
Qed.

Lemma probe_one_wf i : triple (fun fc => fc_wf fc /\ (i < length (fc_providers fc))%nat) (probe_one (W := W) i)
  (fun _ => fc_wf).
Proof.
  intros fc w [Hwf Hi]. unfold probe_one, waitLimiter. run.
  case_bool_decide as Es; cbn; [|done]. destruct (p_networkInvalid (prov fc i)) eqn:Ei; cbn; [done|].
  assert (Hr : ready i fc) by done. pose proof (verify_spec i StateDown fc w (conj Hr Es)) as Hv.
  destruct (verifyProviderNetwork i fc w) as [[[e|] fc1] w1]; cbn in Hv |- *; [done|].
  destruct Hv as (Hr1 & _ & Hs1). destruct (pv_limiter i w1) as [[e|] w2]; cbn; [apply Hr1|].
  destruct (pv_GetHealth i w2) as [[h|e] w3]; cbn; [|apply Hr1].
  pose proof (ready_range i (h_OldestLedger h) (h_LatestLedger h) fc1 Hr1) as Hr2.
  pose proof (range_state i (h_OldestLedger h) (h_LatestLedger h) fc1 (proj1 (proj2 Hr1))) as [Hs2 _].
  revert Hr2 Hs2. generalize (updateProviderRange i (h_OldestLedger h) (h_LatestLedger h) fc1). intros fc2 Hr2 Hs2.
  destruct (_ && _ && _)%bool; cbn; [apply Hr2|].
  pose proof (wf_probation i fc2 Hr2 ltac:(congruence)) as Hp. cbn in Hp. destruct (_ <=? _); exact Hp.
Qed.

Lemma probe_wf : triple fc_wf (probeDownProviders (W := W)) (fun _ => fc_wf).
Proof.
  intros fc w Hwf. unfold probeDownProviders. run.
  assert (Hall : forall l fc w, fc_wf fc -> (forall i, i ∈ l -> (i < length (fc_providers fc))%nat) ->
    fc_wf (probe_all (W := W) l fc w).1.2).
  { clear fc w Hwf. induction l as [|i l IH]; intros fc w Hwf Hl; [done|]. cbn [probe_all]. run.
    pose proof (probe_one_wf i fc w (conj Hwf (Hl i (list_elem_of_here _ _)))) as H1.
    assert (Hlen : length (fc_providers (probe_one i fc w).1.2) = length (fc_providers fc)).
    { assert (Ha : respects advances (probe_one (W := W) i)).
      { unfold probe_one, waitLimiter. adv. apply respects_frame_advances, frame_verify. }
      specialize (Ha fc w). apply av_urls in Ha. apply (f_equal length) in Ha. by rewrite !length_fmap in Ha. }
    destruct (probe_one i fc w) as [[u fc1] w1]. cbn in *. apply IH; [done|].
    intros j Hj. rewrite Hlen. apply Hl. by right. }
  apply Hall; [done|]. intros i Hin. apply elem_of_seq in Hin. lia.
Qed.

(** One call on the client, or the world moving on by itself. *)
Inductive fstep : FailoverClient * W -> FailoverClient * W -> Prop :=
  | step_GetEvents req fmt fc w r fc' w' : GetEvents req fmt fc w = (r, fc', w') -> fstep (fc, w) (fc', w')
  | step_GetLatestLedger fc w r fc' w' : GetLatestLedger fc w = (r, fc', w') -> fstep (fc, w) (fc', w')
  | step_GetHealth fc w r fc' w' : GetHealth fc w = (r, fc', w') -> fstep (fc, w) (fc', w')
  | step_GetNetwork fc w r fc' w' : GetNetwork fc w = (r, fc', w') -> fstep (fc, w) (fc', w')
  | step_GetPlain A (call : nat -> W -> result rerror A * W) fc w r fc' w' :
      GetPlain call fc w = (r, fc', w') -> fstep (fc, w) (fc', w')
  | step_probe fc w u fc' w' : probeDownProviders fc w = (u, fc', w') -> fstep (fc, w) (fc', w')
  | step_SetCursorLedger l fc w : fstep (fc, w) (SetCursorLedger l fc, w)
  | step_SetProviderLedgerRange idx o l fc w : fstep (fc, w) (SetProviderLedgerRange idx o l fc, w)
  | step_world fc w w' : fstep (fc, w) (fc, w').

Lemma wf_setCursor l fc : fc_wf fc -> fc_wf (SetCursorLedger l fc).
Proof.
  intros Hwf. unfold SetCursorLedger. destruct (l <=? _) eqn:E; [done|]. to_prop. destruct Hwf. split; cbn; try done. lia.
Qed.

Lemma wf_setRange idx o l fc : fc_wf fc -> fc_wf (SetProviderLedgerRange idx o l fc).
Proof.
  intros Hwf. unfold SetProviderLedgerRange. destruct (_ || _)%bool eqn:E; [done|]. to_prop. apply wf_range; [done|lia].
Qed.

Lemma fstep_sound s s' : fstep s s' -> advances s.1 s'.1 /\ (fc_wf s.1 -> fc_wf s'.1).
Proof.
  destruct 1 as [req fmt fc w r fc' w' E|fc w r fc' w' E|fc w r fc' w' E|fc w r fc' w' E|A call fc w r fc' w' E|
    fc w u fc' w' E|l fc w|idx o l fc w|fc w w']; cbn; [..|done];
    try (match type of E with ?m ?fc ?w = _ => replace fc' with (m fc w).1.2 by (by rewrite E) end).
  - split; [apply advances_GetEvents|]. intros Hwf. destruct (GetEvents_spec req fmt fc w Hwf) as (? & ? & ? & -> & ? & _). done.
  - split; [apply advances_delegate; intros; apply frame_range|]. apply delegate_wf. intros. by apply ready_range.
  - split; [apply advances_delegate; intros; apply frame_range|]. apply delegate_wf. intros. by apply ready_range.
  - split; [apply advances_GetNetwork|apply GetNetwork_wf].
  - split; [by apply advances_delegate|by apply delegate_wf].
  - split; [apply advances_probe|apply probe_wf].
  - split; [apply advances_setCursor|apply wf_setCursor].
  - split; [|apply wf_setRange]. unfold SetProviderLedgerRange. destruct (_ || _)%bool; [done|]. apply frame_advances, frame_range.
Qed.

Lemma new_wf urls cfg : fc_wf (NewFailoverClient urls cfg).
Proof.
  split; cbn; [|done|lia]. apply Forall_fmap, list.Forall_forall. intros u _. split; cbn; auto; try done. lia.
Qed.

(** Over every history of calls (requests, probes, range and cursor
    updates, the world moving in between) from a new client: a provider rejected
    for its network is down and stays rejected, heads never exceed the highest
    observed head, probation counts stay below the threshold, the last active
    index is valid and the re-anchor ledger is at most the cursor; configuration
    and providers are constant, the cursor and the highest head never go back. *)
Theorem failover_history urls cfg w fc w' : rtc fstep (NewFailoverClient urls cfg, w) (fc, w') ->
  fc_wf fc /\ advances (NewFailoverClient urls cfg) fc /\
  forall s, rtc fstep (fc, w') s -> fc_wf s.1 /\ advances fc s.1.
Proof.
  assert (Hrtc : forall a b, rtc fstep a b -> advances a.1 b.1 /\ (fc_wf a.1 -> fc_wf b.1)).
  { induction 1 as [|a b c Hab _ [IH1 IH2]]; [done|]. apply fstep_sound in Hab as [H1 H2].
    split; [by etransitivity|auto]. }
  intros H. apply Hrtc in H as [H1 H2]. specialize (H2 (new_wf urls cfg)). cbn in *. split; [done|]. split; [done|].
  intros s Hs. apply Hrtc in Hs as [H3 H4]. auto.
Qed.

(** ** All providers down *)

Lemma backoff_doubling_spec n : forall base, 0 < base <= 30 * Second ->
  backoff_doubling n base = Z.min (30 * Second) (2 ^ Z.of_nat n * base).
Proof.
  induction n as [|n IH]; intros base Hb; cbn [backoff_doubling]; [change (2 ^ Z.of_nat 0) with 1; lia|].
  rewrite Nat2Z.inj_succ, Z.pow_succ_r by lia.
  pose proof (Z.pow_pos_nonneg 2 (Z.of_nat n) ltac:(lia) ltac:(lia)).
  destruct (30 * Second <? base * 2) eqn:E; to_prop; [nia|]. rewrite IH by lia. f_equal. lia.
Qed.

Lemma allDownBackoff_bounds fc w b fc' w' : allDownBackoff fc w = (b, fc', w') -> fc' = fc /\
  let base := Z.min (30 * Second) (2 ^ Z.of_nat (Z.to_nat (fc_allDownCount fc)) * Second) in
  base - base / 4 <= b < base.
Proof.
  unfold allDownBackoff. run. rewrite backoff_doubling_spec by (unfold Second; lia).
  set (base := Z.min _ _). unfold goquot.
  assert (Hb : Second <= base).
  { unfold base. pose proof (Z.pow_pos_nonneg 2 (Z.of_nat (Z.to_nat (fc_allDownCount fc))) ltac:(lia) ltac:(lia)).
    unfold Second. lia. }
  rewrite Z.quot_div_nonneg by (unfold Second in Hb; lia).
  assert (Hq : 0 < base / 4) by (apply Z.div_str_pos; unfold Second in Hb; lia).
  pose proof (pv_rand_range (base / 4) w Hq) as Hr. destruct (pv_rand (base / 4) w) as [j w1]. cbn in Hr.
  intros [= <- <- <-]. split; [done|]. lia.
Qed.

(** With no provider active or degraded, selection fails with
    ErrAllProvidersDown and sets a deadline between three quarters of and the full
    backoff, which doubles with every episode and is capped at 30 seconds; until
    the deadline every request fails at once without contacting a provider. *)
Theorem all_down_backs_off fc w : getActiveExcluding ∅ fc = None -> fc_allDownUntil fc <= pv_now w ->
  0 <= fc_allDownCount fc < 2 ^ 31 - 1 -> 0 <= pv_now w <= maxInt64 - 30 * Second ->
  let base := Z.min (30 * Second) (2 ^ (fc_allDownCount fc + 1) * Second) in
  exists fc' w', pickProvider fc w = (Some (Err ErrAllProvidersDown), fc', w') /\
    fc_allDownCount fc' = fc_allDownCount fc + 1 /\
    pv_now w + base - base / 4 <= fc_allDownUntil fc' < pv_now w + base /\
    (forall req fmt w2, pv_now w2 < fc_allDownUntil fc' ->
      GetEvents req fmt fc' w2 = (Some (Err ErrAllProvidersDown), fc', w2)).
Proof.
  intros Hnone Huntil Hcount Hnow base. unfold pickProvider, pickProviderExcluding. run.
  rewrite (proj2 (Z.ltb_ge (pv_now w) (fc_allDownUntil fc)) Huntil), andb_false_r. cbn.
  rewrite (pick_loop_none _ ∅ None (with_allDown (fc_allDownCount fc) 0 fc) w Hnone). cbn -[allDownBackoff].
  rewrite bool_decide_true by done. cbn -[allDownBackoff].
  assert (Hi : i32 (fc_allDownCount fc + 1) = fc_allDownCount fc + 1) by (unfold i32, wraps; rewrite Z.mod_small; lia).
  rewrite Hi. set (fc1 := with_allDown (fc_allDownCount fc + 1) 0 _).
  destruct (allDownBackoff fc1 w) as [[b fc2] w2] eqn:Eb.
  apply allDownBackoff_bounds in Eb as [-> Hb]. cbn -[Z.pow] in Hb.
  rewrite Z2Nat.id in Hb by lia. fold base in Hb.
  cbn -[allDownBackoff]. destruct (allDownBackoff _ w2) as [[b' fc3] w3] eqn:Eb'.
  apply allDownBackoff_bounds in Eb' as [-> _]. cbn.
  assert (Hbase : Second <= base <= 30 * Second).
  { unfold base. pose proof (Z.pow_pos_nonneg 2 (fc_allDownCount fc + 1) ltac:(lia) ltac:(lia)). unfold Second. lia. }
  assert (Hid : i64 (pv_now w + b) = pv_now w + b).
  { apply i64_id. unfold in_i64, minInt64. pose proof (Z.div_le_mono base base 4 ltac:(lia) ltac:(lia)).
    assert (base / 4 <= base) by (apply Z.div_le_upper_bound; unfold Second in *; lia). lia. }
  rewrite Hid. eexists _, w3. split; [reflexivity|]. cbn. split; [done|]. split; [lia|].
  intros req fmt w4 Hw4. assert (Hpos : pv_now w + b <> 0).
  { assert (base / 4 < base) by (apply Z.div_lt; unfold Second in *; lia). lia. }
  unfold GetEvents. run. unfold getEvents_turn, pickProviderExcluding. run.
  rewrite (proj2 (Z.eqb_neq _ _) Hpos), (proj2 (Z.ltb_lt _ _) Hw4). done.
Qed.

(** ** Recovery through probes *)

(** What a call on another provider leaves alone. *)
Record elsewhere (i : nat) (fc fc' : FailoverClient) : Prop := {
  el_prov : prov fc' i = prov fc i;
  el_cursor : fc_cursorLedger fc' = fc_cursorLedger fc;
  el_config : fc_config fc' = fc_config fc;
  el_length : length (fc_providers fc') = length (fc_providers fc) }.

#[local] Instance elsewhere_preorder i : PreOrder (elsewhere i).
Proof. split; [by intros fc; split|]. intros a b c [] []. split; congruence. Qed.

Lemma elsewhere_on i j f fc : j <> i -> elsewhere i fc (on_provider j f fc).
Proof.
  intros Hne. split; try done; [|cbn; by rewrite length_alter].
  unfold prov. cbn. rewrite !list_lookup_total_alt. by rewrite list_lookup_alter_ne.
Qed.

Lemma elsewhere_demote i j t r fc : j <> i -> elsewhere i fc (demoteProvider j t r fc).
Proof.
  intros Hne. unfold demoteProvider. cbv zeta. etransitivity; [apply (elsewhere_on i j (set_okCount 0) fc Hne)|].
  match goal with |- elsewhere _ _ (count_demotion _ _ ?x) => transitivity x; [by apply elsewhere_on|by split] end.
Qed.

Lemma elsewhere_promote i j fc : j <> i -> elsewhere i fc (promoteProvider j fc).
Proof. intros Hne. unfold promoteProvider, setProviderState. by do 3 (etransitivity; [|by apply elsewhere_on]). Qed.

Lemma elsewhere_range i j o l fc : j <> i -> elsewhere i fc (updateProviderRange j o l fc).
Proof.
  intros Hne. unfold updateProviderRange. cbv zeta.
  transitivity (if 0 <? o then on_provider j (set_oldest o) fc else fc); [destruct (0 <? o); [by apply elsewhere_on|done]|].
  destruct (0 <? l); [|done].
  etransitivity; [apply (elsewhere_on i j (set_latest l) _ Hne)|]. destruct (_ <=? _); [done|by split].
Qed.

Lemma elsewhere_recordError i j e fc : j <> i -> elsewhere i fc (recordError j e fc).
Proof.
  intros Hne. unfold recordError. destruct (IsLedgerOutOfRange _); [done|]. destruct (negb _); [done|]. cbv zeta.
  match goal with |- elsewhere _ _ (if _ then demoteProvider _ _ _ ?x else _) => transitivity x end.
  { transitivity (on_provider j (set_okCount 0) fc); by apply elsewhere_on. }
  by repeat (match goal with |- elsewhere _ _ (if ?b then _ else _) => destruct b; [by apply elsewhere_demote|] end).
Qed.

#[local] Hint Resolve elsewhere_on elsewhere_demote elsewhere_promote elsewhere_range elsewhere_recordError : probes.

Lemma probe_elsewhere i j : j <> i -> respects (elsewhere i) (probe_one (W := W) j).
Proof.
  intros Hne. unfold probe_one, verifyProviderNetwork, waitLimiter.
  respects_walk; apply respects_mod; intros fc; by auto with probes.
Qed.

Lemma probe_all_elsewhere i l : i ∉ l -> respects (elsewhere i) (probe_all (W := W) l).
Proof.
  induction l as [|j l IH]; intros Hi; cbn [probe_all]; respects_walk; [|apply IH; set_solver].
  apply probe_elsewhere. set_solver.
Qed.

(** The provider is waiting for recovery with [k] successful probes so far. *)
Definition recovering (i : nat) (k : Z) (fc : FailoverClient) : Prop :=
  (i < length (fc_providers fc))%nat /\ p_networkInvalid (prov fc i) = false /\
  (expectedPassphrase (fc_config fc) = "" \/ p_networkVerified (prov fc i) = true) /\
  p_state (prov fc i) = StateDown /\ p_okCount (prov fc i) = k.

Section Recovery.
Context (i : nat) (c n : Z) (Hn : 1 <= n < 2 ^ 31).
Context (limiter_free : forall w, (pv_limiter i w).1 = None).
Context (healthy : forall w, exists h w', pv_GetHealth i w = (Ok h, w') /\ (h_LatestLedger h <= 0 \/ c <= h_LatestLedger h)).

(** Either promoted, or one step further in probation. *)
Definition probed (k : Z) (fc : FailoverClient) : Prop :=
  fc_cursorLedger fc = c /\ probationSuccesses (fc_config fc) = n /\
  (p_state (prov fc i) = StateActive \/ (recovering i k fc /\ 0 <= k < n)).

Lemma probed_elsewhere k fc fc' : elsewhere i fc fc' -> probed k fc -> probed k fc'.
Proof.
  intros [H1 H2 H3 H4] (Hc & Hp & Hs). unfold probed, recovering in *. rewrite H1, H2, H3, H4. done.
Qed.

Lemma promote_active fc : (i < length (fc_providers fc))%nat -> p_state (prov (promoteProvider i fc) i) = StateActive.
Proof. intros Hi. unfold promoteProvider, setProviderState. rewrite prov_alter_eq; [done|]. cbn. by rewrite !length_alter. Qed.

Lemma probe_one_progress k fc w : probed k fc -> probed (k + 1) (probe_one i fc w).1.2.
Proof.
  intros (Hc & Hp & Hs). unfold probe_one, verifyProviderNetwork, waitLimiter. run.
  destruct Hs as [Hs|((Hi & Hinv & Hv & Hs & Hok) & Hk)].
  { rewrite Hs. cbn. split; [done|]. split; [done|by left]. }
  assert (Hver : (bool_decide (expectedPassphrase (fc_config fc) = "") || p_networkVerified (prov fc i))%bool = true)
    by (apply orb_true_iff; destruct Hv; [left; by apply bool_decide_eq_true|by right]).
  rewrite Hs, Hinv, bool_decide_true by done. cbn. rewrite Hinv, Hver. cbn. pose proof (limiter_free w) as Hlim. destruct (pv_limiter i w) as [o w1]. cbn in Hlim. subst o. cbn.
  destruct (healthy w1) as (h & w2 & Hh & Hhl). rewrite Hh. cbn.
  destruct (range_state i (h_OldestLedger h) (h_LatestLedger h) fc Hi) as (Rs & Ro & Rv & Ri).
  pose proof (frame_range i (h_OldestLedger h) (h_LatestLedger h) fc) as Hf.
  revert Rs Ro Rv Ri Hf. generalize (updateProviderRange i (h_OldestLedger h) (h_LatestLedger h) fc).
  intros fc1 Rs Ro Rv Ri Hf. pose proof (frame_length _ _ Hf) as Hlen.
  assert (Hcur : fc_cursorLedger fc1 = c) by (rewrite (fr_cursor _ _ Hf); done).
  assert (Hcfg : probationSuccesses (fc_config fc1) = n) by (by rewrite (fr_config _ _ Hf)).
  replace (_ && _ && _)%bool with false; cbn.
  2:{ symmetry. destruct (0 <? h_LatestLedger h) eqn:E1; [|by rewrite andb_false_r]. to_prop.
      rewrite Hcur. apply andb_false_iff. right. apply Z.ltb_ge. lia. }
  rewrite Ro, Hok, Hcfg. assert (Hw : forall x, 0 <= x < 2 ^ 31 -> i32 x = x) by (intros; unfold i32, wraps; rewrite Z.mod_small; lia).
  rewrite !Hw by lia. set (fc2 := on_provider i (set_okCount (k + 1)) fc1).
  assert (Hi2 : (i < length (fc_providers fc2))%nat) by (cbn; rewrite length_alter; lia).
  destruct (n <=? k + 1) eqn:E; to_prop; cbn.
  - split; [done|]. split; [done|]. left. by apply promote_active.
  - split; [done|]. split; [done|]. right. split; [|lia]. unfold recovering, fc2. rewrite prov_alter_eq by lia. cbn.
    rewrite length_alter. rewrite Rs, Ri, Rv, (fr_config _ _ Hf). repeat split; try done. lia.
Qed.

Lemma probe_all_progress k l fc w : i ∈ l -> NoDup l -> probed k fc -> probed (k + 1) (probe_all l fc w).1.2.
Proof.
  intros Hin Hnd. apply list_elem_of_split in Hin as (l1 & l2 & ->).
  apply list.NoDup_app in Hnd as (_ & H1 & H2). apply list.NoDup_cons in H2 as [H2 _]. revert fc w.
  induction l1 as [|j l1 IH]; intros fc w Hp; cbn [probe_all app]; run.
  - pose proof (probe_one_progress k fc w Hp) as H. destruct (probe_one i fc w) as [[u fc1] w1]. cbn in H.
    eapply probed_elsewhere; [apply probe_all_elsewhere; done|done].
  - assert (Hne : j <> i) by (intros ->; apply (H1 i); [by left|by left]).
    pose proof (probe_elsewhere i j Hne fc w) as H. destruct (probe_one j fc w) as [[u fc1] w1]. cbn in H.
    apply IH; [intros x Hx; apply H1; by right|]. by eapply probed_elsewhere.
Qed.

Lemma probe_round k fc w : (i < length (fc_providers fc))%nat -> probed k fc ->
  probed (k + 1) (probeDownProviders fc w).1.2 /\
  length (fc_providers (probeDownProviders fc w).1.2) = length (fc_providers fc).
Proof.
  intros Hi Hp. split.
  - unfold probeDownProviders. run. apply probe_all_progress; [apply elem_of_seq; lia|apply NoDup_seq|done].
  - pose proof (av_urls _ _ (advances_probe fc w)) as H. apply (f_equal length) in H. by rewrite !length_fmap in H.
Qed.

Fixpoint probe_rounds (k : nat) : F W unit :=
  match k with O => mret tt | S k' => probeDownProviders;; probe_rounds k' end.

Lemma probe_rounds_progress k : forall j fc w, (i < length (fc_providers fc))%nat -> probed j fc ->
  probed (j + Z.of_nat k) (probe_rounds k fc w).1.2.
Proof.
  induction k as [|k IH]; intros j fc w Hi Hp; cbn [probe_rounds]; run; [by rewrite Z.add_0_r|].
  destruct (probe_round j fc w Hi Hp) as [H1 H2]. destruct (probeDownProviders fc w) as [[u fc1] w1]. cbn in H1, H2.
  replace (j + Z.of_nat (S k)) with (j + 1 + Z.of_nat k) by lia. apply IH; [lia|done].
Qed.

End Recovery.

(** A provider that is down, not rejected and verified, and answers
    its probes with a head that is not behind the cursor, is active again after
    the configured number of probe rounds, whatever the other providers do. *)
Theorem down_provider_recovers i fc w : let n := probationSuccesses (fc_config fc) in
  1 <= n < 2 ^ 31 -> recovering i 0 fc ->
  (forall w, (pv_limiter i w).1 = None) ->
  (forall w, exists h w', pv_GetHealth i w = (Ok h, w') /\ (h_LatestLedger h <= 0 \/ fc_cursorLedger fc <= h_LatestLedger h)) ->
  p_state (prov (probe_rounds (Z.to_nat n) fc w).1.2 i) = StateActive.
Proof.
  intros n Hn Hr Hlim Hh.
  destruct (probe_rounds_progress i (fc_cursorLedger fc) n Hn Hlim Hh (Z.to_nat n) 0 fc w) as (_ & _ & [Hs|[_ Hk]]);
    [apply Hr| |done|lia].
  split; [done|]. split; [done|]. right. split; [done|lia].
Qed.

End Client.

(** ** Retention gaps *)

Lemma strip_prefix_app sub a r b : strip_prefix sub a = Some r -> strip_prefix sub (a +++ b) = Some (r +++ b).
Proof.
  revert a. induction sub as [|c sub IH]; intros a; cbn; [by intros [= ->]|].
  destruct a as [|d a]; [done|]. cbn. destruct (Ascii.eqb c d); [apply IH|done].
Qed.

Lemma str_has_app_l sub a b : str_has sub a = true -> str_has sub (a +++ b) = true.
Proof.
  induction a as [|d a IH]; intros H.
  - cbn in H. destruct (strip_prefix sub "") as [r|] eqn:E; [|done].
    apply (strip_prefix_app _ _ _ b) in E. cbn in E. cbn. destruct b; cbn; by rewrite E.
  - cbn [str_has] in H. change (String d a +++ b) with (String d (a +++ b)). cbn [str_has].
    destruct (strip_prefix sub (String d a)) as [r|] eqn:E.
    + apply (strip_prefix_app _ _ _ b) in E. change (String d a +++ b) with (String d (a +++ b)) in E. by rewrite E.
    + destruct (strip_prefix sub (String d (a +++ b))); [done|]. by apply IH.
Qed.

Lemma str_has_app_r sub a b : str_has sub b = true -> str_has sub (a +++ b) = true.
Proof.
  intros H. induction a as [|d a IH]; [done|]. change (String d a +++ b) with (String d (a +++ b)). cbn [str_has].
  by destruct (strip_prefix _ _).
Qed.

Definition is_ascii (c : ascii) : bool := byte_val c <? 128.

Lemma ToLower_cons c s : is_ascii c = true -> ToLower (String c s) = String (ascii_lower c) (ToLower s).
Proof.
  unfold is_ascii. intros H. to_prop. destruct s as [|b [|d s]]; cbn [ToLower]; [done| |].
  - rewrite (proj2 (Z.eqb_neq (byte_val c) 196)) by lia. done.
  - rewrite (proj2 (Z.eqb_neq (byte_val c) 196)), (proj2 (Z.eqb_neq (byte_val c) 226)) by lia. done.
Qed.

Lemma ToLower_app a b : str_all is_ascii a = true -> ToLower (a +++ b) = ToLower a +++ ToLower b.
Proof.
  induction a as [|c a IH]; intros H; [done|]. cbn [str_all] in H. to_prop.
  change (String c a +++ b) with (String c (a +++ b)). rewrite !ToLower_cons by done. by rewrite IH.
Qed.

(** A retention gap unwraps to its sentinel and to an error that
    IsLedgerOutOfRange recognises, so callers re-clamp their start ledger, and it
    never counts towards a demotion. *)
Theorem retention_gap_is_out_of_range url requested oldest i fc : 0 <= requested ->
  let e := RetentionGapError url requested oldest in
  rerrors_Is KProviderRetentionGap e = true /\ IsLedgerOutOfRange (Some e) = true /\ recordError i e fc = fc.
Proof.
  intros Hreq. cbv zeta.
  assert (Hout : IsLedgerOutOfRange (Some (RetentionGapError url requested oldest)) = true).
  { unfold IsLedgerOutOfRange. cbn [RetentionGapError rerrors_As as_rpc].
    apply orb_true_iff. left. apply orb_true_iff. right.
    set (lit := " is outside of retention window (must be within ["). rewrite !append_assoc.
    rewrite <- (append_assoc "startLedger "). rewrite ToLower_app.
    - apply str_has_app_r. rewrite ToLower_app by reflexivity. apply str_has_app_l. vm_compute. reflexivity.
    - rewrite str_all_app. apply andb_true_iff. split; [reflexivity|].
      destruct (FormatInt_digits requested Hreq) as [Hd _]. eapply str_all_impl; [|exact Hd].
      intros c. unfold is_digit, is_ascii. intros Hc. to_prop. apply Z.ltb_lt. lia. }
  split; [reflexivity|]. split; [exact Hout|]. unfold recordError. by rewrite Hout.
Qed.
