(* ===== verification/FailoverSim.v ===== *)
(** * Three providers, one lagging and one on a foreign network

    A concrete environment for the failover client: provider 0 answers from
    behind the cursor, provider 1 serves another network, provider 2 is current.
    The failover theorems are run on it. *)

From S2P Require Import Prelude GoStrings RpcTypes Retry Failover FailoverState FailoverProps.
From Stdlib Require Import Ascii String.
Local Open Scope Z_scope.
Local Open Scope go_scope.
Local Notation length := List.length.

Definition testnet : string := "Test SDF Network ; September 2015".

Definition fo_event (id : string) (ledger : Z) (value : string) : Event :=
  mkRpcEvent id "" "contract" ledger "" "C" "tx" 0 0 true ["t"] value [] "".

(** The world is the clock. Maps are traversed backwards. *)
#[export] Instance fo_env : Providers Z := {|
  pv_GetEvents i req fmt w :=
    match i with
    | O => (Ok (mkResponse [] 5 1 ""), w + 1)
    | _ => (Ok (mkResponse [fo_event "0000000009-1" 9 "v"; fo_event "0000000010-1" 10 "v"] 12 2 "0000000010-1"), w + 1)
    end;
  pv_GetLatestLedger i w := (Ok (mkLatest 12), w);
  pv_GetHealth i w := (Ok (mkHealth 12 2), w);
  pv_GetNetwork i := Some (fun w => (Ok (mkNetworkInfo "" (if bool_decide (i = 1%nat) then "other" else testnet) 20), w));
  pv_SupportsXDRJSON _ _ := None;
  pv_limiter _ w := (None, w);
  pv_now w := w;
  pv_rand n w := (n - 1, w);
  pv_range l w := rev l |}.

#[export] Instance fo_laws : ProviderLaws Z.
Proof. split; [intros n w Hn; cbn; lia|]. intros l w. cbn. symmetry. apply Permutation_rev. Qed.

Definition fo_config : FailoverConfig := mkFailoverConfig 3 2 3 (resolveExpectedPassphrase " TestNet ").
Definition fo_client : FailoverClient := NewFailoverClient ["a"; "b"; "c"] fo_config.
Definition fo_request : GetEventsRequest := mkRequest 9 0 [] "" 100.

Definition fo_run : option (result rerror GetEventsResponse) * FailoverClient * Z :=
  GetEvents fo_request "" (SetCursorLedger 8 fo_client) 0.
Definition fo_after : FailoverClient := fo_run.1.2.

Lemma fo_wf l : fc_wf (SetCursorLedger l fo_client).
Proof. apply wf_setCursor, new_wf. Qed.


Lemma failover_GetEvents_returns_witness :
  exists r fc' w', GetEvents fo_request "" (SetCursorLedger 20 fo_client) 0 = (Some r, fc', w') /\ fc_wf fc'.
Proof. apply (failover_GetEvents_returns fo_request "" (SetCursorLedger 20 fo_client) 0 (fo_wf 20)). Defined.

(** With a cursor beyond every provider the call ends with an error. *)
Lemma fo_all_behind :
  match (GetEvents fo_request "" (SetCursorLedger 20 fo_client) 0).1.1 with
  | Some (Err e) => rerrors_Is KProviderBehindCursor e
  | _ => false
  end = true.
Proof. vm_compute. reflexivity. Qed.

Lemma retention_gap_is_out_of_range_witness :
  let e := RetentionGapError "https://rpc" 5 9 in
  rerrors_Is KProviderRetentionGap e = true /\ IsLedgerOutOfRange (Some e) = true /\ recordError 0 e fo_client = fo_client.
Proof. apply (retention_gap_is_out_of_range "https://rpc" 5 9 0 fo_client). lia. Defined.

Lemma failover_history_witness :
  fc_wf fo_after /\ advances fo_client fo_after /\
  forall s, rtc fstep (fo_after, 7) s -> fc_wf s.1 /\ advances fo_after s.1.
Proof.
  apply (failover_history ["a"; "b"; "c"] fo_config 0 fo_after 7).
  eapply rtc_l; [apply (step_SetCursorLedger 8)|].
  eapply rtc_l; [eapply (step_GetEvents fo_request "" (SetCursorLedger 8 fo_client) 0 fo_run.1.1 fo_after fo_run.2);
    vm_compute; reflexivity|].
  eapply rtc_once. apply step_world.
Defined.

Definition fo_down : FailoverClient :=
  demoteProvider 0 StateDown DemoteReasonConsecutiveErrors (NewFailoverClient ["a"] defaultFailoverConfig).

(** The first backoff: below two seconds, at least one and a half. *)
Lemma all_down_backs_off_witness :
  exists fc' w', pickProvider fo_down 1000 = (Some (Err ErrAllProvidersDown), fc', w') /\
    fc_allDownCount fc' = 1 /\ 1000 + 1500000000 <= fc_allDownUntil fc' < 1000 + 2000000000 /\
    (forall req fmt w2, w2 < fc_allDownUntil fc' ->
      GetEvents req fmt fc' w2 = (Some (Err ErrAllProvidersDown), fc', w2)).
Proof.
  destruct (all_down_backs_off fo_down 1000) as (fc' & w' & H1 & H2 & H3 & H4);
    [vm_compute; (reflexivity || (split; congruence) || congruence)..|].
  exists fc', w'. split; [exact H1|]. split; [exact H2|]. split; [|exact H4].
  change (Z.min (30 * Second) (2 ^ (fc_allDownCount fo_down + 1) * Second)) with 2000000000 in H3.
  change (pv_now 1000) with 1000 in H3. change (2000000000 / 4) with 500000000 in H3. lia.
Defined.

(** Two probes bring the provider back. *)
Lemma down_provider_recovers_witness :
  p_state (prov fo_down 0) = StateDown /\ p_state (prov (probe_rounds 2 fo_down 0).1.2 0) = StateActive.
Proof.
  split; [reflexivity|]. apply (down_provider_recovers 0 fo_down 0).
  - vm_compute. split; congruence.
  - repeat split; [cbn; lia|by left].
  - done.
  - intros w. eexists _, _. split; [reflexivity|]. right. vm_compute. congruence.
Defined.

(** Provider 1 rewrites an event that provider 2 has served. *)
Lemma divergence_exact_witness :
  exists d, checkAndRecordEvents (fun l => l) 1 9 false (mkResponse [fo_event "0000000009-1" 9 "w"] 12 2 "") fo_after =
    (Some d, add_divergence d fo_after).
Proof.
  apply (divergence_exact (fun l => l) 1 9 false (mkResponse [fo_event "0000000009-1" 9 "w"] 12 2 "") fo_after ltac:(done)).
  intros [H _].
  assert (E : fc_observedByID fo_after !! "0000000009-1" = Some (buildObservedEvent 2 (fo_event "0000000009-1" 9 "v")))
    by (vm_compute; reflexivity).
  destruct (H (fo_event "0000000009-1" 9 "w") _ (list_elem_of_here _ _) E) as [_ _ _ _ Hv _ _ _]; [done|].
  destruct Hv as [Hv|[Hv|Hv]]; vm_compute in Hv; congruence.
Defined.
