(* ===== verification/Pruner.v ===== *)
(** * The retention pruner (internal/pruner/pruner.go)

    The sweep, its dry run and the Run loop, over the interface the pruner uses
    of the store, the archiver, the lag coordinator and the clock
    ([PruneEnv]), and the two statements of sqlite.go it runs. Log lines are
    left out; the atomic counters are kept. *)

From S2P Require Import Prelude GoStrings StoreErrors StoreTypes SqliteStore.
From Stdlib Require Import Ascii String.
Local Open Scope Z_scope.

Local Notation length := List.length.

(** ** The statements (internal/store/sqlite.go) *)

(** The WHERE clause; a zero time leaves the age out. *)
Definition prunable (maxLedger beforeTime : Z) (e : Event) : bool :=
  (Ledger e <? maxLedger) && (time_IsZero beforeTime || (CreatedAt e <? beforeTime)).

Definition prunable_rows (maxLedger beforeTime : Z) (m : gmap (string * string) Event) : list Event :=
  filter (fun e => prunable maxLedger beforeTime e = true) (map_to_list m).*2.

(** DELETE FROM events WHERE id IN (SELECT id FROM events WHERE ... LIMIT n).
    [scan] is the order in which the engine visits the matching rows. The outer
    statement matches on the id alone. *)
Definition DeleteEventsBefore (scan : list Event -> list Event) (maxLedger beforeTime limit : Z) (d : DB) : Z * DB :=
  if limit <=? 0 then (0, d)
  else
    let ids := ID <$> take (Z.to_nat limit) (scan (prunable_rows maxLedger beforeTime (t_events d))) in
    let p e := bool_decide (ID e ∈ ids) in
    (Z.of_nat (size (filter (fun kv => p kv.2 = true) (t_events d))), delete_events p d).

(** A negative LIMIT is no limit. *)
Definition CountEventsBefore (maxLedger beforeTime limit : Z) (d : DB) : Z :=
  let n := Z.of_nat (length (prunable_rows maxLedger beforeTime (t_events d))) in
  if limit <? 0 then n else Z.min limit n.

(** ** Options and counters *)

Record Options : Type := mkOptions {
  MaxAge : Z;
  MinLedger : Z;
  BatchSize : Z;
  Pause : Z;
  Interval : Z;
  ArchiveBeforePrune : bool;
  DryRun : bool }.

Definition applyDefaults (o : Options) : Options :=
  mkOptions (MaxAge o) (MinLedger o)
    (if BatchSize o <=? 0 then 5000 else BatchSize o)
    (if Pause o <=? 0 then 100 * Millisecond else Pause o)
    (if Interval o <=? 0 then 60 * Minute else Interval o)
    (ArchiveBeforePrune o) (DryRun o).

Record Pruner : Type := mkPruner {
  pr_opts : Options;
  runsCompleted : Z;
  rowsPurged : Z;
  archivedRanges : Z;
  dryRunEligible : Z;
  lagYields : Z;
  maxDeferralOverrides : Z }.

Definition NewPruner (o : Options) : Pruner := mkPruner (applyDefaults o) 0 0 0 0 0 0.

Definition Enabled (p : Pruner) : bool := (0 <? MaxAge (pr_opts p)) || (0 <? MinLedger (pr_opts p)).

Definition count_run (p : Pruner) : Pruner :=
  mkPruner (pr_opts p) (u64 (runsCompleted p + 1)) (rowsPurged p) (archivedRanges p) (dryRunEligible p)
    (lagYields p) (maxDeferralOverrides p).
Definition count_purged (n : Z) (p : Pruner) : Pruner :=
  mkPruner (pr_opts p) (runsCompleted p) (i64 (rowsPurged p + n)) (archivedRanges p) (dryRunEligible p)
    (lagYields p) (maxDeferralOverrides p).
Definition count_archived (p : Pruner) : Pruner :=
  mkPruner (pr_opts p) (runsCompleted p) (rowsPurged p) (i64 (archivedRanges p + 1)) (dryRunEligible p)
    (lagYields p) (maxDeferralOverrides p).
Definition count_eligible (n : Z) (p : Pruner) : Pruner :=
  mkPruner (pr_opts p) (runsCompleted p) (rowsPurged p) (archivedRanges p) (i64 (dryRunEligible p + n))
    (lagYields p) (maxDeferralOverrides p).
Definition count_yield (p : Pruner) : Pruner :=
  mkPruner (pr_opts p) (runsCompleted p) (rowsPurged p) (archivedRanges p) (dryRunEligible p)
    (u64 (lagYields p + 1)) (maxDeferralOverrides p).
Definition count_override (p : Pruner) : Pruner :=
  mkPruner (pr_opts p) (runsCompleted p) (rowsPurged p) (archivedRanges p) (dryRunEligible p)
    (lagYields p) (u64 (maxDeferralOverrides p + 1)).

(** ** The environment *)

(** How ArchiveRange fails: with ErrDeferredToLag in its chain, or otherwise. *)
Inductive archive_error : Type := DeferredToLag | ArchiveFailed (e : error).

(** [pe_archiver] and [pe_lag] are [None] for a nil archiver and a nil
    controller. [pe_sleep] is false when the context ends the sleep. *)
Class PruneEnv (W : Type) : Type := {
  pe_GetIngestionState : W -> result error IngestionState * W;
  pe_DeleteEventsBefore : Z -> Z -> Z -> W -> result error Z * W;
  pe_CountEventsBefore : Z -> Z -> Z -> W -> result error Z * W;
  pe_archiver : option (Z -> Z -> W -> option archive_error * W);
  pe_lag : option (string -> W -> (bool * string) * W);
  pe_sleep : Z -> W -> bool * W;
  pe_now : W -> Z;
  pe_rand : Z -> W -> Z * W }.

Inductive prune_error : Type :=
  | LoadingState (e : error)
  | Archiving (e : error)
  | DeleteBatch (e : error)
  | CountBatch (e : error)
  | ContextDone.

Section Pruner.
Context {W : Type} `{!PruneEnv W}.

(** Whether to yield to the ingester; an override of the deferral is counted. *)
Definition consult_lag (p : Pruner) (w : W) : bool * Pruner * W :=
  match pe_lag with
  | None => (false, p, w)
  | Some shouldYield =>
      let '((yield, reason), w) := shouldYield "pruner"%string w in
      if yield then (true, count_yield p, w)
      else if bool_decide (reason = "max_deferral_reached"%string) then (false, count_override p, w)
      else (false, p, w)
  end.

(** The batch loop: the rows deleted, and the error that ended it. [None] is a
    lack of fuel. *)
Fixpoint delete_batches (fuel : nat) (maxLedger beforeTime total : Z) (p : Pruner) (w : W)
    : option (Z * option prune_error) * Pruner * W :=
  match fuel with
  | O => (None, p, w)
  | S fuel' =>
      let '(yield, p, w) := if 0 <? total then consult_lag p w else (false, p, w) in
      if yield then (Some (total, None), p, w)
      else
        let '(r, w) := pe_DeleteEventsBefore maxLedger beforeTime (BatchSize (pr_opts p)) w in
        match r with
        | Err e => (Some (total, Some (DeleteBatch e)), p, w)
        | Ok affected =>
            let total := i64 (total + affected) in
            let p := count_purged affected p in
            if affected <? BatchSize (pr_opts p) then (Some (total, None), p, w)
            else
              let '(slept, w) := pe_sleep (Pause (pr_opts p)) w in
              if negb slept then (Some (total, Some ContextDone), p, w)
              else delete_batches fuel' maxLedger beforeTime total p w
        end
  end.

Fixpoint count_batches (fuel : nat) (maxLedger beforeTime total : Z) (p : Pruner) (w : W)
    : option (Z * option prune_error) * Pruner * W :=
  match fuel with
  | O => (None, p, w)
  | S fuel' =>
      let '(r, w) := pe_CountEventsBefore maxLedger beforeTime (BatchSize (pr_opts p)) w in
      match r with
      | Err e => (Some (total, Some (CountBatch e)), p, w)
      | Ok affected =>
          let total := i64 (total + affected) in
          if affected <? BatchSize (pr_opts p) then (Some (total, None), count_eligible total p, w)
          else
            let '(slept, w) := pe_sleep (Pause (pr_opts p)) w in
            if negb slept then (Some (total, Some ContextDone), p, w)
            else count_batches fuel' maxLedger beforeTime total p w
      end
  end.

Definition dryRunSweep (fuel : nat) (maxLedger beforeTime : Z) (p : Pruner) (w : W)
    : option (Z * option prune_error) * Pruner * W :=
  count_batches fuel maxLedger beforeTime 0 p w.

(** The ledger bound of a sweep: the last ingested ledger, lowered to
    MinLedger. *)
Definition sweep_bound (o : Options) (lastIngested : Z) : Z :=
  if ((0 <? MinLedger o) && (MinLedger o <? u64 lastIngested))%bool then i64 (MinLedger o) else lastIngested.

Definition sweep_cutoff (o : Options) (now : Z) : Z := if 0 <? MaxAge o then now - MaxAge o else time_zero.

(** Archiving before the deletion: [Ok true] goes on, [Ok false] defers. *)
Definition archive_first (maxLedger : Z) (p : Pruner) (w : W) : result prune_error bool * Pruner * W :=
  match pe_archiver with
  | Some archiveRange =>
      if ArchiveBeforePrune (pr_opts p) then
        let '(r, w) := archiveRange 0 maxLedger w in
        match r with
        | Some DeferredToLag => (Ok false, count_yield p, w)
        | Some (ArchiveFailed e) => (Err (Archiving e), p, w)
        | None => (Ok true, count_archived p, w)
        end
      else (Ok true, p, w)
  | None => (Ok true, p, w)
  end.

Definition pruneOnce (fuel : nat) (p : Pruner) (w : W) : option (Z * option prune_error) * Pruner * W :=
  let '(yield, p, w) := consult_lag p w in
  if yield then (Some (0, None), p, w)
  else
    let '(r, w) := pe_GetIngestionState w in
    match r with
    | Err (Sentinel ErrNotFound) => (Some (0, None), p, w)
    | Err e => (Some (0, Some (LoadingState e)), p, w)
    | Ok ing =>
        if LastIngestedLedger ing <=? 0 then (Some (0, None), p, w)
        else
          let beforeTime := sweep_cutoff (pr_opts p) (pe_now w) in
          let maxLedger := sweep_bound (pr_opts p) (LastIngestedLedger ing) in
          let '(archived, p, w) := archive_first maxLedger p w in
          match archived with
          | Err e => (Some (0, Some e), p, w)
          | Ok false => (Some (0, None), p, w)
          | Ok true =>
              if DryRun (pr_opts p) then dryRunSweep fuel maxLedger beforeTime p w
              else delete_batches fuel maxLedger beforeTime 0 p w
          end
    end.

(** How the loop ends: disabled or cancelled, a panic of rand.N (a backoff
    below two nanoseconds), or the turns run out. *)
Inductive run_outcome : Type := Disabled | Cancelled | Panicked | StillRunning (backoff : Z).

(** [turns] bounds the sweeps, [fuel] the batches of each. *)
Fixpoint run_loop (fuel turns : nat) (backoff : Z) (p : Pruner) (w : W) : option run_outcome * Pruner * W :=
  match turns with
  | O => (Some (StillRunning backoff), p, w)
  | S turns' =>
      let '(r, p, w) := pruneOnce fuel p w in
      match r with
      | None => (None, p, w)
      | Some (_, Some _) =>
          let half := goquot backoff 2 in
          if half <=? 0 then (Some Panicked, p, w)
          else
            let '(j, w) := pe_rand half w in
            let '(slept, w) := pe_sleep (half + j) w in
            if negb slept then (Some Cancelled, p, w)
            else
              let b := i64 (backoff * 2) in
              run_loop fuel turns' (if Interval (pr_opts p) <? b then Interval (pr_opts p) else b) p w
      | Some (deleted, None) =>
          let p := count_run p in
          if 0 <? deleted then run_loop fuel turns' Second p w
          else
            let '(slept, w) := pe_sleep (Interval (pr_opts p)) w in
            if negb slept then (Some Cancelled, p, w) else run_loop fuel turns' Second p w
      end
  end.

Definition RunPruner (fuel turns : nat) (p : Pruner) (w : W) : option run_outcome * Pruner * W :=
  if negb (Enabled p) then (Some Disabled, p, w) else run_loop fuel turns Second p w.

End Pruner.

(** * Theorems about the retention pruner

    What a sweep may delete, that batching is a one-shot deletion, that it
    terminates, and what a dry run does. The store is used through laws on its
    rows ([PruneLaws]); the SQLite statements discharge them. *)


Abbreviation rowmap := (gmap (string * string) Event).

(** Rows removed by id, where every id is that of a row matching the policy. *)
Definition pruned (maxLedger beforeTime : Z) (r r' : rowmap) : Prop :=
  exists ids : list string,
    (forall id, id ∈ ids -> exists k e, r !! k = Some e /\ ID e = id /\ prunable maxLedger beforeTime e = true) /\
    r' = filter (fun kv => ID kv.2 ∉ ids) r.

Record batch_deleted (maxLedger beforeTime limit : Z) (r r' : rowmap) (n : Z) : Prop := {
  bd_pruned : pruned maxLedger beforeTime r r';
  bd_count : n = Z.of_nat (size r) - Z.of_nat (size r');
  bd_done : n < limit -> forall k e, r' !! k = Some e -> prunable maxLedger beforeTime e = false }.

Class PruneView (W : Type) : Type := { rows : W -> rowmap }.

(** Only a successful deletion changes rows, and it is one batch. *)
Class PruneLaws (W : Type) `{!PruneEnv W} `{!PruneView W} : Prop := {
  pl_state : forall w, rows (pe_GetIngestionState w).2 = rows w;
  pl_count : forall m t l w, rows (pe_CountEventsBefore m t l w).2 = rows w;
  pl_archive : forall a from to w, pe_archiver = Some a -> rows (a from to w).2 = rows w;
  pl_lag : forall f job w, pe_lag = Some f -> rows (f job w).2 = rows w;
  pl_sleep : forall d w, rows (pe_sleep d w).2 = rows w;
  pl_rand : forall n w, rows (pe_rand n w).2 = rows w;
  pl_delete_err : forall m t l w e w', pe_DeleteEventsBefore m t l w = (Err e, w') -> rows w' = rows w;
  pl_delete_ok : forall m t l w n w', pe_DeleteEventsBefore m t l w = (Ok n, w') -> 0 < l ->
    batch_deleted m t l (rows w) (rows w') n }.

(** ** Removal *)

Lemma pruned_refl m t r : pruned m t r r.
Proof.
  exists []. split; [intros id Hid; by apply not_elem_of_nil in Hid|].
  symmetry. apply map_filter_id. intros k e _. apply not_elem_of_nil.
Qed.

Lemma pruned_sub m t r r' : pruned m t r r' -> r' ⊆ r.
Proof. intros (ids & _ & ->). apply map_filter_subseteq. Qed.

Lemma pruned_trans m t r1 r2 r3 : pruned m t r1 r2 -> pruned m t r2 r3 -> pruned m t r1 r3.
Proof.
  intros H1 (ids2 & H2 & ->). pose proof (pruned_sub _ _ _ _ H1) as Hsub. destruct H1 as (ids1 & H1 & ->).
  exists (ids1 ++ ids2). split.
  - intros id [Hid|Hid]%elem_of_app; [by apply H1|]. destruct (H2 id Hid) as (k & e & Hk & Hr).
    exists k, e. split; [|done]. eapply lookup_weaken; [exact Hk|exact Hsub].
  - rewrite map_filter_filter. apply map_filter_ext. intros k e _. cbn. rewrite elem_of_app. tauto.
Qed.

(** A removed row shares its id with a row that matches the policy. *)
Lemma pruned_removed m t r r' k e : pruned m t r r' -> r !! k = Some e -> r' !! k = None ->
  exists k' e', r !! k' = Some e' /\ ID e' = ID e /\ prunable m t e' = true.
Proof.
  intros (ids & Hids & ->) Hk Hn. apply Hids. destruct (decide (ID e ∈ ids)) as [|Hni]; [done|].
  exfalso. apply (not_eq_None_Some (filter (fun kv => ID kv.2 ∉ ids) r !! k)); [|done].
  exists e. by apply map_lookup_filter_Some.
Qed.

Lemma size_split (P : Event -> bool) (r : rowmap) :
  size r = (size (filter (fun kv => P kv.2 = true) r) + size (filter (fun kv => P kv.2 = false) r))%nat.
Proof.
  pose proof (map_filter_union_complement (fun kv : (string * string) * Event => P kv.2 = true) r) as Hu.
  apply (f_equal size) in Hu. rewrite map_size_disj_union in Hu by apply map_disjoint_filter_complement.
  replace (filter (fun kv => ~ P kv.2 = true) r) with (filter (fun kv => P kv.2 = false) r) in Hu; [done|].
  apply map_filter_ext. intros k e _. cbn. destruct (P e); split; congruence.
Qed.

Section Laws.
Context {W : Type} `{!PruneEnv W} `{!PruneView W} `{!PruneLaws W}.

Lemma consult_rows p w : let '(_, p', w') := consult_lag p w in rows w' = rows w /\ pr_opts p' = pr_opts p.
Proof.
  unfold consult_lag. destruct pe_lag as [f|] eqn:E; [|done].
  pose proof (pl_lag f "pruner"%string w E) as H. destruct (f _ w) as [[y reason] w']. cbn in H.
  destruct y; [done|]. by case_bool_decide.
Qed.

Lemma archive_rows m p w : let '(_, p', w') := archive_first m p w in rows w' = rows w /\ pr_opts p' = pr_opts p.
Proof.
  unfold archive_first. destruct pe_archiver as [a|] eqn:E; [|done]. destruct (ArchiveBeforePrune _); [|done].
  pose proof (pl_archive a 0 m w E) as H. by destruct (a 0 m w) as [[[|e]|] w'].
Qed.

(** The archive step went through. *)
Lemma archive_ok m p w p' w' : archive_first m p w = (Ok true, p', w') ->
  forall a, pe_archiver = Some a -> ArchiveBeforePrune (pr_opts p) = true -> a 0 m w = (None, w').
Proof.
  unfold archive_first. intros H a Ha Hb. rewrite Ha, Hb in H.
  destruct (a 0 m w) as [[[|e]|] w2]; by simplify_eq.
Qed.

(** One turn of the batch loop. *)
Lemma delete_batches_cases fuel m t total p w res p' w' : 0 < BatchSize (pr_opts p) ->
  delete_batches (S fuel) m t total p w = (res, p', w') ->
  (exists x, res = Some x /\ rows w' = rows w /\ (x.2 = None -> pe_lag <> None)) \/
  exists n w1, batch_deleted m t (BatchSize (pr_opts p)) (rows w) (rows w1) n /\
    ((exists x, res = Some x /\ rows w' = rows w1 /\ (x.2 = None -> n < BatchSize (pr_opts p) /\ x.1 = i64 (total + n))) \/
     (BatchSize (pr_opts p) <= n /\ exists p1 w2, rows w2 = rows w1 /\ pr_opts p1 = pr_opts p /\
        delete_batches fuel m t (i64 (total + n)) p1 w2 = (res, p', w'))).
Proof.
  intros Hb H. cbn [delete_batches] in H.
  destruct (if 0 <? total then consult_lag p w else (false, p, w)) as [[yield p1] w1] eqn:Ec.
  assert (Hc : rows w1 = rows w /\ pr_opts p1 = pr_opts p /\ (yield = true -> pe_lag <> None)).
  { destruct (0 <? total); [|by simplify_eq]. pose proof (consult_rows p w) as Hr. rewrite Ec in Hr. split; [apply Hr|].
    split; [apply Hr|]. intros ->. unfold consult_lag in Ec. by destruct pe_lag. }
  destruct Hc as (Hr1 & Ho1 & Hy). destruct yield; [simplify_eq; left; eexists; split; [reflexivity|]; split; [done|by intros _; apply Hy]|].
  destruct (pe_DeleteEventsBefore m t (BatchSize (pr_opts p1)) w1) as [[n|e] w2] eqn:Ed.
  2:{ simplify_eq. left. eexists. split; [reflexivity|]. rewrite (pl_delete_err _ _ _ _ _ _ Ed). by split. }
  pose proof (pl_delete_ok _ _ _ _ _ _ Ed ltac:(by rewrite Ho1)) as Hbd. rewrite Hr1, Ho1 in Hbd.
  right. exists n, w2. split; [done|]. cbn [pr_opts count_purged] in H. rewrite Ho1 in H.
  destruct (n <? BatchSize (pr_opts p)) eqn:En; to_prop; [left; simplify_eq; eexists; split; [reflexivity|done]|].
  pose proof (pl_sleep (Pause (pr_opts p)) w2) as Hs. destruct (pe_sleep _ w2) as [[|] w3]; cbn in H, Hs.
  - right. split; [done|]. by exists (count_purged n p1), w3.
  - left. simplify_eq. eexists. split; [reflexivity|]. by split.
Qed.

Lemma delete_batches_pruned fuel : forall m t total p w res p' w', 0 < BatchSize (pr_opts p) ->
  delete_batches fuel m t total p w = (res, p', w') -> pruned m t (rows w) (rows w').
Proof.
  induction fuel as [|f IH]; intros m t total p w res p' w' Hb H; [injection H as <- <- <-; apply pruned_refl|].
  apply delete_batches_cases in H as [(x & _ & -> & _)|(n & w1 & Hbd & Hc)]; [apply pruned_refl| |done].
  pose proof (bd_pruned _ _ _ _ _ _ Hbd) as Hp.
  destruct Hc as [(x & _ & -> & _)|(_ & p1 & w2 & Hr & Ho & H)]; [done|].
  eapply pruned_trans; [exact Hp|]. rewrite <- Hr. eapply IH; [|exact H]. by rewrite Ho.
Qed.

(** Every full batch removes a row, so the loop ends. *)
Lemma delete_batches_total fuel : forall m t total p w, 0 < BatchSize (pr_opts p) -> (size (rows w) < fuel)%nat ->
  (delete_batches fuel m t total p w).1.1 <> None.
Proof.
  induction fuel as [|f IH]; intros m t total p w Hb Hf; [lia|].
  destruct (delete_batches (S f) m t total p w) as [[res p'] w'] eqn:E. cbn. intros ->.
  apply delete_batches_cases in E as [(x & [=] & _)|(n & w1 & Hbd & Hc)]; [|done].
  destruct Hc as [(x & [=] & _)|(Hn & p1 & w2 & Hr & Ho & H)].
  pose proof (bd_count _ _ _ _ _ _ Hbd). specialize (IH m t (i64 (total + n)) p1 w2).
  rewrite H in IH. apply IH; [by rewrite Ho|rewrite Hr; lia|done].
Qed.

(** Without a lag controller a clean end means that nothing matching is left,
    and the total is the number of rows removed. *)
Lemma delete_batches_complete fuel : forall m t total p w x p' w', 0 < BatchSize (pr_opts p) -> pe_lag = None ->
  0 <= total -> total + Z.of_nat (size (rows w)) <= maxInt64 ->
  delete_batches fuel m t total p w = (Some (x, None), p', w') ->
  (forall k e, rows w' !! k = Some e -> prunable m t e = false) /\
  x = total + Z.of_nat (size (rows w)) - Z.of_nat (size (rows w')).
Proof.
  induction fuel as [|f IH]; intros m t total p w x p' w' Hb Hlag Ht Hsz H; [done|].
  apply delete_batches_cases in H as [([y e] & [= <- <-] & Hr & Hl)|(n & w1 & Hbd & Hc)]; [by specialize (Hl eq_refl)| |done].
  pose proof (bd_count _ _ _ _ _ _ Hbd) as Hn.
  pose proof (map_subseteq_size _ _ (pruned_sub _ _ _ _ (bd_pruned _ _ _ _ _ _ Hbd))) as Hle.
  assert (Hid : i64 (total + n) = total + n) by (apply i64_id; unfold in_i64, minInt64, maxInt64 in *; lia).
  destruct Hc as [([y e] & [= <- <-] & Hr & Hd)|(_ & p1 & w2 & Hr & Ho & H)].
  - destruct (Hd eq_refl) as [Hlt Hx]. cbn in Hx. rewrite Hr. split; [apply (bd_done _ _ _ _ _ _ Hbd Hlt)|lia].
  - apply IH in H; [|by rewrite Ho|done|rewrite Hid; lia|rewrite Hid, Hr; lia].
    destruct H as [H1 H2]. split; [done|]. rewrite Hid, Hr in H2. lia.
Qed.

Lemma count_batches_rows fuel : forall m t total p w, rows (count_batches fuel m t total p w).2 = rows w.
Proof.
  induction fuel as [|f IH]; intros m t total p w; cbn [count_batches]; [done|].
  pose proof (pl_count m t (BatchSize (pr_opts p)) w) as Hc.
  destruct (pe_CountEventsBefore _ _ _ w) as [[n|e] w1]; cbn in Hc |- *; [|done].
  destruct (n <? _); [done|]. pose proof (pl_sleep (Pause (pr_opts p)) w1) as Hs.
  destruct (pe_sleep _ w1) as [[|] w2]; cbn in Hs |- *; [rewrite IH; congruence|congruence].
Qed.

(** What a sweep has done before its first deletion: it did not yield, it read the
    state, and where archiving is on its own call for the range succeeded; [w3] is
    the world it deletes in. *)
Definition sweep_prepared (p : Pruner) (w : W) (ing : IngestionState) (w2 w3 : W) : Prop :=
  exists p1 w1, consult_lag p w = (false, p1, w1) /\ pe_GetIngestionState w1 = (Ok ing, w2) /\ 0 < LastIngestedLedger ing /\
  rows w3 = rows w /\
  forall a, pe_archiver = Some a -> ArchiveBeforePrune (pr_opts p) = true ->
    a 0 (sweep_bound (pr_opts p) (LastIngestedLedger ing)) w2 = (None, w3).

(** A sweep either leaves the rows alone, or runs the batch loop with a bound
    and a cutoff computed from the state it has read. *)
Lemma pruneOnce_cases fuel p w res p' w' : pruneOnce fuel p w = (res, p', w') ->
  (rows w' = rows w /\ (DryRun (pr_opts p) = false -> res <> None)) \/
  DryRun (pr_opts p) = false /\ exists ing w2 p3 w3,
    sweep_prepared p w ing w2 w3 /\ pr_opts p3 = pr_opts p /\
    delete_batches fuel (sweep_bound (pr_opts p) (LastIngestedLedger ing)) (sweep_cutoff (pr_opts p) (pe_now w2)) 0 p3 w3 =
      (res, p', w').
Proof.
  intros H. unfold pruneOnce in H. pose proof (consult_rows p w) as Hc.
  destruct (consult_lag p w) as [[yield p1] w1] eqn:Ec. destruct Hc as [Hr1 Ho1].
  destruct yield; [simplify_eq; by left|].
  pose proof (pl_state w1) as Hs. destruct (pe_GetIngestionState w1) as [[ing|e] w2] eqn:Eg; cbn in Hs.
  2:{ left. assert (Hw : w' = w2 /\ res <> None).
      { destruct e as [[]|]; by simplify_eq. }
      destruct Hw as [-> Hne]. split; [congruence|done]. }
  destruct (LastIngestedLedger ing <=? 0) eqn:El; to_prop; [simplify_eq; left; by split; [congruence|]|].
  set (m := sweep_bound _ _) in H. set (t := sweep_cutoff _ _) in H. pose proof (archive_rows m p1 w2) as Ha.
  destruct (archive_first m p1 w2) as [[[[|]|e] p3] w3] eqn:Ea; destruct Ha as [Hr3 Ho3];
    [|simplify_eq; left; by split; [congruence|]..].
  rewrite Ho3, Ho1 in H. destruct (DryRun (pr_opts p)) eqn:Ed.
  - left. split; [|done]. unfold dryRunSweep in H. pose proof (count_batches_rows fuel m t 0 p3 w3) as Hcr. rewrite H in Hcr.
    cbn in Hcr. congruence.
  - right. split; [done|]. exists ing, w2, p3, w3. unfold m, t in *. rewrite Ho1 in *.
    split; [|split; [congruence|done]]. exists p1, w1. split_and!; [done|done|done|congruence|].
    rewrite <- Ho1. rewrite <- Ho1 in Ea. by apply (archive_ok _ _ _ _ _ Ea).
Qed.

Lemma sweep_bound_le o last : 0 < last -> 0 <= MinLedger o ->
  sweep_bound o last <= last /\ (0 < MinLedger o -> in_i64 last -> sweep_bound o last <= MinLedger o).
Proof.
  unfold in_i64, sweep_bound. intros Hp Hm.
  assert (Hu : u64 last <= last) by (unfold u64, wrapu; apply Z.mod_le; lia).
  assert (Hi : i64 (MinLedger o) <= MinLedger o).
  { unfold i64, wraps. pose proof (Z.mod_le (MinLedger o + 2 ^ (64 - 1)) (2 ^ 64) ltac:(lia) ltac:(lia)). lia. }
  destruct (_ && _)%bool eqn:E; to_prop; [lia|]. split; [lia|]. intros H0 Hr.
  assert (u64 last = last) by (unfold u64, wrapu; apply Z.mod_small; unfold maxInt64 in *; lia).
  apply andb_false_iff in E as [E|E]; to_prop; lia.
Qed.



(** A sweep that may delete always comes to an end: every full batch removes
    rows, so as many turns as there are rows are enough. *)
Theorem prune_sweep_terminates fuel p w : 0 < BatchSize (pr_opts p) -> DryRun (pr_opts p) = false ->
  (size (rows w) < fuel)%nat -> (pruneOnce fuel p w).1.1 <> None.
Proof.
  intros Hb Hd Hf. destruct (pruneOnce fuel p w) as [[res p'] w'] eqn:E. cbn. intros ->.
  apply pruneOnce_cases in E as [[_ Hne]|(_ & ing & w2 & p3 & w3 & (p1 & w1 & _ & _ & _ & Hr & _) & Ho & H)]; [by apply Hne|].
  pose proof (delete_batches_total fuel (sweep_bound (pr_opts p) (LastIngestedLedger ing))
    (sweep_cutoff (pr_opts p) (pe_now w2)) 0 p3 w3 ltac:(by rewrite Ho) ltac:(by rewrite Hr)) as Ht.
  by rewrite H in Ht.
Qed.

End Laws.
