(* ===== verification/PrunerSim.v ===== *)
(** * The pruner over the SQLite tables

    The SQLite statements keep the laws of Pruner.v for every scan order,
    and the theorems are run on concrete tables. Two concrete runs show where
    the sweep goes beyond its policy or does not come to an end. *)

From S2P Require Import Prelude GoStrings StoreErrors StoreTypes SqliteStore Pruner.
From Stdlib Require Import Ascii String.
Local Open Scope Z_scope.
Local Notation length := List.length.

(** ** The statements *)

Lemma elem_of_prunable (m t : Z) (r : rowmap) (e : Event) :
  e ∈ prunable_rows m t r <-> prunable m t e = true /\ exists k, r !! k = Some e.
Proof.
  unfold prunable_rows. rewrite list_elem_of_filter, list_elem_of_fmap. split.
  - intros [Hp ([k x] & -> & Hk)]. split; [done|]. exists k. by apply elem_of_map_to_list.
  - intros [Hp [k Hk]]. split; [done|]. exists (k, e). split; [done|]. by apply elem_of_map_to_list.
Qed.

Lemma filter_all {A} (P : A -> Prop) `{forall x, Decision (P x)} l : Forall P l -> filter P l = l.
Proof. induction 1; [done|]. rewrite filter_cons_True by done. by f_equal. Qed.

Lemma filter_values_length (P : Event -> bool) (l : list ((string * string) * Event)) :
  length (filter (fun kv => P kv.2 = true) l) = length (filter (fun e => P e = true) l.*2).
Proof.
  induction l as [|[k e] l IH]; [done|]. rewrite fmap_cons, !filter_cons. cbn [snd].
  destruct (decide (P e = true)); cbn; by rewrite IH.
Qed.

(** The rows found by id are at least as many as the rows picked. *)
Lemma picked_le (P : Event -> bool) (m t : Z) (r : rowmap) (l : list Event) n :
  l ≡ₚ prunable_rows m t r -> (forall e, e ∈ take n l -> P e = true) ->
  (length (take n l) <= size (filter (fun kv => P kv.2 = true) r))%nat.
Proof.
  intros Hl HP. set (L := (map_to_list r).*2).
  assert (Hperm : L ≡ₚ (take n l ++ drop n l) ++ filter (fun e => ~ prunable m t e = true) L).
  { rewrite take_drop, Hl. symmetry. apply filter_app_complement. }
  assert (Hsz : size (filter (fun kv : (string * string) * Event => P kv.2 = true) r) =
                length (filter (fun e => P e = true) L)).
  { unfold L. rewrite <- filter_values_length. rewrite <- length_map_to_list. apply Permutation_length.
    apply NoDup_Permutation; [apply NoDup_map_to_list|apply list.NoDup_filter, NoDup_map_to_list|].
    intros [k e]. by rewrite elem_of_map_to_list, list_elem_of_filter, elem_of_map_to_list, map_lookup_filter_Some, (comm and). }
  rewrite Hsz. rewrite Hperm.
  rewrite !list.filter_app, !length_app.
  assert (filter (fun e => P e = true) (take n l) = take n l) as ->; [|lia].
  apply filter_all. by apply list.Forall_forall.
Qed.

Lemma DeleteEventsBefore_batch scan (m t l : Z) d n d' : (forall x, scan x ≡ₚ x) -> 0 < l ->
  DeleteEventsBefore scan m t l d = (n, d') -> batch_deleted m t l (t_events d) (t_events d') n.
Proof.
  intros Hscan Hl. unfold DeleteEventsBefore. rewrite (proj2 (Z.leb_gt _ _) Hl).
  set (picked := take (Z.to_nat l) (scan (prunable_rows m t (t_events d)))).
  set (P e := bool_decide (ID e ∈ ID <$> picked)). intros [= <- <-].
  change (batch_deleted m t l (t_events d) (filter (fun kv : (string * string) * Event => P kv.2 = false) (t_events d))
    (Z.of_nat (size (filter (fun kv : (string * string) * Event => P kv.2 = true) (t_events d))))).
  assert (Hsplit : Z.of_nat (size (t_events d)) =
    Z.of_nat (size (filter (fun kv : (string * string) * Event => P kv.2 = true) (t_events d))) +
    Z.of_nat (size (filter (fun kv : (string * string) * Event => P kv.2 = false) (t_events d)))).
  { pose proof (size_split P (t_events d)). lia. }
  split; [|lia|].
  - exists (ID <$> picked). split.
    + intros id Hid. apply list_elem_of_fmap in Hid as (e & -> & He). apply elem_of_take in He as (i & Hi & _).
      apply list_elem_of_lookup_2 in Hi. rewrite (Hscan _) in Hi. apply elem_of_prunable in Hi as [Hp [k Hk]]. by exists k, e.
    + apply map_filter_ext. intros k e _. cbn. unfold P. by rewrite bool_decide_eq_false.
  - intros Hlt k e Hk. apply map_lookup_filter_Some in Hk as [Hk Hp]. cbn in Hp.
    destruct (prunable m t e) eqn:Epr; [|done]. exfalso.
    assert (Hle : (length picked <= size (filter (fun kv : (string * string) * Event => P kv.2 = true) (t_events d)))%nat).
    { apply (picked_le P m t); [apply Hscan|]. intros x Hx. unfold P. apply bool_decide_eq_true, list_elem_of_fmap. by exists x. }
    assert (Hall : picked = scan (prunable_rows m t (t_events d))).
    { apply take_ge. unfold picked in Hle. rewrite length_take in Hle. lia. }
    assert (He : e ∈ picked) by (rewrite Hall, (Hscan _); apply elem_of_prunable; by split; [|exists k]).
    unfold P in Hp. apply bool_decide_eq_false in Hp. apply Hp, list_elem_of_fmap. by exists e.
Qed.

(** ** The world *)

(** The tables, a script of statement failures and a clock. *)
Record PWorld : Type := mkPWorld {
  pw_db : DB;
  pw_faults : list (option error);
  pw_clock : Z }.

Definition stmt {A} (f : DB -> result error A * DB) (w : PWorld) : result error A * PWorld :=
  match pw_faults w with
  | Some e :: fs => (Err e, mkPWorld (pw_db w) fs (pw_clock w))
  | None :: fs => let '(a, d) := f (pw_db w) in (a, mkPWorld d fs (pw_clock w))
  | [] => let '(a, d) := f (pw_db w) in (a, mkPWorld d [] (pw_clock w))
  end.

Lemma stmt_cases {A} (f : DB -> result error A * DB) w r w' : stmt f w = (r, w') ->
  (exists e, r = Err e /\ pw_db w' = pw_db w) \/ f (pw_db w) = (r, pw_db w').
Proof.
  unfold stmt. destruct (pw_faults w) as [|[e|] fs]; [|intros [= <- <-]; left; by exists e|];
    destruct (f (pw_db w)) as [a d]; intros [= <- <-]; by right.
Qed.

Section Env.
Context (scan : list Event -> list Event) (scan_perm : forall x, scan x ≡ₚ x).
Context (archiver : option (Z -> Z -> PWorld -> option archive_error * PWorld)).
Context (lag : option (string -> PWorld -> (bool * string) * PWorld)).
Context (archiver_db : forall a from to w, archiver = Some a -> pw_db (a from to w).2 = pw_db w).
Context (lag_db : forall f job w, lag = Some f -> pw_db (f job w).2 = pw_db w).

Definition sqlite_prune : PruneEnv PWorld := {|
  pe_GetIngestionState := stmt (fun d => (GetIngestionState d, d));
  pe_DeleteEventsBefore m t l := stmt (fun d => let '(n, d') := DeleteEventsBefore scan m t l d in (Ok n, d'));
  pe_CountEventsBefore m t l := stmt (fun d => (Ok (CountEventsBefore m t l d), d));
  pe_archiver := archiver;
  pe_lag := lag;
  pe_sleep d w := (true, mkPWorld (pw_db w) (pw_faults w) (pw_clock w + d));
  pe_now := pw_clock;
  pe_rand n w := (0, w) |}.

Definition sqlite_prune_view : PruneView PWorld := {| rows w := t_events (pw_db w) |}.

Lemma sqlite_prune_laws : @PruneLaws PWorld sqlite_prune sqlite_prune_view.
Proof.
  assert (Hsame : forall A (g : DB -> result error A) w, t_events (pw_db (stmt (fun d => (g d, d)) w).2) = t_events (pw_db w)).
  { intros A g w. destruct (stmt (fun d => (g d, d)) w) as [r w'] eqn:E. cbn.
    apply stmt_cases in E as [(e & _ & ->)|[= _ <-]]; done. }
  split; cbn -[stmt]; try done.
  - intros a from to w Ha. by rewrite archiver_db.
  - intros f job w Hf. by rewrite lag_db.
  - intros m t l w e w' H. apply stmt_cases in H as [(e' & _ & ->)|H]; [done|]. by destruct (DeleteEventsBefore _ _ _ _ _).
  - intros m t l w n w' H Hl. apply stmt_cases in H as [(e' & [=] & _)|H].
    destruct (DeleteEventsBefore scan m t l (pw_db w)) as [n' d'] eqn:E. injection H as -> <-.
    by apply (DeleteEventsBefore_batch scan m t l (pw_db w) n d').
Qed.

End Env.

(** ** Concrete sweeps *)

Definition row (net id : string) (ledger created : Z) : Event :=
  mkEvent id "C" ledger "contract" "tx" 0 0 true "[]" "v" created net [] "".

Definition demo_rows : list Event :=
  [row "default" "e1" 1 100; row "default" "e2" 2 200; row "default" "e3" 3 300; row "default" "e8" 8 100;
   row "default" "e9" 9 900].

Definition demo_db : DB :=
  SaveIngestionState (mkIngestionState "default" 9 "" None) ((UpsertEvents demo_rows db_empty).2).

(** An archiver that succeeds, and no controller. *)
Definition demo_archiver : option (Z -> Z -> PWorld -> option archive_error * PWorld) := Some (fun _ _ w => (None, w)).
Definition demo_env : PruneEnv PWorld := sqlite_prune (fun l => rev l) demo_archiver None.
Definition plain_env : PruneEnv PWorld := sqlite_prune (fun l => rev l) None None.

Lemma demo_laws : @PruneLaws PWorld demo_env sqlite_prune_view.
Proof.
  apply sqlite_prune_laws; [intros x; symmetry; apply Permutation_rev| |done]. by intros a from to w [= <-].
Qed.
Lemma plain_laws : @PruneLaws PWorld plain_env sqlite_prune_view.
Proof. apply sqlite_prune_laws; [intros x; symmetry; apply Permutation_rev|done|done]. Qed.

(** Keep what is younger than 150 time units; two rows per batch. *)
Definition demo_pruner : Pruner := NewPruner (mkOptions 850 0 2 1 10 true false).
Definition demo_world : PWorld := mkPWorld demo_db [] 1000.

Definition ids_unique (r : rowmap) : bool :=
  bool_decide (Forall (fun kv => Forall (fun kv' => ID kv.2 = ID kv'.2 -> kv.1 = kv'.1) (map_to_list r)) (map_to_list r)).

Lemma ids_unique_spec (r : rowmap) : ids_unique r = true ->
  forall k k' e e', r !! k = Some e -> r !! k' = Some e' -> ID e = ID e' -> k = k'.
Proof.
  intros H k k' e e' Hk Hk' Hid. apply bool_decide_eq_true in H. rewrite list.Forall_forall in H.
  apply elem_of_map_to_list in Hk, Hk'. specialize (H (k, e) Hk). cbn in H. rewrite list.Forall_forall in H.
  by apply (H (k', e') Hk').
Qed.



Lemma prune_sweep_terminates_witness : (@pruneOnce PWorld plain_env 6 demo_pruner demo_world).1.1 <> None.
Proof.
  apply (@prune_sweep_terminates PWorld plain_env sqlite_prune_view plain_laws 6 demo_pruner demo_world);
    vm_compute; (reflexivity || lia).
Defined.

(** *** Dry runs *)

(** A dry run deletes nothing, so a full batch is counted again and again: with
    at least BatchSize matching rows it never ends. *)
Lemma dry_run_never_ends fuel m t total p d clock : 0 <= BatchSize (pr_opts p) ->
  BatchSize (pr_opts p) <= Z.of_nat (length (prunable_rows m t (t_events d))) ->
  (@count_batches PWorld plain_env fuel m t total p (mkPWorld d [] clock)).1.1 = None.
Proof.
  intros H0 Hn. revert total clock. induction fuel as [|f IH]; intros total clock; [done|].
  cbn -[CountEventsBefore]. unfold CountEventsBefore. rewrite (proj2 (Z.ltb_ge _ _) H0), Z.min_l by done.
  rewrite Z.ltb_irrefl. cbn. apply IH.
Qed.

(** With fewer, the sweep reports them and Run starts the next one without its
    pause: after five sweeps no time has passed. *)
Lemma dry_run_spins :
  let p := NewPruner (mkOptions 850 0 10 1 10 false true) in
  let r := @RunPruner PWorld plain_env 6 5 p demo_world in
  r.1.1 = Some (StillRunning Second) /\ runsCompleted r.1.2 = 5 /\ pw_clock r.2 = pw_clock demo_world.
Proof. vm_compute. auto. Qed.

(** *** Networks *)

(** The deletion matches on the id alone: a row of another network with the same
    id goes too, though it is younger than the cutoff. *)
Lemma prune_crosses_networks :
  let d := (UpsertEvents [row "other" "e1" 1 990] demo_db).2 in
  let w' := (@pruneOnce PWorld plain_env 6 demo_pruner (mkPWorld d [] 1000)).2 in
  prunable 9 150 (row "other" "e1" 1 990) = false /\
  t_events d !! ("other", "e1")%string = Some (row "other" "e1" 1 990) /\
  t_events (pw_db w') !! ("other", "e1")%string = None.
Proof. vm_compute. auto. Qed.
