(* ===== verification/Horizon.v ===== *)
(** * The Horizon client and event extraction (internal/horizon/)

    The request of a page of a contract's transactions, and the conversion of a
    transaction's meta into event rows. The HTTP transport is an argument of the
    client; the XDR codec of the Stellar SDK is the class [XdrSdk], which has the
    parts of its types that the code looks at. *)

From S2P Require Import Prelude GoStrings GoJson RpcTypes StoreTypes.
From Stdlib Require Import Ascii String.
Local Open Scope Z_scope.
Local Open Scope go_scope.

Local Notation length := List.length.

(** fmt.Errorf with the cause at the end: the text followed by "%w". *)
Definition errorf_w (text : string) (e : rerror) : rerror := RErr KPlain (text +++ rmsg e) [e].
Definition errors_New (text : string) : rerror := RErr KPlain text [].

(** ** types.go: the fields of a transaction that are used *)

Record Transaction : Type := mkTx {
  tx_ID : string;
  tx_PagingToken : string;
  tx_Hash : string;
  tx_Ledger : Z;
  tx_CreatedAt : string;
  tx_ResultMetaXDR : string;
  tx_ResultCode : string }.

#[export] Instance Transaction_eq_dec : EqDecision Transaction.
Proof. solve_decision. Defined.

(** ** client.go *)

Definition ErrRateLimited : rerror := RErr KHorizonRateLimited "horizon rate limited" [].
Definition ErrNotFound : rerror := RErr KHorizonNotFound "horizon not found" [].

(** The digits of a positive number, the last first; the fuel is the size of the
    buffer. *)
Fixpoint itoa_loop (fuel : nat) (n : Z) (acc : string) : string :=
  match fuel with
  | O => acc
  | S f => if 0 <? n then itoa_loop f (goquot n 10) (String (digit_char (Z.rem n 10)) acc) else acc
  end.
Definition itoa (n : Z) : string := if n =? 0 then "0" else itoa_loop 20 n "".

Definition urlValues (cursor : string) (limit : Z) (includeFailed : bool) : string :=
  "limit=" +++ itoa limit +++ "&order=asc" +++
  (if includeFailed then "&include_failed=true" else "&include_failed=false") +++
  (if bool_decide (cursor = "") then "" else "&cursor=" +++ cursor).

Definition truncate (b : string) (n : nat) : string :=
  if (String.length b <=? n)%nat then b else substring 0 n b +++ "...".

(** The page size that is asked for. *)
Definition clamp_limit (limit : Z) : Z := if (limit <=? 0) || (200 <? limit) then 200 else limit.

(** intervalLimiter.Wait: the time to wait, and the next free slot. *)
Definition interval_slot (interval next now : Z) : Z * Z :=
  let wait := Z.max 0 (time_Sub next now) in (wait, now + i64 (wait + interval)).

(** [limiterWait] is limiter.Wait, [send] the request with its body read (and the
    errors of building, sending and reading it), [decode] json.Unmarshal of the
    body. *)
Section Client.
Context {W : Type} (baseURL : string).
Context (limiterWait : W -> option rerror * W).
Context (send : string -> W -> result rerror (Z * string) * W).
Context (decode : string -> result rerror (list Transaction)).

Definition ListContractTransactions (contractID cursor : string) (limit : Z) (includeFailed : bool) (w : W)
    : result rerror (list Transaction) * W :=
  if bool_decide (contractID = "") then (Err (errors_New "horizon: contractID is required"), w)
  else
    let url := baseURL +++ "/accounts/" +++ contractID +++ "/transactions?" +++
               urlValues cursor (clamp_limit limit) includeFailed in
    let '(werr, w) := limiterWait w in
    match werr with
    | Some e => (Err e, w)
    | None =>
        let '(r, w) := send url w in
        match r with
        | Err e => (Err e, w)
        | Ok (status, body) =>
            (if status =? 200 then
               match decode body with
               | Err e => Err (errorf_w "decoding horizon response: " e)
               | Ok records => Ok records
               end
             else if status =? 429 then Err ErrRateLimited
             else if status =? 404 then Err ErrNotFound
             else Err (errors_New ("horizon returned HTTP " +++ FormatInt status +++ ": " +++ truncate body 200)), w)
        end
    end.
End Client.

(** ** extract.go *)

(** xdr.ContractEvent: the contract's hash, whether the type is SYSTEM, and the
    data of a V0 body. *)
Record ContractEvent (V : Type) : Type := mkCE {
  ce_ContractId : option string;
  ce_System : bool;
  ce_Data : option V }.
Arguments mkCE {V}. Arguments ce_ContractId {V}. Arguments ce_System {V}. Arguments ce_Data {V}.

(** xdr.TransactionMeta; [None] is an absent arm or Soroban meta. A V4 meta has
    the events of its operations and those of the transaction. *)
Inductive TransactionMeta (V : Type) : Type :=
  | MetaV3 (events : option (list (ContractEvent V)))
  | MetaV4 (arm : option (list (list (ContractEvent V)) * list (ContractEvent V)))
  | MetaOther.
Arguments MetaV3 {V}. Arguments MetaV4 {V}. Arguments MetaOther {V}.

(** The SDK: xdr.SafeUnmarshalBase64, xdr.MarshalBase64, ScVal.GetVec ([Some
    None] is a nil vector) and Hash.HexString. *)
Class XdrSdk : Type := {
  ScVal : Type;
  UnmarshalMeta : string -> result string (TransactionMeta ScVal);
  MarshalScVal : ScVal -> option string;
  GetVec : ScVal -> option (option (list ScVal));
  HexString : string -> string }.

Record TxHint : Type := mkHint {
  th_Hash : string;
  th_Ledger : Z;
  th_CreatedAt : string;
  th_ResultCode : string;
  th_ResultMetaXDR : string;
  th_TxIndexInLedger : Z }.

Record Extracted : Type := mkExtracted {
  ex_Events : list Event;
  ex_Failed : bool;
  ex_HadMeta : bool;
  ex_HadEvents : bool }.

Definition formatEventID (txHash : string) (ledger opIndex eventIndex : Z) : string :=
  txHash +++ "-" +++ pad_digits 20 ledger +++ "-" +++ pad_digits 5 opIndex +++ "-" +++ pad_digits 5 eventIndex.

Definition eventKind (system : bool) : string := if system then "system" else "contract".

(** The escapes json.Marshal adds to a copied message: less-than, greater-than,
    ampersand, U+2028 and U+2029. *)
Fixpoint escape_html (s : string) : string :=
  let u (t : string) : string := String (byte_of 92) (String "u" t) in
  match s with
  | EmptyString => ""
  | String c s' =>
      if is_chr 60 c then u "003c" +++ escape_html s'
      else if is_chr 62 c then u "003e" +++ escape_html s'
      else if is_chr 38 c then u "0026" +++ escape_html s'
      else match s' with
           | String d (String e r) =>
               if is_chr 226 c && is_chr 128 d && is_chr 168 e then u "2028" +++ escape_html r
               else if is_chr 226 c && is_chr 128 d && is_chr 169 e then u "2029" +++ escape_html r
               else String c (escape_html s')
           | _ => String c (escape_html s')
           end
  end.

(** json.Marshal of a []json.RawMessage. *)
Definition marshal_raws (l : list string) : option string :=
  (fun cs => "[" +++ String.concat "," (escape_html <$> cs) +++ "]") <$> mapM json_Compact l.

Section Extract.
Context `{XdrSdk}.
(** decode.Decoder's DecodeScVal, and time.Parse for RFC 3339 (the zero time when
    it fails). *)
Context (DecodeScVal : string -> option string) (parseTime : string -> Z).

Definition encodeScVal (v : ScVal) : option string := MarshalScVal v.

Definition decodeOne (base64XDR : string) : option string :=
  if bool_decide (base64XDR = "") then Some "null" else DecodeScVal base64XDR.

(** The topics of a vector: decoded, and the non-empty raw forms. *)
Fixpoint decode_topics (l : list ScVal) : option (list string * list string) :=
  match l with
  | [] => Some ([], [])
  | v :: l' =>
      let raw := default "" (encodeScVal v) in
      match decodeOne raw with
      | None => None
      | Some t =>
          match decode_topics l' with
          | None => None
          | Some (ts, raws) => Some (t :: ts, if bool_decide (raw = "") then raws else raw :: raws)
          end
      end
  end.

Definition eventPayloads (ev : ContractEvent ScVal) : option (string * string * list string * string) :=
  match ce_Data ev with
  | None => None
  | Some data =>
      match GetVec data with
      | Some (Some vec) =>
          match list.last vec with
          | None => Some ("[]", "null", [], "")
          | Some v =>
              match decode_topics (removelast vec) with
              | None => None
              | Some (topics, raws) =>
                  let raw := default "" (encodeScVal v) in
                  match decodeOne raw with
                  | None => None
                  | Some val => (fun tj => (tj, val, raws, raw)) <$> marshal_raws topics
                  end
              end
          end
      | _ =>
          match encodeScVal data with
          | None => None
          | Some raw => (fun val => ("[]", val, [], raw)) <$> decodeOne raw
          end
      end
  end.

Definition success_code (code : string) : bool :=
  bool_decide (code = "txSuccess") || bool_decide (code = "txFeeBumpInnerSuccess").

Definition buildEvent (contractID : string) (tx : TxHint) (createdAt : Z) (ev : ContractEvent ScVal)
    (opIndex eventIndex : Z) : option Event :=
  match ce_ContractId ev with
  | None => None
  | Some h =>
      let candidate := HexString h in
      if negb (bool_decide (contractID = "")) && negb (bool_decide (candidate = contractID)) then None
      else
        match eventPayloads ev with
        | None => None
        | Some (topics, value, rawTopics, rawValue) =>
            Some (mkEvent (formatEventID (th_Hash tx) (th_Ledger tx) opIndex eventIndex) candidate (th_Ledger tx)
                    (eventKind (ce_System ev)) (th_Hash tx) (th_TxIndexInLedger tx) opIndex
                    (success_code (th_ResultCode tx)) topics value createdAt "" rawTopics rawValue)
        end
  end.

(** The rows of a list of events at consecutive indices. *)
Definition build_all (contractID : string) (tx : TxHint) (createdAt : Z) (opIndex : Z) (evs : list (ContractEvent ScVal))
    : list Event :=
  omap id (imap (fun i ev => buildEvent contractID tx createdAt ev opIndex (i32 (Z.of_nat i))) evs).

Definition meta_events (contractID : string) (tx : TxHint) (createdAt : Z) (meta : TransactionMeta ScVal) : list Event :=
  match meta with
  | MetaV3 (Some evs) => build_all contractID tx createdAt 0 evs
  | MetaV4 (Some (ops, evs)) =>
      mjoin (imap (fun i op => build_all contractID tx createdAt (i32 (Z.of_nat i)) op) ops) ++
      omap (fun ev => buildEvent contractID tx createdAt ev 0 0) evs
  | _ => []
  end.

Definition DecodeMeta (base64XDR : string) : result string (TransactionMeta ScVal) :=
  if bool_decide (base64XDR = "") then Err "empty meta"
  else match UnmarshalMeta base64XDR with
       | Err m => Err ("unmarshaling transaction meta: " +++ m)
       | Ok meta => Ok meta
       end.

Definition ExtractContractEvents (contractID : string) (tx : TxHint) : result string Extracted :=
  let failed := negb (bool_decide (th_ResultCode tx = "")) && negb (success_code (th_ResultCode tx)) in
  if bool_decide (th_ResultMetaXDR tx = "") then Ok (mkExtracted [] failed false false)
  else
    match DecodeMeta (th_ResultMetaXDR tx) with
    | Err m => Err m
    | Ok meta =>
        let evs := meta_events contractID tx (parseTime (th_CreatedAt tx)) meta in
        Ok (mkExtracted evs failed true (negb (bool_decide (evs = []))))
    end.

End Extract.

(** * The rows extracted from a transaction *)


(** The key of a row within its network. *)
Definition ekey (e : Event) : Z * string := (Ledger e, ID e).

(** ** Identifiers *)

Lemma append_inj_l (a b c : string) : a +++ b = a +++ c -> b = c.
Proof. induction a as [|x a IH]; cbn; [done|]. intros [=]. auto. Qed.

Lemma pad_digits_digits w n : 0 <= n -> str_all is_digit (pad_digits w n) = true.
Proof. intros. unfold pad_digits. destruct (Z.ltb_spec n 0); [lia|]. apply fixed_digits_all_digits. Qed.

Lemma parse_pad_digits w n : 0 <= n -> parse_digits 0 (pad_digits w n) = Some n.
Proof.
  intros Hn. unfold pad_digits. destruct (Z.ltb_spec n 0); [lia|]. rewrite parse_fixed_digits by done.
  f_equal. rewrite Z.mul_0_l, Z.add_0_l. apply Z.mod_small. split; [done|].
  pose proof (ndigits_spec n Hn). eapply Z.lt_le_trans; [eassumption|]. apply Z.pow_le_mono_r; lia.
Qed.

Lemma formatEventID_inj h l op ev op' ev' : 0 <= op -> 0 <= ev -> 0 <= op' -> 0 <= ev' ->
  formatEventID h l op ev = formatEventID h l op' ev' -> op = op' /\ ev = ev'.
Proof.
  intros H1 H2 H3 H4 E. unfold formatEventID in E.
  apply append_inj_l in E. apply append_inj_l in E. apply append_inj_l in E. apply append_inj_l in E.
  assert (Hc : forall n s, 0 <= n -> cut_first "-" (pad_digits 5 n +++ "-" +++ s) = Some (pad_digits 5 n, s)).
  { intros n s Hn. apply cut_first_app. eapply str_all_contains; [by apply pad_digits_digits|done]. }
  pose proof (Hc op (pad_digits 5 ev) H1) as C. rewrite E, (Hc op' _ H3) in C. injection C as Ca Cb.
  pose proof (parse_pad_digits 5 op H1) as P. rewrite <- Ca, (parse_pad_digits 5 op' H3) in P.
  pose proof (parse_pad_digits 5 ev H2) as Q. rewrite <- Cb, (parse_pad_digits 5 ev' H4) in Q. by simplify_eq.
Qed.

Lemma omap_fmap_ext {A B C} (g : B -> C) (f f' : A -> option B) (l : list A) :
  (forall x, g <$> f x = g <$> f' x) -> g <$> omap f l = g <$> omap f' l.
Proof.
  intros H. induction l as [|x l IH]; [done|]. cbn. pose proof (H x) as H0.
  destruct (f x), (f' x); cbn in H0 |- *; try done. injection H0 as ->. by f_equal.
Qed.

Lemma omap_imap_fmap {A B C} (g : B -> C) (f f' : nat -> A -> option B) l :
  (forall i x, g <$> f i x = g <$> f' i x) -> g <$> omap id (imap f l) = g <$> omap id (imap f' l).
Proof.
  revert f f'. induction l as [|x l IH]; intros f f' H; [done|]. cbn.
  pose proof (H 0%nat x) as H0. specialize (IH (f ∘ S) (f' ∘ S) (fun i => H (S i))).
  destruct (f 0%nat x), (f' 0%nat x); cbn in *; simplify_eq; cbn; congruence.
Qed.

Lemma join_imap_fmap {A B C} (g : B -> C) (f f' : nat -> A -> list B) l :
  (forall i x, g <$> f i x = g <$> f' i x) -> g <$> mjoin (imap f l) = g <$> mjoin (imap f' l).
Proof.
  revert f f'. induction l as [|x l IH]; intros f f' H; [done|]. cbn.
  rewrite !fmap_app. f_equal; [apply H|]. apply (IH (f ∘ S) (f' ∘ S)). intros. apply H.
Qed.

Lemma elem_omap_imap {A B} (f : nat -> A -> option B) l y :
  y ∈ omap id (imap f l) <-> exists i x, l !! i = Some x /\ f i x = Some y.
Proof.
  rewrite list_elem_of_omap. split.
  - intros (o & Ho & E). apply elem_of_lookup_imap_1 in Ho as (i & x & -> & Hx). exists i, x. by split.
  - intros (i & x & Hx & E). exists (f i x). split; [|done]. apply list_elem_of_lookup. exists i. rewrite list_lookup_imap, Hx. done.
Qed.

Section Extract.
Context `{XdrSdk} (DecodeScVal : string -> option string) (parseTime : string -> Z).
Local Notation build := (buildEvent DecodeScVal).

Lemma buildEvent_ID c tx t ev op i e : build c tx t ev op i = Some e ->
  ID e = formatEventID (th_Hash tx) (th_Ledger tx) op i /\ Ledger e = th_Ledger tx /\
  (c <> "" -> ContractID e = c) /\ OpIndex e = op /\ TxHash e = th_Hash tx.
Proof.
  unfold buildEvent. destruct (ce_ContractId ev); [|done]. cbv zeta.
  destruct (_ && _)%bool eqn:E; [done|]. destruct (eventPayloads _ ev) as [[[[??]?]?]|]; [|done].
  intros ?. simplify_eq. cbn. split; [done|]. split; [done|]. split; [|done]. intros Hc.
  apply andb_false_iff in E as [E|E]; to_prop; by simplify_eq.
Qed.

(** The position in the ledger only reaches the tx_index column. *)
Lemma buildEvent_key c h l ca rc m i j t ev op k :
  ekey <$> build c (mkHint h l ca rc m i) t ev op k = ekey <$> build c (mkHint h l ca rc m j) t ev op k.
Proof.
  unfold buildEvent. destruct (ce_ContractId ev); [|done]. cbn. destruct (_ && _)%bool; [done|].
  by destruct (eventPayloads _ ev) as [[[[??]?]?]|].
Qed.

Lemma build_all_key c h l ca rc m i j t op evs :
  ekey <$> build_all DecodeScVal c (mkHint h l ca rc m i) t op evs =
  ekey <$> build_all DecodeScVal c (mkHint h l ca rc m j) t op evs.
Proof. apply omap_imap_fmap. intros. apply buildEvent_key. Qed.

Lemma meta_events_key c h l ca rc m i j t meta :
  ekey <$> meta_events DecodeScVal c (mkHint h l ca rc m i) t meta =
  ekey <$> meta_events DecodeScVal c (mkHint h l ca rc m j) t meta.
Proof.
  destruct meta as [[evs|]|[[ops evs]|]|]; cbn; try done; [apply build_all_key|].
  rewrite !fmap_app. f_equal.
  - apply join_imap_fmap. intros. apply build_all_key.
  - apply omap_fmap_ext. intros. apply buildEvent_key.
Qed.

Lemma extract_keys c h l ca rc m i j :
  match ExtractContractEvents DecodeScVal parseTime c (mkHint h l ca rc m i),
        ExtractContractEvents DecodeScVal parseTime c (mkHint h l ca rc m j) with
  | Ok a, Ok b => ekey <$> ex_Events a = ekey <$> ex_Events b
  | Err _, Err _ => True
  | _, _ => False
  end.
Proof.
  unfold ExtractContractEvents. cbn. case_bool_decide; [done|]. destruct (DecodeMeta m); [|done]. apply meta_events_key.
Qed.

Lemma build_all_elem c tx t op evs e : e ∈ build_all DecodeScVal c tx t op evs ->
  exists i, (i < length evs)%nat /\ ID e = formatEventID (th_Hash tx) (th_Ledger tx) op (i32 (Z.of_nat i)).
Proof.
  intros He. apply elem_omap_imap in He as (i & ev & Hi & E). exists i.
  split; [by eapply lookup_lt_Some|]. by apply buildEvent_ID in E as (-> & _).
Qed.

Lemma i32_nat n : Z.of_nat n < 2 ^ 31 -> i32 (Z.of_nat n) = Z.of_nat n.
Proof. intros. unfold i32, wraps. rewrite Z.mod_small by lia. lia. Qed.

(** Rows built at positions [k], [k+1], ... *)
Lemma NoDup_build_from c tx t op evs (k : nat) : 0 <= op -> Z.of_nat (k + length evs) < 2 ^ 31 ->
  NoDup (ID <$> omap id (imap (fun i ev => build c tx t ev op (i32 (Z.of_nat (k + i)))) evs)).
Proof.
  intros Hop. revert k. induction evs as [|ev evs IH]; intros k Hk; cbn [imap length] in *; [constructor|].
  assert (E : omap id (imap ((fun i ev => build c tx t ev op (i32 (Z.of_nat (k + i)))) ∘ S) evs) =
              omap id (imap (fun i ev => build c tx t ev op (i32 (Z.of_nat (S k + i)))) evs)).
  { f_equal. apply imap_ext. intros i x _. cbn. by replace (k + S i)%nat with (S k + i)%nat by lia. }
  cbn [omap list_omap]. unfold id at 1. destruct (build c tx t ev op _) as [e|] eqn:B; cbn [omap list_omap]; rewrite E;
    [|apply (IH (S k)); lia]. rewrite fmap_cons. apply base.NoDup_cons_2; [|apply (IH (S k)); lia].
  intros Hin. apply list_elem_of_fmap in Hin as (e' & Heq & He'). apply elem_omap_imap in He' as (i & x & Hi & B').
  apply lookup_lt_Some in Hi. apply buildEvent_ID in B as (B & _). apply buildEvent_ID in B' as (B' & _).
  rewrite B, B', !i32_nat in Heq by lia. apply formatEventID_inj in Heq as [_ ?]; lia.
Qed.

(** Rows of the operations [k], [k+1], ... *)
Lemma NoDup_ops_from c tx t ops (k : nat) : Z.of_nat (k + length ops) < 2 ^ 31 ->
  Forall (fun op => Z.of_nat (length op) < 2 ^ 31) ops ->
  NoDup (ID <$> mjoin (imap (fun i op => build_all DecodeScVal c tx t (i32 (Z.of_nat (k + i))) op) ops)).
Proof.
  revert k. induction ops as [|op ops IH]; intros k Hk Ho; cbn [imap mjoin list_join length] in *; [constructor|].
  apply list.Forall_cons in Ho as [Hop Ho].
  assert (E : imap ((fun i op => build_all DecodeScVal c tx t (i32 (Z.of_nat (k + i))) op) ∘ S) ops =
              imap (fun i op => build_all DecodeScVal c tx t (i32 (Z.of_nat (S k + i))) op) ops).
  { apply imap_ext. intros i x _. cbn. by replace (k + S i)%nat with (S k + i)%nat by lia. }
  rewrite E, fmap_app. apply list.NoDup_app. split; [|split].
  - rewrite i32_nat by lia. apply (NoDup_build_from c tx t _ op 0); lia.
  - intros s Hs Hs'. apply list_elem_of_fmap in Hs as (e & -> & He). apply list_elem_of_fmap in Hs' as (e' & Heq & He').
    apply build_all_elem in He as (i & Hi & He). apply list_elem_of_join in He' as (l & He' & Hl).
    apply elem_of_lookup_imap_1 in Hl as (n & op' & -> & Hn). pose proof (lookup_lt_Some _ _ _ Hn).
    apply build_all_elem in He' as (j & Hj & He'). rewrite He, He' in Heq. rewrite list.Forall_lookup in Ho.
    specialize (Ho n op' Hn). cbn in Ho. rewrite !i32_nat in Heq by lia. apply formatEventID_inj in Heq as [? _]; lia.
  - apply IH; [lia|done].
Qed.

(** The rows of one transaction have distinct identifiers when it has no
    transaction-level events, carry the transaction's ledger, hash and the
    requested contract, and do not depend on the page the transaction was on
    except for tx_index. *)
Theorem extracted_rows_identified c tx ex :
  ExtractContractEvents DecodeScVal parseTime c tx = Ok ex ->
  Forall (fun e => Ledger e = th_Ledger tx /\ TxHash e = th_Hash tx /\ (c <> "" -> ContractID e = c)) (ex_Events ex) /\
  (forall ops, UnmarshalMeta (th_ResultMetaXDR tx) = Ok (MetaV4 (Some (ops, []))) ->
     Z.of_nat (length ops) < 2 ^ 31 -> Forall (fun op => Z.of_nat (length op) < 2 ^ 31) ops -> NoDup (ID <$> ex_Events ex)) /\
  (forall evs, UnmarshalMeta (th_ResultMetaXDR tx) = Ok (MetaV3 (Some evs)) ->
     Z.of_nat (length evs) < 2 ^ 31 -> NoDup (ID <$> ex_Events ex)).
Proof.
  intros Hx. unfold ExtractContractEvents, DecodeMeta in Hx. cbv zeta in Hx.
  case_bool_decide; [simplify_eq; cbn; repeat split; intros; constructor|].
  destruct (UnmarshalMeta _) as [meta|] eqn:Hm; [|done]. simplify_eq. cbn [ex_Events]. split; [|split].
  - apply list.Forall_forall. intros e He. assert (Hb : exists ev op i, build c tx (parseTime (th_CreatedAt tx)) ev op i = Some e).
    { destruct meta as [[evs|]|[[ops evs]|]|]; cbn in He; try by apply list.not_elem_of_nil in He.
      - apply elem_omap_imap in He as (i & ev & _ & ?). eauto.
      - apply list.elem_of_app in He as [He|He].
        + apply list_elem_of_join in He as (l & He & Hl). apply elem_of_lookup_imap_1 in Hl as (i & op & -> & _).
          apply elem_omap_imap in He as (k & ev & _ & ?). eauto.
        + apply list_elem_of_omap in He as (ev & _ & ?). eauto. }
    destruct Hb as (ev & op & i & Hb). by apply buildEvent_ID in Hb as (_ & ? & ? & _ & ?).
  - intros ops [= ->] Hops Hin. cbn. rewrite app_nil_r. apply (NoDup_ops_from c tx _ ops 0); [lia|done].
  - intros evs [= ->] Hl. cbn. apply (NoDup_build_from c tx _ 0 evs 0); [done|]. cbn. lia.
Qed.

End Extract.
