(* ===== verification/Backfill.v ===== *)
(** * Historical backfill (internal/backfill/backfill.go)

    The serial walk over Horizon's pages, the run over sub-ranges with retries,
    resumption from the saved progress, and the progress row of
    internal/store/backfill_state.go. Client, store, limiter, clock and context
    are the class [BackfillEnv]. The sub-ranges of a ranged run are worked on one
    after the other. Log lines are left out. *)

From S2P Require Import Prelude GoStrings RpcTypes Retry GoFloat StoreTypes Horizon.
From Stdlib Require Import Ascii String.
Local Open Scope Z_scope.
Local Open Scope go_scope.
Local Notation length := List.length.

(** ** The progress row (internal/store/backfill_state.go) *)

Inductive BackfillRangeStatus : Type := RangePending | RangeInFlight | RangeCompleted | RangeFailed.

#[export] Instance BackfillRangeStatus_eq_dec : EqDecision BackfillRangeStatus.
Proof. solve_decision. Defined.

Record BackfillRange : Type := mkRange {
  br_FromLedger : Z;
  br_ToLedger : Z;
  br_LastLedger : Z;
  br_Status : BackfillRangeStatus;
  br_Error : string;
  br_UpdatedAt : Z }.

Definition range_Completed (r : BackfillRange) : bool := bool_decide (br_Status r = RangeCompleted).

Definition ResumeStartLedger (r : BackfillRange) : Z :=
  if br_FromLedger r <=? br_LastLedger r then i64 (br_LastLedger r + 1) else br_FromLedger r.

Record BackfillState : Type := mkBackfillState {
  bs_ContractID : string;
  bs_FromLedger : Z;
  bs_ToLedger : Z;
  bs_LastLedger : Z;
  bs_StartedAt : Z;
  bs_UpdatedAt : Z;
  bs_CompletedAt : option Z;
  bs_Ranges : list BackfillRange }.

Definition Done (s : BackfillState) : bool := match bs_CompletedAt s with Some _ => true | None => false end.

Fixpoint watermark_loop (watermark expectedStart : Z) (ranges : list BackfillRange) : Z :=
  match ranges with
  | [] => watermark
  | r :: rest =>
      if expectedStart <? br_FromLedger r then watermark
      else if bool_decide (br_Status r = RangeCompleted) then
        watermark_loop (if watermark <? br_ToLedger r then br_ToLedger r else watermark) (i64 (br_ToLedger r + 1)) rest
      else if (br_FromLedger r <=? br_LastLedger r) && (watermark <? br_LastLedger r) then br_LastLedger r
      else watermark
  end.
Definition ContiguousWatermark (fromLedger : Z) (ranges : list BackfillRange) : Z := watermark_loop 0 fromLedger ranges.

(** The statements on the single row; [now] is the database's clock. *)
Definition StartBackfillState (contractID : string) (from to now : Z) (row : option BackfillState) : option BackfillState :=
  Some (mkBackfillState contractID from to 0 now now None []).

Definition SaveBackfillRanges (ranges : list BackfillRange) (now : Z) (row : option BackfillState) : option BackfillState :=
  let from := match ranges with [] => 0 | r :: _ => br_FromLedger r end in
  (fun s => mkBackfillState (bs_ContractID s) (bs_FromLedger s) (bs_ToLedger s)
              (Z.max (bs_LastLedger s) (ContiguousWatermark from ranges)) (bs_StartedAt s) now (bs_CompletedAt s) ranges) <$> row.

Definition UpdateBackfillState (lastLedger now : Z) (row : option BackfillState) : option BackfillState :=
  if lastLedger <=? 0 then row
  else (fun s => mkBackfillState (bs_ContractID s) (bs_FromLedger s) (bs_ToLedger s)
                   (Z.max (bs_LastLedger s) lastLedger) (bs_StartedAt s) now (bs_CompletedAt s) (bs_Ranges s)) <$> row.

Definition CompleteBackfillState (now : Z) (row : option BackfillState) : option BackfillState :=
  (fun s => mkBackfillState (bs_ContractID s) (bs_FromLedger s) (bs_ToLedger s) (bs_LastLedger s)
              (bs_StartedAt s) now (Some now) (bs_Ranges s)) <$> row.

(** ** The shared rate limiter *)

Record IntervalRateLimiter : Type := mkLimiter {
  rl_minInterval : Z;
  rl_lastAllowed : Z;
  rl_waits : Z }.

Definition NewIntervalRateLimiter (minInterval : Z) : IntervalRateLimiter := mkLimiter minInterval time_zero 0.

(** The critical section of Wait: how long the caller then sleeps. *)
Definition limiter_slot (now : Z) (l : IntervalRateLimiter) : Z * IntervalRateLimiter :=
  if rl_minInterval l <=? 0 then (0, mkLimiter (rl_minInterval l) (rl_lastAllowed l) (i64 (rl_waits l + 1)))
  else
    let next := rl_lastAllowed l + rl_minInterval l in
    let '(waitDur, allowed) :=
      if time_IsZero (rl_lastAllowed l) || negb (now <? next) then (0, now) else (time_Sub next now, next) in
    (waitDur, mkLimiter (rl_minInterval l) allowed (i64 (rl_waits l + 1))).

(** ** Options, summary and state *)

Definition DefaultBatchSize : Z := 200.
Definition DefaultMaxBackoff : Z := 30 * Second.
Definition DefaultMinRequestInterval : Z := 100 * Millisecond.
Definition DefaultWorkers : Z := 1.
Definition DefaultRangeMaxRetries : Z := 3.
Definition DefaultRetryInitialBackoff : Z := 10 * Millisecond.

(** The callbacks and the limiter are in [BackfillEnv]. *)
Record Options : Type := mkOptions {
  bo_ContractID : string;
  bo_FromLedger : Z;
  bo_ToLedger : Z;
  bo_BatchSize : Z;
  bo_HorizonURL : string;
  bo_MinInterval : Z;
  bo_IncludeFailed : bool;
  bo_MaxBackoff : Z;
  bo_DryRun : bool;
  bo_Workers : Z;
  bo_RangeSize : Z;
  bo_MaxRetries : Z;
  bo_RetryInitialBackoff : Z }.

Definition applyDefaults (o : Options) : Options :=
  let pos x d := if x <=? 0 then d else x in
  mkOptions (bo_ContractID o) (bo_FromLedger o) (bo_ToLedger o)
    (pos (bo_BatchSize o) DefaultBatchSize)
    (if bool_decide (bo_HorizonURL o = "") then "https://horizon-testnet.stellar.org" else bo_HorizonURL o)
    (pos (bo_MinInterval o) DefaultMinRequestInterval) (bo_IncludeFailed o)
    (pos (bo_MaxBackoff o) DefaultMaxBackoff) (bo_DryRun o)
    (pos (bo_Workers o) DefaultWorkers) (bo_RangeSize o) (bo_MaxRetries o)
    (pos (bo_RetryInitialBackoff o) DefaultRetryInitialBackoff).

(** New: the options with their defaults, and the limiter: the caller's, or one of
    its own when an interval was asked for. *)
Definition NewBackfiller (limiter : option IntervalRateLimiter) (o : Options) : Options * option IntervalRateLimiter :=
  let o' := applyDefaults o in
  (o', match limiter with
       | Some l => Some l
       | None => if 0 <? bo_MinInterval o then Some (NewIntervalRateLimiter (bo_MinInterval o')) else None
       end).

Record FailedRange : Type := mkFailed {
  fr_FromLedger : Z;
  fr_ToLedger : Z;
  fr_LastLedger : Z;
  fr_Err : rerror }.

Definition FailedRange_String (f : FailedRange) : string :=
  "[" +++ FormatInt (fr_FromLedger f) +++ ".." +++ FormatInt (fr_ToLedger f) +++ "] (last_ledger=" +++
  FormatInt (fr_LastLedger f) +++ "): " +++ rmsg (fr_Err f).

Record ProgressSnapshot : Type := mkSnapshot {
  sn_TotalRanges : Z;
  sn_CompletedRanges : Z;
  sn_InFlightRanges : Z;
  sn_FailedRanges : Z;
  sn_PendingRanges : Z;
  sn_CompletedLedgers : Z;
  sn_TotalLedgers : Z;
  sn_RemainingLedgers : Z;
  sn_RemainingDuration : Z }.

Record Summary : Type := mkSummary {
  su_PagesFetched : Z;
  su_Transactions : Z;
  su_Skipped : Z;
  su_Failed : Z;
  su_Extracted : Z;
  su_Inserted : Z;
  su_DryRun : bool;
  su_Completed : bool;
  su_Resumed : bool;
  su_ThroughLedger : Z;
  su_Duration : Z;
  su_TotalRanges : Z;
  su_CompletedRanges : Z;
  su_InFlightRanges : Z;
  su_FailedRanges : list FailedRange;
  su_Ranges : list BackfillRange;
  su_EstimatedRemaining : Z }.

Definition emptySummary : Summary := mkSummary 0 0 0 0 0 0 false false false 0 0 0 0 0 [] [] 0.

(** ** Partitioning *)

(** The loop of SplitLedgerRanges. [None] is a lack of fuel: the Go loop then has
    wrapped around. *)
Fixpoint split_loop (fuel : nat) (cur to step : Z) : option (list BackfillRange) :=
  if to <? cur then Some []
  else match fuel with
       | O => None
       | S f =>
           let end_ := i64 (i64 (cur + step) - 1) in
           let end_ := if to <? end_ then to else end_ in
           cons (mkRange cur end_ 0 RangePending "" time_zero) <$> split_loop f (i64 (cur + step)) to step
       end.

Definition split_step (total rangeSize workers : Z) : Z :=
  let step :=
    if rangeSize <=? 0 then
      let w := if workers <=? 0 then 1 else workers in
      let w := if total <? w then total else w in
      goquot (i64 (i64 (total + w) - 1)) w
    else rangeSize in
  if step <=? 0 then 1 else step.

Definition SplitLedgerRanges (fromLedger toLedger rangeSize workers : Z) : option (list BackfillRange) :=
  if (toLedger <=? 0) || (toLedger <=? fromLedger) || ((workers <=? 1) && (rangeSize <=? 0)) then
    Some [mkRange fromLedger toLedger 0 RangePending "" time_zero]
  else
    let total := i64 (i64 (toLedger - fromLedger) + 1) in
    let step := split_step total rangeSize workers in
    split_loop (Z.to_nat (total / step + 1)) fromLedger toLedger step.

(** ** Progress *)

Definition range_span (r : BackfillRange) : Z :=
  if (br_FromLedger r <=? br_ToLedger r) && (0 <? br_ToLedger r) then i64 (i64 (br_ToLedger r - br_FromLedger r) + 1) else 0.

(** The ledgers of a range that is in flight or has failed. *)
Definition range_done (r : BackfillRange) : Z :=
  if (br_FromLedger r <=? br_LastLedger r) && (br_FromLedger r <=? br_ToLedger r) then
    let d := i64 (i64 (br_LastLedger r - br_FromLedger r) + 1) in
    if range_span r <? d then range_span r else d
  else 0.

Definition count_range (n : ProgressSnapshot) (r : BackfillRange) : ProgressSnapshot :=
  let add total completed inflight failed pending ledgers :=
    mkSnapshot (sn_TotalRanges n) (sn_CompletedRanges n + completed) (sn_InFlightRanges n + inflight)
      (sn_FailedRanges n + failed) (sn_PendingRanges n + pending) (i64 (sn_CompletedLedgers n + ledgers))
      (i64 (sn_TotalLedgers n + total)) (sn_RemainingLedgers n) (sn_RemainingDuration n) in
  match br_Status r with
  | RangeCompleted => add (range_span r) 1 0 0 0 (range_span r)
  | RangeInFlight => add (range_span r) 0 1 0 0 (range_done r)
  | RangeFailed => add (range_span r) 0 0 1 0 (range_done r)
  | RangePending => add (range_span r) 0 0 0 1 0
  end.

Definition progressSnapshotLocked (now startedAt : Z) (ranges : list BackfillRange) : ProgressSnapshot :=
  let n := fold_left count_range ranges (mkSnapshot (Z.of_nat (length ranges)) 0 0 0 0 0 0 0 0) in
  let remaining := if sn_CompletedLedgers n <? sn_TotalLedgers n then i64 (sn_TotalLedgers n - sn_CompletedLedgers n) else 0 in
  let duration :=
    if negb (time_IsZero startedAt) && (0 <? sn_CompletedLedgers n) && (0 <? remaining) then
      f64_trunc (f64_mul (f64_of_Z (time_Sub now startedAt))
                         (f64_div (f64_of_Z remaining) (f64_of_Z (sn_CompletedLedgers n))))
    else 0 in
  mkSnapshot (sn_TotalRanges n) (sn_CompletedRanges n) (sn_InFlightRanges n) (sn_FailedRanges n) (sn_PendingRanges n)
    (sn_CompletedLedgers n) (sn_TotalLedgers n) remaining duration.

(** ** The environment *)

Class BackfillEnv (W : Type) : Type := {
  be_sdk :: XdrSdk;
  be_DecodeScVal : string -> option string;
  be_parseTime : string -> Z;
  be_List : string -> string -> Z -> bool -> W -> result rerror (list Transaction) * W;
  be_ListInRange : option (string -> Z -> Z -> string -> Z -> bool -> W -> result rerror (list Transaction) * W);
  be_UpsertEvents : list Event -> W -> result rerror Z * W;
  be_GetState : W -> result rerror BackfillState * W;
  be_StartState : string -> Z -> Z -> W -> option rerror * W;
  be_UpdateState : Z -> W -> option rerror * W;
  be_CompleteState : W -> option rerror * W;
  be_SaveRanges : option (list BackfillRange -> W -> option rerror * W);
  be_limiterWait : option (W -> option rerror * W);
  be_ctxErr : W -> option rerror;
  be_sleep : Z -> W -> bool * W;
  be_now : W -> Z;
  be_Progress : option (Z -> W -> W);
  be_RangeProgress : option (ProgressSnapshot -> W -> W) }.

(** ** Pages *)

Record page_acc : Type := mkAcc {
  pa_currentLedger : Z;
  pa_txiInLedger : Z;
  pa_events : list Event;
  pa_last : Z;
  pa_pastEnd : bool;
  pa_Transactions : Z;
  pa_Skipped : Z;
  pa_Failed : Z }.

Definition start_acc : page_acc := mkAcc (-1) 0 [] 0 false 0 0 0.

(** The position of the row in its ledger, and the tallies. *)
Definition visit_row (tx : Transaction) (a : page_acc) : page_acc :=
  let same := tx_Ledger tx =? pa_currentLedger a in
  mkAcc (tx_Ledger tx) (if same then i32 (pa_txiInLedger a + 1) else 0) (pa_events a) (tx_Ledger tx) (pa_pastEnd a)
    (pa_Transactions a + 1) (pa_Skipped a) (pa_Failed a).

Section Run.
Context {W : Type} `{!BackfillEnv W}.

Definition hint_of (tx : Transaction) (txi : Z) : TxHint :=
  mkHint (tx_Hash tx) (tx_Ledger tx) (tx_CreatedAt tx) (tx_ResultCode tx) (tx_ResultMetaXDR tx) txi.

Definition extract_row (contractID : string) (tx : Transaction) (a : page_acc) : page_acc :=
  match ExtractContractEvents be_DecodeScVal be_parseTime contractID (hint_of tx (pa_txiInLedger a)) with
  | Err _ => mkAcc (pa_currentLedger a) (pa_txiInLedger a) (pa_events a) (pa_last a) (pa_pastEnd a)
               (pa_Transactions a) (pa_Skipped a) (pa_Failed a + 1)
  | Ok ex =>
      if negb (ex_HadMeta ex) || negb (ex_HadEvents ex) then
        mkAcc (pa_currentLedger a) (pa_txiInLedger a) (pa_events a) (pa_last a) (pa_pastEnd a)
          (pa_Transactions a) (pa_Skipped a + 1) (pa_Failed a)
      else mkAcc (pa_currentLedger a) (pa_txiInLedger a) (pa_events a ++ ex_Events ex) (pa_last a) (pa_pastEnd a)
             (pa_Transactions a) (pa_Skipped a) (pa_Failed a)
  end.

Definition past_end (to : Z) (tx : Transaction) : bool := (0 <? to) && (to <? tx_Ledger tx).

Definition set_pastEnd (a : page_acc) : page_acc :=
  mkAcc (pa_currentLedger a) (pa_txiInLedger a) (pa_events a) (pa_last a) true (pa_Transactions a) (pa_Skipped a) (pa_Failed a).

Definition extractPage (o : Options) (rows : list Transaction) (startLedger : Z) : page_acc :=
  fold_left (fun a tx =>
      if tx_Ledger tx <? startLedger then a
      else let a := visit_row tx a in
           if past_end (bo_ToLedger o) tx then a else extract_row (bo_ContractID o) tx a)
    rows start_acc.

Definition extractSubRangePage (o : Options) (rows : list Transaction) (startLedger rangeTo : Z) : page_acc :=
  fold_left (fun a tx =>
      if tx_Ledger tx <? startLedger then a
      else if past_end rangeTo tx then set_pastEnd a
      else extract_row (bo_ContractID o) tx (visit_row tx a))
    rows start_acc.

Definition next_cursor (rows : list Transaction) : string :=
  match list.last rows with
  | None => ""
  | Some tx => if bool_decide (tx_PagingToken tx = "") then tx_ID tx else tx_PagingToken tx
  end.

(** ** The state of a run *)

Record Backfiller : Type := mkBackfiller {
  st_startedAt : Z;
  st_ranges : list BackfillRange;
  st_sum : Summary }.

Definition BF (A : Type) : Type := Backfiller -> W -> A * Backfiller * W.
#[global] Instance BF_ret : MRet BF := fun A a s w => (a, s, w).
#[global] Instance BF_bind : MBind BF := fun A B k m s w => let '(a, s', w') := m s w in k a s' w'.

Definition bget : BF Backfiller := fun s w => (s, s, w).
Definition bnow : BF Z := fun s w => (be_now w, s, w).
Definition bctx : BF (option rerror) := fun s w => (be_ctxErr w, s, w).
Definition benv {A} (f : W -> A * W) : BF A := fun s w => let '(a, w') := f w in (a, s, w').
Definition bsum (f : Summary -> Summary) : BF unit := fun s w => (tt, mkBackfiller (st_startedAt s) (st_ranges s) (f (st_sum s)), w).
Definition branges (f : list BackfillRange -> list BackfillRange) : BF unit :=
  fun s w => (tt, mkBackfiller (st_startedAt s) (f (st_ranges s)) (st_sum s), w).

Definition bstarted (now : Z) : BF unit := fun s w => (tt, mkBackfiller now (st_ranges s) (st_sum s), w).

(** *** Stores to the summary *)

Definition with_page (a : page_acc) (through inserted : Z) (m : Summary) : Summary :=
  mkSummary (su_PagesFetched m + 1) (su_Transactions m + pa_Transactions a) (su_Skipped m + pa_Skipped a)
    (su_Failed m + pa_Failed a) (su_Extracted m + Z.of_nat (length (pa_events a))) (su_Inserted m + inserted)
    (su_DryRun m) (su_Completed m) (su_Resumed m) (if su_ThroughLedger m <? through then through else su_ThroughLedger m)
    (su_Duration m) (su_TotalRanges m) (su_CompletedRanges m) (su_InFlightRanges m) (su_FailedRanges m) (su_Ranges m)
    (su_EstimatedRemaining m).
Definition with_inserted (n : Z) (m : Summary) : Summary :=
  mkSummary (su_PagesFetched m) (su_Transactions m) (su_Skipped m) (su_Failed m) (su_Extracted m) (su_Inserted m + n)
    (su_DryRun m) (su_Completed m) (su_Resumed m) (su_ThroughLedger m) (su_Duration m) (su_TotalRanges m)
    (su_CompletedRanges m) (su_InFlightRanges m) (su_FailedRanges m) (su_Ranges m) (su_EstimatedRemaining m).
Definition with_completed (b : bool) (m : Summary) : Summary :=
  mkSummary (su_PagesFetched m) (su_Transactions m) (su_Skipped m) (su_Failed m) (su_Extracted m) (su_Inserted m)
    (su_DryRun m) b (su_Resumed m) (su_ThroughLedger m) (su_Duration m) (su_TotalRanges m)
    (su_CompletedRanges m) (su_InFlightRanges m) (su_FailedRanges m) (su_Ranges m) (su_EstimatedRemaining m).
Definition with_duration (d : Z) (m : Summary) : Summary :=
  mkSummary (su_PagesFetched m) (su_Transactions m) (su_Skipped m) (su_Failed m) (su_Extracted m) (su_Inserted m)
    (su_DryRun m) (su_Completed m) (su_Resumed m) (su_ThroughLedger m) d (su_TotalRanges m)
    (su_CompletedRanges m) (su_InFlightRanges m) (su_FailedRanges m) (su_Ranges m) (su_EstimatedRemaining m).
Definition with_failedRange (f : FailedRange) (m : Summary) : Summary :=
  mkSummary (su_PagesFetched m) (su_Transactions m) (su_Skipped m) (su_Failed m) (su_Extracted m) (su_Inserted m)
    (su_DryRun m) (su_Completed m) (su_Resumed m) (su_ThroughLedger m) (su_Duration m) (su_TotalRanges m)
    (su_CompletedRanges m) (su_InFlightRanges m) (su_FailedRanges m ++ [f]) (su_Ranges m) (su_EstimatedRemaining m).
Definition with_totals (total completed inflight : Z) (ranges : list BackfillRange) (estimate : Z) (m : Summary) : Summary :=
  mkSummary (su_PagesFetched m) (su_Transactions m) (su_Skipped m) (su_Failed m) (su_Extracted m) (su_Inserted m)
    (su_DryRun m) (su_Completed m) (su_Resumed m) (su_ThroughLedger m) (su_Duration m) total completed inflight
    (su_FailedRanges m) ranges estimate.
Definition resumed_summary (through : Z) : Summary := mkSummary 0 0 0 0 0 0 false false true through 0 0 0 0 [] [] 0.
Definition dryRun_summary : Summary := mkSummary 0 0 0 0 0 0 true false false 0 0 0 0 0 [] [] 0.

(** sum.Duration = time.Since(started) *)
Definition stamp : BF unit :=
  now ← bnow; s ← bget; bsum (with_duration (time_Sub now (st_startedAt s))).

(** ** Pieces shared by both runs *)

Definition waitRateLimit : BF (option rerror) :=
  match be_limiterWait with None => mret None | Some wait => benv wait end.

Definition fetch (o : Options) (cursor : string) : BF (result rerror (list Transaction)) :=
  benv (be_List (bo_ContractID o) cursor (bo_BatchSize o) (bo_IncludeFailed o)).

Definition fetchSubRange (o : Options) (from to : Z) (cursor : string) : BF (result rerror (list Transaction)) :=
  match be_ListInRange with
  | Some list => benv (list (bo_ContractID o) from to cursor (bo_BatchSize o) (bo_IncludeFailed o))
  | None => fetch o cursor
  end.

Definition persistRanges (ranges : list BackfillRange) : BF (option rerror) :=
  match be_SaveRanges with Some save => benv (save ranges) | None => mret None end.

Definition notifyProgress (n : Z) : BF unit :=
  match be_Progress with Some f => benv (fun w => (tt, f n w)) | None => mret tt end.

Definition notifyRangeProgress : BF unit :=
  match be_RangeProgress with
  | None => mret tt
  | Some f =>
      now ← bnow; s ← bget;
      benv (fun w => (tt, f (progressSnapshotLocked now (st_startedAt s) (st_ranges s)) w))
  end.

Definition markTerminal (o : Options) : BF (option rerror) :=
  if bo_DryRun o then
    r ← benv (be_StartState (bo_ContractID o) (bo_FromLedger o) (bo_ToLedger o));
    mret (errorf_w "resetting dry-run state: " <$> r)
  else
    s ← bget;
    if negb (su_Completed (st_sum s)) then mret None
    else r ← benv be_CompleteState; mret (errorf_w "completing backfill state: " <$> r).

Definition matches_run (o : Options) (st : BackfillState) : bool :=
  negb (Done st) && bool_decide (bs_ContractID st = bo_ContractID o) &&
  (bs_FromLedger st =? bo_FromLedger o) && (bs_ToLedger st =? bo_ToLedger o).

(** The ledger after the saved one, not before the first. *)
Definition resume_ledger (o : Options) (st : BackfillState) : Z :=
  let start := i64 (bs_LastLedger st + 1) in if start <? bo_FromLedger o then bo_FromLedger o else start.

Definition isRetryableSubRangeErr (e : rerror) : bool :=
  if rerrors_Is KHorizonRateLimited e then true
  else if rerrors_Is KHorizonNotFound e then false
  else IsTransientHTTP (Some e).

(** ** The serial run *)

Definition commitPage (events : list Event) (lastLedger : Z) : BF (result rerror Z) :=
  r ← benv (be_UpsertEvents events);
  match r with
  | Err e => mret (Err (errorf_w ("upserting " +++ FormatInt (Z.of_nat (length events)) +++ " backfilled events: ") e))
  | Ok inserted =>
      u ← benv (be_UpdateState lastLedger);
      match u with
      | Some e => mret (Err (errorf_w "saving backfill progress: " e))
      | None => mret (Ok inserted)
      end
  end.

(** What one turn of the page loop decides. *)
Inductive page_end : Type := Break | Return (err : option rerror) | Next (cursor : string).

Definition commit_events (o : Options) (events : list Event) (lastLedger : Z) : BF (option rerror) :=
  if negb (bool_decide (events = [])) && negb (bo_DryRun o) then
    r ← commitPage events lastLedger;
    match r with
    | Err e => stamp;; mret (Some e)
    | Ok ins => bsum (with_inserted ins);; mret None
    end
  else mret None.

Definition serial_page (o : Options) (startLedger : Z) (rows : list Transaction) : BF page_end :=
  let a := extractPage o rows startLedger in
  bsum (with_page a (pa_last a) 0);;
  notifyProgress (Z.of_nat (length (pa_events a)));;
  if (0 <? bo_ToLedger o) && (bo_ToLedger o <? pa_last a) then
    s ← bget;
    e ← commit_events o (pa_events a) (su_ThroughLedger (st_sum s));
    match e with
    | Some e => mret (Return (Some e))
    | None => bsum (with_completed true);; mret Break
    end
  else
    e ← commit_events o (pa_events a) (pa_last a);
    match e with
    | Some e => mret (Return (Some e))
    | None =>
        if Z.of_nat (length rows) <? bo_BatchSize o then bsum (with_completed true);; mret Break
        else mret (Next (next_cursor rows))
    end.

Definition serial_turn (o : Options) (startLedger : Z) (cursor : string) : BF page_end :=
  c ← bctx;
  match c with
  | Some _ => stamp;; e ← markTerminal o; mret (Return e)
  | None =>
      l ← waitRateLimit;
      match l with
      | Some e =>
          c ← bctx;
          match c with
          | Some _ => stamp;; e ← markTerminal o; mret (Return e)
          | None => stamp;; mret (Return (Some (errorf_w "rate limiting horizon page: " e)))
          end
      | None =>
          r ← fetch o cursor;
          match r with
          | Err e => stamp;; mret (Return (Some (errorf_w "fetching horizon page: " e)))
          | Ok [] => bsum (with_completed true);; mret Break
          | Ok rows => serial_page o startLedger rows
          end
      end
  end.

(** [None] is a lack of fuel; [Some None] leaves the loop, [Some (Some e)]
    returns from Run with the error [e]. *)
Fixpoint serial_loop (fuel : nat) (o : Options) (startLedger : Z) (cursor : string) : BF (option (option (option rerror))) :=
  match fuel with
  | O => mret None
  | S f =>
      t ← serial_turn o startLedger cursor;
      match t with
      | Break => mret (Some None)
      | Return e => mret (Some (Some e))
      | Next cursor => serial_loop f o startLedger cursor
      end
  end.

Definition resume (o : Options) : BF (result rerror Z) :=
  if bo_DryRun o then bsum (fun _ => dryRun_summary);; mret (Ok (bo_FromLedger o))
  else
    let fresh :=
      e ← benv (be_StartState (bo_ContractID o) (bo_FromLedger o) (bo_ToLedger o));
      match e with Some e => mret (Err e) | None => mret (Ok (bo_FromLedger o)) end in
    r ← benv be_GetState;
    match r with
    | Err e => if rerrors_Is KStoreNotFound e then fresh else mret (Err e)
    | Ok st => if matches_run o st then bsum (fun _ => resumed_summary 0);; mret (Ok (resume_ledger o st)) else fresh
    end.

(** ** The run over sub-ranges *)

Definition set_range (status : BackfillRangeStatus) (err : string) (last now : Z) (r : BackfillRange) : BackfillRange :=
  mkRange (br_FromLedger r) (br_ToLedger r) last status err now.

Definition get_range (idx : nat) (s : Backfiller) : BackfillRange :=
  default (mkRange 0 0 0 RangePending "" time_zero) (st_ranges s !! idx).

Definition range_text (from to : Z) : string := "[" +++ FormatInt from +++ ".." +++ FormatInt to +++ "]".

Definition completeSubRange (o : Options) (idx : nat) (rangeTo : Z) : BF (option rerror) :=
  now ← bnow;
  branges (alter (fun r => set_range RangeCompleted ""
                             (if br_LastLedger r <? rangeTo then rangeTo else br_LastLedger r) now r) idx);;
  s ← bget;
  e ← (if bo_DryRun o then mret None else persistRanges (st_ranges s));
  match e with
  | Some e => let r := get_range idx s in
              mret (Some (errorf_w ("saving completed range " +++ range_text (br_FromLedger r) (br_ToLedger r) +++ ": ") e))
  | None => notifyRangeProgress;; mret None
  end.

(** One page of a sub-range: its rows are written, then the progress. *)
Definition subrange_page (o : Options) (idx : nat) (startLedger rangeFrom rangeTo : Z) (rows : list Transaction) : BF page_end :=
  let a := extractSubRangePage o rows startLedger rangeTo in
  let write := negb (bool_decide (pa_events a = [])) && negb (bo_DryRun o) in
  ins ← (if write then benv (be_UpsertEvents (pa_events a)) else mret (Ok 0));
  match ins with
  | Err e => mret (Return (Some (errorf_w ("upserting " +++ FormatInt (Z.of_nat (length (pa_events a))) +++
                 " backfilled events for range " +++ range_text rangeFrom rangeTo +++ ": ") e)))
  | Ok inserted =>
      bsum (with_page a (pa_last a) inserted);;
      now ← bnow;
      branges (alter (fun r => if br_LastLedger r <? pa_last a
                               then set_range (br_Status r) (br_Error r) (pa_last a) now r else r) idx);;
      s ← bget;
      (if bool_decide (pa_events a = []) then mret tt else notifyProgress (Z.of_nat (length (pa_events a))));;
      e ← (if write then
             u ← benv (be_UpdateState (pa_last a));
             match u with
             | Some e => mret (Some (errorf_w "saving backfill progress: " e))
             | None => p ← persistRanges (st_ranges s); mret (errorf_w "saving backfill range progress: " <$> p)
             end
           else mret None);
      match e with
      | Some e => mret (Return (Some e))
      | None =>
          notifyRangeProgress;;
          if pa_pastEnd a || (Z.of_nat (length rows) <? bo_BatchSize o) then
            e ← completeSubRange o idx rangeTo; mret (Return e)
          else mret (Next (next_cursor rows))
      end
  end.

Definition subrange_turn (o : Options) (idx : nat) (startLedger rangeFrom rangeTo : Z) (cursor : string) : BF page_end :=
  c ← bctx;
  match c with
  | Some e => mret (Return (Some e))
  | None =>
      l ← waitRateLimit;
      match l with
      | Some e => mret (Return (Some e))
      | None =>
          r ← fetchSubRange o startLedger rangeTo cursor;
          match r with
          | Err e => mret (Return (Some (errorf_w ("fetching horizon page for range " +++ range_text rangeFrom rangeTo +++ ": ") e)))
          | Ok [] => e ← completeSubRange o idx rangeTo; mret (Return e)
          | Ok rows => subrange_page o idx startLedger rangeFrom rangeTo rows
          end
      end
  end.

(** [None] is a lack of fuel. *)
Fixpoint subrange_loop (fuel : nat) (o : Options) (idx : nat) (startLedger rangeFrom rangeTo : Z) (cursor : string)
    : BF (option (option rerror)) :=
  match fuel with
  | O => mret None
  | S f =>
      t ← subrange_turn o idx startLedger rangeFrom rangeTo cursor;
      match t with
      | Break => mret (Some None)
      | Return e => mret (Some e)
      | Next cursor => subrange_loop f o idx startLedger rangeFrom rangeTo cursor
      end
  end.

Definition runSingleSubRange (fuel : nat) (o : Options) (idx : nat) : BF (option (option rerror)) :=
  now ← bnow;
  s ← bget;
  let rng := get_range idx s in
  branges (alter (fun r => set_range RangeInFlight "" (br_LastLedger r) now r) idx);;
  notifyRangeProgress;;
  if (0 <? br_ToLedger rng) && (br_ToLedger rng <? ResumeStartLedger rng) then
    e ← completeSubRange o idx (br_ToLedger rng); mret (Some e)
  else subrange_loop fuel o idx (ResumeStartLedger rng) (br_FromLedger rng) (br_ToLedger rng) "".

(** A range that has failed for good. *)
Definition failSubRange (o : Options) (idx : nat) (err : rerror) : BF unit :=
  now ← bnow;
  branges (alter (fun r => set_range RangeFailed (rmsg err) (br_LastLedger r) now r) idx);;
  s ← bget;
  let r := get_range idx s in
  bsum (with_failedRange (mkFailed (br_FromLedger r) (br_ToLedger r) (br_LastLedger r) err));;
  (if bo_DryRun o then mret tt else persistRanges (st_ranges s);; mret tt);;
  notifyRangeProgress.

(** [left] retries are left; [None] is a lack of fuel. *)
Fixpoint subrange_attempts (fuel left : nat) (o : Options) (idx : nat) (backoff : Z) : BF (option unit) :=
  c ← bctx;
  match c with
  | Some _ => mret (Some tt)
  | None =>
      r ← runSingleSubRange fuel o idx;
      match r with
      | None => mret None
      | Some None => mret (Some tt)
      | Some (Some err) =>
          c ← bctx;
          match c with
          | Some _ => mret (Some tt)
          | None =>
              match left with
              | O => failSubRange o idx err;; mret (Some tt)
              | S left' =>
                  if negb (isRetryableSubRangeErr err) then failSubRange o idx err;; mret (Some tt)
                  else
                    slept ← benv (be_sleep (if bo_MaxBackoff o <? backoff then bo_MaxBackoff o else backoff));
                    if negb slept then mret (Some tt)
                    else subrange_attempts fuel left' o idx (i64 (backoff * 2))
              end
          end
      end
  end.

Definition executeSubRangeWithRetry (fuel : nat) (o : Options) (idx : nat) (maxRetries : Z) : BF (option unit) :=
  let backoff := if bo_RetryInitialBackoff o <=? 0 then DefaultRetryInitialBackoff else bo_RetryInitialBackoff o in
  subrange_attempts fuel (Z.to_nat maxRetries) o idx backoff.

(** A saved range before it is worked on again. *)
Definition reopen (r : BackfillRange) : BackfillRange :=
  if bool_decide (br_Status r = RangeCompleted) then r
  else mkRange (br_FromLedger r) (br_ToLedger r) (br_LastLedger r) RangePending "" (br_UpdatedAt r).

(** [None]: the partition does not end. *)
Definition resumeRanges (o : Options) : BF (option (result rerror (list BackfillRange))) :=
  let split from := SplitLedgerRanges from (bo_ToLedger o) (bo_RangeSize o) (bo_Workers o) in
  if bo_DryRun o then bsum (fun _ => dryRun_summary);; mret (Ok <$> split (bo_FromLedger o))
  else
    let save ranges m :=
      p ← persistRanges ranges;
      match p with Some e => mret (Some (Err e)) | None => bsum (fun _ => m);; mret (Some (Ok ranges)) end in
    let fresh :=
      e ← benv (be_StartState (bo_ContractID o) (bo_FromLedger o) (bo_ToLedger o));
      match e with
      | Some e => mret (Some (Err e))
      | None => match split (bo_FromLedger o) with None => mret None | Some ranges => save ranges emptySummary end
      end in
    r ← benv be_GetState;
    match r with
    | Err e => if rerrors_Is KStoreNotFound e then fresh else mret (Some (Err e))
    | Ok st =>
        if matches_run o st then
          if bool_decide (bs_Ranges st = []) then
            match split (resume_ledger o st) with
            | None => mret None
            | Some ranges => save ranges (resumed_summary (bs_LastLedger st))
            end
          else
            bsum (fun _ => resumed_summary (fold_left (fun m r => if m <? br_LastLedger r then br_LastLedger r else m)
                                              (bs_Ranges st) 0));;
            mret (Some (Ok (reopen <$> bs_Ranges st)))
        else fresh
    end.

(** The worker pool, one range at a time. *)
Fixpoint work_ranges (fuel : nat) (o : Options) (maxRetries : Z) (idxs : list nat) : BF (option unit) :=
  match idxs with
  | [] => mret (Some tt)
  | idx :: rest =>
      r ← executeSubRangeWithRetry fuel o idx maxRetries;
      match r with None => mret None | Some _ => work_ranges fuel o maxRetries rest end
  end.

Definition failed_error (m : Summary) : rerror :=
  errors_New ("backfill failed on " +++ FormatInt (Z.of_nat (length (su_FailedRanges m))) +++ "/" +++
    FormatInt (su_TotalRanges m) +++ " range(s): " +++ String.concat "; " (FailedRange_String <$> su_FailedRanges m)).

(** After the pool: the summary and the error of the run. *)
Definition finishRanged (o : Options) : BF (option rerror) :=
  now ← bnow;
  s ← bget;
  let final := st_ranges s in
  let snap := progressSnapshotLocked now (st_startedAt s) final in
  (if bo_DryRun o then mret tt else persistRanges final;; mret tt);;
  bsum (with_totals (sn_TotalRanges snap) (sn_CompletedRanges snap) (sn_InFlightRanges snap) final (sn_RemainingDuration snap));;
  stamp;;
  c ← bctx;
  match c with
  | Some _ => bsum (with_completed false);; markTerminal o
  | None =>
      s ← bget;
      if negb (bool_decide (su_FailedRanges (st_sum s) = [])) then
        bsum (with_completed false);; mret (Some (failed_error (st_sum s)))
      else bsum (with_completed (sn_CompletedRanges snap =? sn_TotalRanges snap));; markTerminal o
  end.

Definition pending_indices (ranges : list BackfillRange) : list nat :=
  omap id (imap (fun i r => if range_Completed r then None else Some i) ranges).

Definition runRanged (fuel : nat) (o : Options) : BF (option (option rerror)) :=
  r ← resumeRanges o;
  match r with
  | None => mret None
  | Some (Err e) => bsum (fun _ => emptySummary);; mret (Some (Some e))
  | Some (Ok ranges) =>
      branges (fun _ => ranges);;
      notifyRangeProgress;;
      let workers := if bo_Workers o <=? 0 then 1 else bo_Workers o in
      let maxRetries := if (bo_MaxRetries o <=? 0) && (1 <? workers) then DefaultRangeMaxRetries else bo_MaxRetries o in
      p ← work_ranges fuel o maxRetries (pending_indices ranges);
      match p with None => mret None | Some _ => e ← finishRanged o; mret (Some e) end
  end.

(** ** Run *)

Definition shouldRunParallelOrRanged (o : Options) : BF bool :=
  if (1 <? bo_Workers o) || (0 <? bo_RangeSize o) || (0 <? bo_MaxRetries o) then mret true
  else if bo_DryRun o then mret false
  else
    r ← benv be_GetState;
    match r with
    | Ok st => mret (matches_run o st && negb (bool_decide (bs_Ranges st = [])))
    | Err _ => mret false
    end.

Definition runSerial (fuel : nat) (o : Options) : BF (option (option rerror)) :=
  r ← resume o;
  match r with
  | Err e => bsum (fun _ => emptySummary);; mret (Some (Some e))
  | Ok startLedger =>
      t ← serial_loop fuel o startLedger "";
      match t with
      | None => mret None
      | Some (Some e) => mret (Some e)
      | Some None =>
          s ← bget;
          bsum (with_totals 1 (if su_Completed (st_sum s) then 1 else 0) (su_InFlightRanges (st_sum s))
                  (su_Ranges (st_sum s)) (su_EstimatedRemaining (st_sum s)));;
          stamp;;
          e ← markTerminal o; mret (Some e)
      end
  end.

(** Run: the summary is in the state; [None] is a lack of fuel. *)
Definition Run (fuel : nat) (o : Options) : BF (option (option rerror)) :=
  bsum (fun _ => emptySummary);;
  if bool_decide (bo_ContractID o = "") then mret (Some (Some (errors_New "backfill: --contract is required")))
  else if bo_FromLedger o <=? 0 then mret (Some (Some (errors_New "backfill: --from-ledger must be positive")))
  else
    now ← bnow;
    bstarted now;;
    ranged ← shouldRunParallelOrRanged o;
    if (ranged : bool) then runRanged fuel o else runSerial fuel o.

End Run.
