(* ===== verification/BackfillPlan.v ===== *)
(** * The arithmetic of a backfill: partition, watermark, pacing *)

From S2P Require Import Prelude GoStrings RpcTypes StoreTypes Horizon Backfill.
From Stdlib Require Import Ascii String Sorted.
Local Open Scope Z_scope.
Local Notation length := List.length.

Definition in_br (l : Z) (r : BackfillRange) : Prop := br_FromLedger r <= l <= br_ToLedger r.

(** ** Partition *)

(** Consecutive ranges from [from] to [to], each of at most [step] ledgers. *)
Fixpoint tiles (step from to : Z) (rs : list BackfillRange) : Prop :=
  match rs with
  | [] => to < from
  | r :: rest => br_FromLedger r = from /\ from <= br_ToLedger r <= to /\ br_ToLedger r - from < step /\
                 r = mkRange from (br_ToLedger r) 0 RangePending "" time_zero /\ tiles step (br_ToLedger r + 1) to rest
  end.

Lemma split_loop_tiles fuel step to cur : 0 < step -> minInt64 <= cur -> to + step <= maxInt64 -> to - cur < Z.of_nat fuel * step ->
  exists rs, split_loop fuel cur to step = Some rs /\ tiles step cur to rs /\
    (Z.of_nat (length rs) - 1) * step <= Z.max 0 (to - cur).
Proof.
  intros Hs. revert cur. induction fuel as [|f IH]; intros cur Hc Hm Hf; cbn [split_loop].
  - destruct (Z.ltb_spec to cur); [|lia]. exists []. cbn. split; [done|]. split; lia.
  - destruct (Z.ltb_spec to cur) as [?|Hle]; [exists []; cbn; split; [done|]; split; lia|].
    assert (Hi : i64 (cur + step) = cur + step) by (apply i64_id; unfold in_i64, maxInt64, minInt64 in *; lia).
    rewrite Hi, (i64_id (cur + step - 1)) by (unfold in_i64, maxInt64, minInt64 in *; lia).
    destruct (IH (cur + step)) as (rs & -> & Ht & Hl); [unfold minInt64 in *; lia|done|lia|].
    eexists. split; [reflexivity|]. cbn [tiles br_ToLedger br_FromLedger]. split.
    + split; [done|]. destruct (Z.ltb_spec to (cur + step - 1)).
      * split; [lia|]. split; [lia|]. split; [done|]. destruct rs as [|r rs]; cbn in *; lia.
      * split; [lia|]. split; [lia|]. split; [done|]. by replace (cur + step - 1 + 1) with (cur + step) by lia.
    + cbn [length]. destruct rs as [|r rs]; cbn [length] in *; [lia|]. destruct Ht as (?&?&?). lia.
Qed.

Lemma tiles_mem step from to rs l : tiles step from to rs ->
  (from <= l <= to <-> exists r, r ∈ rs /\ in_br l r).
Proof.
  revert from. induction rs as [|r rs IH]; intros from; cbn [tiles].
  - intros H. split; [lia|]. intros (r & Hr & _). by apply list.not_elem_of_nil in Hr.
  - intros (Hf & Ht & _ & _ & Hrs). specialize (IH _ Hrs). unfold in_br in *. split.
    + intros Hl. destruct (Z.le_gt_cases l (br_ToLedger r)).
      * exists r. split; [by left|lia].
      * destruct IH as [IH _]. destruct IH as (r' & ? & ?); [lia|]. exists r'. split; [by right|done].
    + intros (r' & Hr' & Hl). apply list.elem_of_cons in Hr' as [->|Hr']; [lia|].
      assert (br_ToLedger r + 1 <= l <= to) by (apply IH; eauto). lia.
Qed.

Lemma tiles_unique step from to rs l i j r1 r2 : tiles step from to rs -> rs !! i = Some r1 -> rs !! j = Some r2 ->
  in_br l r1 -> in_br l r2 -> i = j.
Proof.
  revert from i j. induction rs as [|r rs IH]; intros from i j; cbn [tiles]; [done|].
  intros (Hf & Ht & _ & _ & Hrs) Hi Hj H1 H2. destruct i as [|i], j as [|j]; cbn in Hi, Hj.
  - done.
  - simplify_eq. exfalso. assert (br_ToLedger r1 + 1 <= l <= to); [|unfold in_br in *; lia].
    apply (tiles_mem _ _ _ _ l Hrs). exists r2. split; [by eapply list_elem_of_lookup_2|done].
  - simplify_eq. exfalso. assert (br_ToLedger r2 + 1 <= l <= to); [|unfold in_br in *; lia].
    apply (tiles_mem _ _ _ _ l Hrs). exists r1. split; [by eapply list_elem_of_lookup_2|done].
  - f_equal. eapply IH; eauto.
Qed.

Lemma tiles_fresh step from to rs : tiles step from to rs ->
  Forall (fun r => br_Status r = RangePending /\ br_LastLedger r = 0 /\ from <= br_FromLedger r) rs.
Proof.
  revert from. induction rs as [|r rs IH]; intros from; cbn [tiles]; [constructor|].
  intros (Hf & Ht & _ & Hr & Hrs). constructor; [rewrite Hr; cbn; repeat split; lia|].
  eapply list.Forall_impl; [by apply IH|]. cbn. intros r' (?&?&?). repeat split; try done; lia.
Qed.

Lemma split_step_spec total size workers : 0 < total -> total + Z.max total size <= maxInt64 -> 
  let step := split_step total size workers in
  0 < step <= Z.max total size /\ (0 < size -> step = size) /\
  (size <= 0 -> 0 < workers -> total <= workers * step).
Proof.
  intros Ht Hm. unfold split_step. destruct (Z.leb_spec size 0) as [Hs|Hs].
  - set (w0 := if workers <=? 0 then 1 else workers). set (w := if total <? w0 then total else w0).
    assert (Hw : 1 <= w <= total) by (unfold w, w0; crush_ifs).
    rewrite (i64_id (total + w)) by (unfold in_i64, maxInt64, minInt64 in *; lia).
    rewrite i64_id by (unfold in_i64, maxInt64, minInt64 in *; lia).
    unfold goquot. rewrite Z.quot_div_nonneg by lia.
    assert (Hd : total <= w * ((total + w - 1) / w)).
    { pose proof (Z.div_mod (total + w - 1) w ltac:(lia)). pose proof (Z.mod_pos_bound (total + w - 1) w ltac:(lia)). lia. }
    assert (Hd2 : (total + w - 1) / w <= total) by (apply Z.div_le_upper_bound; nia).
    destruct (Z.leb_spec ((total + w - 1) / w) 0) as [?|_]; [nia|].
    split; [nia|]. split; [lia|]. intros _ Hwp.
    assert (w <= workers) by (unfold w, w0; crush_ifs). nia.
  - destruct (Z.leb_spec size 0); [lia|]. split; [lia|]. split; [done|lia].
Qed.

Lemma split_tiles from to size workers : 0 < from -> to + Z.max to size <= maxInt64 -> from < to ->
  1 < workers \/ 0 < size ->
  let step := split_step (to - from + 1) size workers in
  exists rs, SplitLedgerRanges from to size workers = Some rs /\ tiles step from to rs /\
    (Z.of_nat (length rs) - 1) * step <= to - from.
Proof.
  intros Hf Hm Hlt Hp. unfold SplitLedgerRanges. cbv zeta.
  destruct (Z.leb_spec to 0); [lia|]. destruct (Z.leb_spec to from); [lia|]. cbn [orb].
  destruct ((workers <=? 1) && (size <=? 0))%bool eqn:E; [to_prop; lia|].
  rewrite (i64_id (to - from)) by (unfold in_i64, maxInt64, minInt64 in *; lia).
  rewrite (i64_id (to - from + 1)) by (unfold in_i64, maxInt64, minInt64 in *; lia).
  destruct (split_step_spec (to - from + 1) size workers) as (Hs & _); [lia|lia|].
  set (step := split_step _ _ _) in *.
  destruct (split_loop_tiles (Z.to_nat ((to - from + 1) / step + 1)) step to from) as (rs & Hrs & Ht & Hl);
    [lia|unfold minInt64; lia|lia| |].
  - pose proof (Z.div_mod (to - from + 1) step ltac:(lia)). pose proof (Z.mod_pos_bound (to - from + 1) step ltac:(lia)).
    rewrite Z2Nat.id by (pose proof (Z.div_pos (to - from + 1) step); lia). nia.
  - exists rs. split; [done|]. split; [done|lia].
Qed.

(** SplitLedgerRanges cuts a bounded span into pending ranges such that every
    ledger of the span is in exactly one of them and no other ledger is in any;
    a range has at most RangeSize ledgers, and without a RangeSize there are at
    most as many ranges as workers. *)
Theorem split_ranges_partition from to size workers :
  0 < from -> from < to -> to + Z.max to size <= maxInt64 -> 1 < workers \/ 0 < size ->
  exists rs, SplitLedgerRanges from to size workers = Some rs /\
    (forall l, from <= l <= to <-> exists r, r ∈ rs /\ in_br l r) /\
    (forall l i j r1 r2, rs !! i = Some r1 -> rs !! j = Some r2 -> in_br l r1 -> in_br l r2 -> i = j) /\
    Forall (fun r => br_Status r = RangePending /\ ResumeStartLedger r = br_FromLedger r) rs /\
    (0 < size -> Forall (fun r => br_ToLedger r - br_FromLedger r < size) rs) /\
    (size <= 0 -> Z.of_nat (length rs) <= workers).
Proof.
  intros Hf Hlt Hm Hp. destruct (split_tiles from to size workers) as (rs & Hrs & Ht & Hl); try done.
  destruct (split_step_spec (to - from + 1) size workers) as (Hs & Hsz & Hw); [lia|lia|].
  exists rs. split; [done|]. split; [intros l; by eapply tiles_mem|]. split; [intros *; by eapply tiles_unique|].
  split; [|split].
  - eapply list.Forall_impl; [by eapply tiles_fresh|]. cbn. intros r (? & H0 & ?). split; [done|].
    unfold ResumeStartLedger. rewrite H0. destruct (Z.leb_spec (br_FromLedger r) 0); [lia|done].
  - intros H0. rewrite (Hsz H0) in Ht. clear -Ht. revert from Ht.
    induction rs as [|r rs IH]; intros from; cbn [tiles]; [constructor|].
    intros (<- & _ & H & _ & Hrs). constructor; [done|]. by eapply IH.
  - intros H0. specialize (Hw H0 ltac:(lia)). nia.
Qed.

Lemma split_ranges_partition_witness :
  exists rs, SplitLedgerRanges 10 20 4 1 = Some rs /\ (forall l, 10 <= l <= 20 <-> exists r, r ∈ rs /\ in_br l r).
Proof.
  destruct (split_ranges_partition 10 20 4 1) as (rs & H & Hc & _); [lia|lia|unfold maxInt64; lia|lia|].
  exists rs. exact (conj H Hc).
Defined.

(** ** The watermark *)

Definition committed (l : Z) (r : BackfillRange) : Prop :=
  br_FromLedger r <= l /\ ((br_Status r = RangeCompleted /\ l <= br_ToLedger r) \/ l <= br_LastLedger r).

Lemma watermark_loop_sound ranges from wm expected : 0 < from -> expected <= Z.max wm (from - 1) + 1 ->
  Forall (fun r => minInt64 <= br_ToLedger r < maxInt64) ranges ->
  forall l, from <= l -> wm < l <= watermark_loop wm expected ranges -> exists r, r ∈ ranges /\ committed l r.
Proof.
  intros Hf. revert wm expected. induction ranges as [|r rs IH]; intros wm expected He Hb l Hl; cbn [watermark_loop]; [lia|].
  apply list.Forall_cons in Hb as [Hr Hb].
  destruct (Z.ltb_spec expected (br_FromLedger r)); [lia|]. case_bool_decide as Hc.
  - rewrite i64_id by (unfold in_i64, maxInt64, minInt64 in *; lia). intros Hw.
    destruct (Z.le_gt_cases l (br_ToLedger r)).
    + exists r. split; [by left|]. split; [lia|]. by left.
    + set (wm' := if wm <? br_ToLedger r then br_ToLedger r else wm) in *.
      assert (wm' = Z.max wm (br_ToLedger r)) by (unfold wm'; crush_ifs).
      destruct (IH wm' (br_ToLedger r + 1) ltac:(lia) Hb l Hl ltac:(lia)) as (r' & ? & ?).
      exists r'. split; [by right|done].
  - split_if; [|lia]. to_prop. intros Hw. exists r. split; [by left|]. split; [lia|]. right; lia.
Qed.

(** The watermark that SaveBackfillRanges stores has no gap below it: every
    ledger from the start up to it is in a completed range, or in the processed
    part of an unfinished one. *)
Theorem watermark_no_gap from ranges l : 0 < from ->
  Forall (fun r => minInt64 <= br_ToLedger r < maxInt64) ranges ->
  from <= l <= ContiguousWatermark from ranges -> exists r, r ∈ ranges /\ committed l r.
Proof.
  intros Hf Hb [Hl Hw]. apply (watermark_loop_sound ranges from 0 from); [done|lia|done|done|]. split; [lia|exact Hw].
Qed.

Definition demo_ranges : list BackfillRange :=
  [mkRange 1 10 10 RangeCompleted "" 0; mkRange 11 20 15 RangeFailed "" 0; mkRange 21 30 30 RangeCompleted "" 0].

Lemma watermark_no_gap_witness :
  ContiguousWatermark 1 demo_ranges = 15 /\ exists r, r ∈ demo_ranges /\ committed 13 r.
Proof.
  split; [vm_compute; reflexivity|].
  apply (watermark_no_gap 1 demo_ranges 13); [lia| |vm_compute; split; discriminate].
  repeat constructor; cbn; unfold minInt64, maxInt64; lia.
Defined.

(** ** Pacing *)

(** The times at which successive callers, arriving at the given clock readings,
    may send. *)
Fixpoint grants (l : IntervalRateLimiter) (nows : list Z) : list Z :=
  match nows with
  | [] => []
  | now :: rest => let '(wait, l') := limiter_slot now l in (now + wait) :: grants l' rest
  end.

Fixpoint spaced (d last : Z) (ts : list Z) : Prop :=
  match ts with [] => True | t :: rest => last + d <= t /\ spaced d t rest end.

Lemma grants_spaced nows l : 0 < rl_minInterval l -> time_zero < rl_lastAllowed l ->
  StronglySorted Z.le nows -> rl_minInterval l * Z.of_nat (length nows) <= maxInt64 ->
  Forall (fun now => time_zero < now /\ rl_lastAllowed l + rl_minInterval l * Z.of_nat (length nows) - now <= maxInt64) nows ->
  spaced (rl_minInterval l) (rl_lastAllowed l) (grants l nows).
Proof.
  revert l. induction nows as [|now rest IH]; intros l Hd Hz Hs Hm Hn; cbn [grants]; [done|].
  apply list.Forall_cons in Hn as [[Hn1 Hn2] Hn]. cbn [length] in *. inversion_clear Hs as [|? ? Hs' Hle].
  unfold limiter_slot. destruct (Z.leb_spec (rl_minInterval l) 0); [lia|]. unfold time_IsZero.
  destruct (Z.eqb_spec (rl_lastAllowed l) time_zero); [lia|]. cbn [orb].
  destruct (Z.ltb_spec now (rl_lastAllowed l + rl_minInterval l)) as [Hlt|Hge]; cbn [negb spaced].
  - assert (E : time_Sub (rl_lastAllowed l + rl_minInterval l) now = rl_lastAllowed l + rl_minInterval l - now)
      by (unfold time_Sub, maxInt64, minInt64 in *; lia).
    rewrite E. split; [lia|]. replace (now + _) with (rl_lastAllowed l + rl_minInterval l) by lia.
    apply (IH (mkLimiter (rl_minInterval l) (rl_lastAllowed l + rl_minInterval l) _)); cbn; [done|lia|done|lia|]. eapply list.Forall_impl; [exact Hn|]. cbn. intros x [??]. split; [done|lia].
  - split; [lia|]. rewrite Z.add_0_r. apply (IH (mkLimiter (rl_minInterval l) now _)); cbn; [done|lia|done|lia|].
    apply list.Forall_forall. intros x Hx. rewrite list.Forall_forall in Hn, Hle.
    specialize (Hn x Hx). specialize (Hle x Hx). split; [lia|lia].
Qed.

(** However many workers share the limiter, the requests it admits are at
    least the minimum interval apart, and a caller that finds a free slot does
    not wait. *)
Theorem limiter_spaces_requests d now nows : 0 < d -> time_zero < now -> StronglySorted Z.le (now :: nows) ->
  d * (Z.of_nat (length nows) + 1) <= maxInt64 ->
  exists ts, grants (NewIntervalRateLimiter d) (now :: nows) = now :: ts /\ spaced d now ts /\
    (forall l t, rl_lastAllowed l + rl_minInterval l <= t -> (limiter_slot t l).1 = 0).
Proof.
  intros Hd Hz Hs Hm. inversion_clear Hs as [|? ? Hs' Hle]. cbn [grants]. unfold limiter_slot at 1, NewIntervalRateLimiter.
  cbn [rl_minInterval rl_lastAllowed rl_waits]. destruct (Z.leb_spec d 0); [lia|].
  change (time_IsZero time_zero) with true. cbn [orb]. rewrite Z.add_0_r. eexists. split; [reflexivity|]. split.
  - apply (grants_spaced nows (mkLimiter d now _)); cbn; [done|lia|done|lia|].
    apply list.Forall_forall. intros x Hx. rewrite list.Forall_forall in Hle. specialize (Hle x Hx). lia.
  - intros l t Ht. unfold limiter_slot. destruct (Z.leb_spec (rl_minInterval l) 0); [done|].
    destruct (Z.ltb_spec t (rl_lastAllowed l + rl_minInterval l)); [lia|]. by rewrite orb_true_r.
Qed.

Lemma limiter_spaces_requests_witness :
  exists ts, grants (NewIntervalRateLimiter 100) [1000; 1010; 1020; 1500] = 1000 :: ts /\ spaced 100 1000 ts.
Proof.
  destruct (limiter_spaces_requests 100 1000 [1010; 1020; 1500]) as (ts & H & Hs & _);
    [lia|unfold time_zero, Second; lia| |unfold maxInt64; cbn; lia|exists ts; exact (conj H Hs)].
  repeat constructor; lia.
Defined.
