(* ===== verification/BackfillProps.v ===== *)
(** * A finished backfill has stored every event

    What a run relies on of Horizon and the store is the class [BackfillLaws]:
    pages are consecutive pieces of a ledger-ordered list of transactions, an
    upsert that succeeds has stored its rows, and nothing removes rows. Other
    writers may add rows at any time. *)

From S2P Require Import Prelude GoStrings RpcTypes StoreTypes Horizon Backfill BackfillPlan.
From Stdlib Require Import Ascii String Sorted.
Local Open Scope Z_scope.
Local Notation length := List.length.

(** ** Stepping through a run *)

Section Wp.
Context {W : Type} `{!BackfillEnv W}.

Definition wpb {A} (m : BF (W := W) A) (Q : A -> Backfiller -> W -> Prop) (s : Backfiller) (w : W) : Prop :=
  let '(a, s', w') := m s w in Q a s' w'.

Lemma wpb_bind {A B} (m : BF (W := W) A) (k : A -> BF B) Q s w :
  wpb m (fun a s w => wpb (k a) Q s w) s w -> wpb (mbind k m) Q s w.
Proof. unfold wpb, mbind, BF_bind. by destruct (m s w) as [[? ?] ?]. Qed.

Lemma wpb_mono {A} (m : BF (W := W) A) (Q Q' : A -> Backfiller -> W -> Prop) s w :
  wpb m Q s w -> (forall a s' w', Q a s' w' -> Q' a s' w') -> wpb m Q' s w.
Proof. unfold wpb. destruct (m s w) as [[? ?] ?]. auto. Qed.
End Wp.

(** ** The laws *)

Definition tx_cursor (tx : Transaction) : string :=
  if bool_decide (tx_PagingToken tx = ""%string) then tx_ID tx else tx_PagingToken tx.

(** The transactions after a cursor; the empty cursor is the start. *)
Fixpoint after_tx (c : string) (l : list Transaction) : list Transaction :=
  match l with
  | [] => []
  | tx :: r => if bool_decide (tx_cursor tx = c) then r else after_tx c r
  end.
Definition page_rest (c : string) (l : list Transaction) : list Transaction :=
  if bool_decide (c = ""%string) then l else after_tx c l.

Definition in_span (from to : Z) (tx : Transaction) : bool := (from <=? tx_Ledger tx) && negb (past_end to tx).

Definition span_log (from to : Z) (l : list Transaction) : list Transaction := filter (fun tx => in_span from to tx = true) l.

Class BackfillLaws (W : Type) `{!BackfillEnv W} : Type := {
  bl_rows : W -> gset (Z * string);
  bl_log : string -> bool -> list Transaction;
  bl_sorted : forall c f, StronglySorted (fun a b => tx_Ledger a <= tx_Ledger b) (bl_log c f);
  bl_cursors : forall c f, NoDup (tx_cursor <$> bl_log c f);
  bl_cursor_ne : forall c f, Forall (fun tx => tx_cursor tx <> ""%string) (bl_log c f);
  bl_List : forall c cur limit f w, 0 < limit <= 200 ->
    let '(r, w') := be_List c cur limit f w in
    bl_rows w ⊆ bl_rows w' /\ forall page, r = Ok page -> page = take (Z.to_nat limit) (page_rest cur (bl_log c f));
  bl_ListInRange : forall list c from to cur limit f w, be_ListInRange = Some list -> 0 < limit <= 200 ->
    let '(r, w') := list c from to cur limit f w in
    bl_rows w ⊆ bl_rows w' /\
    forall page, r = Ok page -> page = take (Z.to_nat limit) (page_rest cur (span_log from to (bl_log c f)));
  bl_Upsert : forall evs w, let '(r, w') := be_UpsertEvents evs w in
    bl_rows w ⊆ bl_rows w' /\ (forall n, r = Ok n -> list_to_set (ekey <$> evs) ⊆ bl_rows w');
  bl_GetState : forall w, bl_rows w ⊆ bl_rows (be_GetState w).2;
  bl_StartState : forall c f t w, bl_rows w ⊆ bl_rows (be_StartState c f t w).2;
  bl_UpdateState : forall l w, bl_rows w ⊆ bl_rows (be_UpdateState l w).2;
  bl_CompleteState : forall w, bl_rows w ⊆ bl_rows (be_CompleteState w).2;
  bl_SaveRanges : forall save rs w, be_SaveRanges = Some save -> bl_rows w ⊆ bl_rows (save rs w).2;
  bl_limiter : forall wait w, be_limiterWait = Some wait -> bl_rows w ⊆ bl_rows (wait w).2;
  bl_sleep : forall d w, bl_rows w ⊆ bl_rows (be_sleep d w).2;
  bl_Progress : forall f n w, be_Progress = Some f -> bl_rows w ⊆ bl_rows (f n w);
  bl_RangeProgress : forall f n w, be_RangeProgress = Some f -> bl_rows w ⊆ bl_rows (f n w) }.

(** ** Paging *)

Lemma after_tx_app pre tx rest : NoDup (tx_cursor <$> pre ++ tx :: rest) -> after_tx (tx_cursor tx) (pre ++ tx :: rest) = rest.
Proof.
  induction pre as [|p pre IH]; cbn; intros Hn.
  - by rewrite bool_decide_true.
  - apply list.NoDup_cons in Hn as [Hnot Hn]. rewrite bool_decide_false; [auto|]. intros E. apply Hnot. rewrite E.
    apply list_elem_of_fmap. exists tx. split; [done|]. apply list.elem_of_app. right. by left.
Qed.

(** The cursor of a page's last row leads to what follows the page. *)
Lemma next_page pre rows rest l : l = pre ++ rows ++ rest -> rows <> [] -> NoDup (tx_cursor <$> l) ->
  Forall (fun tx => tx_cursor tx <> ""%string) l -> page_rest (next_cursor rows) l = rest.
Proof.
  intros -> Hne Hn Hf. destruct (List.exists_last Hne) as (rows' & tx & ->).
  unfold page_rest, next_cursor. rewrite list.last_snoc. fold (tx_cursor tx).
  assert (E : pre ++ (rows' ++ [tx]) ++ rest = (pre ++ rows') ++ tx :: rest) by (rewrite <- !app_assoc; reflexivity).
  rewrite E in *. rewrite bool_decide_false; [by apply after_tx_app|].
  rewrite list.Forall_forall in Hf. apply Hf, list.elem_of_app. right. by left.
Qed.

Lemma sorted_app_le {A} (R : A -> A -> Prop) l1 l2 a b : StronglySorted R (l1 ++ l2) -> a ∈ l1 -> b ∈ l2 -> R a b.
Proof.
  induction l1 as [|x l1 IH]; cbn; intros Hs Ha Hb; [by apply list.not_elem_of_nil in Ha|].
  inversion_clear Hs as [|? ? Hs' Hf]. apply list.elem_of_cons in Ha as [->|Ha]; [|by eapply IH].
  rewrite list.Forall_forall in Hf. apply Hf, list.elem_of_app. by right.
Qed.

(** ** Pages *)

Section Pages.
Context {W : Type} `{!BackfillEnv W}.

(** The keys of the rows that the transactions of the span give. *)
Definition wanted (c : string) (from to : Z) (rows : list Transaction) (k : Z * string) : Prop :=
  exists tx ex, tx ∈ rows /\ in_span from to tx = true /\
    ExtractContractEvents be_DecodeScVal be_parseTime c (hint_of tx 0) = Ok ex /\ k ∈ ekey <$> ex_Events ex.

Lemma extract_row_frame c tx a :
  pa_last (extract_row c tx a) = pa_last a /\ pa_pastEnd (extract_row c tx a) = pa_pastEnd a /\
  pa_currentLedger (extract_row c tx a) = pa_currentLedger a.
Proof. unfold extract_row. destruct (ExtractContractEvents _ _ _ _); [|done]. by destruct (_ || _)%bool. Qed.

Lemma extract_row_keys c tx a k :
  (k ∈ ekey <$> pa_events a \/ exists ex, ExtractContractEvents be_DecodeScVal be_parseTime c (hint_of tx 0) = Ok ex /\
     k ∈ ekey <$> ex_Events ex) ->
  k ∈ ekey <$> pa_events (extract_row c tx a).
Proof.
  unfold extract_row. intros Hk.
  pose proof (extract_keys be_DecodeScVal be_parseTime c (tx_Hash tx) (tx_Ledger tx) (tx_CreatedAt tx) (tx_ResultCode tx)
    (tx_ResultMetaXDR tx) 0 (pa_txiInLedger a)) as Hx. unfold hint_of in *.
  destruct (ExtractContractEvents _ _ _ (mkHint _ _ _ _ _ (pa_txiInLedger a))) as [ex'|] eqn:E.
  2: { destruct Hk as [Hk|(ex & He & _)]; [done|]. by rewrite He in Hx. }
  destruct (_ || _)%bool eqn:Eb; cbn [pa_events].
  - destruct Hk as [Hk|(ex & He & Hk)]; [done|]. rewrite He in Hx. rewrite Hx in Hk.
    assert (ex_Events ex' = []) as Hnil; [|by rewrite Hnil in Hk; apply list.not_elem_of_nil in Hk].
    unfold ExtractContractEvents in E. cbv zeta in E. repeat case_bool_decide; simplify_eq; cbn in *; try done.
    all: destruct (DecodeMeta _); simplify_eq; cbn in *; by repeat case_bool_decide.
  - rewrite fmap_app, list.elem_of_app. destruct Hk as [Hk|(ex & He & Hk)]; [by left|right]. rewrite He in Hx. by rewrite <- Hx.
Qed.

Lemma wanted_cons c from to tx rows k : wanted c from to (tx :: rows) k ->
  (in_span from to tx = true /\ exists ex, ExtractContractEvents be_DecodeScVal be_parseTime c (hint_of tx 0) = Ok ex /\
     k ∈ ekey <$> ex_Events ex) \/ wanted c from to rows k.
Proof.
  intros (x & ex & Hx & Hin & He & Hk). apply list.elem_of_cons in Hx as [->|Hx]; [left; eauto|right; exists x, ex; eauto].
Qed.

Lemma extractPage_spec o rows start :
  (forall k, wanted (bo_ContractID o) start (bo_ToLedger o) rows k -> k ∈ ekey <$> pa_events (extractPage o rows start)) /\
  (pa_last (extractPage o rows start) = 0 \/
   exists tx, tx ∈ rows /\ pa_last (extractPage o rows start) = tx_Ledger tx).
Proof.
  unfold extractPage. set (f := fun a tx => _).
  assert (G : forall a, (forall k, k ∈ ekey <$> pa_events a \/ wanted (bo_ContractID o) start (bo_ToLedger o) rows k ->
                k ∈ ekey <$> pa_events (fold_left f rows a)) /\
              (pa_last (fold_left f rows a) = pa_last a \/ exists tx, tx ∈ rows /\ pa_last (fold_left f rows a) = tx_Ledger tx)).
  { induction rows as [|tx rows IH]; intros a; cbn [fold_left].
    - split; [|by left]. intros k [?|(x & ? & Hx & _)]; [done|by apply list.not_elem_of_nil in Hx].
    - destruct (IH (f a tx)) as [Hk Hl]. split.
      + intros k Hw. apply Hk. destruct Hw as [Hw|Hw]; [left|apply wanted_cons in Hw as [[Hs Hw]|Hw]; [left|by right]].
        * unfold f. destruct (_ <? _); [done|]. cbv zeta. destruct (past_end _ _); [done|]. apply extract_row_keys. by left.
        * unfold f, in_span in *. to_prop. destruct (Z.ltb_spec (tx_Ledger tx) start); [lia|]. cbv zeta.
          rewrite H0. apply extract_row_keys. by right.
      + destruct Hl as [Hl|(x & Hx & Hl)]; [|right; exists x; split; [by right|done]]. rewrite Hl. unfold f.
        destruct (_ <? _); [by left|]. cbv zeta. right. exists tx. split; [by left|].
        destruct (past_end _ _); [done|]. by rewrite (proj1 (extract_row_frame _ _ _)). }
  destruct (G start_acc) as [Hk Hl]. split; [intros k Hw; apply Hk; by right|exact Hl].
Qed.

Lemma extractSubRangePage_spec o rows start to :
  (forall k, wanted (bo_ContractID o) start to rows k -> k ∈ ekey <$> pa_events (extractSubRangePage o rows start to)) /\
  (pa_pastEnd (extractSubRangePage o rows start to) = true -> exists tx, tx ∈ rows /\ past_end to tx = true).
Proof.
  unfold extractSubRangePage. set (f := fun a tx => _).
  assert (G : forall a, (forall k, k ∈ ekey <$> pa_events a \/ wanted (bo_ContractID o) start to rows k ->
                k ∈ ekey <$> pa_events (fold_left f rows a)) /\
              (pa_pastEnd (fold_left f rows a) = true -> pa_pastEnd a = true \/ exists tx, tx ∈ rows /\ past_end to tx = true)).
  { induction rows as [|tx rows IH]; intros a; cbn [fold_left].
    - split; [|by left]. intros k [?|(x & ? & Hx & _)]; [done|by apply list.not_elem_of_nil in Hx].
    - destruct (IH (f a tx)) as [Hk Hl]. split.
      + intros k Hw. apply Hk. destruct Hw as [Hw|Hw]; [left|apply wanted_cons in Hw as [[Hs Hw]|Hw]; [left|by right]].
        * unfold f. destruct (_ <? _); [done|]. destruct (past_end _ _); [done|]. apply extract_row_keys. by left.
        * unfold f, in_span in *. to_prop. destruct (Z.ltb_spec (tx_Ledger tx) start); [lia|].
          rewrite H0. apply extract_row_keys. by right.
      + intros Hp. destruct (Hl Hp) as [Hq|(x & Hx & Hq)]; [|right; exists x; split; [by right|done]]. revert Hq. unfold f.
        destruct (_ <? _); [by left|]. destruct (past_end to tx) eqn:Ep; [intros _; right; exists tx; split; [by left|done]|].
        rewrite (proj1 (proj2 (extract_row_frame _ _ _))). by left. }
  destruct (G start_acc) as [Hk Hl]. split; [intros k Hw; apply Hk; by right|]. intros Hp. by destruct (Hl Hp).
Qed.
End Pages.

(** ** The serial run *)

Section Serial.
Context {W : Type} `{!BackfillEnv W} `{!BackfillLaws W}.
Local Notation grows w w' := (bl_rows w ⊆ bl_rows w').
Local Notation B := (BF (W := W)).

(** The ranges and the two flags of the summary are as before. *)
Definition calm (s s' : Backfiller) : Prop :=
  st_ranges s' = st_ranges s /\ su_Completed (st_sum s') = su_Completed (st_sum s) /\
  su_Resumed (st_sum s') = su_Resumed (st_sum s) /\ su_FailedRanges (st_sum s') = su_FailedRanges (st_sum s).

#[global] Instance calm_po : PreOrder calm.
Proof. split; [by intros s|]. intros a b c. unfold calm. intuition congruence. Qed.

(** Computations that only call the environment. *)
Definition quiet {A} (m : B A) : Prop := forall s w, wpb m (fun _ s' w' => s' = s /\ grows w w') s w.

Lemma quiet_ret {A} (a : A) : quiet (mret a : B A).
Proof. by intros s w. Qed.
Lemma quiet_bind {A C} (m : B A) (k : A -> B C) : quiet m -> (forall a, quiet (k a)) -> quiet (mbind k m).
Proof.
  intros Hm Hk s w. apply wpb_bind. eapply wpb_mono; [apply Hm|]. cbn. intros a s' w' [-> Hg].
  eapply wpb_mono; [apply Hk|]. cbn. intros ? ? ? [-> ?]. split; [done|set_solver].
Qed.
Lemma quiet_env {A} (f : W -> A * W) : (forall w, grows w (f w).2) -> quiet (benv f).
Proof. intros H s w. unfold wpb, benv. specialize (H w). destruct (f w). done. Qed.
Lemma quiet_read : quiet (bget : B _) /\ quiet (bnow : B _) /\ quiet (bctx : B _).
Proof. split; [|split]; by intros s w. Qed.

Lemma quiet_limiter : quiet waitRateLimit.
Proof. unfold waitRateLimit. destruct be_limiterWait as [g|] eqn:E; [|apply quiet_ret]. apply quiet_env. intros w. by apply bl_limiter. Qed.
Lemma quiet_persist rs : quiet (persistRanges rs).
Proof. unfold persistRanges. destruct be_SaveRanges as [g|] eqn:E; [|apply quiet_ret]. apply quiet_env. intros w. by apply bl_SaveRanges. Qed.
Lemma quiet_progress n : quiet (notifyProgress n).
Proof. unfold notifyProgress. destruct be_Progress as [g|] eqn:E; [|apply quiet_ret]. apply quiet_env. intros w. exact (bl_Progress g n w E). Qed.
Lemma quiet_rangeProgress : quiet notifyRangeProgress.
Proof.
  unfold notifyRangeProgress. destruct be_RangeProgress as [g|] eqn:E; [|apply quiet_ret].
  apply quiet_bind; [apply quiet_read|intros now]. apply quiet_bind; [apply quiet_read|intros s].
  apply quiet_env. intros w. exact (bl_RangeProgress g _ w E).
Qed.
Lemma quiet_start c f t : quiet (benv (be_StartState c f t)).
Proof. apply quiet_env. intros. apply bl_StartState. Qed.
Lemma quiet_terminal o : quiet (markTerminal o).
Proof.
  unfold markTerminal. destruct (bo_DryRun o).
  - apply quiet_bind; [apply quiet_start|intros; apply quiet_ret].
  - apply quiet_bind; [apply quiet_read|intros s]. destruct (negb _); [apply quiet_ret|].
    apply quiet_bind; [|intros; apply quiet_ret]. apply quiet_env. intros. apply bl_CompleteState.
Qed.

(** Running a quiet computation first. *)
Lemma wpb_quiet {A C} (m : B A) (k : A -> B C) Q s w : quiet m ->
  (forall a w', grows w w' -> wpb (k a) Q s w') -> wpb (mbind k m) Q s w.
Proof. intros Hm Hk. apply wpb_bind. eapply wpb_mono; [apply Hm|]. cbn. intros a s' w' [-> ?]. by apply Hk. Qed.

Lemma wpb_sum {C} f (k : unit -> B C) Q s w :
  wpb (k tt) Q (mkBackfiller (st_startedAt s) (st_ranges s) (f (st_sum s))) w -> wpb (mbind k (bsum f)) Q s w.
Proof. done. Qed.
Lemma wpb_stamp {C} (k : unit -> B C) Q s w :
  (forall s', calm s s' -> wpb (k tt) Q s' w) -> wpb (mbind k stamp) Q s w.
Proof. intros H. exact (H (mkBackfiller _ _ (with_duration _ (st_sum s))) ltac:(done)). Qed.

Definition stored (c : string) (from to : Z) (rows : list Transaction) (w : W) : Prop :=
  forall k, wanted c from to rows k -> k ∈ bl_rows w.

Lemma backfilled_grows c from to rows w w' : grows w w' -> stored c from to rows w -> stored c from to rows w'.
Proof. intros Hg H k Hk. apply Hg, H, Hk. Qed.
Lemma wanted_app c from to l1 l2 k : wanted c from to (l1 ++ l2) k -> wanted c from to l1 k \/ wanted c from to l2 k.
Proof.
  intros (x & ex & Hx & Hr). apply list.elem_of_app in Hx as [Hx|Hx]; [left|right]; exists x, ex; by split.
Qed.
Lemma stored_app c from to l1 l2 w : stored c from to l1 w -> stored c from to l2 w -> stored c from to (l1 ++ l2) w.
Proof. intros H1 H2 k Hk. apply wanted_app in Hk as [?|?]; auto. Qed.
Lemma stored_nil c from to w : stored c from to [] w.
Proof. intros k (x & ? & Hx & _). by apply list.not_elem_of_nil in Hx. Qed.

(** Later transactions of the log are past the end when an earlier one is. *)
Lemma stored_past c from to l1 l2 w tx : StronglySorted (fun a b => tx_Ledger a <= tx_Ledger b) (l1 ++ l2) ->
  tx ∈ l1 -> past_end to tx = true -> stored c from to l2 w.
Proof.
  intros Hs Hx Hp k (y & ? & Hy & Hin & _). pose proof (sorted_app_le _ _ _ _ _ Hs Hx Hy) as Hle.
  unfold in_span, past_end in *. to_prop. apply andb_false_iff in H0 as [?|?]; to_prop; lia.
Qed.

Lemma commit_spec o evs l s w : bo_DryRun o = false ->
  wpb (commit_events o evs l) (fun e s' w' => grows w w' /\ calm s s' /\
    (e = None -> forall k, k ∈ ekey <$> evs -> k ∈ bl_rows w')) s w.
Proof.
  intros Hd. unfold commit_events. rewrite Hd, andb_true_r. destruct (bool_decide_reflect (evs = [])) as [->|Hne]; cbn [negb].
  - split; [done|]. split; [done|]. intros _ k Hk. by apply list.not_elem_of_nil in Hk.
  - apply wpb_bind. unfold commitPage. apply wpb_bind. unfold wpb at 1, benv at 1. pose proof (bl_Upsert evs w) as Hu.
    destruct (be_UpsertEvents evs w) as [[n|e] w1]; destruct Hu as [Hg Hk].
    + apply wpb_bind. unfold wpb at 1, benv at 1. pose proof (bl_UpdateState l w1) as Hu2.
      destruct (be_UpdateState l w1) as [[e|] w2]; cbn in Hu2.
      * cbn [wpb]. apply wpb_stamp. intros s' Hc. split; [set_solver|]. split; [done|]. discriminate.
      * split; [set_solver|]. split; [done|]. intros _ k Hin. apply Hu2, (Hk n); [done|]. by apply elem_of_list_to_set.
    + apply wpb_stamp. intros s' Hc. split; [done|]. split; [done|]. discriminate.
Qed.

(** What a turn leaves behind. *)
Definition turn_post (o : Options) (start : Z) (log pre rest : list Transaction) (s : Backfiller)
    (t : page_end) (s' : Backfiller) (w' : W) : Prop :=
  su_Resumed (st_sum s') = su_Resumed (st_sum s) /\
  match t with
  | Break => stored (bo_ContractID o) start (bo_ToLedger o) log w'
  | Return _ => su_Completed (st_sum s') = false
  | Next cur => su_Completed (st_sum s') = false /\ exists rows rest', rest = rows ++ rest' /\ rows <> [] /\
      page_rest cur log = rest' /\ stored (bo_ContractID o) start (bo_ToLedger o) (pre ++ rows) w'
  end.

Lemma wpb_commit {C} o evs l (k : option rerror -> B C) Q s w : bo_DryRun o = false ->
  (forall e s' w', grows w w' -> calm s s' -> (e = None -> forall key, key ∈ ekey <$> evs -> key ∈ bl_rows w') ->
     wpb (k e) Q s' w') -> wpb (mbind k (commit_events o evs l)) Q s w.
Proof.
  intros Hd Hk. apply wpb_bind. eapply wpb_mono; [by apply commit_spec|]. cbn. intros e s' w' (?&?&?). by apply Hk.
Qed.

Lemma serial_page_spec o start pre rows rest log s w : bo_DryRun o = false ->
  log = pre ++ rows ++ rest -> rows <> [] -> 
  (Z.of_nat (length rows) < bo_BatchSize o -> rest = []) ->
  StronglySorted (fun a b => tx_Ledger a <= tx_Ledger b) log -> NoDup (tx_cursor <$> log) ->
  Forall (fun tx => tx_cursor tx <> ""%string) log ->
  su_Completed (st_sum s) = false -> stored (bo_ContractID o) start (bo_ToLedger o) pre w ->
  wpb (serial_page o start rows) (turn_post o start log pre (rows ++ rest) s) s w.
Proof.
  intros Hd Hlog Hne Hshort Hs Hn Hf Hc Hpre. unfold serial_page. cbv zeta.
  destruct (extractPage_spec o rows start) as [Hk Hl]. set (a := extractPage o rows start) in *.
  apply wpb_sum. apply wpb_quiet; [apply quiet_progress|]. intros [] w1 Hg1.
  assert (Hrows : forall w', grows w1 w' -> (forall key, key ∈ ekey <$> pa_events a -> key ∈ bl_rows w') ->
      stored (bo_ContractID o) start (bo_ToLedger o) (pre ++ rows) w').
  { intros w' Hg Hin. apply stored_app; [eapply backfilled_grows; [|exact Hpre]; set_solver|]. intros key Hw. apply Hin, Hk, Hw. }
  destruct ((0 <? bo_ToLedger o) && (bo_ToLedger o <? pa_last a))%bool eqn:Ep.
  - apply wpb_bind. cbn [wpb bget]. apply wpb_commit; [done|]. intros [e|] s' w' Hg (_ & Hc' & Hr' & _) Hin.
    + split; [exact Hr'|]. cbn in Hc'. congruence.
    + split; [exact Hr'|]. rewrite Hlog, app_assoc. apply stored_app; [by apply Hrows, Hin|].
      to_prop. destruct Hl as [Hl|(tx & Htx & Hl)]; [lia|].
      eapply (stored_past _ _ _ rows rest _ tx); [|done|].
      * rewrite Hlog in Hs. clear -Hs. induction pre as [|p pre IH]; [done|]. apply IH. by inversion Hs.
      * unfold past_end. apply andb_true_iff. split; apply Z.ltb_lt; lia.
  - apply wpb_commit; [done|]. intros [e|] s' w' Hg (_ & Hc' & Hr' & _) Hin.
    + split; [exact Hr'|]. cbn in Hc'. congruence.
    + destruct (Z.ltb_spec (Z.of_nat (length rows)) (bo_BatchSize o)) as [Hsh|_].
      * split; [exact Hr'|]. rewrite Hlog, (Hshort Hsh), app_nil_r. by apply Hrows, Hin.
      * split; [exact Hr'|]. split; [cbn in Hc'; congruence|]. exists rows, rest. split; [done|]. split; [done|].
        split; [by eapply next_page|]. by apply Hrows, Hin.
Qed.

Lemma take_rest n (l : list Transaction) : exists rest, l = take n l ++ rest /\ ((length (take n l) < n)%nat -> rest = []).
Proof.
  exists (drop n l). split; [by rewrite list.take_drop|]. rewrite length_take. intros. apply list.drop_ge. lia.
Qed.

Lemma serial_turn_spec o start cursor pre rest s w : bo_DryRun o = false -> 0 < bo_BatchSize o <= 200 ->
  let log := bl_log (bo_ContractID o) (bo_IncludeFailed o) in
  log = pre ++ rest -> page_rest cursor log = rest ->
  su_Completed (st_sum s) = false -> stored (bo_ContractID o) start (bo_ToLedger o) pre w ->
  wpb (serial_turn o start cursor) (turn_post o start log pre rest s) s w.
Proof.
  intros Hd Hb log Hlog Hrest Hc Hpre. unfold serial_turn.
  assert (Hend : forall w', wpb (stamp;; e ← markTerminal o; mret (Return e)) (turn_post o start log pre rest s) s w').
  { intros w'. apply wpb_stamp. intros s' (_ & Hc' & Hr' & _). apply wpb_quiet; [apply quiet_terminal|].
    intros e w2 _. split; [done|]. congruence. }
  apply wpb_quiet; [apply quiet_read|]. intros [?|] w1 Hg1; [apply Hend|].
  apply wpb_quiet; [apply quiet_limiter|]. intros [e|] w2 Hg2.
  - apply wpb_quiet; [apply quiet_read|]. intros [?|] w3 Hg3; [apply Hend|].
    apply wpb_stamp. intros s' (_ & Hc' & Hr' & _). split; [done|]. congruence.
  - unfold fetch. apply wpb_bind. unfold wpb at 1, benv at 1.
    pose proof (bl_List (bo_ContractID o) cursor (bo_BatchSize o) (bo_IncludeFailed o) w2 Hb) as Hp.
    destruct (be_List _ _ _ _ w2) as [[page|e] w3]; destruct Hp as [Hg3 Hp].
    2: { apply wpb_stamp. intros s' (_ & Hc' & Hr' & _). split; [done|]. congruence. }
    fold log in Hp. specialize (Hp page eq_refl). rewrite Hrest in Hp.
    assert (Hpre3 : stored (bo_ContractID o) start (bo_ToLedger o) pre w3) by (eapply backfilled_grows; [|exact Hpre]; set_solver).
    destruct (take_rest (Z.to_nat (bo_BatchSize o)) rest) as (rest' & Hr & Hsh). rewrite <- Hp in Hr, Hsh.
    destruct page as [|tx page].
    + split; [done|]. rewrite Hlog. apply stored_app; [done|]. rewrite Hr, (Hsh ltac:(cbn; lia)). apply stored_nil.
    + rewrite Hr. apply serial_page_spec; try done; [by rewrite <- Hr| |apply bl_sorted|apply bl_cursors|apply bl_cursor_ne].
      intros Hlt. apply Hsh. lia.
Qed.

Lemma serial_loop_spec fuel o start cursor pre rest s w : bo_DryRun o = false -> 0 < bo_BatchSize o <= 200 ->
  let log := bl_log (bo_ContractID o) (bo_IncludeFailed o) in
  (length rest < fuel)%nat -> log = pre ++ rest -> page_rest cursor log = rest ->
  su_Completed (st_sum s) = false -> stored (bo_ContractID o) start (bo_ToLedger o) pre w ->
  wpb (serial_loop fuel o start cursor) (fun t s' w' => su_Resumed (st_sum s') = su_Resumed (st_sum s) /\
    match t with
    | None => False
    | Some None => stored (bo_ContractID o) start (bo_ToLedger o) log w'
    | Some (Some _) => su_Completed (st_sum s') = false
    end) s w.
Proof.
  intros Hd Hb log. revert cursor pre rest s w. induction fuel as [|f IH]; intros cursor pre rest s w Hf Hlog Hr Hc Hpre; [lia|].
  cbn [serial_loop]. apply wpb_bind. eapply wpb_mono; [by apply (serial_turn_spec o start cursor pre rest)|].
  intros [|e|cur] s' w' [Hrs Hp]; [done|done|]. destruct Hp as (Hc' & rows & rest' & -> & Hne & Hcur & Hst).
  eapply wpb_mono; [apply (IH cur (pre ++ rows) rest')|].
  - rewrite length_app in Hf. destruct rows; [done|cbn in Hf; lia].
  - by rewrite <- app_assoc.
  - done.
  - done.
  - done.
  - cbn. intros t s2 w2 [Hr2 Ht]. split; [congruence|exact Ht].
Qed.

(** The first page of the log. *)
Lemma page_rest_start l : page_rest "" l = l.
Proof. done. Qed.

Lemma resume_spec o s w : bo_DryRun o = false -> su_Completed (st_sum s) = false -> su_Resumed (st_sum s) = false ->
  wpb (resume o) (fun r s' w' => su_Completed (st_sum s') = false /\
    forall start, r = Ok start -> su_Resumed (st_sum s') = false -> start = bo_FromLedger o) s w.
Proof.
  intros Hd Hc Hr. unfold resume. rewrite Hd. cbv zeta.
  assert (Hfresh : forall w', wpb (e ← benv (be_StartState (bo_ContractID o) (bo_FromLedger o) (bo_ToLedger o));
      match e with Some e => mret (Err e) | None => mret (Ok (bo_FromLedger o)) end)
    (fun r s' w' => su_Completed (st_sum s') = false /\
       forall start, r = Ok start -> su_Resumed (st_sum s') = false -> start = bo_FromLedger o) s w').
  { intros w'. apply wpb_quiet; [apply quiet_start|]. intros [e|] w2 _; split; try done. intros start [=]. done. }
  apply wpb_quiet; [apply quiet_env, bl_GetState|]. intros [st|e] w1 _.
  - destruct (matches_run o st); [|apply Hfresh]. split; [done|]. intros start _ H. discriminate H.
  - destruct (rerrors_Is _ _); [apply Hfresh|]. split; [done|]. discriminate.
Qed.

Lemma runSerial_spec fuel o s w : bo_DryRun o = false -> 0 < bo_BatchSize o <= 200 ->
  let log := bl_log (bo_ContractID o) (bo_IncludeFailed o) in
  (length log < fuel)%nat -> su_Completed (st_sum s) = false -> su_Resumed (st_sum s) = false ->
  wpb (runSerial fuel o) (fun t s' w' => t <> None /\ (su_Completed (st_sum s') = true -> su_Resumed (st_sum s') = false ->
    stored (bo_ContractID o) (bo_FromLedger o) (bo_ToLedger o) log w')) s w.
Proof.
  intros Hd Hb log Hf Hc Hr. unfold runSerial. apply wpb_bind. eapply wpb_mono; [by apply resume_spec|].
  intros [start|e] s1 w1 [Hc1 Hst]; [|split; [done|discriminate]].
  apply wpb_bind. eapply wpb_mono; [apply (serial_loop_spec fuel o start "" [] log); try done; apply stored_nil|].
  intros [[e|]|] s2 w2 [Hr2 Ht]; [split; [done|congruence]| |done].
  apply wpb_bind. cbn [wpb bget]. apply wpb_sum. apply wpb_stamp. intros s3 (_ & Hc3 & Hr3 & _).
  apply wpb_quiet; [apply quiet_terminal|]. intros e w3 Hg. split; [done|]. intros _ H.
  cbn in Hr3. rewrite (Hst start eq_refl) in Ht by congruence. by eapply backfilled_grows.
Qed.
End Serial.
