(* ===== verification/BackfillRanged.v ===== *)
(** * A finished run over sub-ranges has stored every event *)

From S2P Require Import Prelude GoStrings RpcTypes StoreTypes Horizon Backfill BackfillPlan BackfillProps.
From Stdlib Require Import Ascii String Sorted.
Local Open Scope Z_scope.
Local Notation length := List.length.

Definition bounds (r : BackfillRange) : Z * Z := (br_FromLedger r, br_ToLedger r).

Lemma StronglySorted_filter_tx (p : Transaction -> bool) l :
  StronglySorted (fun a b => tx_Ledger a <= tx_Ledger b) l ->
  StronglySorted (fun a b => tx_Ledger a <= tx_Ledger b) (filter (fun tx => p tx = true) l).
Proof.
  induction 1 as [|x l Hs IH Hf]; [constructor|]. rewrite filter_cons. case_decide; [|done]. constructor; [done|].
  apply list.Forall_forall. intros y Hy. apply list_elem_of_filter in Hy as [_ Hy]. rewrite list.Forall_forall in Hf. auto.
Qed.

Section Ranged.
Context {W : Type} `{!BackfillEnv W} `{!BackfillLaws W}.
Local Notation grows w w' := (bl_rows w ⊆ bl_rows w').
Local Notation B := (BF (W := W)).
Context (o : Options) (Hdry : bo_DryRun o = false) (Hbatch : 0 < bo_BatchSize o <= 200).
(** Whether the ranges of the run had not been worked on before. *)
Context (fresh : Prop).
Local Notation log := (bl_log (bo_ContractID o) (bo_IncludeFailed o)).
Local Notation st c from to := (stored (W := W) c from to).

(** What fetchSubRange pages through. *)
Definition range_source (from to : Z) : list Transaction :=
  match be_ListInRange (W := W) with Some _ => span_log from to log | None => log end.

Lemma range_source_sorted from to :
  StronglySorted (fun a b => tx_Ledger a <= tx_Ledger b) (range_source from to) /\
  NoDup (tx_cursor <$> range_source from to) /\ Forall (fun tx => tx_cursor tx <> ""%string) (range_source from to).
Proof.
  unfold range_source. pose proof (bl_sorted (bo_ContractID o) (bo_IncludeFailed o)) as Hs.
  pose proof (bl_cursors (bo_ContractID o) (bo_IncludeFailed o)) as Hn. pose proof (bl_cursor_ne (bo_ContractID o) (bo_IncludeFailed o)) as Hf.
  destruct be_ListInRange; [|done]. split; [by apply StronglySorted_filter_tx|]. split;
    [|apply list.Forall_forall; intros x Hx; apply list_elem_of_filter in Hx as [_ Hx]; rewrite list.Forall_forall in Hf; auto].
  eapply sublist_NoDup; [exact Hn|]. apply fmap_sublist, sublist_filter.
Qed.

Lemma range_source_wanted c from to k : wanted c from to log k -> wanted c from to (range_source from to) k.
Proof.
  unfold range_source. destruct be_ListInRange; [|done]. intros (tx & ex & Hx & Hin & Hr). exists tx, ex.
  split; [|done]. by apply list_elem_of_filter.
Qed.

Lemma range_source_length from to : (length (range_source from to) <= length log)%nat.
Proof. unfold range_source. destruct be_ListInRange; [|done]. apply length_filter. Qed.

(** ** The invariant: a completed range has its rows stored *)

Definition cinv (s : Backfiller) (w : W) : Prop := fresh ->
  Forall (fun r => br_Status r = RangeCompleted -> st (bo_ContractID o) (br_FromLedger r) (br_ToLedger r) log w) (st_ranges s).

Lemma cinv_grows s w w' : grows w w' -> cinv s w -> cinv s w'.
Proof.
  intros Hg Hc Hf. eapply list.Forall_impl; [by apply Hc|]. cbn. intros r H Hr. eapply backfilled_grows; [exact Hg|auto].
Qed.

(** Only the range [idx] changes, and not its bounds. *)
Definition only (idx : nat) (s s' : Backfiller) : Prop :=
  (forall j, j <> idx -> st_ranges s' !! j = st_ranges s !! j) /\
  bounds <$> st_ranges s' = bounds <$> st_ranges s /\
  su_Completed (st_sum s') = su_Completed (st_sum s) /\ su_Resumed (st_sum s') = su_Resumed (st_sum s).

#[local] Instance only_po idx : PreOrder (only idx).
Proof.
  split; [by intros s|]. intros a b c (Ha&?&?&?) (Hb&?&?&?). unfold only. split; [|intuition congruence].
  intros j Hj. by rewrite Hb, Ha.
Qed.

Definition rstep (idx : nat) (s : Backfiller) (w : W) (s' : Backfiller) (w' : W) : Prop :=
  only idx s s' /\ grows w w' /\ cinv s' w'.

(** A store to the range [idx]. *)
Lemma rstep_alter idx f s w : cinv s w ->
  (forall r, st_ranges s !! idx = Some r -> bounds (f r) = bounds r /\
     (fresh -> br_Status (f r) = RangeCompleted -> br_Status r = RangeCompleted \/
        st (bo_ContractID o) (br_FromLedger r) (br_ToLedger r) log w)) ->
  rstep idx s w (mkBackfiller (st_startedAt s) (alter f idx (st_ranges s)) (st_sum s)) w.
Proof.
  intros Hc Hf. split; [|split; [done|]].
  - split; [|split; [|done]]; cbn.
    + intros j Hj. by apply list_lookup_alter_ne.
    + apply list_eq. intros j. rewrite !list_lookup_fmap. destruct (decide (j = idx)) as [->|Hj].
      * rewrite list_lookup_alter_eq. destruct (st_ranges s !! idx) as [r|] eqn:E; [|done]. cbn. by rewrite (proj1 (Hf r eq_refl)).
      * by rewrite list_lookup_alter_ne.
  - intros Hfr. cbn. apply list.Forall_lookup. intros j r Hj. specialize (Hc Hfr). rewrite list.Forall_lookup in Hc.
    destruct (decide (j = idx)) as [->|Hne].
    + rewrite list_lookup_alter_eq in Hj. destruct (st_ranges s !! idx) as [r0|] eqn:E; [|done]. cbn in Hj. simplify_eq.
      destruct (Hf r0 eq_refl) as [Hb Hs]. intros Hcomp. unfold bounds in Hb. injection Hb as -> ->.
      destruct (Hs Hfr Hcomp) as [H|H]; [by apply (Hc idx r0)|exact H].
    + rewrite list_lookup_alter_ne in Hj by done. by apply (Hc j).
Qed.

Lemma rstep_trans idx s w s1 w1 s2 w2 : rstep idx s w s1 w1 -> rstep idx s1 w1 s2 w2 -> rstep idx s w s2 w2.
Proof. intros (?&?&?) (?&?&?). split; [by etransitivity|]. split; [set_solver|done]. Qed.

Lemma rstep_quiet idx s w s1 w1 w2 : rstep idx s w s1 w1 -> grows w1 w2 -> rstep idx s w s1 w2.
Proof. intros (?&?&?) Hg. split; [done|]. split; [set_solver|by eapply cinv_grows]. Qed.

Lemma rstep_refl idx s w : cinv s w -> rstep idx s w s w.
Proof. intros. by split. Qed.

(** The bounds of the range that is worked on. *)
Definition has_bounds (idx : nat) (from to : Z) (s : Backfiller) : Prop :=
  forall r, st_ranges s !! idx = Some r -> br_FromLedger r = from /\ br_ToLedger r = to.

Lemma has_bounds_only idx from to s s' : only idx s s' -> has_bounds idx from to s -> has_bounds idx from to s'.
Proof.
  intros (_ & Hb & _) H r Hr. apply (f_equal (fun l => l !! idx)) in Hb. rewrite !list_lookup_fmap, Hr in Hb.
  destruct (st_ranges s !! idx) as [r0|] eqn:E; [|done]. cbn in Hb. injection Hb as -> ->. auto.
Qed.

Lemma wpb_ranges {C} f (k : unit -> B C) Q s w :
  wpb (k tt) Q (mkBackfiller (st_startedAt s) (f (st_ranges s)) (st_sum s)) w -> wpb (mbind k (branges f)) Q s w.
Proof. done. Qed.

Lemma completeSubRange_spec idx from to rangeTo s w : cinv s w -> has_bounds idx from to s ->
  (fresh -> st (bo_ContractID o) from to log w) ->
  wpb (completeSubRange o idx rangeTo) (fun _ s' w' => rstep idx s w s' w') s w.
Proof.
  intros Hc Hb Hst. unfold completeSubRange. rewrite Hdry. apply wpb_quiet; [apply quiet_read|]. intros now w1 Hg.
  apply wpb_ranges. apply wpb_bind. cbn [wpb bget].
  set (s1 := mkBackfiller _ _ _).
  assert (H1 : rstep idx s w1 s1 w1).
  { apply rstep_alter; [by eapply cinv_grows|]. intros r Hr. destruct (Hb r Hr) as [<- <-]. split; [done|].
    intros Hf _. right. eapply backfilled_grows; [exact Hg|auto]. }
  assert (H0 : rstep idx s w s1 w1) by (destruct H1 as (?&?&?); by split).
  apply wpb_quiet; [apply quiet_persist|]. intros [e|] w2 Hg2; [by eapply rstep_quiet|].
  apply wpb_quiet; [apply quiet_rangeProgress|]. intros [] w3 Hg3. eapply rstep_quiet; [by eapply rstep_quiet|done].
Qed.

(** What a turn leaves behind. *)
Definition sub_post (idx : nat) (start to : Z) (src pre rest : list Transaction) (s : Backfiller) (w : W)
    (t : page_end) (s' : Backfiller) (w' : W) : Prop :=
  rstep idx s w s' w' /\
  match t with
  | Break => False
  | Return _ => True
  | Next cur => exists rows rest', rest = rows ++ rest' /\ rows <> [] /\ page_rest cur src = rest' /\
      st (bo_ContractID o) start to (pre ++ rows) w'
  end.

(** Everything of the source that is wanted has been stored. *)
Lemma source_done start from to w : (fresh -> start = from) ->
  st (bo_ContractID o) start to (range_source start to) w -> fresh -> st (bo_ContractID o) from to log w.
Proof. intros Hf Hs Hfr k Hk. rewrite <- (Hf Hfr) in Hk. by apply Hs, range_source_wanted. Qed.

(** Writing the rows of a page. *)
Lemma page_write_spec start to pre rows s w :
  let a := extractSubRangePage o rows start to in st (bo_ContractID o) start to pre w ->
  wpb (if negb (bool_decide (pa_events a = [])) then benv (be_UpsertEvents (pa_events a)) else mret (Ok 0))
    (fun r s' w' => s' = s /\ grows w w' /\ (forall n, r = Ok n -> st (bo_ContractID o) start to (pre ++ rows) w')) s w.
Proof.
  intros a Hpre. destruct (extractSubRangePage_spec o rows start to) as [Hk _]. fold a in Hk.
  assert (Hrows : forall w', grows w w' -> (forall key, key ∈ ekey <$> pa_events a -> key ∈ bl_rows w') ->
      st (bo_ContractID o) start to (pre ++ rows) w').
  { intros w' Hg Hin. apply stored_app; [by eapply backfilled_grows|]. intros key Hw. apply Hin, Hk, Hw. }
  destruct (bool_decide_reflect (pa_events a = [])) as [E|E]; cbn [negb].
  - split; [done|]. split; [done|]. intros _ _. apply Hrows; [done|]. rewrite E. intros key Hx. by apply list.not_elem_of_nil in Hx.
  - unfold wpb, benv. pose proof (bl_Upsert (pa_events a) w) as Hu. destruct (be_UpsertEvents _ w) as [r w1].
    destruct Hu as [Hg Hu]. split; [done|]. split; [done|]. intros n ->. apply Hrows; [done|].
    intros key Hx. apply (Hu n eq_refl). by apply elem_of_list_to_set.
Qed.

Lemma subrange_page_spec idx start from to pre rows rest s w : cinv s w -> has_bounds idx from to s -> (fresh -> start = from) ->
  let src := range_source start to in
  src = pre ++ rows ++ rest -> rows <> [] -> (Z.of_nat (length rows) < bo_BatchSize o -> rest = []) ->
  st (bo_ContractID o) start to pre w ->
  wpb (subrange_page o idx start from to rows) (sub_post idx start to src pre (rows ++ rest) s w) s w.
Proof.
  intros Hc Hb Hfr src Hsrc Hne Hshort Hpre. unfold subrange_page. cbv zeta. rewrite Hdry, andb_true_r.
  destruct (extractSubRangePage_spec o rows start to) as [_ Hpe]. set (a := extractSubRangePage o rows start to) in *.
  destruct (range_source_sorted start to) as (Hs & Hn & Hcn). fold src in Hs, Hn, Hcn.
  apply wpb_bind. eapply wpb_mono; [by apply page_write_spec|]. fold a. intros [n|e] s0 w1 (-> & Hg & Hst);
    [|split; [split; [done|split; [done|by eapply cinv_grows]]|done]].
  specialize (Hst n eq_refl). apply wpb_sum. apply wpb_quiet; [apply quiet_read|]. intros now w2 Hg2.
  apply wpb_ranges. apply wpb_bind. cbn [wpb bget]. set (s1 := mkBackfiller _ _ _).
  assert (H1 : rstep idx s w s1 w2).
  { unshelve eassert (H1 := rstep_alter idx _ (mkBackfiller (st_startedAt s) (st_ranges s) (with_page a (pa_last a) n (st_sum s))) w2 _ _).
    4: { destruct H1 as (Ho & _ & Hi). split; [exact Ho|]. split; [set_solver|exact Hi]. }
    - eapply cinv_grows; [|exact Hc]. set_solver.
    - cbn. intros r Hr. destruct (_ <? _); split; try done; intros _ Hcm; by left. }
  apply wpb_quiet; [destruct (bool_decide _); [apply quiet_ret|apply quiet_progress]|]. intros [] w3 Hg3.
  apply wpb_quiet.
  { destruct (negb _); [|apply quiet_ret]. apply quiet_bind; [apply quiet_env; intros; apply bl_UpdateState|].
    intros [e|]; [apply quiet_ret|]. apply quiet_bind; [apply quiet_persist|]. intros. apply quiet_ret. }
  intros [e|] w4 Hg4; [split; [|done]; by eapply rstep_quiet; [eapply rstep_quiet|]|].
  apply wpb_quiet; [apply quiet_rangeProgress|]. intros [] w5 Hg5.
  assert (H5 : rstep idx s w s1 w5) by (do 3 (eapply rstep_quiet; [|eassumption]); exact H1).
  assert (Hst5 : st (bo_ContractID o) start to (pre ++ rows) w5) by (eapply backfilled_grows; [|exact Hst]; set_solver).
  destruct (pa_pastEnd a || _)%bool eqn:Efin.
  - apply wpb_bind. eapply wpb_mono; [eapply (completeSubRange_spec idx from to)|].
    + apply H5.
    + eapply has_bounds_only; [apply H5|done].
    + apply (source_done start); [done|]. fold src. rewrite Hsrc, app_assoc. apply stored_app; [done|].
      apply orb_true_iff in Efin as [Ep|Hsh]; [|to_prop; rewrite Hshort by done; apply stored_nil].
      destruct (Hpe Ep) as (tx & Htx & Hp). eapply (stored_past _ _ _ (pre ++ rows) rest _ tx);
        [by rewrite <- app_assoc, <- Hsrc|apply list.elem_of_app; by right|done].
    + cbn. intros e s6 w6 H6. split; [by eapply rstep_trans|done].
  - split; [exact H5|]. exists rows, rest. split; [done|]. split; [done|]. split; [by eapply next_page|done].
Qed.

Lemma fetch_spec start to cursor s w :
  wpb (fetchSubRange o start to cursor) (fun r s' w' => s' = s /\ grows w w' /\
    forall page, r = Ok page -> page = take (Z.to_nat (bo_BatchSize o)) (page_rest cursor (range_source start to))) s w.
Proof.
  unfold fetchSubRange, range_source, fetch. destruct be_ListInRange as [list|] eqn:E; unfold wpb, benv.
  - pose proof (bl_ListInRange list (bo_ContractID o) start to cursor (bo_BatchSize o) (bo_IncludeFailed o) w E Hbatch) as Hp.
    destruct (list _ _ _ _ _ _ w) as [r w1]. by destruct Hp.
  - pose proof (bl_List (bo_ContractID o) cursor (bo_BatchSize o) (bo_IncludeFailed o) w Hbatch) as Hp.
    destruct (be_List _ _ _ _ w) as [r w1]. by destruct Hp.
Qed.

Lemma sub_post_quiet idx start to src pre rest s w w1 t s' w' : grows w w1 ->
  sub_post idx start to src pre rest s w1 t s' w' -> sub_post idx start to src pre rest s w t s' w'.
Proof. intros Hg [(?&?&?) Hp]. split; [|done]. split; [done|]. split; [set_solver|done]. Qed.

Lemma subrange_turn_spec idx start from to cursor pre rest s w : cinv s w -> has_bounds idx from to s -> (fresh -> start = from) ->
  let src := range_source start to in
  src = pre ++ rest -> page_rest cursor src = rest -> st (bo_ContractID o) start to pre w ->
  wpb (subrange_turn o idx start from to cursor) (sub_post idx start to src pre rest s w) s w.
Proof.
  intros Hc Hb Hfr src Hsrc Hrest Hpre. unfold subrange_turn.
  assert (Hret : forall w' e, grows w w' -> sub_post idx start to src pre rest s w (Return e) s w').
  { intros w' e Hg. split; [|done]. split; [done|]. split; [done|]. by eapply cinv_grows. }
  apply wpb_quiet; [apply quiet_read|]. intros [e|] w1 Hg1; [by apply Hret|].
  apply wpb_quiet; [apply quiet_limiter|]. intros [e|] w2 Hg2; [apply Hret; set_solver|].
  apply wpb_bind. eapply wpb_mono; [apply fetch_spec|]. intros [page|e] s0 w3 (-> & Hg3 & Hp); [|apply Hret; set_solver].
  specialize (Hp page eq_refl). fold src in Hp. rewrite Hrest in Hp.
  assert (Hg : grows w w3) by set_solver.
  assert (Hpre3 : st (bo_ContractID o) start to pre w3) by by eapply backfilled_grows.
  destruct (take_rest (Z.to_nat (bo_BatchSize o)) rest) as (rest' & Hr & Hsh). rewrite <- Hp in Hr, Hsh.
  destruct page as [|tx page].
  - apply wpb_bind. eapply wpb_mono; [eapply (completeSubRange_spec idx from to); [by eapply cinv_grows|done|]|].
    + apply (source_done start); [done|]. fold src. rewrite Hsrc. apply stored_app; [done|].
      rewrite Hr, (Hsh ltac:(cbn; lia)). apply stored_nil.
    + cbn. intros e s4 w4 H4. eapply sub_post_quiet; [exact Hg|]. by split.
  - eapply wpb_mono; [|intros ? ? ? H; eapply sub_post_quiet; [exact Hg|exact H]]. rewrite Hr.
    apply subrange_page_spec; try done; [by eapply cinv_grows|by rewrite <- Hr|]. intros Hlt. apply Hsh. lia.
Qed.

Lemma subrange_loop_spec fuel idx start from to cursor pre rest s w : cinv s w -> has_bounds idx from to s -> (fresh -> start = from) ->
  let src := range_source start to in
  (length rest < fuel)%nat -> src = pre ++ rest -> page_rest cursor src = rest -> st (bo_ContractID o) start to pre w ->
  wpb (subrange_loop fuel o idx start from to cursor) (fun t s' w' => t <> None /\ rstep idx s w s' w') s w.
Proof.
  intros Hc Hb Hfr src. revert cursor pre rest s w Hc Hb.
  induction fuel as [|f IH]; intros cursor pre rest s w Hc Hb Hf Hsrc Hr Hpre; [lia|].
  cbn [subrange_loop]. apply wpb_bind. eapply wpb_mono; [by apply (subrange_turn_spec idx start from to cursor pre rest)|].
  intros [|e|cur] s' w' [Hrs Hp]; [done|by split|]. destruct Hp as (rows & rest' & -> & Hne & Hcur & Hst).
  eapply wpb_mono; [apply (IH cur (pre ++ rows) rest')|].
  - apply Hrs.
  - eapply has_bounds_only; [apply Hrs|done].
  - rewrite length_app in Hf. destruct rows; [done|cbn in Hf; lia].
  - by rewrite <- app_assoc.
  - done.
  - done.
  - cbn. intros t s2 w2 [Ht H2]. split; [done|]. by eapply rstep_trans.
Qed.

Lemma runSingleSubRange_spec fuel idx r s w : cinv s w -> st_ranges s !! idx = Some r -> (length log < fuel)%nat ->
  (fresh -> ResumeStartLedger r = br_FromLedger r) ->
  wpb (runSingleSubRange fuel o idx) (fun t s' w' => t <> None /\ rstep idx s w s' w') s w.
Proof.
  intros Hc Hr Hf Hfr. unfold runSingleSubRange. apply wpb_quiet; [apply quiet_read|]. intros now w1 Hg1.
  apply wpb_bind. cbn [wpb bget]. cbv zeta. assert (Hgr : get_range idx s = r) by (unfold get_range; by rewrite Hr).
  rewrite Hgr. apply wpb_ranges. set (s1 := mkBackfiller _ _ _).
  assert (H1 : rstep idx s w s1 w1).
  { destruct (rstep_alter idx (fun r => set_range RangeInFlight "" (br_LastLedger r) now r) s w1) as (Ho & _ & Hi);
      [by eapply cinv_grows|by split|]. by split. }
  apply wpb_quiet; [apply quiet_rangeProgress|]. intros [] w2 Hg2.
  assert (H2 : rstep idx s w s1 w2) by by eapply rstep_quiet.
  assert (Hb : has_bounds idx (br_FromLedger r) (br_ToLedger r) s1).
  { eapply has_bounds_only; [apply H2|]. intros r' Hr'. by simplify_eq. }
  destruct (_ && _)%bool eqn:E.
  - apply wpb_bind. eapply wpb_mono; [eapply (completeSubRange_spec idx (br_FromLedger r) (br_ToLedger r)); [apply H2|done|]|].
    + intros Hfre k (tx & ? & _ & Hin & _). rewrite Hfr in E by done. unfold in_span, past_end in Hin. to_prop.
      match goal with H : (_ && _)%bool = false |- _ => apply andb_false_iff in H as [?|?] end; to_prop; lia.
    + cbn. intros e s3 w3 H3. split; [done|]. by eapply rstep_trans.
  - eapply wpb_mono; [apply (subrange_loop_spec fuel idx _ _ _ "" [] (range_source (ResumeStartLedger r) (br_ToLedger r)))|].
    + apply H2.
    + done.
    + done.
    + pose proof (range_source_length (ResumeStartLedger r) (br_ToLedger r)). lia.
    + done.
    + done.
    + apply stored_nil.
    + cbn. intros t s3 w3 [Ht H3]. split; [done|]. by eapply rstep_trans.
Qed.

Lemma failSubRange_spec idx err s w : cinv s w ->
  wpb (failSubRange o idx err) (fun _ s' w' => rstep idx s w s' w') s w.
Proof.
  intros Hc. unfold failSubRange. rewrite Hdry. apply wpb_quiet; [apply quiet_read|]. intros now w1 Hg.
  apply wpb_ranges. apply wpb_bind. cbn [wpb bget]. cbv zeta. apply wpb_sum. set (s1 := mkBackfiller _ _ _).
  assert (H1 : rstep idx s w s1 w1).
  { destruct (rstep_alter idx (fun r => set_range RangeFailed (rmsg err) (br_LastLedger r) now r) s w1) as (Ho & _ & Hi);
      [by eapply cinv_grows|by split|]. by split. }
  apply wpb_quiet; [apply quiet_bind; [apply quiet_persist|intros; apply quiet_ret]|]. intros [] w2 Hg2.
  eapply wpb_mono; [apply quiet_rangeProgress|]. cbn. intros [] s2 w3 [-> Hg3]. eapply rstep_quiet; [by eapply rstep_quiet|done].
Qed.

(** One attempt, and what follows an error. *)
Lemma attempt_spec fuel idx r (K : rerror -> B (option unit)) s w :
  cinv s w -> st_ranges s !! idx = Some r -> (length log < fuel)%nat -> (fresh -> ResumeStartLedger r = br_FromLedger r) ->
  let post t s' w' := t <> None /\ rstep idx s w s' w' in
  (forall err s2 w2, rstep idx s w s2 w2 -> wpb (K err) post s2 w2) ->
  wpb (c ← bctx;
       match c with
       | Some _ => mret (Some tt)
       | None =>
           r ← runSingleSubRange fuel o idx;
           match r with
           | None => mret None
           | Some None => mret (Some tt)
           | Some (Some err) => c ← bctx; match c with Some _ => mret (Some tt) | None => K err end
           end
       end) post s w.
Proof.
  intros Hc Hr Hf Hfr post HK.
  apply wpb_quiet; [apply quiet_read|]. intros [?|] w1 Hg1;
    [split; [done|by apply (rstep_quiet idx s w s w w1); [apply rstep_refl|]]|].
  apply wpb_bind. eapply wpb_mono; [apply (runSingleSubRange_spec fuel idx r); [by eapply cinv_grows|done..]|].
  intros [[err|]|] s2 w2 [Ht (Ho & Hg2 & Hc2)]; [| |done].
  all: assert (H2 : rstep idx s w s2 w2) by (split; [done|split; [set_solver|done]]).
  - apply wpb_quiet; [apply quiet_read|]. intros [?|] w3 Hg3; [split; [done|by eapply rstep_quiet]|].
    apply HK. by eapply rstep_quiet.
  - by split.
Qed.

(** Without retries a range is tried once. *)
Lemma attempts_spec fuel left idx backoff r s w : cinv s w -> st_ranges s !! idx = Some r -> (length log < fuel)%nat ->
  (fresh -> left = O /\ ResumeStartLedger r = br_FromLedger r) ->
  wpb (subrange_attempts fuel left o idx backoff) (fun t s' w' => t <> None /\ rstep idx s w s' w') s w.
Proof.
  revert backoff r s w. induction left as [|left IH]; intros backoff r s w Hc Hr Hf Hfr; cbn [subrange_attempts].
  all: assert (Hfail : forall err s2 w2, rstep idx s w s2 w2 ->
      wpb (failSubRange o idx err;; mret (Some tt)) (fun t s' w' => t <> None /\ rstep idx s w s' w') s2 w2)
    by (intros err s2 w2 H2; apply wpb_bind; eapply wpb_mono; [apply failSubRange_spec, H2|];
        cbn; intros [] s4 w4 H4; split; [done|by eapply rstep_trans]).
  all: eapply (attempt_spec fuel idx r); [done|done|done|intros Hx; by apply Hfr|]; intros err s2 w2 H2.
  { by apply Hfail. }
  destruct (negb _); [by apply Hfail|]. apply wpb_quiet; [apply quiet_env; intros; apply bl_sleep|]. intros slept w4 Hg4.
  assert (H4 : rstep idx s w s2 w4) by by eapply rstep_quiet. destruct (negb slept); [by split|].
  destruct (st_ranges s2 !! idx) as [r2|] eqn:Er.
  2: { exfalso. destruct H2 as ((_ & Hb & _) & _). apply (f_equal (fun l => l !! idx)) in Hb.
       by rewrite !list_lookup_fmap, Er, Hr in Hb. }
  eapply wpb_mono; [apply (IH _ r2); [apply H4|done|done|intros Hx; by destruct (Hfr Hx)]|].
  cbn. intros t s5 w5 [Ht5 H5]. split; [done|]. by eapply rstep_trans.
Qed.

(** ** The pool and the end of the run *)

Definition rsteps (s : Backfiller) (w : W) (s' : Backfiller) (w' : W) : Prop :=
  bounds <$> st_ranges s' = bounds <$> st_ranges s /\ su_Completed (st_sum s') = su_Completed (st_sum s) /\
  su_Resumed (st_sum s') = su_Resumed (st_sum s) /\ grows w w' /\ cinv s' w'.

Lemma work_ranges_spec fuel maxRetries idxs s w : cinv s w -> (length log < fuel)%nat -> NoDup idxs ->
  (forall i, i ∈ idxs -> exists r, st_ranges s !! i = Some r /\ (fresh -> ResumeStartLedger r = br_FromLedger r)) ->
  (fresh -> maxRetries <= 0) ->
  wpb (work_ranges fuel o maxRetries idxs) (fun t s' w' => t <> None /\ rsteps s w s' w') s w.
Proof.
  intros Hc Hf Hnd Hi Hm. revert s w Hc Hi. induction idxs as [|i idxs IH]; intros s w Hc Hi; cbn [work_ranges]; [by split|].
  apply list.NoDup_cons in Hnd as [Hni Hnd]. destruct (Hi i ltac:(by left)) as (r & Hr & Hfr).
  apply wpb_bind. unfold executeSubRangeWithRetry. cbv zeta. eapply wpb_mono.
  - apply (attempts_spec _ _ _ _ r); try done. intros Hx. split; [|by apply Hfr]. specialize (Hm Hx). lia.
  - intros [?|] s1 w1 [Ht ((Hj & Hb & Hcm & Hrs) & Hg & Hc1)]; [|done]. eapply wpb_mono.
    + apply (IH Hnd); [done|]. intros j Hjin. destruct (Hi j ltac:(by right)) as (r' & Hr' & ?). exists r'.
      split; [|done]. rewrite Hj; [done|]. intros ->. done.
    + cbn. intros t s2 w2 (Ht2 & Hb2 & Hc2 & Hr2 & Hg2 & Hi2). split; [done|]. unfold rsteps.
      split; [congruence|]. split; [congruence|]. split; [congruence|]. split; [set_solver|done].
Qed.
End Ranged.

(** ** Counting completed ranges *)

Lemma count_completed rs n : sn_CompletedRanges (fold_left count_range rs n) =
  sn_CompletedRanges n + Z.of_nat (length (filter (fun r => br_Status r = RangeCompleted) rs)).
Proof.
  revert n. induction rs as [|r rs IH]; intros n; cbn [fold_left]; [cbn; lia|]. rewrite IH, filter_cons.
  unfold count_range. destruct (br_Status r) eqn:E; case_decide; cbn [sn_CompletedRanges length]; try congruence; lia.
Qed.

Lemma count_total rs n : sn_TotalRanges (fold_left count_range rs n) = sn_TotalRanges n.
Proof.
  revert n. induction rs as [|r rs IH]; intros n; cbn [fold_left]; [done|]. rewrite IH. unfold count_range.
  by destruct (br_Status r).
Qed.

Lemma filter_full {A} (P : A -> Prop) {D : forall x, Decision (P x)} (l : list A) :
  length (filter P l) = length l -> Forall P l.
Proof.
  induction l as [|x l IH]; [constructor|]. rewrite filter_cons. case_decide as Hx; cbn [length]; intros Hl.
  - constructor; [exact Hx|]. apply IH. lia.
  - assert (length (filter P l) <= length l)%nat by apply length_filter. lia.
Qed.

Lemma snapshot_all_completed now started rs :
  sn_CompletedRanges (progressSnapshotLocked now started rs) = sn_TotalRanges (progressSnapshotLocked now started rs) ->
  Forall (fun r => br_Status r = RangeCompleted) rs.
Proof.
  unfold progressSnapshotLocked. cbv zeta. cbn [sn_CompletedRanges sn_TotalRanges]. rewrite count_completed, count_total.
  cbn [sn_CompletedRanges sn_TotalRanges]. intros H.
  apply (filter_full (fun r => br_Status r = RangeCompleted) rs). lia.
Qed.

(** ** The partition of a fresh run *)

Lemma split_fresh from to size workers : 0 < from -> to + Z.max to size <= maxInt64 ->
  exists rs, SplitLedgerRanges from to size workers = Some rs /\
    Forall (fun r => br_Status r = RangePending /\ ResumeStartLedger r = br_FromLedger r) rs /\
    (forall tx, in_span from to tx = true -> exists r, r ∈ rs /\ in_span (br_FromLedger r) (br_ToLedger r) tx = true).
Proof.
  intros Hf Hm.
  assert (Hone : exists rs, Some [mkRange from to 0 RangePending "" time_zero] = Some rs /\
    Forall (fun r => br_Status r = RangePending /\ ResumeStartLedger r = br_FromLedger r) rs /\
    (forall tx, in_span from to tx = true -> exists r, r ∈ rs /\ in_span (br_FromLedger r) (br_ToLedger r) tx = true)).
  { eexists. split; [reflexivity|]. split.
    - constructor; [|constructor]. split; [done|]. unfold ResumeStartLedger. cbn. destruct (Z.leb_spec from 0); [lia|done].
    - intros tx Htx. eexists. split; [by left|done]. }
  unfold SplitLedgerRanges at 1. destruct (_ || _)%bool eqn:E; [exact Hone|]. fold (SplitLedgerRanges from to size workers).
  apply orb_false_iff in E as [E1 E2]. apply orb_false_iff in E1 as [E1 E3]. to_prop.
  destruct (split_tiles from to size workers) as (rs & Hrs & Ht & _); [done|done|lia| |].
  { apply andb_false_iff in E2 as [?|?]; to_prop; lia. }
  exists rs. unfold SplitLedgerRanges in Hrs. rewrite E2 in Hrs.
  destruct (Z.leb_spec to 0); [lia|]. destruct (Z.leb_spec to from); [lia|]. cbn [orb] in Hrs. split; [exact Hrs|]. split.
  - eapply list.Forall_impl; [by eapply tiles_fresh|]. cbn. intros r (? & H0' & ?). split; [done|].
    unfold ResumeStartLedger. rewrite H0'. destruct (Z.leb_spec (br_FromLedger r) 0); [lia|done].
  - intros tx Htx. unfold in_span, past_end in Htx. to_prop.
    destruct (proj1 (tiles_mem _ _ _ _ (tx_Ledger tx) Ht)) as (r & Hr & Hin).
    { match goal with H : (_ && _)%bool = false |- _ => apply andb_false_iff in H as [?|?] end; to_prop; lia. }
    exists r. split; [done|]. unfold in_span, past_end, in_br in *. apply andb_true_iff. split; [apply Z.leb_le; lia|].
    apply negb_true_iff, andb_false_iff. right. apply Z.ltb_ge. lia.
Qed.

Lemma pending_from (rs : list BackfillRange) (k : nat) :
  NoDup (omap id (imap (fun i r => if range_Completed r then None else Some (k + i)%nat) rs)) /\
  forall i, i ∈ omap id (imap (fun i r => if range_Completed r then None else Some (k + i)%nat) rs) ->
    exists j r, i = (k + j)%nat /\ rs !! j = Some r.
Proof.
  split.
  2: { intros i Hi. apply elem_omap_imap in Hi as (j & r & Hj & E). destruct (range_Completed r); simplify_eq. eauto. }
  revert k. induction rs as [|r rs IH]; intros k; [constructor|]. cbn [imap].
  assert (E : imap ((fun i r => if range_Completed r then None else Some (k + i)%nat) ∘ S) rs =
              imap (fun i r => if range_Completed r then None else Some (S k + i)%nat) rs).
  { apply imap_ext. intros i x _. cbn. by replace (k + S i)%nat with (S (k + i))%nat by lia. }
  cbn [omap list_omap]. unfold id at 1. destruct (range_Completed r); rewrite E; [apply IH|].
  apply base.NoDup_cons_2; [|apply IH]. intros Hin. apply elem_omap_imap in Hin as (j & x & _ & Hx).
  destruct (range_Completed x); simplify_eq. lia.
Qed.

Section RunRanged.
Context {W : Type} `{!BackfillEnv W} `{!BackfillLaws W}.
Context (o : Options) (Hdry : bo_DryRun o = false).
Local Notation grows w w' := (bl_rows w ⊆ bl_rows w').
Local Notation log := (bl_log (bo_ContractID o) (bo_IncludeFailed o)).

Lemma finishRanged_spec fresh s w : cinv o fresh s w ->
  wpb (finishRanged o) (fun _ s' w' => su_Resumed (st_sum s') = su_Resumed (st_sum s) /\ (su_Completed (st_sum s') = true -> fresh ->
    Forall (fun r => stored (bo_ContractID o) (br_FromLedger r) (br_ToLedger r) log w') (st_ranges s))) s w.
Proof.
  intros Hc. unfold finishRanged. rewrite Hdry. apply wpb_quiet; [apply quiet_read|]. intros now w1 Hg1.
  apply wpb_bind. cbn [wpb bget]. cbv zeta.
  apply wpb_quiet; [apply quiet_bind; [apply quiet_persist|intros; apply quiet_ret]|]. intros [] w2 Hg2.
  apply wpb_sum. apply wpb_stamp. intros s1 (_ & _ & Hr1 & _). cbn in Hr1.
  apply wpb_quiet; [apply quiet_read|]. intros [?|] w3 Hg3.
  { apply wpb_sum. eapply wpb_mono; [apply quiet_terminal|]. cbn. intros e s2 w4 [-> _]. split; [done|discriminate]. }
  apply wpb_bind. cbn [wpb bget]. destruct (negb _).
  { apply wpb_sum. split; [done|discriminate]. }
  apply wpb_sum. eapply wpb_mono; [apply quiet_terminal|]. cbn [st_sum with_completed su_Completed su_Resumed].
  intros e s2 w4 [-> Hg4]. split; [done|].
  cbn [st_sum with_completed su_Completed]. intros Hall Hfr. to_prop. apply snapshot_all_completed in Hall.
  specialize (Hc Hfr). rewrite list.Forall_forall in Hc, Hall |- *. intros r Hr.
  eapply backfilled_grows; [|apply (Hc r Hr), (Hall r Hr)]. set_solver.
Qed.

Lemma resumeRanges_spec s w : 0 < bo_FromLedger o -> bo_ToLedger o + Z.max (bo_ToLedger o) (bo_RangeSize o) <= maxInt64 ->
  su_Completed (st_sum s) = false ->
  wpb (resumeRanges o) (fun r s' w' => su_Completed (st_sum s') = false /\
    match r with
    | None => False
    | Some (Err _) => True
    | Some (Ok rs) => su_Resumed (st_sum s') = false ->
        SplitLedgerRanges (bo_FromLedger o) (bo_ToLedger o) (bo_RangeSize o) (bo_Workers o) = Some rs
    end) s w.
Proof.
  intros Hf Hm Hc. unfold resumeRanges. rewrite Hdry. cbv zeta.
  destruct (split_fresh (bo_FromLedger o) (bo_ToLedger o) (bo_RangeSize o) (bo_Workers o) Hf Hm) as (rs & Hrs & _).
  set (post := fun r s' w' => _). set (fresh := e ← benv (be_StartState _ _ _); _).
  assert (Hfresh : forall w', wpb fresh post s w').
  { intros w'. apply wpb_quiet; [apply quiet_start|]. intros [e|] w2 _; [by split|]. rewrite Hrs.
    apply wpb_quiet; [apply quiet_persist|]. intros [e|] w3 _; [by split|]. apply wpb_sum. by split. }
  apply wpb_quiet; [apply quiet_env, bl_GetState|]. intros [st|e] w1 _.
  2: { destruct (rerrors_Is _ _); [apply Hfresh|]. by split. }
  destruct (matches_run o st); [|apply Hfresh]. case_bool_decide as Hnil.
  - destruct (split_fresh (resume_ledger o st) (bo_ToLedger o) (bo_RangeSize o) (bo_Workers o)) as (rs2 & Hrs2 & _); [|done|].
    { unfold resume_ledger. cbv zeta. destruct (Z.ltb_spec (i64 (bs_LastLedger st + 1)) (bo_FromLedger o)); lia. }
    rewrite Hrs2. apply wpb_quiet; [apply quiet_persist|]. intros [e|] w3 _; [by split|]. apply wpb_sum. split; [done|].
    intros H. discriminate H.
  - apply wpb_sum. split; [done|]. intros H. discriminate H.
Qed.

Lemma runRanged_spec fuel s w : 0 < bo_BatchSize o <= 200 -> bo_MaxRetries o <= 0 -> bo_Workers o <= 1 -> 0 < bo_FromLedger o ->
  bo_ToLedger o + Z.max (bo_ToLedger o) (bo_RangeSize o) <= maxInt64 -> (length log < fuel)%nat -> su_Completed (st_sum s) = false ->
  wpb (runRanged fuel o) (fun t s' w' => t <> None /\ (su_Completed (st_sum s') = true -> su_Resumed (st_sum s') = false ->
    stored (bo_ContractID o) (bo_FromLedger o) (bo_ToLedger o) log w')) s w.
Proof.
  intros Hb Hmr Hwk Hf Hm Hl Hc. unfold runRanged. apply wpb_bind. eapply wpb_mono; [by apply resumeRanges_spec|].
  intros [[rs|e]|] s1 w1 [Hc1 Hr1]; [|split; [done|discriminate]|done].
  apply wpb_ranges. apply wpb_quiet; [apply quiet_rangeProgress|]. intros [] w2 Hg2. cbv zeta.
  set (s2 := mkBackfiller _ _ _). set (fresh := su_Resumed (st_sum s1) = false).
  assert (Hfr : fresh -> Forall (fun r => br_Status r = RangePending /\ ResumeStartLedger r = br_FromLedger r) rs /\
    (forall tx, in_span (bo_FromLedger o) (bo_ToLedger o) tx = true -> exists r, r ∈ rs /\ in_span (br_FromLedger r) (br_ToLedger r) tx = true)).
  { intros Hx. specialize (Hr1 Hx). destruct (split_fresh (bo_FromLedger o) (bo_ToLedger o) (bo_RangeSize o) (bo_Workers o) Hf Hm)
      as (rs2 & Hrs2 & ? & ?). rewrite Hr1 in Hrs2. simplify_eq. done. }
  destruct (pending_from rs 0) as [Hnd Hpi]. apply wpb_bind. eapply wpb_mono.
  - apply (work_ranges_spec o Hdry Hb fresh); [|done|exact Hnd| |].
    + intros Hx. cbn. eapply list.Forall_impl; [apply (Hfr Hx)|]. cbn. intros r [Hs _] H. congruence.
    + intros i Hi. destruct (Hpi i Hi) as (j & r & -> & Hj). exists r. split; [exact Hj|]. intros Hx.
      destruct (Hfr Hx) as [Hall _]. rewrite list.Forall_lookup in Hall. apply (Hall j r Hj).
    + intros _. destruct (_ && _)%bool eqn:E; [to_prop|lia]. destruct (Z.leb_spec (bo_Workers o) 0); lia.
  - intros [?|] s3 w3 (Ht & Hbn & Hcm & Hrs & Hg3 & Hi); [|done]. apply wpb_bind. eapply wpb_mono; [by apply (finishRanged_spec fresh)|].
    intros e s4 w4 [Hr4 Hst]. split; [done|]. intros Hc4 Hx. assert (Hx1 : fresh) by (unfold fresh; cbn in Hrs; congruence).
    intros k (tx & ex & Htx & Hin & Hex). destruct (proj2 (Hfr Hx1) tx Hin) as (r & Hr & Hin2).
    apply list_elem_of_lookup in Hr as (j & Hj). apply (f_equal (fun l => l !! j)) in Hbn. cbn in Hbn.
    rewrite !list_lookup_fmap, Hj in Hbn. destruct (st_ranges s3 !! j) as [r3|] eqn:Ej; [|done]. cbn in Hbn. injection Hbn as Ha Hb3.
    specialize (Hst Hc4 Hx1). rewrite list.Forall_lookup in Hst. apply (Hst j r3 Ej). exists tx, ex.
    split; [done|]. split; [by rewrite Ha, Hb3|done].
Qed.

Lemma quiet_should : quiet (W := W) (shouldRunParallelOrRanged o).
Proof.
  unfold shouldRunParallelOrRanged. destruct (_ || _)%bool; [apply quiet_ret|]. destruct (bo_DryRun o); [apply quiet_ret|].
  apply quiet_bind; [apply quiet_env, bl_GetState|]. intros []; apply quiet_ret.
Qed.

Lemma wpb_started {C} now (k : unit -> BF (W := W) C) Q s w :
  wpb (k tt) Q (mkBackfiller now (st_ranges s) (st_sum s)) w -> wpb (mbind k (bstarted now)) Q s w.
Proof. done. Qed.
End RunRanged.

