(* ===== verification/BackfillSim.v ===== *)
(** * Backfill against a scripted Horizon

    An environment with a log of transactions, scripted request failures and the
    progress row of the store; it satisfies [BackfillLaws], runs the theorems, and
    shows where a run loses events. *)

From S2P Require Import Prelude GoStrings RpcTypes StoreTypes Horizon Backfill BackfillPlan BackfillProps BackfillRanged.
From Stdlib Require Import Ascii String Sorted.
Local Open Scope Z_scope.
Local Notation length := List.length.

(** The meta of a transaction names its events: one of its only operation ("op"),
    or two of the transaction itself ("txtx"). *)
Definition sim_event : ContractEvent string := mkCE (Some "c1"%string) false (Some "v"%string).

#[global] Instance sim_sdk : XdrSdk := {|
  ScVal := string;
  UnmarshalMeta m := if bool_decide (m = "op"%string) then Ok (MetaV4 (Some ([[sim_event]], [])))
                     else if bool_decide (m = "txtx"%string) then Ok (MetaV4 (Some ([], [sim_event; sim_event])))
                     else Err "bad"%string;
  MarshalScVal v := Some v;
  GetVec v := None;
  HexString h := h |}.

Record BW : Type := mkBW {
  bw_rows : gset (Z * string);
  bw_state : option BackfillState;
  bw_faults : list (option rerror) }.

Definition with_row (f : option BackfillState -> option BackfillState) (w : BW) : BW := mkBW (bw_rows w) (f (bw_state w)) (bw_faults w).

(** Each request uses up one entry of the script. *)
Definition sim_list (log : list Transaction) (cur : string) (limit : Z) (w : BW) : result rerror (list Transaction) * BW :=
  let w' := mkBW (bw_rows w) (bw_state w) (tail (bw_faults w)) in
  match head (bw_faults w) with
  | Some (Some e) => (Err e, w')
  | _ => (Ok (take (Z.to_nat (clamp_limit limit)) (page_rest cur log)), w')
  end.

Definition sim_env (log : list Transaction) : BackfillEnv BW := {|
  be_sdk := sim_sdk;
  be_DecodeScVal s := Some s;
  be_parseTime s := 0;
  be_List c cur limit f w := sim_list log cur limit w;
  be_ListInRange := None;
  be_UpsertEvents evs w := (Ok (Z.of_nat (length evs)), mkBW (list_to_set (ekey <$> evs) ∪ bw_rows w) (bw_state w) (bw_faults w));
  be_GetState w := (match bw_state w with Some st => Ok st | None => Err (RErr KStoreNotFound "not found" []) end, w);
  be_StartState c f t w := (None, with_row (StartBackfillState c f t 1) w);
  be_UpdateState l w := (None, with_row (UpdateBackfillState l 1) w);
  be_CompleteState w := (None, with_row (CompleteBackfillState 1) w);
  be_SaveRanges := Some (fun rs w => (None, with_row (SaveBackfillRanges rs 1) w));
  be_limiterWait := None;
  be_ctxErr w := None;
  be_sleep d w := (true, w);
  be_now w := 1;
  be_Progress := None;
  be_RangeProgress := None |}.

(** What the log of a contract looks like. *)
Definition log_ok (log : list Transaction) : Prop :=
  StronglySorted (fun a b => tx_Ledger a <= tx_Ledger b) log /\ NoDup (tx_cursor <$> log) /\
  Forall (fun tx => tx_cursor tx <> ""%string) log.

Lemma clamp_id limit : 0 < limit <= 200 -> clamp_limit limit = limit.
Proof. intros. unfold clamp_limit. destruct (Z.leb_spec limit 0), (Z.ltb_spec 200 limit); cbn; lia. Qed.

Definition sim_laws (log : list Transaction) (H : log_ok log) : @BackfillLaws BW (sim_env log).
Proof.
  refine (@Build_BackfillLaws BW (sim_env log) bw_rows (fun _ _ => log) (fun _ _ => proj1 H) (fun _ _ => proj1 (proj2 H))
    (fun _ _ => proj2 (proj2 H)) _ _ _ _ _ _ _ _ _ _ _ _); cbn.
  - intros c cur limit f w Hl. unfold sim_list. rewrite (clamp_id limit Hl).
    destruct (head (bw_faults w)) as [[e|]|]; cbn; (split; [done|]); intros page Hp; by simplify_eq.
  - done.
  - intros evs w. split; [set_solver|]. intros _ _. cbn. set_solver.
  - done.
  - done.
  - done.
  - done.
  - intros save rs w Hs. by simplify_eq.
  - done.
  - done.
  - done.
  - done.
Defined.

Definition tx (n : string) (ledger : Z) : Transaction := mkTx n n n ledger "" "op" "txSuccess".
(** Two transactions in ledger 5, one in ledger 7. *)
Definition demo_log : list Transaction := [tx "t1" 5; tx "t2" 5; tx "t3" 7].
Definition key_of (n : string) (ledger : Z) : Z * string := (ledger, formatEventID n ledger 0 0).

Lemma demo_log_ok : log_ok demo_log.
Proof.
  split; [repeat constructor; cbn; lia|]. split.
  - apply (bool_decide_unpack _). vm_compute. exact I.
  - repeat constructor; vm_compute; discriminate.
Qed.

Definition opts (batch size retries : Z) (dry : bool) : Options :=
  applyDefaults (mkOptions "c1" 1 10 batch "" 0 true 0 dry 0 size retries 0).
Definition b0 : Backfiller := mkBackfiller 0 [] emptySummary.
Definition clean : BW := mkBW ∅ None [].

(** What the second transaction gives. *)
Definition demo_row : Event := mkEvent (formatEventID "t2" 5 0 0) "c1" 5 "contract" "t2" 0 0 true "[]" "v" 0 "" [] "v".
Definition demo_extracted : Extracted := mkExtracted [demo_row] false true true.


(** ** Where events are lost *)

Definition lost_after (log : list Transaction) (o : Options) (w : BW) (k : Z * string) : bool :=
  let '(r, s', w') := @Run BW (sim_env log) (S (length log)) o b0 w in
  (match r with Some None => true | _ => false end) && su_Completed (st_sum s') && negb (bool_decide (k ∈ bw_rows w')).

(** A request fails after the first page, in the middle of ledger 5. The next run
    resumes at ledger 6 and completes: the second transaction of ledger 5 is
    never stored. *)
Lemma resume_skips_rest_of_ledger :
  let '(r, s', w') := @Run BW (sim_env demo_log) 4 (opts 1 0 0 false) b0 (mkBW ∅ None [None; Some (errors_New "reset")]) in
  bool_decide (key_of "t1" 5 ∈ bw_rows w') = true /\ (bs_LastLedger <$> bw_state w') = Some 5 /\
  lost_after demo_log (opts 1 0 0 false) w' (key_of "t2" 5) = true.
Proof. vm_compute. auto. Qed.

(** The same within one run over sub-ranges: a rate-limited request is retried
    from the next ledger, and the run reports success. *)
Lemma retry_skips_rest_of_ledger :
  lost_after demo_log (opts 1 100 1 false) (mkBW ∅ None [None; Some ErrRateLimited]) (key_of "t2" 5) = true.
Proof. vm_compute. reflexivity. Qed.

(** With pages of more than 200 transactions the client asks for 200, the full
    page is taken for the last one, and the run completes without the rest. *)
Definition long_log : list Transaction :=
  (fun n => mkTx (FormatInt (Z.of_nat n)) (FormatInt (Z.of_nat n)) "h" (Z.of_nat n) "" "" "txSuccess") <$> seq 1 201.
Definition walked (batch : Z) : bool * Z :=
  let o := applyDefaults (mkOptions "c1" 1 1000 batch "" 0 true 0 false 0 0 0 0) in
  let '(r, s', w') := @Run BW (sim_env long_log) 202 o b0 clean in (su_Completed (st_sum s'), su_Transactions (st_sum s')).

Lemma batch_over_cap_stops_early : walked 500 = (true, 200) /\ walked 200 = (true, 201).
Proof. vm_compute. auto. Qed.

(** A dry run resets the progress of a run that was interrupted. *)
Lemma dry_run_resets_progress :
  let st := mkBackfillState "c1" 1 10 7 0 0 None [] in
  let '(r, s', w') := @Run BW (sim_env demo_log) 4 (opts 1 0 0 true) b0 (mkBW ∅ (Some st) []) in
  r = Some None /\ (bs_LastLedger <$> bw_state w') = Some 0.
Proof. vm_compute. auto. Qed.

(** The position in the ledger starts again on every page. *)
Lemma tx_index_restarts :
  let page rows := TxIndex <$> pa_events (@extractPage BW (sim_env demo_log) (opts 1 0 0 false) rows 1) in
  page [tx "t1" 5; tx "t2" 5] = [0; 1] /\ page [tx "t1" 5] ++ page [tx "t2" 5] = [0; 0].
Proof. vm_compute. auto. Qed.

(** The events of a transaction itself share one identifier, also with the first
    event of its first operation; an insert keeps one of them. *)
Lemma transaction_events_collide :
  match ExtractContractEvents (fun s => Some s) (fun _ => 0) "c1" (mkHint "h" 5 "" "txSuccess" "txtx" 0) with
  | Ok ex => ID <$> ex_Events ex = [formatEventID "h" 5 0 0; formatEventID "h" 5 0 0]
  | Err _ => False
  end.
Proof. vm_compute. reflexivity. Qed.

Lemma extracted_rows_identified_witness :
  NoDup (ID <$> [demo_row]) /\ Forall (fun e => Ledger e = 5 /\ TxHash e = "t2"%string /\ ("c1" <> ""%string -> ContractID e = "c1"%string)) [demo_row].
Proof.
  destruct (extracted_rows_identified (fun s => Some s) (fun _ => 0) "c1" (hint_of (tx "t2" 5) 0) demo_extracted) as (Hf & Hn & _);
    [vm_compute; reflexivity|]. split; [|exact Hf].
  apply (Hn [[sim_event]]); [vm_compute; reflexivity|cbn; lia|repeat constructor; cbn; lia].
Defined.

(** A contract given as a strkey (C...) matches no event, because candidates are
    hexadecimal. *)
Lemma strkey_extracts_nothing `{XdrSdk} dec parse c hint ex : c <> ""%string -> (forall h, HexString h <> c) ->
  ExtractContractEvents dec parse c hint = Ok ex -> ex_Events ex = [].
Proof.
  intros Hc Hh Hx. destruct (ex_Events ex) as [|e l] eqn:E; [done|]. exfalso.
  unfold ExtractContractEvents in Hx. cbv zeta in Hx. case_bool_decide; [by simplify_eq|].
  destruct (DecodeMeta _) as [meta|]; [|done]. simplify_eq. cbn in E.
  assert (Hnone : forall t ev op i, buildEvent dec c hint t ev op i = None).
  { intros t ev op i. unfold buildEvent. destruct (ce_ContractId ev) as [h|]; [|done]. cbv zeta.
    rewrite !bool_decide_false by auto. done. }
  assert (Hin : e ∈ meta_events dec c hint (parse (th_CreatedAt hint)) meta) by (rewrite E; by left).
  destruct meta as [[evs|]|[[ops evs]|]|]; cbn in Hin; try by apply list.not_elem_of_nil in Hin.
  - apply elem_omap_imap in Hin as (? & ? & _ & Hb). by rewrite Hnone in Hb.
  - apply list.elem_of_app in Hin as [Hin|Hin].
    + apply list_elem_of_join in Hin as (l' & Hin & Hl). apply elem_of_lookup_imap_1 in Hl as (i & op & -> & _).
      apply elem_omap_imap in Hin as (? & ? & _ & Hb). by rewrite Hnone in Hb.
    + apply list_elem_of_omap in Hin as (? & _ & Hb). by rewrite Hnone in Hb.
Qed.
