(* ===== verification/Scope.v ===== *)
(** * The authorization boundary (internal/store/scope.go)

    [Scope] decides which contracts a caller may read. The zero value denies
    everything. *)

From stdpp Require Import sorting.
From S2P Require Import Prelude GoStrings Codec GoSort ReorgTracker.
From Stdlib Require Import Ascii String.
Local Open Scope Z_scope.
Local Open Scope go_scope.

Record Scope : Type := mkScope {
  sc_wildcard : bool;
  sc_contracts : list string }.

#[export] Instance Scope_eq_dec : EqDecision Scope.
Proof. solve_decision. Defined.

Definition zeroScope : Scope := mkScope false [].
Definition WildcardScope : Scope := mkScope true [].
Definition SystemScope : Scope := mkScope true [].

(** The identifiers in order, without empty ones and repetitions. *)
Fixpoint distinct_ids (seen : gset string) (ids : list string) : list string :=
  match ids with
  | [] => []
  | id :: ids' =>
      if bool_decide (id = "") then distinct_ids seen ids'
      else if bool_decide (id ∈ seen) then distinct_ids seen ids'
      else id :: distinct_ids ({[id]} ∪ seen) ids'
  end.

Definition NewScope (contractIDs : list string) : Scope :=
  if bool_decide (contractIDs = []) then zeroScope
  else
    let out := distinct_ids ∅ contractIDs in
    if bool_decide (out = []) then zeroScope else mkScope false (sort_Strings out).

Definition IsWildcard (s : Scope) : bool := sc_wildcard s.
Definition DeniesAll (s : Scope) : bool := negb (sc_wildcard s) && bool_decide (sc_contracts s = []).
Definition Allows (s : Scope) (contractID : string) : bool :=
  sc_wildcard s || existsb (String.eqb contractID) (sc_contracts s).
Definition Contracts (s : Scope) : list string := sc_contracts s.

Fixpoint join_lines (l : list string) : string :=
  match l with
  | [] => ""
  | [x] => x
  | x :: l' => x +++ String (byte_of 10) (join_lines l')
  end.

Definition Fingerprint (s : Scope) : string :=
  if sc_wildcard s then "wildcard"
  else if bool_decide (sc_contracts s = []) then "none"
  else hex_encode (take 8 (sha256 (str_bytes (join_lines (sc_contracts s))))).

(** ** Grants *)

Lemma elem_of_distinct ids : forall seen id,
  id ∈ distinct_ids seen ids <-> id ∈ ids /\ id <> "" /\ id ∉ seen.
Proof.
  induction ids as [|x ids IH]; intros seen id; cbn.
  { split; [intros H; by apply not_elem_of_nil in H|intros [H _]; by apply not_elem_of_nil in H]. }
  rewrite elem_of_cons. case_bool_decide as E1; [rewrite IH; naive_solver|].
  case_bool_decide as E2; [rewrite IH; naive_solver|].
  rewrite elem_of_cons, IH. destruct (decide (id = x)) as [->|Hne]; [naive_solver|set_solver].
Qed.

Lemma distinct_NoDup ids : forall seen, NoDup (distinct_ids seen ids).
Proof.
  induction ids as [|x ids IH]; intros seen; cbn; [constructor|].
  case_bool_decide; [apply IH|]. case_bool_decide; [apply IH|].
  constructor; [|apply IH]. rewrite elem_of_distinct. set_solver.
Qed.

Lemma NewScope_contracts ids : sc_wildcard (NewScope ids) = false /\
  sc_contracts (NewScope ids) = sort_Strings (distinct_ids ∅ ids).
Proof.
  unfold NewScope. case_bool_decide as E; [by subst|]. by case_bool_decide as E2; [rewrite E2|].
Qed.

Lemma Allows_elem s c : Allows s c = true <-> sc_wildcard s = true \/ c ∈ sc_contracts s.
Proof.
  unfold Allows. rewrite orb_true_iff, existsb_exists. split; (intros [H|H]; [by left|right]).
  - destruct H as (x & Hx & E). apply String.eqb_eq in E. subst. by apply list_elem_of_In.
  - exists c. split; [by apply list_elem_of_In|apply String.eqb_refl].
Qed.

Lemma NewScope_Allows ids c : Allows (NewScope ids) c = true <-> c ∈ ids /\ c <> "".
Proof.
  destruct (NewScope_contracts ids) as [Hw Hc]. rewrite Allows_elem, Hw, Hc, sort_Strings_Permutation, elem_of_distinct.
  set_solver.
Qed.

(** A scope built from a list of contracts allows exactly the non-empty
    identifiers of the list, denies everything when there is none, and is the
    same scope, with the same fingerprint, for every list of the same set:
    repetitions and order do not show. *)
Theorem scope_grants_exactly ids ids' :
  (forall c, Allows (NewScope ids) c = true <-> c ∈ ids /\ c <> "") /\
  (DeniesAll (NewScope ids) = true <-> forall c, c ∈ ids -> c = "") /\
  ((forall c, c <> "" -> (c ∈ ids <-> c ∈ ids')) ->
    NewScope ids = NewScope ids' /\ Fingerprint (NewScope ids) = Fingerprint (NewScope ids')).
Proof.
  split; [intros c; apply NewScope_Allows|]. split.
  - destruct (NewScope_contracts ids) as [Hw Hc]. unfold DeniesAll. rewrite Hw, Hc. cbn. rewrite bool_decide_eq_true. split.
    + intros H c Hin. destruct (decide (c = "")) as [|Hne]; [done|]. exfalso.
      assert (Hx : c ∈ sort_Strings (distinct_ids ∅ ids)) by (rewrite sort_Strings_Permutation, elem_of_distinct; set_solver).
      rewrite H in Hx. by apply not_elem_of_nil in Hx.
    + intros H. destruct (sort_Strings (distinct_ids ∅ ids)) as [|c l] eqn:E; [done|]. exfalso.
      assert (Hx : c ∈ sort_Strings (distinct_ids ∅ ids)) by (rewrite E; by left).
      rewrite sort_Strings_Permutation, elem_of_distinct in Hx. naive_solver.
  - intros Hset. assert (Heq : NewScope ids = NewScope ids'); [|by rewrite Heq].
    destruct (NewScope_contracts ids) as [Hw Hc], (NewScope_contracts ids') as [Hw' Hc'].
    destruct (NewScope ids) as [w1 c1], (NewScope ids') as [w2 c2]. cbn in *. subst. f_equal.
    apply sort_Strings_unique, NoDup_Permutation; [apply distinct_NoDup..|].
    intros c. rewrite !elem_of_distinct. destruct (decide (c = "")); [naive_solver|]. rewrite (Hset c) by done. done.
Qed.

(** Two orders of one grant, with a repetition and an empty entry. *)
Lemma scope_grants_exactly_witness :
  NewScope ["b"; "a"; ""; "b"] = NewScope ["a"; "b"] /\
  Fingerprint (NewScope ["b"; "a"; ""; "b"]) = Fingerprint (NewScope ["a"; "b"]).
Proof.
  apply (scope_grants_exactly ["b"; "a"; ""; "b"] ["a"; "b"]). intros c Hc. set_solver.
Defined.
