(* ===== verification/Broadcast.v ===== *)
(** * Live streams (internal/broadcast/broadcast.go, internal/api/broker.go)

    The two matchers of the stream filters, the sequential meaning of the
    broadcaster's operations, and the broadcaster under concurrency: every
    critical section of the mutexes is one step, threads interleave freely, and
    a send on a closed channel or a second close is a panic. *)

From S2P Require Import Prelude GoStrings StoreTypes GoJson GoJsonValue Scope.
From Stdlib Require Import Ascii String.
Local Open Scope Z_scope.
Local Open Scope go_scope.
Local Notation length := List.length.

(** ** Filters (store.EventFilter, without pagination) *)

Record Filter : Type := mkStreamFilter {
  sf_Network : string;
  sf_ContractID : string;
  sf_ContractIDs : list string;
  sf_ContractIDPrefix : string;
  sf_Types : list string;
  sf_Topic : string;
  sf_TxHash : string;
  sf_InSuccessfulCall : option bool;
  sf_Topic0 : string;
  sf_Topic1 : string;
  sf_Topic2 : string;
  sf_Topic3 : string;
  sf_TopicContains : string;
  sf_HasValue : option bool;
  sf_TxIndex : option Z;
  sf_OpIndex : option Z;
  sf_FromLedger : Z;
  sf_ToLedger : Z;
  sf_FromTime : Z;
  sf_ToTime : Z;
  sf_Scope : Scope }.

Definition nonempty (s : string) : bool := negb (bool_decide (s = "")).
Definition mem_str (l : list string) (s : string) : bool := existsb (String.eqb s) l.

(** The compact elements of a JSON array after its bracket, and the rest. *)
Fixpoint json_list (fuel : nat) (depth : Z) (s : string) : option (list string * string) :=
  match fuel with
  | O => None
  | S f =>
      match json_value f depth s with
      | Some (v, r) =>
          match skip_ws r with
          | String d r =>
              if is_chr 93 d then Some ([v], r)
              else if is_chr 44 d then
                match json_list f depth r with Some (l, r) => Some (v :: l, r) | None => None end
              else None
          | EmptyString => None
          end
      | None => None
      end
  end.

(** json.Unmarshal into []json.RawMessage, each element in compact form; [None]
    is the error. JSON null is the nil slice. *)
Definition raw_elements (s : string) : option (list string) :=
  match json_Compact s with
  | None => None
  | Some c =>
      if bool_decide (c = "null") then Some []
      else match c with
           | String b rest =>
               if is_chr 91 b then
                 if bool_decide (rest = "]") then Some []
                 else fst <$> json_list (2 * String.length c + 2) 1 rest
               else None
           | EmptyString => None
           end
  end.

(** *** The broadcaster's matcher *)

Definition jsonDeepEqual (a b : string) : bool :=
  match Unmarshal_any a with
  | None => false
  | Some va => match Unmarshal_any b with None => false | Some vb => DeepEqual va vb end
  end.

Definition topicContains (topics needle : string) : bool :=
  match raw_elements topics with
  | None => false
  | Some arr => existsb (fun t => jsonDeepEqual t needle) arr
  end.

Definition hasPayload (v : string) : bool := nonempty v && negb (bool_decide (v = "null")).

Definition eventMatches (ev : Event) (f : Filter) : bool :=
  (if nonempty (sf_ContractID f) || negb (bool_decide (sf_ContractIDs f = [])) then
     (nonempty (sf_ContractID f) && bool_decide (ContractID ev = sf_ContractID f)) ||
     mem_str (sf_ContractIDs f) (ContractID ev)
   else true) &&
  (bool_decide (sf_Types f = []) || mem_str (sf_Types f) (Type_ ev)) &&
  (negb (nonempty (sf_Topic f)) || topicContains (Topics ev) (sf_Topic f)) &&
  negb ((0 <? sf_FromLedger f) && (Ledger ev <? sf_FromLedger f)) &&
  negb ((0 <? sf_ToLedger f) && (sf_ToLedger f <? Ledger ev)) &&
  negb (negb (time_IsZero (sf_FromTime f)) && (CreatedAt ev <? sf_FromTime f)) &&
  negb (negb (time_IsZero (sf_ToTime f)) && (sf_ToTime f <? CreatedAt ev)) &&
  match sf_HasValue f with
  | None => true
  | Some true => hasPayload (Value ev)
  | Some false => negb (hasPayload (Value ev))
  end.

(** *** The broker's matcher *)

Definition compactJSON (s : string) : string := default "" (json_Compact s).
Definition topicsElements (topics : string) : list string := default [] (raw_elements topics).

Definition topicMatches (topics topic : string) : bool :=
  let want := compactJSON topic in nonempty want && existsb (String.eqb want) (topicsElements topics).

Definition topicAtMatches (topics : string) (position : nat) (want : string) : bool :=
  let needle := compactJSON want in
  nonempty needle && match topicsElements topics !! position with Some e => String.eqb e needle | None => false end.

Definition topicsContain (topics needle : string) : bool :=
  forallb (topicMatches topics) (default [needle] (raw_elements needle)).

(** strings.HasPrefix *)
Definition HasPrefix (s p : string) : bool := match strip_prefix p s with Some _ => true | None => false end.

Definition unless_set {A} (o : option A) (p : A -> bool) : bool := match o with None => true | Some a => p a end.

Definition broker_eventMatches (f : Filter) (e : Event) : bool :=
  (negb (nonempty (sf_Network f)) || bool_decide (Network e = sf_Network f)) &&
  (if negb (bool_decide (sf_ContractIDs f = [])) then
     mem_str (sf_ContractIDs f) (ContractID e) || bool_decide (ContractID e = sf_ContractID f)
   else negb (nonempty (sf_ContractID f)) || bool_decide (ContractID e = sf_ContractID f)) &&
  (negb (nonempty (sf_ContractIDPrefix f)) || HasPrefix (ContractID e) (sf_ContractIDPrefix f)) &&
  (bool_decide (sf_Types f = []) || mem_str (sf_Types f) (Type_ e)) &&
  (negb (nonempty (sf_TxHash f)) || bool_decide (TxHash e = sf_TxHash f)) &&
  unless_set (sf_InSuccessfulCall f) (fun b => Bool.eqb (InSuccessfulCall e) b) &&
  (negb (nonempty (sf_Topic f)) || topicMatches (Topics e) (sf_Topic f)) &&
  (negb (nonempty (sf_TopicContains f)) || topicsContain (Topics e) (sf_TopicContains f)) &&
  (negb (nonempty (sf_Topic0 f)) || topicAtMatches (Topics e) 0 (sf_Topic0 f)) &&
  (negb (nonempty (sf_Topic1 f)) || topicAtMatches (Topics e) 1 (sf_Topic1 f)) &&
  (negb (nonempty (sf_Topic2 f)) || topicAtMatches (Topics e) 2 (sf_Topic2 f)) &&
  (negb (nonempty (sf_Topic3 f)) || topicAtMatches (Topics e) 3 (sf_Topic3 f)) &&
  unless_set (sf_HasValue f) (fun b => Bool.eqb (nonempty (Value e)) b) &&
  unless_set (sf_TxIndex f) (fun z => TxIndex e =? z) &&
  unless_set (sf_OpIndex f) (fun z => OpIndex e =? z) &&
  negb ((0 <? sf_FromLedger f) && (Ledger e <? sf_FromLedger f)) &&
  negb ((0 <? sf_ToLedger f) && (sf_ToLedger f <? Ledger e)) &&
  negb (negb (time_IsZero (sf_FromTime f)) && (CreatedAt e <? sf_FromTime f)) &&
  negb (negb (time_IsZero (sf_ToTime f)) && (sf_ToTime f <? CreatedAt e)).

(** ** The broadcaster *)

(** A subscription object. [su_closed] is the flag under chMu, [su_chClosed] the
    state of the channel itself. *)
Record Subscription : Type := mkSub {
  su_ch : list Event;
  su_filter : Filter;
  su_scope : Scope;
  su_once : bool;
  su_closed : bool;
  su_chClosed : bool }.

(** [hb_mem] holds every subscription ever made; [hb_subs] are the keys of the
    map b.subs ("sub-<n>" is the number n). *)
Record Broadcaster : Type := mkHub {
  hb_mem : gmap Z Subscription;
  hb_subs : gset Z;
  hb_bufferSize : Z;
  hb_nextID : Z }.

Definition DefaultBufferSize : Z := 64.

Definition NewBroadcaster (bufferSize : Z) : Broadcaster :=
  mkHub ∅ ∅ (if bufferSize <=? 0 then DefaultBufferSize else bufferSize) 0.

Definition with_mem (m : gmap Z Subscription) (b : Broadcaster) : Broadcaster :=
  mkHub m (hb_subs b) (hb_bufferSize b) (hb_nextID b).
Definition with_subs (s : gset Z) (b : Broadcaster) : Broadcaster :=
  mkHub (hb_mem b) s (hb_bufferSize b) (hb_nextID b).
Definition on_sub (id : Z) (f : Subscription -> Subscription) (b : Broadcaster) : Broadcaster :=
  with_mem (alter f id (hb_mem b)) b.

Definition Subscribe (f : Filter) (b : Broadcaster) : Z * Broadcaster :=
  let id := i64 (hb_nextID b + 1) in
  (id, mkHub (<[id := mkSub [] f (sf_Scope f) false false false]> (hb_mem b)) ({[id]} ∪ hb_subs b)
         (hb_bufferSize b) id).

Definition set_scope (sc : Scope) (s : Subscription) : Subscription :=
  mkSub (su_ch s) (su_filter s) sc (su_once s) (su_closed s) (su_chClosed s).
Definition set_ch (l : list Event) (s : Subscription) : Subscription :=
  mkSub l (su_filter s) (su_scope s) (su_once s) (su_closed s) (su_chClosed s).
Definition set_once (s : Subscription) : Subscription :=
  mkSub (su_ch s) (su_filter s) (su_scope s) true (su_closed s) (su_chClosed s).
Definition set_closed (s : Subscription) : Subscription :=
  mkSub (su_ch s) (su_filter s) (su_scope s) (su_once s) true true.

Definition SetScope (id : Z) (sc : Scope) (b : Broadcaster) : Broadcaster := on_sub id (set_scope sc) b.

(** The flag is tested before the channel is closed. *)
Definition closeChannel (s : Subscription) : Subscription := if su_closed s then s else set_closed s.

Definition SubscriberCount (b : Broadcaster) : Z := Z.of_nat (size (hb_subs b)).

Section Deliver.
Context (matches : Event -> Filter -> bool).

(** One event of a batch: passed over, queued, or the buffer is full. *)
Inductive offered : Type := Passed | Queued | Full.

Definition offer (cap : Z) (scope : Scope) (s : Subscription) (ev : Event) : offered :=
  if negb (Allows scope (ContractID ev)) then Passed
  else if negb (matches ev (su_filter s)) then Passed
  else if Z.of_nat (length (su_ch s)) <? cap then Queued else Full.

Fixpoint send_all (cap : Z) (scope : Scope) (events : list Event) (s : Subscription) : bool * Subscription :=
  match events with
  | [] => (false, s)
  | ev :: rest =>
      match offer cap scope s ev with
      | Passed => send_all cap scope rest s
      | Queued => send_all cap scope rest (set_ch (su_ch s ++ [ev]) s)
      | Full => (true, s)
      end
  end.

Definition publishTo (cap : Z) (events : list Event) (s : Subscription) : bool * Subscription :=
  if su_closed s then (false, s) else send_all cap (su_scope s) events s.

(** A call of Publish that nothing interrupts; [order] is the iteration order of
    the map. *)
Definition Publish (order : list Z) (events : list Event) (b : Broadcaster) : Broadcaster :=
  let '(evict, m) := fold_left (fun '(evict, m) id =>
      match m !! id with
      | None => (evict, m)
      | Some s => let '(e, s') := publishTo (hb_bufferSize b) events s in
                  (if e then evict ++ [id] else evict, <[id := s']> m)
      end) order ([], hb_mem b) in
  let b := with_mem m b in
  fold_left (fun b id => on_sub id closeChannel b) evict (with_subs (hb_subs b ∖ list_to_set evict) b).

End Deliver.

(** Close, without concurrent calls. *)
Definition CloseSubscription (id : Z) (b : Broadcaster) : Broadcaster :=
  match hb_mem b !! id with
  | None => b
  | Some s =>
      if su_once s then b
      else
        let b := on_sub id set_once b in
        if bool_decide (id ∈ hb_subs b)
        then on_sub id closeChannel (with_subs (hb_subs b ∖ {[id]}) b) else b
  end.
