(* ===== verification/BroadcastSim.v ===== *)
(** * The broadcaster under concurrency

    The threads of publishers and of clients hanging up, one step per critical
    section: locking a subscriber's channel, reading its scope, each send,
    removing subscribers from the map, closing a channel. The invariant holds in
    every reachable state, so a send never meets a closed channel. *)

From S2P Require Import Prelude GoStrings StoreTypes GoJson Scope Broadcast.
From Stdlib Require Import Ascii String.
Local Open Scope Z_scope.

Local Notation length := List.length.

(** ** Threads *)

(** A publisher between two subscribers, holding one subscriber's chMu, or in
    the middle of its sends; and a goroutine that has channels left to close. *)
Inductive thread : Type :=
  | TPub (events : list Event) (todo evict : list Z)
  | TLocked (events : list Event) (id : Z) (todo evict : list Z)
  | TSend (events rest : list Event) (scope : Scope) (id : Z) (todo evict : list Z)
  | TClose (ids : list Z).

(** [cs_locks] are the subscriptions whose chMu is held; [cs_log] lists the sends,
    the latest first, with the scope they were checked against. *)
Record CState : Type := mkCState {
  cs_hub : Broadcaster;
  cs_threads : gmap nat thread;
  cs_locks : gset Z;
  cs_log : list (Z * Event * Scope);
  cs_panic : bool }.

Definition cs_start (bufferSize : Z) : CState := mkCState (NewBroadcaster bufferSize) ∅ ∅ [] false.

Definition go (tid : nat) (t : thread) (cs : CState) : CState :=
  mkCState (cs_hub cs) (<[tid := t]> (cs_threads cs)) (cs_locks cs) (cs_log cs) (cs_panic cs).
Definition finish (tid : nat) (cs : CState) : CState :=
  mkCState (cs_hub cs) (delete tid (cs_threads cs)) (cs_locks cs) (cs_log cs) (cs_panic cs).
Definition with_hub (b : Broadcaster) (cs : CState) : CState :=
  mkCState b (cs_threads cs) (cs_locks cs) (cs_log cs) (cs_panic cs).
Definition lock (id : Z) (cs : CState) : CState :=
  mkCState (cs_hub cs) (cs_threads cs) ({[id]} ∪ cs_locks cs) (cs_log cs) (cs_panic cs).
Definition unlock (id : Z) (cs : CState) : CState :=
  mkCState (cs_hub cs) (cs_threads cs) (cs_locks cs ∖ {[id]}) (cs_log cs) (cs_panic cs).

(** A send on a closed channel panics. *)
Definition chan_send (id : Z) (ev : Event) (sc : Scope) (cs : CState) : CState :=
  match hb_mem (cs_hub cs) !! id with
  | None => cs
  | Some s =>
      if su_chClosed s then mkCState (cs_hub cs) (cs_threads cs) (cs_locks cs) (cs_log cs) true
      else mkCState (on_sub id (set_ch (su_ch s ++ [ev])) (cs_hub cs)) (cs_threads cs) (cs_locks cs)
             ((id, ev, sc) :: cs_log cs) (cs_panic cs)
  end.

(** closeChannel; closing a closed channel panics. *)
Definition chan_close (id : Z) (cs : CState) : CState :=
  match hb_mem (cs_hub cs) !! id with
  | None => cs
  | Some s =>
      if su_closed s then cs
      else mkCState (on_sub id set_closed (cs_hub cs)) (cs_threads cs) (cs_locks cs) (cs_log cs)
             (su_chClosed s || cs_panic cs)
  end.

(** The steps that change a scope are labelled with the subscription. *)
Inductive label : Type := LScope (id : Z) | LOther.

Section Steps.
Context (matches : Event -> Filter -> bool).

Inductive cstep : label -> CState -> CState -> Prop :=
  | s_subscribe f cs : hb_nextID (cs_hub cs) < maxInt64 ->
      cstep LOther cs (with_hub (Subscribe f (cs_hub cs)).2 cs)
  | s_scope id sc cs : cstep (LScope id) cs (with_hub (SetScope id sc (cs_hub cs)) cs)
  | s_receive id ev rest s cs : hb_mem (cs_hub cs) !! id = Some s -> su_ch s = ev :: rest ->
      cstep LOther cs (with_hub (on_sub id (set_ch rest) (cs_hub cs)) cs)
  | s_close tid id s cs : cs_threads cs !! tid = None -> hb_mem (cs_hub cs) !! id = Some s -> su_once s = false ->
      id ∈ hb_subs (cs_hub cs) ->
      cstep LOther cs (go tid (TClose [id])
        (with_hub (with_subs (hb_subs (cs_hub cs) ∖ {[id]}) (on_sub id set_once (cs_hub cs))) cs))
  | s_close_gone id s cs : hb_mem (cs_hub cs) !! id = Some s -> su_once s = false -> id ∉ hb_subs (cs_hub cs) ->
      cstep LOther cs (with_hub (on_sub id set_once (cs_hub cs)) cs)
  | s_publish tid events todo cs : cs_threads cs !! tid = None -> todo ≡ₚ elements (hb_subs (cs_hub cs)) ->
      cstep LOther cs (go tid (TPub events todo []) cs)
  | s_lock tid events id todo evict cs : cs_threads cs !! tid = Some (TPub events (id :: todo) evict) ->
      id ∉ cs_locks cs -> cstep LOther cs (go tid (TLocked events id todo evict) (lock id cs))
  | s_gone tid events id todo evict s cs : cs_threads cs !! tid = Some (TLocked events id todo evict) ->
      hb_mem (cs_hub cs) !! id = Some s -> su_closed s = true ->
      cstep LOther cs (go tid (TPub events todo evict) (unlock id cs))
  | s_begin tid events id todo evict s cs : cs_threads cs !! tid = Some (TLocked events id todo evict) ->
      hb_mem (cs_hub cs) !! id = Some s -> su_closed s = false ->
      cstep LOther cs (go tid (TSend events events (su_scope s) id todo evict) cs)
  | s_pass tid events ev rest sc id todo evict s cs :
      cs_threads cs !! tid = Some (TSend events (ev :: rest) sc id todo evict) ->
      hb_mem (cs_hub cs) !! id = Some s -> offer matches (hb_bufferSize (cs_hub cs)) sc s ev = Passed ->
      cstep LOther cs (go tid (TSend events rest sc id todo evict) cs)
  | s_send tid events ev rest sc id todo evict s cs :
      cs_threads cs !! tid = Some (TSend events (ev :: rest) sc id todo evict) ->
      hb_mem (cs_hub cs) !! id = Some s -> offer matches (hb_bufferSize (cs_hub cs)) sc s ev = Queued ->
      cstep LOther cs (go tid (TSend events rest sc id todo evict) (chan_send id ev sc cs))
  | s_full tid events ev rest sc id todo evict s cs :
      cs_threads cs !! tid = Some (TSend events (ev :: rest) sc id todo evict) ->
      hb_mem (cs_hub cs) !! id = Some s -> offer matches (hb_bufferSize (cs_hub cs)) sc s ev = Full ->
      cstep LOther cs (go tid (TPub events todo (evict ++ [id])) (unlock id cs))
  | s_sent tid events sc id todo evict cs : cs_threads cs !! tid = Some (TSend events [] sc id todo evict) ->
      cstep LOther cs (go tid (TPub events todo evict) (unlock id cs))
  | s_done tid events cs : cs_threads cs !! tid = Some (TPub events [] []) -> cstep LOther cs (finish tid cs)
  | s_evict tid events evict cs : cs_threads cs !! tid = Some (TPub events [] evict) -> evict <> [] ->
      cstep LOther cs (go tid (TClose evict)
        (with_hub (with_subs (hb_subs (cs_hub cs) ∖ list_to_set evict) (cs_hub cs)) cs))
  | s_chan_close tid id ids cs : cs_threads cs !! tid = Some (TClose (id :: ids)) -> id ∉ cs_locks cs ->
      cstep LOther cs (go tid (TClose ids) (chan_close id cs))
  | s_closed tid cs : cs_threads cs !! tid = Some (TClose []) -> cstep LOther cs (finish tid cs).

Definition step (cs cs' : CState) : Prop := exists l, cstep l cs cs'.

(** ** The invariant *)

(** The subscription whose chMu the thread holds. *)
Definition holds (t : thread) : option Z :=
  match t with TLocked _ id _ _ => Some id | TSend _ _ _ id _ _ => Some id | _ => None end.

Definition sub_ok (cap : Z) (s : Subscription) : Prop :=
  su_closed s = su_chClosed s /\ Z.of_nat (length (su_ch s)) <= cap.

(** A thread in the middle of its sends holds an open channel. *)
Definition thread_ok (m : gmap Z Subscription) (locks : gset Z) (t : thread) : Prop :=
  (forall id, holds t = Some id -> id ∈ locks) /\
  match t with TSend _ _ _ id _ _ => exists s, m !! id = Some s /\ su_closed s = false | _ => True end.

Record cinv (cs : CState) : Prop := {
  ci_panic : cs_panic cs = false;
  ci_cap : 0 < hb_bufferSize (cs_hub cs);
  ci_next : 0 <= hb_nextID (cs_hub cs) <= maxInt64;
  ci_fresh : forall id, is_Some (hb_mem (cs_hub cs) !! id) -> id <= hb_nextID (cs_hub cs);
  ci_subs : forall id s, hb_mem (cs_hub cs) !! id = Some s -> sub_ok (hb_bufferSize (cs_hub cs)) s;
  ci_threads : forall tid t, cs_threads cs !! tid = Some t -> thread_ok (hb_mem (cs_hub cs)) (cs_locks cs) t;
  ci_excl : forall tid tid' t t' id, cs_threads cs !! tid = Some t -> cs_threads cs !! tid' = Some t' ->
    holds t = Some id -> holds t' = Some id -> tid = tid';
  ci_log : forall id ev sc, (id, ev, sc) ∈ cs_log cs -> Allows sc (ContractID ev) = true /\
    exists s, hb_mem (cs_hub cs) !! id = Some s /\ matches ev (su_filter s) = true }.

(** Subscriptions keep their filter and whether they are closed. *)
Definition keeps (m m' : gmap Z Subscription) : Prop := forall id s, m !! id = Some s ->
  exists s', m' !! id = Some s' /\ su_filter s' = su_filter s /\ su_closed s' = su_closed s.

Lemma cinv_hub cs b : cinv cs -> hb_bufferSize b = hb_bufferSize (cs_hub cs) -> 0 <= hb_nextID b <= maxInt64 ->
  (forall id, is_Some (hb_mem b !! id) -> id <= hb_nextID b) ->
  (forall id s, hb_mem b !! id = Some s -> sub_ok (hb_bufferSize b) s) -> keeps (hb_mem (cs_hub cs)) (hb_mem b) ->
  cinv (with_hub b cs).
Proof.
  intros H Hcap Hnext Hfresh Hsubs Hk. split; cbn; try done; [apply H|rewrite Hcap; apply H| |apply H|].
  - intros tid t Ht. destruct (ci_threads cs H tid t Ht) as [Hl Hs]. split; [done|]. destruct t; try done.
    destruct Hs as (s & Hm & Hc). destruct (Hk _ _ Hm) as (s' & Hm' & _ & Hc'). exists s'. split; [done|congruence].
  - intros id ev sc Hin. destruct (ci_log cs H id ev sc Hin) as (Ha & s & Hm & Hf). split; [done|].
    destruct (Hk _ _ Hm) as (s' & Hm' & Hf' & _). exists s'. split; [done|by rewrite Hf'].
Qed.

(** A store to one subscription that keeps it well-formed. *)
Lemma cinv_on_sub cs id f : cinv cs ->
  (forall s, su_filter (f s) = su_filter s) -> (forall s, su_closed (f s) = su_closed s) ->
  (forall s, hb_mem (cs_hub cs) !! id = Some s -> sub_ok (hb_bufferSize (cs_hub cs)) s ->
     sub_ok (hb_bufferSize (cs_hub cs)) (f s)) ->
  forall subs, cinv (with_hub (with_subs subs (on_sub id f (cs_hub cs))) cs).
Proof.
  intros H Hf Hc Hok subs. apply cinv_hub; [done|done|apply H| | |].
  - intros i Hi. cbn in Hi. apply (ci_fresh cs H). by rewrite lookup_alter_is_Some in Hi.
  - intros i s Hi. cbn in Hi. apply lookup_alter_Some in Hi as [(-> & s0 & Hs0 & ->)|[_ Hi]];
      [apply Hok; [done|]|]; by eapply (ci_subs cs H).
  - intros i s Hi. cbn. destruct (decide (id = i)) as [<-|Hne].
    + exists (f s). by rewrite lookup_alter_eq, Hi.
    + exists s. by rewrite lookup_alter_ne.
Qed.

(** A thread moves, and perhaps locks or unlocks. *)
Lemma cinv_thread cs tid t L : cinv cs -> thread_ok (hb_mem (cs_hub cs)) L t ->
  (forall tid' t' id, tid' <> tid -> cs_threads cs !! tid' = Some t' -> holds t' = Some id ->
     id ∈ L /\ holds t <> Some id) ->
  cinv (mkCState (cs_hub cs) (<[tid := t]> (cs_threads cs)) L (cs_log cs) (cs_panic cs)).
Proof.
  intros H Ht Hoth. split; cbn; try apply H.
  - intros tid' t' Hl. apply lookup_insert_Some in Hl as [[<- <-]|[Hne Hl]]; [done|].
    destruct (ci_threads cs H _ _ Hl) as [_ Hs]. split; [|done]. intros id Hh. by apply (Hoth tid' t' id).
  - intros t1 t2 x y id H1 H2 Hx Hy. apply lookup_insert_Some in H1 as [[<- <-]|[Hn1 E1]]; apply lookup_insert_Some in H2 as [[<- <-]|[Hn2 E2]];
      [done| | |by eapply (ci_excl cs H)].
    + destruct (Hoth t2 y id ltac:(done) E2 Hy) as [_ Hne]. done.
    + destruct (Hoth t1 x id ltac:(done) E1 Hx) as [_ Hne]. done.
Qed.

Lemma cinv_go cs tid t : cinv cs -> thread_ok (hb_mem (cs_hub cs)) (cs_locks cs) t ->
  (holds t = None \/ exists t0, cs_threads cs !! tid = Some t0 /\ holds t0 = holds t) -> cinv (go tid t cs).
Proof.
  intros H Ht Hh. apply cinv_thread; [done|done|]. intros tid' t' id Hne Hl Hid.
  split; [by apply (ci_threads cs H _ _ Hl)|]. destruct Hh as [Hh|(t0 & Ht0 & Hh)]; [by rewrite Hh|].
  rewrite <- Hh. intros Hc. apply Hne. by eapply (ci_excl cs H).
Qed.

Lemma cinv_finish cs tid : cinv cs -> cinv (finish tid cs).
Proof.
  intros H. split; cbn; try apply H.
  - intros t' x Hx. apply lookup_delete_Some in Hx as [_ Hx]. by eapply (ci_threads cs H).
  - intros t1 t2 x y id H1 H2. apply lookup_delete_Some in H1 as [_ E1]. apply lookup_delete_Some in H2 as [_ E2]. by eapply (ci_excl cs H).
Qed.

(** The holder of a channel's mutex lets go of it. *)
Lemma cinv_unlock cs tid t0 id events todo evict : cinv cs -> cs_threads cs !! tid = Some t0 -> holds t0 = Some id ->
  cinv (go tid (TPub events todo evict) (unlock id cs)).
Proof.
  intros H Ht Hh. apply (cinv_thread cs tid (TPub events todo evict)); [done|by split|].
  intros tid' t' id' Hne Hl Hid. split; [|done]. apply elem_of_difference. split; [by apply (ci_threads cs H _ _ Hl)|].
  rewrite elem_of_singleton. intros ->. apply Hne. by eapply (ci_excl cs H).
Qed.

Lemma cinv_send cs tid events ev rest sc id todo evict s : cinv cs ->
  cs_threads cs !! tid = Some (TSend events (ev :: rest) sc id todo evict) ->
  hb_mem (cs_hub cs) !! id = Some s -> offer matches (hb_bufferSize (cs_hub cs)) sc s ev = Queued ->
  cinv (chan_send id ev sc cs) /\ cs_threads (chan_send id ev sc cs) = cs_threads cs /\
  cs_locks (chan_send id ev sc cs) = cs_locks cs /\
  exists s', hb_mem (cs_hub (chan_send id ev sc cs)) !! id = Some s' /\ su_closed s' = false.
Proof.
  intros H Ht Hm Ho. destruct (ci_threads cs H _ _ Ht) as [_ (s0 & Hm0 & Hc)]. rewrite Hm in Hm0. injection Hm0 as <-.
  destruct (ci_subs cs H _ _ Hm) as [Hcc Hlen].
  assert (Hacc : Allows sc (ContractID ev) = true /\ matches ev (su_filter s) = true /\
    Z.of_nat (length (su_ch s)) < hb_bufferSize (cs_hub cs)).
  { unfold offer in Ho. destruct (Allows sc (ContractID ev)); [|done]. destruct (matches ev (su_filter s)); [|done]. cbn in Ho.
    destruct (_ <? _) eqn:E; [|done]. to_prop. done. }
  destruct Hacc as (Ha & Hmt & Hlt). unfold chan_send. rewrite Hm, <- Hcc, Hc. cbn.
  split; [|split; [done|split; [done|]]].
  2:{ exists (set_ch (su_ch s ++ [ev]) s). by rewrite lookup_alter_eq, Hm. }
  pose proof (cinv_on_sub cs id (set_ch (su_ch s ++ [ev])) H ltac:(done) ltac:(done)) as Hon.
  specialize (Hon ltac:(intros s1 H1 [Hk _]; split; [done|]; cbn; rewrite length_app; cbn; lia) (hb_subs (cs_hub cs))).
  destruct Hon. split; try done. cbn in *. intros i e c [[= -> -> ->]|Hin]%elem_of_cons.
  - split; [done|]. exists (set_ch (su_ch s ++ [ev]) s). by rewrite lookup_alter_eq, Hm.
  - by apply ci_log0.
Qed.

Lemma cinv_chan_close cs id : cinv cs -> id ∉ cs_locks cs -> cinv (chan_close id cs).
Proof.
  intros H Hl. unfold chan_close. destruct (hb_mem (cs_hub cs) !! id) as [s|] eqn:Em; [|done].
  destruct (su_closed s) eqn:Ec; [done|]. destruct (ci_subs cs H _ _ Em) as [Hcc Hlen]. rewrite <- Hcc, Ec. cbn.
  split; cbn; try apply H.
  - intros i Hi. apply (ci_fresh cs H). by rewrite lookup_alter_is_Some in Hi.
  - intros i x Hi. apply lookup_alter_Some in Hi as [(-> & y & Hy & ->)|[_ Hi]]; [|by eapply (ci_subs cs H)].
    destruct (ci_subs cs H _ _ Hy). by split.
  - intros tid t Ht. destruct (ci_threads cs H _ _ Ht) as [H1 H2]. split; [done|]. destruct t as [| |ev r sc i td e|]; try done.
    destruct H2 as (x & Hx & Hc). exists x. split; [|done]. rewrite lookup_alter_ne; [done|].
    intros ->. apply Hl. by apply H1.
  - intros i ev sc Hin. destruct (ci_log cs H _ _ _ Hin) as (Ha & x & Hx & Hf). split; [done|].
    destruct (decide (id = i)) as [<-|Hne]; [|exists x; by rewrite lookup_alter_ne].
    exists (set_closed x). by rewrite lookup_alter_eq, Hx.
Qed.

Lemma cinv_subscribe cs f : cinv cs -> hb_nextID (cs_hub cs) < maxInt64 -> cinv (with_hub (Subscribe f (cs_hub cs)).2 cs).
Proof.
  intros H Hn. pose proof (ci_next cs H) as Hr. unfold Subscribe. cbn.
  assert (Hid : i64 (hb_nextID (cs_hub cs) + 1) = hb_nextID (cs_hub cs) + 1)
    by (apply i64_id; unfold in_i64, minInt64, maxInt64 in *; lia). rewrite Hid.
  apply cinv_hub; [done|done|cbn; lia| | |].
  - cbn. intros i [x Hx]. apply lookup_insert_Some in Hx as [[<- _]|[_ Hx]]; [lia|].
    pose proof (ci_fresh cs H i (ex_intro _ x Hx)). lia.
  - cbn. intros i x Hx. apply lookup_insert_Some in Hx as [[<- <-]|[_ Hx]]; [|by eapply (ci_subs cs H)].
    split; [done|]. cbn. pose proof (ci_cap cs H). lia.
  - intros i x Hx. cbn. exists x. split; [|done]. rewrite lookup_insert_ne; [done|].
    pose proof (ci_fresh cs H i (ex_intro _ x Hx)). lia.
Qed.

Lemma cinv_receive cs id ev rest s : cinv cs -> hb_mem (cs_hub cs) !! id = Some s -> su_ch s = ev :: rest ->
  cinv (with_hub (on_sub id (set_ch rest) (cs_hub cs)) cs).
Proof.
  intros H Hm Hc. apply (cinv_on_sub cs id (set_ch rest) H ltac:(done) ltac:(done)) with (subs := hb_subs (cs_hub cs)).
  intros s1 Hs1 [Hk Hlen]. split; [done|]. assert (s1 = s) as -> by congruence. cbn. rewrite Hc in Hlen. cbn in Hlen. lia.
Qed.

Lemma cinv_step cs cs' : step cs cs' -> cinv cs -> cinv cs'.
Proof.
  intros [l Hst] H.
  destruct Hst as [f cs Hn|id sc cs|id ev rest s cs Hm Hc|tid id s cs Hn Hm Ho Hin|id s cs Hm Ho Hni|
    tid events todo cs Hn Hp|tid events id todo evict cs Ht Hl|tid events id todo evict s cs Ht Hm Hc|
    tid events id todo evict s cs Ht Hm Hc|tid events ev rest sc id todo evict s cs Ht Hm Ho|
    tid events ev rest sc id todo evict s cs Ht Hm Ho|tid events ev rest sc id todo evict s cs Ht Hm Ho|
    tid events sc id todo evict cs Ht|tid events cs Ht|tid events evict cs Ht Hne|tid id ids cs Ht Hl|tid cs Ht].
  - by apply cinv_subscribe.
  - by apply (cinv_on_sub cs id (set_scope sc) H ltac:(done) ltac:(done) ltac:(done)) with (subs := hb_subs (cs_hub cs)).
  - by eapply cinv_receive.
  - apply cinv_go; [by apply (cinv_on_sub cs id set_once H)|by split|by left].
  - by apply (cinv_on_sub cs id set_once H ltac:(done) ltac:(done) ltac:(done)) with (subs := hb_subs (cs_hub cs)).
  - apply cinv_go; [done|by split|by left].
  - apply (cinv_thread cs tid); [done|split; [|done]|].
    + intros i [= <-]. set_solver.
    + intros tid' t' i Hne Hl' Hh. pose proof (proj1 (ci_threads cs H _ _ Hl') i Hh). split; [set_solver|]. intros [= <-]. done.
  - by eapply cinv_unlock.
  - apply cinv_go; [done| |right; by eexists]. split; [|by exists s]. intros i Hi. by apply (ci_threads cs H _ _ Ht).
  - apply cinv_go; [done| |right; by eexists]. apply (ci_threads cs H _ _ Ht).
  - destruct (cinv_send _ _ _ _ _ _ _ _ _ _ H Ht Hm Ho) as (H1 & Hth & Hlk & s' & Hs').
    apply cinv_go; [done| |right; exists (TSend events (ev :: rest) sc id todo evict); by rewrite Hth].
    rewrite Hlk. split; [|by exists s']. apply (ci_threads cs H _ _ Ht).
  - by eapply cinv_unlock.
  - by eapply cinv_unlock.
  - by apply cinv_finish.
  - apply cinv_go; [|by split|by left]. apply cinv_hub; try done; apply H || (intros i x Hx; by exists x).
  - apply cinv_go; [by apply cinv_chan_close|by split|by left].
  - by apply cinv_finish.
Qed.

Lemma cinv_start n : cinv (cs_start n).
Proof.
  split; cbn; try done.
  - destruct (n <=? 0) eqn:E; to_prop; unfold DefaultBufferSize; lia.
  - intros id [x Hx]. by rewrite lookup_empty in Hx.
  - intros id ev sc Hin. by apply not_elem_of_nil in Hin.
Qed.

Lemma hub_reachable_inv n cs : rtc step (cs_start n) cs -> cinv cs.
Proof.
  intros Hr. assert (Hgen : forall a b, rtc step a b -> cinv a -> cinv b).
  { induction 1; [done|]. intros Ha. eauto using cinv_step. }
  eapply Hgen; [exact Hr|apply cinv_start].
Qed.

(** C28: In every interleaving of publishers, clients that subscribe, receive,
    change scope and hang up, and evictions: no goroutine ever sends on a closed
    channel or closes one twice, no buffer exceeds its size, and every event that
    was queued is allowed by the scope it was checked against and matches the
    subscription's filter. *)
Theorem broadcast_safe n cs : rtc step (cs_start n) cs ->
  cs_panic cs = false /\
  (forall id s, hb_mem (cs_hub cs) !! id = Some s ->
     Z.of_nat (length (su_ch s)) <= hb_bufferSize (cs_hub cs)) /\
  (forall id ev sc, (id, ev, sc) ∈ cs_log cs -> Allows sc (ContractID ev) = true /\
     exists s, hb_mem (cs_hub cs) !! id = Some s /\ matches ev (su_filter s) = true).
Proof.
  intros H. apply hub_reachable_inv in H. split; [apply H|]. split; [|apply H]. intros id s Hs. apply (ci_subs cs H id s Hs).
Qed.

(** ** Revocation *)

(** Every thread sending to [id], and the subscription itself, use scope [sc];
    what was queued since [log0] was checked against it. *)
Definition confined (id : Z) (sc : Scope) (log0 : list (Z * Event * Scope)) (cs : CState) : Prop :=
  (exists s, hb_mem (cs_hub cs) !! id = Some s /\ su_scope s = sc) /\
  (forall tid events rest sc' todo evict, cs_threads cs !! tid = Some (TSend events rest sc' id todo evict) -> sc' = sc) /\
  exists new, cs_log cs = new ++ log0 /\ forall ev sc', (id, ev, sc') ∈ new -> sc' = sc.

Lemma confined_hub id sc log0 b cs : confined id sc log0 cs ->
  (forall s, hb_mem (cs_hub cs) !! id = Some s -> exists s', hb_mem b !! id = Some s' /\ su_scope s' = su_scope s) ->
  confined id sc log0 (with_hub b cs).
Proof.
  intros ((s & Hs & Hsc) & Ht & Hl) Hb. split; [|by split]. destruct (Hb s Hs) as (s' & Hs' & E).
  exists s'. split; [done|congruence].
Qed.

Lemma alter_scope (m : gmap Z Subscription) id i f s : (forall x, i = id -> su_scope (f x) = su_scope x) -> m !! id = Some s ->
  exists s', alter f i m !! id = Some s' /\ su_scope s' = su_scope s.
Proof.
  intros Hf Hm. destruct (decide (i = id)) as [->|Hne].
  - exists (f s). rewrite lookup_alter_eq, Hm. split; [done|by apply Hf].
  - exists s. by rewrite lookup_alter_ne.
Qed.

Lemma confined_go id sc log0 tid t cs : confined id sc log0 cs ->
  (forall events rest sc' todo evict, t = TSend events rest sc' id todo evict -> sc' = sc) -> confined id sc log0 (go tid t cs).
Proof.
  intros (Hs & Ht & Hl) Hn. split; [done|]. split; [|done]. intros tid' ev r sc' td e H. cbn in H.
  apply lookup_insert_Some in H as [[_ ->]|[_ H]]; [by eapply Hn|by eapply Ht].
Qed.

Lemma confined_finish id sc log0 tid cs : confined id sc log0 cs -> confined id sc log0 (finish tid cs).
Proof.
  intros (Hs & Ht & Hl). split; [done|]. split; [|done]. intros t' e r c td ev' Hx. cbn in Hx.
  apply lookup_delete_Some in Hx as [_ Hx]. by eapply Ht.
Qed.

Lemma confined_chan_close id sc log0 i cs : confined id sc log0 cs -> confined id sc log0 (chan_close i cs).
Proof.
  intros H. unfold chan_close. destruct (hb_mem (cs_hub cs) !! i); [|done]. destruct (su_closed _); [done|].
  destruct H as ((s' & Hs' & Hsc) & Ht & Hl). split; [|by split]. cbn.
  destruct (alter_scope (hb_mem (cs_hub cs)) id i set_closed s' ltac:(done) Hs') as (x & Hx & E).
  exists x. split; [done|congruence].
Qed.

Lemma confined_chan_send id sc log0 i ev sc' cs : confined id sc log0 cs -> (i = id -> sc' = sc) ->
  confined id sc log0 (chan_send i ev sc' cs).
Proof.
  intros H Hi. unfold chan_send. destruct (hb_mem (cs_hub cs) !! i) as [s|]; [|done]. destruct (su_chClosed s); [done|].
  destruct H as ((s' & Hs' & Hsc) & Ht & new & Hl & Hnew). split; [|split; [done|]].
  - cbn. destruct (alter_scope (hb_mem (cs_hub cs)) id i (set_ch (su_ch s ++ [ev])) s' ltac:(done) Hs') as (x & Hx & E).
    exists x. split; [done|congruence].
  - exists ((i, ev, sc') :: new). cbn. rewrite Hl. split; [done|].
    intros e c [[= -> -> ->]|Hin]%elem_of_cons; [by apply Hi|by eapply Hnew].
Qed.

Lemma confined_step id sc log0 l cs cs' : cinv cs -> cstep l cs cs' -> l <> LScope id ->
  confined id sc log0 cs -> confined id sc log0 cs'.
Proof.
  intros Hinv Hst Hl H.
  destruct Hst as [f cs Hn|i sc0 cs|i ev rest s cs Hm Hc|tid i s cs Hn Hm Ho Hin|i s cs Hm Ho Hni|
    tid events todo cs Hn Hp|tid events i todo evict cs Ht Hlk|tid events i todo evict s cs Ht Hm Hc|
    tid events i todo evict s cs Ht Hm Hc|tid events ev rest sc0 i todo evict s cs Ht Hm Ho|
    tid events ev rest sc0 i todo evict s cs Ht Hm Ho|tid events ev rest sc0 i todo evict s cs Ht Hm Ho|
    tid events sc0 i todo evict cs Ht|tid events cs Ht|tid events evict cs Ht Hne|tid i ids cs Ht Hlk|tid cs Ht].
  - apply confined_hub; [done|]. intros s Hs. exists s. split; [|done]. unfold Subscribe. cbn. rewrite lookup_insert_ne; [done|].
    pose proof (ci_next cs Hinv). rewrite i64_id by (unfold in_i64, minInt64, maxInt64 in *; lia).
    pose proof (ci_fresh cs Hinv id (ex_intro _ s Hs)). lia.
  - apply confined_hub; [done|]. intros s Hs. apply (alter_scope _ id i); [|done]. intros x ->. done.
  - apply confined_hub; [done|]. intros s1 Hs. by apply (alter_scope _ id i).
  - apply confined_go; [|done]. apply confined_hub; [done|]. intros s1 Hs. by apply (alter_scope _ id i).
  - apply confined_hub; [done|]. intros s1 Hs. by apply (alter_scope _ id i).
  - by apply confined_go.
  - by apply confined_go.
  - by apply confined_go.
  - apply confined_go; [done|]. intros e r c td ev' E. injection E as <- <- <- -> <- <-.
    destruct H as ((s' & Hs' & <-) & _). congruence.
  - apply confined_go; [done|]. intros e r c td ev' E. injection E as <- <- <- -> <- <-. destruct H as (_ & H & _). by eapply H.
  - pose proof (proj1 (proj2 H)) as Hthr. apply confined_go; [apply confined_chan_send; [done|]|].
    + intros ->. by eapply Hthr.
    + intros e r c td ev' E. injection E as <- <- <- -> <- <-. by eapply Hthr.
  - by apply confined_go.
  - by apply confined_go.
  - by apply confined_finish.
  - apply confined_go; [|done]. apply confined_hub; [done|]. intros s Hs. by exists s.
  - apply confined_go; [|done]. by apply confined_chan_close.
  - by apply confined_finish.
Qed.

(** Runs in which the scope of [id] is not changed. *)
Definition run_without (id : Z) : relation CState := rtc (fun a b => exists l, cstep l a b /\ l <> LScope id).

(** C33: A revocation takes effect: once a subscription has a scope and no batch
    that started under another one is still being sent, every event queued for it
    from then on is allowed by that scope, until the scope is changed again. *)
Theorem revocation_takes_effect n id sc s cs cs' : rtc step (cs_start n) cs ->
  hb_mem (cs_hub cs) !! id = Some s -> su_scope s = sc ->
  (forall tid events rest sc' todo evict, cs_threads cs !! tid = Some (TSend events rest sc' id todo evict) -> sc' = sc) ->
  run_without id cs cs' ->
  exists new, cs_log cs' = new ++ cs_log cs /\
    forall ev sc', (id, ev, sc') ∈ new -> sc' = sc /\ Allows sc (ContractID ev) = true.
Proof.
  intros Hreach Hs Hsc Hth Hrun. assert (Hinv : cinv cs) by (by eapply hub_reachable_inv).
  assert (H0 : confined id sc (cs_log cs) cs).
  { split; [by exists s|]. split; [done|]. exists []. split; [done|]. intros ev sc' Hin. by apply not_elem_of_nil in Hin. }
  clear Hs Hsc Hth Hreach. revert H0. generalize (cs_log cs). intros log0 H0.
  assert (Hend : cinv cs' /\ confined id sc log0 cs').
  { clear s. induction Hrun as [|a b c (l & Hst & Hl) _ IH]; [done|]. apply IH.
    - eapply cinv_step; [by exists l|done].
    - by eapply confined_step. }
  destruct Hend as (Hinv' & _ & _ & new & Hl & Hnew). exists new. split; [done|]. intros ev sc' Hin.
  pose proof (Hnew ev sc' Hin) as ->. split; [done|]. apply (ci_log cs' Hinv' id ev sc). rewrite Hl.
  apply elem_of_app. by left.
Qed.

End Steps.

(** ** One batch *)

Definition wanted (matches : Event -> Filter -> bool) (scope : Scope) (f : Filter) (ev : Event) : bool :=
  Allows scope (ContractID ev) && matches ev f.

Lemma send_all_spec matches cap sc events : forall s,
  Z.of_nat (length (su_ch s)) <= cap ->
  let w := filter (fun ev => wanted matches sc (su_filter s) ev = true) events in
  let room := Z.to_nat (cap - Z.of_nat (length (su_ch s))) in
  send_all matches cap sc events s = (bool_decide (room < length w)%nat, set_ch (su_ch s ++ take room w) s).
Proof.
  induction events as [|ev events IH]; intros s Hcap; cbv zeta.
  { cbn. rewrite take_nil, app_nil_r. rewrite bool_decide_false by lia. by destruct s. }
  cbn [send_all]. unfold offer.
  destruct (Allows sc (ContractID ev)) eqn:Ea; cbn [negb];
    [|rewrite filter_cons_False by (unfold wanted; by rewrite Ea); by apply IH].
  destruct (matches ev (su_filter s)) eqn:Em; cbn [negb];
    [|rewrite filter_cons_False by (unfold wanted; by rewrite Ea, Em); by apply IH].
  rewrite filter_cons_True by (unfold wanted; by rewrite Ea, Em). destruct (Z.of_nat (length (su_ch s)) <? cap) eqn:El; to_prop.
  - rewrite IH by (cbn; rewrite length_app; cbn; lia). cbn [su_ch su_filter set_ch]. rewrite length_app. cbn [length].
    set (w := filter _ events). replace (Z.to_nat (cap - Z.of_nat (length (su_ch s)))) with
      (S (Z.to_nat (cap - Z.of_nat (length (su_ch s) + 1)))) by lia.
    rewrite firstn_cons, <- (assoc_L (++)). f_equal. apply bool_decide_ext. cbn. lia.
  - replace (Z.to_nat (cap - Z.of_nat (length (su_ch s)))) with 0%nat by lia. rewrite take_0, app_nil_r.
    rewrite bool_decide_true by (cbn; lia). by destruct s.
Qed.

(** Publishing a batch to an open subscription appends, in order, the events
    its scope allows and its filter matches, as far as the buffer has room; the
    subscriber is evicted exactly when one of them did not fit. A closed one
    receives nothing. *)
Theorem publishTo_exact matches cap events s : Z.of_nat (length (su_ch s)) <= cap ->
  let w := filter (fun ev => wanted matches (su_scope s) (su_filter s) ev = true) events in
  let room := Z.to_nat (cap - Z.of_nat (length (su_ch s))) in
  publishTo matches cap events s =
  if su_closed s then (false, s) else (bool_decide (room < length w)%nat, set_ch (su_ch s ++ take room w) s).
Proof. intros H. cbv zeta. unfold publishTo. destruct (su_closed s); [done|]. by apply send_all_spec. Qed.

(** * The stream matchers compared, and runs of the broadcaster

    Where the broadcaster's matcher and the broker's agree, what the former
    ignores, and concrete interleavings for the theorems above. *)


(** ** The matchers *)

(** Only contracts, types, ledgers and times are constrained. *)
Definition basic_filter (f : Filter) : bool :=
  negb (nonempty (sf_Network f)) && negb (nonempty (sf_ContractIDPrefix f)) && negb (nonempty (sf_Topic f)) &&
  negb (nonempty (sf_TxHash f)) && negb (nonempty (sf_Topic0 f)) && negb (nonempty (sf_Topic1 f)) &&
  negb (nonempty (sf_Topic2 f)) && negb (nonempty (sf_Topic3 f)) && negb (nonempty (sf_TopicContains f)) &&
  bool_decide (sf_InSuccessfulCall f = None) && bool_decide (sf_HasValue f = None) &&
  bool_decide (sf_TxIndex f = None) && bool_decide (sf_OpIndex f = None).

(** The contract clause of both matchers, for an event with a contract. *)
Lemma contract_clause (one c : string) (ids : list string) : c <> ""%string ->
  (if nonempty one || negb (bool_decide (ids = [])) then (nonempty one && bool_decide (c = one)) || mem_str ids c else true) =
  (if negb (bool_decide (ids = [])) then mem_str ids c || bool_decide (c = one)
   else negb (nonempty one) || bool_decide (c = one)).
Proof.
  intros Hc. unfold nonempty. destruct (bool_decide_reflect (one = ""%string)) as [->|Hone]; cbn.
  - rewrite (bool_decide_false (c = ""%string)) by done.
    destruct (bool_decide_reflect (ids = [])); cbn; [done|]. by rewrite orb_false_r.
  - destruct (bool_decide_reflect (ids = [])) as [->|]; cbn; [by rewrite orb_false_r|]. apply orb_comm.
Qed.

(** For an event with a contract, the two stream matchers agree on every
    filter over contracts, types, ledgers and times, and on any other filter
    without topic and value constraints the broadcaster delivers everything the
    broker would. *)
Theorem stream_matchers_agree f e : ContractID e <> ""%string ->
  (basic_filter f = true -> eventMatches e f = broker_eventMatches f e) /\
  (nonempty (sf_Topic f) = false -> sf_HasValue f = None ->
    broker_eventMatches f e = true -> eventMatches e f = true).
Proof.
  intros Hc. pose proof (contract_clause (sf_ContractID f) (ContractID e) (sf_ContractIDs f) Hc) as Hcc. split.
  - intros Hb. unfold basic_filter in Hb. to_prop. unfold eventMatches, broker_eventMatches, unless_set.
    repeat match goal with E : nonempty _ = false |- _ => rewrite E; clear E | E : sf_InSuccessfulCall f = _ |- _ => rewrite E; clear E
      | E : sf_HasValue f = _ |- _ => rewrite E; clear E | E : sf_TxIndex f = _ |- _ => rewrite E; clear E
      | E : sf_OpIndex f = _ |- _ => rewrite E; clear E end.
    rewrite Hcc. cbn. rewrite !andb_true_r. done.
  - intros Ht Hv H. unfold broker_eventMatches in H. to_prop. unfold eventMatches. rewrite Ht, Hv, Hcc.
    repeat (apply andb_true_iff; split); try done; by apply negb_true_iff.
Qed.

Definition no_filter (sc : Scope) : Filter :=
  mkStreamFilter "" "" [] "" [] "" "" None "" "" "" "" "" None None None 0 0 time_zero time_zero sc.
Definition tx_filter (tx : string) (sc : Scope) : Filter :=
  mkStreamFilter "" "" [] "" [] "" tx None "" "" "" "" "" None None None 0 0 time_zero time_zero sc.

Definition ev (id contract : string) : Event :=
  mkEvent id contract 5 "contract" "tx1" 0 0 true "[]" "v" 0 "default" [] "".

Lemma stream_matchers_agree_witness :
  eventMatches (ev "e1" "C") (no_filter WildcardScope) = broker_eventMatches (no_filter WildcardScope) (ev "e1" "C").
Proof.
  apply (proj1 (stream_matchers_agree (no_filter WildcardScope) (ev "e1" "C") ltac:(done))). vm_compute. reflexivity.
Defined.

(** The broadcaster ignores the transaction, position, prefix and network
    constraints: an event of another transaction is delivered. *)
Lemma stream_ignores_tx_hash :
  broker_eventMatches (tx_filter "other" WildcardScope) (ev "e1" "C") = false /\
  eventMatches (ev "e1" "C") (tx_filter "other" WildcardScope) = true.
Proof. vm_compute. auto. Qed.

(** An event with no contract passes the broker's list of contracts and not the
    broadcaster's. *)
Lemma empty_contract_differs :
  let f := mkStreamFilter "" "" ["C"; "D"] "" [] "" "" None "" "" "" "" "" None None None 0 0 time_zero time_zero WildcardScope in
  broker_eventMatches f (ev "e1" "") = true /\ eventMatches (ev "e1" "") f = false.
Proof. vm_compute. auto. Qed.

(** ** Runs *)

Definition demo_matches : Event -> Filter -> bool := eventMatches.
Definition scope_C : Scope := NewScope ["C"].

Definition cs1 : CState := with_hub (Subscribe (no_filter scope_C) (cs_hub (cs_start 1))).2 (cs_start 1).
Definition batch : list Event := [ev "e1" "D"; ev "e2" "C"; ev "e3" "C"].
Definition cs2 : CState := go 0 (TPub batch (elements (hb_subs (cs_hub cs1))) []) cs1.
Definition cs3 : CState := go 0 (TLocked batch 1 [] []) (lock 1 cs2).
Definition cs4 : CState := go 0 (TSend batch batch scope_C 1 [] []) cs3.
Definition cs5 : CState := go 0 (TSend batch [ev "e2" "C"; ev "e3" "C"] scope_C 1 [] []) cs4.
Definition cs6 : CState := go 0 (TSend batch [ev "e3" "C"] scope_C 1 [] []) (chan_send 1 (ev "e2" "C") scope_C cs5).
Definition cs7 : CState := go 0 (TPub batch [] [1]) (unlock 1 cs6).
Definition cs8 : CState := go 0 (TClose [1]) (with_hub (with_subs (hb_subs (cs_hub cs7) ∖ list_to_set [1]) (cs_hub cs7)) cs7).
Definition cs9 : CState := go 0 (TClose []) (chan_close 1 cs8).

Definition sub1 (cs : CState) : Subscription :=
  default (mkSub [] (no_filter zeroScope) zeroScope false false false) (hb_mem (cs_hub cs) !! 1).

Lemma run_cs1 : rtc (step demo_matches) (cs_start 1) cs1.
Proof. apply rtc_once. exists LOther. apply s_subscribe. vm_compute. reflexivity. Qed.

(** One event of another contract is passed over, one is queued, the third does
    not fit and the subscriber is evicted. *)
Lemma run_cs9 : rtc (step demo_matches) (cs_start 1) cs9.
Proof.
  etransitivity; [apply run_cs1|].
  eapply rtc_l; [exists LOther; apply (s_publish _ 0 batch (elements (hb_subs (cs_hub cs1)))); vm_compute; reflexivity|].
  eapply rtc_l; [exists LOther; apply (s_lock _ 0 batch 1 [] []); [vm_compute; reflexivity|set_solver]|].
  eapply rtc_l; [exists LOther; apply (s_begin _ 0 batch 1 [] [] (sub1 cs3)); vm_compute; reflexivity|].
  eapply rtc_l; [exists LOther; eapply (s_pass _ 0 batch (ev "e1" "D") _ scope_C 1 [] [] (sub1 cs4)); vm_compute; reflexivity|].
  eapply rtc_l; [exists LOther; eapply (s_send _ 0 batch (ev "e2" "C") _ scope_C 1 [] [] (sub1 cs5)); vm_compute; reflexivity|].
  eapply rtc_l; [exists LOther; eapply (s_full _ 0 batch (ev "e3" "C") [] scope_C 1 [] [] (sub1 cs6)); vm_compute; reflexivity|].
  eapply rtc_l; [exists LOther; apply (s_evict _ 0 batch [1]); [vm_compute; reflexivity|done]|].
  eapply rtc_l; [exists LOther; apply (s_chan_close _ 0 1 []); [vm_compute; reflexivity|vm_compute; set_solver]|].
  reflexivity.
Qed.

Lemma broadcast_safe_witness :
  su_ch (sub1 cs9) = [ev "e2" "C"] /\ su_chClosed (sub1 cs9) = true /\
  cs_panic cs9 = false /\
  (forall id s, hb_mem (cs_hub cs9) !! id = Some s -> Z.of_nat (length (su_ch s)) <= hb_bufferSize (cs_hub cs9)) /\
  (forall id e sc, (id, e, sc) ∈ cs_log cs9 -> Allows sc (ContractID e) = true /\
     exists s, hb_mem (cs_hub cs9) !! id = Some s /\ demo_matches e (su_filter s) = true).
Proof.
  split; [vm_compute; reflexivity|]. split; [vm_compute; reflexivity|].
  apply (broadcast_safe demo_matches 1 cs9 run_cs9).
Defined.

(** The grant of contract C is taken away before the batch starts: nothing is
    queued. *)
Definition cs1' : CState := with_hub (SetScope 1 (NewScope ["D"]) (cs_hub cs1)) cs1.
Definition cs2' : CState := go 0 (TPub [ev "e2" "C"] (elements (hb_subs (cs_hub cs1'))) []) cs1'.
Definition cs3' : CState := go 0 (TLocked [ev "e2" "C"] 1 [] []) (lock 1 cs2').
Definition cs4' : CState := go 0 (TSend [ev "e2" "C"] [ev "e2" "C"] (NewScope ["D"]) 1 [] []) cs3'.
Definition cs5' : CState := go 0 (TSend [ev "e2" "C"] [] (NewScope ["D"]) 1 [] []) cs4'.

Lemma revocation_takes_effect_witness :
  exists new, cs_log cs5' = new ++ cs_log cs1' /\
    forall e sc', (1, e, sc') ∈ new -> sc' = NewScope ["D"] /\ Allows (NewScope ["D"]) (ContractID e) = true.
Proof.
  apply (revocation_takes_effect demo_matches 1 1 (NewScope ["D"]) (sub1 cs1') cs1' cs5').
  - eapply rtc_r; [apply run_cs1|]. exists (LScope 1). apply s_scope.
  - vm_compute. reflexivity.
  - vm_compute. reflexivity.
  - intros tid events rest sc' todo evict H. vm_compute in H. congruence.
  - eapply rtc_l; [exists LOther; split; [apply (s_publish _ 0 [ev "e2" "C"] (elements (hb_subs (cs_hub cs1'))));
      vm_compute; reflexivity|done]|].
    eapply rtc_l; [exists LOther; split; [apply (s_lock _ 0 [ev "e2" "C"] 1 [] []); [vm_compute; reflexivity|set_solver]|done]|].
    eapply rtc_l; [exists LOther; split; [apply (s_begin _ 0 [ev "e2" "C"] 1 [] [] (sub1 cs3')); vm_compute; reflexivity|done]|].
    eapply rtc_l; [exists LOther; split; [eapply (s_pass _ 0 [ev "e2" "C"] (ev "e2" "C") [] (NewScope ["D"]) 1 [] [] (sub1 cs4'));
      vm_compute; reflexivity|done]|].
    reflexivity.
Defined.

Lemma publishTo_exact_witness :
  publishTo demo_matches 1 batch (sub1 cs1) = (true, set_ch [ev "e2" "C"] (sub1 cs1)).
Proof. apply (publishTo_exact demo_matches 1 batch (sub1 cs1)). vm_compute. congruence. Defined.
