(* ===== verification/IdemStore.v ===== *)
(** * The idempotency ledger (internal/store/idempotency.go)

    One row per (tenant, key): a reservation while its request executes (status
    0), then the recorded response. The in-memory, SQLite and Postgres stores and
    the forwarding wrappers, operation by operation. An SQL store takes the
    failures the driver reports as an argument; a failed commit or statement may
    or may not have taken effect. *)

From stdpp Require Import sorting.
From S2P Require Import Prelude GoStrings Codec GoSort StoreErrors GoTime ReorgTracker.
From Stdlib Require Import Ascii String.
Local Open Scope Z_scope.
Local Open Scope go_scope.
Local Notation length := List.length.

Definition DefaultIdempotencyTTL : Z := 24 * 3600 * Second.
Definition DefaultIdempotencySweepBatchSize : Z := 500.

(** The zero value is 0, no outcome. *)
Inductive IdempotencyOutcome : Type := NoOutcome | IdempotencyStarted | IdempotencyReplayed.

#[export] Instance IdempotencyOutcome_eq_dec : EqDecision IdempotencyOutcome.
Proof. solve_decision. Defined.

Record IdempotencyRecord : Type := mkIdem {
  ir_TenantID : string;
  ir_Key : string;
  ir_RequestHash : string;
  ir_Method : string;
  ir_Path : string;
  ir_StatusCode : Z;
  ir_ContentType : string;
  ir_ResponseBody : string;
  ir_CreatedAt : Z;
  ir_ExpiresAt : Z }.

#[export] Instance IdempotencyRecord_eq_dec : EqDecision IdempotencyRecord.
Proof. solve_decision. Defined.

Definition zeroIdem : IdempotencyRecord := mkIdem "" "" "" "" "" 0 "" "" time_zero time_zero.

Definition HashIdempotencyRequest (method path body : string) : string :=
  let nl := String (byte_of 10) "" in
  hex_encode (sha256 (str_bytes (method +++ nl +++ path +++ nl) ++ sha256 (str_bytes body))).

(** The key of a row. *)
Abbreviation ikey := (string * string)%type.
Definition key_of (rec : IdempotencyRecord) : ikey := (ir_TenantID rec, ir_Key rec).

(** The three values ClaimIdempotencyKey returns. *)
Record claim_ret : Type := mkClaimRet {
  cr_outcome : IdempotencyOutcome;
  cr_rec : IdempotencyRecord;
  cr_err : option error }.

Definition claim_error (e : error) : claim_ret := mkClaimRet NoOutcome zeroIdem (Some e).

(** ** The interface (IdempotencyStore)

    [W] is the state of the store and [F] what the environment decides during a
    call: driver failures, and the order in which rows are visited. *)
Class IdempotencyStore (W F : Type) : Type := {
  ClaimIdempotencyKey : F -> IdempotencyRecord -> Z -> W -> claim_ret * W;
  CompleteIdempotencyKey : F -> IdempotencyRecord -> W -> option error * W;
  DeleteIdempotencyKey : F -> string -> string -> W -> option error * W;
  GetIdempotencyKey : F -> string -> string -> Z -> W -> result error IdempotencyRecord;
  DeleteExpiredIdempotencyKeys : F -> Z -> Z -> W -> (Z * option error) * W }.

(** ** Shared pieces *)

(** now is an instant, so UTC leaves it; a zero CreatedAt becomes now. *)
Definition with_created (rec : IdempotencyRecord) (now : Z) : IdempotencyRecord :=
  mkIdem (ir_TenantID rec) (ir_Key rec) (ir_RequestHash rec) (ir_Method rec) (ir_Path rec) (ir_StatusCode rec)
    (ir_ContentType rec) (ir_ResponseBody rec)
    (if time_IsZero (ir_CreatedAt rec) then now else ir_CreatedAt rec) (ir_ExpiresAt rec).

Definition with_response (status : Z) (ct body : string) (rec : IdempotencyRecord) : IdempotencyRecord :=
  mkIdem (ir_TenantID rec) (ir_Key rec) (ir_RequestHash rec) (ir_Method rec) (ir_Path rec) status ct body
    (ir_CreatedAt rec) (ir_ExpiresAt rec).

Definition same_request (a b : IdempotencyRecord) : bool :=
  bool_decide (ir_RequestHash a = ir_RequestHash b) && bool_decide (ir_Method a = ir_Method b) &&
  bool_decide (ir_Path a = ir_Path b).

(** The answer of a claim that found an unexpired row. *)
Definition claim_existing (existing rec : IdempotencyRecord) : claim_ret :=
  if negb (same_request existing rec) then claim_error (Sentinel ErrIdempotencyKeyMismatch)
  else if ir_StatusCode existing =? 0 then
    mkClaimRet NoOutcome existing (Some (Sentinel ErrIdempotencyInFlight))
  else mkClaimRet IdempotencyReplayed existing None.

(** The limit of a sweep. *)
Definition sweep_limit (limit : Z) : Z := if limit <=? 0 then DefaultIdempotencySweepBatchSize else limit.

(** ** MemoryIdempotencyStore *)

Abbreviation MemoryIdempotencyStore := (gmap ikey IdempotencyRecord).

Definition NewMemoryIdempotencyStore : MemoryIdempotencyStore := ∅.

Definition Memory_Claim (rec : IdempotencyRecord) (now : Z) (m : MemoryIdempotencyStore)
  : claim_ret * MemoryIdempotencyStore :=
  let rec := with_created rec now in
  let ck := key_of rec in
  let fresh (m : MemoryIdempotencyStore) :=
    let stored := with_response 0 "" "" rec in
    (mkClaimRet IdempotencyStarted stored None, <[ck := stored]> m) in
  match m !! ck with
  | Some existing =>
      if ir_ExpiresAt existing <=? now then fresh (delete ck m)
      else (claim_existing existing rec, m)
  | None => fresh m
  end.

Definition Memory_Complete (rec : IdempotencyRecord) (m : MemoryIdempotencyStore) : option error * MemoryIdempotencyStore :=
  match m !! key_of rec with
  | None => (Some (Sentinel ErrNotFound), m)
  | Some existing =>
      (None, <[key_of rec := with_response (ir_StatusCode rec) (ir_ContentType rec) (ir_ResponseBody rec) existing]> m)
  end.

Definition Memory_Delete (tenantID key : string) (m : MemoryIdempotencyStore) : option error * MemoryIdempotencyStore :=
  (None, delete (tenantID, key) m).

Definition Memory_Get (tenantID key : string) (now : Z) (m : MemoryIdempotencyStore) : result error IdempotencyRecord :=
  match m !! (tenantID, key) with
  | Some existing => if ir_ExpiresAt existing <=? now then Err (Sentinel ErrNotFound) else Ok existing
  | None => Err (Sentinel ErrNotFound)
  end.

(** The loop over the map: [scan] is the iteration order. *)
Fixpoint Memory_sweep_loop (scan : list ikey) (now limit deleted : Z) (m : MemoryIdempotencyStore)
  : Z * MemoryIdempotencyStore :=
  match scan with
  | [] => (deleted, m)
  | ck :: rest =>
      match m !! ck with
      | Some rec =>
          if ir_ExpiresAt rec <=? now then
            if limit <=? deleted + 1 then (deleted + 1, delete ck m)
            else Memory_sweep_loop rest now limit (deleted + 1) (delete ck m)
          else Memory_sweep_loop rest now limit deleted m
      | None => Memory_sweep_loop rest now limit deleted m
      end
  end.

Definition Memory_DeleteExpired (scan : list ikey) (now limit : Z) (m : MemoryIdempotencyStore)
  : (Z * option error) * MemoryIdempotencyStore :=
  let '(n, m) := Memory_sweep_loop scan now (sweep_limit limit) 0 m in ((n, None), m).

#[export] Instance memory_store : IdempotencyStore MemoryIdempotencyStore (list ikey) := {
  ClaimIdempotencyKey _ := Memory_Claim;
  CompleteIdempotencyKey _ := Memory_Complete;
  DeleteIdempotencyKey _ := Memory_Delete;
  GetIdempotencyKey _ := Memory_Get;
  DeleteExpiredIdempotencyKeys := Memory_DeleteExpired }.

(** ** SQL tables

    The columns of idempotency_keys. How a backend stores a time: SQLite as text,
    Postgres as microseconds. *)
Class TimeColumn (T : Type) : Type := {
  tc_enc : Z -> T;
  tc_dec : T -> Z;
  tc_leb : T -> T -> bool }.

Record sql_row (T : Type) : Type := mkRow {
  sr_request_hash : string;
  sr_method : string;
  sr_path : string;
  sr_status_code : Z;
  sr_content_type : string;
  sr_response_body : string;
  sr_created_at : T;
  sr_expires_at : T }.
Arguments mkRow {T}.
Arguments sr_request_hash {T}. Arguments sr_method {T}. Arguments sr_path {T}. Arguments sr_status_code {T}.
Arguments sr_content_type {T}. Arguments sr_response_body {T}. Arguments sr_created_at {T}. Arguments sr_expires_at {T}.

(** What the driver reports for each call of a transaction: for the select no
    rows (deleted by a concurrent transaction) or an error; for the commit also
    whether it took effect although it returned an error. *)
Record tx_faults : Type := mkTxFaults {
  tf_begin : option error;
  tf_purge : option error;
  tf_insert : option error;
  tf_affected : option error;
  tf_select : option (option error);
  tf_commit : option error;
  tf_commit_applied : bool }.

(** The environment of one store call: the faults of its transaction, of its
    single statement (with whether it took effect), and the row order of a scan. *)
Record sql_env : Type := mkSqlEnv {
  se_tx : tx_faults;
  se_exec : option (error * bool);
  se_scan : list ikey }.

Definition no_faults : tx_faults := mkTxFaults None None None None None None false.
Definition calm : sql_env := mkSqlEnv no_faults None [].

Abbreviation sql_table T := (gmap ikey (sql_row T)).

Section Sql.
Context {T : Type} `{TimeColumn T}.

(** DELETE ... WHERE tenant_id = ? AND idempotency_key = ? AND expires_at <= ? *)
Definition sql_purge (ck : ikey) (now : T) (t : sql_table T) : sql_table T :=
  match t !! ck with
  | Some r => if tc_leb (sr_expires_at r) now then delete ck t else t
  | None => t
  end.

(** INSERT ... ON CONFLICT DO NOTHING, with the number of rows inserted. *)
Definition sql_insert (ck : ikey) (r : sql_row T) (t : sql_table T) : Z * sql_table T :=
  match t !! ck with Some _ => (0, t) | None => (1, <[ck := r]> t) end.

Definition reserved_row (rec : IdempotencyRecord) : sql_row T :=
  mkRow (ir_RequestHash rec) (ir_Method rec) (ir_Path rec) 0 "" "" (tc_enc (ir_CreatedAt rec)) (tc_enc (ir_ExpiresAt rec)).

Definition scan_row (ck : ikey) (r : sql_row T) : IdempotencyRecord :=
  mkIdem ck.1 ck.2 (sr_request_hash r) (sr_method r) (sr_path r) (sr_status_code r) (sr_content_type r)
    (sr_response_body r) (tc_dec (sr_created_at r)) (tc_dec (sr_expires_at r)).

(** UPDATE ... SET status_code, content_type, response_body. *)
Definition sql_update (rec : IdempotencyRecord) (t : sql_table T) : sql_table T :=
  alter (fun r => mkRow (sr_request_hash r) (sr_method r) (sr_path r) (ir_StatusCode rec) (ir_ContentType rec)
                    (ir_ResponseBody rec) (sr_created_at r) (sr_expires_at r)) (key_of rec) t.

(** SELECT of the expired keys ORDER BY expires_at LIMIT. *)
Definition expired_key (now : T) (t : sql_table T) (ck : ikey) : bool :=
  match t !! ck with Some r => tc_leb (sr_expires_at r) now | None => false end.
Definition expires_le (t : sql_table T) (a b : ikey) : Prop :=
  match t !! a, t !! b with Some ra, Some rb => tc_leb (sr_expires_at ra) (sr_expires_at rb) = true | _, _ => True end.
#[export] Instance expires_le_dec t : RelDecision (expires_le t).
Proof. intros a b. unfold expires_le. destruct (t !! a), (t !! b); apply _. Defined.
Definition expired_keys (scan : list ikey) (now : T) (limit : Z) (t : sql_table T) : list ikey :=
  take (Z.to_nat limit) (merge_sort (expires_le t) (List.filter (expired_key now t) scan)).
Definition delete_keys (ks : list ikey) (t : sql_table T) : sql_table T := foldr delete t ks.

(** A statement outside of a transaction. *)
Definition exec_stmt (env : sql_env) (what : string) (f : sql_table T -> sql_table T) (t : sql_table T)
  : option error * sql_table T :=
  match se_exec env with
  | None => (None, f t)
  | Some (e, applied) => (Some (Errorf what [e]), if (applied : bool) then f t else t)
  end.

(** Commit: the transaction's table, or the one before it. *)
Definition tx_commit (f : tx_faults) (what : string) (before after : sql_table T) (ret : claim_ret)
  : claim_ret * sql_table T :=
  match tf_commit f with
  | None => (ret, after)
  | Some e => (claim_error (Errorf what [e]), if tf_commit_applied f then after else before)
  end.
End Sql.

(** ** Postgres

    timestamptz counts microseconds. At read committed the select of a claim can
    miss the row its insert ran into; the driver reports that as no rows. *)

Abbreviation Postgres_table := (sql_table Z).

#[export] Instance postgres_time : TimeColumn Z := {
  tc_enc t := t / Microsecond;
  tc_dec t := t * Microsecond;
  tc_leb := Z.leb }.

Definition Postgres_scan (fault : option (option error)) (ck : ikey) (row : option (sql_row Z)) : result error IdempotencyRecord :=
  match fault with
  | Some None => Err (Sentinel ErrNotFound)
  | Some (Some e) => Err (Errorf "scanning idempotency key" [e])
  | None => match row with Some r => Ok (scan_row ck r) | None => Err (Sentinel ErrNotFound) end
  end.

Definition Postgres_Claim (env : sql_env) (rec : IdempotencyRecord) (now : Z) (t : Postgres_table) : claim_ret * Postgres_table :=
  let rec := with_created rec now in
  let ck := key_of rec in
  let f := se_tx env in
  match tf_begin f with
  | Some e => (claim_error (Errorf "begin idempotency claim tx" [e]), t)
  | None =>
  match tf_purge f with
  | Some e => (claim_error (Errorf "purging expired idempotency key" [e]), t)
  | None =>
      let t1 := sql_purge ck (tc_enc now) t in
      match tf_insert f with
      | Some e => (claim_error (Errorf "inserting idempotency key" [e]), t)
      | None =>
          let '(affected, t2) := sql_insert ck (reserved_row rec) t1 in
          if affected =? 1 then
            tx_commit f "committing idempotency claim" t t2 (mkClaimRet IdempotencyStarted rec None)
          else
            match Postgres_scan (tf_select f) ck (t2 !! ck) with
            | Err e => (claim_error e, t)
            | Ok existing =>
                tx_commit f "committing idempotency lookup" t t2 (claim_existing existing rec)
            end
      end
  end
  end.

Definition Postgres_Complete (env : sql_env) (rec : IdempotencyRecord) (t : Postgres_table) : option error * Postgres_table :=
  exec_stmt env "completing idempotency key" (sql_update rec) t.

Definition Postgres_Delete (env : sql_env) (tenantID key : string) (t : Postgres_table) : option error * Postgres_table :=
  exec_stmt env "deleting idempotency key" (delete (tenantID, key)) t.

Definition Postgres_Get (env : sql_env) (tenantID key : string) (now : Z) (t : Postgres_table) : result error IdempotencyRecord :=
  Postgres_scan (tf_select (se_tx env)) (tenantID, key)
    (match t !! (tenantID, key) with
     | Some r => if tc_leb (sr_expires_at r) (tc_enc now) then None else Some r
     | None => None
     end).

Definition Postgres_DeleteExpired (env : sql_env) (now limit : Z) (t : Postgres_table) : (Z * option error) * Postgres_table :=
  let ks := expired_keys (se_scan env) (tc_enc now) (sweep_limit limit) t in
  let '(e, t) := exec_stmt env "sweeping expired idempotency keys" (delete_keys ks) t in
  ((match e with None => Z.of_nat (length ks) | Some _ => 0 end, e), t).

#[export] Instance postgres_store : IdempotencyStore Postgres_table sql_env := {
  ClaimIdempotencyKey := Postgres_Claim;
  CompleteIdempotencyKey := Postgres_Complete;
  DeleteIdempotencyKey := Postgres_Delete;
  GetIdempotencyKey := Postgres_Get;
  DeleteExpiredIdempotencyKeys := Postgres_DeleteExpired }.

(** ** SQLite

    Times are the strings of formatTime, compared byte by byte; [general] is the
    lenient part of parseTime. *)

Abbreviation SQLite_table := (sql_table string).

Section SQLite.
Context (general : string -> option Z).

#[local] Instance sqlite_time : TimeColumn string := {
  tc_enc := formatTime;
  tc_dec := parseTime general;
  tc_leb := String.leb }.

Definition SQLite_scan (fault : option (option error)) (ck : ikey) (row : option (sql_row string)) : result error IdempotencyRecord :=
  match fault with
  | Some None => Err (Sentinel ErrNotFound)
  | Some (Some e) => Err (Errorf "scanning sqlite idempotency key" [e])
  | None => match row with Some r => Ok (scan_row ck r) | None => Err (Sentinel ErrNotFound) end
  end.

Definition SQLite_Claim (env : sql_env) (rec : IdempotencyRecord) (now : Z) (t : SQLite_table) : claim_ret * SQLite_table :=
  let rec := with_created rec now in
  let ck := key_of rec in
  let f := se_tx env in
  match tf_begin f with
  | Some e => (claim_error (Errorf "begin sqlite idempotency claim tx" [e]), t)
  | None =>
  match tf_purge f with
  | Some e => (claim_error (Errorf "purging expired sqlite idempotency key" [e]), t)
  | None =>
      let t1 := sql_purge ck (tc_enc now) t in
      match tf_insert f with
      | Some e => (claim_error (Errorf "inserting sqlite idempotency key" [e]), t)
      | None =>
          let '(affected, t2) := sql_insert ck (reserved_row rec) t1 in
          match tf_affected f with
          | Some e => (claim_error (Errorf "checking sqlite idempotency rows affected" [e]), t)
          | None =>
          if affected =? 1 then
            tx_commit f "committing sqlite idempotency claim" t t2 (mkClaimRet IdempotencyStarted rec None)
          else
            match SQLite_scan (tf_select f) ck (t2 !! ck) with
            | Err e => (claim_error e, t)
            | Ok existing =>
                tx_commit f "committing sqlite idempotency lookup" t t2 (claim_existing existing rec)
            end
          end
      end
  end
  end.

Definition SQLite_Complete (env : sql_env) (rec : IdempotencyRecord) (t : SQLite_table) : option error * SQLite_table :=
  exec_stmt env "completing sqlite idempotency key" (sql_update rec) t.

Definition SQLite_Delete (env : sql_env) (tenantID key : string) (t : SQLite_table) : option error * SQLite_table :=
  exec_stmt env "deleting sqlite idempotency key" (delete (tenantID, key)) t.

Definition SQLite_Get (env : sql_env) (tenantID key : string) (now : Z) (t : SQLite_table) : result error IdempotencyRecord :=
  SQLite_scan (tf_select (se_tx env)) (tenantID, key)
    (match t !! (tenantID, key) with
     | Some r => if tc_leb (sr_expires_at r) (tc_enc now) then None else Some r
     | None => None
     end).

Definition SQLite_DeleteExpired (env : sql_env) (now limit : Z) (t : SQLite_table) : (Z * option error) * SQLite_table :=
  let ks := expired_keys (se_scan env) (tc_enc now) (sweep_limit limit) t in
  let '(e, t) := exec_stmt env "sweeping expired sqlite idempotency keys" (delete_keys ks) t in
  ((match e with None => Z.of_nat (length ks) | Some _ => 0 end, e), t).

Definition sqlite_store : IdempotencyStore SQLite_table sql_env := {|
  ClaimIdempotencyKey := SQLite_Claim;
  CompleteIdempotencyKey := SQLite_Complete;
  DeleteIdempotencyKey := SQLite_Delete;
  GetIdempotencyKey := SQLite_Get;
  DeleteExpiredIdempotencyKeys := SQLite_DeleteExpired |}.
End SQLite.

(** ** Forwarding

    guardedStore and TracingStore pass a call to the store they wrap when it is
    an IdempotencyStore; the timeout of the guard is one more driver failure. *)

Definition forward {W F} (inner : option (IdempotencyStore W F)) : IdempotencyStore W F :=
  match inner with
  | Some s => s
  | None => {|
      ClaimIdempotencyKey _ _ _ w := (claim_error (Sentinel ErrUnsupported), w);
      CompleteIdempotencyKey _ _ w := (Some (Sentinel ErrUnsupported), w);
      DeleteIdempotencyKey _ _ _ w := (Some (Sentinel ErrUnsupported), w);
      GetIdempotencyKey _ _ _ _ _ := Err (Sentinel ErrUnsupported);
      DeleteExpiredIdempotencyKeys _ _ _ w := ((0, Some (Sentinel ErrUnsupported)), w) |}
  end.
