(* ===== verification/IdemApi.v ===== *)
(** * The idempotency middleware (internal/api/idempotency.go)

    The middleware of the write endpoints, cut at the points where goroutines can
    interleave: the critical sections of the coordinator's mutex, the calls of the
    store, the wait on another request's slot, the wait on another replica, and the
    handler itself. A system is any number of replicas, each with its coordinator,
    over one store; its state is a record and every step an executable function. *)

From S2P Require Import Prelude GoStrings StoreErrors IdemStore.
From Stdlib Require Import Ascii String.
Local Open Scope Z_scope.
Local Open Scope go_scope.
Local Notation length := List.length.

Definition MaxIdempotencyKeyLength : Z := 255.
Definition defaultIdempotencySweepInterval : Z := Minute.

(** ** Requests *)

(** The identity of the caller, as far as the scope of a key depends on it. *)
Record Principal : Type := mkPrincipal {
  pr_TenantID : Z;
  pr_TenantName : string;
  pr_Untenanted : bool }.

(** Why reading a body failed. *)
Inductive body_error : Type :=
  | DecompressedLimit
  | BodyTooLarge
  | ReadFailed (msg : string).

(** A request body: the bytes it yields, then its end or an error. *)
Record body_stream : Type := mkBody { bs_data : string; bs_err : option body_error }.

Record Request : Type := mkRequest {
  q_KeyHeader : string;
  q_Authorization : string;
  q_APIKey : string;
  q_Principal : option Principal;
  q_Method : string;
  q_RequestURI : string;
  q_Path : string;
  q_Body : option body_stream;
  q_BodyLimit : Z }.

(** io.ReadAll over io.LimitReader(body, n). *)
Definition read_limited (n : Z) (b : body_stream) : result body_error string :=
  if n <=? str_len (bs_data b) then Ok (substring 0 (Z.to_nat n) (bs_data b))
  else match bs_err b with Some e => Err e | None => Ok (bs_data b) end.
Definition read_all (b : body_stream) : result body_error string :=
  match bs_err b with Some e => Err e | None => Ok (bs_data b) end.

(** The error of a rejected body: oversized (with whether it is the cap on
    decompressed bytes), or unreadable. *)
Inductive body_reject : Type := RejectTooLarge (decompressed : bool) | RejectUnreadable (msg : string).

Definition readIdempotencyBody (body : option body_stream) (limit : Z) : result body_reject string :=
  match body with
  | None => Ok ""
  | Some b =>
      match (if 0 <? limit then read_limited (i64 (limit + 1)) b else read_all b) with
      | Err DecompressedLimit => Err (RejectTooLarge true)
      | Err BodyTooLarge => Err (RejectTooLarge false)
      | Err (ReadFailed msg) => Err (RejectUnreadable msg)
      | Ok body => if (0 <? limit) && (limit <? str_len body) then Err (RejectTooLarge false) else Ok body
      end
  end.

Definition credentialFromRequest (q : Request) : string :=
  match (if bool_decide (q_Authorization q = "") then None else strip_prefix "Bearer " (q_Authorization q)) with
  | Some after => TrimSpace after
  | None => TrimSpace (q_APIKey q)
  end.

Definition idempotencyTenantScope (q : Request) : string :=
  let by_credential :=
    let cred := credentialFromRequest q in
    if bool_decide (cred = "") then "default"
    else "key:" +++ substring 0 24 (HashIdempotencyRequest "CRED" "" cred) in
  match q_Principal q with
  | Some p =>
      if negb (pr_Untenanted p) && (0 <? pr_TenantID p) then "tenant:" +++ FormatInt (pr_TenantID p)
      else if negb (bool_decide (pr_TenantName p = "")) then "tenant:" +++ pr_TenantName p
      else by_credential
  | None => by_credential
  end.

(** ** The response recorder *)

Record recorder : Type := mkRecorder {
  rc_headers : gmap string (list string);
  rc_body : string;
  rc_statusCode : Z;
  rc_wroteHeader : bool }.

Definition newIdempotencyResponseRecorder : recorder := mkRecorder ∅ "" 0 false.

Definition rec_WriteHeader (code : Z) (r : recorder) : recorder :=
  if rc_wroteHeader r then r else mkRecorder (rc_headers r) (rc_body r) code true.

Definition rec_Write (p : string) (r : recorder) : recorder :=
  let r := if rc_wroteHeader r then r else rec_WriteHeader 200 r in
  mkRecorder (rc_headers r) (rc_body r +++ p) (rc_statusCode r) (rc_wroteHeader r).

(** What a handler does with its response writer. *)
Inductive handler_act : Type :=
  | SetHeader (k : string) (vals : list string)
  | WriteHeader (code : Z)
  | Write (p : string).

Definition rec_act (r : recorder) (a : handler_act) : recorder :=
  match a with
  | SetHeader k vals => mkRecorder (<[k := vals]> (rc_headers r)) (rc_body r) (rc_statusCode r) (rc_wroteHeader r)
  | WriteHeader code => rec_WriteHeader code r
  | Write p => rec_Write p r
  end.
Definition record_handler (acts : list handler_act) : recorder := foldl rec_act newIdempotencyResponseRecorder acts.

(** A recorder that was never written to stands for 200. *)
Definition rec_status (r : recorder) : Z := if rc_statusCode r =? 0 then 200 else rc_statusCode r.
Definition rec_contentType (r : recorder) : string :=
  match rc_headers r !! "Content-Type" with Some (v :: _) => v | _ => "" end.

(** ** Responses *)

(** What reaches the client. *)
Record http_response : Type := mkResponse {
  hr_headers : gmap string (list string);
  hr_status : Z;
  hr_body : string }.

(** The first WriteHeader and the bytes written; [h] are the headers already set. *)
Definition flushToUnderlying (h : gmap string (list string)) (r : recorder) : http_response :=
  mkResponse (rc_headers r ∪ h) (rec_status r) (rc_body r).

Definition writeReplayedIdempotencyResponse (h : gmap string (list string)) (rec : IdempotencyRecord) : http_response :=
  let h := if bool_decide (ir_ContentType rec = "") then h else <["Content-Type" := [ir_ContentType rec]]> h in
  mkResponse (<["Idempotency-Replayed" := ["true"]]> h) (ir_StatusCode rec) (ir_ResponseBody rec).

(** The errors the middleware hands to writeError. *)
Inductive mw_error : Type :=
  | KeyTooLong
  | BodyRejected (e : body_reject)
  | KeyMismatch
  | StillInProgress
  | CheckFailed
  | ContextErr.

(** How a request ended: passed to the handler without a key, an error response
    (writeError with this status), a replay, its own execution, or a panic. *)
Inductive outcome : Type :=
  | Passed
  | Failed (status : Z) (e : mw_error)
  | Replay (rec : IdempotencyRecord)
  | Executed (r : recorder)
  | Panicked.

(** ** Coordinators and slots *)

(** inFlightIdempotencySlot; [sl_failed] says that its err is set. *)
Record slot : Type := mkSlot {
  sl_done : bool;
  sl_requestHash : string;
  sl_method : string;
  sl_path : string;
  sl_rec : IdempotencyRecord;
  sl_failed : bool }.

(** A slot is named by the request that created it. *)
Record coordinator : Type := mkCoord {
  co_ttl : Z;
  co_inFlight : gmap ikey nat;
  co_lastSweepAt : Z }.

Definition newIdempotencyCoordinator : coordinator := mkCoord DefaultIdempotencyTTL ∅ time_zero.

Definition SetIdempotencyTTL (ttl : Z) (c : coordinator) : coordinator :=
  mkCoord (if ttl <=? 0 then DefaultIdempotencyTTL else ttl) (co_inFlight c) (co_lastSweepAt c).

Definition set_inFlight (m : gmap ikey nat) (c : coordinator) : coordinator :=
  mkCoord (co_ttl c) m (co_lastSweepAt c).

(** What the middleware has computed when it reaches its loop. *)
Record call : Type := mkCall {
  ca_key : ikey;
  ca_method : string;
  ca_path : string;
  ca_body : string;
  ca_now : Z;
  ca_ttl : Z }.
Definition ca_hash (c : call) : string := HashIdempotencyRequest (ca_method c) (ca_path c) (ca_body c).

(** The middleware up to its loop: pass the request on, refuse it, or go on, with
    whether this request sweeps first. *)
Inductive entered : Type :=
  | EnterPass
  | EnterRefuse (status : Z) (e : mw_error)
  | EnterCall (c : call) (sweep : bool).

Definition mw_enter (q : Request) (now : Z) (c : coordinator) : entered * coordinator :=
  let rawKey := TrimSpace (q_KeyHeader q) in
  if bool_decide (rawKey = "") then (EnterPass, c)
  else if MaxIdempotencyKeyLength <? str_len rawKey then
    (EnterRefuse 400 KeyTooLong, c)
  else match readIdempotencyBody (q_Body q) (q_BodyLimit q) with
       | Err (RejectTooLarge d) => (EnterRefuse 413 (BodyRejected (RejectTooLarge d)), c)
       | Err (RejectUnreadable msg) => (EnterRefuse 400 (BodyRejected (RejectUnreadable msg)), c)
       | Ok bodyBytes =>
           let shouldSweep := time_IsZero (co_lastSweepAt c) ||
                              (defaultIdempotencySweepInterval <=? time_Sub now (co_lastSweepAt c)) in
           let targetPath := if bool_decide (q_RequestURI q = "") then q_Path q else q_RequestURI q in
           (EnterCall (mkCall (idempotencyTenantScope q, rawKey) (q_Method q) targetPath bodyBytes now (co_ttl c)) shouldSweep,
            mkCoord (co_ttl c) (co_inFlight c) (if shouldSweep then now else co_lastSweepAt c))
       end.

(** ** One request

    Where the goroutine of a request is. *)
Inductive phase : Type :=
  | PSweep                       (** about to sweep expired rows *)
  | PTry                         (** at the head of the loop *)
  | PWait (s : nat)              (** waiting for slot [s] *)
  | PClaim                       (** owns its slot, about to claim the key *)
  | PPoll                        (** another replica holds the key *)
  | PServe                       (** the handler is running *)
  | PStore (r : recorder)        (** the handler returned *)
  | PAbort                       (** the handler panicked *)
  | PClose (o : outcome)         (** about to close its slot *)
  | PDone (o : outcome).

(** The critical section at the head of the loop. *)
Definition mw_try (self : nat) (k : ikey) (c : coordinator) : phase * coordinator :=
  match co_inFlight c !! k with
  | Some s => (PWait s, c)
  | None => (PClaim, set_inFlight (<[k := self]> (co_inFlight c)) c)
  end.

Definition new_slot (c : call) : slot := mkSlot false (ca_hash c) (ca_method c) (ca_path c) zeroIdem false.

(** After the slot another goroutine owned is closed. *)
Definition mw_waited (c : call) (s : slot) : phase :=
  if negb (bool_decide (sl_requestHash s = ca_hash c) && bool_decide (sl_method s = ca_method c) &&
           bool_decide (sl_path s = ca_path c))
  then PDone (Failed 409 KeyMismatch)
  else if negb (sl_failed s) && (0 <? ir_StatusCode (sl_rec s)) then PDone (Replay (sl_rec s))
  else PTry.

Definition candidate (c : call) : IdempotencyRecord :=
  mkIdem (ca_key c).1 (ca_key c).2 (ca_hash c) (ca_method c) (ca_path c) 0 "" "" (ca_now c) (ca_now c + ca_ttl c).

Definition fail_slot (s : slot) : slot :=
  mkSlot (sl_done s) (sl_requestHash s) (sl_method s) (sl_path s) (sl_rec s) true.
Definition record_slot (rec : IdempotencyRecord) (s : slot) : slot :=
  mkSlot (sl_done s) (sl_requestHash s) (sl_method s) (sl_path s) rec (sl_failed s).
Definition close_slot (s : slot) : slot :=
  mkSlot true (sl_requestHash s) (sl_method s) (sl_path s) (sl_rec s) (sl_failed s).

(** executeWithIdempotencySlot after ClaimIdempotencyKey returned. *)
Definition after_claim (ret : claim_ret) (s : slot) : phase * slot :=
  match cr_err ret with
  | Some e =>
      if errors_Is e ErrIdempotencyKeyMismatch then
        (PClose (Failed 409 KeyMismatch), fail_slot s)
      else if errors_Is e ErrIdempotencyInFlight then (PPoll, s)
      else (PClose (Failed 500 CheckFailed), fail_slot s)
  | None =>
      if bool_decide (cr_outcome ret = IdempotencyReplayed) then (PClose (Replay (cr_rec ret)), record_slot (cr_rec ret) s)
      else (PServe, s)
  end.

(** One tick of waitForRemoteInFlightKey, and what the caller makes of the result;
    the deadline and the context give up. *)
Definition poll_tick (c : call) (got : result error IdempotencyRecord) (s : slot) : phase * slot :=
  match got with
  | Err _ => (PClose (Failed 409 StillInProgress), fail_slot s)
  | Ok rec =>
      if 0 <? ir_StatusCode rec then
        if bool_decide (ir_RequestHash rec = sl_requestHash s) && bool_decide (ir_Method rec = sl_method s) &&
           bool_decide (ir_Path rec = sl_path s)
        then (PClose (Replay rec), record_slot rec s)
        else (PClose (Failed 409 KeyMismatch), fail_slot s)
      else (PPoll, s)
  end.
Definition poll_giveup (s : slot) : phase * slot :=
  (PClose (Failed 409 StillInProgress), fail_slot s).

Definition completed_record (c : call) (r : recorder) : IdempotencyRecord :=
  with_response (rec_status r) (rec_contentType r) (rc_body r) (candidate c).

(** ** The system *)

Record thread : Type := mkThread {
  th_replica : nat;
  th_call : call;
  th_phase : phase }.

Section System.
Context {W F : Type} `{IdempotencyStore W F}.

Record sys : Type := mkSys {
  sy_store : W;
  sy_coords : gmap nat coordinator;
  sy_slots : gmap nat slot;
  sy_threads : gmap nat thread }.

(** ensureIdempotency creates the coordinator on first use. *)
Definition coord_of (s : sys) (rep : nat) : coordinator := default newIdempotencyCoordinator (sy_coords s !! rep).

Definition set_store (w : W) (s : sys) : sys := mkSys w (sy_coords s) (sy_slots s) (sy_threads s).
Definition set_coord (rep : nat) (c : coordinator) (s : sys) : sys :=
  mkSys (sy_store s) (<[rep := c]> (sy_coords s)) (sy_slots s) (sy_threads s).
Definition set_slot (i : nat) (sl : slot) (s : sys) : sys :=
  mkSys (sy_store s) (sy_coords s) (<[i := sl]> (sy_slots s)) (sy_threads s).
Definition put_thread (i : nat) (t : thread) (s : sys) : sys :=
  mkSys (sy_store s) (sy_coords s) (sy_slots s) (<[i := t]> (sy_threads s)).
Definition goto (i : nat) (t : thread) (p : phase) (s : sys) : sys :=
  put_thread i (mkThread (th_replica t) (th_call t) p) s.

(** What the environment decides in a step of a request. *)
Inductive choice : Type :=
  | CGo (f : F)
  | CContextDone
  | CDeadline
  | CReturn (acts : list handler_act)
  | CPanic (acts : list handler_act).

Inductive label : Type :=
  | LArrive (i rep : nat) (q : Request) (now : Z)
  | LSetTTL (rep : nat) (ttl : Z)
  | LSweep (f : F) (now limit : Z)
  | LStep (i : nat) (ch : choice).

(** A request that never reaches the loop has no call; its record is empty. *)
Definition no_call (q : Request) (now : Z) : call := mkCall ("", "") (q_Method q) "" "" now 0.

Definition arrive (i rep : nat) (q : Request) (now : Z) (s : sys) : sys :=
  let '(e, c) := mw_enter q now (coord_of s rep) in
  let s := set_coord rep c s in
  match e with
  | EnterPass => put_thread i (mkThread rep (no_call q now) (PDone Passed)) s
  | EnterRefuse status e => put_thread i (mkThread rep (no_call q now) (PDone (Failed status e))) s
  | EnterCall ca sweep => put_thread i (mkThread rep ca (if (sweep : bool) then PSweep else PTry)) s
  end.

(** One step of request [i], whose own slot is [sl]. *)
Definition claim_step (i : nat) (t : thread) (sl : slot) (f : F) (s : sys) : sys :=
  let ca := th_call t in
  let '(ret, w) := ClaimIdempotencyKey f (candidate ca) (ca_now ca) (sy_store s) in
  let '(p, sl) := after_claim ret sl in
  goto i t p (set_slot i sl (set_store w s)).

Definition store_step (i : nat) (t : thread) (sl : slot) (r : recorder) (f : F) (s : sys) : sys :=
  let ca := th_call t in
  if 500 <=? rec_status r then
    let '(_, w) := DeleteIdempotencyKey f (ca_key ca).1 (ca_key ca).2 (sy_store s) in
    goto i t (PClose (Executed r)) (set_slot i (fail_slot sl) (set_store w s))
  else
    let completed := completed_record ca r in
    let '(_, w) := CompleteIdempotencyKey f completed (sy_store s) in
    goto i t (PClose (Executed r)) (set_slot i (record_slot completed sl) (set_store w s)).

Definition close_step (i : nat) (t : thread) (sl : slot) (o : outcome) (s : sys) : sys :=
  let rep := th_replica t in let c := coord_of s rep in
  goto i t (PDone o)
    (set_slot i (close_slot sl) (set_coord rep (set_inFlight (delete (ca_key (th_call t)) (co_inFlight c)) c) s)).

Definition thread_step (i : nat) (t : thread) (ch : choice) (s : sys) : option sys :=
  let ca := th_call t in
  match th_phase t, ch with
  | PSweep, CGo f =>
      let '(_, w) := DeleteExpiredIdempotencyKeys f (ca_now ca) DefaultIdempotencySweepBatchSize (sy_store s) in
      Some (goto i t PTry (set_store w s))
  | PTry, CGo _ =>
      let rep := th_replica t in
      let '(p, c) := mw_try i (ca_key ca) (coord_of s rep) in
      let s := set_coord rep c s in
      Some (goto i t p (match p with PClaim => set_slot i (new_slot ca) s | _ => s end))
  | PWait j, CGo _ =>
      sl ← sy_slots s !! j;
      if sl_done sl then Some (goto i t (mw_waited ca sl) s) else None
  | PWait _, CContextDone => Some (goto i t (PDone (Failed 408 ContextErr)) s)
  | PClaim, CGo f => sl ← sy_slots s !! i; Some (claim_step i t sl f s)
  | PPoll, CGo f =>
      sl ← sy_slots s !! i;
      let '(p, sl) := poll_tick ca (GetIdempotencyKey f (ca_key ca).1 (ca_key ca).2 (ca_now ca) (sy_store s)) sl in
      Some (goto i t p (set_slot i sl s))
  | PPoll, (CContextDone | CDeadline) =>
      sl ← sy_slots s !! i;
      let '(p, sl) := poll_giveup sl in Some (goto i t p (set_slot i sl s))
  | PServe, CReturn acts => Some (goto i t (PStore (record_handler acts)) s)
  | PServe, CPanic _ => Some (goto i t PAbort s)
  | PStore r, CGo f => sl ← sy_slots s !! i; Some (store_step i t sl r f s)
  | PAbort, CGo f =>
      let '(_, w) := DeleteIdempotencyKey f (ca_key ca).1 (ca_key ca).2 (sy_store s) in
      Some (goto i t (PClose Panicked) (set_store w s))
  | PClose o, CGo _ => sl ← sy_slots s !! i; Some (close_step i t sl o s)
  | _, _ => None
  end.

Definition sys_step (l : label) (s : sys) : option sys :=
  match l with
  | LArrive i rep q now =>
      match sy_threads s !! i with Some _ => None | None => Some (arrive i rep q now s) end
  | LSetTTL rep ttl => Some (set_coord rep (SetIdempotencyTTL ttl (coord_of s rep)) s)
  | LSweep f now limit =>
      let '(_, w) := DeleteExpiredIdempotencyKeys f now limit (sy_store s) in Some (set_store w s)
  | LStep i ch => t ← sy_threads s !! i; thread_step i t ch s
  end.

Fixpoint sys_run (ls : list label) (s : sys) : option sys :=
  match ls with
  | [] => Some s
  | l :: ls => s ← sys_step l s; sys_run ls s
  end.

Definition start (w : W) : sys := mkSys w ∅ ∅ ∅.
End System.
Arguments sys W : clear implicits.
Arguments choice F : clear implicits.
Arguments label F : clear implicits.
