(* ===== verification/IdemLedger.v ===== *)
(** * What an idempotency store promises

    The abstract ledger is a finite map from (tenant, key) to a record, with
    operations that have no failures and no representation of times. [IdemLaws]
    states how far a store follows it: each call has the effect and the answer of
    the ledger's operation, or reports an error and had that effect or none. The
    memory, Postgres and SQLite stores satisfy it. *)

From stdpp Require Import sorting.
From S2P Require Import Prelude GoStrings GoSort StoreErrors GoTime IdemStore.
From Stdlib Require Import Ascii String.
Local Open Scope Z_scope.
Local Notation length := List.length.

(** ** The abstract ledger *)

Abbreviation ledger := (gmap ikey IdempotencyRecord).

Definition ledger_claim (rec : IdempotencyRecord) (now : Z) (v : ledger) : claim_ret * ledger :=
  let fresh := (mkClaimRet IdempotencyStarted (with_response 0 "" "" rec) None,
                <[key_of rec := with_response 0 "" "" rec]> v) in
  match v !! key_of rec with
  | Some existing => if ir_ExpiresAt existing <=? now then fresh else (claim_existing existing rec, v)
  | None => fresh
  end.

Definition ledger_complete (rec : IdempotencyRecord) (v : ledger) : ledger :=
  alter (with_response (ir_StatusCode rec) (ir_ContentType rec) (ir_ResponseBody rec)) (key_of rec) v.

Definition ledger_get (k : ikey) (now : Z) (v : ledger) : option IdempotencyRecord :=
  match v !! k with Some r => if ir_ExpiresAt r <=? now then None else Some r | None => None end.

(** [v'] is [v] without some of the rows that have expired at [now]. *)
Definition swept (now : Z) (v v' : ledger) : Prop :=
  forall k, v' !! k = v !! k \/ v' !! k = None /\ exists r, v !! k = Some r /\ ir_ExpiresAt r <= now.

(** A record with its times as the store keeps them. *)
Definition round_rec (round : Z -> Z) (rec : IdempotencyRecord) : IdempotencyRecord :=
  mkIdem (ir_TenantID rec) (ir_Key rec) (ir_RequestHash rec) (ir_Method rec) (ir_Path rec) (ir_StatusCode rec)
    (ir_ContentType rec) (ir_ResponseBody rec) (round (ir_CreatedAt rec)) (round (ir_ExpiresAt rec)).

(** Equal answers; the record of a started claim is only an echo of the argument. *)
Definition claim_agree (a b : claim_ret) : Prop :=
  cr_outcome a = cr_outcome b /\ cr_err a = cr_err b /\ (cr_outcome a <> IdempotencyStarted -> cr_rec a = cr_rec b).

(** A call that answered like [good] and left [after], or failed and left
    [before] or [after]. *)
Definition done_or_failed {A} (err : A -> Prop) (good : A -> Prop) (before after v' : ledger) (ret : A) : Prop :=
  good ret /\ v' = after \/ err ret /\ (v' = before \/ v' = after).

Class IdemLaws (W F : Type) `{IdempotencyStore W F} : Type := {
  il_view : W -> ledger;
  il_inv : W -> Prop;
  il_time : Z -> Prop;
  il_round : Z -> Z;
  il_claim f rec now w ret w' :
    il_inv w -> il_time now -> il_time (ir_CreatedAt (with_created rec now)) -> il_time (ir_ExpiresAt rec) ->
    ClaimIdempotencyKey f rec now w = (ret, w') ->
    let '(sret, v') := ledger_claim (round_rec il_round (with_created rec now)) (il_round now) (il_view w) in
    il_inv w' /\ done_or_failed (fun r => exists e, r = claim_error e) (fun r => claim_agree r sret)
                   (il_view w) v' (il_view w') ret;
  il_complete f rec w e w' : il_inv w -> CompleteIdempotencyKey f rec w = (e, w') ->
    il_inv w' /\ done_or_failed (fun e => e <> None) (fun e => e = None)
                   (il_view w) (ledger_complete rec (il_view w)) (il_view w') e;
  il_delete f tenant key w e w' : il_inv w -> DeleteIdempotencyKey f tenant key w = (e, w') ->
    il_inv w' /\ done_or_failed (fun e => e <> None) (fun e => e = None)
                   (il_view w) (delete (tenant, key) (il_view w)) (il_view w') e;
  il_get f tenant key now w rec : il_inv w -> il_time now -> GetIdempotencyKey f tenant key now w = Ok rec ->
    ledger_get (tenant, key) (il_round now) (il_view w) = Some rec;
  il_sweep f now limit w r w' : il_inv w -> il_time now -> DeleteExpiredIdempotencyKeys f now limit w = (r, w') ->
    il_inv w' /\ swept (il_round now) (il_view w) (il_view w') }.

(** ** Memory *)

Lemma Memory_Claim_ledger rec now m :
  Memory_Claim rec now m = ledger_claim (with_created rec now) now m.
Proof.
  unfold Memory_Claim, ledger_claim. cbv zeta. destruct (m !! key_of (with_created rec now)) as [ex|]; [|done].
  destruct (_ <=? now); [|done]. by rewrite insert_delete_eq.
Qed.

Lemma swept_refl now v : swept now v v.
Proof. intros k. by left. Qed.

Lemma swept_delete now v v' k r :
  v !! k = Some r -> ir_ExpiresAt r <= now -> swept now (delete k v) v' -> swept now v v'.
Proof.
  intros Hk Hr Hs j. destruct (Hs j) as [E|(E & r' & Hr' & Hle)].
  - destruct (decide (j = k)) as [->|Hne]; [|left; by rewrite E, lookup_delete_ne].
    right. rewrite lookup_delete_eq in E. eauto.
  - apply lookup_delete_Some in Hr' as [Hne Hr']. right. eauto.
Qed.

Lemma Memory_sweep_loop_swept scan now limit : forall n m n' m',
  Memory_sweep_loop scan now limit n m = (n', m') -> swept now m m'.
Proof.
  induction scan as [|ck scan IH]; cbn; intros n m n' m' Heq; [simplify_eq; apply swept_refl|].
  destruct (m !! ck) as [r|] eqn:Hr; [|by eapply IH].
  destruct (Z.leb_spec (ir_ExpiresAt r) now); [|by eapply IH].
  destruct (limit <=? n + 1); [simplify_eq; eapply swept_delete; eauto using swept_refl|].
  eapply swept_delete; eauto.
Qed.

Lemma round_rec_id rec : round_rec (fun t => t) rec = rec.
Proof. by destruct rec. Qed.

#[export] Instance memory_laws : IdemLaws MemoryIdempotencyStore (list ikey).
Proof.
  refine {| il_view := fun m => m; il_inv := fun _ => True; il_time := fun _ => True; il_round := fun t => t |}.
  - intros f rec now w ret w' _ _ _ _ Heq. cbn in Heq. rewrite Memory_Claim_ledger in Heq.
    rewrite round_rec_id. rewrite Heq. split; [done|]. left. done.
  - intros f rec w e w' _ Heq. cbn in Heq. unfold Memory_Complete in Heq. split; [done|].
    unfold done_or_failed, ledger_complete. destruct (w !! key_of rec) as [ex|] eqn:E; simplify_eq; [left|right; by auto].
    split; [done|]. apply map_eq. intros j. destruct (decide (j = key_of rec)) as [->|Hne];
      [by rewrite lookup_insert_eq, lookup_alter_eq, E|by rewrite lookup_insert_ne, lookup_alter_ne].
  - intros f tenant key w e w' _ Heq. cbn in Heq. unfold Memory_Delete in Heq. simplify_eq. split; [done|]. by left.
  - intros f tenant key now w rec _ _ Heq. cbn in Heq. unfold Memory_Get in Heq. unfold ledger_get.
    repeat case_match; by simplify_eq.
  - intros f now limit w r w' _ _ Heq. cbn in Heq. unfold Memory_DeleteExpired in Heq. split; [done|].
    destruct (Memory_sweep_loop _ _ _ _ _) as [n m] eqn:E. simplify_eq. by eapply Memory_sweep_loop_swept.
Defined.

(** ** SQL tables *)

(** What a store's representation of times has to keep. *)
Class TimeColumnLaws (T : Type) `{TimeColumn T} : Type := {
  tl_ok : T -> Prop;
  tl_time : Z -> Prop;
  tl_round : Z -> Z;
  tl_enc_ok t : tl_time t -> tl_ok (tc_enc t);
  tl_dec_enc t : tl_time t -> tc_dec (tc_enc t) = tl_round t;
  tl_leb a t : tl_ok a -> tl_time t -> tc_leb a (tc_enc t) = (tc_dec a <=? tl_round t) }.

Section SqlLaws.
Context {T : Type} `{TimeColumnLaws T}.
Implicit Types (t : sql_table T) (ck : ikey) (rec : IdempotencyRecord).

Definition row_ok (r : sql_row T) : Prop := tl_ok (sr_created_at r) /\ tl_ok (sr_expires_at r).
Definition table_ok t : Prop := map_Forall (fun _ r => row_ok r) t.
Definition sql_view t : ledger := map_imap (fun ck r => Some (scan_row ck r)) t.

Lemma sql_view_lookup t ck : sql_view t !! ck = scan_row ck <$> t !! ck.
Proof. unfold sql_view. rewrite map_lookup_imap. by destruct (t !! ck). Qed.

Lemma sql_view_insert t ck r : sql_view (<[ck := r]> t) = <[ck := scan_row ck r]> (sql_view t).
Proof.
  apply map_eq. intros j. rewrite sql_view_lookup. destruct (decide (j = ck)) as [->|Hne];
    [by rewrite !lookup_insert_eq|by rewrite !lookup_insert_ne, sql_view_lookup].
Qed.

Lemma sql_view_delete t ck : sql_view (delete ck t) = delete ck (sql_view t).
Proof.
  apply map_eq. intros j. rewrite sql_view_lookup. destruct (decide (j = ck)) as [->|Hne];
    [by rewrite !lookup_delete_eq|by rewrite !lookup_delete_ne, sql_view_lookup].
Qed.

Lemma sql_view_update t rec : sql_view (sql_update rec t) = ledger_complete rec (sql_view t).
Proof.
  apply map_eq. intros j. unfold sql_update, ledger_complete. rewrite sql_view_lookup.
  destruct (decide (j = key_of rec)) as [->|Hne];
    [rewrite !lookup_alter_eq, sql_view_lookup; by destruct (t !! _)|by rewrite !lookup_alter_ne, sql_view_lookup].
Qed.

Lemma table_ok_delete t ck : table_ok t -> table_ok (delete ck t).
Proof. intros Ht j r [_ Hj]%lookup_delete_Some. eauto. Qed.

Lemma table_ok_update t rec : table_ok t -> table_ok (sql_update rec t).
Proof.
  intros Ht j r Hj. unfold sql_update in Hj. apply lookup_alter_Some in Hj as [(<- & r' & Hr' & ->)|[_ Hj]]; [|eauto].
  exact (Ht _ _ Hr').
Qed.

(** The purge and the insert of a claim together: an unexpired row stops it, and
    otherwise the reservation replaces whatever was there. *)
Lemma sql_reserve t rec now :
  table_ok t -> tl_time now -> tl_time (ir_CreatedAt rec) -> tl_time (ir_ExpiresAt rec) ->
  let '(affected, t2) := sql_insert (key_of rec) (reserved_row rec) (sql_purge (key_of rec) (tc_enc now) t) in
  let '(sret, v') := ledger_claim (round_rec tl_round rec) (tl_round now) (sql_view t) in
  table_ok t2 /\ sql_view t2 = v' /\
  (affected = 1 /\ cr_outcome sret = IdempotencyStarted /\ cr_err sret = None \/
   affected = 0 /\ exists r, t2 !! key_of rec = Some r /\ sret = claim_existing (scan_row (key_of rec) r) (round_rec tl_round rec)).
Proof.
  intros Ht Hnow Hcr Hex. unfold ledger_claim. change (key_of (round_rec tl_round rec)) with (key_of rec).
  assert (Hrow : row_ok (reserved_row rec)) by (split; by apply tl_enc_ok).
  assert (Hscan : scan_row (key_of rec) (reserved_row rec) = with_response 0 "" "" (round_rec tl_round rec)).
  { unfold scan_row, reserved_row, with_response, round_rec. cbn. by rewrite !tl_dec_enc. }
  rewrite sql_view_lookup. unfold sql_purge.
  destruct (t !! key_of rec) as [r|] eqn:Hr; cbn [fmap option_fmap option_map].
  - pose proof (Ht _ _ Hr) as [_ Hre]. rewrite (tl_leb _ _ Hre Hnow). cbn [scan_row ir_ExpiresAt].
    destruct (tc_dec (sr_expires_at r) <=? tl_round now).
    + unfold sql_insert. rewrite lookup_delete_eq. split_and!; [| |by left].
      * by apply map_Forall_insert_2, table_ok_delete.
      * by rewrite sql_view_insert, sql_view_delete, insert_delete_eq, Hscan.
    + unfold sql_insert. rewrite Hr. split_and!; [done|done|]. right. eauto.
  - unfold sql_insert. rewrite Hr. split_and!; [by apply map_Forall_insert_2|by rewrite sql_view_insert, Hscan|by left].
Qed.

Lemma claim_existing_round ex rec : claim_existing ex (round_rec tl_round rec) = claim_existing ex rec.
Proof. done. Qed.

Lemma sql_exec_law (env : sql_env) (what : string) (f : sql_table T -> sql_table T) (g : ledger -> ledger) t (e : option error) t' :
  (forall t, table_ok t -> table_ok (f t) /\ sql_view (f t) = g (sql_view t)) ->
  table_ok t -> exec_stmt env what f t = (e, t') ->
  table_ok t' /\ done_or_failed (fun e => e <> None) (fun e => e = None) (sql_view t) (g (sql_view t)) (sql_view t') e.
Proof.
  intros Hf Ht Heq. destruct (Hf t Ht) as [Hok Hv]. unfold exec_stmt in Heq. unfold done_or_failed.
  destruct (se_exec env) as [[er []]|]; simplify_eq; rewrite ?Hv; split; auto.
Qed.

Lemma delete_keys_swept now ks : forall t, table_ok t -> tl_time now ->
  Forall (fun ck => expired_key (tc_enc now) t ck = true) ks ->
  table_ok (delete_keys ks t) /\ swept (tl_round now) (sql_view t) (sql_view (delete_keys ks t)).
Proof.
  induction ks as [|ck ks IH]; intros t Ht Hnow Hks; [split; [done|apply swept_refl]|].
  inversion_clear Hks as [|? ? Hck Hrest]. destruct (IH t Ht Hnow Hrest) as [IH1 IH2].
  change (delete_keys (ck :: ks) t) with (delete ck (delete_keys ks t)).
  split; [by apply table_ok_delete|]. rewrite sql_view_delete. intros j.
  destruct (decide (j = ck)) as [->|Hne]; [|rewrite lookup_delete_ne by done; apply IH2].
  rewrite lookup_delete_eq. right. split; [done|]. unfold expired_key in Hck.
  destruct (t !! ck) as [r|] eqn:Hr; [|done]. rewrite sql_view_lookup, Hr. exists (scan_row ck r). split; [done|].
  destruct (Ht _ _ Hr) as [_ Hre]. rewrite tl_leb in Hck by done. by to_prop.
Qed.

Lemma expired_keys_expired scan now limit t :
  Forall (fun ck => expired_key now t ck = true) (expired_keys scan now limit t).
Proof.
  unfold expired_keys. apply list.Forall_forall. intros ck Hck. apply elem_of_take in Hck as (i & Hi & _).
  apply list_elem_of_lookup_2 in Hi. rewrite merge_sort_Permutation in Hi.
  rewrite list_elem_of_In in Hi. by apply filter_In in Hi as [_ ?].
Qed.
End SqlLaws.

(** ** Postgres and SQLite *)

#[export] Instance postgres_time_laws : TimeColumnLaws Z.
Proof.
  refine {| tl_ok := fun _ => True; tl_time := fun _ => True; tl_round := fun t => t / Microsecond * Microsecond |};
    [done|done|]. intros a t _ _. cbn. unfold Microsecond.
  destruct (Z.leb_spec a (t / 1000)), (Z.leb_spec (a * 1000) (t / 1000 * 1000)); (done || lia).
Defined.

Lemma tx_commit_law {T} `{TimeColumnLaws T} (f : tx_faults) (what : string) (before after : sql_table T)
  (good : claim_ret -> Prop) (v' : ledger) (ret : claim_ret) (t' : sql_table T) :
  table_ok before -> table_ok after -> sql_view after = v' -> good ret ->
  forall r, tx_commit f what before after ret = (r, t') ->
  table_ok t' /\ done_or_failed (fun r => exists e, r = claim_error e) good (sql_view before) v' (sql_view t') r.
Proof.
  intros Hb Ha <- Hg r Heq. unfold tx_commit in Heq. unfold done_or_failed.
  destruct (tf_commit f) as [e|]; simplify_eq; [|by auto]. destruct (tf_commit_applied f); split; eauto 10.
Qed.

Lemma claim_failed {T} `{TimeColumnLaws T} (t : sql_table T) (good : claim_ret -> Prop) (v' : ledger) e : table_ok t ->
  table_ok t /\ done_or_failed (fun r => exists e, r = claim_error e) good (sql_view t) v' (sql_view t) (claim_error e).
Proof. intros Ht. split; [done|]. right. eauto. Qed.

Lemma Postgres_Claim_law env rec now t ret t' : table_ok t -> Postgres_Claim env rec now t = (ret, t') ->
  let '(sret, v') := ledger_claim (round_rec tl_round (with_created rec now)) (tl_round now) (sql_view t) in
  table_ok t' /\ done_or_failed (fun r => exists e, r = claim_error e) (fun r => claim_agree r sret)
                   (sql_view t) v' (sql_view t') ret.
Proof.
  intros Ht Heq. pose proof (sql_reserve t (with_created rec now) now Ht I I I) as Hres.
  unfold Postgres_Claim in Heq. cbv zeta in Heq.
  destruct (sql_insert _ _ _) as [affected t2], (ledger_claim _ _ _) as [sret v'].
  destruct Hres as (Ht2 & Hv & Hcase).
  destruct (tf_begin _); [simplify_eq; by apply claim_failed|]. destruct (tf_purge _); [simplify_eq; by apply claim_failed|].
  destruct (tf_insert _); [simplify_eq; by apply claim_failed|].
  destruct Hcase as [(-> & Ho & He)|(-> & r & Hr & ->)]; cbn [Z.eqb Pos.eqb] in Heq.
  - eapply tx_commit_law in Heq; eauto. unfold claim_agree. cbn. rewrite Ho, He. done.
  - unfold Postgres_scan in Heq. rewrite Hr in Heq.
    destruct (tf_select _) as [[e|]|]; [simplify_eq; by apply claim_failed..|].
    eapply tx_commit_law in Heq; eauto. unfold claim_agree. by rewrite claim_existing_round.
Qed.

Lemma sql_delete_law {T} `{TimeColumnLaws T} (ck : ikey) (t : sql_table T) :
  table_ok t -> table_ok (delete ck t) /\ sql_view (delete ck t) = delete ck (sql_view t).
Proof. intros. split; [by apply table_ok_delete|apply sql_view_delete]. Qed.

Lemma sql_update_law {T} `{TimeColumnLaws T} (rec : IdempotencyRecord) (t : sql_table T) :
  table_ok t -> table_ok (sql_update rec t) /\ sql_view (sql_update rec t) = ledger_complete rec (sql_view t).
Proof. intros. split; [by apply table_ok_update|apply sql_view_update]. Qed.

Lemma sql_sweep_law {T} `{TimeColumnLaws T} (env : sql_env) (what : string) (now limit : Z) (t t' : sql_table T) e :
  table_ok t -> tl_time now ->
  exec_stmt env what (delete_keys (expired_keys (se_scan env) (tc_enc now) limit t)) t = (e, t') ->
  table_ok t' /\ swept (tl_round now) (sql_view t) (sql_view t').
Proof.
  intros Ht Hnow Heq. pose proof (delete_keys_swept now _ t Ht Hnow (expired_keys_expired (se_scan env) (tc_enc now) limit t)) as Hs.
  unfold exec_stmt in Heq. destruct (se_exec env) as [[er []]|]; simplify_eq; auto using swept_refl.
Qed.

Lemma sql_get_law {T} `{TimeColumnLaws T} (t : sql_table T) (ck : ikey) (now : Z) (r : sql_row T) :
  table_ok t -> tl_time now ->
  (match t !! ck with Some r => if tc_leb (sr_expires_at r) (tc_enc now) then None else Some r | None => None end) = Some r ->
  ledger_get ck (tl_round now) (sql_view t) = Some (scan_row ck r).
Proof.
  intros Ht Hnow Hr. unfold ledger_get. rewrite sql_view_lookup. destruct (t !! ck) as [r'|] eqn:E; [|done]. cbn.
  destruct (Ht _ _ E) as [_ Hre]. rewrite tl_leb in Hr by done. destruct (_ <=? _); by simplify_eq.
Qed.

#[export] Instance postgres_laws : IdemLaws Postgres_table sql_env.
Proof.
  refine {| il_view := sql_view; il_inv := table_ok; il_time := fun _ => True; il_round := tl_round |}.
  - intros f rec now w ret w' Hw _ _ _ Heq. by eapply Postgres_Claim_law.
  - intros f rec w e w' Hw Heq. eapply sql_exec_law in Heq; eauto using sql_update_law.
  - intros f tenant key w e w' Hw Heq. eapply sql_exec_law in Heq; eauto using sql_delete_law.
  - intros f tenant key now w rec Hw _ Heq. cbn in Heq. unfold Postgres_Get, Postgres_scan in Heq.
    destruct (tf_select _) as [[?|]|]; [done..|].
    destruct (match w !! (tenant, key) with Some r => _ | None => _ end) as [r|] eqn:E; [|done].
    simplify_eq. by apply (sql_get_law w (tenant, key) now r).
  - intros f now limit w r w' Hw _ Heq. cbn in Heq. unfold Postgres_DeleteExpired in Heq. cbv zeta in Heq.
    destruct (exec_stmt _ _ _ _) as [e t'] eqn:E. simplify_eq. by eapply sql_sweep_law in E.
Defined.

Section SQLiteLaws.
Context (general : string -> option Z).
#[local] Instance text_time : TimeColumn string := sqlite_time general.

#[local] Instance sqlite_time_laws : TimeColumnLaws string.
Proof.
  refine {| tl_ok := fun s => exists t, time_ok t /\ s = formatTime t; tl_time := time_ok; tl_round := fun t => t |}.
  - intros t Ht. by exists t.
  - intros t Ht. by apply parseTime_back.
  - intros a t (t' & Ht' & ->) Ht. cbn. rewrite (parseTime_back general t' Ht').
    unfold String.leb. rewrite (format_order t' t Ht' Ht).
    unfold Z.leb. by destruct (t' ?= t).
Defined.

Lemma SQLite_Claim_law env rec now t ret t' :
  table_ok t -> time_ok now -> time_ok (ir_CreatedAt (with_created rec now)) -> time_ok (ir_ExpiresAt rec) ->
  SQLite_Claim general env rec now t = (ret, t') ->
  let '(sret, v') := ledger_claim (round_rec tl_round (with_created rec now)) (tl_round now) (sql_view t) in
  table_ok t' /\ done_or_failed (fun r => exists e, r = claim_error e) (fun r => claim_agree r sret)
                   (sql_view t) v' (sql_view t') ret.
Proof.
  intros Ht Hn Hc He Heq. pose proof (sql_reserve t (with_created rec now) now Ht Hn Hc He) as Hres.
  unfold SQLite_Claim in Heq. cbv zeta in Heq.
  destruct (sql_insert _ _ _) as [affected t2], (ledger_claim _ _ _) as [sret v'].
  destruct Hres as (Ht2 & Hv & Hcase).
  destruct (tf_begin _); [simplify_eq; by apply claim_failed|]. destruct (tf_purge _); [simplify_eq; by apply claim_failed|].
  destruct (tf_insert _); [simplify_eq; by apply claim_failed|]. destruct (tf_affected _); [simplify_eq; by apply claim_failed|].
  destruct Hcase as [(-> & Ho & Hce)|(-> & r & Hr & ->)]; cbn [Z.eqb Pos.eqb] in Heq.
  - eapply tx_commit_law in Heq; eauto. unfold claim_agree. cbn. rewrite Ho, Hce. done.
  - unfold SQLite_scan in Heq. rewrite Hr in Heq.
    destruct (tf_select _) as [[e|]|]; [simplify_eq; by apply claim_failed..|].
    eapply tx_commit_law in Heq; eauto. unfold claim_agree. by rewrite claim_existing_round.
Qed.

Definition sqlite_laws : @IdemLaws SQLite_table sql_env (sqlite_store general).
Proof.
  refine {| il_view := sql_view; il_inv := table_ok; il_time := time_ok; il_round := tl_round |}.
  - intros f rec now w ret w' Hw Hn Hc He Heq. by apply (SQLite_Claim_law f).
  - intros f rec w e w' Hw Heq. eapply sql_exec_law in Heq; eauto using sql_update_law.
  - intros f tenant key w e w' Hw Heq. eapply sql_exec_law in Heq; eauto using sql_delete_law.
  - intros f tenant key now w rec Hw Hn Heq. cbn in Heq. unfold SQLite_Get, SQLite_scan in Heq.
    destruct (tf_select _) as [[?|]|]; [done..|].
    destruct (match w !! (tenant, key) with Some r => _ | None => _ end) as [r|] eqn:E; [|done].
    simplify_eq. by apply (sql_get_law w (tenant, key) now r).
  - intros f now limit w r w' Hw Hn Heq. cbn in Heq. unfold SQLite_DeleteExpired in Heq. cbv zeta in Heq.
    destruct (exec_stmt _ _ _ _) as [e t'] eqn:E. simplify_eq. by eapply sql_sweep_law in E.
Defined.

(** *** Without failures SQLite is the ledger *)

(** A driver without failures that scans in a given order. *)
Definition calm_scan (scan : list ikey) : sql_env := mkSqlEnv no_faults None scan.

Lemma SQLite_Claim_calm scan rec now t :
  table_ok t -> time_ok now -> time_ok (ir_CreatedAt (with_created rec now)) -> time_ok (ir_ExpiresAt rec) ->
  let '(ret, t') := SQLite_Claim general (calm_scan scan) rec now t in
  let '(sret, v') := ledger_claim (with_created rec now) now (sql_view t) in
  table_ok t' /\ sql_view t' = v' /\ claim_agree ret sret.
Proof.
  intros Ht Hn Hc He. pose proof (sql_reserve t (with_created rec now) now Ht Hn Hc He) as Hres.
  change (tl_round now) with now in Hres. rewrite round_rec_id in Hres.
  unfold SQLite_Claim. cbv zeta. cbn [calm_scan se_tx no_faults tf_begin tf_purge tf_insert tf_affected].
  destruct (sql_insert _ _ _) as [affected t2], (ledger_claim _ _ _) as [sret v'].
  destruct Hres as (Ht2 & Hv & [(-> & Ho & Hce)|(-> & r & Hr & ->)]); cbn [Z.eqb Pos.eqb].
  - split_and!; [done|done|]. unfold claim_agree. cbn. by rewrite Ho, Hce.
  - unfold SQLite_scan. cbn [tf_select]. rewrite Hr. split_and!; [done|done|]. done.
Qed.
End SQLiteLaws.

(** Histories of calls, sweeps included. *)
Inductive iop : Type :=
  | OpClaim (rec : IdempotencyRecord) (now : Z)
  | OpComplete (rec : IdempotencyRecord)
  | OpDelete (tenant key : string)
  | OpGet (tenant key : string) (now : Z)
  | OpSweep (now limit : Z).

Inductive answer : Type :=
  | AnsClaim (r : claim_ret)
  | AnsErr (e : option error)
  | AnsGet (r : result error IdempotencyRecord)
  | AnsSweep (limit : Z) (r : Z * option error).

Definition op_times (o : iop) : Prop :=
  match o with
  | OpClaim rec now => time_ok now /\ time_ok (ir_CreatedAt (with_created rec now)) /\ time_ok (ir_ExpiresAt rec)
  | OpGet _ _ now | OpSweep now _ => time_ok now
  | _ => True
  end.

(** No claim and no lookup is made at a time before a sweep that came earlier
    (or before [T]). Without sweeps the clock may do anything. *)
Fixpoint past_sweeps (T : Z) (ops : list iop) : Prop :=
  match ops with
  | [] => True
  | OpClaim _ now :: ops | OpGet _ _ now :: ops => T <= now /\ past_sweeps T ops
  | OpSweep now _ :: ops => past_sweeps (Z.max T now) ops
  | _ :: ops => past_sweeps T ops
  end.

Section Histories.
Context {W F : Type} `{IdempotencyStore W F}.

Definition do_op (env : F) (o : iop) (w : W) : answer * W :=
  match o with
  | OpClaim rec now => let '(r, w) := ClaimIdempotencyKey env rec now w in (AnsClaim r, w)
  | OpComplete rec => let '(e, w) := CompleteIdempotencyKey env rec w in (AnsErr e, w)
  | OpDelete t k => let '(e, w) := DeleteIdempotencyKey env t k w in (AnsErr e, w)
  | OpGet t k now => (AnsGet (GetIdempotencyKey env t k now w), w)
  | OpSweep now limit => let '(r, w) := DeleteExpiredIdempotencyKeys env now limit w in (AnsSweep (sweep_limit limit) r, w)
  end.

Fixpoint answers (ops : list (F * iop)) (w : W) : list answer :=
  match ops with [] => [] | (env, o) :: ops => let '(a, w) := do_op env o w in a :: answers ops w end.
End Histories.

(** Equal answers; completing a key that is not there is an error in memory and
    silently nothing in SQL. Two sweeps cut off by their limit may pick different
    rows, so their counts are only held to the limit. *)
Definition answer_agree (sql mem : answer) : Prop :=
  match sql, mem with
  | AnsClaim a, AnsClaim b => claim_agree a b
  | AnsErr a, AnsErr b => a = b \/ a = None /\ b = Some (Sentinel ErrNotFound)
  | AnsGet a, AnsGet b => a = b
  | AnsSweep l (n, e), AnsSweep l' (n', e') => l = l' /\ e = None /\ e' = None /\ 0 <= n <= l /\ 0 <= n' <= l
  | _, _ => False
  end.

(** *** Ledgers that differ only in expired rows *)

Definition gone_at (T : Z) (o : option IdempotencyRecord) : Prop :=
  match o with Some r => ir_ExpiresAt r <= T | None => True end.
Definition same_live (T : Z) (v m : ledger) : Prop :=
  forall k, v !! k = m !! k \/ gone_at T (v !! k) /\ gone_at T (m !! k).

Lemma gone_later T T' o : T <= T' -> gone_at T o -> gone_at T' o.
Proof. destruct o; cbn; [lia|done]. Qed.

Lemma same_live_insert T v m k r : same_live T v m -> same_live T (<[k := r]> v) (<[k := r]> m).
Proof.
  intros Hs j. destruct (decide (j = k)) as [->|Hne]; [left; by rewrite !lookup_insert_eq|].
  by rewrite !lookup_insert_ne.
Qed.

Lemma same_live_delete T v m k : same_live T v m -> same_live T (delete k v) (delete k m).
Proof.
  intros Hs j. destruct (decide (j = k)) as [->|Hne]; [left; by rewrite !lookup_delete_eq|].
  by rewrite !lookup_delete_ne.
Qed.

Lemma same_live_complete T v m rec : same_live T v m -> same_live T (ledger_complete rec v) (ledger_complete rec m).
Proof.
  intros Hs j. unfold ledger_complete. destruct (decide (j = key_of rec)) as [->|Hne]; [|by rewrite !lookup_alter_ne].
  rewrite !lookup_alter_eq. destruct (Hs (key_of rec)) as [->|[H1 H2]]; [by left|]. right.
  destruct (v !! key_of rec), (m !! key_of rec); cbn in *; done.
Qed.

Lemma same_live_claim T v m rec now : same_live T v m -> T <= now ->
  (ledger_claim rec now v).1 = (ledger_claim rec now m).1 /\
  same_live T (ledger_claim rec now v).2 (ledger_claim rec now m).2.
Proof.
  intros Hs HT. unfold ledger_claim. destruct (Hs (key_of rec)) as [->|[H1 H2]].
  - destruct (m !! key_of rec) as [r|]; [destruct (_ <=? now)|]; cbn; auto using same_live_insert.
  - destruct (v !! key_of rec) as [r|], (m !! key_of rec) as [r'|]; cbn in H1, H2;
      rewrite ?(proj2 (Z.leb_le (ir_ExpiresAt r) now)), ?(proj2 (Z.leb_le (ir_ExpiresAt r') now)) by lia;
      cbn; auto using same_live_insert.
Qed.

Lemma same_live_get T v m k now : same_live T v m -> T <= now -> ledger_get k now v = ledger_get k now m.
Proof.
  intros Hs HT. unfold ledger_get. destruct (Hs k) as [->|[H1 H2]]; [done|].
  destruct (v !! k) as [r|], (m !! k) as [r'|]; cbn in H1, H2;
    by rewrite ?(proj2 (Z.leb_le (ir_ExpiresAt r) now)), ?(proj2 (Z.leb_le (ir_ExpiresAt r') now)) by lia.
Qed.

Lemma same_live_swept T v m now v' m' : same_live T v m -> swept now v v' -> swept now m m' -> same_live (Z.max T now) v' m'.
Proof.
  intros Hs Hv Hm j.
  assert (Hg : forall o, gone_at T o -> gone_at (Z.max T now) o) by (intros o; apply gone_later; lia).
  destruct (Hs j) as [E|[H1 H2]], (Hv j) as [Ev|(Ev & r & Er & Hr)], (Hm j) as [Em|(Em & r' & Er' & Hr')];
    rewrite ?Ev, ?Em; auto; right; split; cbn; auto.
  - rewrite E, Er'. cbn. lia.
  - rewrite <- E, Er. cbn. lia.
Qed.

Lemma same_live_refl T v : same_live T v v.
Proof. intros k. by left. Qed.

Lemma Memory_Complete_ledger rec m :
  (Memory_Complete rec m).2 = ledger_complete rec m /\
  ((Memory_Complete rec m).1 = None \/ (Memory_Complete rec m).1 = Some (Sentinel ErrNotFound)).
Proof.
  unfold Memory_Complete, ledger_complete. destruct (m !! key_of rec) as [ex|] eqn:E; cbn; (split; [|by auto]);
    apply map_eq; intros j; destruct (decide (j = key_of rec)) as [->|Hne].
  - by rewrite lookup_insert_eq, lookup_alter_eq, E.
  - by rewrite lookup_insert_ne, lookup_alter_ne.
  - by rewrite lookup_alter_eq, E.
  - by rewrite lookup_alter_ne.
Qed.

Lemma Memory_Get_ledger t k now m :
  Memory_Get t k now m = match ledger_get (t, k) now m with Some r => Ok r | None => Err (Sentinel ErrNotFound) end.
Proof. unfold Memory_Get, ledger_get. destruct (m !! (t, k)); [|done]. by destruct (_ <=? now). Qed.

Lemma Memory_sweep_loop_count scan now limit : forall n m, 0 <= n < limit ->
  n <= (Memory_sweep_loop scan now limit n m).1 <= limit.
Proof.
  induction scan as [|ck scan IH]; cbn; intros n m Hn; [lia|]. destruct (m !! ck) as [r|]; [|by apply IH].
  destruct (_ <=? now); [|by apply IH]. destruct (Z.leb_spec limit (n + 1)); [cbn; lia|].
  specialize (IH (n + 1) (delete ck m)). lia.
Qed.

Section SQLiteMemory.
Context (general : string -> option Z).
#[local] Instance text_time' : TimeColumn string := sqlite_time general.
#[local] Instance text_time_laws' : TimeColumnLaws string := sqlite_time_laws general.

Lemma SQLite_Get_ledger (scan : list ikey) (t k : string) (now : Z) (tb : SQLite_table) : table_ok tb -> time_ok now ->
  SQLite_Get general (calm_scan scan) t k now tb =
  match ledger_get (t, k) now (sql_view tb) with Some r => Ok r | None => Err (Sentinel ErrNotFound) end.
Proof.
  intros Ht Hn. unfold SQLite_Get, SQLite_scan, ledger_get. cbn [calm_scan se_tx no_faults tf_select].
  rewrite sql_view_lookup. destruct (tb !! (t, k)) as [r|] eqn:E; [|done]. cbn [fmap option_fmap option_map].
  destruct (Ht _ _ E) as [_ Hre]. pose proof (tl_leb (sr_expires_at r) now Hre Hn) as Hle.
  cbn [scan_row ir_ExpiresAt]. change (tl_round now) with now in Hle. unfold text_time' in Hle. rewrite Hle. by destruct (_ <=? now).
Qed.

Lemma sweeps_agree (scan mscan : list ikey) (now limit : Z) (t : SQLite_table) (m : ledger) (T : Z) : table_ok t -> time_ok now -> same_live T (sql_view t) m ->
  let '(r, t') := SQLite_DeleteExpired general (calm_scan scan) now limit t in
  let '(r', m') := Memory_DeleteExpired mscan now limit m in
  answer_agree (AnsSweep (sweep_limit limit) r) (AnsSweep (sweep_limit limit) r') /\ table_ok t' /\
  same_live (Z.max T now) (sql_view t') m'.
Proof.
  intros Ht Hn Hs. assert (Hl : 0 < sweep_limit limit) by (unfold sweep_limit; destruct (Z.leb_spec limit 0); [done|lia]).
  unfold SQLite_DeleteExpired, Memory_DeleteExpired. cbv zeta. cbn [calm_scan se_scan exec_stmt se_exec].
  set (ks := expired_keys _ _ _ _).
  destruct (delete_keys_swept now ks t Ht Hn (expired_keys_expired scan _ _ t)) as [Ht' Hv].
  destruct (Memory_sweep_loop mscan now (sweep_limit limit) 0 m) as [n m'] eqn:E.
  pose proof (Memory_sweep_loop_swept _ _ _ _ _ _ _ E) as Hm.
  pose proof (Memory_sweep_loop_count mscan now (sweep_limit limit) 0 m ltac:(lia)) as Hc. rewrite E in Hc. cbn in Hc.
  split; [|split; [exact Ht'|exact (same_live_swept _ _ _ _ _ _ Hs Hv Hm)]]. cbn. split_and!; try done; try lia.
  unfold ks, expired_keys. rewrite length_take. lia.
Qed.

Lemma do_op_agree (scan mscan : list ikey) (o : iop) (t : SQLite_table) (m : ledger) (T : Z) :
  table_ok t -> op_times o -> past_sweeps T [o] -> same_live T (sql_view t) m ->
  let '(a, t') := @do_op _ _ (sqlite_store general) (calm_scan scan) o t in
  let '(b, m') := do_op mscan o m in
  answer_agree a b /\ table_ok t' /\ same_live (match o with OpSweep now _ => Z.max T now | _ => T end) (sql_view t') m'.
Proof.
  intros Ht Ho HT Hs. destruct o as [rec now|rec|tn k|tn k now|now limit]; unfold do_op;
    cbn [ClaimIdempotencyKey CompleteIdempotencyKey DeleteIdempotencyKey GetIdempotencyKey DeleteExpiredIdempotencyKeys sqlite_store memory_store].
  - destruct Ho as (Hn & Hc & He). destruct HT as [HT _].
    pose proof (SQLite_Claim_calm general scan rec now t Ht Hn Hc He) as Hcalm.
    destruct (same_live_claim T _ _ (with_created rec now) now Hs HT) as [Hr Hv].
    rewrite Memory_Claim_ledger. destruct (SQLite_Claim _ _ _ _ _) as [r t'].
    destruct (ledger_claim _ _ (sql_view t)) as [sr v'], (ledger_claim _ _ m) as [mr m']. cbn in Hr, Hv. subst mr.
    destruct Hcalm as (? & Hv' & ?). split_and!; [done|done|]. cbn [snd] in Hv. by rewrite <- Hv' in Hv.
  - destruct (Memory_Complete_ledger rec m) as [Hv Ha]. destruct (Memory_Complete rec m) as [b m']. cbn in Hv, Ha. subst m'.
    unfold SQLite_Complete, exec_stmt. cbn [calm_scan se_exec]. split_and!; [|by apply table_ok_update|].
    + destruct Ha as [-> | ->]; cbn; auto.
    + rewrite sql_view_update. by apply same_live_complete.
  - unfold SQLite_Delete, exec_stmt, Memory_Delete. cbn [calm_scan se_exec].
    split_and!; [by left|by apply table_ok_delete|rewrite sql_view_delete; by apply same_live_delete].
  - destruct HT as [HT _]. split_and!; [|done|done]. unfold answer_agree.
    by rewrite (SQLite_Get_ledger scan), Memory_Get_ledger, (same_live_get T _ _ _ _ Hs HT).
  - pose proof (sweeps_agree scan mscan now limit t m T Ht Ho Hs) as Hsw.
    by destruct (SQLite_DeleteExpired _ _ _ _ _) as [r t'], (Memory_DeleteExpired _ _ _ _) as [r' m'].
Qed.

(** C39: without driver failures the SQLite ledger, whose times are text, gives
    over every history of claims, completions, deletions, lookups and sweeps of
    expired keys the answers of the in-memory ledger, for instants with four-digit
    years and no claim or lookup timed before an earlier sweep, in whatever order
    either store visits its rows. Two differences remain: completing a missing key
    is an error in memory and a silent no-op in SQL, and a sweep may delete other
    expired rows, within its limit, than the other store's. *)
Theorem sqlite_ledger_refines_memory (T : Z) (ops : list (list ikey * list ikey * iop)) :
  Forall op_times ops.*2 -> past_sweeps T ops.*2 ->
  Forall2 answer_agree
    (@answers _ _ (sqlite_store general) ((fun x => (calm_scan x.1.1, x.2)) <$> ops) ∅)
    (answers ((fun x => (x.1.2, x.2)) <$> ops) NewMemoryIdempotencyStore).
Proof.
  assert (Hgen : forall T t m, table_ok t -> same_live T (sql_view t) m -> Forall op_times ops.*2 -> past_sweeps T ops.*2 ->
    Forall2 answer_agree (@answers _ _ (sqlite_store general) ((fun x => (calm_scan x.1.1, x.2)) <$> ops) t)
      (answers ((fun x => (x.1.2, x.2)) <$> ops) m)).
  { induction ops as [|[[sc msc] o] ops' IH]; intros T' t m Ht Hs Hops HT; [constructor|].
    rewrite !fmap_cons in *. cbn [fst snd] in *. inversion_clear Hops as [|? ? Ho Hrest].
    assert (Ho1 : past_sweeps T' [o]) by (destruct o; cbn in *; naive_solver).
    pose proof (do_op_agree sc msc o t m T' Ht Ho Ho1 Hs) as Hop. cbn [answers].
    destruct (@do_op _ _ _ (calm_scan sc) o t) as [a t'], (do_op msc o m) as [b m'].
    destruct Hop as (Hab & Ht' & Hs'). constructor; [done|]. eapply IH; [done|exact Hs'|done|].
    destruct o; cbn in *; naive_solver. }
  intros Hops HT. apply (Hgen T); [apply map_Forall_empty| |done|done].
  intros k. left. by rewrite sql_view_lookup, !lookup_empty.
Qed.
End SQLiteMemory.

(** A claim, its completion, a retry, a retry with another body, and a sweep that
    finds the row in memory only. *)
Definition demo_rec : IdempotencyRecord := mkIdem "t" "k" "h" "POST" "/x" 0 "" "" 1000 (1000 + Minute).
Definition demo_ops : list (list ikey * list ikey * iop) :=
  (fun o => ([], [("t", "k")], o)) <$>
  [OpClaim demo_rec 1000; OpClaim demo_rec 2000; OpComplete (with_response 201 "application/json" "{}" demo_rec);
   OpClaim demo_rec 3000; OpGet "t" "k" 4000;
   OpClaim (mkIdem "t" "k" "other" "POST" "/x" 0 "" "" 1000 (1000 + Minute)) 3000; OpSweep (2 * Minute) 1;
   OpGet "t" "k" (2 * Minute); OpClaim demo_rec (3 * Minute)].

Lemma sqlite_ledger_refines_memory_witness :
  Forall2 answer_agree
    (@answers _ _ (sqlite_store (fun _ => None)) ((fun x => (calm_scan x.1.1, x.2)) <$> demo_ops) ∅)
    (answers ((fun x => (x.1.2, x.2)) <$> demo_ops) NewMemoryIdempotencyStore) /\
  map (fun a => match a with AnsClaim r => cr_outcome r | _ => NoOutcome end)
      (answers ((fun x => (x.1.2, x.2)) <$> demo_ops) NewMemoryIdempotencyStore) =
    [IdempotencyStarted; NoOutcome; NoOutcome; IdempotencyReplayed; NoOutcome; NoOutcome; NoOutcome; NoOutcome; IdempotencyStarted].
Proof.
  split; [|vm_compute; reflexivity]. apply (sqlite_ledger_refines_memory (fun _ => None) 0).
  - unfold demo_ops. cbn [fmap list_fmap snd].
    repeat (apply list.Forall_cons; split); [cbn; unfold time_ok; repeat split; vm_compute; congruence..|apply list.Forall_nil; exact I].
  - vm_compute. repeat split; congruence.
Defined.
