(* ===== verification/IdemProps.v ===== *)
(** * The idempotency middleware executes once (internal/api/idempotency.go)

    Any number of replicas serve requests over one store that follows [IdemLaws];
    steps interleave freely, store calls may fail with or without effect, handlers
    return anything or panic. While no claim of the history has expired, a key is
    held by at most one execution that did not fail, and what is replayed is what
    that execution answered. *)

From S2P Require Import Prelude GoStrings StoreErrors IdemStore IdemApi IdemLedger.
From Stdlib Require Import Ascii String.
Local Open Scope Z_scope.
Local Notation length := List.length.

(** ** Facts about the ledger's operations *)

Lemma ledger_claim_keeps rec now v k row :
  v !! k = Some row -> now < ir_ExpiresAt row -> (ledger_claim rec now v).2 !! k = Some row.
Proof.
  intros Hk Hexp. unfold ledger_claim. destruct (decide (k = key_of rec)) as [->|Hne].
  - rewrite Hk. destruct (Z.leb_spec (ir_ExpiresAt row) now); [lia|done].
  - destruct (v !! key_of rec) as [ex|]; [destruct (ir_ExpiresAt ex <=? now); [|done]|];
      cbn; by rewrite lookup_insert_ne.
Qed.

Lemma ledger_claim_new rec now v k row :
  (ledger_claim rec now v).2 !! k = Some row ->
  v !! k = Some row \/ k = key_of rec /\ row = with_response 0 "" "" rec.
Proof.
  unfold ledger_claim. intros Hk. destruct (decide (k = key_of rec)) as [->|Hne].
  - destruct (v !! key_of rec) as [ex|] eqn:E; [destruct (ir_ExpiresAt ex <=? now)|]; cbn in Hk;
      rewrite ?lookup_insert_eq, ?E in Hk; simplify_eq; auto.
  - left. destruct (v !! key_of rec) as [ex|]; [destruct (ir_ExpiresAt ex <=? now)|]; cbn in Hk;
      rewrite ?lookup_insert_ne in Hk; done.
Qed.

Lemma ledger_claim_started rec now v :
  cr_outcome (ledger_claim rec now v).1 = IdempotencyStarted ->
  (ledger_claim rec now v).2 !! key_of rec = Some (with_response 0 "" "" rec) /\
  forall row, v !! key_of rec = Some row -> ir_ExpiresAt row <= now.
Proof.
  unfold ledger_claim, claim_existing, claim_error. destruct (v !! key_of rec) as [ex|] eqn:E.
  - destruct (Z.leb_spec (ir_ExpiresAt ex) now); [|repeat split_if; done].
    intros _. cbn [snd]. rewrite lookup_insert_eq. split; [done|]. intros row [= <-]. done.
  - intros _. cbn [snd]. rewrite lookup_insert_eq. split; [done|]. done.
Qed.

Lemma ledger_claim_replayed rec now v :
  cr_outcome (ledger_claim rec now v).1 = IdempotencyReplayed ->
  let row := cr_rec (ledger_claim rec now v).1 in
  v !! key_of rec = Some row /\ same_request row rec = true /\ ir_StatusCode row <> 0.
Proof.
  unfold ledger_claim, claim_existing, claim_error. destruct (v !! key_of rec) as [ex|] eqn:E; [|done].
  destruct (ir_ExpiresAt ex <=? now); [done|].
  destruct (same_request ex rec) eqn:Hs; [|done]. destruct (Z.eqb_spec (ir_StatusCode ex) 0); [done|]. by intros _.
Qed.

(** ** Where a request stands *)

(** The request holds the reservation of its key. *)
Definition reserving (p : phase) : bool :=
  match p with PServe | PStore _ | PAbort => true | _ => false end.

(** The request executed its handler, which did not fail on the server side. *)
Definition settled (p : phase) : option recorder :=
  match p with
  | PClose (Executed r) | PDone (Executed r) => if 500 <=? rec_status r then None else Some r
  | _ => None
  end.

Definition effective (p : phase) : Prop := reserving p = true \/ is_Some (settled p).

Definition replay_of (p : phase) : option IdempotencyRecord :=
  match p with PClose (Replay rec) | PDone (Replay rec) => Some rec | _ => None end.

Lemma reserving_settled p : reserving p = true -> settled p = None.
Proof. by destruct p. Qed.

(** The record belongs to the request: same fingerprint. *)
Definition finger (c : call) (r : IdempotencyRecord) : Prop :=
  ir_RequestHash r = ca_hash c /\ ir_Method r = ca_method c /\ ir_Path r = ca_path c.

(** The record carries the recorded response. *)
Definition content (row : IdempotencyRecord) (r : recorder) : Prop :=
  ir_StatusCode row = rec_status r /\ ir_ContentType row = rec_contentType r /\ ir_ResponseBody row = rc_body r.

Lemma same_request_finger row c : same_request row (candidate c) = true <-> finger c row.
Proof.
  unfold same_request, finger. cbn [candidate ir_RequestHash ir_Method ir_Path].
  rewrite !andb_true_iff, !bool_decide_eq_true. tauto.
Qed.

Section Props.
Context {W F : Type} `{IdemLaws W F}.
(** No claim of the history has expired at [hi], and every clock reading is
    before it; [v0] is the ledger at the start. *)
Context (hi : Z) (v0 : ledger).
Implicit Types (s : sys W) (k : ikey).

Definition view s : ledger := il_view (sy_store s).

Definition call_in_window (c : call) : Prop :=
  il_time (ca_now c) /\ il_time (ca_now c + ca_ttl c) /\
  il_round (ca_now c) < hi /\ hi <= il_round (ca_now c + ca_ttl c).

Definition label_in_window (l : label F) s : Prop :=
  match l with
  | LArrive _ rep _ now =>
      let ttl := co_ttl (coord_of s rep) in
      il_time now /\ il_time (now + ttl) /\ il_round now < hi /\ hi <= il_round (now + ttl)
  | LSweep _ now _ => il_time now /\ il_round now < hi
  | _ => True
  end.

(** The states of a history within the window. *)
Inductive reach : sys W -> Prop :=
  | reach_start w : il_inv w -> il_view w = v0 -> reach (start w)
  | reach_step s l s' : reach s -> label_in_window l s -> sys_step l s = Some s' -> reach s'.

(** A replayed record is what an execution of the same request answered, or was in
    the ledger at the start. *)
Definition genuine s k (rec : IdempotencyRecord) : Prop :=
  (exists j t r, sy_threads s !! j = Some t /\ settled (th_phase t) = Some r /\ ca_key (th_call t) = k /\
                 finger (th_call t) rec /\ content rec r) \/
  (exists row, v0 !! k = Some row /\ same_request row rec = true /\
               ir_StatusCode row = ir_StatusCode rec /\ ir_ContentType row = ir_ContentType rec /\
               ir_ResponseBody row = ir_ResponseBody rec).

(** The row an effective request owns. *)
Definition owned_row s (t : thread) : Prop :=
  exists row, view s !! ca_key (th_call t) = Some row /\ hi <= ir_ExpiresAt row /\ finger (th_call t) row /\
    (ir_StatusCode row = 0 \/ exists r, settled (th_phase t) = Some r /\ content row r).

Definition slot_ok s (t : thread) (sl : slot) : Prop :=
  sl_requestHash sl = ca_hash (th_call t) /\ sl_method sl = ca_method (th_call t) /\ sl_path sl = ca_path (th_call t) /\
  (sl_failed sl = false -> 0 < ir_StatusCode (sl_rec sl) ->
   genuine s (ca_key (th_call t)) (sl_rec sl) /\ finger (th_call t) (sl_rec sl)).

Record Inv s : Prop := mkInv {
  inv_store : il_inv (sy_store s);
  inv_window i t : sy_threads s !! i = Some t -> (forall o, th_phase t <> PDone o) -> call_in_window (th_call t);
  inv_row i t : sy_threads s !! i = Some t -> effective (th_phase t) -> owned_row s t;
  inv_unique i j t u : sy_threads s !! i = Some t -> sy_threads s !! j = Some u ->
    effective (th_phase t) -> effective (th_phase u) -> ca_key (th_call t) = ca_key (th_call u) -> i = j;
  inv_genuine k row : view s !! k = Some row -> ir_StatusCode row <> 0 -> genuine s k row;
  inv_slots i sl : sy_slots s !! i = Some sl -> exists t, sy_threads s !! i = Some t /\ slot_ok s t sl;
  inv_wait i t j : sy_threads s !! i = Some t -> th_phase t = PWait j ->
    exists u, sy_threads s !! j = Some u /\ ca_key (th_call u) = ca_key (th_call t);
  inv_inflight rep k j : co_inFlight (coord_of s rep) !! k = Some j ->
    exists u, sy_threads s !! j = Some u /\ ca_key (th_call u) = k;
  inv_replay i t rec : sy_threads s !! i = Some t -> replay_of (th_phase t) = Some rec ->
    genuine s (ca_key (th_call t)) rec /\ finger (th_call t) rec }.

(** *** Steps of one request *)

(** Recorded executions stay recorded. *)
Definition settled_kept s s' : Prop :=
  forall j t r, sy_threads s !! j = Some t -> settled (th_phase t) = Some r ->
    exists t', sy_threads s' !! j = Some t' /\ th_call t' = th_call t /\ settled (th_phase t') = Some r.

Lemma genuine_mono s s' k rec : settled_kept s s' -> genuine s k rec -> genuine s' k rec.
Proof.
  intros Hk [(j & t & r & Hj & Hs & Hkey & Hf & Hc)|Hg]; [left|by right].
  destruct (Hk j t r Hj Hs) as (t' & Hj' & Hcall & Hs'). exists j, t', r. by rewrite Hcall.
Qed.

Lemma slot_ok_mono s s' t t' sl : settled_kept s s' -> th_call t' = th_call t -> slot_ok s t sl -> slot_ok s' t' sl.
Proof.
  intros Hk Hc (H1 & H2 & H3 & H4). unfold slot_ok. rewrite Hc. split_and!; [done..|].
  intros Hf Hp. destruct (H4 Hf Hp). split; [by eapply genuine_mono|done].
Qed.

(** What a step of request [i] may do, for the invariant to be kept. *)
Record step_ok s s' (i : nat) (t t' : thread) : Prop := mkStepOk {
  so_threads : sy_threads s' = <[i := t']> (sy_threads s);
  so_call : th_call t' = th_call t;
  so_store : il_inv (sy_store s');
  so_keep k row : view s !! k = Some row -> hi <= ir_ExpiresAt row ->
    k <> ca_key (th_call t) \/ reserving (th_phase t) = false -> view s' !! k = Some row;
  so_new k row : view s' !! k = Some row -> ir_StatusCode row <> 0 -> view s !! k = Some row \/ genuine s' k row;
  so_live : (forall o, th_phase t <> PDone o);
  so_settled r : settled (th_phase t) = Some r -> settled (th_phase t') = Some r;
  so_self : effective (th_phase t') -> owned_row s' t';
  so_unique : effective (th_phase t') -> effective (th_phase t) \/
    forall j u, sy_threads s !! j = Some u -> effective (th_phase u) -> ca_key (th_call u) <> ca_key (th_call t);
  so_slots j sl : sy_slots s' !! j = Some sl -> sy_slots s !! j = Some sl \/ j = i /\ slot_ok s' t' sl;
  so_wait j : th_phase t' = PWait j -> exists u, sy_threads s !! j = Some u /\ ca_key (th_call u) = ca_key (th_call t);
  so_inflight rep k j : co_inFlight (coord_of s' rep) !! k = Some j ->
    co_inFlight (coord_of s rep) !! k = Some j \/ j = i /\ k = ca_key (th_call t);
  so_replay rec : replay_of (th_phase t') = Some rec -> genuine s' (ca_key (th_call t)) rec /\ finger (th_call t) rec }.

Lemma step_settled_kept s s' i t t' : sy_threads s !! i = Some t -> step_ok s s' i t t' -> settled_kept s s'.
Proof.
  intros Hi Hso j u r Hj Hr. rewrite (so_threads _ _ _ _ _ Hso).
  destruct (decide (j = i)) as [->|Hne]; [|rewrite lookup_insert_ne by done; eauto].
  rewrite lookup_insert_eq. simplify_eq. exists t'. split_and!; [done|apply Hso|by apply Hso].
Qed.

(** A thread of the new state is the one that moved, or an old one. *)
Lemma step_thread s s' i t t' j u : sy_threads s !! i = Some t -> step_ok s s' i t t' ->
  sy_threads s' !! j = Some u -> j = i /\ u = t' \/ j <> i /\ sy_threads s !! j = Some u.
Proof.
  intros Hi Hso. rewrite (so_threads _ _ _ _ _ Hso). destruct (decide (j = i)) as [->|Hne].
  - rewrite lookup_insert_eq. intros [= <-]. by left.
  - rewrite lookup_insert_ne by done. by right.
Qed.

(** An old thread, with the same call, in the new state. *)
Lemma step_thread_back s s' i t t' j u : sy_threads s !! i = Some t -> step_ok s s' i t t' ->
  sy_threads s !! j = Some u -> exists u', sy_threads s' !! j = Some u' /\ th_call u' = th_call u.
Proof.
  intros Hi Hso Hj. rewrite (so_threads _ _ _ _ _ Hso). destruct (decide (j = i)) as [->|Hne].
  - rewrite lookup_insert_eq. simplify_eq. exists t'. split; [done|apply Hso].
  - rewrite lookup_insert_ne by done. eauto.
Qed.

Lemma step_row s s' i t t' j u : Inv s -> sy_threads s !! i = Some t -> step_ok s s' i t t' ->
  sy_threads s !! j = Some u -> j <> i -> effective (th_phase u) -> owned_row s' u.
Proof.
  intros HI Hi Hso Hj Hne He. destruct (inv_row s HI j u Hj He) as (row & Hrow & Hexp & Hf & Hst).
  exists row. split_and!; try done. eapply (so_keep _ _ _ _ _ Hso); [done|done|].
  destruct (reserving (th_phase t)) eqn:Er; [left|by right]. intros Heq. apply Hne.
  symmetry. eapply (inv_unique s HI i j t u); eauto. by left.
Qed.

Lemma step_inv s s' i t t' : Inv s -> sy_threads s !! i = Some t -> step_ok s s' i t t' -> Inv s'.
Proof.
  intros HI Hi Hso. pose proof (step_settled_kept _ _ _ _ _ Hi Hso) as Hkept. constructor.
  - apply Hso.
  - intros j u Hj Hph. destruct (step_thread _ _ _ _ _ _ _ Hi Hso Hj) as [[-> ->]|[_ Hj']]; [|by eapply (inv_window s HI)].
    rewrite (so_call _ _ _ _ _ Hso). eapply (inv_window s HI i t Hi), Hso.
  - intros j u Hj He. destruct (step_thread _ _ _ _ _ _ _ Hi Hso Hj) as [[-> ->]|[Hne Hj']]; [by apply Hso|exact (step_row s s' i t t' j u HI Hi Hso Hj' Hne He)].
  - intros j j' u u' Hj Hj' He He' Hk.
    destruct (step_thread _ _ _ _ _ _ _ Hi Hso Hj) as [[-> ->]|[Hne Hjo]],
      (step_thread _ _ _ _ _ _ _ Hi Hso Hj') as [[-> ->]|[Hne' Hjo']]; [done| | |by eapply (inv_unique s HI)];
      rewrite (so_call _ _ _ _ _ Hso) in Hk.
    + destruct (so_unique _ _ _ _ _ Hso He) as [Het|Hno]; [by eapply (inv_unique s HI)|].
      exfalso. by eapply (Hno j' u').
    + destruct (so_unique _ _ _ _ _ Hso He') as [Het|Hno]; [by eapply (inv_unique s HI)|].
      exfalso. by eapply (Hno j u).
  - intros k row Hrow Hst. destruct (so_new _ _ _ _ _ Hso k row Hrow Hst) as [Hold|Hg]; [|done].
    eapply genuine_mono; [done|]. by apply (inv_genuine s HI).
  - intros j sl Hsl. destruct (so_slots _ _ _ _ _ Hso j sl Hsl) as [Hold|[-> Hok]].
    + destruct (inv_slots s HI j sl Hold) as (u & Hj & Hok).
      destruct (step_thread_back _ _ _ _ _ j u Hi Hso Hj) as (u' & Hj' & Hc). exists u'. split; [done|]. by eapply slot_ok_mono.
    + exists t'. split; [|done]. by rewrite (so_threads _ _ _ _ _ Hso), lookup_insert_eq.
  - intros j u j' Hj Hph.
    assert (exists x, sy_threads s !! j' = Some x /\ ca_key (th_call x) = ca_key (th_call u)) as (x & Hx & Hkx).
    { destruct (step_thread _ _ _ _ _ _ _ Hi Hso Hj) as [[-> ->]|[_ Hjo]]; [|by eapply (inv_wait s HI)].
      rewrite (so_call _ _ _ _ _ Hso). by apply Hso. }
    destruct (step_thread_back _ _ _ _ _ j' x Hi Hso Hx) as (x' & Hx' & Hc). exists x'. by rewrite Hc.
  - intros rep k j Hin.
    assert (exists x, sy_threads s !! j = Some x /\ ca_key (th_call x) = k) as (x & Hx & Hkx).
    { destruct (so_inflight _ _ _ _ _ Hso rep k j Hin) as [Hold|[-> ->]]; [by eapply (inv_inflight s HI)|eauto]. }
    destruct (step_thread_back _ _ _ _ _ j x Hi Hso Hx) as (x' & Hx' & Hc). exists x'. by rewrite Hc.
  - intros j u rec Hj Hr. destruct (step_thread _ _ _ _ _ _ _ Hi Hso Hj) as [[-> ->]|[_ Hjo]].
    + rewrite (so_call _ _ _ _ _ Hso). by apply Hso.
    + destruct (inv_replay s HI j u rec Hjo Hr). split; [by eapply genuine_mono|done].
Qed.

Lemma not_effective p : reserving p = false -> settled p = None -> ~ effective p.
Proof. intros Hr Hs [Hr'|[x Hx]]; congruence. Qed.

Lemma coord_of_set_coord rep c s rep' :
  coord_of (set_coord rep c s) rep' = if decide (rep' = rep) then c else coord_of s rep'.
Proof.
  unfold coord_of, set_coord. cbn. destruct (decide (rep' = rep)) as [->|Hne];
    [by rewrite lookup_insert_eq|by rewrite lookup_insert_ne].
Qed.

(** A step that executes nothing and keeps every row that has not expired. *)
Lemma calm_step s s' i t p :
  Inv s -> sy_threads s !! i = Some t -> (forall o, th_phase t <> PDone o) ->
  sy_threads s' = <[i := mkThread (th_replica t) (th_call t) p]> (sy_threads s) ->
  il_inv (sy_store s') ->
  (forall k row, view s !! k = Some row -> hi <= ir_ExpiresAt row -> view s' !! k = Some row) ->
  (forall k row, view s' !! k = Some row -> ir_StatusCode row <> 0 -> view s !! k = Some row) ->
  (forall r, settled (th_phase t) = Some r -> settled p = Some r) ->
  (effective p -> effective (th_phase t)) ->
  (forall j sl, sy_slots s' !! j = Some sl -> sy_slots s !! j = Some sl \/
     j = i /\ (settled_kept s s' -> slot_ok s' (mkThread (th_replica t) (th_call t) p) sl)) ->
  (forall j, p = PWait j -> exists u, sy_threads s !! j = Some u /\ ca_key (th_call u) = ca_key (th_call t)) ->
  (forall rep k j, co_inFlight (coord_of s' rep) !! k = Some j ->
     co_inFlight (coord_of s rep) !! k = Some j \/ j = i /\ k = ca_key (th_call t)) ->
  (forall rec, replay_of p = Some rec -> genuine s (ca_key (th_call t)) rec /\ finger (th_call t) rec) ->
  Inv s'.
Proof.
  intros HI Hi Hlive Hth Hst Hkeep Hnew Hset Heff Hsl Hw Hin Hrep.
  assert (Hkept : settled_kept s s').
  { intros j u r Hj Hr. rewrite Hth. destruct (decide (j = i)) as [->|Hne]; [|rewrite lookup_insert_ne by done; eauto].
    rewrite lookup_insert_eq. simplify_eq. eexists. split; [done|]. split; [done|]. by apply Hset. }
  apply (step_inv s s' i t (mkThread (th_replica t) (th_call t) p) HI Hi). constructor; cbn [th_call th_phase]; auto.
  - intros He. destruct (inv_row s HI i t Hi (Heff He)) as (row & Hrow & Hexp & Hf & Hstat).
    exists row. cbn [th_call th_phase]. split_and!; [by apply Hkeep|done..|]. destruct Hstat as [?|(r & Hr & Hc)]; [by left|].
    right. exists r. split; [by apply Hset|done].
  - intros j sl Hj. destruct (Hsl j sl Hj) as [?|[-> Hok]]; auto.
  - intros rec Hr. destruct (Hrep rec Hr). split; [by eapply genuine_mono|done].
Qed.

(** A step that leaves the store alone and does not execute anything. *)
Lemma quiet_step s s' i t p :
  Inv s -> sy_threads s !! i = Some t -> (forall o, th_phase t <> PDone o) ->
  sy_threads s' = <[i := mkThread (th_replica t) (th_call t) p]> (sy_threads s) -> sy_store s' = sy_store s ->
  (forall r, settled (th_phase t) = Some r -> settled p = Some r) ->
  (effective p -> effective (th_phase t)) ->
  (forall j sl, sy_slots s' !! j = Some sl -> sy_slots s !! j = Some sl \/
     j = i /\ (settled_kept s s' -> slot_ok s' (mkThread (th_replica t) (th_call t) p) sl)) ->
  (forall j, p = PWait j -> exists u, sy_threads s !! j = Some u /\ ca_key (th_call u) = ca_key (th_call t)) ->
  (forall rep k j, co_inFlight (coord_of s' rep) !! k = Some j ->
     co_inFlight (coord_of s rep) !! k = Some j \/ j = i /\ k = ca_key (th_call t)) ->
  (forall rec, replay_of p = Some rec -> genuine s (ca_key (th_call t)) rec /\ finger (th_call t) rec) ->
  Inv s'.
Proof.
  intros HI Hi Hlive Hth Hst. assert (Hview : view s' = view s) by (unfold view; by rewrite Hst).
  apply (calm_step s s' i t p HI Hi Hlive Hth); rewrite ?Hview, ?Hst; [apply HI|done|done].
Qed.

(** The slot of a request that keeps its fingerprint and record. *)
Lemma slot_ok_same s s' t p sl : settled_kept s s' -> slot_ok s t sl ->
  slot_ok s' (mkThread (th_replica t) (th_call t) p) (close_slot sl) /\
  slot_ok s' (mkThread (th_replica t) (th_call t) p) sl /\
  slot_ok s' (mkThread (th_replica t) (th_call t) p) (fail_slot sl).
Proof.
  intros Hk Hok. destruct (slot_ok_mono s s' t (mkThread (th_replica t) (th_call t) p) sl Hk eq_refl Hok) as (H1 & H2 & H3 & H4).
  repeat split; try done; intros; by apply H4.
Qed.

Lemma own_slot s i t sl : Inv s -> sy_threads s !! i = Some t -> sy_slots s !! i = Some sl -> slot_ok s t sl.
Proof. intros HI Hi Hsl. destruct (inv_slots s HI i sl Hsl) as (u & Hu & Hok). by simplify_eq. Qed.

(** *** The steps, phase by phase *)

Ltac phase_facts Hph := rewrite Hph; first [done | by intros ? [=] | by intros [?|[? ?]]].

Lemma try_inv s i t f s' : Inv s -> sy_threads s !! i = Some t -> th_phase t = PTry ->
  thread_step i t (CGo f) s = Some s' -> Inv s'.
Proof.
  intros HI Hi Hph Hst. unfold thread_step in Hst. rewrite Hph in Hst. unfold mw_try in Hst.
  destruct (co_inFlight (coord_of s (th_replica t)) !! ca_key (th_call t)) as [j|] eqn:Hj; simplify_eq.
  - eapply (quiet_step s _ i t (PWait j) HI Hi); try done; try (phase_facts Hph).
    + intros j' sl Hsl. by left.
    + intros j' [= <-]. by apply (inv_inflight s HI (th_replica t)).
    + intros rep k j'. cbn [goto put_thread]. change (coord_of _ rep) with (coord_of (set_coord (th_replica t) (coord_of s (th_replica t)) s) rep) at 1.
      rewrite coord_of_set_coord. destruct (decide (rep = th_replica t)) as [->|]; by left.
  - eapply (quiet_step s _ i t PClaim HI Hi); try done; try (phase_facts Hph).
    + intros j' sl Hsl. cbn in Hsl. apply lookup_insert_Some in Hsl as [[<- <-]|[_ Hsl]]; [right|by left].
      split; [done|]. intros _. split_and!; first [done | cbn; lia].
    + intros rep k j'. cbn [goto put_thread set_slot].
      match goal with |- co_inFlight (coord_of _ rep) !! k = _ -> _ =>
        change (co_inFlight (coord_of (set_coord (th_replica t)
          (set_inFlight (<[ca_key (th_call t) := i]> (co_inFlight (coord_of s (th_replica t)))) (coord_of s (th_replica t))) s) rep) !! k = Some j' ->
          co_inFlight (coord_of s rep) !! k = Some j' \/ j' = i /\ k = ca_key (th_call t)) end.
      rewrite coord_of_set_coord. destruct (decide (rep = th_replica t)) as [->|]; [|by left].
      cbn. intros [[<- <-]|[_ Hk]]%lookup_insert_Some; auto.
Qed.

Lemma wait_inv s i t j ch s' : Inv s -> sy_threads s !! i = Some t -> th_phase t = PWait j ->
  thread_step i t ch s = Some s' -> Inv s'.
Proof.
  intros HI Hi Hph Hst. unfold thread_step in Hst. rewrite Hph in Hst.
  destruct ch as [f| | | |]; try done; cbn in Hst.
  - destruct (sy_slots s !! j) as [sl|] eqn:Hsl; [|done]. cbn in Hst. destruct (sl_done sl); [|done]. simplify_eq.
    destruct (inv_wait s HI i t j Hi Hph) as (u & Hu & Hku). pose proof (own_slot s j u sl HI Hu Hsl) as Hok.
    assert (Hnw : forall p, p = mw_waited (th_call t) sl -> reserving p = false /\ settled p = None /\ (forall j, p <> PWait j) /\
      forall rec, replay_of p = Some rec -> genuine s (ca_key (th_call t)) rec /\ finger (th_call t) rec).
    { intros p ->. unfold mw_waited. destruct (negb _) eqn:Efp; [done|]. destruct (negb (sl_failed sl) && (0 <? ir_StatusCode (sl_rec sl)))%bool eqn:Eok; [|done].
      split_and!; try done. intros rec [= <-]. to_prop. destruct Hok as (G1 & G2 & G3 & G4).
      destruct (G4 ltac:(done) ltac:(done)) as [Hg Hf]. rewrite <- Hku. split; [done|].
      unfold finger in *. destruct Hf as (-> & -> & ->). by split_and!; congruence. }
    destruct (Hnw _ eq_refl) as (Hr & Hs & Hw & Hrep).
    eapply (quiet_step s _ i t (mw_waited (th_call t) sl) HI Hi); try done; try (phase_facts Hph).
    + intros He. exfalso. by eapply not_effective.
    + intros j' sl' Hsl'. by left.
    + intros j' Hj'. by destruct (Hw j').
    + by left.
  - simplify_eq. eapply (quiet_step s _ i t (PDone (Failed 408 ContextErr)) HI Hi); try done; try (phase_facts Hph).
    + intros j' sl' Hsl'. by left.
    + by left.
Qed.

Lemma close_inv s i t o f s' : Inv s -> sy_threads s !! i = Some t -> th_phase t = PClose o ->
  thread_step i t (CGo f) s = Some s' -> Inv s'.
Proof.
  intros HI Hi Hph Hst. unfold thread_step in Hst. rewrite Hph in Hst.
  destruct (sy_slots s !! i) as [sl|] eqn:Hsl; [|done]. cbn [mbind option_bind] in Hst. simplify_eq.
  pose proof (own_slot s i t sl HI Hi Hsl) as Hok.
  eapply (quiet_step s _ i t (PDone o) HI Hi); try done; try (phase_facts Hph).
  - intros j sl' Hsl'. cbn in Hsl'. apply lookup_insert_Some in Hsl' as [[<- <-]|[_ Hsl']]; [right|by left].
    split; [done|]. intros Hk. by apply slot_ok_same with (s := s).
  - intros rep k j. unfold close_step. cbn [goto put_thread set_slot].
    match goal with |- co_inFlight (coord_of _ rep) !! k = _ -> _ =>
      change (co_inFlight (coord_of (set_coord (th_replica t)
        (set_inFlight (delete (ca_key (th_call t)) (co_inFlight (coord_of s (th_replica t)))) (coord_of s (th_replica t))) s) rep) !! k = Some j ->
        co_inFlight (coord_of s rep) !! k = Some j \/ j = i /\ k = ca_key (th_call t)) end.
    rewrite coord_of_set_coord. destruct (decide (rep = th_replica t)) as [->|]; [|by left].
    cbn. intros [_ Hk]%lookup_delete_Some. by left.
  - intros rec Hr. apply (inv_replay s HI i t rec Hi). rewrite Hph. by destruct o.
Qed.

Lemma serve_inv s i t ch s' : Inv s -> sy_threads s !! i = Some t -> th_phase t = PServe ->
  thread_step i t ch s = Some s' -> Inv s'.
Proof.
  intros HI Hi Hph Hst. unfold thread_step in Hst. rewrite Hph in Hst.
  destruct ch as [| | |acts|acts]; try done; simplify_eq;
    (eapply (quiet_step s _ i t _ HI Hi); try done; try (phase_facts Hph);
     [by left|by left]).
Qed.

(** A record the store returned for the request's key and that it accepted. *)
Lemma poll_inv s i t ch s' : Inv s -> sy_threads s !! i = Some t -> th_phase t = PPoll ->
  thread_step i t ch s = Some s' -> Inv s'.
Proof.
  intros HI Hi Hph Hst. unfold thread_step in Hst. rewrite Hph in Hst.
  assert (Hgive : forall sl s', sy_slots s !! i = Some sl -> s' = goto i t (PClose (Failed 409 StillInProgress)) (set_slot i (fail_slot sl) s) -> Inv s').
  { intros sl s1 Hsl ->. pose proof (own_slot s i t sl HI Hi Hsl) as Hok.
    eapply (quiet_step s _ i t _ HI Hi); try done; try (phase_facts Hph); [|by left].
    intros j sl' Hsl'. cbn in Hsl'. apply lookup_insert_Some in Hsl' as [[<- <-]|[_ Hsl']]; [right|by left].
    split; [done|]. intros Hk. by apply slot_ok_same with (s := s). }
  destruct ch as [f| | | |]; try done; (destruct (sy_slots s !! i) as [sl|] eqn:Hsl; [|done]); cbn [mbind option_bind] in Hst.
  2,3: unfold poll_giveup in Hst; simplify_eq; by eapply Hgive.
  pose proof (own_slot s i t sl HI Hi Hsl) as Hok. pose proof (inv_window s HI i t Hi ltac:(by rewrite Hph)) as (Hnow & _ & _ & _).
  unfold poll_tick in Hst.
  destruct (GetIdempotencyKey f _ _ _ _) as [rec|e] eqn:Hget; [|simplify_eq; by eapply Hgive].
  apply (il_get f) in Hget; [|apply HI|done]. unfold ledger_get in Hget.
  destruct (il_view (sy_store s) !! _) as [row|] eqn:Hrow; [|done]. destruct (_ <=? _) in Hget; [done|]. simplify_eq.
  assert (Hkey : ((ca_key (th_call t)).1, (ca_key (th_call t)).2) = ca_key (th_call t)) by (by destruct (ca_key _)).
  rewrite Hkey in Hrow.
  destruct (Z.ltb_spec 0 (ir_StatusCode rec)) as [Hpos|Hpos].
  - destruct (_ && _)%bool eqn:Efp in Hst; simplify_eq.
    + pose proof (inv_genuine s HI _ _ Hrow ltac:(lia)) as Hg. to_prop.
      assert (Hf : finger (th_call t) rec) by (destruct Hok as (G1 & G2 & G3 & _); unfold finger; split_and!; congruence).
      eapply (quiet_step s _ i t _ HI Hi); try done; try (phase_facts Hph); [|by left|by intros ? [= <-]].
      intros j sl' Hsl'. cbn in Hsl'. apply lookup_insert_Some in Hsl' as [[<- <-]|[_ Hsl']]; [right|by left].
      split; [done|]. intros Hk. destruct Hok as (G1 & G2 & G3 & _). split_and!; try done. intros _ _.
      split; [by eapply genuine_mono|done].
    + eapply (quiet_step s _ i t _ HI Hi); try done; try (phase_facts Hph); [|by left].
      intros j sl' Hsl'. cbn in Hsl'. apply lookup_insert_Some in Hsl' as [[<- <-]|[_ Hsl']]; [right|by left].
      split; [done|]. intros Hk. by apply slot_ok_same with (s := s).
  - simplify_eq. eapply (quiet_step s _ i t _ HI Hi); try done; try (phase_facts Hph); [|by left].
    intros j sl' Hsl'. cbn in Hsl'. apply lookup_insert_Some in Hsl' as [[<- <-]|[_ Hsl']]; [right|by left].
    split; [done|]. intros Hk. by apply slot_ok_same with (s := s).
Qed.

(** Changes of the store that only remove expired rows. *)
Lemma swept_keeps now v v' k row : swept now v v' -> now < hi -> v !! k = Some row -> hi <= ir_ExpiresAt row -> v' !! k = Some row.
Proof. intros Hs Hn Hk Hx. destruct (Hs k) as [E|(E & r & Hr & Hle)]; [congruence|]. simplify_eq. lia. Qed.
Lemma swept_old now v v' k row : swept now v v' -> v' !! k = Some row -> v !! k = Some row.
Proof. intros Hs Hk. destruct (Hs k) as [E|(E & _)]; congruence. Qed.

Lemma sweep_inv s i t f s' : Inv s -> sy_threads s !! i = Some t -> th_phase t = PSweep ->
  thread_step i t (CGo f) s = Some s' -> Inv s'.
Proof.
  intros HI Hi Hph Hst. unfold thread_step in Hst. rewrite Hph in Hst.
  pose proof (inv_window s HI i t Hi ltac:(by rewrite Hph)) as (Hnow & _ & Hlt & _).
  destruct (DeleteExpiredIdempotencyKeys _ _ _ _) as [r w] eqn:Hsw.
  destruct (il_sweep _ _ _ _ _ _ (inv_store s HI) Hnow Hsw) as [Hw Hs]. simplify_eq.
  apply (step_inv s _ i t (mkThread (th_replica t) (th_call t) PTry) HI Hi). constructor; try done; cbn [th_phase].
  - intros k row Hrow Hx _. by eapply swept_keeps.
  - intros k row Hrow Hne. left. by eapply swept_old.
  - by rewrite Hph.
  - by rewrite Hph.
  - by intros [?|[? ?]].
  - by intros [?|[? ?]].
  - by left.
  - by left.
Qed.

Lemma expired_sweep_inv s f now limit s' : Inv s -> label_in_window (LSweep f now limit) s ->
  sys_step (LSweep f now limit) s = Some s' -> Inv s'.
Proof.
  intros HI [Hnow Hlt] Hst. cbn in Hst. destruct (DeleteExpiredIdempotencyKeys _ _ _ _) as [r w] eqn:Hsw.
  destruct (il_sweep _ _ _ _ _ _ (inv_store s HI) Hnow Hsw) as [Hw Hs]. simplify_eq.
  constructor; try apply HI; [done| |].
  - intros i t Hi He. destruct (inv_row s HI i t Hi He) as (row & Hrow & Hx & Hrest).
    exists row. split; [|done]. by eapply swept_keeps.
  - intros k row Hrow Hne. apply (inv_genuine s HI); [|done]. by eapply swept_old.
Qed.

Lemma claim_outcomes rec now v : cr_err (ledger_claim rec now v).1 = None ->
  cr_outcome (ledger_claim rec now v).1 = IdempotencyStarted \/ cr_outcome (ledger_claim rec now v).1 = IdempotencyReplayed.
Proof.
  unfold ledger_claim, claim_existing, claim_error. destruct (v !! key_of rec) as [ex|]; [|by left].
  destruct (_ <=? now); [by left|]. destruct (negb _); [done|]. destruct (_ =? 0); [done|by right].
Qed.

(** The slot map after the owner updated its own slot. *)
Lemma own_slot_update s s' i t p sl sl' : Inv s -> sy_threads s !! i = Some t -> sy_slots s !! i = Some sl ->
  sl' = sl \/ sl' = fail_slot sl -> sy_slots s' = <[i := sl']> (sy_slots s) ->
  forall j sl0, sy_slots s' !! j = Some sl0 -> sy_slots s !! j = Some sl0 \/
     j = i /\ (settled_kept s s' -> slot_ok s' (mkThread (th_replica t) (th_call t) p) sl0).
Proof.
  intros HI Hi Hsl Hcase -> j sl0 Hj. apply lookup_insert_Some in Hj as [[<- <-]|[_ Hj]]; [right|by left].
  split; [done|]. intros Hk. pose proof (own_slot s i t sl HI Hi Hsl) as Hok.
  destruct Hcase as [-> | ->]; by apply slot_ok_same with (s := s).
Qed.

Lemma with_created_candidate ca : with_created (candidate ca) (ca_now ca) = candidate ca.
Proof. unfold with_created, candidate. cbn. by destruct (time_IsZero (ca_now ca)). Qed.

Lemma claim_inv s i t f s' : Inv s -> sy_threads s !! i = Some t -> th_phase t = PClaim ->
  thread_step i t (CGo f) s = Some s' -> Inv s'.
Proof.
  intros HI Hi Hph Hst. unfold thread_step in Hst. rewrite Hph in Hst.
  destruct (sy_slots s !! i) as [sl|] eqn:Hsl; [|done]. cbn [mbind option_bind] in Hst. injection Hst as <-.
  pose proof (inv_window s HI i t Hi ltac:(by rewrite Hph)) as (Hnow & Hexp & Hlt & Hhi).
  unfold claim_step. destruct (ClaimIdempotencyKey f _ _ _) as [ret w] eqn:Hcl.
  apply il_claim in Hcl; [|apply HI|done|by rewrite with_created_candidate|done]. rewrite with_created_candidate in Hcl.
  set (rc := round_rec il_round (candidate (th_call t))) in *.
  assert (Hkey : key_of rc = ca_key (th_call t)) by (unfold rc, key_of; cbn; by destruct (ca_key (th_call t))).
  fold (view s) in Hcl. destruct (ledger_claim rc (il_round (ca_now (th_call t))) (view s)) as [sret v'] eqn:Hlc.
  assert (Esret : sret = (ledger_claim rc (il_round (ca_now (th_call t))) (view s)).1) by (by rewrite Hlc).
  assert (Ev' : v' = (ledger_claim rc (il_round (ca_now (th_call t))) (view s)).2) by (by rewrite Hlc).
  destruct Hcl as [Hw Hcase].
  assert (Hkeep : forall k row, view s !! k = Some row -> hi <= ir_ExpiresAt row -> il_view w !! k = Some row).
  { intros k row Hrow Hx. destruct Hcase as [[_ ->]|[_ [->| ->]]]; [|done|]; rewrite Ev'; apply ledger_claim_keeps; done || lia. }
  assert (Hnew : forall k row, il_view w !! k = Some row -> ir_StatusCode row <> 0 -> view s !! k = Some row).
  { intros k row Hrow Hne. destruct Hcase as [[_ E]|[_ [E|E]]]; rewrite E in Hrow; [|done|];
      rewrite Ev' in Hrow; apply ledger_claim_new in Hrow as [?|[_ ->]]; done. }
  destruct (after_claim ret sl) as [p sl'] eqn:Hac. unfold after_claim in Hac.
  destruct (cr_err ret) as [e|] eqn:He.
  - assert (Hp : reserving p = false /\ settled p = None /\ (forall j, p <> PWait j) /\ (forall rec, replay_of p <> Some rec) /\
      (sl' = sl \/ sl' = fail_slot sl)) by (repeat case_match; simplify_eq; auto 10).
    destruct Hp as (Hr & Hs & Hwt & Hrp & Hsl').
    eapply (calm_step s _ i t p HI Hi); try done; try (phase_facts Hph).
    + intros Heff. exfalso. by eapply not_effective.
    + by eapply own_slot_update.
    + intros j Hj. by destruct (Hwt j).
    + by left.
    + intros rec Hrec. by destruct (Hrp rec).
  - destruct Hcase as [[(Ho & Hee & Hrec) Hv]|[(e & Hre) _]]; [|by rewrite Hre in He]. rewrite He in Hee. symmetry in Hee. rewrite Esret in *.
    case_bool_decide as Hrep; simplify_eq.
    + rewrite Hrep in Ho. symmetry in Ho. pose proof (ledger_claim_replayed _ _ _ Ho) as (Hrow & Hsame & Hne).
      rewrite Hrec in * by (by rewrite Hrep). rewrite Hkey in Hrow.
      set (row := cr_rec (ledger_claim _ _ _).1) in *. clearbody row.
      assert (Hf : finger (th_call t) row) by (by apply same_request_finger).
      pose proof (inv_genuine s HI _ _ Hrow Hne) as Hg. pose proof (own_slot s i t sl HI Hi Hsl) as (G1 & G2 & G3 & _).
      eapply (calm_step s _ i t _ HI Hi); try done; try (phase_facts Hph); [|by left|by intros ? [= <-]].
      intros j sl0 Hj. cbn in Hj. apply lookup_insert_Some in Hj as [[<- <-]|[_ Hj]]; [right|by left].
      split; [done|]. intros Hk. split_and!; try done. intros _ _. split; [by eapply genuine_mono|done].
    + destruct (claim_outcomes _ _ _ Hee) as [Hstart|Hr']; [|congruence].
      pose proof (ledger_claim_started _ _ _ Hstart) as [Hrow Hfree]. rewrite Hkey in Hrow, Hfree.
      assert (Hno : forall j u, sy_threads s !! j = Some u -> effective (th_phase u) -> ca_key (th_call u) <> ca_key (th_call t)).
      { intros j u Hj Heff Hk. destruct (inv_row s HI j u Hj Heff) as (row & Hr & Hx & _). rewrite Hk in Hr.
        specialize (Hfree row Hr). lia. }
      apply (step_inv s _ i t (mkThread (th_replica t) (th_call t) PServe) HI Hi).
      constructor; cbn [th_call th_phase]; auto; try done; try (phase_facts Hph).
      * intros _. eexists. split; [unfold view; cbn [sy_store goto put_thread set_slot set_store th_call]; rewrite Ev'; exact Hrow|]. split_and!; [done|done|by left].
      * intros j sl0 Hj. cbn in Hj. apply lookup_insert_Some in Hj as [[<- <-]|[_ Hj]]; [right|by left].
        split; [done|]. eapply slot_ok_mono; [|done|exact (own_slot s i t _ HI Hi Hsl)].
        intros j u r Hj Hr. cbn. destruct (decide (j = i)) as [->|Hne2]; [simplify_eq; rewrite Hph in Hr; done|].
        rewrite lookup_insert_ne by done. eauto.
Qed.

(** Releasing the reservation: the row of the key may go, all others stay. *)
Lemma release_inv s s' i t f p w e :
  Inv s -> sy_threads s !! i = Some t -> reserving (th_phase t) = true -> ~ effective p ->
  (forall j, p <> PWait j) -> (forall rec, replay_of p <> Some rec) ->
  (forall j sl0, sy_slots s' !! j = Some sl0 -> sy_slots s !! j = Some sl0 \/
     j = i /\ exists sl, sy_slots s !! i = Some sl /\ sl0 = fail_slot sl) ->
  DeleteIdempotencyKey f (ca_key (th_call t)).1 (ca_key (th_call t)).2 (sy_store s) = (e, w) ->
  sy_threads s' = sy_threads (goto i t p s) -> sy_store s' = w -> sy_coords s' = sy_coords s -> Inv s'.
Proof.
  intros HI Hi Hres Hne Hwt Hrp Hsl Hdel Hth Hstore Hco.
  destruct (il_delete _ _ _ _ _ _ (inv_store s HI) Hdel) as [Hw Hcase].
  assert (Hkey : ((ca_key (th_call t)).1, (ca_key (th_call t)).2) = ca_key (th_call t)) by (by destruct (ca_key _)).
  rewrite Hkey in Hcase. fold (view s) in Hcase.
  assert (Hv : il_view w = view s \/ il_view w = delete (ca_key (th_call t)) (view s)) by (destruct Hcase as [[_ ?]|[_ [?|?]]]; auto).
  assert (Hset : settled (th_phase t) = None) by (by apply reserving_settled).
  apply (step_inv s _ i t (mkThread (th_replica t) (th_call t) p) HI Hi). constructor; cbn [th_call th_phase]; try done.
  - by rewrite Hstore.
  - intros k row Hrow _ [Hk|Hk]; [|congruence]. unfold view. rewrite Hstore.
    destruct Hv as [->| ->]; [done|]. by rewrite lookup_delete_ne.
  - intros k row Hrow _. left. unfold view in Hrow. rewrite Hstore in Hrow.
    destruct Hv as [E|E]; rewrite E in Hrow; [done|]. by apply lookup_delete_Some in Hrow as [_ ?].
  - intros o E. by rewrite E in Hres.
  - by rewrite Hset.
  - intros j sl0 Hj. destruct (Hsl j sl0 Hj) as [?|(-> & sl & Hsl0 & ->)]; [by left|right].
    split; [done|]. pose proof (own_slot s i t sl HI Hi Hsl0) as Hok.
    assert (Hk : settled_kept s s').
    { intros j u r Hj' Hr. rewrite Hth. cbn. destruct (decide (j = i)) as [->|Hne2]; [simplify_eq; congruence|].
      rewrite lookup_insert_ne by done. eauto. }
    by apply slot_ok_same with (s := s).
  - intros j E. by destruct (Hwt j).
  - intros rep k j. unfold coord_of. rewrite Hco. by left.
  - intros rec E. by destruct (Hrp rec).
Qed.

Lemma complete_inv s i t f r sl w e :
  Inv s -> sy_threads s !! i = Some t -> th_phase t = PStore r -> (500 <=? rec_status r) = false ->
  sy_slots s !! i = Some sl -> CompleteIdempotencyKey f (completed_record (th_call t) r) (sy_store s) = (e, w) ->
  Inv (goto i t (PClose (Executed r)) (set_slot i (record_slot (completed_record (th_call t) r) sl) (set_store w s))).
Proof.
  intros HI Hi Hph Hlt Hsl Hcomp.
  destruct (il_complete _ _ _ _ _ (inv_store s HI) Hcomp) as [Hw Hcase]. fold (view s) in Hcase.
  assert (Hkey : key_of (completed_record (th_call t) r) = ca_key (th_call t)) by (unfold key_of; cbn; by destruct (ca_key _)).
  assert (Hv : il_view w = view s \/ il_view w = ledger_complete (completed_record (th_call t) r) (view s))
    by (destruct Hcase as [[_ ?]|[_ [?|?]]]; auto).
  destruct (inv_row s HI i t Hi ltac:(rewrite Hph; by left)) as (row & Hrow & Hx & Hf & Hst).
  destruct Hst as [Hst|(r' & Hr' & _)]; [|by rewrite Hph in Hr'].
  set (t' := mkThread (th_replica t) (th_call t) (PClose (Executed r))).
  assert (Hset' : settled (th_phase t') = Some r) by (cbn; by rewrite Hlt).
  set (s' := goto _ _ _ _). assert (Hi' : sy_threads s' !! i = Some t') by (by cbn; rewrite lookup_insert_eq).
  assert (Hgen : forall rec, finger (th_call t) rec -> content rec r -> genuine s' (ca_key (th_call t)) rec).
  { intros rec Hfr Hcr. left. exists i, t', r. done. }
  assert (Hdone : forall x, finger (th_call t) x -> genuine s' (ca_key (th_call t))
      (with_response (rec_status r) (rec_contentType r) (rc_body r) x)) by (intros x Hxf; by apply Hgen).
  apply (step_inv s s' i t t' HI Hi). constructor; try done.
  - intros k x Hk _ [Hne|Hne]; [|by rewrite Hph in Hne]. change (il_view w !! k = Some x).
    destruct Hv as [->| ->]; [done|]. unfold ledger_complete. by rewrite Hkey, lookup_alter_ne.
  - intros k x Hk Hne. change (il_view w !! k = Some x) in Hk. destruct Hv as [E|E]; rewrite E in Hk; [by left|].
    unfold ledger_complete in Hk. rewrite Hkey in Hk. apply lookup_alter_Some in Hk as [(<- & y & Hy & ->)|[_ Hk]]; [right|by left].
    rewrite Hrow in Hy. simplify_eq. by apply Hdone.
  - by rewrite Hph.
  - by rewrite Hph.
  - intros _. destruct Hv as [E|E].
    + exists row. unfold view. cbn. rewrite E. auto.
    + exists (with_response (rec_status r) (rec_contentType r) (rc_body r) row). unfold view. cbn. rewrite E.
      unfold ledger_complete. rewrite Hkey, lookup_alter_eq, Hrow. split_and!; [done|done|done|]. right. exists r. by rewrite Hlt.
  - intros _. left. rewrite Hph. by left.
  - intros j sl0 Hj. cbn in Hj. apply lookup_insert_Some in Hj as [[<- <-]|[_ Hj]]; [right|by left].
    split; [done|]. destruct (own_slot s i t sl HI Hi Hsl) as (G1 & G2 & G3 & _). split_and!; try done.
    intros _ _. split; [by apply Hgen|done].
  - by left.
Qed.

Lemma store_inv s i t r f s' : Inv s -> sy_threads s !! i = Some t -> th_phase t = PStore r ->
  thread_step i t (CGo f) s = Some s' -> Inv s'.
Proof.
  intros HI Hi Hph Hst. unfold thread_step in Hst. rewrite Hph in Hst.
  destruct (sy_slots s !! i) as [sl|] eqn:Hsl; [|done]. cbn [mbind option_bind] in Hst. injection Hst as <-. unfold store_step.
  destruct (500 <=? rec_status r) eqn:E5.
  - destruct (DeleteIdempotencyKey _ _ _ _) as [e w] eqn:Hd.
    eapply (release_inv s _ i t f (PClose (Executed r))); eauto; rewrite ?Hph; try done.
    + apply not_effective; [done|]. cbn. by rewrite E5.
    + intros j sl0 Hj. cbn in Hj. apply lookup_insert_Some in Hj as [[<- <-]|[_ Hj]]; [right; eauto|by left].
  - destruct (CompleteIdempotencyKey _ _ _) as [e w] eqn:Hc. by eapply complete_inv.
Qed.

Lemma abort_inv s i t f s' : Inv s -> sy_threads s !! i = Some t -> th_phase t = PAbort ->
  thread_step i t (CGo f) s = Some s' -> Inv s'.
Proof.
  intros HI Hi Hph Hst. unfold thread_step in Hst. rewrite Hph in Hst.
  destruct (DeleteIdempotencyKey _ _ _ _) as [e w] eqn:Hd. simplify_eq.
  eapply (release_inv s _ i t f (PClose Panicked)); eauto; rewrite ?Hph; try done.
  - by apply not_effective.
Qed.

(** A new request executes nothing yet. *)
Lemma begin_inv s i rep q now : Inv s -> sy_threads s !! i = None ->
  label_in_window (LArrive i rep q now) s -> Inv (arrive i rep q now s).
Proof.
  intros HI Hi Hwin. unfold arrive. destruct (mw_enter q now (coord_of s rep)) as [en c] eqn:Hen.
  assert (Hc : co_inFlight c = co_inFlight (coord_of s rep) /\ match en with EnterCall ca _ => call_in_window ca | _ => True end).
  { unfold mw_enter in Hen. destruct (bool_decide _); [by simplify_eq|]. destruct (_ <? _); [by simplify_eq|].
    destruct (readIdempotencyBody _ _) as [b|[d|msg]]; simplify_eq; try done. }
  destruct Hc as [Hin Hca].
  set (t := match en with EnterPass => mkThread rep (no_call q now) (PDone Passed)
            | EnterRefuse st e => mkThread rep (no_call q now) (PDone (Failed st e))
            | EnterCall ca sw => mkThread rep ca (if (sw : bool) then PSweep else PTry) end).
  assert (Hs' : match en with
    | EnterPass => put_thread i (mkThread rep (no_call q now) (PDone Passed)) (set_coord rep c s)
    | EnterRefuse st e => put_thread i (mkThread rep (no_call q now) (PDone (Failed st e))) (set_coord rep c s)
    | EnterCall ca sw => put_thread i (mkThread rep ca (if (sw : bool) then PSweep else PTry)) (set_coord rep c s) end
    = put_thread i t (set_coord rep c s)) by (by destruct en). rewrite Hs'. clear Hs'.
  assert (Ht : ~ effective (th_phase t) /\ (forall j, th_phase t <> PWait j) /\ replay_of (th_phase t) = None /\
    ((forall o, th_phase t <> PDone o) -> call_in_window (th_call t))).
  { unfold t. destruct en as [|st e|ca []]; split_and!; try done; try (by apply not_effective).
    all: cbn; intros Ho; exfalso; by eapply Ho. }
  destruct Ht as (Hne & Hw & Hrp & Hwin'). clearbody t. set (s' := put_thread _ _ _).
  assert (Hold : forall j u, sy_threads s !! j = Some u -> sy_threads s' !! j = Some u).
  { intros j u Hj. cbn. rewrite lookup_insert_ne; [done|]. congruence. }
  assert (Hnew : forall j u, sy_threads s' !! j = Some u -> j = i /\ u = t \/ sy_threads s !! j = Some u).
  { intros j u Hj. cbn in Hj. apply lookup_insert_Some in Hj as [[<- <-]|[_ Hj]]; auto. }
  assert (Hkept : settled_kept s s') by (intros j u r Hj Hr; eauto).
  constructor.
  - apply HI.
  - intros j u Hj. destruct (Hnew j u Hj) as [[-> ->]|Hj']; [done|by apply (inv_window s HI j)].
  - intros j u Hj He. destruct (Hnew j u Hj) as [[-> ->]|Hj']; [done|by apply (inv_row s HI j)].
  - intros j j' u u' Hj Hj' He He'. destruct (Hnew j u Hj) as [[-> ->]|Hjo], (Hnew j' u' Hj') as [[-> ->]|Hjo'];
      [done..|]. by apply (inv_unique s HI).
  - intros k row Hrow Hs. eapply genuine_mono; [done|]. by apply (inv_genuine s HI).
  - intros j sl Hsl. destruct (inv_slots s HI j sl Hsl) as (u & Hu & Hok). exists u. split; [by apply Hold|].
    by eapply slot_ok_mono.
  - intros j u j' Hj Hp. destruct (Hnew j u Hj) as [[-> ->]|Hj']; [by destruct (Hw j')|].
    destruct (inv_wait s HI j u j' Hj' Hp) as (x & Hx & Hk). eauto.
  - intros rep' k j Hk. change (co_inFlight (coord_of (set_coord rep c s) rep') !! k = Some j) in Hk.
    rewrite coord_of_set_coord in Hk.
    assert (Hk' : co_inFlight (coord_of s rep') !! k = Some j) by (destruct (decide (rep' = rep)) as [->|]; [by rewrite <- Hin|done]).
    destruct (inv_inflight s HI rep' k j Hk') as (x & Hx & Hkx). eauto.
  - intros j u rec Hj Hr. destruct (Hnew j u Hj) as [[-> ->]|Hj']; [congruence|].
    destruct (inv_replay s HI j u rec Hj' Hr). split; [by eapply genuine_mono|done].
Qed.

Lemma set_ttl_inv s rep ttl : Inv s -> Inv (set_coord rep (SetIdempotencyTTL ttl (coord_of s rep)) s).
Proof.
  intros HI. constructor; try apply HI.
  intros rep' k j Hk. rewrite coord_of_set_coord in Hk. apply (inv_inflight s HI rep' k j).
  by destruct (decide (rep' = rep)) as [->|].
Qed.

Lemma start_inv w : il_inv w -> il_view w = v0 -> Inv (start w).
Proof.
  intros Hw Hv. constructor; cbn; try done.
  intros k row Hk _. right. unfold view in Hk. cbn in Hk. rewrite Hv in Hk. exists row.
  split_and!; try done. unfold same_request. by rewrite !bool_decide_eq_true_2.
Qed.

(** The invariant holds in every state of a history within the window. *)
Lemma reach_inv s : reach s -> Inv s.
Proof.
  induction 1 as [w Hw Hv|s l s' _ HI Hwin Hst]; [by apply start_inv|].
  destruct l as [i rep q now|rep ttl|f now limit|i ch]; cbn in Hst.
  - destruct (sy_threads s !! i) eqn:Hi; [done|]. simplify_eq. by apply begin_inv.
  - simplify_eq. by apply set_ttl_inv.
  - by eapply (expired_sweep_inv s f now limit).
  - destruct (sy_threads s !! i) as [t|] eqn:Hi; [|done]. cbn in Hst.
    assert (Hgo : forall p, th_phase t = p -> match p with PWait _ | PPoll | PServe => True | _ => exists f, ch = CGo f end).
    { intros p Hp. unfold thread_step in Hst. rewrite Hp in Hst.
      destruct p; try exact I; destruct ch; try discriminate Hst; eexists; reflexivity. }
    destruct (th_phase t) eqn:Hph; pose proof (Hgo _ eq_refl) as Hch; cbv beta iota in Hch; try destruct Hch as [f ->].
    + exact (sweep_inv s i t f s' HI Hi Hph Hst).
    + exact (try_inv s i t f s' HI Hi Hph Hst).
    + exact (wait_inv s i t _ ch s' HI Hi Hph Hst).
    + exact (claim_inv s i t f s' HI Hi Hph Hst).
    + exact (poll_inv s i t ch s' HI Hi Hph Hst).
    + exact (serve_inv s i t ch s' HI Hi Hph Hst).
    + exact (store_inv s i t _ f s' HI Hi Hph Hst).
    + exact (abort_inv s i t f s' HI Hi Hph Hst).
    + exact (close_inv s i t _ f s' HI Hi Hph Hst).
    + unfold thread_step in Hst. rewrite Hph in Hst. discriminate Hst.
Qed.

(** C3: over all interleavings of any number of requests on any number of replicas,
    with store calls that may fail with or without effect, at most one request of
    a (tenant, key) is executing its handler or has executed it with a status below
    500, as long as no claim of the history has expired. *)
Theorem idempotent_at_most_once s i j t u : reach s ->
  sy_threads s !! i = Some t -> sy_threads s !! j = Some u -> ca_key (th_call t) = ca_key (th_call u) ->
  effective (th_phase t) -> effective (th_phase u) -> i = j.
Proof. intros Hr Hi Hj Hk He Hu. exact (inv_unique s (reach_inv s Hr) i j t u Hi Hj He Hu Hk). Qed.
End Props.

(** C4: in the same histories, started with an empty ledger and as long as no claim
    expires, every replayed response is the status, content type and body that one
    execution of a request with the same key, method, path and body hash answered,
    however the replay was obtained (stored row, another goroutine's slot, or
    polling another replica). *)
Theorem replays_are_genuine {W F} `{IdemLaws W F} (hi : Z) (s : sys W) i t rec :
  reach hi ∅ s -> sy_threads s !! i = Some t -> replay_of (th_phase t) = Some rec ->
  exists j u r, sy_threads s !! j = Some u /\ (th_phase u = PClose (Executed r) \/ th_phase u = PDone (Executed r)) /\
    ca_key (th_call u) = ca_key (th_call t) /\ ca_hash (th_call u) = ca_hash (th_call t) /\
    ca_method (th_call u) = ca_method (th_call t) /\ ca_path (th_call u) = ca_path (th_call t) /\
    hr_status (writeReplayedIdempotencyResponse ∅ rec) = hr_status (flushToUnderlying ∅ r) /\
    hr_body (writeReplayedIdempotencyResponse ∅ rec) = hr_body (flushToUnderlying ∅ r) /\
    ir_ContentType rec = rec_contentType r.
Proof.
  intros Hr Hi Hrep. destruct (inv_replay hi ∅ s (reach_inv hi ∅ s Hr) i t rec Hi Hrep) as [Hg Hf].
  destruct Hg as [(j & u & r & Hj & Hs & Hk & Hfu & Hc)|(row & Hrow & _)]; [|by rewrite lookup_empty in Hrow].
  exists j, u, r. unfold finger, content in *. cbn. unfold settled in Hs.
  split; [done|]. split; [repeat case_match; simplify_eq; auto|]. destruct Hf as (F1 & F2 & F3), Hfu as (U1 & U2 & U3), Hc as (C1' & C2' & C3').
  split_and!; congruence.
Qed.
