(* ===== verification/IdemSim.v ===== *)
(** * Histories of the idempotency middleware

    Concrete histories over the in-memory ledger: coalescing and replay within the
    retention window, and what a handler that outlives its claim does to the claim
    that replaced it. *)

From S2P Require Import Prelude GoStrings StoreErrors IdemStore IdemApi IdemLedger IdemProps.
From Stdlib Require Import Ascii String.
Local Open Scope Z_scope.
Local Notation length := List.length.

Abbreviation msys := (sys MemoryIdempotencyStore).
Abbreviation mlabel := (label (list ikey)).

Definition demo_request (body : string) : Request :=
  mkRequest " k1 " "" "" (Some (mkPrincipal 7 "" false)) "POST" "/watched-contracts" "/watched-contracts"
    (Some (mkBody body None)) 1024.

Definition go (i : nat) : mlabel := LStep i (CGo []).
Definition created : list handler_act :=
  [SetHeader "Content-Type" ["application/json"]; WriteHeader 201; Write "{}"].

(** Two requests on one replica and one on another; the first executes. *)
Definition window_history : list mlabel :=
  [LArrive 0 0 (demo_request "a") Second; go 0; go 0; go 0;
   LArrive 1 0 (demo_request "a") (2 * Second); go 1;
   LArrive 2 1 (demo_request "a") (3 * Second); go 2; go 2; go 2;
   LStep 0 (CReturn created); go 0; go 0; go 1; go 2].

Definition window_end : msys := default (start ∅) (sys_run window_history (start ∅)).

(** The clock never reaches the expiry of a claim made after [Second]. *)
Definition window_hi : Z := 10 * Second.

Fixpoint reach_run_ok (ls : list mlabel) (s : msys) : Prop :=
  match ls with
  | [] => True
  | l :: ls => label_in_window window_hi l s /\ match sys_step l s with Some s' => reach_run_ok ls s' | None => False end
  end.

Lemma reach_run ls : forall s, reach window_hi ∅ s -> reach_run_ok ls s ->
  reach window_hi ∅ (default s (sys_run ls s)).
Proof.
  induction ls as [|l ls IH]; intros s Hs Hok; [done|]. destruct Hok as [Hwin Hok]. cbn [sys_run].
  destruct (sys_step l s) as [s1|] eqn:E; [|done]. cbn [mbind option_bind].
  assert (Hs1 : reach window_hi ∅ s1) by (by eapply reach_step).
  specialize (IH s1 Hs1 Hok). by destruct (sys_run ls s1).
Qed.

Lemma window_end_reached : reach window_hi ∅ window_end.
Proof.
  unfold window_end. apply (reach_run window_history (start ∅)); [by apply reach_start|].
  vm_compute. repeat split; congruence.
Qed.

Definition thread_at (i : nat) (s : msys) : thread :=
  default (mkThread 0 (no_call (demo_request "") 0) PTry) (sy_threads s !! i).

(** What thread [i] is about in the end: its outcome, and where it came from. *)
Definition end_outcome (i : nat) (s : msys) : option outcome :=
  match th_phase (thread_at i s) with PDone o | PClose o => Some o | _ => None end.

Definition executed_201 (o : option outcome) : bool :=
  match o with Some (Executed r) => (rec_status r =? 201) && bool_decide (rc_body r = "{}") | _ => false end.
Definition replayed_201 (o : option outcome) : bool :=
  match o with Some (Replay r) => (ir_StatusCode r =? 201) && bool_decide (ir_ResponseBody r = "{}") | _ => false end.

Definition ended_well (s : msys) : bool :=
  bool_decide (is_Some (sy_threads s !! 0%nat)) && bool_decide (is_Some (sy_threads s !! 2%nat)) &&
  executed_201 (end_outcome 0 s) && replayed_201 (end_outcome 1 s) && replayed_201 (end_outcome 2 s).

Lemma window_facts : ended_well window_end = true.
Proof. vm_compute. reflexivity. Qed.

Lemma thread_at_lookup (i : nat) (s : msys) : is_Some (sy_threads s !! i) -> sy_threads s !! i = Some (thread_at i s).
Proof. intros [t E]. unfold thread_at. by rewrite E. Qed.

Lemma well_settled (s : msys) : ended_well s = true ->
  sy_threads s !! 0%nat = Some (thread_at 0 s) /\ effective (th_phase (thread_at 0 s)).
Proof.
  unfold ended_well. intros Hf. to_prop. split; [by apply thread_at_lookup|]. right.
  unfold end_outcome, executed_201 in *. unfold settled.
  destruct (th_phase (thread_at 0 s)) as [| | | | | | | |o|o]; try done;
    destruct o as [| | |r|]; try done; to_prop; destruct (Z.leb_spec 500 (rec_status r)); eauto; lia.
Qed.

Lemma well_replayed (s : msys) : ended_well s = true -> exists rec, sy_threads s !! 2%nat = Some (thread_at 2 s) /\
  replay_of (th_phase (thread_at 2 s)) = Some rec /\ ir_StatusCode rec = 201 /\ ir_ResponseBody rec = "{}".
Proof.
  unfold ended_well. intros Hf. to_prop. unfold end_outcome, replayed_201 in *.
  destruct (th_phase (thread_at 2 s)) as [| | | | | | | |o|o] eqn:E; try done;
    destruct o as [| |rec|r|]; try done; to_prop; exists rec; (split_and!; [by apply thread_at_lookup|done..]).
Qed.

Lemma idempotent_at_most_once_witness :
  effective (th_phase (thread_at 0 window_end)) /\ 0%nat = 0%nat.
Proof.
  destruct (well_settled _ window_facts) as [Hi He]. split; [exact He|].
  exact (idempotent_at_most_once window_hi ∅ window_end 0 0 _ _ window_end_reached Hi Hi eq_refl He He).
Defined.

Lemma replays_are_genuine_witness : exists u r,
  (th_phase u = PClose (Executed r) \/ th_phase u = PDone (Executed r)) /\ rec_status r = 201 /\ rc_body r = "{}".
Proof.
  destruct (well_replayed _ window_facts) as (rec & Hi & Hrep & Hst & Hb).
  destruct (replays_are_genuine window_hi window_end 2 _ rec window_end_reached Hi Hrep)
    as (j & u & r & _ & Hph & _ & _ & _ & _ & Hs & Hbody & _).
  exists u, r. cbn in Hs, Hbody. split; [exact Hph|]. split; congruence.
Defined.

(** ** A handler that outlives its claim *)

(** Replica 0 claims the key with a retention of one second and keeps running.
    After the claim has expired replica 1 claims it again; then the first handler
    ends and its deferred cleanup removes the second claim, so that replica 2
    executes as well while replica 1 still does. *)
Definition stale_history : list mlabel :=
  [LSetTTL 0 Second; LArrive 0 0 (demo_request "a") Second; go 0; go 0; go 0;
   LArrive 1 1 (demo_request "a") (5 * Second); go 1; go 1; go 1;
   LStep 0 (CPanic []); go 0;
   LArrive 2 2 (demo_request "a") (6 * Second); go 2; go 2; go 2].

Definition is_serving (p : phase) : bool := match p with PServe => true | _ => false end.

(** Two requests of one key execute at the same time although the claim of the
    first of them has not expired: DeleteIdempotencyKey is keyed by (tenant, key)
    only and removes whatever claim is there. *)
Definition both_serving (s : msys) : bool :=
  let t := thread_at 1 s in let u := thread_at 2 s in
  is_serving (th_phase t) && is_serving (th_phase u) && bool_decide (ca_key (th_call t) = ca_key (th_call u)) &&
  (ca_now (th_call u) <? ca_now (th_call t) + ca_ttl (th_call t)).

Lemma stale_release_breaks_exclusion : both_serving <$> sys_run stale_history (start ∅) = Some true.
Proof. vm_compute. reflexivity. Qed.

(** The same with a completion: replica 1 claimed the key for another body, the
    first handler records its response in that row, and a retry of the second
    request is answered with the response to the first. *)
Definition stale_complete_history : list mlabel :=
  [LSetTTL 0 Second; LArrive 0 0 (demo_request "a") Second; go 0; go 0; go 0;
   LArrive 1 1 (demo_request "b") (5 * Second); go 1; go 1; go 1;
   LStep 0 (CReturn created); go 0;
   LArrive 2 2 (demo_request "b") (6 * Second); go 2; go 2; go 2].

Definition wrong_replay (s : msys) : bool :=
  let t := thread_at 2 s in
  bool_decide (ca_body (th_call t) = "b") && is_serving (th_phase (thread_at 1 s)) &&
  match th_phase t with PClose (Replay rec) => bool_decide (ir_ResponseBody rec = "{}") | _ => false end.

Lemma stale_completion_answers_other_request :
  wrong_replay <$> sys_run stale_complete_history (start ∅) = Some true.
Proof. vm_compute. reflexivity. Qed.
