(* ===== verification/IdemProgress.v ===== *)
(** * The idempotency middleware does not get stuck

    Slots, their owners and their waiters in every reachable state, for any store
    whatever it answers: a request waits only for a slot that is closed or whose
    owner is still under way, so from every state all requests can be brought to
    their end without cancelling any of them. *)

From S2P Require Import Prelude GoStrings StoreErrors IdemStore IdemApi.
From Stdlib Require Import Ascii String.
Local Open Scope Z_scope.
Local Notation length := List.length.

(** The request owns an open slot. *)
Definition owning (p : phase) : bool :=
  match p with PClaim | PPoll | PServe | PStore _ | PAbort | PClose _ => true | _ => false end.

Definition is_done (p : phase) : bool := match p with PDone _ => true | _ => false end.

Section Progress.
Context {W F : Type} `{IdempotencyStore W F}.
Implicit Types (s : sys W).

Definition inflight s (rep : nat) : gmap ikey nat := co_inFlight (coord_of s rep).
Definition open_slot s (i : nat) : Prop := exists sl, sy_slots s !! i = Some sl /\ sl_done sl = false.
Definition closed_slot s (i : nat) : Prop := exists sl, sy_slots s !! i = Some sl /\ sl_done sl = true.

Record Slots s : Prop := mkSlots {
  ss_own i t : sy_threads s !! i = Some t -> owning (th_phase t) = true ->
    open_slot s i /\ inflight s (th_replica t) !! ca_key (th_call t) = Some i;
  ss_inflight rep k j : inflight s rep !! k = Some j ->
    exists u, sy_threads s !! j = Some u /\ owning (th_phase u) = true /\ th_replica u = rep /\ ca_key (th_call u) = k;
  ss_wait i t j : sy_threads s !! i = Some t -> th_phase t = PWait j ->
    closed_slot s j \/ exists u, sy_threads s !! j = Some u /\ owning (th_phase u) = true }.

(** A step of request [i] from phase [th_phase t] to [p]. *)
Lemma slots_step s s' i t p (k := ca_key (th_call t)) (rep := th_replica t) :
  Slots s -> sy_threads s !! i = Some t -> sy_threads s' = <[i := mkThread rep (th_call t) p]> (sy_threads s) ->
  (forall j, j <> i -> sy_slots s' !! j = sy_slots s !! j) ->
  (owning p = true -> open_slot s' i) ->
  (closed_slot s i \/ owning (th_phase t) = true -> closed_slot s' i \/ owning p = true) ->
  (forall rep' k', ~ (rep' = rep /\ k' = k) -> inflight s' rep' !! k' = inflight s rep' !! k') ->
  (if owning p then inflight s' rep !! k = Some i else
   if owning (th_phase t) then inflight s' rep !! k = None else inflight s' rep !! k = inflight s rep !! k) ->
  (owning p = true -> owning (th_phase t) = true \/ inflight s rep !! k = None) ->
  (forall j, p = PWait j -> exists u, sy_threads s !! j = Some u /\ owning (th_phase u) = true /\ owning (th_phase t) = false) ->
  Slots s'.
Proof.
  intros HS Hi Hth Hsl Hopen Hclosed Hfar Hnear Hfresh Hwait.
  assert (Hkeep : forall j u, j <> i -> sy_threads s !! j = Some u -> owning (th_phase u) = true ->
    inflight s (th_replica u) !! ca_key (th_call u) = Some j -> inflight s' (th_replica u) !! ca_key (th_call u) = Some j).
  { intros j u Hne Hj Ho Hin. destruct (decide (th_replica u = rep /\ ca_key (th_call u) = k)) as [[E1 E2]|Hno]; [|by rewrite Hfar].
    rewrite E1, E2 in *. destruct (owning p) eqn:Ep.
    - destruct (Hfresh eq_refl) as [Hot|Hnone]; [|congruence]. destruct (ss_own s HS i t Hi Hot) as [_ Hit].
      fold k rep in Hit. congruence.
    - destruct (owning (th_phase t)) eqn:Et; [|congruence]. destruct (ss_own s HS i t Hi Et) as [_ Hit].
      fold k rep in Hit. congruence. }
  assert (Hback : forall j u, sy_threads s' !! j = Some u -> j = i /\ u = mkThread rep (th_call t) p \/ j <> i /\ sy_threads s !! j = Some u).
  { intros j u. rewrite Hth. intros [[<- <-]|[Hne Hj]]%lookup_insert_Some; auto. }
  constructor.
  - intros j u Hj Ho. destruct (Hback j u Hj) as [[-> ->]|[Hne Hj']].
    + cbn in Ho |- *. rewrite Ho in Hnear. split; [auto|done].
    + destruct (ss_own s HS j u Hj' Ho) as [(sl & Hs & Hd) Hin]. split; [exists sl; by rewrite Hsl|by apply Hkeep].
  - intros rep' k' j Hin. destruct (decide (rep' = rep /\ k' = k)) as [[-> ->]|Hno].
    + destruct (owning p) eqn:Ep.
      * exists (mkThread rep (th_call t) p). assert (j = i) as -> by congruence. by rewrite Hth, lookup_insert_eq.
      * destruct (owning (th_phase t)) eqn:Et; [congruence|]. rewrite Hnear in Hin.
        destruct (ss_inflight s HS _ _ _ Hin) as (u & Hu & Ho & Hr & Hk). exists u.
        rewrite Hth, lookup_insert_ne; [done|]. intros ->. congruence.
    + rewrite Hfar in Hin by done. destruct (ss_inflight s HS _ _ _ Hin) as (u & Hu & Ho & Hr & Hk).
      assert (j <> i) by (intros ->; simplify_eq; by apply Hno). exists u. by rewrite Hth, lookup_insert_ne.
  - intros j u j' Hj Hph.
    assert (Hcase : closed_slot s j' \/ exists v, sy_threads s !! j' = Some v /\ owning (th_phase v) = true).
    { destruct (Hback j u Hj) as [[-> ->]|[_ Hj']]; [|by eapply (ss_wait s HS)].
      destruct (Hwait j' Hph) as (v & Hv & Ho & _). eauto. }
    destruct (decide (j' = i)) as [->|Hne].
    + assert (Hc : closed_slot s' i \/ owning p = true) by (apply Hclosed; destruct Hcase as [?|(v & Hv & Ho)]; [by left|right; congruence]).
      destruct Hc as [?|Ho]; [by left|right]. exists (mkThread rep (th_call t) p). by rewrite Hth, lookup_insert_eq.
    + destruct Hcase as [(sl & Hs & Hd)|(v & Hv & Ho)].
      * left. exists sl. by rewrite Hsl.
      * right. exists v. by rewrite Hth, lookup_insert_ne.
Qed.

Lemma inflight_set_coord rep c s rep' :
  inflight (set_coord rep c s) rep' = if decide (rep' = rep) then co_inFlight c else inflight s rep'.
Proof.
  unfold inflight, coord_of, set_coord. cbn. destruct (decide (rep' = rep)) as [->|Hne];
    [by rewrite lookup_insert_eq|by rewrite lookup_insert_ne].
Qed.

(** A step that touches no coordinator and keeps the ownership. *)
Lemma slots_same s s' i t p :
  Slots s -> sy_threads s !! i = Some t ->
  sy_threads s' = <[i := mkThread (th_replica t) (th_call t) p]> (sy_threads s) -> sy_coords s' = sy_coords s ->
  (sy_slots s' = sy_slots s \/
   exists sl sl', sy_slots s !! i = Some sl /\ sl_done sl' = sl_done sl /\ sy_slots s' = <[i := sl']> (sy_slots s)) ->
  owning p = owning (th_phase t) -> (forall j, p <> PWait j) -> Slots s'.
Proof.
  intros HS Hi Hth Hco Hsl Ho Hw.
  assert (Hin : forall rep, inflight s' rep = inflight s rep) by (intros rep; unfold inflight, coord_of; by rewrite Hco).
  assert (Hd : forall b, (exists sl, sy_slots s !! i = Some sl /\ sl_done sl = b) -> exists sl, sy_slots s' !! i = Some sl /\ sl_done sl = b).
  { intros b (sl & Hs & Hb). destruct Hsl as [->|(sl1 & sl' & Hs1 & Hd & ->)]; [eauto|].
    rewrite lookup_insert_eq. simplify_eq. eauto. }
  apply (slots_step s s' i t p HS Hi Hth); auto.
  - intros j Hne. destruct Hsl as [->|(sl1 & sl' & _ & _ & ->)]; [done|]. by rewrite lookup_insert_ne.
  - intros Hp. rewrite Ho in Hp. destruct (ss_own s HS i t Hi Hp) as [Hop _]. by apply Hd.
  - rewrite Ho. intros [Hc|?]; [left; by apply Hd|by right].
  - intros rep' k' _. by rewrite Hin.
  - rewrite Ho, Hin. destruct (owning (th_phase t)) eqn:E; [|done]. by destruct (ss_own s HS i t Hi E).
  - rewrite Ho. auto.
  - intros j Hj. by destruct (Hw j).
Qed.

Ltac own_slot_done := right; do 2 eexists; split; [eassumption|]; split; [|reflexivity]; reflexivity.

Lemma try_slots s i t f s' : Slots s -> sy_threads s !! i = Some t -> th_phase t = PTry ->
  thread_step i t (CGo f) s = Some s' -> Slots s'.
Proof.
  intros HS Hi Hph Hst. unfold thread_step in Hst. rewrite Hph in Hst. unfold mw_try in Hst.
  destruct (co_inFlight (coord_of s (th_replica t)) !! ca_key (th_call t)) as [j|] eqn:Hj; injection Hst as <-.
  - assert (Hin : forall rep', inflight (goto i t (PWait j) (set_coord (th_replica t) (coord_of s (th_replica t)) s)) rep' = inflight s rep').
    { intros rep'. change (inflight (set_coord (th_replica t) (coord_of s (th_replica t)) s) rep' = inflight s rep').
      rewrite inflight_set_coord. by destruct (decide _) as [->|]. }
    apply (slots_step s _ i t (PWait j) HS Hi); auto; rewrite ?Hph.
    + done.
    + intros [?|?]; [by left|done].
    + intros rep' k' _. by rewrite Hin.
    + cbn. by rewrite Hin.
    + done.
    + intros j' [= <-]. destruct (ss_inflight s HS _ _ _ Hj) as (u & Hu & Ho & _). eauto.
  - assert (Hin : forall rep', inflight (goto i t PClaim (set_slot i (new_slot (th_call t)) (set_coord (th_replica t)
        (set_inFlight (<[ca_key (th_call t):=i]> (co_inFlight (coord_of s (th_replica t)))) (coord_of s (th_replica t))) s))) rep' =
        if decide (rep' = th_replica t) then <[ca_key (th_call t):=i]> (inflight s (th_replica t)) else inflight s rep').
    { intros rep'. etrans; [exact (inflight_set_coord (th_replica t)
        (set_inFlight (<[ca_key (th_call t):=i]> (co_inFlight (coord_of s (th_replica t)))) (coord_of s (th_replica t))) s rep')|].
      by destruct (decide (rep' = th_replica t)). }
    apply (slots_step s _ i t PClaim HS Hi); auto.
    + intros j' Hne. cbn. by rewrite lookup_insert_ne.
    + intros _. eexists. cbn. by rewrite lookup_insert_eq.
    + intros rep' k' Hno. rewrite Hin. destruct (decide (rep' = th_replica t)) as [->|]; [|done].
      rewrite lookup_insert_ne; [done|]. intros <-. by apply Hno.
    + cbn [owning]. rewrite Hin, decide_True by done. by rewrite lookup_insert_eq.
    + done.
Qed.

Lemma close_slots s i t o f s' : Slots s -> sy_threads s !! i = Some t -> th_phase t = PClose o ->
  thread_step i t (CGo f) s = Some s' -> Slots s'.
Proof.
  intros HS Hi Hph Hst. unfold thread_step in Hst. rewrite Hph in Hst.
  destruct (sy_slots s !! i) as [sl|] eqn:Hsl; [|done]. cbn [mbind option_bind] in Hst. injection Hst as <-.
  set (s' := close_step i t sl o s).
  assert (Hin : forall rep', inflight s' rep' =
    if decide (rep' = th_replica t) then delete (ca_key (th_call t)) (inflight s (th_replica t)) else inflight s rep').
  { intros rep'. etrans; [exact (inflight_set_coord (th_replica t)
      (set_inFlight (delete (ca_key (th_call t)) (co_inFlight (coord_of s (th_replica t)))) (coord_of s (th_replica t))) s rep')|].
    by destruct (decide (rep' = th_replica t)). }
  apply (slots_step s s' i t (PDone o) HS Hi); auto; rewrite ?Hph; try done.
  - intros j Hne. cbn. by rewrite lookup_insert_ne.
  - intros _. left. eexists. cbn. by rewrite lookup_insert_eq.
  - intros rep' k' Hno. rewrite Hin. destruct (decide (rep' = th_replica t)) as [->|]; [|done].
    rewrite lookup_delete_ne; [done|]. intros <-. by apply Hno.
  - cbn [owning]. rewrite Hin, decide_True by done. by rewrite lookup_delete_eq.
Qed.

Lemma after_claim_owns ret sl p sl' : after_claim ret sl = (p, sl') ->
  sl_done sl' = sl_done sl /\ owning p = true /\ forall j, p <> PWait j.
Proof. unfold after_claim. intros Heq. repeat case_match; simplify_eq; done. Qed.

Lemma poll_tick_owns ca got sl p sl' : poll_tick ca got sl = (p, sl') ->
  sl_done sl' = sl_done sl /\ owning p = true /\ forall j, p <> PWait j.
Proof. unfold poll_tick. intros Heq. repeat case_match; simplify_eq; done. Qed.

Lemma mw_waited_owns ca sl : owning (mw_waited ca sl) = false /\ (forall j, mw_waited ca sl <> PWait j) /\
  (is_done (mw_waited ca sl) = true \/ mw_waited ca sl = PTry).
Proof. unfold mw_waited. repeat split_if; auto. Qed.

(** What a step of a request does to the slots: nothing but its own. *)
Lemma thread_step_slots s i t ch s' : Slots s -> sy_threads s !! i = Some t ->
  thread_step i t ch s = Some s' -> Slots s'.
Proof.
  intros HS Hi Hst. pose proof Hst as Hst0. unfold thread_step in Hst0.
  destruct (th_phase t) as [| |j| | | |r| |o|o] eqn:Hph; destruct ch as [f| | |acts|acts]; try discriminate Hst0.
  - destruct (DeleteExpiredIdempotencyKeys _ _ _ _) as [x w]. injection Hst0 as <-.
    apply (slots_same s _ i t PTry HS Hi); [reflexivity|reflexivity|by left|by rewrite Hph|done].
  - by eapply try_slots.
  - destruct (sy_slots s !! j) as [sl|]; [|discriminate Hst0]. cbn [mbind option_bind] in Hst0.
    destruct (sl_done sl); [|discriminate Hst0]. injection Hst0 as <-. destruct (mw_waited_owns (th_call t) sl) as (Ho & Hw & _).
    apply (slots_same s _ i t (mw_waited (th_call t) sl) HS Hi); [reflexivity|reflexivity|by left|by rewrite Hph|done].
  - injection Hst0 as <-. apply (slots_same s _ i t (PDone (Failed 408 ContextErr)) HS Hi); [reflexivity|reflexivity|by left|by rewrite Hph|done].
  - destruct (sy_slots s !! i) as [sl|] eqn:Hsl; [|discriminate Hst0]. cbn [mbind option_bind] in Hst0. injection Hst0 as <-.
    unfold claim_step. destruct (ClaimIdempotencyKey _ _ _ _) as [ret w], (after_claim ret sl) as [p sl'] eqn:Hac.
    destruct (after_claim_owns _ _ _ _ Hac) as (Hd & Ho & Hw).
    apply (slots_same s _ i t p HS Hi); [reflexivity|reflexivity|right; exists sl, sl'; auto|by rewrite Hph|done].
  - destruct (sy_slots s !! i) as [sl|] eqn:Hsl; [|discriminate Hst0]. cbn [mbind option_bind] in Hst0.
    destruct (poll_tick _ _ sl) as [p sl'] eqn:Hpt. injection Hst0 as <-. destruct (poll_tick_owns _ _ _ _ _ Hpt) as (Hd & Ho & Hw).
    apply (slots_same s _ i t p HS Hi); [reflexivity|reflexivity|right; exists sl, sl'; auto|by rewrite Hph|done].
  - destruct (sy_slots s !! i) as [sl|] eqn:Hsl; [|discriminate Hst0]. cbn in Hst0. injection Hst0 as <-.
    apply (slots_same s _ i t (PClose (Failed 409 StillInProgress)) HS Hi); [reflexivity|reflexivity|own_slot_done|by rewrite Hph|done].
  - destruct (sy_slots s !! i) as [sl|] eqn:Hsl; [|discriminate Hst0]. cbn in Hst0. injection Hst0 as <-.
    apply (slots_same s _ i t (PClose (Failed 409 StillInProgress)) HS Hi); [reflexivity|reflexivity|own_slot_done|by rewrite Hph|done].
  - injection Hst0 as <-. apply (slots_same s _ i t (PStore (record_handler acts)) HS Hi); [reflexivity|reflexivity|by left|by rewrite Hph|done].
  - injection Hst0 as <-. apply (slots_same s _ i t PAbort HS Hi); [reflexivity|reflexivity|by left|by rewrite Hph|done].
  - destruct (sy_slots s !! i) as [sl|] eqn:Hsl; [|discriminate Hst0]. cbn [mbind option_bind] in Hst0. injection Hst0 as <-.
    unfold store_step. destruct (500 <=? rec_status r).
    + destruct (DeleteIdempotencyKey _ _ _ _) as [x w]. apply (slots_same s _ i t (PClose (Executed r)) HS Hi); [reflexivity|reflexivity|own_slot_done|by rewrite Hph|done].
    + destruct (CompleteIdempotencyKey _ _ _) as [x w]. apply (slots_same s _ i t (PClose (Executed r)) HS Hi); [reflexivity|reflexivity|own_slot_done|by rewrite Hph|done].
  - destruct (DeleteIdempotencyKey _ _ _ _) as [x w]. injection Hst0 as <-.
    apply (slots_same s _ i t (PClose Panicked) HS Hi); [reflexivity|reflexivity|by left|by rewrite Hph|done].
  - by eapply close_slots.
Qed.

Lemma thread_step_frame s i t ch s' : thread_step i t ch s = Some s' ->
  exists p, sy_threads s' = <[i := mkThread (th_replica t) (th_call t) p]> (sy_threads s).
Proof.
  unfold thread_step, claim_step, store_step, close_step, goto, put_thread, poll_giveup. intros Hst.
  destruct (th_phase t), ch; try discriminate Hst; repeat case_match; simplify_option_eq; repeat case_match; simplify_eq;
    eexists; reflexivity.
Qed.

Lemma sys_step_slots l s s' : Slots s -> sys_step l s = Some s' -> Slots s'.
Proof.
  intros HS Hst. destruct l as [i rep q now|rep ttl|f now limit|i ch]; cbn in Hst.
  - destruct (sy_threads s !! i) eqn:Hi; [done|]. injection Hst as <-. unfold arrive.
    destruct (mw_enter q now (coord_of s rep)) as [en c] eqn:Hen.
    assert (Hc : co_inFlight c = co_inFlight (coord_of s rep)).
    { unfold mw_enter in Hen. repeat case_match; by simplify_eq. }
    assert (Hin : forall rep', inflight (set_coord rep c s) rep' = inflight s rep').
    { intros rep'. rewrite inflight_set_coord, Hc. by destruct (decide _) as [->|]. }
    set (s' := match en with EnterPass => _ | EnterRefuse _ _ => _ | EnterCall _ _ => _ end).
    assert (Hs' : exists t, s' = put_thread i t (set_coord rep c s) /\ owning (th_phase t) = false /\ forall j, th_phase t <> PWait j).
    { unfold s'. destruct en as [|st e|ca []]; eexists; split; try reflexivity; done. }
    destruct Hs' as (t & -> & Ho & Hw).
    assert (Hin' : forall rep', inflight (put_thread i t (set_coord rep c s)) rep' = inflight s rep') by exact Hin.
    constructor.
    + intros j u Hj Hou. cbn in Hj. apply lookup_insert_Some in Hj as [[<- <-]|[_ Hj]]; [congruence|].
      rewrite Hin'. by apply (ss_own s HS).
    + intros rep' k j Hj. rewrite Hin' in Hj. destruct (ss_inflight s HS _ _ _ Hj) as (u & Hu & Hrest).
      exists u. cbn. rewrite lookup_insert_ne by congruence. done.
    + intros j u j' Hj Hph. cbn in Hj. apply lookup_insert_Some in Hj as [[<- <-]|[_ Hj]]; [by destruct (Hw j')|].
      destruct (ss_wait s HS j u j' Hj Hph) as [?|(v & Hv & Hov)]; [by left|right]. exists v. cbn.
      rewrite lookup_insert_ne by congruence. done.
  - injection Hst as <-. assert (Hin : forall rep', inflight (set_coord rep (SetIdempotencyTTL ttl (coord_of s rep)) s) rep' = inflight s rep').
    { intros rep'. rewrite inflight_set_coord. by destruct (decide _) as [->|]. }
    constructor; [intros j u Hj Ho; rewrite Hin; by apply (ss_own s HS)|intros rep' k j; rewrite Hin; apply (ss_inflight s HS)|apply (ss_wait s HS)].
  - destruct (DeleteExpiredIdempotencyKeys _ _ _ _) as [r w]. injection Hst as <-. constructor; apply HS.
  - destruct (sy_threads s !! i) as [t|] eqn:Hi; [|done]. cbn in Hst. by eapply thread_step_slots.
Qed.

Lemma start_slots w : Slots (start w).
Proof. constructor; [done|intros rep k j Hj; unfold inflight, coord_of in Hj; cbn in Hj; done|done]. Qed.

Lemma sys_run_slots ls : forall s s', Slots s -> sys_run ls s = Some s' -> Slots s'.
Proof.
  induction ls as [|l ls IH]; cbn; intros s s' HS Hrun; [by simplify_eq|].
  destruct (sys_step l s) as [s1|] eqn:E; [|done]. eapply IH; [|done]. by eapply sys_step_slots.
Qed.

(** *** Bringing requests to their end *)

Context (f : F).

(** Steps of requests other than giving up on a cancelled context. *)
Definition uncancelled (l : label F) : Prop :=
  match l with LStep _ CContextDone => False | LStep _ _ => True | _ => False end.

(** [s'] is [s] after some such steps, in which only request [i] moved, to phase [p]. *)
Definition moved s (i : nat) (t : thread) (p : phase) s' : Prop :=
  exists ls, Forall uncancelled ls /\ sys_run ls s = Some s' /\ Slots s' /\
    sy_threads s' = <[i := mkThread (th_replica t) (th_call t) p]> (sy_threads s).

Lemma moved_step s i t ch s1 p1 p s' :
  Slots s -> sy_threads s !! i = Some t -> ch <> CContextDone -> thread_step i t ch s = Some s1 ->
  sy_threads s1 = <[i := mkThread (th_replica t) (th_call t) p1]> (sy_threads s) ->
  moved s1 i (mkThread (th_replica t) (th_call t) p1) p s' -> moved s i t p s'.
Proof.
  intros HS Hi Hch Hst Hth (ls & Hls & Hrun & HS' & Hth'). exists (LStep i ch :: ls). split_and!.
  - constructor; [by destruct ch|done].
  - cbn. rewrite Hi. cbn. by rewrite Hst.
  - done.
  - rewrite Hth', Hth. cbn. by rewrite insert_insert_eq.
Qed.

Lemma moved_last s i t ch s' p :
  Slots s -> sy_threads s !! i = Some t -> ch <> CContextDone -> thread_step i t ch s = Some s' ->
  sy_threads s' = <[i := mkThread (th_replica t) (th_call t) p]> (sy_threads s) -> moved s i t p s'.
Proof.
  intros HS Hi Hch Hst Hth. eapply (moved_step s i t ch s' p p s' HS Hi Hch Hst Hth). exists []. split_and!; try done.
  - by eapply thread_step_slots.
  - cbn. by rewrite Hth, insert_insert_eq.
Qed.

(** The request can be brought to its end alone. *)
Definition finishes s (i : nat) (t : thread) : Prop := exists o s', moved s i t (PDone o) s'.

(** One step after which the request can be finished. *)
Lemma finishes_step s i t ch s1 p1 :
  Slots s -> sy_threads s !! i = Some t -> ch <> CContextDone -> thread_step i t ch s = Some s1 ->
  sy_threads s1 = <[i := mkThread (th_replica t) (th_call t) p1]> (sy_threads s) ->
  (Slots s1 -> sy_threads s1 !! i = Some (mkThread (th_replica t) (th_call t) p1) ->
   finishes s1 i (mkThread (th_replica t) (th_call t) p1)) -> finishes s i t.
Proof.
  intros HS Hi Hch Hst Hth Hfin. destruct Hfin as (o & s' & Hm).
  - by eapply thread_step_slots.
  - by rewrite Hth, lookup_insert_eq.
  - exists o, s'. by eapply moved_step.
Qed.

Lemma finish_close s i t o : Slots s -> sy_threads s !! i = Some t -> th_phase t = PClose o -> finishes s i t.
Proof.
  intros HS Hi Hph. destruct (ss_own s HS i t Hi ltac:(by rewrite Hph)) as [(sl & Hsl & _) _].
  assert (Hst : thread_step i t (CGo f) s = Some (close_step i t sl o s)) by (unfold thread_step; by rewrite Hph, Hsl).
  exists o, (close_step i t sl o s). by apply (moved_last s i t (CGo f)).
Qed.

Lemma finish_store s i t r : Slots s -> sy_threads s !! i = Some t -> th_phase t = PStore r -> finishes s i t.
Proof.
  intros HS Hi Hph. destruct (ss_own s HS i t Hi ltac:(by rewrite Hph)) as [(sl & Hsl & _) _].
  assert (Hst : thread_step i t (CGo f) s = Some (store_step i t sl r f s)) by (unfold thread_step; by rewrite Hph, Hsl).
  eapply (finishes_step s i t _ _ (PClose (Executed r)) HS Hi); [|exact Hst| |intros; by eapply finish_close]; [done|].
  unfold store_step. repeat case_match; done.
Qed.

Lemma finish_serve s i t : Slots s -> sy_threads s !! i = Some t -> th_phase t = PServe -> finishes s i t.
Proof.
  intros HS Hi Hph.
  assert (Hst : thread_step i t (CReturn []) s = Some (goto i t (PStore (record_handler [])) s)) by (unfold thread_step; by rewrite Hph).
  eapply (finishes_step s i t _ _ (PStore (record_handler [])) HS Hi); [|exact Hst| |intros; by eapply finish_store]; done.
Qed.

Lemma finish_abort s i t : Slots s -> sy_threads s !! i = Some t -> th_phase t = PAbort -> finishes s i t.
Proof.
  intros HS Hi Hph.
  destruct (DeleteIdempotencyKey f (ca_key (th_call t)).1 (ca_key (th_call t)).2 (sy_store s)) as [e w] eqn:Hd.
  assert (Hst : thread_step i t (CGo f) s = Some (goto i t (PClose Panicked) (set_store w s))) by (unfold thread_step; by rewrite Hph, Hd).
  eapply (finishes_step s i t _ _ (PClose Panicked) HS Hi); [|exact Hst| |intros; by eapply finish_close]; done.
Qed.

Lemma finish_poll s i t : Slots s -> sy_threads s !! i = Some t -> th_phase t = PPoll -> finishes s i t.
Proof.
  intros HS Hi Hph. destruct (ss_own s HS i t Hi ltac:(by rewrite Hph)) as [(sl & Hsl & _) _].
  assert (Hst : thread_step i t CDeadline s = Some (goto i t (PClose (Failed 409 StillInProgress)) (set_slot i (fail_slot sl) s)))
    by (unfold thread_step; by rewrite Hph, Hsl).
  eapply (finishes_step s i t _ _ (PClose (Failed 409 StillInProgress)) HS Hi); [|exact Hst| |intros; by eapply finish_close]; done.
Qed.

Lemma finish_claim s i t : Slots s -> sy_threads s !! i = Some t -> th_phase t = PClaim -> finishes s i t.
Proof.
  intros HS Hi Hph. destruct (ss_own s HS i t Hi ltac:(by rewrite Hph)) as [(sl & Hsl & _) _].
  assert (Hst : thread_step i t (CGo f) s = Some (claim_step i t sl f s)) by (unfold thread_step; by rewrite Hph, Hsl).
  assert (Hp : exists p, sy_threads (claim_step i t sl f s) = <[i := mkThread (th_replica t) (th_call t) p]> (sy_threads s) /\
    ((exists o, p = PClose o) \/ p = PPoll \/ p = PServe)).
  { unfold claim_step, after_claim. repeat case_match; simplify_eq; eexists; (split; [reflexivity|]); eauto. }
  destruct Hp as (p & Hth & Hcase).
  eapply (finishes_step s i t _ _ p HS Hi); [|exact Hst|exact Hth|]; [done|]. intros HS1 Hi1.
  destruct Hcase as [[o ->]|[->| ->]]; [by eapply finish_close|by eapply finish_poll|by eapply finish_serve].
Qed.

Lemma finish_owner s i t : Slots s -> sy_threads s !! i = Some t -> owning (th_phase t) = true -> finishes s i t.
Proof.
  intros HS Hi Ho. destruct (th_phase t) eqn:Hph; try done;
    [by apply finish_claim|by apply finish_poll|by apply finish_serve|by eapply finish_store|by apply finish_abort|by eapply finish_close].
Qed.

(** Some request that is not done can be finished, with steps of requests that
    are not done. *)
Definition progresses s : Prop :=
  exists ls s', Forall uncancelled ls /\ sys_run ls s = Some s' /\ Slots s' /\
    exists i t o, sy_threads s !! i = Some t /\ is_done (th_phase t) = false /\
      sy_threads s' !! i = Some (mkThread (th_replica t) (th_call t) (PDone o)) /\
      forall j, j <> i -> is_done <$> (th_phase <$> sy_threads s' !! j) = is_done <$> (th_phase <$> sy_threads s !! j).

Lemma finishes_progresses s i t : sy_threads s !! i = Some t -> is_done (th_phase t) = false -> finishes s i t -> progresses s.
Proof.
  intros Hi Hd (o & s' & ls & Hls & Hrun & HS' & Hth). exists ls, s'. split_and!; [done..|].
  exists i, t, o. rewrite Hth. split_and!; [done|done|by rewrite lookup_insert_eq|]. intros j Hne. by rewrite lookup_insert_ne.
Qed.

(** A step of a request that stays undone, before progress. *)
Lemma progresses_step s i t ch s1 p1 :
  Slots s -> sy_threads s !! i = Some t -> is_done (th_phase t) = false -> ch <> CContextDone ->
  thread_step i t ch s = Some s1 ->
  sy_threads s1 = <[i := mkThread (th_replica t) (th_call t) p1]> (sy_threads s) -> is_done p1 = false ->
  progresses s1 -> progresses s.
Proof.
  intros HS Hi Hd Hch Hst Hth Hd1 (ls & s' & Hls & Hrun & HS' & j & u & o & Hj & Hdj & Hj' & Hrest).
  exists (LStep i ch :: ls), s'. split_and!; [constructor; [by destruct ch|done]|cbn; rewrite Hi; cbn; by rewrite Hst|done|].
  rewrite Hth in Hj. destruct (decide (j = i)) as [->|Hne].
  - rewrite lookup_insert_eq in Hj. simplify_eq. exists i, t, o. split_and!; [done..|]. intros k Hk. rewrite (Hrest k Hk), Hth.
    by rewrite lookup_insert_ne.
  - rewrite lookup_insert_ne in Hj by done. exists j, u, o. split_and!; [done..|]. intros k Hk. rewrite (Hrest k Hk), Hth.
    destruct (decide (k = i)) as [->|]; [rewrite lookup_insert_eq, Hi; cbn; by rewrite Hd, Hd1|by rewrite lookup_insert_ne].
Qed.

Lemma progress_try s i t : Slots s -> sy_threads s !! i = Some t -> th_phase t = PTry -> progresses s.
Proof.
  intros HS Hi Hph. destruct (inflight s (th_replica t) !! ca_key (th_call t)) as [j|] eqn:Hj.
  - destruct (ss_inflight s HS _ _ _ Hj) as (u & Hu & Ho & _).
    apply (finishes_progresses s j u Hu); [by destruct (th_phase u)|by apply finish_owner].
  - set (s1 := goto i t PClaim (set_slot i (new_slot (th_call t)) (set_coord (th_replica t)
      (set_inFlight (<[ca_key (th_call t):=i]> (co_inFlight (coord_of s (th_replica t)))) (coord_of s (th_replica t))) s))).
    assert (Hst : thread_step i t (CGo f) s = Some s1).
    { unfold thread_step, mw_try. rewrite Hph. unfold inflight in Hj. by rewrite Hj. }
    apply (finishes_progresses s i t Hi); [by rewrite Hph|].
    eapply (finishes_step s i t _ s1 PClaim HS Hi); [|exact Hst| |intros; by eapply finish_claim]; done.
Qed.

Lemma progress s i t : Slots s -> sy_threads s !! i = Some t -> is_done (th_phase t) = false -> progresses s.
Proof.
  intros HS Hi Hd. destruct (owning (th_phase t)) eqn:Ho; [by apply (finishes_progresses s i t Hi Hd), finish_owner|].
  destruct (th_phase t) as [| |j| | | |r| |o|o] eqn:Hph; try done.
  - destruct (DeleteExpiredIdempotencyKeys f (ca_now (th_call t)) DefaultIdempotencySweepBatchSize (sy_store s)) as [x w] eqn:Hsw.
    assert (Hst : thread_step i t (CGo f) s = Some (goto i t PTry (set_store w s))) by (unfold thread_step; by rewrite Hph, Hsw).
    eapply (progresses_step s i t (CGo f) _ PTry HS Hi); [by rewrite Hph|done|exact Hst|done|done|].
    eapply (progress_try _ i (mkThread (th_replica t) (th_call t) PTry)); [by eapply thread_step_slots| |done].
    cbn. by rewrite lookup_insert_eq.
  - by apply (progress_try s i t).
  - destruct (ss_wait s HS i t j Hi Hph) as [(sl & Hsl & Hdone)|(u & Hu & Hou)].
    + assert (Hst : thread_step i t (CGo f) s = Some (goto i t (mw_waited (th_call t) sl) s))
        by (unfold thread_step; rewrite Hph, Hsl; cbn; by rewrite Hdone).
      destruct (mw_waited_owns (th_call t) sl) as (_ & _ & [Hfin|Htry]).
      * destruct (mw_waited (th_call t) sl) as [| | | | | | | | |o] eqn:Hmw; try done.
        apply (finishes_progresses s i t Hi); [by rewrite Hph|]. eexists o, _. by eapply (moved_last s i t (CGo f)).
      * rewrite Htry in Hst. eapply (progresses_step s i t (CGo f) _ PTry HS Hi); [by rewrite Hph|done|exact Hst|done|done|].
        eapply (progress_try _ i (mkThread (th_replica t) (th_call t) PTry)); [by eapply thread_step_slots| |done].
        cbn. by rewrite lookup_insert_eq.
    + apply (finishes_progresses s j u Hu); [by destruct (th_phase u)|by apply finish_owner].
Qed.

(** The requests that are not done. *)
Definition undone s : gset nat := dom (filter (fun x => is_done (th_phase x.2) = false) (sy_threads s)).

Lemma elem_of_undone s i : i ∈ undone s <-> is_done <$> (th_phase <$> sy_threads s !! i) = Some false.
Proof.
  unfold undone. rewrite elem_of_dom. split.
  - intros [t [Ht Hd]%map_lookup_filter_Some]. rewrite Ht. cbn in *. by rewrite Hd.
  - intros Ht. destruct (sy_threads s !! i) as [t|] eqn:E; [|done]. exists t. apply map_lookup_filter_Some. cbn in *. by simplify_eq.
Qed.

Lemma all_finish : forall n s, Slots s -> (size (undone s) < n)%nat ->
  exists ls s', Forall uncancelled ls /\ sys_run ls s = Some s' /\ undone s' = ∅ /\ dom (sy_threads s') = dom (sy_threads s).
Proof.
  induction n as [|n IH]; intros s HS Hn; [lia|].
  destruct (decide (undone s = ∅)) as [He|Hne]; [by exists [], s|].
  apply set_choose_L in Hne as [i Hi]. apply elem_of_undone in Hi.
  destruct (sy_threads s !! i) as [t|] eqn:Ht; [|done]. cbn in Hi. injection Hi as Hi.
  destruct (progress s i t HS Ht Hi) as (ls & s1 & Hls & Hrun & HS1 & j & u & o & Hj & Hdj & Hj' & Hrest).
  assert (Hsub : undone s1 ⊂ undone s).
  { split.
    - intros k. rewrite !elem_of_undone. destruct (decide (k = j)) as [->|Hk]; [by rewrite Hj'|by rewrite Hrest].
    - intros Hc. assert (j ∈ undone s1) as Hbad by (apply Hc, elem_of_undone; rewrite Hj; cbn; by rewrite Hdj).
      apply elem_of_undone in Hbad. by rewrite Hj' in Hbad. }
  apply subset_size in Hsub. destruct (IH s1 HS1 ltac:(lia)) as (ls' & s' & Hls' & Hrun' & Hu & Hdom).
  exists (ls ++ ls'), s'. split_and!; [by apply Forall_app| |done|].
  - clear -Hrun Hrun'. revert s Hrun. induction ls as [|l ls IHl]; cbn; intros s Hrun; [by simplify_eq|].
    destruct (sys_step l s); [cbn in *; by apply IHl|done].
  - rewrite Hdom. apply set_eq. intros k. rewrite !elem_of_dom. destruct (decide (k = j)) as [->|Hk]; [by rewrite Hj, Hj'|].
    specialize (Hrest k Hk). by destruct (sy_threads s1 !! k), (sy_threads s !! k); cbn in Hrest; simplify_eq.
Qed.

(** C38: the middleware cannot get stuck: from every state that any history of any
    store reaches, whatever the store answers, all requests can be brought to a
    response without cancelling one of them, each waiting request being released
    by the owner of its slot. *)
Theorem idempotent_requests_can_finish (w : W) (ls : list (label F)) s :
  sys_run ls (start w) = Some s ->
  exists ls' s', Forall uncancelled ls' /\ sys_run ls' s = Some s' /\
    (forall i t, sy_threads s !! i = Some t -> exists t', sy_threads s' !! i = Some t' /\ is_done (th_phase t') = true).
Proof.
  intros Hrun. pose proof (sys_run_slots ls (start w) s (start_slots w) Hrun) as HS.
  destruct (all_finish (S (size (undone s))) s HS ltac:(lia)) as (ls' & s' & Hls & Hrun' & Hu & Hdom).
  exists ls', s'. split_and!; [done..|]. intros i t Hi.
  assert (Hin : i ∈ dom (sy_threads s')) by (rewrite Hdom; by eapply elem_of_dom_2).
  apply elem_of_dom in Hin as [t' Ht']. exists t'. split; [done|].
  destruct (is_done (th_phase t')) eqn:E; [done|]. assert (Hbad : i ∈ undone s') by (apply elem_of_undone; rewrite Ht'; cbn; by rewrite E).
  rewrite Hu in Hbad. set_solver.
Qed.
End Progress.

(** Two requests of one key on one replica: the second waits for the first. *)
Definition waiting_request : Request :=
  mkRequest "k1" "" "" None "POST" "/apikeys" "/apikeys" (Some (mkBody "x" None)) 0.
Definition waiting_history : list (label (list ikey)) :=
  [LArrive 0 0 waiting_request Second; LStep 0 (CGo []); LStep 0 (CGo []);
   LArrive 1 0 waiting_request Second; LStep 1 (CGo [])].

Lemma waiting_history_runs :
  match sys_run waiting_history (start (∅ : MemoryIdempotencyStore)) with
  | Some s => bool_decide ((fun t => match th_phase t with PWait j => Some j | _ => None end) <$> sy_threads s !! 1%nat = Some (Some 0%nat))
  | None => false
  end = true.
Proof. vm_compute. reflexivity. Qed.

Lemma idempotent_requests_can_finish_witness : exists s : sys MemoryIdempotencyStore,
  sys_run waiting_history (start ∅) = Some s /\
  exists (ls' : list (label (list ikey))) s', Forall uncancelled ls' /\ sys_run ls' s = Some s' /\
    (forall i t, sy_threads s !! i = Some t -> exists t', sy_threads s' !! i = Some t' /\ is_done (th_phase t') = true).
Proof.
  pose proof waiting_history_runs as Hr. destruct (sys_run waiting_history (start ∅)) as [s|] eqn:E; [|discriminate Hr].
  exists s. split; [reflexivity|]. exact (idempotent_requests_can_finish ([] : list ikey) ∅ waiting_history s E).
Defined.
