(* ===== verification/RateLimit.v ===== *)
(** * The HTTP rate limiter (internal/api/ratelimit.go)

    Client keys (with the parts of package net they use), the fixed hourly and
    daily quota windows, idle eviction, and the whole decision of the middleware.
    The token bucket of golang.org/x/time/rate is the class [TokenBucket]. *)

From S2P Require Import Prelude GoStrings GoFloat GoJson IdemApi.
From Stdlib Require Import Ascii String.
Local Open Scope Z_scope.
Local Open Scope go_scope.
Local Notation length := List.length.

Definition Hour : Z := 3600 * Second.
Definition Day : Z := 24 * Hour.

(** ** Addresses (package net) *)

(** net/netip parseIPv4: four decimal fields up to 255 without leading zeros. *)
Definition ipv4_field (s : string) : bool :=
  match s with
  | EmptyString => false
  | String c r =>
      str_all is_digit s && (String.length s <=? 3)%nat &&
      (bool_decide (r = "") || negb (Ascii.eqb c "0")) &&
      match parse_digits 0 s with Some n => n <=? 255 | None => false end
  end.
Definition parse_ipv4 (s : string) : bool :=
  match str_split "." s with
  | [a; b; c; d] => ipv4_field a && ipv4_field b && ipv4_field c && ipv4_field d
  | _ => false
  end.

(** The hexadecimal digits a string starts with and the rest. *)
Fixpoint span_hex (s : string) : string * string :=
  match s with
  | String c r => if is_hex c then let '(a, b) := span_hex r in (String c a, b) else ("", s)
  | EmptyString => ("", "")
  end.

(** The loop of net/netip parseIPv6 at byte [i] of the address; [ell] says that
    "::" was seen. At most eight groups are read. *)
Fixpoint ipv6_groups (fuel : nat) (i : Z) (ell : bool) (s : string) : bool :=
  match fuel with
  | O => false
  | S f =>
      if 16 <=? i then bool_decide (s = "") && negb ell
      else
        let '(h, r) := span_hex s in
        if (String.length h =? 0)%nat || (4 <? String.length h)%nat then false
        else match r with
             | EmptyString => if i + 2 <? 16 then ell else negb ell
             | String c r' =>
                 if Ascii.eqb c "." then
                   (ell || (i =? 12)) && (i + 4 <=? 16) && parse_ipv4 s && (if i + 4 <? 16 then ell else negb ell)
                 else if Ascii.eqb c ":" then
                   match r' with
                   | EmptyString => false
                   | String c2 r2 =>
                       if Ascii.eqb c2 ":" then
                         if ell then false
                         else if bool_decide (r2 = "") then i + 2 <? 16
                         else ipv6_groups f (i + 2) true r2
                       else ipv6_groups f (i + 2) ell r'
                   end
                 else false
             end
  end.
Definition parse_ipv6 (s : string) : bool :=
  negb (str_contains "%" s) &&
  match strip_prefix "::" s with
  | Some "" => true
  | Some r => ipv6_groups 9 0 true r
  | None => ipv6_groups 9 0 false s
  end.

(** The first of '.', ':' and '%' decides the family. *)
Fixpoint ip_family (s : string) : option ascii :=
  match s with
  | EmptyString => None
  | String c r => if (Ascii.eqb c "." || Ascii.eqb c ":" || Ascii.eqb c "%")%bool then Some c else ip_family r
  end.
(** net.ParseIP(s) != nil. *)
Definition ParseIP (s : string) : bool :=
  match ip_family s with
  | Some c => if Ascii.eqb c "." then parse_ipv4 s else if Ascii.eqb c ":" then parse_ipv6 s else false
  | None => false
  end.

(** The host of net.SplitHostPort; [None] is an error. *)
Definition SplitHostPort (s : string) : option string :=
  match cut_last ":" s with
  | None => None
  | Some (before, port) =>
      match s with
      | String "[" r =>
          match cut_first "]" r with
          | None => None
          | Some (host, after) =>
              if bool_decide (after = String ":" port) && negb (str_contains "[" (host +++ "]" +++ after)) &&
                 negb (str_contains "]" after)
              then Some host else None
          end
      | _ =>
          if str_contains ":" before || str_contains "[" s || str_contains "]" s then None else Some before
      end
  end.

Example parse_ips : map ParseIP ["10.0.0.1"; "010.0.0.1"; "2001:db8::1"; "::"; "::ffff:1.2.3.4"; "1:2:3:4:5:6:7:8"; "1:2:3"; "fe80::1%eth0"; "x"]
  = [true; false; true; true; true; true; false; false; false].
Proof. reflexivity. Qed.
Example split_hosts : map SplitHostPort ["10.0.0.1:80"; "[::1]:443"; "[::1]"; "::1"; "10.0.0.1"]
  = [Some "10.0.0.1"; Some "::1"; None; None; None].
Proof. reflexivity. Qed.

(** ** Client keys *)

Definition unbracket (s : string) : option string :=
  match s with
  | String "[" r =>
      match cut_last "]" r with
      | Some (inner, "") => if negb (bool_decide (inner = "")) && ParseIP inner then Some inner else None
      | _ => None
      end
  | _ => None
  end.

(** The first usable entry of X-Forwarded-For. *)
Fixpoint forwarded_ip (parts : list string) : option string :=
  match parts with
  | [] => None
  | part :: rest =>
      let part := TrimSpace part in
      if bool_decide (part = "") then forwarded_ip rest
      else match SplitHostPort part with
           | Some host => if ParseIP host then Some host else forwarded_ip rest
           | None =>
               if ParseIP part then Some part
               else match unbracket part with Some host => Some host | None => forwarded_ip rest end
           end
  end.

(** The parts of a request the limiter reads. *)
Record LRequest : Type := mkLRequest {
  lr_path : string;
  lr_forwarded : string;
  lr_remote : string;
  lr_req : Request }.

Definition clientIP (r : LRequest) (trustXFF : bool) : string :=
  let direct :=
    match SplitHostPort (lr_remote r) with
    | Some host => if ParseIP host then Some host else None
    | None => None
    end in
  let remote :=
    match direct with
    | Some host => host
    | None => if ParseIP (lr_remote r) then lr_remote r else default "" (unbracket (lr_remote r))
    end in
  if trustXFF && negb (bool_decide (lr_forwarded r = "")) then default remote (forwarded_ip (str_split "," (lr_forwarded r)))
  else remote.

Definition clientKey (trusted : bool) (r : LRequest) : string :=
  let key := credentialFromRequest (lr_req r) in
  if negb (bool_decide (key = "")) then "api:" +++ key
  else let ip := clientIP r trusted in if bool_decide (ip = "") then "unknown" else ip.

(** ** Token buckets (golang.org/x/time/rate) *)

(** [tb_reserve now b] is Reserve at that instant: whether the reservation is
    possible, its delay, and the bucket with the reservation made; [tb_cancel]
    gives it back. *)
Class TokenBucket (B : Type) : Type := {
  tb_new : float64 -> Z -> B;
  tb_limit : B -> float64;
  tb_burst : B -> Z;
  tb_set : float64 -> Z -> Z -> B -> B;
  tb_reserve : Z -> B -> (bool * Z) * B;
  tb_cancel : Z -> B -> B;
  tb_tokens : Z -> B -> float64 }.

(** ** Configuration *)

Record LimiterConfig : Type := mkLimiterConfig {
  lc_rps : float64;
  lc_burst : Z;
  lc_trusted : bool;
  lc_hourlyQuota : Z;
  lc_dailyQuota : Z;
  lc_idleTTL : Z;
  lc_resolve : option (LRequest -> option (string * float64 * Z)) }.

Definition f64_pos (x : float64) : bool := f64_ltb f64_0 x.

(** NewRateLimiter without options, and the options. *)
Definition NewRateLimiter (rps : float64) (burst : Z) (trusted : bool) : LimiterConfig :=
  mkLimiterConfig rps burst trusted 0 0 (5 * Minute) None.
Definition WithHourlyQuota (limit : Z) (c : LimiterConfig) : LimiterConfig :=
  if 0 <=? limit then mkLimiterConfig (lc_rps c) (lc_burst c) (lc_trusted c) limit (lc_dailyQuota c) (lc_idleTTL c) (lc_resolve c) else c.
Definition WithDailyQuota (limit : Z) (c : LimiterConfig) : LimiterConfig :=
  if 0 <=? limit then mkLimiterConfig (lc_rps c) (lc_burst c) (lc_trusted c) (lc_hourlyQuota c) limit (lc_idleTTL c) (lc_resolve c) else c.
Definition WithIdleTTL (d : Z) (c : LimiterConfig) : LimiterConfig :=
  if 0 <? d then mkLimiterConfig (lc_rps c) (lc_burst c) (lc_trusted c) (lc_hourlyQuota c) (lc_dailyQuota c) d (lc_resolve c) else c.
Definition WithLimitResolver (f : LRequest -> option (string * float64 * Z)) (c : LimiterConfig) : LimiterConfig :=
  mkLimiterConfig (lc_rps c) (lc_burst c) (lc_trusted c) (lc_hourlyQuota c) (lc_dailyQuota c) (lc_idleTTL c) (Some f).

Definition Enabled (c : LimiterConfig) : bool :=
  (f64_pos (lc_rps c) && (0 <? lc_burst c)) || (match lc_resolve c with Some _ => true | None => false end) ||
  (0 <? lc_hourlyQuota c) || (0 <? lc_dailyQuota c).

Definition quotaEnabled (c : LimiterConfig) : bool := (0 <? lc_hourlyQuota c) || (0 <? lc_dailyQuota c).

(** The tenant path; the overrides are pointers in the source. *)
Definition TenantLimitResolver (defaultRPS : float64) (defaultBurst : Z)
    (overrides : Principal -> option float64 * option Z) (r : LRequest) : option (string * float64 * Z) :=
  match q_Principal (lr_req r) with
  | None => None
  | Some p =>
      if pr_Untenanted p || (pr_TenantID p =? 0) then None
      else
        let '(orps, oburst) := overrides p in
        let overridden := match orps, oburst with None, None => false | _, _ => true end in
        if negb overridden && (f64_leb defaultRPS f64_0 || (defaultBurst <=? 0)) then None
        else Some ("tenant:" +++ FormatInt (pr_TenantID p), default defaultRPS orps, default defaultBurst oburst)
  end.

(** ** Quotas *)

Record quotaEntry : Type := mkQuota {
  qe_hourStart : Z;
  qe_dayStart : Z;
  qe_hourUsed : Z;
  qe_dayUsed : Z }.

Definition zeroQuota : quotaEntry := mkQuota time_zero time_zero 0 0.

(** A window of [width] that starts at the first request after it closed. *)
Definition open_window (width now start used : Z) : Z * Z :=
  if time_IsZero start || (width <=? time_Sub now start) then (now, 0) else (start, used).

(** The counters of one client: (remaining, retryAfter, ok). *)
Definition checkEntry (c : LimiterConfig) (now : Z) (q : quotaEntry) : (Z * Z * bool) * quotaEntry :=
  let '(hs, hu) := if 0 <? lc_hourlyQuota c then open_window Hour now (qe_hourStart q) (qe_hourUsed q)
                   else (qe_hourStart q, qe_hourUsed q) in
  let q := mkQuota hs (qe_dayStart q) hu (qe_dayUsed q) in
  if (0 <? lc_hourlyQuota c) && (lc_hourlyQuota c <=? hu) then
    ((0, Z.max 0 (time_Sub (hs + Hour) now), false), q)
  else
    let '(ds, du) := if 0 <? lc_dailyQuota c then open_window Day now (qe_dayStart q) (qe_dayUsed q)
                     else (qe_dayStart q, qe_dayUsed q) in
    let q := mkQuota hs ds hu du in
    if (0 <? lc_dailyQuota c) && (lc_dailyQuota c <=? du) then
      ((0, Z.max 0 (time_Sub (ds + Day) now), false), q)
    else
      let hu := i64 (hu + 1) in let du := i64 (du + 1) in
      let remaining := i64 (lc_hourlyQuota c - hu) in
      let remaining :=
        if 0 <? lc_dailyQuota c then
          let dailyRemaining := i64 (lc_dailyQuota c - du) in
          if (lc_hourlyQuota c <=? 0) || (dailyRemaining <? remaining) then dailyRemaining else remaining
        else remaining in
      let remaining := if (0 <? lc_hourlyQuota c) && (remaining <? 0) then 0 else remaining in
      let remaining := if (0 <? lc_dailyQuota c) && (remaining <? 0) then 0 else remaining in
      ((remaining, 0, true), mkQuota hs ds hu du).

Definition checkQuota (c : LimiterConfig) (key : string) (now : Z) (qs : gmap string quotaEntry)
  : (Z * Z * bool) * gmap string quotaEntry :=
  let '(r, q) := checkEntry c now (default zeroQuota (qs !! key)) in (r, <[key := q]> qs).

Definition quotaWindowLive (c : LimiterConfig) (q : quotaEntry) (now : Z) : bool :=
  ((0 <? lc_hourlyQuota c) && negb (time_IsZero (qe_hourStart q)) && (time_Sub now (qe_hourStart q) <? Hour)) ||
  ((0 <? lc_dailyQuota c) && negb (time_IsZero (qe_dayStart q)) && (time_Sub now (qe_dayStart q) <? Day)).

(** ** Responses *)

(** Rounded up to whole seconds. *)
Definition ceilSeconds (d : Z) : Z :=
  if d <=? 0 then Second
  else let secs := Z.quot d Second in (if Z.rem d Second =? 0 then secs else secs + 1) * Second.

(** What a request gets: passed on (with the remaining count and the reset time of
    its headers, if any), or 429 with Retry-After. *)
Inductive verdict : Type :=
  | Served (headers : option (Z * Z * Z))
  | Limited (retryAfterSecs burst resetAt : Z).

Definition is_served (v : verdict) : bool := match v with Served _ => true | Limited _ _ _ => false end.

(** writeLimited: int(d.Seconds()) truncates, and is at least one. *)
Definition writeLimited (now retryAfter burst : Z) : verdict :=
  let secs := f64_trunc (Duration_Seconds retryAfter) in
  Limited (if secs <? 1 then 1 else secs) burst (now + retryAfter).

Definition clampRemaining (remaining burst : Z) : Z :=
  let r := if remaining <? 0 then 0 else remaining in if burst <? r then burst else r.

(** ** The limiter *)

Section Limiter.
Context {B : Type} `{TokenBucket B}.
Context (c : LimiterConfig).

Record bucketEntry : Type := mkBucket { be_limiter : B; be_lastSeen : Z }.

Record RateLimiter : Type := mkLimiter {
  rl_buckets : gmap string bucketEntry;
  rl_quotas : gmap string quotaEntry }.

Definition emptyLimiter : RateLimiter := mkLimiter ∅ ∅.

(** [clk] is l.now(), [rt] the clock of the rate package. *)
Definition bucketEntryFor (key : string) (rps : float64) (burst clk rt : Z) (l : RateLimiter) : B * RateLimiter :=
  let b :=
    match rl_buckets l !! key with
    | Some e =>
        if SpecFloat.SFeqb (tb_limit (be_limiter e)) rps && (tb_burst (be_limiter e) =? burst) then be_limiter e
        else tb_set rps burst rt (be_limiter e)
    | None => tb_new rps burst
    end in
  (b, mkLimiter (<[key := mkBucket b clk]> (rl_buckets l)) (rl_quotas l)).

(** The limiter object is shared: its reservation is stored back. *)
Definition put_bucket (key : string) (b : B) (clk : Z) (l : RateLimiter) : RateLimiter :=
  mkLimiter (<[key := mkBucket b clk]> (rl_buckets l)) (rl_quotas l).

Definition exemptPath (p : string) : bool :=
  bool_decide (p = "/health") || bool_decide (p = "/livez") || bool_decide (p = "/readyz") || bool_decide (p = "/metrics").

Definition limitsFor (r : LRequest) : option (string * float64 * Z) :=
  match lc_resolve c with Some f => f r | None => None end.

Definition nextRateLimitReset (b : B) (clk rt : Z) : Z :=
  if f64_leb (tb_limit b) f64_0 then time_zero
  else
    let tokens := tb_tokens rt b in
    if f64_leb (f64_of_Z 1) tokens then clk + Second
    else
      let wait := f64_trunc (f64_mul (f64_div (f64_sub (f64_of_Z 1) tokens) (tb_limit b)) (f64_of_Z Second)) in
      clk + (if wait <=? 0 then Second else wait).

(** The decision for a request whose key and limits are known. *)
Definition admit_request (key : string) (rps : float64) (burst clk rt : Z) (l : RateLimiter) : verdict * RateLimiter :=
  let '(b, l) := bucketEntryFor key rps burst clk rt l in
  let '((ok, delay), b1) := tb_reserve rt b in
  if negb ok then (writeLimited clk (lc_idleTTL c) burst, put_bucket key b1 clk l)
  else if 0 <? delay then (writeLimited clk (ceilSeconds delay) burst, put_bucket key (tb_cancel rt b1) clk l)
  else
    let l := put_bucket key b1 clk l in
    if quotaEnabled c then
      let '((remaining, retryAfter, okq), qs) := checkQuota c key clk (rl_quotas l) in
      let l := mkLimiter (rl_buckets l) qs in
      if okq then (Served (Some (burst, remaining, clk + retryAfter)), l) else (writeLimited clk retryAfter burst, l)
    else
      (Served (Some (burst, clampRemaining (f64_trunc (tb_tokens rt b1)) burst, nextRateLimitReset b1 clk rt)), l).

Definition Middleware (r : LRequest) (clk rt : Z) (l : RateLimiter) : verdict * RateLimiter :=
  if negb (Enabled c) then (Served None, l)
  else if exemptPath (lr_path r) then (Served None, l)
  else match limitsFor r with
       | Some (key, rps, burst) =>
           if f64_leb rps f64_0 || (burst <=? 0) then (writeLimited clk Second burst, l)
           else admit_request key rps burst clk rt l
       | None =>
           if f64_leb (lc_rps c) f64_0 || (lc_burst c <=? 0) then (Served None, l)
           else admit_request (clientKey (lc_trusted c) r) (lc_rps c) (lc_burst c) clk rt l
       end.

Definition evictIdle (now : Z) (l : RateLimiter) : RateLimiter :=
  let cutoff := now - lc_idleTTL c in
  mkLimiter (filter (fun x => negb (be_lastSeen x.2 <? cutoff) = true) (rl_buckets l))
            (filter (fun x => quotaWindowLive c x.2 now = true) (rl_quotas l)).

Definition InvalidateTenant (tenantID : Z) (l : RateLimiter) : RateLimiter :=
  if tenantID <=? 0 then l
  else mkLimiter (delete ("tenant:" +++ FormatInt tenantID) (rl_buckets l)) (rl_quotas l).

Definition ClearBuckets (l : RateLimiter) : RateLimiter := mkLimiter ∅ (rl_quotas l).

(** ** Histories *)

Inductive limiter_op : Type :=
  | LRequestAt (r : LRequest) (clk rt : Z)
  | LEvict (clk : Z)
  | LInvalidate (tenantID : Z)
  | LClear.

(** The client a request is made by: the key of its limits, or the one Middleware
    falls back to. Requests for the exempt paths belong to none. *)
Definition quota_key (r : LRequest) : option string :=
  if exemptPath (lr_path r) then None
  else match limitsFor r with
       | Some (key, _, _) => Some key
       | None => Some (clientKey (lc_trusted c) r)
       end.

(** One operation, and the client and time of a request it let through, counted
    by a quota or not. *)
Definition limiter_step (o : limiter_op) (l : RateLimiter) : option (string * Z) * RateLimiter :=
  match o with
  | LRequestAt r clk rt =>
      let '(v, l') := Middleware r clk rt l in
      (if is_served v then (fun k => (k, clk)) <$> quota_key r else None, l')
  | LEvict clk => (None, evictIdle clk l)
  | LInvalidate t => (None, InvalidateTenant t l)
  | LClear => (None, ClearBuckets l)
  end.

(** The admissions of a history, oldest first. *)
Fixpoint limiter_run (ops : list limiter_op) (l : RateLimiter) : list (string * Z) :=
  match ops with
  | [] => []
  | o :: ops =>
      let '(a, l) := limiter_step o l in
      match a with Some x => x :: limiter_run ops l | None => limiter_run ops l end
  end.
End Limiter.
Arguments RateLimiter B : clear implicits.
Arguments bucketEntry B : clear implicits.
