(* ===== verification/RateLimitProps.v ===== *)
(** * What the rate limiter guarantees

    Over every history of requests, sweeps and invalidations with a clock that
    does not go back, and for every token bucket, the admissions of a client fall
    into windows that each hold at most the quota. *)

From S2P Require Import Prelude GoStrings GoFloat IdemApi RateLimit.
From Stdlib Require Import Ascii String.
Local Open Scope Z_scope.
Local Open Scope go_scope.
Local Notation length := List.length.

(** ** Windows *)

(** Windows, newest first: a start and the admissions in it. *)
Definition window : Type := Z * list Z.

Fixpoint windows_ok (width quota : Z) (ws : list window) : Prop :=
  match ws with
  | [] => True
  | (s, ts) :: rest =>
      Forall (fun t => s <= t < s + width) ts /\ Z.of_nat (length ts) <= quota /\
      match rest with [] => True | (s', _) :: _ => s' + width <= s end /\ windows_ok width quota rest
  end.

(** The admissions of the windows, newest first. *)
Definition admissions (ws : list window) : list Z := mjoin (snd <$> ws).

(** How many of the times lie in [T, T + width). *)
Definition count_in (T width : Z) (ts : list Z) : Z :=
  Z.of_nat (length (List.filter (fun t => (T <=? t) && (t <? T + width)) ts)).

Lemma count_in_app T width a b : count_in T width (a ++ b) = count_in T width a + count_in T width b.
Proof. unfold count_in. rewrite List.filter_app, List.length_app. lia. Qed.

Lemma count_in_le T width ts : 0 <= count_in T width ts <= Z.of_nat (length ts).
Proof. unfold count_in. pose proof (List.filter_length_le (fun t => (T <=? t) && (t <? T + width)) ts). lia. Qed.

Lemma count_in_none T width ts : Forall (fun t => t < T \/ T + width <= t) ts -> count_in T width ts = 0.
Proof.
  unfold count_in. induction 1 as [|t ts Ht _ IH]; [done|]. cbn [List.filter].
  destruct (Z.leb_spec T t), (Z.ltb_spec t (T + width)); cbn [andb]; (done || lia).
Qed.

Lemma admissions_cons s ts ws : admissions ((s, ts) :: ws) = ts ++ admissions ws.
Proof. done. Qed.

(** Windows that closed before [T] contribute nothing. *)
Lemma closed_windows_none width quota T ws : windows_ok width quota ws ->
  match ws with [] => True | (s, _) :: _ => s + width <= T end -> 0 < width -> count_in T width (admissions ws) = 0.
Proof.
  induction ws as [|[s ts] ws IH]; intros Hok Hs Hw; [done|]. destruct Hok as (Hts & _ & Hgap & Hrest).
  rewrite admissions_cons, count_in_app, count_in_none, IH; [done|done| |done|].
  - destruct ws as [|[s' ts'] ws]; [done|lia].
  - eapply list.Forall_impl; [exact Hts|]. cbn. intros t Ht. lia.
Qed.

Lemma old_windows_once width quota T ws : windows_ok width quota ws -> 0 < width -> 0 <= quota ->
  match ws with [] => True | (s, _) :: _ => s <= T end -> count_in T width (admissions ws) <= quota.
Proof.
  intros Hok Hw Hq Hs. destruct ws as [|[s ts] ws]; [exact Hq|]. destruct Hok as (Hts & Hlen & Hgap & Hrest).
  rewrite admissions_cons, count_in_app, (closed_windows_none width quota T ws Hrest); [| |done].
  - pose proof (count_in_le T width ts). lia.
  - destruct ws as [|[s' ts'] ws]; [done|lia].
Qed.

(** Any interval of the width of a window meets at most two of them. *)
Lemma any_window_twice width quota T ws : windows_ok width quota ws -> 0 < width -> 0 <= quota ->
  count_in T width (admissions ws) <= 2 * quota.
Proof.
  intros Hok Hw Hq. induction ws as [|[s ts] ws IH]; [change (0 <= 2 * quota); lia|].
  destruct Hok as (Hts & Hlen & Hgap & Hrest). rewrite admissions_cons, count_in_app.
  pose proof (count_in_le T width ts). destruct (Z.le_gt_cases (T + width) s) as [Hs|Hs].
  - rewrite (count_in_none T width ts); [specialize (IH Hrest); lia|].
    eapply list.Forall_impl; [exact Hts|]. cbn. intros t Ht. lia.
  - pose proof (old_windows_once width quota T ws Hrest Hw Hq) as Hold. destruct ws as [|[s' ts'] ws]; [change (count_in T width (admissions [])) with 0; lia|].
    specialize (Hold ltac:(lia)). lia.
Qed.

(** ** One counter *)

(** What a request does to the start and the count of one of its windows:
    nothing, or the window is opened if needed and the request counted or not. *)
Definition counter_step (width quota now : Z) (ok : bool) (s u s' u' : Z) : Prop :=
  ok = false /\ s' = s /\ u' = u \/
  let '(s1, u1) := open_window width now s u in
  s' = s1 /\ (ok = true /\ u1 < quota /\ u' = i64 (u1 + 1) \/ ok = false /\ u' = u1).

Lemma checkEntry_hour c now q r q' : 0 < lc_hourlyQuota c -> checkEntry c now q = (r, q') ->
  counter_step Hour (lc_hourlyQuota c) now r.2 (qe_hourStart q) (qe_hourUsed q) (qe_hourStart q') (qe_hourUsed q').
Proof.
  intros Hq Hc. unfold checkEntry in Hc. rewrite (proj2 (Z.ltb_lt 0 _) Hq) in Hc. unfold counter_step.
  destruct (open_window Hour now (qe_hourStart q) (qe_hourUsed q)) as [hs hu]. cbn [andb] in Hc.
  destruct (Z.leb_spec (lc_hourlyQuota c) hu); [simplify_eq; cbn; auto|].
  destruct (if 0 <? lc_dailyQuota c then _ else _) as [ds du].
  destruct (_ && _) in Hc; simplify_eq; cbn; auto 10.
Qed.

Lemma checkEntry_day c now q r q' : 0 < lc_dailyQuota c -> checkEntry c now q = (r, q') ->
  counter_step Day (lc_dailyQuota c) now r.2 (qe_dayStart q) (qe_dayUsed q) (qe_dayStart q') (qe_dayUsed q').
Proof.
  intros Hq Hc. unfold checkEntry in Hc. unfold counter_step.
  destruct (if 0 <? lc_hourlyQuota c then _ else _) as [hs hu] in Hc.
  destruct (_ && _) in Hc; [simplify_eq; cbn; auto|]. cbn [qe_dayStart qe_dayUsed] in Hc.
  rewrite (proj2 (Z.ltb_lt 0 _) Hq) in Hc. destruct (open_window Day now (qe_dayStart q) (qe_dayUsed q)) as [ds du].
  cbn [andb] in Hc. destruct (Z.leb_spec (lc_dailyQuota c) du); simplify_eq; cbn; auto 10.
Qed.

(** The counter of a client accounts for its admissions up to time [T]: it is the
    newest window, or that window has closed. *)
Definition accounts (width quota T : Z) (entry : option (Z * Z)) (log : list Z) : Prop :=
  exists ws, windows_ok width quota ws /\ log = admissions ws /\
    match ws with [] => True | (s, _) :: _ => s <= T end /\
    match entry with
    | Some (s, u) =>
        if time_IsZero s then match ws with [] => True | (s', _) :: _ => s' + width <= T end
        else exists ts rest, ws = (s, ts) :: rest /\ u = Z.of_nat (length ts)
    | None => match ws with [] => True | (s', _) :: _ => s' + width <= T end
    end.

Lemma time_Sub_leb width a b : 0 < width <= maxInt64 -> (width <=? time_Sub a b) = (width <=? a - b).
Proof.
  intros Hw. unfold time_Sub, minInt64 in *. destruct (Z.leb_spec width (Z.max (-9223372036854775808) (Z.min maxInt64 (a - b)))),
    (Z.leb_spec width (a - b)); (done || lia).
Qed.

(** Time passes. *)
Lemma accounts_later width quota T T' e log : T <= T' -> accounts width quota T e log -> accounts width quota T' e log.
Proof.
  intros HT (ws & Hok & Hlog & Hs & He). exists ws. split_and!; [done|done|destruct ws as [|[s ts] ws]; [done|lia]|].
  destruct e as [[s u]|]; [destruct (time_IsZero s); [|done]|]; destruct ws as [|[s' ts] ws]; (done || lia).
Qed.

Lemma accounts_step width quota T now ok s u s' u' log :
  0 < width <= maxInt64 -> 0 < quota <= maxInt64 -> time_zero < now -> T <= now ->
  accounts width quota T (Some (s, u)) log -> counter_step width quota now ok s u s' u' ->
  accounts width quota now (Some (s', u')) (if ok then now :: log else log).
Proof.
  intros Hw Hq Hz HT Hacc Hstep. apply (accounts_later _ _ _ now _ _ HT) in Hacc.
  destruct Hstep as [(-> & -> & ->)|Hstep]; [done|]. destruct Hacc as (ws & Hok & -> & Hs & He).
  assert (Hnz : time_IsZero now = false) by (unfold time_IsZero; apply Z.eqb_neq; lia).
  unfold open_window in Hstep. destruct (time_IsZero s || (width <=? time_Sub now s)) eqn:Eopen.
  - assert (Hclosed : match ws with [] => True | (s0, _) :: _ => s0 + width <= now end).
    { destruct (time_IsZero s); [done|]. cbn in Eopen. rewrite time_Sub_leb in Eopen by done. to_prop.
      destruct He as (ts & rest & -> & _). lia. }
    assert (Hgap : match ws with [] => True | (s0, _) :: _ => s0 + width <= now end) by done.
    destruct Hstep as [-> [(-> & _ & ->)|(-> & ->)]].
    + exists ((now, [now]) :: ws). cbn [windows_ok]. split_and!; try done; try lia.
      * constructor; [lia|constructor].
      * cbn. lia.
      * rewrite Hnz. exists [now], ws. done.
    + exists ((now, []) :: ws). cbn [windows_ok]. split_and!; try done; try lia.
      * cbn. lia.
      * rewrite Hnz. exists [], ws. done.
  - apply orb_false_iff in Eopen as [Ez El]. rewrite time_Sub_leb in El by done. to_prop.
    rewrite Ez in He. destruct He as (ts & rest & -> & ->). destruct Hok as (Hts & Hlen & Hgap & Hrest).
    destruct Hstep as [-> [(-> & Hlt & ->)|(-> & ->)]].
    + exists ((s, now :: ts) :: rest). cbn [windows_ok]. split_and!; try done.
      * constructor; [lia|done].
      * cbn [List.length]. lia.
      * rewrite Ez. exists (now :: ts), rest. split; [done|]. cbn [List.length]. unfold maxInt64 in *.
        rewrite i64_id by (unfold in_i64, minInt64, maxInt64; lia). lia.
    + exists ((s, ts) :: rest). cbn [windows_ok]. split_and!; try done. rewrite Ez. eauto.
Qed.

(** A sweep drops the counter only when its window has closed. *)
Lemma accounts_evict width quota T now s u log :
  0 < width <= maxInt64 -> T <= now -> accounts width quota T (Some (s, u)) log ->
  negb (time_IsZero s) && (time_Sub now s <? width) = false -> accounts width quota now None log.
Proof.
  intros Hw HT Hacc Hdead. apply (accounts_later _ _ _ now _ _ HT) in Hacc. destruct Hacc as (ws & Hok & -> & Hs & He).
  exists ws. split_and!; try done. destruct (time_IsZero s); [done|]. destruct He as (ts & rest & -> & _). cbn in Hdead.
  rewrite Z.ltb_antisym, time_Sub_leb in Hdead by done. to_prop. lia.
Qed.

Lemma accounts_none width quota T : accounts width quota T None [].
Proof. exists []. done. Qed.

(** An absent counter and a fresh one account alike. *)
Lemma accounts_zero width quota T log : accounts width quota T None log <-> accounts width quota T (Some (time_zero, 0)) log.
Proof. done. Qed.

(** ** The limiter *)

(** The clock of a history does not go back, and is past the zero time. *)
Fixpoint clocks_ok (T : Z) (ops : list limiter_op) : Prop :=
  match ops with
  | [] => True
  | LRequestAt _ clk _ :: ops | LEvict clk :: ops => T <= clk /\ time_zero < clk /\ clocks_ok clk ops
  | _ :: ops => clocks_ok T ops
  end.

(** The times at which a client was admitted, newest first. *)
Definition admitted (k : string) (l : list (string * Z)) : list Z :=
  rev (snd <$> List.filter (fun x => String.eqb x.1 k) l).

Section Counted.
Context {B : Type} `{TokenBucket B} (c : LimiterConfig).

Lemma bucketEntryFor_quotas key rps burst clk rt l b l' :
  bucketEntryFor key rps burst clk rt l = (b, l') -> rl_quotas l' = rl_quotas l.
Proof. unfold bucketEntryFor. by intros [= _ <-]. Qed.

(** A request either leaves the quotas alone and is refused, or is decided by them. *)
Lemma admit_quota key rps burst clk rt l v l' : quotaEnabled c = true ->
  admit_request c key rps burst clk rt l = (v, l') ->
  rl_quotas l' = rl_quotas l /\ is_served v = false \/
  exists r qs, checkQuota c key clk (rl_quotas l) = (r, qs) /\ rl_quotas l' = qs /\ is_served v = r.2.
Proof.
  intros Hq Hadm. unfold admit_request in Hadm. destruct (bucketEntryFor _ _ _ _ _ _) as [b l1] eqn:Hb.
  apply bucketEntryFor_quotas in Hb. destruct (tb_reserve rt b) as [[ok delay] b1].
  destruct ok; cbn [negb] in Hadm; [|injection Hadm as <- <-; left; split; [exact Hb|done]].
  destruct (0 <? delay); [injection Hadm as <- <-; left; split; [exact Hb|done]|].
  rewrite Hq in Hadm. cbn [put_bucket rl_quotas rl_buckets] in Hadm. rewrite Hb in Hadm.
  destruct (checkQuota c key clk (rl_quotas l)) as [[[rem ra] okq] qs] eqn:Hcq. right. exists (rem, ra, okq), qs.
  destruct okq; simplify_eq; done.
Qed.

(** With the fallback rate set, every request that is served to a client has been
    through its quota. *)
Lemma middleware_quota r clk rt l v l' : quotaEnabled c = true ->
  (f64_leb (lc_rps c) f64_0 || (lc_burst c <=? 0))%bool = false -> Middleware c r clk rt l = (v, l') ->
  rl_quotas l' = rl_quotas l /\ (is_served v = false \/ quota_key c r = None) \/
  exists key x qs, quota_key c r = Some key /\ checkQuota c key clk (rl_quotas l) = (x, qs) /\
    rl_quotas l' = qs /\ is_served v = x.2.
Proof.
  intros Hq Hrate Hmw. unfold Middleware in Hmw. unfold quota_key.
  assert (HE : Enabled c = true) by (unfold Enabled; unfold quotaEnabled in Hq; by rewrite <- orb_assoc, Hq, orb_true_r).
  rewrite HE in Hmw. cbn [negb] in Hmw.
  destruct (exemptPath (lr_path r)); [injection Hmw as <- <-; by auto|].
  destruct (limitsFor c r) as [[[key rps] burst]|].
  - destruct (f64_leb rps f64_0 || (burst <=? 0))%bool; [injection Hmw as <- <-; by auto|].
    destruct (admit_quota _ _ _ _ _ _ _ _ Hq Hmw) as [[? ?]|(x & qs & ? & ? & ?)]; [by auto|]. right. by exists key, x, qs.
  - rewrite Hrate in Hmw.
    destruct (admit_quota _ _ _ _ _ _ _ _ Hq Hmw) as [[? ?]|(x & qs & ? & ? & ?)]; [by auto|]. right. by eexists _, x, qs.
Qed.

(** One of the two counters of an entry. *)
Context (width quota : Z) (sel : quotaEntry -> Z * Z).
Hypothesis Hwidth : 0 < width <= maxInt64.
Hypothesis Hquota : 0 < quota <= maxInt64.
Hypothesis Henabled : quotaEnabled c = true.
Hypothesis Hrate : (f64_leb (lc_rps c) f64_0 || (lc_burst c <=? 0))%bool = false.
Hypothesis Hzero : sel zeroQuota = (time_zero, 0).
Hypothesis Hcheck : forall now q r q', checkEntry c now q = (r, q') ->
  counter_step width quota now r.2 (sel q).1 (sel q).2 (sel q').1 (sel q').2.
Hypothesis Hlive : forall q now, quotaWindowLive c q now = false ->
  negb (time_IsZero (sel q).1) && (time_Sub now (sel q).1 <? width) = false.

Definition counted (T : Z) (l : RateLimiter B) (log : list (string * Z)) : Prop :=
  forall k, accounts width quota T (sel <$> rl_quotas l !! k) (admitted k log).

Lemma counted_later T T' l log : T <= T' -> counted T l log -> counted T' l log.
Proof. intros HT Hc k. eapply accounts_later; eauto. Qed.

Lemma counted_quotas T l l' log : rl_quotas l' = rl_quotas l -> counted T l log -> counted T l' log.
Proof. intros Hq Hc k. rewrite Hq. apply Hc. Qed.

Lemma admitted_snoc k log x : admitted k (log ++ [x]) = if String.eqb x.1 k then x.2 :: admitted k log else admitted k log.
Proof.
  unfold admitted. rewrite List.filter_app. cbn [List.filter]. destruct (String.eqb x.1 k).
  - rewrite fmap_app, rev_app_distr. done.
  - by rewrite app_nil_r.
Qed.

Lemma counted_check T l log key now x qs l' :
  counted T l log -> T <= now -> time_zero < now -> checkQuota c key now (rl_quotas l) = (x, qs) -> rl_quotas l' = qs ->
  counted now l' (if x.2 then log ++ [(key, now)] else log).
Proof.
  intros Hc HT Hz Hcq Hqs k. unfold checkQuota in Hcq.
  destruct (checkEntry c now (default zeroQuota (rl_quotas l !! key))) as [r q'] eqn:Hce. injection Hcq as <- <-.
  rewrite Hqs. destruct (decide (k = key)) as [->|Hne].
  - rewrite lookup_insert_eq. cbn [fmap option_fmap option_map].
    apply Hcheck in Hce. destruct (sel q') as [s' u'] eqn:Hs'. cbn [fst snd] in Hce.
    assert (Hacc : accounts width quota T (Some (sel (default zeroQuota (rl_quotas l !! key)))) (admitted key log)).
    { specialize (Hc key). destruct (rl_quotas l !! key) as [q|]; cbn in *; [done|]. by rewrite Hzero. }
    destruct (sel (default zeroQuota (rl_quotas l !! key))) as [s u]. cbn [fst snd] in Hce.
    pose proof (accounts_step _ _ _ _ _ _ _ _ _ _ Hwidth Hquota Hz HT Hacc Hce) as Hacc'.
    destruct r.2; [|done]. rewrite admitted_snoc. cbn. by rewrite String.eqb_refl.
  - rewrite lookup_insert_ne by done. specialize (Hc k). apply (accounts_later _ _ _ now _ _ HT) in Hc.
    destruct r.2; [|done]. rewrite admitted_snoc. cbn. by rewrite (proj2 (String.eqb_neq key k)) by done.
Qed.

Lemma counted_step T o l log a l' : counted T l log -> clocks_ok T [o] -> limiter_step c o l = (a, l') ->
  counted (match o with LRequestAt _ clk _ | LEvict clk => clk | _ => T end) l'
          (match a with Some x => log ++ [x] | None => log end).
Proof.
  intros Hc Hclk Hst. destruct o as [r clk rt|clk|t|]; cbn in Hst.
  - destruct Hclk as (HT & Hz & _). destruct (Middleware c r clk rt l) as [v l1] eqn:Hmw. simplify_eq.
    destruct (middleware_quota _ _ _ _ _ _ Henabled Hrate Hmw) as [[Hq Hno]|(key & x & qs & Hk & Hcq & Hqs & Hv)].
    + apply (counted_quotas _ l); [done|]. apply (counted_later T); [done|].
      destruct Hno as [Hv|Hk]; [by rewrite Hv|]. rewrite Hk. by destruct (is_served v).
    + pose proof (counted_check T l log key clk x qs l' Hc HT Hz Hcq Hqs) as Hc'. rewrite Hk, Hv. by destruct x.2.
  - destruct Hclk as (HT & Hz & _). simplify_eq. intros k. specialize (Hc k). cbn [evictIdle rl_quotas].
    destruct (rl_quotas l !! k) as [q|] eqn:Hk; cbn in Hc.
    + destruct (quotaWindowLive c q clk) eqn:Hl.
      * rewrite (map_lookup_filter_Some_2 _ _ _ q) by done. cbn. eapply accounts_later; eauto.
      * rewrite map_lookup_filter_None_2 by (right; intros q0 Hq0; simplify_eq; cbn; by rewrite Hl). cbn.
        destruct (sel q) as [s u] eqn:Hs. eapply (accounts_evict width quota T clk s u); eauto.
        pose proof (Hlive q clk Hl) as Hd. by rewrite Hs in Hd.
    + rewrite map_lookup_filter_None_2 by auto. cbn. eapply accounts_later; eauto.
  - simplify_eq. apply (counted_quotas _ l); [|done]. unfold InvalidateTenant. by destruct (t <=? 0).
  - simplify_eq. by apply (counted_quotas _ l).
Qed.

Lemma counted_run ops : forall T l log, counted T l log -> clocks_ok T ops ->
  exists T' l', counted T' l' (log ++ limiter_run c ops l).
Proof.
  induction ops as [|o ops IH]; intros T l log Hc Hclk; [exists T, l; by rewrite app_nil_r|].
  cbn [limiter_run]. destruct (limiter_step c o l) as [a l1] eqn:Hst.
  assert (Ho : clocks_ok T [o]) by (destruct o; cbn in *; naive_solver).
  pose proof (counted_step T o l log a l1 Hc Ho Hst) as Hc1.
  assert (Hrest : clocks_ok (match o with LRequestAt _ clk _ | LEvict clk => clk | _ => T end) ops) by (destruct o; cbn in *; naive_solver).
  destruct (IH _ _ _ Hc1 Hrest) as (T' & l' & Hfin). exists T', l'. destruct a; [|done]. by rewrite <- app_assoc in Hfin.
Qed.

Lemma counted_windows T ops k : clocks_ok T ops ->
  exists ws, windows_ok width quota ws /\ admitted k (limiter_run c ops emptyLimiter) = admissions ws.
Proof.
  intros Hclk. assert (Hc : counted T emptyLimiter []) by (intros k'; cbn; rewrite lookup_empty; apply accounts_none).
  destruct (counted_run ops T emptyLimiter [] Hc Hclk) as (T' & l' & Hfin).
  destruct (Hfin k) as (ws & Hok & Hlog & _). by exists ws.
Qed.
End Counted.

(** C12: over every history of requests, sweeps, tenant invalidations and bucket
    resets with a clock that does not go back, and whatever the token buckets do,
    when a positive rate and burst are configured: the requests of each client
    that are let through (health and metrics probes aside) split into windows of
    one hour (one day) that each hold at most the hourly (daily) quota, so that
    no hour (day) whatsoever sees more than twice the quota. The sweep of idle
    state keeps the counters of open windows, so it never gives a client a fresh
    allowance. *)
Theorem quotas_bound_admissions {B : Type} `{TokenBucket B} (c : LimiterConfig) (T0 : Z) (ops : list limiter_op)
    (k : string) (width quota : Z) :
  (width, quota) = (Hour, lc_hourlyQuota c) \/ (width, quota) = (Day, lc_dailyQuota c) ->
  0 < quota <= maxInt64 -> (f64_leb (lc_rps c) f64_0 || (lc_burst c <=? 0))%bool = false -> clocks_ok T0 ops ->
  (exists ws, windows_ok width quota ws /\ admitted k (limiter_run c ops (emptyLimiter (B := B))) = admissions ws) /\
  forall T, count_in T width (admitted k (limiter_run c ops (emptyLimiter (B := B)))) <= 2 * quota.
Proof.
  intros Hsel Hq Hrate Hclk.
  assert (Hws : 0 < width /\ exists ws, windows_ok width quota ws /\ admitted k (limiter_run c ops (emptyLimiter (B := B))) = admissions ws).
  { destruct Hsel as [E|E]; injection E as -> ->; (split; [done|]).
    - apply (counted_windows c Hour (lc_hourlyQuota c) (fun q => (qe_hourStart q, qe_hourUsed q))) with (T := T0); try done.
      + unfold quotaEnabled. by rewrite (proj2 (Z.ltb_lt 0 (lc_hourlyQuota c))) by lia.
      + intros now q r q' Hce. apply checkEntry_hour in Hce; [done|lia].
      + intros q now Hl. unfold quotaWindowLive in Hl. rewrite (proj2 (Z.ltb_lt 0 (lc_hourlyQuota c))) in Hl by lia.
        apply orb_false_iff in Hl as [Hl _]. exact Hl.
    - apply (counted_windows c Day (lc_dailyQuota c) (fun q => (qe_dayStart q, qe_dayUsed q))) with (T := T0); try done.
      + unfold quotaEnabled. by rewrite (proj2 (Z.ltb_lt 0 (lc_dailyQuota c))), orb_true_r by lia.
      + intros now q r q' Hce. apply checkEntry_day in Hce; [done|lia].
      + intros q now Hl. unfold quotaWindowLive in Hl. rewrite (proj2 (Z.ltb_lt 0 (lc_dailyQuota c))) in Hl by lia.
        apply orb_false_iff in Hl as [_ Hl]. exact Hl. }
  destruct Hws as (Hw & ws & Hok & E). split; [by exists ws|]. intros T. rewrite E. apply any_window_twice; (done || lia).
Qed.

(** ** Retry-After *)

(** The wait of a refused token reservation is rounded up to whole seconds. *)
Lemma ceilSeconds_up d : 0 < d -> d <= ceilSeconds d < d + Second /\ ceilSeconds d mod Second = 0.
Proof.
  intros Hd. unfold ceilSeconds. destruct (Z.leb_spec d 0); [lia|]. cbv zeta.
  rewrite Z.quot_div_nonneg, Z.rem_mod_nonneg by (unfold Second; lia).
  pose proof (Z.div_mod d Second ltac:(done)). pose proof (Z.mod_pos_bound d Second ltac:(done)).
  destruct (Z.eqb_spec (d mod Second) 0) as [E|E]; (split; [|apply Z.mod_mul; done]); lia.
Qed.

(** ** A scripted bucket, and what the configuration can miss *)

(** A bucket that always has a token. *)
#[local] Instance open_bucket : TokenBucket unit := {
  tb_new _ _ := tt; tb_limit _ := f64_of_Z 1; tb_burst _ := 1; tb_set _ _ _ _ := tt;
  tb_reserve _ _ := ((true, 0), tt); tb_cancel _ _ := tt; tb_tokens _ _ := f64_of_Z 1 }.

Definition plain_request (remote cred : string) : LRequest :=
  mkLRequest "/events" "" remote (mkRequest "" "" cred None "GET" "/events" "/events" None 0).
Definition quota_config : LimiterConfig := WithHourlyQuota 2 (NewRateLimiter (f64_of_Z 1) 1 false).
Definition quota_ops : list limiter_op :=
  [LRequestAt (plain_request "10.0.0.1:5" "") 1 1; LRequestAt (plain_request "10.0.0.1:6" "") 2 2;
   LRequestAt (plain_request "10.0.0.1:7" "") 3 3; LEvict (10 * Minute); LRequestAt (plain_request "10.0.0.1:8" "") (20 * Minute) 4;
   LRequestAt (plain_request "10.0.0.1:9" "") (2 * Hour) 5].

Lemma quotas_bound_admissions_witness :
  limiter_run (B := unit) quota_config quota_ops emptyLimiter = [("10.0.0.1", 1); ("10.0.0.1", 2); ("10.0.0.1", 2 * Hour)] /\
  count_in 0 Hour (admitted "10.0.0.1" (limiter_run (B := unit) quota_config quota_ops emptyLimiter)) <= 2 * 2.
Proof.
  split; [vm_compute; reflexivity|].
  refine (proj2 (quotas_bound_admissions (B := unit) quota_config 0 quota_ops "10.0.0.1" Hour 2 (or_introl eq_refl) _ _ _) 0).
  - vm_compute. split; congruence.
  - vm_compute. reflexivity.
  - vm_compute. repeat split; congruence.
Defined.

(** With quotas but without RATE_LIMIT_RPS and RATE_LIMIT_BURST the limiter says it
    is enabled and lets every request through. *)
Lemma quota_without_rate_is_ignored (r : LRequest) clk rt (l : RateLimiter unit) :
  let c := WithHourlyQuota 1 (NewRateLimiter f64_0 0 false) in
  Enabled c = true /\ Middleware c r clk rt l = (Served None, l).
Proof.
  cbv zeta. split; [reflexivity|]. unfold Middleware. change (Enabled _) with true. cbn [negb].
  by destruct (exemptPath (lr_path r)).
Qed.

(** A client picks its own key: any credential it presents, valid or not, gives it
    another bucket and other quota counters. *)
Lemma presented_credential_is_the_key (trusted : bool) (r : LRequest) :
  credentialFromRequest (lr_req r) <> "" -> clientKey trusted r = "api:" +++ credentialFromRequest (lr_req r).
Proof. intros Hc. unfold clientKey. by rewrite bool_decide_eq_false_2. Qed.

Example rotated_keys_evade_quota :
  length (limiter_run (B := unit) (WithHourlyQuota 1 (NewRateLimiter (f64_of_Z 1) 1 false))
    [LRequestAt (plain_request "10.0.0.1:5" "a") 1 1; LRequestAt (plain_request "10.0.0.1:5" "b") 2 2;
     LRequestAt (plain_request "10.0.0.1:5" "c") 3 3] emptyLimiter) = 3%nat.
Proof. vm_compute. reflexivity. Qed.

(** The Retry-After of a spent quota is truncated: a client that waits exactly that
    long, here 3599 seconds of the remaining 3599.5, is refused again. *)
Lemma quota_retry_after_too_early :
  let c := WithHourlyQuota 1 (NewRateLimiter (f64_of_Z 1) 1 false) in
  let r := plain_request "10.0.0.1:5" "" in
  let t1 := 500000000 in
  let l1 := (Middleware (B := unit) c r 1 1 emptyLimiter).2 in
  let '(v, l2) := Middleware c r (1 + t1) 2 l1 in
  match v with
  | Limited secs _ _ => is_served (Middleware c r (1 + t1 + secs * Second) 3 l2).1 = false
  | Served _ => False
  end.
Proof. vm_compute. reflexivity. Qed.
