(* ===== verification/ApiKey.v ===== *)
(** * API keys (internal/apikey/apikey.go, the key format of internal/api/auth.go)

    The two key schemes: "sorotrail_<prefix>_<secret>" with hexadecimal parts and
    "st_<prefix>_<secret>" with unpadded base32 parts. Minting takes the random
    bytes it draws as an argument. [RedactIdentifier] is the public form of a
    presented key, the only one that may reach a log or the audit table. *)

From S2P Require Import Prelude GoStrings Codec StoreErrors ReorgTracker.
From Stdlib Require Import Ascii String.
Local Open Scope Z_scope.
Local Open Scope go_scope.
Local Notation length := List.length.

(** ** Operator keys *)

Definition SchemePrefix : string := "sorotrail_".
Definition PrefixLength : nat := 8.
Definition SecretLength : nat := 32.

Record minted : Type := mkMinted { mk_key : string; mk_prefix : string; mk_secret : string }.

(** [read n] is what rand.Read leaves in a buffer of [n] bytes, or its error. *)
Definition Generate (read : nat -> result error (list Z)) : result error minted :=
  match read PrefixLength with
  | Err e => Err e
  | Ok p =>
      match read SecretLength with
      | Err e => Err e
      | Ok s => let prefix := hex_encode p in let secret := hex_encode s in
                Ok (mkMinted (SchemePrefix +++ prefix +++ "_" +++ secret) prefix secret)
      end
  end.

Definition lower_hex (c : ascii) : bool :=
  is_digit c || ((97 <=? byte_val c) && (byte_val c <=? 102)).
Definition isHex (s : string) (n : nat) : bool := (String.length s =? n)%nat && str_all lower_hex s.

Definition Parse (key : string) : option (string * string) :=
  match strip_prefix SchemePrefix key with
  | None => None
  | Some rest =>
      match cut_first "_" rest with
      | Some (prefix, secret) =>
          if negb (isHex prefix (2 * PrefixLength)) || negb (isHex secret (2 * SecretLength)) then None
          else Some (prefix, secret)
      | None => None
      end
  end.

(** ** Redaction *)

Definition TenantSchemePrefix : string := "st_".

(** strings.ContainsAny(s, " \t\n\r") *)
Definition is_blank (c : ascii) : bool :=
  (byte_val c =? 32) || (byte_val c =? 9) || (byte_val c =? 10) || (byte_val c =? 13).
Definition has_blank (s : string) : bool := negb (str_all (fun c => negb (is_blank c)) s).

(** One scheme's block of RedactIdentifier: None when it falls through. *)
Definition redact_scheme (scheme presented : string) : option string :=
  match strip_prefix scheme presented with
  | None => None
  | Some rest =>
      match cut_first "_" rest with
      | Some (String _ _ as prefix, secret) =>
          if negb (bool_decide (secret = "")) && negb (str_contains "_" secret) &&
             negb (has_blank prefix) && negb (has_blank secret)
          then Some (scheme +++ prefix) else None
      | _ => if negb (bool_decide (rest = "")) && negb (has_blank rest) then Some (scheme +++ rest) else None
      end
  end.

Definition RedactIdentifier (presented : string) : option string :=
  let presented := TrimSpace presented in
  if bool_decide (presented = "") then None
  else match Parse presented with
       | Some (prefix, _) => Some (SchemePrefix +++ prefix)
       | None =>
           match redact_scheme TenantSchemePrefix presented with
           | Some r => Some r
           | None => redact_scheme SchemePrefix presented
           end
       end.

(** ** Tenant keys *)

Definition keyScheme : string := "st".
Definition keyPrefixLen : nat := 16.
Definition keyPrefixBytes : nat := 10.
Definition keySecretLen : nat := 32.

Definition b32_char (d : Z) : ascii := byte_of (if d <? 26 then 65 + d else 24 + d).
Fixpoint b32_digits (w : nat) (n : Z) : string :=
  match w with
  | O => ""
  | S w' => b32_digits w' (n / 32) +++ String (b32_char (n mod 32)) ""
  end.

(** base32.StdEncoding without padding: the bit string of the bytes, zero bits up
    to a multiple of five, five bits to a character. *)
Definition b32_encode (l : list Z) : string :=
  let bits := (8 * length l)%nat in
  let w := ((bits + 4) / 5)%nat in
  b32_digits w (fold_left (fun a b => a * 256 + b) l 0 * 2 ^ Z.of_nat (5 * w - bits)).

Record minted_tenant : Type := mkMintedTenant { mt_plaintext : string; mt_prefix : string; mt_digest : list Z }.

Definition GenerateAPIKey (read : nat -> result error (list Z)) : result error minted_tenant :=
  match read keyPrefixBytes with
  | Err e => Err (Errorf "generating key prefix" [e])
  | Ok p =>
      match read keySecretLen with
      | Err e => Err (Errorf "generating key secret" [e])
      | Ok s => let prefix := b32_encode p in let secret := b32_encode s in
                let plaintext := keyScheme +++ "_" +++ prefix +++ "_" +++ secret in
                Ok (mkMintedTenant plaintext prefix (sha256 (str_bytes plaintext)))
      end
  end.

Definition parseAPIKey (presented : string) : option (string * list Z) :=
  match str_split "_" presented with
  | [scheme; prefix; secret] =>
      if negb (bool_decide (scheme = keyScheme)) then None
      else if negb (String.length prefix =? keyPrefixLen)%nat || bool_decide (secret = "") then None
      else Some (prefix, sha256 (str_bytes presented))
  | _ => None
  end.

Definition ParseAPIKeyForBootstrap (key : string) : option (string * list Z) := parseAPIKey key.

Example b32_foobar : b32_encode (str_bytes "foobar") = "MZXW6YTBOI".
Proof. reflexivity. Qed.
Example redact_tenant : RedactIdentifier " st_AB_CD " = Some "st_AB".
Proof. reflexivity. Qed.
Example redact_plain : RedactIdentifier "hunter2" = None.
Proof. reflexivity. Qed.

(** ** The alphabets *)

(** Characters of generated key parts: ASCII letters and digits. *)
Definition alnum (c : ascii) : bool :=
  is_digit c || ((65 <=? byte_val c) && (byte_val c <=? 90)) || ((97 <=? byte_val c) && (byte_val c <=? 122)).

Ltac char_range := intros c; unfold alnum, lower_hex, is_digit, is_graph, is_blank;
  pose proof (byte_val_range c); rewrite ?negb_true_iff, ?orb_true_iff, ?orb_false_iff, ?andb_true_iff, ?Z.leb_le, ?Z.eqb_neq; lia.

Lemma lower_hex_alnum c : lower_hex c = true -> alnum c = true.
Proof. revert c. char_range. Qed.
Lemma alnum_graph c : alnum c = true -> is_graph c = true.
Proof. revert c. char_range. Qed.
Lemma alnum_not_blank c : alnum c = true -> negb (is_blank c) = true.
Proof. revert c. char_range. Qed.

Lemma hex_digit_lower d : 0 <= d < 16 -> lower_hex (hex_digit d) = true.
Proof.
  intros Hd. assert (Hall : forallb (fun d => lower_hex (hex_digit (Z.of_nat d))) (seq 0 16) = true) by (vm_compute; reflexivity).
  rewrite forallb_forall in Hall. specialize (Hall (Z.to_nat d)).
  rewrite Z2Nat.id in Hall by lia. apply Hall. apply in_seq. lia.
Qed.

Lemma b32_char_alnum d : 0 <= d < 32 -> alnum (b32_char d) = true.
Proof.
  intros Hd. assert (Hall : forallb (fun d => alnum (b32_char (Z.of_nat d))) (seq 0 32) = true) by (vm_compute; reflexivity).
  rewrite forallb_forall in Hall. specialize (Hall (Z.to_nat d)).
  rewrite Z2Nat.id in Hall by lia. apply Hall. apply in_seq. lia.
Qed.

Definition bytes_ok (l : list Z) : Prop := Forall (fun b => 0 <= b < 256) l.

Lemma hex_encode_shape l : bytes_ok l ->
  str_all lower_hex (hex_encode l) = true /\ String.length (hex_encode l) = (2 * length l)%nat.
Proof.
  induction 1 as [|b l Hb Hl [IHa IHn]]; [done|]. cbn [hex_encode fold_right]. fold (hex_encode l).
  cbn [str_all String.length length]. rewrite IHa, IHn, !hex_digit_lower; [split; [done|lia]| |].
  - pose proof (Z.mod_pos_bound b 16 ltac:(lia)). lia.
  - split; [apply Z.div_pos; lia|apply Z.div_lt_upper_bound; lia].
Qed.

Lemma b32_digits_shape w : forall n, 0 <= n ->
  str_all alnum (b32_digits w n) = true /\ String.length (b32_digits w n) = w.
Proof.
  induction w as [|w IH]; intros n Hn; [done|]. cbn [b32_digits].
  destruct (IH (n / 32) ltac:(apply Z.div_pos; lia)) as [Ha Hl].
  rewrite str_all_app, length_append, Ha, Hl. cbn [str_all String.length].
  rewrite b32_char_alnum by (apply Z.mod_pos_bound; lia). split; [done|lia].
Qed.

Lemma bytes_number l : forall a, 0 <= a -> bytes_ok l -> 0 <= fold_left (fun a b => a * 256 + b) l a.
Proof. induction l as [|b l IH]; intros a Ha Hl; [done|]. inversion Hl; subst. apply IH; [lia|done]. Qed.

Lemma b32_encode_shape l : bytes_ok l ->
  str_all alnum (b32_encode l) = true /\ String.length (b32_encode l) = ((8 * length l + 4) / 5)%nat.
Proof.
  intros Hl. unfold b32_encode. apply b32_digits_shape.
  apply Z.mul_nonneg_nonneg; [by apply bytes_number|apply Z.pow_nonneg; lia].
Qed.
Lemma alnum_no_sep s : str_all alnum s = true -> str_contains "_" s = false.
Proof. intros H. by apply (str_all_contains alnum). Qed.

Lemma strip_prefix_self p s : strip_prefix p (p +++ s) = Some s.
Proof. induction p as [|c p IH]; cbn; [done|]. by rewrite Ascii.eqb_refl. Qed.

Lemma cut_first_none sep s : str_contains sep s = false -> cut_first sep s = None.
Proof. induction s as [|c s IH]; simpl; [done|]. intros [Hc Hs]%orb_false_iff. by rewrite Hc, IH. Qed.

Lemma cut_first_prefix sep s : forall a b, cut_first sep s = Some (a, b) -> str_contains sep a = false.
Proof.
  induction s as [|c s IH]; simpl; intros a b H; [done|].
  destruct (Ascii.eqb c sep) eqn:E; [by injection H as <- <-|].
  destruct (cut_first sep s) as [[a' b']|]; [|done]. injection H as <- <-. simpl.
  rewrite E. by eapply IH.
Qed.

(** ** Keys and their public form *)

(** A string of the shape both schemes mint: scheme, prefix and secret. *)
Definition full_key (k prefix secret : string) (scheme : string) : Prop :=
  k = scheme +++ prefix +++ "_" +++ secret /\
  (scheme = SchemePrefix \/ scheme = TenantSchemePrefix) /\
  prefix <> "" /\ secret <> "" /\ str_all alnum prefix = true /\ str_all alnum secret = true.

Lemma alnum_blankless s : str_all alnum s = true -> has_blank s = false.
Proof. intros H. unfold has_blank. apply negb_false_iff. revert H. apply str_all_impl, alnum_not_blank. Qed.

Lemma redact_scheme_full scheme prefix secret :
  prefix <> "" -> secret <> "" -> str_all alnum prefix = true -> str_all alnum secret = true ->
  redact_scheme scheme (scheme +++ prefix +++ "_" +++ secret) = Some (scheme +++ prefix).
Proof.
  intros Hp Hs Ap As. unfold redact_scheme. rewrite strip_prefix_self.
  change ("_" +++ secret) with (String "_" secret). rewrite cut_first_app by by apply alnum_no_sep.
  destruct prefix as [|c p]; [done|].
  by rewrite bool_decide_false, alnum_no_sep, !alnum_blankless by done.
Qed.

Lemma full_key_graph k prefix secret scheme : full_key k prefix secret scheme -> str_all is_graph k = true.
Proof.
  intros (-> & Hsch & _ & _ & Ap & As). rewrite !str_all_app.
  rewrite (str_all_impl alnum is_graph prefix), (str_all_impl alnum is_graph secret) by (done || apply alnum_graph).
  by destruct Hsch as [-> | ->].
Qed.

(** Redaction keeps the scheme and the prefix of a key and drops its secret. *)
Lemma RedactIdentifier_full k prefix secret scheme :
  full_key k prefix secret scheme -> RedactIdentifier k = Some (scheme +++ prefix).
Proof.
  intros Hk. unfold RedactIdentifier. rewrite TrimSpace_graph by by eapply full_key_graph.
  destruct Hk as (-> & Hsch & Hp & Hs & Ap & As). rewrite bool_decide_false by (destruct Hsch as [-> | ->]; done).
  destruct Hsch as [-> | ->].
  - unfold Parse. rewrite strip_prefix_self. change ("_" +++ secret) with (String "_" secret).
    rewrite cut_first_app by by apply alnum_no_sep. destruct (_ || _).
    + change (redact_scheme TenantSchemePrefix _) with (@None string).
      by apply redact_scheme_full.
    + done.
  - change (Parse _) with (@None (string * string)).
    by rewrite (redact_scheme_full TenantSchemePrefix prefix secret).
Qed.

(** The public form of anything is not itself a key. *)
Lemma redact_scheme_public sch presented r k prefix secret scheme :
  sch = SchemePrefix \/ sch = TenantSchemePrefix ->
  redact_scheme sch presented = Some r -> full_key k prefix secret scheme -> r <> k.
Proof.
  intros Hsch Hr (-> & Hscheme & Hp & Hs & Ap & As) ->.
  assert (Hcut : forall rest, sch +++ rest = scheme +++ prefix +++ "_" +++ secret ->
                 cut_first "_" rest = Some (prefix, secret)).
  { intros rest E. assert (rest = prefix +++ "_" +++ secret) as ->.
    - destruct Hsch as [-> | ->], Hscheme as [-> | ->]; cbn in E; try discriminate; by injection E.
    - change ("_" +++ secret) with (String "_" secret). by rewrite cut_first_app by by apply alnum_no_sep. }
  unfold redact_scheme in Hr. destruct (strip_prefix sch presented) as [rest|] eqn:Est; [|done].
  destruct (cut_first "_" rest) as [[[|c p] q]|] eqn:Ecut.
  - destruct (negb _ && _); [|done]. injection Hr as Hr. apply Hcut in Hr. rewrite Ecut in Hr. by injection Hr as <-.
  - destruct (_ && _); [|done]. injection Hr as Hr.
    assert (Hsep : str_contains "_" (String c p) = false) by (by eapply cut_first_prefix).
    apply Hcut in Hr. by rewrite (cut_first_none _ _ Hsep) in Hr.
  - destruct (negb _ && _); [|done]. injection Hr as Hr. apply Hcut in Hr. by rewrite Ecut in Hr.
Qed.

Lemma RedactIdentifier_public presented r k prefix secret scheme :
  RedactIdentifier presented = Some r -> full_key k prefix secret scheme -> r <> k.
Proof.
  unfold RedactIdentifier. intros Hr Hk. destruct (bool_decide _); [done|].
  destruct (Parse _) as [[p q]|] eqn:Ep.
  - injection Hr as <-. unfold Parse in Ep. destruct (strip_prefix _ _) as [rest|]; [|done].
    destruct (cut_first "_" rest) as [[p' q']|] eqn:Ec; [|done]. destruct (_ || _); [done|].
    injection Ep as -> ->. destruct Hk as (-> & Hsch & Hp & Hs & Ap & As).
    assert (Hsep : str_contains "_" p = false) by (by eapply cut_first_prefix).
    destruct Hsch as [-> | ->]; [|done]. cbn. intros E. injection E as ->.
    rewrite str_contains_app in Hsep. by rewrite orb_true_r in Hsep.
  - destruct (redact_scheme TenantSchemePrefix _) as [r'|] eqn:Et.
    + injection Hr as <-. eapply redact_scheme_public; eauto.
    + eapply (redact_scheme_public SchemePrefix); eauto.
Qed.

(** Draws of the requested length. *)
Definition reads_bytes (read : nat -> result error (list Z)) : Prop :=
  forall n l, read n = Ok l -> length l = n /\ bytes_ok l.

Lemma minted_full read m : reads_bytes read -> Generate read = Ok m ->
  full_key (mk_key m) (mk_prefix m) (mk_secret m) SchemePrefix /\
  Parse (mk_key m) = Some (mk_prefix m, mk_secret m).
Proof.
  intros Hread. unfold Generate. destruct (read PrefixLength) as [p|] eqn:Ep; [|done].
  destruct (read SecretLength) as [s|] eqn:Es; [|done]. injection 1 as <-. cbn [mk_key mk_prefix mk_secret].
  destruct (Hread _ _ Ep) as [Lp Bp], (Hread _ _ Es) as [Ls Bs].
  destruct (hex_encode_shape p Bp) as [Hp Np], (hex_encode_shape s Bs) as [Hs Ns]. rewrite Lp in Np. rewrite Ls in Ns.
  pose proof (str_all_impl _ alnum _ lower_hex_alnum Hp) as Ap.
  pose proof (str_all_impl _ alnum _ lower_hex_alnum Hs) as As. split.
  - unfold full_key. split_and!; auto; intros E; rewrite E in *; done.
  - change (Parse (SchemePrefix +++ hex_encode p +++ String "_" (hex_encode s)) = Some (hex_encode p, hex_encode s)).
    unfold Parse. rewrite strip_prefix_self. rewrite cut_first_app by by apply alnum_no_sep. unfold isHex. by rewrite Np, Ns, Hp, Hs.
Qed.

Lemma minted_tenant_full read m : reads_bytes read -> GenerateAPIKey read = Ok m ->
  (exists secret, full_key (mt_plaintext m) (mt_prefix m) secret TenantSchemePrefix) /\
  parseAPIKey (mt_plaintext m) = Some (mt_prefix m, mt_digest m).
Proof.
  intros Hread. unfold GenerateAPIKey. destruct (read keyPrefixBytes) as [p|] eqn:Ep; [|done].
  destruct (read keySecretLen) as [s|] eqn:Es; [|done]. injection 1 as <-. cbn [mt_plaintext mt_prefix mt_digest].
  destruct (Hread _ _ Ep) as [Lp Bp], (Hread _ _ Es) as [Ls Bs].
  destruct (b32_encode_shape p Bp) as [Ap Np], (b32_encode_shape s Bs) as [As Ns].
  rewrite Lp in Np. rewrite Ls in Ns.
  change ((8 * keyPrefixBytes + 4) / 5)%nat with 16%nat in Np. change ((8 * keySecretLen + 4) / 5)%nat with 52%nat in Ns.
  assert (Hs : b32_encode s <> "") by (intros E; by rewrite E in Ns). split.
  - exists (b32_encode s). unfold full_key. split_and!; auto. intros E; by rewrite E in Np.
  - unfold parseAPIKey. match goal with |- context [str_split "_" ?k0] => set (k := k0) end.
    assert (str_split "_" k = [keyScheme; b32_encode p; b32_encode s]) as ->.
    { change k with (keyScheme +++ String "_" (b32_encode p +++ String "_" (b32_encode s))).
      rewrite !str_split_app, str_split_nosep by (done || by apply alnum_no_sep). done. }
    by rewrite Np, bool_decide_true, (bool_decide_false (b32_encode s = "")) by done.
Qed.

(** C40: a freshly minted key of either scheme parses back to the prefix it is
    stored under (and, for a tenant key, to the stored digest), and its public
    form is its scheme and prefix: the secret is not in it. *)
Theorem minted_keys_parse_and_redact (read : nat -> result error (list Z)) (m : minted) (t : minted_tenant)
    (Hread : reads_bytes read) (Hm : Generate read = Ok m) (Ht : GenerateAPIKey read = Ok t) :
  Parse (mk_key m) = Some (mk_prefix m, mk_secret m) /\
  RedactIdentifier (mk_key m) = Some (SchemePrefix +++ mk_prefix m) /\
  parseAPIKey (mt_plaintext t) = Some (mt_prefix t, mt_digest t) /\
  RedactIdentifier (mt_plaintext t) = Some (TenantSchemePrefix +++ mt_prefix t).
Proof.
  destruct (minted_full read m Hread Hm) as [Fm Pm].
  destruct (minted_tenant_full read t Hread Ht) as [[sec Ft] Pt].
  split_and!; [done|by eapply RedactIdentifier_full|done|by eapply RedactIdentifier_full].
Qed.

Definition constant_draw (n : nat) : result error (list Z) := Ok (replicate n 171).

Lemma constant_draw_reads : reads_bytes constant_draw.
Proof. intros n l [= <-]. rewrite length_replicate. split; [done|]. apply list.Forall_replicate. lia. Qed.

Definition sample_key : minted :=
  mkMinted "sorotrail_abababababababab_abababababababababababababababababababababababababababababababab"
    "abababababababab" "abababababababababababababababababababababababababababababababab".
Definition sample_tenant_key : minted_tenant :=
  Eval vm_compute in match GenerateAPIKey constant_draw with Ok t => t | Err _ => mkMintedTenant "" "" [] end.

Lemma minted_keys_parse_and_redact_witness :
  mt_prefix sample_tenant_key = "VOV2XK5LVOV2XK5L" /\
  RedactIdentifier (mt_plaintext sample_tenant_key) = Some "st_VOV2XK5LVOV2XK5L".
Proof.
  split; [reflexivity|].
  destruct (minted_keys_parse_and_redact constant_draw sample_key sample_tenant_key constant_draw_reads
              eq_refl ltac:(vm_compute; reflexivity)) as (_ & _ & _ & H).
  exact H.
Defined.

(** A secret with the separator in it is not recognised: the key passes unredacted. *)
Lemma underscored_secret_is_not_redacted :
  RedactIdentifier "st_ABCDEFGHIJKLMNOP_my_secret" = None /\
  RedactIdentifier "st__secret" = Some "st__secret".
Proof. split; reflexivity. Qed.

(** A key the bootstrap path accepts, which redaction does not recognise. *)
Lemma bootstrap_key_is_not_redacted :
  (fst <$> ParseAPIKeyForBootstrap "st_ABCDEFGHIJKLMNOP_pass phrase") = Some "ABCDEFGHIJKLMNOP" /\
  RedactIdentifier "st_ABCDEFGHIJKLMNOP_pass phrase" = None.
Proof. split; vm_compute; reflexivity. Qed.
