(* ===== verification/ActionAudit.v ===== *)
(** * Administrative action audit records (internal/store/action_audit.go)

    The record, its normalisation and redaction, the hash chain over the canonical
    fields with its verifier, and the query scope. The stores that keep the
    records are in the next file. *)

From S2P Require Import Prelude GoStrings Codec StoreErrors GoTime GoSort GoJson GoJsonValue ReorgTracker ApiKey RpcTypes Broadcast.
From stdpp Require Import sorting.
From Stdlib Require Import Ascii String.
Local Open Scope Z_scope.
Local Open Scope go_scope.
Local Notation length := List.length.

Definition ActorTypePerson : string := "person".
Definition ActorTypeAutomation : string := "automation".
Definition ActionAuditStatusSucceeded : string := "succeeded".
Definition ActionAuditStatusFailed : string := "failed".

Definition DefaultActionAuditRetentionAge : Z := 365 * 24 * 3600 * Second.
Definition DefaultActionAuditPruneBatchSize : Z := 5000.
Definition DefaultActionAuditQueryLimit : Z := 100.
Definition MaxActionAuditQueryLimit : Z := 1000.

(** ** Metadata

    A map[string]any in the order a range visits it. A value of a type the code
    does not look into is known by its JSON encoding, None when json.Marshal
    fails on it. *)

Inductive mval : Type :=
  | MStr (s : string)
  | MMap (m : list (string * mval))
  | MOther (enc : option string).

Abbreviation metadata := (list (string * mval)).

(** [m[k] = v] *)
Fixpoint meta_set (k : string) (v : mval) (m : metadata) : metadata :=
  match m with
  | [] => [(k, v)]
  | (k', v') :: m' => if bool_decide (k' = k) then (k, v) :: m' else (k', v') :: meta_set k v m'
  end.
Definition meta_has (k : string) (m : metadata) : bool := existsb (fun e => bool_decide (e.1 = k)) m.

(** ** Redaction *)

Definition SanitizeActorIdentifier (actorID : string) : string :=
  let actorID := TrimSpace actorID in
  if bool_decide (actorID = "") then ""
  else match RedactIdentifier actorID with
       | Some redacted => redacted
       | None =>
           if HasPrefix (ToLower actorID) "bearer " then
             let token := TrimSpace (substring 7 (String.length actorID - 7) actorID) in
             default "bearer-redacted" (RedactIdentifier token)
           else actorID
       end.

Definition SanitizeAuditValueString (v : string) : string :=
  let v := TrimSpace v in
  if bool_decide (v = "") then "" else default v (RedactIdentifier v).

Definition isSecretFieldName (key : string) : bool :=
  let k := ToLower (TrimSpace key) in
  existsb (fun n => bool_decide (k = n))
    ["secret"; "key"; "raw_key"; "api_key"; "apikey"; "password"; "token"; "bearer";
     "authorization"; "webhook_secret"; "secret_hash"]
  || (str_has "secret" k || str_has "password" k || str_has "token" k).

(** One turn of the loop over the metadata, [v'] the sanitized form of [v]. *)
Definition sanitize_entry (k : string) (v v' : mval) (out : metadata) : metadata :=
  let trimmedKey := TrimSpace k in
  if bool_decide (trimmedKey = "") then out
  else if isSecretFieldName trimmedKey then
    match v with
    | MStr s => match RedactIdentifier s with
                | Some redacted => if meta_has "key_prefix" out then out
                                   else meta_set "key_prefix" (MStr redacted) out
                | None => out
                end
    | _ => out
    end
  else meta_set trimmedKey v' out.

Fixpoint sanitize_val (v : mval) : mval :=
  match v with
  | MStr s => MStr (SanitizeAuditValueString s)
  | MMap m => MMap (fold_left (fun out e => sanitize_entry e.1 e.2 (sanitize_val e.2) out) m [])
  | MOther e => MOther e
  end.

Definition SanitizeActionAuditMetadata (m : metadata) : metadata :=
  fold_left (fun out e => sanitize_entry e.1 e.2 (sanitize_val e.2) out) m [].

(** ** Canonical JSON (encoding/json.Marshal) *)

Definition hex_lower (d : Z) : string := String (hex_digit d) "".
(** The escape of a single byte below 128, None when it stands for itself. *)
Definition json_escape (c : ascii) : option string :=
  let b := byte_val c in
  if b =? 34 then Some (bytes_str [92; 34]) else if b =? 92 then Some (bytes_str [92; 92])
  else if b =? 8 then Some "\b" else if b =? 12 then Some "\f" else if b =? 10 then Some "\n"
  else if b =? 13 then Some "\r" else if b =? 9 then Some "\t"
  else if (b <? 32) || (b =? 60) || (b =? 62) || (b =? 38)
       then Some ("\u00" +++ hex_lower (b / 16) +++ hex_lower (b mod 16))
  else None.

(** The body of a string literal: HTML characters, control characters and the two
    line separators are escaped, a byte that starts no rune becomes an escape. *)
Fixpoint json_quote_body (fuel : nat) (s : string) : string :=
  match fuel with
  | O => ""
  | S f =>
      match s with
      | EmptyString => ""
      | String c s' =>
          if byte_val c <? 128 then default (String c "") (json_escape c) +++ json_quote_body f s'
          else match rune_size s with
               | Some k =>
                   let r := substring 0 k s in
                   (if bool_decide (r = bytes_str [226; 128; 168]) then "\u2028"
                    else if bool_decide (r = bytes_str [226; 128; 169]) then "\u2029" else r)
                   +++ json_quote_body f (substring k (String.length s - k) s)
               | None => "\ufffd" +++ json_quote_body f s'
               end
      end
  end.
Definition quote_mark : string := bytes_str [34].
Definition json_quote (s : string) : string := quote_mark +++ json_quote_body (String.length s) s +++ quote_mark.

Fixpoint join_sep (sep : string) (l : list string) : string :=
  match l with [] => "" | [s] => s | s :: l' => s +++ sep +++ join_sep sep l' end.

(** The members of an object, sorted by key. *)
Definition encode_members (l : list (string * option string)) : option string :=
  parts ← mapM (fun e => (fun v => json_quote e.1 +++ ":" +++ v) <$> e.2) (sort_by fst l);
  Some ("{" +++ join_sep "," parts +++ "}").

Fixpoint json_Marshal (v : mval) : option string :=
  match v with
  | MStr s => Some (json_quote s)
  | MMap m => encode_members (map (fun e => (e.1, json_Marshal e.2)) m)
  | MOther enc => enc
  end.

Definition canonicalMetadataJSON (meta : metadata) : string :=
  match meta with
  | [] => "{}"
  | _ => default "{}" (json_Marshal (MMap meta))
  end.

Example canonical_sorts : canonicalMetadataJSON [("b", MOther (Some "1")); ("a", MStr "x<y")] =
  "{" +++ json_quote "a" +++ ":" +++ quote_mark +++ "x\u003cy" +++ quote_mark +++ "," +++ json_quote "b" +++ ":1}".
Proof. reflexivity. Qed.

(** ** Records *)

Record ActionAuditRecord : Type := mkAudit {
  aa_ID : Z;
  aa_ActorID : string;
  aa_ActorType : string;
  aa_TenantID : option Z;
  aa_Action : string;
  aa_ResourceType : string;
  aa_ResourceID : string;
  aa_Method : string;
  aa_Route : string;
  aa_RemoteAddr : string;
  aa_RequestID : string;
  aa_Status : string;
  aa_HTTPStatus : Z;
  aa_ErrorCode : string;
  aa_Metadata : metadata;
  aa_PrevHash : string;
  aa_EntryHash : string;
  aa_CreatedAt : Z }.

Definition zeroAudit : ActionAuditRecord :=
  mkAudit 0 "" "" None "" "" "" "" "" "" "" "" 0 "" [] "" "" time_zero.

(** Time.Truncate(time.Microsecond) *)
Definition trunc_us (t : Z) : Z := t / Microsecond * Microsecond.

Definition normalize_actor_type (t : string) : string :=
  let t := ToLower (TrimSpace t) in
  if existsb (fun n => bool_decide (t = n)) [ActorTypeAutomation; "bot"; "scheduled_job"; "service"; "ci"]
  then ActorTypeAutomation else ActorTypePerson.
Definition normalize_status (s : string) : string :=
  if bool_decide (ToLower (TrimSpace s) = ActionAuditStatusFailed) then ActionAuditStatusFailed
  else ActionAuditStatusSucceeded.

Definition NormalizeActionAuditRecord (now : Z) (rec : ActionAuditRecord) : ActionAuditRecord :=
  let actor := SanitizeActorIdentifier (aa_ActorID rec) in
  {| aa_ID := aa_ID rec;
     aa_ActorID := if bool_decide (actor = "") then "anonymous" else actor;
     aa_ActorType := normalize_actor_type (aa_ActorType rec);
     aa_TenantID := aa_TenantID rec;
     aa_Action := TrimSpace (aa_Action rec);
     aa_ResourceType := TrimSpace (aa_ResourceType rec);
     aa_ResourceID := SanitizeAuditValueString (TrimSpace (aa_ResourceID rec));
     aa_Method := TrimSpace (aa_Method rec);
     aa_Route := TrimSpace (aa_Route rec);
     aa_RemoteAddr := TrimSpace (aa_RemoteAddr rec);
     aa_RequestID := TrimSpace (aa_RequestID rec);
     aa_Status := normalize_status (aa_Status rec);
     aa_HTTPStatus := aa_HTTPStatus rec;
     aa_ErrorCode := TrimSpace (aa_ErrorCode rec);
     aa_Metadata := SanitizeActionAuditMetadata (aa_Metadata rec);
     aa_PrevHash := aa_PrevHash rec;
     aa_EntryHash := aa_EntryHash rec;
     aa_CreatedAt := trunc_us (if time_IsZero (aa_CreatedAt rec) then now else aa_CreatedAt rec) |}.

(** ** The hash chain *)

(** The digested text: the previous hash and the canonical fields, bar-separated. *)
Definition hash_fields (prevHash : string) (rec : ActionAuditRecord) : list string :=
  [prevHash; aa_ActorID rec; aa_ActorType rec;
   match aa_TenantID rec with Some t => FormatInt t | None => "" end;
   aa_Action rec; aa_ResourceType rec; aa_ResourceID rec; aa_Method rec; aa_Route rec;
   aa_RemoteAddr rec; aa_RequestID rec; aa_Status rec; FormatInt (aa_HTTPStatus rec); aa_ErrorCode rec;
   canonicalMetadataJSON (aa_Metadata rec); format_RFC3339Nano (trunc_us (aa_CreatedAt rec))].
Definition hash_input (prevHash : string) (rec : ActionAuditRecord) : string :=
  join_sep "|" (hash_fields prevHash rec).

Definition ComputeActionAuditHash (prevHash : string) (rec : ActionAuditRecord) : string :=
  hex_encode (sha256 (str_bytes (hash_input prevHash rec))).

(** sort.Slice by ID *)
Definition id_le (a b : ActionAuditRecord) : Prop := aa_ID a <= aa_ID b.
#[export] Instance id_le_dec : RelDecision id_le.
Proof. intros a b. unfold id_le. apply _. Defined.
#[export] Instance id_le_trans : Transitive id_le.
Proof. intros a b c. unfold id_le. lia. Qed.
#[export] Instance id_le_total : Total id_le.
Proof. intros a b. unfold id_le. lia. Qed.

Definition chain_broken (what : string) (rec : ActionAuditRecord) : error :=
  Errorf ("at id=" +++ FormatInt (aa_ID rec) +++ ": " +++ what) [Sentinel ErrActionAuditChainBroken].

(** The loop of the verifier; [prev] is the entry hash of the preceding record. *)
Fixpoint verify_loop (prev : option string) (l : list ActionAuditRecord) : option error :=
  match l with
  | [] => None
  | rec :: l' =>
      if match prev with Some h => negb (bool_decide (aa_PrevHash rec = h)) | None => false end
      then Some (chain_broken "prev_hash" rec)
      else if negb (bool_decide (aa_EntryHash rec = ComputeActionAuditHash (aa_PrevHash rec) rec))
      then Some (chain_broken "entry_hash" rec)
      else verify_loop (Some (aa_EntryHash rec)) l'
  end.

Definition VerifyActionAuditChain (records : list ActionAuditRecord) : option error :=
  verify_loop None (merge_sort id_le records).

Definition effectiveActionAuditLimit (limit : Z) : Z :=
  if limit <=? 0 then DefaultActionAuditQueryLimit
  else if MaxActionAuditQueryLimit <? limit then MaxActionAuditQueryLimit else limit.

(** ** Scope and filter *)

Inductive actionAuditScopeMode : Type :=
  | actionAuditScopeUnset
  | actionAuditScopeOperator
  | actionAuditScopeTenant.

Record ActionAuditScope : Type := mkAuditScope { as_mode : actionAuditScopeMode; as_tenantID : Z }.

Definition unsetScope : ActionAuditScope := mkAuditScope actionAuditScopeUnset 0.
Definition OperatorActionAuditScope : ActionAuditScope := mkAuditScope actionAuditScopeOperator 0.
Definition TenantActionAuditScope (tenantID : Z) : ActionAuditScope :=
  if tenantID <=? 0 then unsetScope else mkAuditScope actionAuditScopeTenant tenantID.

Definition scope_IsOperator (s : ActionAuditScope) : bool :=
  match as_mode s with actionAuditScopeOperator => true | _ => false end.
Definition scope_TenantID (s : ActionAuditScope) : option Z :=
  match as_mode s with
  | actionAuditScopeTenant => if as_tenantID s <=? 0 then None else Some (as_tenantID s)
  | _ => None
  end.
Definition scope_validate (s : ActionAuditScope) : option error :=
  match as_mode s with
  | actionAuditScopeOperator => None
  | actionAuditScopeTenant => if as_tenantID s <=? 0 then Some (Sentinel ErrTenantScopeRequired) else None
  | actionAuditScopeUnset => Some (Sentinel ErrTenantScopeRequired)
  end.

Record ActionAuditFilter : Type := mkAuditFilter {
  af_Scope : ActionAuditScope;
  af_TenantID : option Z;
  af_Action : string;
  af_ResourceType : string;
  af_ResourceID : string;
  af_ActorID : string;
  af_ActorType : string;
  af_Status : string;
  af_RequestID : string;
  af_Since : Z;
  af_Until : Z;
  af_Limit : Z }.

Definition filter_of (scope : ActionAuditScope) : ActionAuditFilter :=
  mkAuditFilter scope None "" "" "" "" "" "" "" time_zero time_zero 0.

Example nano_format : format_RFC3339Nano 1709210096500000000 = "2024-02-29T12:34:56.5Z".
Proof. reflexivity. Qed.
Example nano_format_whole : format_RFC3339Nano 0 = "1970-01-01T00:00:00Z".
Proof. reflexivity. Qed.
