(* ===== verification/ActionAuditStore.v ===== *)
(** * The stores of the action audit log (internal/store/action_audit.go)

    The in-memory store, the SQLite and Postgres stores as transactions over a
    table with injected faults, the wrappers that forward, and the retention loop.
    The interface [ActionAuditStore] is what the API and the job reports use. *)

From S2P Require Import Prelude GoStrings Codec StoreErrors GoTime GoSort GoFloat GoJsonValue ApiKey ActionAudit IdemStore.
From stdpp Require Import sorting.
From Stdlib Require Import Ascii String.
Local Open Scope Z_scope.
Local Open Scope go_scope.
Local Notation length := List.length.

(** [W] is the state of the store, [F] what the environment decides per call. *)
Class ActionAuditStore (W F : Type) : Type := {
  RecordActionAudit : F -> Z -> ActionAuditRecord -> W -> result error ActionAuditRecord * W;
  QueryActionAuditLogs : F -> ActionAuditFilter -> W -> result error (list ActionAuditRecord);
  PruneActionAuditLogsBefore : F -> Z -> Z -> W -> (Z * option error) * W }.

Definition prune_limit (limit : Z) : Z := if limit <=? 0 then DefaultActionAuditPruneBatchSize else limit.

(** A record linked to its predecessor. *)
Definition link (id : Z) (prevHash : string) (rec : ActionAuditRecord) : ActionAuditRecord :=
  {| aa_ID := id; aa_ActorID := aa_ActorID rec; aa_ActorType := aa_ActorType rec;
     aa_TenantID := aa_TenantID rec; aa_Action := aa_Action rec; aa_ResourceType := aa_ResourceType rec;
     aa_ResourceID := aa_ResourceID rec; aa_Method := aa_Method rec; aa_Route := aa_Route rec;
     aa_RemoteAddr := aa_RemoteAddr rec; aa_RequestID := aa_RequestID rec; aa_Status := aa_Status rec;
     aa_HTTPStatus := aa_HTTPStatus rec; aa_ErrorCode := aa_ErrorCode rec; aa_Metadata := aa_Metadata rec;
     aa_PrevHash := prevHash; aa_EntryHash := ComputeActionAuditHash prevHash rec;
     aa_CreatedAt := aa_CreatedAt rec |}.

(** ** In memory *)

Record MemoryActionAuditStore : Type := mkMemAudit { ma_nextID : Z; ma_records : list ActionAuditRecord }.
Definition NewMemoryActionAuditStore : MemoryActionAuditStore := mkMemAudit 0 [].

Definition Memory_RecordActionAudit (now : Z) (rec : ActionAuditRecord) (m : MemoryActionAuditStore)
  : result error ActionAuditRecord * MemoryActionAuditStore :=
  let rec := NormalizeActionAuditRecord now rec in
  let nextID := i64 (ma_nextID m + 1) in
  let prevHash := match last (ma_records m) with Some r => aa_EntryHash r | None => "" end in
  let rec := link nextID prevHash rec in
  (Ok rec, mkMemAudit nextID (ma_records m ++ [rec])).

Definition str_filter (want have : string) : bool := bool_decide (want = "") || bool_decide (have = want).

(** The conditions a record must meet, the scope's tenant before the filter's. *)
Definition memory_matches (f : ActionAuditFilter) (rec : ActionAuditRecord) : bool :=
  match scope_TenantID (af_Scope f), af_TenantID f with
  | Some t, _ => bool_decide (aa_TenantID rec = Some t)
  | None, Some t => bool_decide (aa_TenantID rec = Some t)
  | None, None => true
  end &&
  str_filter (af_Action f) (aa_Action rec) && str_filter (af_ResourceType f) (aa_ResourceType rec) &&
  str_filter (af_ResourceID f) (aa_ResourceID rec) && str_filter (af_ActorID f) (aa_ActorID rec) &&
  str_filter (af_ActorType f) (aa_ActorType rec) && str_filter (af_Status f) (aa_Status rec) &&
  str_filter (af_RequestID f) (aa_RequestID rec) &&
  (time_IsZero (af_Since f) || negb (aa_CreatedAt rec <? af_Since f)) &&
  (time_IsZero (af_Until f) || negb (af_Until f <? aa_CreatedAt rec)).

(** The scan from the newest record, stopping when [limit] are found. *)
Fixpoint memory_scan (f : ActionAuditFilter) (limit : Z) (newest_first out : list ActionAuditRecord)
  : list ActionAuditRecord :=
  match newest_first with
  | [] => out
  | rec :: l =>
      if memory_matches f rec then
        let out := out ++ [rec] in
        if limit <=? Z.of_nat (length out) then out else memory_scan f limit l out
      else memory_scan f limit l out
  end.

Definition Memory_QueryActionAuditLogs (f : ActionAuditFilter) (m : MemoryActionAuditStore)
  : result error (list ActionAuditRecord) :=
  match scope_validate (af_Scope f) with
  | Some e => Err e
  | None => Ok (memory_scan f (effectiveActionAuditLimit (af_Limit f)) (rev (ma_records m)) [])
  end.

Fixpoint memory_prune (cutoff limit pruned : Z) (l kept : list ActionAuditRecord) : Z * list ActionAuditRecord :=
  match l with
  | [] => (pruned, kept)
  | rec :: l' =>
      if (pruned <? limit) && (aa_CreatedAt rec <? cutoff) then memory_prune cutoff limit (pruned + 1) l' kept
      else memory_prune cutoff limit pruned l' (kept ++ [rec])
  end.

Definition Memory_PruneActionAuditLogsBefore (cutoff limit : Z) (m : MemoryActionAuditStore)
  : (Z * option error) * MemoryActionAuditStore :=
  let '(pruned, kept) := memory_prune cutoff (prune_limit limit) 0 (ma_records m) [] in
  ((pruned, None), mkMemAudit (ma_nextID m) kept).

Definition memory_audit : ActionAuditStore MemoryActionAuditStore unit := {|
  RecordActionAudit _ now rec m := Memory_RecordActionAudit now rec m;
  QueryActionAuditLogs _ f m := Memory_QueryActionAuditLogs f m;
  PruneActionAuditLogsBefore _ cutoff limit m := Memory_PruneActionAuditLogsBefore cutoff limit m |}.

(** ** SQL tables *)

(** A row of admin_action_audit: the metadata as text, the time as the backend
    stores it. *)
Record audit_row (T : Type) : Type := mkAuditRow {
  ar_rec : ActionAuditRecord;
  ar_metadata : string;
  ar_created_at : T }.
Arguments mkAuditRow {T}.
Arguments ar_rec {T}. Arguments ar_metadata {T}. Arguments ar_created_at {T}.

(** The table: the last id its sequence gave, the rows in the order of insertion. *)
Record audit_table (T : Type) : Type := mkAuditTable { at_seq : Z; at_rows : list (audit_row T) }.
Arguments mkAuditTable {T}.
Arguments at_seq {T}. Arguments at_rows {T}.

(** The environment of one call: the error of each statement; for the commit and
    for a single statement also whether it took effect; the ids the sequence skips. *)
Record audit_env : Type := mkAuditEnv {
  ae_begin : option error;
  ae_lock : option error;
  ae_select : option error;
  ae_insert : option error;
  ae_lastid : option error;
  ae_commit : option (error * bool);
  ae_exec : option (error * bool);
  ae_rows : option error;
  ae_skip : nat }.
Definition audit_calm : audit_env := mkAuditEnv None None None None None None None None 0.

(** What json.Marshal writes for a decoded number. *)
Section Numbers.
Variable format_number : float64 -> option string.

(** A decoded JSON value stored in a map[string]any. *)
Fixpoint of_jvalue (v : jvalue) : mval :=
  match v with
  | JNull => MOther (Some "null")
  | JBool b => MOther (Some (if b then "true" else "false"))
  | JNum x => MOther (format_number x)
  | JStr s => MStr s
  | JArr l => MOther ((fun parts => "[" +++ join_sep "," parts +++ "]") <$> mapM (M := option) (fun o => o) (map (fun x => json_Marshal (of_jvalue x)) l))
  | JObj m => MMap (map (fun e => (e.1, of_jvalue e.2)) m)
  end.

(** rec.Metadata after json.Unmarshal(raw, &rec.Metadata) into an empty map; an
    error leaves it empty. *)
Definition scan_metadata (raw : string) : metadata :=
  match Unmarshal_any raw with
  | Some (JObj m) => map (fun e => (e.1, of_jvalue e.2)) m
  | _ => []
  end.
End Numbers.

Section AuditSql.
Context {T : Type} `{TimeColumn T}.

(** The columns of a record; metadata and time go to their own columns. *)
Definition row_of (rec : ActionAuditRecord) : audit_row T :=
  mkAuditRow rec (canonicalMetadataJSON (aa_Metadata rec)) (tc_enc (aa_CreatedAt rec)).
Definition row_id (r : audit_row T) : Z := aa_ID (ar_rec r).

(** ORDER BY id DESC *)
Definition newer (a b : audit_row T) : Prop := row_id b <= row_id a.
#[export] Instance newer_dec : RelDecision newer.
Proof. intros a b. unfold newer. apply _. Defined.
Definition rows_desc (t : audit_table T) : list (audit_row T) := merge_sort newer (at_rows t).

Definition last_hash (t : audit_table T) : string :=
  match rows_desc t with r :: _ => aa_EntryHash (ar_rec r) | [] => "" end.

Definition sql_append (env : audit_env) (rec : ActionAuditRecord) (t : audit_table T)
  : ActionAuditRecord * audit_table T :=
  let id := at_seq t + 1 + Z.of_nat (ae_skip env) in
  let rec := link id (last_hash t) rec in
  (rec, mkAuditTable id (at_rows t ++ [row_of rec])).

(** The WHERE clauses, one per predicate of the filter that is set. *)
Definition clause (set : bool) (p : audit_row T -> bool) : list (audit_row T -> bool) :=
  if set then [p] else [].
Definition column_is (col : ActionAuditRecord -> string) (want : string) : list (audit_row T -> bool) :=
  clause (negb (bool_decide (want = ""))) (fun r => bool_decide (col (ar_rec r) = want)).
Definition tenant_is (t : Z) (r : audit_row T) : bool := bool_decide (aa_TenantID (ar_rec r) = Some t).

Definition where_clauses (f : ActionAuditFilter) : list (audit_row T -> bool) :=
  match scope_TenantID (af_Scope f), af_TenantID f with
  | Some t, _ => [tenant_is t]
  | None, Some t => [tenant_is t]
  | None, None => []
  end ++
  column_is aa_Action (af_Action f) ++ column_is aa_ResourceType (af_ResourceType f) ++
  column_is aa_ResourceID (af_ResourceID f) ++ column_is aa_ActorID (af_ActorID f) ++
  column_is aa_ActorType (af_ActorType f) ++ column_is aa_Status (af_Status f) ++
  column_is aa_RequestID (af_RequestID f) ++
  clause (negb (time_IsZero (af_Since f))) (fun r => tc_leb (tc_enc (af_Since f)) (ar_created_at r)) ++
  clause (negb (time_IsZero (af_Until f))) (fun r => tc_leb (ar_created_at r) (tc_enc (af_Until f))).

Definition select_rows (f : ActionAuditFilter) (t : audit_table T) : list (audit_row T) :=
  take (Z.to_nat (effectiveActionAuditLimit (af_Limit f)))
    (List.filter (fun r => forallb (fun p => p r) (where_clauses f)) (rows_desc t)).

(** created_at < $1 *)
Definition older_than (cutoff : T) (r : audit_row T) : bool := negb (tc_leb cutoff (ar_created_at r)).

(** ORDER BY created_at ASC, id ASC *)
Definition oldest_first (a b : audit_row T) : Prop :=
  if tc_leb (ar_created_at a) (ar_created_at b)
  then (tc_leb (ar_created_at b) (ar_created_at a) = false \/ row_id a <= row_id b) else False.
#[export] Instance oldest_first_dec : RelDecision oldest_first.
Proof. intros a b. unfold oldest_first. destruct (tc_leb _ _); apply _. Defined.

Definition prune_ids (cutoff : T) (limit : Z) (t : audit_table T) : list Z :=
  row_id <$> take (Z.to_nat limit) (merge_sort oldest_first (List.filter (older_than cutoff) (at_rows t))).
Definition delete_ids (ids : list Z) (t : audit_table T) : audit_table T :=
  mkAuditTable (at_seq t) (List.filter (fun r => negb (bool_decide (row_id r ∈ ids))) (at_rows t)).

(** DELETE ... WHERE id IN (...), with the number of rows affected. *)
Definition sql_prune (cutoff : T) (limit : Z) (t : audit_table T) : Z * audit_table T :=
  let t' := delete_ids (prune_ids cutoff limit t) t in
  (Z.of_nat (length (at_rows t)) - Z.of_nat (length (at_rows t')), t').
End AuditSql.

(** Commit: the transaction's table, or the one before it. *)
Definition audit_commit {T} (env : audit_env) (what : string) (before after : audit_table T) (rec : ActionAuditRecord)
  : result error ActionAuditRecord * audit_table T :=
  match ae_commit env with
  | None => (Ok rec, after)
  | Some (e, applied) => (Err (Errorf what [e]), if (applied : bool) then after else before)
  end.

(** A DELETE on its own, with the count the driver reports. *)
Definition audit_delete {T} (env : audit_env) (what : string) (f : audit_table T -> Z * audit_table T) (t : audit_table T)
  : (Z * option error) * audit_table T :=
  match ae_exec env with
  | None => let '(n, t') := f t in ((n, None), t')
  | Some (e, applied) => ((0, Some (Errorf what [e])), if (applied : bool) then snd (f t) else t)
  end.

(** The loop over the result rows: a failed scan or iteration loses the result. *)
Definition scan_rows {T} (env : audit_env) (what : string) (read : audit_row T -> ActionAuditRecord) (rows : list (audit_row T))
  : result error (list ActionAuditRecord) :=
  match ae_rows env with
  | Some e => Err (Errorf what [e])
  | None => Ok (read <$> rows)
  end.

Definition with_scanned (rec : ActionAuditRecord) (meta : metadata) (created : Z) : ActionAuditRecord :=
  {| aa_ID := aa_ID rec; aa_ActorID := aa_ActorID rec; aa_ActorType := aa_ActorType rec;
     aa_TenantID := aa_TenantID rec; aa_Action := aa_Action rec; aa_ResourceType := aa_ResourceType rec;
     aa_ResourceID := aa_ResourceID rec; aa_Method := aa_Method rec; aa_Route := aa_Route rec;
     aa_RemoteAddr := aa_RemoteAddr rec; aa_RequestID := aa_RequestID rec; aa_Status := aa_Status rec;
     aa_HTTPStatus := aa_HTTPStatus rec; aa_ErrorCode := aa_ErrorCode rec; aa_Metadata := meta;
     aa_PrevHash := aa_PrevHash rec; aa_EntryHash := aa_EntryHash rec; aa_CreatedAt := created |}.

(** ** Postgres

    [jsonb] is the text Postgres returns for a stored jsonb value. The table lock
    serialises the appends; the sequence is not rolled back. *)

Section PostgresAudit.
Variable format_number : float64 -> option string.
Variable jsonb : string -> string.

Abbreviation pg_audit := (audit_table Z).

Definition Postgres_RecordActionAudit (env : audit_env) (now : Z) (rec : ActionAuditRecord) (t : pg_audit)
  : result error ActionAuditRecord * pg_audit :=
  let rec := NormalizeActionAuditRecord now rec in
  match ae_begin env with
  | Some e => (Err (Errorf "begin action audit tx" [e]), t)
  | None =>
  match ae_lock env with
  | Some e => (Err (Errorf "locking admin_action_audit" [e]), t)
  | None =>
  match ae_select env with
  | Some e => (Err (Errorf "reading previous action audit hash" [e]), t)
  | None =>
      let '(rec, t') := sql_append env rec t in
      let rolled_back := mkAuditTable (at_seq t') (at_rows t) in
      match ae_insert env with
      | Some e => (Err (Errorf "inserting action audit record" [e]), rolled_back)
      | None => audit_commit env "committing action audit record" rolled_back t'
                  (with_scanned rec (aa_Metadata rec) (tc_dec (tc_enc (T := Z) (aa_CreatedAt rec))))
      end
  end end end.

Definition pg_scan_row (r : audit_row Z) : ActionAuditRecord :=
  with_scanned (ar_rec r) (scan_metadata format_number (jsonb (ar_metadata r))) (tc_dec (ar_created_at r)).

Definition Postgres_QueryActionAuditLogs (env : audit_env) (f : ActionAuditFilter) (t : pg_audit)
  : result error (list ActionAuditRecord) :=
  match scope_validate (af_Scope f) with
  | Some e => Err e
  | None =>
      match ae_select env with
      | Some e => Err (Errorf "querying action audit logs" [e])
      | None => scan_rows env "iterating action audit rows" pg_scan_row (select_rows f t)
      end
  end.

Definition Postgres_PruneActionAuditLogsBefore (env : audit_env) (cutoff limit : Z) (t : pg_audit)
  : (Z * option error) * pg_audit :=
  audit_delete env "pruning action audit logs" (sql_prune (tc_enc cutoff) (prune_limit limit)) t.

Definition postgres_audit : ActionAuditStore pg_audit audit_env := {|
  RecordActionAudit := Postgres_RecordActionAudit;
  QueryActionAuditLogs := Postgres_QueryActionAuditLogs;
  PruneActionAuditLogsBefore := Postgres_PruneActionAuditLogsBefore |}.
End PostgresAudit.

(** ** SQLite

    AUTOINCREMENT ids; a rolled back transaction gives its id back. *)

Section SQLiteAudit.
Variable format_number : float64 -> option string.
Variable general : string -> option Z.

#[local] Instance sqlite_audit_time : TimeColumn string := sqlite_time general.

Abbreviation lite_audit := (audit_table string).

Definition SQLite_RecordActionAudit (env : audit_env) (now : Z) (rec : ActionAuditRecord) (t : lite_audit)
  : result error ActionAuditRecord * lite_audit :=
  let rec := NormalizeActionAuditRecord now rec in
  match ae_begin env with
  | Some e => (Err (Errorf "begin sqlite action audit tx" [e]), t)
  | None =>
  match ae_select env with
  | Some e => (Err (Errorf "reading sqlite previous action audit hash" [e]), t)
  | None =>
      let '(rec, t') := sql_append env rec t in
      match ae_insert env with
      | Some e => (Err (Errorf "inserting sqlite action audit record" [e]), t)
      | None =>
          match ae_lastid env with
          | Some e => (Err (Errorf "reading sqlite action audit id" [e]), t)
          | None => audit_commit env "committing sqlite action audit record" t t' rec
          end
      end
  end end.

Definition sqlite_scan_row (r : audit_row string) : ActionAuditRecord :=
  with_scanned (ar_rec r)
    (if bool_decide (ar_metadata r = "") then [] else scan_metadata format_number (ar_metadata r))
    (trunc_us (tc_dec (ar_created_at r))).

Definition SQLite_QueryActionAuditLogs (env : audit_env) (f : ActionAuditFilter) (t : lite_audit)
  : result error (list ActionAuditRecord) :=
  match scope_validate (af_Scope f) with
  | Some e => Err e
  | None =>
      match ae_select env with
      | Some e => Err (Errorf "querying sqlite action audit logs" [e])
      | None => scan_rows env "iterating sqlite action audit rows" sqlite_scan_row (select_rows f t)
      end
  end.

Definition SQLite_PruneActionAuditLogsBefore (env : audit_env) (cutoff limit : Z) (t : lite_audit)
  : (Z * option error) * lite_audit :=
  audit_delete env "pruning sqlite action audit logs" (sql_prune (tc_enc cutoff) (prune_limit limit)) t.

Definition sqlite_audit : ActionAuditStore lite_audit audit_env := {|
  RecordActionAudit := SQLite_RecordActionAudit;
  QueryActionAuditLogs := SQLite_QueryActionAuditLogs;
  PruneActionAuditLogsBefore := SQLite_PruneActionAuditLogsBefore |}.
End SQLiteAudit.

(** ** Wrappers *)

(** TracingStore: the wrapped store when it keeps an audit log. *)
Definition tracing_audit {W F} (inner : option (ActionAuditStore W F)) : ActionAuditStore W F := {|
  RecordActionAudit env now rec w :=
    match inner with
    | None => (Err (Sentinel ErrUnsupported), w)
    | Some st => RecordActionAudit env now rec w
    end;
  QueryActionAuditLogs env f w :=
    match inner with None => Err (Sentinel ErrUnsupported) | Some st => QueryActionAuditLogs env f w end;
  PruneActionAuditLogsBefore env cutoff limit w :=
    match inner with
    | None => ((0, Some (Sentinel ErrUnsupported)), w)
    | Some st => PruneActionAuditLogsBefore env cutoff limit w
    end |}.

(** guardedStore checks the scope before it looks at the wrapped store. *)
Definition guarded_audit {W F} (inner : option (ActionAuditStore W F)) : ActionAuditStore W F := {|
  RecordActionAudit := @RecordActionAudit _ _ (tracing_audit inner);
  QueryActionAuditLogs env f w :=
    match scope_validate (af_Scope f) with
    | Some e => Err e
    | None => @QueryActionAuditLogs _ _ (tracing_audit inner) env f w
    end;
  PruneActionAuditLogsBefore := @PruneActionAuditLogsBefore _ _ (tracing_audit inner) |}.

(** ** Retention *)

Record ActionAuditRetentionOptions : Type := mkAuditRetention { ro_Age : Z; ro_BatchSize : Z }.

Section Retention.
Context {W F : Type} {st : ActionAuditStore W F}.

(** The batches: one environment per turn, with what ctx.Err() returns before it. *)
Fixpoint prune_loop (turns : list (option error * F)) (cutoff batch total : Z) (w : W)
  : option ((Z * option error) * W) :=
  match turns with
  | [] => None
  | (Some e, _) :: _ => Some ((total, Some e), w)
  | (None, env) :: turns' =>
      let '((n, err), w) := PruneActionAuditLogsBefore env cutoff batch w in
      let total := total + n in
      match err with
      | Some e => Some ((total, Some e), w)
      | None => if n <? batch then Some ((total, None), w) else prune_loop turns' cutoff batch total w
      end
  end.

Definition retention_cutoff (opts : ActionAuditRetentionOptions) (now : Z) : Z :=
  now - (if ro_Age opts <=? 0 then DefaultActionAuditRetentionAge else ro_Age opts).

Definition PruneActionAuditLogs (turns : list (option error * F)) (opts : ActionAuditRetentionOptions) (now : Z) (w : W)
  : option ((Z * option error) * W) :=
  prune_loop turns (retention_cutoff opts now) (prune_limit (ro_BatchSize opts)) 0 w.
End Retention.
