(* ===== verification/ActionAuditLaws.v ===== *)
(** * What the audit stores promise (internal/store/action_audit.go)

    The abstract log is the list of records a full query would return, oldest
    first. [AuditLaws] states what the three operations do to it; the in-memory,
    SQLite and Postgres stores are instances. *)

From S2P Require Import Prelude GoStrings Codec StoreErrors GoTime GoSort GoFloat.
From S2P Require Import GoJsonValue ApiKey ActionAudit IdemStore IdemLedger ActionAuditStore.
From stdpp Require Import sorting.
From Stdlib Require Import Ascii String.
Local Open Scope Z_scope.
Local Open Scope go_scope.
Local Notation length := List.length.
Local Notation rec := ActionAuditRecord.
Implicit Types (l : list ActionAuditRecord).

(** ** Sorted lists *)

Section Sorting.
Context {A : Type} (R : relation A) `{!RelDecision R, !Transitive R, !Total R}.

Definition strictly (a b : A) : Prop := R a b /\ ~ R b a.

(** A strictly sorted arrangement is the one the sort finds. *)
Lemma merge_sort_strict (l l' : list A) : StronglySorted strictly l' -> l ≡ₚ l' -> merge_sort R l = l'.
Proof.
  intros Hs Hp. apply (StronglySorted_unique_strong R).
  - intros x y Hx Hy Hxy Hyx. rewrite merge_sort_Permutation, Hp in Hx. clear Hp l.
    induction Hs as [|z l' Hs IH Hz]; [by apply not_elem_of_nil in Hx|].
    rewrite list.Forall_forall in Hz. rewrite elem_of_cons in Hx, Hy.
    destruct Hx as [->|Hx], Hy as [->|Hy]; [done| | |by apply IH].
    + by destruct (Hz _ Hy).
    + by destruct (Hz _ Hx).
  - apply StronglySorted_merge_sort; apply _.
  - clear Hp. induction Hs as [|z l' Hs IH Hz]; constructor; [done|].
    eapply Forall_impl; [exact Hz|]. by intros x [? _].
  - by rewrite merge_sort_Permutation.
Qed.
End Sorting.

Lemma StronglySorted_snoc {A} (R : relation A) (l : list A) x :
  StronglySorted R l -> Forall (fun y => R y x) l -> StronglySorted R (l ++ [x]).
Proof.
  induction 1 as [|y l Hs IH Hy]; intros Hx; cbn; [by repeat constructor|].
  inversion Hx; subst. constructor; [by apply IH|]. apply list.Forall_app. by split; [|constructor].
Qed.

Lemma StronglySorted_rev {A} (R : relation A) (l : list A) :
  StronglySorted R l -> StronglySorted (flip R) (reverse l).
Proof.
  induction 1 as [|y l Hs IH Hy]; [constructor|]. rewrite reverse_cons.
  apply StronglySorted_snoc; [done|]. apply list.Forall_reverse. by eapply Forall_impl.
Qed.

Lemma StronglySorted_drop {A} (R : relation A) n (l : list A) : StronglySorted R l -> StronglySorted R (drop n l).
Proof.
  intros Hs. revert n. induction Hs as [|y l Hs IH Hy]; intros [|n]; cbn; try by constructor. apply IH.
Qed.

Lemma StronglySorted_take {A} (R : relation A) n (l : list A) : StronglySorted R l -> StronglySorted R (take n l).
Proof.
  intros Hs. revert n. induction Hs as [|y l Hs IH Hy]; intros [|n]; cbn; try by constructor.
  constructor; [apply IH|]. by apply list.Forall_take.
Qed.

Lemma StronglySorted_fmap {A B} (f : A -> B) (R : relation A) (S : relation B) (l : list A) :
  (forall x y, R x y -> S (f x) (f y)) -> StronglySorted R l -> StronglySorted S (f <$> l).
Proof.
  intros HRS. induction 1 as [|y l Hs IH Hy]; cbn; constructor; [done|].
  apply list.Forall_fmap. eapply Forall_impl; [exact Hy|]. intros x Hx. by apply HRS.
Qed.

Lemma filter_none {A} (p : A -> bool) (l : list A) : Forall (fun x => p x = false) l -> List.filter p l = [].
Proof. induction 1 as [|x l Hx _ IH]; [done|]. cbn. by rewrite Hx. Qed.

Lemma filter_every {A} (p : A -> bool) (l : list A) : Forall (fun x => p x = true) l -> List.filter p l = l.
Proof. induction 1 as [|x l Hx _ IH]; [done|]. cbn. by rewrite Hx, IH. Qed.

Lemma filter_fmap {A B} (f : A -> B) (p : A -> bool) (q : B -> bool) (l : list A) :
  Forall (fun a => p a = q (f a)) l -> f <$> List.filter p l = List.filter q (f <$> l).
Proof. induction 1 as [|a l Ha _ IH]; [done|]. cbn. rewrite Ha. destruct (q (f a)); cbn; by rewrite IH. Qed.

(** When a predicate is kept by predecessors, the elements with it are a prefix. *)
Lemma filter_prefix {A} (p : A -> bool) (R : relation A) (l : list A) :
  (forall x y, R x y -> p y = true -> p x = true) -> StronglySorted R l ->
  List.filter p l = take (length (List.filter p l)) l /\ Forall (fun x => p x = false) (drop (length (List.filter p l)) l).
Proof.
  intros Hp. induction 1 as [|y l Hs [IH1 IH2] Hy]; [by split|]. cbn.
  destruct (p y) eqn:Ey; cbn.
  - split; [by rewrite <- IH1|done].
  - assert (Hnone : Forall (fun x => p x = false) l).
    { eapply Forall_impl; [exact Hy|]. intros x HR. destruct (p x) eqn:Ex; [|done].
      by rewrite (Hp _ _ HR Ex) in Ey. }
    rewrite filter_none by done. split; [done|]. by constructor.
Qed.

(** ** The abstract log *)

Definition id_lt (a b : rec) : Prop := aa_ID a < aa_ID b.
Definition created_le (a b : rec) : Prop := aa_CreatedAt a <= aa_CreatedAt b.

(** The ids ascend, the times do not decrease up to [top], the chain verifies. *)
Record log_ok (top : Z) l : Prop := mkLogOk {
  lo_ids : StronglySorted id_lt l;
  lo_times : StronglySorted created_le l;
  lo_top : Forall (fun r => aa_CreatedAt r <= top) l;
  lo_chain : verify_loop None l = None }.

Definition log_hash l : string := match last l with Some r => aa_EntryHash r | None => "" end.

(** The fields of a record that its hash covers, its links apart. *)
Definition same_entry (a b : rec) : Prop := forall h, hash_fields h a = hash_fields h b.

(** [r] is the next record of the log, holding the fields of [n]. *)
Record next_of l (n r : rec) : Prop := mkNext {
  nx_id : Forall (fun x => aa_ID x < aa_ID r) l;
  nx_prev : aa_PrevHash r = log_hash l;
  nx_entry : aa_EntryHash r = ComputeActionAuditHash (log_hash l) n;
  nx_same : same_entry r n;
  nx_tenant : aa_TenantID r = aa_TenantID n;
  nx_created : aa_CreatedAt r = aa_CreatedAt n }.

Definition log_select (f : ActionAuditFilter) l : list rec :=
  take (Z.to_nat (effectiveActionAuditLimit (af_Limit f))) (List.filter (memory_matches f) (rev l)).

(** The records a batch with this cutoff removes from an ordered log. *)
Definition older_count (cutoff : Z) l : nat := length (List.filter (fun r => aa_CreatedAt r <? cutoff) l).
Definition batch_count (cutoff limit : Z) l : nat := (Z.to_nat (prune_limit limit) `min` older_count cutoff l)%nat.

Lemma verify_loop_app l : forall prev l', verify_loop prev l = None ->
  verify_loop prev (l ++ l') = verify_loop (match last l with Some r => Some (aa_EntryHash r) | None => prev end) l'.
Proof.
  induction l as [|r l IH]; intros prev l' Hv; [done|]. cbn [app verify_loop] in *.
  destruct (match prev with Some h => _ | None => _ end); [done|].
  destruct (negb _); [done|]. rewrite IH by done.
  destruct l as [|r' l]; [done|]. rewrite last_cons_cons.
  destruct (last (r' :: l)) eqn:E; [done|]. by apply last_None in E.
Qed.

Lemma verify_loop_weaken prev l : verify_loop prev l = None -> verify_loop None l = None.
Proof. destruct l as [|r l]; [done|]. cbn. by destruct (match prev with Some h => _ | None => _ end). Qed.

Lemma verify_loop_drop n l : forall prev, verify_loop prev l = None -> verify_loop None (drop n l) = None.
Proof.
  revert n. induction l as [|r l IH]; intros n prev Hv; [by rewrite drop_nil|].
  destruct n as [|n]; [by eapply verify_loop_weaken|]. cbn [drop]. cbn [verify_loop] in Hv.
  destruct (match prev with Some h => _ | None => _ end); [done|]. destruct (negb _); [done|]. by eapply IH.
Qed.

Lemma log_ok_drop top n l : log_ok top l -> log_ok top (drop n l).
Proof.
  intros [Hi Ht Hb Hc]. split; [by apply StronglySorted_drop..|by apply list.Forall_drop|by eapply verify_loop_drop].
Qed.

Lemma hash_same a b h : same_entry a b -> ComputeActionAuditHash h a = ComputeActionAuditHash h b.
Proof. intros H. unfold ComputeActionAuditHash, hash_input. by rewrite (H h). Qed.

(** Appending the next record keeps the log well-formed. *)
Lemma log_ok_next top l n r : log_ok top l -> next_of l n r -> top <= aa_CreatedAt n -> log_ok (aa_CreatedAt n) (l ++ [r]).
Proof.
  intros [Hi Ht Hb Hc] [Nid Np Ne Ns _ Nc] Htop. split.
  - by apply StronglySorted_snoc.
  - apply StronglySorted_snoc; [done|]. eapply Forall_impl; [exact Hb|]. unfold created_le. cbn. lia.
  - apply list.Forall_app. split; [eapply Forall_impl; [exact Hb|]; cbn; lia|]. constructor; [lia|done].
  - rewrite verify_loop_app by done. cbn [verify_loop]. unfold log_hash in *.
    rewrite (hash_same r n _ Ns), Np, Ne.
    destruct (last l); rewrite ?bool_decide_true by done; done.
Qed.

Lemma ids_strict l : StronglySorted id_lt l -> StronglySorted (strictly id_le) l.
Proof.
  induction 1 as [|x l Hs IH Hx]; constructor; [done|].
  eapply Forall_impl; [exact Hx|]. unfold id_lt, strictly, id_le. intros y Hy. lia.
Qed.

Lemma log_ok_sorted top l : log_ok top l -> VerifyActionAuditChain l = None.
Proof.
  intros [Hi _ _ Hc]. unfold VerifyActionAuditChain.
  by rewrite (merge_sort_strict id_le l l (ids_strict l Hi)).
Qed.

(** ** The interface *)

Class AuditLaws (W F : Type) {st : ActionAuditStore W F} : Type := {
  al_view : W -> list rec;
  al_wf : W -> Prop;
  (** The records the store can represent. *)
  al_accepts : W -> Z -> rec -> Prop;
  (** The instant a time bound stands for in a comparison. *)
  al_round : Z -> Z;
  al_bound : Z -> Prop;
  al_calm : F -> Prop;
  al_record env now r w ret w' top :
    al_wf w -> log_ok top (al_view w) -> al_accepts w now r ->
    RecordActionAudit env now r w = (ret, w') ->
    al_wf w' /\
    (al_view w' = al_view w /\ is_ok ret = false \/
     exists x, next_of (al_view w) (NormalizeActionAuditRecord now r) x /\ al_view w' = al_view w ++ [x] /\
       forall y, ret = Ok y -> aa_ID y = aa_ID x /\ aa_EntryHash y = aa_EntryHash x);
  al_query env f w rs top :
    al_wf w -> log_ok top (al_view w) -> al_bound (af_Since f) -> al_bound (af_Until f) ->
    QueryActionAuditLogs env f w = Ok rs ->
    scope_validate (af_Scope f) = None /\
    (al_round (af_Since f) = af_Since f -> al_round (af_Until f) = af_Until f -> rs = log_select f (al_view w));
  al_prune env cutoff limit w n e w' top :
    al_wf w -> log_ok top (al_view w) -> al_bound cutoff ->
    PruneActionAuditLogsBefore env cutoff limit w = ((n, e), w') ->
    al_wf w' /\
    let k := batch_count (al_round cutoff) limit (al_view w) in
    match e with
    | None => n = Z.of_nat k /\ al_view w' = drop k (al_view w)
    | Some _ => n = 0 /\ (al_view w' = al_view w \/ al_view w' = drop k (al_view w))
    end;
  al_prune_calm env cutoff limit w :
    al_calm env -> exists n w', PruneActionAuditLogsBefore env cutoff limit w = ((n, None), w') }.

(** ** In memory *)

Lemma memory_scan_select f limit l : forall out, 0 < limit -> Z.of_nat (length out) < limit ->
  memory_scan f limit l out = out ++ take (Z.to_nat limit - length out) (List.filter (memory_matches f) l).
Proof.
  induction l as [|r l IH]; intros out Hlim Hout; cbn [memory_scan List.filter]; [by rewrite take_nil, app_nil_r|].
  destruct (memory_matches f r); [|by apply IH].
  rewrite length_app. cbn [length]. destruct (Z.leb_spec limit (Z.of_nat (length out + 1))).
  - replace (Z.to_nat limit - length out)%nat with 1%nat by lia. by cbn.
  - rewrite IH by (rewrite ?length_app; cbn; lia). rewrite length_app. cbn [length].
    replace (Z.to_nat limit - length out)%nat with (S (Z.to_nat limit - (length out + 1)))%nat by lia.
    cbn [take]. by rewrite <- app_assoc.
Qed.

Lemma effective_limit_bounds limit : 1 <= effectiveActionAuditLimit limit <= MaxActionAuditQueryLimit.
Proof. unfold effectiveActionAuditLimit, DefaultActionAuditQueryLimit, MaxActionAuditQueryLimit. repeat split_if; lia. Qed.

Lemma prune_limit_pos limit : 0 < prune_limit limit.
Proof. unfold prune_limit, DefaultActionAuditPruneBatchSize. split_if; lia. Qed.

(** Once a record is kept for its age, all later ones are. *)
Lemma memory_prune_none cutoff limit l : forall pruned kept,
  Forall (fun r => (aa_CreatedAt r <? cutoff) = false) l ->
  memory_prune cutoff limit pruned l kept = (pruned, kept ++ l).
Proof.
  induction l as [|r l IH]; intros pruned kept Hall; cbn [memory_prune]; [by rewrite app_nil_r|].
  inversion Hall as [|? ? Hr Hl]; subst. rewrite Hr, andb_false_r, IH by done. by rewrite <- app_assoc.
Qed.

Lemma memory_prune_full cutoff limit l : forall pruned kept, limit <= pruned ->
  memory_prune cutoff limit pruned l kept = (pruned, kept ++ l).
Proof.
  induction l as [|r l IH]; intros pruned kept Hle; cbn [memory_prune]; [by rewrite app_nil_r|].
  destruct (Z.ltb_spec pruned limit); [lia|]. cbn. rewrite IH by done. by rewrite <- app_assoc.
Qed.

Lemma older_down (c : Z) x y : created_le x y -> (aa_CreatedAt y <? c) = true -> (aa_CreatedAt x <? c) = true.
Proof. unfold created_le. rewrite !Z.ltb_lt. lia. Qed.

Lemma memory_prune_drop cutoff limit l : forall pruned, StronglySorted created_le l -> pruned <= limit ->
  let k := (Z.to_nat (limit - pruned) `min` older_count cutoff l)%nat in
  memory_prune cutoff limit pruned l [] = (pruned + Z.of_nat k, drop k l).
Proof.
  induction l as [|r l IH]; intros pruned Hs Hle; cbn zeta.
  - unfold older_count. cbn. rewrite Nat.min_0_r. cbn. f_equal. lia.
  - inversion Hs as [|? ? Hs' Hr]; subst. destruct (aa_CreatedAt r <? cutoff) eqn:Er; [|clear IH].
    + cbn [memory_prune]. rewrite Er. unfold older_count. cbn [List.filter]. rewrite Er. cbn [length]. fold (older_count cutoff l).
      destruct (Z.ltb_spec pruned limit); cbn [andb].
      * rewrite IH by (done || lia).
        replace (Z.to_nat (limit - pruned)) with (S (Z.to_nat (limit - (pruned + 1)))) by lia.
        rewrite <- Nat.succ_min_distr. cbn [drop]. f_equal. lia.
      * replace (Z.to_nat (limit - pruned)) with 0%nat by lia. rewrite memory_prune_full by lia.
        cbn. f_equal. lia.
    + assert (Hnone : Forall (fun r => (aa_CreatedAt r <? cutoff) = false) (r :: l)).
      { constructor; [done|]. eapply Forall_impl; [exact Hr|]. intros x Hx.
        destruct (aa_CreatedAt x <? cutoff) eqn:E; [|done]. by rewrite (older_down _ _ _ Hx E) in Er. }
      rewrite memory_prune_none by done. unfold older_count. rewrite filter_none by done.
      cbn [length]. rewrite Nat.min_0_r. cbn. f_equal. lia.
Qed.

(** A linked record is the next one of the log its hash was taken from. *)
Lemma link_next l n id : Forall (fun x => aa_ID x < id) l -> next_of l n (link id (log_hash l) n).
Proof. intros Hid. by split. Qed.

#[export] Instance memory_audit_laws : @AuditLaws _ _ memory_audit.
Proof.
  refine {|
    al_view := ma_records;
    al_wf := fun m => Forall (fun r => aa_ID r <= ma_nextID m) (ma_records m) /\ 0 <= ma_nextID m;
    al_accepts := fun m _ _ => ma_nextID m < maxInt64;
    al_round := fun t => t; al_bound := fun _ => True; al_calm := fun _ => True |}.
  - intros env now r m ret m' top [Hids Hpos] Hlog Hroom Heq. cbn in Heq.
    unfold Memory_RecordActionAudit in Heq. injection Heq as <- <-. cbn.
    rewrite i64_id by (unfold in_i64, minInt64, maxInt64 in *; lia). split.
    + split; [|lia]. apply list.Forall_app. split; [eapply Forall_impl; [exact Hids|]; cbn; lia|].
      constructor; [cbn; lia|done].
    + right. eexists. split; [|split; [reflexivity|]]; [|by intros y [= <-]].
      apply link_next. eapply Forall_impl; [exact Hids|]. cbn. lia.
  - intros env f m rs top _ _ _ _ Heq. cbn in Heq. unfold Memory_QueryActionAuditLogs in Heq.
    destruct (scope_validate _); [done|]. injection Heq as <-. split; [done|]. intros _ _.
    pose proof (effective_limit_bounds (af_Limit f)). rewrite memory_scan_select by (cbn; lia).
    unfold log_select. cbn [length]. by rewrite Nat.sub_0_r.
  - intros env cutoff limit m n e m' top [Hids Hpos] Hlog _ Heq. cbn in Heq.
    unfold Memory_PruneActionAuditLogsBefore in Heq. pose proof (prune_limit_pos limit).
    pose proof (memory_prune_drop cutoff (prune_limit limit) (ma_records m) 0 (lo_times _ _ Hlog) ltac:(lia)) as Hd.
    cbv zeta in Hd. rewrite Hd, Z.sub_0_r in Heq. injection Heq as <- <- <-. cbn.
    split; [|by rewrite Z.add_0_l]. split; [|done]. by apply list.Forall_drop.
  - intros env cutoff limit m _. cbn. unfold Memory_PruneActionAuditLogsBefore.
    destruct (memory_prune _ _ _ _ _) as [n kept]. by eexists _, _.
Defined.

(** ** SQL tables *)

(** What a backend's time column has to keep for whole microseconds. *)
Class AuditTime (T : Type) `{TimeColumn T} : Type := {
  at_round : Z -> Z;
  at_aligned t : trunc_us t = t -> at_round t = t;
  at_leb a b : time_ok a -> time_ok b -> tc_leb (tc_enc a) (tc_enc b) = (at_round a <=? at_round b);
  at_total : forall a b, tc_leb a b = true \/ tc_leb b a = true;
  at_trans : forall a b c, tc_leb a b = true -> tc_leb b c = true -> tc_leb a c = true }.

Lemma trunc_us_idem t : trunc_us (trunc_us t) = trunc_us t.
Proof. unfold trunc_us, Microsecond. by rewrite Z.div_mul. Qed.

Section SqlLaws.
Context {T : Type} `{AuditTime T} (decode : string -> metadata) (read : T -> Z).
Hypothesis read_back : forall t, time_ok t -> trunc_us t = t -> read (tc_enc t) = t.
Implicit Types (t : audit_table T) (x y : audit_row T).

Definition scanned x : rec := with_scanned (ar_rec x) (decode (ar_metadata x)) (read (ar_created_at x)).

(** The metadata a row stores is written the same way when it is read back. *)
Definition reencodes (m : metadata) : Prop :=
  canonicalMetadataJSON (decode (canonicalMetadataJSON m)) = canonicalMetadataJSON m.

Record row_good x : Prop := mkRowGood {
  rg_meta : ar_metadata x = canonicalMetadataJSON (aa_Metadata (ar_rec x));
  rg_time : ar_created_at x = tc_enc (aa_CreatedAt (ar_rec x));
  rg_reencodes : reencodes (aa_Metadata (ar_rec x));
  rg_ok : time_ok (aa_CreatedAt (ar_rec x));
  rg_aligned : trunc_us (aa_CreatedAt (ar_rec x)) = aa_CreatedAt (ar_rec x) }.

Definition sql_view t : list rec := scanned <$> at_rows t.
Definition sql_wf t : Prop := Forall row_good (at_rows t) /\ Forall (fun x => row_id x <= at_seq t) (at_rows t).
Definition sql_accepts (now : Z) (r : rec) : Prop :=
  let n := NormalizeActionAuditRecord now r in reencodes (aa_Metadata n) /\ time_ok (aa_CreatedAt n).

Lemma scanned_created x : row_good x -> aa_CreatedAt (scanned x) = aa_CreatedAt (ar_rec x).
Proof. intros [_ Ht _ Ho Ha]. cbn. rewrite Ht. by apply read_back. Qed.

#[local] Instance newer_trans : Transitive (newer (T := T)).
Proof. intros a b c. unfold newer. lia. Qed.
#[local] Instance newer_total : Total (newer (T := T)).
Proof. intros a b. unfold newer. lia. Qed.

(** ORDER BY id DESC is the reverse of the order of insertion. *)
Lemma rows_desc_reverse t : StronglySorted id_lt (sql_view t) -> rows_desc t = reverse (at_rows t).
Proof.
  intros Hs. unfold rows_desc. apply merge_sort_strict; [apply _..| |by rewrite reverse_Permutation].
  apply StronglySorted_rev in Hs. unfold sql_view in Hs. rewrite <- fmap_reverse in Hs.
  induction (reverse (at_rows t)) as [|x l IH]; [constructor|]. inversion Hs as [|? ? Hs' Hx]; subst.
  constructor; [by apply IH|]. rewrite list.Forall_fmap in Hx. eapply Forall_impl; [exact Hx|].
  unfold compose, flip, id_lt, strictly, newer, row_id. cbn. lia.
Qed.

Lemma last_hash_log t : StronglySorted id_lt (sql_view t) -> last_hash t = log_hash (sql_view t).
Proof.
  intros Hs. unfold last_hash, log_hash, sql_view. rewrite rows_desc_reverse, fmap_last by done.
  rewrite <- head_reverse. by destruct (reverse (at_rows t)).
Qed.

(** An insert appends the next record of the log. *)
Lemma sql_append_law env now r t top r' t' : sql_wf t -> log_ok top (sql_view t) -> sql_accepts now r ->
  sql_append env (NormalizeActionAuditRecord now r) t = (r', t') ->
  sql_wf t' /\ exists x : rec, next_of (sql_view t) (NormalizeActionAuditRecord now r) x /\ sql_view t' = sql_view t ++ [x] /\
    aa_ID r' = aa_ID x /\ aa_EntryHash r' = aa_EntryHash x.
Proof.
  intros [Hg Hids] Hlog [Hre Hok] Heq. unfold sql_append in Heq. injection Heq as <- <-.
  set (n := NormalizeActionAuditRecord now r) in *. rewrite last_hash_log by apply Hlog.
  set (id := at_seq t + 1 + Z.of_nat (ae_skip env)). set (row := row_of (link id (log_hash (sql_view t)) n)).
  assert (Hal : trunc_us (aa_CreatedAt n) = aa_CreatedAt n) by apply trunc_us_idem.
  assert (Hrow : row_good row) by (split; done).
  split.
  - split; apply list.Forall_app; split; [done|by constructor| |constructor; [cbn; lia|done]].
    eapply Forall_impl; [exact Hids|]. cbn. lia.
  - exists (scanned row). split; [|split; [|done]].
    + pose proof (scanned_created _ Hrow) as Hc. split; try done.
      * cbn. unfold sql_view. apply list.Forall_fmap. eapply Forall_impl; [exact Hids|]. unfold compose. cbn. unfold row_id. lia.
      * intros h. unfold hash_fields. rewrite Hc. unfold reencodes in Hre.
        change (aa_Metadata (scanned row)) with (decode (canonicalMetadataJSON (aa_Metadata n))). by rewrite Hre.
    + unfold sql_view. cbn. by rewrite fmap_app.
Qed.

Lemma forallb_column (col : rec -> string) want x :
  forallb (fun p => p x) (column_is col want) = str_filter want (col (ar_rec x)).
Proof.
  unfold column_is, clause, str_filter. case_bool_decide; cbn; [done|]. by rewrite andb_true_r.
Qed.

(** The WHERE clauses of a filter select the records the filter describes. *)
Lemma where_matches f x : row_good x -> time_ok (af_Since f) -> time_ok (af_Until f) ->
  at_round (af_Since f) = af_Since f -> at_round (af_Until f) = af_Until f ->
  forallb (fun p => p x) (where_clauses f) = memory_matches f (scanned x).
Proof.
  intros Hx Hs Hu Rs Ru. pose proof (scanned_created _ Hx) as Hc. destruct Hx as [_ Ht _ Ho Ha].
  unfold where_clauses, memory_matches. rewrite !forallb_app, !forallb_column, Hc. cbn [scanned with_scanned aa_TenantID
    aa_Action aa_ResourceType aa_ResourceID aa_ActorID aa_ActorType aa_Status aa_RequestID].
  rewrite <- !andb_assoc. f_equal.
  { destruct (scope_TenantID _); cbn; [by rewrite andb_true_r|]. destruct (af_TenantID f); cbn; [by rewrite andb_true_r|done]. }
  do 7 f_equal. f_equal.
  - unfold clause. destruct (time_IsZero (af_Since f)); cbn; [done|].
    rewrite Ht, at_leb, Rs, (at_aligned _ Ha), andb_true_r by done.
    by rewrite <- Z.leb_antisym.
  - unfold clause. destruct (time_IsZero (af_Until f)); cbn; [done|].
    rewrite Ht, at_leb, Ru, (at_aligned _ Ha), andb_true_r by done.
    by rewrite <- Z.leb_antisym.
Qed.

Lemma select_law f t top : sql_wf t -> log_ok top (sql_view t) -> time_ok (af_Since f) -> time_ok (af_Until f) ->
  at_round (af_Since f) = af_Since f -> at_round (af_Until f) = af_Until f ->
  scanned <$> select_rows f t = log_select f (sql_view t).
Proof.
  intros [Hg _] Hlog Hs Hu Rs Ru. unfold select_rows, log_select. rewrite rows_desc_reverse by apply Hlog.
  rewrite fmap_take. f_equal. rewrite rev_alt. change (rev_append (sql_view t) []) with (reverse (sql_view t)).
  unfold sql_view. rewrite <- fmap_reverse. apply filter_fmap.
  apply list.Forall_reverse. eapply Forall_impl; [exact Hg|]. intros x Hx. by apply where_matches.
Qed.

#[local] Instance oldest_first_trans : Transitive (oldest_first (T := T)).
Proof.
  intros a b c. unfold oldest_first. destruct (tc_leb (ar_created_at a) (ar_created_at b)) eqn:Eab; [|done].
  destruct (tc_leb (ar_created_at b) (ar_created_at c)) eqn:Ebc; [|done].
  rewrite (at_trans _ _ _ Eab Ebc). intros [Hab|Hab] [Hbc|Hbc].
  - left. destruct (tc_leb (ar_created_at c) (ar_created_at a)) eqn:E; [|done].
    by rewrite (at_trans _ _ _ Ebc E) in Hab.
  - left. destruct (tc_leb (ar_created_at c) (ar_created_at a)) eqn:E; [|done].
    by rewrite (at_trans _ _ _ Ebc E) in Hab.
  - left. destruct (tc_leb (ar_created_at c) (ar_created_at a)) eqn:E; [|done].
    by rewrite (at_trans _ _ _ E Eab) in Hbc.
  - right. lia.
Qed.
#[local] Instance oldest_first_total : Total (oldest_first (T := T)).
Proof.
  intros a b. unfold oldest_first.
  destruct (tc_leb (ar_created_at a) (ar_created_at b)) eqn:Eab, (tc_leb (ar_created_at b) (ar_created_at a)) eqn:Eba; auto.
  - destruct (Z.le_ge_cases (row_id a) (row_id b)); [left|right]; auto.
  - destruct (at_total (ar_created_at a) (ar_created_at b)); congruence.
Qed.

(** Rows in the order of the log are in the order of the prune. *)
Lemma oldest_first_strict x y : row_good x -> row_good y ->
  row_id x < row_id y -> aa_CreatedAt (ar_rec x) <= aa_CreatedAt (ar_rec y) -> strictly oldest_first x y.
Proof.
  intros [_ Tx _ Ox Ax] [_ Ty _ Oy Ay] Hid Hc. unfold strictly, oldest_first. rewrite Tx, Ty, !at_leb by done.
  rewrite !at_aligned by done. destruct (Z.leb_spec (aa_CreatedAt (ar_rec x)) (aa_CreatedAt (ar_rec y))); [|lia].
  split; [right; lia|]. destruct (aa_CreatedAt (ar_rec y) <=? aa_CreatedAt (ar_rec x)); [|by intros []].
  intros [Hf|Hf]; [done|lia].
Qed.

Lemma rows_strict (l : list (audit_row T)) : Forall row_good l -> StronglySorted id_lt (scanned <$> l) -> StronglySorted created_le (scanned <$> l) ->
  StronglySorted (strictly oldest_first) l.
Proof.
  induction l as [|x l IH]; intros Hg Hi Hc; [constructor|]. inversion Hg as [|? ? Hx Hl]; subst.
  inversion Hi as [|? ? Hi' Hxi]; subst. inversion Hc as [|? ? Hc' Hxc]; subst.
  constructor; [by apply IH|]. rewrite list.Forall_fmap in Hxi, Hxc. rewrite list.Forall_forall in *.
  intros y Hy. specialize (Hxi y Hy). specialize (Hxc y Hy). unfold compose, created_le in *.
  rewrite !scanned_created in Hxc by auto. apply oldest_first_strict; auto.
Qed.

(** Deleting the ids of a prefix leaves the rest. *)
Lemma delete_prefix (n : nat) (l : list (audit_row T)) : NoDup (row_id <$> l) ->
  List.filter (fun r => negb (bool_decide (row_id r ∈ row_id <$> take n l))) l = drop n l.
Proof.
  intros Hnd. set (ids := row_id <$> take n l). rewrite <- (take_drop n l) at 1. rewrite List.filter_app.
  rewrite filter_none, filter_every; [done| |].
  - apply list.Forall_forall. intros y Hy. rewrite bool_decide_false; [done|]. unfold ids. intros Hin.
    rewrite <- (take_drop n l), fmap_app in Hnd. apply NoDup_app in Hnd as (_ & Hdis & _).
    apply (Hdis _ Hin). by apply list_elem_of_fmap_2.
  - apply list.Forall_forall. intros y Hy. rewrite bool_decide_true; [done|]. by apply list_elem_of_fmap_2.
Qed.

Lemma ids_NoDup (l : list (audit_row T)) : StronglySorted id_lt (scanned <$> l) -> NoDup (row_id <$> l).
Proof.
  induction l as [|x l IH]; intros Hs; [constructor|]. inversion Hs as [|? ? Hs' Hx]; subst. cbn.
  constructor; [|by apply IH]. intros Hin. apply list_elem_of_fmap in Hin as (y & He & Hy).
  rewrite list.Forall_fmap, list.Forall_forall in Hx. specialize (Hx y Hy).
  unfold compose, id_lt in Hx. cbn in Hx. unfold row_id in He. lia.
Qed.

Lemma older_row cutoff x : row_good x -> time_ok cutoff ->
  older_than (tc_enc cutoff) x = (aa_CreatedAt (scanned x) <? at_round cutoff).
Proof.
  intros Hx Hc. rewrite scanned_created by done. destruct Hx as [_ Ht _ Ho Ha].
  unfold older_than. rewrite Ht, at_leb, (at_aligned _ Ha) by done. by rewrite Z.ltb_antisym.
Qed.

Lemma sql_prune_law cutoff limit t top n t' : sql_wf t -> log_ok top (sql_view t) -> time_ok cutoff ->
  sql_prune (tc_enc cutoff) (prune_limit limit) t = (n, t') ->
  let k := batch_count (at_round cutoff) limit (sql_view t) in
  sql_wf t' /\ n = Z.of_nat k /\ sql_view t' = drop k (sql_view t).
Proof.
  intros [Hg Hids] Hlog Hc Heq k. unfold sql_prune in Heq. cbv zeta in Heq.
  remember (delete_ids (prune_ids (tc_enc cutoff) (prune_limit limit) t) t) as u eqn:Eu. injection Heq as <- <-.
  set (older := older_than (tc_enc cutoff)). set (rows := at_rows t).
  assert (Hstrict : StronglySorted (strictly oldest_first) rows) by (apply rows_strict; [done|apply Hlog..]).
  assert (Hcount : length (List.filter older rows) = older_count (at_round cutoff) (sql_view t)).
  { unfold older_count, sql_view. rewrite <- (filter_fmap scanned older _ rows), length_fmap; [done|].
    eapply Forall_impl; [exact Hg|]. intros x Hx. by apply older_row. }
  destruct (filter_prefix older (strictly oldest_first) rows) as [Hpre _]; [|done|].
  { intros x y [Hxy _] Hy. unfold older, older_than, oldest_first in *.
    destruct (tc_leb (ar_created_at x) (ar_created_at y)) eqn:Exy; [|done].
    destruct (tc_leb (tc_enc cutoff) (ar_created_at x)) eqn:E; [|done].
    by rewrite (at_trans _ _ _ E Exy) in Hy. }
  assert (Hpids : prune_ids (tc_enc cutoff) (prune_limit limit) t = row_id <$> take k rows).
  { unfold prune_ids. fold older rows. rewrite (merge_sort_strict oldest_first _ (List.filter older rows)); [| |done].
    - rewrite Hpre, Hcount, take_take. reflexivity.
    - rewrite Hpre. by apply StronglySorted_take. }
  assert (Hrows : at_rows u = drop k rows).
  { rewrite Eu. cbn [delete_ids at_rows]. rewrite Hpids. apply delete_prefix, ids_NoDup, Hlog. }
  assert (Hk : (k <= length rows)%nat).
  { unfold k, batch_count. rewrite <- Hcount. pose proof (List.filter_length_le older rows). lia. }
  assert (at_seq u = at_seq t) as Hseq by by rewrite Eu. clear Eu.
  rewrite Hrows, length_drop. split; [|split; [fold rows; lia|]].
  - unfold sql_wf. rewrite Hrows, Hseq. by split; apply list.Forall_drop.
  - unfold sql_view. by rewrite Hrows, fmap_drop.
Qed.

Lemma audit_delete_law env what cutoff limit t top n e t' : sql_wf t -> log_ok top (sql_view t) -> time_ok cutoff ->
  audit_delete env what (sql_prune (tc_enc cutoff) (prune_limit limit)) t = ((n, e), t') ->
  sql_wf t' /\
  let k := batch_count (at_round cutoff) limit (sql_view t) in
  match e with
  | None => n = Z.of_nat k /\ sql_view t' = drop k (sql_view t)
  | Some _ => n = 0 /\ (sql_view t' = sql_view t \/ sql_view t' = drop k (sql_view t))
  end.
Proof.
  intros Hwf Hlog Hc Heq. unfold audit_delete in Heq.
  destruct (sql_prune (tc_enc cutoff) (prune_limit limit) t) as [m u] eqn:E.
  destruct (sql_prune_law _ _ _ _ _ _ Hwf Hlog Hc E) as (Hwf' & -> & Hv).
  destruct (ae_exec env) as [[er [|]]|]; injection Heq as <- <- <-; cbn; split; auto.
Qed.

(** A committed, rolled back or half reported transaction. *)
Lemma audit_commit_law env what t t' r ret u : audit_commit env what t t' r = (ret, u) ->
  ret = Ok r /\ u = t' \/ is_ok ret = false /\ (u = t \/ u = t').
Proof. unfold audit_commit. destruct (ae_commit env) as [[e [|]]|]; intros [= <- <-]; auto. Qed.

Lemma scan_rows_law env what (f : audit_row T -> rec) rows rs : scan_rows env what f rows = Ok rs -> rs = f <$> rows.
Proof. unfold scan_rows. destruct (ae_rows env); [done|]. by intros [= <-]. Qed.
End SqlLaws.

(** ** Postgres *)

#[export] Instance postgres_audit_time : AuditTime Z.
Proof.
  refine {| at_round := trunc_us |}.
  - done.
  - intros a b _ _. cbn. unfold trunc_us, Microsecond. apply eq_true_iff_eq. rewrite !Z.leb_le. lia.
  - intros a b. cbn. rewrite !Z.leb_le. lia.
  - intros a b c. cbn. rewrite !Z.leb_le. lia.
Defined.

Section PostgresLaws.
Context (format_number : float64 -> option string) (jsonb : string -> string).

Definition pg_decode (raw : string) : metadata := scan_metadata format_number (jsonb raw).

Lemma pg_read_back t : time_ok t -> trunc_us t = t -> tc_dec (tc_enc t : Z) = t.
Proof. intros _ Ht. exact Ht. Qed.

Lemma pg_seq_wf (t : audit_table Z) seq : sql_wf pg_decode t -> at_seq t <= seq -> sql_wf pg_decode (mkAuditTable seq (at_rows t)).
Proof. intros [Hg Hi] Hs. split; [done|]. eapply Forall_impl; [exact Hi|]. cbn. lia. Qed.

Definition postgres_audit_laws : @AuditLaws _ _ (postgres_audit format_number jsonb).
Proof.
  refine {|
    al_view := sql_view pg_decode (tc_dec (T := Z));
    al_wf := sql_wf pg_decode;
    al_accepts := fun _ => sql_accepts pg_decode;
    al_round := at_round; al_bound := time_ok; al_calm := fun env => ae_exec env = None |}.
  - intros env now r t ret t' top Hwf Hlog Hacc Heq. cbn in Heq. unfold Postgres_RecordActionAudit in Heq.
    destruct (ae_begin env); [injection Heq as <- <-; auto|]. destruct (ae_lock env); [injection Heq as <- <-; auto|].
    destruct (ae_select env); [injection Heq as <- <-; auto|].
    destruct (sql_append env _ t) as [r' u] eqn:E.
    assert (Hseq : at_seq t <= at_seq u) by (unfold sql_append in E; injection E as <- <-; cbn; lia).
    pose proof (pg_seq_wf t (at_seq u) Hwf Hseq) as Hrb.
    destruct (sql_append_law _ _ pg_read_back _ _ _ _ _ _ _ Hwf Hlog Hacc E) as (Hwf' & x & Hx & Hv & Hid & Hh).
    destruct (ae_insert env); [injection Heq as <- <-; split; [done|left; done]|].
    destruct (audit_commit_law _ _ _ _ _ _ _ Heq) as [[-> ->]|[Hf [-> | ->]]].
    + split; [done|]. right. exists x. split_and!; [done..|]. by intros y [= <-].
    + split; [done|]. by left.
    + split; [done|]. right. exists x. split_and!; [done..|]. intros y ->. done.
  - intros env f t rs top Hwf Hlog Hs Hu Heq. cbn in Heq. unfold Postgres_QueryActionAuditLogs in Heq.
    destruct (scope_validate _); [done|]. destruct (ae_select env); [done|]. apply scan_rows_law in Heq as ->.
    split; [done|]. intros Rs Ru. by apply (select_law pg_decode tc_dec pg_read_back f t top).
  - intros env cutoff limit t n e t' top Hwf Hlog Hc Heq. cbn in Heq.
    by apply (audit_delete_law pg_decode tc_dec pg_read_back env _ cutoff limit t top n e t' Hwf Hlog Hc Heq).
  - intros env cutoff limit t Hcalm. cbn. unfold Postgres_PruneActionAuditLogsBefore, audit_delete. rewrite Hcalm.
    destruct (sql_prune _ _ _). by eexists _, _.
Defined.
End PostgresLaws.

(** ** SQLite *)

Section SQLiteAuditLaws.
Context (format_number : float64 -> option string) (general : string -> option Z).
#[local] Instance audit_text_time : TimeColumn string := sqlite_time general.

#[local] Instance sqlite_audit_times : AuditTime string.
Proof.
  refine {| at_round := fun t => t |}.
  - done.
  - intros a b Ha Hb. cbn. unfold String.leb. rewrite (format_order a b Ha Hb). unfold Z.leb. by destruct (a ?= b).
  - intros a b. exact (str_le_total a b).
  - intros a b c. exact (str_le_trans a b c).
Defined.

Definition sqlite_decode (raw : string) : metadata :=
  if bool_decide (raw = "") then [] else scan_metadata format_number raw.
Definition sqlite_read (s : string) : Z := trunc_us (parseTime general s).

Lemma sqlite_read_back t : time_ok t -> trunc_us t = t -> sqlite_read (tc_enc t) = t.
Proof. intros Ht Ha. unfold sqlite_read. cbn. by rewrite parseTime_back. Qed.

Definition sqlite_audit_laws : @AuditLaws _ _ (sqlite_audit format_number general).
Proof.
  refine {|
    al_view := sql_view sqlite_decode sqlite_read;
    al_wf := sql_wf sqlite_decode;
    al_accepts := fun _ => sql_accepts sqlite_decode;
    al_round := at_round; al_bound := time_ok; al_calm := fun env => ae_exec env = None |}.
  - intros env now r t ret t' top Hwf Hlog Hacc Heq. cbn in Heq. unfold SQLite_RecordActionAudit in Heq.
    destruct (ae_begin env); [injection Heq as <- <-; auto|].
    destruct (ae_select env); [injection Heq as <- <-; auto|].
    destruct (sql_append env _ t) as [r' u] eqn:E.
    destruct (sql_append_law _ _ sqlite_read_back _ _ _ _ _ _ _ Hwf Hlog Hacc E) as (Hwf' & x & Hx & Hv & Hid & Hh).
    destruct (ae_insert env); [injection Heq as <- <-; auto|].
    destruct (ae_lastid env); [injection Heq as <- <-; auto|].
    destruct (audit_commit_law _ _ _ _ _ _ _ Heq) as [[-> ->]|[Hf [-> | ->]]].
    + split; [done|]. right. exists x. split_and!; [done..|]. by intros y [= <-].
    + split; [done|]. by left.
    + split; [done|]. right. exists x. split_and!; [done..|]. intros y ->. done.
  - intros env f t rs top Hwf Hlog Hs Hu Heq. cbn in Heq. unfold SQLite_QueryActionAuditLogs in Heq.
    destruct (scope_validate _); [done|]. destruct (ae_select env); [done|]. apply scan_rows_law in Heq as ->.
    split; [done|]. intros Rs Ru. by apply (select_law sqlite_decode sqlite_read sqlite_read_back f t top).
  - intros env cutoff limit t n e t' top Hwf Hlog Hc Heq. cbn in Heq.
    by apply (audit_delete_law sqlite_decode sqlite_read sqlite_read_back env _ cutoff limit t top n e t' Hwf Hlog Hc Heq).
  - intros env cutoff limit t Hcalm. cbn. unfold SQLite_PruneActionAuditLogsBefore, audit_delete. rewrite Hcalm.
    destruct (sql_prune _ _ _). by eexists _, _.
Defined.
End SQLiteAuditLaws.
