(* ===== verification/ActionAuditProps.v ===== *)
(** * Properties of the action audit log (internal/store/action_audit.go)

    A run of records and prunes over any store that meets [AuditLaws] keeps the
    hash chain verifiable, the retention loop deletes exactly what is past the
    cutoff, and what is recorded holds no API key. *)

From S2P Require Import Prelude GoStrings Codec StoreErrors GoTime GoSort GoFloat.
From S2P Require Import GoJsonValue ApiKey ActionAudit IdemStore IdemLedger ActionAuditStore ActionAuditLaws.
From stdpp Require Import sorting.
From Stdlib Require Import Ascii String.
Local Open Scope Z_scope.
Local Open Scope go_scope.
Local Notation length := List.length.
Local Notation rec := ActionAuditRecord.

(** ** Runs *)

Inductive audit_op (F : Type) : Type :=
  | DoRecord (env : F) (now : Z) (r : rec)
  | DoPrune (env : F) (cutoff limit : Z).
Arguments DoRecord {F}.
Arguments DoPrune {F}.

(** The time a record carries once it is normalised. *)
Definition stamp {F} (op : audit_op F) : option Z :=
  match op with
  | DoRecord _ now r => Some (aa_CreatedAt (NormalizeActionAuditRecord now r))
  | DoPrune _ _ _ => None
  end.

Section Runs.
Context {W F : Type} {st : ActionAuditStore W F}.

Definition audit_step (op : audit_op F) (w : W) : W :=
  match op with
  | DoRecord env now r => snd (RecordActionAudit env now r w)
  | DoPrune env cutoff limit => snd (PruneActionAuditLogsBefore env cutoff limit w)
  end.
Fixpoint audit_run (ops : list (audit_op F)) (w : W) : W :=
  match ops with [] => w | op :: ops => audit_run ops (audit_step op w) end.

Context {laws : AuditLaws W F}.

(** Each record can be represented and is not dated before the ones recorded. *)
Fixpoint ops_ok (top : Z) (ops : list (audit_op F)) (w : W) : Prop :=
  match ops with
  | [] => True
  | op :: ops =>
      match op with
      | DoRecord _ now r => al_accepts w now r /\ top <= aa_CreatedAt (NormalizeActionAuditRecord now r)
      | DoPrune _ cutoff _ => al_bound cutoff
      end /\ ops_ok (default top (stamp op)) ops (audit_step op w)
  end.

Lemma log_ok_weaken top top' l : log_ok top l -> top <= top' -> log_ok top' l.
Proof. intros [Hi Ht Hb Hc] Hle. split; auto. eapply Forall_impl; [exact Hb|]. cbn. lia. Qed.

Lemma audit_step_ok op w top : al_wf w -> log_ok top (al_view w) ->
  match op with
  | DoRecord _ now r => al_accepts w now r /\ top <= aa_CreatedAt (NormalizeActionAuditRecord now r)
  | DoPrune _ cutoff _ => al_bound cutoff
  end ->
  al_wf (audit_step op w) /\ log_ok (default top (stamp op)) (al_view (audit_step op w)).
Proof.
  intros Hwf Hlog Hop. destruct op as [env now r|env cutoff limit]; cbn [audit_step stamp from_option id].
  - destruct Hop as [Hacc Htop]. destruct (RecordActionAudit env now r w) as [ret w'] eqn:E.
    destruct (al_record env now r w ret w' top Hwf Hlog Hacc E) as [Hwf' [[Hv _]|(x & Hx & Hv & _)]]; cbn [snd].
    + rewrite Hv. split; [done|]. by eapply log_ok_weaken.
    + rewrite Hv. split; [done|]. by apply (log_ok_next top _ (NormalizeActionAuditRecord now r)).
  - destruct (PruneActionAuditLogsBefore env cutoff limit w) as [[n e] w'] eqn:E.
    destruct (al_prune env cutoff limit w n e w' top Hwf Hlog Hop E) as [Hwf' Hv]. cbn [snd]. split; [done|].
    destruct e; [destruct Hv as [_ [-> | ->]]|destruct Hv as [_ ->]]; auto using log_ok_drop.
Qed.

Lemma audit_run_ok ops : forall w top, al_wf w -> log_ok top (al_view w) -> ops_ok top ops w ->
  al_wf (audit_run ops w) /\ exists top', log_ok top' (al_view (audit_run ops w)).
Proof.
  induction ops as [|op ops IH]; intros w top Hwf Hlog Hok; [by eauto|].
  destruct Hok as [Hop Hok]. destruct (audit_step_ok op w top Hwf Hlog Hop) as [Hwf' Hlog']. by eapply IH.
Qed.

Lemma rev_drop_take {A} n (l : list A) : rev (take n (rev l)) = drop (length l - n) l.
Proof. rewrite firstn_rev, rev_involutive. done. Qed.

(** The newest records of an ordered log form a chain. *)
Lemma newest_verify n l top : log_ok top l -> VerifyActionAuditChain (take n (rev l)) = None.
Proof.
  intros Hlog. pose proof (log_ok_sorted top (drop (length l - n) l) (log_ok_drop _ _ _ Hlog)) as Hv.
  unfold VerifyActionAuditChain in *. rewrite <- Hv. f_equal.
  pose proof (ids_strict _ (StronglySorted_drop _ (length l - n) _ (lo_ids _ _ Hlog))) as Hs.
  rewrite (merge_sort_strict id_le (take n (rev l)) _ Hs), (merge_sort_strict id_le _ _ Hs); [done..|].
  rewrite <- rev_drop_take. apply Permutation_rev.
Qed.
End Runs.

(** ** Retention *)

Section RetentionLaws.
Context {W F : Type} {st : ActionAuditStore W F} {laws : AuditLaws W F}.

Lemma older_count_drop cutoff k l : StronglySorted created_le l -> (k <= older_count cutoff l)%nat ->
  older_count cutoff (drop k l) = (older_count cutoff l - k)%nat.
Proof.
  revert k. induction l as [|r l IH]; intros k Hs Hk; [rewrite drop_nil; unfold older_count in *; cbn in *; lia|].
  destruct k as [|k]; [cbn; lia|]. inversion Hs as [|? ? Hs' Hr]; subst. unfold older_count in *. cbn [drop List.filter] in *.
  destruct (aa_CreatedAt r <? cutoff) eqn:Er.
  - cbn [length] in *. rewrite IH by (done || lia). lia.
  - rewrite filter_none in Hk; [cbn in Hk; lia|]. eapply Forall_impl; [exact Hr|]. intros x Hx.
    destruct (aa_CreatedAt x <? cutoff) eqn:E; [|done]. by rewrite (older_down _ _ _ Hx E) in Er.
Qed.

(** The loop removes the old records batch by batch, and stops. *)
Lemma prune_loop_drains cutoff batch top : 0 < batch -> al_bound cutoff -> forall turns w total,
  al_wf w -> log_ok top (al_view w) -> Forall (fun t => fst t = None /\ al_calm (snd t)) turns ->
  (older_count (al_round cutoff) (al_view w) < length turns * Z.to_nat batch)%nat ->
  exists w', prune_loop turns cutoff batch total w =
      Some ((total + Z.of_nat (older_count (al_round cutoff) (al_view w)), None), w') /\
    al_wf w' /\ al_view w' = drop (older_count (al_round cutoff) (al_view w)) (al_view w).
Proof.
  intros Hb Hbound. induction turns as [|[c env] turns IH]; intros w total Hwf Hlog Hcalm Hlen; [cbn in Hlen; lia|].
  inversion Hcalm as [|? ? [Hc Henv] Hcalm']; subst. cbn in Hc. subst c. cbn [prune_loop].
  destruct (al_prune_calm env cutoff batch w Henv) as (n & w1 & E). rewrite E.
  destruct (al_prune env cutoff batch w n None w1 top Hwf Hlog Hbound E) as (Hwf1 & Hn & Hv).
  set (c := older_count (al_round cutoff) (al_view w)) in *.
  assert (Hp : prune_limit batch = batch) by (unfold prune_limit; destruct (Z.leb_spec batch 0); [lia|done]).
  unfold batch_count in Hn, Hv. fold c in Hn, Hv. rewrite Hp in Hn, Hv. cbn [length] in Hlen.
  destruct (Z.ltb_spec n batch).
  - replace (Z.to_nat batch `min` c)%nat with c in * by lia. subst n. by exists w1.
  - assert (Z.to_nat batch <= c)%nat by lia.
    replace (Z.to_nat batch `min` c)%nat with (Z.to_nat batch) in * by lia.
    assert (Hcount : older_count (al_round cutoff) (al_view w1) = (c - Z.to_nat batch)%nat).
    { rewrite Hv. apply older_count_drop; [apply Hlog|fold c; lia]. }
    destruct (IH w1 (total + n)) as (w' & Hrun & Hwf' & Hv').
    + done.
    + rewrite Hv. by apply log_ok_drop.
    + done.
    + lia.
    + exists w'. rewrite Hrun, Hcount. split; [do 2 f_equal; f_equal; lia|]. split; [done|].
      rewrite Hv', Hcount, Hv, drop_drop. f_equal. lia.
Qed.
End RetentionLaws.

(** ** Redaction *)

(** No string of the value is a key, and no field of it is named like a secret;
    what lies inside a value of another type is not looked at. *)
Definition is_key (s : string) : Prop := exists prefix secret scheme, full_key s prefix secret scheme.

Inductive clean : mval -> Prop :=
  | clean_str s : ~ is_key s -> clean (MStr s)
  | clean_map m : Forall (fun e => isSecretFieldName e.1 = false /\ clean e.2) m -> clean (MMap m)
  | clean_other enc : clean (MOther enc).

Abbreviation clean_entries := (Forall (fun e : string * mval => isSecretFieldName e.1 = false /\ clean e.2)).

Lemma redacted_not_key s r : RedactIdentifier s = Some r -> ~ is_key r.
Proof. intros Hr (p & q & sch & Hk). by apply (RedactIdentifier_public s r r p q sch Hr Hk). Qed.

Lemma unredacted_not_key s : RedactIdentifier s = None -> ~ is_key s.
Proof. intros Hr (p & q & sch & Hk). by rewrite (RedactIdentifier_full s p q sch Hk) in Hr. Qed.

Lemma sanitize_string_clean s : ~ is_key (SanitizeAuditValueString s).
Proof.
  unfold SanitizeAuditValueString. case_bool_decide as E.
  - apply unredacted_not_key. reflexivity.
  - destruct (RedactIdentifier (TrimSpace s)) as [r|] eqn:Er; cbn.
    + by eapply redacted_not_key.
    + by apply unredacted_not_key.
Qed.

Lemma sanitize_actor_clean s : ~ is_key (SanitizeActorIdentifier s).
Proof.
  unfold SanitizeActorIdentifier. case_bool_decide.
  - apply unredacted_not_key. reflexivity.
  - destruct (RedactIdentifier (TrimSpace s)) as [r|] eqn:Er; [by eapply redacted_not_key|].
    destruct (Broadcast.HasPrefix _ _); [|by apply unredacted_not_key].
    generalize (TrimSpace (substring 7 (String.length (TrimSpace s) - 7) (TrimSpace s))) as token. intros token.
    destruct (RedactIdentifier token) as [r|] eqn:Et; cbn; [by eapply redacted_not_key|].
    apply unredacted_not_key. reflexivity.
Qed.

Lemma meta_set_clean k v m : isSecretFieldName k = false -> clean v -> clean_entries m -> clean_entries (meta_set k v m).
Proof.
  intros Hk Hv. induction 1 as [|[k' v'] m Hm Htl IH]; cbn; [by repeat constructor|].
  case_bool_decide; constructor; auto.
Qed.

Lemma sanitize_entry_clean k v v' out : clean v' -> clean_entries out -> clean_entries (sanitize_entry k v v' out).
Proof.
  intros Hv Hout. unfold sanitize_entry. case_bool_decide; [done|].
  destruct (isSecretFieldName (TrimSpace k)) eqn:Es; [|by apply meta_set_clean].
  destruct v as [s|m|enc]; [|done..]. destruct (RedactIdentifier s) as [r|] eqn:Er; [|done].
  destruct (meta_has _ _); [done|]. apply meta_set_clean; [reflexivity| |done].
  constructor. by eapply redacted_not_key.
Qed.

Lemma sanitize_fold_clean (m : metadata) : Forall (fun e => clean (sanitize_val e.2)) m -> forall out, clean_entries out ->
  clean_entries (fold_left (fun out e => sanitize_entry e.1 e.2 (sanitize_val e.2) out) m out).
Proof. induction 1 as [|e m He _ IH]; intros out Hout; cbn; [done|]. apply IH. by apply sanitize_entry_clean. Qed.

Lemma sanitize_val_clean : forall v, clean (sanitize_val v).
Proof.
  fix IH 1. intros [s|m|enc]; cbn.
  - constructor. apply sanitize_string_clean.
  - constructor. apply sanitize_fold_clean; [|constructor].
    induction m as [|[k v] m IHm]; constructor; [apply IH|apply IHm].
  - constructor.
Qed.

(** Whatever is recorded, the normalised entry holds no API key of either
    scheme as its actor, its resource or a metadata string at any depth of maps,
    and no metadata field named like a secret. *)
Theorem normalized_entries_hold_no_key (now : Z) (r : rec) :
  let n := NormalizeActionAuditRecord now r in
  ~ is_key (aa_ActorID n) /\ ~ is_key (aa_ResourceID n) /\ clean (MMap (aa_Metadata n)).
Proof.
  cbv zeta. unfold NormalizeActionAuditRecord. cbn [aa_ActorID aa_ResourceID aa_Metadata].
  split; [|split; [apply sanitize_string_clean|exact (sanitize_val_clean (MMap (aa_Metadata r)))]].
  case_bool_decide; [apply unredacted_not_key; reflexivity|apply sanitize_actor_clean].
Qed.

(** ** The chain survives *)

(** Everything, newest first, up to a limit. *)
Definition everything (limit : Z) : ActionAuditFilter :=
  mkAuditFilter OperatorActionAuditScope None "" "" "" "" "" "" "" time_zero time_zero limit.

Lemma everything_selects limit l :
  log_select (everything limit) l = take (Z.to_nat (effectiveActionAuditLimit limit)) (rev l).
Proof. unfold log_select. rewrite filter_every; [done|]. by apply list.Forall_forall. Qed.

Section SQLiteChain.
Context (format_number : float64 -> option string) (general : string -> option Z).
#[local] Instance sqlite_store' : ActionAuditStore (audit_table string) audit_env := sqlite_audit format_number general.
#[local] Instance sqlite_laws' : AuditLaws (audit_table string) audit_env := sqlite_audit_laws format_number general.

Definition sqlite_run (ops : list (audit_op audit_env)) : audit_table string := audit_run ops (mkAuditTable 0 []).

(** Metadata that is written the same way after it is read back, times the text
    column can hold. *)
Definition sqlite_op_ok (op : audit_op audit_env) : Prop :=
  match op with
  | DoRecord _ now r => sql_accepts (sqlite_decode format_number) now r
  | DoPrune _ cutoff _ => time_ok cutoff
  end.

Lemma sqlite_ops_ok ops : forall top w, Forall sqlite_op_ok ops -> StronglySorted Z.le (omap stamp ops) ->
  Forall (Z.le top) (omap stamp ops) -> ops_ok top ops w.
Proof.
  induction ops as [|op ops IH]; intros top w Hops Hs Htop; [done|]. inversion Hops as [|? ? Hop Hops']; subst.
  destruct op as [env now r|env cutoff limit]; cbn [omap list_omap stamp] in *.
  - inversion Hs as [|? ? Hs' Hle]; subst. inversion Htop as [|? ? Ht Htop']; subst.
    split; [by split|]. by apply IH.
  - split; [done|]. by apply IH.
Qed.

Lemma sqlite_run_ok ops : Forall sqlite_op_ok ops -> StronglySorted Z.le (omap stamp ops) ->
  al_wf (sqlite_run ops) /\ exists top, log_ok top (al_view (sqlite_run ops)).
Proof.
  intros Hops Hs. destruct (omap stamp ops) as [|s ss] eqn:E.
  - apply (audit_run_ok ops _ 0); [by split|by split; constructor|].
    apply sqlite_ops_ok; rewrite ?E; by (done || constructor).
  - apply (audit_run_ok ops _ s); [by split|by split; constructor|].
    apply sqlite_ops_ok; rewrite ?E; [done..|]. inversion Hs; subst. by constructor.
Qed.

Lemma sqlite_query_everything ops env limit rs : Forall sqlite_op_ok ops -> StronglySorted Z.le (omap stamp ops) ->
  SQLite_QueryActionAuditLogs format_number general env (everything limit) (sqlite_run ops) = Ok rs ->
  VerifyActionAuditChain rs = None /\
  aa_ID <$> rs = take (Z.to_nat (effectiveActionAuditLimit limit)) (rev (row_id <$> at_rows (sqlite_run ops))) /\
  forall r x, r ∈ rs -> x ∈ at_rows (sqlite_run ops) -> row_id x ∉ aa_ID <$> rs -> row_id x < aa_ID r.
Proof.
  intros Hops Hs Hq. destruct (sqlite_run_ok ops Hops Hs) as [Hwf [top Hlog]].
  assert (Hz : time_ok time_zero) by (split; [lia|reflexivity]).
  destruct (al_query env (everything limit) (sqlite_run ops) rs top Hwf Hlog Hz Hz Hq) as [_ Hrs].
  rewrite (Hrs eq_refl eq_refl), everything_selects. set (n := Z.to_nat (effectiveActionAuditLimit limit)). split; [by eapply newest_verify|].
  assert (Hids : aa_ID <$> al_view (sqlite_run ops) = row_id <$> at_rows (sqlite_run ops)).
  { cbn [al_view sqlite_laws' sqlite_audit_laws]. unfold sql_view. rewrite <- list_fmap_compose. by apply list_fmap_ext. }
  split; [rewrite fmap_take, <- Hids; f_equal; apply map_rev|]. intros r x Hr Hx Hout.
  assert (Hv : exists v, v ∈ rev (al_view (sqlite_run ops)) /\ aa_ID v = row_id x).
  { assert (Hin : row_id x ∈ aa_ID <$> al_view (sqlite_run ops)) by (rewrite Hids; by apply list_elem_of_fmap_2).
    apply list_elem_of_fmap in Hin as (v & -> & Hv). exists v. split; [|done]. rewrite rev_alt. by apply elem_of_reverse. }
  destruct Hv as (v & Hv & Hvx). rewrite <- (take_drop n (rev (al_view (sqlite_run ops)))) in Hv. apply elem_of_app in Hv as [Hv|Hv].
  { destruct Hout. rewrite <- Hvx. by apply list_elem_of_fmap_2. }
  pose proof (StronglySorted_rev _ _ (lo_ids _ _ Hlog)) as Hd. unfold reverse in Hd. rewrite <- rev_alt, <- (take_drop n (rev _)) in Hd.
  pose proof (StronglySorted_app_1_elem_of _ _ _ _ _ Hd Hr Hv) as Hlt. unfold flip, id_lt in Hlt. lia.
Qed.
End SQLiteChain.

(** C9: after any run of records and prunes on the SQLite store, with statements
    and commits failing at will, whose entries carry times that do not decrease
    and metadata that survives its JSON round trip, the records a query returns
    are those last recorded, up to its limit and newest first (every row left out
    has a smaller id), and their hash chain verifies; without faults the query
    answers. *)
Theorem recorded_chain_verifies (format_number : float64 -> option string) (general : string -> option Z)
    (ops : list (audit_op audit_env)) (limit : Z)
    (Hops : Forall (sqlite_op_ok format_number) ops) (Hstamps : StronglySorted Z.le (omap stamp ops)) :
  let t := sqlite_run format_number general ops in
  (forall env rs, SQLite_QueryActionAuditLogs format_number general env (everything limit) t = Ok rs ->
     VerifyActionAuditChain rs = None /\
     aa_ID <$> rs = take (Z.to_nat (effectiveActionAuditLimit limit)) (rev (row_id <$> at_rows t)) /\
     forall r x, r ∈ rs -> x ∈ at_rows t -> row_id x ∉ aa_ID <$> rs -> row_id x < aa_ID r) /\
  exists rs, SQLite_QueryActionAuditLogs format_number general audit_calm (everything limit) t = Ok rs.
Proof.
  cbv zeta. split; [|by eexists].
  intros env rs. by apply sqlite_query_everything.
Qed.

(** A record with a resource, as a handler or a job reports it. *)
Definition sample_record (action resource : string) (created : Z) (meta : metadata) : rec :=
  mkAudit 0 "st_ABCDEFGHIJKLMNOP_SECRET" "bot" (Some 7) action "apikey" resource "POST" "/apikeys" "10.0.0.1" "req" "" 201 "" meta "" "" created.

Definition noon : Z := 1709208000 * Second.
Definition lost_commit : audit_env := mkAuditEnv None None None None None (Some (Sentinel NetError, true)) None None 0.
Definition sample_ops : list (audit_op audit_env) :=
  [DoRecord audit_calm noon (sample_record "apikey.create" "1" time_zero [("name", MStr "ci <1>"); ("api_key", MStr "st_AB_CD")]);
   DoRecord lost_commit noon (sample_record "apikey.revoke" "2" (noon + Second) []);
   DoPrune audit_calm (noon + 1) 10;
   DoRecord audit_calm (noon + 5 * Second) (sample_record "tenant.create" "3" time_zero [("b", MMap [("c", MStr "d")])])].

Lemma sample_times_ok t : noon <= t <= noon + 10 * Second -> time_ok t.
Proof. unfold noon, time_ok, time_zero, time_hi, Second. lia. Qed.

Lemma sample_ops_ok : Forall (sqlite_op_ok (fun _ => None)) sample_ops.
Proof.
  repeat constructor; cbn [sqlite_op_ok]; try (apply sample_times_ok; vm_compute; split; discriminate);
    vm_compute; reflexivity.
Qed.

Lemma recorded_chain_verifies_witness :
  exists rs, SQLite_QueryActionAuditLogs (fun _ => None) (fun _ => None) audit_calm (everything 0)
      (sqlite_run (fun _ => None) (fun _ => None) sample_ops) = Ok rs /\
    VerifyActionAuditChain rs = None /\ aa_ID <$> rs = [3; 2].
Proof.
  destruct (recorded_chain_verifies (fun _ => None) (fun _ => None) sample_ops 0 sample_ops_ok) as [Hall [rs Hrs]].
  - vm_compute. repeat constructor; discriminate.
  - exists rs. destruct (Hall _ _ Hrs) as (Hv & Hl & _). split; [exact Hrs|]. split; [exact Hv|]. rewrite Hl. vm_compute. reflexivity.
Defined.

(** ** The retention sweep *)

Definition retention_batch (opts : ActionAuditRetentionOptions) : nat := Z.to_nat (prune_limit (ro_BatchSize opts)).

(** On any store that meets its laws, over an ordered log, a retention sweep
    that is neither cancelled nor failed ends within one turn more than the full
    batches it needs; it returns the number of records older than the cutoff and
    leaves exactly the others, whose chain still verifies. *)
Theorem retention_sweep_drains {W F : Type} {st : ActionAuditStore W F} {laws : AuditLaws W F}
    (turns : list (option error * F)) (opts : ActionAuditRetentionOptions) (now : Z) (w : W) (top : Z)
    (Hwf : al_wf w) (Hlog : log_ok top (al_view w)) (Hcut : al_bound (retention_cutoff opts now))
    (Hcalm : Forall (fun t => fst t = None /\ al_calm (snd t)) turns)
    (Hturns : (older_count (al_round (retention_cutoff opts now)) (al_view w) < length turns * retention_batch opts)%nat) :
  let old := older_count (al_round (retention_cutoff opts now)) (al_view w) in
  exists w', PruneActionAuditLogs turns opts now w = Some ((Z.of_nat old, None), w') /\
    al_view w' = drop old (al_view w) /\
    Forall (fun r => al_round (retention_cutoff opts now) <= aa_CreatedAt r) (al_view w') /\
    VerifyActionAuditChain (al_view w') = None.
Proof.
  cbv zeta. unfold PruneActionAuditLogs.
  destruct (prune_loop_drains (retention_cutoff opts now) (prune_limit (ro_BatchSize opts)) top
              (prune_limit_pos _) Hcut turns w 0 Hwf Hlog Hcalm Hturns) as (w' & Hrun & Hwf' & Hv).
  exists w'. split; [done|]. split; [done|]. rewrite Hv. split; [|by eapply log_ok_sorted, log_ok_drop].
  destruct (filter_prefix (fun r => aa_CreatedAt r <? al_round (retention_cutoff opts now)) created_le (al_view w))
    as [_ Hrest]; [apply older_down|apply Hlog|].
  eapply Forall_impl; [exact Hrest|]. cbn. intros r Hr. by apply Z.ltb_ge.
Qed.

#[local] Existing Instance memory_audit.

Definition sample_log : MemoryActionAuditStore :=
  audit_run (st := memory_audit)
    [DoRecord tt noon (sample_record "a" "1" time_zero []); DoRecord tt noon (sample_record "b" "2" (noon + Second) []);
     DoRecord tt noon (sample_record "c" "3" (noon + 2 * Second) [])] NewMemoryActionAuditStore.

Lemma sample_log_ok : al_wf (F := unit) sample_log /\ exists top, log_ok top (al_view (F := unit) sample_log).
Proof.
  apply (audit_run_ok _ NewMemoryActionAuditStore 0); [by split|by split; constructor|].
  vm_compute. repeat split; discriminate.
Qed.

Lemma retention_sweep_drains_witness :
  exists top w', log_ok top (al_view (F := unit) sample_log) /\
    PruneActionAuditLogs (st := memory_audit) [(None, tt); (None, tt); (None, tt)] (mkAuditRetention Second 1) (noon + 3 * Second) sample_log
      = Some ((2, None), w') /\ VerifyActionAuditChain (al_view (F := unit) w') = None.
Proof.
  destruct sample_log_ok as [Hwf [top Hlog]].
  destruct (retention_sweep_drains [(None, tt); (None, tt); (None, tt)] (mkAuditRetention Second 1) (noon + 3 * Second)
              sample_log top Hwf Hlog I) as (w' & Hrun & _ & _ & Hv).
  - by repeat constructor.
  - vm_compute. repeat constructor.
  - exists top, w'. split; [exact Hlog|]. split; [|exact Hv]. rewrite Hrun. vm_compute. reflexivity.
Defined.

(** ** What the chain does not protect *)

Definition broken_at (e : option error) : bool :=
  match e with Some e => errors_Is e ErrActionAuditChainBroken | None => false end.

(** A job report dated before an earlier record is pruned from the middle: the
    chain of the remaining records no longer verifies. *)
Lemma backdated_prune_breaks_chain :
  let m := audit_run (st := memory_audit)
    [DoRecord tt noon (sample_record "a" "1" time_zero []);
     DoRecord tt noon (sample_record "backfill.run" "1..2" (noon - 10 * Second) []);
     DoRecord tt noon (sample_record "c" "3" time_zero [])] NewMemoryActionAuditStore in
  VerifyActionAuditChain (ma_records m) = None /\
  broken_at (VerifyActionAuditChain (ma_records (audit_step (st := memory_audit) (DoPrune tt (noon - 5 * Second) 0) m))) = true.
Proof. vm_compute. split; reflexivity. Qed.

(** A bar inside a field moves a field boundary: two records with different actions
    and resource types have the same hash under any previous hash. *)
Lemma bars_shift_fields :
  let a := sample_record "x|y" "1" noon [] in
  let b := mkAudit 0 (aa_ActorID a) (aa_ActorType a) (aa_TenantID a) "x" "y|apikey" "1" "POST" "/apikeys" "10.0.0.1" "req" "" 201 "" [] "" "" noon in
  aa_Action a <> aa_Action b /\ forall h, ComputeActionAuditHash h a = ComputeActionAuditHash h b.
Proof. cbv zeta. split; [discriminate|]. intros h. reflexivity. Qed.

(** Metadata with a byte that is not UTF-8 is hashed as an escape and read back as
    a character: the stored record no longer verifies. *)
Lemma invalid_utf8_metadata_breaks_chain :
  let ops := [DoRecord audit_calm noon (sample_record "a" "1" time_zero [("name", MStr (bytes_str [255]))])] in
  match SQLite_QueryActionAuditLogs (fun _ => None) (fun _ => None) audit_calm (everything 0)
          (sqlite_run (fun _ => None) (fun _ => None) ops) with
  | Ok rs => broken_at (VerifyActionAuditChain rs) = true
  | Err _ => False
  end.
Proof. vm_compute. reflexivity. Qed.
