(* ===== verification/AuditActions.v ===== *)
(** * Administrative actions (internal/audit/actions.go, internal/api/action_audit.go)

    The inventory of audited actions and how a request is attributed to one, the
    reports of background jobs, the actor and tenant an entry is filed under, and
    the scope a caller of the API reads the log with. *)

From S2P Require Import Prelude GoStrings StoreErrors GoFloat GoJsonValue RpcTypes Broadcast ApiKey ActionAudit ActionAuditStore IdemApi.
From Stdlib Require Import Ascii String.
Local Open Scope Z_scope.
Local Open Scope go_scope.
Local Notation length := List.length.

Definition ActionCreateAPIKey : string := "apikey.create".
Definition ActionRevokeAPIKey : string := "apikey.revoke".
Definition ActionAddWatchedContract : string := "watched_contract.add".
Definition ActionRemoveWatchedContract : string := "watched_contract.remove".
Definition ActionSetSpecOverride : string := "contract_spec.set".
Definition ActionDeleteSpecOverride : string := "contract_spec.delete".
Definition ActionRevertSpecOverride : string := "contract_spec.revert".
Definition ActionDeleteDeadLetter : string := "dead_letter.delete".
Definition ActionBulkDeleteEvents : string := "events.bulk_delete".
Definition ActionCreateSubscription : string := "subscription.create".
Definition ActionUpdateSubscription : string := "subscription.update".
Definition ActionDeleteSubscription : string := "subscription.delete".
Definition ActionAddTenantWatch : string := "tenant.watch.add".
Definition ActionRemoveTenantWatch : string := "tenant.watch.remove".
Definition ActionCreateTenant : string := "tenant.create".
Definition ActionUpdateTenant : string := "tenant.update".
Definition ActionDeleteTenant : string := "tenant.delete".
Definition ActionGrantContract : string := "tenant.grant.add".
Definition ActionRevokeContract : string := "tenant.grant.revoke".
Definition ActionCreateTenantKey : string := "tenant.key.create".
Definition ActionRevokeTenantKey : string := "tenant.key.revoke".
Definition ActionRunBackfill : string := "backfill.run".
Definition ActionRunReplay : string := "replay.run".

(** An action of the inventory; its description is for the documentation only. *)
Record ActionSpec : Type := mkSpec {
  sp_Action : string;
  sp_ResourceType : string;
  sp_Method : string;
  sp_Route : string }.

Definition httpMutationInventory : list ActionSpec := [
  mkSpec ActionBulkDeleteEvents "events" "DELETE" "/events";
  mkSpec ActionAddWatchedContract "watched_contract" "POST" "/watched-contracts";
  mkSpec ActionRemoveWatchedContract "watched_contract" "DELETE" "/watched-contracts/{id}";
  mkSpec ActionSetSpecOverride "contract_spec" "PUT" "/contracts/{id}/spec";
  mkSpec ActionDeleteSpecOverride "contract_spec" "DELETE" "/contracts/{id}/spec";
  mkSpec ActionRevertSpecOverride "contract_spec" "POST" "/contracts/{id}/spec/revert";
  mkSpec ActionDeleteDeadLetter "dead_letter" "DELETE" "/dead-letters/{id}";
  mkSpec ActionCreateAPIKey "apikey" "POST" "/apikeys";
  mkSpec ActionRevokeAPIKey "apikey" "DELETE" "/apikeys/{id}";
  mkSpec ActionCreateSubscription "subscription" "POST" "/subscriptions";
  mkSpec ActionUpdateSubscription "subscription" "PUT" "/subscriptions/{id}";
  mkSpec ActionDeleteSubscription "subscription" "DELETE" "/subscriptions/{id}";
  mkSpec ActionAddTenantWatch "watched_contract" "POST" "/tenant/watch";
  mkSpec ActionRemoveTenantWatch "watched_contract" "DELETE" "/tenant/watch/{contract_id}";
  mkSpec ActionCreateTenant "tenant" "POST" "/admin/tenants";
  mkSpec ActionUpdateTenant "tenant" "PATCH" "/admin/tenants/{id}";
  mkSpec ActionDeleteTenant "tenant" "DELETE" "/admin/tenants/{id}";
  mkSpec ActionGrantContract "tenant_grant" "POST" "/admin/tenants/{id}/grants";
  mkSpec ActionRevokeContract "tenant_grant" "DELETE" "/admin/tenants/{id}/grants/{contract_id}";
  mkSpec ActionCreateTenantKey "tenant_key" "POST" "/admin/tenants/{id}/keys";
  mkSpec ActionRevokeTenantKey "tenant_key" "DELETE" "/admin/keys/{key_id}" ].

Definition backgroundActionInventory : list ActionSpec := [
  mkSpec ActionRunBackfill "backfill" "JOB" "backfill";
  mkSpec ActionRunReplay "replay" "JOB" "replay" ].

Definition AllAdminActions : list ActionSpec := httpMutationInventory ++ backgroundActionInventory.
Definition HTTPMutationActions : list ActionSpec := httpMutationInventory.

(** ** Attribution of a request *)

(** strings.ToUpper as far as a comparison with an ASCII literal can see: the
    ASCII letters and the two runes whose upper case is ASCII (U+0131, U+017F). *)
Definition ascii_upper (c : ascii) : ascii :=
  let z := byte_val c in if (97 <=? z) && (z <=? 122) then byte_of (z - 32) else c.
Fixpoint ToUpper (s : string) : string :=
  match s with
  | String a (String b s2 as s1) =>
      if (byte_val a =? 196) && (byte_val b =? 177) then String "I" (ToUpper s2)
      else if (byte_val a =? 197) && (byte_val b =? 191) then String "S" (ToUpper s2)
      else String (ascii_upper a) (ToUpper s1)
  | String a EmptyString => String (ascii_upper a) EmptyString
  | EmptyString => EmptyString
  end.

(** strings.TrimRight(s, "/") and strings.TrimPrefix(s, "/") *)
Fixpoint drop_slashes (s : string) : string :=
  match s with String c s' => if Ascii.eqb c "/" then drop_slashes s' else s | EmptyString => "" end.
Definition trim_slashes (s : string) : string := str_rev (drop_slashes (str_rev s)).
Definition trim_slash_prefix (s : string) : string := default s (strip_prefix "/" s).

Definition clean_path (p : string) : string :=
  let p := TrimSpace p in if bool_decide (p = "/") then p else trim_slashes p.
Definition isMutatingHTTPMethod (method : string) : bool :=
  existsb (fun m => bool_decide (ToUpper (TrimSpace method) = m)) ["POST"; "PUT"; "PATCH"; "DELETE"].

Definition ClassifyHTTPMutation (method routePattern : string) : option ActionSpec :=
  let m := ToUpper (TrimSpace method) in let r := clean_path routePattern in
  List.find (fun spec => bool_decide (sp_Method spec = m) && bool_decide (sp_Route spec = r)) httpMutationInventory.

(** The parameter name of a segment "{name}". *)
Definition param_name (seg : string) : option string :=
  match seg with
  | String "{" rest =>
      match str_rev rest with
      | String "}" name => Some (str_rev name)
      | _ => None
      end
  | _ => None
  end.

(** [params[name] = value] *)
Fixpoint param_set (name value : string) (ps : list (string * string)) : list (string * string) :=
  match ps with
  | [] => [(name, value)]
  | (n, v) :: ps' => if bool_decide (n = name) then (name, value) :: ps' else (n, v) :: param_set name value ps'
  end.

(** The loop over the segments of a route and of a path of the same length. *)
Fixpoint match_segments (route path : list string) (params : list (string * string)) : option (list (string * string)) :=
  match route, path with
  | r :: route', p :: path' =>
      match param_name r with
      | Some name => if bool_decide (p = "") then None else match_segments route' path' (param_set name p params)
      | None => if bool_decide (r = p) then match_segments route' path' params else None
      end
  | _, _ => Some params
  end.

Definition match_spec (m : string) (segs : list string) (spec : ActionSpec) : option (list (string * string)) :=
  if negb (bool_decide (sp_Method spec = m)) then None
  else
    let routeSegs := str_split "/" (trim_slash_prefix (sp_Route spec)) in
    if negb (length routeSegs =? length segs)%nat then None else match_segments routeSegs segs [].

Fixpoint match_inventory (m : string) (segs : list string) (specs : list ActionSpec)
  : option (ActionSpec * list (string * string)) :=
  match specs with
  | [] => None
  | spec :: specs' =>
      match match_spec m segs spec with
      | Some params => Some (spec, params)
      | None => match_inventory m segs specs'
      end
  end.

Definition MatchHTTPMutation (method rawPath : string) : option (ActionSpec * list (string * string)) :=
  match ClassifyHTTPMutation method rawPath with
  | Some spec => Some (spec, [])
  | None =>
      let m := ToUpper (TrimSpace method) in
      let segs := str_split "/" (trim_slash_prefix (clean_path rawPath)) in
      match_inventory m segs httpMutationInventory
  end.

Example match_grant : MatchHTTPMutation " delete " "/admin/tenants/7/grants/CABC/" =
  Some (mkSpec ActionRevokeContract "tenant_grant" "DELETE" "/admin/tenants/{id}/grants/{contract_id}",
        [("id", "7"); ("contract_id", "CABC")]).
Proof. reflexivity. Qed.
Example match_unknown : MatchHTTPMutation "DELETE" "/admin/tenants/7/other" = None.
Proof. reflexivity. Qed.

(** ** The kind of actor *)

Definition ClassifyActorType (explicitHeader userAgent : string) (isBackgroundJob : bool) : string :=
  if isBackgroundJob then ActorTypeAutomation
  else
    let h := ToLower (TrimSpace explicitHeader) in
    if existsb (fun n => bool_decide (h = n)) [ActorTypeAutomation; "bot"; "ci"; "scheduled_job"; "service"]
    then ActorTypeAutomation
    else if existsb (fun n => bool_decide (h = n)) [ActorTypePerson; "human"; "user"; "operator"] then ActorTypePerson
    else
      let ua := ToLower (TrimSpace userAgent) in
      if existsb (fun marker => str_has marker ua)
           ["bot"; "automation"; "github-actions"; "gitlab-ci"; "jenkins"; "circleci"; "cron"; "scheduler";
            "terraform"; "ansible"; "sorotrail-automation"]
      then ActorTypeAutomation else ActorTypePerson.

(** ** Reports of background jobs *)

Record JobRunReport : Type := mkJobRun {
  jr_ActorID : string;
  jr_ActorType : string;
  jr_TenantID : option Z;
  jr_FromLedger : Z;
  jr_ToLedger : Z;
  jr_ContractID : string;
  jr_RemoteAddr : string;
  jr_RequestID : string;
  jr_Err : option string;
  jr_CreatedAt : Z }.

Definition or_else (s d : string) : string := if bool_decide (s = "") then d else s.
Definition meta_int (n : Z) : mval := MOther (Some (FormatInt n)).

(** The entry of a run; [ctxID] is the request id of the context. *)
Definition job_record (ctxID action resourceType : string) (rep : JobRunReport) : ActionAuditRecord :=
  let meta := [("from_ledger", meta_int (jr_FromLedger rep)); ("to_ledger", meta_int (jr_ToLedger rep))] in
  let meta := if bool_decide (jr_ContractID rep = "") then meta else meta_set "contract_id" (MStr (jr_ContractID rep)) meta in
  let meta := match jr_Err rep with Some e => meta_set "error" (MStr e) meta | None => meta end in
  {| aa_ID := 0;
     aa_ActorID := or_else (TrimSpace (jr_ActorID rep)) ("system:" +++ resourceType);
     aa_ActorType := or_else (jr_ActorType rep) ActorTypeAutomation;
     aa_TenantID := jr_TenantID rep;
     aa_Action := action;
     aa_ResourceType := resourceType;
     aa_ResourceID := FormatInt (jr_FromLedger rep) +++ ".." +++ FormatInt (jr_ToLedger rep);
     aa_Method := "JOB";
     aa_Route := resourceType;
     aa_RemoteAddr := or_else (TrimSpace (jr_RemoteAddr rep)) "local";
     aa_RequestID := or_else (TrimSpace (jr_RequestID rep)) ctxID;
     aa_Status := match jr_Err rep with Some _ => ActionAuditStatusFailed | None => ActionAuditStatusSucceeded end;
     aa_HTTPStatus := 0;
     aa_ErrorCode := match jr_Err rep with Some _ => "job_failed" | None => "" end;
     aa_Metadata := meta;
     aa_PrevHash := ""; aa_EntryHash := "";
     aa_CreatedAt := jr_CreatedAt rep |}.

Section Jobs.
Context {W F : Type} {st : ActionAuditStore W F}.

Definition recordJobRun (env : F) (now : Z) (ctxID action resourceType : string) (rep : JobRunReport) (w : W)
  : result error ActionAuditRecord * W :=
  RecordActionAudit env now (job_record ctxID action resourceType rep) w.
Definition RecordBackfillRun (env : F) (now : Z) (ctxID : string) (rep : JobRunReport) (w : W) :=
  recordJobRun env now ctxID ActionRunBackfill "backfill" rep w.
Definition RecordReplayRun (env : F) (now : Z) (ctxID : string) (rep : JobRunReport) (w : W) :=
  recordJobRun env now ctxID ActionRunReplay "replay" rep w.
End Jobs.

(** ** The store behind the API *)

Definition unsupported (e : option error) : bool :=
  match e with Some e => errors_Is e ErrUnsupported | None => false end.
Definition err_of {A} (r : result error A) : option error := match r with Ok _ => None | Err e => Some e end.

(** fallbackActionAuditStore: a primary that does not support the operation is
    replaced by the in-memory store for that call. *)
Definition fallback_audit {W F} (primary : ActionAuditStore W F)
  : ActionAuditStore (W * MemoryActionAuditStore) F := {|
  RecordActionAudit env now rec w :=
    let '(out, p) := @RecordActionAudit _ _ primary env now rec w.1 in
    if unsupported (err_of out)
    then let '(out, m) := Memory_RecordActionAudit now rec w.2 in (out, (p, m))
    else (out, (p, w.2));
  QueryActionAuditLogs env f w :=
    let out := @QueryActionAuditLogs _ _ primary env f w.1 in
    if unsupported (err_of out) then Memory_QueryActionAuditLogs f w.2 else out;
  PruneActionAuditLogsBefore env cutoff limit w :=
    let '((n, e), p) := @PruneActionAuditLogsBefore _ _ primary env cutoff limit w.1 in
    if unsupported e
    then let '(r, m) := Memory_PruneActionAuditLogsBefore cutoff limit w.2 in (r, (p, m))
    else ((n, e), (p, w.2)) |}.

(** The identity the authentication middleware attaches. *)
Record AuditPrincipal : Type := mkAuditPrincipal {
  ap_Untenanted : bool;
  ap_Admin : bool;
  ap_TenantID : Z;
  ap_KeyID : Z;
  ap_KeyPrefix : string }.

(** The scope a request reads with: a tenant that is not an admin is bound to its
    own records whatever the filter asks for. *)
Definition server_filter (p : option AuditPrincipal) (f : ActionAuditFilter) : result error ActionAuditFilter :=
  let scoped s := mkAuditFilter s (af_TenantID f) (af_Action f) (af_ResourceType f) (af_ResourceID f) (af_ActorID f)
                    (af_ActorType f) (af_Status f) (af_RequestID f) (af_Since f) (af_Until f) (af_Limit f) in
  match p with
  | None => Ok f
  | Some p =>
      if negb (ap_Untenanted p) && negb (ap_Admin p) then
        if ap_TenantID p <=? 0 then Err (Sentinel ErrTenantScopeRequired)
        else Ok (scoped (TenantActionAuditScope (ap_TenantID p)))
      else if negb (scope_IsOperator (af_Scope f)) then
        match scope_TenantID (af_Scope f) with
        | None => Ok (scoped OperatorActionAuditScope)
        | Some _ => Ok f
        end
      else Ok f
  end.

Definition Server_QueryActionAuditLogs {W F} {st : ActionAuditStore W F} (p : option AuditPrincipal) (env : F)
    (f : ActionAuditFilter) (w : W) : result error (list ActionAuditRecord) :=
  match server_filter p f with
  | Err e => Err e
  | Ok f => QueryActionAuditLogs env f w
  end.

(** ** The actor and the tenant of an entry *)

Record audit_api_key : Type := mkAuditKey { ak_ID : Z; ak_Name : string; ak_Prefix : string }.
Record actionAuditHolder : Type := mkHolder { ah_principal : option AuditPrincipal; ah_apiKey : option audit_api_key }.

(** auth.go, cutBearer and apiKeyFromRequest *)
Definition cutBearer (auth : string) : option (string * string) := cut_first " " auth.
Definition apiKeyFromRequest (authorization x_api_key : string) : string :=
  match (if bool_decide (authorization = "") then None else cutBearer authorization) with
  | Some (scheme, creds) => if bool_decide (scheme = "Bearer") then creds else x_api_key
  | None => x_api_key
  end.

(** The actor of a request that no principal identifies. *)
Definition credential_actor (server_key : string) (q : Request) (h : actionAuditHolder) : string :=
  let cred := or_else (credentialFromRequest q) (apiKeyFromRequest (q_Authorization q) (q_APIKey q)) in
  if negb (bool_decide (cred = "")) then
    match RedactIdentifier cred with
    | Some redacted => redacted
    | None => if negb (bool_decide (server_key = "")) && bool_decide (cred = server_key)
              then "operator:api_key" else "bearer:redacted"
    end
  else match ah_principal h with
       | Some p => if ap_Untenanted p then "operator:local" else "anonymous"
       | None => "anonymous"
       end.

(** A tenant addressed by an /admin/tenants route: its path parameter, or the id of
    the response body, when it is a positive integer. *)
Definition target_tenant (route : string) (path_id : string) (response_id : option Z) : option Z :=
  if HasPrefix route "/admin/tenants" then
    if negb (bool_decide (path_id = "")) then
      match ParseInt path_id with Some n => if 0 <? n then Some n else None | None => None end
    else match response_id with Some n => if 0 <? n then Some n else None | None => None end
  else None.

(** The principal of a tenant's key; the untenanted one does not count. *)
Definition tenanted (h : actionAuditHolder) : option AuditPrincipal :=
  match ah_principal h with Some p => if ap_Untenanted p then None else Some p | None => None end.

Definition principal_actor (p : AuditPrincipal) : string :=
  if negb (bool_decide (ap_KeyPrefix p = "")) then TenantSchemePrefix +++ ap_KeyPrefix p
  else if 0 <? ap_KeyID p then "tenant_key:" +++ FormatInt (ap_KeyID p)
  else if 0 <? ap_TenantID p then "tenant:" +++ FormatInt (ap_TenantID p) else "".

Definition resolveAuditActorAndTenant (server_key : string) (q : Request) (h : actionAuditHolder) (spec : ActionSpec)
    (path_id : string) (response_id : option Z) (meta : metadata) : string * option Z * metadata :=
  let '(actorID, meta) :=
    match ah_apiKey h with
    | Some k =>
        let meta := meta_set "actor_key_id" (meta_int (ak_ID k)) meta in
        (SchemePrefix +++ ak_Prefix k,
         if bool_decide (ak_Name k = "") then meta else meta_set "actor_key_name" (MStr (ak_Name k)) meta)
    | None => ("", meta)
    end in
  let '(actorID, tenantID, meta) :=
    match tenanted h with
    | Some p =>
        (or_else actorID (principal_actor p),
         if 0 <? ap_TenantID p then Some (ap_TenantID p) else None,
         if 0 <? ap_KeyID p then meta_set "actor_key_id" (meta_int (ap_KeyID p)) meta else meta)
    | None => (actorID, None, meta)
    end in
  let actorID := or_else actorID (credential_actor server_key q h) in
  match target_tenant (sp_Route spec) path_id response_id with
  | Some n => (actorID, match tenantID with Some t => Some t | None => Some n end,
               meta_set "target_tenant_id" (meta_int n) meta)
  | None => (actorID, tenantID, meta)
  end.

Definition extractAuditErrorCode (httpStatus : Z) (code : option string) : string :=
  let code := TrimSpace (default "" code) in
  if negb (bool_decide (code = "")) then code
  else if httpStatus =? 400 then "bad_request" else if httpStatus =? 401 then "unauthorized"
  else if httpStatus =? 403 then "forbidden" else if httpStatus =? 404 then "not_found"
  else if httpStatus =? 409 then "conflict" else if httpStatus =? 413 then "payload_too_large"
  else if httpStatus =? 429 then "rate_limited" else "http_" +++ FormatInt httpStatus.
