(* ===== verification/AuditActionsProps.v ===== *)
(** * Properties of the audited actions

    Reads of the audit log stay inside the caller's tenant over every store and
    wrapper, and every administrative route resolves to its own action. *)

From S2P Require Import Prelude GoStrings StoreErrors GoFloat GoJsonValue RpcTypes Broadcast.
From S2P Require Import ApiKey IdemStore ActionAudit ActionAuditStore ActionAuditLaws IdemApi AuditActions.
From Stdlib Require Import Ascii String.
Local Open Scope Z_scope.
Local Open Scope go_scope.
Local Notation length := List.length.

(** ** Tenant isolation *)

(** What a reader of the log relies on: a tenant's scope yields its own records
    only, and no scope yields none. *)
Class AuditScoped (W F : Type) (st : ActionAuditStore W F) : Prop := {
  scoped_to_tenant env f w rs t :
    scope_TenantID (af_Scope f) = Some t -> QueryActionAuditLogs env f w = Ok rs ->
    Forall (fun r => aa_TenantID r = Some t) rs;
  scope_required env f w e :
    scope_validate (af_Scope f) = Some e -> exists e', QueryActionAuditLogs env f w = Err e' }.

Lemma memory_scan_scoped f limit t l : scope_TenantID (af_Scope f) = Some t -> forall out,
  Forall (fun r => aa_TenantID r = Some t) out -> Forall (fun r => aa_TenantID r = Some t) (memory_scan f limit l out).
Proof.
  intros Ht. induction l as [|r l IH]; intros out Hout; cbn [memory_scan]; [done|].
  destruct (memory_matches f r) eqn:Em; [|by apply IH].
  assert (Hr : Forall (fun r => aa_TenantID r = Some t) (out ++ [r])).
  { apply list.Forall_app. split; [done|]. constructor; [|done]. unfold memory_matches in Em. rewrite Ht in Em.
    rewrite !andb_true_iff in Em. destruct Em as (((((((((Em & _) & _) & _) & _) & _) & _) & _) & _) & _).
    by apply bool_decide_eq_true in Em. }
  split_if; [done|by apply IH].
Qed.

#[export] Instance memory_scoped : AuditScoped _ _ memory_audit.
Proof.
  split.
  - intros env f m rs t Ht Heq. cbn in Heq. unfold Memory_QueryActionAuditLogs in Heq.
    destruct (scope_validate _); [done|]. injection Heq as <-. by apply memory_scan_scoped.
  - intros env f m e He. cbn. unfold Memory_QueryActionAuditLogs. rewrite He. by eexists.
Qed.

Lemma select_rows_scoped {T} `{TimeColumn T} f (t : audit_table T) tenant :
  scope_TenantID (af_Scope f) = Some tenant ->
  Forall (fun r => aa_TenantID (ar_rec r) = Some tenant) (select_rows f t).
Proof.
  intros Ht. unfold select_rows. apply list.Forall_take. apply list.Forall_forall. intros r Hr.
  apply list_elem_of_In, filter_In in Hr as [_ Hr]. unfold where_clauses in Hr. rewrite Ht, forallb_app in Hr.
  apply andb_true_iff in Hr as [Hr _]. cbn in Hr. rewrite andb_true_r in Hr. by apply bool_decide_eq_true in Hr.
Qed.

Lemma scan_rows_scoped {T} `{TimeColumn T} env what (g : audit_row T -> ActionAuditRecord) f (t : audit_table T) rs tenant :
  (forall r, aa_TenantID (g r) = aa_TenantID (ar_rec r)) -> scope_TenantID (af_Scope f) = Some tenant ->
  scan_rows env what g (select_rows f t) = Ok rs -> Forall (fun r => aa_TenantID r = Some tenant) rs.
Proof.
  intros Hg Ht Heq. unfold scan_rows in Heq. destruct (ae_rows env); [done|]. injection Heq as <-.
  apply list.Forall_fmap. eapply list.Forall_impl; [exact (select_rows_scoped f t tenant Ht)|]. intros r Hr. cbn. by rewrite Hg.
Qed.

#[export] Instance postgres_scoped format_number jsonb : AuditScoped _ _ (postgres_audit format_number jsonb).
Proof.
  split.
  - intros env f m rs t Ht Heq. cbn in Heq. unfold Postgres_QueryActionAuditLogs in Heq.
    destruct (scope_validate _); [done|]. destruct (ae_select env); [done|]. by eapply scan_rows_scoped in Heq.
  - intros env f m e He. cbn. unfold Postgres_QueryActionAuditLogs. rewrite He. by eexists.
Qed.

#[export] Instance sqlite_scoped format_number general : AuditScoped _ _ (sqlite_audit format_number general).
Proof.
  split.
  - intros env f m rs t Ht Heq. cbn in Heq. unfold SQLite_QueryActionAuditLogs in Heq.
    destruct (scope_validate _); [done|]. destruct (ae_select env); [done|]. by eapply scan_rows_scoped in Heq.
  - intros env f m e He. cbn. unfold SQLite_QueryActionAuditLogs. rewrite He. by eexists.
Qed.

(** Wrappers keep the scope: an unsupported store answers with an error. *)
#[export] Instance tracing_scoped {W F} (inner : option (ActionAuditStore W F)) :
  (forall st, inner = Some st -> AuditScoped W F st) -> AuditScoped W F (tracing_audit inner).
Proof.
  intros Hin. destruct inner as [st|]; [|split; [done|by eexists]].
  destruct (Hin st eq_refl) as [Hs Hr]. split; [exact Hs|exact Hr].
Qed.

#[export] Instance guarded_scoped {W F} (inner : option (ActionAuditStore W F)) :
  (forall st, inner = Some st -> AuditScoped W F st) -> AuditScoped W F (guarded_audit inner).
Proof.
  intros Hin. pose proof (tracing_scoped inner Hin) as Ht. split.
  - intros env f w rs t Hs Heq. cbn [guarded_audit QueryActionAuditLogs] in Heq.
    destruct (scope_validate _); [done|]. eapply (@scoped_to_tenant _ _ (tracing_audit inner)); eauto.
  - intros env f w e He. cbn [guarded_audit QueryActionAuditLogs]. rewrite He. by eexists.
Qed.

#[export] Instance fallback_scoped {W F} (primary : ActionAuditStore W F) :
  AuditScoped W F primary -> AuditScoped _ _ (fallback_audit primary).
Proof.
  intros Hp. split.
  - intros env f w rs t Hs Heq. cbn [fallback_audit QueryActionAuditLogs] in Heq. cbv zeta in Heq.
    destruct (unsupported _).
    + by apply (@scoped_to_tenant _ _ memory_audit _ tt f w.2 rs t Hs).
    + by eapply (@scoped_to_tenant _ _ primary).
  - intros env f w e He. cbn [fallback_audit QueryActionAuditLogs]. cbv zeta.
    destruct (@scope_required _ _ primary Hp env f w.1 e He) as [e' ->]. cbn.
    destruct (errors_Is e' _); [|by eexists]. by apply (@scope_required _ _ memory_audit _ tt f w.2 e).
Qed.

Lemma scoped_reads {W F : Type} (st : ActionAuditStore W F) (scoped : AuditScoped W F st) (p : AuditPrincipal) (env : F) (w : W) :
  ap_Untenanted p = false -> ap_Admin p = false ->
  (forall f rs, Server_QueryActionAuditLogs (Some p) env f w = Ok rs ->
     0 < ap_TenantID p /\ Forall (fun r => aa_TenantID r = Some (ap_TenantID p)) rs) /\
  forall f, as_mode (af_Scope f) = actionAuditScopeUnset -> exists e, Server_QueryActionAuditLogs None env f w = Err e.
Proof.
  intros Hten Hadm. split.
  - intros f' rs Heq. unfold Server_QueryActionAuditLogs, server_filter in Heq. rewrite Hten, Hadm in Heq. cbn in Heq.
    destruct (Z.leb_spec (ap_TenantID p) 0); [done|]. split; [done|].
    eapply (scoped_to_tenant (st := st)); [|exact Heq]. cbn. unfold TenantActionAuditScope, scope_TenantID.
    destruct (Z.leb_spec (ap_TenantID p) 0); [lia|]. cbn. by destruct (Z.leb_spec (ap_TenantID p) 0); [lia|].
  - intros f Hscope. unfold Server_QueryActionAuditLogs. cbn. eapply (scope_required (st := st)). unfold scope_validate. by rewrite Hscope.
Qed.

(** The stores behind the server: a SQL store behind its wrappers, with the memory
    log as the fallback, and the memory log alone. *)
Definition sqlite_served (format_number : float64 -> option string) (general : string -> option Z) : ActionAuditStore (audit_table string * MemoryActionAuditStore) audit_env :=
  fallback_audit (guarded_audit (Some (tracing_audit (Some (sqlite_audit format_number general))))).
Definition postgres_served (format_number : float64 -> option string) (jsonb : string -> string) : ActionAuditStore (audit_table Z * MemoryActionAuditStore) audit_env :=
  fallback_audit (guarded_audit (Some (tracing_audit (Some (postgres_audit format_number jsonb))))).

(** C11: over the SQLite and the Postgres store behind their wrappers and the
    fallback, and over the in-memory one, with whatever rows they hold and whatever
    statements fail, a tenant's principal reads its own records only, whatever scope
    and tenant its filter names, and a read with no principal and no scope is
    refused. *)
Theorem audit_reads_stay_in_tenant (format_number : float64 -> option string) (general : string -> option Z) (jsonb : string -> string)
    (p : AuditPrincipal) (env : audit_env) (f : ActionAuditFilter) (wS : audit_table string * MemoryActionAuditStore) (wP : audit_table Z * MemoryActionAuditStore) (wM : MemoryActionAuditStore)
    (Hten : ap_Untenanted p = false) (Hadm : ap_Admin p = false) :
  (forall rs, Server_QueryActionAuditLogs (st := sqlite_served format_number general) (Some p) env f wS = Ok rs \/
              Server_QueryActionAuditLogs (st := postgres_served format_number jsonb) (Some p) env f wP = Ok rs \/
              Server_QueryActionAuditLogs (st := memory_audit) (Some p) tt f wM = Ok rs ->
     0 < ap_TenantID p /\ Forall (fun r => aa_TenantID r = Some (ap_TenantID p)) rs) /\
  (as_mode (af_Scope f) = actionAuditScopeUnset ->
     (exists e, Server_QueryActionAuditLogs (st := sqlite_served format_number general) None env f wS = Err e) /\
     (exists e, Server_QueryActionAuditLogs (st := postgres_served format_number jsonb) None env f wP = Err e) /\
     exists e, Server_QueryActionAuditLogs (st := memory_audit) None tt f wM = Err e).
Proof.
  assert (Hwrap : forall W (st : ActionAuditStore W audit_env), AuditScoped _ _ st -> AuditScoped _ _ (fallback_audit (guarded_audit (Some (tracing_audit (Some st)))))).
  { intros W st Hst. apply fallback_scoped, guarded_scoped. intros st' [= <-]. apply tracing_scoped. by intros st' [= <-]. }
  destruct (scoped_reads (sqlite_served format_number general) (Hwrap _ _ (sqlite_scoped _ _)) p env wS Hten Hadm) as [S1 S2].
  destruct (scoped_reads (postgres_served format_number jsonb) (Hwrap _ _ (postgres_scoped _ _)) p env wP Hten Hadm) as [P1 P2].
  destruct (scoped_reads memory_audit memory_scoped p tt wM Hten Hadm) as [M1 M2].
  split; [intros rs [H|[H|H]]; eauto|]. intros Hs. split_and!; auto.
Qed.

Definition two_tenants : audit_table string :=
  let record (t : Z) (w : audit_table string) :=
    snd (SQLite_RecordActionAudit (fun _ => None) audit_calm 1709208000000000000
           (mkAudit 0 "ops" "" (Some t) "tenant.update" "tenant" "1" "PATCH" "/admin/tenants/{id}" "" "" "" 200 "" [] "" "" time_zero) w) in
  record 8 (record 7 (mkAuditTable 0 [])).

(** An operator scope in the filter does not help a tenant. *)
Lemma audit_reads_stay_in_tenant_witness :
  match Server_QueryActionAuditLogs (st := sqlite_served (fun _ => None) (fun _ => None)) (Some (mkAuditPrincipal false false 7 1 "AB")) audit_calm
          (filter_of OperatorActionAuditScope) (two_tenants, NewMemoryActionAuditStore) with
  | Ok rs => length rs = 1%nat /\ Forall (fun r => aa_TenantID r = Some 7) rs
  | Err _ => False
  end.
Proof.
  destruct (audit_reads_stay_in_tenant (fun _ => None) (fun _ => None) id (mkAuditPrincipal false false 7 1 "AB") audit_calm (filter_of OperatorActionAuditScope)
              (two_tenants, NewMemoryActionAuditStore) (mkAuditTable 0 [], NewMemoryActionAuditStore) NewMemoryActionAuditStore eq_refl eq_refl) as [Hall _].
  destruct (Server_QueryActionAuditLogs _ _ _ (two_tenants, _)) as [rs|e] eqn:E.
  - split; [|exact (proj2 (Hall rs (or_introl eq_refl)))]. clear Hall. revert E. vm_compute. intros [= <-]. reflexivity.
  - vm_compute in E. discriminate.
Defined.

(** ** Routes *)

(** The segments of a route with its parameters replaced by values, in order. *)
Fixpoint fill (route : list string) (values : list string) : list string :=
  match route with
  | [] => []
  | r :: route' =>
      match param_name r, values with
      | Some _, v :: values' => v :: fill route' values'
      | _, _ => r :: fill route' values
      end
  end.
Fixpoint bind_params (route : list string) (values : list string) (params : list (string * string)) : list (string * string) :=
  match route with
  | [] => params
  | r :: route' =>
      match param_name r, values with
      | Some name, v :: values' => bind_params route' values' (param_set name v params)
      | _, _ => bind_params route' values params
      end
  end.
Definition arity (route : list string) : nat := length (List.filter (fun r => bool_decide (is_Some (param_name r))) route).

Definition route_segments (spec : ActionSpec) : list string := str_split "/" (trim_slash_prefix (sp_Route spec)).
Definition path_of (segs : list string) : string := "/" +++ join_sep "/" segs.

(** A value that stays inside one segment and is not itself a parameter. *)
Definition segment_char (c : ascii) : bool := is_graph c && negb (Ascii.eqb c "/") && negb (Ascii.eqb c "{").
Definition value_ok (v : string) : Prop := v <> "" /\ str_all segment_char v = true.

Lemma match_fill route : forall values params, length values = arity route -> Forall value_ok values ->
  match_segments route (fill route values) params = Some (bind_params route values params).
Proof.
  induction route as [|r route IH]; intros values params Hlen Hok; [done|]. unfold arity in *. cbn [List.filter] in Hlen.
  cbn [fill bind_params match_segments]. destruct (param_name r) as [name|] eqn:Er.
  - rewrite bool_decide_true in Hlen by eauto. destruct values as [|v values]; [done|].
    inversion Hok as [|? ? [Hne _] Hok']; subst. rewrite bool_decide_false by done. apply IH; [by injection Hlen|done].
  - rewrite bool_decide_false in Hlen by (intros [? ?]; done). rewrite bool_decide_true by done. by apply IH.
Qed.

(** Two routes that no path can match at once: different lengths, or different
    literals in the same place. *)
Fixpoint disjoint_routes (a b : list string) : bool :=
  match a, b with
  | [], [] => false
  | r :: a', s :: b' =>
      match param_name r, param_name s with
      | None, None => negb (bool_decide (r = s)) || disjoint_routes a' b'
      | _, _ => disjoint_routes a' b'
      end
  | _, _ => true
  end.

Lemma fill_length route : forall values, length (fill route values) = length route.
Proof. induction route as [|r route IH]; intros values; cbn; [done|]. destruct (param_name r), values; cbn; by rewrite IH. Qed.

Lemma disjoint_no_match a : forall b values params, disjoint_routes a b = true -> length a = length b ->
  match_segments b (fill a values) params = None.
Proof.
  induction a as [|r a IH]; intros [|s b] values params Hd Hl; try done. cbn [disjoint_routes] in Hd. injection Hl as Hl.
  destruct (param_name r) as [name|] eqn:Er; cbn [fill]; rewrite Er.
  - destruct values as [|v values]; cbn [match_segments]; destruct (param_name s);
      split_if; try done; by apply IH.
  - cbn [match_segments]. destruct (param_name s) as [name|] eqn:Es.
    + split_if; [done|]. by apply IH.
    + destruct (bool_decide (s = r)) eqn:E; [|done]. apply bool_decide_eq_true in E as ->.
      rewrite bool_decide_true in Hd by done. by apply IH.
Qed.

(** *** Paths *)

Lemma str_split_join segs : segs <> [] -> Forall (fun s => str_contains "/" s = false) segs ->
  str_split "/" (join_sep "/" segs) = segs.
Proof.
  induction segs as [|s segs IH]; intros Hne Hsep; [done|]. inversion Hsep as [|? ? Hs Hsegs]; subst.
  destruct segs as [|s' segs]; [by apply str_split_nosep|].
  change (join_sep "/" (s :: s' :: segs)) with (s +++ String "/" (join_sep "/" (s' :: segs))).
  rewrite str_split_app by done. by rewrite IH.
Qed.

Lemma join_graph segs : Forall (fun s => str_all is_graph s = true) segs -> str_all is_graph (join_sep "/" segs) = true.
Proof.
  induction 1 as [|s segs Hs Hsegs IH]; [done|]. destruct segs as [|s' segs]; [done|].
  change (join_sep "/" (s :: s' :: segs)) with (s +++ "/" +++ join_sep "/" (s' :: segs)).
  rewrite !str_all_app, Hs, IH. done.
Qed.

(** A string that does not end in a slash is left alone. *)
Lemma str_rev_app_spec s : forall acc, str_rev_app s acc = str_rev s +++ acc.
Proof.
  induction s as [|c s IH]; intros acc; [done|]. unfold str_rev. cbn [str_rev_app].
  rewrite IH, (IH (String c "")), append_assoc. done.
Qed.
Lemma str_rev_append a b : str_rev (a +++ b) = str_rev b +++ str_rev a.
Proof.
  induction a as [|c a IH]; [by rewrite append_empty_r|]. unfold str_rev at 1. cbn [append str_rev_app].
  rewrite str_rev_app_spec, IH, append_assoc. f_equal. unfold str_rev at 2. cbn [str_rev_app]. by rewrite (str_rev_app_spec a).
Qed.

Lemma drop_slashes_last s b : s <> "" -> str_contains "/" s = false -> drop_slashes (str_rev s +++ b) = str_rev s +++ b.
Proof.
  intros Hne Hs. destruct (str_rev s) as [|c r] eqn:E.
  - exfalso. apply Hne. by rewrite <- (str_rev_involutive s), E.
  - cbn. assert (Hc : str_contains "/" (str_rev s) = false).
    { clear -Hs. rewrite <- (append_empty_r s) in Hs. revert Hs. unfold str_rev. generalize "" as acc.
      induction s as [|c s IH]; intros acc Hs; cbn in *; [done|]. apply orb_false_iff in Hs as [Hc Hs].
      apply IH. rewrite str_contains_app in *. cbn. apply orb_false_iff in Hs as [-> ->]. by rewrite Hc. }
    rewrite E in Hc. cbn in Hc. apply orb_false_iff in Hc as [-> _]. done.
Qed.

Lemma join_snoc segs s : exists a, join_sep "/" (segs ++ [s]) = a +++ s.
Proof.
  induction segs as [|x segs [a IH]]; [by exists ""|]. destruct segs as [|y segs].
  - exists (x +++ "/"). cbn [app join_sep]. by rewrite append_assoc.
  - exists (x +++ "/" +++ a).
    change (join_sep "/" ((x :: y :: segs) ++ [s])) with (x +++ "/" +++ join_sep "/" ((y :: segs) ++ [s])).
    by rewrite IH, !append_assoc.
Qed.

(** The segments of a path are found again. *)
Definition segments_ok (segs : list string) : Prop :=
  segs <> [] /\ Forall (fun s => s <> "" /\ str_all is_graph s = true /\ str_contains "/" s = false) segs.

Lemma clean_path_of segs : segments_ok segs -> clean_path (path_of segs) = path_of segs.
Proof.
  intros [Hne Hok]. unfold clean_path.
  rewrite TrimSpace_graph by (cbn; apply join_graph; eapply list.Forall_impl; [exact Hok|]; by intros s (_ & H & _)).
  destruct (exists_last Hne) as (front & s & ->). apply list.Forall_app in Hok as [_ Hs].
  inversion Hs as [|? ? (Hsne & _ & Hsep) _]; subst. destruct (join_snoc front s) as [a Ha].
  unfold path_of. rewrite Ha. rewrite bool_decide_false.
  - unfold trim_slashes. rewrite <- append_assoc, str_rev_append, drop_slashes_last by done.
    by rewrite <- str_rev_append, str_rev_involutive.
  - cbn. intros E. injection E as E. destruct a; [by destruct s|done].
Qed.

Lemma path_segments segs : segments_ok segs -> str_split "/" (trim_slash_prefix (path_of segs)) = segs.
Proof.
  intros [Hne Hok]. unfold trim_slash_prefix, path_of. cbn. apply str_split_join; [done|].
  eapply list.Forall_impl; [exact Hok|]. by intros s (_ & _ & H).
Qed.

Lemma segment_char_ok v : value_ok v -> v <> "" /\ str_all is_graph v = true /\ str_contains "/" v = false.
Proof.
  intros [Hne Hall]. split; [done|]. split.
  - revert Hall. apply str_all_impl. intros c. unfold segment_char. rewrite !andb_true_iff. tauto.
  - by apply (str_all_contains segment_char).
Qed.

Lemma fill_segments route values : segments_ok route -> Forall value_ok values -> segments_ok (fill route values).
Proof.
  intros [Hne Hok] Hvals. split; [intros E; apply Hne; apply length_zero_iff_nil; by rewrite <- (fill_length route values), E|].
  clear Hne. revert values Hvals. induction Hok as [|r route Hr _ IH]; intros values Hvals; [constructor|]. cbn.
  destruct (param_name r), values as [|v values]; try (constructor; [done|by apply IH]).
  inversion Hvals; subst. constructor; [by apply segment_char_ok|by apply IH].
Qed.

Lemma disjoint_fill_ne a : forall b values, disjoint_routes a b = true -> fill a values <> b.
Proof.
  induction a as [|r a IH]; intros [|s b] values Hd; try done; [cbn; by destruct (param_name r), values|].
  cbn [disjoint_routes] in Hd. cbn [fill]. intros E.
  destruct (param_name r) as [name|] eqn:Er; [destruct values|]; injection E as E1 E2.
  - by apply (IH b [] Hd).
  - by apply (IH b values Hd).
  - subst s. rewrite Er, bool_decide_true in Hd by done. by apply (IH b values Hd).
Qed.

Lemma param_brace r name : param_name r = Some name -> str_contains "{" r = true.
Proof.
  destruct r as [|c r]; [done|]. cbn. destruct (Ascii.eqb c "{") eqn:E; [done|]. intros H. exfalso. revert H.
  destruct c as [[] [] [] [] [] [] [] []]; cbn in E |- *; done.
Qed.

Lemma fill_self a : forall values, length values = arity a -> Forall value_ok values -> fill a values = a -> values = [].
Proof.
  unfold arity. induction a as [|r a IH]; intros values Hlen Hok E; [by destruct values|]. cbn [fill List.filter] in *.
  destruct (param_name r) as [name|] eqn:Er.
  - rewrite bool_decide_true in Hlen by eauto. destruct values as [|v values]; [done|]. injection E as -> _.
    inversion Hok as [|? ? [_ Hv] _]; subst. apply param_brace in Er.
    by rewrite (str_all_contains segment_char "{" r Hv eq_refl) in Er.
  - rewrite bool_decide_false in Hlen by (intros [? ?]; done). injection E as E. by apply IH.
Qed.

Lemma bind_none a params : arity a = 0%nat -> bind_params a [] params = params.
Proof.
  unfold arity. induction a as [|r a IH]; intros H; [done|]. cbn [bind_params List.filter] in *.
  destruct (param_name r) eqn:Er.
  - rewrite bool_decide_true in H by eauto. done.
  - apply IH. by rewrite bool_decide_false in H by (intros [? ?]; done).
Qed.

(** *** The inventory *)

#[export] Instance ActionSpec_eq_dec : EqDecision ActionSpec.
Proof. solve_decision. Defined.

Definition spec_ok (spec : ActionSpec) : bool :=
  bool_decide (ToUpper (TrimSpace (sp_Method spec)) = sp_Method spec) &&
  bool_decide (path_of (route_segments spec) = sp_Route spec) &&
  negb (length (route_segments spec) =? 0)%nat &&
  forallb (fun s => negb (bool_decide (s = "")) && str_all is_graph s && negb (str_contains "/" s)) (route_segments spec) &&
  forallb (fun s => bool_decide (s = spec) || negb (bool_decide (sp_Method s = sp_Method spec)) ||
                    disjoint_routes (route_segments spec) (route_segments s)) httpMutationInventory.

Lemma inventory_ok : forallb spec_ok httpMutationInventory = true.
Proof. vm_compute. reflexivity. Qed.

Lemma spec_facts spec : spec ∈ httpMutationInventory ->
  ToUpper (TrimSpace (sp_Method spec)) = sp_Method spec /\ path_of (route_segments spec) = sp_Route spec /\
  segments_ok (route_segments spec) /\
  forall s, s ∈ httpMutationInventory -> s = spec \/ sp_Method s <> sp_Method spec \/
    disjoint_routes (route_segments spec) (route_segments s) = true.
Proof.
  intros Hin. pose proof inventory_ok as Hall. rewrite forallb_forall in Hall.
  specialize (Hall spec (proj1 (list_elem_of_In _ _) Hin)). unfold spec_ok in Hall. rewrite !andb_true_iff in Hall.
  destruct Hall as ((((Hm & Hp) & Hn) & Hs) & Hd). apply bool_decide_eq_true in Hm, Hp. split_and!; [done..| |].
  - split; [by destruct (route_segments spec)|]. rewrite list.Forall_forall. rewrite forallb_forall in Hs.
    intros s Hsin. specialize (Hs s (proj1 (list_elem_of_In _ _) Hsin)).
    rewrite !andb_true_iff, !negb_true_iff, bool_decide_eq_false in Hs. tauto.
  - intros s Hsin. rewrite forallb_forall in Hd. specialize (Hd s (proj1 (list_elem_of_In _ _) Hsin)).
    rewrite !orb_true_iff, negb_true_iff, bool_decide_eq_true, bool_decide_eq_false in Hd. tauto.
Qed.

Lemma match_inventory_found m segs spec params specs : spec ∈ specs -> match_spec m segs spec = Some params ->
  (forall s, s ∈ specs -> s = spec \/ match_spec m segs s = None) ->
  match_inventory m segs specs = Some (spec, params).
Proof.
  induction specs as [|s specs IH]; intros Hin Hm Hother; [by apply not_elem_of_nil in Hin|]. cbn [match_inventory].
  destruct (Hother s) as [->|Hs]; [by constructor|by rewrite Hm|]. rewrite Hs.
  apply elem_of_cons in Hin as [->|Hin]; [by rewrite Hm in Hs|]. apply IH; [done..|].
  intros s' Hs'. apply Hother. by constructor.
Qed.

Lemma match_spec_filled spec values : spec ∈ httpMutationInventory ->
  length values = arity (route_segments spec) -> Forall value_ok values ->
  let segs := fill (route_segments spec) values in
  match_spec (sp_Method spec) segs spec = Some (bind_params (route_segments spec) values []) /\
  forall s, s ∈ httpMutationInventory -> s = spec \/ match_spec (sp_Method spec) segs s = None.
Proof.
  intros Hin Hlen Hok segs. destruct (spec_facts spec Hin) as (_ & _ & _ & Hd). unfold match_spec. split.
  - rewrite bool_decide_true by done. cbn [negb]. fold (route_segments spec). unfold segs.
    rewrite fill_length, Nat.eqb_refl. cbn [negb]. by apply match_fill.
  - intros s Hs. destruct (Hd s Hs) as [->|[Hm|Hdis]]; [by left|right; by rewrite bool_decide_false|].
    right. destruct (bool_decide _); [|done]. cbn [negb]. fold (route_segments s). unfold segs. rewrite fill_length.
    destruct (Nat.eqb_spec (length (route_segments s)) (length (route_segments spec))) as [El|]; [|done].
    cbn [negb]. by apply disjoint_no_match.
Qed.

(** A filled route is another route, or the same one, only without parameters. *)
Lemma classify_filled spec values s : spec ∈ httpMutationInventory ->
  length values = arity (route_segments spec) -> Forall value_ok values ->
  ClassifyHTTPMutation (sp_Method spec) (path_of (fill (route_segments spec) values)) = Some s ->
  s = spec /\ values = [].
Proof.
  intros Hin Hlen Hok Hc. destruct (spec_facts spec Hin) as (Hm & _ & Hseg & Hd).
  pose proof (fill_segments _ values Hseg Hok) as Hsegs. unfold ClassifyHTTPMutation in Hc.
  rewrite Hm, (clean_path_of _ Hsegs) in Hc. apply find_some in Hc as [Hs Heq].
  apply list_elem_of_In in Hs. apply andb_true_iff in Heq as [Hms Hr]. apply bool_decide_eq_true in Hms, Hr.
  destruct (spec_facts s Hs) as (_ & Hps & Hsegs' & _).
  assert (E : fill (route_segments spec) values = route_segments s).
  { rewrite <- (path_segments _ Hsegs), <- (path_segments _ Hsegs'). by rewrite Hps, Hr. }
  destruct (Hd s Hs) as [->|[Hne|Hdis]]; [|done|by destruct (disjoint_fill_ne _ _ _ Hdis E)].
  split; [done|]. by eapply fill_self.
Qed.

(** Every administrative route, with any values in the places of its parameters,
    is attributed to its own action, and its parameters are those values. *)
Theorem audited_routes_resolve (spec : ActionSpec) (values : list string)
    (Hin : spec ∈ httpMutationInventory) (Hlen : length values = arity (route_segments spec)) (Hok : Forall value_ok values) :
  MatchHTTPMutation (sp_Method spec) (path_of (fill (route_segments spec) values)) =
    Some (spec, bind_params (route_segments spec) values []).
Proof.
  unfold MatchHTTPMutation. destruct (ClassifyHTTPMutation _ _) as [s|] eqn:Ec.
  - destruct (classify_filled spec values s Hin Hlen Hok Ec) as [-> ->]. by rewrite bind_none.
  - destruct (spec_facts spec Hin) as (Hm & _ & Hseg & _). pose proof (fill_segments _ values Hseg Hok) as Hsegs.
    cbv zeta. rewrite Hm, (clean_path_of _ Hsegs), (path_segments _ Hsegs).
    destruct (match_spec_filled spec values Hin Hlen Hok) as [Hs Hother]. by apply match_inventory_found.
Qed.

Lemma audited_routes_resolve_witness :
  let spec := mkSpec ActionRevokeContract "tenant_grant" "DELETE" "/admin/tenants/{id}/grants/{contract_id}" in
  MatchHTTPMutation "DELETE" "/admin/tenants/7/grants/CABC" = Some (spec, [("id", "7"); ("contract_id", "CABC")]).
Proof.
  exact (audited_routes_resolve
    (mkSpec ActionRevokeContract "tenant_grant" "DELETE" "/admin/tenants/{id}/grants/{contract_id}") ["7"; "CABC"]
    ltac:(apply (bool_decide_unpack _); vm_compute; exact I) eq_refl
    ltac:(repeat constructor; discriminate)).
Defined.

(** ** Findings *)

(** A presented credential without a second separator is taken for a redacted
    identifier: it is filed as the actor in the clear, the server's own key too. *)
Lemma short_credential_is_recorded :
  let q := mkRequest "" "Bearer st_hunter2" "" None "POST" "/apikeys" "/apikeys" None 0 in
  credential_actor "st_hunter2" q (mkHolder None None) = "st_hunter2" /\
  SanitizeActorIdentifier "st_hunter2" = "st_hunter2".
Proof. vm_compute. split; reflexivity. Qed.

(** A path parameter spelled like the route's own placeholder yields no parameters. *)
Lemma placeholder_path_has_no_params :
  snd <$> MatchHTTPMutation "DELETE" "/apikeys/{id}" = Some [].
Proof. reflexivity. Qed.
