(* ===== verification/Counting.v ===== *)
(** * Counting the elements of a list that a test accepts *)

From S2P Require Import Prelude.
Local Open Scope Z_scope.
Local Notation length := List.length.

Definition cnt {A} (p : A -> bool) (l : list A) : Z := Z.of_nat (length (List.filter p l)).

Lemma cnt_app {A} (p : A -> bool) (a b : list A) : cnt p (a ++ b)%list = cnt p a + cnt p b.
Proof. unfold cnt. rewrite List.filter_app, length_app. lia. Qed.

Lemma cnt_filter {A} (p q : A -> bool) (l : list A) : cnt p (List.filter q l) = cnt (fun x => q x && p x) l.
Proof. unfold cnt. f_equal. induction l as [|x l IH]; [done|]. cbn. destruct (q x); cbn; [destruct (p x); cbn; by rewrite IH|done]. Qed.

Lemma cnt_ext {A} (p q : A -> bool) (l : list A) : Forall (fun x => p x = q x) l -> cnt p l = cnt q l.
Proof. unfold cnt. induction 1 as [|x l Hx _ IH]; [done|]. cbn. rewrite Hx. destruct (q x); cbn; lia. Qed.

Lemma filter_bool {A} (p : A -> bool) (l : list A) : filter (fun x => p x = true) l = List.filter p l.
Proof.
  induction l as [|x l IH]; [done|]. cbn [List.filter]. destruct (p x) eqn:E.
  - rewrite filter_cons_True by done. by rewrite IH.
  - rewrite filter_cons_False by (by rewrite E). by rewrite IH.
Qed.

Lemma cnt_none {A} (p : A -> bool) (l : list A) : Forall (fun x => p x = false) l -> cnt p l = 0.
Proof. unfold cnt. induction 1 as [|x l Hx _ IH]; [done|]. cbn. by rewrite Hx. Qed.

Lemma cnt_Permutation {A} (p : A -> bool) (a b : list A) : a ≡ₚ b -> cnt p a = cnt p b.
Proof. intros H. unfold cnt. by rewrite <- !filter_bool, H. Qed.

Lemma cnt_pos {A} (p : A -> bool) (l : list A) x : x ∈ l -> p x = true -> 0 < cnt p l.
Proof.
  intros Hx Hp. apply list_elem_of_split in Hx as (a & b & ->). rewrite cnt_app. unfold cnt. cbn [List.filter].
  rewrite Hp. cbn [length]. lia.
Qed.

Lemma cnt_nonneg {A} (p : A -> bool) (l : list A) : 0 <= cnt p l.
Proof. unfold cnt. lia. Qed.

Lemma cnt_cons {A} (p : A -> bool) x (l : list A) : cnt p (x :: l) = Z.b2z (p x) + cnt p l.
Proof. unfold cnt. cbn [List.filter]. destruct (p x); cbn [length Z.b2z]; lia. Qed.

Lemma cnt_single {A} (p : A -> bool) x : cnt p [x] = Z.b2z (p x).
Proof. rewrite cnt_cons. unfold cnt. cbn. lia. Qed.

Lemma cnt_mono {A} (p q : A -> bool) (l : list A) : Forall (fun x => p x = true -> q x = true) l -> cnt p l <= cnt q l.
Proof.
  induction 1 as [|x l H _ IH]; [done|]. rewrite !cnt_cons. destruct (p x), (q x); cbn [Z.b2z]; (lia || (exfalso; naive_solver)).
Qed.

Lemma cnt_lt {A} (p q : A -> bool) (l : list A) x : Forall (fun x => p x = true -> q x = true) l -> x ∈ l ->
  p x = false -> q x = true -> cnt p l < cnt q l.
Proof.
  intros H Hx Hp Hq. apply list_elem_of_split in Hx as (a & b & ->). apply Forall_app in H as [Ha H]. inversion H as [|? ? _ Hb]; subst.
  rewrite !cnt_app, !cnt_cons, Hp, Hq. pose proof (cnt_mono _ _ _ Ha). pose proof (cnt_mono _ _ _ Hb). cbn. lia.
Qed.

Lemma cnt_orb {A} (p q : A -> bool) (l : list A) : (forall x, p x = true -> q x = true -> False) ->
  cnt (fun x => p x || q x) l = cnt p l + cnt q l.
Proof.
  intros H. induction l as [|x l IH]; [done|]. rewrite !cnt_cons, IH. pose proof (H x). destruct (p x), (q x); cbn; (lia || (exfalso; naive_solver)).
Qed.

(** Replacing one element. *)
Lemma cnt_insert {A} (p : A -> bool) (l : list A) i x y : l !! i = Some x ->
  cnt p (<[i := y]> l) = cnt p l + Z.b2z (p y) - Z.b2z (p x).
Proof.
  revert i. induction l as [|z l IH]; intros [|i]; [done..| |]; simpl.
  - intros [= ->]. rewrite !cnt_cons. lia.
  - intros Hi. rewrite !cnt_cons, (IH i Hi). lia.
Qed.
