(* ===== verification/Auditor.v ===== *)
(** * The auditor (internal/audit/audit.go, internal/audit/client.go)

    The background verifier: it fetches a range of ledgers again, compares the
    number of events per ledger with what is stored, moves its high-water mark over
    the ledgers that agree, and repairs the first cluster that does not. Its store,
    its endpoint, the ingester it repairs with and its environment are interfaces;
    the counters it keeps are the state of its monad. *)

From S2P Require Import Prelude GoStrings StoreErrors StoreTypes RpcTypes Backpressure ReorgTracker SqliteStore StoreReorg IngesterCore.
From Stdlib Require Import Ascii String.
Local Open Scope Z_scope.
Local Open Scope go_scope.
Local Notation length := List.length.
Local Abbreviation REvent := RpcTypes.Event.

(** ** Data *)

Record LedgerCensus : Type := mkCensus { lc_Ledger : Z; lc_Count : Z; lc_IDs : list string }.

Inductive finding_status : Type := FindingOpen | FindingRepaired | FindingUnverifiable | FindingUnrecoverable.
#[export] Instance finding_status_eq_dec : EqDecision finding_status.
Proof. solve_decision. Defined.

Record AuditFinding : Type := mkFinding {
  fd_ID : Z;
  fd_Network : string;
  fd_FromLedger : Z;
  fd_ToLedger : Z;
  fd_ExpectedCount : Z;
  fd_ActualCount : Z;
  fd_MissingIDs : list string;
  fd_Status : finding_status;
  fd_Attempts : Z;
  fd_LastAttemptedAt : Z;
  fd_LastError : string }.

Definition set_finding (status : finding_status) (attempts at_ : Z) (err : string) (f : AuditFinding) : AuditFinding :=
  mkFinding (fd_ID f) (fd_Network f) (fd_FromLedger f) (fd_ToLedger f) (fd_ExpectedCount f) (fd_ActualCount f)
    (fd_MissingIDs f) status attempts at_ err.

Record AuditOptions : Type := mkAuditOptions {
  ao_PollInterval : Z;
  ao_BatchLedgers : Z;
  ao_LagThreshold : Z;
  ao_MaxRepairAttempts : Z;
  ao_FindingMaxLedgers : Z;
  ao_Network : string;
  ao_LagController : bool }.

Definition AuditOptions_applyDefaults (o : AuditOptions) : AuditOptions :=
  mkAuditOptions
    (if ao_PollInterval o <=? 0 then 30 * Second else ao_PollInterval o)
    (if ao_BatchLedgers o =? 0 then 100 else ao_BatchLedgers o)
    (if ao_LagThreshold o =? 0 then 200 else ao_LagThreshold o)
    (if ao_MaxRepairAttempts o <=? 0 then 3 else ao_MaxRepairAttempts o)
    (if ao_FindingMaxLedgers o =? 0 then 100 else ao_FindingMaxLedgers o)
    (ao_Network o) (ao_LagController o).

Record Metrics : Type := mkMetrics {
  mt_PassesRun : Z;
  mt_LedgersChecked : Z;
  mt_FindingsOpened : Z;
  mt_FindingsRepaired : Z;
  mt_FindingsUnrecoverable : Z;
  mt_FindingsUnverifiable : Z;
  mt_RPCRequests : Z;
  mt_LagYields : Z;
  mt_MaxDeferralOverrides : Z }.

Inductive counter : Type :=
  | PassesRun | LedgersChecked | FindingsOpened | FindingsRepaired | FindingsUnrecoverable
  | FindingsUnverifiable | RPCRequests | LagYields | MaxDeferralOverrides.

Definition bump (c : counter) (n : Z) (m : Metrics) : Metrics :=
  let add (c' : counter) (x : Z) := match c, c' with
    | PassesRun, PassesRun | LedgersChecked, LedgersChecked | FindingsOpened, FindingsOpened
    | FindingsRepaired, FindingsRepaired | FindingsUnrecoverable, FindingsUnrecoverable
    | FindingsUnverifiable, FindingsUnverifiable | RPCRequests, RPCRequests | LagYields, LagYields
    | MaxDeferralOverrides, MaxDeferralOverrides => u64 (x + n)
    | _, _ => x end in
  mkMetrics (add PassesRun (mt_PassesRun m)) (add LedgersChecked (mt_LedgersChecked m))
    (add FindingsOpened (mt_FindingsOpened m)) (add FindingsRepaired (mt_FindingsRepaired m))
    (add FindingsUnrecoverable (mt_FindingsUnrecoverable m)) (add FindingsUnverifiable (mt_FindingsUnverifiable m))
    (add RPCRequests (mt_RPCRequests m)) (add LagYields (mt_LagYields m)) (add MaxDeferralOverrides (mt_MaxDeferralOverrides m)).

(** ** Interfaces *)

Class AuditStore (W : Type) : Type := {
  as_GetAuditState : string -> W -> result error (string * Z) * W;
  as_GetIngestionState : W -> result error IngestionState * W;
  as_LedgerRangeCensus : Z -> Z -> bool -> W -> result error (list LedgerCensus) * W;
  as_SaveAuditStateIfGreater : string -> Z -> W -> result error (string * Z) * W;
  as_RecordAuditFinding : AuditFinding -> W -> result error AuditFinding * W;
  as_UpdateAuditFinding : AuditFinding -> W -> result error unit * W }.

Class Reingester (W : Type) : Type := {
  ri_BuildFilterBatches : W -> result ierror (list (list EventFilter)) * W;
  ri_ReingestRange : Z -> Z -> W -> result ierror Z * W;
  ri_PageLimit : Z }.

(** The lag controller, the text of an error, the clock, the sleep that a cancelled
    context ends, the context itself and the jitter. *)
Class AuditEnv (W : Type) : Type := {
  av_Error : ierror -> string;
  av_ShouldYield : W -> (bool * string) * W;
  av_now : W -> Z;
  av_sleep : Z -> W -> bool * W;
  av_ctxErr : W -> bool;
  av_jitter : Z -> W -> Z }.

(** ** The monad *)

Definition AM (W A : Type) : Type := Metrics -> W -> result ierror A * Metrics * W.
Definition aret {W A} (a : A) : AM W A := fun m w => (Ok a, m, w).
Definition afail {W A} (e : ierror) : AM W A := fun m w => (Err e, m, w).
Definition abind {W A B} (x : AM W A) (k : A -> AM W B) : AM W B :=
  fun m w => match x m w with (Ok a, m, w) => k a m w | (Err e, m, w) => (Err e, m, w) end.
Definition atry {W A} (x : AM W A) : AM W (result ierror A) :=
  fun m w => let '(r, m, w) := x m w in (Ok r, m, w).
Definition acount {W} (c : counter) (n : Z) : AM W unit := fun m w => (Ok tt, bump c n m, w).
Definition aworld {W} : AM W W := fun m w => (Ok w, m, w).
Definition alift {W A} (f : W -> result ierror A * W) : AM W A := fun m w => let '(r, w) := f w in (r, m, w).
Definition astore {W A} (f : W -> result error A * W) : AM W A :=
  alift (fun w => let '(r, w) := f w in (match r with Ok a => Ok a | Err e => Err (IStore e) end, w)).
Definition arpc {W A} (f : W -> result rerror A * W) : AM W A :=
  alift (fun w => let '(r, w) := f w in (match r with Ok a => Ok a | Err e => Err (IRpc e) end, w)).
Definition awrap {W A} (fmt : string) (x : AM W A) : AM W A :=
  fun m w => match x m w with (Err e, m, w) => (Err (IWrap fmt e), m, w) | r => r end.

Notation "'do!' x := m 'in' k" := (abind m (fun x => k))
  (at level 10, x pattern, m at level 100, k at level 200) : go_scope.
Notation "m ;;! k" := (abind m (fun _ => k)) (at level 100, right associativity) : go_scope.

(** ** Operations *)

Section Auditor.
Context {W : Type} `{!RpcClient W} `{!AuditStore W} `{!Reingester W} `{!AuditEnv W}.
Context (page_fuel : nat) (o : AuditOptions).

Definition advanceHWM (ledger : Z) : AM W unit :=
  astore (as_SaveAuditStateIfGreater (ao_Network o) ledger) ;;! aret tt.

Definition pageLimit : Z := if ri_PageLimit =? 0 then 1000 else ri_PageLimit.

(** The pages of one batch over [from, to]. [inl] when the range left the
    endpoint's retention window: what was collected so far is returned as if it
    were all. *)
Fixpoint fetch_pages (fuel : nat) (from to : Z) (batch : list EventFilter) (cursor : string) (out : list REvent)
  : AM W (list REvent + list REvent) :=
  match fuel with
  | O => afail IFuel
  | S f =>
      acount RPCRequests 1 ;;!
      do! r := atry (arpc (rpc_GetEvents (mkRequest from (u32 (to + 1)) batch cursor pageLimit))) in
      match r with
      | Err e => if ierror_out_of_range e then aret (inl out) else afail e
      | Ok resp =>
          let out := (out ++ List.filter (fun e => re_Ledger e <=? to) (resp_Events resp))%list in
          if Z.of_nat (length (resp_Events resp)) <? pageLimit then aret (inr out)
          else match list.last (resp_Events resp) with
               | None => aret (inr out)
               | Some l =>
                   if to <? re_Ledger l then aret (inr out)
                   else
                     let next := if bool_decide (resp_Cursor resp = "") then CursorValue l else resp_Cursor resp in
                     fetch_pages f from to batch next out
               end
      end
  end.

Fixpoint fetch_batches (from to : Z) (batches : list (list EventFilter)) (out : list REvent) : AM W (list REvent) :=
  match batches with
  | [] => aret out
  | b :: rest =>
      do! r := fetch_pages page_fuel from to b "" out in
      match r with
      | inl out => aret out
      | inr out => fetch_batches from to rest out
      end
  end.

Definition fetchRange (from to : Z) : AM W (list REvent) :=
  do! batches := alift ri_BuildFilterBatches in
  fetch_batches from to batches [].

(** rpcByLedger: the ids of each ledger of the range, in the order they came. *)
Definition ids_by_ledger (from to : Z) (evs : list REvent) : gmap Z (list string) :=
  fold_left (fun m e =>
      if (re_Ledger e <? from) || (to <? re_Ledger e) then m
      else <[re_Ledger e := (default [] (m !! re_Ledger e) ++ [re_ID e])%list]> m) evs ∅.
Definition counts_of (census : list LedgerCensus) : gmap Z Z :=
  fold_left (fun m c => <[u32 (lc_Ledger c) := lc_Count c]> m) census ∅.

Definition rpc_ids (m : gmap Z (list string)) (l : Z) : list string := default [] (m !! l).
Definition stored_of (m : gmap Z Z) (l : Z) : Z := default 0 (m !! l).

Definition ledgerMatches (l : Z) (rpcBy : gmap Z (list string)) (storedBy : gmap Z Z) : bool :=
  let stored := stored_of storedBy l in
  match rpc_ids rpcBy l with
  | [] => stored =? 0
  | ids => stored =? Z.of_nat (length ids)
  end.

(** The last ledger of the matching prefix that starts at [l]; [n] ledgers are
    left, and [v] is the last one that matched. *)
Fixpoint matching_prefix (n : nat) (l v : Z) (rpcBy : gmap Z (list string)) (storedBy : gmap Z Z) : Z :=
  match n with
  | O => v
  | S n => if ledgerMatches l rpcBy storedBy then matching_prefix n (u32 (l + 1)) l rpcBy storedBy else v
  end.

Definition storedIDs (ledger : Z) : AM W (list string) :=
  do! rows := astore (as_LedgerRangeCensus ledger ledger true) in
  aret (match rows with [] => [] | r :: _ => lc_IDs r end).

(** The ids the endpoint has and the store has not, over the ledgers of a cluster. *)
Fixpoint missing_ids (ledgers : list Z) (rpcBy : gmap Z (list string)) (storedBy : gmap Z Z) : AM W (list string) :=
  match ledgers with
  | [] => aret []
  | l :: rest =>
      let ids := rpc_ids rpcBy l in
      do! here :=
        (if negb (bool_decide (ids = [])) && negb (stored_of storedBy l =? Z.of_nat (length ids)) then
           do! stored := storedIDs l in aret (List.filter (fun id => negb (bool_decide (id ∈ stored))) ids)
         else aret []) in
      do! more := missing_ids rest rpcBy storedBy in
      aret (here ++ more)%list
  end.

Definition clusterIsClean (from to : Z) : AM W bool :=
  do! evs := fetchRange from to in
  do! census := astore (as_LedgerRangeCensus from to false) in
  let rpcCount l := Z.of_nat (length (List.filter (fun e => (re_Ledger e =? l) && (from <=? l) && (l <=? to)) evs)) in
  aret (forallb (fun c => rpcCount (u32 (lc_Ledger c)) =? lc_Count c) census &&
        forallb (fun l => (rpcCount l =? 0) || existsb (fun c => u32 (lc_Ledger c) =? l) census) (seqZ from (to - from + 1))).

(** UpdateAuditFinding and advanceHWM whose errors are only logged. *)
Definition logged {A} (x : AM W A) : AM W unit := atry x ;;! aret tt.

(** The end of an attempt that did not repair: out of attempts, or a pause. *)
Definition giveUp (f : AuditFinding) : AM W AuditFinding :=
  if ao_MaxRepairAttempts o <=? fd_Attempts f then
    let f := set_finding FindingUnrecoverable (fd_Attempts f) (fd_LastAttemptedAt f) (fd_LastError f) f in
    acount FindingsUnrecoverable 1 ;;! logged (astore (as_UpdateAuditFinding f)) ;;! aret f
  else
    logged (astore (as_UpdateAuditFinding f)) ;;!
    (fun m w => let '(_, w) := av_sleep (100 * Millisecond) w in (Ok f, m, w)).

Definition doRepairAttempt (f : AuditFinding) : AM W AuditFinding :=
  do! w := aworld in
  let f := set_finding (fd_Status f) (fd_Attempts f + 1) (av_now w) (fd_LastError f) f in
  let with_error e := set_finding (fd_Status f) (fd_Attempts f) (fd_LastAttemptedAt f) e f in
  do! r := atry (alift (ri_ReingestRange (u32 (fd_FromLedger f)) (u32 (fd_ToLedger f)))) in
  match r with
  | Ok _ =>
      do! v := atry (clusterIsClean (u32 (fd_FromLedger f)) (u32 (fd_ToLedger f))) in
      match v with
      | Err e => giveUp (with_error (av_Error e))
      | Ok true =>
          let f := set_finding FindingRepaired (fd_Attempts f) (fd_LastAttemptedAt f) "" f in
          acount FindingsRepaired 1 ;;!
          logged (astore (as_UpdateAuditFinding f)) ;;!
          logged (advanceHWM (u32 (fd_ToLedger f))) ;;!
          aret f
      | Ok false => giveUp (with_error "RPC disagreeing with itself across fetches")
      end
  | Err e =>
      if ierror_out_of_range e then
        let f := set_finding FindingUnverifiable (fd_Attempts f) (fd_LastAttemptedAt f) (av_Error e) f in
        acount FindingsUnverifiable 1 ;;! logged (astore (as_UpdateAuditFinding f)) ;;! aret f
      else giveUp (with_error (av_Error e))
  end.

Definition terminal (s : finding_status) : bool := negb (bool_decide (s = FindingOpen)).

(** The loop ends with a terminal status; [fuel] bounds the attempts. *)
Fixpoint repairFinding (fuel : nat) (f : AuditFinding) : AM W AuditFinding :=
  match fuel with
  | O => afail IFuel
  | S n =>
      do! f := doRepairAttempt f in
      if terminal (fd_Status f) then aret f else repairFinding n f
  end.

Definition handleMismatch (rpcBy : gmap Z (list string)) (storedBy : gmap Z Z) (mismatchFrom mismatchTo : Z) : AM W unit :=
  let ledgers := seqZ mismatchFrom (mismatchTo - mismatchFrom + 1) in
  let expected := foldr (fun l n => Z.of_nat (length (rpc_ids rpcBy l)) + n) 0 ledgers in
  let actual := foldr (fun l n => stored_of storedBy l + n) 0 ledgers in
  do! missing := missing_ids ledgers rpcBy storedBy in
  if (expected =? 0) && (actual =? 0) then aret tt
  else
    do! f := awrap "recording finding [%d,%d]: %w" (astore (as_RecordAuditFinding
      (mkFinding 0 (ao_Network o) mismatchFrom mismatchTo expected actual missing FindingOpen 0 time_zero ""))) in
    acount FindingsOpened 1 ;;!
    repairFinding (S (Z.to_nat (ao_MaxRepairAttempts o - fd_Attempts f))) f ;;!
    aret tt.

Definition reconcileRange (from to : Z) : AM W bool :=
  do! rpcEvents := awrap "fetching RPC events [%d,%d]: %w" (fetchRange from to) in
  let rpcBy := ids_by_ledger from to rpcEvents in
  do! census := astore (as_LedgerRangeCensus from to false) in
  let storedBy := counts_of census in
  acount LedgersChecked (u32 (to - from + 1)) ;;!
  let verifiedThrough := matching_prefix (S (Z.to_nat (u32 (to - from)))) from 0 rpcBy storedBy in
  (if 0 <? verifiedThrough then advanceHWM verifiedThrough else aret tt) ;;!
  if to <=? verifiedThrough then aret true
  else
    match List.find (fun l => negb (ledgerMatches l rpcBy storedBy)) (seqZ (verifiedThrough + 1) (to - verifiedThrough)) with
    | None => advanceHWM to ;;! aret true
    | Some mismatchFrom =>
        let mismatchTo := if ao_FindingMaxLedgers o <? u32 (to - mismatchFrom + 1)
                          then u32 (mismatchFrom + ao_FindingMaxLedgers o - 1) else to in
        handleMismatch rpcBy storedBy mismatchFrom mismatchTo ;;! aret true
    end.

(** A missing row is read as the zero state. *)
Definition or_missing {A} (d : A) (x : AM W A) : AM W A :=
  do! r := atry x in
  match r with
  | Ok a => aret a
  | Err (IStore e) => if errors_Is e ErrNotFound then aret d else afail (IStore e)
  | Err e => afail e
  end.

(** The window of a pass, None when there is nothing to audit. *)
Definition audit_window (verified ingested : Z) (health : Health) : option (Z * Z) :=
  if ingested <=? 0 then None
  else if u32 (ingested - verified) <? ao_LagThreshold o then None
  else
    let from := u32 (u32 verified + 1) in
    let to := u32 ingested in
    if to <? from then None
    else
      let to := if ao_BatchLedgers o <? u32 (to - from + 1) then u32 (from + ao_BatchLedgers o - 1) else to in
      if 0 <? h_OldestLedger health then
        if from <=? h_OldestLedger health then None
        else
          let bound := u32 (h_OldestLedger health + ao_LagThreshold o) in
          if bound <? to then (if bound <? from then None else Some (from, bound)) else Some (from, to)
      else Some (from, to).

Definition PassOnce : AM W bool :=
  do! yield :=
    (if ao_LagController o then
       do! y := (fun m w => let '(y, w) := av_ShouldYield w in (Ok y, m, w)) in
       if (y.1 : bool) then acount LagYields 1 ;;! aret true
       else if bool_decide (y.2 = "max_deferral_reached") then acount MaxDeferralOverrides 1 ;;! aret false
       else aret false
     else aret false) in
  if (yield : bool) then aret false
  else
    do! state := awrap "loading audit state: %w" (or_missing ("", 0) (astore (as_GetAuditState (ao_Network o)))) in
    do! ing := awrap "loading ingestion state: %w" (or_missing (mkIngestionState "" 0 "" None) (astore as_GetIngestionState)) in
    do! health := awrap "getHealth: %w" (arpc rpc_GetHealth) in
    acount RPCRequests 1 ;;!
    match audit_window state.2 (LastIngestedLedger ing) health with
    | None => aret false
    | Some (from, to) => reconcileRange from to
    end.

(** The pass loop: [turns] bounds the passes; None when they run out. *)
Fixpoint Run (turns : nat) (backoff : Z) (m : Metrics) (w : W) : option (Metrics * W) :=
  match turns with
  | O => None
  | S n =>
      let '(r, m, w) := PassOnce m w in
      if av_ctxErr w then Some (m, w)
      else match r with
           | Err _ =>
               let sleep := goquot backoff 2 + av_jitter (goquot backoff 2) w in
               let '(ok, w) := av_sleep sleep w in
               if (ok : bool) then
                 let backoff := if ao_PollInterval o <? 2 * backoff then ao_PollInterval o else 2 * backoff in
                 Run n backoff m w
               else Some (m, w)
           | Ok _ =>
               let m := bump PassesRun 1 m in
               let '(ok, w) := av_sleep (ao_PollInterval o) w in
               if (ok : bool) then Run n Second m w else Some (m, w)
           end
  end.
End Auditor.
