(* ===== verification/AuditorProps.v ===== *)
(** * The high-water mark only covers ledgers that agree (internal/audit/audit.go)

    What the auditor relies on of its store, its endpoint and the ingester, as the
    laws of a type class over a view of the world, and the theorems against it. *)

From stdpp Require Import sorting.
From S2P Require Import Prelude GoStrings StoreErrors StoreTypes RpcTypes Backpressure ReorgTracker SqliteStore StoreReorg IngesterCore.
From S2P Require Import IngesterPersist IngesterSweep ActionAuditLaws Counting Auditor.
From Stdlib Require Import Ascii String.
Local Open Scope Z_scope.
Local Open Scope go_scope.
Local Notation length := List.length.
Local Abbreviation REvent := RpcTypes.Event.

(** ** The view and the laws *)

(** How many events each ledger has in the store, and the mark. *)
Class AuditView (W : Type) : Type := {
  view_stored : W -> Z -> Z;
  view_hwm : W -> Z }.

Definition same_view {W} `{AuditView W} (w w' : W) : Prop :=
  (forall l, view_stored w' l = view_stored w l) /\ view_hwm w' = view_hwm w.

(** A page is a prefix of what is outstanding, and a page that is not full is all
    of it; a cursor points at the last event. *)
Record full_page `{EventLog} (req : GetEventsRequest) (resp : GetEventsResponse) : Prop := {
  fp_prefix : resp_Events resp `prefix_of` outstanding req;
  fp_short : Z.of_nat (length (resp_Events resp)) < req_Limit req -> resp_Events resp = outstanding req;
  fp_cursor : forall l, list.last (resp_Events resp) = Some l -> resp_Cursor resp <> "" -> resp_Cursor resp = CursorValue l }.

(** A census lists the non-empty ledgers of its range once each, with their counts. *)
Record census_ok (from to : Z) (count : Z -> Z) (rows : list LedgerCensus) : Prop := {
  cs_nodup : NoDup (lc_Ledger <$> rows);
  cs_rows : Forall (fun c => from <= lc_Ledger c <= to /\ lc_Count c = count (lc_Ledger c) /\ 0 < lc_Count c) rows;
  cs_complete : forall l, from <= l <= to -> l ∉ lc_Ledger <$> rows -> count l = 0 }.

Class AuditorLaws (W : Type) `{!RpcClient W} `{!AuditStore W} `{!Reingester W} `{!AuditEnv W} `{!AuditView W} `{!EventLog} : Type := {
  au_batches : list (list EventFilter);
  au_network : string;
  law_health w r w' : rpc_GetHealth w = (r, w') -> same_view w w';
  law_events req w r w' : rpc_GetEvents req w = (r, w') -> same_view w w';
  law_page req w resp w' : rpc_GetEvents req w = (Ok resp, w') -> 0 < req_Limit req -> full_page req resp;
  (** The requested ledgers are inside the endpoint's retention window. *)
  law_retained req w e w' : rpc_GetEvents req w = (Err e, w') -> IsLedgerOutOfRange (Some e) = false;
  law_filters w r w' : ri_BuildFilterBatches w = (r, w') -> same_view w w' /\ forall bs, r = Ok bs -> bs = au_batches;
  law_state w r w' : as_GetAuditState au_network w = (r, w') -> same_view w w' /\
    match r with
    | Ok (_, v) => v = view_hwm w
    | Err e => errors_Is e ErrNotFound = true -> view_hwm w = 0
    end;
  law_ingestion w r w' : as_GetIngestionState w = (r, w') -> same_view w w';
  law_census from to ids w r w' : as_LedgerRangeCensus from to ids w = (r, w') -> same_view w w' /\
    forall rows, r = Ok rows -> census_ok from to (view_stored w) rows;
  law_save v w r w' : 0 <= v -> as_SaveAuditStateIfGreater au_network v w = (r, w') ->
    (forall l, view_stored w' l = view_stored w l) /\
    (view_hwm w' = view_hwm w \/ view_hwm w' = Z.max (view_hwm w) v);
  law_record f w r w' : as_RecordAuditFinding f w = (r, w') -> same_view w w' /\
    forall f', r = Ok f' -> fd_FromLedger f' = fd_FromLedger f /\ fd_ToLedger f' = fd_ToLedger f;
  law_update f w r w' : as_UpdateAuditFinding f w = (r, w') -> same_view w w';
  law_reingest from to w r w' : ri_ReingestRange from to w = (r, w') ->
    view_hwm w' = view_hwm w /\ forall l, l < from \/ to < l -> view_stored w' l = view_stored w l;
  law_yield w r w' : av_ShouldYield w = (r, w') -> same_view w w';
  law_sleep d w r w' : av_sleep d w = (r, w') -> same_view w w' }.

Lemma same_view_refl {W} `{AuditView W} (w : W) : same_view w w.
Proof. by split. Qed.
Lemma same_view_trans {W} `{AuditView W} (a b c : W) : same_view a b -> same_view b c -> same_view a c.
Proof. intros [H1 H2] [H3 H4]. split; [intros l; by rewrite H3|congruence]. Qed.

#[export] Instance same_view_preorder {W} `{AuditView W} : PreOrder (same_view (W := W)).
Proof. split; [exact same_view_refl|exact same_view_trans]. Qed.

(** ** Computations that leave the view alone *)

Section Keeps.
Context {W : Type} `{!AuditView W}.

Definition keeps {A} (x : AM W A) : Prop := forall m w r m' w', x m w = (r, m', w') -> same_view w w'.

Lemma view_kept_ret {A} (a : A) : keeps (aret a).
Proof. by intros m w r m' w' [= <- <- <-]. Qed.
Lemma view_kept_fail {A} e : keeps (A := A) (afail e).
Proof. by intros m w r m' w' [= <- <- <-]. Qed.
Lemma keeps_count c n : keeps (acount c n).
Proof. by intros m w r m' w' [= <- <- <-]. Qed.
Lemma view_kept_bind {A B} (x : AM W A) (k : A -> AM W B) : keeps x -> (forall a, keeps (k a)) -> keeps (abind x k).
Proof.
  intros Hx Hk m w r m' w' H. unfold abind in H. destruct (x m w) as [[[a|e] m1] w1] eqn:E.
  - etrans; [by eapply Hx|by eapply Hk].
  - injection H as <- <- <-. by eapply Hx.
Qed.
Lemma view_kept_try {A} (x : AM W A) : keeps x -> keeps (atry x).
Proof.
  intros Hx m w r m' w' H. unfold atry in H. destruct (x m w) as [[r1 m1] w1] eqn:E.
  injection H as <- <- <-. by eapply Hx.
Qed.
Lemma view_kept_wrap {A} s (x : AM W A) : keeps x -> keeps (awrap s x).
Proof.
  intros Hx m w r m' w' H. unfold awrap in H. destruct (x m w) as [[[a|e] m1] w1] eqn:E; injection H as <- <- <-; by eapply Hx.
Qed.
Lemma keeps_lift {A} (f : W -> result ierror A * W) : (forall w r w', f w = (r, w') -> same_view w w') -> keeps (alift f).
Proof. intros Hf m w r m' w' H. unfold alift in H. destruct (f w) as [r1 w1] eqn:E. injection H as <- <- <-. by eapply Hf. Qed.
Lemma view_kept_store {A} (f : W -> result error A * W) : (forall w r w', f w = (r, w') -> same_view w w') -> keeps (astore f).
Proof. intros Hf. apply keeps_lift. intros w r w' H. destruct (f w) as [r1 w1] eqn:E. injection H as <- <-. by eapply Hf. Qed.
Lemma view_kept_rpc {A} (f : W -> result rerror A * W) : (forall w r w', f w = (r, w') -> same_view w w') -> keeps (arpc f).
Proof. intros Hf. apply keeps_lift. intros w r w' H. destruct (f w) as [r1 w1] eqn:E. injection H as <- <-. by eapply Hf. Qed.
End Keeps.

Create HintDb audit discriminated.
#[export] Hint Resolve view_kept_ret view_kept_fail keeps_count view_kept_bind view_kept_try view_kept_wrap : audit.

(** ** Fetching a range *)

Section Fetch.
Context {W : Type} `{!RpcClient W} `{!AuditStore W} `{!Reingester W} `{!AuditEnv W} `{!AuditView W}.
Context `{Log : EventLog} `{Laws : !AuditorLaws W}.
Context (page_fuel : nat) (from to : Z).
Hypothesis Hto : 0 <= to < maxUint32.
Hypothesis Hlimit : 0 < pageLimit.

Definition in_ledger (l : Z) (e : REvent) : bool := re_Ledger e =? l.

(** The number of events of a ledger the endpoint's log has for the batches. *)
Definition chain_count (l : Z) : Z :=
  foldr (fun b n => cnt (fun e => rpc_match b e && in_ledger l e) rpc_log + n) 0 au_batches.

Definition freq (b : list EventFilter) (c : string) : GetEventsRequest := mkRequest from (u32 (to + 1)) b c pageLimit.

(** The outstanding events of one ledger of the range. *)
Definition left (b : list EventFilter) (c : string) (l : Z) : Z := cnt (in_ledger l) (outstanding (freq b c)).

Lemma outstanding_sorted req : StronglySorted (fun a b => re_Ledger a <= re_Ledger b) (outstanding req).
Proof. apply StronglySorted_filter, todo_sorted. Qed.

(** After a page whose last event is in the range, the rest is what the cursor
    request has outstanding, as far as the ledgers of the range are concerned. *)
Lemma left_continue b c resp e l : full_page (freq b c) resp -> list.last (resp_Events resp) = Some e ->
  from <= l <= to -> left b c l = cnt (in_ledger l) (resp_Events resp) + left b (CursorValue e) l.
Proof.
  intros [[tl Htl] _ _] He Hl. unfold left. rewrite Htl, cnt_app. f_equal.
  apply last_Some in He as [evs Hevs]. rewrite Hevs, <- app_assoc in Htl. cbn in Htl.
  pose proof (outstanding_sorted (freq b c)) as Hsort. rewrite Htl in Hsort.
  unfold outstanding in Htl. apply filter_split in Htl as (s1 & s2 & Hsplit & Hs2). cbn in Hsplit.
  unfold outstanding. cbn [freq req_Cursor]. rewrite (todo_after _ _ _ _ Hsplit), <- Hs2, !filter_bool, !cnt_filter.
  assert (Hin : e ∈ todo c) by (rewrite Hsplit; apply elem_of_app; right; by left).
  assert (Hne : CursorValue e <> "").
  { apply log_cursor_nonempty. destruct (todo_suffix c) as [p ->]. apply elem_of_app. by right. }
  apply cnt_ext, list.Forall_forall. intros x Hx. unfold wanted, in_ledger. cbn [freq req_Filters req_Cursor req_StartLedger req_EndLedger].
  rewrite (bool_decide_false (CursorValue e = "")) by done. cbn [negb orb]. rewrite andb_true_r.
  destruct (Z.eqb_spec (re_Ledger x) l); [|by rewrite !andb_false_r].
  rewrite u32_id by (unfold in_u32, maxUint32 in *; lia). rewrite !andb_true_r.
  destruct (Z.leb_spec from (re_Ledger x)); [|lia]. destruct (Z.ltb_spec (re_Ledger x) (to + 1)); [|lia].
  by rewrite !orb_true_r, andb_true_r.
Qed.

(** A page that reaches past the range leaves nothing of it. *)
Lemma left_past b c resp e l : full_page (freq b c) resp -> list.last (resp_Events resp) = Some e ->
  to < re_Ledger e -> l <= to -> left b c l = cnt (in_ledger l) (resp_Events resp).
Proof.
  intros [[tl Htl] _ _] He Hpast Hl. unfold left. pose proof (outstanding_sorted (freq b c)) as Hs. rewrite Htl in Hs |- *.
  rewrite cnt_app, (cnt_none _ tl); [lia|]. apply list.Forall_forall. intros x Hx.
  pose proof (StronglySorted_app_last _ _ _ _ _ Hs He Hx). unfold in_ledger. apply Z.eqb_neq. cbn in *. lia.
Qed.

Lemma keep_range l evs : l <= to -> cnt (in_ledger l) (List.filter (fun e => re_Ledger e <=? to) evs) = cnt (in_ledger l) evs.
Proof.
  intros Hl. rewrite cnt_filter. apply cnt_ext, list.Forall_forall. intros x _. unfold in_ledger.
  destruct (Z.eqb_spec (re_Ledger x) l); [|by rewrite andb_false_r]. destruct (Z.leb_spec (re_Ledger x) to); [done|lia].
Qed.

Lemma keeps_fetch_pages fuel : forall b c out, keeps (fetch_pages (W := W) fuel from to b c out).
Proof.
  induction fuel as [|f IH]; intros b c out; cbn [fetch_pages]; [apply view_kept_fail|].
  apply view_kept_bind; [apply keeps_count|]. intros _. apply view_kept_bind; [apply view_kept_try, view_kept_rpc, law_events|].
  intros [resp|e]; [|destruct (ierror_out_of_range _); auto with audit].
  destruct (_ <? _); [auto with audit|]. destruct (list.last _) as [e|]; [|auto with audit].
  destruct (_ <? _); auto with audit.
Qed.

Lemma fetch_pages_counts fuel : forall b c out m w r m' w',
  fetch_pages fuel from to b c out m w = (Ok r, m', w') ->
  exists out', r = inr out' /\ forall l, from <= l <= to -> cnt (in_ledger l) out' = cnt (in_ledger l) out + left b c l.
Proof.
  induction fuel as [|f IH]; intros b c out m w r m' w' H; cbn [fetch_pages] in H; [done|].
  unfold abind, acount, atry, arpc, alift in H. fold (freq b c) in H.
  destruct (rpc_GetEvents (freq b c) w) as [[resp|e] w1] eqn:E.
  2: { unfold ierror_out_of_range in H. cbn [ierror_rpc] in H. by rewrite (law_retained _ _ _ _ E) in H. }
  pose proof (law_page _ _ _ _ E Hlimit) as Hp.
  destruct (Z.ltb_spec (Z.of_nat (length (resp_Events resp))) pageLimit) as [Hshort|Hfull].
  { injection H as <- <- <-. eexists. split; [done|]. intros l Hl. rewrite cnt_app, keep_range by lia. unfold left.
    by rewrite (fp_short _ _ Hp Hshort). }
  destruct (list.last (resp_Events resp)) as [e|] eqn:El.
  2: { apply last_None in El. rewrite El in Hfull. cbn in Hfull. lia. }
  destruct (Z.ltb_spec to (re_Ledger e)) as [Hpast|Hin].
  { injection H as <- <- <-. eexists. split; [done|]. intros l Hl.
    rewrite cnt_app, keep_range, (left_past b c resp e l) by (done || lia). done. }
  assert (Hnext : (if bool_decide (resp_Cursor resp = "") then CursorValue e else resp_Cursor resp) = CursorValue e).
  { case_bool_decide; [done|]. by apply (fp_cursor _ _ Hp). }
  rewrite Hnext in H. destruct (IH _ _ _ _ _ _ _ _ H) as (out' & -> & Hc). exists out'. split; [done|].
  intros l Hl. rewrite Hc, cnt_app, keep_range, (left_continue b c resp e l) by (done || lia). lia.
Qed.

Lemma left_start b l : from <= l <= to -> left b "" l = cnt (fun e => rpc_match b e && in_ledger l e) rpc_log.
Proof.
  intros Hl. unfold left, outstanding. cbn [freq req_Cursor]. unfold todo. rewrite bool_decide_true, filter_bool, cnt_filter by done.
  apply cnt_ext, list.Forall_forall. intros x _. unfold wanted, in_ledger. cbn [freq req_Filters req_Cursor req_StartLedger req_EndLedger].
  rewrite bool_decide_true by done. cbn [negb orb]. destruct (Z.eqb_spec (re_Ledger x) l); [|by rewrite !andb_false_r].
  rewrite u32_id by (unfold in_u32, maxUint32 in *; lia).
  destruct (Z.leb_spec from (re_Ledger x)); [|lia]. destruct (Z.ltb_spec (re_Ledger x) (to + 1)); [|lia].
  by rewrite orb_true_r, !andb_true_r.
Qed.

Lemma keeps_fetch_batches bs : forall out, keeps (fetch_batches (W := W) page_fuel from to bs out).
Proof.
  induction bs as [|b bs IH]; intros out; cbn [fetch_batches]; [auto with audit|].
  apply view_kept_bind; [apply keeps_fetch_pages|]. intros [o'|o']; auto with audit.
Qed.

Lemma fetch_batches_counts bs : forall out m w evs m' w',
  fetch_batches page_fuel from to bs out m w = (Ok evs, m', w') ->
  forall l, from <= l <= to -> cnt (in_ledger l) evs =
    cnt (in_ledger l) out + foldr (fun b n => cnt (fun e => rpc_match b e && in_ledger l e) rpc_log + n) 0 bs.
Proof.
  induction bs as [|b bs IH]; intros out m w evs m' w' H l Hl; cbn [fetch_batches] in H; [injection H as <- <- <-; cbn; lia|].
  unfold abind in H. destruct (fetch_pages page_fuel from to b "" out m w) as [[[r|e] m1] w1] eqn:E; [|done].
  destruct (fetch_pages_counts _ _ _ _ _ _ _ _ _ E) as (out' & -> & Hc).
  rewrite (IH _ _ _ _ _ _ H l Hl), (Hc l Hl), (left_start b l Hl). cbn [foldr]. lia.
Qed.

Lemma keeps_fetchRange : keeps (fetchRange (W := W) page_fuel from to).
Proof.
  apply view_kept_bind; [apply keeps_lift; intros w r w' H; by apply law_filters in H as [H _]|].
  intros bs. apply keeps_fetch_batches.
Qed.

(** What a fetch returns has the number of events of the chain in every ledger. *)
Lemma fetchRange_counts m w evs m' w' : fetchRange page_fuel from to m w = (Ok evs, m', w') ->
  forall l, from <= l <= to -> cnt (in_ledger l) evs = chain_count l.
Proof.
  unfold fetchRange, abind, alift. destruct (ri_BuildFilterBatches w) as [[bs|e] w1] eqn:E; [|done].
  apply law_filters in E as [_ Hbs]. specialize (Hbs bs eq_refl) as ->. intros H l Hl.
  by rewrite (fetch_batches_counts _ _ _ _ _ _ _ H l Hl).
Qed.
End Fetch.

(** ** Comparing *)

Lemma ids_by_ledger_length from to evs l : from <= l <= to ->
  Z.of_nat (length (rpc_ids (ids_by_ledger from to evs) l)) = cnt (in_ledger l) evs.
Proof.
  intros Hl. unfold ids_by_ledger, rpc_ids.
  enough (H : forall m : gmap Z (list string), Z.of_nat (length (default [] (fold_left (fun m e =>
      if (re_Ledger e <? from) || (to <? re_Ledger e) then m
      else <[re_Ledger e := (default [] (m !! re_Ledger e) ++ [re_ID e])%list]> m) evs m !! l))) =
      Z.of_nat (length (default [] (m !! l))) + cnt (in_ledger l) evs) by (rewrite H, lookup_empty; cbn; lia).
  induction evs as [|e evs IH]; intros m; cbn [fold_left]; [unfold cnt; cbn; lia|].
  rewrite IH. unfold cnt. cbn [List.filter]. unfold in_ledger at 2.
  destruct (Z.eqb_spec (re_Ledger e) l) as [->|Hne].
  - destruct (Z.ltb_spec l from), (Z.ltb_spec to l); try lia. cbn [orb length].
    rewrite lookup_insert_eq. cbn [default from_option id]. rewrite length_app. cbn [length]. lia.
  - destruct (_ || _); [done|]. by rewrite lookup_insert_ne.
Qed.

Lemma ids_by_ledger_outside from to evs l : l < from \/ to < l -> rpc_ids (ids_by_ledger from to evs) l = [].
Proof.
  intros Hl. unfold ids_by_ledger, rpc_ids.
  enough (H : forall m : gmap Z (list string), m !! l = None -> fold_left (fun m e =>
      if (re_Ledger e <? from) || (to <? re_Ledger e) then m
      else <[re_Ledger e := (default [] (m !! re_Ledger e) ++ [re_ID e])%list]> m) evs m !! l = None)
    by (rewrite H; [done|apply lookup_empty]).
  induction evs as [|e evs IH]; intros m Hm; cbn [fold_left]; [done|]. apply IH.
  destruct (Z.ltb_spec (re_Ledger e) from), (Z.ltb_spec to (re_Ledger e)); cbn [orb]; try done.
  rewrite lookup_insert_ne by lia. done.
Qed.

Section Census.
Context (from to : Z) (count : Z -> Z) (rows : list LedgerCensus).
Hypothesis Hok : census_ok from to count rows.
Hypothesis Hrange : 0 <= from /\ to <= maxUint32.

Lemma counts_of_absent (rs : list LedgerCensus) (m : gmap Z Z) l : l ∉ (fun c => u32 (lc_Ledger c)) <$> rs ->
  fold_left (fun m c => <[u32 (lc_Ledger c) := lc_Count c]> m) rs m !! l = m !! l.
Proof.
  revert m. induction rs as [|c rs IH]; intros m Hl; cbn [fold_left]; [done|].
  cbn in Hl. rewrite not_elem_of_cons in Hl. destruct Hl as [Hne Hl]. rewrite IH by done. by rewrite lookup_insert_ne by congruence.
Qed.

Lemma counts_of_present (rs : list LedgerCensus) (m : gmap Z Z) c : NoDup ((fun c => u32 (lc_Ledger c)) <$> rs) -> c ∈ rs ->
  fold_left (fun m c => <[u32 (lc_Ledger c) := lc_Count c]> m) rs m !! u32 (lc_Ledger c) = Some (lc_Count c).
Proof.
  revert m. induction rs as [|d rs IH]; intros m Hnd Hc; [by apply not_elem_of_nil in Hc|]. cbn in Hnd |- *.
  apply list.NoDup_cons in Hnd as [Hd Hnd]. apply elem_of_cons in Hc as [->|Hc]; [|by apply IH].
  rewrite counts_of_absent by done. by rewrite lookup_insert_eq.
Qed.

Lemma row_u32 c : c ∈ rows -> u32 (lc_Ledger c) = lc_Ledger c.
Proof.
  intros Hc. destruct Hok as [_ Hr _]. rewrite list.Forall_forall in Hr. destruct (Hr c Hc) as (H & _).
  apply u32_id. unfold in_u32, maxUint32 in *. lia.
Qed.

Lemma ledgers_u32 : (fun c => u32 (lc_Ledger c)) <$> rows = lc_Ledger <$> rows.
Proof. apply list_fmap_ext. intros i c Hc. apply row_u32. by eapply list_elem_of_lookup_2. Qed.

(** The map of the census gives every ledger's count, 0 outside of the range. *)
Lemma stored_counts l : stored_of (counts_of rows) l = if (from <=? l) && (l <=? to) then count l else 0.
Proof.
  unfold stored_of, counts_of. destruct Hok as [Hnd Hr Hc].
  destruct (decide (l ∈ lc_Ledger <$> rows)) as [Hin|Hout].
  - apply list_elem_of_fmap in Hin as (c & -> & Hin). rewrite <- (row_u32 c Hin) at 1.
    rewrite counts_of_present by (by rewrite ?ledgers_u32). cbn.
    rewrite list.Forall_forall in Hr. destruct (Hr c Hin) as (Hb & -> & _).
    destruct (Z.leb_spec from (lc_Ledger c)), (Z.leb_spec (lc_Ledger c) to); (done || lia).
  - rewrite counts_of_absent, lookup_empty by (by rewrite ledgers_u32). cbn.
    destruct (Z.leb_spec from l), (Z.leb_spec l to); cbn; try done. symmetry. by apply Hc.
Qed.
End Census.

Lemma ledgerMatches_eq l rpcBy storedBy :
  ledgerMatches l rpcBy storedBy = (stored_of storedBy l =? Z.of_nat (length (rpc_ids rpcBy l))).
Proof. unfold ledgerMatches. by destruct (rpc_ids rpcBy l). Qed.

(** The prefix found: every ledger of it matches, the next one does not. *)
Lemma matching_prefix_spec n : forall l v rpcBy storedBy, 0 <= l -> v < l -> l + Z.of_nat n <= maxUint32 + 1 ->
  let r := matching_prefix n l v rpcBy storedBy in
  (r = v \/ l <= r < l + Z.of_nat n) /\
  (forall x, l <= x -> r <> v -> x <= r -> ledgerMatches x rpcBy storedBy = true) /\
  (r = v -> (0 < n)%nat -> ledgerMatches l rpcBy storedBy = false) /\
  (r <> v -> r < l + Z.of_nat n - 1 -> ledgerMatches (r + 1) rpcBy storedBy = false).
Proof.
  induction n as [|n IH]; intros l v rpcBy storedBy Hl Hv Hn r; cbn [matching_prefix] in r.
  - subst r. split_and!; auto; (lia || done).
  - destruct (ledgerMatches l rpcBy storedBy) eqn:E; [|subst r; split_and!; auto; done].
    destruct n as [|n].
    { cbn in r. subst r. split_and!; [right; lia| |lia|lia]. intros x H1 _ H2. by replace x with l by lia. }
    assert (Hu : u32 (l + 1) = l + 1) by (apply u32_id; unfold in_u32, maxUint32 in *; lia).
    unfold r. rewrite Hu. destruct (IH (l + 1) l rpcBy storedBy ltac:(lia) ltac:(lia) ltac:(lia)) as (H1 & H2 & H3 & H4).
    set (r' := matching_prefix (S n) (l + 1) l rpcBy storedBy) in *. split_and!.
    + lia.
    + intros x Hx _ Hxr. destruct (Z.eq_dec x l) as [->|Hne]; [done|]. apply H2; lia.
    + intros Hr _. exfalso. lia.
    + intros _ Hlt. destruct (Z.eq_dec r' l) as [Hrl|Hrl].
      * rewrite Hrl. apply H3; (done || lia).
      * apply H4; [done|lia].
Qed.

(** ** Repairing *)

Section Repair.
Context {W : Type} `{!RpcClient W} `{!AuditStore W} `{!Reingester W} `{!AuditEnv W} `{!AuditView W}.
Context `{Log : EventLog} `{Laws : !AuditorLaws W}.
Context (page_fuel : nat) (o : AuditOptions).
Hypothesis Hnet : ao_Network o = au_network.
Hypothesis Hlimit : 0 < pageLimit.

Lemma keeps_census from to ids : keeps (W := W) (astore (as_LedgerRangeCensus from to ids)).
Proof. apply view_kept_store. intros w r w' H. by apply law_census in H as [H _]. Qed.

Lemma keeps_update f : keeps (W := W) (logged (astore (as_UpdateAuditFinding f))).
Proof. apply view_kept_bind; [apply view_kept_try, view_kept_store, law_update|auto with audit]. Qed.

Lemma keeps_clean from to : keeps (W := W) (clusterIsClean page_fuel from to).
Proof. apply view_kept_bind; [apply keeps_fetchRange|]. intros evs. apply view_kept_bind; [apply keeps_census|auto with audit]. Qed.

(** The counts of a range agree with the chain. *)
Definition agree (w : W) (from to : Z) : Prop := forall l, from <= l <= to -> view_stored w l = chain_count l.

Lemma agree_keep w w' from to : (forall l, from <= l <= to -> view_stored w' l = view_stored w l) -> agree w from to -> agree w' from to.
Proof. intros H Ha l Hl. rewrite H by done. by apply Ha. Qed.

Lemma cluster_clean_agree from to m w m' w' : 0 <= from -> to < maxUint32 ->
  clusterIsClean page_fuel from to m w = (Ok true, m', w') -> agree w' from to.
Proof.
  intros Hf Ht H. unfold clusterIsClean, abind, astore, alift, aret in H.
  destruct (fetchRange page_fuel from to m w) as [[[evs|e] m1] w1] eqn:Ef; [|done].
  destruct (as_LedgerRangeCensus from to false w1) as [[rows|e] w2] eqn:Ec; [|done].
  injection H as Hb <- <-. destruct (law_census _ _ _ _ _ _ Ec) as [[Hs _] Hrows].
  specialize (Hrows rows eq_refl). apply andb_true_iff in Hb as [Hb1 Hb2]. rewrite forallb_forall in Hb1, Hb2.
  apply (agree_keep w1); [by intros l _|]. intros l Hl.
  assert (Hcnt : Z.of_nat (length (List.filter (fun e => (re_Ledger e =? l) && (from <=? l) && (l <=? to)) evs)) = chain_count l).
  { rewrite <- (fetchRange_counts page_fuel from to ltac:(lia) Hlimit _ _ _ _ _ Ef l Hl). unfold cnt. do 2 f_equal.
    apply List.filter_ext. intros e. unfold in_ledger.
    destruct (Z.leb_spec from l), (Z.leb_spec l to); lia. }
  destruct (decide (l ∈ lc_Ledger <$> rows)) as [Hin|Hout].
  - apply list_elem_of_fmap in Hin as (c & -> & Hin). pose proof (row_u32 _ _ _ _ Hrows ltac:(lia) c Hin) as Hu.
    specialize (Hb1 c (proj1 (list_elem_of_In _ _) Hin)). rewrite Hu in Hb1. apply Z.eqb_eq in Hb1.
    destruct Hrows as [_ Hr _]. rewrite list.Forall_forall in Hr. destruct (Hr c Hin) as (_ & Hcc & _). lia.
  - rewrite (cs_complete _ _ _ _ Hrows l Hl Hout), <- Hcnt. specialize (Hb2 l).
    assert (Hsz : In l (seqZ from (to - from + 1))) by (apply list_elem_of_In, elem_of_seqZ; lia).
    specialize (Hb2 Hsz). apply orb_true_iff in Hb2 as [Hz|Hex]; [apply Z.eqb_eq in Hz; lia|].
    apply existsb_exists in Hex as (c & Hc & Hcl). apply list_elem_of_In in Hc. apply Z.eqb_eq in Hcl.
    rewrite (row_u32 _ _ _ _ Hrows ltac:(lia) c Hc) in Hcl. exfalso. apply Hout. subst l. by apply list_elem_of_fmap_2.
Qed.

(** What an attempt on [from, to] may change: stored rows of the range, and the
    mark up to [to] once the range agrees. *)
Definition repairs (from to : Z) (w w' : W) : Prop :=
  (forall l, l < from \/ to < l -> view_stored w' l = view_stored w l) /\
  (view_hwm w' = view_hwm w \/ view_hwm w' = Z.max (view_hwm w) to /\ agree w' from to).

Lemma repairs_keep from to w w1 w' : repairs from to w w1 -> same_view w1 w' -> repairs from to w w'.
Proof.
  intros [Hs Hh] [Hs' Hh']. split; [intros l Hl; rewrite Hs'; by apply Hs|].
  rewrite Hh'. destruct Hh as [Hh|[Hh Ha]]; [by left|right]. split; [done|]. apply (agree_keep w1); auto.
Qed.

Lemma logged_ok {A} (x : AM W A) m w r m' w' : logged x m w = (r, m', w') -> r = Ok tt.
Proof. unfold logged, abind, atry. destruct (x m w) as [[? ?] ?]. by intros [= <- _ _]. Qed.

Lemma keeps_give_up f : keeps (giveUp o f).
Proof.
  unfold giveUp. destruct (_ <=? _).
  - apply view_kept_bind; [apply keeps_count|]. intros _. apply view_kept_bind; [apply keeps_update|auto with audit].
  - apply view_kept_bind; [apply keeps_update|]. intros _ m w r m' w' H. destruct (av_sleep _ w) as [b w1] eqn:E.
    injection H as <- <- <-. by eapply law_sleep.
Qed.

Lemma give_up_result f m w r m' w' : giveUp o f m w = (r, m', w') ->
  exists f', r = Ok f' /\ fd_FromLedger f' = fd_FromLedger f /\ fd_ToLedger f' = fd_ToLedger f /\
    fd_Attempts f' = fd_Attempts f /\ (ao_MaxRepairAttempts o <= fd_Attempts f -> terminal (fd_Status f') = true).
Proof.
  unfold giveUp. destruct (Z.leb_spec (ao_MaxRepairAttempts o) (fd_Attempts f)); unfold abind, acount.
  - destruct (logged _ _ w) as [[r1 m1] w1] eqn:E. rewrite (logged_ok _ _ _ _ _ _ E). intros [= <- <- <-]. by eexists.
  - destruct (logged _ _ w) as [[r1 m1] w1] eqn:E. rewrite (logged_ok _ _ _ _ _ _ E).
    destruct (av_sleep _ w1) as [b w2]. intros [= <- <- <-]. eexists. split_and!; try done. lia.
Qed.

(** The mark moves to [v] or stays. *)
Lemma advanceHWM_spec v m w r m' w' : 0 <= v -> advanceHWM o v m w = (r, m', w') ->
  (forall l, view_stored w' l = view_stored w l) /\ (view_hwm w' = view_hwm w \/ view_hwm w' = Z.max (view_hwm w) v).
Proof.
  intros Hv. unfold advanceHWM, abind, astore, alift. rewrite Hnet.
  destruct (as_SaveAuditStateIfGreater au_network v w) as [r1 w1] eqn:E. pose proof (law_save _ _ _ _ Hv E) as Hsv.
  destruct r1; intros H; by injection H as <- <- <-.
Qed.

(** What an attempt on [f] leaves. *)
Definition attempted (f : AuditFinding) (w : W) (r : result ierror AuditFinding) (w' : W) : Prop :=
  repairs (fd_FromLedger f) (fd_ToLedger f) w w' /\
  exists f', r = Ok f' /\ fd_FromLedger f' = fd_FromLedger f /\ fd_ToLedger f' = fd_ToLedger f /\
    fd_Attempts f' = fd_Attempts f + 1 /\
    (ao_MaxRepairAttempts o <= fd_Attempts f' -> terminal (fd_Status f') = true) /\
    (terminal (fd_Status f') = true \/ view_hwm w' = view_hwm w).

Lemma giveUp_attempted f g m w w1 r m' w' : repairs (fd_FromLedger f) (fd_ToLedger f) w w1 -> view_hwm w1 = view_hwm w ->
  fd_FromLedger g = fd_FromLedger f -> fd_ToLedger g = fd_ToLedger f -> fd_Attempts g = fd_Attempts f + 1 ->
  giveUp o g m w1 = (r, m', w') -> attempted f w r w'.
Proof.
  intros H1 Hh Gf Gt Ga H. pose proof (keeps_give_up _ _ _ _ _ _ H) as Hk. split; [by eapply repairs_keep|].
  destruct (give_up_result _ _ _ _ _ _ H) as (f' & -> & Ff & Ft & Fa & Fm). exists f'. split_and!; try congruence.
  - intros Hle. apply Fm. congruence.
  - right. by rewrite (proj2 Hk).
Qed.

(** An attempt always returns; it repairs its range at most. *)
Lemma doRepairAttempt_spec f m w r m' w' :
  0 <= fd_FromLedger f -> fd_ToLedger f < maxUint32 -> fd_FromLedger f <= fd_ToLedger f ->
  doRepairAttempt page_fuel o f m w = (r, m', w') -> attempted f w r w'.
Proof.
  intros Hf Ht Hft H. unfold doRepairAttempt in H. unfold abind at 1, aworld in H.
  set (g := set_finding _ _ _ _ f) in H.
  assert (Hg : u32 (fd_FromLedger g) = fd_FromLedger f /\ u32 (fd_ToLedger g) = fd_ToLedger f).
  { cbn. split; apply u32_id; unfold in_u32, maxUint32 in *; lia. }
  destruct Hg as [-> Hgt] in H. rewrite Hgt in H. unfold abind at 1, atry at 1, alift in H.
  destruct (ri_ReingestRange (fd_FromLedger f) (fd_ToLedger f) w) as [r1 w1] eqn:Er.
  destruct (law_reingest _ _ _ _ _ Er) as [Hh1 Hs1].
  assert (H1 : repairs (fd_FromLedger f) (fd_ToLedger f) w w1) by (split; [done|by left]).
  destruct r1 as [n|e].
  2: { destruct (ierror_out_of_range e); [|by eapply giveUp_attempted in H].
       unfold abind at 1, acount in H. unfold abind at 1 in H.
       destruct (logged _ _ w1) as [[r2 m2] w2] eqn:El. rewrite (logged_ok _ _ _ _ _ _ El) in H.
       injection H as <- <- <-. split; [eapply repairs_keep; [done|by eapply keeps_update]|].
       eexists. split_and!; try done. by left. }
  unfold abind at 1, atry at 1 in H.
  destruct (clusterIsClean page_fuel (fd_FromLedger f) (fd_ToLedger f) m w1) as [[r2 m2] w2] eqn:Ec.
  pose proof (keeps_clean _ _ _ _ _ _ _ Ec) as Hk2.
  assert (H2 : repairs (fd_FromLedger f) (fd_ToLedger f) w w2) by by eapply repairs_keep.
  assert (Hh2 : view_hwm w2 = view_hwm w) by (by rewrite (proj2 Hk2)).
  destruct r2 as [[]|e]; [|by eapply giveUp_attempted in H..].
  apply cluster_clean_agree in Ec; [|done..].
  unfold abind at 1, acount in H. unfold abind at 1 in H.
  destruct (logged (astore _) _ w2) as [[r3 m3] w3] eqn:E3. rewrite (logged_ok _ _ _ _ _ _ E3) in H.
  pose proof (keeps_update _ _ _ _ _ _ E3) as [Hs3 Hh3]. unfold abind at 1 in H.
  destruct (logged (advanceHWM _ _) m3 w3) as [[r4 m4] w4] eqn:E4. rewrite (logged_ok _ _ _ _ _ _ E4) in H.
  injection H as <- <- <-.
  assert (Hsave : (forall l, view_stored w4 l = view_stored w3 l) /\
    (view_hwm w4 = view_hwm w3 \/ view_hwm w4 = Z.max (view_hwm w3) (fd_ToLedger f))).
  { cbn [set_finding fd_ToLedger] in E4. change (fd_ToLedger g) with (fd_ToLedger f) in E4.
    rewrite u32_id in E4 by (unfold in_u32, maxUint32 in *; lia). unfold logged, abind, atry in E4.
    destruct (advanceHWM o (fd_ToLedger f) m3 w3) as [[r5 m5] w5] eqn:E5. injection E4 as <- <- <-.
    apply advanceHWM_spec in E5; [done|lia]. }
  destruct Hsave as [Hs4 Hh4]. split; [|eexists; split_and!; try done; by left].
  split; [intros l Hl; rewrite Hs4, Hs3; by apply H2|].
  rewrite Hh3, Hh2 in Hh4. destruct Hh4 as [->|Hh4]; [by left|right]. split; [done|].
  intros l Hl. rewrite Hs4, Hs3. by apply Ec.
Qed.

Lemma repairs_trans from to w w1 w' : repairs from to w w1 -> view_hwm w1 = view_hwm w -> repairs from to w1 w' -> repairs from to w w'.
Proof.
  intros [Hs _] Hh [Hs' Hh']. split; [intros l Hl; rewrite Hs' by done; by apply Hs|]. by rewrite Hh in Hh'.
Qed.

(** The repair loop ends: the fuel of its caller is never used up. *)
Lemma repairFinding_spec fuel : forall f m w r m' w',
  0 <= fd_FromLedger f -> fd_ToLedger f < maxUint32 -> fd_FromLedger f <= fd_ToLedger f ->
  (Z.to_nat (ao_MaxRepairAttempts o - fd_Attempts f) < fuel)%nat ->
  repairFinding page_fuel o fuel f m w = (r, m', w') ->
  repairs (fd_FromLedger f) (fd_ToLedger f) w w' /\
  exists f', r = Ok f' /\ terminal (fd_Status f') = true /\ fd_Attempts f < fd_Attempts f' /\
    fd_Attempts f' <= Z.max (fd_Attempts f + 1) (ao_MaxRepairAttempts o).
Proof.
  induction fuel as [|n IH]; intros f m w r m' w' Hf Ht Hft Hfuel H; [lia|]. cbn [repairFinding] in H. unfold abind in H.
  destruct (doRepairAttempt page_fuel o f m w) as [[r1 m1] w1] eqn:E.
  destruct (doRepairAttempt_spec _ _ _ _ _ _ Hf Ht Hft E) as (H1 & f1 & -> & Ff & Fl & Fa & Fm & Fh).
  destruct (terminal (fd_Status f1)) eqn:Et.
  - injection H as <- <- <-. split; [done|]. exists f1. split_and!; (done || lia).
  - destruct Fh as [|Fh]; [done|]. assert (fd_Attempts f1 < ao_MaxRepairAttempts o).
    { destruct (Z.leb_spec (ao_MaxRepairAttempts o) (fd_Attempts f1)); [|done]. by assert (false = true) by auto. }
    destruct (IH f1 m1 w1 r m' w' ltac:(lia) ltac:(lia) ltac:(lia) ltac:(lia) H) as (H2 & f' & -> & T & A1 & A2).
    rewrite Ff, Fl in H2. split; [by eapply repairs_trans|]. exists f'. split_and!; (done || lia).
Qed.

(** ** A pass *)

Lemma find_first (p : Z -> bool) n : forall a x, List.find p (seqZ a (Z.of_nat n)) = Some x ->
  a <= x < a + Z.of_nat n /\ p x = true /\ forall y, a <= y < x -> p y = false.
Proof.
  induction n as [|n IH]; intros a x H; [done|]. rewrite seqZ_cons in H by lia. cbn [List.find] in H.
  destruct (p a) eqn:E; [injection H as <-; split_and!; [lia..|done|lia]|].
  replace (Z.pred (Z.of_nat (S n))) with (Z.of_nat n) in H by lia.
  destruct (IH (Z.succ a) x H) as (Hx & Hp & Hy). split_and!; [lia..|done|].
  intros y Hyx. destruct (Z.eq_dec y a) as [->|]; [done|]. apply Hy. lia.
Qed.

Lemma keeps_missing ledgers rpcBy storedBy : keeps (W := W) (missing_ids ledgers rpcBy storedBy).
Proof.
  induction ledgers as [|l ledgers IH]; cbn [missing_ids]; [apply view_kept_ret|].
  apply view_kept_bind; [|intros here; apply view_kept_bind; auto with audit].
  destruct (_ && _); [|apply view_kept_ret]. apply view_kept_bind; [|auto with audit].
  apply view_kept_bind; [apply keeps_census|]. intros [|c rows]; apply view_kept_ret.
Qed.

Lemma handleMismatch_spec rpcBy storedBy mf mt m w r m' w' : 0 <= mf -> mt < maxUint32 -> mf <= mt ->
  handleMismatch page_fuel o rpcBy storedBy mf mt m w = (r, m', w') -> repairs mf mt w w'.
Proof.
  intros Hf Ht Hft H. unfold handleMismatch in H. unfold abind at 1 in H.
  assert (Hsame : forall u, same_view w u -> repairs mf mt w u).
  { intros u [Hs Hh]. split; [by intros l _|by left]. }
  destruct (missing_ids _ rpcBy storedBy m w) as [[[ids|e] m1] w1] eqn:E1.
  2: { injection H as <- <- <-. apply Hsame. by eapply keeps_missing. }
  pose proof (keeps_missing _ _ _ _ _ _ _ _ E1) as Hk1.
  destruct (_ && _); [injection H as <- <- <-; by apply Hsame|].
  unfold abind at 1, awrap, astore, alift in H.
  destruct (as_RecordAuditFinding _ w1) as [r2 w2] eqn:E2. destruct (law_record _ _ _ _ E2) as [Hk2 Hf2].
  assert (Hk : same_view w w2) by (by etrans).
  destruct r2 as [f|e]; [|injection H as <- <- <-; by apply Hsame]. destruct (Hf2 f eq_refl) as [Ff Fl]. cbn in Ff, Fl.
  unfold abind at 1, acount in H. unfold abind at 1 in H.
  destruct (repairFinding page_fuel o _ f _ w2) as [[r3 m3] w3] eqn:E3.
  apply repairFinding_spec in E3 as (H3 & f' & -> & _); [|lia..]. rewrite Ff, Fl in H3. injection H as <- <- <-.
  destruct Hk as [Hks Hkh], H3 as [H3s H3h]. split.
  - intros l Hl. rewrite H3s by done. apply Hks.
  - by rewrite Hkh in H3h.
Qed.

(** Every ledger the mark moved over agrees with the chain. *)
Definition covered (w w' : W) : Prop :=
  view_hwm w <= view_hwm w' /\ forall l, view_hwm w < l <= view_hwm w' -> view_stored w' l = chain_count l.

Lemma covered_same w w' : same_view w w' -> covered w w'.
Proof. intros [_ Hh]. split; [lia|]. intros l Hl. lia. Qed.

Lemma reconcile_facts from to evs rows m w m1 w1 : 1 <= from -> from <= to -> to < maxUint32 ->
  fetchRange page_fuel from to m w = (Ok evs, m1, w1) -> census_ok from to (view_stored w) rows ->
  let rpcBy := ids_by_ledger from to evs in let storedBy := counts_of rows in
  (forall l, from <= l <= to -> ledgerMatches l rpcBy storedBy = (view_stored w l =? chain_count l)) /\
  (forall l, l < from -> ledgerMatches l rpcBy storedBy = true).
Proof.
  intros H1 Hft Hto Ef Hc rpcBy storedBy.
  assert (Hs : forall l, stored_of storedBy l = if (from <=? l) && (l <=? to) then view_stored w l else 0)
    by (intros l; apply stored_counts; [done|lia]).
  split; intros l Hl; rewrite ledgerMatches_eq, Hs.
  - unfold rpcBy. rewrite ids_by_ledger_length, (fetchRange_counts page_fuel from to ltac:(lia) Hlimit _ _ _ _ _ Ef l) by done.
    destruct (Z.leb_spec from l), (Z.leb_spec l to); (done || lia).
  - unfold rpcBy. rewrite ids_by_ledger_outside by lia. destruct (Z.leb_spec from l); [lia|done].
Qed.

(** The first mismatch follows the verified prefix. *)
Lemma first_mismatch from to v rpcBy storedBy : 1 <= from -> from <= to -> to < maxUint32 ->
  v = matching_prefix (S (Z.to_nat (to - from))) from 0 rpcBy storedBy -> v < to ->
  (forall l, l < from -> ledgerMatches l rpcBy storedBy = true) ->
  (v = 0 \/ from <= v) /\
  (forall l, from <= l <= v -> ledgerMatches l rpcBy storedBy = true) /\
  List.find (fun l => negb (ledgerMatches l rpcBy storedBy)) (seqZ (v + 1) (to - v)) = Some (Z.max from (v + 1)).
Proof.
  intros H1 Hft Hto Hv Hlt Hbelow.
  destruct (matching_prefix_spec (S (Z.to_nat (to - from))) from 0 rpcBy storedBy ltac:(lia) ltac:(lia) ltac:(lia))
    as (P1 & P2 & P3 & P4). rewrite <- Hv in *.
  assert (Hmm : ledgerMatches (Z.max from (v + 1)) rpcBy storedBy = false).
  { destruct (Z.eq_dec v 0) as [->|Hn]; [rewrite Z.max_l by lia; apply P3; lia|].
    rewrite Z.max_r by lia. apply P4; [done|lia]. }
  assert (Hpre : forall l, from <= l <= v -> ledgerMatches l rpcBy storedBy = true) by (intros l Hl; apply P2; lia).
  split_and!; [lia|done|]. replace (to - v) with (Z.of_nat (Z.to_nat (to - v))) by lia.
  destruct (List.find _ _) as [x|] eqn:E.
  - destruct (find_first _ _ _ _ E) as (Hx & Hpx & Hy). f_equal. apply negb_true_iff in Hpx.
    destruct (Z.lt_trichotomy x (Z.max from (v + 1))) as [Hc|[Hc|Hc]]; [|done|].
    + exfalso. rewrite Hbelow in Hpx by lia. done.
    + specialize (Hy (Z.max from (v + 1)) ltac:(lia)). cbn in Hy. by rewrite Hmm in Hy.
  - exfalso. pose proof (find_none _ _ E (Z.max from (v + 1))) as Hn. cbn in Hn. rewrite Hmm in Hn.
    assert (In (Z.max from (v + 1)) (seqZ (v + 1) (Z.of_nat (Z.to_nat (to - v))))) as Hin
      by (apply list_elem_of_In, elem_of_seqZ; lia).
    by specialize (Hn Hin).
Qed.

Hypothesis Hfind : 0 < ao_FindingMaxLedgers o.

Lemma reconcileRange_spec from to m w r m' w' : 1 <= from -> from <= to -> to < maxUint32 -> view_hwm w = from - 1 ->
  reconcileRange page_fuel o from to m w = (r, m', w') -> covered w w'.
Proof.
  intros H1 Hft Hto Hhwm H. unfold reconcileRange in H. unfold abind at 1, awrap in H.
  destruct (fetchRange page_fuel from to m w) as [[[evs|e] m1] w1] eqn:Ef.
  2: { injection H as <- <- <-. apply covered_same. by eapply keeps_fetchRange. }
  pose proof (keeps_fetchRange page_fuel from to _ _ _ _ _ Ef) as Hk1.
  unfold abind at 1, astore, alift in H.
  destruct (as_LedgerRangeCensus from to false w1) as [r2 w2] eqn:Ec. destruct (law_census _ _ _ _ _ _ Ec) as [Hk2 Hrows].
  assert (Hk : same_view w w2) by (by etrans).
  destruct r2 as [rows|e]; [|injection H as <- <- <-; by apply covered_same].
  specialize (Hrows rows eq_refl).
  assert (Hrows' : census_ok from to (view_stored w) rows).
  { destruct Hrows as [C1 C2 C3]. split; [done| |].
    - eapply list.Forall_impl; [exact C2|]. intros c (Hb & Hc & Hpos). rewrite (proj1 Hk1) in Hc. auto.
    - intros l Hl Hn. rewrite <- (proj1 Hk1). by apply C3. }
  destruct (reconcile_facts from to evs rows m w m1 w1 H1 Hft Hto Ef Hrows') as [Hin Hbelow].
  set (rpcBy := ids_by_ledger from to evs) in *. set (storedBy := counts_of rows) in *.
  unfold abind at 1, acount in H.
  rewrite (u32_id (to - from)) in H by (unfold in_u32, maxUint32 in *; lia).
  set (v := matching_prefix (S (Z.to_nat (to - from))) from 0 rpcBy storedBy) in *.
  unfold abind at 1 in H.
  destruct ((if 0 <? v then advanceHWM o v else aret tt) _ w2) as [[r3 m3] w3] eqn:E3.
  assert (H3 : (forall l, view_stored w3 l = view_stored w l) /\ (view_hwm w3 = view_hwm w \/ 0 < v /\ view_hwm w3 = Z.max (view_hwm w) v)).
  { destruct Hk as [Hks Hkh]. destruct (Z.ltb_spec 0 v).
    - apply advanceHWM_spec in E3 as [Hs Hh]; [|lia]. split; [intros l; by rewrite Hs|]. rewrite Hkh in Hh. destruct Hh; auto.
    - injection E3 as <- <- <-. split; [done|by left]. }
  destruct H3 as [Hs3 Hh3].
  assert (Hmatch : forall l, from <= l <= to -> ledgerMatches l rpcBy storedBy = true -> view_stored w l = chain_count l)
    by (intros l Hl Hm; apply Z.eqb_eq; by rewrite <- Hin).
  destruct (matching_prefix_spec (S (Z.to_nat (to - from))) from 0 rpcBy storedBy ltac:(lia) ltac:(lia) ltac:(lia))
    as (P1 & P2 & _ & _). fold v in P1, P2.
  assert (Hpre : forall l, from <= l <= v -> view_stored w l = chain_count l) by (intros l Hl; apply Hmatch; [lia|apply P2; lia]).
  assert (Hc3 : covered w w3).
  { split; [lia|]. intros l Hl. rewrite Hs3. apply Hpre. lia. }
  destruct r3 as [[]|e]; [|by injection H as <- <- <-].
  destruct (Z.leb_spec to v) as [Hdone|Hlt]; [by injection H as <- <- <-|].
  destruct (first_mismatch from to v rpcBy storedBy H1 Hft Hto eq_refl Hlt Hbelow) as (_ & _ & Hfirst).
  rewrite Hfirst in H. set (mf := Z.max from (v + 1)) in *. unfold abind at 1 in H.
  set (mt := if _ <? _ then _ else to) in H.
  assert (Hmt : mf <= mt <= to).
  { subst mt. rewrite u32_id by (unfold in_u32, maxUint32 in *; lia). destruct (Z.ltb_spec (ao_FindingMaxLedgers o) (to - mf + 1)); [|lia].
    rewrite u32_id by (unfold in_u32, maxUint32 in *; lia). lia. }
  destruct (handleMismatch page_fuel o rpcBy storedBy mf mt m3 w3) as [[r4 m4] w4] eqn:E4.
  apply handleMismatch_spec in E4 as [Hs4 Hh4]; [|lia..].
  assert (w' = w4) as -> by (by destruct r4; injection H as _ _ ->).
  destruct Hh4 as [Hh4|[Hh4 Ha]].
  - split; [rewrite Hh4; apply Hc3|]. intros l Hl. rewrite Hs4 by lia. apply Hc3. lia.
  - split; [lia|]. intros l Hl. destruct (Z.lt_ge_cases l mf) as [Hlm|Hlm]; [|apply Ha; lia].
    rewrite Hs4, Hs3 by lia. apply Hpre. lia.
Qed.

Hypothesis Hbatch : 0 < ao_BatchLedgers o.

(** A window starts right after the mark and holds at most a batch. *)
Lemma audit_window_range v ing h from to : 0 <= v -> v + ao_BatchLedgers o < maxUint32 ->
  audit_window o v ing h = Some (from, to) -> from = v + 1 /\ from <= to <= v + ao_BatchLedgers o.
Proof.
  intros Hv Hi H. unfold audit_window in H. destruct (Z.leb_spec ing 0); [done|].
  destruct (_ <? ao_LagThreshold o); [done|].
  rewrite (u32_id v), (u32_id (v + 1)) in H by (unfold in_u32, maxUint32 in *; lia).
  pose proof (u32_range ing) as Hing. set (last := u32 ing) in *.
  destruct (Z.ltb_spec last (v + 1)); [done|].
  set (top := if _ <? u32 (last - (v + 1) + 1) then _ else last) in H.
  assert (Ht : v + 1 <= top <= v + ao_BatchLedgers o).
  { subst top. rewrite (u32_id (last - (v + 1) + 1)) by (unfold in_u32, maxUint32 in *; lia).
    destruct (Z.ltb_spec (ao_BatchLedgers o) (last - (v + 1) + 1)); [|lia].
    rewrite u32_id by (unfold in_u32, maxUint32 in *; lia). lia. }
  destruct (0 <? h_OldestLedger h); [|injection H as <- <-; lia].
  destruct (v + 1 <=? h_OldestLedger h); [done|].
  destruct (Z.ltb_spec (u32 (h_OldestLedger h + ao_LagThreshold o)) top); [|injection H as <- <-; lia].
  destruct (Z.ltb_spec (u32 (h_OldestLedger h + ao_LagThreshold o)) (v + 1)); [done|]. injection H as <- <-. lia.
Qed.

Lemma keeps_or_missing {A} (d : A) (x : AM W A) : keeps x -> keeps (or_missing d x).
Proof.
  intros Hx. apply view_kept_bind; [by apply view_kept_try|]. intros [a|e]; [auto with audit|].
  destruct e; auto with audit. destruct (errors_Is _ _); auto with audit.
Qed.

(** The states a pass works with are those of the view. *)
Lemma load_state m w r m' w' :
  awrap "loading audit state: %w" (or_missing ("", 0) (astore (as_GetAuditState (ao_Network o)))) m w = (Ok r, m', w') ->
  r.2 = view_hwm w.
Proof.
  rewrite Hnet. unfold awrap, or_missing, abind, atry, astore, alift.
  destruct (as_GetAuditState au_network w) as [[[n v]|e] w1] eqn:E; apply law_state in E as [_ Hr]; cbn.
  - by intros [= <- _ _].
  - destruct (errors_Is e ErrNotFound) eqn:En; [|done]. intros [= <- _ _]. cbn. by rewrite Hr.
Qed.

Definition yield_check : AM W bool :=
  if ao_LagController o then
    do! y := (fun m w => let '(y, w) := av_ShouldYield w in (Ok y, m, w)) in
    if (y.1 : bool) then acount LagYields 1 ;;! aret true
    else if bool_decide (y.2 = "max_deferral_reached") then acount MaxDeferralOverrides 1 ;;! aret false
    else aret false
  else aret false.

Lemma keeps_yield_check : keeps yield_check.
Proof.
  unfold yield_check. destruct (ao_LagController o); [|apply view_kept_ret]. apply view_kept_bind.
  - intros m w r m' w' H. destruct (av_ShouldYield w) as [y w1] eqn:E. injection H as <- <- <-. by eapply law_yield.
  - intros [[] reason]; cbn; [auto with audit|]. destruct (bool_decide _); auto with audit.
Qed.

Lemma PassOnce_spec m w r m' w' : 0 <= view_hwm w -> view_hwm w + ao_BatchLedgers o < maxUint32 ->
  PassOnce page_fuel o m w = (r, m', w') -> covered w w'.
Proof.
  intros Hv Hvb H. change (PassOnce page_fuel o) with (do! yield := yield_check in
    if (yield : bool) then aret false
    else
      do! state := awrap "loading audit state: %w" (or_missing ("", 0) (astore (as_GetAuditState (ao_Network o)))) in
      do! ing := awrap "loading ingestion state: %w" (or_missing (mkIngestionState "" 0 "" None) (astore as_GetIngestionState)) in
      do! health := awrap "getHealth: %w" (arpc rpc_GetHealth) in
      acount RPCRequests 1 ;;!
      match audit_window o state.2 (LastIngestedLedger ing) health with
      | None => aret false
      | Some (from, to) => reconcileRange page_fuel o from to
      end) in H.
  unfold abind at 1 in H. destruct (yield_check m w) as [[[y|e] m1] w1] eqn:E1; pose proof (keeps_yield_check _ _ _ _ _ E1) as K1.
  2: { injection H as <- <- <-. by apply covered_same. }
  destruct y; [injection H as <- <- <-; by apply covered_same|]. unfold abind at 1 in H.
  destruct (awrap "loading audit state: %w" _ m1 w1) as [[[st|e] m2] w2] eqn:E2.
  all: assert (K2 : same_view w w2) by
    (etrans; [exact K1|]; revert E2; apply view_kept_wrap, keeps_or_missing, view_kept_store; rewrite Hnet; intros ??? Hs; by apply law_state in Hs as [Hs _]).
  2: { injection H as <- <- <-. by apply covered_same. }
  apply load_state in E2. rewrite (proj2 K1) in E2. unfold abind at 1 in H.
  destruct (awrap "loading ingestion state: %w" _ m2 w2) as [[[ing|e] m3] w3] eqn:E3.
  all: assert (K3 : same_view w w3) by
    (etrans; [exact K2|]; revert E3; apply view_kept_wrap, keeps_or_missing, view_kept_store; intros ??? Hs; by apply law_ingestion in Hs).
  2: { injection H as <- <- <-. by apply covered_same. }
  unfold abind at 1 in H.
  destruct (awrap "getHealth: %w" (arpc rpc_GetHealth) m3 w3) as [[[h|e] m4] w4] eqn:E4.
  all: assert (K4 : same_view w w4) by (etrans; [exact K3|]; revert E4; apply view_kept_wrap, view_kept_rpc, law_health).
  2: { injection H as <- <- <-. by apply covered_same. }
  unfold abind at 1, acount in H. rewrite E2 in H.
  destruct (audit_window o (view_hwm w) (LastIngestedLedger ing) h) as [[from to]|] eqn:Ew.
  2: { injection H as <- <- <-. by apply covered_same. }
  destruct (audit_window_range _ _ _ _ _ Hv Hvb Ew) as [-> Hr].
  assert (Hc : covered w4 w') by (eapply reconcileRange_spec; [..|exact H]; rewrite ?(proj2 K4); lia).
  destruct K4 as [_ Kh], Hc as [C1 C2]. rewrite Kh in C1, C2. by split.
Qed.
End Repair.

(** C10: as long as the endpoint retains the ledgers it is asked for (it never
    answers that they are out of range) and a page shorter than requested is the
    last one, the high-water mark of a pass never moves back, and it only moves
    over ledgers whose number of stored events is the number the chain has for the
    ingester's filters, whether the pass repairs, fails to save or ends on another
    error. *)
Theorem audit_mark_covers_agreeing_ledgers {W : Type} `{!RpcClient W} `{!AuditStore W} `{!Reingester W} `{!AuditEnv W}
    `{!AuditView W} `{Log : EventLog} `{Laws : !AuditorLaws W} (page_fuel : nat) (o : AuditOptions) (m m' : Metrics) (w w' : W)
    (r : result ierror bool) (Hnet : ao_Network o = au_network) (Hlimit : 0 < pageLimit)
    (Hfind : 0 < ao_FindingMaxLedgers o) (Hbatch : 0 < ao_BatchLedgers o) (Hmark : 0 <= view_hwm w)
    (Hroom : view_hwm w + ao_BatchLedgers o < maxUint32)
    (Hrun : PassOnce page_fuel o m w = (r, m', w')) :
  view_hwm w <= view_hwm w' /\ forall l, view_hwm w < l <= view_hwm w' -> view_stored w' l = chain_count l.
Proof. by apply (PassOnce_spec page_fuel o Hnet Hlimit Hfind Hbatch m w r m' w'). Qed.
