(* ===== verification/AuditorSim.v ===== *)
(** * The auditor's tables in SQLite (internal/store/sqlite.go)

    The census of a ledger range and the table of findings. The census is what the
    auditor's laws ask for, and the latest unresolved finding over a range is found
    again under the id it was recorded with. *)

From stdpp Require Import sorting.
From S2P Require Import Prelude GoStrings GoSort StoreErrors StoreTypes RpcTypes Backpressure ReorgTracker SqliteStore StoreReorg Counting.
From S2P Require Import IngesterCore Ingester IngesterPersist SqliteWorld IngesterSweep SimRpc Auditor AuditorProps.
From Stdlib Require Import Ascii String.
Local Open Scope Z_scope.
Local Open Scope go_scope.

Local Notation length := List.length.
Local Abbreviation SEvent := StoreTypes.Event.

(** ** The census *)

Definition event_rows (d : DB) : list SEvent := (map_to_list (t_events d)).*2.
Definition at_ledger (l : Z) (e : SEvent) : bool := Ledger e =? l.

(** group_concat(id ORDER BY id). *)
Definition group_concat (ids : list string) : string :=
  match sort_Strings ids with
  | [] => ""
  | id :: rest => fold_left (fun acc x => acc +++ "," +++ x) rest id
  end.

(** The ids come back by splitting what SQLite joined. *)
Definition LedgerRangeCensus (from to : Z) (idsOnly : bool) (d : DB) : list LedgerCensus :=
  let rows := List.filter (in_ledgers from to) (event_rows d) in
  let ledgers := merge_sort Z.le (remove_dups (Ledger <$> rows)) in
  (fun l =>
     let here := List.filter (at_ledger l) rows in
     let ids := group_concat (ID <$> here) in
     mkCensus l (Z.of_nat (length here))
       (if idsOnly && negb (bool_decide (ids = "")) then str_split "," ids else [])) <$> ledgers.

(** ** The findings *)

(** The table in the order of its ids, with the next AUTOINCREMENT value. *)
Record Findings : Type := mkFindings { fs_rows : list AuditFinding; fs_next : Z }.
Definition no_findings : Findings := mkFindings [] 1.

Definition RecordAuditFinding (f : AuditFinding) (t : Findings) : AuditFinding * Findings :=
  let row := mkFinding (fs_next t) (defaultNetwork (fd_Network f)) (fd_FromLedger f) (fd_ToLedger f) (fd_ExpectedCount f)
               (fd_ActualCount f) (fd_MissingIDs f) (fd_Status f) 0 time_zero "" in
  (mkFinding (fs_next t) (fd_Network f) (fd_FromLedger f) (fd_ToLedger f) (fd_ExpectedCount f) (fd_ActualCount f)
     (fd_MissingIDs f) (fd_Status f) (fd_Attempts f) (fd_LastAttemptedAt f) (fd_LastError f),
   mkFindings (fs_rows t ++ [row])%list (fs_next t + 1)).

(** UPDATE ... WHERE id: no row of that id is no error. *)
Definition UpdateAuditFinding (f : AuditFinding) (t : Findings) : Findings :=
  mkFindings
    ((fun r => if fd_ID r =? fd_ID f
               then mkFinding (fd_ID r) (fd_Network r) (fd_FromLedger r) (fd_ToLedger r) (fd_ExpectedCount r) (fd_ActualCount r)
                      (fd_MissingIDs f) (fd_Status f) (fd_Attempts f) (fd_LastAttemptedAt f) (fd_LastError f)
               else r) <$> fs_rows t) (fs_next t).

Definition unresolved (s : finding_status) : bool :=
  match s with FindingOpen | FindingUnrecoverable => true | _ => false end.

(** ORDER BY id DESC LIMIT 1. *)
Definition ListOpenFindingsByRange (network : string) (from to : Z) (t : Findings) : result error AuditFinding :=
  match list.last (List.filter (fun r => bool_decide (fd_Network r = defaultNetwork network) && unresolved (fd_Status r) &&
                                          (fd_FromLedger r <=? to) && (from <=? fd_ToLedger r)) (fs_rows t)) with
  | Some f => Ok f
  | None => Err (Sentinel ErrNotFound)
  end.

(** ** The census counts the rows *)

Definition stored_count (d : DB) (l : Z) : Z := cnt (at_ledger l) (event_rows d).

Lemma census_ledger l from to d : l ∈ merge_sort Z.le (remove_dups (Ledger <$> List.filter (in_ledgers from to) (event_rows d))) <->
  exists e, e ∈ event_rows d /\ Ledger e = l /\ from <= l <= to.
Proof.
  rewrite merge_sort_Permutation, elem_of_remove_dups, list_elem_of_fmap. split.
  - intros (e & -> & He). apply list_elem_of_In, filter_In in He as [He Hin]. apply list_elem_of_In in He.
    exists e. unfold in_ledgers in Hin. split_and!; (done || lia).
  - intros (e & He & <- & Hl). exists e. split; [done|]. apply list_elem_of_In, filter_In. split; [by apply list_elem_of_In|].
    unfold in_ledgers. lia.
Qed.

Lemma census_count l from to d : from <= l <= to ->
  Z.of_nat (length (List.filter (at_ledger l) (List.filter (in_ledgers from to) (event_rows d)))) = stored_count d l.
Proof.
  intros Hl. fold (cnt (at_ledger l) (List.filter (in_ledgers from to) (event_rows d))). rewrite cnt_filter. apply cnt_ext, list.Forall_forall.
  intros e _. unfold at_ledger, in_ledgers. destruct (Z.eqb_spec (Ledger e) l); [|by rewrite andb_false_r]. lia.
Qed.

Lemma census_correct from to ids d : census_ok from to (stored_count d) (LedgerRangeCensus from to ids d).
Proof.
  assert (Hfst : lc_Ledger <$> LedgerRangeCensus from to ids d =
      merge_sort Z.le (remove_dups (Ledger <$> List.filter (in_ledgers from to) (event_rows d)))).
  { unfold LedgerRangeCensus. cbn zeta. rewrite <- list_fmap_compose. apply list_fmap_id. }
  split.
  - rewrite Hfst, merge_sort_Permutation. apply NoDup_remove_dups.
  - apply list.Forall_forall. intros c Hc. apply list_elem_of_fmap in Hc as (l & -> & Hl). cbn [lc_Ledger lc_Count].
    apply census_ledger in Hl as (e & He & <- & Hb). rewrite census_count by done. split_and!; try lia.
    apply (cnt_pos _ _ e); [done|]. apply Z.eqb_refl.
  - rewrite Hfst. intros l Hl Hn. apply cnt_none, list.Forall_forall. intros e He. apply Z.eqb_neq. intros <-.
    apply Hn, census_ledger. by exists e.
Qed.

(** Rows that are inserted only when their key is free add to their own ledgers. *)
Lemma ignore_all_count evs l : Forall (fun e => Ledger e <> l) evs -> forall m,
  cnt (at_ledger l) (map_to_list (ignore_all evs m)).*2 = cnt (at_ledger l) (map_to_list m).*2.
Proof.
  induction 1 as [|e evs He _ IH]; intros m; [done|]. cbn [ignore_all].
  etrans; [apply IH|]. unfold insert_or_ignore. destruct (m !! _) eqn:E; [done|]. cbn.
  rewrite (cnt_Permutation _ _ _ (Permutation_map snd (map_to_list_insert m _ e E))). cbn.
  unfold cnt at 1. cbn. unfold at_ledger at 1. by apply Z.eqb_neq in He as ->.
Qed.

(** ** The findings are found again *)

Definition findings_ok (t : Findings) : Prop := NoDup (fd_ID <$> fs_rows t) /\ Forall (fun r => fd_ID r < fs_next t) (fs_rows t).

Lemma findings_ok_record f t : findings_ok t -> findings_ok (RecordAuditFinding f t).2.
Proof.
  intros [Hnd Hb]. split; cbn [RecordAuditFinding snd fs_rows fs_next].
  - rewrite fmap_app. apply list.NoDup_app. split_and!; [done| |apply NoDup_singleton].
    intros x Hx ->%list_elem_of_singleton. apply list_elem_of_fmap in Hx as (r & Hr & Hin).
    eapply list.Forall_forall in Hb; [|done]. cbn in *. lia.
  - apply Forall_app. split; [eapply list.Forall_impl; [done|]; cbn; lia|]. repeat constructor. cbn. lia.
Qed.

Lemma findings_ok_update f t : findings_ok t -> findings_ok (UpdateAuditFinding f t).
Proof.
  intros [Hnd Hb]. assert (Hids : fd_ID <$> fs_rows (UpdateAuditFinding f t) = fd_ID <$> fs_rows t).
  { cbn. rewrite <- list_fmap_compose. apply list_fmap_ext. intros _ r _. cbn. by destruct (_ =? _). }
  split; [by rewrite Hids|]. cbn. apply Forall_fmap. eapply list.Forall_impl; [done|]. intros r Hr. cbn. by destruct (_ =? _).
Qed.

(** A recorded finding that is still open is the one a later scan of an overlapping
    range sees. *)
Lemma recorded_finding_is_found f t from to : fd_Status f = FindingOpen -> fd_FromLedger f <= to -> from <= fd_ToLedger f ->
  let '(f', t') := RecordAuditFinding f t in
  exists r, ListOpenFindingsByRange (fd_Network f) from to t' = Ok r /\ fd_ID r = fd_ID f' /\ fd_FromLedger r = fd_FromLedger f'.
Proof.
  intros Hs H1 H2. cbn [RecordAuditFinding]. unfold ListOpenFindingsByRange. cbn [fs_rows]. rewrite List.filter_app. cbn.
  rewrite bool_decide_true by done. rewrite Hs. destruct (Z.leb_spec (fd_FromLedger f) to); [|lia]. destruct (Z.leb_spec from (fd_ToLedger f)); [|lia].
  cbn. rewrite last_snoc. by eexists.
Qed.

(** * The auditor over SQLite and a concrete log

    A world for the auditor: the SQLite tables whose statements fail when the script
    says so, an endpoint that serves the log in full pages, and an ingester that
    stores the events of a range again. It keeps the auditor's laws, and passes
    over it run. *)

Local Abbreviation REvent := RpcTypes.Event.

(** ** The world *)

(** [a_faults] says of the next statements whether they fail. *)
Record AWorld : Type := mkAWorld { a_db : DB; a_findings : Findings; a_faults : list bool; a_clock : Z }.

Definition disk_error : error := Sentinel (ForeignErr "disk I/O error").

Definition statement {A} (f : DB -> Findings -> result error A * DB * Findings) (a : AWorld) : result error A * AWorld :=
  match a_faults a with
  | true :: fs => (Err disk_error, mkAWorld (a_db a) (a_findings a) fs (a_clock a))
  | fs => let '(r, d, t) := f (a_db a) (a_findings a) in (r, mkAWorld d t (tail fs) (a_clock a))
  end.
Definition on_db {A} (f : DB -> result error A * DB) : AWorld -> result error A * AWorld :=
  statement (fun d t => let '(r, d) := f d in (r, d, t)).
Definition on_findings {A} (f : Findings -> A * Findings) : AWorld -> result error A * AWorld :=
  statement (fun d t => let '(x, t) := f t in (Ok x, d, t)).

#[export] Instance sim_audit_store : AuditStore AWorld := {|
  as_GetAuditState n := on_db (fun d => (GetAuditState n d, d));
  as_GetIngestionState := on_db (fun d => (GetIngestionState d, d));
  as_LedgerRangeCensus from to ids := on_db (fun d => (Ok (LedgerRangeCensus from to ids d), d));
  as_SaveAuditStateIfGreater n v := on_db (SaveAuditStateIfGreater n v);
  as_RecordAuditFinding f := on_findings (RecordAuditFinding f);
  as_UpdateAuditFinding f := on_findings (fun t => (tt, UpdateAuditFinding f t)) |}.

(** Full pages with a cursor on every non-empty one. *)
Definition audit_page (req : GetEventsRequest) : GetEventsResponse :=
  let evs := take (Z.to_nat (req_Limit req)) (outstanding req) in
  mkResponse evs 10 2 (match list.last evs with Some l => CursorValue l | None => "" end).

#[export] Instance audit_rpc : RpcClient AWorld := {|
  rpc_GetEvents req a := (Ok (audit_page req), a);
  rpc_GetHealth a := (Ok (mkHealth 10 2), a);
  rpc_GetLatestLedger a := (Ok (mkLatest 10), a) |}.

Definition audit_filters : list EventFilter := [mkFilter "contract" ["C"; "D"]].

(** The events of a range of the log, as they are stored. *)
Definition stored_form (re : REvent) : SEvent :=
  mkEvent (re_ID re) (re_ContractID re) (re_Ledger re) (re_Type re) (re_TxHash re) 0 0 true "[]" (re_Value re) 0 "default" [] "".
Definition range_events (from to : Z) : list SEvent :=
  stored_form <$> List.filter (fun e => sim_match audit_filters e && (from <=? re_Ledger e) && (re_Ledger e <=? to)) sim_events.

#[export] Instance sim_reingester : Reingester AWorld := {|
  ri_BuildFilterBatches a := (Ok [audit_filters], a);
  ri_ReingestRange from to a :=
    let '(r, a) := on_db (fun d => let '(n, d) := UpsertEvents (range_events from to) d in (Ok n, d)) a in
    (match r with Ok n => Ok n | Err e => Err (IStore e) end, a);
  ri_PageLimit := 2 |}.

#[export] Instance sim_audit_env : AuditEnv AWorld := {|
  av_Error e := "failed";
  av_ShouldYield a := ((false, ""), a);
  av_now := a_clock;
  av_sleep d a := (true, mkAWorld (a_db a) (a_findings a) (a_faults a) (a_clock a + d));
  av_ctxErr _ := false;
  av_jitter _ _ := 0 |}.

#[export] Instance sim_audit_view : AuditView AWorld := {|
  view_stored a := stored_count (a_db a);
  view_hwm a := default 0 (t_audit (a_db a) !! "default") |}.

(** ** The laws *)

Lemma same_view_db (a a' : AWorld) : a_db a' = a_db a -> same_view a a'.
Proof. intros H. split; cbn; [intros l|]; by rewrite H. Qed.

Lemma statement_cases {A} (f : DB -> Findings -> result error A * DB * Findings) a r a' : statement f a = (r, a') ->
  (r = Err disk_error /\ a_db a' = a_db a) \/ (exists t, f (a_db a) (a_findings a) = (r, a_db a', t)).
Proof.
  unfold statement. destruct (f (a_db a) (a_findings a)) as [[r1 d1] t1].
  destruct (a_faults a) as [|[] fs]; intros [= <- <-]; [right; by exists t1|by left|right; by exists t1].
Qed.

Lemma on_db_cases {A} (f : DB -> result error A * DB) a r a' : on_db f a = (r, a') ->
  (r = Err disk_error /\ a_db a' = a_db a) \/ f (a_db a) = (r, a_db a').
Proof.
  intros H. apply statement_cases in H as [H|[t H]]; [by left|right]. destruct (f (a_db a)) as [r1 d1]. by injection H as <- <- _.
Qed.

(** A query. *)
Lemma on_db_read {A} (q : DB -> result error A) a r a' : on_db (fun d => (q d, d)) a = (r, a') ->
  same_view a a' /\ (r = Err disk_error \/ r = q (a_db a)).
Proof.
  intros H. apply on_db_cases in H as [[-> H]|[= -> H]]; (split; [by apply same_view_db|]); [by left|by right].
Qed.

Lemma on_findings_view {A} (f : Findings -> A * Findings) a r a' : on_findings f a = (r, a') -> same_view a a'.
Proof.
  intros H. apply same_view_db. apply statement_cases in H as [[_ H]|[t H]]; [done|].
  destruct (f (a_findings a)). by injection H.
Qed.

Lemma audit_page_full req : 0 < req_Limit req -> full_page req (audit_page req).
Proof.
  intros Hl. split; cbn.
  - apply prefix_take.
  - intros Hs. apply take_ge. rewrite length_take in Hs. lia.
  - by intros l ->.
Qed.

Lemma range_events_in from to : Forall (fun e => from <= Ledger e <= to) (range_events from to).
Proof.
  apply Forall_fmap, list.Forall_forall. intros e He. apply list_elem_of_In, filter_In in He as [_ He].
  apply andb_prop in He as [He H2]. apply andb_prop in He as [_ H1]. cbn. lia.
Qed.

Lemma sim_save v a r a' : 0 <= v -> on_db (SaveAuditStateIfGreater "default" v) a = (r, a') ->
  (forall l, view_stored a' l = view_stored a l) /\ (view_hwm a' = view_hwm a \/ view_hwm a' = Z.max (view_hwm a) v).
Proof.
  intros Hv H. apply on_db_cases in H as [[_ H]|H]; [cbn; rewrite H; auto|].
  unfold SaveAuditStateIfGreater in H. change (defaultNetwork "default") with "default" in H. cbn.
  destruct (t_audit (a_db a) !! "default") as [u|] eqn:E.
  - injection H as _ <-. destruct (Z.ltb_spec u v); cbn; [|rewrite E; auto].
    rewrite lookup_insert_eq. split; [done|right; cbn; lia].
  - injection H as _ <-. cbn. rewrite lookup_insert_eq. split; [done|right; cbn; lia].
Qed.

Lemma UpsertEvents_audit evs d : t_audit (UpsertEvents evs d).2 = t_audit d.
Proof. unfold UpsertEvents, upsertEvents. case_bool_decide; [done|]. by destruct (exec_events _ _ _). Qed.

Lemma sim_reingest from to a r a' : ri_ReingestRange from to a = (r, a') ->
  view_hwm a' = view_hwm a /\ forall l, l < from \/ to < l -> view_stored a' l = view_stored a l.
Proof.
  cbn [ri_ReingestRange sim_reingester]. destruct (on_db _ a) as [r1 a1] eqn:E. intros [= _ <-].
  apply on_db_cases in E as [[_ E]|E]; [cbn; by rewrite E|].
  pose proof (UpsertEvents_events (range_events from to) (a_db a)) as [He _].
  pose proof (UpsertEvents_audit (range_events from to) (a_db a)) as Ha.
  destruct (UpsertEvents (range_events from to) (a_db a)) as [n d]. injection E as _ ->. cbn in He, Ha.
  split.
  - cbn. by rewrite Ha.
  - intros l Hl. cbn. unfold stored_count, event_rows. rewrite He. apply ignore_all_count.
    eapply list.Forall_impl; [apply range_events_in|]. cbn. lia.
Qed.

#[export] Instance sim_auditor_laws : AuditorLaws AWorld.
Proof.
  refine {| au_batches := [audit_filters]; au_network := "default" |}.
  - by intros w r w' [= _ <-].
  - by intros req w r w' [= _ <-].
  - intros req w resp w' [= <- _]. apply audit_page_full.
  - by intros req w e w' H.
  - intros w r w' [= <- <-]. split; [done|]. by intros bs [= <-].
  - intros w r w' H. apply on_db_read in H as [Hv Hr]. split; [done|]. destruct Hr as [->| ->]; [done|].
    unfold GetAuditState. change (defaultNetwork "default") with "default". cbn.
    by destruct (t_audit (a_db w) !! "default") as [u|].
  - intros w r w' H. by apply on_db_read in H as [Hv _].
  - intros from to ids w r w' H. apply (on_db_read (fun d => Ok (LedgerRangeCensus from to ids d))) in H as [Hv Hr].
    split; [done|]. intros rows ->. destruct Hr as [|[= ->]]; [done|]. apply census_correct.
  - intros v w r w'. apply sim_save.
  - intros f w r w' H. split; [exact (on_findings_view (RecordAuditFinding f) _ _ _ H)|]. intros f' ->.
    apply statement_cases in H as [[H _]|[t H]]; [done|]. by injection H as <- _.
  - intros f w r w' H. exact (on_findings_view (fun t => (tt, UpdateAuditFinding f t)) _ _ _ H).
  - apply sim_reingest.
  - by intros w r w' [= _ <-].
  - intros d w r w' [= _ <-]. by apply same_view_db.
Defined.

(** ** Passes *)

(** Ledger 5 and the event of ledger 6 were lost; the mark is at 3. *)
Definition audit_db (mark ingested : Z) : DB :=
  SaveAuditState "default" mark (SaveIngestionState (mkIngestionState "default" ingested "" None)
    (UpsertEvents (range_events 4 4) db_empty).2).
Definition audit_world (mark ingested : Z) (faults : list bool) : AWorld :=
  mkAWorld (audit_db mark ingested) no_findings faults 0.
Definition audit_options (batch lag cluster : Z) : AuditOptions :=
  AuditOptions_applyDefaults (mkAuditOptions 0 batch lag 0 cluster "default" false).
Definition no_metrics : Metrics := mkMetrics 0 0 0 0 0 0 0 0 0.
Definition gap_options : AuditOptions := audit_options 100 4 0.
Definition gap_world : AWorld := audit_world 3 8 [].

Example gap_is_repaired :
  let '(r, m, w) := PassOnce 10 gap_options no_metrics gap_world in
  (r, view_hwm w, view_stored w <$> [4; 5; 6], mt_FindingsRepaired m,
   (fun f => (fd_FromLedger f, fd_ToLedger f, fd_ExpectedCount f, fd_ActualCount f, fd_MissingIDs f, fd_Status f)) <$> fs_rows (a_findings w)) =
  (Ok true, 6, [1; 2; 1], 1, [(5, 6, 3, 0, ["e2"; "e3"; "e5"], FindingRepaired)]).
Proof. vm_compute. reflexivity. Qed.

Lemma audit_mark_covers_agreeing_ledgers_witness :
  let w' := (PassOnce 10 gap_options no_metrics gap_world).2 in
  view_hwm w' = 6 /\ forall l, 3 < l <= 6 -> view_stored w' l = chain_count l.
Proof.
  cbn zeta. assert (Hm : view_hwm (PassOnce 10 gap_options no_metrics gap_world).2 = 6) by (vm_compute; reflexivity).
  assert (Hw : view_hwm gap_world = 3) by (vm_compute; reflexivity).
  destruct (PassOnce 10 gap_options no_metrics gap_world) as [[r m'] w'] eqn:E. cbn [snd] in *.
  destruct (audit_mark_covers_agreeing_ledgers 10 gap_options no_metrics m' gap_world w' r) as [_ H];
    [reflexivity|reflexivity|reflexivity|reflexivity|by rewrite Hw|by rewrite Hw|exact E|].
  rewrite Hw, Hm in H. split; [exact Hm|exact H].
Defined.

(** ** What the passes do not do *)

(** A mark below the endpoint's retention window stops the audit for good: no
    window is ever chosen, and nothing moves the mark. An instance that has never
    audited starts at 0. *)
Lemma audit_stalls_below_retention o v ing h : 0 <= v < h_OldestLedger h -> h_OldestLedger h < maxUint32 -> audit_window o v ing h = None.
Proof.
  intros Hv Hh. unfold audit_window. destruct (_ <=? 0); [done|]. destruct (_ <? ao_LagThreshold o); [done|].
  rewrite (u32_id v), (u32_id (v + 1)) by (unfold in_u32, maxUint32 in *; lia). destruct (_ <? _); [done|].
  destruct (Z.ltb_spec 0 (h_OldestLedger h)); [|lia]. by destruct (Z.leb_spec (v + 1) (h_OldestLedger h)); [|lia].
Qed.

(** The same audit over an endpoint that answers with out-of-range errors. *)
Definition gone_rpc : RpcClient AWorld := {|
  rpc_GetEvents req a := (Err (RErr (KRpc (-32600) "startLedger must be within the ledger range: 20 - 30" "") "" []), a);
  rpc_GetHealth a := (Ok (mkHealth 10 2), a);
  rpc_GetLatestLedger a := (Ok (mkLatest 10), a) |}.

(** The range left the window between the health check and the fetch: what was not
    fetched counts as empty, so lost ledgers are marked as verified. *)
Lemma vanished_range_is_verified :
  let '(r, m, w) := @PassOnce AWorld gone_rpc _ _ _ 10 gap_options no_metrics (audit_world 4 9 []) in
  (r, view_hwm w, view_stored w 5, chain_count 5, mt_FindingsOpened m) = (Ok true, 6, 0, 2, 0).
Proof. vm_compute. reflexivity. Qed.

(** An endpoint whose pages may be shorter than the limit, with a cursor. *)
Definition short_rpc : RpcClient AWorld := {|
  rpc_GetEvents req a := (Ok (audit_page (mkRequest (req_StartLedger req) (req_EndLedger req) (req_Filters req) (req_Cursor req) 1)), a);
  rpc_GetHealth a := (Ok (mkHealth 10 2), a);
  rpc_GetLatestLedger a := (Ok (mkLatest 10), a) |}.

(** A complete store is reported as wrong, and the finding cannot be repaired: the
    ingester follows the cursor of a short page, the auditor takes it for the end. *)
Lemma short_page_is_a_mismatch :
  let complete := mkAWorld (UpsertEvents (range_events 4 9) (audit_db 3 8)).2 no_findings [] 0 in
  let '(r, m, w) := @PassOnce AWorld short_rpc _ _ _ 10 gap_options no_metrics complete in
  (r, view_hwm w, view_stored complete <$> [4; 5; 6], chain_count <$> [4; 5; 6],
   (fun f => (fd_FromLedger f, fd_ExpectedCount f, fd_ActualCount f, fd_Status f)) <$> fs_rows (a_findings w)) =
  (Ok true, 4, [1; 2; 1], [1; 2; 1], [(5, 0, 3, FindingUnrecoverable)]).
Proof. vm_compute. reflexivity. Qed.

(** Every pass over the same mismatch opens another finding. *)
Lemma findings_pile_up :
  let complete := mkAWorld (UpsertEvents (range_events 4 9) (audit_db 3 8)).2 no_findings [] 0 in
  let pass := fun w => (@PassOnce AWorld short_rpc _ _ _ 10 gap_options no_metrics w).2 in
  fd_ID <$> fs_rows (a_findings (pass (pass (pass complete)))) = [1; 2; 3].
Proof. vm_compute. reflexivity. Qed.
