(* ===== verification/PoolBudget.v ===== *)
(** * Connection pool budgets (internal/store/pool_budget.go)

    Permits for the database pool: a semaphore for every subsystem, one shared by
    the subsystems other than the ingester, and one for the whole pool. The calls
    of Acquire and of the release functions are threads whose single channel and
    counter operations interleave. Gauges and histograms are left out. *)

From S2P Require Import Prelude GoStrings StoreErrors GoFloat.
From Stdlib Require Import Ascii String.
Local Open Scope Z_scope.
Local Notation length := List.length.

(** ** Configuration *)

Inductive subsystem : Type := Ingester | APIRead | GraphQL | Subscription | Maintenance.
#[export] Instance subsystem_eq_dec : EqDecision subsystem.
Proof. solve_decision. Defined.

Definition AllSubsystems : list subsystem := [Ingester; APIRead; GraphQL; Subscription; Maintenance].

Record PoolBudgetConfig : Type := mkPoolConfig {
  pc_TotalConns : Z;
  pc_IngesterReserved : Z;
  pc_APIReadMax : Z;
  pc_GraphQLMax : Z;
  pc_SubscriptionMax : Z;
  pc_MaintenanceMax : Z;
  pc_AcquireTimeout : Z;
  pc_IngesterAcquireTimeout : Z;
  pc_PressureThreshold : float64;
  pc_MaxMaintenanceDeferral : Z;
  pc_RetryAfter : Z }.

(** The fields of PoolBudget that never change. *)
Record PoolBudget : Type := mkPoolBudget {
  pb_totalConns : Z;
  pb_ingesterReserved : Z;
  pb_sharedCap : Z;
  pb_limit : subsystem -> Z;
  pb_acquireTimeout : Z;
  pb_ingesterAcquireTimeout : Z;
  pb_pressureThreshold : float64;
  pb_maxMaintenanceDeferral : Z;
  pb_retryAfter : Z }.

Definition f64_1 : float64 := f64_of_Z 1.
Definition f64_0_75 : float64 := f64_div (f64_of_Z 3) (f64_of_Z 4).

Definition resolveCap (sharedCap explicit def : Z) : Z :=
  let v := if explicit <=? 0 then Z.max 1 def else explicit in
  if sharedCap <? v then sharedCap else v.

Definition NewPoolBudget (cfg : PoolBudgetConfig) : PoolBudget :=
  let total := if pc_TotalConns cfg <=? 0 then 20 else pc_TotalConns cfg in
  let total := if total <? 2 then 2 else total in
  let reserved := if pc_IngesterReserved cfg <=? 0 then Z.max 2 (goquot (i64 (total * 25)) 100) else pc_IngesterReserved cfg in
  let reserved := if total <=? reserved then total - 1 else reserved in
  let sharedCap := total - reserved in
  let cap explicit pct := resolveCap sharedCap explicit (goquot (i64 (total * pct)) 100) in
  let apiMax := cap (pc_APIReadMax cfg) 50 in
  let gqlMax := cap (pc_GraphQLMax cfg) 30 in
  let subMax := cap (pc_SubscriptionMax cfg) 20 in
  let maintMax := cap (pc_MaintenanceMax cfg) 15 in
  mkPoolBudget total reserved sharedCap
    (fun s => match s with
              | Ingester => total | APIRead => apiMax | GraphQL => gqlMax
              | Subscription => subMax | Maintenance => maintMax end)
    (if pc_AcquireTimeout cfg <=? 0 then 50 * Millisecond else pc_AcquireTimeout cfg)
    (if pc_IngesterAcquireTimeout cfg <=? 0 then 5 * Second else pc_IngesterAcquireTimeout cfg)
    (if f64_leb (pc_PressureThreshold cfg) f64_0 || f64_ltb f64_1 (pc_PressureThreshold cfg) then f64_0_75
     else pc_PressureThreshold cfg)
    (if pc_MaxMaintenanceDeferral cfg <=? 0 then 15 * Minute else pc_MaxMaintenanceDeferral cfg)
    (if pc_RetryAfter cfg <=? 0 then Second else pc_RetryAfter cfg).

(** An unknown subsystem is accounted as an API read; a tag of the context wins. *)
Definition trackerFor (sub : string) : subsystem :=
  if bool_decide (sub = "ingester"%string) then Ingester
  else if bool_decide (sub = "graphql"%string) then GraphQL
  else if bool_decide (sub = "subscription"%string) then Subscription
  else if bool_decide (sub = "maintenance"%string) then Maintenance
  else APIRead.

Definition SubsystemFromContext (tag sub : string) : string := if bool_decide (tag = ""%string) then sub else tag.

(** ** State *)

(** A semaphore is a channel of fixed capacity: its state is its length. *)
Record subsystemTracker : Type := mkTracker { tr_sem : Z; tr_inUse : Z; tr_acquired : Z; tr_rejected : Z; tr_waitNanos : Z }.

Record pool : Type := mkPool {
  pl_totalSem : Z;
  pl_sharedSem : Z;
  pl_subsystems : subsystem -> subsystemTracker;
  pl_totalInUse : Z;
  pl_sharedInUse : Z;
  pl_ingesterWaiters : Z }.

Definition pool_empty : pool := mkPool 0 0 (fun _ => mkTracker 0 0 0 0 0) 0 0 0.

Inductive token : Type := TSub | TShared | TTotal.
#[export] Instance token_eq_dec : EqDecision token.
Proof. solve_decision. Defined.

Definition sem_len (s : subsystem) (t : token) (p : pool) : Z :=
  match t with TSub => tr_sem (pl_subsystems p s) | TShared => pl_sharedSem p | TTotal => pl_totalSem p end.
Definition sem_cap (b : PoolBudget) (s : subsystem) (t : token) : Z :=
  match t with TSub => pb_limit b s | TShared => pb_sharedCap b | TTotal => pb_totalConns b end.

Definition upd_tracker (s : subsystem) (f : subsystemTracker -> subsystemTracker) (p : pool) : pool :=
  mkPool (pl_totalSem p) (pl_sharedSem p)
    (fun s' => if decide (s' = s) then f (pl_subsystems p s) else pl_subsystems p s')
    (pl_totalInUse p) (pl_sharedInUse p) (pl_ingesterWaiters p).

Definition sem_add (s : subsystem) (t : token) (d : Z) (p : pool) : pool :=
  match t with
  | TSub => upd_tracker s (fun r => mkTracker (tr_sem r + d) (tr_inUse r) (tr_acquired r) (tr_rejected r) (tr_waitNanos r)) p
  | TShared => mkPool (pl_totalSem p) (pl_sharedSem p + d) (pl_subsystems p) (pl_totalInUse p) (pl_sharedInUse p) (pl_ingesterWaiters p)
  | TTotal => mkPool (pl_totalSem p + d) (pl_sharedSem p) (pl_subsystems p) (pl_totalInUse p) (pl_sharedInUse p) (pl_ingesterWaiters p)
  end.

(** A send on the channel: None while it is full. *)
Definition take (b : PoolBudget) (s : subsystem) (t : token) (p : pool) : option pool :=
  if sem_len s t p <? sem_cap b s t then Some (sem_add s t 1 p) else None.

(** ** Threads *)

Inductive reject_reason : Type := subsystem_cap | shared_cap | total_cap.

(** The reason as it is reported: a full pool is reported as the shared cap, with
    the numbers of the whole pool. *)
Definition reason_label (r : reject_reason) : string :=
  match r with subsystem_cap => "subsystem_cap" | shared_cap | total_cap => "shared_cap" end%string.

Record PoolBudgetExhaustedError : Type := mkExhausted {
  px_Subsystem : subsystem; px_Reason : string; px_InUse : Z; px_Limit : Z; px_RetryAfter : Z }.

Inductive outcome : Type := Released | Canceled | Rejected (e : PoolBudgetExhaustedError).

(** The operations that never wait, one at a time. The clock is read when the wait
    is added to the counter; the source reads it just before, which is the same
    value up to the operations in between. *)
Inductive pool_op : Type :=
  | AddWait
  | AddAcquired
  | AddRejected
  | AddInUse (d : Z)
  | AddTotalInUse (d : Z)
  | AddSharedInUse (d : Z)
  | AddWaiters (d : Z)
  | Give (t : token)
  | MakeError (r : reject_reason).

(** What follows a sequence of operations. *)
Inductive kont : Type := KHold | KReject | KCancel | KRelease.

Inductive pc : Type :=
  | SubTry | SubWait | SharedTry | SharedWait | TotalTry | TotalWait
  | IngTry | IngWait | IngSub (waited : bool)
  | Ops (ops : list pool_op) (k : kont)
  | Hold
  | Done (o : outcome).

Record thread : Type := mkThread { th_sub : subsystem; th_start : Z; th_err : option PoolBudgetExhaustedError; th_pc : pc }.

Definition at_pc (c : pc) (th : thread) : thread := mkThread (th_sub th) (th_start th) (th_err th) c.

(** Acquire up to its first channel operation. *)
Definition Acquire (tag sub : string) (now : Z) : thread :=
  let s := trackerFor (SubsystemFromContext tag sub) in
  mkThread s now None (if decide (s = Ingester) then IngTry else SubTry).

Definition uses_shared (s : subsystem) : bool := negb (bool_decide (s = Ingester)).

Definition finishAcquire (s : subsystem) (waited : bool) : list pool_op :=
  [AddWait; AddAcquired; AddInUse 1; AddTotalInUse 1] ++ (if uses_shared s then [AddSharedInUse 1] else []) ++
  (if waited then [AddWaiters (-1)] else []).
Definition release_ops (s : subsystem) : list pool_op :=
  (if uses_shared s then [AddSharedInUse (-1); Give TShared] else []) ++
  [AddInUse (-1); AddTotalInUse (-1); Give TSub; Give TTotal].

Definition exhausted (b : PoolBudget) (s : subsystem) (r : reject_reason) (p : pool) : PoolBudgetExhaustedError :=
  match r with
  | subsystem_cap => mkExhausted s (reason_label r) (tr_inUse (pl_subsystems p s)) (pb_limit b s) (pb_retryAfter b)
  | shared_cap => mkExhausted s (reason_label r) (pl_sharedInUse p) (pb_sharedCap b) (pb_retryAfter b)
  | total_cap => mkExhausted s (reason_label r) (pl_totalInUse p) (pb_totalConns b) (pb_retryAfter b)
  end.

Definition op_exec (b : PoolBudget) (now : Z) (op : pool_op) (th : thread) (p : pool) : thread * pool :=
  let s := th_sub th in
  let tracked f := (th, upd_tracker s f p) in
  match op with
  | AddWait => tracked (fun r => mkTracker (tr_sem r) (tr_inUse r) (tr_acquired r) (tr_rejected r) (i64 (tr_waitNanos r + time_Sub now (th_start th))))
  | AddAcquired => tracked (fun r => mkTracker (tr_sem r) (tr_inUse r) (u64 (tr_acquired r + 1)) (tr_rejected r) (tr_waitNanos r))
  | AddRejected => tracked (fun r => mkTracker (tr_sem r) (tr_inUse r) (tr_acquired r) (u64 (tr_rejected r + 1)) (tr_waitNanos r))
  | AddInUse d => tracked (fun r => mkTracker (tr_sem r) (tr_inUse r + d) (tr_acquired r) (tr_rejected r) (tr_waitNanos r))
  | AddTotalInUse d => (th, mkPool (pl_totalSem p) (pl_sharedSem p) (pl_subsystems p) (pl_totalInUse p + d) (pl_sharedInUse p) (pl_ingesterWaiters p))
  | AddSharedInUse d => (th, mkPool (pl_totalSem p) (pl_sharedSem p) (pl_subsystems p) (pl_totalInUse p) (pl_sharedInUse p + d) (pl_ingesterWaiters p))
  | AddWaiters d => (th, mkPool (pl_totalSem p) (pl_sharedSem p) (pl_subsystems p) (pl_totalInUse p) (pl_sharedInUse p) (pl_ingesterWaiters p + d))
  | Give t => (th, sem_add s t (-1) p)
  | MakeError r => (mkThread s (th_start th) (Some (exhausted b s r p)) (th_pc th), p)
  end.

Definition after_ops (k : kont) (th : thread) : pc :=
  match k with
  | KHold => Hold
  | KRelease => Done Released
  | KCancel => Done Canceled
  | KReject => match th_err th with Some e => Done (Rejected e) | None => Done Canceled end
  end.

(** What a thread does next where it has a choice: it goes on, its context is
    done, its timer fires. *)
Inductive choice : Type := Go | CtxDone | TimerFired.

(** The ends of a wait that gives [gs] back. *)
Definition abandon (gs : list token) (r : reject_reason) (waited : bool) (c : choice) (th : thread) : thread :=
  let back := (Give <$> gs) ++ [AddWait] in
  let leave := if waited then [AddWaiters (-1)] else [] in
  match c with
  | CtxDone => at_pc (Ops (back ++ leave) KCancel) th
  | _ => at_pc (Ops (back ++ [AddRejected; MakeError r] ++ leave) KReject) th
  end.

(** A select with a send on [t]: [next] after the send, [full] when it would block
    and there is another case. *)
Definition try_take (b : PoolBudget) (t : token) (next full : pc) (th : thread) (p : pool) : thread * pool :=
  match take b (th_sub th) t p with
  | Some p' => (at_pc next th, p')
  | None => (at_pc full th, p)
  end.
Definition wait_take (b : PoolBudget) (t : token) (next : pc) (gs : list token) (r : reject_reason) (waited : bool)
    (c : choice) (th : thread) (p : pool) : option (thread * pool) :=
  match c with
  | Go => p' ← take b (th_sub th) t p; Some (at_pc next th, p')
  | _ => Some (abandon gs r waited c th, p)
  end.

Definition add_waiter (p : pool) : pool :=
  mkPool (pl_totalSem p) (pl_sharedSem p) (pl_subsystems p) (pl_totalInUse p) (pl_sharedInUse p) (pl_ingesterWaiters p + 1).

(** None: the thread is blocked, or has nothing to do. *)
Definition thread_step (b : PoolBudget) (c : choice) (now : Z) (th : thread) (p : pool) : option (thread * pool) :=
  match th_pc th with
  | SubTry => match c with
              | CtxDone => Some (at_pc (Done Canceled) th, p)
              | Go => Some (try_take b TSub SharedTry SubWait th p)
              | TimerFired => None
              end
  | SubWait => wait_take b TSub SharedTry [] subsystem_cap false c th p
  | SharedTry => match c with
                 | Go => match take b (th_sub th) TShared p with
                         | Some p' => Some (at_pc TotalTry th, p')
                         | None =>
                             if pb_acquireTimeout b - time_Sub now (th_start th) <=? 0
                             then Some (abandon [TSub] shared_cap false TimerFired th, p)
                             else Some (at_pc SharedWait th, p)
                         end
                 | _ => None
                 end
  | SharedWait => wait_take b TShared TotalTry [TSub] shared_cap false c th p
  | TotalTry => match c with
                | Go => Some (try_take b TTotal (Ops (finishAcquire (th_sub th) false) KHold) TotalWait th p)
                | _ => None
                end
  | TotalWait => wait_take b TTotal (Ops (finishAcquire (th_sub th) false) KHold) [TShared; TSub] total_cap false c th p
  | IngTry => match c with
              | Go => match take b (th_sub th) TTotal p with
                      | Some p' => Some (at_pc (IngSub false) th, p')
                      | None => Some (at_pc IngWait th, add_waiter p)
                      end
              | _ => None
              end
  | IngWait => wait_take b TTotal (IngSub true) [] subsystem_cap true c th p
  | IngSub waited => match c with
                     | Go => p' ← take b (th_sub th) TSub p; Some (at_pc (Ops (finishAcquire (th_sub th) waited) KHold) th, p')
                     | _ => None
                     end
  | Ops [] k => match c with Go => Some (at_pc (after_ops k th) th, p) | _ => None end
  | Ops (op :: ops) k =>
      match c with
      | Go => let '(th', p') := op_exec b now op th p in Some (at_pc (Ops ops k) th', p')
      | _ => None
      end
  | Hold | Done _ => None
  end.

(** The release function of a permit; sync.Once makes a second call do nothing. *)
Definition release (th : thread) : option thread :=
  match th_pc th with
  | Hold => Some (at_pc (Ops (release_ops (th_sub th)) KRelease) th)
  | _ => None
  end.

(** ** The system *)

Record psys : Type := mkPsys { ps_pool : pool; ps_threads : list thread }.

Inductive pool_event : Type :=
  | EvAcquire (tag sub : string) (now : Z)
  | EvStep (i : nat) (c : choice) (now : Z)
  | EvRelease (i : nat).

Definition pool_step (b : PoolBudget) (e : pool_event) (s : psys) : option psys :=
  match e with
  | EvAcquire tag sub now => Some (mkPsys (ps_pool s) (ps_threads s ++ [Acquire tag sub now]))
  | EvStep i c now =>
      th ← ps_threads s !! i;
      r ← thread_step b c now th (ps_pool s);
      Some (mkPsys r.2 (<[i := r.1]> (ps_threads s)))
  | EvRelease i =>
      th ← ps_threads s !! i;
      th' ← release th;
      Some (mkPsys (ps_pool s) (<[i := th']> (ps_threads s)))
  end.

Fixpoint pool_run (b : PoolBudget) (es : list pool_event) (s : psys) : option psys :=
  match es with
  | [] => Some s
  | e :: es => s' ← pool_step b e s; pool_run b es s'
  end.

Definition pool_start : psys := mkPsys pool_empty [].

(** ** Pressure *)

(** The live connections of the pool underneath, when there is a provider. *)
Record PoolConnectionSnapshot : Type := mkSnapshot { sn_AcquiredConns : Z; sn_MaxConns : Z }.

Definition at_least (num den : Z) (threshold : float64) : bool :=
  (0 <? den) && f64_leb threshold (f64_div (f64_of_Z num) (f64_of_Z den)).

Definition UnderPressure (b : PoolBudget) (snap : option PoolConnectionSnapshot) (p : pool) : bool :=
  (0 <? pl_ingesterWaiters p) ||
  at_least (pl_sharedInUse p) (pb_sharedCap b) (pb_pressureThreshold b) ||
  at_least (pl_totalInUse p) (pb_totalConns b) (pb_pressureThreshold b) ||
  match snap with
  | Some sn => at_least (sn_AcquiredConns sn) (sn_MaxConns sn) (pb_pressureThreshold b)
  | None => false
  end.

(** deferredSince and the count of yields. *)
Record deferrals : Type := mkDeferrals { df_since : gmap string Z; df_yields : Z }.

Definition ShouldYield (b : PoolBudget) (pressure : bool) (job : string) (now : Z) (d : deferrals) : (bool * string) * deferrals :=
  let job := if bool_decide (job = ""%string) then "maintenance"%string else job in
  if negb pressure then ((false, ""%string), mkDeferrals (delete job (df_since d)) (df_yields d))
  else
    match df_since d !! job with
    | None => ((true, "pool_pressure"%string), mkDeferrals (<[job := now]> (df_since d)) (u64 (df_yields d + 1)))
    | Some since =>
        if pb_maxMaintenanceDeferral b <=? time_Sub now since
        then ((false, "max_deferral_reached"%string), mkDeferrals (<[job := now]> (df_since d)) (df_yields d))
        else ((true, "pool_pressure"%string), mkDeferrals (df_since d) (u64 (df_yields d + 1)))
    end.

(** combinedYieldController: the first controller that yields decides, and the ones
    after it are not asked. *)
Fixpoint combinedYield {W : Type} (controllers : list (option (string -> W -> (bool * string) * W))) (job : string) (w : W)
  : (bool * string) * W :=
  match controllers with
  | [] => ((false, ""%string), w)
  | None :: rest => combinedYield rest job w
  | Some c :: rest => let '((yield, reason), w) := c job w in if yield then ((true, reason), w) else combinedYield rest job w
  end.

(** ** A budgeted store call *)

(** The calls of BudgetedStore: nothing reaches the store without a permit. A
    context that holds a permit of this budget already passes through. *)
Inductive call_state : Type := CallStore | CallReturn (o : outcome).
Definition budgeted_call (nested : bool) (th : thread) : option call_state :=
  if nested then Some CallStore
  else match th_pc th with
       | Hold => Some CallStore
       | Done o => Some (CallReturn o)
       | _ => None
       end.
