(* ===== verification/PoolBudgetProps.v ===== *)
(** * What the pool budget guarantees (internal/store/pool_budget.go)

    Every counter of the budget is the number of threads that account for it, over
    all interleavings; a permit is never lost or given back twice; and the ingester
    finds a free slot below its reserved floor once the releases under way have run. *)

From S2P Require Import Prelude GoStrings StoreErrors GoFloat Counting PoolBudget.
From Stdlib Require Import Ascii String.
Local Open Scope Z_scope.
Local Notation length := List.length.

(** ** Configurations *)

Lemma resolveCap_bounds shared explicit def : 1 <= shared -> 1 <= resolveCap shared explicit def <= shared.
Proof.
  intros H. unfold resolveCap. set (v := if explicit <=? 0 then _ else _).
  assert (1 <= v) by (subst v; destruct (Z.leb_spec explicit 0); lia). destruct (Z.ltb_spec shared v); lia.
Qed.

Record budget_ok (b : PoolBudget) : Prop := {
  bo_reserved : 1 <= pb_ingesterReserved b < pb_totalConns b;
  bo_shared : pb_sharedCap b = pb_totalConns b - pb_ingesterReserved b;
  bo_ingester : pb_limit b Ingester = pb_totalConns b;
  bo_limits : forall s, s <> Ingester -> 1 <= pb_limit b s <= pb_sharedCap b;
  bo_timeouts : 0 < pb_acquireTimeout b /\ 0 < pb_ingesterAcquireTimeout b /\ 0 < pb_maxMaintenanceDeferral b /\ 0 < pb_retryAfter b }.

Lemma positive_or_default v d : 0 < d -> 0 < (if v <=? 0 then d else v).
Proof. destruct (Z.leb_spec v 0); lia. Qed.

Lemma new_budget_ok cfg : budget_ok (NewPoolBudget cfg).
Proof.
  unfold NewPoolBudget. set (total0 := if pc_TotalConns cfg <=? 0 then 20 else _).
  set (total := if total0 <? 2 then 2 else total0).
  assert (Ht : 2 <= total) by (subst total; destruct (Z.ltb_spec total0 2); lia).
  set (r0 := if pc_IngesterReserved cfg <=? 0 then _ else _).
  assert (Hr0 : 1 <= r0) by (subst r0; destruct (Z.leb_spec (pc_IngesterReserved cfg) 0); lia).
  set (reserved := if total <=? r0 then total - 1 else r0).
  assert (Hr : 1 <= reserved < total) by (subst reserved; destruct (Z.leb_spec total r0); lia).
  clearbody total r0 reserved. split; cbn [pb_ingesterReserved pb_totalConns pb_sharedCap pb_limit pb_acquireTimeout
    pb_ingesterAcquireTimeout pb_maxMaintenanceDeferral pb_retryAfter]; try done.
  - intros [] Hs; [done|apply resolveCap_bounds; lia..].
  - split_and!; apply positive_or_default; reflexivity.
Qed.

(** ** What a thread accounts for *)

Inductive gauge : Type := GSem (t : token) | GInUse | GTotalInUse | GSharedInUse | GWaiters.

Definition per_subsystem (g : gauge) : bool := match g with GSem TSub | GInUse => true | _ => false end.

Definition gauge_value (s : subsystem) (g : gauge) (p : pool) : Z :=
  match g with
  | GSem t => sem_len s t p
  | GInUse => tr_inUse (pl_subsystems p s)
  | GTotalInUse => pl_totalInUse p
  | GSharedInUse => pl_sharedInUse p
  | GWaiters => pl_ingesterWaiters p
  end.

#[export] Instance reject_reason_eq_dec : EqDecision reject_reason.
Proof. solve_decision. Defined.
#[export] Instance pool_op_eq_dec : EqDecision pool_op.
Proof. solve_decision. Defined.

Definition mem_op (o : pool_op) (ops : list pool_op) : bool := existsb (fun x => bool_decide (x = o)) ops.

(** The permit of a subsystem is a token of each semaphore it uses. *)
Definition full_permit (s : subsystem) (t : token) : bool := match t with TShared => uses_shared s | _ => true end.

Definition holds (t : token) (th : thread) : bool :=
  match th_pc th with
  | SharedTry | SharedWait => bool_decide (t = TSub)
  | TotalTry | TotalWait => negb (bool_decide (t = TTotal))
  | IngSub _ => bool_decide (t = TTotal)
  | Hold | Ops _ KHold => full_permit (th_sub th) t
  | Ops ops _ => mem_op (Give t) ops
  | _ => false
  end.

(** A gauge that finishAcquire raises with [up] and the release lowers with [down]. *)
Definition raised (up down : pool_op) (th : thread) : bool :=
  match th_pc th with
  | Hold => true
  | Ops ops KHold => negb (mem_op up ops)
  | Ops ops KRelease => mem_op down ops
  | _ => false
  end.

Definition waits (th : thread) : bool :=
  match th_pc th with
  | IngWait | IngSub true => true
  | Ops ops _ => mem_op (AddWaiters (-1)) ops
  | _ => false
  end.

Definition accounts_for (g : gauge) (th : thread) : bool :=
  match g with
  | GSem t => holds t th
  | GInUse => raised (AddInUse 1) (AddInUse (-1)) th
  | GTotalInUse => raised (AddTotalInUse 1) (AddTotalInUse (-1)) th
  | GSharedInUse => uses_shared (th_sub th) && raised (AddSharedInUse 1) (AddSharedInUse (-1)) th
  | GWaiters => waits th
  end.

Definition mine (s : subsystem) (g : gauge) (th : thread) : bool :=
  accounts_for g th && (negb (per_subsystem g) || bool_decide (th_sub th = s)).

(** ** The places a thread can be at *)

Fixpoint tails {A} (l : list A) : list (list A) := l :: match l with [] => [] | _ :: l' => tails l' end.

(** The operation lists of abandon: what is given back, why, and whether the
    thread had registered as a waiting ingester. *)
Definition cancel_plan (gs : list token) (waited : bool) : list pool_op :=
  ((Give <$> gs) ++ [AddWait]) ++ (if waited then [AddWaiters (-1)] else []).
Definition reject_plan (gs : list token) (r : reject_reason) (waited : bool) : list pool_op :=
  ((Give <$> gs) ++ [AddWait]) ++ [AddRejected; MakeError r] ++ (if waited then [AddWaiters (-1)] else []).

Definition plans (s : subsystem) (k : kont) : list (list pool_op) :=
  match k with
  | KHold => finishAcquire s false :: (if uses_shared s then [] else [finishAcquire s true])
  | KRelease => [release_ops s]
  | KCancel => if uses_shared s then (fun gs => cancel_plan gs false) <$> [[]; [TSub]; [TShared; TSub]] else [cancel_plan [] true]
  | KReject => if uses_shared s then [reject_plan [] subsystem_cap false; reject_plan [TSub] shared_cap false; reject_plan [TShared; TSub] total_cap false]
               else [reject_plan [] subsystem_cap true]
  end.

Definition places (s : subsystem) (k : kont) : list (list pool_op) := plans s k ≫= tails.

Definition placed (th : thread) : Prop :=
  match th_pc th with
  | SubTry | SubWait | SharedTry | SharedWait | TotalTry | TotalWait => uses_shared (th_sub th) = true
  | IngTry | IngWait | IngSub _ => uses_shared (th_sub th) = false
  | Ops ops k => ops ∈ places (th_sub th) k
  | Hold | Done _ => True
  end.

(** ** One operation *)

Definition gauge_of (t : token) (g : gauge) : bool :=
  match t, g with TSub, GSem TSub | TShared, GSem TShared | TTotal, GSem TTotal => true | _, _ => false end.

(** What an operation adds to a gauge. *)
Definition op_delta (op : pool_op) (g : gauge) : Z :=
  match op, g with
  | Give t, g => if gauge_of t g then -1 else 0
  | AddInUse d, GInUse | AddTotalInUse d, GTotalInUse | AddSharedInUse d, GSharedInUse | AddWaiters d, GWaiters => d
  | _, _ => 0
  end.

Lemma sem_add_gauge s s' t d g p :
  gauge_value s' g (sem_add s t d p) =
  gauge_value s' g p + (if (gauge_of t g && (negb (per_subsystem g) || bool_decide (s = s')))%bool then d else 0).
Proof.
  destruct t, g as [[]| | | |]; cbn; try lia; unfold upd_tracker; cbn; destruct (decide (s' = s)) as [->|Hn]; cbn;
    rewrite ?(bool_decide_true (s = s)) by done; rewrite ?(bool_decide_false (s = s')) by (by intros ->); cbn; lia.
Qed.

Lemma op_exec_gauge b now op th p s g :
  gauge_value s g (op_exec b now op th p).2 =
  gauge_value s g p + (if (negb (per_subsystem g) || bool_decide (th_sub th = s))%bool then op_delta op g else 0).
Proof.
  destruct op as [| | |d|d|d|d|t|r]; cbn [op_exec snd].
  8: { rewrite sem_add_gauge. cbn [op_delta]. destruct (gauge_of t g); cbn [andb]; [done|]. by destruct (_ || _). }
  all: destruct (decide (s = th_sub th)) as [->|Hn];
    [rewrite bool_decide_true by done|rewrite bool_decide_false by congruence].
  all: destruct g as [[]| | | |]; cbn; unfold upd_tracker; cbn; try lia.
  all: first [rewrite decide_True by done|rewrite decide_False by done]; cbn; lia.
Qed.

Lemma op_exec_thread b now op th p : th_sub (op_exec b now op th p).1 = th_sub th /\ th_pc (op_exec b now op th p).1 = th_pc th.
Proof. by destruct op. Qed.

(** The accounts only depend on the subsystem and the place. *)
Definition place (s : subsystem) (c : pc) : thread := mkThread s 0 None c.
Lemma accounts_place g th : accounts_for g th = accounts_for g (place (th_sub th) (th_pc th)).
Proof. by destruct g. Qed.

Definition gauges : list gauge := [GSem TSub; GSem TShared; GSem TTotal; GInUse; GTotalInUse; GSharedInUse; GWaiters].
Lemma gauge_listed g : In g gauges.
Proof. destruct g as [[]| | | |]; cbn; auto 10. Qed.

Definition konts : list kont := [KHold; KReject; KCancel; KRelease].

(** An operation changes a gauge by what the thread stops or starts accounting for. *)
Definition op_balanced (s : subsystem) (k : kont) (ops : list pool_op) : bool :=
  match ops with
  | [] => true
  | op :: rest =>
      forallb (fun g => Z.b2z (accounts_for g (place s (Ops rest k))) =? Z.b2z (accounts_for g (place s (Ops ops k))) + op_delta op g) gauges &&
      existsb (fun x => bool_decide (x = rest)) (places s k)
  end.

Lemma ops_balanced : forallb (fun s => forallb (fun k => forallb (op_balanced s k) (places s k)) konts) AllSubsystems = true.
Proof. vm_compute. reflexivity. Qed.

Lemma op_balance s k op ops g : op :: ops ∈ places s k ->
  Z.b2z (accounts_for g (place s (Ops ops k))) = Z.b2z (accounts_for g (place s (Ops (op :: ops) k))) + op_delta op g /\ ops ∈ places s k.
Proof.
  intros Hin. pose proof ops_balanced as H. rewrite forallb_forall in H. specialize (H s). rewrite forallb_forall in H.
  assert (Hs : In s AllSubsystems) by (destruct s; cbn; auto 10). assert (Hk : In k konts) by (destruct k; cbn; auto 10).
  specialize (H Hs k Hk). rewrite forallb_forall in H. apply list_elem_of_In in Hin. specialize (H _ Hin). cbn [op_balanced] in H.
  apply andb_prop in H as [Hg Hr]. rewrite forallb_forall in Hg. specialize (Hg g (gauge_listed g)). apply Z.eqb_eq in Hg.
  split; [done|]. apply existsb_exists in Hr as (x & Hx & Heq). apply bool_decide_eq_true in Heq as ->. by apply list_elem_of_In.
Qed.

(** ** One step of a thread *)

Definition gauge_step (th th' : thread) (p p' : pool) : Prop :=
  placed th' /\ th_sub th' = th_sub th /\
  forall s g, gauge_value s g p' = gauge_value s g p + Z.b2z (mine s g th') - Z.b2z (mine s g th).

Lemma mine_scaled s g th : Z.b2z (mine s g th) =
  if (negb (per_subsystem g) || bool_decide (th_sub th = s))%bool then Z.b2z (accounts_for g th) else 0.
Proof. unfold mine. by destruct (accounts_for g th), (_ || _). Qed.

(** A step whose effect on the gauges is the change of the accounts. *)
Lemma gauge_step_intro th th' p p' : placed th' -> th_sub th' = th_sub th ->
  (forall s g, gauge_value s g p' = gauge_value s g p +
     (if (negb (per_subsystem g) || bool_decide (th_sub th = s))%bool then Z.b2z (accounts_for g th') - Z.b2z (accounts_for g th) else 0)) ->
  gauge_step th th' p p'.
Proof.
  intros Hp Hs H. split_and!; [done|done|]. intros s g. rewrite H, !mine_scaled, Hs. destruct (_ || _); lia.
Qed.

(** A step that only moves the thread. *)
Lemma gauge_step_move th c p : placed (at_pc c th) -> (forall g, accounts_for g (at_pc c th) = accounts_for g th) -> gauge_step th (at_pc c th) p p.
Proof. intros Hp H. apply gauge_step_intro; [done|done|]. intros s g. rewrite H. destruct (_ || _); lia. Qed.

(** A send on a semaphore. *)
Lemma gauge_step_take b th c t p p' : take b (th_sub th) t p = Some p' -> placed (at_pc c th) ->
  (forall g, Z.b2z (accounts_for g (at_pc c th)) = Z.b2z (accounts_for g th) + Z.b2z (gauge_of t g)) -> gauge_step th (at_pc c th) p p'.
Proof.
  unfold take. destruct (_ <? _); [|done]. intros [= <-] Hp H. apply gauge_step_intro; [done|done|]. intros s g.
  rewrite sem_add_gauge, H. destruct (gauge_of t g), (negb (per_subsystem g) || _); cbn; lia.
Qed.

Lemma tails_self {A} (l : list A) : l ∈ tails l.
Proof. destruct l; by left. Qed.
Lemma plan_place s k l : l ∈ plans s k -> l ∈ places s k.
Proof. intros H. apply list_elem_of_bind. exists l. split; [apply tails_self|done]. Qed.

(** The plans a thread enters. *)
Lemma plan_finish s waited : (waited = true -> uses_shared s = false) -> finishAcquire s waited ∈ places s KHold.
Proof.
  intros H. apply plan_place. destruct waited; [|by left]. cbn. rewrite (H eq_refl). right. by left.
Qed.
Lemma plan_release s : release_ops s ∈ places s KRelease.
Proof. apply plan_place. by left. Qed.

Definition gives_of (s : subsystem) (gs : list token) (r : reject_reason) (waited : bool) : Prop :=
  if uses_shared s then waited = false /\ (gs, r) ∈ [([], subsystem_cap); ([TSub], shared_cap); ([TShared; TSub], total_cap)]
  else waited = true /\ gs = [] /\ r = subsystem_cap.

Lemma plan_abandon gs r waited c th : gives_of (th_sub th) gs r waited -> placed (abandon gs r waited c th).
Proof.
  unfold gives_of. intros H. assert (Hp : cancel_plan gs waited ∈ places (th_sub th) KCancel /\ reject_plan gs r waited ∈ places (th_sub th) KReject).
  { split; apply plan_place; cbn [plans]; destruct (uses_shared (th_sub th)).
    1,3: destruct H as [-> H]; rewrite !elem_of_cons, elem_of_nil in H; destruct H as [[= -> ->]|[[= -> ->]|[[= -> ->]|[]]]]; cbn; set_solver.
    all: destruct H as (-> & -> & ->); by left. }
  destruct Hp as [H1 H2]. by destruct c.
Qed.

(** Giving up keeps the accounts: what is held is what will be given back. *)
Lemma abandon_keeps th gs r waited c p : placed th -> gives_of (th_sub th) gs r waited ->
  (forall t, holds t th = mem_op (Give t) (Give <$> gs)) -> waits th = waited ->
  (forall up down, raised up down th = false) -> gauge_step th (abandon gs r waited c th) p p.
Proof.
  intros Hp Hg Hh Hw Hr.
  assert (Hs : th_sub (abandon gs r waited c th) = th_sub th) by (by destruct c).
  apply gauge_step_intro; [by apply plan_abandon|done|]. intros s g.
  assert (Ha : accounts_for g (abandon gs r waited c th) = accounts_for g th).
  { rewrite (accounts_place g (abandon _ _ _ _ _)), Hs. unfold gives_of in Hg.
    assert (Hc : gs = [] \/ gs = [TSub] \/ gs = [TShared; TSub]).
    { destruct (uses_shared _); [destruct Hg as [_ Hg]; set_solver|destruct Hg as (_ & -> & _); by left]. }
    destruct g as [t| | | |]; cbn [accounts_for]; rewrite ?Hh, ?Hw, ?Hr, ?andb_false_r;
      destruct c, waited; cbn [abandon at_pc th_pc]; destruct Hc as [->|[->| ->]]; try destruct t; destruct (th_sub th); vm_compute; done. }
  rewrite Ha. destruct (_ || _); lia.
Qed.

(** Accounts of a thread at a known place. *)
Ltac by_place th E H := let g := fresh in intros g; rewrite (accounts_place g th), (accounts_place g (at_pc _ th)), E; cbn [at_pc th_sub th_pc];
  destruct g as [[]| | | |]; revert H; destruct (th_sub th); (vm_compute; done).
Ltac kept_at E := intros; unfold holds, waits, raised; rewrite E; repeat match goal with t : token |- _ => destruct t end; reflexivity.

Lemma try_take_gauge b t next full th p th' p' : placed (at_pc next th) -> placed (at_pc full th) ->
  (forall g, Z.b2z (accounts_for g (at_pc next th)) = Z.b2z (accounts_for g th) + Z.b2z (gauge_of t g)) ->
  (forall g, accounts_for g (at_pc full th) = accounts_for g th) ->
  try_take b t next full th p = (th', p') -> gauge_step th th' p p'.
Proof.
  intros Hn Hf Hg Hk. unfold try_take. destruct (take b (th_sub th) t p) eqn:E; intros [= <- <-]; [by eapply gauge_step_take|by apply gauge_step_move].
Qed.

Lemma wait_take_gauge b t next gs r waited c th p th' p' : placed th -> placed (at_pc next th) ->
  (forall g, Z.b2z (accounts_for g (at_pc next th)) = Z.b2z (accounts_for g th) + Z.b2z (gauge_of t g)) ->
  gives_of (th_sub th) gs r waited -> (forall t, holds t th = mem_op (Give t) (Give <$> gs)) -> waits th = waited ->
  (forall up down, raised up down th = false) ->
  wait_take b t next gs r waited c th p = Some (th', p') -> gauge_step th th' p p'.
Proof.
  intros Hp Hn Hg Hgs Hh Hw Hr H. destruct c; cbn [wait_take] in H.
  - destruct (take b (th_sub th) t p) as [p1|] eqn:E; [|done]. injection H as <- <-. by eapply gauge_step_take.
  - injection H as <- <-. by apply (abandon_keeps th gs r waited CtxDone p).
  - injection H as <- <-. by apply (abandon_keeps th gs r waited TimerFired p).
Qed.

Lemma gives_elem s gs r : uses_shared s = true -> (gs, r) ∈ [([], subsystem_cap); ([TSub], shared_cap); ([TShared; TSub], total_cap)] ->
  gives_of s gs r false.
Proof. unfold gives_of. by intros ->. Qed.

Lemma add_waiter_gauge s g p : gauge_value s g (add_waiter p) = gauge_value s g p + (match g with GWaiters => 1 | _ => 0 end).
Proof. destruct g as [[]| | | |]; cbn; lia. Qed.

Lemma thread_step_gauge b c now th p th' p' : placed th -> thread_step b c now th p = Some (th', p') -> gauge_step th th' p p'.
Proof.
  intros Hp H. pose proof Hp as Hu. unfold placed in Hu. unfold thread_step in H.
  destruct (th_pc th) as [| | | | | | | |waited|ops k| |o] eqn:E; try done.
  - (* SubTry *) destruct c; [..|done].
    + injection H as H. revert H. apply try_take_gauge; [done|done|by_place th E Hu|by_place th E Hu].
    + injection H as <- <-. apply gauge_step_move; [done|by_place th E Hu].
  - (* SubWait *) eapply wait_take_gauge in H; [done..|by_place th E Hu|apply gives_elem; [done|set_solver]|kept_at E|kept_at E|kept_at E].
  - (* SharedTry *) destruct c; [|done..]. destruct (take b (th_sub th) TShared p) as [p1|] eqn:Et.
    + injection H as <- <-. eapply gauge_step_take; [done|done|by_place th E Hu].
    + destruct (_ <=? 0); injection H as <- <-.
      * apply (abandon_keeps th [TSub] shared_cap false TimerFired p); [done|apply gives_elem; [done|set_solver]|kept_at E|kept_at E|kept_at E].
      * apply gauge_step_move; [done|by_place th E Hu].
  - (* SharedWait *) eapply wait_take_gauge in H; [done..|by_place th E Hu|apply gives_elem; [done|set_solver]|kept_at E|kept_at E|kept_at E].
  - (* TotalTry *) destruct c; [|done..]. injection H as H. revert H. apply try_take_gauge; [by apply plan_finish|done|by_place th E Hu|by_place th E Hu].
  - (* TotalWait *) eapply wait_take_gauge in H; [done..|by apply plan_finish|by_place th E Hu|apply gives_elem; [done|set_solver]|kept_at E|kept_at E|kept_at E].
  - (* IngTry *) destruct c; [|done..]. destruct (take b (th_sub th) TTotal p) as [p1|] eqn:Et; injection H as <- <-.
    + eapply gauge_step_take; [done|done|by_place th E Hu].
    + apply gauge_step_intro; [done|done|]. intros s g. rewrite add_waiter_gauge, (accounts_place g th), (accounts_place g (at_pc _ th)), E.
      cbn [at_pc th_sub th_pc]. destruct g as [[]| | | |]; cbn [per_subsystem negb orb]; try destruct (bool_decide (th_sub th = s)); cbn; lia.
  - (* IngWait *) eapply wait_take_gauge in H; [done..|by_place th E Hu| |kept_at E|kept_at E|kept_at E]. unfold gives_of. by rewrite Hu.
  - (* IngSub *) destruct c; [|done..]. destruct (take b (th_sub th) TSub p) as [p1|] eqn:Et; [|done]. injection H as <- <-.
    eapply gauge_step_take; [done|by apply plan_finish|destruct waited; by_place th E Hu].
  - (* Ops *) destruct ops as [|op ops]; (destruct c; [|done..]).
    + injection H as <- <-. apply gauge_step_move; [by destruct k; cbn; try destruct (th_err th)|].
      intros g. rewrite (accounts_place g th), (accounts_place g (at_pc _ th)), E. cbn [at_pc th_sub th_pc].
      destruct k; cbn [after_ops]; try destruct (th_err th); destruct g as [[]| | | |]; destruct (th_sub th); reflexivity.
    + pose proof (op_exec_gauge b now op th p) as Hx. pose proof (op_exec_thread b now op th p) as [Hs _].
      destruct (op_exec b now op th p) as [th1 p1]. injection H as <- <-. cbn in Hx, Hs.
      apply gauge_step_intro; [cbn; rewrite Hs; by destruct (op_balance _ _ _ _ GInUse Hu)|done|].
      intros s g. rewrite Hx, (accounts_place g th), (accounts_place g (at_pc _ th1)), E. cbn [at_pc th_sub th_pc]. rewrite Hs.
      destruct (op_balance _ _ _ _ g Hu) as [Hb _]. destruct (_ || _); lia.
Qed.

(** ** The invariant *)

Definition within_caps (b : PoolBudget) (p : pool) : Prop := forall s t, sem_len s t p <= sem_cap b s t.

Lemma take_caps b s t p p' : take b s t p = Some p' -> within_caps b p -> within_caps b p'.
Proof.
  unfold take. destruct (Z.ltb_spec (sem_len s t p) (sem_cap b s t)) as [Hlt|]; [|done]. intros [= <-] H s' t'.
  change (sem_len s' t' (sem_add s t 1 p)) with (gauge_value s' (GSem t') (sem_add s t 1 p)). rewrite sem_add_gauge. cbn [gauge_value].
  pose proof (H s' t'). destruct (gauge_of t (GSem t')) eqn:Eg; cbn [andb]; [|lia].
  assert (t' = t) as -> by (by destruct t, t'). destruct (negb (per_subsystem (GSem t)) || bool_decide (s = s')) eqn:Es; [|lia].
  destruct t; cbn in *; [|lia..]. apply bool_decide_eq_true in Es as ->. lia.
Qed.

Lemma op_caps b now op th p : within_caps b p -> within_caps b (op_exec b now op th p).2.
Proof.
  intros H s t. change (sem_len s t _) with (gauge_value s (GSem t) (op_exec b now op th p).2). rewrite op_exec_gauge. cbn [gauge_value].
  pose proof (H s t). assert (op_delta op (GSem t) <= 0) by (destruct op; cbn; try lia; destruct (gauge_of _ _); lia).
  destruct (_ || _); lia.
Qed.

Lemma thread_step_caps b c now th p th' p' : thread_step b c now th p = Some (th', p') -> within_caps b p -> within_caps b p'.
Proof.
  intros H Hc. unfold thread_step, wait_take, try_take in H.
  destruct (th_pc th) as [| | | | | | | |waited|[|op ops] k| |o]; try done;
    destruct c; try done;
    repeat match type of H with
    | context [take b ?s ?t p] => let E := fresh in destruct (take b s t p) eqn:E
    | context [if ?x then _ else _] => destruct x
    end; cbn in H; try done; try (injection H as <- <-; by (done || eapply take_caps)).
  pose proof (op_caps b now op th p Hc) as Ho. destruct (op_exec b now op th p) as [th1 p1]. by injection H as <- <-.
Qed.

Record pool_inv (b : PoolBudget) (s : psys) : Prop := {
  pi_placed : Forall placed (ps_threads s);
  pi_gauges : forall sub g, gauge_value sub g (ps_pool s) = cnt (mine sub g) (ps_threads s);
  pi_caps : within_caps b (ps_pool s) }.

Lemma pool_start_inv b : budget_ok b -> pool_inv b pool_start.
Proof.
  intros [H1 H2 H3 H4 _]. split; [done|by intros sub [[]| | | |]|]. intros s []; cbn; [|lia..].
  destruct (decide (s = Ingester)) as [->|Hn]; [lia|]. pose proof (H4 s Hn). lia.
Qed.

Lemma acquire_accounts tag sub now s g : mine s g (Acquire tag sub now) = false.
Proof.
  unfold mine. rewrite (accounts_place g). cbn [Acquire th_sub th_pc].
  destruct (trackerFor _); destruct g as [[]| | | |]; reflexivity.
Qed.

Lemma acquire_placed tag sub now : placed (Acquire tag sub now).
Proof. unfold placed, Acquire. cbn. by destruct (trackerFor _). Qed.

Lemma replace_inv b s i th th' p' : pool_inv b s -> ps_threads s !! i = Some th -> gauge_step th th' (ps_pool s) p' -> within_caps b p' ->
  pool_inv b (mkPsys p' (<[i := th']> (ps_threads s))).
Proof.
  intros [Hp Hg _] Hi (Hp' & _ & Hs) Hc. split; cbn; [by apply Forall_insert| |done].
  intros sub g. rewrite Hs, Hg, (cnt_insert _ _ _ th) by done. lia.
Qed.

Lemma release_gauge th th' p : release th = Some th' -> gauge_step th th' p p.
Proof.
  unfold release. destruct (th_pc th) eqn:E; try done. intros [= <-]. apply gauge_step_move; [apply plan_release|].
  intros g. rewrite (accounts_place g th), (accounts_place g (at_pc _ th)), E. cbn [at_pc th_sub th_pc].
  destruct g as [[]| | | |]; destruct (th_sub th); reflexivity.
Qed.

Lemma pool_step_inv b e s s' : pool_inv b s -> pool_step b e s = Some s' -> pool_inv b s'.
Proof.
  intros Hi H. pose proof Hi as [Hp Hg Hc]. destruct e as [tag sub now|i c now|i]; cbn [pool_step] in H.
  - injection H as <-. split; cbn; [apply Forall_app; split; [done|]; constructor; [apply acquire_placed|done]| |done].
    intros sub' g. by rewrite Hg, cnt_app, cnt_single, acquire_accounts, Z.add_0_r.
  - destruct (ps_threads s !! i) as [th|] eqn:E; [|done]. cbn in H.
    destruct (thread_step b c now th (ps_pool s)) as [[th' p']|] eqn:Es; [|done]. injection H as <-.
    eapply replace_inv; [done|done| |by eapply thread_step_caps]. eapply thread_step_gauge; [|done]. by eapply Forall_lookup_1.
  - destruct (ps_threads s !! i) as [th|] eqn:E; [|done]. cbn in H. destruct (release th) as [th'|] eqn:Er; [|done].
    injection H as <-. eapply replace_inv; [done|done|by apply release_gauge|done].
Qed.

Lemma pool_run_inv b es : forall s s', pool_inv b s -> pool_run b es s = Some s' -> pool_inv b s'.
Proof.
  induction es as [|e es IH]; intros s s' Hi H; cbn [pool_run] in H; [by injection H as <-|].
  destruct (pool_step b e s) as [s1|] eqn:E; [|done]. eapply IH; [|done]. by eapply pool_step_inv.
Qed.

(** ** The reserved floor *)

Definition releasing (th : thread) : bool :=
  uses_shared (th_sub th) && match th_pc th with Ops _ KRelease => true | _ => false end.
Definition ingester_slot (th : thread) : bool := negb (uses_shared (th_sub th)) && holds TTotal th.

(** What the places of a thread say about its tokens. *)
Definition tokens_nested (s : subsystem) (k : kont) (ops : list pool_op) : bool :=
  let h t := holds t (place s (Ops ops k)) in
  (negb (uses_shared s) && (negb (h TSub) || h TTotal)) ||
  (uses_shared s && (match k with KRelease => true | _ => negb (h TTotal) || h TShared end)).
Lemma places_nested : forallb (fun s => forallb (fun k => forallb (tokens_nested s k) (places s k)) konts) AllSubsystems = true.
Proof. vm_compute. reflexivity. Qed.

Lemma place_nested s k ops : ops ∈ places s k -> tokens_nested s k ops = true.
Proof.
  intros Hin. pose proof places_nested as H. rewrite forallb_forall in H. specialize (H s). rewrite forallb_forall in H.
  assert (Hs : In s AllSubsystems) by (destruct s; cbn; auto 10). assert (Hk : In k konts) by (destruct k; cbn; auto 10).
  specialize (H Hs k Hk). rewrite forallb_forall in H. by apply H, list_elem_of_In.
Qed.

(** An ingester with its own token holds a slot; another subsystem with a slot holds a
    shared token until it releases. *)
Lemma nested th : placed th ->
  (uses_shared (th_sub th) = false -> holds TSub th = true -> holds TTotal th = true) /\
  (uses_shared (th_sub th) = true -> releasing th = false -> holds TTotal th = true -> holds TShared th = true).
Proof.
  intros Hp. unfold placed in Hp. unfold releasing. destruct (th_pc th) as [| | | | | | | |waited|ops k| |o] eqn:E.
  10: { pose proof (place_nested _ _ _ Hp) as Hn. unfold tokens_nested in Hn.
        assert (Hh : forall t, holds t th = holds t (place (th_sub th) (Ops ops k))) by (intros t; unfold holds; by rewrite E).
        rewrite !Hh. split.
        - intros Hu H1. rewrite Hu, H1 in Hn. cbn [negb andb orb] in Hn. by rewrite orb_false_r in Hn.
        - intros Hu Hr H1. rewrite Hu, H1 in Hn. rewrite Hu in Hr. by destruct k. }
  all: unfold holds; rewrite E; split; intros; (done || by rewrite ?Hp in * || idtac).
  all: try (by destruct (th_sub th)).
Qed.

Lemma total_split l : cnt (holds TTotal) l =
  cnt ingester_slot l + (cnt (fun th => releasing th && holds TTotal th) l + cnt (fun th => uses_shared (th_sub th) && negb (releasing th) && holds TTotal th) l).
Proof.
  assert (Hr : forall th, releasing th = true -> uses_shared (th_sub th) = true) by (intros th H; by apply andb_prop in H as [H _]).
  induction l as [|th l IH]; [done|]. rewrite !cnt_cons, IH. change (ingester_slot th) with (negb (uses_shared (th_sub th)) && holds TTotal th). pose proof (Hr th) as Ht. clear Hr IH.
  destruct (uses_shared (th_sub th)), (releasing th); try (by specialize (Ht eq_refl)); destruct (holds TTotal th); cbn; lia.
Qed.

Lemma global_sem b s t : pool_inv b s -> t <> TSub -> sem_len Ingester t (ps_pool s) = cnt (holds t) (ps_threads s).
Proof.
  intros Hi Ht. change (sem_len Ingester t (ps_pool s)) with (gauge_value Ingester (GSem t) (ps_pool s)). rewrite (pi_gauges b s Hi).
  apply cnt_ext, list.Forall_forall. intros th _. unfold mine. cbn [accounts_for]. destruct t; [done|..]; cbn; by rewrite andb_true_r.
Qed.

Lemma floor_free b s : budget_ok b -> pool_inv b s -> cnt ingester_slot (ps_threads s) < pb_ingesterReserved b ->
  cnt (fun th => releasing th && holds TTotal th) (ps_threads s) = 0 -> pl_totalSem (ps_pool s) < pb_totalConns b.
Proof.
  intros Hb Hi Hlow Hnone. pose proof (global_sem b s TTotal Hi ltac:(done)) as Ht. cbn [sem_len] in Ht. rewrite Ht, total_split, Hnone.
  pose proof (pi_caps b s Hi Ingester TShared) as Hs. rewrite (global_sem b s TShared Hi) in Hs by done. cbn in Hs.
  assert (cnt (fun th => uses_shared (th_sub th) && negb (releasing th) && holds TTotal th) (ps_threads s) <= cnt (holds TShared) (ps_threads s)).
  { apply cnt_mono. eapply list.Forall_impl; [apply (pi_placed b s Hi)|]. intros th Hp H. apply andb_prop in H as [H Ht3].
    apply andb_prop in H as [Hu Hr]. apply negb_true_iff in Hr. by apply (proj2 (nested th Hp)). }
  rewrite (bo_shared b Hb) in Hs. lia.
Qed.

(** ** Releases run to their end *)

Lemma ops_run b ops k : forall s i th, ps_threads s !! i = Some th -> th_pc th = Ops ops k -> exists p' th',
  pool_run b (replicate (S (length ops)) (EvStep i Go 0)) s = Some (mkPsys p' (<[i := th']> (ps_threads s))) /\
  th_sub th' = th_sub th /\ th_pc th' = after_ops k th'.
Proof.
  induction ops as [|op ops IH]; intros s i th Hi E.
  - exists (ps_pool s), (at_pc (after_ops k th) th). cbn. rewrite Hi. cbn. unfold thread_step. rewrite E. cbn. split_and!; [done|done|]. by destruct k.
  - change (replicate (S (length (op :: ops))) (EvStep i Go 0)) with (EvStep i Go 0 :: replicate (S (length ops)) (EvStep i Go 0)).
    cbn [pool_run pool_step]. rewrite Hi. cbn [mbind option_bind]. unfold thread_step. rewrite E.
    destruct (op_exec_thread b 0 op th (ps_pool s)) as [Hs _]. destruct (op_exec b 0 op th (ps_pool s)) as [th1 p1]. cbn [fst] in Hs.
    cbn [mbind option_bind fst snd].
    set (s1 := mkPsys p1 (<[i := at_pc (Ops ops k) th1]> (ps_threads s))).
    assert (Hi1 : ps_threads s1 !! i = Some (at_pc (Ops ops k) th1)) by (apply list_lookup_insert_eq; by apply lookup_lt_Some in Hi).
    destruct (IH s1 i _ Hi1 eq_refl) as (p' & th' & Hr & Hs' & Hp'). exists p', th'. rewrite Hr. cbn [ps_threads s1].
    rewrite list_insert_insert_eq. split_and!; [done|by rewrite Hs'|done].
Qed.

Lemma pool_run_app b es1 : forall es2 s s1, pool_run b es1 s = Some s1 -> pool_run b (es1 ++ es2) s = pool_run b es2 s1.
Proof.
  induction es1 as [|e es1 IH]; intros es2 s s1 H; cbn in *; [by injection H as ->|].
  destruct (pool_step b e s) as [s2|]; [|done]. by apply IH.
Qed.

(** A step of a release that [s] has under way. *)
Definition release_step (s : psys) (e : pool_event) : Prop :=
  exists i th, e = EvStep i Go 0 /\ ps_threads s !! i = Some th /\ releasing th = true.

Definition others_kept (s s' : psys) : Prop :=
  forall i th, ps_threads s !! i = Some th -> releasing th = false -> ps_threads s' !! i = Some th.

Lemma cnt_pos_elem {A} (p : A -> bool) (l : list A) : 0 < cnt p l -> exists i x, l !! i = Some x /\ p x = true.
Proof.
  intros H. destruct (decide (Forall (fun x => p x = false) l)) as [Hn|Hn]; [rewrite cnt_none in H by done; lia|].
  apply neg_Forall_Exists_neg, list.Exists_exists in Hn as (x & Hx & Hp); [|solve_decision]. apply list_elem_of_lookup in Hx as [i Hi].
  exists i, x. split; [done|]. by destruct (p x).
Qed.

Lemma drain_releases b n : forall s, (Z.to_nat (cnt releasing (ps_threads s)) <= n)%nat -> exists es s',
  Forall (release_step s) es /\ pool_run b es s = Some s' /\ cnt releasing (ps_threads s') = 0 /\ others_kept s s' /\
  cnt ingester_slot (ps_threads s') = cnt ingester_slot (ps_threads s) /\ (cnt releasing (ps_threads s) = 0 -> es = []).
Proof.
  induction n as [|n IH]; intros s Hn; pose proof (cnt_nonneg releasing (ps_threads s)) as Hpos.
  { exists [], s. split_and!; (done || lia || by intros i th). }
  destruct (decide (cnt releasing (ps_threads s) = 0)) as [H0|H0]; [exists [], s; split_and!; (done || by intros i th)|].
  destruct (cnt_pos_elem releasing (ps_threads s) ltac:(lia)) as (i & th & Hi & Hr).
  pose proof Hr as Hr'. unfold releasing in Hr'. apply andb_prop in Hr' as [Hu Hk].
  destruct (th_pc th) as [| | | | | | | |waited|ops k| |o] eqn:E; try done. destruct k; try done.
  destruct (ops_run b ops KRelease s i th Hi E) as (p' & th' & Hrun & Hs & Hp). cbn [after_ops] in Hp.
  set (s1 := mkPsys p' (<[i := th']> (ps_threads s))) in *.
  assert (Hr1 : releasing th' = false) by (unfold releasing; by rewrite Hp, andb_false_r).
  assert (Hslot : ingester_slot th' = ingester_slot th) by (unfold ingester_slot; by rewrite Hs, Hu).
  assert (Hc : cnt releasing (ps_threads s1) = cnt releasing (ps_threads s) - 1) by (cbn; rewrite (cnt_insert _ _ _ th), Hr1, Hr by done; cbn; lia).
  destruct (IH s1 ltac:(lia)) as (es & s' & Hf & Hrun' & Hz & Hk' & Hsl & _).
  exists (replicate (S (length ops)) (EvStep i Go 0) ++ es), s'. split_and!.
  - apply Forall_app. split.
    + apply Forall_replicate. by exists i, th.
    + eapply list.Forall_impl; [exact Hf|]. intros e (j & thj & -> & Hj & Hrj). exists j, thj. split_and!; [done| |done].
      cbn in Hj. apply list_lookup_insert_Some in Hj as [(_ & <- & _)|[_ Hj]]; [by rewrite Hr1 in Hrj|done].
  - by rewrite (pool_run_app b _ _ _ _ Hrun).
  - done.
  - intros j thj Hj Hrj. apply Hk'; [|done]. cbn. rewrite list_lookup_insert_ne; [done|]. intros <-. rewrite Hi in Hj.
    injection Hj as <-. by rewrite Hr in Hrj.
  - rewrite Hsl. cbn. rewrite (cnt_insert _ _ _ th), Hslot by done. lia.
  - done.
Qed.

(** ** The theorems *)

(** The permits in use. *)
Definition in_use (q : subsystem -> bool) (th : thread) : bool :=
  q (th_sub th) && match th_pc th with Hold => true | _ => false end.
Definition finished (th : thread) : bool := match th_pc th with Done _ => true | _ => false end.

Lemma in_use_holds q t th : in_use q th = true -> holds t th = full_permit (th_sub th) t.
Proof. unfold in_use, holds. destruct (th_pc th); cbn; try done; by rewrite andb_false_r. Qed.

Lemma mine_sub sub th : mine sub (GSem TSub) th = holds TSub th && bool_decide (th_sub th = sub).
Proof. done. Qed.

Lemma finished_accounts sub g th : finished th = true -> mine sub g th = false.
Proof.
  unfold finished, mine. intros H. rewrite (accounts_place g). destruct (th_pc th); try done.
  destruct g as [[]| | | |]; try done. cbn; by rewrite andb_false_r.
Qed.

(** An ingester that got its slot does not wait for its own semaphore. *)
Lemma ingester_own_free b s i th waited : budget_ok b -> pool_inv b s -> ps_threads s !! i = Some th -> th_pc th = IngSub waited ->
  exists p', take b (th_sub th) TSub (ps_pool s) = Some p'.
Proof.
  intros Hb Hi Hth E. assert (Hp : placed th) by (eapply Forall_lookup_1; [apply (pi_placed b s Hi)|done]).
  pose proof Hp as Hu. unfold placed in Hu. rewrite E in Hu. assert (Hsub : th_sub th = Ingester) by (by destruct (th_sub th)).
  unfold take. rewrite Hsub. destruct (Z.ltb_spec (sem_len Ingester TSub (ps_pool s)) (sem_cap b Ingester TSub)) as [|Hge]; [by eexists|].
  exfalso. cbn [sem_cap] in Hge. rewrite (bo_ingester b Hb) in Hge.
  pose proof (pi_caps b s Hi Ingester TTotal) as Hc. rewrite (global_sem b s TTotal Hi) in Hc by done. cbn [sem_cap] in Hc.
  change (sem_len Ingester TSub (ps_pool s)) with (gauge_value Ingester (GSem TSub) (ps_pool s)) in Hge. rewrite (pi_gauges b s Hi) in Hge.
  enough (cnt (mine Ingester (GSem TSub)) (ps_threads s) < cnt (holds TTotal) (ps_threads s)) by lia.
  apply (cnt_lt _ _ _ th).
  - eapply list.Forall_impl; [apply (pi_placed b s Hi)|]. intros x Hx H. rewrite mine_sub in H. apply andb_prop in H as [H1 H2].
    apply bool_decide_eq_true in H2. apply (proj1 (nested x Hx)); [by rewrite H2|done].
  - by apply list_elem_of_lookup_2 in Hth.
  - rewrite mine_sub. unfold holds. by rewrite E.
  - unfold holds. by rewrite E.
Qed.

(** C19: over every interleaving of acquisitions, timeouts, cancellations and
    releases, every semaphore and in-use counter is the number of calls that
    account for it; no subsystem uses more than its limit, the subsystems other
    than the ingester no more than the shared part together, and all no more than
    the pool; an ingester with a slot never waits for its own semaphore; and when
    every call has ended nothing is left taken. *)
Theorem pool_permits_accounted (cfg : PoolBudgetConfig) (es : list pool_event) (s : psys) :
  let b := NewPoolBudget cfg in
  pool_run b es pool_start = Some s ->
  (forall sub t, sem_len sub t (ps_pool s) = cnt (mine sub (GSem t)) (ps_threads s)) /\
  (forall sub, tr_inUse (pl_subsystems (ps_pool s) sub) = cnt (mine sub GInUse) (ps_threads s)) /\
  (forall sub, cnt (in_use (fun q => bool_decide (q = sub))) (ps_threads s) <= pb_limit b sub) /\
  cnt (in_use uses_shared) (ps_threads s) <= pb_totalConns b - pb_ingesterReserved b /\
  cnt (in_use (fun _ => true)) (ps_threads s) <= pb_totalConns b /\
  (forall i th waited, ps_threads s !! i = Some th -> th_pc th = IngSub waited -> exists p', take b (th_sub th) TSub (ps_pool s) = Some p') /\
  (Forall (fun th => finished th = true) (ps_threads s) -> forall sub g, gauge_value sub g (ps_pool s) = 0).
Proof.
  intros b Hrun. pose proof (new_budget_ok cfg) as Hb. assert (Hi : pool_inv b s) by (eapply pool_run_inv; [by apply pool_start_inv|done]).
  pose proof (pi_gauges b s Hi) as Hg. pose proof (pi_caps b s Hi) as Hc.
  split_and!; [intros sub t; apply (Hg sub (GSem t))|intros sub; apply (Hg sub GInUse)| | | | |].
  - intros sub. specialize (Hc sub TSub). change (sem_len sub TSub (ps_pool s)) with (gauge_value sub (GSem TSub) (ps_pool s)) in Hc.
    rewrite Hg in Hc. etrans; [|exact Hc]. apply cnt_mono, list.Forall_forall. intros th _ H. rewrite mine_sub, (in_use_holds _ TSub th H).
    cbn. by apply andb_prop in H as [H _].
  - specialize (Hc Ingester TShared). rewrite (global_sem b s TShared Hi) in Hc by done. cbn [sem_cap] in Hc. rewrite (bo_shared b Hb) in Hc.
    etrans; [|exact Hc]. apply cnt_mono, list.Forall_forall. intros th _ H. rewrite (in_use_holds _ TShared th H). by apply andb_prop in H as [H _].
  - specialize (Hc Ingester TTotal). rewrite (global_sem b s TTotal Hi) in Hc by done. etrans; [|exact Hc].
    apply cnt_mono, list.Forall_forall. intros th _ H. by rewrite (in_use_holds _ TTotal th H).
  - intros i th waited. by apply ingester_own_free.
  - intros Hf sub g. rewrite Hg. apply cnt_none. eapply list.Forall_impl; [exact Hf|]. intros th. apply finished_accounts.
Qed.

(** C13: while the ingester holds fewer slots than are reserved for it, an
    acquisition of the ingester, waiting or new, finds a free slot as soon as the
    releases other subsystems have begun have run; when none has begun, at once. *)
Theorem ingester_floor_holds (cfg : PoolBudgetConfig) (es : list pool_event) (s : psys) :
  let b := NewPoolBudget cfg in
  pool_run b es pool_start = Some s -> cnt ingester_slot (ps_threads s) < pb_ingesterReserved b ->
  exists es' s', Forall (release_step s) es' /\ pool_run b es' s = Some s' /\
    (cnt releasing (ps_threads s) = 0 -> es' = []) /\
    forall i th now, ps_threads s !! i = Some th -> th_pc th = IngTry \/ th_pc th = IngWait ->
      ps_threads s' !! i = Some th /\
      exists waited p', thread_step b Go now th (ps_pool s') = Some (at_pc (IngSub waited) th, p').
Proof.
  intros b Hrun Hlow. pose proof (new_budget_ok cfg) as Hb. assert (Hi : pool_inv b s) by (eapply pool_run_inv; [by apply pool_start_inv|done]).
  destruct (drain_releases b _ s (Nat.le_refl _)) as (es' & s' & Hf & Hrun' & Hz & Hk & Hsl & Hnil).
  exists es', s'. split_and!; [done..|]. assert (Hi' : pool_inv b s') by (by eapply pool_run_inv).
  assert (Hfree : pl_totalSem (ps_pool s') < pb_totalConns b).
  { apply floor_free; [done|done|lia|]. pose proof (cnt_nonneg (fun th => releasing th && holds TTotal th) (ps_threads s')).
    assert (cnt (fun th => releasing th && holds TTotal th) (ps_threads s') <= cnt releasing (ps_threads s'))
      by (apply cnt_mono, list.Forall_forall; intros th _ H1; by apply andb_prop in H1 as [H1 _]). lia. }
  intros i th now Hth Hpc. split; [apply Hk; [done|]; unfold releasing; destruct Hpc as [->| ->]; apply andb_false_r|].
  assert (Ht : exists p', take b (th_sub th) TTotal (ps_pool s') = Some p').
  { unfold take. cbn [sem_len sem_cap]. destruct (Z.ltb_spec (pl_totalSem (ps_pool s')) (pb_totalConns b)); [by eexists|lia]. }
  destruct Ht as [p' Hp']. unfold thread_step, wait_take. destruct Hpc as [->| ->]; rewrite Hp'; cbn; by eexists _, _.
Qed.

(** ** Runs *)

Definition go (i n : nat) : list pool_event := replicate n (EvStep i Go 0).
(** Three connections, two of them reserved. *)
Definition small_pool : PoolBudgetConfig := mkPoolConfig 3 2 1 1 1 1 0 0 f64_0 0 0.

(** A reader holds the shared slot; a second one waits for it; an ingester works;
    the reader gives the shared token back and stops there; a third call of the
    ingester arrives. *)
Definition busy_history : list pool_event :=
  EvAcquire "" "api_read" 0 :: go 0 9 ++ EvAcquire "graphql" "api_read" 0 :: go 1 2 ++
  EvAcquire "" "ingester" 0 :: go 2 7 ++ [EvRelease 0] ++ go 0 2 ++ [EvAcquire "" "ingester" 0].

Definition pool_at (es : list pool_event) : psys := default pool_start (pool_run (NewPoolBudget small_pool) es pool_start).

Lemma pool_runs es : match pool_run (NewPoolBudget small_pool) es pool_start with Some _ => true | None => false end = true ->
  pool_run (NewPoolBudget small_pool) es pool_start = Some (pool_at es).
Proof. unfold pool_at. by destruct (pool_run _ es pool_start). Qed.

Lemma pool_permits_accounted_witness :
  pl_totalSem (ps_pool (pool_at busy_history)) = 2 /\
  cnt (in_use uses_shared) (ps_threads (pool_at busy_history)) <= 1 /\
  sem_len GraphQL TSub (ps_pool (pool_at busy_history)) = cnt (mine GraphQL (GSem TSub)) (ps_threads (pool_at busy_history)).
Proof.
  assert (Hrun : pool_run (NewPoolBudget small_pool) busy_history pool_start = Some (pool_at busy_history))
    by (apply pool_runs; vm_compute; reflexivity).
  destruct (pool_permits_accounted small_pool busy_history (pool_at busy_history) Hrun) as (H1 & _ & _ & H4 & _).
  split_and!; [vm_compute; reflexivity|exact H4|apply H1].
Defined.

(** A history in which readers stop after giving the shared token back. *)
Definition stalled_history : list pool_event :=
  EvAcquire "" "api_read" 0 :: go 0 9 ++ [EvRelease 0] ++ go 0 2 ++
  EvAcquire "" "graphql" 0 :: go 1 9 ++ [EvRelease 1] ++ go 1 2 ++
  EvAcquire "" "subscription" 0 :: go 2 9 ++ [EvRelease 2] ++ go 2 2 ++ [EvAcquire "" "ingester" 0].

Lemma ingester_floor_holds_witness : exists es' s', pool_run (NewPoolBudget small_pool) es' (pool_at stalled_history) = Some s' /\
  exists waited p', thread_step (NewPoolBudget small_pool) Go 0 (Acquire "" "ingester" 0) (ps_pool s') =
    Some (at_pc (IngSub waited) (Acquire "" "ingester" 0), p').
Proof.
  assert (Hrun : pool_run (NewPoolBudget small_pool) stalled_history pool_start = Some (pool_at stalled_history))
    by (apply pool_runs; vm_compute; reflexivity).
  assert (Hlow : cnt ingester_slot (ps_threads (pool_at stalled_history)) < pb_ingesterReserved (NewPoolBudget small_pool))
    by (vm_compute; reflexivity).
  assert (Hth : ps_threads (pool_at stalled_history) !! 3%nat = Some (Acquire "" "ingester" 0)) by (vm_compute; reflexivity).
  destruct (ingester_floor_holds small_pool stalled_history (pool_at stalled_history) Hrun Hlow) as (es' & s' & _ & H1 & _ & H2).
  destruct (H2 3%nat (Acquire "" "ingester" 0) 0 Hth) as [_ H3]; [left; reflexivity|]. exists es', s'. split; [exact H1|exact H3].
Defined.

(** The shared token goes back before the slot: readers between the two let the
    next ones in, and together they fill the pool. The ingester, which holds none
    of its two reserved slots, has to wait. *)
Lemma release_order_takes_reserved_slots :
  let s := pool_at stalled_history in
  let s' := default s (pool_run (NewPoolBudget small_pool) (go 3 1) s) in
  (pl_totalSem (ps_pool s), cnt ingester_slot (ps_threads s), th_pc <$> (ps_threads s' !! 3%nat)) = (3, 0, Some IngWait).
Proof. vm_compute. reflexivity. Qed.

(** ** Deferral *)

(** Two controllers with the same maximum, both under pressure all the time: the
    second is asked only when the first lets the job pass, and starts to count
    then. After the maximum the job is still deferred. *)
Definition both (b : PoolBudget) : list (option (string -> (Z * deferrals * deferrals) -> (bool * string) * (Z * deferrals * deferrals))) :=
  [Some (fun job '(now, a, c) => let '(r, a) := ShouldYield b true job now a in (r, (now, a, c)));
   Some (fun job '(now, a, c) => let '(r, c) := ShouldYield b true job now c in (r, (now, a, c)))].

Definition poll_at (b : PoolBudget) (now : Z) (w : Z * deferrals * deferrals) : (bool * string) * (Z * deferrals * deferrals) :=
  let '(_, a, c) := w in combinedYield (both b) "pruner" (now, a, c).

Lemma combined_deferral_doubles :
  let b := NewPoolBudget small_pool in
  let poll := fun (acc : list (bool * string) * (Z * deferrals * deferrals)) now => let '(r, w) := poll_at b now acc.2 in (acc.1 ++ [r], w) in
  (fold_left poll ((fun k => k * (5 * Minute)) <$> [1; 2; 3; 4; 5; 6; 7; 8]) ([], (0, mkDeferrals ∅ 0, mkDeferrals ∅ 0))).1.*1 =
  [true; true; true; true; true; true; false; true].
Proof. vm_compute. reflexivity. Qed.
