(* ===== verification/Replay.v ===== *)
(** * Replay (internal/replay/replay.go, internal/store/replay_postgres.go)

    The maintenance tool that decodes the stored XDR again and rewrites the decoded
    columns, batch by batch, with its progress in the batch's transaction. The run is
    written over the class [ReplayStore]; the Postgres tables implement it, with
    statements that fail and a context that is cancelled when a script says so. The
    decoder is a function of the raw XDR, and the text jsonb gives back is one of
    the text it was given. *)

From S2P Require Import Prelude GoStrings StoreErrors GoSort GoFloat GoJson GoJsonValue ActionAuditLaws Counting.
From stdpp Require Import sorting.
From Stdlib Require Import Ascii String.
Local Open Scope Z_scope.
Local Open Scope go_scope.

Local Notation length := List.length.

(** ** Data *)

Record DecodedEvent : Type := mkDecoded {
  de_ID : string;
  de_ContractID : string;
  de_Ledger : Z;
  de_Network : string;
  de_RawTopicXDR : list string;
  de_RawValueXDR : string;
  de_Topics : string;
  de_Value : string }.

Definition HasRawXDR (d : DecodedEvent) : bool :=
  negb (bool_decide (de_RawTopicXDR d = [])) || negb (bool_decide (de_RawValueXDR d = "")).

Record EventDecoding : Type := mkDecoding { ed_ID : string; ed_Topics : string; ed_Value : string }.

Record ReplayState : Type := mkReplayState {
  rs_FromLedger : Z;
  rs_ToLedger : Z;
  rs_LastEventID : string;
  rs_Processed : Z;
  rs_Changed : Z;
  rs_Skipped : Z;
  rs_Done : bool }.

Record ReplayOptions : Type := mkReplayOptions {
  ro_FromLedger : Z; ro_ToLedger : Z; ro_BatchSize : Z; ro_Restart : bool; ro_DryRun : bool }.

Definition maxLedger : Z := 2 ^ 40.

Definition ReplayOptions_applyDefaults (o : ReplayOptions) : ReplayOptions :=
  mkReplayOptions (ro_FromLedger o) (if ro_ToLedger o <=? 0 then maxLedger else ro_ToLedger o)
    (if ro_BatchSize o <=? 0 then 500 else ro_BatchSize o) (ro_Restart o) (ro_DryRun o).

Record Summary : Type := mkSummary {
  sm_Processed : Z; sm_Changed : Z; sm_Skipped : Z; sm_Failed : Z; sm_Completed : bool; sm_Resumed : bool }.
Definition no_summary : Summary := mkSummary 0 0 0 0 false false.

Inductive replay_error : Type := ReplayLocked | ReplayStoreErr (e : error).

(** ** The store *)

Class ReplayStore (W : Type) : Type := {
  rp_AcquireReplayLock : W -> result replay_error unit * W;
  rp_Release : W -> W;
  rp_GetReplayState : W -> result error ReplayState * W;
  rp_StartReplayState : Z -> Z -> W -> result error unit * W;
  rp_NextReplayBatch : Z -> Z -> string -> Z -> W -> result error (list DecodedEvent) * W;
  rp_CommitReplayBatch : list EventDecoding -> ReplayState -> W -> result error unit * W;
  rp_ctxErr : W -> bool * W }.

(** ** Comparing documents *)

Definition jsonEqual (a b : string) : bool :=
  if bool_decide (a = "") || bool_decide (b = "") then bool_decide (a = "") && bool_decide (b = "")
  else match Unmarshal_any a, Unmarshal_any b with
       | Some av, Some bv => DeepEqual av bv
       | _, _ => false
       end.

Section Replayer.
Context {W : Type} `{!ReplayStore W}.
(** decode.EventTopicsValue with the run's decoder. *)
Context (decode : list string -> string -> result string (string * string)).
Context (o : ReplayOptions).

(** ** One batch *)

Definition decode_event (e : DecodedEvent) (sum : Summary) : Summary * list EventDecoding :=
  let sum := mkSummary (sm_Processed sum + 1) (sm_Changed sum) (sm_Skipped sum) (sm_Failed sum) (sm_Completed sum) (sm_Resumed sum) in
  if negb (HasRawXDR e) then
    (mkSummary (sm_Processed sum) (sm_Changed sum) (sm_Skipped sum + 1) (sm_Failed sum) (sm_Completed sum) (sm_Resumed sum), [])
  else
    match decode (de_RawTopicXDR e) (de_RawValueXDR e) with
    | Err _ => (mkSummary (sm_Processed sum) (sm_Changed sum) (sm_Skipped sum) (sm_Failed sum + 1) (sm_Completed sum) (sm_Resumed sum), [])
    | Ok (topics, value) =>
        if jsonEqual topics (de_Topics e) && jsonEqual value (de_Value e) then (sum, [])
        else (mkSummary (sm_Processed sum) (sm_Changed sum + 1) (sm_Skipped sum) (sm_Failed sum) (sm_Completed sum) (sm_Resumed sum),
              [mkDecoding (de_ID e) topics value])
    end.

Fixpoint decodeBatch (events : list DecodedEvent) (sum : Summary) : Summary * list EventDecoding :=
  match events with
  | [] => (sum, [])
  | e :: rest =>
      let '(sum, here) := decode_event e sum in
      let '(sum, more) := decodeBatch rest sum in
      (sum, (here ++ more)%list)
  end.

(** ** The run *)

Definition commit (rewrites : list EventDecoding) (cursor : string) (sum : Summary) (done : bool) (w : W) : result error unit * W :=
  rp_CommitReplayBatch rewrites
    (mkReplayState (ro_FromLedger o) (ro_ToLedger o) cursor (sm_Processed sum) (sm_Changed sum) (sm_Skipped sum) done) w.

Definition resume (w : W) : result error (string * Summary) * W :=
  if ro_DryRun o then (Ok ("", no_summary), w)
  else
    let fresh w := let '(r, w) := rp_StartReplayState (ro_FromLedger o) (ro_ToLedger o) w in
                   (match r with Ok _ => Ok ("", no_summary) | Err e => Err e end, w) in
    let '(r, w) := rp_GetReplayState w in
    match r with
    | Err e => if errors_Is e ErrNotFound then fresh w else (Err e, w)
    | Ok st =>
        if negb (ro_Restart o) && negb (rs_Done st) && (rs_FromLedger st =? ro_FromLedger o) && (rs_ToLedger st =? ro_ToLedger o) then
          (Ok (rs_LastEventID st, mkSummary (rs_Processed st) (rs_Changed st) (rs_Skipped st) 0 false true), w)
        else fresh w
    end.

Definition complete (sum : Summary) : Summary :=
  mkSummary (sm_Processed sum) (sm_Changed sum) (sm_Skipped sum) (sm_Failed sum) true (sm_Resumed sum).

(** An error with a cancelled context is an interruption. *)
Definition unless_cancelled (sum : Summary) (e : error) (w : W) : Summary * option error * W :=
  let '(c, w) := rp_ctxErr w in
  if (c : bool) then (sum, None, w) else (sum, Some e, w).

(** The loop over the batches; [fuel] bounds the batches, None when it runs out. *)
Fixpoint replay_loop (fuel : nat) (cursor : string) (sum : Summary) (w : W) : option (Summary * option error * W) :=
  match fuel with
  | O => None
  | S f =>
      let '(c, w) := rp_ctxErr w in
      if (c : bool) then Some (sum, None, w)
      else
        let '(r, w) := rp_NextReplayBatch (ro_FromLedger o) (ro_ToLedger o) cursor (ro_BatchSize o) w in
        match r with
        | Err e => Some (unless_cancelled sum e w)
        | Ok events =>
            match list.last events with
            | None =>
                let sum := complete sum in
                if ro_DryRun o then Some (sum, None, w)
                else
                  let '(r, w) := commit [] cursor sum true w in
                  Some (sum, match r with Ok _ => None | Err e => Some e end, w)
            | Some l =>
                let '(sum, rewrites) := decodeBatch events sum in
                let cursor := de_ID l in
                if ro_DryRun o then replay_loop f cursor sum w
                else
                  let '(r, w) := commit rewrites cursor sum false w in
                  match r with
                  | Ok _ => replay_loop f cursor sum w
                  | Err e => Some (unless_cancelled sum e w)
                  end
            end
        end
  end.

(** The lock is released when the run returns. *)
Definition Replayer_Run (fuel : nat) (w : W) : option (Summary * option replay_error * W) :=
  let '(r, w) := rp_AcquireReplayLock w in
  match r with
  | Err e => Some (no_summary, Some e, w)
  | Ok _ =>
      let '(r, w) := resume w in
      match r with
      | Err e => Some (no_summary, Some (ReplayStoreErr e), rp_Release w)
      | Ok (cursor, sum) =>
          match replay_loop fuel cursor sum w with
          | None => None
          | Some (sum, err, w) => Some (sum, match err with Some e => Some (ReplayStoreErr e) | None => None end, rp_Release w)
          end
      end
  end.
End Replayer.

(** ** The Postgres tables *)

Record RWorld : Type := mkRWorld {
  rw_events : list DecodedEvent;
  rw_state : option ReplayState;
  rw_locked : bool;
  rw_faults : list bool;
  rw_ctx : list bool }.

Definition pg_error : error := Sentinel NetError.

(** A statement: it fails when the script says so. *)
Definition pg_statement {A} (f : RWorld -> result error A * RWorld) (w : RWorld) : result error A * RWorld :=
  let w' := mkRWorld (rw_events w) (rw_state w) (rw_locked w) (tail (rw_faults w)) (rw_ctx w) in
  match rw_faults w with true :: _ => (Err pg_error, w') | _ => f w' end.

Definition with_rows (rows : list DecodedEvent) (st : option ReplayState) (w : RWorld) : RWorld :=
  mkRWorld rows st (rw_locked w) (rw_faults w) (rw_ctx w).
Definition with_lock (b : bool) (w : RWorld) : RWorld :=
  mkRWorld (rw_events w) (rw_state w) b (rw_faults w) (rw_ctx w).

Definition in_replay (from to : Z) (afterID : string) (e : DecodedEvent) : bool :=
  (from <=? de_Ledger e) && (de_Ledger e <=? to) && String.ltb afterID (de_ID e).

Definition NextReplayBatch (from to : Z) (afterID : string) (limit : Z) (rows : list DecodedEvent) : list DecodedEvent :=
  take (Z.to_nat limit) (sort_by de_ID (List.filter (in_replay from to afterID) rows)).

Section Postgres.
(** The text of a jsonb column after storing a text, None when it is no JSON. *)
Context (jsonb : string -> option string).

(** UPDATE events ... FROM data WHERE events.id = data.id: whatever the network;
    the first of several rewrites with the row's id. *)
Definition rewrite_row (rewrites : list EventDecoding) (e : DecodedEvent) : option DecodedEvent :=
  match List.find (fun d => bool_decide (ed_ID d = de_ID e)) rewrites with
  | None => Some e
  | Some d =>
      topics ← jsonb (ed_Topics d);
      value ← jsonb (ed_Value d);
      Some (mkDecoded (de_ID e) (de_ContractID e) (de_Ledger e) (de_Network e) (de_RawTopicXDR e) (de_RawValueXDR e) topics value)
  end.

(** The progress row adds what the batch's state carries to what it has. *)
Definition progress (st old : ReplayState) : ReplayState :=
  mkReplayState (rs_FromLedger old) (rs_ToLedger old) (rs_LastEventID st)
    (rs_Processed old + rs_Processed st) (rs_Changed old + rs_Changed st) (rs_Skipped old + rs_Skipped st)
    (rs_Done st || rs_Done old).

Definition CommitReplayBatch (rewrites : list EventDecoding) (st : ReplayState) (w : RWorld) : result error unit * RWorld :=
  match mapM (rewrite_row rewrites) (rw_events w) with
  | None => (Err (Sentinel (PgError "22P02")), w)
  | Some rows => (Ok tt, with_rows rows (progress st <$> rw_state w) w)
  end.

#[export] Instance postgres_replay : ReplayStore RWorld := {|
  rp_AcquireReplayLock w :=
    let '(r, w) := pg_statement (fun w => (Ok (rw_locked w), w)) w in
    match r with
    | Err e => (Err (ReplayStoreErr e), w)
    | Ok true => (Err ReplayLocked, w)
    | Ok false => (Ok tt, with_lock true w)
    end;
  rp_Release := with_lock false;
  rp_GetReplayState := pg_statement (fun w => (match rw_state w with Some st => Ok st | None => Err (Sentinel ErrNotFound) end, w));
  rp_StartReplayState from to := pg_statement (fun w => (Ok tt, with_rows (rw_events w) (Some (mkReplayState from to "" 0 0 0 false)) w));
  rp_NextReplayBatch from to after limit := pg_statement (fun w => (Ok (NextReplayBatch from to after limit (rw_events w)), w));
  rp_CommitReplayBatch rewrites st := pg_statement (CommitReplayBatch rewrites st);
  rp_ctxErr w := (default false (head (rw_ctx w)), mkRWorld (rw_events w) (rw_state w) (rw_locked w) (rw_faults w) (tail (rw_ctx w))) |}.
End Postgres.

(** * A replay reaches every row (internal/replay/replay.go)

    Over runs that fail, are interrupted and resumed, the rows up to the saved
    cursor carry the decoder's output; a run that reports completion leaves every
    row of its range with it, and a run over such rows writes none. *)


(** ** Order *)


Lemma not_ltb a b : String.ltb a b = false <-> str_le b a.
Proof. rewrite ltb_leb, negb_false_iff. done. Qed.

Section Props.
Context (decode : list string -> string -> result string (string * string)) (jsonb : string -> option string).

(** What jsonb gives back is the document it was given. *)
Hypothesis jsonb_keeps : forall t t', jsonb t = Some t' -> jsonEqual t t' = true.

(** ** Rows *)

(** The stored columns are what the decoder makes of the raw ones. *)
Definition current (e : DecodedEvent) : Prop :=
  HasRawXDR e = true -> forall t v, decode (de_RawTopicXDR e) (de_RawValueXDR e) = Ok (t, v) ->
  jsonEqual t (de_Topics e) = true /\ jsonEqual v (de_Value e) = true.

Definition same_raw (a b : DecodedEvent) : Prop :=
  de_ID b = de_ID a /\ de_ContractID b = de_ContractID a /\ de_Ledger b = de_Ledger a /\ de_Network b = de_Network a /\
  de_RawTopicXDR b = de_RawTopicXDR a /\ de_RawValueXDR b = de_RawValueXDR a.

Lemma same_raw_refl a : same_raw a a.
Proof. by unfold same_raw. Qed.
Lemma same_raw_trans a b c : same_raw a b -> same_raw b c -> same_raw a c.
Proof. unfold same_raw. intros (?&?&?&?&?&?) (?&?&?&?&?&?). split_and!; congruence. Qed.

Definition rewrite_of (e : DecodedEvent) : option EventDecoding :=
  if HasRawXDR e then
    match decode (de_RawTopicXDR e) (de_RawValueXDR e) with
    | Ok (t, v) => if jsonEqual t (de_Topics e) && jsonEqual v (de_Value e) then None else Some (mkDecoding (de_ID e) t v)
    | Err _ => None
    end
  else None.

Lemma decode_event_rewrite e sum : (decode_event decode e sum).2 = match rewrite_of e with Some d => [d] | None => [] end.
Proof.
  unfold decode_event, rewrite_of. destruct (HasRawXDR e); cbn; [|done].
  destruct (decode _ _) as [[t v]|]; [|done]. by destruct (_ && _).
Qed.

Lemma decodeBatch_rewrites es : forall sum, (decodeBatch decode es sum).2 = omap rewrite_of es.
Proof.
  induction es as [|e es IH]; intros sum; [done|]. cbn [decodeBatch]. pose proof (decode_event_rewrite e sum) as He.
  destruct (decode_event decode e sum) as [s1 here]. cbn in He. pose proof (IH s1) as Hm. destruct (decodeBatch decode es s1) as [s2 more].
  cbn in *. subst. by destruct (rewrite_of e).
Qed.

Lemma decodeBatch_completed es : forall sum, sm_Completed (decodeBatch decode es sum).1 = sm_Completed sum.
Proof.
  assert (Hd : forall e sum, sm_Completed (decode_event decode e sum).1 = sm_Completed sum).
  { intros e sum. unfold decode_event. destruct (HasRawXDR e); cbn; [|done]. destruct (decode _ _) as [[t v]|]; [|done]. by destruct (_ && _). }
  induction es as [|e es IH]; intros sum; [done|]. cbn [decodeBatch]. pose proof (Hd e sum) as He.
  destruct (decode_event decode e sum) as [s1 here]. cbn in He. pose proof (IH s1) as Hm. destruct (decodeBatch decode es s1) as [s2 more].
  cbn in *. congruence.
Qed.

Lemma rewrite_of_id e d : rewrite_of e = Some d -> ed_ID d = de_ID e.
Proof. unfold rewrite_of. destruct (HasRawXDR e); [|done]. destruct (decode _ _) as [[t v]|]; [|done]. destruct (_ && _); [done|]. by intros [= <-]. Qed.

Lemma rewrite_of_none e : current e <-> rewrite_of e = None.
Proof.
  unfold current, rewrite_of. destruct (HasRawXDR e); [|naive_solver]. destruct (decode _ _) as [[t v]|]; [|naive_solver].
  split.
  - intros H. destruct (H eq_refl t v eq_refl) as [-> ->]. done.
  - intros H _ t' v' [= <- <-]. destruct (jsonEqual t (de_Topics e)), (jsonEqual v (de_Value e)); done.
Qed.

(** The rewrite a row finds among those of a batch. *)
Lemma find_rewrite es e : NoDup (de_ID <$> es) ->
  List.find (fun d => bool_decide (ed_ID d = de_ID e)) (omap rewrite_of es) =
  match List.find (fun x => bool_decide (de_ID x = de_ID e)) es with Some x => rewrite_of x | None => None end.
Proof.
  induction es as [|x es IH]; intros Hnd; [done|]. cbn [fmap list_fmap] in Hnd. apply list.NoDup_cons in Hnd as [Hx Hnd].
  specialize (IH Hnd). cbn [omap list_omap List.find]. destruct (bool_decide (de_ID x = de_ID e)) eqn:E.
  - apply bool_decide_eq_true in E. destruct (rewrite_of x) as [d|] eqn:Er.
    + cbn [List.find]. rewrite (rewrite_of_id x d Er), bool_decide_true by done. done.
    + rewrite IH. destruct (List.find _ es) as [y|] eqn:Ey; [|done]. exfalso.
      apply find_some in Ey as [Hy Hid]. apply bool_decide_eq_true in Hid. apply Hx. rewrite E, <- Hid.
      by apply list_elem_of_fmap_2, list_elem_of_In.
  - destruct (rewrite_of x) as [d|] eqn:Er; [|done]. cbn [List.find]. rewrite (rewrite_of_id x d Er), E. done.
Qed.

(** ** A committed batch *)

Lemma rewrite_row_ok rewrites e e' : rewrite_row jsonb rewrites e = Some e' -> same_raw e e'.
Proof.
  unfold rewrite_row. destruct (List.find _ _) as [d|]; [|by intros [= <-]].
  destruct (jsonb (ed_Topics d)) as [t|]; [|done]. cbn. destruct (jsonb (ed_Value d)) as [v|]; [|done]. by intros [= <-].
Qed.

Lemma current_same_raw e e' : same_raw e e' -> current e -> de_Topics e' = de_Topics e -> de_Value e' = de_Value e -> current e'.
Proof.
  intros (_ & _ & _ & _ & Ht & Hv) H H1 H2. unfold current, HasRawXDR in *. by rewrite Ht, Hv, H1, H2.
Qed.

(** A row of the batch is current after it; any other row is as it was. *)
Lemma rewrite_row_current es e e' : NoDup (de_ID <$> es) -> rewrite_row jsonb (omap rewrite_of es) e = Some e' ->
  (e ∈ es -> current e') /\ ((forall x, x ∈ es -> de_ID x = de_ID e -> current x) -> e' = e).
Proof.
  intros Hnd H. pose proof (rewrite_row_ok _ _ _ H) as Hraw. unfold rewrite_row in H. rewrite find_rewrite in H by done. split.
  - intros He. destruct (List.find (fun x => bool_decide (de_ID x = de_ID e)) es) as [y|] eqn:Ey.
    2: { exfalso. apply list_elem_of_In in He. pose proof (find_none _ _ Ey e He) as Hn. cbn in Hn. by rewrite bool_decide_true in Hn. }
    assert (y = e) as ->.
    { apply find_some in Ey as [Hy Hid]. apply bool_decide_eq_true in Hid. apply list_elem_of_In in Hy.
      apply list_elem_of_lookup in He as [i Hi]. apply list_elem_of_lookup in Hy as [j Hj].
      assert (i = j) as ->; [|congruence]. eapply (NoDup_lookup _ i j (de_ID e)); [done|by rewrite list_lookup_fmap, Hi|].
      by rewrite list_lookup_fmap, Hj, <- Hid. }
    destruct (rewrite_of e) as [d|] eqn:Er.
    2: { injection H as <-. by apply rewrite_of_none. }
    destruct (jsonb (ed_Topics d)) as [t'|] eqn:Et; [|done]. cbn in H. destruct (jsonb (ed_Value d)) as [v'|] eqn:Ev; [|done].
    injection H as <-. unfold rewrite_of in Er. destruct (HasRawXDR e); [|done].
    destruct (decode (de_RawTopicXDR e) (de_RawValueXDR e)) as [[t v]|] eqn:Ed; [|done]. destruct (_ && _); [done|]. injection Er as <-.
    cbn in Et, Ev. intros _ t2 v2 H2. cbn in H2. rewrite Ed in H2. injection H2 as <- <-. cbn. split; by apply jsonb_keeps.
  - intros Hc. destruct (List.find (fun x => bool_decide (de_ID x = de_ID e)) es) as [y|] eqn:Ey; [|by injection H as <-].
    apply find_some in Ey as [Hy Hid]. apply bool_decide_eq_true in Hid. apply list_elem_of_In in Hy.
    specialize (Hc y Hy Hid). apply rewrite_of_none in Hc. rewrite Hc in H. by injection H as <-.
Qed.
(** ** A batch *)

Lemma NoDup_fmap_filter {A B} (f : A -> B) (p : A -> bool) (l : list A) : NoDup (f <$> l) -> NoDup (f <$> List.filter p l).
Proof.
  induction l as [|x l IH]; intros H; [done|]. cbn [fmap list_fmap] in H. apply list.NoDup_cons in H as [Hx H]. cbn [List.filter].
  destruct (p x); [|by apply IH]. cbn. apply list.NoDup_cons. split; [|by apply IH]. intros Hin. apply Hx.
  apply list_elem_of_fmap in Hin as (y & -> & Hy). apply list_elem_of_In, filter_In in Hy as [Hy _]. by apply list_elem_of_fmap_2, list_elem_of_In.
Qed.

Lemma in_replay_iff from to c x : in_replay from to c x = true <-> from <= de_Ledger x <= to /\ String.ltb c (de_ID x) = true.
Proof.
  unfold in_replay. split.
  - intros H. apply andb_prop in H as [H H1]. apply andb_prop in H as [H2 H3]. split; [lia|done].
  - intros [[H1 H2] ->]. apply Z.leb_le in H1, H2. by rewrite H1, H2.
Qed.

Lemma batch_elem from to c limit rows x : x ∈ NextReplayBatch from to c limit rows -> x ∈ rows /\ in_replay from to c x = true.
Proof.
  intros H. unfold NextReplayBatch in H. apply (subseteq_take) in H. rewrite sort_by_Permutation in H.
  apply list_elem_of_In, filter_In in H as [H1 H2]. split; [by apply list_elem_of_In|done].
Qed.

Lemma batch_NoDup from to c limit rows : NoDup (de_ID <$> rows) -> NoDup (de_ID <$> NextReplayBatch from to c limit rows).
Proof.
  intros H. unfold NextReplayBatch. rewrite fmap_take. eapply sublist_NoDup; [|apply sublist_take]. rewrite sort_by_Permutation.
  by apply NoDup_fmap_filter.
Qed.

(** Everything outstanding up to the last row of a batch is in it. *)
Lemma batch_prefix from to c limit rows l x : NoDup (de_ID <$> rows) -> list.last (NextReplayBatch from to c limit rows) = Some l ->
  x ∈ rows -> in_replay from to c x = true -> str_le (de_ID x) (de_ID l) -> x ∈ NextReplayBatch from to c limit rows.
Proof.
  intros Hnd Hl Hx Hin Hle. unfold NextReplayBatch in *. set (all := sort_by de_ID (List.filter (in_replay from to c) rows)) in *.
  assert (Hxa : x ∈ all) by (unfold all; rewrite sort_by_Permutation; apply list_elem_of_In, filter_In; split; [by apply list_elem_of_In|done]).
  assert (Hids : NoDup (de_ID <$> all)).
  { unfold all. rewrite sort_by_Permutation. by apply NoDup_fmap_filter. }
  assert (Hs : StronglySorted (key_le de_ID) all) by (apply StronglySorted_merge_sort; apply _).
  rewrite <- (take_drop (Z.to_nat limit) all) in Hxa, Hs, Hids. apply elem_of_app in Hxa as [Hxa|Hxa]; [done|]. exfalso.
  pose proof (last_Some_elem_of _ _ Hl) as Hle'.
  assert (Hge : str_le (de_ID l) (de_ID x)) by exact (StronglySorted_app_1_elem_of (key_le de_ID) _ _ _ _ Hs Hle' Hxa).
  rewrite fmap_app in Hids. apply list.NoDup_app in Hids as (_ & Hd & _).
  apply (Hd (de_ID l)); [by apply list_elem_of_fmap_2|]. rewrite (anti_symm str_le (de_ID l) (de_ID x) Hge Hle). by apply list_elem_of_fmap_2.
Qed.

Lemma batch_empty from to c limit rows x : 0 < limit -> list.last (NextReplayBatch from to c limit rows) = None -> x ∈ rows ->
  in_replay from to c x = false.
Proof.
  intros Hl Hn Hx. destruct (in_replay from to c x) eqn:E; [|done]. exfalso. apply last_None in Hn. unfold NextReplayBatch in Hn.
  assert (Hxa : x ∈ sort_by de_ID (List.filter (in_replay from to c) rows))
    by (rewrite sort_by_Permutation; apply list_elem_of_In, filter_In; split; [by apply list_elem_of_In|done]).
  destruct (sort_by de_ID _) as [|y all]; [by apply not_elem_of_nil in Hxa|]. destruct (Z.to_nat limit) eqn:Ez; [lia|done].
Qed.

(** ** What a cursor stands for *)

Definition covered (from to : Z) (c : string) (rows : list DecodedEvent) : Prop :=
  forall x, x ∈ rows -> from <= de_Ledger x <= to -> String.ltb "" (de_ID x) = true -> String.ltb c (de_ID x) = false -> current x.

Lemma covered_start from to rows : covered from to "" rows.
Proof. intros x _ _ H1 H2. by rewrite H1 in H2. Qed.

Definition committed (rewrites : list EventDecoding) (rows rows' : list DecodedEvent) : Prop :=
  Forall2 (fun e e' => rewrite_row jsonb rewrites e = Some e') rows rows'.

Lemma committed_origin rewrites rows rows' x' : committed rewrites rows rows' -> x' ∈ rows' ->
  exists x, x ∈ rows /\ rewrite_row jsonb rewrites x = Some x'.
Proof.
  intros H Hx. apply list_elem_of_lookup in Hx as [i Hi]. destruct (Forall2_lookup_r _ _ _ _ _ H Hi) as (x & Hx & Hr).
  exists x. split; [by apply list_elem_of_lookup_2 in Hx|done].
Qed.

Lemma committed_same_raw rewrites rows rows' : committed rewrites rows rows' -> Forall2 same_raw rows rows'.
Proof. intros H. eapply list.Forall2_impl; [exact H|]. intros e e'. apply rewrite_row_ok. Qed.

Lemma same_raw_ids rows rows' : Forall2 same_raw rows rows' -> de_ID <$> rows' = de_ID <$> rows.
Proof. induction 1 as [|x y l l' (H & _) _ IH]; [done|]. cbn. by rewrite H, IH. Qed.

Lemma covered_commit from to c limit rows rows' l : NoDup (de_ID <$> rows) -> covered from to c rows ->
  list.last (NextReplayBatch from to c limit rows) = Some l ->
  committed (omap rewrite_of (NextReplayBatch from to c limit rows)) rows rows' -> covered from to (de_ID l) rows'.
Proof.
  intros Hnd Hcov Hl Hc x' Hx' Hr' Hne' Hle'. destruct (committed_origin _ _ _ _ Hc Hx') as (x & Hx & Hrw).
  pose proof (batch_NoDup from to c limit rows Hnd) as Hb.
  destruct (rewrite_row_current _ _ _ Hb Hrw) as [Hcur Hsame]. destruct (rewrite_row_ok _ _ _ Hrw) as (Hid & _ & Hled & _).
  rewrite Hid in Hne', Hle'. rewrite Hled in Hr'. apply not_ltb in Hle'.
  destruct (String.ltb c (de_ID x)) eqn:E.
  - apply Hcur. apply (batch_prefix from to c limit rows l x); [done..| |done]. by apply in_replay_iff.
  - rewrite Hsame; [by apply Hcov|]. intros y Hy Hyid. apply batch_elem in Hy as [_ Hy]. apply in_replay_iff in Hy as [_ Hy].
    by rewrite Hyid, E in Hy.
Qed.

(** Rows that are current are not written. *)
Lemma commit_nothing from to c limit rows rows' : NoDup (de_ID <$> rows) ->
  (forall x, x ∈ rows -> from <= de_Ledger x <= to -> current x) ->
  committed (omap rewrite_of (NextReplayBatch from to c limit rows)) rows rows' -> rows' = rows.
Proof.
  intros Hnd Hall Hc. pose proof (batch_NoDup from to c limit rows Hnd) as Hb.
  assert (Hcb : forall x, x ∈ NextReplayBatch from to c limit rows -> current x).
  { intros x Hx. apply batch_elem in Hx as [Hx Hin]. apply in_replay_iff in Hin as [Hr _]. by apply Hall. }
  apply list_eq_Forall2. apply Forall2_flip. eapply list.Forall2_impl; [exact Hc|]. intros x x' Hrw.
  destruct (rewrite_row_current _ _ _ Hb Hrw) as [_ Hs]. rewrite Hs; [done|]. intros y Hy _. by apply Hcb.
Qed.
(** ** The loop *)

Context (o : ReplayOptions).
Hypothesis Hbatch : 0 < ro_BatchSize o.
Hypothesis Hwet : ro_DryRun o = false.

Local Abbreviation loop := (replay_loop (W := RWorld) (ReplayStore0 := postgres_replay jsonb) decode o).
Local Abbreviation from := (ro_FromLedger o).
Local Abbreviation to := (ro_ToLedger o).

Definition jsonb_accepts : Prop := forall ts x t v, decode ts x = Ok (t, v) -> exists t' v', jsonb t = Some t' /\ jsonb v = Some v'.

(** The saved progress of an unfinished run. *)
Definition resumable (w : RWorld) : Prop :=
  match rw_state w with
  | Some st => rs_Done st = false -> covered (rs_FromLedger st) (rs_ToLedger st) (rs_LastEventID st) (rw_events w)
  | None => True
  end.

Definition running (c : string) (w : RWorld) : Prop :=
  NoDup (de_ID <$> rw_events w) /\ covered from to c (rw_events w) /\
  exists st, rw_state w = Some st /\ rs_FromLedger st = from /\ rs_ToLedger st = to /\ rs_LastEventID st = c /\ rs_Done st = false.

Definition all_current (rows : list DecodedEvent) : Prop := forall x, x ∈ rows -> from <= de_Ledger x <= to -> current x.
Definition calm (w : RWorld) : Prop := rw_faults w = [] /\ rw_ctx w = [].

(** What a run from [w] leaves. *)
Record left_by (w : RWorld) (sum : Summary) (err : option error) (w' : RWorld) : Prop := {
  lb_raw : Forall2 same_raw (rw_events w) (rw_events w');
  lb_saved : resumable w';
  lb_done : sm_Completed sum = true ->
    forall x, x ∈ rw_events w' -> from <= de_Ledger x <= to -> String.ltb "" (de_ID x) = true -> current x;
  lb_same : all_current (rw_events w) -> rw_events w' = rw_events w;
  lb_calm : calm w -> jsonb_accepts -> sm_Completed sum = true /\ err = None }.

Definition same_tables (w w' : RWorld) : Prop :=
  rw_events w' = rw_events w /\ rw_state w' = rw_state w /\ (calm w -> calm w').

Lemma same_tables_trans a b c : same_tables a b -> same_tables b c -> same_tables a c.
Proof. intros (?&?&?) (?&?&?). split_and!; [congruence|congruence|auto]. Qed.

Lemma pg_cases {A} (f : RWorld -> result error A * RWorld) w r w' : pg_statement f w = (r, w') ->
  exists w1, same_tables w w1 /\ ((r = Err pg_error /\ w' = w1 /\ ~ calm w) \/ f w1 = (r, w')).
Proof.
  unfold pg_statement. intros H. set (w1 := mkRWorld _ _ _ _ _) in H. exists w1.
  assert (Hs : same_tables w w1) by (split_and!; [done|done|]; intros [H1 H2]; split; cbn; [by rewrite H1|done]).
  split; [done|]. destruct (rw_faults w) as [|[] fs] eqn:E; [by right| |by right]. injection H as <- <-. left. split_and!; [done|done|].
  intros [H1 _]. by rewrite E in H1.
Qed.

Lemma ctx_tables w : same_tables w (rp_ctxErr (ReplayStore := postgres_replay jsonb) w).2.
Proof. split_and!; [done|done|]. intros [H1 H2]. split; cbn; [done|by rewrite H2]. Qed.

Lemma resumable_same w w' : same_tables w w' -> resumable w -> resumable w'.
Proof. intros (H1 & H2 & _). unfold resumable. by rewrite H1, H2. Qed.

Lemma running_resumable c w : running c w -> resumable w.
Proof. intros (_ & Hc & st & E & Hf & Ht & Hl & Hd). unfold resumable. rewrite E, Hf, Ht, Hl. by intros _. Qed.

Lemma running_same c w w' : same_tables w w' -> running c w -> running c w'.
Proof. intros (H1 & H2 & _) H. unfold running. by rewrite H1, H2. Qed.

Lemma same_raw_list rows : Forall2 same_raw rows rows.
Proof. induction rows; constructor; [apply same_raw_refl|done]. Qed.

(** An end that leaves the tables alone. *)
Lemma left_same w w' sum err : same_tables w w' -> resumable w -> sm_Completed sum = false -> ~ calm w -> left_by w sum err w'.
Proof.
  intros Hs Hr Hc Hn. split; [destruct Hs as (-> & _); apply same_raw_list|by eapply resumable_same|by rewrite Hc|by destruct Hs as (-> & _)|done].
Qed.

Lemma same_raw_lists a b c : Forall2 same_raw a b -> Forall2 same_raw b c -> Forall2 same_raw a c.
Proof.
  intros H. revert c. induction H as [|x y a b Hxy _ IH]; intros c Hc; inversion Hc as [|? z ? c' Hyz Hrest]; subst; constructor.
  - by eapply same_raw_trans.
  - by apply IH.
Qed.

Lemma rewrite_nothing rows : mapM (rewrite_row jsonb []) rows = Some rows.
Proof. apply mapM_Some. induction rows; by constructor. Qed.

Lemma rewrites_accepted es rows : jsonb_accepts -> exists rows', mapM (rewrite_row jsonb (omap rewrite_of es)) rows = Some rows'.
Proof.
  intros Ha. destruct (mapM _ rows) as [rows'|] eqn:E; [by eexists|]. exfalso. apply mapM_None_1 in E.
  apply list.Exists_exists in E as (x & _ & E). unfold rewrite_row in E. destruct (List.find _ _) as [d|] eqn:Ed; [|done].
  apply find_some in Ed as [Hd _]. apply list_elem_of_In, list_elem_of_omap in Hd as (y & _ & Hy). unfold rewrite_of in Hy.
  destruct (HasRawXDR y); [|done]. destruct (decode _ _) as [[t v]|] eqn:Edec; [|done]. destruct (_ && _); [done|]. injection Hy as <-.
  destruct (Ha _ _ _ _ Edec) as (t' & v' & Ht & Hv). cbn in E. by rewrite Ht, Hv in E.
Qed.

(** A commit: it fails and leaves the tables, or writes the batch and its cursor. *)
Lemma commit_cases rewrites c sum done w r w' : commit (ReplayStore0 := postgres_replay jsonb) o rewrites c sum done w = (r, w') ->
  (exists e, r = Err e /\ same_tables w w' /\ (calm w -> mapM (rewrite_row jsonb rewrites) (rw_events w) = None)) \/
  (r = Ok tt /\ mapM (rewrite_row jsonb rewrites) (rw_events w) = Some (rw_events w') /\
   rw_state w' = progress (mkReplayState from to c (sm_Processed sum) (sm_Changed sum) (sm_Skipped sum) done) <$> rw_state w /\
   (calm w -> calm w')).
Proof.
  unfold commit. cbn [rp_CommitReplayBatch postgres_replay]. intros H. apply pg_cases in H as (w1 & Hs & [(-> & -> & Hn)|H]).
  - left. exists pg_error. split_and!; [done|done|]. intros Hc. by exfalso.
  - unfold CommitReplayBatch in H. pose proof Hs as (Hev & Hst & Hcalm). rewrite Hev in H.
    destruct (mapM _ (rw_events w)) as [rows|] eqn:E; injection H as <- <-.
    + right. cbn. rewrite Hst. split_and!; [done|done|done|]. intros Hc. specialize (Hcalm Hc). by destruct Hcalm.
    + left. eexists. by split_and!.
Qed.

Lemma outstanding_less c limit rows rows' l : NoDup (de_ID <$> rows) -> Forall2 same_raw rows rows' ->
  list.last (NextReplayBatch from to c limit rows) = Some l ->
  cnt (in_replay from to (de_ID l)) rows' < cnt (in_replay from to c) rows.
Proof.
  intros Hnd Hraw Hl.
  assert (Hcnt : cnt (in_replay from to (de_ID l)) rows' = cnt (in_replay from to (de_ID l)) rows).
  { clear Hl. induction Hraw as [|x y a b (Hid & _ & Hled & _) _ IH]; [done|]. cbn [fmap list_fmap] in Hnd. apply list.NoDup_cons in Hnd as [_ Hnd].
    rewrite !cnt_cons, (IH Hnd). unfold in_replay. by rewrite Hid, Hled. }
  rewrite Hcnt. apply last_Some_elem_of in Hl. apply batch_elem in Hl as [Hin Hc]. apply (cnt_lt _ _ _ l); [|done| |done].
  - apply list.Forall_forall. intros x _ Hx. apply in_replay_iff in Hx as [Hr Hx]. apply in_replay_iff. split; [done|].
    apply in_replay_iff in Hc as [_ Hc]. rewrite ltb_leb in *. apply negb_true_iff in Hx, Hc. apply negb_true_iff.
    destruct (String.leb (de_ID x) c) eqn:E; [|done]. exfalso.
    assert (Hle : str_le (de_ID l) c \/ str_le c (de_ID l)) by (apply str_le_total). unfold str_le in Hle.
    destruct Hle as [Hle|Hle]; [by rewrite Hc in Hle|].
    assert (Ht : str_le (de_ID x) (de_ID l)) by (eapply str_le_trans; [exact E|exact Hle]). unfold str_le in Ht. by rewrite Hx in Ht.
  - unfold in_replay. assert (String.ltb (de_ID l) (de_ID l) = false) as ->; [|by rewrite andb_false_r].
    apply not_ltb. destruct (str_le_total (de_ID l) (de_ID l)); done.
Qed.

Lemma not_calm_cancel w : (rp_ctxErr (ReplayStore := postgres_replay jsonb) w).1 = true -> ~ calm w.
Proof. cbn. intros H [_ Hc]. by rewrite Hc in H. Qed.

Lemma left_by_same w w1 sum err w' : same_tables w w1 -> left_by w1 sum err w' -> left_by w sum err w'.
Proof.
  intros (He & _ & Hc) [L1 L2 L3 L4 L5]. split; [by rewrite <- He|done|done|by rewrite <- He|auto].
Qed.

Lemma left_by_commit w w1 sum err w' : Forall2 same_raw (rw_events w) (rw_events w1) -> (all_current (rw_events w) -> rw_events w1 = rw_events w) ->
  (calm w -> calm w1) -> left_by w1 sum err w' -> left_by w sum err w'.
Proof.
  intros Hraw Hsame Hcalm [L1 L2 L3 L4 L5]. split; [|done|done| |auto].
  - by eapply same_raw_lists.
  - intros Hall. specialize (Hsame Hall). rewrite L4 by (by rewrite Hsame). done.
Qed.

Lemma replay_loop_left fuel : forall c sum w, sm_Completed sum = false -> running c w ->
  (Z.to_nat (cnt (in_replay from to c) (rw_events w)) < fuel)%nat ->
  exists sum' err w', loop fuel c sum w = Some (sum', err, w') /\ left_by w sum' err w'.
Proof.
  induction fuel as [|f IH]; intros c sum w Hsum Hrun Hfuel; [lia|]. cbn [replay_loop].
  pose proof (ctx_tables w) as Hs0. pose proof (not_calm_cancel w) as Hn0. destruct (rp_ctxErr w) as [[] w1].
  { eexists _, _, _. split; [done|]. apply left_same; [done|by eapply running_resumable|done|by apply Hn0]. }
  cbn [snd] in Hs0. destruct (rp_NextReplayBatch from to c (ro_BatchSize o) w1) as [r w2] eqn:En.
  cbn [rp_NextReplayBatch postgres_replay] in En. apply pg_cases in En as (w1' & Hs1 & En).
  assert (Hs01 : same_tables w w1') by (by eapply same_tables_trans).
  destruct En as [(-> & -> & Hn)|En].
  { unfold unless_cancelled. pose proof (ctx_tables w1') as Hs2. destruct (rp_ctxErr w1') as [b w3]. cbn [snd] in Hs2.
    assert (Hc : ~ calm w) by (intros Hc; by apply Hn, Hs0).
    destruct b; (eexists _, _, _; split; [done|]); (apply left_same; [by eapply same_tables_trans|by eapply running_resumable|done|done]). }
  injection En as <- <-. pose proof (running_same c w w1' Hs01 Hrun) as Hrun1.
  pose proof Hrun1 as (Hnd & Hcov & st & Hst & Hf & Ht & Hl & Hd).
  assert (Hw : forall sum' err w', left_by w1' sum' err w' -> left_by w sum' err w') by (intros; by eapply left_by_same).
  assert (Hfuel1 : (Z.to_nat (cnt (in_replay from to c) (rw_events w1')) < S f)%nat) by (by destruct Hs01 as (-> & _)).
  clear Hrun Hs0 Hs1 Hs01 Hfuel Hn0 w1. rename w1' into w1.
  destruct (list.last (NextReplayBatch from to c (ro_BatchSize o) (rw_events w1))) as [l|] eqn:El; rewrite Hwet.
  - pose proof (decodeBatch_rewrites (NextReplayBatch from to c (ro_BatchSize o) (rw_events w1)) sum) as Hrw.
    pose proof (decodeBatch_completed (NextReplayBatch from to c (ro_BatchSize o) (rw_events w1)) sum) as Hcm.
    destruct (decodeBatch decode _ sum) as [sum1 rewrites]. cbn in Hrw, Hcm. subst rewrites.
    destruct (commit _ _ _ _ _ w1) as [r w2] eqn:Ec. apply commit_cases in Ec as [(e & -> & Hs2 & Hnone)|(-> & Hmap & Hst2 & Hcalm)].
    + unfold unless_cancelled. pose proof (ctx_tables w2) as Hs3. destruct (rp_ctxErr w2) as [b w3]. cbn [snd] in Hs3.
      assert (Hend : forall err, left_by w1 sum1 err w3).
      { intros err. assert (Hs : same_tables w1 w3) by (by eapply same_tables_trans).
        destruct Hs as (He & Hst3 & _). split.
        - rewrite He. apply same_raw_list.
        - unfold resumable. rewrite Hst3, He. by apply (running_resumable c).
        - rewrite Hcm, Hsum. done.
        - by rewrite He.
        - intros Hc Ha. specialize (Hnone Hc). destruct (rewrites_accepted (NextReplayBatch from to c (ro_BatchSize o) (rw_events w1)) (rw_events w1) Ha) as [rows' Hr].
          by rewrite Hr in Hnone. }
      destruct b; (eexists _, _, _; split; [done|]); (apply Hw, Hend).
    + assert (Hcom : committed (omap rewrite_of (NextReplayBatch from to c (ro_BatchSize o) (rw_events w1))) (rw_events w1) (rw_events w2)) by (by apply mapM_Some).
      pose proof (committed_same_raw _ _ _ Hcom) as Hraw.
      assert (Hrun2 : running (de_ID l) w2).
      { split_and!; [by rewrite (same_raw_ids _ _ Hraw)|by eapply covered_commit|]. rewrite Hst2, Hst. cbn. eexists. split; [done|]. cbn. by rewrite Hf, Ht, Hd. }
      pose proof (outstanding_less c _ _ _ l Hnd Hraw El) as Hless. pose proof (cnt_nonneg (in_replay from to (de_ID l)) (rw_events w2)).
      destruct (IH (de_ID l) sum1 w2 ltac:(congruence) Hrun2 ltac:(lia)) as (sum' & err & w' & Hloop & Hleft).
      exists sum', err, w'. split; [exact Hloop|]. apply Hw. eapply left_by_commit; [exact Hraw| |exact Hcalm|exact Hleft].
      intros Hall. by eapply commit_nothing.
  - assert (Hall : forall x, x ∈ rw_events w1 -> from <= de_Ledger x <= to -> String.ltb "" (de_ID x) = true -> current x).
    { intros x Hx Hr Hne. apply Hcov; [done..|]. pose proof (batch_empty _ _ _ _ _ x Hbatch El Hx) as Hb.
      destruct (String.ltb c (de_ID x)) eqn:E; [|done]. rewrite <- not_true_iff_false in Hb. exfalso. by apply Hb, in_replay_iff. }
    destruct (commit _ _ _ _ _ w1) as [r w2] eqn:Ec. apply commit_cases in Ec. rewrite rewrite_nothing in Ec.
    eexists _, _, _. split; [done|]. apply Hw. destruct Ec as [(e & -> & Hs2 & Hnone)|(-> & Hmap & Hst2 & Hcalm)].
    + pose proof Hs2 as (He & Hst2 & _). split; [rewrite He; apply same_raw_list| |by rewrite He|by rewrite He|].
      * eapply resumable_same; [done|]. by apply (running_resumable c).
      * intros Hc _. by specialize (Hnone Hc).
    + injection Hmap as He. split; [rewrite <- He; apply same_raw_list| |by rewrite <- He|by rewrite <- He|done].
      unfold resumable. by rewrite Hst2, Hst.
Qed.

(** ** The run *)

Lemma resume_cases w r w' : NoDup (de_ID <$> rw_events w) -> resumable w ->
  resume (ReplayStore0 := postgres_replay jsonb) o w = (r, w') ->
  rw_events w' = rw_events w /\ (calm w -> calm w') /\
  match r with
  | Ok (c, sum) => running c w' /\ sm_Completed sum = false
  | Err _ => resumable w' /\ ~ calm w
  end.
Proof.
  intros Hnd Hres. unfold resume. rewrite Hwet.
  set (fresh := fun w0 : RWorld => let '(r0, w1) := rp_StartReplayState (ReplayStore := postgres_replay jsonb) from to w0 in
    (match r0 with Ok _ => Ok (EmptyString, no_summary) | Err e => Err e end, w1)).
  assert (Hfresh : forall w1 r w', same_tables w w1 -> fresh w1 = (r, w') ->
    rw_events w' = rw_events w /\ (calm w -> calm w') /\
    match r with Ok (c, sum) => running c w' /\ sm_Completed sum = false | Err _ => resumable w' /\ ~ calm w end).
  { intros w1 r1 w1' Hs. unfold fresh. cbn [rp_StartReplayState postgres_replay]. destruct (pg_statement _ w1) as [r2 w2] eqn:E.
    intros [= <- <-]. apply pg_cases in E as (w3 & Hs3 & [(-> & -> & Hn)|E]).
    - assert (Hs' : same_tables w w3) by (by eapply same_tables_trans). pose proof Hs' as (He & _ & Hc).
      split_and!; [done|done|by eapply resumable_same|]. intros Hw. by apply Hn, Hs.
    - injection E as <- <-. assert (Hs' : same_tables w w3) by (by eapply same_tables_trans). destruct Hs' as (He & _ & Hc). cbn.
      split_and!; [done| | |done].
      + intros Hw. specialize (Hc Hw). by destruct Hc.
      + split_and!; cbn; [by rewrite He|apply covered_start|by eexists]. }
  destruct (rp_GetReplayState (ReplayStore := postgres_replay jsonb) w) as [r1 w1] eqn:Eg. cbn [rp_GetReplayState postgres_replay] in Eg.
  apply pg_cases in Eg as (w2 & Hs & [(-> & -> & Hn)|Eg]).
  { cbn. intros [= <- <-]. pose proof Hs as (He & _ & Hc). split_and!; [done|done|by eapply resumable_same|done]. }
  pose proof Hs as (He & Hst & Hc). rewrite Hst in Eg. destruct (rw_state w) as [st|] eqn:E; injection Eg as <- <-.
  2: { cbn. by apply Hfresh. }
  destruct (negb (ro_Restart o) && negb (rs_Done st) && (rs_FromLedger st =? from) && (rs_ToLedger st =? to)) eqn:Em; [|by apply Hfresh].
  intros [= <- <-]. apply andb_prop in Em as [Em Ht]. apply andb_prop in Em as [Em Hf]. apply andb_prop in Em as [_ Hd].
  apply negb_true_iff in Hd. apply Z.eqb_eq in Hf, Ht. split_and!; [done|done| |done].
  split_and!; [by rewrite He| |by exists st]. unfold resumable in Hres. rewrite E in Hres. rewrite He, <- Hf, <- Ht. by apply Hres.
Qed.

Lemma lock_read w b w' : pg_statement (fun w => (Ok (rw_locked w), w)) w = (Ok b, w') -> b = rw_locked w.
Proof. unfold pg_statement. by destruct (rw_faults w) as [|[] fs]; intros [= <- _]. Qed.

Lemma replay_run fuel w : NoDup (de_ID <$> rw_events w) -> resumable w -> (length (rw_events w) < fuel)%nat ->
  exists sum err w', Replayer_Run (ReplayStore0 := postgres_replay jsonb) decode o fuel w = Some (sum, err, w') /\
    Forall2 same_raw (rw_events w) (rw_events w') /\ resumable w' /\
    (sm_Completed sum = true -> forall x, x ∈ rw_events w' -> from <= de_Ledger x <= to -> String.ltb "" (de_ID x) = true -> current x) /\
    (all_current (rw_events w) -> rw_events w' = rw_events w) /\
    (calm w -> rw_locked w = false -> jsonb_accepts -> sm_Completed sum = true /\ err = None /\ rw_locked w' = false).
Proof.
  intros Hnd Hres Hfuel. unfold Replayer_Run. destruct (rp_AcquireReplayLock (ReplayStore := postgres_replay jsonb) w) as [r w1] eqn:Ea.
  cbn [rp_AcquireReplayLock postgres_replay] in Ea. destruct (pg_statement _ w) as [r0 w0] eqn:Es.
  pose proof (fun b => lock_read w b w0) as Hlock. rewrite Es in Hlock.
  apply pg_cases in Es as (w2 & Hs & Es). pose proof Hs as (He & Hst & Hc).
  assert (Hquiet : forall w', rw_events w' = rw_events w -> rw_state w' = rw_state w -> Forall2 same_raw (rw_events w) (rw_events w') /\ resumable w').
  { intros w' H1 H2. split; [rewrite H1; apply same_raw_list|]. unfold resumable. by rewrite H1, H2. }
  destruct Es as [(-> & -> & Hn)|Es].
  { injection Ea as <- <-. destruct (Hquiet w2 He Hst). eexists _, _, _. by split_and!. }
  injection Es as <- <-. destruct (rw_locked w2) eqn:Elock.
  { injection Ea as <- <-. destruct (Hquiet w2 He Hst). eexists _, _, _. split_and!; try done. intros _ Hl.
    exfalso. specialize (Hlock true eq_refl). by rewrite Hl in Hlock. }
  injection Ea as <- <-. destruct (resume (ReplayStore0 := postgres_replay jsonb) o (with_lock true w2)) as [r w3] eqn:Er.
  apply resume_cases in Er as (He3 & Hc3 & Hr); [|cbn; by rewrite He|unfold resumable; cbn; by rewrite He, Hst].
  cbn [with_lock rw_events] in He3. destruct r as [[c sum]|e].
  2: { destruct Hr as [Hr Hn]. eexists _, _, _. split; [done|]. split_and!; [|done|done|by cbn; rewrite He3, He|].
       - cbn. rewrite He3, He. apply same_raw_list.
       - intros Hw. exfalso. by apply Hn, Hc. }
  destruct Hr as [Hrun Hsum].
  assert (Hcnt : (Z.to_nat (cnt (in_replay from to c) (rw_events w3)) < fuel)%nat).
  { rewrite He3, He. unfold cnt. pose proof (List.filter_length_le (in_replay from to c) (rw_events w)). lia. }
  destruct (replay_loop_left fuel c sum w3 Hsum Hrun Hcnt) as (sum' & err & w' & Hl & [L1 L2 L3 L4 L5]). rewrite Hl.
  rewrite He3, He in L1, L4. eexists _, _, _. split; [done|]. split_and!; [done|done|done|done|].
  intros Hw _ Ha. destruct (L5 ltac:(by apply Hc3, Hc) Ha) as [-> ->]. done.
Qed.
End Props.


(** ** Runs *)

Definition row (network id : string) (ledger : Z) (raw topics value : string) : DecodedEvent :=
  mkDecoded id "C" ledger network [raw] raw topics value.
(** A decoder whose output names its version. *)
Definition versioned (v : string) (ts : list string) (x : string) : result string (string * string) :=
  if bool_decide (x = "poison") then Err "poison" else Ok ("[" +++ v +++ "]", "[" +++ x +++ "]").
Definition plain_jsonb (t : string) : option string := if jsonEqual t t then Some t else None.

Definition old_rows : list DecodedEvent :=
  [row "default" "e3" 7 "33" "[1]" "[0]"; row "default" "e1" 5 "31" "[1]" "[0]"; row "default" "e2" 6 "poison" "[1]" "[0]";
   row "default" "e4" 9 "34" "[1]" "[0]"].
Definition replay_options : ReplayOptions := ReplayOptions_applyDefaults (mkReplayOptions 5 8 2 false false).
Definition replay_world (rows : list DecodedEvent) (faults ctx : list bool) : RWorld := mkRWorld rows None false faults ctx.
Definition columns (w : RWorld) : list (string * string * string) := (fun e => (de_ID e, de_Topics e, de_Value e)) <$> rw_events w.
Definition run_replay (version : string) (fuel : nat) (w : RWorld) : option (Summary * option replay_error * RWorld) :=
  Replayer_Run (ReplayStore0 := postgres_replay plain_jsonb) (versioned version) replay_options fuel w.

Example replay_demo :
  (fun r => (r.1.1, columns r.2)) <$> run_replay "2" 5 (replay_world old_rows [] []) =
  Some (mkSummary 3 2 0 1 true false, [("e3", "[2]", "[33]"); ("e1", "[2]", "[31]"); ("e2", "[1]", "[0]"); ("e4", "[1]", "[0]")]).
Proof. vm_compute. reflexivity. Qed.

Lemma replay_demo_completes sum err w' : run_replay "2" 5 (replay_world old_rows [] []) = Some (sum, err, w') -> sm_Completed sum = true.
Proof.
  intros H. assert (Hsum : (fun r => sm_Completed r.1.1) <$> run_replay "2" 5 (replay_world old_rows [] []) = Some true)
    by (vm_compute; reflexivity).
  rewrite H in Hsum. by injection Hsum.
Qed.


(** A run interrupted after its first batch, and its continuation with a newer
    decoder: the run reports completion with rows of both versions. *)
Lemma resumed_run_keeps_old_decodings :
  (fun r => (sm_Completed r.1.1, columns r.2)) <$>
    (r ← run_replay "2" 5 (replay_world (row "default" "e5" 8 "35" "[1]" "[0]" :: old_rows) [] [false; true]); run_replay "3" 6 r.2) =
  Some (true, [("e5", "[3]", "[35]"); ("e3", "[3]", "[33]"); ("e1", "[2]", "[31]"); ("e2", "[1]", "[0]"); ("e4", "[1]", "[0]")]).
Proof. vm_compute. reflexivity. Qed.

(** Every commit adds the run's totals to the saved ones: three rows in two batches
    and the closing commit are counted as eight. *)
Lemma progress_counts_batches_again :
  (fun r => (sm_Processed r.1.1, rs_Processed <$> rw_state r.2)) <$> run_replay "2" 5 (replay_world old_rows [] []) = Some (3, Some 8).
Proof. vm_compute. reflexivity. Qed.

(** Two networks with the same event id: both rows get the decoding of one of them. *)
Lemma replay_mixes_networks :
  (fun r => columns r.2) <$> run_replay "2" 5 (replay_world [row "a" "e1" 5 "31" "[1]" "[0]"; row "b" "e1" 5 "77" "[1]" "[0]"] [] []) =
  Some [("e1", "[2]", "[31]"); ("e1", "[2]", "[31]")].
Proof. vm_compute. reflexivity. Qed.

(** Numbers are compared as doubles: a corrected 64-bit number can look unchanged. *)
Lemma close_numbers_look_equal : jsonEqual "9007199254740993" "9007199254740992" = true.
Proof. vm_compute. reflexivity. Qed.

(** ** Dry runs *)

Lemma dry_loop_reads decode jsonb o fuel : ro_DryRun o = true -> forall c sum w r,
  replay_loop (ReplayStore0 := postgres_replay jsonb) decode o fuel c sum w = Some r -> rw_events r.2 = rw_events w /\ rw_state r.2 = rw_state w.
Proof.
  intros Hdry. induction fuel as [|f IH]; intros c sum w r H; [done|]. cbn [replay_loop] in H.
  pose proof (ctx_tables jsonb w) as (He0 & Hs0 & _). destruct (rp_ctxErr w) as [[] w1]; [by injection H as <-|]. cbn [snd] in He0, Hs0.
  destruct (rp_NextReplayBatch _ _ _ _ w1) as [r1 w2] eqn:En. cbn [rp_NextReplayBatch postgres_replay] in En.
  apply pg_cases in En as (w1' & (He1 & Hs1 & _) & En).
  assert (Htab : rw_events w2 = rw_events w /\ rw_state w2 = rw_state w).
  { destruct En as [(_ & -> & _)|En]; [split; congruence|]. injection En as _ <-. split; congruence. }
  destruct r1 as [events|e].
  - destruct (list.last events) as [l|]; rewrite Hdry in H.
    + destruct (decodeBatch decode events sum) as [s2 rw]. apply IH in H as [-> ->]. done.
    + by injection H as <-.
  - unfold unless_cancelled in H. pose proof (ctx_tables jsonb w2) as (He2 & Hs2 & _). destruct (rp_ctxErr w2) as [b w3]. cbn [snd] in He2, Hs2.
    destruct b; injection H as <-; cbn; split; (etrans; [eassumption|apply Htab]).
Qed.
