(* ===== verification/Webhook.v ===== *)
(** * Webhooks (internal/webhook/webhook.go)

    The matching of events with subscriptions, the bounded queue, the delivery with
    its retries, signatures and idempotency keys, and the subscription rows it
    counts failures in (internal/store/sqlite.go). The delivery returns the list of
    its effects next to the world. The JSON text of an event is an argument. *)

From S2P Require Import Prelude GoStrings Codec StoreErrors StoreTypes GoTime GoJson RpcTypes ReorgTracker Scope Broadcast ApiKey ActionAudit Counting.
From Stdlib Require Import Ascii String.
Local Open Scope Z_scope.
Local Open Scope go_scope.

Local Notation length := List.length.
Local Abbreviation SEvent := StoreTypes.Event.

(** ** Subscriptions *)

Record SubscriptionFilter : Type := mkSubFilter {
  sb_ContractID : string;
  sb_Type : string;
  sb_Topic : string;
  sb_TopicContains : string;
  sb_FromLedger : Z;
  sb_ToLedger : Z;
  sb_Network : string }.

Record Subscription : Type := mkSubscription {
  su_ID : Z; su_URL : string; su_Filters : SubscriptionFilter; su_Secret : string; su_Enabled : bool; su_FailureCount : Z }.

(** The elements of the topics are compared byte by byte; the stored topics are
    compact. *)
Definition SubscriptionFilter_MatchesEvent (f : SubscriptionFilter) (e : SEvent) : bool :=
  negb (nonempty (sb_Network f) && negb (bool_decide (Network e = sb_Network f))) &&
  negb (nonempty (sb_ContractID f) && negb (bool_decide (ContractID e = sb_ContractID f))) &&
  negb (nonempty (sb_Type f) && negb (bool_decide (Type_ e = sb_Type f))) &&
  negb ((0 <? sb_FromLedger f) && (Ledger e <? sb_FromLedger f)) &&
  negb ((0 <? sb_ToLedger f) && (sb_ToLedger f <? Ledger e)) &&
  (if nonempty (sb_Topic f) && nonempty (Topics e) then
     match raw_elements (Topics e) with
     | None => false
     | Some topics => existsb (fun t => bool_decide (t = sb_Topic f)) topics
     end
   else true).

(** The principal of the request that creates a subscription. *)
Record SubscriptionPrincipal : Type := mkSubPrincipal { sp_Untenanted : bool; sp_Scope : Scope }.

Inductive authorize_error : Type := Unauthenticated | ContractRequired | ForbiddenContract (contractID : string).

Definition authorizeSubscriptionFilters (p : option SubscriptionPrincipal) (f : SubscriptionFilter) : option authorize_error :=
  match p with
  | None => Some Unauthenticated
  | Some p =>
      if sp_Untenanted p || IsWildcard (sp_Scope p) then None
      else if negb (nonempty (sb_ContractID f)) then Some ContractRequired
      else if negb (Allows (sp_Scope p) (sb_ContractID f)) then Some (ForbiddenContract (sb_ContractID f))
      else None
  end.

(** ** The queue *)

Record deliveryTask : Type := mkTask { dt_Subscription : Subscription; dt_Event : SEvent; dt_OriginalTimestamp : Z }.

Definition WorkerQueueSize : Z := 4096.
Definition MaxDeliveryAttempts : Z := 5.

(** A send that does not wait: false when the queue is full. *)
Definition enqueue (t : deliveryTask) (q : list deliveryTask) : bool * list deliveryTask :=
  if Z.of_nat (length q) <? WorkerQueueSize then (true, (q ++ [t])%list) else (false, q).

Definition EnqueueReplay (sub : Subscription) (event : SEvent) (originalTimestamp : Z) (q : list deliveryTask) : bool * list deliveryTask :=
  enqueue (mkTask sub event originalTimestamp) q.

(** [subs] is the answer of ListEnabledSubscriptions. *)
Definition NotifyEvents (subs : result error (list Subscription)) (events : list SEvent) (q : list deliveryTask) : list deliveryTask :=
  match subs with
  | Err _ => q
  | Ok subs =>
      fold_left (fun q ev => fold_left (fun q sub =>
        if SubscriptionFilter_MatchesEvent (su_Filters sub) ev then (enqueue (mkTask sub ev time_zero) q).2 else q) subs q) events q
  end.

(** ** Signatures *)

Definition IdempotencyKey (subscriptionID : Z) (eventID : string) : string :=
  "sub-" +++ FormatInt subscriptionID +++ ":" +++ eventID.

Definition hmac_hex (secret text : string) : string := hex_encode (hmac_sha256 (str_bytes secret) (str_bytes text)).

Definition Sign (secret body : string) : string := hmac_hex secret body.

Definition newline : ascii := byte_of 10.
Definition delivery_text (idempotencyKey attempt timestamp body : string) : string :=
  idempotencyKey +++ String newline (attempt +++ String newline (timestamp +++ String newline body)).

Definition SignDelivery (secret idempotencyKey attempt timestamp body : string) : string :=
  if bool_decide (idempotencyKey = "") && bool_decide (attempt = "") && bool_decide (timestamp = "") then Sign secret body
  else hmac_hex secret (delivery_text idempotencyKey attempt timestamp body).

(** The headers of a delivery; the empty string when a header is missing. *)
Record delivery_headers : Type := mkHeaders {
  hd_IdempotencyKey : string;
  hd_SoroTrailIdempotencyKey : string;
  hd_DeliveryAttempt : string;
  hd_DeliveryTimestamp : string;
  hd_Signature : string }.

Definition VerifyDelivery (secret : string) (h : delivery_headers) (body : string) : bool :=
  if bool_decide (hd_Signature h = "") || bool_decide (hd_IdempotencyKey h = "") || bool_decide (hd_DeliveryAttempt h = "") ||
     bool_decide (hd_DeliveryTimestamp h = "") then false
  else if nonempty (hd_SoroTrailIdempotencyKey h) && negb (bool_decide (hd_SoroTrailIdempotencyKey h = hd_IdempotencyKey h)) then false
  else bool_decide (hd_Signature h = SignDelivery secret (hd_IdempotencyKey h) (hd_DeliveryAttempt h) (hd_DeliveryTimestamp h) body).

(** ** Delivery *)

Definition MaxBackoff : Z := 30 * Second.

(** The float power is exact for the attempts of a delivery. *)
Definition backoffDuration (attempt : Z) : Z :=
  let d := i64 (Second * i64 (2 ^ attempt)) in
  if MaxBackoff <? d then MaxBackoff else d.

(** Format(time.RFC3339) in UTC. *)
Definition format_RFC3339 (t : Z) : string := format_RFC3339Nano (t - t mod Second).

Inductive post_result : Type := PostFailed (err : string) | PostStatus (code : Z).

(** The columns the delivery sets; id and time are the store's. [da_Success] is the
    status. *)
Record DeliveryAttempt : Type := mkAttempt {
  da_SubscriptionID : Z; da_EventID : string; da_Success : bool; da_ResponseCode : Z; da_DurationMs : Z; da_Error : string }.

Class WebhookEnv (W : Type) : Type := {
  we_marshal : SEvent -> result string string;
  we_urlError : string -> option string;
  we_now : W -> Z;
  we_sleep : Z -> W -> bool * W;
  we_post : string -> delivery_headers -> string -> W -> post_result * W;
  we_RecordDeliveryAttempt : DeliveryAttempt -> W -> W;
  we_IncrementSubscriptionFailures : Z -> Z -> W -> W;
  we_ResetSubscriptionFailures : Z -> W -> W }.

(** What a delivery did, in order. *)
Inductive effect : Type :=
  | Slept (d : Z) (completed : bool)
  | Posted (url : string) (h : delivery_headers) (body : string) (r : post_result)
  | Recorded (a : DeliveryAttempt)
  | Incremented (id max : Z)
  | ResetFailures (id : Z).

Section Deliver.
Context {W : Type} `{!WebhookEnv W}.

Definition recordAttempt (t : deliveryTask) (code dur : Z) (err : option string) (w : W) : list effect * W :=
  let a := mkAttempt (su_ID (dt_Subscription t)) (ID (dt_Event t)) (match err with None => true | Some _ => false end) code (goquot dur Millisecond) (default "" err) in
  ([Recorded a], we_RecordDeliveryAttempt a w).
Definition incrementFailures (maxAttempts id : Z) (w : W) : list effect * W :=
  ([Incremented id maxAttempts], we_IncrementSubscriptionFailures id maxAttempts w).
Definition recordSuccess (id : Z) (w : W) : list effect * W := ([ResetFailures id], we_ResetSubscriptionFailures id w).

(** The headers of an attempt, numbered from 0. *)
Definition headers_of (secret key timestamp body : string) (attempt : Z) : delivery_headers :=
  let attemptStr := FormatInt (attempt + 1) in
  mkHeaders key key attemptStr timestamp (SignDelivery secret key attemptStr timestamp body).

Definition success_status (code : Z) : bool := (200 <=? code) && (code <? 300).

(** The attempts from [attempt] on; [n] are left. *)
Fixpoint deliver_attempts (maxAttempts : Z) (t : deliveryTask) (key timestamp body : string) (n : nat) (attempt : Z) (w : W) : list effect * W :=
  let sub := dt_Subscription t in
  match n with
  | O => incrementFailures maxAttempts (su_ID sub) w
  | S n =>
      let '(ok, pause, w) :=
        if 0 <? attempt then let '(ok, w) := we_sleep (backoffDuration attempt) w in (ok, [Slept (backoffDuration attempt) ok], w)
        else (true, [], w) in
      if negb ok then (pause, w)
      else match we_urlError (su_URL sub) with
           | Some err =>
               let '(e1, w) := recordAttempt t 0 0 (Some err) w in
               let '(e2, w) := incrementFailures maxAttempts (su_ID sub) w in
               ((pause ++ e1 ++ e2)%list, w)
           | None =>
               let h := headers_of (su_Secret sub) key timestamp body attempt in
               let start := we_now w in
               let '(r, w) := we_post (su_URL sub) h body w in
               let dur := time_Sub (we_now w) start in
               let sent := (pause ++ [Posted (su_URL sub) h body r])%list in
               let again e w := let '(more, w) := deliver_attempts maxAttempts t key timestamp body n (attempt + 1) w in ((sent ++ e ++ more)%list, w) in
               match r with
               | PostFailed err => let '(e, w) := recordAttempt t 0 dur (Some err) w in again e w
               | PostStatus code =>
                   if success_status code then
                     let '(e1, w) := recordAttempt t code dur None w in
                     let '(e2, w) := recordSuccess (su_ID sub) w in
                     ((sent ++ e1 ++ e2)%list, w)
                   else let '(e, w) := recordAttempt t code dur (Some ("HTTP " +++ FormatInt code)) w in again e w
               end
           end
  end.

Definition deliverWithRetry (maxAttempts : Z) (t : deliveryTask) (w : W) : list effect * W :=
  match we_marshal (dt_Event t) with
  | Err err =>
      let '(e1, w) := recordAttempt t 0 0 (Some err) w in
      let '(e2, w) := incrementFailures maxAttempts (su_ID (dt_Subscription t)) w in
      ((e1 ++ e2)%list, w)
  | Ok body =>
      let key := IdempotencyKey (su_ID (dt_Subscription t)) (ID (dt_Event t)) in
      let origTime := if time_IsZero (dt_OriginalTimestamp t) then we_now w else dt_OriginalTimestamp t in
      deliver_attempts maxAttempts t key (format_RFC3339 origTime) body (Z.to_nat maxAttempts) 0 w
  end.

Definition ReplayDelivery (maxAttempts : Z) (sub : Subscription) (event : SEvent) (originalTimestamp : Z) (w : W) : list effect * W :=
  deliverWithRetry maxAttempts (mkTask sub event originalTimestamp) w.
End Deliver.

(** ** The subscription rows *)

Definition sub_update (id : Z) (f : Subscription -> Subscription) (rows : list Subscription) : list Subscription :=
  (fun s => if su_ID s =? id then f s else s) <$> rows.

Definition fail_once (maxFailures : Z) (s : Subscription) : Subscription :=
  mkSubscription (su_ID s) (su_URL s) (su_Filters s) (su_Secret s)
    (if maxFailures <=? su_FailureCount s + 1 then false else su_Enabled s) (su_FailureCount s + 1).

(** (count, disabled), or ErrNotFound. *)
Definition IncrementSubscriptionFailures (id maxFailures : Z) (rows : list Subscription) : result error (Z * bool) * list Subscription :=
  let rows := sub_update id (fail_once maxFailures) rows in
  match List.find (fun s => su_ID s =? id) rows with
  | None => (Err (Sentinel ErrNotFound), rows)
  | Some s => (Ok (su_FailureCount s, negb (su_Enabled s)), rows)
  end.

Definition ResetSubscriptionFailures (id : Z) : list Subscription -> list Subscription :=
  sub_update id (fun s => mkSubscription (su_ID s) (su_URL s) (su_Filters s) (su_Secret s) (su_Enabled s) 0).

Definition ListEnabledSubscriptions : list Subscription -> list Subscription := List.filter su_Enabled.

(** UPDATE subscriptions SET url, filters, secret, enabled. *)
Definition UpdateSubscription (sub : Subscription) : list Subscription -> list Subscription :=
  sub_update (su_ID sub) (fun s => mkSubscription (su_ID s) (su_URL sub) (su_Filters sub) (su_Secret sub) (su_Enabled sub) (su_FailureCount s)).

(** * What a webhook delivery does (internal/webhook/webhook.go)

    Every request of a delivery carries the same idempotency key and timestamp, its
    own attempt number and a signature that verifies; the requests are bounded and
    end with a success, one counted failure, or a cancelled wait. *)


(** ** Signatures and keys *)

Lemma append_cons a b : a +++ b <> "" <-> a <> "" \/ b <> "".
Proof. destruct a; cbn; [naive_solver|]. split; [by left|done]. Qed.

Lemma FormatInt_nonnull n : 0 <= n -> FormatInt n <> "".
Proof. intros H. by apply FormatInt_digits. Qed.

Lemma format_RFC3339_nonempty t : format_RFC3339 t <> "".
Proof. unfold format_RFC3339, format_RFC3339Nano. rewrite !append_cons. naive_solver. Qed.

Lemma hmac_hex_nonempty secret text : hmac_hex secret text <> "".
Proof.
  unfold hmac_hex. destruct (hmac_nonempty (str_bytes secret) (str_bytes text)) as (x & y & ->). done.
Qed.

Lemma key_nonempty id ev : IdempotencyKey id ev <> "".
Proof. done. Qed.

(** What deliverWithRetry signs, VerifyDelivery accepts. *)
Lemma sent_headers_verify secret id ev t body attempt : 0 <= attempt ->
  VerifyDelivery secret (headers_of secret (IdempotencyKey id ev) (format_RFC3339 t) body attempt) body = true.
Proof.
  intros Ha. set (key := IdempotencyKey id ev). set (ts := format_RFC3339 t).
  assert (Hk : key <> "") by apply key_nonempty. assert (Ht : ts <> "") by apply format_RFC3339_nonempty.
  assert (Hn : FormatInt (attempt + 1) <> "") by (apply FormatInt_nonnull; lia).
  assert (Hs : SignDelivery secret key (FormatInt (attempt + 1)) ts body <> "").
  { unfold SignDelivery, Sign. destruct (_ && _); apply hmac_hex_nonempty. }
  unfold VerifyDelivery, headers_of. cbn [hd_Signature hd_IdempotencyKey hd_DeliveryAttempt hd_DeliveryTimestamp hd_SoroTrailIdempotencyKey].
  clearbody key ts. rewrite !bool_decide_false by done. cbn [orb]. rewrite (bool_decide_true (key = key)) by done.
  cbn [negb]. rewrite andb_false_r. by apply bool_decide_true.
Qed.

Lemma append_inj_prefix p a b : p +++ a = p +++ b -> a = b.
Proof. induction p as [|c p IH]; cbn; [done|]. intros [= H]. by apply IH. Qed.

Lemma digits_no_colon s : str_all is_digit s = true -> str_contains ":" s = false.
Proof.
  intros H. destruct (str_contains ":" s) eqn:E; [|done]. exfalso. revert H E.
  induction s as [|c s IH]; cbn; [done|]. intros H. apply andb_prop in H as [Hc H]. intros [E|E]%orb_true_iff; [|by apply IH].
  apply Ascii.eqb_eq in E as ->. done.
Qed.

(** The key of a delivery names its subscription and its event. *)
Lemma IdempotencyKey_inj a b x y : 0 <= a <= maxInt64 -> 0 <= b <= maxInt64 -> IdempotencyKey a x = IdempotencyKey b y -> a = b /\ x = y.
Proof.
  intros Ha Hb H. unfold IdempotencyKey in H. apply append_inj_prefix in H.
  pose proof (FormatInt_digits a ltac:(lia)) as [Da _]. pose proof (FormatInt_digits b ltac:(lia)) as [Db _].
  pose proof (cut_first_app ":" (FormatInt a) x (digits_no_colon _ Da)) as Ca.
  pose proof (cut_first_app ":" (FormatInt b) y (digits_no_colon _ Db)) as Cb.
  change (String ":" x) with (":" +++ x) in Ca. change (String ":" y) with (":" +++ y) in Cb. rewrite H, Cb in Ca.
  injection Ca as Hab Hxy. split; [|done].
  assert (Hp : Some a = Some b) by (rewrite <- (ParseInt_FormatInt a), <- (ParseInt_FormatInt b); [by rewrite Hab|..]; unfold in_i64, minInt64, maxInt64 in *; lia).
  by injection Hp.
Qed.

(** The signed text determines its four parts: no line of one can pass for another. *)
Lemma delivery_text_inj k1 a1 t1 b1 k2 a2 t2 b2 :
  str_contains newline k1 = false -> str_contains newline a1 = false -> str_contains newline t1 = false ->
  str_contains newline k2 = false -> str_contains newline a2 = false -> str_contains newline t2 = false ->
  delivery_text k1 a1 t1 b1 = delivery_text k2 a2 t2 b2 -> k1 = k2 /\ a1 = a2 /\ t1 = t2 /\ b1 = b2.
Proof.
  intros K1 A1 T1 K2 A2 T2 H. unfold delivery_text in H.
  pose proof (cut_first_app newline k1 (a1 +++ String newline (t1 +++ String newline b1)) K1) as C1. rewrite H, cut_first_app in C1 by done.
  injection C1 as -> C1. pose proof (cut_first_app newline a1 (t1 +++ String newline b1) A1) as C2. rewrite <- C1, cut_first_app in C2 by done.
  injection C2 as -> C2. pose proof (cut_first_app newline t1 b1 T1) as C3. rewrite <- C2, cut_first_app in C3 by done.
  injection C3 as -> ->. done.
Qed.

(** ** The effects of a delivery *)

Definition posts (es : list effect) : list (string * delivery_headers * string * post_result) :=
  omap (fun e => match e with Posted u h b r => Some (u, h, b, r) | _ => None end) es.
Definition sleeps (es : list effect) : list (Z * bool) := omap (fun e => match e with Slept d ok => Some (d, ok) | _ => None end) es.
Definition increments (es : list effect) : Z := cnt (fun e => match e with Incremented _ _ => true | _ => false end) es.
Definition resets (es : list effect) : Z := cnt (fun e => match e with ResetFailures _ => true | _ => false end) es.
Definition accepted (r : post_result) : bool := match r with PostStatus code => success_status code | PostFailed _ => false end.

Lemma posts_app a b : posts (a ++ b) = (posts a ++ posts b)%list.
Proof. apply omap_app. Qed.
Lemma sleeps_app a b : sleeps (a ++ b) = (sleeps a ++ sleeps b)%list.
Proof. apply omap_app. Qed.
Lemma increments_app a b : increments (a ++ b) = increments a + increments b.
Proof. apply cnt_app. Qed.
Lemma resets_app a b : resets (a ++ b) = resets a + resets b.
Proof. apply cnt_app. Qed.
#[local] Hint Rewrite posts_app sleeps_app increments_app resets_app : effects.

Section Delivery.
Context {W : Type} `{!WebhookEnv W}.
Context (maxAttempts : Z) (t : deliveryTask) (key timestamp body : string).
Local Abbreviation sub := (dt_Subscription t).

(** The requests and pauses from attempt [k] on, and how the delivery ended:
    accepted, counted as one failure, or cancelled in a pause. *)
Record delivered (n : nat) (k : Z) (es : list effect) : Prop := {
  dl_bound : (length (posts es) <= n)%nat;
  dl_posts : forall i u h b r, posts es !! i = Some (u, h, b, r) ->
    u = su_URL sub /\ b = body /\ h = headers_of (su_Secret sub) key timestamp body (k + Z.of_nat i) /\
    (accepted r = true -> S i = length (posts es));
  dl_sleeps : forall i d ok, sleeps es !! i = Some (d, ok) -> 0 < d <= MaxBackoff;
  dl_end :
    (increments es = 0 /\ resets es = 1 /\ exists x, list.last (posts es) = Some x /\ accepted x.2 = true) \/
    (increments es = 1 /\ resets es = 0 /\ Forall (fun x => accepted x.2 = false) (posts es)) \/
    (increments es = 0 /\ resets es = 0 /\ Forall (fun x => accepted x.2 = false) (posts es) /\ exists d, list.last (sleeps es) = Some (d, false)) }.

Lemma backoff_bounds k : 0 <= k -> k < 34 -> 0 < backoffDuration k <= MaxBackoff.
Proof.
  intros H1 H2. assert (Hall : forallb (fun n => (0 <? backoffDuration (Z.of_nat n)) && (backoffDuration (Z.of_nat n) <=? MaxBackoff)) (seq 0 34) = true)
    by (vm_compute; reflexivity).
  rewrite forallb_forall in Hall. specialize (Hall (Z.to_nat k)). rewrite Z2Nat.id in Hall by done.
  assert (Hin : In (Z.to_nat k) (seq 0 34)) by (apply in_seq; lia). specialize (Hall Hin). lia.
Qed.

Lemma delivered_cons n k pause h r es' :
  (forall i d ok, sleeps pause !! i = Some (d, ok) -> 0 < d <= MaxBackoff) -> posts pause = [] -> increments pause = 0 -> resets pause = 0 ->
  h = headers_of (su_Secret sub) key timestamp body k -> accepted r = false ->
  forall e, posts e = [] -> sleeps e = [] -> increments e = 0 -> resets e = 0 ->
  delivered n (k + 1) es' -> delivered (S n) k ((pause ++ [Posted (su_URL sub) h body r]) ++ e ++ es')%list.
Proof.
  intros Hp1 Hp2 Hp3 Hp4 Hh Hr e He1 He2 He3 He4 [B P S E].
  assert (Hposts : posts ((pause ++ [Posted (su_URL sub) h body r]) ++ e ++ es')%list = (su_URL sub, h, body, r) :: posts es').
  { rewrite !posts_app, Hp2, He1. done. }
  assert (Hsl : sleeps ((pause ++ [Posted (su_URL sub) h body r]) ++ e ++ es')%list = (sleeps pause ++ sleeps es')%list).
  { rewrite !sleeps_app, He2. cbn. by rewrite app_nil_r. }
  assert (Hinc : increments ((pause ++ [Posted (su_URL sub) h body r]) ++ e ++ es')%list = increments es') by (rewrite !increments_app, Hp3, He3; done).
  assert (Hres : resets ((pause ++ [Posted (su_URL sub) h body r]) ++ e ++ es')%list = resets es') by (rewrite !resets_app, Hp4, He4; done).
  split; rewrite ?Hposts, ?Hsl, ?Hinc, ?Hres.
  - cbn. lia.
  - intros [|i] u h' b r' Hi; cbn in Hi.
    + injection Hi as <- <- <- <-. split_and!; [done|done|by rewrite Z.add_0_r|by rewrite Hr].
    + destruct (P i u h' b r' Hi) as (-> & -> & -> & Hl). split_and!; [done|done|f_equal; lia|]. intros Ha. cbn. f_equal. by apply Hl.
  - intros i d ok Hi. apply lookup_app_Some in Hi as [Hi|[_ Hi]]; [by eapply Hp1|by eapply S].
  - destruct E as [(H1 & H2 & x & Hx & Ha)|[(H1 & H2 & Hf)|(H1 & H2 & Hf & d & Hd)]].
    + left. split_and!; [done|done|]. exists x. split; [|done]. by rewrite last_cons, Hx.
    + right; left. split_and!; [done|done|]. by constructor.
    + right; right. split_and!; [done|done|by constructor|]. exists d. by rewrite last_app, Hd.
Qed.

(** A pause before attempt [k]. *)
Lemma pause_facts k ok : 0 <= k < 34 ->
  let pause := if 0 <? k then [Slept (backoffDuration k) ok] else [] in
  (forall i d ok', sleeps pause !! i = Some (d, ok') -> 0 < d <= MaxBackoff) /\ posts pause = [] /\ increments pause = 0 /\ resets pause = 0.
Proof.
  intros Hk. cbn zeta. destruct (0 <? k); split_and!; try done. intros [|i] d ok' H; cbn in H; [|done].
  injection H as <- _. apply backoff_bounds; lia.
Qed.

(** A delivery that ends with [e] after its pause and no request accepted. *)
Lemma delivered_end n k pause e : (forall i d ok, sleeps pause !! i = Some (d, ok) -> 0 < d <= MaxBackoff) -> posts pause = [] ->
  increments pause = 0 -> resets pause = 0 -> posts e = [] -> sleeps e = [] -> increments e = 1 -> resets e = 0 -> delivered n k (pause ++ e).
Proof.
  intros P1 P2 P3 P4 E1 E2 E3 E4. split; rewrite ?posts_app, ?sleeps_app, ?increments_app, ?resets_app, ?P2, ?P3, ?P4, ?E1, ?E2, ?E3, ?E4.
  - cbn. lia.
  - done.
  - rewrite app_nil_r. exact P1.
  - right; left. split_and!; [done|done|by constructor].
Qed.

Lemma deliver_attempts_delivered n : forall k w es w', 0 <= k -> k + Z.of_nat n <= 34 ->
  deliver_attempts maxAttempts t key timestamp body n k w = (es, w') -> delivered n k es.
Proof.
  induction n as [|n IH]; intros k w es w' Hk Hn H; cbn [deliver_attempts] in H.
  { injection H as <- _. apply (delivered_end 0 k []); done. }
  assert (Hpause : exists ok w1, (if 0 <? k then let '(ok, w) := we_sleep (backoffDuration k) w in (ok, [Slept (backoffDuration k) ok], w) else (true, [], w)) =
    (ok, if 0 <? k then [Slept (backoffDuration k) ok] else [], w1) /\ (ok = false -> 0 <? k = true)).
  { destruct (0 <? k); [|by exists true, w]. destruct (we_sleep (backoffDuration k) w) as [ok w1]. by exists ok, w1. }
  destruct Hpause as (ok & w1 & Hp & Hok). rewrite Hp in H. destruct (pause_facts k ok ltac:(lia)) as (P1 & P2 & P3 & P4).
  set (pause := if 0 <? k then [Slept (backoffDuration k) ok] else []) in *.
  destruct ok; cbn [negb] in H.
  2: { injection H as <- _. specialize (Hok eq_refl). subst pause. rewrite Hok in *. split; [cbn; lia|done|done|].
       right; right. split_and!; [done|done|by constructor|]. by eexists. }
  destruct (we_urlError (su_URL sub)) as [err|].
  { cbn in H. injection H as <- _. by apply delivered_end. }
  destruct (we_post _ _ _ w1) as [r w2] eqn:Ep. cbn zeta in H.
  assert (Hagain : forall e w3 es' w4, posts e = [] -> sleeps e = [] -> increments e = 0 -> resets e = 0 -> accepted r = false ->
    deliver_attempts maxAttempts t key timestamp body n (k + 1) w3 = (es', w4) ->
    delivered (S n) k ((pause ++ [Posted (su_URL sub) (headers_of (su_Secret sub) key timestamp body k) body r]) ++ e ++ es')%list).
  { intros e w3 es' w4 E1 E2 E3 E4 Hr Hd. eapply delivered_cons; try done. eapply IH; [lia|lia|done]. }
  destruct r as [err|code].
  - cbn in H. destruct (deliver_attempts _ _ _ _ _ n (k + 1) _) as [es' w4] eqn:Ed. injection H as <- _. by eapply (Hagain [_]).
  - destruct (success_status code) eqn:Es.
    + cbn in H. injection H as <- _. split; rewrite ?posts_app, ?sleeps_app, ?increments_app, ?resets_app, ?P2, ?P3, ?P4.
      * cbn. lia.
      * intros [|i] u h b r Hi; cbn in Hi; [|done]. injection Hi as <- <- <- <-. split_and!; [done|done|by rewrite Z.add_0_r|done].
      * intros i d ok Hi. cbn in Hi. rewrite !app_nil_r in Hi. by eapply P1.
      * left. split_and!; [done|done|]. eexists. split; [done|]. exact Es.
    + cbn in H. destruct (deliver_attempts _ _ _ _ _ n (k + 1) _) as [es' w4] eqn:Ed. injection H as <- _. by eapply (Hagain [_]).
Qed.
End Delivery.

(** C18: a delivery makes at most five requests; each carries the key of its
    subscription and event, the number of its attempt, the timestamp of the first
    one and a signature the receiver's check accepts; no request follows an accepted
    one; the pauses are positive and at most thirty seconds; and the delivery ends
    with the failure count reset after an accepted request, with one failure
    counted, or cancelled in a pause. *)
Theorem webhook_delivery_contract {W : Type} `{!WebhookEnv W} (t : deliveryTask) (w w' : W) (es : list effect) :
  deliverWithRetry MaxDeliveryAttempts t w = (es, w') ->
  let secret := su_Secret (dt_Subscription t) in
  let start := if time_IsZero (dt_OriginalTimestamp t) then we_now w else dt_OriginalTimestamp t in
  (length (posts es) <= 5)%nat /\
  (forall i u h b r, posts es !! i = Some (u, h, b, r) ->
     u = su_URL (dt_Subscription t) /\ VerifyDelivery secret h b = true /\
     hd_IdempotencyKey h = IdempotencyKey (su_ID (dt_Subscription t)) (ID (dt_Event t)) /\
     hd_DeliveryAttempt h = FormatInt (Z.of_nat i + 1) /\ hd_DeliveryTimestamp h = format_RFC3339 start /\
     (accepted r = true -> S i = length (posts es))) /\
  (forall i d ok, sleeps es !! i = Some (d, ok) -> 0 < d <= MaxBackoff) /\
  ((increments es = 0 /\ resets es = 1 /\ exists x, list.last (posts es) = Some x /\ accepted x.2 = true) \/
   (increments es = 1 /\ resets es = 0 /\ Forall (fun x => accepted x.2 = false) (posts es)) \/
   (increments es = 0 /\ resets es = 0 /\ Forall (fun x => accepted x.2 = false) (posts es) /\ exists d, list.last (sleeps es) = Some (d, false))).
Proof.
  intros H secret start. unfold deliverWithRetry in H. destruct (we_marshal (dt_Event t)) as [body|err].
  2: { cbn in H. injection H as <- _. split_and!; [cbn; lia|done|done|]. right; left. split_and!; [done|done|by constructor]. }
  change (Z.to_nat MaxDeliveryAttempts) with 5%nat in H. apply deliver_attempts_delivered in H; [|lia..].
  destruct H as [B P S E]. split_and!; [done| |done|done]. intros i u h b r Hi. destruct (P i u h b r Hi) as (-> & -> & -> & Hl).
  split_and!; [done| |done| |done|done].
  - apply sent_headers_verify. lia.
  - done.
Qed.

(** A receiver that answers by a script. *)
#[export] Instance scripted_receiver : WebhookEnv (list post_result) := {|
  we_marshal ev := if bool_decide (Value ev = "") then Err "no value" else Ok (Value ev);
  we_urlError u := if bool_decide (u = "") then Some "empty url" else None;
  we_now _ := 1709210096500000000;
  we_sleep d w := (negb (bool_decide (w = [])), w);
  we_post u h b w := (default (PostFailed "connection refused") (head w), tail w);
  we_RecordDeliveryAttempt _ w := w;
  we_IncrementSubscriptionFailures _ _ w := w;
  we_ResetSubscriptionFailures _ w := w |}.

Definition no_sub_filter : SubscriptionFilter := mkSubFilter "" "" "" "" 0 0 "".
Definition sample_sub : Subscription := mkSubscription 42 "https://example.org/hook" no_sub_filter "s3cret" true 0.
Definition sample_event : StoreTypes.Event := mkEvent "0001-01" "C" 5 "contract" "tx" 0 0 true "[1]" "{}" 0 "default" [] "".
Definition sample_task : deliveryTask := mkTask sample_sub sample_event time_zero.

Lemma webhook_delivery_contract_witness :
  let es := (deliverWithRetry MaxDeliveryAttempts sample_task [PostFailed "timeout"; PostStatus 503; PostStatus 204]).1 in
  length (posts es) = 3%nat /\ resets es = 1 /\
  forall i u h b r, posts es !! i = Some (u, h, b, r) -> VerifyDelivery "s3cret" h b = true.
Proof.
  cbn zeta. assert (H3 : length (posts (deliverWithRetry MaxDeliveryAttempts sample_task [PostFailed "timeout"; PostStatus 503; PostStatus 204]).1) = 3%nat)
    by (vm_compute; reflexivity).
  assert (H1 : resets (deliverWithRetry MaxDeliveryAttempts sample_task [PostFailed "timeout"; PostStatus 503; PostStatus 204]).1 = 1)
    by (vm_compute; reflexivity).
  destruct (deliverWithRetry MaxDeliveryAttempts sample_task [PostFailed "timeout"; PostStatus 503; PostStatus 204]) as [es w'] eqn:E. cbn [fst] in *.
  destruct (webhook_delivery_contract sample_task _ w' es E) as (_ & H & _).
  split; [exact H3|]. split; [exact H1|]. intros i u h b r Hi. destruct (H i u h b r Hi) as (_ & Hv & _). exact Hv.
Defined.

(** ** Authorization *)

(** What a tenant may subscribe to it could read when it subscribed. *)
Lemma authorized_subscription_in_scope p f e : authorizeSubscriptionFilters (Some p) f = None -> sp_Untenanted p = false ->
  SubscriptionFilter_MatchesEvent f e = true -> Allows (sp_Scope p) (ContractID e) = true.
Proof.
  intros Ha Hu Hm. unfold authorizeSubscriptionFilters in Ha. rewrite Hu in Ha. cbn [orb] in Ha.
  destruct (IsWildcard (sp_Scope p)) eqn:Ew; [unfold Allows; unfold IsWildcard in Ew; by rewrite Ew|].
  destruct (nonempty (sb_ContractID f)) eqn:En; [|done]. cbn [negb] in Ha.
  destruct (Allows (sp_Scope p) (sb_ContractID f)) eqn:Eal; [|done].
  unfold SubscriptionFilter_MatchesEvent in Hm. rewrite En in Hm. repeat (apply andb_prop in Hm as [Hm ?]).
  assert (ContractID e = sb_ContractID f) as ->; [|done].
  match goal with H : negb (true && negb (bool_decide _)) = true |- _ => cbn in H; rewrite negb_involutive in H; by apply bool_decide_eq_true in H end.
Qed.

(** ** What the code does not do *)

(** A subscription outlives its grant: the scope is only consulted when it is made. *)
Lemma revoked_grant_still_delivers :
  let f := mkSubFilter "C" "" "" "" 0 0 "" in
  let granted := mkSubPrincipal false (NewScope ["C"]) in let revoked := NewScope [] in
  let sub := mkSubscription 1 "https://example.org/hook" f "s" true 0 in
  (authorizeSubscriptionFilters (Some granted) f, Allows revoked "C", length (NotifyEvents (Ok [sub]) [sample_event] [])) = (None, false, 1%nat).
Proof. vm_compute. reflexivity. Qed.

(** topic_contains is accepted and stored, and never tested. *)
Lemma topic_contains_is_ignored f x e :
  SubscriptionFilter_MatchesEvent (mkSubFilter (sb_ContractID f) (sb_Type f) (sb_Topic f) x (sb_FromLedger f) (sb_ToLedger f) (sb_Network f)) e =
  SubscriptionFilter_MatchesEvent f e.
Proof. done. Qed.

(** Five failed requests count as one failure: the subscription stays enabled. *)
Lemma exhausted_delivery_keeps_enabled :
  let es := (deliverWithRetry MaxDeliveryAttempts sample_task (replicate 6 (PostStatus 500))).1 in
  (length (posts es), increments es, (IncrementSubscriptionFailures 42 MaxDeliveryAttempts [sample_sub]).1) = (5%nat, 1, Ok (1, false)).
Proof. vm_compute. reflexivity. Qed.

(** Enabling a subscription again keeps its count: one failure disables it. *)
Lemma reenabled_subscription_fails_at_once :
  let fail rows := (IncrementSubscriptionFailures 42 MaxDeliveryAttempts rows).2 in
  let disabled := fail (fail (fail (fail (fail [sample_sub])))) in
  let enabled := UpdateSubscription sample_sub disabled in
  (su_Enabled <$> disabled, su_Enabled <$> enabled, (IncrementSubscriptionFailures 42 MaxDeliveryAttempts enabled).1) =
  ([false], [true], Ok (6, true)).
Proof. vm_compute. reflexivity. Qed.
