(* ===== verification/EventQuery.v ===== *)
(** * Listing events (internal/store/sqlite.go, internal/store/postgres.go)

    QueryEvents of the two SQL stores: the meaning of the statements they build
    for a filter, with their predicates, keyset cursors, order and limit, over the
    rows of the events table. SQLite's and Postgres's JSON operators, the
    collation Postgres compares ids with, its reading of timestamps and the lenient
    part of time.Parse are arguments. *)

From S2P Require Import Prelude GoStrings Codec StoreErrors StoreTypes GoTime GoSort Keyset Cursor RpcTypes ReorgTracker SqliteStore Scope Broadcast.
From Stdlib Require Import Ascii String.
Local Open Scope Z_scope.
Local Open Scope go_scope.

Local Notation length := List.length.
Local Abbreviation SEvent := StoreTypes.Event.
Local Abbreviation SFilter := StoreTypes.EventFilter.

(** ** Filters *)

(** store.EventFilter: the part the cursor layer reads, and the rest. *)
Record EventQuery : Type := mkQuery {
  q_filter : SFilter;
  q_Network : string;
  q_ContractID : string;
  q_ContractIDs : list string;
  q_ContractIDPrefix : string;
  q_Types : list string;
  q_TxHash : string;
  q_InSuccessfulCall : option bool;
  q_HasValue : option bool;
  q_TxIndex : option Z;
  q_OpIndex : option Z;
  q_FromTime : Z;
  q_ToTime : Z;
  q_Cursor : string;
  q_Limit : Z;
  q_Order : string;
  q_OrderBy : string;
  q_Scope : Scope }.

Definition set_cursor (c : string) (q : EventQuery) : EventQuery :=
  mkQuery (q_filter q) (q_Network q) (q_ContractID q) (q_ContractIDs q) (q_ContractIDPrefix q) (q_Types q) (q_TxHash q)
    (q_InSuccessfulCall q) (q_HasValue q) (q_TxIndex q) (q_OpIndex q) (q_FromTime q) (q_ToTime q) c (q_Limit q)
    (q_Order q) (q_OrderBy q) (q_Scope q).

Definition DefaultQueryLimit : Z := 50.
Definition MaxQueryLimit : Z := 500.

Definition clamp_limit (limit : Z) : nat :=
  let limit := if limit <=? 0 then DefaultQueryLimit else limit in
  Z.to_nat (if MaxQueryLimit <? limit then MaxQueryLimit else limit).

(** ** LIKE *)

(** The LIKE operator on bytes. SQLite compares ASCII letters without case and has
    no escape character; in Postgres a backslash makes the next one literal. *)
Fixpoint sql_like (fold : ascii -> ascii) (escape : bool) (p : string) : string -> bool :=
  match p with
  | EmptyString => fun s => bool_decide (s = "")
  | String c p' =>
      let rest := sql_like fold escape p' in
      let lit c (rest : string -> bool) s := match s with String d s' => Ascii.eqb (fold c) (fold d) && rest s' | EmptyString => false end in
      if Ascii.eqb c "%" then
        fix any s := rest s || match s with String _ s' => any s' | EmptyString => false end
      else if Ascii.eqb c "_" then
        fun s => match s with String _ s' => rest s' | EmptyString => false end
      else if escape && Ascii.eqb c "\" then
        match p' with
        | String e p'' => lit e (sql_like fold escape p'')
        | EmptyString => fun s => bool_decide (s = "")
        end
      else lit c rest
  end.

Definition ascii_lower (c : ascii) : ascii := if (65 <=? byte_val c) && (byte_val c <=? 90) then byte_of (byte_val c + 32) else c.

Definition SQLite_like := sql_like ascii_lower false.
Definition Postgres_like := sql_like id true.

(** ** Predicates *)

Definition sql_in (x : string) (l : list string) : bool := existsb (String.eqb x) l.

(** ContractID and ContractIDs together name a set. *)
Definition contract_cond (q : EventQuery) (e : SEvent) : bool :=
  match q_ContractIDs q with
  | [] => if nonempty (q_ContractID q) then bool_decide (ContractID e = q_ContractID q) else true
  | ids =>
      let ids := if nonempty (q_ContractID q) && negb (sql_in (q_ContractID q) ids) then (ids ++ [q_ContractID q])%list else ids in
      sql_in (ContractID e) ids
  end.

Definition opt_cond {A} (o : option A) (p : A -> bool) : bool := match o with None => true | Some x => p x end.
Definition when (b : bool) (p : bool) : bool := if b then p else true.

(** ledger >= from, ledger <= to, where they are set. *)
Definition ledger_cond (q : EventQuery) (e : SEvent) : bool :=
  when (0 <? f_FromLedger (q_filter q)) (f_FromLedger (q_filter q) <=? Ledger e) &&
  when (0 <? f_ToLedger (q_filter q)) (Ledger e <=? f_ToLedger (q_filter q)).

Definition positional (q : EventQuery) : list string :=
  [f_Topic0 (q_filter q); f_Topic1 (q_filter q); f_Topic2 (q_filter q); f_Topic3 (q_filter q)].

(** [at_ i t]: the topic at position [i] equals [t]. *)
Definition topics_at (at_ : nat -> string -> bool) (ts : list string) : bool :=
  forallb (fun it => when (nonempty it.2) (at_ it.1 it.2)) (zip (seq 0 4) ts).

(** The columns both stores compare in the same way. *)
Definition common_cond (q : EventQuery) (e : SEvent) : bool :=
  when (nonempty (q_Network q)) (bool_decide (Network e = defaultNetwork (q_Network q))) &&
  contract_cond q e &&
  when (negb (bool_decide (q_Types q = []))) (sql_in (Type_ e) (q_Types q)) &&
  when (nonempty (q_TxHash q)) (bool_decide (TxHash e = q_TxHash q)) &&
  opt_cond (q_InSuccessfulCall q) (fun b => bool_decide (InSuccessfulCall e = b)) &&
  ledger_cond q e.

(** ** Order *)

(** A column value; SQLite orders integers before text. *)
Inductive sval : Type := SInt (n : Z) | SText (s : string).
#[export] Instance sval_eq_dec : EqDecision sval.
Proof. solve_decision. Defined.

Definition sval_lt (a b : sval) : bool :=
  match a, b with
  | SInt x, SInt y => x <? y
  | SText x, SText y => String.ltb x y
  | SInt _, SText _ => true
  | SText _, SInt _ => false
  end.

Definition by_id (q : EventQuery) : bool := bool_decide (q_OrderBy q = "") || bool_decide (q_OrderBy q = OrderByID).
Definition is_desc (q : EventQuery) : bool := bool_decide (q_Order q = "desc").

(** ORDER BY col dir, id dir: the key and its order; by id alone the first half is
    constant. *)
Definition event_key (col : SEvent -> sval) (q : EventQuery) (e : SEvent) : sval * string :=
  (if by_id q then SInt 0 else col e, ID e).
Definition event_lt (id_lt : string -> string -> bool) (q : EventQuery) : sval * string -> sval * string -> bool :=
  flip_lt (is_desc q) (lex_lt sval_lt id_lt).

(** The scalar bound on the ledger that goes with an id cursor. *)
Definition cursor_bound (q : EventQuery) (id : string) (e : SEvent) : bool :=
  match CursorLedger id with
  | None => true
  | Some l =>
      if ((f_FromLedger (q_filter q) <=? 0) || (f_FromLedger (q_filter q) <=? l)) &&
         ((f_ToLedger (q_filter q) <=? 0) || (l <=? f_ToLedger (q_filter q)))
      then if is_desc q then Ledger e <=? l else l <=? Ledger e
      else true
  end.

Definition stale (fmt : string) : error := invalid fmt [ErrStaleCursor].

(** time.Parse with the layout RFC3339Nano. *)
Definition time_Parse (general : string -> option Z) (s : string) : option Z :=
  match parseRFC3339 s with Some t => Some t | None => general s end.
Definition time_Parses (general : string -> option Z) (s : string) : bool :=
  match time_Parse general s with Some _ => true | None => false end.

(** A page out of the rows a statement returns in order. *)
Definition cursor_page (tag : string) (q : EventQuery) (fetched : list SEvent) : list SEvent * string :=
  let '(events, last) := cut_page (clamp_limit (q_Limit q)) fetched in
  (events, match last with None => "" | Some e => EncodeCursorForBackend tag (q_OrderBy q) e end).

Section Queries.
(** The package-wide and the store's maximum span of sparse topic filters. *)
Context (globalMax maxSpan : Z).
Context (general : string -> option Z).

(** ** SQLite *)

Section SQLite.
(** topicContainsExpr, and json_extract(topics, '$[i]') = json(?), on texts that
    are JSON. Where one is not, json() and json_extract raise and the statement
    fails; like a lost connection this is a failure of the call, which the callers'
    models have (an export's query can fail at any page), and not a row of it. *)
Context (json_has : string -> string -> bool) (json_at : string -> nat -> string -> bool).

(** HasValue, TxIndex and OpIndex do not reach the statement; a scope restricts it
    when it names contracts. *)
Definition SQLite_where (q : EventQuery) (e : SEvent) : bool :=
  when (negb (bool_decide (Contracts (q_Scope q) = []))) (sql_in (ContractID e) (Contracts (q_Scope q))) &&
  common_cond q e &&
  when (nonempty (q_ContractIDPrefix q)) (SQLite_like (q_ContractIDPrefix q +++ "%") (ContractID e)) &&
  when (nonempty (f_Topic (q_filter q))) (json_has (Topics e) (f_Topic (q_filter q))) &&
  when (nonempty (f_TopicContains (q_filter q)))
    (match raw_elements (f_TopicContains (q_filter q)) with
     | Some arr => forallb (json_has (Topics e)) arr
     | None => false
     end) &&
  topics_at (json_at (Topics e)) (positional q) &&
  when (negb (time_IsZero (q_FromTime q))) (String.leb (formatTime (q_FromTime q)) (formatTime (CreatedAt e))) &&
  when (negb (time_IsZero (q_ToTime q))) (String.leb (formatTime (CreatedAt e)) (formatTime (q_ToTime q))).

Definition SQLite_col (q : EventQuery) (e : SEvent) : sval :=
  if bool_decide (q_OrderBy q = OrderByLedger) then SInt (Ledger e) else SText (formatTime (CreatedAt e)).

(** The predicate a cursor adds. *)
Definition SQLite_cursor (q : EventQuery) : result error (SEvent -> bool) :=
  let lt := event_lt String.ltb q in
  if bool_decide (q_Cursor q = "") then Ok (fun _ => true)
  else if by_id q then
    let? cursorID := DecodeEventIDCursorForBackend (time_Parses general) CursorBackendSQLite (q_Cursor q) in
    Ok (fun e => cursor_bound q cursorID e && lt (SInt 0, cursorID) (SInt 0, ID e))
  else
    let? (sortValue, id) := decodeCompositeCursorForBackend CursorBackendSQLite (q_Cursor q) in
    if bool_decide (q_OrderBy q = OrderByLedger) then
      match ParseInt sortValue with
      | None => Err (stale "%w: %w: ledger cursor sort value is not an integer")
      | Some l => Ok (fun e => (if is_desc q then Ledger e <=? l else l <=? Ledger e) && lt (SInt l, id) (SInt (Ledger e), ID e))
      end
    else
      match time_Parse general sortValue with
      | None => Err (stale "%w: %w: created_at cursor sort value is not RFC3339Nano")
      | Some t =>
          let formatted := formatTime t in
          Ok (fun e => (if is_desc q then String.leb (formatTime (CreatedAt e)) formatted else String.leb formatted (formatTime (CreatedAt e))) &&
                       lt (SText formatted, id) (SText (formatTime (CreatedAt e)), ID e))
      end.

(** scanEventSQLite: the time is read back from its text. *)
Definition scanEventSQLite (e : SEvent) : SEvent :=
  mkEvent (ID e) (ContractID e) (Ledger e) (Type_ e) (TxHash e) (TxIndex e) (OpIndex e) (InSuccessfulCall e)
    (Topics e) (Value e) (parseTime general (formatTime (CreatedAt e))) (Network e) (RawTopicXDR e) (RawValueXDR e).

Definition SQLite_QueryEvents (q : EventQuery) (rows : list SEvent) : result error (list SEvent * string) :=
  match ValidateSparseFilterRange globalMax (q_filter q) maxSpan with
  | Some err => Err err
  | None =>
      if negb (ValidOrderBy (q_OrderBy q)) then Err (Errorf "unsupported order_by %q" [])
      else
        let? after_ := SQLite_cursor q in
        let limit := clamp_limit (q_Limit q) in
        let fetched := take (S limit) (order_rows (event_key (SQLite_col q) q) (event_lt String.ltb q)
                                        (List.filter (fun e => SQLite_where q e && after_ e) rows)) in
        Ok (cursor_page CursorBackendSQLite q (scanEventSQLite <$> fetched))
  end.
End SQLite.

(** ** Postgres *)

Section Postgres.
(** topics @> x, topics->i = x. *)
Context (jsonb_contains : string -> string -> bool) (jsonb_at : string -> nat -> string -> bool).
(** The order of the id column, and the cast of a text to timestamptz. *)
Context (collate : string -> string -> bool) (timestamptz : string -> option Z).

Definition buildEventWhereClause (q : EventQuery) (e : SEvent) : bool :=
  when (negb (IsWildcard (q_Scope q))) (sql_in (ContractID e) (Contracts (q_Scope q))) &&
  common_cond q e &&
  when (nonempty (q_ContractIDPrefix q)) (Postgres_like (q_ContractIDPrefix q +++ "%") (ContractID e)) &&
  when (nonempty (f_Topic (q_filter q))) (jsonb_contains (Topics e) ("[" +++ f_Topic (q_filter q) +++ "]")) &&
  when (nonempty (f_TopicContains (q_filter q))) (jsonb_contains (Topics e) (f_TopicContains (q_filter q))) &&
  topics_at (jsonb_at (Topics e)) (positional q) &&
  opt_cond (q_HasValue q) (fun b => Bool.eqb b (nonempty (Value e))) &&
  opt_cond (q_TxIndex q) (fun i => TxIndex e =? i) &&
  opt_cond (q_OpIndex q) (fun i => OpIndex e =? i) &&
  when (negb (time_IsZero (q_FromTime q))) (q_FromTime q <=? CreatedAt e) &&
  when (negb (time_IsZero (q_ToTime q))) (CreatedAt e <=? q_ToTime q).

Definition Postgres_col (q : EventQuery) (e : SEvent) : sval :=
  if bool_decide (q_OrderBy q = OrderByLedger) then SInt (Ledger e) else SInt (CreatedAt e).

Definition Postgres_cursor (q : EventQuery) : result error (SEvent -> bool) :=
  let lt := event_lt collate q in
  if bool_decide (q_Cursor q = "") then Ok (fun _ => true)
  else if by_id q then
    let? cursorID := DecodeEventIDCursorForBackend (time_Parses general) CursorBackendPostgres (q_Cursor q) in
    Ok (fun e => cursor_bound q cursorID e && lt (SInt 0, cursorID) (SInt 0, ID e))
  else
    let? (sortValue, id) := decodeCompositeCursorForBackend CursorBackendPostgres (q_Cursor q) in
    if bool_decide (q_OrderBy q = OrderByLedger) then
      match ParseInt sortValue with
      | None => Err (stale "%w: %w: ledger cursor sort value is not an integer")
      | Some l => Ok (fun e => (if is_desc q then Ledger e <=? l else l <=? Ledger e) && lt (SInt l, id) (SInt (Ledger e), ID e))
      end
    else
      match time_Parse general sortValue with
      | None => Err (stale "%w: %w: created_at cursor sort value is not RFC3339Nano")
      | Some _ =>
          match timestamptz sortValue with
          | None => Err (Errorf "querying events: %w" [Sentinel (PgError "22007")])
          | Some t => Ok (fun e => lt (SInt t, id) (SInt (CreatedAt e), ID e))
          end
      end.

Definition Postgres_QueryEvents (q : EventQuery) (rows : list SEvent) : result error (list SEvent * string) :=
  if DeniesAll (q_Scope q) then Ok ([], "")
  else
    match ValidateSparseFilterRange globalMax (q_filter q) maxSpan with
    | Some err => Err err
    | None =>
        if negb (ValidOrderBy (q_OrderBy q)) then Err (Errorf "unsupported order_by %q" [])
        else
          let? after_ := Postgres_cursor q in
          let limit := clamp_limit (q_Limit q) in
          let fetched := take (S limit) (order_rows (event_key (Postgres_col q) q) (event_lt collate q)
                                          (List.filter (fun e => buildEventWhereClause q e && after_ e) rows)) in
          Ok (cursor_page CursorBackendPostgres q fetched)
    end.

(** CountEvents: the same predicates without the page. *)
Definition Postgres_CountEvents (q : EventQuery) (rows : list SEvent) : Z :=
  if DeniesAll (q_Scope q) then 0 else Z.of_nat (length (List.filter (buildEventWhereClause q) rows)).
End Postgres.
End Queries.

(** CountEvents of SQLite: fewer columns than QueryEvents filters by; a filter by
    type names a function (ANY) SQLite does not have. *)
Definition SQLite_count_where (json_has : string -> string -> bool) (json_at : string -> nat -> string -> bool)
    (q : EventQuery) (e : SEvent) : bool :=
  when (nonempty (q_ContractID q)) (bool_decide (ContractID e = q_ContractID q)) &&
  when (nonempty (f_Topic (q_filter q))) (json_has (Topics e) (f_Topic (q_filter q))) &&
  when (nonempty (f_TopicContains (q_filter q)))
    (match raw_elements (f_TopicContains (q_filter q)) with
     | Some arr => forallb (json_has (Topics e)) arr
     | None => false
     end) &&
  topics_at (json_at (Topics e)) (positional q) &&
  ledger_cond q e &&
  when (negb (time_IsZero (q_FromTime q))) (String.leb (formatTime (q_FromTime q)) (formatTime (CreatedAt e))) &&
  when (negb (time_IsZero (q_ToTime q))) (String.leb (formatTime (CreatedAt e)) (formatTime (q_ToTime q))).

Definition SQLite_CountEvents (json_has : string -> string -> bool) (json_at : string -> nat -> string -> bool)
    (q : EventQuery) (rows : list SEvent) : result error Z :=
  if negb (bool_decide (q_Types q = [])) then Err (Errorf "counting events: %w" [Sentinel (ForeignErr "no such function: ANY")])
  else Ok (Z.of_nat (length (List.filter (SQLite_count_where json_has json_at q) rows))).

Example like_prefix : Postgres_like "CA%" "CAB" = true /\ Postgres_like "ca%" "CAB" = false /\ SQLite_like "ca%" "CAB" = true /\
  SQLite_like "C_B%" "CAB" = true /\ Postgres_like "C\_B%" "CAB" = false.
Proof. vm_compute. done. Qed.

(** * Pages of events are pages of a keyset

    QueryEvents of both SQL stores, called with the cursor of a row it returned
    before, is the page after that row of the rows its filter matches: the
    interface [Lister], against which walks over the pages are verified. *)


(** ** Orders *)

#[export] Instance str_ltb_strict : StrictTotal String.ltb.
Proof.
  split.
  - intros k. rewrite ltb_leb. destruct (String.leb_total k k) as [->| ->]; done.
  - intros a b c. rewrite !ltb_leb, !negb_true_iff. intros H1 H2. destruct (String.leb c a) eqn:E; [|done].
    assert (Hbc : str_le b c) by (destruct (String.leb_total b c); [done|congruence]).
    assert (Hba : str_le b a) by (by transitivity c). unfold str_le in Hba. congruence.
  - intros a b. rewrite !ltb_leb, !negb_false_iff. intros H1 H2. by apply (anti_symm str_le).
Qed.

#[export] Instance sval_lt_strict : StrictTotal sval_lt.
Proof.
  split.
  - intros [n|s]; cbn; [lia|apply st_irrefl].
  - intros [a|a] [b|b] [c|c]; cbn; try done; [lia|apply st_trans].
  - intros [a|a] [b|b]; cbn; try done; intros H1 H2; f_equal; [lia|by apply st_total].
Qed.

#[export] Instance event_lt_strict id_lt q : StrictTotal id_lt -> StrictTotal (event_lt id_lt q).
Proof. intros H. unfold event_lt. apply _. Qed.

(** ** Rows *)

(** A row as the ingester stores it: its id is the canonical one of its ledger,
    and its time has a year of four digits. *)
Definition canonical (e : SEvent) : Prop :=
  1 <= Ledger e /\ time_ok (CreatedAt e) /\
  exists tx op ev, toid_range (Ledger e) tx op ev /\ ID e = FormatTOIDCursor (Ledger e) tx op ev.

Lemma canonical_ledger e : canonical e -> CursorLedger (ID e) = Some (Ledger e).
Proof. intros (Hl & _ & tx & op & ev & Hr & ->). by apply cursor_ledger_of_toid. Qed.

Lemma canonical_order a b : canonical a -> canonical b -> String.ltb (ID a) (ID b) = true -> Ledger a <= Ledger b.
Proof.
  intros (_ & _ & t1 & o1 & e1 & H1 & ->) (_ & _ & t2 & o2 & e2 & H2 & ->). unfold String.ltb.
  rewrite toid_order_is_chronological by done. unfold lex4. destruct (Z.compare_spec (Ledger a) (Ledger b)); (lia || done).
Qed.

Lemma canonical_id_chars e : canonical e -> ID e <> "" /\ str_all id_char (ID e) = true.
Proof.
  intros (_ & _ & tx & op & ev & Hr & ->). rewrite FormatTOID_digits by done.
  destruct (fixed_digits_cons 19 (toid_value (Ledger e) tx op)) as (c & s & Hc & _). split; [by rewrite Hc|].
  assert (Hd : forall x, is_digit x = true -> id_char x = true) by (intros x Hx; unfold id_char; by rewrite Hx).
  rewrite str_all_app. apply andb_true_iff. split; [eapply str_all_impl; [exact Hd|apply fixed_digits_all_digits]|].
  cbn [str_all]. apply andb_true_iff. split; [done|]. eapply str_all_impl; [exact Hd|apply fixed_digits_all_digits].
Qed.

Lemma canonical_no_bar e : canonical e -> str_contains "|" (ID e) = false.
Proof. intros [_ H]%canonical_id_chars. by apply (str_all_contains id_char). Qed.

Lemma canonical_range e : canonical e -> 1 <= Ledger e < 2 ^ 31.
Proof. intros (Hl & _ & tx & op & ev & Hr & _). unfold toid_range in Hr. lia. Qed.

Lemma format_nano_nonempty t : format_RFC3339Nano t <> "".
Proof.
  unfold format_RFC3339Nano. cbv zeta. match goal with |- ?a +++ _ <> "" => destruct a as [|c s] end; done.
Qed.

Lemma cursor_nonempty tag orderBy e : canonical e -> EncodeCursorForBackend tag orderBy e <> "".
Proof.
  intros He. unfold EncodeCursorForBackend. case_bool_decide; [|case_bool_decide; [|by apply canonical_id_chars]];
    unfold encodeCompositeCursorForBackend, wrapCursorEnvelope; by case_bool_decide.
Qed.

(** time.Parse does not accept a text that starts with a byte beyond ASCII. *)
Definition rejects_nonascii (general : string -> option Z) : Prop :=
  forall d s, 128 <= byte_val d -> general (String d s) = None.

Lemma time_Parses_nonascii general d s : rejects_nonascii general -> 128 <= byte_val d -> time_Parses general (String d s) = false.
Proof.
  intros Hg Hd. unfold time_Parses, time_Parse. rewrite (Hg d s Hd).
  replace (parseRFC3339 (String d s)) with (@None Z); [done|]. symmetry. unfold parseRFC3339, take_num.
  change (substring 0 4 (String d s)) with (String d (substring 0 3 s)). cbn [parse_digits].
  replace (is_digit d) with false; [done|]. unfold is_digit. destruct (Z.leb_spec (byte_val d) 57); [lia|by rewrite andb_false_r].
Qed.

Lemma id_cursor_back general backend e : rejects_nonascii general -> canonical e ->
  DecodeEventIDCursorForBackend (time_Parses general) backend (ID e) = Ok (ID e).
Proof.
  intros Hg (Hl & _ & tx & op & ev & Hr & ->). apply bare_event_id_accepted; [|done].
  intros d s Hd. by apply time_Parses_nonascii.
Qed.

(** ** The interface *)

(** [query] answers a filter with a page of the rows [li_where] matches, and takes
    the cursor of one of them as "after this row". *)
Class Lister (query : EventQuery -> list SEvent -> result error (list SEvent * string)) (tag : string)
    (good : EventQuery -> Prop) (row_ok : SEvent -> Prop) : Type := {
  li_where : EventQuery -> SEvent -> bool;
  li_col : EventQuery -> SEvent -> sval;
  li_ids : string -> string -> bool;
  li_strict : StrictTotal li_ids;
  li_canonical : forall e, row_ok e -> canonical e;
  li_page : forall q c rows, good q -> Forall row_ok rows -> (forall r, c = Some r -> row_ok r) ->
    query (set_cursor (match c with None => "" | Some r => EncodeCursorForBackend tag (q_OrderBy q) r end) q) rows =
    Ok (let '(p, next) := page (event_key (li_col q) q) (event_lt li_ids q) (clamp_limit (q_Limit q))
                            (event_key (li_col q) q <$> c) (List.filter (li_where q) rows) in
        (p, match next with None => "" | Some r => EncodeCursorForBackend tag (q_OrderBy q) r end)) }.

Lemma filter_and {A} (p r : A -> bool) l : List.filter (fun x => p x && r x) l = List.filter r (List.filter p l).
Proof. induction l as [|x l IH]; cbn; [done|]. destruct (p x); cbn; [destruct (r x); by rewrite IH|done]. Qed.

Lemma filter_ok {A} (P : A -> Prop) (p : A -> bool) l : Forall P l -> Forall P (List.filter p l).
Proof. rewrite !list.Forall_forall. intros H x Hx. apply H. rewrite list_elem_of_In, List.filter_In in Hx. apply list_elem_of_In. tauto. Qed.

Lemma filter_agree {A} (P : A -> Prop) (p r : A -> bool) l : Forall P l -> (forall x, P x -> p x = r x) -> List.filter p l = List.filter r l.
Proof.
  intros H Hp. induction H as [|x l Hx Hl IH]; cbn; [done|]. by rewrite (Hp x Hx), IH.
Qed.

(** A cursor that selects what is after a key makes a page. *)
Lemma cursor_page_is_page tag q col lt where_ after_ (c : option SEvent) rows :
  Forall canonical rows ->
  (forall e, canonical e -> after_ e = match c with None => true | Some r => lt (event_key col q r) (event_key col q e) end) ->
  cursor_page tag q (take (S (clamp_limit (q_Limit q))) (order_rows (event_key col q) lt (List.filter (fun e => where_ e && after_ e) rows))) =
  (let '(p, next) := page (event_key col q) lt (clamp_limit (q_Limit q)) (event_key col q <$> c) (List.filter where_ rows) in
   (p, match next with None => "" | Some r => EncodeCursorForBackend tag (q_OrderBy q) r end)).
Proof.
  intros Hr Ha. unfold cursor_page, page. rewrite filter_and. f_equal.
  replace (List.filter after_ (List.filter where_ rows)) with (after (event_key col q) lt (event_key col q <$> c) (List.filter where_ rows)); [done|].
  destruct c as [r|]; cbn.
  - symmetry. by apply (filter_agree canonical); [apply filter_ok|].
  - rewrite (filter_agree canonical after_ (fun _ => true)); [|by apply filter_ok|done].
    clear. by induction (List.filter where_ rows) as [|x l IH]; cbn; [|rewrite <- IH].
Qed.

Lemma flip_lt_pair desc (id_lt : string -> string -> bool) v a b :
  flip_lt desc (lex_lt sval_lt id_lt) (v, a) (v, b) = flip_lt desc id_lt a b.
Proof. unfold flip_lt, lex_lt. cbn. rewrite !st_irrefl, !bool_decide_eq_true_2 by done. by destruct desc. Qed.

(** The scalar bounds are implied by the row comparisons they go with. *)
Lemma id_bound_implied id_lt q r e : canonical r -> canonical e ->
  (forall a b, canonical a -> canonical b -> id_lt (ID a) (ID b) = true -> Ledger a <= Ledger b) ->
  cursor_bound q (ID r) e && event_lt id_lt q (SInt 0, ID r) (SInt 0, ID e) = event_lt id_lt q (SInt 0, ID r) (SInt 0, ID e).
Proof.
  intros Hr He Hm. unfold cursor_bound, event_lt. rewrite canonical_ledger, flip_lt_pair by done.
  match goal with |- (if ?c then _ else _) && _ = _ => destruct c; [|done] end. unfold flip_lt. destruct (is_desc q).
  - destruct (id_lt (ID e) (ID r)) eqn:E; [|by rewrite andb_false_r]. specialize (Hm e r He Hr E).
    destruct (Z.leb_spec (Ledger e) (Ledger r)); [done|lia].
  - destruct (id_lt (ID r) (ID e)) eqn:E; [|by rewrite andb_false_r]. specialize (Hm r e Hr He E).
    destruct (Z.leb_spec (Ledger r) (Ledger e)); [done|lia].
Qed.

Lemma ledger_bound_implied (id_lt : string -> string -> bool) q l l' a b :
  (if is_desc q then l' <=? l else l <=? l') && event_lt id_lt q (SInt l, a) (SInt l', b) = event_lt id_lt q (SInt l, a) (SInt l', b).
Proof.
  unfold event_lt, flip_lt, lex_lt. cbn [fst snd sval_lt]. destruct (is_desc q).
  - destruct (Z.leb_spec l' l); [done|]. cbn. rewrite bool_decide_eq_false_2 by (intros [= ->]; lia). destruct (Z.ltb_spec l' l); [lia|done].
  - destruct (Z.leb_spec l l'); [done|]. cbn. rewrite bool_decide_eq_false_2 by (intros [= ->]; lia). destruct (Z.ltb_spec l l'); [lia|done].
Qed.

Lemma text_bound_implied (id_lt : string -> string -> bool) q s s' a b :
  (if is_desc q then String.leb s' s else String.leb s s') && event_lt id_lt q (SText s, a) (SText s', b) = event_lt id_lt q (SText s, a) (SText s', b).
Proof.
  assert (H : forall x y, String.leb x y = false -> String.ltb x y = false /\ x <> y).
  { intros x y Hf. split; [|intros ->; destruct (String.leb_total y y); congruence].
    rewrite ltb_leb. destruct (String.leb_total x y) as [Hx|Hx]; [congruence|by rewrite Hx]. }
  unfold event_lt, flip_lt, lex_lt. cbn [fst snd sval_lt]. destruct (is_desc q).
  - destruct (String.leb s' s) eqn:E; [done|]. apply H in E as [-> Hne]. cbn. by rewrite bool_decide_eq_false_2 by congruence.
  - destruct (String.leb s s') eqn:E; [done|]. apply H in E as [-> Hne]. cbn. by rewrite bool_decide_eq_false_2 by congruence.
Qed.

(** ** SQLite *)

Definition valid_query (globalMax maxSpan : Z) (q : EventQuery) : Prop :=
  ValidateSparseFilterRange globalMax (q_filter q) maxSpan = None /\ ValidOrderBy (q_OrderBy q) = true.

Lemma order_by_cases q : ValidOrderBy (q_OrderBy q) = true ->
  by_id q = true /\ (forall tag e, EncodeCursorForBackend tag (q_OrderBy q) e = ID e) \/
  by_id q = false /\ q_OrderBy q = OrderByLedger \/ by_id q = false /\ q_OrderBy q = OrderByCreatedAt.
Proof.
  unfold ValidOrderBy, by_id. rewrite bool_decide_eq_true, !elem_of_cons. intros [E|[E|[E|[E|E]]]]; [| | | |set_solver]; rewrite E.
  - left. by split.
  - left. by split.
  - right; left. by split.
  - right; right. by split.
Qed.

Lemma ledger_cursor_back tag e : canonical e -> backends_agree tag tag = true ->
  decodeCompositeCursorForBackend tag (EncodeCursorForBackend tag OrderByLedger e) = Ok (FormatInt (Ledger e), ID e) /\
  ParseInt (FormatInt (Ledger e)) = Some (Ledger e).
Proof.
  intros He Ht. split; [|apply ParseInt_FormatInt; pose proof (canonical_range e He); unfold in_i64, minInt64, maxInt64; lia].
  apply composite_back; [apply FormatInt_nonempty|by apply canonical_id_chars|by apply canonical_no_bar|done].
Qed.

Lemma time_cursor_back tag e : canonical e -> backends_agree tag tag = true ->
  decodeCompositeCursorForBackend tag (EncodeCursorForBackend tag OrderByCreatedAt e) = Ok (format_RFC3339Nano (CreatedAt e), ID e).
Proof.
  intros He Ht. apply composite_back; [apply format_nano_nonempty|by apply canonical_id_chars|by apply canonical_no_bar|done].
Qed.

Lemma time_Parse_back general t : time_ok t -> time_Parse general (format_RFC3339Nano t) = Some t.
Proof. intros Ht. unfold time_Parse. by rewrite parse_RFC3339Nano. Qed.

Section Lists.
Context (globalMax maxSpan : Z) (general : string -> option Z) (Hgen : rejects_nonascii general).

Section SQLiteLists.
Context (json_has : string -> string -> bool) (json_at : string -> nat -> string -> bool).

Lemma SQLite_cursor_after q (c : option SEvent) : ValidOrderBy (q_OrderBy q) = true -> (forall r, c = Some r -> canonical r) ->
  exists after_, SQLite_cursor general (set_cursor (match c with None => "" | Some r => EncodeCursorForBackend CursorBackendSQLite (q_OrderBy q) r end) q) = Ok after_ /\
    forall e, canonical e -> after_ e = match c with None => true | Some r => event_lt String.ltb q (event_key (SQLite_col q) q r) (event_key (SQLite_col q) q e) end.
Proof.
  intros Hv Hc. destruct c as [r|]; [|by eexists]. specialize (Hc r eq_refl). unfold SQLite_cursor. cbn [set_cursor q_Cursor].
  rewrite bool_decide_eq_false_2 by (by apply cursor_nonempty). unfold event_key, SQLite_col.
  destruct (order_by_cases q Hv) as [[Hi He]|[[Hi Ho]|[Hi Ho]]].
  - change (by_id (set_cursor _ q)) with (by_id q). rewrite Hi, He, id_cursor_back by done. eexists. split; [done|].
    intros e Hce. apply (id_bound_implied String.ltb q); [done..|apply canonical_order].
  - change (by_id (set_cursor _ q)) with (by_id q). rewrite Hi, Ho. destruct (ledger_cursor_back CursorBackendSQLite r Hc eq_refl) as [-> Hp].
    cbn [rbind q_OrderBy set_cursor]. rewrite Ho, bool_decide_eq_true_2 by done. rewrite Hp. eexists. split; [done|]. intros e _. apply (ledger_bound_implied String.ltb q).
  - change (by_id (set_cursor _ q)) with (by_id q). rewrite Hi, Ho, time_cursor_back by done.
    cbn [rbind q_OrderBy set_cursor]. rewrite Ho, bool_decide_eq_false_2 by done. rewrite (time_Parse_back general (CreatedAt r)) by apply Hc.
    eexists. split; [done|]. intros e _. apply (text_bound_implied String.ltb q).
Qed.

Lemma scan_canonical l : Forall canonical l -> scanEventSQLite general <$> l = l.
Proof.
  induction 1 as [|e l He Hl IH]; [done|]. cbn. rewrite IH. f_equal. destruct He as (_ & Ht & _). unfold scanEventSQLite.
  rewrite parseTime_back by done. by destruct e.
Qed.

Lemma SQLite_page q c rows : valid_query globalMax maxSpan q -> Forall canonical rows -> (forall r, c = Some r -> canonical r) ->
  SQLite_QueryEvents globalMax maxSpan general json_has json_at
    (set_cursor (match c with None => "" | Some r => EncodeCursorForBackend CursorBackendSQLite (q_OrderBy q) r end) q) rows =
  Ok (let '(p, next) := page (event_key (SQLite_col q) q) (event_lt String.ltb q) (clamp_limit (q_Limit q))
                          (event_key (SQLite_col q) q <$> c) (List.filter (SQLite_where json_has json_at q) rows) in
      (p, match next with None => "" | Some r => EncodeCursorForBackend CursorBackendSQLite (q_OrderBy q) r end)).
Proof.
  intros [Hs Hv] Hrows Hc. unfold SQLite_QueryEvents. cbn [set_cursor q_filter q_OrderBy q_Limit]. rewrite Hs, Hv.
  destruct (SQLite_cursor_after q c Hv Hc) as (after_ & -> & Ha). cbn [negb rbind]. f_equal. rewrite scan_canonical.
  - by apply (cursor_page_is_page CursorBackendSQLite q (SQLite_col q) (event_lt String.ltb q) (SQLite_where json_has json_at q) after_ c rows).
  - apply Forall_take. rewrite order_rows_Permutation. by apply filter_ok.
Qed.

#[export] Instance SQLite_Lister : Lister (SQLite_QueryEvents globalMax maxSpan general json_has json_at) CursorBackendSQLite
  (valid_query globalMax maxSpan) canonical :=
  {| li_where := SQLite_where json_has json_at; li_col := SQLite_col; li_ids := String.ltb; li_strict := str_ltb_strict;
     li_canonical := fun _ H => H; li_page := SQLite_page |}.
End SQLiteLists.

(** ** Postgres *)

Section PostgresLists.
Context (jsonb_contains : string -> string -> bool) (jsonb_at : string -> nat -> string -> bool).
(** The collation is a total order that keeps canonical ids in the order of their
    ledgers, and a timestamp of whole microseconds is read back from its text. *)
Context (collate : string -> string -> bool) (timestamptz : string -> option Z).
Context (Hcol : StrictTotal collate)
  (Hids : forall a b, canonical a -> canonical b -> collate (ID a) (ID b) = true -> Ledger a <= Ledger b)
  (Htz : forall t, time_ok t -> t mod 1000 = 0 -> timestamptz (format_RFC3339Nano t) = Some t).

Definition pg_row (e : SEvent) : Prop := canonical e /\ CreatedAt e mod 1000 = 0.

Lemma Postgres_cursor_after q (c : option SEvent) : ValidOrderBy (q_OrderBy q) = true -> (forall r, c = Some r -> pg_row r) ->
  exists after_, Postgres_cursor general collate timestamptz
      (set_cursor (match c with None => "" | Some r => EncodeCursorForBackend CursorBackendPostgres (q_OrderBy q) r end) q) = Ok after_ /\
    forall e, canonical e -> after_ e = match c with None => true | Some r => event_lt collate q (event_key (Postgres_col q) q r) (event_key (Postgres_col q) q e) end.
Proof.
  intros Hv Hc. destruct c as [r|]; [|by eexists]. destruct (Hc r eq_refl) as [Hr Hus]. unfold Postgres_cursor. cbn [set_cursor q_Cursor].
  rewrite bool_decide_eq_false_2 by (by apply cursor_nonempty). unfold event_key, Postgres_col.
  change (by_id (set_cursor _ q)) with (by_id q).
  destruct (order_by_cases q Hv) as [[Hi He]|[[Hi Ho]|[Hi Ho]]]; rewrite Hi.
  - rewrite He, id_cursor_back by done. eexists. split; [done|]. intros e Hce. by apply (id_bound_implied collate q).
  - rewrite Ho. destruct (ledger_cursor_back CursorBackendPostgres r Hr eq_refl) as [-> Hp].
    cbn [rbind q_OrderBy set_cursor]. rewrite Ho, bool_decide_eq_true_2 by done. rewrite Hp. eexists. split; [done|]. intros e _. apply (ledger_bound_implied collate q).
  - rewrite Ho, time_cursor_back by done. cbn [rbind q_OrderBy set_cursor].
    rewrite Ho, bool_decide_eq_false_2 by done. rewrite (time_Parse_back general (CreatedAt r)), Htz by (done || apply Hr). eexists. by split.
Qed.

Definition pg_query (q : EventQuery) : Prop := DeniesAll (q_Scope q) = false /\ valid_query globalMax maxSpan q.

Lemma Postgres_page q c rows : pg_query q -> Forall pg_row rows -> (forall r, c = Some r -> pg_row r) ->
  Postgres_QueryEvents globalMax maxSpan general jsonb_contains jsonb_at collate timestamptz
    (set_cursor (match c with None => "" | Some r => EncodeCursorForBackend CursorBackendPostgres (q_OrderBy q) r end) q) rows =
  Ok (let '(p, next) := page (event_key (Postgres_col q) q) (event_lt collate q) (clamp_limit (q_Limit q))
                          (event_key (Postgres_col q) q <$> c) (List.filter (buildEventWhereClause jsonb_contains jsonb_at q) rows) in
      (p, match next with None => "" | Some r => EncodeCursorForBackend CursorBackendPostgres (q_OrderBy q) r end)).
Proof.
  intros (Hd & Hs & Hv) Hrows Hc. unfold Postgres_QueryEvents. cbn [set_cursor q_filter q_OrderBy q_Limit q_Scope]. rewrite Hd, Hs, Hv.
  destruct (Postgres_cursor_after q c Hv Hc) as (after_ & -> & Ha). cbn [negb rbind]. f_equal.
  apply (cursor_page_is_page CursorBackendPostgres q (Postgres_col q) (event_lt collate q) (buildEventWhereClause jsonb_contains jsonb_at q) after_ c rows); [|done].
  eapply list.Forall_impl; [exact Hrows|]. by intros e [H _].
Qed.

#[export] Instance Postgres_Lister : Lister (Postgres_QueryEvents globalMax maxSpan general jsonb_contains jsonb_at collate timestamptz) CursorBackendPostgres
  pg_query pg_row :=
  {| li_where := buildEventWhereClause jsonb_contains jsonb_at; li_col := Postgres_col; li_ids := collate; li_strict := Hcol;
     li_canonical := fun _ H => proj1 H; li_page := Postgres_page |}.
End PostgresLists.
End Lists.
