(* ===== verification/Export.v ===== *)
(** * Exports (internal/api/export.go, internal/api/export_stream.go)

    The formats, the cells of a CSV row, the checks of an export request, and the
    streaming loop that pages through QueryEvents. The loop runs over an interface
    for the store, the response writer and the request's context; how a failure
    ends the response is a value. Log lines and metering are left out. *)

From S2P Require Import Prelude GoStrings Codec StoreErrors StoreTypes GoTime GoSort GoJson Keyset Cursor RpcTypes ReorgTracker SqliteStore Scope Broadcast EventQuery.
From stdpp Require Import sorting.
From Stdlib Require Import Ascii String.
Local Open Scope Z_scope.
Local Open Scope go_scope.

Local Notation length := List.length.
Local Abbreviation SEvent := StoreTypes.Event.

(** ** Parameters *)

Definition exportQueryBatchSize : Z := 200.

Inductive exportFormat : Type := formatCSV | formatNDJSON.

Definition parseExportFormat (raw : string) : option exportFormat :=
  let s := ToLower (TrimSpace raw) in
  if bool_decide (s ∈ [""; "csv"]) then Some formatCSV
  else if bool_decide (s = "ndjson") then Some formatNDJSON else None.

Definition parseExportTerminator (raw : string) : option bool :=
  let s := ToLower (TrimSpace raw) in
  if bool_decide (s ∈ [""; "false"; "0"]) then Some false
  else if bool_decide (s ∈ ["true"; "1"]) then Some true else None.

(** ** Rows *)

Definition json_Valid (s : string) : bool := match json_Compact s with Some _ => true | None => false end.

Definition csvSafe (cell : string) : string :=
  match cell with
  | EmptyString => cell
  | String c _ =>
      if bool_decide (byte_val c ∈ [61; 43; 64; 9; 13]) then "'" +++ cell
      else if byte_val c =? 45 then (if json_Valid cell then cell else "'" +++ cell)
      else cell
  end.

Definition exportCSVHeader : list string := ["id"; "ledger"; "type"; "tx_hash"; "topics"; "value"].
Definition exportCSVRow (ev : SEvent) : list string :=
  [csvSafe (ID ev); FormatInt (Ledger ev); csvSafe (Type_ ev); csvSafe (TxHash ev); csvSafe (Topics ev); csvSafe (Value ev)].

(** ** The request *)

Definition no_filter : StoreTypes.EventFilter := mkEventFilter "" "" "" "" "" "" 0 0.
Definition all_events : EventQuery := mkQuery no_filter "" "" [] "" [] "" None None None None time_zero time_zero "" 0 "" "" zeroScope.

Definition exportFilter (scope : Scope) (contractID : string) (fromLedger toLedger : Z) : EventQuery :=
  mkQuery (mkEventFilter "" "" "" "" "" "" fromLedger toLedger) "" contractID [] "" [] "" None None None None time_zero time_zero
    "" exportQueryBatchSize "asc" OrderByLedger scope.

(** ** The stream *)

(** Booleans are failures; [xe_ctxErr] is ctx.Err() != nil. *)
Class ExportEnv (W : Type) : Type := {
  xe_query : EventQuery -> W -> result error (list SEvent * string) * W;
  xe_header : W -> bool * W;
  xe_write : SEvent -> W -> bool * W;
  xe_flush : W -> bool * W;
  xe_ctxErr : W -> bool * W }.

(** How the response ends: with the trailers of a complete export, with an error
    document, or as a broken stream. *)
Inductive export_end : Type := ExportComplete (rows : Z) | ExportFailed | ExportIncomplete.

Definition export_fail (started : bool) : export_end := if started then ExportIncomplete else ExportFailed.

Section Stream.
Context {W : Type} `{!ExportEnv W}.
Context (format : exportFormat).

(** The rows written before the first write that fails, and whether one did. *)
Fixpoint write_events (events : list SEvent) (w : W) : list SEvent * bool * W :=
  match events with
  | [] => ([], false, w)
  | ev :: rest =>
      let '(err, w) := xe_write ev w in
      if (err : bool) then ([], true, w)
      else let '(out, err, w) := write_events rest w in (ev :: out, err, w)
  end.

Definition flush_page (w : W) : bool * W := match format with formatCSV => xe_flush w | formatNDJSON => (false, w) end.

(** [fuel] bounds the pages, None when it runs out. *)
Fixpoint export_loop (fuel : nat) (filter : EventQuery) (started : bool) (out : list SEvent) (w : W)
  : option (export_end * list SEvent * W) :=
  match fuel with
  | O => None
  | S fuel =>
      let '(r, w) := xe_query filter w in
      match r with
      | Err _ => Some (export_fail started, out, w)
      | Ok (events, cursor) =>
          let '(written, err, w) := write_events events w in
          let out := (out ++ written)%list in
          let started := started || negb (bool_decide (written = [])) in
          if (err : bool) then Some (export_fail started, out, w)
          else
            let '(err, w) := flush_page w in
            if (err : bool) then Some (export_fail started, out, w)
            else if bool_decide (cursor = "") then Some (ExportComplete (Z.of_nat (length out)), out, w)
            else
              let '(err, w) := xe_ctxErr w in
              if (err : bool) then Some (export_fail started, out, w)
              else export_loop fuel (set_cursor cursor filter) started out w
      end
  end.

Definition streamExportOpts (fuel : nat) (filter : EventQuery) (w : W) : option (export_end * list SEvent * W) :=
  match format with
  | formatCSV =>
      let '(err, w) := xe_header w in
      if (err : bool) then Some (export_fail false, [], w) else export_loop fuel filter true [] w
  | formatNDJSON => export_loop fuel filter false [] w
  end.
End Stream.

(** ** A server over a store whose table changes between pages *)

(** Every query sees the next table and fails when there is none left; scripts say
    which writes, flushes and context checks fail. *)
Record XWorld : Type := mkXWorld {
  xw_tables : list (list SEvent);
  xw_writes : list bool;
  xw_flushes : list bool;
  xw_ctx : list bool }.

Definition pop (l : list bool) : bool * list bool := match l with b :: l => (b, l) | [] => (false, []) end.

Section Server.
Context (query : EventQuery -> list SEvent -> result error (list SEvent * string)).

#[export] Instance server_env : ExportEnv XWorld := {|
  xe_query q w :=
    match xw_tables w with
    | [] => (Err (Sentinel NetError), w)
    | rows :: rest => (query q rows, mkXWorld rest (xw_writes w) (xw_flushes w) (xw_ctx w))
    end;
  xe_header w := let '(b, l) := pop (xw_writes w) in (b, mkXWorld (xw_tables w) l (xw_flushes w) (xw_ctx w));
  xe_write _ w := let '(b, l) := pop (xw_writes w) in (b, mkXWorld (xw_tables w) l (xw_flushes w) (xw_ctx w));
  xe_flush w := let '(b, l) := pop (xw_flushes w) in (b, mkXWorld (xw_tables w) (xw_writes w) l (xw_ctx w));
  xe_ctxErr w := let '(b, l) := pop (xw_ctx w) in (b, mkXWorld (xw_tables w) (xw_writes w) (xw_flushes w) l) |}.

Definition calm_server (tables : list (list SEvent)) : XWorld := mkXWorld tables [] [] [].

(** The export of a filter over the tables the server goes through. *)
Definition export (format : exportFormat) (fuel : nat) (filter : EventQuery) (w : XWorld) : option (export_end * list SEvent * XWorld) :=
  streamExportOpts format fuel filter w.
End Server.

Example csv_cells : csvSafe "=1+1" = "'=1+1" /\ csvSafe "-5" = "-5" /\ csvSafe "-5+cmd" = "'-5+cmd" /\ csvSafe "[1]" = "[1]".
Proof. vm_compute. done. Qed.

(** * Exports list every row once

    Against the [Lister] interface: what an export that reports completion has
    written, over tables that change between its pages. *)


(** ** Writing a page *)

Section Write.
Context (query : EventQuery -> list SEvent -> result error (list SEvent * string)).

Lemma write_events_all events : forall (w : XWorld) out w', write_events (ExportEnv0 := server_env query) events w = (out, false, w') ->
  out = events /\ xw_tables w' = xw_tables w.
Proof.
  induction events as [|e events IH]; intros w out w'; cbn [write_events]; [by intros [= <- <-]|].
  destruct (xe_write e w) as [err w1] eqn:E. destruct err; [done|]. cbn in E. destruct (pop (xw_writes w)) as [b l]. injection E as -> <-.
  destruct (write_events events _) as [[out1 err1] w2] eqn:E2. intros [= <- -> <-]. apply IH in E2 as [-> ->]. done.
Qed.

Lemma write_events_calm events : forall tables, write_events (ExportEnv0 := server_env query) events (calm_server tables) = (events, false, calm_server tables).
Proof. induction events as [|e events IH]; intros tables; cbn; [done|]. unfold calm_server in IH. by rewrite IH. Qed.
End Write.

Section ExportWalk.
Context {query : EventQuery -> list SEvent -> result error (list SEvent * string)} {tag : string}
  {good : EventQuery -> Prop} {row_ok : SEvent -> Prop} {L : Lister query tag good row_ok}.
Local Existing Instance li_strict.

Definition li_key (q : EventQuery) : SEvent -> sval * string := event_key (li_col q) q.
Definition li_lt (q : EventQuery) : sval * string -> sval * string -> bool := event_lt li_ids q.

(** The cursor of a row, none before the first. *)
Definition cursor_at (q : EventQuery) (c : option SEvent) : string :=
  match c with None => "" | Some r => EncodeCursorForBackend tag (q_OrderBy q) r end.

(** The tables as the filter sees them. *)
Definition seen (q : EventQuery) (tables : list (list SEvent)) : list (list SEvent) := List.filter (li_where q) <$> tables.

Definition table_ok (q : EventQuery) (rows : list SEvent) : Prop :=
  Forall row_ok rows /\ NoDup (ID <$> List.filter (li_where q) rows).

Lemma keys_NoDup q l : NoDup (ID <$> l) -> NoDup (li_key q <$> l).
Proof.
  intros H. apply (NoDup_fmap_1 snd). rewrite <- list_fmap_compose. exact H.
Qed.

Lemma limit_pos n : (0 < clamp_limit n)%nat.
Proof. unfold clamp_limit, DefaultQueryLimit, MaxQueryLimit. destruct (Z.leb_spec n 0); repeat case_match; lia. Qed.

Lemma tables_keyed q tables : Forall (table_ok q) tables -> Forall (fun rows => NoDup (li_key q <$> rows)) (seen q tables).
Proof. intros H. unfold seen. apply Forall_fmap. eapply list.Forall_impl; [exact H|]. intros rows [_ Hn]. by apply keys_NoDup. Qed.

Lemma page_next_ok q c rows p r : table_ok q rows ->
  page (li_key q) (li_lt q) (clamp_limit (q_Limit q)) c (List.filter (li_where q) rows) = (p, Some r) -> row_ok r.
Proof.
  intros [Hr Hn] Hp. apply (page_spec (li_key q) (li_lt q)) in Hp as (_ & _ & Hin & _ & Hrp & _); [|apply limit_pos|by apply keys_NoDup].
  apply Hin, elem_of_after in Hrp as [Hrp _]. pose proof (filter_ok row_ok (li_where q) rows Hr) as Hf. rewrite list.Forall_forall in Hf. by apply Hf.
Qed.

(** A loop that reports completion is a walk that ends. *)
Lemma export_loop_walk format q : good q -> forall fuel c started out0 (w w' : XWorld) n out,
  Forall (table_ok q) (xw_tables w) -> (forall r, c = Some r -> row_ok r) ->
  export_loop (ExportEnv0 := server_env query) format fuel (set_cursor (cursor_at q c) q) started out0 w = Some (ExportComplete n, out, w') ->
  exists more, walk (li_key q) (li_lt q) (clamp_limit (q_Limit q)) (li_key q <$> c) (seen q (xw_tables w)) = (more, true) /\
    out = (out0 ++ more)%list /\ n = Z.of_nat (length out).
Proof.
  intros Hq. induction fuel as [|fuel IH]; intros c started out0 w w' n out Ht Hc; cbn [export_loop]; [done|].
  destruct w as [tables writes flushes ctx]. cbn [xe_query server_env xw_tables] in *.
  destruct tables as [|rows rest]; [by destruct started|]. apply list.Forall_cons in Ht as [Hrows Hrest].
  unfold cursor_at. rewrite (li_page q c rows Hq (proj1 Hrows) Hc). fold (li_key q) (li_lt q). cbn [seen fmap list_fmap walk].
  destruct (page (li_key q) (li_lt q) _ _ _) as [p next] eqn:Ep. cbn [rbind].
  destruct (write_events p _) as [[written err] w1] eqn:Ew. destruct err; [by destruct started, written|].
  apply write_events_all in Ew as [-> Et]. cbn in Et.
  destruct (flush_page _ w1) as [err w2] eqn:Ef. assert (Et2 : xw_tables w2 = rest).
  { unfold flush_page in Ef. destruct format; [|by injection Ef as _ <-]. cbn in Ef. destruct (pop _). by injection Ef as _ <-. }
  destruct err; [by destruct started, p|].
  destruct next as [r|]; [|intros [= <- <- _]; by eexists].
  pose proof (page_next_ok q _ rows p r Hrows Ep) as Hr. rewrite bool_decide_eq_false_2 by (apply cursor_nonempty; by apply li_canonical).
  destruct (xe_ctxErr w2) as [err w3] eqn:Ec. assert (Et3 : xw_tables w3 = rest).
  { cbn in Ec. destruct (pop _). by injection Ec as _ <-. }
  destruct err; [by destruct started, p|]. intros Hl.
  change (set_cursor _ (set_cursor _ q)) with (set_cursor (cursor_at q (Some r)) q) in Hl.
  apply IH in Hl as (more & Hw & -> & ->); [|by rewrite Et3|by intros ? [= <-]].
  rewrite Et3 in Hw. cbn [fmap option_fmap option_map] in Hw. unfold seen in Hw. rewrite Hw. eexists. split; [done|]. by rewrite app_assoc.
Qed.

(** Over a calm server the loop follows the walk. *)
Lemma export_loop_calm format q : good q -> forall tables c started out0 more,
  Forall (table_ok q) tables -> (forall r, c = Some r -> row_ok r) ->
  walk (li_key q) (li_lt q) (clamp_limit (q_Limit q)) (li_key q <$> c) (seen q tables) = (more, true) ->
  exists w', export_loop (ExportEnv0 := server_env query) format (length tables) (set_cursor (cursor_at q c) q) started out0 (calm_server tables) =
    Some (ExportComplete (Z.of_nat (length (out0 ++ more)%list)), (out0 ++ more)%list, w').
Proof.
  intros Hq. induction tables as [|rows tables IH]; intros c started out0 more Ht Hc; [done|]. apply list.Forall_cons in Ht as [Hrows Hrest].
  cbn [seen fmap list_fmap walk length export_loop calm_server xe_query server_env xw_tables].
  unfold cursor_at. rewrite (li_page q c rows Hq (proj1 Hrows) Hc). fold (li_key q) (li_lt q).
  destruct (page (li_key q) (li_lt q) _ _ _) as [p next] eqn:Ep. cbn [xw_writes xw_flushes xw_ctx].
  match goal with |- context [write_events p ?w0] => change w0 with (calm_server tables) end. rewrite write_events_calm.
  assert (Hfl : flush_page (ExportEnv0 := server_env query) format (calm_server tables) = (false, calm_server tables)) by (by destruct format).
  rewrite Hfl. destruct next as [r|]; [|by intros [= <-]; eexists].
  pose proof (page_next_ok q _ rows p r Hrows Ep) as Hr. rewrite bool_decide_eq_false_2 by (apply cursor_nonempty; by apply li_canonical).
  destruct (walk _ _ _ (Some (li_key q r)) _) as [more' fin] eqn:Ew. intros [= <- ->]. cbn [calm_server xe_ctxErr server_env xw_ctx pop xw_tables xw_writes xw_flushes].
  destruct (IH (Some r) (started || negb (bool_decide (p = []))) (out0 ++ p)%list more') as [w' Hw]; [done|by intros ? [= <-]|exact Ew|].
  exists w'. rewrite <- app_assoc in Hw. exact Hw.
Qed.

Lemma export_is_loop format fuel q (w w' : XWorld) n out :
  export query format fuel q w = Some (ExportComplete n, out, w') ->
  exists started w1, xw_tables w1 = xw_tables w /\ export_loop (ExportEnv0 := server_env query) format fuel q started [] w1 = Some (ExportComplete n, out, w').
Proof.
  unfold export, streamExportOpts. destruct format; [|by exists false, w].
  cbn [xe_header server_env]. destruct (pop (xw_writes w)) as [[] l]; [done|]. intros H. eexists true, _. by split; [|exact H].
Qed.

Lemma export_lists format fuel q (w w' : XWorld) n out : good q -> q_Cursor q = "" -> Forall (table_ok q) (xw_tables w) ->
  export query format fuel q w = Some (ExportComplete n, out, w') ->
  n = Z.of_nat (length out) /\ StronglySorted (key_lt (li_key q) (li_lt q)) out /\
  (forall e, e ∈ out -> li_where q e = true /\ exists rows, rows ∈ xw_tables w /\ e ∈ rows) /\
  (forall e, li_where q e = true -> (forall rows, rows ∈ xw_tables w -> e ∈ rows) -> e ∈ out).
Proof.
  intros Hq Hc Ht H. apply export_is_loop in H as (started & w1 & Et & H).
  assert (Hs : set_cursor (cursor_at q None) q = q) by (destruct q; cbn in *; by subst).
  rewrite <- Hs in H. apply (export_loop_walk format q Hq fuel None) in H as (more & Hw & -> & ->); [|by rewrite Et|done].
  rewrite Et in Hw. cbn [app]. split; [done|].
  assert (Hel : forall e rows, e ∈ List.filter (li_where q) rows <-> e ∈ rows /\ li_where q e = true).
  { intros e rows. rewrite !list_elem_of_In, List.filter_In. done. }
  apply (walk_spec (li_key q) (li_lt q)) in Hw as (Hso & Hin & Hall); [|apply limit_pos|by apply tables_keyed].
  split; [done|]. split.
  - intros e He. apply Hin in He as [(rows & Hr & He) _]. apply list_elem_of_fmap in Hr as (rows' & -> & Hr). apply Hel in He as [He Hw].
    split; [done|]. by exists rows'.
  - intros e He Hr. apply Hall; [done| |done]. intros rows Hrows. apply list_elem_of_fmap in Hrows as (rows' & -> & Hrows').
    apply Hel. split; [by apply Hr|done].
Qed.
End ExportWalk.

(** ** Over the SQLite tables *)

Definition event_rows (d : DB) : list SEvent := (map_to_list (t_events d)).*2.

(** The rows are keyed by their network and id, as the ingester stores them. *)
Definition stored_ok (d : DB) : Prop := map_Forall (fun k e => k = (Network e, ID e) /\ canonical e) (t_events d).

(** The filter asks for one network, or networks do not share event ids. *)
Definition one_network (q : EventQuery) (d : DB) : Prop :=
  q_Network q <> "" \/ forall e e', e ∈ event_rows d -> e' ∈ event_rows d -> ID e = ID e' -> Network e = Network e'.

Lemma elem_event_rows d e : stored_ok d -> e ∈ event_rows d <-> t_events d !! (Network e, ID e) = Some e.
Proof.
  intros Hd. unfold event_rows. rewrite list_elem_of_fmap. split.
  - intros ([k e'] & -> & Hk). apply elem_of_map_to_list in Hk. destruct (Hd k e' Hk) as [-> _]. done.
  - intros Hk. exists ((Network e, ID e), e). split; [done|]. by apply elem_of_map_to_list.
Qed.

Lemma sqlite_table_ok globalMax maxSpan general Hgen json_has json_at q d : stored_ok d -> one_network q d ->
  table_ok (L := SQLite_Lister globalMax maxSpan general Hgen json_has json_at) q (event_rows d).
Proof.
  intros Hd Hn. split.
  - apply list.Forall_forall. intros e He. apply (elem_event_rows d e Hd) in He. by destruct (Hd _ _ He).
  - cbn [li_where SQLite_Lister].
    assert (Hnd : NoDup (event_rows d)).
    { unfold event_rows. apply NoDup_fmap_2_strong; [|apply NoDup_map_to_list]. intros [k e] [k' e'] H1 H2 E. cbn in E. subst e'.
      apply elem_of_map_to_list in H1, H2. destruct (Hd _ _ H1) as [-> _], (Hd _ _ H2) as [-> _]. done. }
    assert (Hf : forall e, e ∈ List.filter (SQLite_where json_has json_at q) (event_rows d) -> e ∈ event_rows d /\ SQLite_where json_has json_at q e = true).
    { intros e. by rewrite !list_elem_of_In, List.filter_In. }
    apply NoDup_fmap_2_strong; [|apply NoDup_ListNoDup, List.NoDup_filter, NoDup_ListNoDup, Hnd].
    intros e e' [He Hw]%Hf [He' Hw']%Hf Hid. assert (Hnet : Network e = Network e').
    { destruct Hn as [Hn|Hn]; [|by apply Hn]. assert (Hx : forall x, SQLite_where json_has json_at q x = true -> Network x = defaultNetwork (q_Network q)).
      { intros x. unfold SQLite_where, common_cond, when, nonempty. rewrite (bool_decide_eq_false_2 (q_Network q = "")) by done. cbn [negb].
        rewrite !andb_true_iff, bool_decide_eq_true. tauto. }
      by rewrite (Hx e Hw), (Hx e' Hw'). }
    apply (elem_event_rows d _ Hd) in He, He'. rewrite Hid, Hnet in He. congruence.
Qed.


(** ** Runs *)

Definition demo_event (network : string) (ledger ev created : Z) : SEvent :=
  mkEvent (FormatTOIDCursor ledger 1 1 ev) "C" ledger "contract" "t" 1 1 true "[]" "1" created network [] "".

Definition demo_db (events : list SEvent) : DB := with_events (list_to_map ((fun e => ((Network e, ID e), e)) <$> events)) db_empty.

Definition no_json (_ _ : string) : bool := false.
Definition no_json_at (_ : string) (_ : nat) (_ : string) : bool := false.
Definition strict_time (_ : string) : option Z := None.

(** Pages of two rows, newest first. *)
Definition demo_query (limit : Z) : EventQuery :=
  mkQuery no_filter "" "" [] "" [] "" None None None None time_zero time_zero "" limit "desc" OrderByCreatedAt WildcardScope.

Definition demo_rows : list SEvent := [demo_event "default" 7 0 (9 * Second); demo_event "default" 8 0 (8 * Second); demo_event "default" 8 1 (9 * Second)].

Lemma demo_event_canonical network ledger ev created : 1 <= ledger < 2 ^ 31 -> 0 <= ev < 2 ^ 31 -> time_ok created -> canonical (demo_event network ledger ev created).
Proof.
  intros Hl He Ht. split; [cbn; lia|]. split; [done|]. exists 1, 1, ev. split; [unfold toid_range; cbn; lia|done].
Qed.

Lemma demo_stored : stored_ok (demo_db demo_rows) /\ one_network (demo_query 2) (demo_db demo_rows).
Proof.
  assert (Ht : time_ok (9 * Second) /\ time_ok (8 * Second)) by (unfold time_ok; vm_compute; intuition congruence).
  assert (Hall : Forall (fun e => canonical e /\ Network e = "default") demo_rows).
  { repeat constructor; apply demo_event_canonical; (lia || apply Ht). }
  assert (Hm : map_Forall (fun k e => k = (Network e, ID e) /\ e ∈ demo_rows) (t_events (demo_db demo_rows))).
  { intros k e Hk. unfold demo_db, with_events in Hk. cbn [t_events] in Hk. apply elem_of_list_to_map_2, list_elem_of_fmap in Hk as (e' & [= -> ->] & He). done. }
  rewrite list.Forall_forall in Hall. split.
  - intros k e Hk. destruct (Hm k e Hk) as [-> He]. split; [done|]. by apply Hall.
  - right. assert (Hd : forall e, e ∈ event_rows (demo_db demo_rows) -> Network e = "default").
    { intros e He. unfold event_rows in He. apply list_elem_of_fmap in He as ([k e'] & -> & Hk). apply elem_of_map_to_list in Hk.
      apply Hall. by destruct (Hm _ _ Hk). }
    intros e e' He He' _. by rewrite (Hd e He), (Hd e' He').
Qed.

Lemma demo_order : order_rows (event_key (SQLite_col (demo_query 2)) (demo_query 2)) (event_lt String.ltb (demo_query 2))
    (List.filter (SQLite_where no_json no_json_at (demo_query 2)) (event_rows (demo_db demo_rows))) =
  [demo_event "default" 8 1 (9 * Second); demo_event "default" 7 0 (9 * Second); demo_event "default" 8 0 (8 * Second)] /\
  length (List.filter (SQLite_where no_json no_json_at (demo_query 2)) (event_rows (demo_db demo_rows))) = 3%nat.
Proof. vm_compute. done. Qed.

Lemma demo_valid : rejects_nonascii strict_time /\ valid_query 0 0 (demo_query 2).
Proof. split; [done|]. by split. Qed.


(** The key of the events table is (network, id), the cursor only carries the id:
    when two networks share an id and a page ends between them, the second row is
    in no page, although the export reports completion. *)
Lemma shared_ids_are_skipped :
  exists q d out w', length (List.filter (SQLite_where no_json no_json_at q) (event_rows d)) = 2%nat /\
    export (SQLite_QueryEvents 0 0 strict_time no_json no_json_at) formatNDJSON 5 q (calm_server (replicate 5 (event_rows d))) =
      Some (ExportComplete 1, out, w').
Proof.
  exists (mkQuery no_filter "" "" [] "" [] "" None None None None time_zero time_zero "" 1 "asc" "" WildcardScope),
    (demo_db [demo_event "pubnet" 7 0 (9 * Second); demo_event "testnet" 7 0 (9 * Second)]). eexists _, _. split; vm_compute; reflexivity.
Qed.

(** A scope without contracts, which denies everything, lists every row of SQLite
    and none of Postgres. *)
Lemma empty_scope_lists_everything q json_has json_at jsonb_contains jsonb_at collate tz general rows :
  q_Scope q = zeroScope -> DeniesAll (q_Scope q) = true /\
  (forall e, SQLite_where json_has json_at q e = SQLite_where json_has json_at (mkQuery (q_filter q) (q_Network q) (q_ContractID q) (q_ContractIDs q)
     (q_ContractIDPrefix q) (q_Types q) (q_TxHash q) (q_InSuccessfulCall q) (q_HasValue q) (q_TxIndex q) (q_OpIndex q) (q_FromTime q) (q_ToTime q)
     (q_Cursor q) (q_Limit q) (q_Order q) (q_OrderBy q) WildcardScope) e) /\
  Postgres_QueryEvents 0 0 general jsonb_contains jsonb_at collate tz q rows = Ok ([], "").
Proof.
  intros Hs. split_and!; [by rewrite Hs| |unfold Postgres_QueryEvents; by rewrite Hs].
  intros e. unfold SQLite_where, common_cond, contract_cond, ledger_cond, positional. cbn. by rewrite Hs.
Qed.

(** SQLite does not look at has_value, tx_index and op_index, and counts without
    the transaction hash, the network, the scope and all but one contract. *)
Lemma sqlite_ignores_filters : exists q e, SQLite_where no_json no_json_at q e = true /\
  buildEventWhereClause no_json no_json_at q e = false /\ q_TxIndex q = Some 9 /\ TxIndex e = 1.
Proof.
  exists (mkQuery no_filter "" "" [] "" [] "" None None (Some 9) None time_zero time_zero "" 0 "" "" WildcardScope), (demo_event "default" 7 0 Second).
  vm_compute. done.
Qed.

Lemma sqlite_counts_other_rows : exists q e, SQLite_where no_json no_json_at q e = false /\ SQLite_CountEvents no_json no_json_at q [e] = Ok 1.
Proof.
  exists (mkQuery no_filter "" "" [] "" [] "other" None None None None time_zero time_zero "" 0 "" "" WildcardScope), (demo_event "default" 7 0 Second).
  vm_compute. done.
Qed.

(** ** Cells *)

(** No exported cell starts with a character spreadsheets take for a formula,
    except a minus in front of a JSON document. *)
Lemma csv_cells_are_inert cell c s : csvSafe cell = String c s ->
  byte_val c ∉ [61; 43; 64; 9; 13] /\ (byte_val c = 45 -> json_Valid (csvSafe cell) = true).
Proof.
  assert (Hq : byte_val "'" ∉ [61; 43; 64; 9; 13] /\ byte_val "'" <> 45) by (split; [apply (bool_decide_unpack _); vm_compute|vm_compute]; done).
  unfold csvSafe. destruct cell as [|x cell]; [done|]. case_bool_decide as E1; [intros [= <- _]; naive_solver|].
  destruct (Z.eqb_spec (byte_val x) 45) as [E2|E2].
  - destruct (json_Valid (String x cell)) eqn:Ev; intros [= <- _]; naive_solver.
  - intros [= <- _]. naive_solver.
Qed.
