(* ===== verification/ApiQuery.v ===== *)
(** * Filters from requests (internal/api/handlers.go, internal/api/queries/queries.go)

    How the query parameters of GET /events become a filter: parsing, the shared
    validation and the authorization scope. url.Values.Get is an argument, as are
    the lenient part of time.Parse and the configured maxima. *)

From S2P Require Import Prelude GoStrings Codec StoreErrors StoreTypes GoTime GoSort GoJson Keyset Cursor RpcTypes ReorgTracker SqliteStore Scope Broadcast ApiKey ActionAudit EventQuery Export.
From Stdlib Require Import Ascii String.
Local Open Scope Z_scope.
Local Open Scope go_scope.

Local Notation length := List.length.

(** ** Identifiers (internal/config/config.go) *)

Definition base32_char (c : ascii) : bool :=
  ((65 <=? byte_val c) && (byte_val c <=? 90)) || ((50 <=? byte_val c) && (byte_val c <=? 55)).

Definition ValidContractID (s : string) : bool :=
  match s with
  | String c r => (String.length s =? 56)%nat && Ascii.eqb c "C" && str_all base32_char r
  | EmptyString => false
  end.

Definition cursor_char (c : ascii) : bool :=
  let v := byte_val c in
  ((97 <=? v) && (v <=? 122)) || ((65 <=? v) && (v <=? 90)) || ((48 <=? v) && (v <=? 57)) ||
  Ascii.eqb c "-" || Ascii.eqb c "_" || Ascii.eqb c "." || Ascii.eqb c ":".

Definition ValidCursor (s : string) : bool :=
  negb (bool_decide (s = "")) && (String.length s <=? 128)%nat && str_all cursor_char s.

(** ** Parameters *)

(** Errors of a request: a message for a 400, or a contract out of scope. *)
Inductive filter_error : Type := BadRequest (msg : string) | ErrForbiddenContract (contractID : string) | StoreError (e : error).

Definition event_types : list string := ["contract"; "system"; "diagnostic"].

(** The parts between commas, trimmed, without empty ones. *)
Definition comma_parts (raw : string) : list string := List.filter nonempty (TrimSpace <$> str_split "," raw).

Definition all_valid (ok : string -> bool) (bad : string -> filter_error) (l : list string) : result filter_error (list string) :=
  match List.find (fun x => negb (ok x)) l with Some x => Err (bad x) | None => Ok l end.

Definition ParseTypes (raw : string) : result filter_error (list string) :=
  if bool_decide (raw = "") then Ok []
  else all_valid (fun t => bool_decide (t ∈ event_types)) (fun _ => BadRequest "invalid type %q (want contract|system|diagnostic)") (comma_parts raw).

Definition looksLikeJSON (s : string) : bool :=
  match s with
  | EmptyString => false
  | String c _ =>
      bool_decide (byte_val c ∈ [123; 91; 34; 45]) || is_digit c ||
      bool_decide (s ∈ ["true"; "false"; "null"])
  end.

(** JSON passes through, a bare word becomes a JSON string. *)
Definition ParseTopic (raw : string) : result filter_error string :=
  let trimmed := TrimSpace raw in
  if bool_decide (raw = "") || bool_decide (trimmed = "") then Ok ""
  else if json_Valid trimmed then Ok trimmed
  else if looksLikeJSON trimmed then Err (BadRequest "topic must be valid JSON")
  else Ok (json_quote trimmed).

Definition ParseTopicContains (raw : string) : result filter_error string :=
  if bool_decide (raw = "") then Ok ""
  else if json_Valid raw then Ok raw else Err (BadRequest "topic_contains must be valid JSON").

Definition ParseLedgerParam (raw : string) : result filter_error Z :=
  if bool_decide (raw = "") then Ok 0
  else match ParseInt raw with
       | Some n => if n <=? 0 then Err (BadRequest "must be a positive integer") else Ok n
       | None => Err (BadRequest "must be a positive integer")
       end.

Definition ParseTimeParam (general : string -> option Z) (raw : string) : result filter_error Z :=
  if bool_decide (raw = "") then Ok time_zero
  else match time_Parse general raw with
       | Some t => if t mod Second =? 0 then Ok t else Err (BadRequest "sub-second precision is not supported")
       | None => Err (BadRequest "must be an RFC 3339 timestamp")
       end.

(** tx_index, op_index: an int that is converted to int32. *)
Definition parse_index (raw : string) : result filter_error (option Z) :=
  if bool_decide (raw = "") then Ok None
  else match ParseInt raw with
       | Some n => if n <? 0 then Err (BadRequest "want a non-negative integer") else Ok (Some (i32 n))
       | None => Err (BadRequest "want a non-negative integer")
       end.

Definition parse_bool (raw : string) : result filter_error (option bool) :=
  if bool_decide (raw = "") then Ok None
  else if bool_decide (raw = "true") then Ok (Some true)
  else if bool_decide (raw = "false") then Ok (Some false)
  else Err (BadRequest "want true or false").

Definition parse_limit (maxLimit : Z) (raw : string) : result filter_error Z :=
  if bool_decide (raw = "") then Ok 0
  else match ParseInt raw with
       | Some n => if (n <? 1) || (maxLimit <? n) then Err (BadRequest "limit must be an integer in [1,%d]") else Ok n
       | None => Err (BadRequest "limit must be an integer in [1,%d]")
       end.

(** ** The shared validation *)

Definition set_limit (n : Z) (q : EventQuery) : EventQuery :=
  mkQuery (q_filter q) (q_Network q) (q_ContractID q) (q_ContractIDs q) (q_ContractIDPrefix q) (q_Types q) (q_TxHash q)
    (q_InSuccessfulCall q) (q_HasValue q) (q_TxIndex q) (q_OpIndex q) (q_FromTime q) (q_ToTime q) (q_Cursor q) n
    (q_Order q) (q_OrderBy q) (q_Scope q).
Definition set_order (o : string) (q : EventQuery) : EventQuery :=
  mkQuery (q_filter q) (q_Network q) (q_ContractID q) (q_ContractIDs q) (q_ContractIDPrefix q) (q_Types q) (q_TxHash q)
    (q_InSuccessfulCall q) (q_HasValue q) (q_TxIndex q) (q_OpIndex q) (q_FromTime q) (q_ToTime q) (q_Cursor q) (q_Limit q)
    o (q_OrderBy q) (q_Scope q).
Definition set_scope (sc : Scope) (q : EventQuery) : EventQuery :=
  mkQuery (q_filter q) (q_Network q) (q_ContractID q) (q_ContractIDs q) (q_ContractIDPrefix q) (q_Types q) (q_TxHash q)
    (q_InSuccessfulCall q) (q_HasValue q) (q_TxIndex q) (q_OpIndex q) (q_FromTime q) (q_ToTime q) (q_Cursor q) (q_Limit q)
    (q_Order q) (q_OrderBy q) sc.

Definition MaxPageSize : Z := MaxQueryLimit.
Definition DefaultPageSize : Z := DefaultQueryLimit.

Definition guard_ (bad : bool) (msg : string) : option filter_error := if bad then Some (BadRequest msg) else None.

(** The checks of BuildEventFilter in their order; the first that fails answers. *)
Definition filter_checks (f : EventQuery) : list (option filter_error) :=
  let b := q_filter f in
  [ guard_ (nonempty (q_ContractID f) && negb (ValidContractID (q_ContractID f))) "invalid contract_id %q";
    guard_ (negb (forallb ValidContractID (q_ContractIDs f))) "invalid contract_id %q";
    guard_ (nonempty (q_ContractIDPrefix f) && nonempty (q_ContractID f)) "contract_id and contract_id_prefix cannot be combined";
    guard_ (nonempty (q_ContractIDPrefix f) && negb (bool_decide (q_ContractIDs f = []))) "contract_id and contract_id_prefix cannot be combined";
    guard_ (nonempty (q_Cursor f) && negb (ValidCursor (q_Cursor f))) "invalid cursor %q";
    guard_ (match q_TxIndex f with Some i => i <? 0 | None => false end) "invalid tx_index %d (want a non-negative integer)";
    guard_ (match q_OpIndex f with Some i => i <? 0 | None => false end) "invalid op_index %d (want a non-negative integer)";
    guard_ (negb (forallb (fun t => bool_decide (t ∈ event_types)) (q_Types f))) "invalid type %q (want contract|system|diagnostic)";
    guard_ (negb (bool_decide (q_Order f ∈ [""; "asc"; "desc"]))) "invalid order %q (want asc or desc)";
    guard_ (negb (ValidOrderBy (q_OrderBy f))) "invalid order_by %q";
    guard_ (nonempty (f_Topic b) && existsb nonempty (positional f)) "topic and topic0..topic3 filters cannot be combined";
    guard_ ((0 <? f_FromLedger b) && (0 <? f_ToLedger b) && (f_ToLedger b <? f_FromLedger b)) "from_ledger %d is after to_ledger %d";
    guard_ (negb (time_IsZero (q_FromTime f)) && negb (time_IsZero (q_ToTime f)) && (q_ToTime f <? q_FromTime f)) "from_time %s is after to_time %s";
    guard_ (negb (q_Limit f =? 0) && ((q_Limit f <? 1) || (MaxPageSize <? q_Limit f))) "limit must be an integer in [1,%d]" ].

Fixpoint first_error (l : list (option filter_error)) : option filter_error :=
  match l with [] => None | Some e :: _ => Some e | None :: l => first_error l end.

(** EventFilterArgs are a filter without network and scope. *)
Definition BuildEventFilter (args : EventQuery) : result filter_error EventQuery :=
  match first_error (filter_checks args) with
  | Some e => Err e
  | None => Ok (if q_Limit args =? 0 then set_limit DefaultPageSize args else args)
  end.

(** ** filterFromQuery *)

Section Request.
Context (general : string -> option Z).
(** The configured page maximum and the span of sparse filters, with the
    package-wide one of the store. *)
Context (maxLimit apiSpan globalMax : Z).
Context (get : string -> string).

Definition recentDefaultLimit : Z := 20.

(** The contract_id parameter: one id, or a list. *)
Definition parse_contracts : result filter_error (string * list string) :=
  let? ids := all_valid ValidContractID (fun _ => BadRequest "invalid contract_id %q") (comma_parts (get "contract_id")) in
  match ids with [id] => Ok (id, []) | _ => Ok ("", ids) end.

Definition parse_args : result filter_error EventQuery :=
  let? fromLedger := ParseLedgerParam (get "from_ledger") in
  let? toLedger := ParseLedgerParam (get "to_ledger") in
  let? fromTime := ParseTimeParam general (get "from_time") in
  let? toTime := ParseTimeParam general (get "to_time") in
  let? types := ParseTypes (get "type") in
  let? topic := ParseTopic (get "topic") in
  let? t0 := ParseTopic (get "topic0") in
  let? t1 := ParseTopic (get "topic1") in
  let? t2 := ParseTopic (get "topic2") in
  let? t3 := ParseTopic (get "topic3") in
  let? tc := ParseTopicContains (get "topic_contains") in
  let? (contractID, contractIDs) := parse_contracts in
  let? txIndex := parse_index (get "tx_index") in
  let? opIndex := parse_index (get "op_index") in
  let? inSuccessfulCall := parse_bool (get "in_successful_call") in
  let? hasValue := parse_bool (get "has_value") in
  let? limit := parse_limit maxLimit (get "limit") in
  Ok (mkQuery (mkEventFilter topic tc t0 t1 t2 t3 fromLedger toLedger) "" contractID contractIDs (get "contract_id_prefix") types
        (get "tx_hash") inSuccessfulCall hasValue txIndex opIndex fromTime toTime (get "cursor") limit (get "order") (get "order_by") zeroScope).

(** ?recent=N: the newest N events. *)
Definition apply_recent (f : EventQuery) : result filter_error EventQuery :=
  if bool_decide (get "recent" = "") then Ok f
  else if nonempty (get "order") || nonempty (get "order_by") then Err (BadRequest "recent cannot be combined with order or order_by")
  else if nonempty (get "limit") then Err (BadRequest "recent cannot be combined with limit")
  else
    let? n := if bool_decide (get "recent" = "true") then Ok recentDefaultLimit
              else match ParseInt (get "recent") with
                   | Some n => if (n <? 1) || (maxLimit <? n) then Err (BadRequest "recent must be a positive integer in [1,%d]") else Ok n
                   | None => Err (BadRequest "recent must be a positive integer in [1,%d]")
                   end in
    Ok (set_limit n (set_order "desc" f)).

Definition filterFromQuery (scope : Scope) : result filter_error EventQuery :=
  let? args := parse_args in
  let? f := BuildEventFilter args in
  let f := set_scope scope f in
  if nonempty (q_ContractID f) && negb (Allows scope (q_ContractID f)) then Err (ErrForbiddenContract (q_ContractID f))
  else if nonempty (q_Cursor f) && negb (ValidCursor (q_Cursor f)) then Err (BadRequest "invalid cursor %q")
  else
    let? limit := parse_limit maxLimit (get "limit") in
    let f := set_limit (if nonempty (get "limit") then limit else DefaultQueryLimit) f in
    let? f := apply_recent f in
    if 0 <? apiSpan then
      match ValidateSparseFilterRange globalMax (q_filter f) apiSpan with Some err => Err (StoreError err) | None => Ok f end
    else Ok f.
End Request.

(** ** Export requests (internal/api/export.go) *)

(** The checks of handleContractExport up to the stream: the format, the end
    marker and the filter. *)
Definition handleContractExport (scope : Scope) (exportMaxRange : Z) (contractID : string) (get : string -> string)
  : result filter_error (exportFormat * bool * EventQuery) :=
  if negb (ValidContractID contractID) then Err (BadRequest "invalid contract id %q (want 56-char C... strkey)")
  else if negb (Allows scope contractID) then Err (ErrForbiddenContract contractID)
  else
    match parseExportFormat (get "format") with
    | None => Err (BadRequest "invalid format %q (want csv or ndjson)")
    | Some format =>
        let? fromLedger := ParseLedgerParam (get "from_ledger") in
        let? toLedger := ParseLedgerParam (get "to_ledger") in
        if (fromLedger <=? 0) || (toLedger <=? 0) then Err (BadRequest "from_ledger and to_ledger are required for export")
        else if toLedger <? fromLedger then Err (BadRequest "from_ledger %d is after to_ledger %d")
        else
          match parseExportTerminator (get "terminator") with
          | None => Err (BadRequest "invalid terminator (want true or false)")
          | Some terminator =>
              let span := i64 (toLedger - fromLedger + 1) in
              if (0 <? exportMaxRange) && (exportMaxRange <? span) then Err (BadRequest "ledger range [%d,%d] spans %d ledgers, exceeding EXPORT_MAX_RANGE=%d")
              else Ok (format, terminator, exportFilter scope contractID fromLedger toLedger)
          end
    end.

(** handleEventsCSV: the filter of the listing without its page. *)
Definition handleEventsCSV (general : string -> option Z) (maxLimit apiSpan globalMax : Z) (scope : Scope) (get : string -> string)
  : result filter_error (exportFormat * bool * EventQuery) :=
  match parseExportFormat (get "format") with
  | None => Err (BadRequest "invalid format %q (want csv or ndjson)")
  | Some format =>
      let? f := filterFromQuery general maxLimit apiSpan globalMax get scope in
      let f := set_limit exportQueryBatchSize (set_cursor "" f) in
      match parseExportTerminator (get "terminator") with
      | None => Err (BadRequest "invalid terminator (want true or false)")
      | Some terminator => Ok (format, terminator, f)
      end
  end.

(** * Requests and stores agree

    What a filter the API accepts guarantees, what the store can still answer to
    it, and that the cursors the stores hand out pass the API's own check. *)

Local Abbreviation SEvent := StoreTypes.Event.

(** ** Accepted filters *)

Lemma guard_none bad msg : guard_ bad msg = None -> bad = false.
Proof. by destruct bad. Qed.

Lemma first_error_none l : first_error l = None -> Forall (fun o => o = None) l.
Proof. induction l as [|[e|] l IH]; cbn; [constructor|done|]. intros H. constructor; [done|by apply IH]. Qed.

(** What every check of the shared builder leaves. *)
Record filter_valid (f : EventQuery) : Prop := {
  fo_contract : q_ContractID f = "" \/ ValidContractID (q_ContractID f) = true;
  fo_contracts : Forall (fun c => ValidContractID c = true) (q_ContractIDs f);
  fo_cursor : q_Cursor f = "" \/ ValidCursor (q_Cursor f) = true;
  fo_types : Forall (fun t => t ∈ event_types) (q_Types f);
  fo_order : q_Order f ∈ [""; "asc"; "desc"];
  fo_order_by : ValidOrderBy (q_OrderBy f) = true;
  fo_ledgers : 0 < f_FromLedger (q_filter f) -> 0 < f_ToLedger (q_filter f) -> f_FromLedger (q_filter f) <= f_ToLedger (q_filter f) }.

Lemma nonempty_guard s (ok : bool) : nonempty s && negb ok = false -> s = "" \/ ok = true.
Proof. unfold nonempty. destruct (bool_decide_reflect (s = "")); [by left|]. destruct ok; [by right|done]. Qed.

Lemma checks_ok f : first_error (filter_checks f) = None -> filter_valid f.
Proof.
  intros H%first_error_none. unfold filter_checks in H. rewrite !list.Forall_cons in H.
  destruct H as (H1 & H2 & _ & _ & H5 & _ & _ & H8 & H9 & H10 & _ & H12 & _ & _ & _).
  repeat match goal with H : guard_ _ _ = None |- _ => apply guard_none in H end.
  apply negb_false_iff in H2, H8, H9, H10. apply bool_decide_eq_true in H9. rewrite forallb_forall in H2, H8.
  split; [by apply nonempty_guard| |by apply nonempty_guard| |done|done|].
  - apply list.Forall_forall. intros c Hc. by apply H2, list_elem_of_In.
  - apply list.Forall_forall. intros c Hc. apply list_elem_of_In, H8 in Hc. by apply bool_decide_eq_true in Hc.
  - intros Ha Hb. destruct (Z.ltb_spec 0 (f_FromLedger (q_filter f))); [|lia]. destruct (Z.ltb_spec 0 (f_ToLedger (q_filter f))); [|lia]. cbn in H12. lia.
Qed.

Lemma rbind_ok {E A B} (r : result E A) (k : A -> result E B) y : rbind r k = Ok y -> exists x, r = Ok x /\ k x = Ok y.
Proof. destruct r as [x|e]; [|done]. cbn. by exists x. Qed.

Lemma parse_limit_ok maxLimit raw n : parse_limit maxLimit raw = Ok n -> raw <> "" -> 1 <= n <= maxLimit.
Proof.
  unfold parse_limit. intros H Hr. rewrite bool_decide_eq_false_2 in H by done. destruct (ParseInt raw) as [m|]; [|done].
  destruct (Z.ltb_spec m 1), (Z.ltb_spec maxLimit m); cbn in H; simplify_eq; lia.
Qed.

Section Accepted.
Context (general : string -> option Z) (maxLimit apiSpan globalMax : Z) (get : string -> string) (scope : Scope).
Context (Hmax : 1 <= maxLimit).

(** The last steps keep what the builder checked, except the order and the limit. *)
Lemma apply_recent_ok f f' : filter_valid f -> 1 <= q_Limit f <= Z.max maxLimit DefaultQueryLimit -> apply_recent maxLimit get f = Ok f' ->
  filter_valid f' /\ q_Scope f' = q_Scope f /\ q_ContractID f' = q_ContractID f /\ 1 <= q_Limit f' <= Z.max maxLimit DefaultQueryLimit.
Proof.
  intros Hf Hl. unfold apply_recent. case_bool_decide; [by intros [= <-]|]. destruct (_ || _); [done|]. destruct (nonempty (get "limit")); [done|].
  intros (n & Hn & [= <-])%rbind_ok. assert (1 <= n <= Z.max maxLimit DefaultQueryLimit).
  { unfold DefaultQueryLimit. case_bool_decide; [injection Hn as <-; unfold recentDefaultLimit; lia|]. destruct (ParseInt (get "recent")) as [m|]; [|done].
    destruct (Z.ltb_spec m 1), (Z.ltb_spec maxLimit m); cbn in Hn; simplify_eq; lia. }
  split_and!; [|done|done|cbn; lia..]. destruct Hf; split; cbn; try done. set_solver.
Qed.

Lemma accepted_filter f : filterFromQuery general maxLimit apiSpan globalMax get scope = Ok f ->
  filter_valid f /\ q_Scope f = scope /\ (q_ContractID f = "" \/ Allows scope (q_ContractID f) = true) /\
  1 <= q_Limit f <= Z.max maxLimit DefaultQueryLimit /\
  (0 < apiSpan -> ValidateSparseFilterRange globalMax (q_filter f) apiSpan = None).
Proof.
  unfold filterFromQuery. intros (args & Ha & H)%rbind_ok. apply rbind_ok in H as (f0 & Hf & H).
  assert (Hok : filter_valid f0).
  { unfold BuildEventFilter in Hf. destruct (first_error (filter_checks args)) eqn:E; [done|]. injection Hf as <-.
    apply checks_ok in E. destruct (q_Limit args =? 0); [|done]. destruct E; by split. }
  cbn [set_scope q_ContractID q_Cursor] in H. destruct (_ && _) eqn:Eal in H; [done|]. destruct (_ && _) eqn:Ecu in H; [done|].
  apply rbind_ok in H as (limit & Hlim & H). apply rbind_ok in H as (f1 & Hrec & H).
  apply apply_recent_ok in Hrec as (Hok1 & Hs1 & Hc1 & Hl1); [|by destruct Hok|].
  2:{ cbn [set_limit q_Limit]. unfold nonempty. case_bool_decide as Eg; cbn [negb]; [unfold DefaultQueryLimit; lia|].
      pose proof (parse_limit_ok _ _ _ Hlim Eg). lia. }
  cbn in Hs1, Hc1. assert (Hfin : f1 = f /\ (0 < apiSpan -> ValidateSparseFilterRange globalMax (q_filter f1) apiSpan = None)).
  { destruct (Z.ltb_spec 0 apiSpan); [destruct (ValidateSparseFilterRange _ _ _) eqn:Ev; simplify_eq; done|simplify_eq; split; [done|lia]]. }
  destruct Hfin as [<- Hv]. split_and!; [done|done| |lia|lia|done]. rewrite Hc1. by apply nonempty_guard.
Qed.
End Accepted.

(** ** Errors of the store *)

Lemma SQLite_cursor_err general q e : SQLite_cursor general q = Err e -> errors_Is e ErrInvalidCursor = true.
Proof.
  unfold SQLite_cursor. case_bool_decide; [done|]. destruct (by_id q).
  - destruct (DecodeEventIDCursorForBackend _ _ _) as [id|e'] eqn:E; cbn; [done|]. intros [= <-]. by eapply decodeEventID_err.
  - destruct (decodeCompositeCursorForBackend _ _) as [[sv id]|e'] eqn:E; cbn.
    + repeat case_match; intros; simplify_eq; apply invalid_is.
    + intros [= <-]. by eapply decodeComposite_err.
Qed.

(** A request for events that is accepted has a filter with its caller's scope,
    a contract of that scope, a limit of at most the configured maximum or the
    default of 50, valid order, types and identifiers and a consistent range of
    ledgers; and before it runs its statement the store refuses that filter only
    for its cursor, as a client error. (What the engine raises while it runs the
    statement, such as malformed JSON in a topic, is not part of the model.) *)
Theorem accepted_requests_are_answered (general : string -> option Z) (maxLimit span : Z) (get : string -> string) (scope : Scope) (f : EventQuery)
    (Hmax : 1 <= maxLimit) (Hf : filterFromQuery general maxLimit span span get scope = Ok f) :
  filter_valid f /\ q_Scope f = scope /\ (q_ContractID f = "" \/ Allows scope (q_ContractID f) = true) /\
  1 <= q_Limit f <= Z.max maxLimit DefaultQueryLimit /\
  (forall json_has json_at rows e, SQLite_QueryEvents span 0 general json_has json_at f rows = Err e -> errors_Is e ErrInvalidCursor = true) /\
  (forall json_has json_at rows, q_Cursor f = "" -> exists page cursor,
     SQLite_QueryEvents span 0 general json_has json_at f rows = Ok (page, cursor) /\ (length page <= clamp_limit (q_Limit f))%nat).
Proof.
  destruct (accepted_filter general maxLimit span span get scope Hmax f Hf) as (Hok & Hs & Hc & Hl & Hv).
  assert (Hsp : ValidateSparseFilterRange span (q_filter f) 0 = None).
  { unfold ValidateSparseFilterRange in *. cbn [Z.leb Z.compare]. destruct (Z.leb_spec span 0) as [|Hp]; [done|]. specialize (Hv Hp).
    by destruct (Z.leb_spec span 0); [lia|]. }
  split_and!; [done|done|done|lia|lia| |]; intros json_has json_at rows.
  - intros e. unfold SQLite_QueryEvents. rewrite Hsp, (fo_order_by f Hok). cbn [negb].
    destruct (SQLite_cursor general f) as [a|e'] eqn:E; cbn; [done|]. intros [= <-]. by eapply SQLite_cursor_err.
  - intros Hcur. unfold SQLite_QueryEvents. rewrite Hsp, (fo_order_by f Hok). cbn [negb]. unfold SQLite_cursor. rewrite Hcur. cbn [rbind].
    rewrite bool_decide_eq_true_2 by done. unfold cursor_page, cut_page. cbn [rbind].
    destruct (Nat.ltb_spec (clamp_limit (q_Limit f)) (length (scanEventSQLite general <$> take (S (clamp_limit (q_Limit f))) (order_rows (event_key (SQLite_col f) f) (event_lt String.ltb f)
      (List.filter (fun e => SQLite_where json_has json_at f e && true) rows))))); eexists _, _; (split; [done|]); [rewrite length_take; lia|done].
Qed.

(** ** Cursors *)

Lemma b64_char_cursor v : 0 <= v < 64 -> cursor_char (b64_char v) = true.
Proof. apply (forall_symbols (fun v => cursor_char (b64_char v))). vm_compute. reflexivity. Qed.

Lemma chr4_cursor n s : str_all cursor_char (chr4 n s) = str_all cursor_char s.
Proof. unfold chr4. cbn [str_all]. by rewrite !b64_char_cursor by apply mod64_range. Qed.

Lemma b64_encode_cursor s : str_all cursor_char (b64_encode s) = true.
Proof.
  induction s using string3_ind; rewrite ?b64_encode_cons3, ?chr4_cursor; [done| | |done];
    cbn -[Z.div Z.modulo Z.mul Z.add b64_char cursor_char];
    by rewrite !b64_char_cursor by apply mod64_range.
Qed.

Lemma b64_encode_length s : (3 * String.length (b64_encode s) <= 4 * String.length s + 2)%nat.
Proof.
  induction s using string3_ind; rewrite ?b64_encode_cons3; [cbn; lia|cbn; lia|cbn; lia|unfold chr4; cbn -[b64_encode Nat.mul] in *; lia].
Qed.

Lemma bytes_str_length l : String.length (bytes_str l) = length l.
Proof. unfold bytes_str. induction l as [|b l IH]; [done|]. cbn -[byte_of] in *. by rewrite IH. Qed.

Lemma cursorMAC_length v b p : (String.length (cursorMAC v b p) <= 4)%nat.
Proof.
  unfold cursorMAC. generalize (hmac_sha256 (str_bytes cursorHMACKey) (str_bytes (v +++ "." +++ b +++ "." +++ p))). intros sum.
  pose proof (b64_encode_length (bytes_str (take 3 sum))) as H. rewrite bytes_str_length, length_take in H. lia.
Qed.

(** An envelope with a payload of at most 87 bytes passes the API's check. *)
Lemma envelope_valid backend payload : backend = CursorBackendSQLite \/ backend = CursorBackendPostgres -> (String.length payload <= 87)%nat ->
  ValidCursor (wrapCursorEnvelope CursorVersionCurrent backend payload) = true.
Proof.
  intros Hb Hl. unfold wrapCursorEnvelope, ValidCursor. pose proof (b64_encode_length payload) as He.
  assert (Hn : normalizeCursorBackend backend = backend /\ backend <> "" /\ String.length backend = 2%nat /\ str_all cursor_char backend = true)
    by (destruct Hb as [-> | ->]; vm_compute; done).
  destruct Hn as (-> & Hne & Hbl & Hbc). rewrite !(bool_decide_eq_false_2 (backend = "")) by done.
  rewrite (bool_decide_eq_false_2 (CursorVersionCurrent = "")) by done.
  pose proof (cursorMAC_length CursorVersionCurrent backend (b64_encode payload)) as Hm.
  rewrite !andb_true_iff. split_and!.
  - by rewrite bool_decide_eq_false_2.
  - apply Nat.leb_le. unfold CursorVersionCurrent in *. rewrite !length_append, Hbl. cbn [String.length]. lia.
  - unfold CursorVersionCurrent. rewrite !str_all_app, Hbc, b64_encode_cursor. unfold cursorMAC. by rewrite b64_encode_cursor.
Qed.

Lemma length_pad w n : 0 <= n < 10 ^ Z.of_nat w -> (0 < w)%nat -> String.length (pad_digits w n) = w.
Proof. intros Hn Hw. by rewrite pad_digits_fixed, length_fixed_digits. Qed.

Lemma format_nano_length t : time_ok t -> (String.length (format_RFC3339Nano t) <= 30)%nat.
Proof.
  intros Ht. pose proof (time_fields t Ht) as F. cbv zeta in F. destruct F as (?&?&?&?&?&?&?&_). unfold format_RFC3339Nano. cbv zeta.
  assert (Hfr : (String.length (trim_zeros (pad_digits 9 (t mod day_ns mod Second))) <= 9)%nat).
  { pose proof (length_trim_zeros (pad_digits 9 (t mod day_ns mod Second))) as Hz. rewrite length_pad in Hz by (unfold Second in *; lia). done. }
  rewrite !length_append, !length_pad by (unfold Second in *; lia).
  case_bool_decide; cbn [String.length String.append]; rewrite ?length_append; cbn [String.length]; lia.
Qed.

Lemma canonical_id_length e : canonical e -> String.length (ID e) = 31%nat.
Proof. intros (_ & _ & tx & op & ev & Hr & ->). rewrite FormatTOID_digits by done. by rewrite length_append; cbn [String.length]; rewrite !length_fixed_digits. Qed.

Lemma ndigits_fuel_small w : forall fuel n, 0 <= n < 10 ^ Z.of_nat (S w) -> (ndigits_fuel fuel n <= S w)%nat.
Proof.
  induction w as [|w IH]; intros [|fuel] n Hn; cbn [ndigits_fuel]; [lia| |lia|]; destruct (Z.ltb_spec n 10); [lia|change (10 ^ Z.of_nat 1) with 10 in Hn; lia|lia|].
  apply le_n_S, IH. split; [apply Z.div_pos; lia|]. apply Z.div_lt_upper_bound; [lia|].
  rewrite Nat2Z.inj_succ, Z.pow_succ_r in Hn by lia. lia.
Qed.

Lemma FormatInt_length n : 0 <= n < 2 ^ 32 -> (String.length (FormatInt n) <= 10)%nat.
Proof.
  intros Hn. unfold FormatInt. destruct (Z.ltb_spec n 0); [lia|]. rewrite length_fixed_digits. apply ndigits_fuel_small.
  change (10 ^ Z.of_nat 10) with 10000000000. lia.
Qed.

Lemma id_cursor_valid e : canonical e -> ValidCursor (ID e) = true.
Proof.
  intros Hc. destruct (canonical_id_chars e Hc) as [Hne Hall]. unfold ValidCursor. rewrite bool_decide_eq_false_2 by done.
  rewrite canonical_id_length by done. cbn [negb Nat.leb andb]. eapply str_all_impl; [|exact Hall].
  intros c. unfold id_char, is_digit, cursor_char. rewrite !orb_true_iff. tauto.
Qed.

(** Every cursor the stores hand out for an event, in each order, passes the
    check the API makes on the cursor of the next request. *)
Theorem minted_cursors_pass_the_api (backend orderBy : string) (e : SEvent)
    (Hb : backend = CursorBackendSQLite \/ backend = CursorBackendPostgres) (He : canonical e) :
  ValidCursor (EncodeCursorForBackend backend orderBy e) = true.
Proof.
  unfold EncodeCursorForBackend, encodeCompositeCursorForBackend. pose proof (canonical_id_length e He) as Hid.
  pose proof He as (Hl & Ht & tx & op & ev & Hr & _). pose proof (proj1 Hr) as Hr1.
  case_bool_decide; [|case_bool_decide; [|by apply id_cursor_valid]]; apply envelope_valid; try done;
    rewrite !length_append, Hid; cbn [String.length].
  - pose proof (FormatInt_length (Ledger e)). lia.
  - pose proof (format_nano_length (CreatedAt e) Ht). lia.
Qed.

(** ** Requests *)

Definition params (l : list (string * string)) (name : string) : string := default "" (snd <$> List.find (fun p => bool_decide (p.1 = name)) l).

(** Two pages of a request for one contract's transfers. *)
Definition demo_contract : string := "CAAAAAAAAAAAAAAAAAAAAAAAAAAAAAAAAAAAAAAAAAAAAAAAAAAAAAAA".
Definition demo_request : list (string * string) :=
  [("contract_id", demo_contract); ("type", "contract"); ("topic0", "transfer"); ("from_ledger", "5"); ("to_ledger", "9"); ("limit", "7")].

Lemma accepted_requests_are_answered_witness :
  exists f page cursor, filterFromQuery strict_time 200 100 100 (params demo_request) (NewScope [demo_contract]) = Ok f /\
    q_Limit f = 7 /\ SQLite_QueryEvents 100 0 strict_time no_json no_json_at f demo_rows = Ok (page, cursor) /\ (length page <= 7)%nat.
Proof.
  destruct (filterFromQuery strict_time 200 100 100 (params demo_request) (NewScope [demo_contract])) as [f|e] eqn:E; [|vm_compute in E; congruence].
  assert (Hf : q_Limit f = 7 /\ q_Cursor f = "") by (vm_compute in E; by injection E as <-).
  destruct (accepted_requests_are_answered strict_time 200 100 (params demo_request) (NewScope [demo_contract]) f ltac:(lia) E) as (_ & _ & _ & _ & _ & H).
  destruct (H no_json no_json_at demo_rows (proj2 Hf)) as (page & cursor & Hp & Hl). rewrite (proj1 Hf) in Hl.
  exists f, page, cursor. split; [exact eq_refl|]. split; [exact (proj1 Hf)|]. split; [exact Hp|exact Hl].
Defined.

Lemma minted_cursors_pass_the_api_witness :
  ValidCursor (EncodeCursorForBackend CursorBackendSQLite OrderByCreatedAt (demo_event "default" 2147483647 2147483647 (9 * Second + 123456789))) = true.
Proof.
  apply minted_cursors_pass_the_api; [by left|]. apply demo_event_canonical; [lia|lia|]. unfold time_ok. vm_compute. intuition congruence.
Defined.

(** tx_index is converted to 32 bits after its check: 2^32 asks for index 0. *)
Lemma tx_index_wraps : parse_index "4294967296" = Ok (Some 0) /\ parse_index "2147483648" = Ok (Some (-2147483648)).
Proof. by vm_compute. Qed.

(** A contract_id of separators only is no filter at all. *)
Lemma separators_are_no_contract : parse_contracts (params [("contract_id", ",")]) = Ok ("", []).
Proof. by vm_compute. Qed.
