(* ===== verification/ContractsList.v ===== *)
(** * Listing of contracts (internal/store/sqlite.go, internal/store/postgres.go, internal/api/handlers.go)

    ListContracts and CountContracts of both SQL stores over the rows of the events
    table, with GROUP BY, the sort keys and the cursors, and the handler of
    GET /contracts. The lenient part of time.Parse and the collation of Postgres
    are arguments. *)

From S2P Require Import Prelude GoStrings Codec StoreErrors StoreTypes GoTime GoSort Keyset Cursor RpcTypes ReorgTracker SqliteStore Scope Broadcast EventQuery Export ApiQuery.
From stdpp Require Import sorting.
From Stdlib Require Import Ascii String.
Local Open Scope Z_scope.
Local Open Scope go_scope.

Local Notation length := List.length.
Local Abbreviation SEvent := StoreTypes.Event.

Record ContractSummary : Type := mkSummary {
  cs_ContractID : string;
  cs_EventCount : Z;
  cs_FirstLedger : Z;
  cs_LastLedger : Z;
  cs_LastSeen : Z }.

Record ContractsFilter : Type := mkContractsFilter {
  cf_ContractIDPrefix : string;
  cf_SortKey : string;
  cf_Order : string;
  cf_Cursor : string;
  cf_Limit : Z;
  cf_Scope : Scope }.

Definition SortByContractID : string := "contract_id".
Definition SortByActivity : string := "count".
Definition SortByFirstLedger : string := "first_ledger".
Definition SortByLastLedger : string := "last_ledger".
Definition SortByLastSeen : string := "last_seen".

Definition ValidContractsSortKey (s : string) : bool :=
  bool_decide (s ∈ [""; SortByContractID; SortByActivity; SortByFirstLedger; SortByLastLedger; SortByLastSeen]).

(** Column, expression and type of a sort key. *)
Definition contractsSortParts (sortKey : string) : string * string * string :=
  if bool_decide (sortKey = "") || bool_decide (sortKey = SortByContractID) then ("contract_id", "contract_id", "")
  else if bool_decide (sortKey = SortByFirstLedger) then ("min(ledger)", "min(ledger)", "bigint")
  else if bool_decide (sortKey = SortByLastLedger) then ("max(ledger)", "max(ledger)", "bigint")
  else if bool_decide (sortKey = SortByLastSeen) then ("max(created_at)", "max(created_at)", "timestamptz")
  else ("count(*)", "count(*)", "").
Definition sort_col (sortKey : string) : string := (contractsSortParts sortKey).1.1.
Definition sort_type (sortKey : string) : string := (contractsSortParts sortKey).2.

Definition contractSortValue (c : ContractSummary) (sortKey : string) : string :=
  if bool_decide (sortKey = "") || bool_decide (sortKey = SortByContractID) then cs_ContractID c
  else if bool_decide (sortKey = SortByFirstLedger) then FormatInt (cs_FirstLedger c)
  else if bool_decide (sortKey = SortByLastLedger) then FormatInt (cs_LastLedger c)
  else if bool_decide (sortKey = SortByLastSeen) then format_RFC3339Nano (cs_LastSeen c)
  else FormatInt (cs_EventCount c).

Definition bad_contracts_cursor : error := Errorf "%w: contracts cursor" [Sentinel ErrInvalidContractsCursor].

(** The value the cursor's sort half stands for. *)
Definition contractsCursorValue (general : string -> option Z) (sortCol sortType value : string) : result error sval :=
  if bool_decide (sortType = "bigint") || bool_decide (sortCol = "count(*)") then
    match ParseInt value with Some n => Ok (SInt n) | None => Err bad_contracts_cursor end
  else if bool_decide (sortType = "timestamptz") then
    match time_Parse general value with Some t => Ok (SText (formatTime t)) | None => Err bad_contracts_cursor end
  else Ok (SText value).

(** strings.EqualFold(order, "asc"): the letters of both cases, and the long s. *)
Definition is_asc (order : string) : bool := bool_decide (ToLower order ∈ ["asc"; "a" +++ bytes_str [197; 191] +++ "c"]).

Definition contracts_desc (f : ContractsFilter) : bool :=
  negb (is_asc (cf_Order f) || (bool_decide (cf_Order f = "") && bool_decide (sort_col (cf_SortKey f) = "contract_id"))).

(** ** GROUP BY contract_id *)

(** min and max over the rows of a group, which is not empty. *)
Definition fold_group {A B} (f : B -> B -> B) (g : A -> B) (d : B) (l : list A) : B :=
  match l with [] => d | x :: l => fold_left (fun acc y => f acc (g y)) l (g x) end.

Definition text_max (a b : string) : string := if String.leb a b then b else a.

Definition rows_of (rows : list SEvent) (id : string) : list SEvent := List.filter (fun e => bool_decide (ContractID e = id)) rows.
Definition contract_ids (rows : list SEvent) : list string := remove_dups (ContractID <$> rows).

(** A row of the grouped statement of SQLite, where a time is text. *)
Record group : Type := mkGroup { g_id : string; g_count : Z; g_min : Z; g_max : Z; g_seen : string }.
Definition group_of (rows : list SEvent) (id : string) : group :=
  let l := rows_of rows id in
  mkGroup id (Z.of_nat (length l)) (fold_group Z.min Ledger 0 l) (fold_group Z.max Ledger 0 l)
    (fold_group text_max (fun e => formatTime (CreatedAt e)) "" l).
Definition SQLite_groups (rows : list SEvent) : list group := group_of rows <$> contract_ids rows.

Definition Postgres_group (rows : list SEvent) (id : string) : ContractSummary :=
  let l := rows_of rows id in
  mkSummary id (Z.of_nat (length l)) (fold_group Z.min Ledger 0 l) (fold_group Z.max Ledger 0 l) (fold_group Z.max CreatedAt 0 l).
Definition Postgres_groups (rows : list SEvent) : list ContractSummary := Postgres_group rows <$> contract_ids rows.

(** ** Order *)

(** ORDER BY sort dir, contract_id dir; by contract id alone the first half is
    constant. *)
Definition group_col (sortCol : string) (g : group) : sval :=
  if bool_decide (sortCol = "contract_id") then SInt 0
  else if bool_decide (sortCol = "min(ledger)") then SInt (g_min g)
  else if bool_decide (sortCol = "max(ledger)") then SInt (g_max g)
  else if bool_decide (sortCol = "max(created_at)") then SText (g_seen g)
  else SInt (g_count g).
Definition group_key (sortCol : string) (g : group) : sval * string := (group_col sortCol g, g_id g).

Definition summary_col (sortCol : string) (c : ContractSummary) : sval :=
  if bool_decide (sortCol = "contract_id") then SInt 0
  else if bool_decide (sortCol = "min(ledger)") then SInt (cs_FirstLedger c)
  else if bool_decide (sortCol = "max(ledger)") then SInt (cs_LastLedger c)
  else if bool_decide (sortCol = "max(created_at)") then SInt (cs_LastSeen c)
  else SInt (cs_EventCount c).
Definition summary_key (sortCol : string) (c : ContractSummary) : sval * string := (summary_col sortCol c, cs_ContractID c).

Definition contracts_lt (id_lt : string -> string -> bool) (f : ContractsFilter) : sval * string -> sval * string -> bool :=
  flip_lt (contracts_desc f) (lex_lt sval_lt id_lt).

(** The page and the cursor of its last row. *)
Definition contracts_page (tag : string) (f : ContractsFilter) (fetched : list ContractSummary) : list ContractSummary * string :=
  let '(out, last) := cut_page (clamp_limit (cf_Limit f)) fetched in
  (out, match last with
        | None => ""
        | Some c => EncodeContractsCursorForBackend tag (cf_SortKey f) (contractSortValue c (cf_SortKey f)) (cs_ContractID c)
        end).

Section Listing.
Context (general : string -> option Z).

(** ** SQLite *)

Definition SQLite_scan (g : group) : ContractSummary :=
  mkSummary (g_id g) (g_count g) (g_min g) (g_max g) (parseTime general (g_seen g)).

(** The scope of the filter does not reach the statement. *)
Definition SQLite_contracts_where (f : ContractsFilter) (id : string) : bool :=
  when (nonempty (cf_ContractIDPrefix f)) (SQLite_like (cf_ContractIDPrefix f +++ "%") id).

(** The predicates a cursor adds to WHERE and to HAVING. *)
Definition SQLite_contracts_cursor (f : ContractsFilter) : result error ((string -> bool) * (group -> bool)) :=
  let sortCol := sort_col (cf_SortKey f) in
  if bool_decide (cf_Cursor f = "") then Ok (fun _ => true, fun _ => true)
  else
    let? (sortValue, contractID) := DecodeContractsCursorForBackend CursorBackendSQLite (cf_Cursor f) in
    let? normalized := contractsCursorValue general sortCol (sort_type (cf_SortKey f)) sortValue in
    if bool_decide (sortCol = "contract_id") then
      Ok (fun id => flip_lt (contracts_desc f) sval_lt normalized (SText id), fun _ => true)
    else Ok (fun _ => true, fun g => contracts_lt String.ltb f (normalized, contractID) (group_key sortCol g)).

Definition SQLite_ListContracts (f : ContractsFilter) (rows : list SEvent) : result error (list ContractSummary * string) :=
  if negb (ValidContractsSortKey (cf_SortKey f)) then Err (Errorf "unsupported sort_key %q" [])
  else
    let? (where_, having) := SQLite_contracts_cursor f in
    let selected := List.filter (fun e => SQLite_contracts_where f (ContractID e) && where_ (ContractID e)) rows in
    let groups := List.filter having (SQLite_groups selected) in
    let fetched := take (S (clamp_limit (cf_Limit f))) (order_rows (group_key (sort_col (cf_SortKey f))) (contracts_lt String.ltb f) groups) in
    Ok (contracts_page CursorBackendSQLite f (SQLite_scan <$> fetched)).

Definition SQLite_CountContracts (f : ContractsFilter) (rows : list SEvent) : Z :=
  Z.of_nat (length (contract_ids (List.filter (fun e => SQLite_contracts_where f (ContractID e)) rows))).

(** ** Postgres *)

Context (collate : string -> string -> bool).

Definition Postgres_contracts_where (f : ContractsFilter) (id : string) : bool :=
  when (negb (IsWildcard (cf_Scope f))) (sql_in id (Contracts (cf_Scope f))) &&
  when (nonempty (cf_ContractIDPrefix f)) (Postgres_like (cf_ContractIDPrefix f +++ "%") id).

(** The cursor's predicate is part of WHERE for every sort key; the server refuses
    an aggregate there. *)
Definition Postgres_contracts_cursor (f : ContractsFilter) : result error (option (string * string)) :=
  if bool_decide (cf_Cursor f = "") then Ok None
  else
    let? (sortValue, contractID) := DecodeContractsCursorForBackend CursorBackendPostgres (cf_Cursor f) in
    let? _ := contractsCursorValue general (sort_col (cf_SortKey f)) (sort_type (cf_SortKey f)) sortValue in
    Ok (Some (sortValue, contractID)).

Definition Postgres_ListContracts (f : ContractsFilter) (rows : list SEvent) : result error (list ContractSummary * string) :=
  let sortCol := sort_col (cf_SortKey f) in
  if negb (ValidContractsSortKey (cf_SortKey f)) then Err (Errorf "unsupported sort_key %q" [])
  else
    let? cursor := Postgres_contracts_cursor f in
    if DeniesAll (cf_Scope f) then Ok ([], "")
    else
      let? where_ :=
        match cursor with
        | None => Ok (fun _ => true)
        | Some (sortValue, contractID) =>
            if bool_decide (sortCol = "contract_id")
            then Ok (fun id => flip_lt (contracts_desc f) (lex_lt collate collate) (sortValue, contractID) (id, id))
            else Err (Errorf "listing contracts: %w" [Sentinel (PgError "42803")])
        end in
      let selected := List.filter (fun e => Postgres_contracts_where f (ContractID e) && where_ (ContractID e)) rows in
      let fetched := take (S (clamp_limit (cf_Limit f))) (order_rows (summary_key sortCol) (contracts_lt collate f) (Postgres_groups selected)) in
      Ok (contracts_page CursorBackendPostgres f fetched).

Definition Postgres_CountContracts (f : ContractsFilter) (rows : list SEvent) : Z :=
  if DeniesAll (cf_Scope f) then 0
  else Z.of_nat (length (contract_ids (List.filter (fun e => Postgres_contracts_where f (ContractID e)) rows))).
End Listing.

(** ** GET /contracts *)

Definition maxContractsListLimit : Z := 200.

(** A listing with X-Total-Count where the count succeeded, or an error document. *)
Inductive contracts_response : Type :=
  | Listed (items : list ContractSummary) (cursor : string) (total : option Z)
  | Refused (status : Z).

(** writePoolBudgetExhausted: both errors are answered with 503. *)
Definition pool_exhausted (e : error) : bool := errors_Is e ErrStoreUnavailable || errors_Is e ErrPoolBudgetExhausted.

Definition contracts_error_status (e : error) : Z :=
  if errors_Is e ErrUnsupported then 501
  else if errors_Is e ErrInvalidContractsCursor then 400
  else if pool_exhausted e then 503 else 500.

Section Handler.
Context (list_ : ContractsFilter -> result error (list ContractSummary * string)) (count : ContractsFilter -> result error Z).
Context (get : string -> string) (scope : Scope).

Definition contracts_filter (limit : Z) : ContractsFilter :=
  mkContractsFilter (get "contract_id") (get "sort") (get "order") (get "cursor") limit scope.

Definition handleListContracts : contracts_response :=
  if negb (ValidContractsSortKey (get "sort")) then Refused 400
  else if negb (bool_decide (get "order" ∈ [""; "asc"; "desc"])) then Refused 400
  else if nonempty (get "cursor") && negb (ValidCursor (get "cursor")) then Refused 400
  else
    match (if bool_decide (get "limit" = "") then Some DefaultQueryLimit
           else match ParseInt (get "limit") with
                | Some n => if (n <? 1) || (maxContractsListLimit <? n) then None else Some n
                | None => None
                end) with
    | None => Refused 400
    | Some limit =>
        let f := contracts_filter limit in
        match list_ f with
        | Err e => Refused (contracts_error_status e)
        | Ok (items, cursor) => Listed items cursor (match count f with Ok n => Some n | Err _ => None end)
        end
    end.
End Handler.

(** * The listing of contracts is complete

    A client that follows the cursors of ListContracts gets every contract once,
    with exact aggregates, and as many as CountContracts says; what the API and
    Postgres make of those cursors. *)


(** ** Groups *)

Lemma remove_dups_filter {A} `{EqDecision A} (p : A -> bool) l : remove_dups (List.filter p l) = List.filter p (remove_dups l).
Proof.
  assert (Hin : forall x l, p x = true -> x ∈ List.filter p l <-> x ∈ l) by (intros x l' Hx; rewrite !list_elem_of_In, List.filter_In; tauto).
  induction l as [|x l IH]; [done|]. cbn [List.filter]. destruct (p x) eqn:Ep.
  - specialize (Hin x l Ep). cbn [remove_dups]. repeat case_decide; [done|tauto|tauto|]. cbn. by rewrite Ep, IH.
  - cbn [remove_dups]. case_decide; [done|]. cbn. by rewrite Ep.
Qed.

Lemma fmap_filter {A B} (f : A -> B) (p : B -> bool) l : f <$> List.filter (fun x => p (f x)) l = List.filter p (f <$> l).
Proof. induction l as [|x l IH]; [done|]. cbn. destruct (p (f x)); [|done]. by rewrite fmap_cons, IH. Qed.

Lemma contract_ids_filter p rows : contract_ids (List.filter (fun e => p (ContractID e)) rows) = List.filter p (contract_ids rows).
Proof. unfold contract_ids. by rewrite fmap_filter, remove_dups_filter. Qed.

Lemma rows_of_filter p rows id : p id = true -> rows_of (List.filter (fun e => p (ContractID e)) rows) id = rows_of rows id.
Proof.
  intros Hp. unfold rows_of. induction rows as [|e rows IH]; [done|]. cbn. destruct (p (ContractID e)) eqn:E; cbn; [by rewrite IH|].
  rewrite bool_decide_eq_false_2 by congruence. done.
Qed.

Lemma groups_filter p rows : SQLite_groups (List.filter (fun e => p (ContractID e)) rows) = List.filter (fun g => p (g_id g)) (SQLite_groups rows).
Proof.
  unfold SQLite_groups. rewrite contract_ids_filter. generalize (contract_ids rows). intros ids.
  induction ids as [|id ids IH]; [done|]. cbn. destruct (p id) eqn:E; [|done]. cbn. rewrite IH. f_equal. unfold group_of. by rewrite rows_of_filter.
Qed.

(** ** Rows and aggregates *)

(** A stored row: a contract id without the cursor's separator, a ledger that
    fits its column and a time with a year of four digits. *)
Record listable (e : SEvent) : Prop := {
  lr_id : ContractID e <> "" /\ str_contains "|" (ContractID e) = false;
  lr_ledger : in_i64 (Ledger e);
  lr_time : time_ok (CreatedAt e) }.

Lemma text_max_time a b : time_ok a -> time_ok b -> text_max (formatTime a) (formatTime b) = formatTime (Z.max a b).
Proof.
  intros Ha Hb. unfold text_max, String.leb. rewrite format_order by done.
  destruct (Z.compare_spec a b); f_equal; lia.
Qed.

Lemma fold_times l : forall a, time_ok a -> Forall listable l ->
  fold_left (fun acc e => text_max acc (formatTime (CreatedAt e))) l (formatTime a) = formatTime (fold_left (fun acc e => Z.max acc (CreatedAt e)) l a) /\
  time_ok (fold_left (fun acc e => Z.max acc (CreatedAt e)) l a).
Proof.
  induction l as [|e l IH]; intros a Ha Hl; [done|]. apply list.Forall_cons in Hl as [[_ _ He] Hl]. cbn [fold_left].
  rewrite text_max_time by done. apply IH; [|done]. unfold time_ok in *. lia.
Qed.

Lemma fold_range (f : Z -> Z -> Z) l : (forall a b, f a b = a \/ f a b = b) -> forall a, in_i64 a -> Forall listable l ->
  in_i64 (fold_left (fun acc e => f acc (Ledger e)) l a).
Proof.
  intros Hf. induction l as [|e l IH]; intros a Ha Hl; [done|]. apply list.Forall_cons in Hl as [[_ He _] Hl]. cbn [fold_left].
  apply IH; [|done]. by destruct (Hf a (Ledger e)) as [->| ->].
Qed.

Lemma rows_of_nonempty rows id : id ∈ contract_ids rows -> exists e l, rows_of rows id = e :: l /\ ContractID e = id.
Proof.
  unfold contract_ids. rewrite elem_of_remove_dups, list_elem_of_fmap. intros (e & -> & He).
  destruct (rows_of rows (ContractID e)) as [|x l] eqn:E.
  - assert (e ∈ rows_of rows (ContractID e)) as Hx; [|by rewrite E in Hx; set_solver]. unfold rows_of.
    apply list_elem_of_In, List.filter_In. split; [by apply list_elem_of_In|by apply bool_decide_eq_true].
  - exists x, l. split; [done|]. assert (x ∈ rows_of rows (ContractID e)) as Hx by (rewrite E; set_solver). unfold rows_of in Hx.
    apply list_elem_of_In, List.filter_In in Hx as [_ Hx]. by apply bool_decide_eq_true in Hx.
Qed.

Lemma rows_of_listable rows id : Forall listable rows -> Forall listable (rows_of rows id).
Proof. apply filter_ok. Qed.

(** What the cursors need of a group. *)
Record group_ok (g : group) : Prop := {
  go_id : g_id g <> "" /\ str_contains "|" (g_id g) = false;
  go_count : in_i64 (g_count g);
  go_min : in_i64 (g_min g);
  go_max : in_i64 (g_max g);
  go_seen : exists t, time_ok t /\ g_seen g = formatTime t }.

Section Tables.
Context (general : string -> option Z).

(** SQLite's text aggregates, scanned, are the aggregates over the times. *)
Lemma group_facts rows id : Forall listable rows -> in_i64 (Z.of_nat (length rows)) -> id ∈ contract_ids rows ->
  group_ok (group_of rows id) /\ SQLite_scan general (group_of rows id) = Postgres_group rows id.
Proof.
  intros Hr Hn Hid. destruct (rows_of_nonempty rows id Hid) as (e & l & El & Ee). pose proof (rows_of_listable rows id Hr) as Hl.
  assert (Hlen : (length (e :: l) <= length rows)%nat) by (rewrite <- El; apply List.filter_length_le).
  unfold SQLite_scan, Postgres_group, group_of, rows_of in *. cbv zeta. rewrite El in *. cbn [fold_group g_id g_count g_min g_max g_seen].
  apply list.Forall_cons in Hl as [[He1 He2 He3] Hl]. destruct (fold_times l (CreatedAt e) He3 Hl) as [-> Ht].
  split; [|by rewrite parseTime_back]. split; cbn [g_id g_count g_min g_max g_seen].
  - by rewrite <- Ee.
  - unfold in_i64, minInt64 in *. cbn [length] in *. lia.
  - apply fold_range; [lia|done..].
  - apply fold_range; [lia|done..].
  - by eexists.
Qed.

Lemma groups_ok rows : Forall listable rows -> in_i64 (Z.of_nat (length rows)) -> Forall group_ok (SQLite_groups rows).
Proof.
  intros Hr Hn. apply list.Forall_fmap, list.Forall_forall. intros id Hid. by apply group_facts.
Qed.

Lemma groups_scan rows : Forall listable rows -> in_i64 (Z.of_nat (length rows)) -> SQLite_scan general <$> SQLite_groups rows = Postgres_groups rows.
Proof.
  intros Hr Hn. unfold SQLite_groups, Postgres_groups. rewrite <- list_fmap_compose. apply list_fmap_ext.
  intros i id Hi. apply list_elem_of_lookup_2 in Hi. by apply group_facts.
Qed.

Lemma groups_NoDup rows col : NoDup (group_key col <$> SQLite_groups rows).
Proof.
  apply (NoDup_fmap_1 snd). rewrite <- list_fmap_compose. unfold SQLite_groups. rewrite <- list_fmap_compose.
  change (NoDup ((fun id => id) <$> contract_ids rows)). rewrite list_fmap_id. apply NoDup_remove_dups.
Qed.

(** ** Cursors *)

Definition with_cursor (c : string) (f : ContractsFilter) : ContractsFilter :=
  mkContractsFilter (cf_ContractIDPrefix f) (cf_SortKey f) (cf_Order f) c (cf_Limit f) (cf_Scope f).

(** The cursor of a row of the listing. *)
Definition cursor_of (tag sortKey : string) (c : ContractSummary) : string :=
  EncodeContractsCursorForBackend tag sortKey (contractSortValue c sortKey) (cs_ContractID c).

Lemma cursor_of_nonempty tag k c : cursor_of tag k c <> "".
Proof. unfold cursor_of, EncodeContractsCursorForBackend, encodeCompositeCursorForBackend, wrapCursorEnvelope. by case_bool_decide. Qed.

Lemma sort_key_cases k : ValidContractsSortKey k = true ->
  (sort_col k = "contract_id" /\ forall c, contractSortValue c k = cs_ContractID c) \/
  (sort_col k <> "contract_id" /\ forall g, group_ok g ->
     contractSortValue (SQLite_scan general g) k <> "" /\
     contractsCursorValue general (sort_col k) (sort_type k) (contractSortValue (SQLite_scan general g) k) = Ok (group_col (sort_col k) g)).
Proof.
  intros Hk. unfold ValidContractsSortKey in Hk. apply bool_decide_eq_true in Hk. rewrite !elem_of_cons in Hk.
  destruct Hk as [->|[->|[->|[->|[->|[->|Hk]]]]]]; [by left|by left| | | | |set_solver]; right; (split; [done|]); intros g [Hid Hc Hmin Hmax (t & Ht & Hs)].
  - change (FormatInt (g_count g) <> "" /\ match ParseInt (FormatInt (g_count g)) with Some n => Ok (SInt n) | None => Err bad_contracts_cursor end = Ok (SInt (g_count g))).
    by split; [apply FormatInt_nonempty|rewrite ParseInt_FormatInt].
  - change (FormatInt (g_min g) <> "" /\ match ParseInt (FormatInt (g_min g)) with Some n => Ok (SInt n) | None => Err bad_contracts_cursor end = Ok (SInt (g_min g))).
    by split; [apply FormatInt_nonempty|rewrite ParseInt_FormatInt].
  - change (FormatInt (g_max g) <> "" /\ match ParseInt (FormatInt (g_max g)) with Some n => Ok (SInt n) | None => Err bad_contracts_cursor end = Ok (SInt (g_max g))).
    by split; [apply FormatInt_nonempty|rewrite ParseInt_FormatInt].
  - change (format_RFC3339Nano (parseTime general (g_seen g)) <> "" /\
      match time_Parse general (format_RFC3339Nano (parseTime general (g_seen g))) with Some t => Ok (SText (formatTime t)) | None => Err bad_contracts_cursor end = Ok (SText (g_seen g))).
    split; [apply format_nano_nonempty|]. by rewrite Hs, parseTime_back, time_Parse_back.
Qed.

(** A cursor selects the groups after its own. *)
Lemma contracts_cursor_after f (c : option group) : ValidContractsSortKey (cf_SortKey f) = true -> (forall g, c = Some g -> group_ok g) ->
  exists where_ having, SQLite_contracts_cursor general (with_cursor (match c with None => "" | Some g => cursor_of CursorBackendSQLite (cf_SortKey f) (SQLite_scan general g) end) f) = Ok (where_, having) /\
    forall g, where_ (g_id g) && having g = match c with None => true | Some r => contracts_lt String.ltb f (group_key (sort_col (cf_SortKey f)) r) (group_key (sort_col (cf_SortKey f)) g) end.
Proof.
  intros Hk Hc. destruct c as [r|]; [|by eexists _, _]. specialize (Hc r eq_refl). unfold SQLite_contracts_cursor.
  cbn [with_cursor cf_Cursor cf_SortKey]. rewrite bool_decide_eq_false_2 by apply cursor_of_nonempty.
  unfold DecodeContractsCursorForBackend, cursor_of, EncodeContractsCursorForBackend. destruct (go_id r Hc) as [Hid Hbar].
  destruct (sort_key_cases _ Hk) as [[Hcol Hv]|[Hcol Hv]].
  - rewrite Hv, composite_back by done. rewrite Hcol. cbn [rbind].
    replace (contractsCursorValue general "contract_id" (sort_type (cf_SortKey f)) (cs_ContractID (SQLite_scan general r))) with (Ok (E := error) (SText (g_id r))).
    2:{ revert Hcol. unfold sort_col, sort_type, contractsSortParts. repeat case_match; by intros. }
    cbn [rbind]. rewrite bool_decide_eq_true_2 by done. eexists _, _. split; [done|]. intros g. rewrite andb_true_r.
    change (contracts_desc (with_cursor _ f)) with (contracts_desc f). unfold contracts_lt, group_key, group_col.
    rewrite bool_decide_eq_true_2 by done. by rewrite flip_lt_pair.
  - destruct (Hv r Hc) as [Hne Hval]. rewrite composite_back by done. cbn [rbind]. rewrite Hval. cbn [rbind].
    rewrite bool_decide_eq_false_2 by done. eexists _, _. split; [done|]. intros g. by rewrite andb_true_l.
Qed.

(** A client that follows the cursors. *)
Fixpoint follow (list_ : ContractsFilter -> result error (list ContractSummary * string)) (fuel : nat) (f : ContractsFilter) : option (list ContractSummary) :=
  match fuel with
  | O => None
  | S fuel =>
      match list_ f with
      | Err _ => None
      | Ok (items, cursor) => if bool_decide (cursor = "") then Some items else app items <$> follow list_ fuel (with_cursor cursor f)
      end
  end.

(** ** Pages *)

Section Rows.
Context (rows : list SEvent) (f : ContractsFilter).
Context (Hrows : Forall listable rows) (Hlen : in_i64 (Z.of_nat (length rows))) (Hk : ValidContractsSortKey (cf_SortKey f) = true).

Definition matching_rows : list SEvent := List.filter (fun e => SQLite_contracts_where f (ContractID e)) rows.
Definition listing : list group := SQLite_groups matching_rows.

Lemma matching_ok : Forall listable matching_rows /\ in_i64 (Z.of_nat (length matching_rows)).
Proof.
  split; [by apply filter_ok|]. pose proof (List.filter_length_le (fun e => SQLite_contracts_where f (ContractID e)) rows).
  unfold in_i64, minInt64 in *. unfold matching_rows. lia.
Qed.

Lemma listing_ok : Forall group_ok listing.
Proof. apply groups_ok; apply matching_ok. Qed.

Lemma cut_page_fmap {A B} (h : A -> B) n l : cut_page n (h <$> l) = (h <$> (cut_page n l).1, h <$> (cut_page n l).2).
Proof.
  unfold cut_page. rewrite length_fmap. destruct (n <? length l)%nat; [|done]. cbn. by rewrite <- fmap_take, fmap_last.
Qed.

Lemma contracts_page_is_page c : (forall g, c = Some g -> group_ok g) ->
  SQLite_ListContracts general (with_cursor (match c with None => "" | Some g => cursor_of CursorBackendSQLite (cf_SortKey f) (SQLite_scan general g) end) f) rows =
  Ok (let '(p, next) := page (group_key (sort_col (cf_SortKey f))) (contracts_lt String.ltb f) (clamp_limit (cf_Limit f)) (group_key (sort_col (cf_SortKey f)) <$> c) listing in
      (SQLite_scan general <$> p, match next with None => "" | Some g => cursor_of CursorBackendSQLite (cf_SortKey f) (SQLite_scan general g) end)).
Proof.
  intros Hc. destruct (contracts_cursor_after f c Hk Hc) as (where_ & having & Hcur & Hafter). unfold SQLite_ListContracts.
  cbn [with_cursor cf_SortKey cf_Limit]. rewrite Hk. cbn [negb]. unfold with_cursor in Hcur. unfold with_cursor. rewrite Hcur. cbn [rbind]. f_equal.
  unfold contracts_page, page. cbn [cf_Limit cf_SortKey]. rewrite cut_page_fmap.
  change (contracts_lt String.ltb (mkContractsFilter _ _ _ _ _ _)) with (contracts_lt String.ltb f).
  replace (List.filter having _) with (after (group_key (sort_col (cf_SortKey f))) (contracts_lt String.ltb f) (group_key (sort_col (cf_SortKey f)) <$> c) listing).
  { match goal with |- context [cut_page ?n ?l] => destruct (cut_page n l) as [p [g|]] end; done. }
  rewrite (filter_and (fun e => SQLite_contracts_where _ (ContractID e))), groups_filter.
  change (SQLite_groups (List.filter _ rows)) with listing. rewrite <- filter_and.
  rewrite (filter_agree group_ok _ (fun g => match c with None => true | Some r => contracts_lt String.ltb f (group_key (sort_col (cf_SortKey f)) r) (group_key (sort_col (cf_SortKey f)) g) end) listing listing_ok) by (intros; apply Hafter).
  destruct c as [r|]; [done|]. cbn. induction listing as [|x l IH]; [done|]. cbn. by rewrite <- IH.
Qed.

(** ** Walks *)

Lemma walk_listing_ok n : forall c out fin, walk (group_key (sort_col (cf_SortKey f))) (contracts_lt String.ltb f) (clamp_limit (cf_Limit f)) (group_key (sort_col (cf_SortKey f)) <$> c) (replicate n listing) = (out, fin) ->
  (forall g, c = Some g -> group_ok g) -> fin = true ->
  follow (fun f => SQLite_ListContracts general f rows) n (with_cursor (match c with None => "" | Some g => cursor_of CursorBackendSQLite (cf_SortKey f) (SQLite_scan general g) end) f) =
  Some (SQLite_scan general <$> out).
Proof.
  assert (Hst : StrictTotal (contracts_lt String.ltb f)) by (unfold contracts_lt; apply _).
  induction n as [|n IH]; intros c out fin Hw Hc Hf; cbn [replicate walk] in Hw; [by simplify_eq|]. cbn [follow]. rewrite contracts_page_is_page by done.
  destruct (page _ _ _ _ listing) as [p next] eqn:Ep. pose proof (page_spec _ _ _ _ _ _ _ (limit_pos (cf_Limit f)) (groups_NoDup _ _) Ep) as (_ & _ & Hin & Hnext).
  destruct next as [r|].
  - rewrite bool_decide_eq_false_2 by apply cursor_of_nonempty. destruct (walk _ _ _ _ _) as [more fin'] eqn:Ew in Hw. injection Hw as <- <-.
    change (with_cursor ?x (with_cursor _ f)) with (with_cursor x f). destruct Hnext as (_ & Hr & _).
    rewrite (IH (Some r) more fin' Ew); [by cbn; rewrite fmap_app| |done]. intros g [= <-].
    pose proof listing_ok as Hok. rewrite list.Forall_forall in Hok. apply Hok. by apply Hin, elem_of_after in Hr as [? _].
  - rewrite bool_decide_eq_true_2 by done. by simplify_eq.
Qed.

(** The order over the times is the order over their texts. *)
Lemma key_order g g' : group_ok g -> group_ok g' -> contracts_lt String.ltb f (group_key (sort_col (cf_SortKey f)) g) (group_key (sort_col (cf_SortKey f)) g') =
  contracts_lt String.ltb f (summary_key (sort_col (cf_SortKey f)) (SQLite_scan general g)) (summary_key (sort_col (cf_SortKey f)) (SQLite_scan general g')).
Proof.
  intros [_ _ _ _ (t & Ht & Hs)] [_ _ _ _ (t' & Ht' & Hs')]. unfold contracts_lt, flip_lt, lex_lt, group_key, summary_key, group_col, summary_col, SQLite_scan.
  cbn [fst snd g_id g_count g_min g_max cs_ContractID cs_EventCount cs_FirstLedger cs_LastLedger cs_LastSeen]. rewrite Hs, Hs', !parseTime_back by done.
  assert (H : forall a b, time_ok a -> time_ok b -> String.ltb (formatTime a) (formatTime b) = (a <? b) /\ (SText (formatTime a) = SText (formatTime b) <-> SInt a = SInt b)).
  { intros a b Ha Hb. pose proof (format_order a b Ha Hb) as Ho. unfold String.ltb. rewrite Ho. split; [unfold Z.ltb; by destruct (a ?= b)|].
    split; [|by intros [= ->]]. intros [= E]. rewrite E in Ho. f_equal. apply Z.compare_eq. rewrite <- Ho. pose proof (String.compare_antisym (formatTime b) (formatTime b)) as Hc. by destruct (String.compare (formatTime b) (formatTime b)). }
  destruct (H t t' Ht Ht') as [H1 H2]. destruct (H t' t Ht' Ht) as [H3 H4].
  repeat case_bool_decide; cbn [sval_lt]; try done; repeat case_match; rewrite ?H1, ?H3; try done; tauto.
Qed.
End Rows.
End Tables.

(** *** The contracts a filter asks for *)

(** The characters of a contract id (base32, upper case) and of a prefix of one. *)
Definition strkey_char (c : ascii) : bool :=
  ((48 <=? byte_val c) && (byte_val c <=? 57)) || ((65 <=? byte_val c) && (byte_val c <=? 90)).

(** What store.go documents: the granted contracts whose id has the prefix. *)
Definition asked_for (f : ContractsFilter) (id : string) : bool :=
  Allows (cf_Scope f) id && String.prefix (cf_ContractIDPrefix f) id.

Lemma strkey_lower c d : strkey_char c = true -> strkey_char d = true -> Ascii.eqb (ascii_lower c) (ascii_lower d) = Ascii.eqb c d.
Proof.
  assert (H : forallb (fun a => forallb (fun b => implb (strkey_char (ascii_of_nat a) && strkey_char (ascii_of_nat b))
    (Bool.eqb (Ascii.eqb (ascii_lower (ascii_of_nat a)) (ascii_lower (ascii_of_nat b))) (Ascii.eqb (ascii_of_nat a) (ascii_of_nat b)))) (seq 0 256)) (seq 0 256) = true)
    by (vm_compute; reflexivity).
  intros Hc Hd. rewrite forallb_forall in H.
  specialize (H (nat_of_ascii c) ltac:(apply in_seq; pose proof (nat_ascii_bounded c); lia)). rewrite forallb_forall in H.
  specialize (H (nat_of_ascii d) ltac:(apply in_seq; pose proof (nat_ascii_bounded d); lia)).
  rewrite !ascii_nat_embedding, Hc, Hd in H. by apply eqb_prop in H.
Qed.

(** On such ids LIKE with the prefix and a percent sign is the prefix test. *)
Lemma like_strkey p : forall s, str_all strkey_char p = true -> str_all strkey_char s = true ->
  SQLite_like (p +++ "%") s = String.prefix p s.
Proof.
  induction p as [|c p IH]; intros s Hp Hs.
  - destruct s as [|d s]; [done|]. unfold SQLite_like. cbn. clear Hs Hp.
    change (bool_decide (String d s = "")) with false. cbn [orb].
    induction s as [|e s IHs]; [done|]. cbn. rewrite IHs. apply orb_true_r.
  - cbn [str_all] in Hp. apply andb_true_iff in Hp as [Hc Hp]. unfold SQLite_like in *. cbn [append sql_like].
    assert (Hpct : Ascii.eqb c "%" = false /\ Ascii.eqb c "_" = false).
    { split; apply Ascii.eqb_neq; intros ->; by vm_compute in Hc. }
    destruct Hpct as [-> ->]. cbn [andb]. destruct s as [|d s]; [done|].
    cbn [str_all] in Hs. apply andb_true_iff in Hs as [Hd Hs]. rewrite strkey_lower, IH by done. cbn [String.prefix].
    destruct (Ascii.eqb_spec c d) as [->|Hne]; [by rewrite decide_True_pi || destruct (ascii_dec d d)|].
    by destruct (ascii_dec c d).
Qed.

Lemma matching_asked_for rows f : IsWildcard (cf_Scope f) = true -> str_all strkey_char (cf_ContractIDPrefix f) = true ->
  Forall (fun e => str_all strkey_char (ContractID e) = true) rows ->
  matching_rows rows f = List.filter (fun e => asked_for f (ContractID e)) rows.
Proof.
  intros Hw Hp Hrows. unfold matching_rows. apply List.filter_ext_in. intros e He. rewrite list.Forall_forall in Hrows.
  specialize (Hrows e ltac:(by apply list_elem_of_In)). unfold SQLite_contracts_where, asked_for, Allows, IsWildcard in *.
  rewrite Hw. cbn [orb andb]. unfold when, nonempty. destruct (cf_ContractIDPrefix f) as [|c p] eqn:E; [by destruct (ContractID e)|].
  rewrite like_strkey by done. reflexivity.
Qed.

(** C24: for a caller with the wildcard scope, a client that follows the cursors of
    SQLite's ListContracts, for any sort key, order, prefix and page size, gets
    every contract whose id has the prefix exactly once, in order, with the exact
    number of its events, its first and last ledger and the time of its latest
    event, and as many as CountContracts reports. The rows have a contract id, and
    ids and prefix are made of the characters of strkeys. *)
Theorem contracts_listed_once (general : string -> option Z) (rows : list SEvent) (f : ContractsFilter)
    (Hrows : Forall listable rows) (Hlen : in_i64 (Z.of_nat (length rows)))
    (Hids : Forall (fun e => str_all strkey_char (ContractID e) = true) rows)
    (Hprefix : str_all strkey_char (cf_ContractIDPrefix f) = true) (Hscope : IsWildcard (cf_Scope f) = true)
    (Hk : ValidContractsSortKey (cf_SortKey f) = true) (Hc : cf_Cursor f = "") :
  let asked := List.filter (fun e => asked_for f (ContractID e)) rows in
  exists out, follow (fun f => SQLite_ListContracts general f rows) (S (length (contract_ids asked))) f = Some out /\
    out ≡ₚ Postgres_groups asked /\
    StronglySorted (fun a b => contracts_lt String.ltb f (summary_key (sort_col (cf_SortKey f)) a) (summary_key (sort_col (cf_SortKey f)) b) = true) out /\
    SQLite_CountContracts f rows = Z.of_nat (length out).
Proof.
  cbv zeta. rewrite <- (matching_asked_for rows f Hscope Hprefix Hids).
  assert (Hst : StrictTotal (contracts_lt String.ltb f)) by (unfold contracts_lt; apply _).
  set (key := group_key (sort_col (cf_SortKey f))). set (gs := listing rows f).
  pose proof (walk_lists key (contracts_lt String.ltb f) (clamp_limit (cf_Limit f)) gs (limit_pos _) (groups_NoDup _ _)) as Hw.
  replace (length gs) with (length (contract_ids (matching_rows rows f))) in Hw by (unfold gs, listing, SQLite_groups; by rewrite length_fmap).
  pose proof (walk_listing_ok general rows f Hrows Hlen Hk _ None _ _ Hw ltac:(done) eq_refl) as Hfollow.
  cbn beta iota in Hfollow. assert (Hcf : with_cursor "" f = f) by (clear -Hc; destruct f; cbn in *; by subst). rewrite Hcf in Hfollow.
  exists (SQLite_scan general <$> order_rows key (contracts_lt String.ltb f) gs). split_and!; [exact Hfollow| | |].
  - rewrite order_rows_Permutation. unfold gs, listing. by rewrite groups_scan by apply (matching_ok rows f Hrows Hlen).
  - assert (Hok : Forall group_ok (order_rows key (contracts_lt String.ltb f) gs)) by (rewrite order_rows_Permutation; apply (listing_ok general rows f Hrows Hlen)).
    pose proof (order_rows_strict key (contracts_lt String.ltb f) gs (groups_NoDup _ _)) as Hs. clear Hfollow Hw Hcf. revert Hok Hs.
    induction (order_rows key (contracts_lt String.ltb f) gs) as [|g l IH]; intros Hok Hs; [constructor|]. rewrite fmap_cons.
    apply list.Forall_cons in Hok as [Hg Hok]. inversion Hs as [|? ? Hs' Hall]; subst. constructor; [by apply IH|].
    apply list.Forall_fmap, list.Forall_forall. intros g' Hg'. rewrite list.Forall_forall in Hall, Hok. cbn.
    rewrite <- key_order; [by apply Hall|done|by apply Hok].
  - rewrite length_fmap, order_rows_Permutation. unfold SQLite_CountContracts, gs, listing, SQLite_groups. by rewrite length_fmap.
Qed.

(** ** Runs *)

Definition of_contract (id : string) (ledger ev created : Z) : SEvent :=
  mkEvent (FormatTOIDCursor ledger 1 1 ev) id ledger "contract" "t" 1 1 true "[]" "1" created "default" [] "".
Definition some_contracts : list SEvent :=
  [of_contract "CA" 7 0 (9 * Second); of_contract "CB" 8 0 (10 * Second); of_contract "CA" 9 0 (12 * Second); of_contract "CC" 9 1 (12 * Second)].
Definition by_activity (limit : Z) : ContractsFilter := mkContractsFilter "C" SortByActivity "" "" limit WildcardScope.

Lemma contracts_listed_once_witness :
  exists out, follow (fun f => SQLite_ListContracts strict_time f some_contracts) 4 (by_activity 1) = Some out /\
    SQLite_CountContracts (by_activity 1) some_contracts = Z.of_nat (length out) /\ length out = 3%nat.
Proof.
  destruct (contracts_listed_once strict_time some_contracts (by_activity 1)) as (out & H1 & H2 & _ & H3).
  - repeat constructor; cbn; try done; unfold time_ok; vm_compute; intuition congruence.
  - split; vm_compute; congruence.
  - repeat constructor.
  - reflexivity.
  - reflexivity.
  - reflexivity.
  - reflexivity.
  - exists out. split; [exact H1|]. split; [exact H3|]. apply Permutation_length in H2. rewrite H2. vm_compute. reflexivity.
Defined.

(** What one page of it looks like. *)
Example first_page : SQLite_ListContracts strict_time (by_activity 1) some_contracts =
  Ok ([mkSummary "CA" 2 7 9 (12 * Second)], cursor_of CursorBackendSQLite SortByActivity (mkSummary "CA" 2 7 9 (12 * Second))).
Proof. vm_compute. reflexivity. Qed.

(** ** What the API makes of the cursors *)

(** By contract id, the default order, the cursor of a page is longer than the API
    accepts: the second page is refused although its cursor is the store's own. *)
Definition demo_contract' : string := "CBAAAAAAAAAAAAAAAAAAAAAAAAAAAAAAAAAAAAAAAAAAAAAAAAAAAAAA".
Definition two_contracts : list SEvent := [of_contract demo_contract 7 0 (9 * Second); of_contract demo_contract' 8 0 (10 * Second)].

Lemma default_listing_has_no_second_page :
  let list_ := fun f => SQLite_ListContracts strict_time f two_contracts in
  let count := fun f => Ok (SQLite_CountContracts f two_contracts) in
  exists items cursor, handleListContracts list_ count (params [("limit", "1")]) WildcardScope = Listed items cursor (Some 2) /\ length items = 1%nat /\
    handleListContracts list_ count (params [("limit", "1"); ("cursor", cursor)]) WildcardScope = Refused 400.
Proof. cbv zeta. eexists _, _. split; [vm_compute; reflexivity|]. split; vm_compute; reflexivity. Qed.

(** Postgres refuses the statement of every later page of the other sort keys, and
    the API answers 500. *)
Lemma postgres_has_no_second_page general collate rows f r : ValidContractsSortKey (cf_SortKey f) = true -> sort_col (cf_SortKey f) <> "contract_id" ->
  DeniesAll (cf_Scope f) = false -> group_ok r ->
  exists e, Postgres_ListContracts general collate (with_cursor (cursor_of CursorBackendPostgres (cf_SortKey f) (SQLite_scan general r)) f) rows = Err e /\ contracts_error_status e = 500.
Proof.
  intros Hk Hcol Hs Hr. destruct (sort_key_cases general _ Hk) as [[? _]|[_ Hv]]; [done|]. destruct (Hv r Hr) as [Hne Hval]. destruct (go_id r Hr) as [Hid Hbar].
  unfold Postgres_ListContracts, Postgres_contracts_cursor. cbn [with_cursor cf_SortKey cf_Cursor cf_Scope]. rewrite Hk. cbn [negb].
  rewrite bool_decide_eq_false_2 by apply cursor_of_nonempty.
  unfold DecodeContractsCursorForBackend, cursor_of, EncodeContractsCursorForBackend. rewrite composite_back by done. cbn [rbind]. rewrite Hval. cbn [rbind].
  rewrite Hs, bool_decide_eq_false_2 by done. cbn [rbind]. by eexists.
Qed.

(** SQLite does not look at the scope: a caller without grants lists every
    contract, where Postgres lists none. *)
Lemma sqlite_contracts_ignore_scope general collate f rows sc :
  SQLite_ListContracts general (mkContractsFilter (cf_ContractIDPrefix f) (cf_SortKey f) (cf_Order f) (cf_Cursor f) (cf_Limit f) sc) rows = SQLite_ListContracts general f rows /\
  (ValidContractsSortKey (cf_SortKey f) = true -> cf_Cursor f = "" -> cf_Scope f = zeroScope -> Postgres_ListContracts general collate f rows = Ok ([], "")).
Proof.
  split; [by destruct f|]. intros Hk Hc Hs. unfold Postgres_ListContracts, Postgres_contracts_cursor. rewrite Hk, Hc, Hs. reflexivity.
Qed.
