(* ===== verification/TenantStore.v ===== *)
(** * Tenants in Postgres (internal/store/tenant.go, internal/store/tenant_postgres.go)

    The tables of multi-tenancy and the statements on them: tenants, their API
    keys, grants, watch lists and usage. Serial ids come from sequences, which a
    failed insert consumes too; deleting a tenant cascades. Failures of the driver
    are added where the operations are used. *)

From S2P Require Import Prelude GoStrings GoFloat GoTime GoSort StoreErrors StoreTypes Keyset Scope SqliteStore.
From Stdlib Require Import Ascii String.
Local Open Scope Z_scope.
Local Open Scope go_scope.

Local Notation length := List.length.

Record Tenant : Type := mkTenant {
  tn_ID : Z;
  tn_Name : string;
  tn_Wildcard : bool;
  tn_Admin : bool;
  tn_Enabled : bool;
  tn_RateLimitRPS : option float64;
  tn_RateLimitBurst : option Z;
  tn_MaxWatchedContracts : option Z;
  tn_CreatedAt : Z }.

Record TenantAPIKey : Type := mkTenantAPIKey {
  tk_ID : Z;
  tk_TenantID : Z;
  tk_Name : string;
  tk_Prefix : string;
  tk_CreatedAt : Z;
  tk_LastUsedAt : option Z;
  tk_RevokedAt : option Z }.

Record UsageDelta : Type := mkUsage { u_Requests : Z; u_EventsServed : Z; u_StreamSeconds : Z }.
Record TenantUsage : Type := mkTenantUsage { tu_TenantID : Z; tu_Day : Z; tu_Usage : UsageDelta }.

Definition Empty (d : UsageDelta) : bool := (u_Requests d =? 0) && (u_EventsServed d =? 0) && (u_StreamSeconds d =? 0).
Definition usage_plus (a b : UsageDelta) : UsageDelta :=
  mkUsage (u_Requests a + u_Requests b) (u_EventsServed a + u_EventsServed b) (u_StreamSeconds a + u_StreamSeconds b).

(** Primary keys: tenants and keys by id, grants (tenant, contract), watch lists
    (tenant, network, contract), usage (tenant, day); tenant names and key
    prefixes are unique. The operator's own watch list is part of the union. *)
Record TDB : Type := mkTDB {
  td_tenants : gmap Z Tenant;
  td_keys : gmap Z (TenantAPIKey * list Z);
  td_grants : gset (Z * string);
  td_watched : gset (Z * (string * string));
  td_global : gset (string * string);
  td_usage : gmap (Z * Z) UsageDelta;
  td_tenantSeq : Z;
  td_keySeq : Z }.

Definition with_tenants (m : gmap Z Tenant) (d : TDB) : TDB :=
  mkTDB m (td_keys d) (td_grants d) (td_watched d) (td_global d) (td_usage d) (td_tenantSeq d) (td_keySeq d).
Definition with_keys (m : gmap Z (TenantAPIKey * list Z)) (d : TDB) : TDB :=
  mkTDB (td_tenants d) m (td_grants d) (td_watched d) (td_global d) (td_usage d) (td_tenantSeq d) (td_keySeq d).
Definition with_grants (x : gset (Z * string)) (d : TDB) : TDB :=
  mkTDB (td_tenants d) (td_keys d) x (td_watched d) (td_global d) (td_usage d) (td_tenantSeq d) (td_keySeq d).
Definition with_tenant_watched (x : gset (Z * (string * string))) (d : TDB) : TDB :=
  mkTDB (td_tenants d) (td_keys d) (td_grants d) x (td_global d) (td_usage d) (td_tenantSeq d) (td_keySeq d).
Definition with_usage (m : gmap (Z * Z) UsageDelta) (d : TDB) : TDB :=
  mkTDB (td_tenants d) (td_keys d) (td_grants d) (td_watched d) (td_global d) m (td_tenantSeq d) (td_keySeq d).
Definition next_tenant (d : TDB) : TDB :=
  mkTDB (td_tenants d) (td_keys d) (td_grants d) (td_watched d) (td_global d) (td_usage d) (td_tenantSeq d + 1) (td_keySeq d).
Definition next_key (d : TDB) : TDB :=
  mkTDB (td_tenants d) (td_keys d) (td_grants d) (td_watched d) (td_global d) (td_usage d) (td_tenantSeq d) (td_keySeq d + 1).

(** ** Tenants *)

Definition set_tenant_id (id now : Z) (t : Tenant) : Tenant :=
  mkTenant id (tn_Name t) (tn_Wildcard t) (tn_Admin t) (tn_Enabled t) (tn_RateLimitRPS t) (tn_RateLimitBurst t) (tn_MaxWatchedContracts t) now.

(** The name is taken by a row with another id. *)
Definition name_taken (name : string) (id : Z) (d : TDB) : bool :=
  existsb (fun kt => bool_decide (tn_Name kt.2 = name) && negb (kt.1 =? id)) (map_to_list (td_tenants d)).

Definition CreateTenant (now : Z) (t : Tenant) (d : TDB) : result error Tenant * TDB :=
  let id := td_tenantSeq d in
  let d := next_tenant d in
  if name_taken (tn_Name t) id d then (Err (Errorf "tenant %q: %w" [Sentinel ErrDuplicate]), d)
  else let row := set_tenant_id id now t in (Ok row, with_tenants (<[id := row]> (td_tenants d)) d).

Definition GetTenant (id : Z) (d : TDB) : result error Tenant :=
  match td_tenants d !! id with Some t => Ok t | None => Err (Sentinel ErrNotFound) end.

Definition GetTenantByName (name : string) (d : TDB) : result error Tenant :=
  match List.find (fun t => bool_decide (tn_Name t = name)) (map_to_list (td_tenants d)).*2 with
  | Some t => Ok t
  | None => Err (Sentinel ErrNotFound)
  end.

Definition ListTenants (d : TDB) : list Tenant := order_rows tn_ID Z.ltb (map_to_list (td_tenants d)).*2.

(** Every column but the id and the creation time. *)
Definition UpdateTenant (t : Tenant) (d : TDB) : result error Tenant * TDB :=
  match td_tenants d !! tn_ID t with
  | None => (Err (Sentinel ErrNotFound), d)
  | Some old =>
      if name_taken (tn_Name t) (tn_ID t) d then (Err (Errorf "tenant %q: %w" [Sentinel ErrDuplicate]), d)
      else let row := set_tenant_id (tn_ID t) (tn_CreatedAt old) t in (Ok row, with_tenants (<[tn_ID t := row]> (td_tenants d)) d)
  end.

(** ON DELETE CASCADE. *)
Definition DeleteTenant (id : Z) (d : TDB) : result error unit * TDB :=
  match td_tenants d !! id with
  | None => (Err (Sentinel ErrNotFound), d)
  | Some _ =>
      (Ok tt, mkTDB (delete id (td_tenants d)) (filter (fun k => tk_TenantID k.2.1 <> id) (td_keys d)) (filter (fun g => g.1 <> id) (td_grants d))
                (filter (fun w => w.1 <> id) (td_watched d)) (td_global d) (filter (fun u => u.1.1 <> id) (td_usage d)) (td_tenantSeq d) (td_keySeq d))
  end.

(** A row that names a tenant that is not there. *)
Definition fk_violation (fmt : string) : error := Errorf fmt [Sentinel (PgError "23503")].
Definition has_tenant (id : Z) (d : TDB) : bool := bool_decide (is_Some (td_tenants d !! id)).

(** ** Grants *)

Definition GrantContract (tenantID : Z) (contractID : string) (d : TDB) : result error unit * TDB :=
  if has_tenant tenantID d then (Ok tt, with_grants ({[(tenantID, contractID)]} ∪ td_grants d) d)
  else (Err (fk_violation "granting contract: %w"), d).

Definition RevokeContract (tenantID : Z) (contractID : string) (d : TDB) : TDB :=
  with_grants (td_grants d ∖ {[(tenantID, contractID)]}) d.

Definition ListGrants (tenantID : Z) (d : TDB) : list string :=
  sort_Strings (elements (filter (fun g => g.1 = tenantID) (td_grants d))).*2.

Definition ScopeForTenant (t : Tenant) (d : TDB) : Scope :=
  if tn_Wildcard t then WildcardScope else NewScope (ListGrants (tn_ID t) d).

(** ** Watch lists *)

Definition held (tenantID : Z) (d : TDB) : gset (Z * (string * string)) := filter (fun w => w.1 = tenantID) (td_watched d).
Definition CountTenantWatchedContracts (tenantID : Z) (d : TDB) : Z := Z.of_nat (size (held tenantID d)).

(** watchedContractsUnion: the pairs of the operator's list and of every tenant's. *)
Definition watchedContractsUnion (d : TDB) : gset (string * string) := td_global d ∪ set_map snd (td_watched d).
Definition CountInstanceWatchedContracts (d : TDB) : Z := Z.of_nat (size (watchedContractsUnion d)).

Definition insert_watched (tenantID : Z) (pair : string * string) (d : TDB) : TDB :=
  with_tenant_watched ({[(tenantID, pair)]} ∪ td_watched d) d.

Definition over_tenant_cap (t : Tenant) (count : Z) : bool :=
  match tn_MaxWatchedContracts t with Some cap => cap <=? count | None => false end.

Definition quota_error (fmt : string) : error := Errorf fmt [Sentinel ErrQuotaExceeded].

(** The transaction when nothing runs beside it; its statements one by one are in
    TenantWatch.v. *)
Definition AddTenantWatchedContract (t : Tenant) (network contractID : string) (instanceCap : Z) (d : TDB) : result error unit * TDB :=
  let pair := (defaultNetwork network, contractID) in
  if bool_decide ((tn_ID t, pair) ∈ td_watched d) then (Ok tt, d)
  else if negb (has_tenant (tn_ID t) d) then (Err (Sentinel ErrNotFound), d)
  else if over_tenant_cap t (CountTenantWatchedContracts (tn_ID t) d) then (Err (quota_error "tenant watch-list limit of %d reached: %w"), d)
  else if (0 <? instanceCap) && negb (bool_decide (pair ∈ watchedContractsUnion d)) && (instanceCap <=? CountInstanceWatchedContracts d)
  then (Err (quota_error "instance watch-list limit of %d reached: %w"), d)
  else (Ok tt, insert_watched (tn_ID t) pair d).

Definition RemoveTenantWatchedContract (tenantID : Z) (network contractID : string) (d : TDB) : TDB :=
  with_tenant_watched (td_watched d ∖ {[(tenantID, (defaultNetwork network, contractID))]}) d.

Definition ListTenantWatchedContracts (tenantID : Z) (network : string) (d : TDB) : list string :=
  sort_Strings (elements (filter (fun w => w.1 = tenantID /\ w.2.1 = defaultNetwork network) (td_watched d))).*2.*2.

(** ** Keys *)

Definition key_with_prefix (prefix : string) (d : TDB) : option (TenantAPIKey * list Z) :=
  snd <$> List.find (fun k => bool_decide (tk_Prefix k.2.1 = prefix)) (map_to_list (td_keys d)).

Definition insert_key (now tenantID : Z) (name prefix : string) (digest : list Z) (d : TDB) : TenantAPIKey * TDB :=
  let id := td_keySeq d in
  let k := mkTenantAPIKey id tenantID name prefix now None None in
  (k, next_key (with_keys (<[id := (k, digest)]> (td_keys d)) d)).

Definition CreateTenantAPIKey (now tenantID : Z) (name prefix : string) (digest : list Z) (d : TDB) : result error TenantAPIKey * TDB :=
  match key_with_prefix prefix d with
  | Some _ => (Err (Sentinel ErrDuplicate), next_key d)
  | None =>
      if has_tenant tenantID d then let '(k, d) := insert_key now tenantID name prefix digest d in (Ok k, d)
      else (Err (fk_violation "creating api key: %w"), next_key d)
  end.

(** ON CONFLICT (prefix) DO UPDATE: the digest and the tenant, without revocation. *)
Definition CreateTenantAPIKeyIfAbsent (now tenantID : Z) (name prefix : string) (digest : list Z) (d : TDB) : result error unit * TDB :=
  if negb (has_tenant tenantID d) then (Err (fk_violation "creating api key: %w"), next_key d)
  else match key_with_prefix prefix d with
       | Some (k, _) =>
           (Ok tt, next_key (with_keys (<[tk_ID k := (mkTenantAPIKey (tk_ID k) tenantID (tk_Name k) (tk_Prefix k) (tk_CreatedAt k) (tk_LastUsedAt k) None, digest)]> (td_keys d)) d))
       | None => (Ok tt, (insert_key now tenantID name prefix digest d).2)
       end.

Definition LookupTenantAPIKey (prefix : string) (d : TDB) : result error (TenantAPIKey * list Z * Tenant) :=
  match key_with_prefix prefix d with
  | Some (k, digest) =>
      match tk_RevokedAt k, td_tenants d !! tk_TenantID k with
      | None, Some t => Ok (k, digest, t)
      | _, _ => Err (Sentinel ErrNotFound)
      end
  | None => Err (Sentinel ErrNotFound)
  end.

Definition alter_key (f : TenantAPIKey -> TenantAPIKey) (id : Z) (d : TDB) : TDB :=
  with_keys (alter (fun x => (f x.1, x.2)) id (td_keys d)) d.

Definition TouchTenantAPIKey (now id : Z) (d : TDB) : TDB :=
  alter_key (fun k => mkTenantAPIKey (tk_ID k) (tk_TenantID k) (tk_Name k) (tk_Prefix k) (tk_CreatedAt k) (Some now) (tk_RevokedAt k)) id d.

Definition ListTenantAPIKeys (tenantID : Z) (d : TDB) : list TenantAPIKey :=
  List.filter (fun k => tk_TenantID k =? tenantID) (order_rows tk_ID Z.ltb ((map_to_list (td_keys d)).*2).*1).

Definition RevokeTenantAPIKey (now id : Z) (d : TDB) : result error unit * TDB :=
  match td_keys d !! id with
  | Some (k, _) =>
      match tk_RevokedAt k with
      | None => (Ok tt, alter_key (fun k => mkTenantAPIKey (tk_ID k) (tk_TenantID k) (tk_Name k) (tk_Prefix k) (tk_CreatedAt k) (tk_LastUsedAt k) (Some now)) id d)
      | Some _ => (Err (Sentinel ErrNotFound), d)
      end
  | None => (Err (Sentinel ErrNotFound), d)
  end.

(** ** Usage *)

Definition day_of (t : Z) : Z := t / day_ns.

Definition add_usage (day : Z) (d : TDB) (td : Z * UsageDelta) : TDB :=
  with_usage (partial_alter (fun old => Some (match old with Some u => usage_plus u td.2 | None => td.2 end)) (td.1, day) (td_usage d)) d.

Definition isForeignKeyViolation (e : error) : bool := errors_Is e (PgError "23503").

(** The statements of one batch run in one implicit transaction: a missing tenant
    undoes them all, and [skipped] is what the driver answers for the statements
    after it. A foreign key violation is taken for harmless. *)
Definition AddUsage (skipped : error) (now : Z) (deltas : list (Z * UsageDelta)) (d : TDB) : result error unit * TDB :=
  let batch := List.filter (fun td => negb (Empty td.2)) deltas in
  if forallb (fun td => has_tenant td.1 d) batch then (Ok tt, foldl (add_usage (day_of now)) d batch)
  else
    let last_only := forallb (fun td => has_tenant td.1 d) (removelast batch) in
    ((if last_only || isForeignKeyViolation skipped then Ok tt else Err (Errorf "recording usage: %w" [skipped])), d).

Definition ListUsage (tenantID days : Z) (d : TDB) : list TenantUsage :=
  let days := if days <=? 0 then 30 else days in
  take (Z.to_nat days) (order_rows tu_Day (flip_lt true Z.ltb)
    (List.filter (fun u => tu_TenantID u =? tenantID) ((fun kv => mkTenantUsage kv.1.1 kv.1.2 kv.2) <$> map_to_list (td_usage d)))).

(** ** Handlers (internal/api/handlers_tenant.go) *)

Definition validateTenantQuotas (t : Tenant) : bool :=
  match tn_RateLimitRPS t with Some r => negb (f64_ltb r f64_0) | None => true end &&
  match tn_RateLimitBurst t with Some b => negb (b <? 0) | None => true end &&
  match tn_MaxWatchedContracts t with Some m => negb (m <? 0) | None => true end &&
  Bool.eqb (match tn_RateLimitRPS t with None => true | _ => false end) (match tn_RateLimitBurst t with None => true | _ => false end).

Record tenantRequest : Type := mkTenantRequest {
  tr_Name : option string; tr_Wildcard : option bool; tr_Admin : option bool; tr_Enabled : option bool;
  tr_RateLimitRPS : option float64; tr_RateLimitBurst : option Z; tr_MaxWatchedContracts : option Z }.

(** Absent fields keep their value. *)
Definition patch_tenant (req : tenantRequest) (t : Tenant) : Tenant :=
  let keep {A} (o old : option A) := match o with Some _ => o | None => old end in
  mkTenant (tn_ID t) (default (tn_Name t) (tr_Name req)) (default (tn_Wildcard t) (tr_Wildcard req)) (default (tn_Admin t) (tr_Admin req))
    (default (tn_Enabled t) (tr_Enabled req)) (keep (tr_RateLimitRPS req) (tn_RateLimitRPS t)) (keep (tr_RateLimitBurst req) (tn_RateLimitBurst t))
    (keep (tr_MaxWatchedContracts req) (tn_MaxWatchedContracts t)) (tn_CreatedAt t).

(** The tenant a create request describes, None for a 400. *)
Definition new_tenant (req : tenantRequest) : option Tenant :=
  match tr_Name req with
  | None => None
  | Some name =>
      if bool_decide (name = "") then None
      else
        let t := mkTenant 0 name (default false (tr_Wildcard req)) (default false (tr_Admin req)) (default true (tr_Enabled req))
                   (tr_RateLimitRPS req) (tr_RateLimitBurst req) (tr_MaxWatchedContracts req) time_zero in
        if validateTenantQuotas t then Some t else None
  end.

(** * The tables of the tenants stay consistent

    Names and prefixes stay unique, ids match their rows and no row outlives its
    tenant, whatever sequence of operations runs. *)


(** ** Operations *)

Inductive tenant_op : Type :=
  | TCreate (now : Z) (t : Tenant)
  | TUpdate (t : Tenant)
  | TDelete (id : Z)
  | TGrant (id : Z) (contract : string)
  | TRevoke (id : Z) (contract : string)
  | TWatch (t : Tenant) (network contract : string) (cap : Z)
  | TUnwatch (id : Z) (network contract : string)
  | TKey (now id : Z) (name prefix : string) (digest : list Z)
  | TKeyIfAbsent (now id : Z) (name prefix : string) (digest : list Z)
  | TTouch (now id : Z)
  | TRevokeKey (now id : Z)
  | TUsage (skipped : error) (now : Z) (deltas : list (Z * UsageDelta)).

Definition tenant_step (op : tenant_op) (d : TDB) : TDB :=
  match op with
  | TCreate now t => (CreateTenant now t d).2
  | TUpdate t => (UpdateTenant t d).2
  | TDelete id => (DeleteTenant id d).2
  | TGrant id c => (GrantContract id c d).2
  | TRevoke id c => RevokeContract id c d
  | TWatch t n c cap => (AddTenantWatchedContract t n c cap d).2
  | TUnwatch id n c => RemoveTenantWatchedContract id n c d
  | TKey now id n p g => (CreateTenantAPIKey now id n p g d).2
  | TKeyIfAbsent now id n p g => (CreateTenantAPIKeyIfAbsent now id n p g d).2
  | TTouch now id => TouchTenantAPIKey now id d
  | TRevokeKey now id => (RevokeTenantAPIKey now id d).2
  | TUsage s now l => (AddUsage s now l d).2
  end.

(** ** The invariant *)

Record tenants_ok (d : TDB) : Prop := {
  to_id : forall id t, td_tenants d !! id = Some t -> tn_ID t = id /\ id < td_tenantSeq d;
  to_name : forall i j t u, td_tenants d !! i = Some t -> td_tenants d !! j = Some u -> tn_Name t = tn_Name u -> i = j;
  to_key : forall id k g, td_keys d !! id = Some (k, g) -> tk_ID k = id /\ id < td_keySeq d /\ is_Some (td_tenants d !! tk_TenantID k);
  to_prefix : forall i j k g l h, td_keys d !! i = Some (k, g) -> td_keys d !! j = Some (l, h) -> tk_Prefix k = tk_Prefix l -> i = j;
  to_grant : forall g, g ∈ td_grants d -> is_Some (td_tenants d !! g.1);
  to_watch : forall w, w ∈ td_watched d -> is_Some (td_tenants d !! w.1);
  to_usage : forall t day u, td_usage d !! (t, day) = Some u -> is_Some (td_tenants d !! t) }.

Lemma name_free name id d : name_taken name id d = false -> forall j u, td_tenants d !! j = Some u -> tn_Name u = name -> j = id.
Proof.
  unfold name_taken. intros H j u Hj Hn. destruct (decide (j = id)) as [|Hne]; [done|]. exfalso.
  apply not_true_iff_false in H. apply H, existsb_exists. exists (j, u). split; [by apply list_elem_of_In, elem_of_map_to_list|].
  cbn. rewrite bool_decide_eq_true_2 by done. cbn. by apply negb_true_iff, Z.eqb_neq.
Qed.

Lemma key_with_prefix_some prefix d k g : key_with_prefix prefix d = Some (k, g) -> exists id, td_keys d !! id = Some (k, g) /\ tk_Prefix k = prefix.
Proof.
  unfold key_with_prefix. destruct (List.find _ _) as [[id [k' g']]|] eqn:E; [|done]. cbn. intros [= -> ->].
  apply List.find_some in E as [E1 E2]. apply list_elem_of_In, elem_of_map_to_list in E1. apply bool_decide_eq_true in E2. by exists id.
Qed.

Lemma key_with_prefix_none prefix d : key_with_prefix prefix d = None -> forall id k g, td_keys d !! id = Some (k, g) -> tk_Prefix k <> prefix.
Proof.
  unfold key_with_prefix. destruct (List.find _ _) eqn:E; [done|]. intros _ id k g Hk Hp.
  assert (Hin : In (id, (k, g)) (map_to_list (td_keys d))) by (by apply list_elem_of_In, elem_of_map_to_list).
  pose proof (List.find_none _ _ E _ Hin) as Hf. cbn in Hf. by rewrite bool_decide_eq_true_2 in Hf.
Qed.

(** The row with a prefix, when prefixes are unique. *)
Lemma key_with_prefix_intro d id k g : tenants_ok d -> td_keys d !! id = Some (k, g) -> key_with_prefix (tk_Prefix k) d = Some (k, g).
Proof.
  intros Hok Hk. destruct (key_with_prefix (tk_Prefix k) d) as [[k' g']|] eqn:E.
  - apply key_with_prefix_some in E as (id' & Hk' & Hp). assert (id' = id) as -> by (eapply (to_prefix d Hok); eauto). congruence.
  - exfalso. by eapply key_with_prefix_none.
Qed.

Lemma has_tenant_some id d : has_tenant id d = true -> is_Some (td_tenants d !! id).
Proof. unfold has_tenant. by rewrite bool_decide_eq_true. Qed.

(** Steps that only touch one table need its clauses. *)
Lemma ok_sequences d d' : td_tenants d' = td_tenants d -> td_keys d' = td_keys d -> td_grants d' ⊆ td_grants d -> td_watched d' ⊆ td_watched d -> td_usage d' = td_usage d ->
  td_tenantSeq d <= td_tenantSeq d' -> td_keySeq d <= td_keySeq d' -> tenants_ok d -> tenants_ok d'.
Proof.
  intros Et Ek Eg Ew Eu Hs Hk [H1 H2 H3 H4 H5 H6 H7]. split; rewrite ?Et, ?Ek, ?Eu.
  - intros id t Ht. specialize (H1 id t Ht). lia.
  - done.
  - intros id k g Hg. specialize (H3 id k g Hg). intuition lia.
  - done.
  - intros g Hg. apply H5. set_solver.
  - intros w Hw. apply H6. set_solver.
  - done.
Qed.

Lemma ok_keys d m seq : tenants_ok d -> td_keySeq d <= seq ->
  (forall id k g, m !! id = Some (k, g) -> tk_ID k = id /\ id < seq /\ is_Some (td_tenants d !! tk_TenantID k)) ->
  (forall i j k g l h, m !! i = Some (k, g) -> m !! j = Some (l, h) -> tk_Prefix k = tk_Prefix l -> i = j) ->
  tenants_ok (mkTDB (td_tenants d) m (td_grants d) (td_watched d) (td_global d) (td_usage d) (td_tenantSeq d) seq).
Proof. intros [H1 H2 H3 H4 H5 H6 H7] Hs Hk Hp. by split. Qed.

(** A key row replaced by one with the same id and prefix. *)
Lemma ok_alter d id k g k' g' seq : tenants_ok d -> td_keySeq d <= seq -> td_keys d !! id = Some (k, g) -> tk_ID k' = tk_ID k -> tk_Prefix k' = tk_Prefix k ->
  is_Some (td_tenants d !! tk_TenantID k') ->
  tenants_ok (mkTDB (td_tenants d) (<[id := (k', g')]> (td_keys d)) (td_grants d) (td_watched d) (td_global d) (td_usage d) (td_tenantSeq d) seq).
Proof.
  intros Hok Hs Hk Hid Hp Ht. destruct (to_key d Hok id k g Hk) as (Hki & Hlt & _). apply ok_keys; [done|done| |].
  - intros i l h. rewrite lookup_insert_Some. intros [[<- [= <- <-]]|[_ Hl]]; [split_and!; [congruence|lia|done]|].
    destruct (to_key d Hok i l h Hl) as (? & ? & ?). split_and!; [done|lia|done].
  - intros i j l h l' h'. rewrite !lookup_insert_Some. intros [[<- [= <- <-]]|[Hi Hl]] [[<- [= <- <-]]|[Hj Hl']] Hpp; try done.
    + rewrite Hp in Hpp. by eapply (to_prefix d Hok).
    + rewrite Hp in Hpp. by eapply (to_prefix d Hok).
    + by eapply (to_prefix d Hok).
Qed.

(** ** Preservation *)

Lemma create_ok now t d : tenants_ok d -> tenants_ok (CreateTenant now t d).2.
Proof.
  intros Hok. unfold CreateTenant. cbv zeta. destruct (name_taken _ _ _) eqn:En; cbn [snd]; [by apply (ok_sequences d); cbn; try done; lia|].
  pose proof (name_free _ _ _ En) as Hfree. destruct Hok as [H1 H2 H3 H4 H5 H6 H7].
  assert (Hnew : td_tenants d !! td_tenantSeq d = None).
  { destruct (td_tenants d !! td_tenantSeq d) as [u|] eqn:E; [|done]. destruct (H1 _ _ E). lia. }
  assert (Hsome : forall i, is_Some (td_tenants d !! i) -> is_Some (<[td_tenantSeq d := set_tenant_id (td_tenantSeq d) now t]> (td_tenants d) !! i)).
  { intros i Hi. rewrite lookup_insert_is_Some. destruct (decide (td_tenantSeq d = i)); [by left|by right]. }
  split; cbn in *; [| |intros id k g Hk; destruct (H3 id k g Hk) as (?&?&?); auto|done|auto|auto|eauto].
  - intros id u. rewrite lookup_insert_Some. intros [[<- <-]|[_ Hu]]; [split; [done|lia]|]. destruct (H1 id u Hu). split; [done|lia].
  - intros i j u v. rewrite !lookup_insert_Some. intros [[<- <-]|[Hi Hu]] [[<- <-]|[Hj Hv]] Hn; try done.
    + symmetry. by apply (Hfree j v).
    + by apply (Hfree i u).
    + by eapply H2.
Qed.

Lemma update_ok t d : tenants_ok d -> tenants_ok (UpdateTenant t d).2.
Proof.
  intros Hok. unfold UpdateTenant. destruct (td_tenants d !! tn_ID t) as [old|] eqn:Eo; [|done]. destruct (name_taken _ _ _) eqn:En; [done|]. cbv zeta. cbn [snd].
  pose proof (name_free _ _ _ En) as Hfree. destruct Hok as [H1 H2 H3 H4 H5 H6 H7]. destruct (H1 _ _ Eo) as [_ Hlt].
  assert (Hsome : forall i x, is_Some (td_tenants d !! i) -> is_Some (<[tn_ID t := x]> (td_tenants d) !! i)).
  { intros i x Hi. rewrite lookup_insert_is_Some. destruct (decide (tn_ID t = i)); [by left|by right]. }
  split; cbn in *; [| |intros id k g Hk; destruct (H3 id k g Hk) as (?&?&?); auto|done|auto|auto|eauto].
  - intros id u. rewrite lookup_insert_Some. intros [[<- <-]|[_ Hu]]; [done|by apply H1].
  - intros i j u v. rewrite !lookup_insert_Some. intros [[<- <-]|[Hi Hu]] [[<- <-]|[Hj Hv]] Hn; try done.
    + symmetry. by apply (Hfree j v).
    + by apply (Hfree i u).
    + by eapply H2.
Qed.

Lemma delete_ok id d : tenants_ok d -> tenants_ok (DeleteTenant id d).2.
Proof.
  intros [H1 H2 H3 H4 H5 H6 H7]. unfold DeleteTenant. destruct (td_tenants d !! id) as [gone|] eqn:Eo; [|done]. cbn [snd].
  assert (Hsome : forall i, i <> id -> is_Some (td_tenants d !! i) -> is_Some (delete id (td_tenants d) !! i)) by (intros i Hi Hs; by rewrite lookup_delete_ne).
  split; cbn.
  - intros i t [_ Hi]%lookup_delete_Some. by apply H1.
  - intros i j t u [_ Hi]%lookup_delete_Some [_ Hj]%lookup_delete_Some. by apply H2.
  - intros i k g [Hk Hf]%map_lookup_filter_Some. cbn in Hf. destruct (H3 i k g Hk) as (?&?&?). auto.
  - intros i j k g l h [Hk _]%map_lookup_filter_Some [Hl _]%map_lookup_filter_Some. by eapply H4.
  - intros g [Hf Hg]%elem_of_filter. auto.
  - intros w [Hf Hw]%elem_of_filter. auto.
  - intros t day u [Hu Hf]%map_lookup_filter_Some. cbn in Hf. eauto.
Qed.

Lemma grant_ok id c d : tenants_ok d -> tenants_ok (GrantContract id c d).2.
Proof.
  intros Hok. unfold GrantContract. destruct (has_tenant id d) eqn:E; [|done]. apply has_tenant_some in E. destruct Hok as [H1 H2 H3 H4 H5 H6 H7].
  split; cbn; try done. intros g [->%elem_of_singleton|Hg]%elem_of_union; [done|auto].
Qed.

Lemma watch_ok id pair d : is_Some (td_tenants d !! id) -> tenants_ok d -> tenants_ok (insert_watched id pair d).
Proof.
  intros E [H1 H2 H3 H4 H5 H6 H7]. split; cbn; try done. intros g [->%elem_of_singleton|Hg]%elem_of_union; [done|auto].
Qed.

Lemma insert_key_ok now id name prefix digest d : is_Some (td_tenants d !! id) -> key_with_prefix prefix d = None -> tenants_ok d ->
  tenants_ok (insert_key now id name prefix digest d).2.
Proof.
  intros Ht Hn Hok. unfold insert_key. cbn [snd]. unfold next_key, with_keys. cbn. pose proof (key_with_prefix_none _ _ Hn) as Hp. apply ok_keys; [done|lia| |].
  - intros i k g. rewrite lookup_insert_Some. intros [[<- [= <- <-]]|[_ Hk]]; [split_and!; [done|lia|done]|].
    destruct (to_key d Hok i k g Hk) as (? & ? & ?). split_and!; [done|lia|done].
  - intros i j k g l h. rewrite !lookup_insert_Some. intros [[<- [= <- <-]]|[Hi Hk]] [[<- [= <- <-]]|[Hj Hl]] Hpp; try done.
    + cbn in Hpp. by destruct (Hp j l h Hl).
    + cbn in Hpp. by destruct (Hp i k g Hk).
    + by eapply (to_prefix d Hok).
Qed.

Lemma alter_key_ok f id d : (forall k, tk_ID (f k) = tk_ID k /\ tk_Prefix (f k) = tk_Prefix k /\ tk_TenantID (f k) = tk_TenantID k) -> tenants_ok d -> tenants_ok (alter_key f id d).
Proof.
  intros Hf Hok. unfold alter_key, with_keys. destruct (td_keys d !! id) as [[k g]|] eqn:E.
  - destruct (Hf k) as (F1 & F2 & F3). replace (alter _ id (td_keys d)) with (<[id := (f k, g)]> (td_keys d)).
    + apply (ok_alter d id k g); [done|lia|done..|]. rewrite F3. by eapply (to_key d Hok).
    + apply map_eq. intros i. destruct (decide (i = id)) as [->|]; [by rewrite lookup_insert_eq, lookup_alter_eq, E|by rewrite lookup_insert_ne, lookup_alter_ne].
  - replace (alter _ id (td_keys d)) with (td_keys d); [by destruct d|]. apply map_eq. intros i.
    destruct (decide (i = id)) as [->|]; [by rewrite lookup_alter_eq, E|by rewrite lookup_alter_ne].
Qed.

Lemma add_usage_ok day l : forall d, forallb (fun td => has_tenant td.1 d) l = true -> tenants_ok d -> tenants_ok (foldl (add_usage day) d l).
Proof.
  induction l as [|[t u] l IH]; intros d Hall Hok; [done|]. cbn in *. apply andb_true_iff in Hall as [Ht Hall]. apply IH; [done|].
  apply has_tenant_some in Ht. destruct Hok as [H1 H2 H3 H4 H5 H6 H7]. split; cbn; try done.
  intros t' day' u'. destruct (decide ((t', day') = (t, day))) as [[= -> ->]|Hne]; [by intros _|]. rewrite lookup_partial_alter_ne by congruence. by apply H7.
Qed.

Lemma tenant_step_ok op d : tenants_ok d -> tenants_ok (tenant_step op d).
Proof.
  intros Hok. destruct op; cbn [tenant_step].
  - by apply create_ok.
  - by apply update_ok.
  - by apply delete_ok.
  - by apply grant_ok.
  - apply (ok_sequences d); cbn; try done; try lia. set_solver.
  - unfold AddTenantWatchedContract. cbv zeta. case_bool_decide; [done|]. destruct (has_tenant (tn_ID t) d) eqn:E; cbn; [|done]. apply has_tenant_some in E.
    repeat case_match; try done. by apply watch_ok.
  - apply (ok_sequences d); cbn; try done; try lia. set_solver.
  - unfold CreateTenantAPIKey. destruct (key_with_prefix prefix d) eqn:E; [by apply (ok_sequences d); cbn; try done; lia|].
    destruct (has_tenant id d) eqn:Et; [|by apply (ok_sequences d); cbn; try done; lia]. apply has_tenant_some in Et.
    pose proof (insert_key_ok now id name prefix digest d Et E Hok). by destruct (insert_key now id name prefix digest d).
  - unfold CreateTenantAPIKeyIfAbsent. destruct (has_tenant id d) eqn:Et; [|by apply (ok_sequences d); cbn; try done; lia]. apply has_tenant_some in Et. cbn [negb].
    destruct (key_with_prefix prefix d) as [[k g]|] eqn:E; [|by apply insert_key_ok]. apply key_with_prefix_some in E as (i & Hk & Hp).
    pose proof (to_key d Hok i k g Hk) as (<- & _). cbn [snd]. by apply (ok_alter d (tk_ID k) k g); cbn; try done; lia.
  - by apply alter_key_ok.
  - unfold RevokeTenantAPIKey. destruct (td_keys d !! id) as [[k g]|]; [|done]. destruct (tk_RevokedAt k); [done|]. by apply alter_key_ok.
  - unfold AddUsage. cbv zeta. destruct (forallb _ _) eqn:E; [|done]. by apply add_usage_ok.
Qed.

Definition tenants_empty : TDB := mkTDB ∅ ∅ ∅ ∅ ∅ ∅ 1 1.

Lemma tenants_empty_ok : tenants_ok tenants_empty.
Proof. split; cbn; try (intros *; rewrite ?lookup_empty; done); set_solver. Qed.

(** C25: whatever operations run, tenant names and key prefixes stay unique, ids
    match their rows and stay below their sequence, every key, grant, watch and
    usage row belongs to a tenant that exists; so a credential resolves to at most
    one key, never to a revoked one, and to the tenant that owns it. *)
Theorem tenant_tables_consistent (ops : list tenant_op) (d : TDB) (Hok : tenants_ok d) :
  let d' := foldl (fun d op => tenant_step op d) d ops in
  tenants_ok d' /\
  (forall prefix k digest t, LookupTenantAPIKey prefix d' = Ok (k, digest, t) ->
     td_keys d' !! tk_ID k = Some (k, digest) /\ tk_Prefix k = prefix /\ tk_RevokedAt k = None /\ td_tenants d' !! tk_TenantID k = Some t /\ tn_ID t = tk_TenantID k) /\
  (forall id k digest t, td_keys d' !! id = Some (k, digest) -> tk_RevokedAt k = None -> td_tenants d' !! tk_TenantID k = Some t ->
     LookupTenantAPIKey (tk_Prefix k) d' = Ok (k, digest, t)).
Proof.
  cbv zeta. assert (Hd : tenants_ok (foldl (fun d op => tenant_step op d) d ops)) by (revert d Hok; induction ops; intros d Hok; cbn; auto using tenant_step_ok).
  generalize dependent (foldl (fun d op => tenant_step op d) d ops). clear. intros d Hok. split_and!; [done| |].
  - intros prefix k digest t. unfold LookupTenantAPIKey. destruct (key_with_prefix prefix d) as [[k' g']|] eqn:E; [|done].
    destruct (tk_RevokedAt k') eqn:Er; [done|]. destruct (td_tenants d !! tk_TenantID k') eqn:Et; [|done]. intros [= -> -> ->].
    apply key_with_prefix_some in E as (i & Hk & Hp). destruct (to_key d Hok i _ _ Hk) as (Hi & _). rewrite Hi. split_and!; try done. by apply (to_id d Hok).
  - intros id k digest t Hk Hr Ht. unfold LookupTenantAPIKey. by rewrite (key_with_prefix_intro d id k digest Hok Hk), Hr, Ht.
Qed.

(** ** Runs *)

Definition a_tenant (name : string) (cap : option Z) : Tenant := mkTenant 0 name false false true None None cap time_zero.
Definition two_tenants : TDB :=
  foldl (fun d op => tenant_step op d) tenants_empty [TCreate Second (a_tenant "a" (Some 1)); TCreate Second (a_tenant "b" None); TKey Second 1 "k" "PREFIX" [1; 2]; TGrant 1 "CA"].

Lemma tenant_tables_consistent_witness :
  let d := foldl (fun d op => tenant_step op d) tenants_empty [TCreate Second (a_tenant "a" (Some 1)); TCreate Second (a_tenant "b" None); TKey Second 1 "k" "PREFIX" [1; 2]; TGrant 1 "CA"] in
  tenants_ok d /\ exists k t, LookupTenantAPIKey "PREFIX" d = Ok (k, [1; 2], t) /\ tn_Name t = "a".
Proof.
  destruct (tenant_tables_consistent [TCreate Second (a_tenant "a" (Some 1)); TCreate Second (a_tenant "b" None); TKey Second 1 "k" "PREFIX" [1; 2]; TGrant 1 "CA"] tenants_empty tenants_empty_ok)
    as (H & _ & H'). split; [exact H|].
  exists (mkTenantAPIKey 1 1 "k" "PREFIX" Second None None), (set_tenant_id 1 Second (a_tenant "a" (Some 1))).
  split; [apply (H' 1 (mkTenantAPIKey 1 1 "k" "PREFIX" Second None None)); vm_compute; reflexivity|reflexivity].
Defined.

(** An update writes every column of the row it read: a request that changes a
    quota and read the tenant before a suspension undoes the suspension. *)
Lemma concurrent_update_undoes_suspension :
  let quota := mkTenantRequest None None None None None None (Some 5) in
  let suspend := mkTenantRequest None None None (Some false) None None None in
  exists read d, GetTenant 1 two_tenants = Ok read /\
    tenant_step (TUpdate (patch_tenant quota read)) (tenant_step (TUpdate (patch_tenant suspend read)) two_tenants) = d /\
    (exists t, GetTenant 1 d = Ok t /\ tn_Enabled t = true).
Proof. cbv zeta. eexists _, _. split; [vm_compute; reflexivity|]. split; [reflexivity|]. eexists. split; vm_compute; reflexivity. Qed.

(** One deleted tenant in a flushed batch loses the counters of all the others, and
    the call reports success when the driver repeats the violation. *)
Lemma deleted_tenant_loses_batch :
  exists d, AddUsage (Sentinel (PgError "23503")) Second [(9, mkUsage 1 0 0); (1, mkUsage 1 0 0)] two_tenants = (Ok tt, d) /\ td_usage d = td_usage two_tenants.
Proof. eexists. split; [vm_compute; reflexivity|reflexivity]. Qed.
