(* ===== verification/TenantWatch.v ===== *)
(** * Concurrent additions to the watch lists (internal/store/tenant_postgres.go)

    AddTenantWatchedContract statement by statement, under READ COMMITTED: each
    statement sees what is committed when it runs, the tenant's row and the
    advisory lock are held until the transaction ends, and a tenant's removals,
    grants to the operator's list excepted, run beside it. *)

From S2P Require Import Prelude GoStrings GoFloat GoTime GoSort StoreErrors StoreTypes Keyset Scope SqliteStore TenantStore.
From Stdlib Require Import Ascii String.
Local Open Scope Z_scope.
Local Open Scope go_scope.

Local Notation length := List.length.

(** ** One call *)

Record watch_call : Type := mkCall { wc_tenant : Tenant; wc_pair : string * string; wc_cap : Z }.

(** The statement a call runs next; [WRow] and [WAdvisory] wait for their lock. *)
Inductive watch_pc : Type :=
  | WCheck
  | WRow
  | WRecheck
  | WTenantCount
  | WAdvisory
  | WUnionCount
  | WUnionHas (unionSize : Z)
  | WInsert
  | WEnd (r : result error unit).

Record watch_sys : Type := mkWatch {
  ws_db : TDB;
  ws_calls : list (watch_call * watch_pc);
  ws_rows : gmap Z nat;
  ws_advisory : option nat }.

(** Locks are dropped when a transaction ends. *)
Definition release_locks (i : nat) (s : watch_sys) : watch_sys :=
  mkWatch (ws_db s) (ws_calls s) (filter (fun kv => kv.2 <> i) (ws_rows s))
    (if bool_decide (ws_advisory s = Some i) then None else ws_advisory s).

Definition goto (i : nat) (c : watch_call) (pc : watch_pc) (s : watch_sys) : watch_sys :=
  mkWatch (ws_db s) (<[i := (c, pc)]> (ws_calls s)) (ws_rows s) (ws_advisory s).
Definition finish (i : nat) (c : watch_call) (r : result error unit) (s : watch_sys) : watch_sys :=
  release_locks i (goto i c (WEnd r) s).

(** The next statement of call [i]; None when it waits, or has ended. *)
Definition call_step (i : nat) (c : watch_call) (pc : watch_pc) (s : watch_sys) : option watch_sys :=
  let d := ws_db s in
  let id := tn_ID (wc_tenant c) in
  match pc with
  | WCheck => Some (if bool_decide ((id, wc_pair c) ∈ td_watched d) then finish i c (Ok tt) s else goto i c WRow s)
  | WRow =>
      match ws_rows s !! id with
      | Some _ => None
      | None =>
          if has_tenant id d then Some (goto i c WRecheck (mkWatch d (ws_calls s) (<[id := i]> (ws_rows s)) (ws_advisory s)))
          else Some (finish i c (Err (Sentinel ErrNotFound)) s)
      end
  | WRecheck => Some (if bool_decide ((id, wc_pair c) ∈ td_watched d) then finish i c (Ok tt) s else goto i c WTenantCount s)
  | WTenantCount =>
      Some (if over_tenant_cap (wc_tenant c) (CountTenantWatchedContracts id d) then finish i c (Err (quota_error "tenant watch-list limit of %d reached: %w")) s
            else if 0 <? wc_cap c then goto i c WAdvisory s else goto i c WInsert s)
  | WAdvisory =>
      match ws_advisory s with
      | Some _ => None
      | None => Some (goto i c WUnionCount (mkWatch d (ws_calls s) (ws_rows s) (Some i)))
      end
  | WUnionCount => Some (goto i c (WUnionHas (CountInstanceWatchedContracts d)) s)
  | WUnionHas unionSize =>
      Some (if bool_decide (wc_pair c ∈ watchedContractsUnion d) then goto i c WInsert s
            else if wc_cap c <=? unionSize then finish i c (Err (quota_error "instance watch-list limit of %d reached: %w")) s
            else goto i c WInsert s)
  | WInsert =>
      (** the insert and the commit *)
      Some (finish i c (Ok tt) (mkWatch (insert_watched id (wc_pair c) d) (ws_calls s) (ws_rows s) (ws_advisory s)))
  | WEnd _ => None
  end.

(** ** The system *)

(** Beside the calls: removals from any list, and the end of a call whose context
    is done, which rolls back. Deleting a tenant waits for its row. *)
Inductive watch_step : watch_sys -> watch_sys -> Prop :=
  | step_call i c pc s s' : ws_calls s !! i = Some (c, pc) -> call_step i c pc s = Some s' -> watch_step s s'
  | step_abort i c pc e s : ws_calls s !! i = Some (c, pc) -> (forall r, pc <> WEnd r) -> watch_step s (finish i c (Err e) s)
  | step_remove id n k s : watch_step s (mkWatch (RemoveTenantWatchedContract id n k (ws_db s)) (ws_calls s) (ws_rows s) (ws_advisory s))
  | step_unlist pair s : watch_step s (mkWatch (mkTDB (td_tenants (ws_db s)) (td_keys (ws_db s)) (td_grants (ws_db s)) (td_watched (ws_db s))
        (td_global (ws_db s) ∖ {[pair]}) (td_usage (ws_db s)) (td_tenantSeq (ws_db s)) (td_keySeq (ws_db s))) (ws_calls s) (ws_rows s) (ws_advisory s))
  | step_delete id s : ws_rows s !! id = None -> watch_step s (mkWatch (DeleteTenant id (ws_db s)).2 (ws_calls s) (ws_rows s) (ws_advisory s)).

(** Calls that have all still to begin. *)
Definition watch_start (d : TDB) (calls : list watch_call) : watch_sys := mkWatch d ((fun c => (c, WCheck)) <$> calls) ∅ None.

(** ** What a call that holds a lock knows *)

Definition has_row (pc : watch_pc) : bool :=
  match pc with WRecheck | WTenantCount | WAdvisory | WUnionCount | WUnionHas _ | WInsert => true | _ => false end.
Definition has_advisory (cap : Z) (pc : watch_pc) : bool :=
  match pc with WUnionCount | WUnionHas _ => true | WInsert => 0 <? cap | _ => false end.

(** * The caps of the watch lists hold under concurrency

    Over every interleaving of additions, removals, deletions and aborts no tenant
    gets past its cap and the union not past the instance's, and the additions never
    block each other for good. *)


(** ** Sizes *)

Definition union_size (d : TDB) : Z := CountInstanceWatchedContracts d.

Lemma insert_union id pair d : watchedContractsUnion (insert_watched id pair d) = {[pair]} ∪ watchedContractsUnion d.
Proof. unfold watchedContractsUnion, insert_watched. cbn. rewrite set_map_union_L, set_map_singleton_L. set_solver. Qed.

Lemma held_insert t id pair d : held t (insert_watched id pair d) = (if bool_decide (id = t) then {[(id, pair)]} else ∅) ∪ held t d.
Proof.
  unfold held, insert_watched. cbn. apply set_eq. intros w. case_bool_decide; rewrite ?elem_of_union, !elem_of_filter, ?elem_of_union, ?elem_of_singleton; set_solver.
Qed.

Lemma held_mono t d d' : td_watched d' ⊆ td_watched d -> CountTenantWatchedContracts t d' <= CountTenantWatchedContracts t d.
Proof.
  intros H. unfold CountTenantWatchedContracts, held. apply inj_le, subseteq_size. intros w. rewrite !elem_of_filter. set_solver.
Qed.

Lemma union_mono d d' : td_watched d' ⊆ td_watched d -> td_global d' ⊆ td_global d -> watchedContractsUnion d' ⊆ watchedContractsUnion d.
Proof. intros H1 H2. unfold watchedContractsUnion. set_solver. Qed.

Lemma union_size_mono d d' : watchedContractsUnion d' ⊆ watchedContractsUnion d -> union_size d' <= union_size d.
Proof. intros H. unfold union_size, CountInstanceWatchedContracts. by apply inj_le, subseteq_size. Qed.

Section Caps.
(** The cap of each tenant and of the instance, which the calls carry, and the
    sizes before the calls. *)
Context (cap_of : Z -> option Z) (N : Z) (d0 : TDB).
Context (HN : 0 < N).

Definition tenant_bound (t cap : Z) : Z := Z.max cap (CountTenantWatchedContracts t d0).
Definition union_bound : Z := Z.max N (union_size d0).

Definition counted (pc : watch_pc) : bool := match pc with WAdvisory | WUnionCount | WUnionHas _ | WInsert => true | _ => false end.

Record call_ok (s : watch_sys) (i : nat) (c : watch_call) (pc : watch_pc) : Prop := {
  ck_cap : wc_cap c = N /\ tn_MaxWatchedContracts (wc_tenant c) = cap_of (tn_ID (wc_tenant c));
  ck_row : has_row pc = true -> ws_rows s !! tn_ID (wc_tenant c) = Some i /\ is_Some (td_tenants (ws_db s) !! tn_ID (wc_tenant c));
  ck_adv : has_advisory N pc = true -> ws_advisory s = Some i;
  ck_room : counted pc = true -> forall cap, cap_of (tn_ID (wc_tenant c)) = Some cap ->
      CountTenantWatchedContracts (tn_ID (wc_tenant c)) (ws_db s) + 1 <= tenant_bound (tn_ID (wc_tenant c)) cap;
  ck_count : forall n, pc = WUnionHas n -> union_size (ws_db s) <= n;
  ck_union : pc = WInsert -> Z.of_nat (size ({[wc_pair c]} ∪ watchedContractsUnion (ws_db s))) <= union_bound }.

Record watch_inv (s : watch_sys) : Prop := {
  wi_db : tenants_ok (ws_db s);
  wi_calls : forall i c pc, ws_calls s !! i = Some (c, pc) -> call_ok s i c pc;
  wi_tenant : forall t cap, cap_of t = Some cap -> CountTenantWatchedContracts t (ws_db s) <= tenant_bound t cap;
  wi_union : union_size (ws_db s) <= union_bound;
  wi_rows : forall id i, ws_rows s !! id = Some i -> exists c pc, ws_calls s !! i = Some (c, pc) /\ tn_ID (wc_tenant c) = id /\ has_row pc = true;
  wi_adv : forall i, ws_advisory s = Some i -> exists c pc, ws_calls s !! i = Some (c, pc) /\ has_advisory N pc = true }.

(** A call is still fine when the lists shrank and its locks and row are there. *)
Lemma call_ok_mono s s' i c pc : call_ok s i c pc -> td_watched (ws_db s') ⊆ td_watched (ws_db s) -> td_global (ws_db s') ⊆ td_global (ws_db s) ->
  (has_row pc = true -> ws_rows s' !! tn_ID (wc_tenant c) = Some i /\ is_Some (td_tenants (ws_db s') !! tn_ID (wc_tenant c))) ->
  (has_advisory N pc = true -> ws_advisory s' = Some i) -> call_ok s' i c pc.
Proof.
  intros [H1 H2 H3 H4 H5 H6] Hw Hg Hr Ha. pose proof (union_mono _ _ Hw Hg) as Hu. split; [done|done|done| | |].
  - intros Hc cap Hcap. specialize (H4 Hc cap Hcap). pose proof (held_mono (tn_ID (wc_tenant c)) _ _ Hw). lia.
  - intros n Hn. specialize (H5 n Hn). pose proof (union_size_mono _ _ Hu). lia.
  - intros Hp. specialize (H6 Hp). assert (Hle : (size ({[wc_pair c]} ∪ watchedContractsUnion (ws_db s')) <= size ({[wc_pair c]} ∪ watchedContractsUnion (ws_db s)))%nat) by (apply subseteq_size; set_solver). lia.
Qed.

(** A step of the database that shrinks the lists and keeps locked tenants. *)
Lemma shrink_inv s d' : watch_inv s -> tenants_ok d' -> td_watched d' ⊆ td_watched (ws_db s) -> td_global d' ⊆ td_global (ws_db s) ->
  (forall id, is_Some (ws_rows s !! id) -> is_Some (td_tenants (ws_db s) !! id) -> is_Some (td_tenants d' !! id)) ->
  watch_inv (mkWatch d' (ws_calls s) (ws_rows s) (ws_advisory s)).
Proof.
  intros [H1 H2 H3 H4 H5 H6] Hd Hw Hg Ht. split; cbn; try done.
  - intros i c pc Hi. specialize (H2 i c pc Hi). apply (call_ok_mono s); try done; [|apply (ck_adv _ _ _ _ H2)]. cbn.
    intros Hr. destruct (ck_row _ _ _ _ H2 Hr) as [Hl Hs]. split; [done|]. apply Ht; [by rewrite Hl|done].
  - intros t cap Hc. specialize (H3 t cap Hc). pose proof (held_mono t _ _ Hw). lia.
  - pose proof (union_size_mono _ _ (union_mono _ _ Hw Hg)). lia.
Qed.

(** ** Moves of one call *)

Lemma goto_lookup i j c pc s : is_Some (ws_calls s !! i) -> ws_calls (goto i c pc s) !! j = if decide (i = j) then Some (c, pc) else ws_calls s !! j.
Proof.
  intros Hi. cbn. destruct (decide (i = j)) as [<-|Hne]; [|by apply list_lookup_insert_ne]. apply list_lookup_insert_eq. by apply lookup_lt_is_Some.
Qed.

(** To a next statement, which may take locks that were free. *)
Lemma goto_inv s i c pc pc' rows adv : watch_inv s -> ws_calls s !! i = Some (c, pc) ->
  (forall id j, ws_rows s !! id = Some j -> rows !! id = Some j) ->
  (forall id j, rows !! id = Some j -> ws_rows s !! id = Some j \/ j = i /\ id = tn_ID (wc_tenant c) /\ has_row pc' = true) ->
  (has_row pc = true -> has_row pc' = true) -> (has_advisory N pc = true -> has_advisory N pc' = true) ->
  (forall j, ws_advisory s = Some j -> adv = Some j) -> (forall j, adv = Some j -> ws_advisory s = Some j \/ j = i /\ has_advisory N pc' = true) ->
  call_ok (mkWatch (ws_db s) (ws_calls s) rows adv) i c pc' ->
  watch_inv (goto i c pc' (mkWatch (ws_db s) (ws_calls s) rows adv)).
Proof.
  intros [H1 H2 H3 H4 H5 H6] Hi Hr1 Hr2 Hhr Hha Ha1 Ha2 Hok.
  assert (Hlk : forall j, ws_calls (goto i c pc' (mkWatch (ws_db s) (ws_calls s) rows adv)) !! j = if decide (i = j) then Some (c, pc') else ws_calls s !! j)
    by (intros j; apply (goto_lookup i j c pc' (mkWatch (ws_db s) (ws_calls s) rows adv)); cbn; by rewrite Hi).
  split; try done.
  - intros j c' pc0. rewrite Hlk. destruct (decide (i = j)) as [<-|Hne].
    + intros [= <- <-]. destruct Hok; by split.
    + intros Hj. specialize (H2 j c' pc0 Hj). apply (call_ok_mono s); cbn; try done.
      * intros Hr. destruct (ck_row _ _ _ _ H2 Hr). split; [by apply Hr1|done].
      * intros Hr. by apply Ha1, (ck_adv _ _ _ _ H2).
  - intros id j Hj. cbn in Hj. setoid_rewrite Hlk. destruct (Hr2 id j Hj) as [Hold|(-> & -> & Hn)].
    + destruct (H5 id j Hold) as (c0 & pc0 & Hc0 & Hid & Hrow). destruct (decide (i = j)) as [<-|Hne]; [|by exists c0, pc0].
      rewrite Hi in Hc0. injection Hc0 as <- <-. exists c, pc'. auto.
    + exists c, pc'. rewrite decide_True by done. done.
  - intros j Hj. cbn in Hj. setoid_rewrite Hlk. destruct (Ha2 j Hj) as [Hold|(-> & Hn)].
    + destruct (H6 j Hold) as (c0 & pc0 & Hc0 & Hrow). destruct (decide (i = j)) as [<-|Hne]; [|by exists c0, pc0].
      rewrite Hi in Hc0. injection Hc0 as <- <-. exists c, pc'. auto.
    + exists c, pc'. rewrite decide_True by done. done.
Qed.

(** To the end, dropping the locks, over a database whose lists only shrank or in
    which this call inserted. *)
Lemma finish_inv s i c pc r : watch_inv s -> ws_calls s !! i = Some (c, pc) -> watch_inv (finish i c r s).
Proof.
  intros [H1 H2 H3 H4 H5 H6] Hi. unfold finish.
  assert (Hlk : forall j, ws_calls (release_locks i (goto i c (WEnd r) s)) !! j = if decide (i = j) then Some (c, WEnd r) else ws_calls s !! j)
    by (intros j; apply (goto_lookup i j c (WEnd r) s); by rewrite Hi).
  split; try done.
  - intros j c' pc0. rewrite Hlk. destruct (decide (i = j)) as [<-|Hne].
    + intros [= <- <-]. split; try done. by apply (ck_cap _ _ _ _ (H2 i c pc Hi)).
    + intros Hj. specialize (H2 j c' pc0 Hj). apply (call_ok_mono s); cbn; try done.
      * intros Hr. destruct (ck_row _ _ _ _ H2 Hr) as [Hl Hs]. split; [|done]. apply map_lookup_filter_Some. by split; [|cbn; congruence].
      * intros Hr. pose proof (ck_adv _ _ _ _ H2 Hr) as Ha. rewrite Ha. rewrite bool_decide_eq_false_2 by congruence. done.
  - intros id j [Hj Hn]%map_lookup_filter_Some. cbn in Hn. destruct (H5 id j Hj) as (c0 & pc0 & Hc0 & ?). exists c0, pc0. rewrite Hlk, decide_False by congruence. done.
  - intros j. cbn. case_bool_decide; [done|]. intros Hj. destruct (H6 j Hj) as (c0 & pc0 & Hc0 & ?). exists c0, pc0. rewrite Hlk, decide_False by congruence. done.
Qed.

(** The insert of a call that made every check. *)
Lemma insert_inv s i c : watch_inv s -> ws_calls s !! i = Some (c, WInsert) ->
  watch_inv (finish i c (Ok tt) (mkWatch (insert_watched (tn_ID (wc_tenant c)) (wc_pair c) (ws_db s)) (ws_calls s) (ws_rows s) (ws_advisory s))).
Proof.
  intros [H1 H2 H3 H4 H5 H6] Hi. pose proof (H2 i c WInsert Hi) as [[Hcap Hmax] Hrow Hadv Hroom _ Hun]. destruct (Hrow eq_refl) as [Hl Hs].
  assert (Hadv' : ws_advisory s = Some i) by (apply Hadv; cbn; by apply Z.ltb_lt).
  set (d' := insert_watched (tn_ID (wc_tenant c)) (wc_pair c) (ws_db s)). set (s' := mkWatch d' (ws_calls s) (ws_rows s) (ws_advisory s)). unfold finish.
  assert (Hlk : forall j, ws_calls (release_locks i (goto i c (WEnd (Ok tt)) s')) !! j = if decide (i = j) then Some (c, WEnd (Ok tt)) else ws_calls s !! j)
    by (intros j; apply (goto_lookup i j c (WEnd (Ok tt)) s'); cbn; by rewrite Hi).
  assert (Hheld : forall t, t <> tn_ID (wc_tenant c) -> CountTenantWatchedContracts t d' = CountTenantWatchedContracts t (ws_db s)).
  { intros t Ht. unfold CountTenantWatchedContracts, d'. rewrite held_insert, bool_decide_eq_false_2 by congruence. by rewrite union_empty_l_L. }
  assert (Hmine : CountTenantWatchedContracts (tn_ID (wc_tenant c)) d' <= CountTenantWatchedContracts (tn_ID (wc_tenant c)) (ws_db s) + 1).
  { unfold CountTenantWatchedContracts, d'. rewrite held_insert, bool_decide_eq_true_2 by done.
    pose proof (size_union_alt {[(tn_ID (wc_tenant c), wc_pair c)]} (held (tn_ID (wc_tenant c)) (ws_db s))) as E. rewrite E, size_singleton.
    pose proof (subseteq_size (held (tn_ID (wc_tenant c)) (ws_db s) ∖ {[(tn_ID (wc_tenant c), wc_pair c)]}) (held (tn_ID (wc_tenant c)) (ws_db s)) ltac:(set_solver)). lia. }
  split; try done.
  - by apply watch_ok.
  - intros j c' pc0. rewrite Hlk. destruct (decide (i = j)) as [<-|Hne]; [intros [= <- <-]; split; try done|]. intros Hj. specialize (H2 j c' pc0 Hj) as [G1 G2 G3 G4 G5 G6].
    assert (Hna : has_advisory N pc0 = false) by (destruct (has_advisory N pc0); [exfalso; specialize (G3 eq_refl); congruence|done]).
    split; try done; cbn [ws_db release_locks goto s'].
    + intros Hr. destruct (G2 Hr) as [Hl' Hs']. split; [|done]. apply map_lookup_filter_Some. by split; [|cbn; congruence].
    + congruence.
    + intros Hc cap Hcp. rewrite Hheld; [by apply G4|]. intros Heq. assert (Hr : has_row pc0 = true) by (by destruct pc0). destruct (G2 Hr) as [Hl' _]. congruence.
    + intros n ->. done.
    + intros ->. cbn in Hna. apply Z.ltb_ge in Hna. lia.
  - intros t cap Hcp. cbn. fold d'. destruct (decide (t = tn_ID (wc_tenant c))) as [->|Hne]; [specialize (Hroom eq_refl cap Hcp); lia|]. rewrite Hheld by done. by apply H3.
  - unfold union_size, CountInstanceWatchedContracts. cbn. unfold d'. rewrite insert_union. by apply Hun.
  - intros id j [Hj Hn]%map_lookup_filter_Some. cbn in Hn. destruct (H5 id j Hj) as (c0 & pc0 & Hc0 & ?). exists c0, pc0. rewrite Hlk, decide_False by congruence. done.
  - intros j. cbn. case_bool_decide; [done|]. intros Hj. congruence.
Qed.

(** ** Every step *)

(** A statement that only reads. *)
Lemma read_inv s i c pc pc' : watch_inv s -> ws_calls s !! i = Some (c, pc) -> (has_row pc = true -> has_row pc' = true) -> (has_advisory N pc = true -> has_advisory N pc' = true) ->
  call_ok s i c pc' -> watch_inv (goto i c pc' s).
Proof.
  intros Hinv Hi Hr Ha Hok. pose proof (goto_inv s i c pc pc' (ws_rows s) (ws_advisory s) Hinv Hi) as H. destruct s. cbn in *. apply H; try done; auto.
Qed.

(** What a call knows carries over when it needs no more locks. *)
Lemma call_ok_next s i c pc pc' : call_ok s i c pc -> (has_row pc' = true -> has_row pc = true) -> (has_advisory N pc' = true -> has_advisory N pc = true) ->
  (counted pc' = true -> forall cap, cap_of (tn_ID (wc_tenant c)) = Some cap -> CountTenantWatchedContracts (tn_ID (wc_tenant c)) (ws_db s) + 1 <= tenant_bound (tn_ID (wc_tenant c)) cap) ->
  (forall n, pc' = WUnionHas n -> union_size (ws_db s) <= n) ->
  (pc' = WInsert -> Z.of_nat (size ({[wc_pair c]} ∪ watchedContractsUnion (ws_db s))) <= union_bound) -> call_ok s i c pc'.
Proof. intros [H1 H2 H3 H4 H5 H6] Hr Ha Hc Hn Hi. split; auto. Qed.

Lemma call_step_inv s i c pc s' : watch_inv s -> ws_calls s !! i = Some (c, pc) -> call_step i c pc s = Some s' -> watch_inv s'.
Proof.
  intros Hinv Hi. pose proof (wi_calls s Hinv i c pc Hi) as Hc. destruct (ck_cap _ _ _ _ Hc) as [Hcap Hmax]. destruct pc; cbn [call_step]; cbv zeta.
  - intros [= <-]. case_bool_decide; [by eapply finish_inv|]. eapply read_inv; try done; by apply (call_ok_next s i c WCheck).
  - destruct (ws_rows s !! tn_ID (wc_tenant c)) eqn:El; [done|]. destruct (has_tenant _ _) eqn:Et; intros [= <-]; [|by eapply finish_inv]. apply has_tenant_some in Et.
    eapply (goto_inv s i c WRow); try done.
    + intros id j Hj. rewrite lookup_insert_ne; [done|]. intros <-. congruence.
    + intros id j. rewrite lookup_insert_Some. intros [[<- <-]|[_ Hj]]; [by right|by left].
    + by left.
    + split; cbn; try done. by rewrite lookup_insert_eq.
  - intros [= <-]. case_bool_decide; [by eapply finish_inv|]. eapply read_inv; try done; by apply (call_ok_next s i c WRecheck).
  - intros [= <-]. destruct (over_tenant_cap _ _) eqn:Eo; [by eapply finish_inv|]. destruct (Z.ltb_spec 0 (wc_cap c)); [|lia].
    eapply read_inv; try done. apply (call_ok_next s i c WTenantCount); try done.
    intros _ cap Hcp. unfold over_tenant_cap in Eo. rewrite Hmax, Hcp in Eo. apply Z.leb_gt in Eo. unfold tenant_bound. lia.
  - destruct (ws_advisory s) eqn:Ea; [done|]. intros [= <-]. apply (goto_inv s i c WAdvisory WUnionCount (ws_rows s) (Some i)); try done; auto.
    + intros j Hj. congruence.
    + intros j [= <-]. by right.
    + split; cbn; try done; apply Hc.
  - intros [= <-]. eapply read_inv; try done. apply (call_ok_next s i c WUnionCount); try done; [by intros _; apply (ck_room _ _ _ _ Hc)|]. intros n [= <-]. done.
  - pose proof (ck_count _ _ _ _ Hc unionSize eq_refl) as Hle. pose proof (wi_union s Hinv) as Hu. intros [= <-].
    assert (Hgo : Z.of_nat (size ({[wc_pair c]} ∪ watchedContractsUnion (ws_db s))) <= union_bound -> watch_inv (goto i c WInsert s)).
    { intros Hins. apply (read_inv s i c (WUnionHas unionSize)); try done; [by intros _; apply Z.ltb_lt|].
      apply (call_ok_next s i c (WUnionHas unionSize)); try done. by intros _; apply (ck_room _ _ _ _ Hc). }
    case_bool_decide as Hin.
    + apply Hgo. replace ({[wc_pair c]} ∪ watchedContractsUnion (ws_db s)) with (watchedContractsUnion (ws_db s)) by set_solver. done.
    + destruct (Z.leb_spec (wc_cap c) unionSize); [by eapply finish_inv|]. apply Hgo. rewrite size_union by set_solver. rewrite size_singleton.
      unfold union_bound, union_size, CountInstanceWatchedContracts in *. lia.
  - intros [= <-]. by apply insert_inv.
  - done.
Qed.

Lemma watch_step_inv s s' : watch_inv s -> watch_step s s' -> watch_inv s'.
Proof.
  intros Hinv Hstep. destruct Hstep as [i c pc s s' Hi Hs|i c pc e s Hi _|id n k s|pair s|id s Hrow].
  - by eapply call_step_inv.
  - by eapply finish_inv.
  - apply shrink_inv; try done; cbn; [|set_solver]. apply (tenant_step_ok (TUnwatch id n k)), Hinv.
  - apply shrink_inv; try done; cbn; [|set_solver]. by apply (ok_sequences (ws_db s)); cbn; try done; apply Hinv.
  - unfold DeleteTenant. destruct (td_tenants (ws_db s) !! id) as [t|] eqn:Et; [|by destruct s]. apply shrink_inv; try done; cbn.
    + pose proof (delete_ok id (ws_db s) (wi_db s Hinv)) as Hd. unfold DeleteTenant in Hd. by rewrite Et in Hd.
    + set_solver.
    + intros id' Hl Hs. rewrite lookup_delete_ne; [done|]. intros <-. rewrite Hrow in Hl. by destruct Hl.
Qed.

Lemma start_watch_inv calls : tenants_ok d0 -> Forall (fun c => wc_cap c = N /\ tn_MaxWatchedContracts (wc_tenant c) = cap_of (tn_ID (wc_tenant c))) calls ->
  watch_inv (watch_start d0 calls).
Proof.
  intros Hd Hc. split; cbn; try done.
  - intros i c pc. rewrite list_lookup_fmap. destruct (calls !! i) as [c'|] eqn:E; [|done]. intros [= <- <-]. rewrite list.Forall_lookup in Hc. split; try done. by eapply Hc.
  - intros t cap _. unfold tenant_bound. lia.
  - unfold union_bound. lia.
Qed.

(** ** Progress *)

Definition pc_rank (pc : watch_pc) : nat :=
  match pc with WCheck => 8 | WRow => 7 | WRecheck => 6 | WTenantCount => 5 | WAdvisory => 4 | WUnionCount => 3 | WUnionHas _ => 2 | WInsert => 1 | WEnd _ => 0 end.
Definition total_rank (l : list (watch_call * watch_pc)) : nat := sum_list_with (fun x => pc_rank x.2) l.

Lemma total_rank_insert l i c pc pc' c' : l !! i = Some (c, pc) -> (pc_rank pc' < pc_rank pc)%nat -> (total_rank (<[i := (c', pc')]> l) < total_rank l)%nat.
Proof.
  revert i. unfold total_rank. induction l as [|x l IH]; intros [|i] Hi Hr; [done|done| |].
  - injection Hi as ->. change (<[0%nat := (c', pc')]> ((c, pc) :: l)) with ((c', pc') :: l). cbn. lia.
  - specialize (IH i Hi Hr). change (<[S i := (c', pc')]> (x :: l)) with (x :: <[i := (c', pc')]> l). cbn [sum_list_with]. lia.
Qed.

Lemma call_step_rank s i c pc s' : ws_calls s !! i = Some (c, pc) -> call_step i c pc s = Some s' -> (total_rank (ws_calls s') < total_rank (ws_calls s))%nat.
Proof.
  intros Hi. assert (Hins : forall pc' s0, ws_calls s0 = ws_calls s -> (pc_rank pc' < pc_rank pc)%nat -> (total_rank (ws_calls (goto i c pc' s0)) < total_rank (ws_calls s))%nat).
  { intros pc' s0 E Hr. cbn. rewrite E. by eapply total_rank_insert. }
  destruct pc; cbn [call_step]; cbv zeta; repeat case_match; intros; simplify_eq; try (apply Hins; cbn; (done || lia));
    unfold finish, release_locks; cbn [ws_calls]; try (apply Hins; cbn; (done || lia)).
Qed.

(** Some call can run while one has not ended. *)
Lemma some_call_runs s : watch_inv s -> (exists i c pc, ws_calls s !! i = Some (c, pc) /\ forall r, pc <> WEnd r) ->
  exists i c pc s', ws_calls s !! i = Some (c, pc) /\ call_step i c pc s = Some s'.
Proof.
  intros Hinv (i & c & pc & Hi & Hend).
  assert (Hgo : forall j c pc, ws_calls s !! j = Some (c, pc) -> (has_row pc = true /\ (pc = WAdvisory -> ws_advisory s = None)) -> exists i c pc s', ws_calls s !! i = Some (c, pc) /\ call_step i c pc s = Some s').
  { intros j c' pc' Hj [Hr Ha]. exists j, c', pc'. destruct pc'; try done; cbn [call_step]; cbv zeta; try (by eexists). rewrite Ha by done. by eexists. }
  destruct (ws_advisory s) as [j|] eqn:Ea.
  - destruct (wi_adv s Hinv j Ea) as (c' & pc' & Hj & Hadv). apply (Hgo j c' pc'); [done|]. by destruct pc'.
  - destruct (decide (has_row pc = true)) as [Hr|Hr]; [by apply (Hgo i c pc)|]. destruct pc; try done.
    + exists i, c, WCheck. cbn. eauto.
    + destruct (ws_rows s !! tn_ID (wc_tenant c)) as [j|] eqn:El.
      * destruct (wi_rows s Hinv _ _ El) as (c' & pc' & Hj & _ & Hrow). by apply (Hgo j c' pc').
      * exists i, c, WRow. cbn. rewrite El. destruct (has_tenant _ _); eauto.
    + by destruct (Hend r).
Qed.

Lemma calls_finish : forall n s, (total_rank (ws_calls s) <= n)%nat -> watch_inv s ->
  exists s', rtc (fun a b => exists i c pc, ws_calls a !! i = Some (c, pc) /\ call_step i c pc a = Some b) s s' /\
    forall i c pc, ws_calls s' !! i = Some (c, pc) -> exists r, pc = WEnd r.
Proof.
  induction n as [|n IH]; intros s Hn Hinv.
  - exists s. split; [apply rtc_refl|]. intros i c pc Hi. assert (Hr : (pc_rank pc <= total_rank (ws_calls s))%nat).
    { apply list_elem_of_lookup_2 in Hi. unfold total_rank. clear -Hi. induction (ws_calls s) as [|x l IH]; [set_solver|]. cbn. apply elem_of_cons in Hi as [<-|Hi]; [cbn; lia|]. specialize (IH Hi). lia. }
    destruct pc; cbn in Hr; try lia. eauto.
  - destruct (decide (Exists (fun x => (0 < pc_rank x.2)%nat) (ws_calls s))) as [Hex|Hno].
    + apply list.Exists_exists in Hex as ([c pc] & Hin & Hr). apply list_elem_of_lookup in Hin as [i Hi].
      destruct (some_call_runs s Hinv) as (j & c' & pc' & s1 & Hj & Hs); [exists i, c, pc; split; [done|]; intros r ->; cbn in Hr; lia|].
      pose proof (call_step_rank s j c' pc' s1 Hj Hs) as Hlt. destruct (IH s1 ltac:(lia) ltac:(by eapply call_step_inv)) as (s2 & H1 & H2).
      exists s2. split; [|done]. eapply rtc_l; [|exact H1]. by exists j, c', pc'.
    + exists s. split; [apply rtc_refl|]. intros i c pc Hi. destruct (pc_rank pc) eqn:Er; [by destruct pc; try done; eauto|].
      destruct Hno. apply list.Exists_exists. exists (c, pc). split; [by eapply list_elem_of_lookup_2|cbn; lia].
Qed.
End Caps.

(** C16: over every interleaving of additions with removals, deletions and aborted
    transactions, no tenant's list gets past the tenant's cap, nor the union of all
    lists past the instance's, unless it was already; the tables stay consistent;
    and from every state the additions can all run to their end, none waiting for
    good on another. *)
Theorem watch_caps_hold (cap_of : Z -> option Z) (N : Z) (d : TDB) (calls : list watch_call) (s : watch_sys)
    (HN : 0 < N) (Hd : tenants_ok d)
    (Hcalls : Forall (fun c => wc_cap c = N /\ tn_MaxWatchedContracts (wc_tenant c) = cap_of (tn_ID (wc_tenant c))) calls)
    (Hrun : rtc watch_step (watch_start d calls) s) :
  tenants_ok (ws_db s) /\
  (forall t cap, cap_of t = Some cap -> CountTenantWatchedContracts t (ws_db s) <= Z.max cap (CountTenantWatchedContracts t d)) /\
  CountInstanceWatchedContracts (ws_db s) <= Z.max N (CountInstanceWatchedContracts d) /\
  exists s', rtc watch_step s s' /\ forall i c pc, ws_calls s' !! i = Some (c, pc) -> exists r, pc = WEnd r.
Proof.
  assert (Hinv : watch_inv cap_of N d s).
  { pose proof (start_watch_inv cap_of N d calls Hd Hcalls) as H0. clear Hcalls. induction Hrun; [done|]. apply IHHrun. by eapply watch_step_inv. }
  split_and!; [apply Hinv|exact (wi_tenant _ _ _ _ Hinv)|exact (wi_union _ _ _ _ Hinv)|].
  destruct (calls_finish cap_of N d HN _ s (le_n _) Hinv) as (s' & Hsteps & Hend). exists s'. split; [|done].
  eapply rtc_subrel; [|exact Hsteps]. intros a b (i & c & pc & Hi & Hs). by eapply step_call.
Qed.

(** ** Runs *)

(** Calls stepped in the order of a schedule. *)
Fixpoint run_schedule (sched : list nat) (s : watch_sys) : option watch_sys :=
  match sched with
  | [] => Some s
  | i :: sched =>
      match ws_calls s !! i with
      | Some (c, pc) => match call_step i c pc s with Some s' => run_schedule sched s' | None => None end
      | None => None
      end
  end.

Lemma run_schedule_steps sched : forall s s', run_schedule sched s = Some s' -> rtc watch_step s s'.
Proof.
  induction sched as [|i sched IH]; intros s s'; cbn; [intros [= <-]; apply rtc_refl|].
  destruct (ws_calls s !! i) as [[c pc]|] eqn:E; [|done]. destruct (call_step i c pc s) as [s1|] eqn:Es; [|done].
  intros H. eapply rtc_l; [by eapply step_call|by apply IH].
Qed.

(** Two additions to the list of a tenant with a cap of one, interleaved. *)
Definition tenant_a : Tenant := set_tenant_id 1 Second (a_tenant "a" (Some 1)).
Definition two_calls : list watch_call := [mkCall tenant_a ("default", "CA") 10; mkCall tenant_a ("default", "CB") 10].
Definition interleaved : list nat := [0; 1; 0; 0; 0; 0; 0; 0; 0; 1; 1; 1]%nat.

Lemma two_tenants_ok : tenants_ok two_tenants.
Proof. unfold two_tenants. cbn [foldl]. repeat apply tenant_step_ok. apply tenants_empty_ok. Qed.

Lemma watch_caps_hold_witness : exists s, run_schedule interleaved (watch_start two_tenants two_calls) = Some s /\
  CountTenantWatchedContracts 1 (ws_db s) <= 1 /\ (exists c, ws_calls s !! 1%nat = Some (c, WEnd (Err (quota_error "tenant watch-list limit of %d reached: %w")))).
Proof.
  destruct (run_schedule interleaved (watch_start two_tenants two_calls)) as [s|] eqn:E; [|vm_compute in E; congruence]. exists s. split; [reflexivity|].
  destruct (watch_caps_hold (fun _ => Some 1) 10 two_tenants two_calls s ltac:(lia) two_tenants_ok ltac:(repeat constructor) (run_schedule_steps _ _ _ E)) as (_ & H & _).
  split; [exact (H 1 1 eq_refl)|]. vm_compute in E. injection E as <-. eexists. reflexivity.
Defined.
