(* ===== verification/AuthCache.v ===== *)
(** * Credential and statistics caches, invalidation (internal/api/auth_cache.go, internal/api/stats_cache.go, internal/store/invalidation.go)

    The cache of resolved credentials with its indices, the cache of /stats, the
    messages of the invalidation channel and what a server does with them, and the
    in-memory bus between replicas. The caches of contract specs and of persisted
    operations are outside: what is asked of them is recorded. The nil receivers of
    the source, its log lines and the LISTEN connection are left out. *)

From S2P Require Import Prelude GoStrings GoFloat GoTime GoSort StoreErrors StoreTypes Keyset Scope SqliteStore RateLimit TenantStore.
From Stdlib Require Import Ascii String.
Local Open Scope Z_scope.
Local Open Scope go_scope.
Local Notation length := List.length.

(** ** Messages *)

Definition InvalidationKindSpec : string := "spec".
Definition InvalidationKindTenant : string := "tenant".
Definition InvalidationKindAPIKey : string := "apikey".
Definition InvalidationKindPersisted : string := "persisted".

Record InvalidationEvent : Type := mkInvalidation { iv_Kind : string; iv_Target : string }.

Definition FormatInvalidationPayload (kind target : string) : string :=
  if bool_decide (kind = "") || bool_decide (kind = InvalidationKindSpec) then target else kind +++ ":" +++ target.

Definition known_kinds : list string := [InvalidationKindSpec; InvalidationKindTenant; InvalidationKindAPIKey; InvalidationKindPersisted].

Definition ParseInvalidationPayload (payload : string) : InvalidationEvent :=
  match cut_first ":" payload with
  | Some (prefix, rest) =>
      if bool_decide (prefix ∈ known_kinds) then mkInvalidation prefix rest else mkInvalidation InvalidationKindSpec payload
  | None => mkInvalidation InvalidationKindSpec payload
  end.

(** ** Credentials *)

Definition DefaultAuthCacheTTL : Z := 5 * Second.

Record cachedTenantAuth : Type := mkCachedTenant {
  ct_key : TenantAPIKey;
  ct_digest : list Z;
  ct_tenant : Tenant;
  ct_scope : Scope;
  ct_cachedAt : Z }.

(** A key of the single-tenant scheme. *)
Record APIKey : Type := mkAPIKey {
  ak_ID : Z; ak_Name : string; ak_Prefix : string; ak_KeyHash : string; ak_CreatedAt : Z; ak_RevokedAt : option Z }.
Record cachedSingleAPIKey : Type := mkCachedSingle { cs_key : APIKey; cs_cachedAt : Z }.

Record AuthCache : Type := mkAuthCache {
  ac_ttl : Z;
  ac_tenantByPrefix : gmap string cachedTenantAuth;
  ac_prefixesByTenant : gmap Z (gset string);
  ac_prefixByTenantKeyID : gmap Z string;
  ac_singleByPrefix : gmap string cachedSingleAPIKey;
  ac_prefixBySingleKeyID : gmap Z string;
  ac_hits : Z;
  ac_misses : Z;
  ac_invalidations : Z }.

Definition NewAuthCache (ttl : Z) : AuthCache := mkAuthCache ttl ∅ ∅ ∅ ∅ ∅ 0 0 0.

Definition resetLocked (c : AuthCache) : AuthCache := mkAuthCache (ac_ttl c) ∅ ∅ ∅ ∅ ∅ (ac_hits c) (ac_misses c) (ac_invalidations c).

Definition SetTTL (ttl : Z) (c : AuthCache) : AuthCache :=
  let c := mkAuthCache ttl (ac_tenantByPrefix c) (ac_prefixesByTenant c) (ac_prefixByTenantKeyID c) (ac_singleByPrefix c) (ac_prefixBySingleKeyID c)
             (ac_hits c) (ac_misses c) (ac_invalidations c) in
  if ttl <=? 0 then resetLocked c else c.

Definition count_hit (c : AuthCache) : AuthCache :=
  mkAuthCache (ac_ttl c) (ac_tenantByPrefix c) (ac_prefixesByTenant c) (ac_prefixByTenantKeyID c) (ac_singleByPrefix c) (ac_prefixBySingleKeyID c)
    (u64 (ac_hits c + 1)) (ac_misses c) (ac_invalidations c).
Definition count_miss (c : AuthCache) : AuthCache :=
  mkAuthCache (ac_ttl c) (ac_tenantByPrefix c) (ac_prefixesByTenant c) (ac_prefixByTenantKeyID c) (ac_singleByPrefix c) (ac_prefixBySingleKeyID c)
    (ac_hits c) (u64 (ac_misses c + 1)) (ac_invalidations c).
Definition count_invalidations (n : Z) (c : AuthCache) : AuthCache :=
  mkAuthCache (ac_ttl c) (ac_tenantByPrefix c) (ac_prefixesByTenant c) (ac_prefixByTenantKeyID c) (ac_singleByPrefix c) (ac_prefixBySingleKeyID c)
    (ac_hits c) (ac_misses c) (u64 (ac_invalidations c + n)).

(** A prefix leaves the set of its tenant, an empty set goes with it. *)
Definition drop_prefix (prefix : string) (tenantID : Z) (m : gmap Z (gset string)) : gmap Z (gset string) :=
  match m !! tenantID with
  | None => m
  | Some pset =>
      let pset := pset ∖ {[prefix]} in
      if bool_decide (pset = ∅) then delete tenantID m else <[tenantID := pset]> m
  end.

Definition deleteTenantPrefixLocked (prefix : string) (tenantID keyID : Z) (c : AuthCache) : AuthCache :=
  mkAuthCache (ac_ttl c) (delete prefix (ac_tenantByPrefix c)) (drop_prefix prefix tenantID (ac_prefixesByTenant c)) (delete keyID (ac_prefixByTenantKeyID c))
    (ac_singleByPrefix c) (ac_prefixBySingleKeyID c) (ac_hits c) (ac_misses c) (ac_invalidations c).

Definition GetTenantAuth (prefix : string) (now : Z) (c : AuthCache) : option cachedTenantAuth * AuthCache :=
  if ac_ttl c <=? 0 then (None, c)
  else match ac_tenantByPrefix c !! prefix with
       | None => (None, count_miss c)
       | Some entry =>
           if ac_ttl c <=? now - ct_cachedAt entry
           then (None, count_miss (deleteTenantPrefixLocked prefix (tn_ID (ct_tenant entry)) (tk_ID (ct_key entry)) c))
           else (Some entry, count_hit c)
       end.

Definition PutTenantAuth (key : TenantAPIKey) (digest : list Z) (tenant : Tenant) (scope : Scope) (now : Z) (c : AuthCache) : AuthCache :=
  if ac_ttl c <=? 0 then c
  else mkAuthCache (ac_ttl c) (<[tk_Prefix key := mkCachedTenant key digest tenant scope now]> (ac_tenantByPrefix c))
         (<[tn_ID tenant := {[tk_Prefix key]} ∪ default ∅ (ac_prefixesByTenant c !! tn_ID tenant)]> (ac_prefixesByTenant c))
         (<[tk_ID key := tk_Prefix key]> (ac_prefixByTenantKeyID c)) (ac_singleByPrefix c) (ac_prefixBySingleKeyID c) (ac_hits c) (ac_misses c) (ac_invalidations c).

Definition with_singles (m : gmap string cachedSingleAPIKey) (ix : gmap Z string) (c : AuthCache) : AuthCache :=
  mkAuthCache (ac_ttl c) (ac_tenantByPrefix c) (ac_prefixesByTenant c) (ac_prefixByTenantKeyID c) m ix (ac_hits c) (ac_misses c) (ac_invalidations c).

Definition AuthCache_GetAPIKey (prefix : string) (now : Z) (c : AuthCache) : option APIKey * AuthCache :=
  if ac_ttl c <=? 0 then (None, c)
  else match ac_singleByPrefix c !! prefix with
       | None => (None, count_miss c)
       | Some entry =>
           if ac_ttl c <=? now - cs_cachedAt entry
           then (None, count_miss (with_singles (delete prefix (ac_singleByPrefix c)) (delete (ak_ID (cs_key entry)) (ac_prefixBySingleKeyID c)) c))
           else (Some (cs_key entry), count_hit c)
       end.

Definition PutAPIKey (key : APIKey) (now : Z) (c : AuthCache) : AuthCache :=
  if ac_ttl c <=? 0 then c
  else with_singles (<[ak_Prefix key := mkCachedSingle key now]> (ac_singleByPrefix c)) (<[ak_ID key := ak_Prefix key]> (ac_prefixBySingleKeyID c)) c.

(** One turn of the loop of InvalidateTenant. *)
Definition evict_prefix (c : AuthCache) (prefix : string) : AuthCache :=
  match ac_tenantByPrefix c !! prefix with
  | None => c
  | Some entry =>
      count_invalidations 1 (mkAuthCache (ac_ttl c) (delete prefix (ac_tenantByPrefix c)) (ac_prefixesByTenant c) (delete (tk_ID (ct_key entry)) (ac_prefixByTenantKeyID c))
        (ac_singleByPrefix c) (ac_prefixBySingleKeyID c) (ac_hits c) (ac_misses c) (ac_invalidations c))
  end.

Definition AuthCache_InvalidateTenant (tenantID : Z) (c : AuthCache) : AuthCache :=
  match ac_prefixesByTenant c !! tenantID with
  | None => c
  | Some pset =>
      let c := foldl evict_prefix c (elements pset) in
      mkAuthCache (ac_ttl c) (ac_tenantByPrefix c) (delete tenantID (ac_prefixesByTenant c)) (ac_prefixByTenantKeyID c) (ac_singleByPrefix c) (ac_prefixBySingleKeyID c)
        (ac_hits c) (ac_misses c) (ac_invalidations c)
  end.

Definition AuthCache_InvalidateAPIKey (keyID : Z) (c : AuthCache) : AuthCache :=
  let c :=
    match ac_prefixByTenantKeyID c !! keyID with
    | None => c
    | Some prefix =>
        match ac_tenantByPrefix c !! prefix with
        | Some entry => count_invalidations 1 (deleteTenantPrefixLocked prefix (tn_ID (ct_tenant entry)) keyID c)
        | None => mkAuthCache (ac_ttl c) (ac_tenantByPrefix c) (ac_prefixesByTenant c) (delete keyID (ac_prefixByTenantKeyID c)) (ac_singleByPrefix c) (ac_prefixBySingleKeyID c)
                    (ac_hits c) (ac_misses c) (ac_invalidations c)
        end
    end in
  match ac_prefixBySingleKeyID c !! keyID with
  | None => c
  | Some prefix => count_invalidations 1 (with_singles (delete prefix (ac_singleByPrefix c)) (delete keyID (ac_prefixBySingleKeyID c)) c)
  end.

Definition AuthCache_Clear (c : AuthCache) : AuthCache :=
  let evicted := Z.of_nat (size (ac_tenantByPrefix c) + size (ac_singleByPrefix c)) in
  let c := resetLocked c in
  if 0 <? evicted then count_invalidations evicted c else c.

Definition AuthCache_Stats (c : AuthCache) : Z * Z * Z := (ac_hits c, ac_misses c, ac_invalidations c).

(** ** Statistics *)

Section Stats.
Context {S : Type}.

Record StatsCache : Type := mkStatsCache {
  sc_ttl : Z;
  sc_scopedKeys : list string;
  sc_entries : gmap string (S * Z);
  sc_byTenant : gmap Z (gset string) }.

Definition maxStatsCacheEntries : nat := 64.
Definition newStatsCache (ttl : Z) : StatsCache := mkStatsCache ttl [] ∅ ∅.

Definition StatsCache_Get (fingerprint : string) (now : Z) (c : StatsCache) : option S :=
  if sc_ttl c <=? 0 then None
  else match sc_entries c !! fingerprint with
       | Some (stats, cachedAt) => if sc_ttl c <=? now - cachedAt then None else Some stats
       | None => None
       end.

(** A new fingerprint joins the queue; beyond the maximum the oldest leaves. *)
Definition make_room (fingerprint : string) (c : StatsCache) : StatsCache :=
  match sc_entries c !! fingerprint with
  | Some _ => c
  | None =>
      match (sc_scopedKeys c ++ [fingerprint])%list with
      | evict :: rest =>
          if (maxStatsCacheEntries <? length (evict :: rest))%nat
          then mkStatsCache (sc_ttl c) rest (delete evict (sc_entries c)) (sc_byTenant c)
          else mkStatsCache (sc_ttl c) (evict :: rest) (sc_entries c) (sc_byTenant c)
      | [] => c
      end
  end.

Definition PutForTenant (tenantID : Z) (fingerprint : string) (stats : S) (now : Z) (c : StatsCache) : StatsCache :=
  if sc_ttl c <=? 0 then c
  else
    let c := make_room fingerprint c in
    mkStatsCache (sc_ttl c) (sc_scopedKeys c) (<[fingerprint := (stats, now)]> (sc_entries c))
      (if 0 <? tenantID then <[tenantID := {[fingerprint]} ∪ default ∅ (sc_byTenant c !! tenantID)]> (sc_byTenant c) else sc_byTenant c).

Definition StatsCache_Put (fingerprint : string) (stats : S) (now : Z) (c : StatsCache) : StatsCache := PutForTenant 0 fingerprint stats now c.

Definition StatsCache_InvalidateTenant (tenantID : Z) (c : StatsCache) : StatsCache :=
  if tenantID <=? 0 then c
  else match sc_byTenant c !! tenantID with
       | None => c
       | Some fset => mkStatsCache (sc_ttl c) (sc_scopedKeys c) (filter (fun kv => kv.1 ∉ fset) (sc_entries c)) (delete tenantID (sc_byTenant c))
       end.

Definition InvalidateScope (fingerprint : string) (c : StatsCache) : StatsCache :=
  mkStatsCache (sc_ttl c) (sc_scopedKeys c) (delete fingerprint (sc_entries c)) (sc_byTenant c).

Definition StatsCache_Clear (c : StatsCache) : StatsCache := mkStatsCache (sc_ttl c) [] ∅ ∅.
End Stats.
Arguments StatsCache : clear implicits.

(** ** The server *)

Record streamScopeWatcher : Type := mkWatcher { sw_tenantID : Z; sw_keyID : Z; sw_signalled : bool }.

(** What is asked of the caches outside the model. *)
Inductive outside_call : Type := InvalidateSpec (contractID : string) | ReloadPersisted | ClearSpecs.

Section Server.
Context {S B : Type}.

Record InvServer : Type := mkInvServer {
  is_auth : AuthCache;
  is_stats : option (StatsCache S);
  is_limiter : option (RateLimiter B);
  is_watchers : gmap Z streamScopeWatcher;
  is_nextWatch : Z;
  is_outside : list outside_call;
  is_publishFailures : Z;
  is_received : Z;
  is_reconnectFlushes : Z }.

Definition registerStreamWatcher (tenantID keyID : Z) (s : InvServer) : Z * InvServer :=
  let id := is_nextWatch s + 1 in
  (id, mkInvServer (is_auth s) (is_stats s) (is_limiter s) (<[id := mkWatcher tenantID keyID false]> (is_watchers s)) id (is_outside s) (is_publishFailures s) (is_received s) (is_reconnectFlushes s)).
Definition unregister (id : Z) (s : InvServer) : InvServer :=
  mkInvServer (is_auth s) (is_stats s) (is_limiter s) (delete id (is_watchers s)) (is_nextWatch s) (is_outside s) (is_publishFailures s) (is_received s) (is_reconnectFlushes s).

(** A channel of one slot: a second signal is dropped. *)
Definition woken (tenantID keyID : Z) (w : streamScopeWatcher) : bool :=
  ((tenantID =? 0) && (keyID =? 0)) || ((0 <? tenantID) && (sw_tenantID w =? tenantID)) || ((0 <? keyID) && (sw_keyID w =? keyID)).
Definition wakeStreamWatchers (tenantID keyID : Z) (s : InvServer) : InvServer :=
  mkInvServer (is_auth s) (is_stats s) (is_limiter s)
    ((fun w => if woken tenantID keyID w then mkWatcher (sw_tenantID w) (sw_keyID w) true else w) <$> is_watchers s)
    (is_nextWatch s) (is_outside s) (is_publishFailures s) (is_received s) (is_reconnectFlushes s).

Definition with_caches (a : AuthCache) (st : option (StatsCache S)) (l : option (RateLimiter B)) (s : InvServer) : InvServer :=
  mkInvServer a st l (is_watchers s) (is_nextWatch s) (is_outside s) (is_publishFailures s) (is_received s) (is_reconnectFlushes s).
Definition ask_outside (c : outside_call) (s : InvServer) : InvServer :=
  mkInvServer (is_auth s) (is_stats s) (is_limiter s) (is_watchers s) (is_nextWatch s) (is_outside s ++ [c])%list (is_publishFailures s) (is_received s) (is_reconnectFlushes s).

Definition positive_id (target : string) : option Z :=
  match ParseInt target with Some n => if n <=? 0 then None else Some n | None => None end.

Definition ApplyInvalidation (ev : InvalidationEvent) (s : InvServer) : InvServer :=
  if bool_decide (iv_Kind ev = InvalidationKindSpec) then
    (if bool_decide (iv_Target ev = "") then s else ask_outside (InvalidateSpec (iv_Target ev)) s)
  else if bool_decide (iv_Kind ev = InvalidationKindTenant) then
    match positive_id (iv_Target ev) with
    | None => s
    | Some tenantID =>
        wakeStreamWatchers tenantID 0
          (with_caches (AuthCache_InvalidateTenant tenantID (is_auth s)) (StatsCache_InvalidateTenant tenantID <$> is_stats s) (RateLimit.InvalidateTenant tenantID <$> is_limiter s) s)
    end
  else if bool_decide (iv_Kind ev = InvalidationKindAPIKey) then
    match positive_id (iv_Target ev) with
    | None => s
    | Some keyID => wakeStreamWatchers 0 keyID (with_caches (AuthCache_InvalidateAPIKey keyID (is_auth s)) (is_stats s) (is_limiter s) s)
    end
  else if bool_decide (iv_Kind ev = InvalidationKindPersisted) then ask_outside ReloadPersisted s
  else s.

Definition ApplyRemoteInvalidation (payload : string) (s : InvServer) : InvServer :=
  ApplyInvalidation (ParseInvalidationPayload payload)
    (mkInvServer (is_auth s) (is_stats s) (is_limiter s) (is_watchers s) (is_nextWatch s) (is_outside s) (is_publishFailures s) (u64 (is_received s + 1)) (is_reconnectFlushes s)).

Definition OnInvalidationReconnect (s : InvServer) : InvServer :=
  wakeStreamWatchers 0 0 (ask_outside ClearSpecs
    (mkInvServer (AuthCache_Clear (is_auth s)) (StatsCache_Clear <$> is_stats s) (ClearBuckets <$> is_limiter s) (is_watchers s) (is_nextWatch s) (is_outside s)
       (is_publishFailures s) (is_received s) (u64 (is_reconnectFlushes s + 1)))).

(** ** The bus between replicas (InMemoryInvalidationBus) *)

(** Each replica's listener calls ApplyRemoteInvalidation and
    OnInvalidationReconnect of its server; [failing] is SetPublishError. *)
Record Bus : Type := mkBus { bus_replicas : gmap nat (InvServer * bool); bus_failing : bool }.

Definition Attach (id : nat) (s : InvServer) (b : Bus) : Bus := mkBus (<[id := (OnInvalidationReconnect s, true)]> (bus_replicas b)) (bus_failing b).

Definition SetConnected (id : nat) (connected : bool) (b : Bus) : Bus :=
  match bus_replicas b !! id with
  | None => b
  | Some (s, was) => mkBus (<[id := (if negb was && connected then OnInvalidationReconnect s else s, connected)]> (bus_replicas b)) (bus_failing b)
  end.

(** The payload reaches every connected replica, or none. *)
Definition PublishSpecInvalidation (payload : string) (b : Bus) : bool * Bus :=
  if bus_failing b then (false, b)
  else (true, mkBus ((fun x : InvServer * bool => if x.2 then (ApplyRemoteInvalidation payload x.1, true) else x) <$> bus_replicas b) false).

Definition on_replica (id : nat) (f : InvServer -> InvServer) (b : Bus) : Bus :=
  mkBus (alter (fun x : InvServer * bool => (f x.1, x.2)) id (bus_replicas b)) (bus_failing b).

Definition count_publish_failure (s : InvServer) : InvServer :=
  mkInvServer (is_auth s) (is_stats s) (is_limiter s) (is_watchers s) (is_nextWatch s) (is_outside s) (u64 (is_publishFailures s + 1)) (is_received s) (is_reconnectFlushes s).

(** publishInvalidation and notify...Invalidation of replica [id]: applied here
    first, then published. *)
Definition notifyInvalidation (id : nat) (kind : string) (target : Z) (b : Bus) : Bus :=
  let t := FormatInt target in
  let b := on_replica id (ApplyInvalidation (mkInvalidation kind t)) b in
  let '(ok, b) := PublishSpecInvalidation (FormatInvalidationPayload kind t) b in
  if (ok : bool) then b else on_replica id count_publish_failure b.
End Server.

(** ** Authentication (internal/api/auth.go) *)

(** The answer of the middleware: the principal it passes on, or a status. *)
Record AuthPrincipal : Type := mkAuthPrincipal { ap_Tenant : Tenant; ap_Scope : Scope; ap_KeyID : Z; ap_KeyPrefix : string }.
Inductive auth_answer : Type := PassedOn (p : AuthPrincipal) | Denied (status : Z).

(** The checks between the lookup and the scope: the digest, the tenant, and the
    tenant a client certificate named. *)
Definition credential_check (digest storedDigest : list Z) (tenant : Tenant) (expected : option Z) : option Z :=
  if negb (bool_decide (digest = storedDigest)) then Some 401
  else if negb (tn_Enabled tenant) then Some 403
  else match expected with Some id => if id =? tn_ID tenant then None else Some 403 | None => None end.

(** A key without a prefix takes the presented one. *)
Definition set_prefix (prefix : string) (k : TenantAPIKey) : TenantAPIKey :=
  if bool_decide (tk_Prefix k = "") then mkTenantAPIKey (tk_ID k) (tk_TenantID k) (tk_Name k) prefix (tk_CreatedAt k) (tk_LastUsedAt k) (tk_RevokedAt k) else k.

(** *** The middleware, statement by statement *)

Record auth_request : Type := mkAuthRequest { rq_prefix : string; rq_digest : list Z; rq_expected : option Z }.

(** What a request does next: read the clock and the cache, look the key up, check
    it, resolve the scope, cache the result, record the use of the key. *)
Inductive auth_pc : Type :=
  | AuStart
  | AuLookup (now : Z)
  | AuCheck (now : Z) (key : TenantAPIKey) (digest : list Z) (tenant : Tenant) (cached : option Scope)
  | AuScope (now : Z) (key : TenantAPIKey) (digest : list Z) (tenant : Tenant)
  | AuPut (now : Z) (key : TenantAPIKey) (digest : list Z) (tenant : Tenant) (scope : Scope)
  | AuTouch (now : Z) (p : AuthPrincipal)
  | AuDone (now : Z) (a : auth_answer).

(** The clock, the database and the replica's cache, with the databases of the past
    and when they were current. *)
Record auth_sys : Type := mkAuthSys {
  au_now : Z;
  au_db : TDB;
  au_hist : list (Z * TDB);
  au_cache : AuthCache;
  au_requests : list (auth_request * auth_pc) }.

Definition au_goto (i : nat) (r : auth_request) (pc : auth_pc) (c : AuthCache) (s : auth_sys) : auth_sys :=
  mkAuthSys (au_now s) (au_db s) (au_hist s) c (<[i := (r, pc)]> (au_requests s)).
Definition au_write (d : TDB) (s : auth_sys) : auth_sys := mkAuthSys (au_now s) d ((au_now s, d) :: au_hist s) (au_cache s) (au_requests s).

Definition principal_of (r : auth_request) (key : TenantAPIKey) (tenant : Tenant) (scope : Scope) : AuthPrincipal :=
  mkAuthPrincipal tenant scope (tk_ID key) (rq_prefix r).

Definition authenticate_step (i : nat) (r : auth_request) (pc : auth_pc) (s : auth_sys) : option auth_sys :=
  let c := au_cache s in
  match pc with
  | AuStart =>
      let now := au_now s in
      let '(hit, c) := GetTenantAuth (rq_prefix r) now c in
      Some (au_goto i r (match hit with
                         | Some e => AuCheck now (ct_key e) (ct_digest e) (ct_tenant e) (Some (ct_scope e))
                         | None => AuLookup now
                         end) c s)
  | AuLookup now =>
      Some (au_goto i r (match LookupTenantAPIKey (rq_prefix r) (au_db s) with
                         | Ok (k, g, t) => AuCheck now k g t None
                         | Err e => AuDone now (Denied (if errors_Is e ErrNotFound then 401 else 500))
                         end) c s)
  | AuCheck now k g t cached =>
      Some (au_goto i r (match credential_check (rq_digest r) g t (rq_expected r) with
                         | Some status => AuDone now (Denied status)
                         | None => match cached with Some scope => AuTouch now (principal_of r k t scope) | None => AuScope now k g t end
                         end) c s)
  | AuScope now k g t => Some (au_goto i r (AuPut now k g t (ScopeForTenant t (au_db s))) c s)
  | AuPut now k g t scope =>
      let k := set_prefix (rq_prefix r) k in
      Some (au_goto i r (AuTouch now (principal_of r k t scope)) (PutTenantAuth k g t scope now c) s)
  | AuTouch now p => Some (au_goto i r (AuDone now (PassedOn p)) c (au_write (TouchTenantAPIKey (au_now s) (ap_KeyID p) (au_db s)) s))
  | AuDone _ _ => None
  end.
