(* ===== verification/AuthCacheProps.v ===== *)
(** * Cached credentials are current

    Whatever is lost or late on the invalidation channel, a request rests on what
    the database said less than the cache's lifetime ago; an invalidation evicts the
    entries it names and no others, on every replica that hears it or reconnects. *)

From S2P Require Import Prelude GoStrings GoFloat GoTime GoSort StoreErrors StoreTypes Keyset Scope SqliteStore RateLimit TenantStore AuthCache.
From Stdlib Require Import Ascii String.
Local Open Scope Z_scope.
Local Open Scope go_scope.
Local Notation length := List.length.

(** ** The system *)

(** Beside the requests: time passes, any operation on the tenants runs, a statement
    of a request fails, and invalidations reach the cache, or do not. *)
Inductive auth_step : auth_sys -> auth_sys -> Prop :=
  | au_request i r pc s s' : au_requests s !! i = Some (r, pc) -> authenticate_step i r pc s = Some s' -> auth_step s s'
  | au_fail i r pc now s : au_requests s !! i = Some (r, pc) -> auth_step s (au_goto i r (AuDone now (Denied 500)) (au_cache s) s)
  | au_tick dt s : 0 <= dt -> auth_step s (mkAuthSys (au_now s + dt) (au_db s) ((au_now s + dt, au_db s) :: au_hist s) (au_cache s) (au_requests s))
  | au_admin op s : auth_step s (au_write (tenant_step op (au_db s)) s)
  | au_evict_tenant t s : auth_step s (mkAuthSys (au_now s) (au_db s) (au_hist s) (AuthCache_InvalidateTenant t (au_cache s)) (au_requests s))
  | au_evict_key k s : auth_step s (mkAuthSys (au_now s) (au_db s) (au_hist s) (AuthCache_InvalidateAPIKey k (au_cache s)) (au_requests s))
  | au_clear s : auth_step s (mkAuthSys (au_now s) (au_db s) (au_hist s) (AuthCache_Clear (au_cache s)) (au_requests s)).

Definition auth_start (ttl now : Z) (d : TDB) (requests : list auth_request) : auth_sys :=
  mkAuthSys now d [(now, d)] (NewAuthCache ttl) ((fun r => (r, AuStart)) <$> requests).

(** [t] resolved [prefix] at or after [from], and [scope] was its scope. *)
Definition resolved (hist : list (Z * TDB)) (from : Z) (prefix : string) (digest : list Z) (keyID : Z) (t : Tenant) : Prop :=
  exists tau d k, (tau, d) ∈ hist /\ from <= tau /\ LookupTenantAPIKey prefix d = Ok (k, digest, t) /\ tk_ID k = keyID.
Definition scoped (hist : list (Z * TDB)) (from : Z) (t : Tenant) (scope : Scope) : Prop :=
  exists tau d, (tau, d) ∈ hist /\ from <= tau /\ scope = ScopeForTenant t d.

Lemma resolved_more hist x from p g k t : resolved hist from p g k t -> resolved (x :: hist) from p g k t.
Proof. intros (tau & d & k0 & H & ?). exists tau, d, k0. split; [by right|done]. Qed.
Lemma scoped_more hist x from t sc : scoped hist from t sc -> scoped (x :: hist) from t sc.
Proof. intros (tau & d & H & ?). exists tau, d. split; [by right|done]. Qed.
#[local] Hint Resolve resolved_more scoped_more : core.

(** ** Evictions only remove *)

Definition cache_le (c c' : AuthCache) : Prop :=
  ac_ttl c' = ac_ttl c /\ forall p e, ac_tenantByPrefix c' !! p = Some e -> ac_tenantByPrefix c !! p = Some e.

#[local] Instance cache_le_refl : Reflexive cache_le.
Proof. by intros c. Qed.
#[local] Instance cache_le_trans : Transitive cache_le.
Proof. intros a b c [H1 H2] [H3 H4]. split; [congruence|auto]. Qed.

Lemma delete_prefix_le p t k c : cache_le c (deleteTenantPrefixLocked p t k c).
Proof. split; [done|]. cbn. by intros p' e [_ H]%lookup_delete_Some. Qed.
Lemma evict_prefix_le c p : cache_le c (evict_prefix c p).
Proof. unfold evict_prefix. destruct (ac_tenantByPrefix c !! p); [|done]. split; [done|]. cbn. by intros p' e [_ H]%lookup_delete_Some. Qed.
Lemma evict_all_le l : forall c, cache_le c (foldl evict_prefix c l).
Proof. induction l as [|p l IH]; intros c; [done|]. cbn. transitivity (evict_prefix c p); [apply evict_prefix_le|apply IH]. Qed.
Lemma invalidate_tenant_le t c : cache_le c (AuthCache_InvalidateTenant t c).
Proof. unfold AuthCache_InvalidateTenant. destruct (_ !! t) as [pset|]; [|done]. pose proof (evict_all_le (elements pset) c) as [H1 H2]. by split. Qed.
Lemma invalidate_key_le k c : cache_le c (AuthCache_InvalidateAPIKey k c).
Proof.
  unfold AuthCache_InvalidateAPIKey. cbv zeta.
  destruct (ac_prefixByTenantKeyID c !! k) as [p|]; [destruct (ac_tenantByPrefix c !! p) as [e|]|]; cbn;
    destruct (ac_prefixBySingleKeyID c !! k); split; cbn; try done; by intros p' e' [_ H]%lookup_delete_Some.
Qed.
Lemma clear_le c : cache_le c (AuthCache_Clear c).
Proof. unfold AuthCache_Clear. cbv zeta. destruct (0 <? _); split; cbn; try done; intros p e; by rewrite lookup_empty. Qed.
Lemma get_le p now c : cache_le c (GetTenantAuth p now c).2.
Proof.
  unfold GetTenantAuth. destruct (ac_ttl c <=? 0); [done|]. destruct (ac_tenantByPrefix c !! p) as [e|]; [|done]. destruct (ac_ttl c <=? _); [|done].
  exact (delete_prefix_le p _ _ c).
Qed.

(** ** The invariant *)

Section Fresh.
Context (ttl : Z).

(** An entry was read from the database since the moment it is stamped with. *)
Definition entry_ok (hist : list (Z * TDB)) (p : string) (e : cachedTenantAuth) : Prop :=
  resolved hist (ct_cachedAt e) p (ct_digest e) (tk_ID (ct_key e)) (ct_tenant e) /\ scoped hist (ct_cachedAt e) (ct_tenant e) (ct_scope e).

(** What admits a request that read the clock at [now]. *)
Definition fresh (hist : list (Z * TDB)) (now : Z) (r : auth_request) (p : AuthPrincipal) : Prop :=
  exists from digest, (now <= from \/ now - from < ttl) /\ resolved hist from (rq_prefix r) digest (ap_KeyID p) (ap_Tenant p) /\ scoped hist from (ap_Tenant p) (ap_Scope p) /\
    credential_check (rq_digest r) digest (ap_Tenant p) (rq_expected r) = None.

Definition pc_ok (hist : list (Z * TDB)) (last : Z) (r : auth_request) (pc : auth_pc) : Prop :=
  match pc with
  | AuStart => True
  | AuLookup now => now <= last
  | AuCheck now k g t None => now <= last /\ resolved hist now (rq_prefix r) g (tk_ID k) t /\ (tk_Prefix k = "" \/ tk_Prefix k = rq_prefix r)
  | AuCheck now k g t (Some sc) => exists from, now - from < ttl /\ resolved hist from (rq_prefix r) g (tk_ID k) t /\ scoped hist from t sc
  | AuScope now k g t => now <= last /\ resolved hist now (rq_prefix r) g (tk_ID k) t /\ (tk_Prefix k = "" \/ tk_Prefix k = rq_prefix r) /\ credential_check (rq_digest r) g t (rq_expected r) = None
  | AuPut now k g t sc => resolved hist now (rq_prefix r) g (tk_ID k) t /\ scoped hist now t sc /\ (tk_Prefix k = "" \/ tk_Prefix k = rq_prefix r) /\ credential_check (rq_digest r) g t (rq_expected r) = None
  | AuTouch now p | AuDone now (PassedOn p) => fresh hist now r p
  | AuDone _ (Denied _) => True
  end.

Record auth_inv (s : auth_sys) : Prop := {
  ai_ttl : ac_ttl (au_cache s) = ttl;
  ai_now : (au_now s, au_db s) ∈ au_hist s;
  ai_past : forall x, x ∈ au_hist s -> x.1 <= au_now s;
  ai_cache : forall p e, ac_tenantByPrefix (au_cache s) !! p = Some e -> entry_ok (au_hist s) p e;
  ai_requests : forall i r pc, au_requests s !! i = Some (r, pc) -> pc_ok (au_hist s) (au_now s) r pc }.

Lemma fresh_more hist x now r p : fresh hist now r p -> fresh (x :: hist) now r p.
Proof. intros (from & g & ? & ? & ? & ?). exists from, g. auto. Qed.
Lemma pc_ok_more hist x last last' r pc : last <= last' -> pc_ok hist last r pc -> pc_ok (x :: hist) last' r pc.
Proof.
  intros Hl. destruct pc as [|?|? ? ? ? [?|]|? ? ? ?|? ? ? ? ?|? ?|? []]; cbn; try done; try (by apply fresh_more); try lia.
  - intros (from & ? & ? & ?). exists from. auto.
  - intros (? & ? & ?). split_and!; [lia|auto|done].
  - intros (? & ? & ? & ?). split_and!; [lia|auto|done|done].
  - intros (? & ? & ? & ?). auto.
Qed.

(** The past grows. *)
Lemma hist_inv s now d : auth_inv s -> au_now s <= now -> auth_inv (mkAuthSys now d ((now, d) :: au_hist s) (au_cache s) (au_requests s)).
Proof.
  intros [H1 H2 H3 H4 H5] Hn. split; cbn; [done|by left| | |].
  - intros x [->|Hx]%elem_of_cons; [done|]. specialize (H3 x Hx). lia.
  - intros p e He. destruct (H4 p e He). by split; auto.
  - intros i r pc Hi. eapply pc_ok_more; [exact Hn|by eapply H5].
Qed.

(** The cache shrinks. *)
Lemma evict_inv s c : auth_inv s -> cache_le (au_cache s) c -> auth_inv (mkAuthSys (au_now s) (au_db s) (au_hist s) c (au_requests s)).
Proof. intros [H1 H2 H3 H4 H5] [E1 E2]. split; cbn; try done; [congruence|]. intros p e He. by apply H4, E2. Qed.

(** A request moves. *)
Lemma move_inv s i r pc : auth_inv s -> pc_ok (au_hist s) (au_now s) r pc -> auth_inv (au_goto i r pc (au_cache s) s).
Proof.
  intros [H1 H2 H3 H4 H5] Hpc. split; cbn; try done. intros j r' pc' [(_ & E & _)|[_ Hj]]%list_lookup_insert_Some; [by simplify_eq|by eapply H5].
Qed.

Lemma move_evict_inv s i r pc c : auth_inv s -> cache_le (au_cache s) c -> pc_ok (au_hist s) (au_now s) r pc -> auth_inv (au_goto i r pc c s).
Proof. intros Hs Hc Hpc. exact (move_inv (mkAuthSys (au_now s) (au_db s) (au_hist s) c (au_requests s)) i r pc (evict_inv s c Hs Hc) Hpc). Qed.

Lemma get_hit p now c e : (GetTenantAuth p now c).1 = Some e -> ac_tenantByPrefix c !! p = Some e /\ now - ct_cachedAt e < ac_ttl c.
Proof.
  unfold GetTenantAuth. destruct (Z.leb_spec (ac_ttl c) 0); [done|]. destruct (ac_tenantByPrefix c !! p) as [e'|]; [|done].
  destruct (Z.leb_spec (ac_ttl c) (now - ct_cachedAt e')); [done|]. by intros [= <-].
Qed.

Lemma request_inv i r pc s s' : auth_inv s -> au_requests s !! i = Some (r, pc) -> authenticate_step i r pc s = Some s' -> auth_inv s'.
Proof.
  intros Hinv Hi. pose proof (ai_requests s Hinv i r pc Hi) as Hpc. pose proof (ai_now s Hinv) as Hnow.
  destruct pc; cbn [authenticate_step]; cbv zeta; cbn [pc_ok] in Hpc.
  - pose proof (get_le (rq_prefix r) (au_now s) (au_cache s)) as Hle. pose proof (get_hit (rq_prefix r) (au_now s) (au_cache s)) as Hhit.
    destruct (GetTenantAuth (rq_prefix r) (au_now s) (au_cache s)) as [[e|] c]; cbn [fst snd] in *; intros [= <-]; apply move_evict_inv; try done; cbn; [|lia].
    destruct (Hhit e eq_refl) as [He Ht]. destruct (ai_cache s Hinv _ _ He) as [Hr Hs]. exists (ct_cachedAt e). rewrite (ai_ttl s Hinv) in Ht. done.
  - destruct (LookupTenantAPIKey (rq_prefix r) (au_db s)) as [[[k g] t]|e] eqn:El; intros [= <-]; apply move_inv; try done. cbn. split_and!; [lia| |].
    + exists (au_now s), (au_db s), k. done.
    + right. unfold LookupTenantAPIKey in El. destruct (key_with_prefix _ _) as [[k' g']|] eqn:Ek; [|done]. apply key_with_prefix_some in Ek as (id & _ & <-).
      repeat case_match; simplify_eq; done.
  - destruct (credential_check _ _ _ _) as [st|] eqn:Ec; [intros [= <-]; by apply move_inv|]. destruct cached as [sc|]; intros [= <-]; apply move_inv; try done; cbn in *.
    + destruct Hpc as (from & Ht & Hr & Hs). exists from, digest. split_and!; auto.
    + destruct Hpc as (? & ? & ?). done.
  - intros [= <-]. apply move_inv; [done|]. cbn. destruct Hpc as (? & ? & ? & ?). split_and!; try done. exists (au_now s), (au_db s). done.
  - intros [= <-]. destruct Hpc as (Hr & Hs & Hp & Hc). unfold PutTenantAuth. assert (Hk : tk_ID (set_prefix (rq_prefix r) key) = tk_ID key /\ tk_Prefix (set_prefix (rq_prefix r) key) = rq_prefix r).
    { unfold set_prefix. case_bool_decide; cbn; [done|]. split; [done|]. by destruct Hp. }
    destruct Hk as [Hk1 Hk2]. assert (Hf : pc_ok (au_hist s) (au_now s) r (AuTouch now (principal_of r (set_prefix (rq_prefix r) key) tenant scope))).
    { cbn. exists now, digest. cbn. rewrite Hk1. split_and!; [lia|done..]. }
    destruct (ac_ttl (au_cache s) <=? 0); [by apply move_inv|]. destruct (move_inv s i r _ Hinv Hf) as [G1 G2 G3 G4 G5]. split; try done. cbn.
    intros p e. rewrite Hk2, lookup_insert_Some. intros [[<- <-]|[_ He]]; [|by apply (ai_cache s Hinv)]. split; cbn; [|done]. by rewrite Hk1.
  - intros [= <-]. pose proof (hist_inv s (au_now s) (TouchTenantAPIKey (au_now s) (ap_KeyID p) (au_db s)) Hinv ltac:(lia)) as Hi2.
    apply (move_inv (au_write _ s)); [done|]. cbn. by apply fresh_more.
  - done.
Qed.

Lemma auth_step_inv s s' : auth_inv s -> auth_step s s' -> auth_inv s'.
Proof.
  intros Hinv Hstep. destruct Hstep as [i r pc s s' Hi Hs|i r pc now s Hi|dt s Hd|op s|t s|k s|s].
  - by eapply request_inv.
  - by apply move_inv.
  - apply hist_inv; [done|lia].
  - apply hist_inv; [done|lia].
  - apply evict_inv; [done|apply invalidate_tenant_le].
  - apply evict_inv; [done|apply invalidate_key_le].
  - apply evict_inv; [done|apply clear_le].
Qed.

Lemma auth_start_inv now d requests : auth_inv (auth_start ttl now d requests).
Proof.
  split; cbn; [done|by left| | |].
  - intros x [->|Hx]%elem_of_cons; [done|set_solver].
  - intros p e. by rewrite lookup_empty.
  - intros i r pc. rewrite list_lookup_fmap. destruct (requests !! i); [|done]. by intros [= <- <-].
Qed.
End Fresh.

(** C15: over every interleaving of requests, administrative changes, failures and
    invalidations, delivered or not, an admitted request that read the clock at
    [now] carries a tenant, key and scope the database held less than the cache's
    lifetime before [now], with a matching digest and an enabled tenant; so when the
    database does not resolve its key from some moment on, no request that starts a
    lifetime after that moment is admitted. *)
Theorem cached_credentials_are_fresh (ttl now0 : Z) (d : TDB) (requests : list auth_request) (s : auth_sys) (i : nat) (r : auth_request) (now : Z) (p : AuthPrincipal)
    (Httl : 0 < ttl) (Hrun : rtc auth_step (auth_start ttl now0 d requests) s) (Hi : au_requests s !! i = Some (r, AuDone now (PassedOn p))) :
  tn_Enabled (ap_Tenant p) = true /\
  (exists tau db k, (tau, db) ∈ au_hist s /\ now - ttl < tau /\ LookupTenantAPIKey (rq_prefix r) db = Ok (k, rq_digest r, ap_Tenant p) /\ tk_ID k = ap_KeyID p) /\
  (exists tau db, (tau, db) ∈ au_hist s /\ now - ttl < tau /\ ap_Scope p = ScopeForTenant (ap_Tenant p) db) /\
  (forall revoked, (forall tau db, (tau, db) ∈ au_hist s -> revoked <= tau -> exists e, LookupTenantAPIKey (rq_prefix r) db = Err e) -> now < revoked + ttl).
Proof.
  assert (Hinv : auth_inv ttl s).
  { pose proof (auth_start_inv ttl now0 d requests) as H0. clear Hi. induction Hrun; [done|]. apply IHHrun. by eapply auth_step_inv. }
  pose proof (ai_requests ttl s Hinv i r _ Hi) as (from & g & Hfrom & (tau & db & k & Hin & Hle & Hl & Hk) & (tau' & db' & Hin' & Hle' & Hsc) & Hc).
  unfold credential_check in Hc. case_bool_decide as Hg; [|done]. subst g. cbn in Hc. destruct (tn_Enabled (ap_Tenant p)) eqn:Een; [|done].
  split_and!; [done| | |].
  - exists tau, db, k. split_and!; [done|lia|done|done].
  - exists tau', db'. split_and!; [done|lia|done].
  - intros revoked Hrev. destruct (Z.lt_ge_cases now (revoked + ttl)) as [|Hge]; [done|]. destruct (Hrev tau db Hin ltac:(lia)) as [e He]. congruence.
Qed.

(** ** Invalidations evict exactly what they name *)

(** Operations of a replica on its cache. *)
Inductive cache_op : Type :=
  | CGet (prefix : string) (now : Z)
  | CPut (key : TenantAPIKey) (digest : list Z) (tenant : Tenant) (scope : Scope) (now : Z)
  | CGetSingle (prefix : string) (now : Z)
  | CPutSingle (key : APIKey) (now : Z)
  | CTenant (id : Z)
  | CKey (id : Z)
  | CClear.

Definition cache_step (c : AuthCache) (op : cache_op) : AuthCache :=
  match op with
  | CGet p now => (GetTenantAuth p now c).2
  | CPut k g t sc now => PutTenantAuth k g t sc now c
  | CGetSingle p now => (AuthCache_GetAPIKey p now c).2
  | CPutSingle k now => PutAPIKey k now c
  | CTenant id => AuthCache_InvalidateTenant id c
  | CKey id => AuthCache_InvalidateAPIKey id c
  | CClear => AuthCache_Clear c
  end.

Section Indices.
(** The columns of a key that never change: the prefix of an id, in each scheme. *)
Context (owner single_owner : Z -> string).

Definition op_ok (op : cache_op) : Prop :=
  match op with
  | CPut k _ _ _ _ => tk_Prefix k = owner (tk_ID k)
  | CPutSingle k _ => ak_Prefix k = single_owner (ak_ID k)
  | _ => True
  end.

(** Every entry is found by its tenant and by its key. *)
Record cache_ok (c : AuthCache) : Prop := {
  co_tenant : forall p e, ac_tenantByPrefix c !! p = Some e ->
    owner (tk_ID (ct_key e)) = p /\ (exists pset, ac_prefixesByTenant c !! tn_ID (ct_tenant e) = Some pset /\ p ∈ pset) /\ ac_prefixByTenantKeyID c !! tk_ID (ct_key e) = Some p;
  co_index : forall k p, ac_prefixByTenantKeyID c !! k = Some p -> owner k = p;
  co_single : forall p e, ac_singleByPrefix c !! p = Some e -> single_owner (ak_ID (cs_key e)) = p /\ ac_prefixBySingleKeyID c !! ak_ID (cs_key e) = Some p;
  co_single_index : forall k p, ac_prefixBySingleKeyID c !! k = Some p -> single_owner k = p }.

Lemma drop_prefix_keeps p t m q t' pset : m !! t' = Some pset -> q ∈ pset -> q <> p -> exists pset', drop_prefix p t m !! t' = Some pset' /\ q ∈ pset'.
Proof.
  intros Hm Hq Hne. unfold drop_prefix. destruct (m !! t) as [ps|] eqn:E; [|by eauto]. cbv zeta.
  destruct (decide (t = t')) as [<-|Htt].
  - rewrite Hm in E. injection E as <-. case_bool_decide as He; [exfalso; set_solver|]. rewrite lookup_insert_eq. eexists. split; [done|set_solver].
  - case_bool_decide; [rewrite lookup_delete_ne by done|rewrite lookup_insert_ne by done]; eauto.
Qed.

Lemma delete_prefix_ok p t k c : cache_ok c -> owner k = p -> cache_ok (deleteTenantPrefixLocked p t k c).
Proof.
  intros [H1 H2 H3 H4] Hk. split; cbn; try done.
  - intros q e [Hne He]%lookup_delete_Some. destruct (H1 q e He) as (Ho & (pset & Hp & Hin) & Hix). split_and!; [done| |].
    + by eapply drop_prefix_keeps.
    + rewrite lookup_delete_ne; [done|]. congruence.
  - intros k' q [_ Hq]%lookup_delete_Some. by apply H2.
Qed.

Lemma counters_ok c h m v : cache_ok c -> cache_ok (mkAuthCache (ac_ttl c) (ac_tenantByPrefix c) (ac_prefixesByTenant c) (ac_prefixByTenantKeyID c) (ac_singleByPrefix c) (ac_prefixBySingleKeyID c) h m v).
Proof. intros [H1 H2 H3 H4]. by split. Qed.

Lemma get_ok p now c : cache_ok c -> cache_ok (GetTenantAuth p now c).2.
Proof.
  intros Hc. unfold GetTenantAuth. destruct (ac_ttl c <=? 0); [done|]. destruct (ac_tenantByPrefix c !! p) as [e|] eqn:E; [|by apply counters_ok].
  destruct (ac_ttl c <=? _); [|by apply counters_ok]. apply (counters_ok (deleteTenantPrefixLocked _ _ _ c)). apply delete_prefix_ok; [done|]. by apply (co_tenant c Hc).
Qed.

Lemma put_ok k g t sc now c : tk_Prefix k = owner (tk_ID k) -> cache_ok c -> cache_ok (PutTenantAuth k g t sc now c).
Proof.
  intros Hk [H1 H2 H3 H4]. unfold PutTenantAuth. destruct (ac_ttl c <=? 0); [by split|]. split; cbn; try done.
  - intros p e. rewrite lookup_insert_Some. intros [[<- <-]|[Hne He]]; cbn.
    + split_and!; [done|rewrite lookup_insert_eq; eexists; split; [done|set_solver]|by rewrite lookup_insert_eq].
    + destruct (H1 p e He) as (Ho & (pset & Hp & Hin) & Hix). split_and!; [done| |].
      * destruct (decide (tn_ID t = tn_ID (ct_tenant e))) as [Et|Et].
        -- rewrite Et, lookup_insert_eq. eexists. split; [done|]. rewrite Hp. cbn. set_solver.
        -- rewrite lookup_insert_ne by done. eauto.
      * rewrite lookup_insert_ne; [done|]. intros Heq. apply Hne. congruence.
  - intros k' p. rewrite lookup_insert_Some. intros [[<- <-]|[_ Hp]]; [done|by apply H2].
Qed.

Lemma singles_ok c m ix : cache_ok c -> (forall p e, m !! p = Some e -> single_owner (ak_ID (cs_key e)) = p /\ ix !! ak_ID (cs_key e) = Some p) -> (forall k p, ix !! k = Some p -> single_owner k = p) -> cache_ok (with_singles m ix c).
Proof. intros [H1 H2 H3 H4] Hm Hix. by split. Qed.

Lemma drop_single_ok k p c : cache_ok c -> single_owner k = p -> cache_ok (with_singles (delete p (ac_singleByPrefix c)) (delete k (ac_prefixBySingleKeyID c)) c).
Proof.
  intros Hc Hk. apply singles_ok; [done| |].
  - intros q e [Hne He]%lookup_delete_Some. destruct (co_single c Hc q e He) as [Ho Hix]. split; [done|]. rewrite lookup_delete_ne; [done|congruence].
  - intros k' q [_ Hq]%lookup_delete_Some. by apply (co_single_index c Hc).
Qed.

(** Eviction of a list of prefixes. *)
Lemma evict_all_spec l : forall c, cache_ok c -> let c' := foldl evict_prefix c l in
  cache_ok c' /\ ac_prefixesByTenant c' = ac_prefixesByTenant c /\ ac_singleByPrefix c' = ac_singleByPrefix c /\ ac_ttl c' = ac_ttl c /\
  forall p, ac_tenantByPrefix c' !! p = if decide (p ∈ l) then None else ac_tenantByPrefix c !! p.
Proof.
  induction l as [|q l IH]; intros c Hc; [cbn; done|]. cbn [foldl].
  assert (H1 : cache_ok (evict_prefix c q) /\ ac_prefixesByTenant (evict_prefix c q) = ac_prefixesByTenant c /\ ac_singleByPrefix (evict_prefix c q) = ac_singleByPrefix c /\ ac_ttl (evict_prefix c q) = ac_ttl c /\
    forall p, ac_tenantByPrefix (evict_prefix c q) !! p = if decide (p = q) then None else ac_tenantByPrefix c !! p).
  { unfold evict_prefix. destruct (ac_tenantByPrefix c !! q) as [e|] eqn:E.
    - split_and!; try done; cbn; [|intros p; destruct (decide (p = q)) as [->|]; [by rewrite lookup_delete_eq|by rewrite lookup_delete_ne]].
      destruct Hc as [G1 G2 G3 G4]. destruct (G1 q e E) as (Ho & _ & _). split; cbn; try done.
      + intros p e' [Hne He]%lookup_delete_Some. destruct (G1 p e' He) as (Ho' & ? & Hix). split_and!; [done|done|]. rewrite lookup_delete_ne; [done|congruence].
      + intros k p [_ Hp]%lookup_delete_Some. by apply G2.
    - split_and!; try done. intros p. destruct (decide (p = q)) as [->|]; done. }
  destruct H1 as (K1 & K2 & K3 & K4 & K5). specialize (IH _ K1). cbv zeta in IH. destruct IH as (J1 & J2 & J3 & J4 & J5). cbv zeta. split_and!; [done|congruence..|].
  intros p. rewrite J5, K5. repeat case_decide; set_solver.
Qed.

Lemma invalidate_tenant_spec t c : cache_ok c -> cache_ok (AuthCache_InvalidateTenant t c) /\
  (forall p e, ac_tenantByPrefix (AuthCache_InvalidateTenant t c) !! p = Some e -> tn_ID (ct_tenant e) <> t) /\
  (forall p e, ac_tenantByPrefix c !! p = Some e -> (forall pset, ac_prefixesByTenant c !! t = Some pset -> p ∉ pset) -> ac_tenantByPrefix (AuthCache_InvalidateTenant t c) !! p = Some e).
Proof.
  intros Hc. unfold AuthCache_InvalidateTenant. destruct (ac_prefixesByTenant c !! t) as [pset|] eqn:Ep.
  - pose proof (evict_all_spec (elements pset) c Hc) as H. cbv zeta in H. destruct H as (K1 & K2 & K3 & K4 & K5). destruct K1 as [G1 G2 G3 G4].
    assert (Ht : forall p e, ac_tenantByPrefix (foldl evict_prefix c (elements pset)) !! p = Some e -> tn_ID (ct_tenant e) <> t).
    { intros p e He Hid. rewrite K5 in He. case_decide as Hin; [done|]. destruct (co_tenant c Hc p e He) as (_ & (ps & Hps & Hin') & _).
      rewrite Hid, Ep in Hps. injection Hps as <-. apply Hin. by apply elem_of_elements. }
    split_and!.
    + split; cbn; try done. intros p e He. destruct (G1 p e He) as (? & (ps & Hps & ?) & ?). split_and!; [done| |done].
      rewrite lookup_delete_ne; [by eauto|]. intros E. by apply (Ht p e He).
    + exact Ht.
    + cbn. intros p e He Hn. rewrite K5, decide_False; [done|]. rewrite elem_of_elements. by apply Hn.
  - split_and!; [done| |done]. intros p e He Hid. destruct (co_tenant c Hc p e He) as (_ & (ps & Hps & _) & _). congruence.
Qed.

Lemma invalidate_key_spec k c : cache_ok c -> cache_ok (AuthCache_InvalidateAPIKey k c) /\
  ac_tenantByPrefix (AuthCache_InvalidateAPIKey k c) = (if decide (is_Some (ac_prefixByTenantKeyID c !! k)) then delete (owner k) (ac_tenantByPrefix c) else ac_tenantByPrefix c) /\
  (forall p e, ac_singleByPrefix (AuthCache_InvalidateAPIKey k c) !! p = Some e -> ak_ID (cs_key e) <> k /\ ac_singleByPrefix c !! p = Some e).
Proof.
  intros Hc. unfold AuthCache_InvalidateAPIKey. cbv zeta.
  set (c1 := match (ac_prefixByTenantKeyID c !! k : option string) with
             | None => c
             | Some prefix => match (ac_tenantByPrefix c !! prefix : option cachedTenantAuth) with
                              | Some entry => count_invalidations 1 (deleteTenantPrefixLocked prefix (tn_ID (ct_tenant entry)) k c)
                              | None => mkAuthCache (ac_ttl c) (ac_tenantByPrefix c) (ac_prefixesByTenant c) (delete k (ac_prefixByTenantKeyID c)) (ac_singleByPrefix c) (ac_prefixBySingleKeyID c) (ac_hits c) (ac_misses c) (ac_invalidations c)
                              end
             end).
  assert (H1 : cache_ok c1 /\ ac_tenantByPrefix c1 = (if decide (is_Some (ac_prefixByTenantKeyID c !! k)) then delete (owner k) (ac_tenantByPrefix c) else ac_tenantByPrefix c) /\
     ac_singleByPrefix c1 = ac_singleByPrefix c).
  { unfold c1. destruct (ac_prefixByTenantKeyID c !! k) as [p|] eqn:Ep; [|rewrite decide_False by (by intros []); done]. rewrite decide_True by done.
    rewrite (co_index c Hc k p Ep). destruct (ac_tenantByPrefix c !! p) as [e|] eqn:Ee.
    - split_and!; try done. apply (counters_ok (deleteTenantPrefixLocked _ _ _ c)), delete_prefix_ok; [done|by apply (co_index c Hc)].
    - split_and!; [|cbn; by rewrite delete_id|done]. destruct Hc as [G1 G2 G3 G4]. split; cbn; try done.
      + intros q e He. destruct (G1 q e He) as (Ho & ? & Hix). split_and!; [done|done|]. rewrite lookup_delete_ne; [done|]. intros ->. congruence.
      + intros k' q [_ Hq]%lookup_delete_Some. by apply G2. }
  clearbody c1. destruct H1 as (K1 & K2 & K3). destruct (ac_prefixBySingleKeyID c1 !! k) as [p|] eqn:Es.
  - pose proof (co_single_index c1 K1 k p Es) as Hp. split_and!; [|done|].
    + apply (counters_ok (with_singles _ _ c1)). by apply drop_single_ok.
    + cbn. intros q e [Hne He]%lookup_delete_Some. destruct (co_single c1 K1 q e He) as [Ho _]. rewrite K3 in He. split; [|done]. intros Heq. congruence.
  - split_and!; [done|done|]. intros q e He. destruct (co_single c1 K1 q e He) as [_ Hix]. rewrite K3 in He. split; [|done]. intros Heq. congruence.
Qed.

Lemma cache_step_ok c op : cache_ok c -> op_ok op -> cache_ok (cache_step c op).
Proof.
  intros Hc Hop. destruct op; cbn in *.
  - by apply get_ok.
  - by apply put_ok.
  - unfold AuthCache_GetAPIKey. destruct (ac_ttl c <=? 0); [done|]. destruct (ac_singleByPrefix c !! prefix) as [e|] eqn:E; [|by apply counters_ok].
    destruct (ac_ttl c <=? _); [|by apply counters_ok]. apply (counters_ok (with_singles _ _ c)). apply drop_single_ok; [done|]. by apply (co_single c Hc).
  - unfold PutAPIKey. destruct (ac_ttl c <=? 0); [done|]. apply singles_ok; [done| |].
    + intros p e. rewrite lookup_insert_Some. intros [[<- <-]|[Hne He]]; cbn; [by rewrite lookup_insert_eq|]. destruct (co_single c Hc p e He) as [Ho Hix]. split; [done|].
      rewrite lookup_insert_ne; [done|]. intros Heq. apply Hne. congruence.
    + intros k p. rewrite lookup_insert_Some. intros [[<- <-]|[_ Hp]]; [done|by apply (co_single_index c Hc)].
  - by apply invalidate_tenant_spec.
  - by apply invalidate_key_spec.
  - unfold AuthCache_Clear. cbv zeta. destruct (0 <? _); split; cbn; intros *; rewrite lookup_empty; done.
Qed.

Lemma empty_cache_ok ttl : cache_ok (NewAuthCache ttl).
Proof. split; cbn; intros *; rewrite lookup_empty; done. Qed.

Lemma cache_run_ok ttl ops : Forall op_ok ops -> cache_ok (foldl cache_step (NewAuthCache ttl) ops).
Proof.
  intros H. generalize (empty_cache_ok ttl). generalize (NewAuthCache ttl). induction H as [|op ops Hop Hops IH]; intros c Hc; [done|]. cbn. apply IH. by apply cache_step_ok.
Qed.
End Indices.

(** ** Messages *)

Lemma payload_back kind target : kind ∈ [InvalidationKindTenant; InvalidationKindAPIKey; InvalidationKindPersisted] ->
  ParseInvalidationPayload (FormatInvalidationPayload kind target) = mkInvalidation kind target.
Proof.
  rewrite !elem_of_cons. intros [->|[->|[->|H]]]; [| | |set_solver];
    unfold FormatInvalidationPayload, ParseInvalidationPayload; rewrite !(bool_decide_eq_false_2 _) by done; cbn [orb];
    match goal with |- context [cut_first _ (?a +++ ":" +++ target)] => change (a +++ ":" +++ target) with (a +++ String ":" target) end;
    rewrite cut_first_app by done; by rewrite bool_decide_eq_true_2 by (unfold known_kinds; set_solver).
Qed.

Lemma spec_payload_back target : (forall k rest, cut_first ":" target = Some (k, rest) -> k ∉ known_kinds) ->
  ParseInvalidationPayload (FormatInvalidationPayload InvalidationKindSpec target) = mkInvalidation InvalidationKindSpec target.
Proof.
  intros H. unfold FormatInvalidationPayload, ParseInvalidationPayload. rewrite (bool_decide_eq_true_2 (InvalidationKindSpec = InvalidationKindSpec)) by done. rewrite orb_true_r.
  destruct (cut_first ":" target) as [[k rest]|]; [|done]. by rewrite bool_decide_eq_false_2 by (by eapply H).
Qed.

(** ** Replicas *)

Section Replicas.
Context {St B : Type} (owner single_owner : Z -> string).

Local Abbreviation server := (InvServer (S := St) (B := B)).

(** The cache of a replica after any history. *)
Definition replica_ok (s : server) : Prop :=
  exists ttl ops, Forall (op_ok owner single_owner) ops /\ is_auth s = foldl cache_step (NewAuthCache ttl) ops.

Definition no_tenant (t : Z) (s : server) : Prop := forall p e, ac_tenantByPrefix (is_auth s) !! p = Some e -> tn_ID (ct_tenant e) <> t.
Definition no_key (k : Z) (s : server) : Prop :=
  (forall p e, ac_tenantByPrefix (is_auth s) !! p = Some e -> tk_ID (ct_key e) <> k) /\ (forall p e, ac_singleByPrefix (is_auth s) !! p = Some e -> ak_ID (cs_key e) <> k).
Definition woke (t k : Z) (s : server) : Prop := forall i w, is_watchers s !! i = Some w -> woken t k w = true -> sw_signalled w = true.

Lemma replica_cache_ok s : replica_ok s -> cache_ok owner single_owner (is_auth s).
Proof. intros (ttl & ops & H & ->). by apply cache_run_ok. Qed.

Lemma positive_back n : 0 < n -> in_i64 n -> positive_id (FormatInt n) = Some n.
Proof. intros Hn Hi. unfold positive_id. rewrite ParseInt_FormatInt by done. destruct (Z.leb_spec n 0); [lia|done]. Qed.

Lemma wake_signals t k (s : server) : woke t k (wakeStreamWatchers t k s).
Proof.
  intros i w. cbn. rewrite lookup_fmap. destruct (is_watchers s !! i) as [w0|]; [|done]. cbn. intros [= <-]. destruct (woken t k w0) eqn:E; [done|]. congruence.
Qed.

Lemma apply_tenant t (s : server) : 0 < t -> in_i64 t -> replica_ok s ->
  no_tenant t (ApplyInvalidation (mkInvalidation InvalidationKindTenant (FormatInt t)) s) /\ woke t 0 (ApplyInvalidation (mkInvalidation InvalidationKindTenant (FormatInt t)) s).
Proof.
  intros Ht Hi Hs. unfold ApplyInvalidation. cbn [iv_Kind iv_Target]. rewrite bool_decide_eq_false_2, bool_decide_eq_true_2 by done. rewrite positive_back by done.
  split; [|apply wake_signals]. intros p e He. by apply (invalidate_tenant_spec owner single_owner t _ (replica_cache_ok s Hs)) in He.
Qed.

Lemma apply_key k (s : server) : 0 < k -> in_i64 k -> replica_ok s ->
  no_key k (ApplyInvalidation (mkInvalidation InvalidationKindAPIKey (FormatInt k)) s) /\ woke 0 k (ApplyInvalidation (mkInvalidation InvalidationKindAPIKey (FormatInt k)) s).
Proof.
  intros Ht Hi Hs. pose proof (replica_cache_ok s Hs) as Hc. unfold ApplyInvalidation. cbn [iv_Kind iv_Target].
  rewrite (bool_decide_eq_false_2 (InvalidationKindAPIKey = InvalidationKindSpec)), (bool_decide_eq_false_2 (InvalidationKindAPIKey = InvalidationKindTenant)), bool_decide_eq_true_2 by done.
  rewrite positive_back by done. split; [|apply wake_signals]. destruct (invalidate_key_spec owner single_owner k (is_auth s) Hc) as (_ & Et & Es). split; cbn.
  - rewrite Et. intros p e. case_decide as Hd.
    + intros [Hne He]%lookup_delete_Some Hk. destruct (co_tenant _ _ _ Hc p e He) as (Ho & _). congruence.
    + intros He Hk. destruct (co_tenant _ _ _ Hc p e He) as (_ & _ & Hix). apply Hd. rewrite <- Hk, Hix. done.
  - intros p e He. by apply Es in He as [? _].
Qed.

Lemma reconnect_empties (s : server) : ac_tenantByPrefix (is_auth (OnInvalidationReconnect s)) = ∅ /\ ac_singleByPrefix (is_auth (OnInvalidationReconnect s)) = ∅ /\ woke 0 0 (OnInvalidationReconnect s).
Proof. unfold OnInvalidationReconnect. cbn. unfold AuthCache_Clear. cbv zeta. split_and!; [by destruct (0 <? _)..|apply (wake_signals 0 0)]. Qed.

(** A second application changes nothing of what the first achieved. *)
Lemma remote_keeps (P : server -> Prop) payload (s : server) :
  (forall s', is_auth s' = is_auth s -> is_watchers s' = is_watchers s -> P (ApplyInvalidation (ParseInvalidationPayload payload) s')) -> P (ApplyRemoteInvalidation payload s).
Proof. intros H. unfold ApplyRemoteInvalidation. by apply H. Qed.

Definition evicted (kind : string) (target : Z) (s : server) : Prop :=
  if bool_decide (kind = InvalidationKindTenant) then no_tenant target s /\ woke target 0 s else no_key target s /\ woke 0 target s.

Lemma replica_after ev (s : server) : replica_ok s -> replica_ok (ApplyInvalidation ev s).
Proof.
  intros (ttl & ops & Hops & E). unfold ApplyInvalidation, replica_ok. repeat case_bool_decide; repeat case_match; try (by exists ttl, ops).
  - exists ttl, (ops ++ [CTenant z])%list. split; [by apply list.Forall_app; split; [|repeat constructor]|]. cbn. by rewrite foldl_app, E.
  - exists ttl, (ops ++ [CKey z])%list. split; [by apply list.Forall_app; split; [|repeat constructor]|]. cbn. by rewrite foldl_app, E.
Qed.

Lemma apply_evicts kind target (s : server) : kind ∈ [InvalidationKindTenant; InvalidationKindAPIKey] -> 0 < target -> in_i64 target -> replica_ok s ->
  evicted kind target (ApplyInvalidation (mkInvalidation kind (FormatInt target)) s).
Proof.
  rewrite !elem_of_cons. intros [->|[->|H]] Ht Hi Hs; [| |set_solver]; unfold evicted; [rewrite bool_decide_eq_true_2 by done; by apply apply_tenant|].
  rewrite bool_decide_eq_false_2 by done. by apply apply_key.
Qed.

Lemma evicted_ext kind target (s s' : server) : is_auth s' = is_auth s -> is_watchers s' = is_watchers s -> evicted kind target s -> evicted kind target s'.
Proof. unfold evicted, no_tenant, no_key, woke. intros -> ->. done. Qed.
End Replicas.

(** C20: a write to a tenant or a key that a replica announces leaves no entry of it
    in that replica's cache and, when the announcement is published, in the cache
    of any connected replica, and wakes the open streams it concerns there; a
    replica that was not connected holds no entry at all when it connects again. *)
Theorem announced_writes_are_evicted {St B : Type} (owner single_owner : Z -> string) (b : Bus (S := St) (B := B)) (id : nat) (kind : string) (target : Z)
    (Hkind : kind ∈ [InvalidationKindTenant; InvalidationKindAPIKey]) (Hpos : 0 < target) (Hrange : in_i64 target)
    (Hok : forall j s c, bus_replicas b !! j = Some (s, c) -> replica_ok owner single_owner s) :
  let b' := notifyInvalidation id kind target b in
  (forall s c, bus_replicas b' !! id = Some (s, c) -> evicted kind target s) /\
  (forall j s, bus_failing b = false -> bus_replicas b' !! j = Some (s, true) -> evicted kind target s) /\
  (forall j s, bus_replicas b' !! j = Some (s, false) -> forall s', bus_replicas (SetConnected j true b') !! j = Some (s', true) ->
     ac_tenantByPrefix (is_auth s') = ∅ /\ ac_singleByPrefix (is_auth s') = ∅).
Proof.
  assert (Hback : ParseInvalidationPayload (FormatInvalidationPayload kind (FormatInt target)) = mkInvalidation kind (FormatInt target)) by (apply payload_back; set_solver).
  assert (Hremote : forall s, replica_ok owner single_owner s -> evicted kind target (ApplyRemoteInvalidation (S := St) (B := B) (FormatInvalidationPayload kind (FormatInt target)) s)).
  { intros s Hs. unfold ApplyRemoteInvalidation. rewrite Hback. apply (apply_evicts owner single_owner); done. }
  pose proof (fun s => apply_evicts (St := St) (B := B) owner single_owner kind target s Hkind Hpos Hrange) as Hlocal.
  cbv zeta. unfold notifyInvalidation. cbv zeta. unfold PublishSpecInvalidation. cbn [on_replica bus_failing bus_replicas]. destruct (bus_failing b) eqn:Ef; cbn [bus_replicas on_replica bus_failing].
  - split_and!; [|done|].
    + intros s c. rewrite !lookup_alter_eq. destruct (bus_replicas b !! id) as [[s0 c0]|] eqn:E; cbn; [|done]. intros [= <- <-].
      eapply evicted_ext; [| |by eapply Hlocal, Hok]; done.
    + intros j s Hj s'. unfold SetConnected. cbn [bus_replicas on_replica] in *. rewrite Hj. cbn. rewrite lookup_insert_eq. intros [= <-]. split; apply reconnect_empties.
  - assert (Hall : forall j s c, alter (fun x : InvServer * bool => (ApplyInvalidation (mkInvalidation kind (FormatInt target)) x.1, x.2)) id (bus_replicas b) !! j = Some (s, c) -> replica_ok owner single_owner s).
    { intros j s c. destruct (decide (j = id)) as [->|Hne]; [rewrite lookup_alter_eq; destruct (bus_replicas b !! id) as [[s0 c0]|] eqn:E; cbn; [|done]; intros [= <- <-]; by eapply replica_after, Hok|].
      rewrite lookup_alter_ne by done. apply Hok. }
    split_and!.
    + intros s c. rewrite lookup_fmap, lookup_alter_eq. destruct (bus_replicas b !! id) as [[s0 c0]|] eqn:E; cbn; [|done]. destruct c0; intros [= <- <-]; [|by eapply Hlocal, Hok].
      apply Hremote. by eapply replica_after, Hok.
    + intros j s _. rewrite lookup_fmap. destruct (alter _ id _ !! j) as [[s0 c0]|] eqn:E; cbn; [|done]. destruct c0; [|done]. intros [= <-]. by eapply Hremote, Hall.
    + intros j s Hj s'. unfold SetConnected. cbn [bus_replicas] in *. rewrite Hj. cbn. rewrite lookup_insert_eq. intros [= <-]. split; apply reconnect_empties.
Qed.

(** ** Runs *)

Inductive auth_event : Type := ERequest (i : nat) | EAdmin (op : tenant_op) | EEvictKey (k : Z) | ETick (dt : Z).

Definition auth_event_step (e : auth_event) (s : auth_sys) : option auth_sys :=
  match e with
  | ERequest i => match au_requests s !! i with Some (r, pc) => authenticate_step i r pc s | None => None end
  | EAdmin op => Some (au_write (tenant_step op (au_db s)) s)
  | EEvictKey k => Some (mkAuthSys (au_now s) (au_db s) (au_hist s) (AuthCache_InvalidateAPIKey k (au_cache s)) (au_requests s))
  | ETick dt => if 0 <=? dt then Some (mkAuthSys (au_now s + dt) (au_db s) ((au_now s + dt, au_db s) :: au_hist s) (au_cache s) (au_requests s)) else None
  end.

Fixpoint run_auth (l : list auth_event) (s : auth_sys) : option auth_sys :=
  match l with [] => Some s | e :: l => match auth_event_step e s with Some s' => run_auth l s' | None => None end end.

Lemma run_auth_steps l : forall s s', run_auth l s = Some s' -> rtc auth_step s s'.
Proof.
  induction l as [|e l IH]; intros s s'; cbn; [intros [= <-]; apply rtc_refl|]. destruct (auth_event_step e s) as [s1|] eqn:E; [|done]. intros H.
  eapply rtc_l; [|by apply IH]. destruct e; cbn in E.
  - destruct (au_requests s !! i) as [[r pc]|] eqn:Er; [|done]. by eapply au_request.
  - injection E as <-. apply au_admin.
  - injection E as <-. apply au_evict_key.
  - destruct (Z.leb_spec 0 dt); [|done]. injection E as <-. by apply au_tick.
Qed.

Definition good_request : auth_request := mkAuthRequest "PREFIX" [1; 2] None.
Definition two_requests : auth_sys := auth_start DefaultAuthCacheTTL (100 * Second) two_tenants [good_request; good_request].
Definition all_of (i n : nat) : list auth_event := replicate n (ERequest i).
Definition admitted_key (i : nat) (s : auth_sys) : option Z := match au_requests s !! i with Some (_, AuDone _ (PassedOn p)) => Some (ap_KeyID p) | _ => None end.

(** A request that fills the cache, and one a second later that finds it there. *)
Definition cached_run : list auth_event := (all_of 0 6 ++ [ETick Second] ++ all_of 1 3)%list.
Definition cached_state : auth_sys := default two_requests (run_auth cached_run two_requests).
Definition cached_principal : AuthPrincipal :=
  match au_requests cached_state !! 1%nat with Some (_, AuDone _ (PassedOn p)) => p | _ => mkAuthPrincipal (a_tenant "" None) zeroScope 0 "" end.

Lemma cached_credentials_are_fresh_witness :
  run_auth cached_run two_requests = Some cached_state /\ tn_Name (ap_Tenant cached_principal) = "a" /\ tn_Enabled (ap_Tenant cached_principal) = true /\
  exists tau db, (tau, db) ∈ au_hist cached_state /\ 101 * Second - DefaultAuthCacheTTL < tau /\ ap_Scope cached_principal = ScopeForTenant (ap_Tenant cached_principal) db.
Proof.
  assert (E : run_auth cached_run two_requests = Some cached_state) by (vm_compute; reflexivity).
  assert (Er : au_requests cached_state !! 1%nat = Some (good_request, AuDone (101 * Second) (PassedOn cached_principal))) by (vm_compute; reflexivity).
  destruct (cached_credentials_are_fresh DefaultAuthCacheTTL (100 * Second) two_tenants [good_request; good_request] cached_state 1 good_request (101 * Second) cached_principal
    ltac:(reflexivity) (run_auth_steps _ _ _ E) Er) as (H1 & _ & H2 & _).
  split; [exact E|]. split; [vm_compute; reflexivity|]. split; [exact H1|exact H2].
Defined.

(** A key that is revoked and evicted while a request has looked it up but not yet
    cached it: the entry is stored after the eviction, and a later request is
    admitted with the revoked key until the entry expires. *)
Lemma late_put_survives_eviction :
  let s := run_auth (all_of 0 3 ++ [EAdmin (TRevokeKey (100 * Second) 1); EEvictKey 1] ++ all_of 0 3 ++ [ETick Second] ++ all_of 1 3) two_requests in
  match s with Some s => (LookupTenantAPIKey "PREFIX" (au_db s), admitted_key 1 s) | None => (Err (Sentinel NetError), None) end = (Err (Sentinel ErrNotFound), Some 1).
Proof. vm_compute. reflexivity. Qed.

Definition two_replicas : Bus (S := unit) (B := unit) :=
  let cached := PutTenantAuth (mkTenantAPIKey 1 1 "k" "PREFIX" Second None None) [1; 2] (set_tenant_id 1 Second (a_tenant "a" (Some 1))) zeroScope Second (NewAuthCache DefaultAuthCacheTTL) in
  let s := mkInvServer cached None None ∅ 0 [] 0 0 0 in
  mkBus {[0%nat := (s, true); 1%nat := (s, true); 2%nat := (s, false)]} false.

Lemma two_replicas_ok : forall j s c, bus_replicas two_replicas !! j = Some (s, c) -> replica_ok (fun _ => "PREFIX") (fun _ => "") s.
Proof.
  intros j s c H. assert (Hs : is_auth s = foldl cache_step (NewAuthCache DefaultAuthCacheTTL) [CPut (mkTenantAPIKey 1 1 "k" "PREFIX" Second None None) [1; 2] (set_tenant_id 1 Second (a_tenant "a" (Some 1))) zeroScope Second]).
  { unfold two_replicas in H. cbn [bus_replicas] in H. rewrite !lookup_insert_Some, lookup_singleton_Some in H.
    destruct H as [[_ [= <- _]]|[_ [[_ [= <- _]]|[_ [_ [= <- _]]]]]]; reflexivity. }
  eexists _, _. split; [|exact Hs]. repeat constructor.
Qed.

Lemma announced_writes_are_evicted_witness :
  exists s, bus_replicas (notifyInvalidation 0 InvalidationKindAPIKey 1 two_replicas) !! 1%nat = Some (s, true) /\ evicted InvalidationKindAPIKey 1 s.
Proof.
  destruct (bus_replicas (notifyInvalidation 0 InvalidationKindAPIKey 1 two_replicas) !! 1%nat) as [[s [|]]|] eqn:E; [|vm_compute in E; congruence..].
  destruct (announced_writes_are_evicted (fun _ => "PREFIX") (fun _ => "") two_replicas 0 InvalidationKindAPIKey 1 ltac:(set_solver) ltac:(lia) ltac:(split; vm_compute; congruence) two_replicas_ok) as (_ & H & _).
  exists s. split; [reflexivity|]. exact (H 1%nat s eq_refl E).
Defined.

(** ** The cache of statistics *)

Inductive stats_op : Type := SPut (tenant : Z) (fp : string) (now : Z) | SInvalidate (tenant : Z) | SScope (fp : string) | SClear.
Definition stats_step (c : StatsCache unit) (op : stats_op) : StatsCache unit :=
  match op with
  | SPut t fp now => PutForTenant t fp tt now c
  | SInvalidate t => StatsCache_InvalidateTenant t c
  | SScope fp => InvalidateScope fp c
  | SClear => StatsCache_Clear c
  end.

Lemma make_room_bounded fp (c : StatsCache unit) : dom (sc_entries c) ⊆ list_to_set (sc_scopedKeys c) -> (length (sc_scopedKeys c) <= maxStatsCacheEntries)%nat ->
  dom (<[fp := (tt, 0)]> (sc_entries (make_room fp c))) ⊆ (list_to_set (sc_scopedKeys (make_room fp c)) : gset string) /\ (length (sc_scopedKeys (make_room fp c)) <= maxStatsCacheEntries)%nat.
Proof.
  intros Hd Hl. rewrite dom_insert_L. unfold make_room. destruct (sc_entries c !! fp) as [e|] eqn:E.
  { split; [|done]. assert (fp ∈ dom (sc_entries c)) by (by apply elem_of_dom; rewrite E). set_solver. }
  destruct (sc_scopedKeys c) as [|k keys] eqn:Ek; cbn [app].
  - cbn. split; [|unfold maxStatsCacheEntries; lia]. set_solver.
  - cbn [length] in *. rewrite length_app. cbn [length]. destruct (Nat.ltb_spec maxStatsCacheEntries (S (length keys + 1))); cbn [sc_entries sc_scopedKeys].
    + split; [|rewrite length_app; cbn; lia]. rewrite dom_delete_L, list_to_set_app_L. cbn [list_to_set] in *. set_solver.
    + split; [|cbn [length]; rewrite length_app; cbn; lia]. cbn [list_to_set] in *. rewrite list_to_set_app_L. set_solver.
Qed.

Lemma set_size_le (l : list string) : (size (list_to_set l : gset string) <= length l)%nat.
Proof.
  induction l as [|x l IH]; [done|]. cbn [list_to_set length]. rewrite size_union_alt, size_singleton.
  assert (H : (size ((list_to_set l : gset string) ∖ {[x]}) <= size (list_to_set l : gset string))%nat) by (apply subseteq_size; set_solver). lia.
Qed.

(** The entries never exceed their maximum. *)
Lemma stats_cache_bounded ttl ops : (size (sc_entries (foldl stats_step (newStatsCache ttl) ops)) <= maxStatsCacheEntries)%nat.
Proof.
  assert (Hinv : forall c : StatsCache unit, dom (sc_entries c) ⊆ (list_to_set (sc_scopedKeys c) : gset string) /\ (length (sc_scopedKeys c) <= maxStatsCacheEntries)%nat -> (size (sc_entries c) <= maxStatsCacheEntries)%nat).
  { intros c [Hd Hl]. rewrite <- (size_dom (D := gset string)). apply subseteq_size in Hd. pose proof (set_size_le (sc_scopedKeys c)). lia. }
  apply Hinv. clear Hinv. assert (H0 : dom (sc_entries (newStatsCache (S := unit) ttl)) ⊆ (list_to_set (sc_scopedKeys (newStatsCache (S := unit) ttl)) : gset string) /\ (length (sc_scopedKeys (newStatsCache (S := unit) ttl)) <= maxStatsCacheEntries)%nat).
  { cbn. split; [set_solver|lia]. }
  revert H0. generalize (newStatsCache (S := unit) ttl). induction ops as [|op ops IH]; intros c [Hd Hl]; [done|]. cbn [foldl]. apply IH. destruct op; cbn.
  - unfold PutForTenant. destruct (sc_ttl c <=? 0); [done|]. cbv zeta. cbn [sc_entries sc_scopedKeys]. pose proof (make_room_bounded fp c Hd Hl) as H. rewrite dom_insert_L in *. done.
  - unfold StatsCache_InvalidateTenant. destruct (tenant <=? 0); [done|]. destruct (sc_byTenant c !! tenant); [|done]. cbn. split; [|done]. etransitivity; [apply dom_filter_subseteq|done].
  - split; [|done]. rewrite dom_delete_L. set_solver.
  - split; [set_solver|lia].
Qed.

(** The index by tenant keeps what the queue dropped: it grows with the scopes a
    tenant had, past the maximum of the entries. *)
Lemma stats_index_grows :
  let c := foldl stats_step (newStatsCache Second) ((fun i => SPut 1 (FormatInt (Z.of_nat i)) 0) <$> seq 0 70) in
  (size (sc_entries c), size <$> sc_byTenant c !! 1) = (64%nat, Some 70%nat).
Proof. vm_compute. reflexivity. Qed.
