(* ===== verification/FieldEncryption.v ===== *)
(** * Field encryption (internal/store/encryption.go)

    The versioned keyring and the envelopes of encrypted columns:
    "enc:<version>:<base64url(nonce, ciphertext, tag)>", over an executable
    AES-256-GCM. The nonce is an argument: the answer of the random source. *)

From S2P Require Import Prelude GoStrings Codec StoreErrors.
From Stdlib Require Import Ascii String.
Local Open Scope Z_scope.
Local Open Scope go_scope.

Local Notation length := List.length.

(** ** AES-256 (crypto/aes)

    Bytes are integers, a block is a list of 16 bytes in column order. *)

Definition sbox_table : list Z := [
   99; 124; 119; 123; 242; 107; 111; 197; 48; 1; 103; 43; 254; 215; 171; 118;
   202; 130; 201; 125; 250; 89; 71; 240; 173; 212; 162; 175; 156; 164; 114; 192;
   183; 253; 147; 38; 54; 63; 247; 204; 52; 165; 229; 241; 113; 216; 49; 21;
   4; 199; 35; 195; 24; 150; 5; 154; 7; 18; 128; 226; 235; 39; 178; 117;
   9; 131; 44; 26; 27; 110; 90; 160; 82; 59; 214; 179; 41; 227; 47; 132;
   83; 209; 0; 237; 32; 252; 177; 91; 106; 203; 190; 57; 74; 76; 88; 207;
   208; 239; 170; 251; 67; 77; 51; 133; 69; 249; 2; 127; 80; 60; 159; 168;
   81; 163; 64; 143; 146; 157; 56; 245; 188; 182; 218; 33; 16; 255; 243; 210;
   205; 12; 19; 236; 95; 151; 68; 23; 196; 167; 126; 61; 100; 93; 25; 115;
   96; 129; 79; 220; 34; 42; 144; 136; 70; 238; 184; 20; 222; 94; 11; 219;
   224; 50; 58; 10; 73; 6; 36; 92; 194; 211; 172; 98; 145; 149; 228; 121;
   231; 200; 55; 109; 141; 213; 78; 169; 108; 86; 244; 234; 101; 122; 174; 8;
   186; 120; 37; 46; 28; 166; 180; 198; 232; 221; 116; 31; 75; 189; 139; 138;
   112; 62; 181; 102; 72; 3; 246; 14; 97; 53; 87; 185; 134; 193; 29; 158;
   225; 248; 152; 17; 105; 217; 142; 148; 155; 30; 135; 233; 206; 85; 40; 223;
   140; 161; 137; 13; 191; 230; 66; 104; 65; 153; 45; 15; 176; 84; 187; 22].
Definition sbox (b : Z) : Z := nth (Z.to_nat b) sbox_table 0.

Definition xtime (b : Z) : Z := Z.lxor (Z.land (Z.shiftl b 1) 255) (if 128 <=? b then 27 else 0).

Definition xor_bytes : list Z -> list Z -> list Z := zip_with Z.lxor.

(** The expanded key, a list of words with the last one first. *)
Definition next_word (i : nat) (rwords : list (list Z)) : list Z :=
  let prev := nth 0 rwords [] in
  let temp :=
    if (i mod 8 =? 0)%nat then
      match sbox <$> (drop 1 prev ++ take 1 prev)%list with
      | b :: l => Z.lxor b (Z.shiftl 1 (Z.of_nat (i / 8) - 1)) :: l
      | [] => []
      end
    else if (i mod 8 =? 4)%nat then sbox <$> prev
    else prev in
  xor_bytes (nth 7 rwords []) temp.
Fixpoint expand (n i : nat) (rwords : list (list Z)) : list (list Z) :=
  match n with O => rwords | S n => expand n (S i) (next_word i rwords :: rwords) end.
Definition key_schedule (key : list Z) : list Z := mjoin (rev (expand 52 8 (rev (chunks 4 key)))).

Definition add_round_key (schedule : list Z) (round : nat) (st : list Z) : list Z :=
  (fun j => Z.lxor (nth j st 0) (nth (16 * round + j) schedule 0)) <$> seq 0 16.
Definition shift_rows (st : list Z) : list Z := (fun j => nth j st 0) <$> [0; 5; 10; 15; 4; 9; 14; 3; 8; 13; 2; 7; 12; 1; 6; 11]%nat.
Definition mix_column (c : list Z) : list Z :=
  match c with
  | [a; b; c; d] =>
      [Z.lxor (xtime a) (Z.lxor (Z.lxor (xtime b) b) (Z.lxor c d)); Z.lxor a (Z.lxor (xtime b) (Z.lxor (Z.lxor (xtime c) c) d));
       Z.lxor a (Z.lxor b (Z.lxor (xtime c) (Z.lxor (xtime d) d))); Z.lxor (Z.lxor (xtime a) a) (Z.lxor b (Z.lxor c (xtime d)))]
  | _ => []
  end.
Definition mix_columns (st : list Z) : list Z := mjoin (mix_column <$> chunks 4 st).
Definition aes_round (schedule : list Z) (st : list Z) (round : nat) : list Z :=
  add_round_key schedule round (mix_columns (shift_rows (sbox <$> st))).
Definition aes_block (schedule : list Z) (block : list Z) : list Z :=
  add_round_key schedule 14 (shift_rows (sbox <$> fold_left (aes_round schedule) (seq 1 13) (add_round_key schedule 0 block))).

(** ** GCM with 96-bit nonces (crypto/cipher) *)

Definition be_int (l : list Z) : Z := fold_left (fun acc b => acc * 256 + b) l 0.

(** Multiplication in GF(2^128), bit by bit from the first bit of [x]. *)
Fixpoint gf_mul_bits (n : nat) (x v z : Z) : Z :=
  match n with
  | O => z
  | S n =>
      let z := if Z.testbit x (Z.of_nat n) then Z.lxor z v else z in
      gf_mul_bits n x (if Z.testbit v 0 then Z.lxor (Z.shiftr v 1) (Z.shiftl 225 120) else Z.shiftr v 1) z
  end.
Definition gf_mul (x y : Z) : Z := gf_mul_bits 128 x y 0.

Definition pad16 (l : list Z) : list Z := (l ++ replicate (Z.to_nat ((- Z.of_nat (length l)) `mod` 16)) 0)%list.
Definition ghash (h : Z) (l : list Z) : Z := fold_left (fun y block => gf_mul (Z.lxor y (be_int block)) h) (chunks 16 l) 0.

Definition NonceSize : nat := 12.
Definition Overhead : nat := 16.

Definition gcm_counter (schedule nonce : list Z) (i : Z) : list Z := aes_block schedule (nonce ++ be_bytes 4 (u32 i))%list.
Definition keystream (schedule nonce : list Z) (n : nat) : list Z :=
  mjoin ((fun i => gcm_counter schedule nonce (2 + Z.of_nat i)) <$> seq 0 (S (n / 16))).
Definition gctr (schedule nonce l : list Z) : list Z := xor_bytes l (keystream schedule nonce (length l)).

Definition gcm_tag (schedule nonce ciphertext aad : list Z) : list Z :=
  let h := be_int (aes_block schedule (replicate 16 0)) in
  let s := ghash h (pad16 aad ++ pad16 ciphertext ++ be_bytes 8 (8 * Z.of_nat (length aad)) ++ be_bytes 8 (8 * Z.of_nat (length ciphertext)))%list in
  be_bytes 16 (Z.lxor s (be_int (gcm_counter schedule nonce 1))).

(** What Seal appends to its destination, and Open. *)
Definition gcm_Seal (key nonce plaintext aad : list Z) : list Z :=
  let schedule := key_schedule key in
  let ciphertext := gctr schedule nonce plaintext in
  (ciphertext ++ gcm_tag schedule nonce ciphertext aad)%list.
Definition gcm_Open (key nonce sealed aad : list Z) : option (list Z) :=
  if (length sealed <? Overhead)%nat then None
  else
    let schedule := key_schedule key in
    let ciphertext := take (length sealed - Overhead) sealed in
    if bool_decide (drop (length sealed - Overhead) sealed = gcm_tag schedule nonce ciphertext aad) then Some (gctr schedule nonce ciphertext) else None.

(** FIPS 197, appendix C.3, and test cases 14 and 16 of the GCM specification. *)
Example aes256_fips197 :
  be_int (aes_block (key_schedule (Z.of_nat <$> seq 0 32)) (be_bytes 16 0x00112233445566778899aabbccddeeff)) = 0x8ea2b7ca516745bfeafc49904b496089.
Proof. vm_compute. reflexivity. Qed.
Example gcm_test14 :
  be_int (gcm_Seal (replicate 32 0) (replicate 12 0) (replicate 16 0) []) = 0xcea7403d4d606b6e074ec5d3baf39d18d0d1c8a799996bf0265b98b5d48ab919.
Proof. vm_compute. reflexivity. Qed.
Example gcm_test16 :
  be_int (drop 60 (gcm_Seal (be_bytes 32 0xfeffe9928665731c6d6a8f9467308308feffe9928665731c6d6a8f9467308308) (be_bytes 12 0xcafebabefacedbaddecaf888)
    (be_bytes 60 0xd9313225f88406e5a55909c5aff5269a86a7a9531534f7da2e4c303d8a318a721c3c0c95956809532fcf0e2449a6b525b16aedf5aa0de657ba637b39)
    (be_bytes 20 0xfeedfacedeadbeeffeedfacedeadbeefabaddad2))) = 0x76fc6ece0f4e1768cddf8853bb2d551b.
Proof. vm_compute. reflexivity. Qed.

(** ** Keys *)

Definition hex_val (c : ascii) : option Z :=
  let z := byte_val c in
  if in_range 48 57 z then Some (z - 48) else if in_range 97 102 z then Some (z - 87) else if in_range 65 70 z then Some (z - 55) else None.

(** hex.DecodeString *)
Fixpoint hex_decode (s : string) : option (list Z) :=
  match s with
  | EmptyString => Some []
  | String a (String b s) =>
      match hex_val a, hex_val b, hex_decode s with Some x, Some y, Some l => Some (16 * x + y :: l) | _, _, _ => None end
  | String _ EmptyString => None
  end.

(** The four alphabets of encoding/base64 the key decoder tries. The standard
    alphabet is read as the URL alphabet with its last two symbols renamed; a
    padded text is a multiple of four symbols long, the last of which are at most
    two padding characters. *)
Inductive b64_alphabet : Type := StdAlphabet | URLAlphabet.

Fixpoint to_url_alphabet (s : string) : option string :=
  match s with
  | EmptyString => Some EmptyString
  | String c s =>
      let z := byte_val c in
      if (z =? 45) || (z =? 95) then None
      else match to_url_alphabet s with
           | None => None
           | Some s => Some (String (if z =? 43 then "-"%char else if z =? 47 then "_"%char else c) s)
           end
  end.

Definition unpad (s : string) : option string :=
  if (String.length s mod 4 =? 0)%nat then
    match str_rev s with
    | String "=" (String "=" r) => Some (str_rev r)
    | String "=" r => Some (str_rev r)
    | _ => Some s
    end
  else None.

Definition base64_decode (alphabet : b64_alphabet) (padded : bool) (s : string) : option (list Z) :=
  let s := b64_strip_crlf s in
  s ← (if padded then unpad s else Some s);
  s ← (match alphabet with StdAlphabet => to_url_alphabet s | URLAlphabet => Some s end);
  str_bytes <$> b64_groups s.

Definition encryptedValuePrefix : string := "enc:".
Definition defaultKeyVersion : string := "v1".
Definition aes256KeyBytes : Z := 32.

Definition text_error (msg : string) : error := Sentinel (ForeignErr msg).

(** The first encoding that accepts the text decides. *)
Fixpoint first_encoding (encodings : list (b64_alphabet * bool)) (encoded : string) : result error (list Z) :=
  match encodings with
  | [] => Err (text_error "key must be a 32-byte value encoded as base64 or 64-char hex")
  | (alphabet, padded) :: rest =>
      match base64_decode alphabet padded encoded with
      | Some decoded =>
          if Z.of_nat (length decoded) =? aes256KeyBytes then Ok decoded
          else Err (text_error "decoded key length is %d bytes (want %d bytes for AES-256)")
      | None => first_encoding rest encoded
      end
  end.

Definition decodeAES256Key (encoded : string) : result error (list Z) :=
  if bool_decide (encoded = "") then Err (text_error "key material is empty")
  else
    match (if str_len encoded =? aes256KeyBytes * 2 then hex_decode encoded else None) with
    | Some decoded => if Z.of_nat (length decoded) =? aes256KeyBytes then Ok decoded
                      else first_encoding [(StdAlphabet, true); (StdAlphabet, false); (URLAlphabet, true); (URLAlphabet, false)] encoded
    | None => first_encoding [(StdAlphabet, true); (StdAlphabet, false); (URLAlphabet, true); (URLAlphabet, false)] encoded
    end.

(** ^[a-zA-Z0-9][a-zA-Z0-9_-]{0,31}$ *)
Definition version_head (c : ascii) : bool :=
  let z := byte_val c in in_range 97 122 z || in_range 65 90 z || in_range 48 57 z.
Definition version_char (c : ascii) : bool := version_head c || (byte_val c =? 95) || (byte_val c =? 45).
Definition valid_version (s : string) : bool :=
  match s with EmptyString => false | String c rest => version_head c && str_all version_char rest && (String.length rest <=? 31)%nat end.

(** ** The keyring *)

(** An AEAD is the key it was made of: the constructors of crypto/aes and
    crypto/cipher accept every 32-byte key. *)
Record FieldEncryptor : Type := mkEncryptor {
  fe_activeVersion : string;
  fe_versions : list string;
  fe_aeads : gmap string (list Z);
  fe_allowPlaintextFallback : bool }.

Definition config_error (fmt : string) : error := Errorf fmt [Sentinel ErrInvalidEncryptionKeyConfig].

(** One turn of the loop over the entries; [several] when there is more than one. *)
Definition parse_entry (several : bool) (rawEntry : string) (e : FieldEncryptor) : result error FieldEncryptor :=
  let entry := TrimSpace rawEntry in
  if bool_decide (entry = "") then Err (config_error "%w: empty key entry at position %d")
  else
    let? p := (match cut_first ":" entry with
               | Some (v, k) => Ok (TrimSpace v, TrimSpace k)
               | None => if several then Err (config_error "%w: multi-key entry at position %d must specify <version>:<key>") else Ok (defaultKeyVersion, entry)
               end) in
    let '(version, encodedKey) := p in
    if negb (valid_version version) then Err (config_error "%w: invalid key version identifier at position %d (want 1..32 alphanumeric/hyphen/underscore chars)")
    else match fe_aeads e !! version with
         | Some _ => Err (config_error "%w: duplicate key version %q")
         | None =>
             match decodeAES256Key encodedKey with
             | Err _ => Err (config_error "%w: key version %q: %v")
             | Ok keyBytes =>
                 Ok (mkEncryptor (if bool_decide (fe_activeVersion e = "") then version else fe_activeVersion e) (fe_versions e ++ [version])%list
                       (<[version := keyBytes]> (fe_aeads e)) (fe_allowPlaintextFallback e))
             end
         end.
Fixpoint parse_entries (several : bool) (entries : list string) (e : FieldEncryptor) : result error FieldEncryptor :=
  match entries with
  | [] => Ok e
  | entry :: rest => let? e := parse_entry several entry e in parse_entries several rest e
  end.

Definition ParseFieldEncryptor (spec : string) : result error FieldEncryptor :=
  let spec := TrimSpace spec in
  if bool_decide (spec = "") then Err (config_error "%w: empty keyring specification")
  else
    let entries := str_split "," spec in
    parse_entries (1 <? length entries)%nat entries (mkEncryptor "" [] ∅ true).

Definition ActiveVersion (e : option FieldEncryptor) : string := match e with None => "" | Some e => fe_activeVersion e end.
Definition KeyVersions (e : option FieldEncryptor) : list string := match e with None => [] | Some e => fe_versions e end.
Definition SetAllowPlaintextFallback (allow : bool) (e : option FieldEncryptor) : option FieldEncryptor :=
  (fun e => mkEncryptor (fe_activeVersion e) (fe_versions e) (fe_aeads e) allow) <$> e.

(** ** Envelopes *)

(** The version and the payload of "enc:<version>:<payload>"; None when the
    prefix is there and the rest is not an envelope, or it is not. *)
Definition envelope_parts (stored : string) : option (string * string) :=
  rest ← strip_prefix encryptedValuePrefix stored;
  '(ver, payload) ← cut_first ":" rest;
  if (valid_version ver && negb (bool_decide (payload = "")))%bool then Some (ver, payload) else None.

Definition IsEncryptedValue (stored : string) : bool := match envelope_parts stored with Some _ => true | None => false end.
Definition EncryptedValueVersion (stored : string) : option string := fst <$> envelope_parts stored.

Definition fieldAAD (version : string) : list Z := str_bytes ("sorotrail:field:" +++ version).

(** [nonce] is what the random source answers when it is asked for NonceSize bytes. *)
Definition EncryptString (e : option FieldEncryptor) (nonce : result error (list Z)) (plaintext : string) : result error string :=
  match e with
  | None => Ok plaintext
  | Some e =>
      if bool_decide (plaintext = "") then Ok plaintext
      else match fe_aeads e !! fe_activeVersion e with
           | None => Err (config_error "%w: active key version %q not initialized")
           | Some aead =>
               match nonce with
               | Err err => Err (Errorf "generating random nonce for field encryption: %w" [err])
               | Ok nonce =>
                   let sealed := (nonce ++ gcm_Seal aead nonce (str_bytes plaintext) (fieldAAD (fe_activeVersion e)))%list in
                   Ok (encryptedValuePrefix +++ fe_activeVersion e +++ ":" +++ b64_encode (bytes_str sealed))
               end
           end
  end.

Definition auth_error (fmt : string) : error := Errorf fmt [Sentinel ErrEncryptionAuthFailed].

Definition DecryptString (e : option FieldEncryptor) (stored : string) : result error string :=
  if bool_decide (stored = "") then Ok ""
  else match strip_prefix encryptedValuePrefix stored with
       | Some _ =>
           match envelope_parts stored with
           | None => Err (auth_error "%w: malformed encrypted column envelope")
           | Some (version, encodedPayload) =>
               match e with
               | None => Err (Errorf "%w: row requires key version %q" [Sentinel ErrEncryptionKeyRequired])
               | Some e =>
                   match fe_aeads e !! version with
                   | None => Err (Errorf "%w: row requires key version %q" [Sentinel ErrUnknownEncryptionKeyVersion])
                   | Some aead =>
                       match b64_decode encodedPayload with
                       | None => Err (auth_error "%w: key version %q invalid base64 payload")
                       | Some raw =>
                           let raw := str_bytes raw in
                           if (length raw <? NonceSize + Overhead)%nat then Err (auth_error "%w: key version %q truncated ciphertext")
                           else match gcm_Open aead (take NonceSize raw) (drop NonceSize raw) (fieldAAD version) with
                                | None => Err (auth_error "%w: key version %q authentication tag mismatch")
                                | Some plaintext => Ok (bytes_str plaintext)
                                end
                       end
                   end
               end
           end
       | None =>
           match e with
           | Some e => if fe_allowPlaintextFallback e then Ok stored else Err (Sentinel ErrPlaintextNotAllowed)
           | None => Ok stored
           end
       end.

Definition NeedsRotation (e : option FieldEncryptor) (stored : string) : bool :=
  match e with
  | None => false
  | Some e =>
      if bool_decide (stored = "") then false
      else match EncryptedValueVersion stored with None => true | Some ver => negb (bool_decide (ver = fe_activeVersion e)) end
  end.

Definition encryptSubscriptionSecret (e : option FieldEncryptor) (nonce : result error (list Z)) (secret : string) : result error string :=
  match e with None => Ok secret | Some e => EncryptString (Some e) nonce secret end.
Definition decryptSubscriptionSecret (e : option FieldEncryptor) (stored : string) : result error string := DecryptString e stored.

(** ** Bytes *)

Definition byte_ok (z : Z) : Prop := 0 <= z < 256.

Lemma lxor_byte a b : byte_ok a -> byte_ok b -> byte_ok (Z.lxor a b).
Proof.
  unfold byte_ok. intros Ha Hb. split; [apply Z.lxor_nonneg; lia|].
  destruct (Z.eq_dec (Z.lxor a b) 0) as [->|Hne]; [lia|].
  assert (0 <= Z.lxor a b) by (apply Z.lxor_nonneg; lia).
  apply Z.log2_lt_cancel. eapply Z.le_lt_trans; [apply Z.log2_lxor; lia|].
  change (Z.log2 256) with 8. apply Z.max_lub_lt.
  all: match goal with |- Z.log2 ?x < 8 => destruct (Z.eq_dec x 0) as [->|]; [done|apply Z.log2_lt_pow2; lia] end.
Qed.

Lemma xor_bytes_ok l k : Forall byte_ok l -> Forall byte_ok k -> Forall byte_ok (xor_bytes l k).
Proof.
  unfold xor_bytes. intros Hl. revert k. induction Hl as [|a l Ha Hl IH]; intros [|b k] Hk; cbn; [constructor..|].
  inversion Hk; subst. constructor; [by apply lxor_byte|by apply IH].
Qed.

Lemma str_bytes_ok s : Forall byte_ok (str_bytes s).
Proof. unfold str_bytes. apply Forall_fmap, Forall_forall. intros c _. apply byte_val_range. Qed.

Lemma bytes_str_bytes s : bytes_str (str_bytes s) = s.
Proof. unfold bytes_str, str_bytes. induction s as [|c s IH]; cbn; [done|]. rewrite byte_of_val. by f_equal. Qed.

Lemma str_bytes_str l : Forall byte_ok l -> str_bytes (bytes_str l) = l.
Proof. unfold bytes_str, str_bytes. induction 1 as [|z l Hz Hl IH]; cbn; [done|]. rewrite byte_val_of by done. by f_equal. Qed.

Lemma be_bytes_ok n x : Forall byte_ok (be_bytes n x).
Proof. unfold be_bytes. apply Forall_fmap, Forall_forall. intros i _. cbn. unfold byte_ok. apply Z.mod_pos_bound. lia. Qed.

Lemma length_be_bytes n x : length (be_bytes n x) = n.
Proof. unfold be_bytes. rewrite length_fmap, length_rev. apply length_seq. Qed.

Lemma nth_byte l i : Forall byte_ok l -> byte_ok (nth i l 0).
Proof. intros H. revert i. induction H as [|z l Hz Hl IH]; intros [|i]; cbn; try done; apply IH. Qed.

(** ** The cipher keeps bytes and lengths *)

Lemma sbox_ok b : byte_ok (sbox b).
Proof.
  unfold sbox. apply nth_byte, List.Forall_forall. intros z Hz.
  assert (H : forallb (fun z => (0 <=? z) && (z <? 256)) sbox_table = true) by (vm_compute; reflexivity).
  rewrite forallb_forall in H. apply H in Hz. unfold byte_ok. lia.
Qed.

Lemma sbox_list_ok l : Forall byte_ok (sbox <$> l).
Proof. apply Forall_fmap, Forall_forall. intros z _. apply sbox_ok. Qed.

Lemma nth_word_ok (l : list (list Z)) i : Forall (Forall byte_ok) l -> Forall byte_ok (nth i l []).
Proof. intros H. revert i. induction H as [|z l Hz Hl IH]; intros [|i]; cbn; try done; apply IH. Qed.

Lemma next_word_ok i rwords : (i < 60)%nat -> Forall (Forall byte_ok) rwords -> Forall byte_ok (next_word i rwords).
Proof.
  intros Hi H. unfold next_word. apply xor_bytes_ok; [by apply nth_word_ok|]. destruct (i mod 8 =? 0)%nat.
  - pose proof (sbox_list_ok (drop 1 (nth 0 rwords []) ++ take 1 (nth 0 rwords []))%list) as Hs.
    destruct (sbox <$> _) as [|b l]; [constructor|]. inversion Hs; subst. constructor; [|done]. apply lxor_byte; [done|].
    assert (Hq : (i / 8 < 8)%nat) by (apply Nat.Div0.div_lt_upper_bound; lia).
    destruct (i / 8)%nat as [|[|[|[|[|[|[|[|n]]]]]]]] eqn:E; [..|lia]; vm_compute; split; congruence.
  - destruct (i mod 8 =? 4)%nat; [apply sbox_list_ok|by apply nth_word_ok].
Qed.

Lemma expand_ok n : forall i rwords, (i + n <= 60)%nat -> Forall (Forall byte_ok) rwords -> Forall (Forall byte_ok) (expand n i rwords).
Proof. induction n as [|n IH]; intros i rwords Hi H; cbn; [done|]. apply IH; [lia|]. constructor; [apply next_word_ok; [lia|done]|done]. Qed.

Lemma chunks_Forall {A} (P : A -> Prop) n : forall fuel l, Forall P l -> Forall (Forall P) (chunks_fuel fuel n l).
Proof.
  induction fuel as [|f IH]; intros l H; cbn; [constructor|]. destruct l as [|x l]; [constructor|].
  constructor; [by apply Forall_take|]. apply IH. by apply Forall_drop.
Qed.

Lemma key_schedule_ok key : Forall byte_ok key -> Forall byte_ok (key_schedule key).
Proof.
  intros H. unfold key_schedule. apply Forall_join. apply Forall_rev. apply expand_ok; [lia|]. apply Forall_rev. by apply chunks_Forall.
Qed.

Lemma length_aes_block schedule block : length (aes_block schedule block) = 16%nat.
Proof. reflexivity. Qed.

Lemma aes_block_ok schedule block : Forall byte_ok schedule -> Forall byte_ok (aes_block schedule block).
Proof.
  intros H. unfold aes_block, add_round_key. apply Forall_fmap, Forall_forall. intros j _. apply lxor_byte; [|by apply nth_byte].
  apply nth_byte. unfold shift_rows. apply Forall_fmap, Forall_forall. intros i _. apply nth_byte, sbox_list_ok.
Qed.

#[local] Opaque aes_block key_schedule.

Lemma keystream_ok schedule nonce n : Forall byte_ok schedule -> Forall byte_ok (keystream schedule nonce n).
Proof. intros H. unfold keystream. apply Forall_join, Forall_fmap, Forall_forall. intros i _. unfold compose, gcm_counter. by apply aes_block_ok. Qed.

Lemma length_keystream schedule nonce n : (n <= length (keystream schedule nonce n))%nat.
Proof.
  assert (Hj : forall l : list (list Z), Forall (fun c => length c = 16%nat) l -> length (mjoin l) = (16 * length l)%nat).
  { induction 1 as [|c l Hc Hl IH]; cbn [mjoin list_join length]; [done|]. change (length (c ++ mjoin l)%list = (16 * S (length l))%nat). rewrite length_app, Hc, IH. lia. }
  unfold keystream. rewrite Hj; [|apply Forall_fmap, Forall_forall; intros i _; apply length_aes_block]. rewrite length_fmap, length_seq.
  pose proof (Nat.div_mod_eq n 16). pose proof (Nat.mod_upper_bound n 16 ltac:(lia)). lia.
Qed.

Lemma xor_twice l k : (length l <= length k)%nat -> xor_bytes (xor_bytes l k) k = l.
Proof.
  unfold xor_bytes. revert k. induction l as [|a l IH]; intros [|b k] H; cbn in *; [done..|lia|].
  rewrite Z.lxor_assoc, Z.lxor_nilpotent, Z.lxor_0_r. f_equal. apply IH. lia.
Qed.

Lemma length_gctr schedule nonce l : length (gctr schedule nonce l) = length l.
Proof. unfold gctr, xor_bytes. rewrite length_zip_with. pose proof (length_keystream schedule nonce (length l)). lia. Qed.

Lemma gctr_twice schedule nonce l : gctr schedule nonce (gctr schedule nonce l) = l.
Proof. unfold gctr at 1. rewrite length_gctr. unfold gctr. apply xor_twice, length_keystream. Qed.

Lemma length_gcm_tag schedule nonce ct aad : length (gcm_tag schedule nonce ct aad) = Overhead.
Proof. apply length_be_bytes. Qed.

Lemma length_gcm_Seal key nonce p aad : length (gcm_Seal key nonce p aad) = (length p + Overhead)%nat.
Proof. unfold gcm_Seal. cbv zeta. by rewrite length_app, length_gctr, length_gcm_tag. Qed.

Lemma gcm_Open_Seal key nonce p aad : gcm_Open key nonce (gcm_Seal key nonce p aad) aad = Some p.
Proof.
  unfold gcm_Open. rewrite length_gcm_Seal. destruct (Nat.ltb_spec (length p + Overhead) Overhead); [lia|]. cbv zeta.
  rewrite Nat.add_sub. unfold gcm_Seal. cbv zeta.
  rewrite take_app_length', drop_app_length' by (symmetry; apply length_gctr). rewrite bool_decide_true by done. by rewrite gctr_twice.
Qed.

Lemma gcm_Seal_ok key nonce p aad : Forall byte_ok key -> Forall byte_ok p -> Forall byte_ok (gcm_Seal key nonce p aad).
Proof.
  intros Hk Hp. unfold gcm_Seal. cbv zeta. apply Forall_app. split; [|apply be_bytes_ok].
  apply xor_bytes_ok; [done|]. by apply keystream_ok, key_schedule_ok.
Qed.

(** ** Parsed keyrings *)

Lemma hex_val_range c v : hex_val c = Some v -> 0 <= v < 16.
Proof. unfold hex_val, in_range. intros H. repeat split_if; simplify_eq; to_prop; lia. Qed.

Lemma hex_decode_ok : forall n s l, (String.length s <= n)%nat -> hex_decode s = Some l -> Forall byte_ok l.
Proof.
  induction n as [|n IH]; intros [|a [|b s]] l Hn H; cbn in *; simplify_eq; try lia; [constructor..|].
  destruct (hex_val a) eqn:Ea, (hex_val b) eqn:Eb; try done. destruct (hex_decode s) eqn:Es; [|done]. simplify_eq.
  apply hex_val_range in Ea, Eb. constructor; [unfold byte_ok; lia|]. eapply IH; [|done]. lia.
Qed.

Lemma base64_decode_ok alphabet padded s l : base64_decode alphabet padded s = Some l -> Forall byte_ok l.
Proof.
  unfold base64_decode. intros H. apply bind_Some in H as (s1 & _ & H). apply bind_Some in H as (s2 & _ & H).
  apply fmap_Some in H as (r & _ & ->). apply str_bytes_ok.
Qed.

Lemma first_encoding_ok encodings s l : first_encoding encodings s = Ok l -> Forall byte_ok l.
Proof.
  induction encodings as [|[alphabet padded] rest IH]; cbn; [done|]. destruct (base64_decode alphabet padded s) eqn:E; [|done].
  intros H. split_if; simplify_eq. by eapply base64_decode_ok.
Qed.

Lemma decodeAES256Key_ok s l : decodeAES256Key s = Ok l -> Forall byte_ok l.
Proof.
  unfold decodeAES256Key. case_bool_decide; [done|]. destruct (if _ =? _ then _ else _) eqn:E; [|apply first_encoding_ok].
  split_if; [|apply first_encoding_ok]. intros [= <-]. destruct (str_len s =? _); [|done]. by eapply hex_decode_ok.
Qed.

(** The versions are the keys of the map, in the order of the text, and the
    active one is the first. *)
Record keyring_ok (e : FieldEncryptor) : Prop := {
  kr_versions : NoDup (fe_versions e) /\ dom (fe_aeads e) = list_to_set (fe_versions e);
  kr_active : fe_activeVersion e = default "" (head (fe_versions e));
  kr_valid : Forall (fun v => valid_version v = true) (fe_versions e);
  kr_keys : map_Forall (fun _ k => Forall byte_ok k) (fe_aeads e) }.

Lemma valid_version_nonempty v : valid_version v = true -> v <> "".
Proof. by destruct v. Qed.

Lemma parse_entry_ok several raw e e' : parse_entry several raw e = Ok e' -> keyring_ok e -> keyring_ok e' /\ fe_versions e' <> [].
Proof.
  unfold parse_entry. cbv zeta. case_bool_decide; [done|].
  destruct (match cut_first ":" _ with Some _ => _ | None => _ end) as [[version key]|err]; [|done]. cbn [rbind].
  destruct (valid_version version) eqn:Ev; [|done]. cbn [negb]. destruct (fe_aeads e !! version) eqn:El; [done|].
  destruct (decodeAES256Key key) as [k|] eqn:Ek; [|done]. intros [= <-] [[Hnd Hdom] Hact Hval Hkeys]. split; [|by destruct (fe_versions e)].
  assert (Hnew : version ∉ fe_versions e).
  { intros Hin. apply not_elem_of_dom in El. apply El. rewrite Hdom. by apply elem_of_list_to_set. }
  constructor; cbn.
  - split; [apply list.NoDup_app; split_and!; [done|set_solver|apply NoDup_singleton]|]. rewrite dom_insert_L, Hdom, list_to_set_app_L. cbn. set_solver.
  - destruct (fe_versions e) as [|v vs] eqn:Evs; cbn in *; [by rewrite Hact, bool_decide_true|].
    apply Forall_cons_1 in Hval as [Hv _]. rewrite bool_decide_false; [done|]. rewrite Hact. by apply valid_version_nonempty.
  - apply Forall_app. split; [done|]. by constructor.
  - apply map_Forall_insert_2; [by eapply decodeAES256Key_ok|done].
Qed.

Lemma parse_entries_ok several : forall entries e e', parse_entries several entries e = Ok e' -> keyring_ok e -> (entries <> [] \/ fe_versions e <> []) ->
  keyring_ok e' /\ fe_versions e' <> [].
Proof.
  induction entries as [|raw rest IH]; intros e e' H He Hne; cbn in H; [simplify_eq; split; [done|naive_solver]|].
  destruct (parse_entry several raw e) as [e1|] eqn:E; [|done]. cbn in H. apply parse_entry_ok in E as [H1 H2]; [|done]. eapply IH; naive_solver.
Qed.

Lemma str_split_nonempty sep s : str_split sep s <> [].
Proof. induction s as [|c s IH]; cbn; [done|]. destruct (Ascii.eqb c sep); [done|]. by destruct (str_split sep s). Qed.

Lemma ParseFieldEncryptor_ok spec e : ParseFieldEncryptor spec = Ok e -> keyring_ok e /\ fe_versions e <> [].
Proof.
  unfold ParseFieldEncryptor. cbv zeta. case_bool_decide; [done|]. intros H'. eapply parse_entries_ok in H'; [done| |left; apply str_split_nonempty].
  constructor; cbn; [split; [constructor|done]|done|constructor|apply map_Forall_empty].
Qed.

Lemma active_key e : keyring_ok e -> fe_versions e <> [] ->
  valid_version (fe_activeVersion e) = true /\ exists k, fe_aeads e !! fe_activeVersion e = Some k /\ Forall byte_ok k.
Proof.
  intros [[Hnd Hdom] Hact Hval Hkeys] Hne. destruct (fe_versions e) as [|v vs] eqn:E; [done|]. cbn in Hact. rewrite Hact. apply Forall_cons_1 in Hval as [Hv _].
  split; [done|]. assert (Hin : v ∈ dom (fe_aeads e)) by (rewrite Hdom; set_solver). apply elem_of_dom in Hin as [k Hk]. exists k. split; [done|]. by eapply Hkeys.
Qed.

(** ** Envelopes *)

Lemma version_no_colon v : valid_version v = true -> str_contains ":" v = false.
Proof.
  assert (Hc : forall c, version_char c = true -> Ascii.eqb c ":" = false).
  { intros c H. destruct (Ascii.eqb_spec c ":") as [->|]; [vm_compute in H; done|done]. }
  destruct v as [|c v]; [done|]. cbn. intros H. to_prop. rewrite Hc by (unfold version_char; rewrite H; done). cbn.
  apply (str_all_contains version_char); [done|]. reflexivity.
Qed.

Lemma envelope_parts_seal ver payload : valid_version ver = true -> payload <> "" -> envelope_parts (encryptedValuePrefix +++ ver +++ ":" +++ payload) = Some (ver, payload).
Proof.
  intros Hv Hp. unfold envelope_parts, encryptedValuePrefix. cbn [strip_prefix append Ascii.eqb Bool.eqb mbind option_bind].
  change (":" +++ payload) with (String ":" payload). rewrite cut_first_app by (by apply version_no_colon). cbn. rewrite Hv, bool_decide_false by done. done.
Qed.

(** The envelope of a plaintext under a key. *)
Definition envelope (version : string) (key nonce : list Z) (p : string) : string :=
  encryptedValuePrefix +++ version +++ ":" +++ b64_encode (bytes_str (nonce ++ gcm_Seal key nonce (str_bytes p) (fieldAAD version))%list).

Lemma bytes_str_nonempty l : l <> [] -> bytes_str l <> "".
Proof. by destruct l. Qed.

Lemma envelope_shape version key nonce p : valid_version version = true -> nonce <> [] -> exists payload,
  envelope_parts (envelope version key nonce p) = Some (version, payload) /\
  b64_decode payload = Some (bytes_str (nonce ++ gcm_Seal key nonce (str_bytes p) (fieldAAD version))%list).
Proof.
  intros Hv Hn. eexists. split; [apply envelope_parts_seal; [done|]|apply b64_decode_encode].
  apply b64_encode_nonempty, bytes_str_nonempty. by destruct nonce.
Qed.

Lemma envelope_parts_facts stored ver payload : envelope_parts stored = Some (ver, payload) ->
  stored <> "" /\ is_Some (strip_prefix encryptedValuePrefix stored) /\ IsEncryptedValue stored = true /\ EncryptedValueVersion stored = Some ver.
Proof.
  intros H. unfold IsEncryptedValue, EncryptedValueVersion. rewrite H. split_and!; [by intros ->| |done|done].
  unfold envelope_parts in H. apply bind_Some in H as (rest & -> & _). done.
Qed.

(** An envelope opens under every keyring that has its key, whatever its active
    version and its fallback. *)
Lemma envelope_opens e version key nonce p : valid_version version = true -> length nonce = NonceSize -> Forall byte_ok nonce -> Forall byte_ok key ->
  fe_aeads e !! version = Some key -> DecryptString (Some e) (envelope version key nonce p) = Ok p.
Proof.
  intros Hv Hn Hb Hk He. destruct (envelope_shape version key nonce p Hv) as (payload & Hparts & Hpay); [by destruct nonce|].
  destruct (envelope_parts_facts _ _ _ Hparts) as (Hne & [rest Hpre] & _). unfold DecryptString. rewrite bool_decide_false, Hpre, Hparts, He, Hpay by done.
  cbv zeta. rewrite str_bytes_str by (apply Forall_app; split; [done|]; apply gcm_Seal_ok; [done|apply str_bytes_ok]).
  rewrite length_app, length_gcm_Seal, Hn. destruct (Nat.ltb_spec (NonceSize + (length (str_bytes p) + Overhead)) (NonceSize + Overhead)); [lia|].
  rewrite take_app_length', drop_app_length' by done. rewrite gcm_Open_Seal. by rewrite bytes_str_bytes.
Qed.

Lemma EncryptString_envelope e nonce p : keyring_ok e -> fe_versions e <> [] -> p <> "" -> exists key,
  fe_aeads e !! fe_activeVersion e = Some key /\ Forall byte_ok key /\ valid_version (fe_activeVersion e) = true /\
  EncryptString (Some e) (Ok nonce) p = Ok (envelope (fe_activeVersion e) key nonce p).
Proof.
  intros He Hne Hp. destruct (active_key e He Hne) as (Hv & k & Hk & Hok). exists k. split_and!; [done..|].
  unfold EncryptString. rewrite bool_decide_false, Hk by done. done.
Qed.

(** C23: a secret written under a keyring is read back by every keyring, of
    any active version, that holds the key it was written with; it is not taken for
    a value to rotate, and it cannot be read without its key: a keyring without that
    version and a store without a keyring refuse it. *)
Theorem secrets_roundtrip (spec : string) (writer reader : FieldEncryptor) (nonce : list Z) (p : string)
    (Hw : ParseFieldEncryptor spec = Ok writer) (Hn : length nonce = NonceSize) (Hb : Forall byte_ok nonce) :
  exists stored, EncryptString (Some writer) (Ok nonce) p = Ok stored /\ NeedsRotation (Some writer) stored = false /\
  (fe_aeads reader !! fe_activeVersion writer = fe_aeads writer !! fe_activeVersion writer ->
     forall allow, DecryptString (SetAllowPlaintextFallback allow (Some reader)) stored = Ok p) /\
  (p <> "" -> IsEncryptedValue stored = true /\
     (fe_aeads reader !! fe_activeVersion writer = None -> exists e, DecryptString (Some reader) stored = Err e /\ errors_Is e ErrUnknownEncryptionKeyVersion = true) /\
     exists e, DecryptString None stored = Err e /\ errors_Is e ErrEncryptionKeyRequired = true).
Proof.
  apply ParseFieldEncryptor_ok in Hw as [Hw Hwne].
  destruct (decide (p = "")) as [->|Hp]; [exists ""; split_and!; done|].
  destruct (EncryptString_envelope writer nonce p Hw Hwne Hp) as (key & Hk & Hok & Hv & He). exists (envelope (fe_activeVersion writer) key nonce p).
  destruct (envelope_shape (fe_activeVersion writer) key nonce p Hv) as (payload & Hparts & _); [by destruct nonce|].
  destruct (envelope_parts_facts _ _ _ Hparts) as (Hne & [rest Hpre] & Henc & Hver).
  split; [done|]. split; [unfold NeedsRotation; rewrite bool_decide_false, Hver, bool_decide_true by done; done|]. split.
  - intros Hsame allow. apply envelope_opens; [done..|]. cbn. by rewrite Hsame.
  - intros _. split; [done|]. unfold DecryptString. rewrite bool_decide_false, Hpre, Hparts by done. split; [|by eexists].
    intros Hnone. rewrite Hnone. by eexists.
Qed.

Definition old_spec : string := "v1:000102030405060708090a0b0c0d0e0f101112131415161718191a1b1c1d1e1f".
Definition new_spec : string := " v2:ICEiIyQlJicoKSorLC0uLzAxMjM0NTY3ODk6Ozw9Pj8= , " +++ old_spec.
Definition a_nonce : list Z := Z.of_nat <$> seq 1 12.

Lemma a_nonce_ok : Forall byte_ok a_nonce.
Proof. repeat constructor; unfold byte_ok; lia. Qed.

Definition keyring (spec : string) : FieldEncryptor := match ParseFieldEncryptor spec with Ok e => e | Err _ => mkEncryptor "" [] ∅ true end.

(** During a rotation: what the old keyring wrote, the new one reads. *)
Lemma secrets_roundtrip_witness :
  exists stored, EncryptString (Some (keyring old_spec)) (Ok a_nonce) "whsec" = Ok stored /\ DecryptString (Some (keyring new_spec)) stored = Ok "whsec" /\
    NeedsRotation (Some (keyring new_spec)) stored = true.
Proof.
  destruct (secrets_roundtrip old_spec (keyring old_spec) (keyring new_spec) a_nonce "whsec" ltac:(vm_compute; reflexivity)
    ltac:(reflexivity) a_nonce_ok) as (stored & He & _ & Hd & _).
  exists stored. split; [exact He|]. split; [apply (Hd ltac:(vm_compute; reflexivity) true)|].
  revert He. vm_compute. intros [= <-]. reflexivity.
Defined.
