(* ===== verification/SubscriptionStore.v ===== *)
(** * Subscriptions and the rotation of their secrets (internal/store/subscription_postgres.go, internal/store/encryption.go, internal/api/handlers_subscription.go)

    The statements on subscriptions and delivery attempts with the owner filter, the
    readiness check at startup, the rotation of stored secrets batch by batch beside
    concurrent writers, and the handlers of /subscriptions. The JSON text of the
    filters is left out: the column holds the value. *)

From stdpp Require Import sorting.
From S2P Require Import Prelude GoStrings Codec StoreErrors StoreTypes GoSort GoTime Keyset Scope Broadcast Webhook EventQuery TenantStore FieldEncryption.
From Stdlib Require Import Ascii String.
Local Open Scope Z_scope.
Local Open Scope go_scope.

Local Notation length := List.length.

(** ** Rows *)

Record SubscriptionOwner : Type := mkOwner { so_tenantID : Z; so_all : bool }.
Definition AllSubscriptions : SubscriptionOwner := mkOwner 0 true.
Definition OwnedBy (tenantID : Z) : SubscriptionOwner := mkOwner tenantID false.
Definition zeroOwner : SubscriptionOwner := mkOwner 0 false.

(** [sr_Secret] is the stored text of the column. *)
Record SubRow : Type := mkSubRow {
  sr_URL : string;
  sr_Filters : SubscriptionFilter;
  sr_Secret : string;
  sr_Enabled : bool;
  sr_FailureCount : Z;
  sr_CreatedAt : Z;
  sr_TenantID : option Z }.

Record StoredAttempt : Type := mkStoredAttempt { at_ID : Z; at_Attempt : DeliveryAttempt; at_CreatedAt : Z }.

Record SubDB : Type := mkSubDB {
  sd_rows : gmap Z SubRow;
  sd_seq : Z;
  sd_attempts : list StoredAttempt;
  sd_attemptSeq : Z }.

(** store.Subscription: [Subscription] with the two fields delivery does not use. *)
Record OwnedSubscription : Type := mkOwned { os_Sub : Subscription; os_CreatedAt : Z; os_TenantID : option Z }.

Definition set_secret (s : string) (r : SubRow) : SubRow :=
  mkSubRow (sr_URL r) (sr_Filters r) s (sr_Enabled r) (sr_FailureCount r) (sr_CreatedAt r) (sr_TenantID r).
Definition with_rows (rows : gmap Z SubRow) (d : SubDB) : SubDB := mkSubDB rows (sd_seq d) (sd_attempts d) (sd_attemptSeq d).

(** ownerPredicate: NULL is no tenant's. *)
Definition owner_matches (o : SubscriptionOwner) (r : SubRow) : bool := so_all o || bool_decide (sr_TenantID r = Some (so_tenantID o)).

(** ** Statements *)

Section Statements.
Context (enc : option FieldEncryptor).

Definition scan_row (id : Z) (r : SubRow) : result error OwnedSubscription :=
  match decryptSubscriptionSecret enc (sr_Secret r) with
  | Err e => Err (Errorf "decrypting subscription %d secret: %w" [e])
  | Ok secret => Ok (mkOwned (mkSubscription id (sr_URL r) (sr_Filters r) secret (sr_Enabled r) (sr_FailureCount r)) (sr_CreatedAt r) (sr_TenantID r))
  end.

(** scanSubscriptions: the first row that cannot be read fails the list. *)
Fixpoint scanSubscriptions (rows : list (Z * SubRow)) : result error (list OwnedSubscription) :=
  match rows with
  | [] => Ok []
  | (id, r) :: rest => let? s := scan_row id r in let? more := scanSubscriptions rest in Ok (s :: more)
  end.

Definition ordered_rows (rows : gmap Z SubRow) : list (Z * SubRow) := order_rows fst Z.ltb (map_to_list rows).

(** [now] is the database's clock, [tenantExists] the foreign key. *)
Definition CreateSubscription (tenantExists : Z -> bool) (now : Z) (nonce : result error (list Z)) (s : OwnedSubscription) (d : SubDB) : result error OwnedSubscription * SubDB :=
  let sub := os_Sub s in
  match encryptSubscriptionSecret enc nonce (su_Secret sub) with
  | Err e => (Err (Errorf "encrypting subscription secret: %w" [e]), d)
  | Ok storedSecret =>
      let id := sd_seq d + 1 in
      if negb (match os_TenantID s with Some t => tenantExists t | None => true end)
      then (Err (Errorf "creating subscription: %w" [Sentinel (PgError "23503")]), mkSubDB (sd_rows d) id (sd_attempts d) (sd_attemptSeq d))
      else (Ok (mkOwned (mkSubscription id (su_URL sub) (su_Filters sub) (su_Secret sub) (su_Enabled sub) 0) now (os_TenantID s)),
            mkSubDB (<[id := mkSubRow (su_URL sub) (su_Filters sub) storedSecret (su_Enabled sub) 0 now (os_TenantID s)]> (sd_rows d)) id (sd_attempts d) (sd_attemptSeq d))
  end.

Definition find_row (id : Z) (o : SubscriptionOwner) (d : SubDB) : option SubRow :=
  r ← sd_rows d !! id; if owner_matches o r then Some r else None.

Definition GetSubscription (id : Z) (o : SubscriptionOwner) (d : SubDB) : result error OwnedSubscription :=
  match find_row id o d with
  | None => Err (Sentinel ErrNotFound)
  | Some r => scan_row id r
  end.

Definition ListSubscriptions (o : SubscriptionOwner) (d : SubDB) : result error (list OwnedSubscription) :=
  scanSubscriptions (List.filter (fun p => owner_matches o p.2) (ordered_rows (sd_rows d))).

Definition UpdateSubscription_pg (nonce : result error (list Z)) (s : OwnedSubscription) (o : SubscriptionOwner) (d : SubDB) : result error OwnedSubscription * SubDB :=
  let sub := os_Sub s in
  match encryptSubscriptionSecret enc nonce (su_Secret sub) with
  | Err e => (Err (Errorf "encrypting subscription %d secret: %w" [e]), d)
  | Ok storedSecret =>
      match find_row (su_ID sub) o d with
      | None => (Err (Sentinel ErrNotFound), d)
      | Some r =>
          let d := with_rows (<[su_ID sub := mkSubRow (su_URL sub) (su_Filters sub) storedSecret (su_Enabled sub) (sr_FailureCount r) (sr_CreatedAt r) (sr_TenantID r)]> (sd_rows d)) d in
          (GetSubscription (su_ID sub) o d, d)
      end
  end.

Definition ListEnabledSubscriptions_pg (d : SubDB) : result error (list OwnedSubscription) :=
  scanSubscriptions (List.filter (fun p => sr_Enabled p.2) (ordered_rows (sd_rows d))).
End Statements.

(** The attempts of a deleted subscription go with it. *)
Definition DeleteSubscription (id : Z) (o : SubscriptionOwner) (d : SubDB) : result error unit * SubDB :=
  match find_row id o d with
  | None => (Err (Sentinel ErrNotFound), d)
  | Some _ => (Ok tt, mkSubDB (delete id (sd_rows d)) (sd_seq d) (List.filter (fun a => negb (da_SubscriptionID (at_Attempt a) =? id)) (sd_attempts d)) (sd_attemptSeq d))
  end.

(** (count, disabled) *)
Definition IncrementSubscriptionFailures_pg (id maxFailures : Z) (d : SubDB) : result error (Z * bool) * SubDB :=
  match sd_rows d !! id with
  | None => (Err (Sentinel ErrNotFound), d)
  | Some r =>
      let count := sr_FailureCount r + 1 in
      let enabled := if maxFailures <=? count then false else sr_Enabled r in
      (Ok (count, negb enabled), with_rows (<[id := mkSubRow (sr_URL r) (sr_Filters r) (sr_Secret r) enabled count (sr_CreatedAt r) (sr_TenantID r)]> (sd_rows d)) d)
  end.

Definition ResetSubscriptionFailures_pg (id : Z) (d : SubDB) : SubDB :=
  with_rows (alter (fun r => mkSubRow (sr_URL r) (sr_Filters r) (sr_Secret r) (sr_Enabled r) 0 (sr_CreatedAt r) (sr_TenantID r)) id (sd_rows d)) d.

Definition RecordDeliveryAttempt (now : Z) (a : DeliveryAttempt) (d : SubDB) : result error StoredAttempt * SubDB :=
  let id := sd_attemptSeq d + 1 in
  match sd_rows d !! da_SubscriptionID a with
  | None => (Err (Errorf "recording delivery attempt: %w" [Sentinel (PgError "23503")]), mkSubDB (sd_rows d) (sd_seq d) (sd_attempts d) id)
  | Some _ => let a := mkStoredAttempt id a now in (Ok a, mkSubDB (sd_rows d) (sd_seq d) (sd_attempts d ++ [a])%list id)
  end.

Definition attempts_of (id : Z) (d : SubDB) : list StoredAttempt := List.filter (fun a => da_SubscriptionID (at_Attempt a) =? id) (sd_attempts d).

(** Attempts of the same moment stay in the order they were recorded in. *)
Definition ListDeliveryAttempts (enc : option FieldEncryptor) (id limit : Z) (o : SubscriptionOwner) (d : SubDB) : result error (list StoredAttempt) :=
  let limit := if limit <=? 0 then 50 else limit in
  let? _ := GetSubscription enc id o d in
  Ok (take (Z.to_nat limit) (order_rows at_CreatedAt (flip_lt true Z.ltb) (attempts_of id d))).

Definition CountDeliveryAttempts (enc : option FieldEncryptor) (id : Z) (o : SubscriptionOwner) (d : SubDB) : result error Z :=
  let? _ := GetSubscription enc id o d in Ok (Z.of_nat (length (attempts_of id d))).

(** ** Rotation of the stored secrets *)

(** What others write between two statements of the rotation: rows of any content. *)
Inductive sub_write : Type := WPut (id : Z) (r : SubRow) | WDelete (id : Z).
Definition write_id (x : sub_write) : Z := match x with WPut id _ => id | WDelete id => id end.
Definition apply_write (rows : gmap Z SubRow) (x : sub_write) : gmap Z SubRow :=
  match x with WPut id r => <[id := r]> rows | WDelete id => delete id rows end.

(** How a statement ends; a commit can also be reported as failed and have taken
    effect. *)
Inductive stmt_end : Type := StmtDone | StmtFailed | StmtLost.
Record moment : Type := mkMoment { mo_writes : list sub_write; mo_end : stmt_end }.

(** [rt_log] records the writes of the others that took effect. *)
Record RotWorld : Type := mkRot {
  rt_rows : gmap Z SubRow;
  rt_script : list moment;
  rt_nonces : list (result error (list Z));
  rt_log : list sub_write }.

Definition free_writes (locked : gset Z) (writes : list sub_write) : list sub_write := List.filter (fun x => negb (bool_decide (write_id x ∈ locked))) writes.

(** The writes before a statement, then its end. A row the open transaction has
    updated is locked: a write to it waits, and so comes at a later moment. *)
Definition stmt (locked : gset Z) (w : RotWorld) : stmt_end * RotWorld :=
  match rt_script w with
  | [] => (StmtDone, w)
  | m :: script =>
      let writes := free_writes locked (mo_writes m) in
      (mo_end m, mkRot (fold_left apply_write writes (rt_rows w)) script (rt_nonces w) (rt_log w ++ writes)%list)
  end.

Definition draw (w : RotWorld) : result error (list Z) * RotWorld :=
  match rt_nonces w with
  | [] => (Err (text_error "unexpected EOF"), w)
  | n :: rest => (n, mkRot (rt_rows w) (rt_script w) rest (rt_log w))
  end.

Record EncryptionRotationStats : Type := mkRotStats {
  rs_Scanned : Z;
  rs_EncryptedNew : Z;
  rs_ReEncrypted : Z;
  rs_AlreadyActive : Z;
  rs_Skipped : Z }.
Definition zero_stats : EncryptionRotationStats := mkRotStats 0 0 0 0 0.
Definition scanned (s : EncryptionRotationStats) : EncryptionRotationStats := mkRotStats (rs_Scanned s + 1) (rs_EncryptedNew s) (rs_ReEncrypted s) (rs_AlreadyActive s) (rs_Skipped s).
Definition alreadyActive (s : EncryptionRotationStats) : EncryptionRotationStats := mkRotStats (rs_Scanned s) (rs_EncryptedNew s) (rs_ReEncrypted s) (rs_AlreadyActive s + 1) (rs_Skipped s).
Definition skipped (s : EncryptionRotationStats) : EncryptionRotationStats := mkRotStats (rs_Scanned s) (rs_EncryptedNew s) (rs_ReEncrypted s) (rs_AlreadyActive s) (rs_Skipped s + 1).
Definition rotated (wasEncrypted : bool) (s : EncryptionRotationStats) : EncryptionRotationStats :=
  if wasEncrypted then mkRotStats (rs_Scanned s) (rs_EncryptedNew s) (rs_ReEncrypted s + 1) (rs_AlreadyActive s) (rs_Skipped s)
  else mkRotStats (rs_Scanned s) (rs_EncryptedNew s + 1) (rs_ReEncrypted s) (rs_AlreadyActive s) (rs_Skipped s).

Section Rotation.
Context (enc : FieldEncryptor).

(** UPDATE subscriptions SET secret WHERE id AND secret, in the transaction: the
    rows it affects. [ov] holds what the transaction has written so far. *)
Definition guarded_update (id : Z) (old new : string) (ov : gmap Z string) (rows : gmap Z SubRow) : bool * gmap Z string :=
  match rows !! id with
  | Some r => if bool_decide (sr_Secret r = old) then (true, <[id := new]> ov) else (false, ov)
  | None => (false, ov)
  end.

(** The items of a batch. *)
Fixpoint rotate_items (items : list (Z * string)) (st : EncryptionRotationStats) (ov : gmap Z string) (w : RotWorld)
  : EncryptionRotationStats * result error (gmap Z string) * RotWorld :=
  match items with
  | [] => (st, Ok ov, w)
  | (id, secret) :: rest =>
      let st := scanned st in
      if (bool_decide (secret = "") || negb (NeedsRotation (Some enc) secret))%bool then rotate_items rest (alreadyActive st) ov w
      else
        let wasEncrypted := IsEncryptedValue secret in
        match DecryptString (Some enc) secret with
        | Err e => (st, Err (Errorf "decrypting subscription %d during rotation: %w" [e]), w)
        | Ok plaintext =>
            let '(nonce, w) := if bool_decide (plaintext = "") then (Ok [], w) else draw w in
            match EncryptString (Some enc) nonce plaintext with
            | Err e => (st, Err (Errorf "encrypting subscription %d during rotation: %w" [e]), w)
            | Ok reencrypted =>
                let '(o, w) := stmt (dom ov) w in
                match o with
                | StmtDone =>
                    let '(affected, ov) := guarded_update id secret reencrypted ov (rt_rows w) in
                    rotate_items rest (if (affected : bool) then rotated wasEncrypted st else skipped st) ov w
                | _ => (st, Err (Errorf "updating subscription %d during rotation: %w" [Sentinel NetError]), w)
                end
            end
        end
  end.

(** SELECT id, secret WHERE id > lastID ORDER BY id LIMIT batchSize *)
Definition next_batch (lastID batchSize : Z) (rows : gmap Z SubRow) : list (Z * string) :=
  take (Z.to_nat batchSize) (order_rows fst Z.ltb (after fst Z.ltb (Some lastID) (prod_map id sr_Secret <$> map_to_list rows))).

Definition commit (ov : gmap Z string) (w : RotWorld) : RotWorld :=
  mkRot (map_imap (fun id r => Some (match ov !! id with Some s => set_secret s r | None => r end)) (rt_rows w)) (rt_script w) (rt_nonces w) (rt_log w).

Fixpoint rotate_loop (fuel : nat) (batchSize : Z) (st : EncryptionRotationStats) (lastID : Z) (w : RotWorld)
  : option (EncryptionRotationStats * result error unit * RotWorld) :=
  match fuel with
  | O => None
  | S fuel =>
      let '(o, w) := stmt ∅ w in
      match o with
      | StmtDone =>
          let '(o, w) := stmt ∅ w in
          match o with
          | StmtDone =>
              let batch := next_batch lastID batchSize (rt_rows w) in
              if bool_decide (batch = []) then Some (st, Ok tt, w)
              else
                let '(o, w) := stmt ∅ w in
                match o with
                | StmtDone =>
                    let '(st, r, w) := rotate_items batch st ∅ w in
                    match r with
                    | Err e => Some (st, Err e, w)
                    | Ok ov =>
                        let '(o, w) := stmt (dom ov) w in
                        match o with
                        | StmtDone =>
                            let w := commit ov w in
                            if Z.of_nat (length batch) <? batchSize then Some (st, Ok tt, w)
                            else rotate_loop fuel batchSize st (default lastID (fst <$> list.last batch)) w
                        | StmtFailed => Some (st, Err (Errorf "committing encryption rotation batch: %w" [Sentinel NetError]), w)
                        | StmtLost => Some (st, Err (Errorf "committing encryption rotation batch: %w" [Sentinel NetError]), commit ov w)
                        end
                    end
                | _ => Some (st, Err (Errorf "beginning encryption rotation batch transaction: %w" [Sentinel NetError]), w)
                end
          | _ => Some (st, Err (Errorf "scanning subscriptions for encryption rotation: %w" [Sentinel NetError]), w)
          end
      | _ => Some (st, Err (Sentinel ContextCanceled), w)
      end
  end.
End Rotation.

(** Every id the table has or may get. *)
Definition rot_ids (w : RotWorld) : gset Z := dom (rt_rows w) ∪ list_to_set (write_id <$> mjoin (mo_writes <$> rt_script w)).

(** One turn more than there are ids is enough, as is proved below. *)
Definition RotateSQLSubscriptionsEncryption (enc : option FieldEncryptor) (batchSize : Z) (w : RotWorld)
  : option (EncryptionRotationStats * result error unit * RotWorld) :=
  match enc with
  | None => Some (zero_stats, Err (Sentinel ErrEncryptionKeyRequired), w)
  | Some enc => rotate_loop enc (S (size (rot_ids w))) (if batchSize <=? 0 then 250 else batchSize) zero_stats 0 w
  end.

(** The Postgres method runs the same loop over its own statements. *)
Definition Postgres_RotateSubscriptionsEncryption (enc : option FieldEncryptor) (batchSize : Z) (w : RotWorld)
  : option (EncryptionRotationStats * result error unit * RotWorld) :=
  match enc with
  | None => Some (zero_stats, Err (Sentinel ErrEncryptionKeyRequired), w)
  | Some enc => rotate_loop enc (S (size (rot_ids w))) (if batchSize <=? 0 then 250 else batchSize) zero_stats 0 w
  end.

(** ** The check at startup *)

(** secret LIKE 'enc:%': SQLite compares ASCII letters without their case. *)
Definition like_enc_postgres (s : string) : bool := match strip_prefix "enc:" s with Some _ => true | None => false end.
Definition like_enc_sqlite (s : string) : bool := like_enc_postgres (ToLower s).

(** [verified] are the versions of which a row was decrypted, [missing] those the
    keyring lacks. *)
Fixpoint verify_rows (enc : option FieldEncryptor) (rows : list (Z * SubRow)) (verified : gset string) (missing : list string) : result error (list string) :=
  match rows with
  | [] => Ok missing
  | (id, r) :: rest =>
      match EncryptedValueVersion (sr_Secret r) with
      | None => Err (Errorf "subscription %d: %w: malformed encrypted envelope" [Sentinel ErrEncryptionAuthFailed])
      | Some ver =>
          match enc with
          | None => Err (Errorf "subscription %d: %w (version %q)" [Sentinel ErrEncryptionKeyRequired])
          | Some e =>
              match fe_aeads e !! ver with
              | None => verify_rows enc rest verified (missing ++ [ver])%list
              | Some _ =>
                  if bool_decide (ver ∈ verified) then verify_rows enc rest verified missing
                  else match DecryptString enc (sr_Secret r) with
                       | Err err => Err (Errorf "subscription %d: %w" [err])
                       | Ok _ => verify_rows enc rest ({[ver]} ∪ verified) missing
                       end
              end
          end
      end
  end.

Fixpoint compactUniqueStrings (l : list string) : list string :=
  match l with
  | a :: (b :: _) as rest => if bool_decide (a = b) then compactUniqueStrings rest else a :: compactUniqueStrings rest
  | _ => l
  end.

(** [like] is the LIKE of the store; the versions of the error are the second value. *)
Definition VerifyEncryptionReadiness (like : string -> bool) (enc : option FieldEncryptor) (rows : list (Z * SubRow)) : result (error * list string) unit :=
  match verify_rows enc (List.filter (fun p => like (sr_Secret p.2)) rows) ∅ [] with
  | Err e => Err (e, [])
  | Ok [] => Ok tt
  | Ok missing => Err (Errorf "%w: database contains rows encrypted with key version(s) %v not present in keyring" [Sentinel ErrUnknownEncryptionKeyVersion], compactUniqueStrings (sort_Strings missing))
  end.

(** ** What the writes of others do *)

Definition pending (w : RotWorld) : list sub_write := mjoin (mo_writes <$> rt_script w).

Lemma apply_write_ne rows x id : write_id x <> id -> apply_write rows x !! id = rows !! id.
Proof. intros H. destruct x; cbn in *; by simplify_map_eq. Qed.

Lemma fold_writes_ne ws : forall rows id, Forall (fun x => write_id x <> id) ws -> fold_left apply_write ws rows !! id = rows !! id.
Proof.
  induction ws as [|x ws IH]; intros rows id H; cbn; [done|]. inversion H; subst. rewrite IH by done. by apply apply_write_ne.
Qed.

Lemma fold_writes_lookup ws : forall rows id r, fold_left apply_write ws rows !! id = Some r -> rows !! id = Some r \/ WPut id r ∈ ws.
Proof.
  induction ws as [|x ws IH]; intros rows id r H; cbn in H; [by left|]. apply IH in H as [H|H]; [|right; by constructor 2].
  destruct x as [i r'|i]; cbn in H; [rewrite lookup_insert_Some in H|rewrite lookup_delete_Some in H]; destruct_and?.
  - destruct H as [[-> ->]|[_ H]]; [right; by constructor|by left].
  - by left.
Qed.

Lemma fold_writes_dom ws : forall rows, dom (fold_left apply_write ws rows) ⊆ dom rows ∪ list_to_set (write_id <$> ws).
Proof.
  induction ws as [|x ws IH]; intros rows; cbn; [set_solver|]. etrans; [apply IH|]. destruct x; cbn; rewrite ?dom_insert, ?dom_delete; set_solver.
Qed.

(** The rows of [w'] are those of [w] after the writes [ws], which were pending. *)
Record advance (w w' : RotWorld) (ws : list sub_write) : Prop := {
  ad_rows : rt_rows w' = fold_left apply_write ws (rt_rows w);
  ad_log : rt_log w' = (rt_log w ++ ws)%list;
  ad_src : forall x, x ∈ ws -> x ∈ pending w;
  ad_pending : forall x, x ∈ pending w' -> x ∈ pending w;
  ad_nonces : forall n, n ∈ rt_nonces w' -> n ∈ rt_nonces w }.

Lemma advance_refl w : advance w w [].
Proof. constructor; [done|by rewrite app_nil_r|set_solver|done|done]. Qed.

Lemma advance_trans w1 w2 w3 ws ws' : advance w1 w2 ws -> advance w2 w3 ws' -> advance w1 w3 (ws ++ ws').
Proof.
  intros [R1 L1 S1 P1 N1] [R2 L2 S2 P2 N2]. constructor; [by rewrite R2, R1, fold_left_app|by rewrite L2, L1, app_assoc| |auto..].
  intros x [H|H]%elem_of_app; auto.
Qed.

Lemma stmt_advance locked w o w' : stmt locked w = (o, w') -> exists ws, advance w w' ws /\ Forall (fun x => write_id x ∉ locked) ws.
Proof.
  unfold stmt. destruct (rt_script w) as [|m script] eqn:E; intros [= <- <-]; [exists []; split; [apply advance_refl|constructor]|].
  exists (free_writes locked (mo_writes m)). assert (Hp : pending w = (mo_writes m ++ mjoin (mo_writes <$> script))%list) by (unfold pending; by rewrite E).
  split; [constructor; cbn; [done|done| | |done]|].
  - intros x Hx. rewrite Hp. apply elem_of_app. left. unfold free_writes in Hx. rewrite list_elem_of_In, filter_In in Hx. by apply list_elem_of_In, Hx.
  - intros x Hx. rewrite Hp. apply elem_of_app. by right.
  - unfold free_writes. apply List.Forall_forall. intros x Hx. apply filter_In in Hx as [_ Hx]. by to_prop.
Qed.

Lemma draw_advance w n w' : draw w = (n, w') -> advance w w' [] /\ (n ∈ rt_nonces w \/ exists e, n = Err e).
Proof.
  unfold draw. destruct (rt_nonces w) as [|n0 ns] eqn:E; intros [= <- <-]; [split; [apply advance_refl|by right; eexists]|].
  split; [constructor; cbn; [done|by rewrite app_nil_r|set_solver|done|rewrite E; set_solver]|left; set_solver].
Qed.

Lemma advance_ids w w' ws : advance w w' ws -> rot_ids w' ⊆ rot_ids w.
Proof.
  intros [R L S P N]. unfold rot_ids. fold (pending w') (pending w). rewrite R. intros id Hid. apply elem_of_union in Hid as [Hid|Hid].
  - apply fold_writes_dom in Hid. apply elem_of_union in Hid as [Hid|Hid]; [set_solver|]. apply elem_of_union. right.
    rewrite elem_of_list_to_set, list_elem_of_fmap in *. destruct Hid as (x & -> & Hx). eauto.
  - apply elem_of_union. right. rewrite elem_of_list_to_set, list_elem_of_fmap in *. destruct Hid as (x & -> & Hx). eauto.
Qed.

(** ** Rotation does not change what a secret says *)

#[local] Opaque envelope gcm_Seal gcm_Open.

Section RotationProps.
Context (enc : FieldEncryptor) (Hk : keyring_ok enc) (Hne : fe_versions enc <> []).

(** Two stored texts of the same secret. *)
Definition same_secret (a b : string) : Prop := a = b \/ exists p, DecryptString (Some enc) a = Ok p /\ DecryptString (Some enc) b = Ok p.
Definition same_row (a b : SubRow) : Prop := b = set_secret (sr_Secret b) a /\ same_secret (sr_Secret a) (sr_Secret b).
Definition same_rows (rows users : gmap Z SubRow) : Prop := forall id, option_Forall2 same_row (rows !! id) (users !! id).

Lemma same_row_refl r : same_row r r.
Proof. split; [by destruct r|by left]. Qed.

Lemma same_rows_refl rows : same_rows rows rows.
Proof. intros id. destruct (rows !! id); constructor. apply same_row_refl. Qed.

Lemma same_rows_writes ws : forall rows users, same_rows rows users -> same_rows (fold_left apply_write ws rows) (fold_left apply_write ws users).
Proof.
  induction ws as [|x ws IH]; intros rows users H; cbn; [done|]. apply IH. intros id. destruct x as [i r|i]; cbn.
  - destruct (decide (i = id)) as [->|]; [rewrite !lookup_insert_eq; constructor; apply same_row_refl|by rewrite !lookup_insert_ne].
  - destruct (decide (i = id)) as [->|]; [rewrite !lookup_delete_eq; constructor|by rewrite !lookup_delete_ne].
Qed.

Definition nonce_ok (n : result error (list Z)) : Prop := match n with Ok l => length l = NonceSize /\ Forall byte_ok l | Err _ => True end.
Definition nonces_ok (w : RotWorld) : Prop := forall n, n ∈ rt_nonces w -> nonce_ok n.

Lemma nonces_ok_advance w w' ws : advance w w' ws -> nonces_ok w -> nonces_ok w'.
Proof. intros [? ? ? ? N] H n Hn. auto. Qed.

(** A stored text under the active key that says [p]. *)
Lemma EncryptString_active nonce p s : nonce_ok nonce -> EncryptString (Some enc) nonce p = Ok s ->
  DecryptString (Some enc) s = Ok p /\ NeedsRotation (Some enc) s = false.
Proof.
  intros Hn H. destruct (decide (p = "")) as [->|Hp]; [change (Ok (E := error) "" = Ok s) in H; injection H as <-; done|].
  destruct nonce as [nonce|e]; [|unfold EncryptString in H; rewrite bool_decide_false in H by done; by destruct (fe_aeads enc !! _)].
  destruct Hn as [Hl Hb]. destruct (EncryptString_envelope enc nonce p Hk Hne Hp) as (key & Hkey & Hok & Hv & He).
  rewrite He in H. simplify_eq. split; [by apply envelope_opens|].
  destruct (envelope_shape (fe_activeVersion enc) key nonce p Hv) as (payload & Hparts & _); [by destruct nonce|].
  destruct (envelope_parts_facts _ _ _ Hparts) as (Hse & _ & _ & Hver). unfold NeedsRotation. rewrite bool_decide_false by done. rewrite Hver. by rewrite bool_decide_true.
Qed.

(** What the open transaction has written says what the rows say, under the active key. *)
Definition overlay_ok (rows : gmap Z SubRow) (ov : gmap Z string) : Prop := forall id s, ov !! id = Some s ->
  exists r p, rows !! id = Some r /\ DecryptString (Some enc) (sr_Secret r) = Ok p /\ DecryptString (Some enc) s = Ok p /\ NeedsRotation (Some enc) s = false.

Lemma overlay_ok_writes ws rows ov : Forall (fun x => write_id x ∉ dom ov) ws -> overlay_ok rows ov -> overlay_ok (fold_left apply_write ws rows) ov.
Proof.
  intros Hws H id s Hs. rewrite fold_writes_ne; [by apply H|]. eapply list.Forall_impl; [exact Hws|]. cbn. intros x Hx <-. apply Hx, elem_of_dom. by rewrite Hs.
Qed.

(** The rows of [C] are under the active key, or still to be handled as they are. *)
Definition rotated_or_left (C : Z -> Prop) (rows : gmap Z SubRow) (items : list (Z * string)) (ov : gmap Z string) : Prop := forall id r, C id -> rows !! id = Some r ->
  NeedsRotation (Some enc) (sr_Secret r) = false \/ (id, sr_Secret r) ∈ items \/ id ∈ dom ov.

Definition puts_active (ws : list sub_write) : Prop := forall id r, WPut id r ∈ ws -> NeedsRotation (Some enc) (sr_Secret r) = false.

Lemma rotated_or_left_writes C ws rows items ov : puts_active ws -> rotated_or_left C rows items ov -> rotated_or_left C (fold_left apply_write ws rows) items ov.
Proof. intros Hws H id r Hid Hr. apply fold_writes_lookup in Hr as [Hr|Hr]; [by apply H|left; by eapply Hws]. Qed.

Definition balanced (st : EncryptionRotationStats) : Prop := rs_Scanned st = rs_EncryptedNew st + rs_ReEncrypted st + rs_AlreadyActive st + rs_Skipped st.

Lemma puts_active_advance w w' ws : advance w w' ws -> puts_active (pending w) -> puts_active ws /\ puts_active (pending w').
Proof. intros [? ? S P ?] H. split; intros id r Hin; eapply H; eauto. Qed.

Lemma guarded_update_ok id old p new ov rows b ov' : guarded_update id old new ov rows = (b, ov') ->
  DecryptString (Some enc) old = Ok p -> DecryptString (Some enc) new = Ok p -> NeedsRotation (Some enc) new = false -> overlay_ok rows ov -> overlay_ok rows ov'.
Proof.
  unfold guarded_update. intros H Hold Hnew Hrot Hov. destruct (rows !! id) as [r|] eqn:E; [|by simplify_eq].
  case_bool_decide as Hs; simplify_eq; [|done]. intros i s [[-> ->]|[_ Hi]]%lookup_insert_Some; [|by apply Hov]. by exists r, p.
Qed.

Lemma guarded_update_left C id old new ov rows b ov' items : guarded_update id old new ov rows = (b, ov') ->
  rotated_or_left C rows ((id, old) :: items) ov -> rotated_or_left C rows items ov'.
Proof.
  unfold guarded_update. intros H Hl i r Hi Hr. destruct (Hl i r Hi Hr) as [?|[Hin|?]]; [by left| |].
  - apply elem_of_cons in Hin as [[= -> Hso]|Hin]; [|by right; left]. rewrite Hr, bool_decide_true in H by done. simplify_eq.
    right. right. rewrite dom_insert. set_solver.
  - right. right. destruct (rows !! id); [|by simplify_eq]. case_bool_decide; simplify_eq; [rewrite dom_insert; set_solver|done].
Qed.

(** The items of a batch: others' writes, and an overlay of rows under the active key. *)
Lemma rotate_items_spec : forall items st ov w st' r w', rotate_items enc items st ov w = (st', r, w') -> nonces_ok w -> overlay_ok (rt_rows w) ov ->
  exists ws, advance w w' ws /\ forall ov', r = Ok ov' -> overlay_ok (rt_rows w') ov' /\ (balanced st -> balanced st') /\
    (puts_active (pending w) -> forall C, rotated_or_left C (rt_rows w) items ov -> rotated_or_left C (rt_rows w') [] ov').
Proof.
  induction items as [|[id secret] rest IH]; intros st ov w st' r w' H Hn Hov; cbn [rotate_items] in H.
  { simplify_eq. exists []. split; [apply advance_refl|]. intros ov' [= <-]. done. }
  cbv zeta in H. destruct (bool_decide (secret = "") || negb (NeedsRotation (Some enc) secret)) eqn:Eact.
  { destruct (IH _ _ _ _ _ _ H Hn Hov) as (ws & Ha & Hr). exists ws. split; [done|]. intros ov' Hok. destruct (Hr ov' Hok) as (H1 & H2 & H3).
    split_and!; [done|intros Hb; apply H2; unfold balanced in *; cbn; lia|]. intros Hp C Hl. apply H3; [done|]. intros i row Hi Hrow.
    destruct (Hl i row Hi Hrow) as [?|[Hin|?]]; [by left| |by right; right]. apply elem_of_cons in Hin as [[= -> Hso]|Hin]; [|by right; left].
    left. rewrite Hso. apply orb_true_iff in Eact as [Hs|Hs]; to_prop; [by rewrite Hs|done]. }
  destruct (DecryptString (Some enc) secret) as [p|e] eqn:Ed; [|simplify_eq; exists []; split; [apply advance_refl|done]].
  destruct (if bool_decide (p = "") then (Ok [], w) else draw w) as [nonce w1] eqn:Edraw.
  assert (H1 : advance w w1 [] /\ (nonce_ok nonce \/ p = "")).
  { case_bool_decide as Hp; [simplify_eq; split; [apply advance_refl|by right]|]. destruct (draw_advance _ _ _ Edraw) as [Ha Hd]. split; [done|]. left. destruct Hd as [Hin|[e ->]]; [by apply Hn|done]. }
  destruct H1 as [Ha1 Hnonce]. destruct (EncryptString (Some enc) nonce p) as [new|e] eqn:Ee; [|simplify_eq; exists []; split; [done|done]].
  assert (Hnew : DecryptString (Some enc) new = Ok p /\ NeedsRotation (Some enc) new = false).
  { destruct Hnonce as [Hnonce|Hp]; [by eapply EncryptString_active|]. subst p. change (Ok (E := error) "" = Ok new) in Ee. by injection Ee as <-. }
  destruct Hnew as [Hnew Hrot]. destruct (stmt (dom ov) w1) as [o w2] eqn:Es. destruct (stmt_advance _ _ _ _ Es) as (ws2 & Ha2 & Hfree).
  pose proof (advance_trans _ _ _ _ _ Ha1 Ha2) as Ha. cbn in Ha.
  destruct o; [|simplify_eq; exists ws2; split; [done|done]..].
  destruct (guarded_update id secret new ov (rt_rows w2)) as [affected ov1] eqn:Eg.
  assert (Hov2 : overlay_ok (rt_rows w2) ov) by (rewrite (ad_rows _ _ _ Ha); by apply overlay_ok_writes).
  pose proof (guarded_update_ok _ _ p _ _ _ _ _ Eg Ed Hnew Hrot Hov2) as Hov1.
  destruct (IH _ _ _ _ _ _ H (nonces_ok_advance _ _ _ Ha Hn) Hov1) as (ws3 & Ha3 & Hr). exists (ws2 ++ ws3)%list. split; [by eapply advance_trans|].
  intros ov' Hok. destruct (Hr ov' Hok) as (R1 & R2 & R3). split_and!; [done| |].
  - intros Hb. apply R2. unfold balanced in *. destruct affected; [destruct (IsEncryptedValue secret)|]; cbn; lia.
  - intros Hp C Hl. destruct (puts_active_advance _ _ _ Ha Hp) as [Hp1 Hp2]. apply R3; [done|]. eapply guarded_update_left; [exact Eg|].
    rewrite (ad_rows _ _ _ Ha). by apply rotated_or_left_writes.
Qed.

Lemma commit_lookup ov w id : rt_rows (commit ov w) !! id = (fun r => match ov !! id with Some s => set_secret s r | None => r end) <$> rt_rows w !! id.
Proof. unfold commit. cbn. rewrite map_lookup_imap. by destruct (rt_rows w !! id). Qed.

Lemma commit_dom ov w : dom (rt_rows (commit ov w)) = dom (rt_rows w).
Proof. apply set_eq. intros id. rewrite !elem_of_dom, commit_lookup. by destruct (rt_rows w !! id). Qed.

Lemma commit_same ov w users : overlay_ok (rt_rows w) ov -> same_rows (rt_rows w) users -> same_rows (rt_rows (commit ov w)) users.
Proof.
  intros Hov Hs id. specialize (Hs id). rewrite commit_lookup. destruct (rt_rows w !! id) as [r|] eqn:E; [|done]. inversion Hs as [a b [Hb Hsec]|]; subst. cbn.
  destruct (ov !! id) as [s|] eqn:Eo; [|by constructor]. constructor. destruct (Hov id s Eo) as (r' & p & Hr' & Hp & Hp' & _). rewrite E in Hr'. simplify_eq.
  split; [rewrite Hb at 1; done|]. right. exists p. split; [done|]. destruct Hsec as [<-|(p' & H1 & H2)]; [done|]. congruence.
Qed.

Lemma commit_rotated C ov w : overlay_ok (rt_rows w) ov -> rotated_or_left C (rt_rows w) [] ov ->
  forall id r, C id -> rt_rows (commit ov w) !! id = Some r -> NeedsRotation (Some enc) (sr_Secret r) = false.
Proof.
  intros Hov Hl id r Hid Hr. rewrite commit_lookup in Hr. destruct (rt_rows w !! id) as [r0|] eqn:E; [|done]. cbn in Hr. injection Hr as <-.
  destruct (ov !! id) as [s|] eqn:Eo; [destruct (Hov id s Eo) as (r' & p & _ & _ & _ & Hrot); done|].
  destruct (Hl id r0 Hid E) as [?|[Hin|Hin]]; [done|set_solver|]. apply elem_of_dom in Hin. rewrite Eo in Hin. by destruct Hin.
Qed.

(** A batch holds the rows after the last id, up to its own last one; a short batch
    holds them all. *)
Lemma next_batch_spec lastID n rows : 0 < n -> let batch := next_batch lastID n rows in
  (forall id s, (id, s) ∈ batch -> lastID < id /\ id ∈ dom rows) /\
  (Z.of_nat (length batch) < n -> forall id r, rows !! id = Some r -> lastID < id -> (id, sr_Secret r) ∈ batch) /\
  (forall x, list.last batch = Some x -> forall id r, rows !! id = Some r -> lastID < id <= x.1 -> (id, sr_Secret r) ∈ batch).
Proof.
  intros Hn batch. set (L := prod_map id sr_Secret <$> map_to_list rows). set (l := order_rows fst Z.ltb (after fst Z.ltb (Some lastID) L)).
  assert (HL : forall i s, (i, s) ∈ L <-> exists r, rows !! i = Some r /\ sr_Secret r = s).
  { intros i s. unfold L. rewrite list_elem_of_fmap. split.
    - intros ([i' r] & [= -> ->] & Hin). apply elem_of_map_to_list in Hin. eauto.
    - intros (r & Hr & <-). exists (i, r). split; [done|by apply elem_of_map_to_list]. }
  assert (Hnd : NoDup (fst <$> L)).
  { unfold L. rewrite <- list_fmap_compose. erewrite (list_fmap_ext _ fst); [apply NoDup_fst_map_to_list|]. by intros ? [] ?. }
  pose proof (order_rows_strict fst Z.ltb _ (after_NoDup fst Z.ltb (Some lastID) L Hnd)) as Hs. fold l in Hs.
  assert (Hl : forall i s, (i, s) ∈ l <-> (i, s) ∈ L /\ lastID < i).
  { intros i s. unfold l. rewrite order_rows_Permutation, elem_of_after. cbn. by rewrite Z.ltb_lt. }
  assert (Hb : batch = take (Z.to_nat n) l) by done.
  split_and!.
  - intros i s Hi. rewrite Hb in Hi. apply subseteq_take in Hi. apply Hl in Hi as [Hi Hlt]. split; [done|]. apply HL in Hi as (r & Hr & _). apply elem_of_dom. by rewrite Hr.
  - intros Hshort i r Hr Hlt. rewrite Hb in *. rewrite length_take in Hshort. rewrite take_ge by lia. apply Hl. split; [apply HL; eauto|done].
  - intros x Hx i r Hr [Hlt Hle]. assert (Hin : (i, sr_Secret r) ∈ l) by (apply Hl; split; [apply HL; eauto|done]).
    rewrite <- (take_drop (Z.to_nat n) l) in Hin, Hs. rewrite <- Hb in Hin, Hs. apply elem_of_app in Hin as [Hin|Hin]; [done|].
    assert (Hlast : x ∈ batch) by (by apply last_Some_elem_of).
    pose proof (StronglySorted_app_1_elem_of _ _ _ _ _ Hs Hlast Hin) as Hlt'. unfold key_lt in Hlt'. cbn in Hlt'. lia.
Qed.

(** The rows of a batch, from its SELECT to its commit. *)
Lemma batch_rotated (C : Z -> Prop) batch ov w2 w3 w4 w5 ws3 ws4 ws5 : advance w2 w3 ws3 -> advance w3 w4 ws4 -> advance w4 w5 ws5 -> puts_active (pending w2) ->
  overlay_ok (rt_rows w5) ov -> (puts_active (pending w3) -> rotated_or_left C (rt_rows w3) batch ∅ -> rotated_or_left C (rt_rows w4) [] ov) ->
  rotated_or_left C (rt_rows w2) batch ∅ -> forall id row, C id -> rt_rows (commit ov w5) !! id = Some row -> NeedsRotation (Some enc) (sr_Secret row) = false.
Proof.
  intros A3 A4 A5 Hp2 Hov Hitems Hl. destruct (puts_active_advance _ _ _ A3 Hp2) as [Hp3 Hp3'].
  destruct (puts_active_advance _ _ _ A4 Hp3') as [_ Hp4]. destruct (puts_active_advance _ _ _ A5 Hp4) as [Hp5 _].
  apply commit_rotated; [done|]. rewrite (ad_rows _ _ _ A5). apply rotated_or_left_writes; [done|]. apply Hitems; [done|].
  rewrite (ad_rows _ _ _ A3). by apply rotated_or_left_writes.
Qed.

(** The loop: what it leaves says what the users wrote, and once it has completed
    every row is under the active key if the writers of its duration wrote so. *)
Lemma rotate_loop_spec n : 0 < n -> forall fuel st lastID w st' r w', rotate_loop enc fuel n st lastID w = Some (st', r, w') -> nonces_ok w ->
  (exists ws, rt_log w' = (rt_log w ++ ws)%list /\ forall users, same_rows (rt_rows w) users -> same_rows (rt_rows w') (fold_left apply_write ws users)) /\
  (r = Ok tt -> (balanced st -> balanced st') /\
     (puts_active (pending w) -> (forall id row, 0 < id <= lastID -> rt_rows w !! id = Some row -> NeedsRotation (Some enc) (sr_Secret row) = false) ->
      forall id row, 0 < id -> rt_rows w' !! id = Some row -> NeedsRotation (Some enc) (sr_Secret row) = false)).
Proof.
  intros Hn. induction fuel as [|fuel IH]; intros st lastID w st' r w' H Hnon; [done|]. cbn [rotate_loop] in H.
  assert (Hadv : forall w1 ws, advance w w1 ws -> exists ws, rt_log w1 = (rt_log w ++ ws)%list /\ forall users, same_rows (rt_rows w) users -> same_rows (rt_rows w1) (fold_left apply_write ws users)).
  { intros w1 ws Ha. exists ws. split; [apply Ha|]. intros users Hu. rewrite (ad_rows _ _ _ Ha). by apply same_rows_writes. }
  destruct (stmt ∅ w) as [o1 w1] eqn:E1. destruct (stmt_advance _ _ _ _ E1) as (ws1 & A1 & _).
  destruct o1; [|simplify_eq; split; [by eapply Hadv|done]..].
  destruct (stmt ∅ w1) as [o2 w2] eqn:E2. destruct (stmt_advance _ _ _ _ E2) as (ws2 & A2' & _). pose proof (advance_trans _ _ _ _ _ A1 A2') as A2. clear A2'.
  destruct o2; [|simplify_eq; split; [by eapply Hadv|done]..].
  cbv zeta in H. destruct (next_batch_spec lastID n (rt_rows w2) Hn) as (Bin & Bshort & Blast). set (batch := next_batch lastID n (rt_rows w2)) in *.
  assert (Hold : puts_active (pending w) -> (forall id row, 0 < id <= lastID -> rt_rows w !! id = Some row -> NeedsRotation (Some enc) (sr_Secret row) = false) ->
    forall id row, 0 < id <= lastID -> rt_rows w2 !! id = Some row -> NeedsRotation (Some enc) (sr_Secret row) = false).
  { intros Hp Ho id row Hid Hrow. rewrite (ad_rows _ _ _ A2) in Hrow. apply fold_writes_lookup in Hrow as [Hrow|Hrow]; [by eapply Ho|].
    destruct (puts_active_advance _ _ _ A2 Hp) as [Hp1 _]. by eapply Hp1. }
  case_bool_decide as Hb.
  { simplify_eq. split; [by eapply Hadv|]. intros _. split; [done|]. intros Hp Ho id row Hid Hrow.
    destruct (Z.le_gt_cases id lastID); [by eapply Hold|]. rewrite Hb in Bshort. specialize (Bshort ltac:(cbn; lia) id row Hrow ltac:(lia)). set_solver. }
  destruct (stmt ∅ w2) as [o3 w3] eqn:E3. destruct (stmt_advance _ _ _ _ E3) as (ws3 & A3' & _). pose proof (advance_trans _ _ _ _ _ A2 A3') as A3.
  destruct o3; [|simplify_eq; split; [by eapply Hadv|done]..].
  destruct (rotate_items enc batch st ∅ w3) as [[st4 r4] w4] eqn:E4.
  destruct (rotate_items_spec _ _ _ _ _ _ _ E4 (nonces_ok_advance _ _ _ A3 Hnon) ltac:(by intros ? ? ?%lookup_empty_Some)) as (ws4 & A4' & Hr4).
  pose proof (advance_trans _ _ _ _ _ A3 A4') as A4. destruct r4 as [ov|e]; [|simplify_eq; split; [by eapply Hadv|done]].
  destruct (Hr4 ov eq_refl) as (Hov4 & Hbal & Hleft). destruct (stmt (dom ov) w4) as [o5 w5] eqn:E5. destruct (stmt_advance _ _ _ _ E5) as (ws5 & A5' & Hfree).
  pose proof (advance_trans _ _ _ _ _ A4 A5') as A5. destruct (Hadv _ _ A5) as (ws & Hlog & Hsame).
  assert (Hov5 : overlay_ok (rt_rows w5) ov) by (rewrite (ad_rows _ _ _ A5'); by apply overlay_ok_writes).
  assert (Hcommit : rt_log (commit ov w5) = (rt_log w ++ ws)%list /\ forall users, same_rows (rt_rows w) users -> same_rows (rt_rows (commit ov w5)) (fold_left apply_write ws users)).
  { split; [done|]. intros users Hu. apply commit_same; [done|]. by apply Hsame. }
  assert (Hrot : forall C : Z -> Prop, puts_active (pending w) -> rotated_or_left C (rt_rows w2) batch ∅ ->
    forall id row, C id -> rt_rows (commit ov w5) !! id = Some row -> NeedsRotation (Some enc) (sr_Secret row) = false).
  { intros C Hp. apply (batch_rotated C batch ov w2 w3 w4 w5 ws3 ws4 ws5); try done; [by eapply puts_active_advance|]. intros Hp'. by apply Hleft. }
  destruct o5; [|simplify_eq; split; [by eapply Hadv|done]|simplify_eq; split; [by exists ws|done]].
  destruct (Z.of_nat (length batch) <? n) eqn:Elen; to_prop.
  - simplify_eq. split; [by exists ws|]. intros _. split; [done|]. intros Hp Ho. apply (Hrot (fun id => 0 < id) Hp). intros id row Hid Hrow.
    destruct (Z.le_gt_cases id lastID); [left; by eapply Hold|right; left; by apply Bshort].
  - destruct (IH _ _ _ _ _ _ H) as [(ws' & Hlog' & Hsame') Hok]; [intros nn Hnn; apply Hnon; by apply A5|].
    destruct Hcommit as [Hl1 Hs1]. split.
    + exists (ws ++ ws')%list. split; [by rewrite Hlog', Hl1, app_assoc|]. intros users Hu. rewrite fold_left_app. by apply Hsame', Hs1.
    + intros Hr. destruct (Hok Hr) as [Hb1 Hb2]. split; [auto|]. intros Hp Ho. apply Hb2; [intros ? ? Hin; eapply Hp, (ad_pending _ _ _ A5), Hin|].
      destruct (list.last batch) as [x|] eqn:Ex; [|by apply last_None in Ex]. cbn. apply (Hrot (fun id => 0 < id <= x.1) Hp). intros id row Hid Hrow.
      destruct (Z.le_gt_cases id lastID); [left; eapply Hold; [done|done| |done]; lia|right; left; eapply Blast; [done|done|lia]].
Qed.
End RotationProps.

(** ** Termination *)

Section RotationEnds.
Context (enc : FieldEncryptor).

Definition ids_after (lastID : Z) (w : RotWorld) : gset Z := filter (fun id => lastID < id) (rot_ids w).

Lemma rotate_items_advance items st ov w st' r w' : rotate_items enc items st ov w = (st', r, w') -> exists ws, advance w w' ws.
Proof.
  revert st ov w. induction items as [|[id secret] rest IH]; intros st ov w H; cbn [rotate_items] in H; [simplify_eq; exists []; apply advance_refl|].
  cbv zeta in H. destruct (_ || _); [by eapply IH|]. destruct (DecryptString (Some enc) secret) as [p|]; [|simplify_eq; exists []; apply advance_refl].
  destruct (if bool_decide (p = "") then (Ok [], w) else draw w) as [nonce w1] eqn:Edraw.
  assert (A1 : advance w w1 []) by (case_bool_decide; [simplify_eq; apply advance_refl|by eapply draw_advance]).
  destruct (EncryptString _ _ _) as [new|]; [|simplify_eq; by exists []]. destruct (stmt (dom ov) w1) as [o w2] eqn:Es. destruct (stmt_advance _ _ _ _ Es) as (ws & A2 & _).
  pose proof (advance_trans _ _ _ _ _ A1 A2) as A. destruct o; [|simplify_eq; by eexists..].
  destruct (guarded_update _ _ _ _ _) as [b ov1]. destruct (IH _ _ _ H) as (ws' & A'). eexists. by eapply advance_trans.
Qed.

Lemma commit_ids ov w : rot_ids (commit ov w) = rot_ids w.
Proof. unfold rot_ids. rewrite commit_dom. done. Qed.

(** More turns than there are ids after the last one are enough. *)
Lemma rotate_loop_ends n : 0 < n -> forall fuel st lastID w, (size (ids_after lastID w) < fuel)%nat -> rotate_loop enc fuel n st lastID w <> None.
Proof.
  intros Hn. induction fuel as [|fuel IH]; intros st lastID w Hf; [lia|]. cbn [rotate_loop].
  destruct (stmt ∅ w) as [o1 w1] eqn:E1. destruct (stmt_advance _ _ _ _ E1) as (ws1 & A1 & _). destruct o1; [|done..].
  destruct (stmt ∅ w1) as [o2 w2] eqn:E2. destruct (stmt_advance _ _ _ _ E2) as (ws2 & A2' & _). pose proof (advance_trans _ _ _ _ _ A1 A2') as A2.
  destruct o2; [|done..]. cbv zeta. destruct (next_batch_spec lastID n (rt_rows w2) Hn) as (Bin & _ & _).
  set (batch := next_batch lastID n (rt_rows w2)) in *. case_bool_decide as Hb; [done|].
  destruct (stmt ∅ w2) as [o3 w3] eqn:E3. destruct (stmt_advance _ _ _ _ E3) as (ws3 & A3' & _). destruct o3; [|done..].
  destruct (rotate_items enc batch st ∅ w3) as [[st4 r4] w4] eqn:E4. destruct (rotate_items_advance _ _ _ _ _ _ _ E4) as (ws4 & A4'). destruct r4 as [ov|]; [|done].
  destruct (stmt (dom ov) w4) as [o5 w5] eqn:E5. destruct (stmt_advance _ _ _ _ E5) as (ws5 & A5' & _). destruct o5; [|done..].
  destruct (Z.of_nat (length batch) <? n); [done|]. destruct (list.last batch) as [[i s]|] eqn:Ex; [|by apply last_None in Ex].
  apply last_Some_elem_of in Ex. destruct (Bin _ _ Ex) as [Hlt Hdom]. cbn. apply IH. eapply Nat.lt_le_trans; [|apply Nat.lt_succ_r; exact Hf].
  apply subset_size. unfold ids_after. rewrite commit_ids.
  pose proof (advance_ids _ _ _ (advance_trans _ _ _ _ _ A2 (advance_trans _ _ _ _ _ A3' (advance_trans _ _ _ _ _ A4' A5')))) as Hids.
  pose proof (advance_ids _ _ _ A2) as Hids2. assert (Hi : i ∈ rot_ids w) by (apply Hids2; unfold rot_ids; set_solver).
  split; [intros k; rewrite !elem_of_filter; intros [? ?]; split; [lia|auto]|]. intros Hc. specialize (Hc i). rewrite !elem_of_filter in Hc. destruct (Hc (conj Hlt Hi)). lia.
Qed.
End RotationEnds.

Lemma rotated_reads_alone (enc retired : FieldEncryptor) (secret : string) : NeedsRotation (Some enc) secret = false ->
  fe_aeads retired !! fe_activeVersion enc = fe_aeads enc !! fe_activeVersion enc -> DecryptString (Some retired) secret = DecryptString (Some enc) secret.
Proof.
  unfold NeedsRotation, DecryptString. intros Hr Hkey. case_bool_decide as Hs; [done|].
  destruct (EncryptedValueVersion secret) as [ver|] eqn:Ev; [|done]. to_prop. subst ver. unfold EncryptedValueVersion in Ev.
  destruct (envelope_parts secret) as [[ver payload]|] eqn:Ep; [|done]. cbn in Ev. injection Ev as ->.
  destruct (envelope_parts_facts _ _ _ Ep) as (_ & [rest ->] & _). by rewrite Hkey.
Qed.

(** C22: a rotation returns, whatever statements fail and whatever others
    write beside it, and it is invisible: the table it leaves has the rows the
    others' writes alone would have left, with the same columns, and every secret
    that the keyring could read reads the same. A run that completes has accounted
    for every row it looked at, and if everything written beside it was under the
    active key, so is every row now: a keyring that keeps only that key reads each
    as the full keyring does. *)
Theorem rotation_preserves_secrets (spec : string) (enc : FieldEncryptor) (batchSize : Z) (w : RotWorld)
    (Hspec : ParseFieldEncryptor spec = Ok enc) (Hnonces : forall n, n ∈ rt_nonces w -> nonce_ok n) :
  exists st r w', RotateSQLSubscriptionsEncryption (Some enc) batchSize w = Some (st, r, w') /\
  (exists ws, rt_log w' = (rt_log w ++ ws)%list /\ same_rows enc (rt_rows w') (fold_left apply_write ws (rt_rows w))) /\
  (r = Ok tt -> rs_Scanned st = rs_EncryptedNew st + rs_ReEncrypted st + rs_AlreadyActive st + rs_Skipped st) /\
  (r = Ok tt -> puts_active enc (pending w) -> forall id row, 0 < id -> rt_rows w' !! id = Some row ->
     NeedsRotation (Some enc) (sr_Secret row) = false /\
     forall retired, fe_aeads retired !! fe_activeVersion enc = fe_aeads enc !! fe_activeVersion enc ->
       DecryptString (Some retired) (sr_Secret row) = DecryptString (Some enc) (sr_Secret row)).
Proof.
  apply ParseFieldEncryptor_ok in Hspec as [Hk Hne]. unfold RotateSQLSubscriptionsEncryption.
  set (n := if batchSize <=? 0 then 250 else batchSize). assert (Hn : 0 < n) by (unfold n; destruct (Z.leb_spec batchSize 0); lia).
  destruct (rotate_loop enc (S (size (rot_ids w))) n zero_stats 0 w) as [[[st r] w']|] eqn:E.
  - destruct (rotate_loop_spec enc Hk Hne n Hn _ _ _ _ _ _ _ E Hnonces) as [(ws & Hlog & Hsame) Hok].
    exists st, r, w'. split; [done|]. split; [exists ws; split; [done|]; apply Hsame, same_rows_refl|].
    split; [intros Hr; by apply (Hok Hr)|]. intros Hr Hactive id row Hid Hrow.
    assert (Hrot : NeedsRotation (Some enc) (sr_Secret row) = false) by (eapply (Hok Hr); [done| |exact Hid|exact Hrow]; intros; lia).
    split; [done|]. intros retired. by apply rotated_reads_alone.
  - exfalso. eapply rotate_loop_ends; [exact Hn| |exact E]. apply Nat.lt_succ_r, subseteq_size. unfold ids_after. set_solver.
Qed.

(** ** Runs *)

Definition sealed_by (e : FieldEncryptor) (nonce : list Z) (p : string) : string := match EncryptString (Some e) (Ok nonce) p with Ok s => s | Err _ => "" end.
Definition no_filter : SubscriptionFilter := mkSubFilter "" "" "" "" 0 0 "".
Definition a_row (secret : string) : SubRow := mkSubRow "https://a.example/hook" no_filter secret true 0 Second None.
Definition other_nonce : list Z := Z.of_nat <$> seq 101 12.
Definition old_text : string := Eval vm_compute in sealed_by (keyring old_spec) a_nonce "whsec".
Definition quiet_moment : moment := mkMoment [] StmtDone.
Definition two_nonces : list (result error (list Z)) := [Ok a_nonce; Ok other_nonce].

(** A plain row, one under the old key and one that a tenant changes while the
    rotation runs; the batches have two rows. *)
Definition busy_world : RotWorld :=
  mkRot {[1 := a_row "plain"; 2 := a_row old_text; 3 := a_row ""]} [quiet_moment; quiet_moment; quiet_moment; mkMoment [WPut 1 (a_row (sealed_by (keyring new_spec) other_nonce "changed"))] StmtDone]
    two_nonces [].

Lemma two_nonces_ok : forall n, n ∈ two_nonces -> nonce_ok n.
Proof.
  intros n Hn. unfold two_nonces in Hn. rewrite !elem_of_cons in Hn. destruct Hn as [->|[->|Hn]]; [..|by apply not_elem_of_nil in Hn].
  - split; [done|apply a_nonce_ok].
  - split; [done|]. repeat constructor; unfold byte_ok; lia.
Qed.

Definition rotation_report (w : RotWorld) (batchSize : Z) : option (EncryptionRotationStats * bool * list (Z * option string)) :=
  match RotateSQLSubscriptionsEncryption (Some (keyring new_spec)) batchSize w with
  | Some (st, r, w') => Some (st, is_ok r, (fun p => (p.1, match DecryptString (Some (keyring new_spec)) (sr_Secret p.2) with Ok s => Some s | Err _ => None end)) <$> ordered_rows (rt_rows w'))
  | None => None
  end.

Definition quiet_world : RotWorld := mkRot {[1 := a_row "plain"; 2 := a_row old_text]} [] two_nonces [].
Definition new_only_spec : string := "v2:ICEiIyQlJicoKSorLC0uLzAxMjM0NTY3ODk6Ozw9Pj8".
Definition quiet_result : EncryptionRotationStats * RotWorld :=
  Eval vm_compute in match Postgres_RotateSubscriptionsEncryption (Some (keyring new_spec)) 250 quiet_world with Some (st, _, w') => (st, w') | None => (zero_stats, quiet_world) end.
Definition row_after (id : Z) (w : RotWorld) : SubRow := default (a_row "") (rt_rows w !! id).

(** A rotation beside a tenant's write; and after one without, the old key can go:
    the row it had encrypted is read with the new one alone. *)
Lemma rotation_preserves_secrets_witness :
  rotation_report busy_world 2 = Some (mkRotStats 3 0 1 1 1, true, [(1, Some "changed"); (2, Some "whsec"); (3, Some "")]) /\
  DecryptString (Some (keyring new_only_spec)) old_text <> Ok "whsec" /\
  DecryptString (Some (keyring new_only_spec)) (sr_Secret (row_after 2 quiet_result.2)) = Ok "whsec".
Proof.
  split; [vm_compute; reflexivity|]. split; [vm_compute; congruence|].
  destruct (rotation_preserves_secrets new_spec (keyring new_spec) 250 quiet_world ltac:(vm_compute; reflexivity) two_nonces_ok) as (st & r & w' & H1 & _ & _ & H2).
  assert (Hrun : RotateSQLSubscriptionsEncryption (Some (keyring new_spec)) 250 quiet_world = Some (quiet_result.1, Ok tt, quiet_result.2)) by (vm_compute; reflexivity).
  rewrite Hrun in H1. pose proof (f_equal (fun x => match x with Some (_, r, _) => r | None => r end) H1) as Hr.
  pose proof (f_equal (fun x => match x with Some (_, _, w) => w | None => w' end) H1) as Hw. cbv beta iota in Hr, Hw. clear H1 Hrun. subst w'.
  assert (Hlook : rt_rows quiet_result.2 !! 2 = Some (row_after 2 quiet_result.2)) by (vm_compute; reflexivity).
  assert (Hpend : puts_active (keyring new_spec) (pending quiet_world)) by (intros ? ? H; by apply not_elem_of_nil in H).
  destruct (H2 (eq_sym Hr) Hpend 2 (row_after 2 quiet_result.2) ltac:(reflexivity) Hlook) as [_ H3].
  rewrite (H3 (keyring new_only_spec) ltac:(vm_compute; reflexivity)). vm_compute. reflexivity.
Defined.

(** A run that reports nothing encrypted and nothing encrypted again, while a
    replica still on the old keyring writes a row: the row it was to rotate is
    counted as a concurrent update and stays under the old key. *)
Definition old_writer_world : RotWorld :=
  mkRot {[2 := a_row old_text]} [quiet_moment; quiet_moment; quiet_moment; mkMoment [WPut 2 (a_row (sealed_by (keyring old_spec) other_nonce "renewed"))] StmtDone] two_nonces [].

Lemma zero_counts_leave_old_keys :
  match RotateSQLSubscriptionsEncryption (Some (keyring new_spec)) 250 old_writer_world with
  | Some (st, r, w') => (rs_EncryptedNew st, rs_ReEncrypted st, is_ok r, EncryptedValueVersion (sr_Secret (row_after 2 w')),
                         is_ok (DecryptString (Some (keyring new_only_spec)) (sr_Secret (row_after 2 w'))))
  | None => (0, 0, false, None, true)
  end = (0, 0, true, Some "v1", false).
Proof. vm_compute. reflexivity. Qed.

(** Without a keyring a secret that begins with the prefix of the envelopes is
    stored as it is: it can never be read again, the list of enabled subscriptions
    fails for everybody, and the check at startup refuses the table. *)
Definition plain_sub (secret : string) : OwnedSubscription := mkOwned (mkSubscription 0 "https://b.example/hook" no_filter secret true 0) 0 None.
Lemma prefixed_secret_stops_deliveries :
  let d := (CreateSubscription None (fun _ => true) Second (Ok []) (plain_sub "a secret") (mkSubDB ∅ 0 [] 0)).2 in
  let '(r, d') := CreateSubscription None (fun _ => true) Second (Ok []) (plain_sub "enc:mine") d in
  (is_ok (ListEnabledSubscriptions_pg None d), is_ok r, is_ok (ListEnabledSubscriptions_pg None d'), is_ok (VerifyEncryptionReadiness like_enc_postgres None (map_to_list (sd_rows d'))))
  = (true, true, false, false).
Proof. vm_compute. reflexivity. Qed.

(** The check reads one row per version: it passes over a row it cannot decrypt. *)
Lemma readiness_samples_one_row :
  let rows := [(1, a_row old_text); (2, a_row "enc:v1:AAAA")] in
  VerifyEncryptionReadiness like_enc_postgres (Some (keyring old_spec)) rows = Ok tt /\ is_ok (DecryptString (Some (keyring old_spec)) "enc:v1:AAAA") = false.
Proof. vm_compute. done. Qed.

(** A plain secret in capitals is an envelope to SQLite's LIKE only. *)
Lemma sqlite_readiness_ignores_case :
  let rows := [(1, a_row "ENC:secret")] in
  is_ok (VerifyEncryptionReadiness like_enc_sqlite (Some (keyring old_spec)) rows) = false /\ VerifyEncryptionReadiness like_enc_postgres (Some (keyring old_spec)) rows = Ok tt /\
  DecryptString (Some (keyring old_spec)) "ENC:secret" = Ok "ENC:secret".
Proof. vm_compute. done. Qed.

(** ** The handlers of /subscriptions (internal/api/handlers_subscription.go) *)

Record Principal : Type := mkPrincipal { pr_Untenanted : bool; pr_Tenant : Tenant; pr_Scope : Scope }.

Definition subscriptionOwner (p : option Principal) : SubscriptionOwner :=
  match p with
  | None => zeroOwner
  | Some p => if pr_Untenanted p || tn_Admin (pr_Tenant p) then AllSubscriptions else OwnedBy (tn_ID (pr_Tenant p))
  end.

(** A decoded body, or the status decodeJSONBody answers. *)
Record createSubscriptionRequest : Type := mkCreateReq { cr_URL : string; cr_Filters : SubscriptionFilter; cr_Secret : string; cr_Enabled : option bool }.
Record updateSubscriptionRequest : Type := mkUpdateReq { ur_URL : option string; ur_Filters : option SubscriptionFilter; ur_Secret : option string; ur_Enabled : option bool }.

Inductive sub_reply : Type :=
  | Refused (status : Z)
  | OneSubscription (status : Z) (s : OwnedSubscription)
  | ManySubscriptions (l : list OwnedSubscription)
  | Deliveries (l : list StoredAttempt) (total : option Z)
  | NoContent.

(** parseSubscriptionID *)
Definition parseSubscriptionID (raw : string) : option Z := id ← ParseInt raw; if 0 <? id then Some id else None.

(** writeFilterError *)
Definition filter_status (e : authorize_error) : Z := match e with ForbiddenContract _ => 403 | _ => 400 end.
Definition authorize (p : option Principal) (f : SubscriptionFilter) : option authorize_error :=
  authorizeSubscriptionFilters ((fun p => mkSubPrincipal (pr_Untenanted p) (pr_Scope p)) <$> p) f.

Section Handlers.
Context (enc : option FieldEncryptor) (tenantExists : Z -> bool) (maxLimit : Z) (now : Z) (nonce : result error (list Z)) (p : option Principal).

Definition handleCreateSubscription (body : result Z createSubscriptionRequest) (d : SubDB) : sub_reply * SubDB :=
  match body with
  | Err status => (Refused status, d)
  | Ok req =>
      if bool_decide (cr_URL req = "") then (Refused 400, d)
      else if bool_decide (cr_Secret req = "") then (Refused 400, d)
      else match authorize p (cr_Filters req) with
           | Some e => (Refused (filter_status e), d)
           | None =>
               let owner := match p with Some p => if pr_Untenanted p then None else Some (tn_ID (pr_Tenant p)) | None => None end in
               let sub := mkOwned (mkSubscription 0 (cr_URL req) (cr_Filters req) (cr_Secret req) (default true (cr_Enabled req)) 0) 0 owner in
               match CreateSubscription enc tenantExists now nonce sub d with
               | (Ok created, d) => (OneSubscription 201 created, d)
               | (Err _, d) => (Refused 500, d)
               end
           end
  end.

(** The errors of a lookup by id. *)
Definition get_status (e : error) : Z := if errors_Is e ErrNotFound then 404 else 500.

Definition handleGetSubscription (raw : string) (d : SubDB) : sub_reply :=
  match parseSubscriptionID raw with
  | None => Refused 400
  | Some id => match GetSubscription enc id (subscriptionOwner p) d with Ok sub => OneSubscription 200 sub | Err e => Refused (get_status e) end
  end.

Definition handleListSubscriptions (d : SubDB) : sub_reply :=
  match ListSubscriptions enc (subscriptionOwner p) d with Ok subs => ManySubscriptions subs | Err _ => Refused 500 end.

Definition merge_update (req : updateSubscriptionRequest) (s : OwnedSubscription) : OwnedSubscription :=
  let sub := os_Sub s in
  mkOwned (mkSubscription (su_ID sub) (default (su_URL sub) (ur_URL req)) (default (su_Filters sub) (ur_Filters req)) (default (su_Secret sub) (ur_Secret req))
    (default (su_Enabled sub) (ur_Enabled req)) (su_FailureCount sub)) (os_CreatedAt s) (os_TenantID s).

Definition handleUpdateSubscription (raw : string) (body : result Z updateSubscriptionRequest) (d : SubDB) : sub_reply * SubDB :=
  match parseSubscriptionID raw with
  | None => (Refused 400, d)
  | Some id =>
      match GetSubscription enc id (subscriptionOwner p) d with
      | Err e => (Refused (get_status e), d)
      | Ok existing =>
          match body with
          | Err status => (Refused status, d)
          | Ok req =>
              let existing := merge_update req existing in
              if bool_decide (su_URL (os_Sub existing) = "") then (Refused 400, d)
              else match authorize p (su_Filters (os_Sub existing)) with
                   | Some e => (Refused (filter_status e), d)
                   | None =>
                       match UpdateSubscription_pg enc nonce existing (subscriptionOwner p) d with
                       | (Ok updated, d) => (OneSubscription 200 updated, d)
                       | (Err _, d) => (Refused 500, d)
                       end
                   end
          end
      end
  end.

Definition handleDeleteSubscription (raw : string) (d : SubDB) : sub_reply * SubDB :=
  match parseSubscriptionID raw with
  | None => (Refused 400, d)
  | Some id => match DeleteSubscription id (subscriptionOwner p) d with (Ok _, d) => (NoContent, d) | (Err e, d) => (Refused (get_status e), d) end
  end.

(** Only a subscription that is not found ends the request at the first lookup. *)
Definition handleListDeliveries (raw limitRaw : string) (d : SubDB) : sub_reply :=
  match parseSubscriptionID raw with
  | None => Refused 400
  | Some id =>
      let owner := subscriptionOwner p in
      match (match GetSubscription enc id owner d with Err e => errors_Is e ErrNotFound | Ok _ => false end) with
      | true => Refused 404
      | false =>
          match (if bool_decide (limitRaw = "") then Some DefaultQueryLimit
                 else l ← ParseInt limitRaw; if (l <? 1) || (maxLimit <? l) then None else Some l) with
          | None => Refused 400
          | Some limit =>
              match ListDeliveryAttempts enc id limit owner d with
              | Err _ => Refused 500
              | Ok attempts => Deliveries attempts (match CountDeliveryAttempts enc id owner d with Ok total => Some total | Err _ => None end)
              end
          end
      end
  end.

Inductive sub_request : Type :=
  | RCreate (body : result Z createSubscriptionRequest)
  | RGet (raw : string)
  | RList
  | RUpdate (raw : string) (body : result Z updateSubscriptionRequest)
  | RDelete (raw : string)
  | RDeliveries (raw limitRaw : string).

Definition serve_subscription (req : sub_request) (d : SubDB) : sub_reply * SubDB :=
  match req with
  | RCreate body => handleCreateSubscription body d
  | RGet raw => (handleGetSubscription raw d, d)
  | RList => (handleListSubscriptions d, d)
  | RUpdate raw body => handleUpdateSubscription raw body d
  | RDelete raw => handleDeleteSubscription raw d
  | RDeliveries raw limitRaw => (handleListDeliveries raw limitRaw d, d)
  end.
End Handlers.

(** ** A tenant's requests see and change its own subscriptions only *)

(** Ids come from the sequence, and attempts refer to subscriptions that existed. *)
Definition subs_wf (d : SubDB) : Prop :=
  (forall id, id ∈ dom (sd_rows d) -> id <= sd_seq d) /\ Forall (fun a => da_SubscriptionID (at_Attempt a) <= sd_seq d) (sd_attempts d).

(** The same subscriptions of a tenant, with the same attempts. *)
Record agree (t : Z) (d1 d2 : SubDB) : Prop := {
  ag_rows : forall id, find_row id (OwnedBy t) d1 = find_row id (OwnedBy t) d2;
  ag_seq : sd_seq d1 = sd_seq d2;
  ag_attempts : forall id, is_Some (find_row id (OwnedBy t) d1) -> attempts_of id d1 = attempts_of id d2 }.

(** The subscriptions of the others are untouched. *)
Definition kept (t : Z) (d d' : SubDB) : Prop := forall id row, sd_rows d !! id = Some row -> owner_matches (OwnedBy t) row = false ->
  sd_rows d' !! id = Some row /\ attempts_of id d' = attempts_of id d.

Lemma kept_refl t d : kept t d d.
Proof. by intros id row. Qed.

Lemma find_row_Some id o d r : find_row id o d = Some r <-> sd_rows d !! id = Some r /\ owner_matches o r = true.
Proof.
  unfold find_row. destruct (sd_rows d !! id) as [r'|]; cbn; [|by split; [|intros [? _]]].
  destruct (owner_matches o r') eqn:E; split; [by intros [= <-]|by intros [[= <-] _]|done|intros [[= <-] ?]; congruence].
Qed.

Lemma ordered_rows_elem rows id r : (id, r) ∈ ordered_rows rows <-> rows !! id = Some r.
Proof. unfold ordered_rows. rewrite order_rows_Permutation. apply elem_of_map_to_list. Qed.

Lemma ordered_rows_sorted (f : Z * SubRow -> bool) rows : StronglySorted (key_lt fst Z.ltb) (List.filter f (ordered_rows rows)).
Proof.
  pose proof (order_rows_strict fst Z.ltb (map_to_list rows) ltac:(apply NoDup_fst_map_to_list)) as Hs. fold (ordered_rows rows) in Hs.
  induction Hs as [|a l Hs IH Hf]; cbn; [constructor|]. destruct (f a); [|done]. constructor; [done|].
  rewrite list.Forall_forall in *. intros x Hx. apply list_elem_of_In, filter_In in Hx as [Hx _]. apply Hf. by apply list_elem_of_In.
Qed.

(** Strictly sorted lists with the same elements are equal. *)
Lemma strict_unique : forall l1 l2 : list (Z * SubRow), StronglySorted (key_lt fst Z.ltb) l1 -> StronglySorted (key_lt fst Z.ltb) l2 -> (forall x, x ∈ l1 <-> x ∈ l2) -> l1 = l2.
Proof.
  unfold key_lt. induction l1 as [|a l1 IH]; intros [|b l2] H1 H2 He; [done|by destruct (not_elem_of_nil b); apply He; constructor|by destruct (not_elem_of_nil a); apply He; constructor|].
  apply StronglySorted_inv in H1 as [H1 F1], H2 as [H2 F2]. rewrite list.Forall_forall in F1, F2.
  assert (a = b) as ->.
  { destruct (proj1 (elem_of_cons l2 a b) (proj1 (He a) (list_elem_of_here _ _))) as [|Ha]; [done|].
    destruct (proj1 (elem_of_cons l1 b a) (proj2 (He b) (list_elem_of_here _ _))) as [|Hb]; [done|]. apply F2 in Ha. apply F1 in Hb. lia. }
  f_equal. apply IH; [done..|]. intros x. specialize (He x). rewrite !elem_of_cons in He. split; intros Hx.
  - destruct (proj1 He (or_intror Hx)) as [->|]; [|done]. apply F1 in Hx. lia.
  - destruct (proj2 He (or_intror Hx)) as [->|]; [|done]. apply F2 in Hx. lia.
Qed.

Lemma agree_lists t d1 d2 : agree t d1 d2 ->
  List.filter (fun p => owner_matches (OwnedBy t) p.2) (ordered_rows (sd_rows d1)) = List.filter (fun p => owner_matches (OwnedBy t) p.2) (ordered_rows (sd_rows d2)).
Proof.
  intros H. apply strict_unique; [apply ordered_rows_sorted..|]. intros [id r]. rewrite !list_elem_of_In, !filter_In, <- !list_elem_of_In, !ordered_rows_elem. cbn [snd].
  rewrite <- !find_row_Some. by rewrite (ag_rows _ _ _ H).
Qed.

Lemma find_row_insert t id r d d' i : sd_rows d' = <[id := r]> (sd_rows d) -> owner_matches (OwnedBy t) r = true ->
  find_row i (OwnedBy t) d' = if decide (i = id) then Some r else find_row i (OwnedBy t) d.
Proof.
  intros Hd Hr. unfold find_row. rewrite Hd. destruct (decide (i = id)) as [->|Hne]; [rewrite lookup_insert_eq; cbn [mbind option_bind]; by rewrite Hr|by rewrite lookup_insert_ne].
Qed.

Lemma agree_insert t id r d1 d2 d1' d2' : agree t d1 d2 -> owner_matches (OwnedBy t) r = true ->
  sd_rows d1' = <[id := r]> (sd_rows d1) -> sd_rows d2' = <[id := r]> (sd_rows d2) -> sd_seq d1' = sd_seq d2' ->
  sd_attempts d1' = sd_attempts d1 -> sd_attempts d2' = sd_attempts d2 -> attempts_of id d1 = attempts_of id d2 -> agree t d1' d2'.
Proof.
  intros [H1 H2 H3] Hr E1 E2 Es A1 A2 Ha. constructor; [|done|].
  - intros i. rewrite (find_row_insert t id r d1 d1') by done. rewrite (find_row_insert t id r d2 d2') by done. by rewrite H1.
  - intros i Hi. rewrite (find_row_insert t id r d1 d1') in Hi by done. unfold attempts_of in *. rewrite A1, A2. destruct (decide (i = id)) as [->|]; [done|by apply H3].
Qed.

Lemma no_attempts d id : subs_wf d -> sd_seq d < id -> attempts_of id d = [].
Proof.
  intros [_ H] Hid. unfold attempts_of. induction H as [|a l Ha Hl IH]; cbn; [done|]. destruct (Z.eqb_spec (da_SubscriptionID (at_Attempt a)) id); [lia|done].
Qed.

(** One handler on two databases that agree on the tenant's subscriptions. *)
Section Confined.
Context (enc : option FieldEncryptor) (tenantExists : Z -> bool) (maxLimit : Z) (p : Principal).
Hypothesis Htenanted : pr_Untenanted p = false.
Hypothesis Hplain : tn_Admin (pr_Tenant p) = false.
Local Notation t := (tn_ID (pr_Tenant p)).

Lemma owner_is_tenant : subscriptionOwner (Some p) = OwnedBy t.
Proof. unfold subscriptionOwner. by rewrite Htenanted, Hplain. Qed.

Lemma get_agree d1 d2 id : agree t d1 d2 -> GetSubscription enc id (OwnedBy t) d1 = GetSubscription enc id (OwnedBy t) d2.
Proof. intros H. unfold GetSubscription. by rewrite (ag_rows _ _ _ H). Qed.

Lemma attempts_agree d1 d2 id : agree t d1 d2 -> is_ok (GetSubscription enc id (OwnedBy t) d1) = true -> attempts_of id d1 = attempts_of id d2.
Proof. intros H Hok. apply (ag_attempts _ _ _ H). unfold GetSubscription in Hok. destruct (find_row id (OwnedBy t) d1); [done|done]. Qed.

(** What a request leaves of two databases, and the first one's invariant. *)
Definition confined (d1 d2 d1' d2' : SubDB) : Prop := agree t d1' d2' /\ kept t d1 d1' /\ subs_wf d1' /\ subs_wf d2'.

Lemma confined_refl d1 d2 : agree t d1 d2 -> subs_wf d1 -> subs_wf d2 -> confined d1 d2 d1 d2.
Proof. intros. split_and!; [done|apply kept_refl|done|done]. Qed.

Lemma wf_insert d id r : subs_wf d -> id <= sd_seq d -> subs_wf (with_rows (<[id := r]> (sd_rows d)) d).
Proof. intros [H1 H2] Hid. split; cbn; [|done]. intros i. rewrite dom_insert, elem_of_union, elem_of_singleton. intros [->|Hi]; [done|by apply H1]. Qed.

Lemma create_confined now nonce body d1 d2 : agree t d1 d2 -> subs_wf d1 -> subs_wf d2 ->
  let '(r1, d1') := handleCreateSubscription enc tenantExists now nonce (Some p) body d1 in
  let '(r2, d2') := handleCreateSubscription enc tenantExists now nonce (Some p) body d2 in r1 = r2 /\ confined d1 d2 d1' d2'.
Proof.
  intros H W1 W2. pose proof (confined_refl d1 d2 H W1 W2) as Hr. unfold handleCreateSubscription. destruct body as [req|]; [|done]. case_bool_decide; [done|]. case_bool_decide; [done|].
  destruct (authorize (Some p) (cr_Filters req)); [done|]. rewrite Htenanted. cbv zeta. unfold CreateSubscription. cbv zeta. cbn [os_Sub su_Secret os_TenantID].
  destruct (encryptSubscriptionSecret enc nonce (cr_Secret req)) as [stored|]; [|done]. rewrite <- (ag_seq _ _ _ H).
  destruct (tenantExists t); cbn [negb].
  - split; [done|]. pose proof (ag_seq _ _ _ H) as Hs. destruct W1 as [B1 A1], W2 as [B2 A2]. split_and!.
    + eapply agree_insert; [exact H| |done..|]; [cbn; by rewrite bool_decide_true|]. rewrite !no_attempts; [done|by split|lia|by split|lia].
    + intros id row Hrow _. cbn. rewrite lookup_insert_ne; [done|]. intros <-. assert (sd_seq d1 + 1 <= sd_seq d1) by (apply B1, elem_of_dom; by rewrite Hrow). lia.
    + split; cbn; [|eapply list.Forall_impl; [exact A1|cbn; lia]]. intros i. rewrite dom_insert, elem_of_union, elem_of_singleton. intros [->|Hi%B1]; lia.
    + split; cbn; [|eapply list.Forall_impl; [exact A2|cbn; lia]]. intros i. rewrite dom_insert, elem_of_union, elem_of_singleton. intros [->|Hi%B2]; lia.
  - split; [done|]. pose proof (ag_seq _ _ _ H) as Hs. destruct H as [G1 G2 G3], W1 as [B1 A1], W2 as [B2 A2]. split_and!; [by constructor|by intros ? ?| |].
    + split; cbn; [intros i Hi%B1; lia|eapply list.Forall_impl; [exact A1|cbn; lia]].
    + split; cbn; [intros i Hi%B2; lia|eapply list.Forall_impl; [exact A2|cbn; lia]].
Qed.

Lemma scan_row_id id r s : scan_row enc id r = Ok s -> su_ID (os_Sub s) = id.
Proof. unfold scan_row. destruct (decryptSubscriptionSecret enc (sr_Secret r)); [|done]. by intros [= <-]. Qed.

Lemma update_confined nonce raw body d1 d2 : agree t d1 d2 -> subs_wf d1 -> subs_wf d2 ->
  let '(r1, d1') := handleUpdateSubscription enc nonce (Some p) raw body d1 in
  let '(r2, d2') := handleUpdateSubscription enc nonce (Some p) raw body d2 in r1 = r2 /\ confined d1 d2 d1' d2'.
Proof.
  intros H W1 W2. pose proof (confined_refl d1 d2 H W1 W2) as Hr. unfold handleUpdateSubscription. destruct (parseSubscriptionID raw) as [id|]; [|done].
  rewrite owner_is_tenant, <- (get_agree d1 d2) by done. destruct (GetSubscription enc id (OwnedBy t) d1) as [s|] eqn:Eg; [|done].
  destruct body as [req|]; [|done]. cbv zeta. case_bool_decide; [done|]. destruct (authorize _ _); [done|]. unfold UpdateSubscription_pg. cbv zeta.
  destruct (encryptSubscriptionSecret _ _ _) as [stored|]; [|done]. cbn [os_Sub su_ID merge_update]. rewrite <- (ag_rows _ _ _ H).
  destruct (find_row (su_ID (os_Sub s)) (OwnedBy t) d1) as [r|] eqn:Ef; [|done].
  pose proof (proj1 (find_row_Some _ _ _ _) Ef) as [E1 Eo]. rewrite (ag_rows _ _ _ H) in Ef. pose proof (proj1 (find_row_Some _ _ _ _) Ef) as [E2 _].
  set (r' := mkSubRow _ _ _ _ _ _ _). set (i := su_ID (os_Sub s)) in *.
  assert (Ha : agree t (with_rows (<[i := r']> (sd_rows d1)) d1) (with_rows (<[i := r']> (sd_rows d2)) d2)).
  { eapply (agree_insert t i r'); [exact H|exact Eo|done|done|apply H|done|done|]. apply (ag_attempts _ _ _ H). rewrite (ag_rows _ _ _ H), Ef. done. }
  rewrite (get_agree _ _ i Ha). destruct (GetSubscription enc i (OwnedBy t) (with_rows (<[i := r']> (sd_rows d2)) d2)); (split; [done|]).
  all: split_and!; [done| |apply wf_insert; [done|]; apply W1, elem_of_dom; by rewrite E1|apply wf_insert; [done|]; apply W2, elem_of_dom; by rewrite E2].
  all: intros j row Hj Hother; cbn; rewrite lookup_insert_ne; [done|]; intros <-; rewrite E1 in Hj; simplify_eq; congruence.
Qed.

Lemma attempts_delete d rows id i : attempts_of i (mkSubDB rows (sd_seq d) (List.filter (fun a => negb (da_SubscriptionID (at_Attempt a) =? id)) (sd_attempts d)) (sd_attemptSeq d)) =
  if i =? id then [] else attempts_of i d.
Proof.
  unfold attempts_of. cbn [sd_attempts]. induction (sd_attempts d) as [|a l IH]; [by destruct (i =? id)|]. cbn.
  destruct (Z.eqb_spec (da_SubscriptionID (at_Attempt a)) id) as [Ha|Ha]; cbn; rewrite IH; destruct (Z.eqb_spec i id) as [Hi|Hi]; try done;
    destruct (Z.eqb_spec (da_SubscriptionID (at_Attempt a)) i); congruence.
Qed.

Lemma wf_delete d id : subs_wf d -> subs_wf (DeleteSubscription id (OwnedBy t) d).2.
Proof.
  intros [B A]. unfold DeleteSubscription. destruct (find_row id (OwnedBy t) d); [|by split]. split; cbn.
  - intros i. rewrite dom_delete. intros Hi. apply B. set_solver.
  - rewrite List.Forall_forall in *. intros a [Ha _]%filter_In. by apply A.
Qed.

Lemma delete_confined raw d1 d2 : agree t d1 d2 -> subs_wf d1 -> subs_wf d2 ->
  let '(r1, d1') := handleDeleteSubscription (Some p) raw d1 in
  let '(r2, d2') := handleDeleteSubscription (Some p) raw d2 in r1 = r2 /\ confined d1 d2 d1' d2'.
Proof.
  intros H W1 W2. pose proof (confined_refl d1 d2 H W1 W2) as Hr. unfold handleDeleteSubscription. destruct (parseSubscriptionID raw) as [id|]; [|done].
  rewrite owner_is_tenant. pose proof (wf_delete d1 id W1) as D1. pose proof (wf_delete d2 id W2) as D2. unfold DeleteSubscription in *.
  pose proof (ag_rows _ _ _ H id) as He. destruct (find_row id (OwnedBy t) d1) as [r|] eqn:Ef; rewrite <- He in *; [|done].
  apply find_row_Some in Ef as [E1 Eo]. split; [done|]. split_and!; [constructor| |done|done].
  - intros i. unfold find_row. cbn. destruct (decide (id = i)) as [->|]; [by rewrite !lookup_delete_eq|]. rewrite !lookup_delete_ne by done. apply (ag_rows _ _ _ H i).
  - apply H.
  - intros i Hi. rewrite !attempts_delete. destruct (Z.eqb_spec i id) as [|Hne]; [done|]. apply (ag_attempts _ _ _ H). unfold find_row in *. cbn in Hi. by rewrite lookup_delete_ne in Hi.
  - intros i row Hi Hother. assert (i <> id) by (intros ->; congruence). split; [cbn; by rewrite lookup_delete_ne|]. rewrite attempts_delete. by destruct (Z.eqb_spec i id).
Qed.

Lemma deliveries_agree d1 d2 raw limitRaw : agree t d1 d2 -> handleListDeliveries enc maxLimit (Some p) raw limitRaw d1 = handleListDeliveries enc maxLimit (Some p) raw limitRaw d2.
Proof.
  intros H. unfold handleListDeliveries. destruct (parseSubscriptionID raw) as [id|]; [|done]. rewrite owner_is_tenant. cbv zeta. rewrite (get_agree d1 d2) by done.
  destruct (match GetSubscription enc id (OwnedBy t) d2 with Ok _ => _ | Err _ => _ end); [done|]. destruct (if bool_decide (limitRaw = "") then _ else _) as [limit|]; [|done].
  unfold ListDeliveryAttempts, CountDeliveryAttempts. pose proof (attempts_agree d1 d2 id H) as Ha. rewrite (get_agree d1 d2) in * by done.
  destruct (GetSubscription enc id (OwnedBy t) d2); cbn; [|done]. by rewrite Ha.
Qed.

Lemma serve_confined now nonce req d1 d2 : agree t d1 d2 -> subs_wf d1 -> subs_wf d2 ->
  let '(r1, d1') := serve_subscription enc tenantExists maxLimit now nonce (Some p) req d1 in
  let '(r2, d2') := serve_subscription enc tenantExists maxLimit now nonce (Some p) req d2 in r1 = r2 /\ confined d1 d2 d1' d2'.
Proof.
  intros H W1 W2. pose proof (confined_refl d1 d2 H W1 W2) as Hr. destruct req; cbn [serve_subscription].
  - by apply create_confined.
  - split; [|done]. unfold handleGetSubscription. destruct (parseSubscriptionID raw); [|done]. rewrite owner_is_tenant. by rewrite (get_agree d1 d2).
  - split; [|done]. unfold handleListSubscriptions. rewrite owner_is_tenant. unfold ListSubscriptions. by rewrite (agree_lists t d1 d2).
  - by apply update_confined.
  - by apply delete_confined.
  - split; [by apply deliveries_agree|done].
Qed.
End Confined.

(** Requests of one principal, one after the other, each with its time and nonce. *)
Fixpoint serve_all (enc : option FieldEncryptor) (tenantExists : Z -> bool) (maxLimit : Z) (p : option Principal) (requests : list (sub_request * Z * result error (list Z))) (d : SubDB)
  : list sub_reply * SubDB :=
  match requests with
  | [] => ([], d)
  | (req, now, nonce) :: rest =>
      let '(r, d) := serve_subscription enc tenantExists maxLimit now nonce p req d in
      let '(rs, d) := serve_all enc tenantExists maxLimit p rest d in (r :: rs, d)
  end.

(** C21: whatever requests a tenant sends, the answers do not depend on the
    subscriptions and deliveries of anybody else (only on the next id of the shared
    sequence), and those are left as they were: a tenant that is no administrator
    neither learns of nor changes another's callbacks, secrets or delivery
    history. *)
Theorem subscriptions_stay_in_tenant (enc : option FieldEncryptor) (tenantExists : Z -> bool) (maxLimit : Z) (p : Principal)
    (requests : list (sub_request * Z * result error (list Z))) (d1 d2 : SubDB)
    (Htenanted : pr_Untenanted p = false) (Hplain : tn_Admin (pr_Tenant p) = false) (Hagree : agree (tn_ID (pr_Tenant p)) d1 d2) (Hw1 : subs_wf d1) (Hw2 : subs_wf d2) :
  let '(replies1, d1') := serve_all enc tenantExists maxLimit (Some p) requests d1 in
  let '(replies2, d2') := serve_all enc tenantExists maxLimit (Some p) requests d2 in
  replies1 = replies2 /\ agree (tn_ID (pr_Tenant p)) d1' d2' /\ kept (tn_ID (pr_Tenant p)) d1 d1'.
Proof.
  revert d1 d2 Hagree Hw1 Hw2. induction requests as [|[[req now] nonce] rest IH]; intros d1 d2 Ha W1 W2; cbn [serve_all]; [split_and!; [done|done|apply kept_refl]|].
  pose proof (serve_confined enc tenantExists maxLimit p Htenanted Hplain now nonce req d1 d2 Ha W1 W2) as Hs.
  destruct (serve_subscription _ _ _ _ _ _ _ d1) as [r1 d1'], (serve_subscription _ _ _ _ _ _ _ d2) as [r2 d2']. destruct Hs as (<- & Ha' & Hk & W1' & W2').
  specialize (IH d1' d2' Ha' W1' W2'). destruct (serve_all _ _ _ _ _ d1') as [rs1 e1], (serve_all _ _ _ _ _ d2') as [rs2 e2]. destruct IH as (<- & Ha'' & Hk').
  split_and!; [done|done|]. intros id row Hrow Ho. destruct (Hk id row Hrow Ho) as [H1 H2]. destruct (Hk' id row H1 Ho) as [H3 H4]. split; [done|congruence].
Qed.

Definition tenant_row (t : Z) (secret : string) : SubRow := mkSubRow "https://t.example" no_filter secret true 0 Second (Some t).
Definition wildcard_tenant (id : Z) : Principal := mkPrincipal false (mkTenant id "t" true false true None None None 0) WildcardScope.

(** Tenant 1 lists, reads and deletes by guessing: another tenant's subscription is
    as good as absent. *)
Definition guesses : list (sub_request * Z * result error (list Z)) := [(RList, Second, Ok []); (RGet "2", Second, Ok []); (RDelete "2", Second, Ok []); (RDelete "1", Second, Ok [])].
Definition alone_db : SubDB := mkSubDB {[1 := tenant_row 1 "mine"]} 2 [] 0.
Definition shared_db : SubDB := mkSubDB {[1 := tenant_row 1 "mine"; 2 := tenant_row 2 "theirs"]} 2 [mkStoredAttempt 1 (mkAttempt 2 "e" true 200 3 "") Second] 1.

Lemma subscriptions_stay_in_tenant_witness :
  let replies d := (serve_all None (fun _ => true) 500 (Some (wildcard_tenant 1)) guesses d).1 in
  replies shared_db = replies alone_db /\ (replies shared_db !! 1%nat, replies shared_db !! 2%nat, replies shared_db !! 3%nat) = (Some (Refused 404), Some (Refused 404), Some NoContent) /\
  kept 1 shared_db (serve_all None (fun _ => true) 500 (Some (wildcard_tenant 1)) guesses shared_db).2.
Proof.
  assert (Ha : agree 1 shared_db alone_db).
  { constructor; [|reflexivity|].
    - intros id. unfold find_row, shared_db, alone_db. cbn [sd_rows]. destruct (decide (id = 1)) as [->|]; [reflexivity|].
      destruct (decide (id = 2)) as [->|]; [reflexivity|]. by rewrite lookup_insert_ne, !lookup_singleton_ne.
    - intros id [r Hr]. apply find_row_Some in Hr as [Hr Ho]. unfold shared_db in Hr. cbn [sd_rows] in Hr. apply lookup_insert_Some in Hr as [[<- <-]|[_ Hr]]; [reflexivity|].
      apply lookup_singleton_Some in Hr as [<- <-]. cbn in Ho. done. }
  pose proof (subscriptions_stay_in_tenant None (fun _ => true) 500 (wildcard_tenant 1) guesses shared_db alone_db eq_refl eq_refl Ha) as H.
  assert (W1 : subs_wf shared_db).
  { split; [|repeat constructor; vm_compute; congruence]. intros id Hid. unfold shared_db in *. cbn [sd_rows sd_seq] in *. rewrite dom_insert, dom_singleton in Hid. set_unfold. lia. }
  assert (W2 : subs_wf alone_db).
  { split; [|constructor]. intros id Hid. unfold alone_db in *. cbn [sd_rows sd_seq] in *. rewrite dom_singleton in Hid. set_unfold. lia. }
  specialize (H W1 W2). cbv beta zeta. destruct (serve_all _ _ _ _ _ shared_db) as [rs1 e1] eqn:E1, (serve_all _ _ _ _ _ alone_db) as [rs2 e2]. destruct H as (H1 & _ & H3).
  cbn [fst snd]. split; [exact H1|]. split; [|exact H3]. vm_compute in E1. injection E1 as <- _. reflexivity.
Defined.

(** An update can clear the secret that creation requires. *)
Lemma update_clears_secret :
  match serve_subscription None (fun _ => true) 500 Second (Ok []) (Some (wildcard_tenant 1)) (RUpdate "1" (Ok (mkUpdateReq None None (Some "") None))) alone_db with
  | (OneSubscription status s, _) => (status, su_Secret (os_Sub s))
  | _ => (0, "none")
  end = (200, "").
Proof. vm_compute. reflexivity. Qed.
